(* ===== verification/_CoqProject ===== *)
-Q . S2P
Prelude.v
H2Errors.v
Flow.v
DataBuffer.v
Pipe.v
Frame.v
FrameWrite.v
Framer.v
NetText.v
ConnState.v
H2Transport.v
H2Conn.v
H2ReadLoop.v
H2Safe.v
H2System.v
H2Props.v
H2Body.v
H2Retry.v
Bufio.v
Chunked.v
WantQueue.v
H1Pool.v
H1PoolInv.v
H1PoolSafe.v
H1PoolSystem.v
H1PoolProps.v
BufioLine.v
TextProto.v
Transfer.v
TransferBody.v
H1Message.v
H1ReadLoop.v
H1Exchange.v
TransferWrite.v
HeaderSort.v
H1Request.v
ReqRetry.v
ReqMultipart.v
ReqPrepare.v
ReqResponse.v
ParallelDownload.v
NetAddr.v
Redirect.v
AltSvc.v
AltSvcUse.v
H1RoundTrip.v
H2Pool.v
NetIP.v
Socks.v
Digest.v
H1Conn.v
H3Frame.v
H3Headers.v
H3Stream.v
H3Request.v
H3Conn.v
H3Transport.v
H2Request.v
H2Upload.v
H2RoundTrip.v
ReqResult.v
ReqSend.v
