(* ===== verification/Prelude.v ===== *)
(** * A verification of the transports of the [req] HTTP client

    [req] (Go) sends HTTP requests with its own copies of the standard library's
    HTTP/1 and HTTP/2 transports and of quic-go's HTTP/3. This development models the code that decides
    what goes over the wire and who may use a connection when, and proves what a
    caller relies on. A definition carries the name of the Go function it
    translates; a type's methods are prefixed with the type where names clash
    ([body_Read], [es_Close], [Inflow.add]).

    ** The program and its parts

    A request runs down through these layers, and its response back up.
    - [Client.R] to [Client.do] ([src/request.go], [src/middleware.go],
      [src/retry.go], [src/response.go]): [ReqPrepare] (the middlewares that fill in
      cookies, headers, query and body), [ReqMultipart] (multipart bodies and their
      length), [ReqRetry] ([Request.do]: attempts, conditions, hooks, intervals),
      [ReqResponse] (the limit on the size of a body), [ReqSend] (path parameters, the
      request that is sent, reports of progress), [ReqResult] ([Client.roundTrip]: a
      response is limited, read, decoded, saved and closed), [Redirect] (the redirect
      policies of [src/redirect.go] and the chains of requests they allow),
      [Digest] (digest authentication, [src/digest.go]: the challenges that requests
      share), and [ParallelDownload] (the workers of [src/parallel_download.go] as a system).
    - [Transport.roundTrip] ([src/transport.go]) chooses between the protocols and
      retries: [H1RoundTrip], over what the connections it uses do, with the cached
      connections, a forced version, and the fall-back from HTTP/3. It asks for
      alternative services first: [NetAddr] ([src/internal/netutil]), [AltSvc] (the
      parser of Alt-Svc headers and the jar), [AltSvcUse] (announcements, the
      goroutines that connect, failures and cool-down, as a step relation).
    - The connection pool of HTTP/1 ([src/transport.go]: [getConn],
      [queueForIdleConn], [queueForDial], [tryPutIdleConn], ...) finds or dials a
      connection. [WantQueue]: the queue of waiting requests. [H1Pool]: the state of
      the pool and every critical section on it, run by goroutines whose next
      critical section is [exec]. [H1PoolInv], [H1PoolSafe], [H1PoolSystem],
      [H1PoolProps]: its invariant, each operation keeps it, every reachable state
      has it, and what follows.
    - A request is written: [HeaderSort] (the order of header fields,
      [src/internal/header/sort.go]), [TransferWrite] (the framing of the body,
      [src/transfer.go]), [H1Request] ([persistConn.writeRequest], [src/header.go]).
    - A response is read: [Bufio] and [BufioLine] (the [bufio.Reader] the
      connection is read through, under the limit on the size of a head), [TextProto] (header fields,
      [src/textproto_reader.go]), [Chunked] ([src/internal/chunked.go]), [Transfer]
      and [TransferBody] (framing and body, [src/transfer.go]), [H1Message]
      ([readResponse] and [bodyEOFSignal], [src/transport.go]).
    - The read loop of a connection and the callers that hold bodies run
      concurrently: [H1ReadLoop] is their step relation, [H1Exchange] composes it
      with [H1Message] over a whole exchange of requests and responses. [H1Conn] has
      all goroutines of a connection ([persistConn.roundTrip], the write loop and the
      read loop) and says what a caller is told when it fails. A connection through a
      SOCKS proxy is set up by [Socks] ([src/internal/socks]), with [NetIP] for the
      addresses.
    - HTTP/2 ([src/internal/http2]): [H2Errors] (error values, settings), [Flow]
      (windows), [DataBuffer] and [Pipe] (the bytes of a response body), [Frame],
      [FrameWrite], [Framer] (frames parsed, written, and header blocks assembled),
      [NetText] (header keys), [H2Transport] (pure decisions: retries, limits),
      [ConnState] (a [ClientConn] and its streams, and the monad its code runs in),
      [H2Conn] (operations of requests), [H2ReadLoop] (the handlers of the read
      loop and response bodies). [H2Safe] proves each operation safe, [H2System] makes
      the connection a transition system, [H2Props] and [H2Body] hold the functional
      theorems. [H2Request] has the header block of a request and [H2Upload] its
      body, sent while the other goroutines go on ([encodeAndWriteHeaders],
      [writeRequestBody]); [H2RoundTrip] the retries of [RoundTripOpt], and [H2Retry]
      what the peer must have said for a request to be retried. [H2Pool] is the
      pool of HTTP/2 connections ([client_conn_pool.go]) with its calls in flight.
    - HTTP/3 ([src/internal/http3]): [H3Frame] (frames on a QUIC stream), [H3Headers]
      (field lists that are read), [H3Stream] (responses and their bodies), [H3Request]
      (requests that are written), [H3Conn] (the streams, the control stream and
      the datagrams of a connection as a system of goroutines) and [H3Transport] (the
      cache of connections and its retries, as another).

    ** How state and operations correspond to the code

    A struct is a record, an interface value that is one of a few types an inductive
    type, a Go map a [gmap], a pointer an integer naming an object of an explicit
    store. Code that takes a lock runs in a monad with the outcomes return, panic
    and deadlock (a goroutine that locks a mutex it holds); a critical section is
    one atomic step and goroutines interleave between them. Integers are [Z] with
    the wrapping of their Go type written where the code can overflow; bytes are
    [Z], strings [String.string]. [error] is an inductive type with a constructor
    for each error value the code compares with [==]. The network is a list of
    segments: the theorems quantify over all of them, so they hold however TCP cuts
    the stream.

    Code outside the repository is a parameter: the HPACK decoder (class
    [HpackDecoder], with its documented behaviour [HpackDecoderOk]) and encoder
    ([HpackPair]: a decoder that has read what was encoded gives the fields), QPACK
    and QUIC ([QuicVarint] and the streams of [H3Frame]), the digest library,
    [httpguts] predicates, punycode, and the order in which a Go map is ranged
    over. What is used of Go's standard library is modelled ([bufio], [io.Copy],
    [strconv], [net/textproto], [sort.Sort]).

    ** What the theorems show

    - Safety of the concurrent parts: [H2System.connection_never_stuck] (streams opened,
      headers and DATA written, frames handled, bodies read and closed),
      [H1PoolProps.pool_never_panics]; one owner per connection
      ([H1PoolProps.connection_has_one_owner]); bounds on windows and connections;
      no lost wake-up ([H1PoolProps.waiting_request_means_host_busy],
      [H2Pool.waiting_request_woken]); a rank that falls until every caller of a closed
      connection has returned ([H1Conn.callers_come_back]); the streams and the
      connections of HTTP/3 ([H3Conn.h3_streams_tracked],
      [H3Transport.h3_idle_close_safe]); the alternatives of a host
      ([AltSvcUse.alternatives_never_panic]); the counts of digest nonces
      ([Digest.nonce_counts_unique]); parallel downloads
      ([ParallelDownload.download_complete]).
    - Retries and redirects: every attempt gets an untouched body, all bodies are closed,
      and requests that cannot be replayed are not repeated but by the fall-back from HTTP/3
      ([H1RoundTrip.round_trip_bodies]); a retry goes back to what the peer said or to
      nothing having been written ([H2Retry.retry_is_safe],
      [H3Transport.h3_retry_is_safe], [H1Conn.nothing_written_is_true]); attempts are bounded
      ([ReqRetry.retries_bounded], [H2RoundTrip.h2_round_trips_bounded]); redirects
      stay within the hosts and domains the policies name ([Redirect.redirects_confined]).
    - Nothing is mixed up between messages: [H1Exchange.responses_matched],
      [H1Conn.requests_do_not_mix] (over whole histories of a connection), [TransferBody.accepted_response_framing] (no
      smuggling), [H1Request.request_reaches_server].
    - What the client makes of a response: [ReqResult.response_read_whole],
      [ReqResult.response_saved], [ReqResult.response_released] (no body is left open
      by mistake); and of a URL: [ReqSend.path_params_filled].
    - Round trips, each with a reader or writer of the other side defined from the
      protocol: requests of the three versions ([H1Request.request_reaches_server],
      [H2Request.h2_request_read_back] with [H2Upload.h2_body_sent],
      [H3Request.h3_request_read_back]), responses ([H1Message.response_roundtrip],
      [H3Stream.h3_response_roundtrip]), frames, header blocks, settings, SOCKS
      handshakes, ordered forms, Alt-Svc headers. What is proved of HTTP/3 besides:
      [H3Conn.h3_settings_exchanged], [H3Conn.h3_goaway_respected],
      [H3Stream.h3_body_read].
    - Refinement: the chunked buffer and the pipe are byte queues, the waiting
      requests a list, the chunked reader a decoder of the flat stream.
    - Errors and limits: truncated bodies are reported, every reader terminates;
      and where the code does not do what it says, a theorem with the input that
      shows it. Where such a case makes a general statement false the theorem excludes it
      by a hypothesis and says so in its comment: a second [Close] of a body with bytes
      unread and a peer's frame size of 0 (HTTP/2), framing names spelled
      otherwise (HTTP/1), TE fields (HTTP/2 and HTTP/3), a SOCKS method that was not
      offered, segments whose status is not looked at, downloads above 2^53 octets.

    ** Fuel

    A loop of the code that is not structural takes fuel; its result is [None] when
    it runs out, and each such loop has a lemma that the fuel it is given is enough
    (the fuel is the length of what is still unread, plus one), used by the
    theorems on termination ([H1Message.response_read_total],
    [Framer.Reader.ReadFrame_returns], [TransferWrite.copy_loop_spec]). The retry loop of
    [H1RoundTrip] may go on for ever; with fuel [n] it gives what its first [n] passes did,
    the theorem holds of all these beginnings, and it returns after a new connection.

    ** Not modelled

    Dialing, TLS and its fingerprints, HTTP proxies, QUIC itself, DNS, tracing,
    logging and dumps (except where a dump changes what is read), and the option
    setters of the client and request types: they only store values or call other
    systems. The decoders of compressed bodies and charsets are calls into other
    libraries. Of HTTP/2, the wait for a 100 response and the health check of a
    connection; of HTTP/3, the configuration of TLS and QUIC and the idle timer. Time
    is absent: a timer is an event that may happen at any moment. *)


From stdpp Require Export base list list_numbers gmap strings numbers pretty.
From Stdlib Require Export ZArith Lia.
From Stdlib Require Ascii String.
#[global] Open Scope Z_scope.

(** ** Machine integers

    Go's fixed-width integers are values of [Z] inside the range of their
    type; every conversion or arithmetic operation that may leave the range is
    written with the wrapping function of the result type. *)

Definition wrapu (w z : Z) : Z := z mod 2 ^ w.
Definition wraps (w z : Z) : Z := (z + 2 ^ (w - 1)) mod 2 ^ w - 2 ^ (w - 1).

Definition u8 (z : Z) : Z := wrapu 8 z.
Definition u16 (z : Z) : Z := wrapu 16 z.
Definition u32 (z : Z) : Z := wrapu 32 z.
Definition u64 (z : Z) : Z := wrapu 64 z.
Definition i32 (z : Z) : Z := wraps 32 z.
Definition i64 (z : Z) : Z := wraps 64 z.

Definition is_u8 (z : Z) : Prop := 0 <= z < 256.
Definition is_u16 (z : Z) : Prop := 0 <= z < 65536.
Definition is_u32 (z : Z) : Prop := 0 <= z < 4294967296.
Definition is_u64 (z : Z) : Prop := 0 <= z < 18446744073709551616.
Definition is_i32 (z : Z) : Prop := -2147483648 <= z < 2147483648.
Definition is_i64 (z : Z) : Prop := -9223372036854775808 <= z < 9223372036854775808.

#[export] Instance is_u8_dec z : Decision (is_u8 z).
Proof. unfold is_u8. apply _. Defined.
#[export] Instance is_u16_dec z : Decision (is_u16 z).
Proof. unfold is_u16. apply _. Defined.
#[export] Instance is_u32_dec z : Decision (is_u32 z).
Proof. unfold is_u32. apply _. Defined.
#[export] Instance is_i32_dec z : Decision (is_i32 z).
Proof. unfold is_i32. apply _. Defined.

Lemma u8_eq z : u8 z = z mod 256. Proof. reflexivity. Qed.
Lemma u16_eq z : u16 z = z mod 65536. Proof. reflexivity. Qed.
Lemma u32_eq z : u32 z = z mod 4294967296. Proof. reflexivity. Qed.
Lemma u64_eq z : u64 z = z mod 18446744073709551616. Proof. reflexivity. Qed.
Lemma i32_eq z : i32 z = (z + 2147483648) mod 4294967296 - 2147483648.
Proof. reflexivity. Qed.
Lemma i64_eq z :
  i64 z = (z + 9223372036854775808) mod 18446744073709551616 - 9223372036854775808.
Proof. reflexivity. Qed.

Create Rewrite HintDb wordsize.
#[export] Hint Rewrite u8_eq u16_eq u32_eq u64_eq i32_eq i64_eq : wordsize.

(** [word] proves goals about machine integers: it replaces the wrapping
    functions by [mod], then runs [lia] with division and remainder turned into
    linear constraints. *)
Ltac word_prep :=
  unfold is_u8, is_u16, is_u32, is_u64, is_i32, is_i64 in *;
  autorewrite with wordsize in *.
Ltac word := word_prep; Z.div_mod_to_equations; lia.

Lemma u8_small z : is_u8 z -> u8 z = z. Proof. intros; word. Qed.
Lemma u16_small z : is_u16 z -> u16 z = z. Proof. intros; word. Qed.
Lemma u32_small z : is_u32 z -> u32 z = z. Proof. intros; word. Qed.
Lemma u64_small z : is_u64 z -> u64 z = z. Proof. intros; word. Qed.
Lemma i32_small z : is_i32 z -> i32 z = z. Proof. intros; word. Qed.
Lemma i64_small z : is_i64 z -> i64 z = z. Proof. intros; word. Qed.
Lemma u8_range z : is_u8 (u8 z). Proof. word. Qed.
Lemma u16_range z : is_u16 (u16 z). Proof. word. Qed.
Lemma u32_range z : is_u32 (u32 z). Proof. word. Qed.
Lemma u64_range z : is_u64 (u64 z). Proof. word. Qed.
Lemma i32_range z : is_i32 (i32 z). Proof. word. Qed.

Create HintDb ranges.
#[export] Hint Resolve u8_range u16_range u32_range u64_range i32_range : ranges.

(** Bit operations as arithmetic. *)
Lemma lor_shiftl_add a b n :
  0 <= n -> 0 <= b < 2 ^ n -> Z.lor (Z.shiftl a n) b = a * 2 ^ n + b.
Proof.
  intros Hn Hb. rewrite <- Z.shiftl_mul_pow2 by lia.
  rewrite Z.add_nocarry_lxor; [symmetry; apply Z.lxor_lor|];
    apply Z.bits_inj'; intros k Hk; rewrite Z.land_spec, Z.bits_0;
    destruct (Z.ltb_spec k n).
  1,3: rewrite Z.shiftl_spec_low by lia; reflexivity.
  all: rewrite <- (Z.mod_small b (2 ^ n)) by lia;
    rewrite Z.mod_pow2_bits_high by lia; apply andb_false_r.
Qed.

Lemma land_mask a n : 0 <= n -> Z.land a (2 ^ n - 1) = a mod 2 ^ n.
Proof. intros. rewrite <- Z.land_ones by lia. rewrite Z.ones_equiv. f_equal. Qed.

Lemma land31 a : Z.land a 2147483647 = a mod 2147483648.
Proof. apply (land_mask a 31). lia. Qed.

Lemma land_bit31 a : is_u32 a -> (Z.land a 2147483648 =? 0) = (a <? 2147483648).
Proof.
  intros Ha. change 2147483648 with (2 ^ 31) at 1.
  assert (Z.land a (2 ^ 31) = if Z.testbit a 31 then 2 ^ 31 else 0) as ->.
  { apply Z.bits_inj'; intros k Hk. rewrite Z.land_spec, Z.pow2_bits_eqb by lia.
    destruct (Z.eqb_spec 31 k) as [<-|Hne].
    - rewrite andb_true_r. destruct (Z.testbit a 31); [|by rewrite Z.bits_0].
      by rewrite Z.pow2_bits_true by lia.
    - rewrite andb_false_r. destruct (Z.testbit a 31); [|by rewrite Z.bits_0].
      by rewrite Z.pow2_bits_false by lia. }
  rewrite Z.testbit_eqb by lia. change (2 ^ 31) with 2147483648.
  destruct (Z.ltb_spec a 2147483648).
  - rewrite Z.div_small by word. reflexivity.
  - replace (a / 2147483648) with 1 by word. reflexivity.
Qed.

(** ** Bytes

    A byte is an integer in [0, 256); a Go [[]byte] is a list of them. *)
Abbreviation byte := Z (only parsing).
Abbreviation bytes := (list Z) (only parsing).

Definition bytes_ok (p : bytes) : Prop := Forall is_u8 p.

(** The length of a slice as the [int] the code computes with. *)
Definition len {A} (p : list A) : Z := Z.of_nat (length p).

Lemma len_nonneg {A} (p : list A) : 0 <= len p. Proof. unfold len; lia. Qed.
Lemma len_nil {A} : len ([] : list A) = 0. Proof. reflexivity. Qed.
Lemma len_cons {A} (x : A) p : len (x :: p) = 1 + len p.
Proof. unfold len. cbn [length]. lia. Qed.
Lemma len_app {A} (p q : list A) : len (p ++ q) = len p + len q.
Proof. unfold len. rewrite length_app. lia. Qed.

Lemma len_zero {A} (p : list A) : len p = 0 -> p = [].
Proof. destruct p; [done|]. unfold len. cbn. lia. Qed.

Create Rewrite HintDb lens.
#[export] Hint Rewrite @len_nil @len_cons @len_app : lens.

(** [v != nil] *)
Definition is_set {A} (o : option A) : bool := match o with Some _ => true | None => false end.

(** Go's slicing [p[:n]] and [p[n:]] (bounds are checked by the callers that
    need it) and [make([]byte, n)]. *)
Definition slice_to {A} (p : list A) (n : Z) : list A := take (Z.to_nat n) p.
Definition slice_from {A} (p : list A) (n : Z) : list A := drop (Z.to_nat n) p.
Definition zeros (n : Z) : bytes := replicate (Z.to_nat n) 0.

Lemma slice_to_app {A} (p q : list A) n : n = len p -> slice_to (p ++ q) n = p.
Proof. intros ->. unfold slice_to, len. rewrite Nat2Z.id. apply take_app_length. Qed.
Lemma slice_from_app {A} (p q : list A) n : n = len p -> slice_from (p ++ q) n = q.
Proof. intros ->. unfold slice_from, len. rewrite Nat2Z.id. apply drop_app_length. Qed.
Lemma slice_to_from {A} (p : list A) n : slice_to p n ++ slice_from p n = p.
Proof. apply take_drop. Qed.
Lemma len_slice_to {A} (p : list A) n : 0 <= n <= len p -> len (slice_to p n) = n.
Proof. unfold len, slice_to. intros. rewrite length_take. lia. Qed.
Lemma len_slice_from {A} (p : list A) n : 0 <= n <= len p -> len (slice_from p n) = len p - n.
Proof. unfold len, slice_from. intros. rewrite length_drop. lia. Qed.
Lemma len_zeros n : 0 <= n -> len (zeros n) = n.
Proof. unfold len, zeros. intros. rewrite length_replicate. lia. Qed.
Lemma bytes_ok_app p q : bytes_ok (p ++ q) <-> bytes_ok p /\ bytes_ok q.
Proof. apply Forall_app. Qed.
Lemma bytes_ok_zeros n : bytes_ok (zeros n).
Proof. apply Forall_replicate. word. Qed.
#[export] Hint Resolve bytes_ok_zeros : ranges.

(** ** Big-endian integers ([encoding/binary.BigEndian], and the byte shifts
    of the writers) *)
Definition put_u16 (v : Z) : bytes := [u8 (Z.shiftr v 8); u8 v].
Definition put_u24 (v : Z) : bytes :=
  [u8 (Z.shiftr v 16); u8 (Z.shiftr v 8); u8 v].
Definition put_u32 (v : Z) : bytes :=
  [u8 (Z.shiftr v 24); u8 (Z.shiftr v 16); u8 (Z.shiftr v 8); u8 v].

Definition get_u16 (p : bytes) : Z :=
  Z.lor (Z.shiftl (p !!! 0%nat) 8) (p !!! 1%nat).
Definition get_u24 (p : bytes) : Z :=
  Z.lor (Z.shiftl (Z.lor (Z.shiftl (p !!! 0%nat) 8) (p !!! 1%nat)) 8) (p !!! 2%nat).
Definition get_u32 (p : bytes) : Z :=
  Z.lor (Z.shiftl (get_u24 p) 8) (p !!! 3%nat).

Lemma lor_byte a b : is_u8 b -> Z.lor (Z.shiftl a 8) b = a * 256 + b.
Proof. intros. apply (lor_shiftl_add a b 8); [lia|]. exact H. Qed.

Lemma get_put_u16 v q : is_u16 v -> get_u16 (put_u16 v ++ q) = v.
Proof.
  intros. unfold get_u16, put_u16. cbn. rewrite lor_byte by auto with ranges.
  rewrite Z.shiftr_div_pow2 by lia. change (2 ^ 8) with 256. word.
Qed.

Lemma get_put_u24 v q : 0 <= v < 16777216 -> get_u24 (put_u24 v ++ q) = v.
Proof.
  intros. unfold get_u24, put_u24. cbn. rewrite !lor_byte by auto with ranges.
  rewrite !Z.shiftr_div_pow2 by lia. change (2 ^ 8) with 256.
  change (2 ^ 16) with 65536. word.
Qed.

Lemma get_put_u32 v q : is_u32 v -> get_u32 (put_u32 v ++ q) = v.
Proof.
  intros. unfold get_u32, get_u24, put_u32. cbn. rewrite !lor_byte by auto with ranges.
  rewrite !Z.shiftr_div_pow2 by lia. change (2 ^ 8) with 256.
  change (2 ^ 16) with 65536. change (2 ^ 24) with 16777216. word.
Qed.

Lemma bytes_ok_lookup p i : bytes_ok p -> is_u8 (p !!! i).
Proof.
  intros Hp. rewrite list_lookup_total_alt. destruct (p !! i) eqn:E; cbn; [|word].
  by eapply Forall_lookup_1 in E.
Qed.

Lemma get_u32_range p : bytes_ok p -> is_u32 (get_u32 p).
Proof.
  intros Hp. unfold get_u32, get_u24.
  pose proof (bytes_ok_lookup p 0 Hp). pose proof (bytes_ok_lookup p 1 Hp).
  pose proof (bytes_ok_lookup p 2 Hp). pose proof (bytes_ok_lookup p 3 Hp).
  rewrite !lor_byte by assumption. word.
Qed.

Lemma len_put_u16 v : len (put_u16 v) = 2. Proof. reflexivity. Qed.
Lemma len_put_u24 v : len (put_u24 v) = 3. Proof. reflexivity. Qed.
Lemma len_put_u32 v : len (put_u32 v) = 4. Proof. reflexivity. Qed.
#[export] Hint Rewrite len_put_u16 len_put_u24 len_put_u32 : lens.

(** ** Strings

    A Go [string] is Rocq's [string]; the conversions below are Go's
    [[]byte(s)] and [string(p)]. *)
Fixpoint bytes_of_string (s : string) : bytes :=
  match s with
  | String.EmptyString => []
  | String.String c s => Z.of_N (Ascii.N_of_ascii c) :: bytes_of_string s
  end.
Fixpoint string_of_bytes (p : bytes) : string :=
  match p with
  | [] => String.EmptyString
  | b :: p => String.String (Ascii.ascii_of_N (Z.to_N b)) (string_of_bytes p)
  end.

Lemma string_of_bytes_of_string s : string_of_bytes (bytes_of_string s) = s.
Proof.
  induction s as [|c s IH]; cbn; [done|].
  by rewrite N2Z.id, Ascii.ascii_N_embedding, IH.
Qed.

Lemma bytes_of_string_of_bytes p : bytes_ok p -> bytes_of_string (string_of_bytes p) = p.
Proof.
  induction 1 as [|b p Hb Hp IH]; cbn; [done|].
  rewrite Ascii.N_ascii_embedding, IH by word. f_equal. word.
Qed.

Lemma bytes_of_string_ok s : bytes_ok (bytes_of_string s).
Proof.
  induction s as [|c s IH]; cbn; constructor; [|done].
  pose proof (Ascii.N_ascii_bounded c). word.
Qed.
#[export] Hint Resolve bytes_of_string_ok : ranges.

Lemma bytes_of_string_app s t :
  bytes_of_string (String.append s t) = bytes_of_string s ++ bytes_of_string t.
Proof.
  induction s as [|c s IH]; [done|].
  change (String.append (String.String c s) t) with (String.String c (String.append s t)).
  cbn. by rewrite IH.
Qed.

(** ** Formatting ([%d], [%x] of [fmt]) *)
Definition format_dec (z : Z) : string := pretty z.

Definition hex_digit (d : Z) : byte := if d <? 10 then 48 + d else 87 + d.
Fixpoint hex_go (fuel : nat) (n : Z) (acc : bytes) : bytes :=
  match fuel with
  | O => acc
  | S fuel =>
      let acc := hex_digit (n mod 16) :: acc in
      if n / 16 =? 0 then acc else hex_go fuel (n / 16) acc
  end.
(** Sixteen hexadecimal digits are enough for the 64-bit integers printed. *)
Definition format_hex (n : Z) : bytes := hex_go 16 n [].

(** ** Results

    [result E A] is the pair of results [(A, error)] of a Go function with
    error type [E]: exactly one of the two is meaningful. *)
Inductive result (E A : Type) : Type :=
| Ok (a : A)
| Err (e : E).
Arguments Ok {E A} a.
Arguments Err {E A} e.

Definition result_bind {E A B} (m : result E A) (k : A -> result E B) : result E B :=
  match m with Ok a => k a | Err e => Err e end.

Declare Scope result_scope.
Delimit Scope result_scope with result.
Module ResultNotations.
Notation "'let?' x ':=' m 'in' k" := (result_bind m (fun x => k))
  (at level 10, x pattern, m at level 100, k at level 200) : result_scope.
#[global] Open Scope result_scope.
End ResultNotations.

Lemma result_bind_Ok {E A B} (m : result E A) (k : A -> result E B) b :
  result_bind m k = Ok b <-> exists a, m = Ok a /\ k a = Ok b.
Proof.
  destruct m as [a|e]; cbn; split; intros H; eauto; try done.
  - by destruct H as (a' & [= ->] & H).
  - by destruct H as (a' & H & _).
Qed.

(** [go_step] is the case analysis on the guards of a translated function:
    it destructs the scrutinee of every match or [if] of the goal. *)
Ltac go_step :=
  repeat match goal with
  | |- context [match ?x with _ => _ end] => destruct x eqn:?; cbn
  end.

(** ** Counting the values of a finite map *)
Definition b2z (b : bool) : Z := if b then 1 else 0.

Section Count.
Context {K A : Type} `{Countable K}.
Implicit Types (f : A -> bool) (m : gmap K A).

Definition count f m : Z := Z.of_nat (size (filter (fun kv => f kv.2 = true) m)).

Lemma count_nonneg f m : 0 <= count f m. Proof. unfold count. lia. Qed.
Lemma count_empty f : count f ∅ = 0. Proof. unfold count. by rewrite map_filter_empty, map_size_empty. Qed.
Lemma count_insert_new f m i x : m !! i = None -> count f (<[i := x]> m) = count f m + b2z (f x).
Proof.
  intros Hi. unfold count. destruct (f x) eqn:Hf; cbn.
  - rewrite map_filter_insert_True by done. rewrite map_size_insert_None; [lia|].
    apply map_lookup_filter_None. by left.
  - rewrite map_filter_insert_False by (cbn; congruence). rewrite delete_id by done. lia.
Qed.
Lemma count_insert f m i x : count f (<[i := x]> m) = count f (delete i m) + b2z (f x).
Proof. rewrite <- insert_delete_eq. apply count_insert_new, lookup_delete_eq. Qed.
Lemma count_delete f m i x : m !! i = Some x -> count f m = count f (delete i m) + b2z (f x).
Proof. intros Hi. rewrite <- count_insert. by rewrite insert_id. Qed.
Lemma count_update f m i x y : m !! i = Some x -> f y = f x -> count f (<[i := y]> m) = count f m.
Proof. intros Hi Hf. rewrite count_insert, (count_delete f m i x Hi). by rewrite Hf. Qed.
Lemma count_ext f f' m : (forall i x, m !! i = Some x -> f x = f' x) -> count f m = count f' m.
Proof.
  intros Hf. unfold count. do 2 f_equal. apply map_filter_ext. intros i x Hx. cbn. by rewrite (Hf i x Hx).
Qed.
Lemma count_pos f m i x : m !! i = Some x -> f x = true -> 0 < count f m.
Proof. intros Hi Hf. rewrite (count_delete f m i x Hi), Hf. cbn. pose proof (count_nonneg f (delete i m)). lia. Qed.
Lemma count_zero f m i x : count f m = 0 -> m !! i = Some x -> f x = false.
Proof. intros Hc Hi. destruct (f x) eqn:E; [|done]. pose proof (count_pos f m i x Hi E). lia. Qed.
Lemma count_none f m : (forall i x, m !! i = Some x -> f x = false) -> count f m = 0.
Proof.
  intros Hf. unfold count. rewrite map_empty_filter_2, map_size_empty; [done|].
  intros i x Hx. cbn. by rewrite (Hf i x Hx).
Qed.
End Count.

(** [splits] splits the conjunctions one sees, without unfolding definitions. *)
Ltac splits := repeat lazymatch goal with |- _ /\ _ => split end.

Lemma forallb_Forall {A} (f : A -> bool) (l : list A) : forallb f l = true <-> Forall (fun x => f x = true) l.
Proof. induction l as [|a l IH]; cbn; [done|]. by rewrite andb_true_iff, Forall_cons, IH. Qed.
