(* ===== verification/H2Errors.v ===== *)
(** * HTTP/2 errors, settings and priority parameters

    Models [src/internal/http2/errors.go], [src/http2/setting.go],
    [src/http2/priority.go] and the helpers of [src/internal/http2/http2.go].
    [error] is the Go interface value [error] as this package uses it: one
    constructor per concrete error type, and one per sentinel variable, so that
    Go's [==] on errors is equality of constructors. *)

From S2P Require Import Prelude.

(** An [ErrCode] is a [uint32]. *)
Abbreviation ErrCode := Z (only parsing).

Definition ErrCodeNo : ErrCode := 0.
Definition ErrCodeProtocol : ErrCode := 1.
Definition ErrCodeInternal : ErrCode := 2.
Definition ErrCodeFlowControl : ErrCode := 3.
Definition ErrCodeSettingsTimeout : ErrCode := 4.
Definition ErrCodeStreamClosed : ErrCode := 5.
Definition ErrCodeFrameSize : ErrCode := 6.
Definition ErrCodeRefusedStream : ErrCode := 7.
Definition ErrCodeCancel : ErrCode := 8.
Definition ErrCodeCompression : ErrCode := 9.
Definition ErrCodeConnect : ErrCode := 10.
Definition ErrCodeEnhanceYourCalm : ErrCode := 11.
Definition ErrCodeInadequateSecurity : ErrCode := 12.
Definition ErrCodeHTTP11Required : ErrCode := 13.

Definition errCodeName (e : ErrCode) : option string :=
  match e with
  | 0 => Some "NO_ERROR" | 1 => Some "PROTOCOL_ERROR" | 2 => Some "INTERNAL_ERROR"
  | 3 => Some "FLOW_CONTROL_ERROR" | 4 => Some "SETTINGS_TIMEOUT"
  | 5 => Some "STREAM_CLOSED" | 6 => Some "FRAME_SIZE_ERROR"
  | 7 => Some "REFUSED_STREAM" | 8 => Some "CANCEL" | 9 => Some "COMPRESSION_ERROR"
  | 10 => Some "CONNECT_ERROR" | 11 => Some "ENHANCE_YOUR_CALM"
  | 12 => Some "INADEQUATE_SECURITY" | 13 => Some "HTTP_1_1_REQUIRED"
  | _ => None
  end%string.

Definition ErrCode_String (e : ErrCode) : string :=
  match errCodeName e with
  | Some s => s
  | None => "unknown error code 0x" +:+ string_of_bytes (format_hex e)
  end.

Definition ErrCode_stringToken (e : ErrCode) : string :=
  match errCodeName e with
  | Some s => s
  | None => "ERR_UNKNOWN_" +:+ format_dec e
  end.

#[warnings="-register-all"]
Inductive error : Type :=
| ConnectionError (code : ErrCode)
| StreamError (StreamID : Z) (Code : ErrCode) (Cause : option error)
| connError (Code : ErrCode) (Reason : string)
| pseudoHeaderError (s : string)
| duplicatePseudoHeaderError (s : string)
| headerFieldNameError (s : string)
| headerFieldValueError (s : string)
| GoAwayError (LastStreamID : Z) (Code : ErrCode) (DebugData : bytes)
| errFromPeer | errMixPseudoHeaderTypes | errPseudoAfterRegular
| errStreamID | errDepStreamID | errPadLength | errPadBytes | errFrameTooLarge
| errReadEmpty | errClosedPipeWrite | errUninitializedPipeWrite
| errClientConnClosed | errClientConnUnusable | errClientConnGotGoAway
| ErrNoCachedConn | errStopReqBodyWrite | errReqBodyTooLong | errClosedResponseBody
| errResponseHeaderListSize | errRequestHeaderListSize | errNilRequestURL | errH2Timeout
| ErrRequestCanceled | ctx_Canceled | ctx_DeadlineExceeded
| io_EOF | io_ErrUnexpectedEOF | io_ErrShortWrite
| net_OpError (Op : string)
| protocolError (s : string) (line : bytes)
| badStringError (what val : string)
| unsupportedTEError (what : string) (raw : list string)
| fmt_Errorf (format : string) (args : list string)
| errors_New (msg : string).

#[export] Instance error_eq_dec : EqDecision error.
Proof.
  refine (fix go (x y : error) : {x = y} + {x <> y} := _).
  assert (forall a b : option error, {a = b} + {a <> b}) as Hopt
    by (intros [a|] [b|]; [destruct (go a b)|..]; (left; congruence) || (right; congruence)).
  decide equality; lazymatch goal with
  | |- {?a = ?b :> option error} + {_} => apply Hopt
  | |- {?a = ?b} + {_} => exact (decide (a = b))
  end.
Defined.

Definition streamError (id : Z) (code : ErrCode) : error := StreamError id code None.

(** [Error()] of the error types whose text needs no quoting. *)
Definition ConnectionError_Error (e : ErrCode) : string :=
  "connection error: " +:+ ErrCode_String e.

Definition StreamError_Error (error_text : error -> string) (id : Z) (code : ErrCode)
    (cause : option error) : string :=
  match cause with
  | Some c => "stream error: stream ID " +:+ format_dec id +:+ "; " +:+ ErrCode_String code
                +:+ "; " +:+ error_text c
  | None => "stream error: stream ID " +:+ format_dec id +:+ "; " +:+ ErrCode_String code
  end.

Definition connError_Error (code : ErrCode) (reason : string) : string :=
  "http2: connection error: " +:+ ErrCode_String code +:+ ": " +:+ reason.

(** ** Settings and priority parameters ([src/http2]) *)
Abbreviation SettingID := Z (only parsing).
Definition SettingHeaderTableSize : SettingID := 1.
Definition SettingEnablePush : SettingID := 2.
Definition SettingMaxConcurrentStreams : SettingID := 3.
Definition SettingInitialWindowSize : SettingID := 4.
Definition SettingMaxFrameSize : SettingID := 5.
Definition SettingMaxHeaderListSize : SettingID := 6.

Definition settingName (s : SettingID) : option string :=
  match s with
  | 1 => Some "HEADER_TABLE_SIZE" | 2 => Some "ENABLE_PUSH"
  | 3 => Some "MAX_CONCURRENT_STREAMS" | 4 => Some "INITIAL_WINDOW_SIZE"
  | 5 => Some "MAX_FRAME_SIZE" | 6 => Some "MAX_HEADER_LIST_SIZE"
  | _ => None
  end%string.

Definition SettingID_String (s : SettingID) : string :=
  match settingName s with
  | Some v => v
  | None => "UNKNOWN_SETTING_" +:+ format_dec s
  end.

Record Setting := mkSetting { S_ID : SettingID; S_Val : Z }.
#[export] Instance Setting_eq_dec : EqDecision Setting.
Proof. solve_decision. Defined.

Definition Setting_ok (s : Setting) : Prop := is_u16 (S_ID s) /\ is_u32 (S_Val s).

Definition Setting_String (s : Setting) : string :=
  "[" +:+ SettingID_String (S_ID s) +:+ " = " +:+ format_dec (S_Val s) +:+ "]".

Record PriorityParam := mkPriorityParam {
  StreamDep : Z;
  Exclusive : bool;
  Weight : Z }.
#[export] Instance PriorityParam_eq_dec : EqDecision PriorityParam.
Proof. solve_decision. Defined.

Definition PriorityParam_zero : PriorityParam := mkPriorityParam 0 false 0.
Definition PriorityParam_IsZero (p : PriorityParam) : bool :=
  bool_decide (p = PriorityParam_zero).

Record PriorityFrameSetting := mkPriorityFrameSetting {
  PF_StreamID : Z; PF_PriorityParam : PriorityParam }.

(** ** Helpers of http2.go *)
Definition ClientPreface : bytes :=
  bytes_of_string "PRI * HTTP/2.0" ++ [13; 10; 13; 10; 83; 77; 13; 10; 13; 10].
Definition initialHeaderTableSize : Z := 4096.
Definition initialWindowSize : Z := 65535.

(** [for _, r := range v] decodes UTF-8; an ill-formed byte yields U+FFFD. *)
Definition is_cont (b : byte) : bool := (128 <=? b) && (b <? 192).
Definition cont_rune (hi b : Z) : Z := hi * 64 + (b - 128).
Fixpoint runes (p : bytes) : list Z :=
  match p with
  | [] => []
  | b0 :: p0 =>
      if b0 <? 128 then b0 :: runes p0 else
      match p0 with
      | b1 :: p1 =>
          if (194 <=? b0) && (b0 <? 224) && is_cont b1 then cont_rune (b0 - 192) b1 :: runes p1 else
          match p1 with
          | b2 :: p2 =>
              if (224 <=? b0) && (b0 <? 240) && is_cont b1 && is_cont b2
                 && negb ((b0 =? 224) && (b1 <? 160)) && negb ((b0 =? 237) && (160 <=? b1))
              then cont_rune (cont_rune (b0 - 224) b1) b2 :: runes p2 else
              match p2 with
              | b3 :: p3 =>
                  if (240 <=? b0) && (b0 <? 245) && is_cont b1 && is_cont b2 && is_cont b3
                     && negb ((b0 =? 240) && (b1 <? 144)) && negb ((b0 =? 244) && (144 <=? b1))
                  then cont_rune (cont_rune (cont_rune (b0 - 240) b1) b2) b3 :: runes p3
                  else 65533 :: runes p0
              | [] => 65533 :: runes p0
              end
          | [] => 65533 :: runes p0
          end
      | [] => 65533 :: runes p0
      end
  end.

(** [IsTokenRune] is [httpguts.IsTokenRune] (golang.org/x/net). *)
Definition validWireHeaderFieldName (IsTokenRune : Z -> bool) (v : string) : bool :=
  if len (bytes_of_string v) =? 0 then false
  else forallb (fun r => IsTokenRune r && negb ((65 <=? r) && (r <=? 90)))
         (runes (bytes_of_string v)).

Definition validPseudoPath (v : string) : bool :=
  match bytes_of_string v with
  | [] => false
  | [42] => true
  | b :: _ => b =? 47
  end.

(** [mustUint31] panics ([None]) on a negative argument. *)
Definition mustUint31 (v : Z) : option Z := if v <? 0 then None else Some (u32 v).
