(* ===== verification/Flow.v ===== *)
(** * HTTP/2 flow-control windows ([src/internal/http2/flow.go])

    [inflow] is the window the peer may fill; [outflow] the window this side
    may fill. The integers are [int32], wrapped where the code wraps. A panic
    is [Err] with the panic's message. The pointer [outflow.conn] to the shared
    connection window is the argument [conn]: [None] for the connection's own
    window, [Some] of the connection's current value for a stream, and the
    operations return both values. *)

From S2P Require Import Prelude.

Definition inflowMinRefresh : Z := Z.shiftl 4 10.
Definition maxWindow : Z := 2 ^ 31 - 1.

Module Inflow.
Record inflow := mk { avail : Z; unsent : Z }.
Definition zero : inflow := mk 0 0.

Definition init (f : inflow) (n : Z) : inflow := mk n (unsent f).

Definition add (f : inflow) (n : Z) : result string (inflow * Z) :=
  if n <? 0 then Err "negative update"%string else
  let uns := i64 (unsent f + n) in
  if maxWindow <? i64 (uns + avail f)
  then Err "flow control update exceeds maximum window size"%string else
  let f := mk (avail f) (i32 uns) in
  if (unsent f <? inflowMinRefresh) && (unsent f <? avail f) then Ok (f, 0)
  else Ok (mk (i32 (avail f + unsent f)) 0, i32 uns).

Definition take (f : inflow) (n : Z) : inflow * bool :=
  if u32 (avail f) <? n then (f, false)
  else (mk (i32 (avail f - i32 n)) (unsent f), true).

Definition takeInflows (f1 f2 : inflow) (n : Z) : inflow * inflow * bool :=
  if (u32 (avail f1) <? n) || (u32 (avail f2) <? n) then (f1, f2, false)
  else (mk (i32 (avail f1 - i32 n)) (unsent f1),
        mk (i32 (avail f2 - i32 n)) (unsent f2), true).

(** Well-formed windows: what the peer may send plus what is owed to it
    never exceeds the protocol's maximum. *)
Definition ok (f : inflow) : Prop :=
  0 <= avail f /\ 0 <= unsent f /\ avail f + unsent f <= maxWindow.

(** [add] on a well-formed window, without wrap-around. *)
Lemma add_fits f n : ok f -> 0 <= n -> unsent f + n + avail f <= maxWindow ->
  add f n =
    if (unsent f + n <? inflowMinRefresh) && (unsent f + n <? avail f)
    then Ok (mk (avail f) (unsent f + n), 0)
    else Ok (mk (avail f + unsent f + n) 0, unsent f + n).
Proof.
  intros (Ha & Hu & Hs) Hn Hfit. unfold add, maxWindow in *.
  destruct (Z.ltb_spec n 0); [lia|].
  rewrite (i64_small (unsent f + n)), i64_small, (i32_small (unsent f + n)) by word.
  destruct (Z.ltb_spec (2 ^ 31 - 1) (unsent f + n + avail f)); [lia|]. cbn [avail unsent].
  destruct (_ && _); [done|]. rewrite i32_small by word. do 3 f_equal. lia.
Qed.

Lemma add_overflow f n : ok f -> 0 <= n < 2 ^ 62 -> maxWindow < unsent f + n + avail f ->
  exists e, add f n = Err e.
Proof.
  intros (Ha & Hu & Hs) Hn Hbig. unfold add, maxWindow in *.
  destruct (Z.ltb_spec n 0); [lia|].
  rewrite (i64_small (unsent f + n)), i64_small by word.
  destruct (Z.ltb_spec (2 ^ 31 - 1) (unsent f + n + avail f)); [by eexists|lia].
Qed.

(** What an accepted update does: nothing is lost (the window plus the owed
    bytes grows by exactly [n]), the update announced to the peer is what the
    window grew by, and only less than half the window is ever held back. *)
Lemma add_ok f n : ok f -> 0 <= n -> avail f + unsent f + n <= maxWindow ->
  exists f' a, add f n = Ok (f', a) /\ ok f'
    /\ avail f' + unsent f' = avail f + unsent f + n
    /\ avail f' = avail f + a /\ 0 <= a
    /\ (unsent f' = 0 \/ unsent f' < inflowMinRefresh /\ unsent f' < avail f').
Proof.
  intros Hok Hn Hfit. rewrite add_fits by (done || lia). destruct Hok as (Ha & Hu & Hs).
  destruct (Z.ltb_spec (unsent f + n) inflowMinRefresh),
    (Z.ltb_spec (unsent f + n) (avail f)); cbn [andb];
    eexists _, _; (split; [reflexivity|]); cbn [avail unsent]; unfold ok; cbn [avail unsent]; lia.
Qed.

Lemma take_spec f n : ok f -> is_u32 n ->
  take f n = if n <=? avail f then (mk (avail f - n) (unsent f), true) else (f, false).
Proof.
  intros (Ha & Hu & Hs) Hn. unfold take, maxWindow in *.
  rewrite u32_small by word. destruct (Z.ltb_spec (avail f) n), (Z.leb_spec n (avail f));
    try lia; [done|]. rewrite (i32_small n) by word. by rewrite i32_small by word.
Qed.

Lemma take_ok f n f' b : ok f -> is_u32 n -> take f n = (f', b) -> ok f'.
Proof.
  intros Hf Hn. rewrite take_spec by done. destruct Hf as (Ha & Hu & Hs).
  destruct (Z.leb_spec n (avail f)); intros [= <- <-]; unfold ok; cbn; word.
Qed.

(** [takeInflows] is all-or-nothing. *)
Lemma takeInflows_spec f1 f2 n : ok f1 -> ok f2 -> is_u32 n ->
  takeInflows f1 f2 n =
    if (n <=? avail f1) && (n <=? avail f2)
    then (mk (avail f1 - n) (unsent f1), mk (avail f2 - n) (unsent f2), true)
    else (f1, f2, false).
Proof.
  intros (Ha & Hu & Hs) (Ha2 & Hu2 & Hs2) Hn. unfold takeInflows, maxWindow in *.
  rewrite !u32_small by word.
  destruct (Z.ltb_spec (avail f1) n), (Z.ltb_spec (avail f2) n),
    (Z.leb_spec n (avail f1)), (Z.leb_spec n (avail f2)); try lia; cbn; try done.
  rewrite (i32_small n) by word. by rewrite !i32_small by word.
Qed.

(** ** Histories: the window against the peer's own accounting *)
Inductive op := OAdd (n : Z) | OTake (n : Z).

Record ledger := mkLedger {
  window : inflow;
  announced : Z;   (* sum of the updates sent to the peer *)
  received : Z;    (* bytes the peer spent *)
  returned : Z }.  (* bytes given back by the application *)

Definition step (l : ledger) (o : op) : option ledger :=
  match o with
  | OAdd n =>
      match add (window l) n with
      | Ok (f, a) => Some (mkLedger f (announced l + a) (received l) (returned l + n))
      | Err _ => None
      end
  | OTake n =>
      match take (window l) n with
      | (f, true) => Some (mkLedger f (announced l) (received l + n) (returned l))
      | (_, false) => None
      end
  end.

Fixpoint run (l : ledger) (ops : list op) : option ledger :=
  match ops with
  | [] => Some l
  | o :: ops => match step l o with Some l => run l ops | None => None end
  end.

Definition op_ok (o : op) : Prop :=
  match o with OAdd n => 0 <= n < 2 ^ 62 | OTake n => is_u32 n end.

Definition balanced (w : Z) (l : ledger) : Prop :=
  ok (window l)
  /\ avail (window l) = w + announced l - received l
  /\ avail (window l) + unsent (window l) = w + returned l - received l.

Lemma step_balanced w l o l' :
  op_ok o -> balanced w l -> step l o = Some l' -> balanced w l'.
Proof.
  intros Ho (Hok & Hann & Hret) Hs. destruct o as [n|n]; cbn in Ho, Hs.
  - destruct (Z.le_gt_cases (avail (window l) + unsent (window l) + n) maxWindow) as [Hfit|Hbig].
    + destruct (add_ok (window l) n) as (f' & a & Heq & Hok' & Hsum & Hav & Ha & _);
        [done|lia|done|].
      rewrite Heq in Hs. injection Hs as <-. split; [done|]. cbn. lia.
    + destruct (add_overflow (window l) n) as [e He]; [done|lia|lia|]. by rewrite He in Hs.
  - destruct (take (window l) n) as [f b] eqn:Ht. pose proof (take_ok _ _ _ _ Hok Ho Ht).
    rewrite take_spec in Ht by done. destruct b; [|done]. injection Hs as <-.
    destruct (Z.leb_spec n (avail (window l))); [|done]. injection Ht as <-.
    split; [done|]. cbn. lia.
Qed.

Lemma run_balanced w ops : forall l l',
  Forall op_ok ops -> balanced w l -> run l ops = Some l' -> balanced w l'.
Proof.
  induction ops as [|o ops IH]; intros l l' Hops Hb Hr; cbn in Hr.
  - by injection Hr as <-.
  - inversion Hops; subst. destruct (step l o) eqn:Hs; [|done].
    eapply IH; [done| |done]. by eapply step_balanced.
Qed.
End Inflow.

Module Outflow.
Definition available (n : Z) (conn : option Z) : Z :=
  match conn with
  | Some c => if c <? n then c else n
  | None => n
  end.

Definition take (n : Z) (conn : option Z) (k : Z) : result string (Z * option Z) :=
  if available n conn <? k then Err "internal error: took too much"%string
  else Ok (i32 (n - k), option_map (fun c => i32 (c - k)) conn).

Definition add (n k : Z) : Z * bool :=
  let sum := i32 (n + k) in
  if Bool.eqb (k <? sum) (0 <? n) then (sum, true) else (n, false).

(** The sign test detects exactly the overflows of [int32]. *)
Lemma add_spec n k : is_i32 n -> is_i32 k ->
  add n k = if (n + k <=? maxWindow) && (- 2 ^ 31 <=? n + k) then (n + k, true) else (n, false).
Proof.
  intros Hn Hk. unfold add, maxWindow.
  assert (i32 (n + k) = n + k \/ i32 (n + k) = n + k - 2 ^ 32 /\ 2 ^ 31 <= n + k
          \/ i32 (n + k) = n + k + 2 ^ 32 /\ n + k < - 2 ^ 31) as Hc by word.
  assert (is_i32 (i32 (n + k))) as Hr by auto with ranges.
  unfold is_i32 in *.
  destruct (Z.ltb_spec k (i32 (n + k))), (Z.ltb_spec 0 n),
    (Z.leb_spec (n + k) (2 ^ 31 - 1)), (Z.leb_spec (- 2 ^ 31) (n + k)); cbn;
    try done; try lia; f_equal; lia.
Qed.

Lemma take_both_spec n c k : is_i32 n -> is_i32 c -> 0 <= k -> k <= n -> k <= c ->
  take n (Some c) k = Ok (n - k, Some (c - k)).
Proof.
  intros Hn Hc H0 H1 H2. unfold take, available.
  destruct (Z.ltb_spec c n);
    match goal with |- context [?a <? k] => destruct (Z.ltb_spec a k); [lia|] end; cbn;
    rewrite !i32_small by word; done.
Qed.
End Outflow.

(** ** Properties *)

(** The receive window always equals what the peer believes it to be. From a
    window of [w] bytes, after any sequence of data received and buffer space
    returned that does not fail, the enforced window is [w] plus the updates
    announced minus the bytes received, the bytes still owed are exactly what
    was returned and not yet announced, and no window ever exceeds the
    protocol's maximum. *)
Theorem inflow_ledger_exact (w : Z) (ops : list Inflow.op) (l : Inflow.ledger) :
  0 <= w <= maxWindow -> Forall Inflow.op_ok ops ->
  Inflow.run (Inflow.mkLedger (Inflow.init Inflow.zero w) 0 0 0) ops = Some l ->
  0 <= Inflow.avail (Inflow.window l)
  /\ Inflow.avail (Inflow.window l) + Inflow.unsent (Inflow.window l) <= maxWindow
  /\ Inflow.avail (Inflow.window l) = w + Inflow.announced l - Inflow.received l
  /\ Inflow.unsent (Inflow.window l) = Inflow.returned l - Inflow.announced l.
Proof.
  intros Hw Hops Hr.
  apply (Inflow.run_balanced w) in Hr as ((Ha & Hu & Hs) & Hann & Hret); [lia|done|].
  unfold Inflow.balanced, Inflow.ok. cbn. lia.
Qed.

Lemma inflow_ledger_exact_witness :
  exists l, Inflow.run (Inflow.mkLedger (Inflow.init Inflow.zero 65535) 0 0 0)
      [Inflow.OTake 10000; Inflow.OAdd 3000; Inflow.OAdd 7000] = Some l
    /\ Inflow.announced l = 10000
    /\ Inflow.avail (Inflow.window l) = 65535 + Inflow.announced l - Inflow.received l.
Proof.
  eexists. split; [vm_compute; reflexivity|]. split; [reflexivity|].
  apply (inflow_ledger_exact 65535 [Inflow.OTake 10000; Inflow.OAdd 3000; Inflow.OAdd 7000]).
  - unfold maxWindow. lia.
  - repeat constructor; cbn; word.
  - vm_compute. reflexivity.
Defined.

(** [takeInflows] charges the connection and the stream window together or
    not at all: it succeeds exactly when both have room, and then both shrink by
    exactly the frame's length and stay well formed. *)
Theorem takeInflows_atomic (f1 f2 : Inflow.inflow) (n : Z) :
  Inflow.ok f1 -> Inflow.ok f2 -> is_u32 n ->
  let '(g1, g2, b) := Inflow.takeInflows f1 f2 n in
  b = (n <=? Inflow.avail f1) && (n <=? Inflow.avail f2)
  /\ Inflow.ok g1 /\ Inflow.ok g2
  /\ Inflow.avail g1 = Inflow.avail f1 - (if b then n else 0)
  /\ Inflow.avail g2 = Inflow.avail f2 - (if b then n else 0)
  /\ Inflow.unsent g1 = Inflow.unsent f1 /\ Inflow.unsent g2 = Inflow.unsent f2.
Proof.
  intros H1 H2 Hn. rewrite Inflow.takeInflows_spec by done.
  destruct H1 as (?&?&?), H2 as (?&?&?). unfold Inflow.ok in *.
  destruct (Z.leb_spec n (Inflow.avail f1)), (Z.leb_spec n (Inflow.avail f2)); cbn; word.
Qed.

Lemma takeInflows_atomic_witness :
  Inflow.takeInflows (Inflow.mk 100 0) (Inflow.mk 50 7) 60 = (Inflow.mk 100 0, Inflow.mk 50 7, false)
  /\ Inflow.ok (Inflow.takeInflows (Inflow.mk 100 0) (Inflow.mk 50 7) 40).1.1.
Proof.
  split; [reflexivity|].
  assert (Inflow.ok (Inflow.mk 100 0)) as H1 by (unfold Inflow.ok, maxWindow; cbn; lia).
  assert (Inflow.ok (Inflow.mk 50 7)) as H2 by (unfold Inflow.ok, maxWindow; cbn; lia).
  destruct (takeInflows_atomic _ _ 40 H1 H2 ltac:(word)) as (_ & Hok & _). exact Hok.
Defined.

(** [outflow.add] detects overflow exactly: for [int32] arguments it accepts
    the update if and only if the mathematical sum is an [int32], and then the
    window becomes that sum; otherwise the window is unchanged. *)
Theorem outflow_add_exact (n k : Z) :
  is_i32 n -> is_i32 k ->
  Outflow.add n k = if bool_decide (is_i32 (n + k)) then (n + k, true) else (n, false).
Proof.
  intros Hn Hk. rewrite Outflow.add_spec by done. unfold is_i32, maxWindow in *.
  case_bool_decide; destruct (Z.leb_spec (n + k) (2 ^ 31 - 1)),
    (Z.leb_spec (- 2 ^ 31) (n + k)); cbn; try done; lia.
Qed.

Lemma outflow_add_exact_witness : Outflow.add 2147483000 648 = (2147483000, false).
Proof.
  rewrite (outflow_add_exact 2147483000 648) by word. reflexivity.
Defined.

(** a stream never spends more than both windows hold: [take] of at most
    [available] bytes reduces the stream's and the connection's window by the
    same amount and leaves neither negative when it was not. *)
Theorem outflow_take_shared (n c k : Z) :
  is_i32 n -> is_i32 c -> 0 <= k -> k <= Outflow.available n (Some c) ->
  Outflow.take n (Some c) k = Ok (n - k, Some (c - k))
  /\ k <= n /\ k <= c.
Proof.
  intros Hn Hc Hk Ha. unfold Outflow.available in Ha.
  assert (k <= n /\ k <= c) as [H1 H2] by (destruct (Z.ltb_spec c n); lia).
  split; [|done]. by apply Outflow.take_both_spec.
Qed.

Lemma outflow_take_shared_witness :
  Outflow.take 100 (Some 60) 60 = Ok (40, Some 0).
Proof. apply (outflow_take_shared 100 60 60); [word|word|lia|vm_compute; discriminate]. Defined.
