(* ===== verification/DataBuffer.v ===== *)
(** * The chunked byte buffer of a stream ([src/internal/http2/databuffer.go])

    A [dataBuffer] is a list of fixed-size chunks with a read offset into the
    first and a write offset into the last. Its contract is a byte queue:
    [contents] is the abstraction function, [wf] the representation invariant,
    and [Read] and [Write] are shown to be the queue's operations.

    Chunks come from [sync.Pool]s, which return an array of the requested class
    with arbitrary stale bytes: [pool] is that array, and only its length is
    assumed. *)

From S2P Require Import Prelude.
From S2P Require Import H2Errors.

(** The size class of [getDataBufferChunk]. *)
Definition chunkClass (size : Z) : Z :=
  if size <=? Z.shiftl 1 10 then Z.shiftl 1 10
  else if size <=? Z.shiftl 2 10 then Z.shiftl 2 10
  else if size <=? Z.shiftl 4 10 then Z.shiftl 4 10
  else if size <=? Z.shiftl 8 10 then Z.shiftl 8 10
  else Z.shiftl 16 10.

(** [putDataBufferChunk] accepts the five class sizes and panics otherwise. *)
Definition putDataBufferChunk (p : bytes) : result string unit :=
  if bool_decide (len p ∈ [Z.shiftl 1 10; Z.shiftl 2 10; Z.shiftl 4 10; Z.shiftl 8 10; Z.shiftl 16 10])
  then Ok tt else Err "unexpected buffer len"%string.

Record dataBuffer := mkDataBuffer {
  chunks : list bytes;
  r : Z;
  w : Z;
  size : Z;
  expected : Z }.

Definition newDataBuffer (exp : Z) : dataBuffer := mkDataBuffer [] 0 0 0 exp.

Definition dataBuffer_Len (b : dataBuffer) : Z := size b.

(** Go's [copy(chunk[at:], src)]: overwrite in place, as many as fit. *)
Definition copy_at (chunk : bytes) (at_ : Z) (src : bytes) : bytes :=
  let room := slice_from chunk at_ in
  slice_to chunk at_ ++ slice_to src (len room) ++ slice_from room (len src).

Definition bytesFromFirstChunk (b : dataBuffer) (c0 : bytes) : bytes :=
  if len (chunks b) =? 1 then slice_from (slice_to c0 (w b)) (r b)
  else slice_from c0 (r b).

Section DataBuffer.
Context (pool : Z -> bytes).

Definition getDataBufferChunk (sz : Z) : bytes := pool (chunkClass sz).

Definition lastChunkOrAlloc (b : dataBuffer) (want : Z) : dataBuffer :=
  let alloc :=
    mkDataBuffer (chunks b ++ [getDataBufferChunk want]) (r b) 0 (size b) (expected b) in
  match last (chunks b) with
  | Some c => if w b <? len c then b else alloc
  | None => alloc
  end.

(** Replace the last chunk: the slice returned by [lastChunkOrAlloc] aliases
    it, so writing through the slice writes the chunk. *)
Definition set_last (cs : list bytes) (c : bytes) : list bytes := removelast cs ++ [c].

(** One iteration of the loop of [Write]. *)
Definition write_step (b : dataBuffer) (p : bytes) : dataBuffer * bytes :=
  let want := if len p <? expected b then expected b else len p in
  let b := lastChunkOrAlloc b want in
  let chunk := List.last (chunks b) [] in
  let n := Z.min (len chunk - w b) (len p) in
  (mkDataBuffer (set_last (chunks b) (copy_at chunk (w b) p)) (r b) (w b + n)
     (size b + n) (i64 (expected b - n)),
   slice_from p n).

Fixpoint write_loop (fuel : nat) (b : dataBuffer) (p : bytes) : option dataBuffer :=
  if len p =? 0 then Some b else
  match fuel with
  | O => None
  | S fuel => let '(b, p) := write_step b p in write_loop fuel b p
  end.

(** One iteration of the loop of [Read]: the buffer, the bytes copied to the
    caller; a panic on a chunk of the wrong size or on an empty chunk list. *)
Definition read_step (b : dataBuffer) (room : Z) : result string (dataBuffer * bytes) :=
  match chunks b with
  | [] => Err "index out of range"%string
  | c0 :: rest =>
      let data := slice_to (bytesFromFirstChunk b c0) room in
      let n := len data in
      let b := mkDataBuffer (chunks b) (r b + n) (w b) (size b - n) (expected b) in
      if r b =? len c0
      then match putDataBufferChunk c0 with
           | Ok _ => Ok (mkDataBuffer rest 0 (w b) (size b) (expected b), data)
           | Err e => Err e
           end
      else Ok (b, data)
  end.

Fixpoint read_loop (fuel : nat) (b : dataBuffer) (room : Z) (acc : bytes)
    : option (result string (dataBuffer * bytes)) :=
  if (0 <? room) && (0 <? size b) then
    match fuel with
    | O => None
    | S fuel =>
        match read_step b room with
        | Ok (b, data) => read_loop fuel b (room - len data) (acc ++ data)
        | Err e => Some (Err e)
        end
    end
  else Some (Ok (b, acc)).

(** Every iteration of [Write] before the last fills a chunk and every
    iteration of [Read] delivers a byte, so the lengths bound the loops. *)
Definition dataBuffer_Write (b : dataBuffer) (p : bytes) : option (dataBuffer * Z) :=
  option_map (fun b => (b, len p)) (write_loop (length p) b p).

Definition dataBuffer_Read (b : dataBuffer) (room : Z)
    : option (result string (dataBuffer * bytes * option error)) :=
  if size b =? 0 then Some (Ok (b, [], Some errReadEmpty))
  else match read_loop (Z.to_nat (size b)) b room [] with
       | Some (Ok (b, data)) => Some (Ok (b, data, None))
       | Some (Err e) => Some (Err e)
       | None => None
       end.
End DataBuffer.

(** ** The queue a [dataBuffer] represents

    [flat] is every byte written into the chunks still held; the unread ones
    start at [r]. *)
Definition flat (b : dataBuffer) : bytes :=
  concat (removelast (chunks b)) ++ slice_to (List.last (chunks b) []) (w b).
Definition contents (b : dataBuffer) : bytes := slice_from (flat b) (r b).

Definition chunk_ok (c : bytes) : Prop := putDataBufferChunk c = Ok tt.

Record wf (b : dataBuffer) : Prop := {
  wf_chunks : Forall chunk_ok (chunks b);
  wf_r : 0 <= r b <= len (flat b);
  wf_size : size b = len (flat b) - r b;
  wf_w : chunks b <> [] -> 0 <= w b <= len (List.last (chunks b) []);
  wf_head : forall c0, head (chunks b) = Some c0 -> r b < len c0 }.

Lemma len_contents b : wf b -> len (contents b) = size b.
Proof. intros []. unfold contents. rewrite len_slice_from by done. lia. Qed.

Lemma chunk_ok_len c : chunk_ok c -> 1024 <= len c.
Proof.
  unfold chunk_ok, putDataBufferChunk. case_bool_decide as H; [|done]. intros _.
  rewrite !elem_of_cons in H. change (Z.shiftl 1 10) with 1024 in H.
  change (Z.shiftl 2 10) with 2048 in H. change (Z.shiftl 4 10) with 4096 in H.
  change (Z.shiftl 8 10) with 8192 in H. change (Z.shiftl 16 10) with 16384 in H.
  rewrite elem_of_nil in H. lia.
Qed.

Lemma chunks_snoc (l : list bytes) : l = [] \/ exists cs c, l = cs ++ [c].
Proof. destruct l as [|x l _] using rev_ind; eauto. Qed.

Lemma flat_snoc b cs c : chunks b = cs ++ [c] -> flat b = concat cs ++ slice_to c (w b).
Proof. intros E. unfold flat. by rewrite E, List.removelast_last, List.last_last. Qed.

Lemma flat_nil b : chunks b = [] -> flat b = [].
Proof. intros E. unfold flat, slice_to. rewrite E. cbn. apply take_nil. Qed.

Lemma slice_to_all {A} (p : list A) n : len p <= n -> slice_to p n = p.
Proof. unfold slice_to, len. intros. apply take_ge. lia. Qed.

Lemma slice_from_app_le {A} (p q : list A) n : 0 <= n <= len p ->
  slice_from (p ++ q) n = slice_from p n ++ q.
Proof. unfold slice_from, len. intros. apply drop_app_le. lia. Qed.

Lemma head_snoc {A} (l : list A) (x y : A) :
  head (l ++ [x]) = Some y -> head l = Some y \/ l = [] /\ y = x.
Proof. destruct l; cbn; intros [= ->]; auto. Qed.

Lemma len_copy_at c at_ p : 0 <= at_ <= len c -> len (copy_at c at_ p) = len c.
Proof.
  unfold copy_at, len, slice_to, slice_from. intros.
  rewrite !length_app, !length_take, !length_drop. lia.
Qed.

Lemma take_copy_at c at_ p n : 0 <= at_ <= len c -> n = Z.min (len c - at_) (len p) ->
  slice_to (copy_at c at_ p) (at_ + n) = slice_to c at_ ++ slice_to p n.
Proof.
  unfold copy_at, len, slice_to, slice_from. intros Ha ->.
  rewrite take_app_ge by (rewrite length_take; lia). f_equal.
  rewrite length_take, length_drop, take_app_le by (rewrite length_take, ?length_drop; lia).
  rewrite take_take. f_equal. lia.
Qed.

(** ** [Write] appends *)
Section WriteSpec.
Context (pool : Z -> bytes) (Hpool : forall n, chunk_ok (pool (chunkClass n))).

Lemma alloc_wf b c e : wf b -> chunk_ok c ->
  (forall cs d, chunks b = cs ++ [d] -> w b = len d) ->
  let b' := mkDataBuffer (chunks b ++ [c]) (r b) 0 (size b) e in
  wf b' /\ contents b' = contents b.
Proof.
  intros [Hc Hr Hs Hw Hh] Hok Hfull. cbn zeta. pose proof (chunk_ok_len c Hok).
  assert (flat (mkDataBuffer (chunks b ++ [c]) (r b) 0 (size b) e) = flat b) as Hflat.
  { erewrite flat_snoc by reflexivity. cbn. rewrite app_nil_r.
    destruct (chunks_snoc (chunks b)) as [E|(cs & d & E)]; [by rewrite flat_nil, E|].
    rewrite (flat_snoc _ _ _ E), E, concat_app, slice_to_all;
      [cbn; by rewrite app_nil_r|]. by rewrite (Hfull _ _ E). }
  split; [|unfold contents; by rewrite Hflat].
  constructor; cbn [chunks r w size]; rewrite ?Hflat; try done.
  - apply Forall_app; auto.
  - intros _. rewrite List.last_last. lia.
  - intros c0 [Hc0|[E ->]]%head_snoc; [by apply Hh|].
    rewrite flat_nil in Hr by done. unfold len in Hr. cbn in Hr. pose proof (len_nonneg c). lia.
Qed.

Lemma lastChunkOrAlloc_spec b want : wf b ->
  let b' := lastChunkOrAlloc pool b want in
  wf b' /\ contents b' = contents b /\
  exists cs c, chunks b' = cs ++ [c] /\ w b' < len c.
Proof.
  intros Hwf. cbn zeta. unfold lastChunkOrAlloc, getDataBufferChunk.
  pose proof (chunk_ok_len _ (Hpool want)) as Hlen. pose proof Hwf as [Hc Hr Hs Hw Hh].
  assert (forall cs d, chunks b = cs ++ [d] -> w b <= len d) as Hle.
  { intros cs d E. rewrite E, List.last_last in Hw. apply Hw. by destruct cs. }
  destruct (chunks_snoc (chunks b)) as [E|(cs & c & E)].
  - assert (last (chunks b) = None) as -> by by rewrite E.
    destruct (alloc_wf b (pool (chunkClass want)) (expected b)) as [H1 H2]; [done|done| |].
    { intros cs d E'. rewrite E in E'. by destruct cs. }
    split_and!; [done|done|]. eexists _, _. cbn. split; [reflexivity|lia].
  - assert (last (chunks b) = Some c) as -> by by rewrite E, last_snoc.
    destruct (Z.ltb_spec (w b) (len c)) as [Hlt|Hge].
    + split_and!; [done|done|]. eauto.
    + destruct (alloc_wf b (pool (chunkClass want)) (expected b)) as [H1 H2]; [done|done| |].
      { intros cs' d E'. rewrite E in E'. apply app_inj_tail in E' as [_ <-].
        specialize (Hle _ _ E). lia. }
      split_and!; [done|done|]. eexists _, _. cbn. split; [reflexivity|lia].
Qed.

Lemma fill_wf b cs c p n : wf b -> chunks b = cs ++ [c] -> w b < len c ->
  n = Z.min (len c - w b) (len p) ->
  let b' := mkDataBuffer (cs ++ [copy_at c (w b) p]) (r b) (w b + n) (size b + n)
              (i64 (expected b - n)) in
  chunk_ok c -> wf b' /\ contents b' = contents b ++ slice_to p n.
Proof.
  intros [Hc Hr Hs Hw Hh] E Hlt Hn b' Hok. pose proof (len_nonneg p).
  assert (0 <= w b) as Hw0 by (apply Hw; rewrite E; by destruct cs).
  assert (flat b' = flat b ++ slice_to p n) as Hflat.
  { rewrite (flat_snoc b _ _ E), (flat_snoc b' _ _ eq_refl). subst b'. cbn [w].
    rewrite take_copy_at by lia. by rewrite app_assoc. }
  assert (len (copy_at c (w b) p) = len c) as Hlc by (apply len_copy_at; lia).
  assert (len (slice_to p n) = n) as Hln by (apply len_slice_to; lia).
  split; [|unfold contents; rewrite Hflat; apply slice_from_app_le; done].
  constructor; subst b'; cbn [chunks r w size] in *; rewrite ?Hflat, ?len_app; try lia.
  - rewrite E in Hc. apply Forall_app in Hc as [Hc _]. apply Forall_app. split; [done|].
    repeat constructor. revert Hok. unfold chunk_ok, putDataBufferChunk. by rewrite Hlc.
  - intros _. rewrite List.last_last. lia.
  - intros c0 Hc0. rewrite E in Hh. destruct cs as [|c1 cs]; cbn in *; injection Hc0 as <-;
      [rewrite Hlc|]; by apply Hh.
Qed.

Lemma write_step_spec b p : wf b -> p <> [] ->
  let '(b', q) := write_step pool b p in
  wf b' /\ exists n, 1 <= n <= len p /\ contents b' = contents b ++ slice_to p n
    /\ q = slice_from p n.
Proof.
  intros Hwf Hp. unfold write_step.
  set (want := if _ <? _ then _ else _).
  destruct (lastChunkOrAlloc_spec b want Hwf) as (Hwf1 & Hcont & cs & c & E & Hlt).
  set (b1 := lastChunkOrAlloc pool b want) in *.
  assert (chunk_ok c) as Hok by (pose proof (wf_chunks _ Hwf1) as H; rewrite E in H;
    apply Forall_app in H as [_ H]; by inversion H).
  destruct (fill_wf b1 cs c p (Z.min (len c - w b1) (len p)) Hwf1 E Hlt eq_refl Hok) as [H1 H2].
  unfold set_last. rewrite E, List.removelast_last, List.last_last.
  split; [exact H1|]. eexists. split; [|split; [|reflexivity]].
  - destruct p as [|x p]; [done|]. rewrite len_cons. pose proof (len_nonneg p). lia.
  - rewrite H2. by rewrite Hcont.
Qed.

Lemma write_loop_spec fuel : forall b p, wf b -> (length p <= fuel)%nat ->
  exists b', write_loop pool fuel b p = Some b' /\ wf b' /\ contents b' = contents b ++ p.
Proof.
  induction fuel as [|fuel IH]; intros b p Hwf Hlen.
  { destruct p; [|cbn in Hlen; lia]. exists b. rewrite app_nil_r. done. }
  cbn [write_loop]. destruct (Z.eqb_spec (len p) 0) as [H0|H0].
  { destruct p; [|unfold len in H0; cbn in H0; lia]. exists b. rewrite app_nil_r. done. }
  assert (p <> []) as Hp by (by intros ->).
  pose proof (write_step_spec b p Hwf Hp) as Hs.
  destruct (write_step pool b p) as [b1 q]. destruct Hs as (Hwf1 & n & Hn & Hcont & ->).
  destruct (IH b1 (slice_from p n) Hwf1) as (b' & -> & Hwf' & Hc').
  { unfold slice_from, len in *. rewrite length_drop. lia. }
  exists b'. split_and!; [done|done|]. by rewrite Hc', Hcont, <- app_assoc, slice_to_from.
Qed.
End WriteSpec.

(** ** [Read] takes from the front *)
Lemma slice_from_slice_from {A} (p : list A) a n : 0 <= a -> 0 <= n ->
  slice_from (slice_from p a) n = slice_from p (a + n).
Proof. unfold slice_from. intros. rewrite drop_drop. f_equal. lia. Qed.

Lemma slice_to_app_le {A} (p q : list A) n : n <= len p -> slice_to (p ++ q) n = slice_to p n.
Proof. unfold slice_to, len. intros. apply take_app_le. lia. Qed.

Lemma slice_to_min {A} (p : list A) n : slice_to p n = slice_to p (Z.min n (len p)).
Proof.
  destruct (Z.le_ge_cases n (len p)); [by rewrite Z.min_l by lia|].
  rewrite Z.min_r by lia. rewrite !slice_to_all by lia. done.
Qed.

Lemma flat_cons b c0 rest : chunks b = c0 :: rest -> rest <> [] ->
  flat b = c0 ++ flat (mkDataBuffer rest 0 (w b) (size b) (expected b)).
Proof.
  intros E Hne. destruct rest as [|c1 rest]; [done|]. unfold flat. rewrite E. cbn.
  by rewrite <- app_assoc.
Qed.

(** The first chunk's unread bytes are a prefix of the queue. *)
Lemma first_chunk_prefix b c0 rest : wf b -> chunks b = c0 :: rest ->
  exists tl, contents b = bytesFromFirstChunk b c0 ++ tl
    /\ r b + len (bytesFromFirstChunk b c0) <= len c0
    /\ (0 < size b -> 0 < len (bytesFromFirstChunk b c0))
    /\ (rest = [] -> r b + len (bytesFromFirstChunk b c0) = w b).
Proof.
  intros Hwf E. pose proof (len_contents b Hwf) as Hlen. pose proof Hwf as [Hc Hr Hs Hw Hh].
  rewrite E in Hh. specialize (Hh c0 eq_refl). unfold bytesFromFirstChunk. rewrite E, len_cons.
  destruct rest as [|c1 rest].
  - rewrite len_nil. change (1 + 0 =? 1) with true. cbv iota. exists [].
    unfold contents, flat in *. rewrite E in *. cbn in *. rewrite app_nil_r.
    specialize (Hw ltac:(done)). rewrite (len_slice_to c0 (w b)) in Hr, Hs by lia.
    split_and!; [done| | |]; rewrite len_slice_from; rewrite ?len_slice_to; lia.
  - assert ((1 + len (c1 :: rest) =? 1) = false) as ->.
    { rewrite len_cons. pose proof (len_nonneg rest). apply Z.eqb_neq. lia. }
    cbv iota. eexists. split_and!.
    + unfold contents. rewrite (flat_cons b c0 (c1 :: rest) E) by done.
      apply slice_from_app_le. lia.
    + rewrite len_slice_from by lia. lia.
    + intros _. rewrite len_slice_from by lia. lia.
    + done.
Qed.

(** Dropping a fully read first chunk. *)
Lemma pop_wf b c0 rest n : wf b -> chunks b = c0 :: rest -> 0 <= n -> r b + n = len c0 ->
  r b + n <= len (flat b) -> (rest = [] -> w b = len c0) ->
  let b' := mkDataBuffer rest 0 (w b) (size b - n) (expected b) in
  wf b' /\ contents b' = slice_from (contents b) n.
Proof.
  intros [Hc Hr Hs Hw Hh] E Hn Hend Hfit Hlast b'. rewrite E in Hc, Hw, Hh.
  inversion Hc as [|? ? Hc0 Hrest]; subst.
  assert (flat b = c0 ++ flat b') as Hfl.
  { destruct rest as [|c1 rest]; [|by rewrite (flat_cons b c0 (c1 :: rest) E)].
    unfold flat. rewrite E. cbn. rewrite slice_to_all by (rewrite Hlast; done || lia).
    unfold slice_to. by rewrite take_nil, app_nil_r. }
  rewrite Hfl, len_app in Hs, Hfit. pose proof (len_nonneg (flat b')).
  assert (contents b' = slice_from (contents b) n) as Hcont.
  { unfold contents. rewrite slice_from_slice_from, Hend, Hfl, slice_from_app by (done || lia).
    unfold slice_from. cbn. by rewrite drop_0. }
  split; [|done]. constructor; cbn [chunks r w size b']; fold b'; try lia; [done| |].
  - intros Hne. destruct rest; [done|]. by apply Hw.
  - intros c1 Hc1. destruct rest as [|? ?]; [done|]. injection Hc1 as ->.
    inversion Hrest as [|? ? Hk _]; subst. pose proof (chunk_ok_len _ Hk). lia.
Qed.

(** Advancing inside the first chunk. *)
Lemma advance_wf b c0 rest n : wf b -> chunks b = c0 :: rest -> 0 <= n -> r b + n < len c0 ->
  r b + n <= len (flat b) ->
  let b' := mkDataBuffer (c0 :: rest) (r b + n) (w b) (size b - n) (expected b) in
  wf b' /\ contents b' = slice_from (contents b) n.
Proof.
  intros [Hc Hr Hs Hw Hh] E Hn Hlt Hfit b'. rewrite E in Hc, Hw.
  assert (flat b' = flat b) as Hfl by (unfold flat; by rewrite E).
  split.
  - constructor; cbn [chunks r w size b']; fold b'; rewrite ?Hfl; try lia; [done|done|].
    intros c1 [= <-]. lia.
  - unfold contents. rewrite Hfl, slice_from_slice_from by lia. done.
Qed.

Lemma read_step_spec b room : wf b -> 0 < room -> 0 < size b ->
  exists b' data, read_step b room = Ok (b', data) /\ wf b' /\ data ++ contents b' = contents b
    /\ 1 <= len data <= room /\ size b' = size b - len data.
Proof.
  intros Hwf Hroom Hsz. pose proof Hwf as [Hc Hr Hs Hw Hh]. unfold read_step.
  destruct (chunks b) as [|c0 rest] eqn:E.
  { rewrite flat_nil in Hr, Hs by done. unfold len in *. cbn in *. lia. }
  destruct (first_chunk_prefix b c0 rest Hwf E) as (tl & Hpre & Hfit & Hpos & Hsingle).
  specialize (Hpos Hsz). specialize (Hh c0 eq_refl).
  set (bff := bytesFromFirstChunk b c0) in *. set (data := slice_to bff room).
  assert (len data = Z.min room (len bff)) as Hdata.
  { unfold data. rewrite slice_to_min. apply len_slice_to. lia. }
  assert (data ++ slice_from (contents b) (len data) = contents b) as Hsplit.
  { rewrite <- (slice_to_from (contents b) (len data)) at 2. f_equal.
    rewrite Hpre, slice_to_app_le by lia. unfold data at 1. by rewrite slice_to_min, <- Hdata. }
  pose proof (len_contents b Hwf) as Hlc. rewrite Hpre, len_app in Hlc.
  pose proof (len_nonneg tl). cbn [r].
  destruct (Z.eqb_spec (r b + len data) (len c0)) as [Hend|Hmore].
  - inversion Hc as [|? ? Hc0 _]; subst. rewrite Hc0.
    destruct (pop_wf b c0 rest (len data)) as [Hwf' Hcont]; try done; try lia.
    { intros ->. specialize (Hw ltac:(done)). specialize (Hsingle eq_refl). cbn in Hw. lia. }
    eexists _, _. split; [reflexivity|]. cbn [w size expected]. rewrite Hcont.
    split_and!; try done; lia.
  - destruct (advance_wf b c0 rest (len data)) as [Hwf' Hcont]; try done; try lia.
    eexists _, _. split; [reflexivity|]. cbn [w size expected]. rewrite Hcont.
    split_and!; try done; lia.
Qed.

Lemma read_loop_spec fuel : forall b room acc, wf b -> 0 <= room -> size b <= Z.of_nat fuel ->
  exists b' data, read_loop fuel b room acc = Some (Ok (b', acc ++ data)) /\ wf b'
    /\ data ++ contents b' = contents b /\ len data = Z.min room (size b).
Proof.
  induction fuel as [|fuel IH]; intros b room acc Hwf Hroom Hfuel; cbn [read_loop];
    pose proof (len_contents b Hwf) as Hlc; pose proof (len_nonneg (contents b));
    destruct (Z.ltb_spec 0 room); destruct (Z.ltb_spec 0 (size b)); cbn [andb]; try lia;
    try (exists b, []; rewrite app_nil_r; split_and!; try done; rewrite len_nil; lia).
  destruct (read_step_spec b room) as (b1 & data & -> & Hwf1 & Hcont & Hn & Hsz); try done.
  destruct (IH b1 (room - len data) (acc ++ data)) as (b' & data' & -> & Hwf' & Hcont' & Hlen);
    [done|lia|lia|].
  exists b', (data ++ data'). rewrite !app_assoc. split_and!; try done.
  - by rewrite <- app_assoc, Hcont', Hcont.
  - rewrite len_app. lia.
Qed.

(** ** The two operations against a queue *)
Section Operations.
Context (pool : Z -> bytes) (Hpool : forall n, chunk_ok (pool (chunkClass n))).

Lemma newDataBuffer_wf e : wf (newDataBuffer e) /\ contents (newDataBuffer e) = [].
Proof.
  split; [|done]. constructor; cbn; rewrite ?flat_nil by done; try done.
Qed.

Lemma dataBuffer_Write_spec b p : wf b ->
  exists b', dataBuffer_Write pool b p = Some (b', len p) /\ wf b' /\ contents b' = contents b ++ p.
Proof.
  intros Hwf. unfold dataBuffer_Write.
  destruct (write_loop_spec pool Hpool (length p) b p Hwf) as (b' & -> & ? & ?); [done|].
  exists b'. done.
Qed.

Lemma dataBuffer_Read_empty b room : size b = 0 ->
  dataBuffer_Read b room = Some (Ok (b, [], Some errReadEmpty)).
Proof. intros E. unfold dataBuffer_Read. by rewrite E. Qed.

Lemma dataBuffer_Read_spec b room : wf b -> 0 <= room -> size b <> 0 ->
  exists b', dataBuffer_Read b room = Some (Ok (b', slice_to (contents b) room, None))
    /\ wf b' /\ contents b' = slice_from (contents b) room.
Proof.
  intros Hwf Hroom Hsz. pose proof (len_contents b Hwf) as Hlc.
  pose proof (len_nonneg (contents b)). unfold dataBuffer_Read.
  destruct (Z.eqb_spec (size b) 0); [done|].
  destruct (read_loop_spec (Z.to_nat (size b)) b room []) as (b' & data & -> & Hwf' & Hc & Hl);
    [done|done|lia|].
  cbn. exists b'. rewrite <- Hc in Hlc |- *. rewrite len_app in Hlc.
  pose proof (len_nonneg (contents b')).
  destruct (Z.le_ge_cases room (size b)) as [Hle|Hge].
  - rewrite slice_to_app, slice_from_app by lia. done.
  - assert (len (contents b') = 0) as Hnil by lia.
    assert (contents b' = []) as -> by (destruct (contents b'); [done|];
      rewrite len_cons in Hnil; pose proof (len_nonneg l); lia).
    rewrite app_nil_r. unfold slice_to, slice_from, len in *.
    rewrite take_ge, drop_ge by lia. done.
Qed.

(** ** Histories *)
Inductive buf_op := BWrite (p : bytes) | BRead (room : Z).
Definition buf_op_ok (o : buf_op) : Prop := match o with BWrite _ => True | BRead n => 0 <= n end.

(** What each call returns: a count for [Write], data and error for [Read]. *)
Inductive buf_out := OutW (n : Z) | OutR (data : bytes) (err : option error).

Fixpoint buf_run (b : dataBuffer) (ops : list buf_op) : option (dataBuffer * list buf_out) :=
  match ops with
  | [] => Some (b, [])
  | BWrite p :: ops =>
      match dataBuffer_Write pool b p with
      | Some (b, n) => option_map (fun '(b, os) => (b, OutW n :: os)) (buf_run b ops)
      | None => None
      end
  | BRead room :: ops =>
      match dataBuffer_Read b room with
      | Some (Ok (b, d, e)) => option_map (fun '(b, os) => (b, OutR d e :: os)) (buf_run b ops)
      | _ => None
      end
  end.

(** The specification: a first-in first-out queue of bytes. *)
Fixpoint queue_run (q : bytes) (ops : list buf_op) : bytes * list buf_out :=
  match ops with
  | [] => (q, [])
  | BWrite p :: ops => let '(q, os) := queue_run (q ++ p) ops in (q, OutW (len p) :: os)
  | BRead room :: ops =>
      if len q =? 0 then let '(q, os) := queue_run q ops in (q, OutR [] (Some errReadEmpty) :: os)
      else let '(q', os) := queue_run (slice_from q room) ops in (q', OutR (slice_to q room) None :: os)
  end.

Lemma buf_run_spec ops : forall b, wf b -> Forall buf_op_ok ops ->
  exists b', buf_run b ops = Some (b', (queue_run (contents b) ops).2)
    /\ wf b' /\ contents b' = (queue_run (contents b) ops).1.
Proof.
  induction ops as [|[p|room] ops IH]; intros b Hwf Hops; cbn [buf_run queue_run].
  - exists b. done.
  - inversion Hops as [|? ? _ Hops']; subst.
    destruct (dataBuffer_Write_spec b p Hwf) as (b1 & -> & Hwf1 & <-).
    destruct (IH b1 Hwf1 Hops') as (b' & -> & Hwf' & Hc).
    exists b'. destruct (queue_run (contents b1) ops). done.
  - inversion Hops as [|? ? Hroom Hops']; subst. cbn in Hroom. rewrite len_contents by done.
    destruct (Z.eqb_spec (size b) 0) as [H0|H0].
    + rewrite dataBuffer_Read_empty by done.
      destruct (IH b Hwf Hops') as (b' & -> & Hwf' & Hc).
      exists b'. destruct (queue_run (contents b) ops). done.
    + destruct (dataBuffer_Read_spec b room Hwf Hroom H0) as (b1 & -> & Hwf1 & <-).
      destruct (IH b1 Hwf1 Hops') as (b' & -> & Hwf' & Hc).
      exists b'. destruct (queue_run (contents b1) ops). done.
Qed.
End Operations.

(** C35: the chunked buffer is a byte queue. Whatever the pools return, whatever
    the announced size [e], every history of writes and reads (of any sizes, in
    any order) on a fresh buffer runs without a panic and returns exactly what a
    first-in first-out queue returns: bytes come out once, in order, across
    chunk boundaries, and the empty-buffer error exactly when the queue is
    empty. *)
Theorem dataBuffer_refines_queue (pool : Z -> bytes) (e : Z) (ops : list buf_op) :
  (forall n, chunk_ok (pool (chunkClass n))) -> Forall buf_op_ok ops ->
  exists b, buf_run pool (newDataBuffer e) ops = Some (b, (queue_run [] ops).2)
    /\ contents b = (queue_run [] ops).1
    /\ dataBuffer_Len b = len (queue_run [] ops).1.
Proof.
  intros Hpool Hops. destruct (newDataBuffer_wf e) as [Hwf Hc].
  destruct (buf_run_spec pool Hpool ops _ Hwf Hops) as (b & Hr & Hwf' & Hq).
  rewrite Hc in Hr, Hq. exists b. split_and!; [done|done|].
  unfold dataBuffer_Len. by rewrite <- (len_contents b Hwf'), Hq.
Qed.

Lemma zeros_pool_ok n : chunk_ok (zeros (chunkClass n)).
Proof. unfold chunkClass. repeat case_match; vm_compute; reflexivity. Qed.

Lemma dataBuffer_refines_queue_witness :
  exists b, buf_run zeros (newDataBuffer 3000) [BWrite (replicate 1500 7); BRead 1499; BWrite [8; 9]; BRead 2; BRead 5; BRead 1]
    = Some (b, [OutW 1500; OutR (replicate 1499 7) None; OutW 2; OutR [7; 8] None; OutR [9] None;
                OutR [] (Some errReadEmpty)])
    /\ dataBuffer_Len b = 0.
Proof.
  destruct (dataBuffer_refines_queue zeros 3000
    [BWrite (replicate 1500 7); BRead 1499; BWrite [8; 9]; BRead 2; BRead 5; BRead 1]
    zeros_pool_ok) as (b & Hr & _ & Hl).
  - repeat constructor; cbn; lia.
  - exists b. split; [rewrite Hr; vm_compute; reflexivity|rewrite Hl; vm_compute; reflexivity].
Defined.
