(* ===== verification/Pipe.v ===== *)
(** * The pipe between the read loop and a response body
    ([src/internal/http2/pipe.go])

    The interface [pipeBuffer] is the class [PipeBuffer] with its contract
    [PipeBufferOk] (a byte queue); [dataBuffer] implements it. Every method of
    [pipe] holds [p.mu] from its first to its last statement, so each is one
    atomic step; a [Read] that would wait on the condition variable returns
    [RWait] and leaves the state as it is. [Fn] is the type of the deferred
    function [readFn]; a read reports the one it ran. *)

From S2P Require Import Prelude.
From S2P Require Import H2Errors.
From S2P Require Import DataBuffer.

Class PipeBuffer (B : Type) := {
  pb_Len : B -> Z;
  pb_Write : B -> bytes -> option (B * Z * option error);
  pb_Read : B -> Z -> option (B * bytes * option error) }.

Class PipeBufferOk (B : Type) `{PipeBuffer B} := {
  pb_inv : B -> Prop;
  pb_contents : B -> bytes;
  pb_Len_ok b : pb_inv b -> pb_Len b = len (pb_contents b);
  pb_Write_ok b p : pb_inv b ->
    exists b', pb_Write b p = Some (b', len p, None) /\ pb_inv b'
      /\ pb_contents b' = pb_contents b ++ p;
  pb_Read_ok b n : pb_inv b -> 0 <= n -> pb_contents b <> [] ->
    exists b', pb_Read b n = Some (b', slice_to (pb_contents b) n, None) /\ pb_inv b'
      /\ pb_contents b' = slice_from (pb_contents b) n }.

Section DataBufferPipe.
Context (pool : Z -> bytes) (Hpool : forall n, chunk_ok (pool (chunkClass n))).

Definition dataBuffer_pipeBuffer : PipeBuffer dataBuffer := {|
  pb_Len := dataBuffer_Len;
  pb_Write b p := option_map (fun '(b, n) => (b, n, None)) (dataBuffer_Write pool b p);
  pb_Read b n := match dataBuffer_Read b n with Some (Ok x) => Some x | _ => None end |}.

Lemma dataBuffer_nonempty b : wf b -> contents b <> [] -> size b <> 0.
Proof.
  intros Hwf Hne E. pose proof (len_contents b Hwf) as Hl.
  destruct (contents b); [done|]. rewrite len_cons in Hl. pose proof (len_nonneg l). lia.
Qed.

Definition dataBuffer_pipeBufferOk : @PipeBufferOk dataBuffer dataBuffer_pipeBuffer.
Proof.
  refine {| pb_inv := wf : dataBuffer -> Prop; pb_contents := contents |}; cbn.
  - intros b Hwf. symmetry. by apply len_contents.
  - intros b p Hwf. destruct (dataBuffer_Write_spec pool Hpool b p Hwf) as (b' & -> & ? & ?).
    exists b'. done.
  - intros b n Hwf Hn Hne.
    destruct (dataBuffer_Read_spec b n Hwf Hn) as (b' & -> & ? & ?);
      [by apply dataBuffer_nonempty|]. exists b'. done.
Defined.
End DataBufferPipe.

Section Pipe.
Context {B Fn : Type} `{PipeBuffer B}.

Record pipe := mkPipe {
  p_b : option B;               (* nil when done reading *)
  p_unread : Z;
  p_err : option error;
  p_breakErr : option error;
  p_donec : option bool;        (* nil, or whether the channel is closed *)
  p_readFn : option Fn }.

Definition newPipe : pipe := mkPipe None 0 None None None None.

Definition setBuffer (p : pipe) (b : B) : pipe :=
  if is_set (p_err p) || is_set (p_breakErr p) then p
  else mkPipe (Some b) (p_unread p) (p_err p) (p_breakErr p) (p_donec p) (p_readFn p).

Definition pipe_Len (p : pipe) : Z :=
  match p_b p with None => p_unread p | Some b => pb_Len b end.

(** The result of one evaluation of [Read]'s loop body. *)
Inductive read_result :=
| RRet (p : pipe) (data : bytes) (err : option error) (ran : option Fn)
| RWait
| RPanic.

Definition pipe_Read (p : pipe) (room : Z) : read_result :=
  match p_breakErr p with
  | Some e => RRet p [] (Some e) None
  | None =>
      let at_end :=
        match p_err p with
        | Some e => RRet (mkPipe None (p_unread p) (p_err p) (p_breakErr p) (p_donec p) None)
                      [] (Some e) (p_readFn p)
        | None => RWait
        end in
      match p_b p with
      | Some b =>
          if 0 <? pb_Len b then
            match pb_Read b room with
            | Some (b, d, e) =>
                RRet (mkPipe (Some b) (p_unread p) (p_err p) (p_breakErr p) (p_donec p) (p_readFn p)) d e None
            | None => RPanic
            end
          else at_end
      | None => at_end
      end
  end.

Definition pipe_Write (p : pipe) (d : bytes) : option (pipe * Z * option error) :=
  if is_set (p_err p) || is_set (p_breakErr p) then Some (p, 0, Some errClosedPipeWrite) else
  match p_b p with
  | None => Some (p, 0, Some errUninitializedPipeWrite)
  | Some b =>
      match pb_Write b d with
      | Some (b, n, e) =>
          Some (mkPipe (Some b) (p_unread p) (p_err p) (p_breakErr p) (p_donec p) (p_readFn p), n, e)
      | None => None
      end
  end.

Definition closeDoneLocked (p : pipe) : pipe :=
  match p_donec p with
  | None => p
  | Some _ => mkPipe (p_b p) (p_unread p) (p_err p) (p_breakErr p) (Some true) (p_readFn p)
  end.

(** [closeWithError] with [dst = &p.err] and with [dst = &p.breakErr]. The
    nil error is a panic. *)
Definition closeWithErrorAndCode (p : pipe) (err : option error) (fn : option Fn)
    : result string pipe :=
  match err with
  | None => Err "err must be non-nil"%string
  | Some _ =>
      if is_set (p_err p) then Ok p
      else Ok (closeDoneLocked (mkPipe (p_b p) (p_unread p) err (p_breakErr p) (p_donec p) fn))
  end.

Definition CloseWithError (p : pipe) (err : option error) : result string pipe :=
  closeWithErrorAndCode p err None.

Definition BreakWithError (p : pipe) (err : option error) : result string pipe :=
  match err with
  | None => Err "err must be non-nil"%string
  | Some _ =>
      if is_set (p_breakErr p) then Ok p
      else
        let unread := match p_b p with Some b => p_unread p + pb_Len b | None => p_unread p end in
        Ok (closeDoneLocked (mkPipe None unread (p_err p) err (p_donec p) None))
  end.

Definition pipe_Err (p : pipe) : option error :=
  match p_breakErr p with Some e => Some e | None => p_err p end.

Definition pipe_Done (p : pipe) : pipe :=
  match p_donec p with
  | Some _ => p
  | None =>
      let p := mkPipe (p_b p) (p_unread p) (p_err p) (p_breakErr p) (Some false) (p_readFn p) in
      if is_set (p_err p) || is_set (p_breakErr p) then closeDoneLocked p else p
  end.
End Pipe.
Arguments pipe : clear implicits.
Arguments read_result : clear implicits.

(** ** Histories of a pipe, with its ledger *)
Section History.
Context {B Fn : Type} `{PipeBufferOk B}.
Implicit Types p : pipe B Fn.

Inductive pipe_op :=
| PWrite (d : bytes)
| PRead (room : Z)
| PClose (e : error) (fn : option Fn)
| PBreak (e : error)
| PDone.

Record pledger := mkPledger {
  pl_pipe : pipe B Fn;
  pl_accepted : bytes;    (* bytes of the writes that succeeded *)
  pl_delivered : bytes;   (* bytes returned by reads *)
  pl_runs : list Fn }.    (* deferred functions run, oldest first *)

Definition ran_list (o : option Fn) : list Fn := match o with Some f => [f] | None => [] end.

(** A read that blocks leaves the pipe as it is. [None] is a panic. *)
Definition pipe_step (l : pledger) (o : pipe_op) : option pledger :=
  match o with
  | PWrite d =>
      match pipe_Write (pl_pipe l) d with
      | Some (p, n, e) =>
          Some (mkPledger p (pl_accepted l ++ (if is_set e then [] else d)) (pl_delivered l) (pl_runs l))
      | None => None
      end
  | PRead room =>
      match pipe_Read (pl_pipe l) room with
      | RRet p d e ran =>
          Some (mkPledger p (pl_accepted l) (pl_delivered l ++ d) (pl_runs l ++ ran_list ran))
      | RWait => Some l
      | RPanic => None
      end
  | PClose e fn =>
      match closeWithErrorAndCode (pl_pipe l) (Some e) fn with
      | Ok p => Some (mkPledger p (pl_accepted l) (pl_delivered l) (pl_runs l))
      | Err _ => None
      end
  | PBreak e =>
      match BreakWithError (pl_pipe l) (Some e) with
      | Ok p => Some (mkPledger p (pl_accepted l) (pl_delivered l) (pl_runs l))
      | Err _ => None
      end
  | PDone => Some (mkPledger (pipe_Done (pl_pipe l)) (pl_accepted l) (pl_delivered l) (pl_runs l))
  end.

Fixpoint pipe_run (l : pledger) (ops : list pipe_op) : option pledger :=
  match ops with
  | [] => Some l
  | o :: ops => match pipe_step l o with Some l => pipe_run l ops | None => None end
  end.

Definition pipe_op_ok (o : pipe_op) : Prop := match o with PRead n => 0 <= n | _ => True end.

Definition buffered p : bytes := match p_b p with Some b => pb_contents b | None => [] end.

Record pipe_inv (l : pledger) : Prop := {
  pi_buf : forall b, p_b (pl_pipe l) = Some b -> pb_inv b;
  pi_bytes : exists lost, pl_accepted l = pl_delivered l ++ buffered (pl_pipe l) ++ lost
    /\ len lost = p_unread (pl_pipe l)
    /\ (p_breakErr (pl_pipe l) = None -> lost = []);
  pi_broken : p_breakErr (pl_pipe l) <> None -> p_b (pl_pipe l) = None;
  pi_done : forall c, p_donec (pl_pipe l) = Some c ->
    c = is_set (p_err (pl_pipe l)) || is_set (p_breakErr (pl_pipe l));
  pi_runs : (length (pl_runs l) + length (ran_list (p_readFn (pl_pipe l)))
    <= length (if is_set (p_err (pl_pipe l)) then [tt] else []))%nat }.

Definition start (b : B) : pledger := mkPledger (setBuffer newPipe b) [] [] [].

Lemma start_inv b : pb_inv b -> pb_contents b = [] -> pipe_inv (start b).
Proof.
  intros Hb Hc. constructor; cbn; try done; [by intros ? [= <-]|].
  exists []. unfold buffered; cbn. by rewrite Hc.
Qed.

Lemma write_inv l d l' : pipe_inv l -> pipe_step l (PWrite d) = Some l' -> pipe_inv l'.
Proof.
  intros [Hb (lost & Hacc & Hlen & Hlost) Hbr Hdone Hruns]. cbn. unfold pipe_Write.
  case_eq (is_set (p_err (pl_pipe l)) || is_set (p_breakErr (pl_pipe l))); intros Eclosed.
  { intros [= <-]. constructor; cbn; try done. exists lost. by rewrite app_nil_r. }
  apply orb_false_iff in Eclosed as [_ Enb].
  assert (p_breakErr (pl_pipe l) = None) as Hnb by (by destruct (p_breakErr _)).
  destruct (p_b (pl_pipe l)) as [b|] eqn:Eb.
  - destruct (pb_Write_ok b d (Hb _ eq_refl)) as (b' & -> & Hinv & Hc).
    intros [= <-]. constructor; cbn; try done; [by intros ? [= <-]|].
    exists []. specialize (Hlost Hnb). subst lost. unfold buffered in *. rewrite Eb in Hacc.
    cbn in *. rewrite Hc, Hacc, !app_nil_r, app_assoc. done.
  - intros [= <-]. constructor; cbn; try done; rewrite ?Eb; try done.
    exists lost. by rewrite app_nil_r.
Qed.

Lemma read_at_end p : p_breakErr p = None -> (forall b, p_b p = Some b -> pb_contents b = []) ->
  (forall b, p_b p = Some b -> pb_inv b) -> forall room,
  pipe_Read p room =
    match p_err p with
    | Some e => RRet (mkPipe None (p_unread p) (p_err p) None (p_donec p) None) [] (Some e) (p_readFn p)
    | None => RWait
    end.
Proof.
  intros Hnb Hemp Hinv room. unfold pipe_Read. rewrite Hnb.
  destruct (p_b p) as [b|]; [|done].
  rewrite pb_Len_ok by auto. by rewrite (Hemp b eq_refl).
Qed.

Lemma read_data p b room : p_breakErr p = None -> p_b p = Some b -> pb_inv b ->
  pb_contents b <> [] -> 0 <= room ->
  exists b', pipe_Read p room =
      RRet (mkPipe (Some b') (p_unread p) (p_err p) None (p_donec p) (p_readFn p))
        (slice_to (pb_contents b) room) None None
    /\ pb_inv b' /\ pb_contents b' = slice_from (pb_contents b) room.
Proof.
  intros Hnb Eb Hinv Hne Hroom. unfold pipe_Read. rewrite Hnb, Eb, pb_Len_ok by done.
  destruct (Z.ltb_spec 0 (len (pb_contents b))) as [_|Hz].
  - destruct (pb_Read_ok b room Hinv Hroom Hne) as (b' & -> & ? & ?). exists b'. done.
  - destruct (pb_contents b); [done|]. rewrite len_cons in Hz. pose proof (len_nonneg l). lia.
Qed.

Lemma read_inv l room l' : pipe_inv l -> 0 <= room -> pipe_step l (PRead room) = Some l' -> pipe_inv l'.
Proof.
  intros [Hb (lost & Hacc & Hlen & Hlost) Hbr Hdone Hruns] Hroom. cbn.
  destruct (p_breakErr (pl_pipe l)) as [e|] eqn:Ebr.
  { unfold pipe_Read. rewrite Ebr. intros [= <-].
    constructor; cbn; rewrite ?app_nil_r, ?Ebr; eauto. }
  specialize (Hlost eq_refl) as ->. rewrite app_nil_r in Hacc.
  destruct (decide (buffered (pl_pipe l) = [])) as [Hemp|Hne].
  - rewrite read_at_end; [|done| |done];
      [|intros b Eb; unfold buffered in Hemp; by rewrite Eb in Hemp].
    destruct (p_err (pl_pipe l)) as [e|] eqn:Ee; intros [= <-].
    + constructor; cbn; rewrite ?app_nil_r; try done.
      * exists []. rewrite Hacc, Hemp. done.
      * rewrite length_app. cbn in Hruns. lia.
    + constructor; rewrite ?Ebr, ?Ee; try done. exists []. by rewrite app_nil_r.
  - unfold buffered in *. destruct (p_b (pl_pipe l)) as [b|] eqn:Eb; [|done].
    destruct (read_data (pl_pipe l) b room) as (b' & -> & Hinv & Hc); auto.
    intros [= <-]. constructor; cbn; rewrite ?app_nil_r; try done; [by intros ? [= <-]|].
    exists []. unfold buffered. cbn. rewrite Hc, Hacc, app_nil_r, <- app_assoc, slice_to_from. done.
Qed.

Lemma close_inv l e fn l' : pipe_inv l -> pipe_step l (PClose e fn) = Some l' -> pipe_inv l'.
Proof.
  intros [Hb Hbytes Hbr Hdone Hruns]. cbn. destruct (p_err (pl_pipe l)) eqn:Ee; cbn.
  { intros [= <-]. constructor; cbn; rewrite ?Ee; done. }
  unfold closeDoneLocked; cbn.
  destruct (p_donec (pl_pipe l)) eqn:Ed; intros [= <-]; constructor; cbn; try done.
  all: try (destruct fn; cbn in *; lia). by intros ? [= <-].
Qed.

Lemma break_inv l e l' : pipe_inv l -> pipe_step l (PBreak e) = Some l' -> pipe_inv l'.
Proof.
  intros [Hb (lost & Hacc & Hlen & Hlost) Hbr Hdone Hruns]. cbn.
  destruct (p_breakErr (pl_pipe l)) eqn:Ebr; cbn.
  { intros [= <-]. constructor; cbn; rewrite ?Ebr; eauto. }
  assert (exists lost', pl_accepted l = pl_delivered l ++ lost'
    /\ len lost' = match p_b (pl_pipe l) with Some b => p_unread (pl_pipe l) + pb_Len b
                   | None => p_unread (pl_pipe l) end) as (lost' & Hacc' & Hlen').
  { exists (buffered (pl_pipe l) ++ lost). split; [done|]. rewrite len_app, Hlen.
    unfold buffered. destruct (p_b (pl_pipe l)) eqn:Eb; [|rewrite len_nil; lia].
    rewrite pb_Len_ok by auto. lia. }
  unfold closeDoneLocked; cbn.
  destruct (p_donec (pl_pipe l)) eqn:Ed; intros [= <-]; constructor; cbn; try done;
    try (exists lost'; done); try (destruct (p_readFn (pl_pipe l)); cbn in *; lia).
  intros ? [= <-]. by rewrite orb_true_r.
Qed.

Lemma done_inv l : pipe_inv l ->
  pipe_inv (mkPledger (pipe_Done (pl_pipe l)) (pl_accepted l) (pl_delivered l) (pl_runs l)).
Proof.
  intros [Hb Hbytes Hbr Hdone Hruns]. unfold pipe_Done.
  destruct (p_donec (pl_pipe l)) eqn:Ed; [by constructor; cbn; rewrite ?Ed|].
  unfold closeDoneLocked; cbn. case_eq (is_set (p_err (pl_pipe l)) || is_set (p_breakErr (pl_pipe l))); intros Ec;
    constructor; cbn; try done; intros ? [= <-]; done.
Qed.

Lemma step_inv l o l' : pipe_inv l -> pipe_op_ok o -> pipe_step l o = Some l' -> pipe_inv l'.
Proof.
  destruct o; cbn [pipe_op_ok]; intros Hi Ho Hs;
    eauto using write_inv, read_inv, close_inv, break_inv.
  injection Hs as <-. by apply done_inv.
Qed.

(** No step of a well-formed pipe panics. *)
Lemma step_total l o : pipe_inv l -> pipe_op_ok o -> exists l', pipe_step l o = Some l'.
Proof.
  intros [Hb (lost & Hacc & Hlen & Hlost) Hbr Hdone Hruns] Ho.
  destruct o as [d|room|e fn|e|]; cbn in *.
  - unfold pipe_Write. destruct (_ || _); [by eexists|]. destruct (p_b (pl_pipe l)) as [b|]; [|by eexists].
    destruct (pb_Write_ok b d (Hb _ eq_refl)) as (b' & -> & _). by eexists.
  - unfold pipe_Read. destruct (p_breakErr (pl_pipe l)); [by eexists|].
    destruct (p_b (pl_pipe l)) as [b|]; [|destruct (p_err (pl_pipe l)); by eexists].
    rewrite pb_Len_ok by auto. destruct (Z.ltb_spec 0 (len (pb_contents b))) as [Hp|];
      [|destruct (p_err (pl_pipe l)); by eexists].
    destruct (pb_Read_ok b room (Hb _ eq_refl) Ho) as (b' & -> & _);
      [by intros E; rewrite E in Hp|by eexists].
  - destruct (is_set (p_err (pl_pipe l))); by eexists.
  - destruct (is_set (p_breakErr (pl_pipe l))); by eexists.
  - by eexists.
Qed.

Lemma run_inv ops : forall l, pipe_inv l -> Forall pipe_op_ok ops ->
  exists l', pipe_run l ops = Some l' /\ pipe_inv l'.
Proof.
  induction ops as [|o ops IH]; intros l Hi Hops; cbn; [by eauto|].
  inversion Hops as [|? ? Ho Hops']; subst.
  destruct (step_total l o Hi Ho) as [l1 Hs]. rewrite Hs. eauto using step_inv.
Qed.
End History.

(** C34: no response byte is lost, duplicated or reordered. After any sequence
    of writes, reads, closes and breaks on a pipe over a conforming buffer: no
    step panics; the bytes delivered are a prefix of the bytes accepted; and, as
    long as the pipe was not broken, the next read either returns buffered
    bytes (more than none when asked for some), or returns the close error with
    every accepted byte already delivered, or waits because nothing was closed
    and everything was delivered. *)
Theorem pipe_delivers_everything {B Fn} `{PipeBufferOk B} (b : B) (ops : list (@pipe_op Fn)) :
  pb_inv b -> pb_contents b = [] -> Forall pipe_op_ok ops ->
  exists l, pipe_run (start b) ops = Some l
    /\ (exists rest, pl_accepted l = pl_delivered l ++ rest)
    /\ (p_breakErr (pl_pipe l) = None -> forall room, 0 < room ->
        match pipe_Read (pl_pipe l) room with
        | RRet _ d None _ => d <> [] /\ exists rest, pl_accepted l = pl_delivered l ++ d ++ rest
        | RRet _ d (Some e) _ => d = [] /\ pl_delivered l = pl_accepted l /\ p_err (pl_pipe l) = Some e
        | RWait => pl_delivered l = pl_accepted l /\ p_err (pl_pipe l) = None
        | RPanic => False
        end).
Proof.
  intros Hb Hc Hops. destruct (run_inv ops (start b)) as (l & Hr & Hi); [by apply start_inv|done|].
  exists l. split; [done|]. destruct Hi as [Hbuf (lost & Hacc & Hlen & Hlost) Hbr Hdone _].
  split; [by exists (buffered (pl_pipe l) ++ lost)|].
  intros Hnb room Hroom. rewrite (Hlost Hnb), app_nil_r in Hacc.
  destruct (decide (buffered (pl_pipe l) = [])) as [Hemp|Hne].
  - rewrite read_at_end; [|done| |done];
      [|intros b' Eb; unfold buffered in Hemp; by rewrite Eb in Hemp].
    rewrite Hemp, app_nil_r in Hacc. by destruct (p_err (pl_pipe l)).
  - unfold buffered in *. destruct (p_b (pl_pipe l)) as [b1|] eqn:Eb; [|done].
    destruct (read_data (pl_pipe l) b1 room) as (b' & -> & _ & _); [done|done|auto|done|lia|].
    split; [|exists (slice_from (pb_contents b1) room); by rewrite slice_to_from].
    destruct (pb_contents b1); [done|]. unfold slice_to.
    destruct (Z.to_nat room) eqn:En; [lia|]. done.
Qed.

Definition example_ops : list (@pipe_op nat) :=
  [PWrite [1; 2; 3]; PRead 2; PWrite [4]; PClose io_EOF (Some 5%nat); PRead 9; PRead 9; PRead 9].

Lemma pipe_delivers_everything_witness :
  exists l, @pipe_run _ nat (dataBuffer_pipeBuffer zeros)
      (start (newDataBuffer (-1))) example_ops = Some l
    /\ pl_delivered l = [1; 2; 3; 4] /\ pl_runs l = [5%nat].
Proof.
  destruct (@pipe_delivers_everything dataBuffer nat (dataBuffer_pipeBuffer zeros)
    (dataBuffer_pipeBufferOk zeros zeros_pool_ok) (newDataBuffer (-1)) example_ops)
    as (l & Hr & _).
  - apply newDataBuffer_wf.
  - reflexivity.
  - repeat constructor; cbn; lia.
  - exists l. split; [exact Hr|]. vm_compute in Hr. injection Hr as <-. split; reflexivity.
Defined.

(** The state machine of closing. In every reachable state of a pipe: the
    function registered by the close (it copies the trailers) has run at most
    once and never before a close; the [Done] channel, once requested, is closed
    exactly when the pipe has an error; a broken pipe holds no buffer and counts
    exactly the accepted bytes never delivered; and after a close or a break
    every write fails. *)
Theorem pipe_close_once {B Fn} `{PipeBufferOk B} (b : B) (ops : list (@pipe_op Fn)) (l : pledger) :
  pb_inv b -> pb_contents b = [] -> Forall pipe_op_ok ops ->
  pipe_run (start b) ops = Some l ->
  (length (pl_runs l) <= 1)%nat
  /\ (p_err (pl_pipe l) = None -> pl_runs l = [])
  /\ (forall c, p_donec (pl_pipe l) = Some c -> c = is_set (pipe_Err (pl_pipe l)))
  /\ (p_breakErr (pl_pipe l) <> None ->
      p_b (pl_pipe l) = None /\ len (pl_accepted l) = len (pl_delivered l) + pipe_Len (pl_pipe l))
  /\ (pipe_Err (pl_pipe l) <> None -> forall d,
      pipe_Write (pl_pipe l) d = Some (pl_pipe l, 0, Some errClosedPipeWrite)).
Proof.
  intros Hb Hc Hops Hr. destruct (run_inv ops (start b)) as (l' & Hr' & Hi); [by apply start_inv|done|].
  rewrite Hr in Hr'. injection Hr' as <-.
  destruct Hi as [Hbuf (lost & Hacc & Hlen & Hlost) Hbr Hdone Hruns].
  split_and!.
  - destruct (is_set (p_err (pl_pipe l))); cbn in Hruns; lia.
  - intros Ee. rewrite Ee in Hruns. cbn in Hruns. destruct (pl_runs l); [done|cbn in Hruns; lia].
  - intros c Hd. rewrite (Hdone c Hd). unfold pipe_Err.
    destruct (p_breakErr (pl_pipe l)), (p_err (pl_pipe l)); done.
  - intros Hn. specialize (Hbr Hn). split; [done|]. unfold pipe_Len, buffered in *.
    rewrite Hbr in *. rewrite Hacc, len_app. cbn. lia.
  - intros Hn d. unfold pipe_Write, pipe_Err in *.
    destruct (p_breakErr (pl_pipe l)), (p_err (pl_pipe l)); done.
Qed.

Lemma pipe_close_once_witness :
  exists l, @pipe_run _ nat (dataBuffer_pipeBuffer zeros)
      (start (newDataBuffer (-1)))
      [PWrite [1; 2; 3]; PDone; PRead 1; PBreak errClosedResponseBody] = Some l
    /\ len (pl_accepted l) = len (pl_delivered l) + @pipe_Len _ nat (dataBuffer_pipeBuffer zeros) (pl_pipe l)
    /\ @pipe_Len _ nat (dataBuffer_pipeBuffer zeros) (pl_pipe l) = 2.
Proof.
  eexists. split; [vm_compute; reflexivity|]. split; [|reflexivity].
  eapply (@pipe_close_once dataBuffer nat (dataBuffer_pipeBuffer zeros)
    (dataBuffer_pipeBufferOk zeros zeros_pool_ok) (newDataBuffer (-1))
    [PWrite [1; 2; 3]; PDone; PRead 1; PBreak errClosedResponseBody]).
  - apply newDataBuffer_wf.
  - reflexivity.
  - repeat constructor; cbn; lia.
  - vm_compute. reflexivity.
  - cbn. discriminate.
Defined.
