(* ===== verification/Frame.v ===== *)
(** * HTTP/2 frames: data types and parsers ([src/internal/http2/frame.go])

    A frame is a value of [Frame], one constructor per Go frame type. A parser
    returns the frame, or the error together with the token it passes to
    [countError] (each error path counts exactly one token), or panics. *)

From S2P Require Import Prelude.
From S2P Require Import H2Errors.

Definition frameHeaderLen : Z := 9.

(** ** Frame types and flags *)
Definition FrameData : Z := 0.
Definition FrameHeaders : Z := 1.
Definition FramePriority : Z := 2.
Definition FrameRSTStream : Z := 3.
Definition FrameSettings : Z := 4.
Definition FramePushPromise : Z := 5.
Definition FramePing : Z := 6.
Definition FrameGoAway : Z := 7.
Definition FrameWindowUpdate : Z := 8.
Definition FrameContinuation : Z := 9.

Definition frameName (t : Z) : option string :=
  match t with
  | 0 => Some "DATA" | 1 => Some "HEADERS" | 2 => Some "PRIORITY" | 3 => Some "RST_STREAM"
  | 4 => Some "SETTINGS" | 5 => Some "PUSH_PROMISE" | 6 => Some "PING" | 7 => Some "GOAWAY"
  | 8 => Some "WINDOW_UPDATE" | 9 => Some "CONTINUATION" | _ => None
  end%string.

Definition FrameType_String (t : Z) : string :=
  match frameName t with
  | Some s => s
  | None => "UNKNOWN_FRAME_TYPE_" +:+ format_dec (u8 t)
  end.

Definition Flags_Has (f v : Z) : bool := Z.land f v =? v.

Definition FlagDataEndStream : Z := 1.
Definition FlagDataPadded : Z := 8.
Definition FlagHeadersEndStream : Z := 1.
Definition FlagHeadersEndHeaders : Z := 4.
Definition FlagHeadersPadded : Z := 8.
Definition FlagHeadersPriority : Z := 32.
Definition FlagSettingsAck : Z := 1.
Definition FlagPingAck : Z := 1.
Definition FlagContinuationEndHeaders : Z := 4.
Definition FlagPushPromiseEndHeaders : Z := 4.
Definition FlagPushPromisePadded : Z := 8.

(** [flagName] (the empty string for a flag without a name). *)
Definition flagName (t f : Z) : string :=
  match t, f with
  | 0, 1 => "END_STREAM" | 0, 8 => "PADDED"
  | 1, 1 => "END_STREAM" | 1, 4 => "END_HEADERS" | 1, 8 => "PADDED" | 1, 32 => "PRIORITY"
  | 4, 1 => "ACK" | 6, 1 => "ACK" | 9, 4 => "END_HEADERS"
  | 5, 4 => "END_HEADERS" | 5, 8 => "PADDED"
  | _, _ => ""
  end%string.

Record FrameHeader := mkFrameHeader {
  fh_valid : bool;
  fh_Type : Z;
  fh_Flags : Z;
  fh_Length : Z;
  fh_StreamID : Z }.

#[export] Instance FrameHeader_eq_dec : EqDecision FrameHeader.
Proof. solve_decision. Defined.

Definition FrameHeader_zero : FrameHeader := mkFrameHeader false 0 0 0 0.
Definition invalidate_header (h : FrameHeader) : FrameHeader :=
  mkFrameHeader false (fh_Type h) (fh_Flags h) (fh_Length h) (fh_StreamID h).

(** [writeDebug]: the loop over the eight flag bits keeps the number of flags
    already printed. *)
Fixpoint writeDebug_flags (t flags : Z) (bits : list Z) (set : Z) : string :=
  match bits with
  | [] => ""
  | i :: bits =>
      if Z.land flags (Z.shiftl 1 i) =? 0 then writeDebug_flags t flags bits set else
      let set := set + 1 in
      let name := flagName t (Z.shiftl 1 i) in
      (if 1 <? set then "|" else "")
      +:+ (if String.eqb name "" then "0x" +:+ string_of_bytes (format_hex (Z.shiftl 1 i)) else name)
      +:+ writeDebug_flags t flags bits set
  end.

Definition FrameHeader_writeDebug (h : FrameHeader) : string :=
  FrameType_String (fh_Type h)
  +:+ (if fh_Flags h =? 0 then ""
       else " flags=" +:+ writeDebug_flags (fh_Type h) (fh_Flags h) (seqZ 0 8) 0)
  +:+ (if fh_StreamID h =? 0 then "" else " stream=" +:+ format_dec (fh_StreamID h))
  +:+ " len=" +:+ format_dec (fh_Length h).

Definition FrameHeader_String (h : FrameHeader) : string :=
  "[FrameHeader " +:+ FrameHeader_writeDebug h +:+ "]".

(** [io.ReadFull] on a connection that will deliver the bytes [r] and then
    report [io.EOF]. *)
Definition io_ReadFull (r : bytes) (n : Z) : result error bytes * bytes :=
  if n <=? len r then (Ok (slice_to r n), slice_from r n)
  else (Err (if len r =? 0 then io_EOF else io_ErrUnexpectedEOF), []).

Definition readFrameHeader (r : bytes) : result error FrameHeader * bytes :=
  match io_ReadFull r frameHeaderLen with
  | (Err e, r) => (Err e, r)
  | (Ok buf, r) =>
      (Ok {| fh_Length := get_u24 buf;
             fh_Type := buf !!! 3%nat;
             fh_Flags := buf !!! 4%nat;
             fh_StreamID := Z.land (get_u32 (slice_from buf 5)) 2147483647;
             fh_valid := true |}, r)
  end.

(** ** Frames *)
Record HeaderField := mkHeaderField { hf_Name : string; hf_Value : string }.
#[export] Instance HeaderField_eq_dec : EqDecision HeaderField.
Proof. solve_decision. Defined.

Inductive Frame :=
| DataFrame (fh : FrameHeader) (data : bytes)
| HeadersFrame (fh : FrameHeader) (Priority : PriorityParam) (headerFragBuf : bytes)
| PriorityFrame (fh : FrameHeader) (p : PriorityParam)
| RSTStreamFrame (fh : FrameHeader) (code : ErrCode)
| SettingsFrame (fh : FrameHeader) (p : bytes)
| PushPromiseFrame (fh : FrameHeader) (PromiseID : Z) (headerFragBuf : bytes)
| PingFrame (fh : FrameHeader) (Data : bytes)
| GoAwayFrame (fh : FrameHeader) (LastStreamID : Z) (code : ErrCode) (debugData : bytes)
| WindowUpdateFrame (fh : FrameHeader) (Increment : Z)
| ContinuationFrame (fh : FrameHeader) (headerFragBuf : bytes)
| UnknownFrame (fh : FrameHeader) (p : bytes)
| MetaHeadersFrame (fh : FrameHeader) (Priority : PriorityParam) (Fields : list HeaderField)
    (Truncated : bool).

Definition Frame_Header (f : Frame) : FrameHeader :=
  match f with
  | DataFrame h _ | HeadersFrame h _ _ | PriorityFrame h _ | RSTStreamFrame h _
  | SettingsFrame h _ | PushPromiseFrame h _ _ | PingFrame h _ | GoAwayFrame h _ _ _
  | WindowUpdateFrame h _ | ContinuationFrame h _ | UnknownFrame h _
  | MetaHeadersFrame h _ _ _ => h
  end.

Definition Frame_invalidate (f : Frame) : Frame :=
  match f with
  | DataFrame h x => DataFrame (invalidate_header h) x
  | HeadersFrame h x y => HeadersFrame (invalidate_header h) x y
  | PriorityFrame h x => PriorityFrame (invalidate_header h) x
  | RSTStreamFrame h x => RSTStreamFrame (invalidate_header h) x
  | SettingsFrame h x => SettingsFrame (invalidate_header h) x
  | PushPromiseFrame h x y => PushPromiseFrame (invalidate_header h) x y
  | PingFrame h x => PingFrame (invalidate_header h) x
  | GoAwayFrame h x y z => GoAwayFrame (invalidate_header h) x y z
  | WindowUpdateFrame h x => WindowUpdateFrame (invalidate_header h) x
  | ContinuationFrame h x => ContinuationFrame (invalidate_header h) x
  | UnknownFrame h x => UnknownFrame (invalidate_header h) x
  | MetaHeadersFrame h x y z => MetaHeadersFrame (invalidate_header h) x y z
  end.

(** [checkValid]: the accessors of byte fields panic on a frame not owned. *)
Definition checked {A} (h : FrameHeader) (a : A) : result string A :=
  if fh_valid h then Ok a else Err "Frame accessor called on non-owned Frame"%string.

Inductive parsed :=
| Parsed (f : Frame)
| ParseErr (token : string) (err : error)
| ParsePanic.

Definition readByte (p : bytes) : result error (bytes * byte) :=
  match p with
  | [] => Err io_ErrUnexpectedEOF
  | b :: p => Ok (p, b)
  end.

Definition readUint32 (p : bytes) : result error (bytes * Z) :=
  if len p <? 4 then Err io_ErrUnexpectedEOF else Ok (slice_from p 4, get_u32 (slice_to p 4)).

Definition validStreamIDOrZero (streamID : Z) : bool := Z.land streamID (Z.shiftl 1 31) =? 0.
Definition validStreamID (streamID : Z) : bool :=
  negb (streamID =? 0) && (Z.land streamID (Z.shiftl 1 31) =? 0).

(** *** DATA *)
Definition parseDataFrame (fh : FrameHeader) (payload : bytes) : parsed :=
  if fh_StreamID fh =? 0
  then ParseErr "frame_data_stream_0" (connError ErrCodeProtocol "DATA frame with stream ID 0") else
  match (if Flags_Has (fh_Flags fh) FlagDataPadded then readByte payload else Ok (payload, 0)) with
  | Err e => ParseErr "frame_data_pad_byte_short" e
  | Ok (payload, padSize) =>
      if len payload <? padSize
      then ParseErr "frame_data_pad_too_big"
             (connError ErrCodeProtocol "pad size larger than data payload")
      else Parsed (DataFrame fh (slice_to payload (len payload - padSize)))
  end.

(** *** SETTINGS *)
Definition NumSettings (p : bytes) : Z := len p / 6.
Definition Setting_at (p : bytes) (i : Z) : Setting :=
  mkSetting (get_u16 (slice_from p (i * 6))) (get_u32 (slice_from p (i * 6 + 2))).
Definition settings_list (p : bytes) : list Setting := Setting_at p <$> seqZ 0 (NumSettings p).

Definition SettingsFrame_Value (fh : FrameHeader) (p : bytes) (id : SettingID)
    : result string (Z * bool) :=
  checked fh (match List.find (fun s => S_ID s =? id) (settings_list p) with
              | Some s => (S_Val s, true)
              | None => (0, false)
              end).

Definition parseSettingsFrame (fh : FrameHeader) (p : bytes) : parsed :=
  if Flags_Has (fh_Flags fh) FlagSettingsAck && (0 <? fh_Length fh)
  then ParseErr "frame_settings_ack_with_length" (ConnectionError ErrCodeFrameSize) else
  if negb (fh_StreamID fh =? 0)
  then ParseErr "frame_settings_has_stream" (ConnectionError ErrCodeProtocol) else
  if negb (len p mod 6 =? 0)
  then ParseErr "frame_settings_mod_6" (ConnectionError ErrCodeFrameSize) else
  match SettingsFrame_Value fh p SettingInitialWindowSize with
  | Err _ => ParsePanic
  | Ok (v, ok) =>
      if ok && (Z.shiftl 1 31 - 1 <? v)
      then ParseErr "frame_settings_window_size_too_big" (ConnectionError ErrCodeFlowControl)
      else Parsed (SettingsFrame fh p)
  end.

Definition SettingsFrame_IsAck (fh : FrameHeader) : bool := Flags_Has (fh_Flags fh) FlagSettingsAck.

(** [HasDuplicates]: the quadratic scan for fewer than ten settings, the map
    otherwise. *)
Fixpoint dup_scan (l : list Setting) : bool :=
  match l with
  | [] => false
  | s :: l => existsb (fun s' => S_ID s =? S_ID s') l || dup_scan l
  end.
Fixpoint dup_map (l : list Setting) (seen : gset Z) : bool :=
  match l with
  | [] => false
  | s :: l => if bool_decide (S_ID s ∈ seen) then true else dup_map l ({[S_ID s]} ∪ seen)
  end.
Definition SettingsFrame_HasDuplicates (p : bytes) : bool :=
  let num := NumSettings p in
  if num =? 0 then false
  else if num <? 10 then dup_scan (settings_list p)
  else dup_map (settings_list p) ∅.

(** [ForeachSetting]: the callback threads a state and stops at its first error. *)
Fixpoint foreach_settings {S} (fn : S -> Setting -> S * option error) (st : S) (l : list Setting)
    : S * option error :=
  match l with
  | [] => (st, None)
  | s :: l => match fn st s with
              | (st, Some e) => (st, Some e)
              | (st, None) => foreach_settings fn st l
              end
  end.
Definition SettingsFrame_ForeachSetting {S} (fh : FrameHeader) (p : bytes)
    (fn : S -> Setting -> S * option error) (st : S) : result string (S * option error) :=
  checked fh (foreach_settings fn st (settings_list p)).

(** *** PING *)
Definition PingFrame_IsAck (fh : FrameHeader) : bool := Flags_Has (fh_Flags fh) FlagPingAck.
Definition parsePingFrame (fh : FrameHeader) (payload : bytes) : parsed :=
  if negb (len payload =? 8)
  then ParseErr "frame_ping_length" (ConnectionError ErrCodeFrameSize) else
  if negb (fh_StreamID fh =? 0)
  then ParseErr "frame_ping_has_stream" (ConnectionError ErrCodeProtocol)
  else Parsed (PingFrame fh payload).

(** *** GOAWAY *)
Definition parseGoAwayFrame (fh : FrameHeader) (p : bytes) : parsed :=
  if negb (fh_StreamID fh =? 0)
  then ParseErr "frame_goaway_has_stream" (ConnectionError ErrCodeProtocol) else
  if len p <? 8 then ParseErr "frame_goaway_short" (ConnectionError ErrCodeFrameSize)
  else Parsed (GoAwayFrame fh (Z.land (get_u32 (slice_to p 4)) 2147483647)
                 (get_u32 (slice_from p 4)) (slice_from p 8)).

Definition parseUnknownFrame (fh : FrameHeader) (p : bytes) : parsed := Parsed (UnknownFrame fh p).

(** *** WINDOW_UPDATE *)
Definition parseWindowUpdateFrame (fh : FrameHeader) (p : bytes) : parsed :=
  if negb (len p =? 4)
  then ParseErr "frame_windowupdate_bad_len" (ConnectionError ErrCodeFrameSize) else
  let inc := Z.land (get_u32 p) 2147483647 in
  if inc =? 0 then
    if fh_StreamID fh =? 0
    then ParseErr "frame_windowupdate_zero_inc_conn" (ConnectionError ErrCodeProtocol)
    else ParseErr "frame_windowupdate_zero_inc_stream" (streamError (fh_StreamID fh) ErrCodeProtocol)
  else Parsed (WindowUpdateFrame fh inc).

(** *** HEADERS *)
Definition HeadersEnded (fh : FrameHeader) : bool := Flags_Has (fh_Flags fh) FlagHeadersEndHeaders.
Definition StreamEnded (fh : FrameHeader) : bool := Flags_Has (fh_Flags fh) FlagHeadersEndStream.

(** The priority fields: dependency, exclusive bit, weight. *)
Definition readPriority (p : bytes) : parsed + (bytes * PriorityParam) :=
  match readUint32 p with
  | Err e => inl (ParseErr "frame_headers_prio_short" e)
  | Ok (p, v) =>
      let dep := Z.land v 2147483647 in
      match readByte p with
      | Err e => inl (ParseErr "frame_headers_prio_weight_short" e)
      | Ok (p, weight) => inr (p, mkPriorityParam dep (negb (v =? dep)) weight)
      end
  end.

Definition parseHeadersFrame (fh : FrameHeader) (p : bytes) : parsed :=
  if fh_StreamID fh =? 0
  then ParseErr "frame_headers_zero_stream" (connError ErrCodeProtocol "HEADERS frame with stream ID 0") else
  match (if Flags_Has (fh_Flags fh) FlagHeadersPadded then readByte p else Ok (p, 0)) with
  | Err e => ParseErr "frame_headers_pad_short" e
  | Ok (p, padLength) =>
      match (if Flags_Has (fh_Flags fh) FlagHeadersPriority then readPriority p
             else inr (p, PriorityParam_zero)) with
      | inl err => err
      | inr (p, prio) =>
          if len p - padLength <? 0
          then ParseErr "frame_headers_pad_too_big" (streamError (fh_StreamID fh) ErrCodeProtocol)
          else Parsed (HeadersFrame fh prio (slice_to p (len p - padLength)))
      end
  end.

(** *** PRIORITY *)
Definition parsePriorityFrame (fh : FrameHeader) (payload : bytes) : parsed :=
  if fh_StreamID fh =? 0
  then ParseErr "frame_priority_zero_stream" (connError ErrCodeProtocol "PRIORITY frame with stream ID 0") else
  if negb (len payload =? 5)
  then ParseErr "frame_priority_bad_length"
         (connError ErrCodeFrameSize
            ("PRIORITY frame payload size was " +:+ format_dec (len payload) +:+ "; want 5")) else
  let v := get_u32 (slice_to payload 4) in
  let streamID := Z.land v 2147483647 in
  Parsed (PriorityFrame fh (mkPriorityParam streamID (negb (streamID =? v)) (payload !!! 4%nat))).

(** *** RST_STREAM *)
Definition parseRSTStreamFrame (fh : FrameHeader) (p : bytes) : parsed :=
  if negb (len p =? 4)
  then ParseErr "frame_rststream_bad_len" (ConnectionError ErrCodeFrameSize) else
  if fh_StreamID fh =? 0
  then ParseErr "frame_rststream_zero_stream" (ConnectionError ErrCodeProtocol)
  else Parsed (RSTStreamFrame fh (get_u32 p)).

(** *** CONTINUATION *)
Definition parseContinuationFrame (fh : FrameHeader) (p : bytes) : parsed :=
  if fh_StreamID fh =? 0
  then ParseErr "frame_continuation_zero_stream"
         (connError ErrCodeProtocol "CONTINUATION frame with stream ID 0")
  else Parsed (ContinuationFrame fh p).

(** *** PUSH_PROMISE *)
Definition parsePushPromise (fh : FrameHeader) (p : bytes) : parsed :=
  if fh_StreamID fh =? 0
  then ParseErr "frame_pushpromise_zero_stream" (ConnectionError ErrCodeProtocol) else
  match (if Flags_Has (fh_Flags fh) FlagPushPromisePadded then readByte p else Ok (p, 0)) with
  | Err e => ParseErr "frame_pushpromise_pad_short" e
  | Ok (p, padLength) =>
      match readUint32 p with
      | Err e => ParseErr "frame_pushpromise_promiseid_short" e
      | Ok (p, id) =>
          if len p <? padLength
          then ParseErr "frame_pushpromise_pad_too_big" (ConnectionError ErrCodeProtocol)
          else Parsed (PushPromiseFrame fh (Z.land id 2147483647) (slice_to p (len p - padLength)))
      end
  end.

(** [typeFrameParser]: the parser of a frame type. *)
Definition typeFrameParser (t : Z) : FrameHeader -> bytes -> parsed :=
  match t with
  | 0 => parseDataFrame
  | 1 => parseHeadersFrame
  | 2 => parsePriorityFrame
  | 3 => parseRSTStreamFrame
  | 4 => parseSettingsFrame
  | 5 => parsePushPromise
  | 6 => parsePingFrame
  | 7 => parseGoAwayFrame
  | 8 => parseWindowUpdateFrame
  | 9 => parseContinuationFrame
  | _ => parseUnknownFrame
  end.

(** ** What parsers guarantee *)

(** The constraints of RFC 7540 a client relies on after parsing. *)
Definition frame_ok (f : Frame) : Prop :=
  match f with
  | DataFrame h _ | HeadersFrame h _ _ | PriorityFrame h _ | RSTStreamFrame h _
  | ContinuationFrame h _ => fh_StreamID h <> 0
  | PushPromiseFrame h id _ => fh_StreamID h <> 0 /\ 0 <= id < 2 ^ 31
  | SettingsFrame h p =>
      fh_StreamID h = 0 /\ (len p) mod 6 = 0
      /\ (Flags_Has (fh_Flags h) FlagSettingsAck = true -> fh_Length h <= 0)
      /\ (forall s, List.find (fun s => S_ID s =? SettingInitialWindowSize) (settings_list p) = Some s ->
           S_Val s < 2 ^ 31)
  | PingFrame h d => fh_StreamID h = 0 /\ len d = 8
  | GoAwayFrame h last _ _ => fh_StreamID h = 0 /\ 0 <= last < 2 ^ 31
  | WindowUpdateFrame _ inc => 1 <= inc < 2 ^ 31
  | UnknownFrame _ _ | MetaHeadersFrame _ _ _ _ => True
  end.

Lemma land31_range a : 0 <= Z.land a 2147483647 < 2 ^ 31.
Proof. rewrite land31. apply Z.mod_pos_bound. lia. Qed.

(** Every parser is a cascade of guards; [parse_cases] walks through it. *)
Ltac parse_cases :=
  repeat match goal with
  | H : (if ?c then _ else _) = Parsed _ |- _ => destruct c eqn:?; try discriminate H
  | H : match ?m with _ => _ end = Parsed _ |- _ => destruct m eqn:?; try discriminate H
  | H : Parsed _ = Parsed _ |- _ => injection H as <-
  | H : negb _ = false |- _ => apply negb_false_iff in H
  | H : (_ =? _) = true |- _ => apply Z.eqb_eq in H
  | H : (_ =? _) = false |- _ => apply Z.eqb_neq in H
  end.

Lemma parse_data_ok h p f : parseDataFrame h p = Parsed f -> frame_ok f /\ Frame_Header f = h.
Proof. unfold parseDataFrame. intros H. parse_cases; cbn; auto. Qed.
Lemma parse_headers_ok h p f : parseHeadersFrame h p = Parsed f -> frame_ok f /\ Frame_Header f = h.
Proof.
  unfold parseHeadersFrame. intros H. destruct (fh_StreamID h =? 0) eqn:E0; [discriminate H|].
  apply Z.eqb_neq in E0. destruct (if Flags_Has (fh_Flags h) FlagHeadersPadded then _ else _) as [[p1 pad]|];
    [|discriminate H].
  destruct (if Flags_Has (fh_Flags h) FlagHeadersPriority then _ else _) as [[]|[p2 prio]] eqn:E;
    try discriminate H.
  - exfalso. destruct (Flags_Has _ _); [|done]. unfold readPriority in E.
    destruct (readUint32 p1) as [[]|]; [|done]. destruct (readByte l) as [[]|]; done.
  - destruct (_ <? 0); [done|]. injection H as <-. done.
Qed.
Lemma parse_priority_ok h p f : parsePriorityFrame h p = Parsed f -> frame_ok f /\ Frame_Header f = h.
Proof. unfold parsePriorityFrame. intros H. parse_cases; cbn; auto. Qed.
Lemma parse_rst_ok h p f : parseRSTStreamFrame h p = Parsed f -> frame_ok f /\ Frame_Header f = h.
Proof. unfold parseRSTStreamFrame. intros H. parse_cases; cbn; auto. Qed.
Lemma parse_continuation_ok h p f : parseContinuationFrame h p = Parsed f -> frame_ok f /\ Frame_Header f = h.
Proof. unfold parseContinuationFrame. intros H. parse_cases; cbn; auto. Qed.
Lemma parse_push_ok h p f : parsePushPromise h p = Parsed f -> frame_ok f /\ Frame_Header f = h.
Proof. unfold parsePushPromise. intros H. parse_cases; cbn; auto using land31_range. Qed.
Lemma parse_ping_ok h p f : parsePingFrame h p = Parsed f -> frame_ok f /\ Frame_Header f = h.
Proof. unfold parsePingFrame. intros H. parse_cases; cbn; auto. Qed.
Lemma parse_goaway_ok h p f : parseGoAwayFrame h p = Parsed f -> frame_ok f /\ Frame_Header f = h.
Proof. unfold parseGoAwayFrame. intros H. parse_cases; cbn; auto using land31_range. Qed.
Lemma parse_window_ok h p f : parseWindowUpdateFrame h p = Parsed f -> frame_ok f /\ Frame_Header f = h.
Proof.
  unfold parseWindowUpdateFrame. intros H. parse_cases. cbn.
  pose proof (land31_range (get_u32 p)). split; [lia|done].
Qed.
Lemma parse_settings_ok h p f : parseSettingsFrame h p = Parsed f -> frame_ok f /\ Frame_Header f = h.
Proof.
  unfold parseSettingsFrame, SettingsFrame_Value, checked. intros H. parse_cases. cbn.
  split; [|done]. split_and!; try done.
  - intros Hack. rewrite Hack in *. cbn in *. lia.
  - intros s Hs. destruct (fh_valid h); [|done]. rewrite Hs in *.
    match goal with H : Ok _ = Ok _ |- _ => injection H as <- <- end. cbn in *.
    change (Z.shiftl 1 31) with 2147483648 in *. lia.
Qed.

Lemma parser_ok (h : FrameHeader) (p : bytes) (f : Frame) :
  typeFrameParser (fh_Type h) h p = Parsed f -> frame_ok f /\ Frame_Header f = h.
Proof.
  unfold typeFrameParser. intros H.
  repeat match type of H with
  | match ?t with _ => _ end _ _ = _ => destruct t
  end;
  eauto using parse_data_ok, parse_headers_ok, parse_priority_ok, parse_rst_ok, parse_settings_ok,
    parse_push_ok, parse_ping_ok, parse_goaway_ok, parse_window_ok, parse_continuation_ok;
  by injection H as <-.
Qed.

(** C39: parsing establishes the protocol's constraints. Whatever the frame type
    and the payload, a frame accepted by its parser has the header it was parsed
    under and satisfies the constraints the rest of the transport relies on: a
    stream identifier where one is required and none where it is forbidden,
    window increments in [1, 2^31), initial window sizes below 2^31, settings in
    units of six octets, 8-octet pings, 31-bit stream identifiers. *)
Theorem parsed_frame_ok (h : FrameHeader) (p : bytes) (f : Frame) :
  typeFrameParser (fh_Type h) h p = Parsed f -> frame_ok f /\ Frame_Header f = h.
Proof. apply parser_ok. Qed.

Lemma parsed_frame_ok_witness :
  1 <= 16 < 2 ^ 31 /\ frame_ok (SettingsFrame (mkFrameHeader true 4 0 6 0) [0; 4; 0; 1; 0; 0]) /\
  (fh_StreamID (mkFrameHeader true 7 0 9 0) = 0 /\ 0 <= 5 < 2 ^ 31).
Proof.
  split; [|split].
  - apply (parsed_frame_ok (mkFrameHeader true 8 0 4 3) [128; 0; 0; 16] (WindowUpdateFrame (mkFrameHeader true 8 0 4 3) 16)). reflexivity.
  - apply (parsed_frame_ok (mkFrameHeader true 4 0 6 0) [0; 4; 0; 1; 0; 0]). reflexivity.
  - apply (parsed_frame_ok (mkFrameHeader true 7 0 9 0) [128; 0; 0; 5; 0; 0; 0; 0; 33] (GoAwayFrame (mkFrameHeader true 7 0 9 0) 5 0 [33])). reflexivity.
Defined.

(** ** [HasDuplicates]: both algorithms decide the same property *)
Lemma dup_scan_spec l : dup_scan l = true <-> ~ NoDup (S_ID <$> l).
Proof.
  induction l as [|s l IH]; cbn; [split; [done|]; intros H; by destruct H; constructor|].
  rewrite orb_true_iff, IH, NoDup_cons, existsb_exists. split.
  - intros [(s' & Hin & He%Z.eqb_eq)|Hd] [Hn Hnd]; [|done]. apply Hn.
    apply list_elem_of_fmap. exists s'. by rewrite list_elem_of_In.
  - intros Hd. destruct (decide (S_ID s ∈ S_ID <$> l)) as [Hin|Hin]; [left|right; tauto].
    apply list_elem_of_fmap in Hin as (s' & He & Hin). exists s'.
    rewrite <- list_elem_of_In, Z.eqb_eq. done.
Qed.

Lemma dup_map_spec l : forall seen,
  dup_map l seen = true <-> (exists s, s ∈ l /\ S_ID s ∈ seen) \/ ~ NoDup (S_ID <$> l).
Proof.
  induction l as [|s l IH]; intros seen; cbn.
  { split; [done|]. intros [(s & Hs & _)|H]; [set_solver|]. by destruct H; constructor. }
  rewrite NoDup_cons. case_bool_decide as Hs; [split; [intros _; left; exists s; set_solver|done]|].
  rewrite IH. split.
  - intros [(s' & Hs' & He)|Hd]; [|right; tauto].
    destruct (decide (S_ID s' = S_ID s)) as [E|E]; [|left; exists s'; set_solver].
    right. intros [Hn _]. apply Hn. rewrite <- E. apply list_elem_of_fmap. eauto.
  - intros [(s' & Hs' & He)|Hd].
    + apply elem_of_cons in Hs' as [->|Hs']; [done|]. left. exists s'. set_solver.
    + destruct (decide (S_ID s ∈ S_ID <$> l)) as [Hin|Hin]; [left|right; tauto].
      apply list_elem_of_fmap in Hin as (s' & He & Hin). exists s'. rewrite He. set_solver.
Qed.

(** [HasDuplicates] is right on both of its paths: the quadratic scan used
    below ten settings and the map used from ten on both answer whether two
    settings of the payload share an identifier. *)
Theorem HasDuplicates_correct (p : bytes) :
  SettingsFrame_HasDuplicates p = true <-> ~ NoDup (S_ID <$> settings_list p).
Proof.
  unfold SettingsFrame_HasDuplicates. destruct (Z.eqb_spec (NumSettings p) 0) as [E|_].
  - unfold settings_list. rewrite E. cbn. split; [done|]. intros H. by destruct H; constructor.
  - destruct (NumSettings p <? 10); [apply dup_scan_spec|]. rewrite dup_map_spec. set_solver.
Qed.
