(* ===== verification/FrameWrite.v ===== *)
(** * The frame writers of [Framer] ([src/internal/http2/frame.go])

    [io.Writer] is the class [Writer]; the writing half of a [Framer] is its
    scratch buffer [wbuf], its writer [w] and [AllowIllegalWrites]. Each method
    returns the framer and the Go error, in the order of the source: guards,
    [startWrite], appends, guards that come late, [endWrite]. The debug logging
    of [endWrite] ([logWrites]) writes nothing to the wire and is left out. *)

From S2P Require Import Prelude.
From S2P Require Import H2Errors.
From S2P Require Import Frame.

Class Writer (W : Type) := wr_Write : W -> bytes -> W * Z * option error.

(** [bytes.Buffer]: keeps everything, never fails. *)
#[export] Instance Buffer_Writer : Writer bytes := fun w p => (w ++ p, len p, None).

Record Framer (W : Type) := mkFramer {
  fr_w : W;
  fr_wbuf : bytes;
  fr_AllowIllegalWrites : bool }.
Arguments mkFramer {W}. Arguments fr_w {W}. Arguments fr_wbuf {W}. Arguments fr_AllowIllegalWrites {W}.

Record HeadersFrameParam := mkHeadersFrameParam {
  HP_StreamID : Z;
  HP_BlockFragment : bytes;
  HP_EndStream : bool;
  HP_EndHeaders : bool;
  HP_PadLength : Z;
  HP_Priority : PriorityParam }.

Record PushPromiseParam := mkPushPromiseParam {
  PP_StreamID : Z;
  PP_PromiseID : Z;
  PP_BlockFragment : bytes;
  PP_EndHeaders : bool;
  PP_PadLength : Z }.

Section Writers.
Context {W : Type} `{Writer W}.
Implicit Types f : Framer W.

Definition set_wbuf f (b : bytes) : Framer W := mkFramer (fr_w f) b (fr_AllowIllegalWrites f).

Definition startWrite f (ftype flags streamID : Z) : Framer W :=
  set_wbuf f [0; 0; 0; u8 ftype; u8 flags;
              u8 (Z.shiftr streamID 24); u8 (Z.shiftr streamID 16);
              u8 (Z.shiftr streamID 8); u8 streamID].

Definition writeByte f (v : Z) : Framer W := set_wbuf f (fr_wbuf f ++ [v]).
Definition writeBytes f (v : bytes) : Framer W := set_wbuf f (fr_wbuf f ++ v).
Definition writeUint16 f (v : Z) : Framer W := set_wbuf f (fr_wbuf f ++ put_u16 v).
Definition writeUint32 f (v : Z) : Framer W := set_wbuf f (fr_wbuf f ++ put_u32 v).

Definition endWrite f : Framer W * option error :=
  let length := len (fr_wbuf f) - frameHeaderLen in
  if Z.shiftl 1 24 <=? length then (f, Some errFrameTooLarge) else
  let wbuf := put_u24 length ++ slice_from (fr_wbuf f) 3 in
  let '(w, n, err) := wr_Write (fr_w f) wbuf in
  let err := match err with
             | None => if n =? len wbuf then None else Some io_ErrShortWrite
             | Some e => Some e
             end in
  (mkFramer w wbuf (fr_AllowIllegalWrites f), err).

(** *** DATA. A nil [pad] is [None]. *)
Definition startWriteDataPadded f (streamID : Z) (endStream : bool) (data : bytes)
    (pad : option bytes) : Framer W * option error :=
  if negb (validStreamID streamID) && negb (fr_AllowIllegalWrites f) then (f, Some errStreamID) else
  let padb := default [] pad in
  let pad_err :=
    if 0 <? len padb then
      if 255 <? len padb then Some errPadLength
      else if negb (fr_AllowIllegalWrites f) && existsb (fun b => negb (b =? 0)) padb
      then Some errPadBytes else None
    else None in
  match pad_err with
  | Some e => (f, Some e)
  | None =>
      let flags := 0 in
      let flags := if endStream then Z.lor flags FlagDataEndStream else flags in
      let flags := if is_set pad then Z.lor flags FlagDataPadded else flags in
      let f := startWrite f FrameData flags streamID in
      let f := if is_set pad then writeByte f (u8 (len padb)) else f in
      (writeBytes (writeBytes f data) padb, None)
  end.

Definition WriteDataPadded f (streamID : Z) (endStream : bool) (data : bytes)
    (pad : option bytes) : Framer W * option error :=
  match startWriteDataPadded f streamID endStream data pad with
  | (f, Some e) => (f, Some e)
  | (f, None) => endWrite f
  end.

Definition WriteData f (streamID : Z) (endStream : bool) (data : bytes) : Framer W * option error :=
  WriteDataPadded f streamID endStream data None.

(** *** SETTINGS *)
Definition WriteSettings f (settings : list Setting) : Framer W * option error :=
  endWrite (fold_left (fun f s => writeUint32 (writeUint16 f (S_ID s)) (S_Val s)) settings
              (startWrite f FrameSettings 0 0)).

Definition WriteSettingsAck f : Framer W * option error :=
  endWrite (startWrite f FrameSettings FlagSettingsAck 0).

(** *** PING, GOAWAY, WINDOW_UPDATE *)
Definition WritePing f (ack : bool) (data : bytes) : Framer W * option error :=
  let flags := if ack then FlagPingAck else 0 in
  endWrite (writeBytes (startWrite f FramePing flags 0) data).

Definition WriteGoAway f (maxStreamID : Z) (code : ErrCode) (debugData : bytes)
    : Framer W * option error :=
  let f := startWrite f FrameGoAway 0 0 in
  let f := writeUint32 f (Z.land maxStreamID 2147483647) in
  let f := writeUint32 f code in
  endWrite (writeBytes f debugData).

Definition WriteWindowUpdate f (streamID incr : Z) : Framer W * option error :=
  if ((incr <? 1) || (2147483647 <? incr)) && negb (fr_AllowIllegalWrites f)
  then (f, Some (errors_New "illegal window increment value"))
  else endWrite (writeUint32 (startWrite f FrameWindowUpdate 0 streamID) incr).

(** *** HEADERS, CONTINUATION, PRIORITY, RST_STREAM, PUSH_PROMISE *)
Definition WriteHeaders f (p : HeadersFrameParam) : Framer W * option error :=
  if negb (validStreamID (HP_StreamID p)) && negb (fr_AllowIllegalWrites f)
  then (f, Some errStreamID) else
  let flags := 0 in
  let flags := if HP_PadLength p =? 0 then flags else Z.lor flags FlagHeadersPadded in
  let flags := if HP_EndStream p then Z.lor flags FlagHeadersEndStream else flags in
  let flags := if HP_EndHeaders p then Z.lor flags FlagHeadersEndHeaders else flags in
  let hasPrio := negb (PriorityParam_IsZero (HP_Priority p)) in
  let flags := if hasPrio then Z.lor flags FlagHeadersPriority else flags in
  let f := startWrite f FrameHeaders flags (HP_StreamID p) in
  let f := if HP_PadLength p =? 0 then f else writeByte f (HP_PadLength p) in
  let v := StreamDep (HP_Priority p) in
  if hasPrio && negb (validStreamIDOrZero v) && negb (fr_AllowIllegalWrites f)
  then (f, Some errDepStreamID) else
  let v := if Exclusive (HP_Priority p) then Z.lor v (Z.shiftl 1 31) else v in
  let f := if hasPrio then writeByte (writeUint32 f v) (Weight (HP_Priority p)) else f in
  endWrite (writeBytes (writeBytes f (HP_BlockFragment p)) (zeros (HP_PadLength p))).

Definition WritePriority f (streamID : Z) (p : PriorityParam) : Framer W * option error :=
  if negb (validStreamID streamID) && negb (fr_AllowIllegalWrites f) then (f, Some errStreamID) else
  if negb (validStreamIDOrZero (StreamDep p)) then (f, Some errDepStreamID) else
  let f := startWrite f FramePriority 0 streamID in
  let v := if Exclusive p then Z.lor (StreamDep p) (Z.shiftl 1 31) else StreamDep p in
  endWrite (writeByte (writeUint32 f v) (Weight p)).

Definition WriteRSTStream f (streamID : Z) (code : ErrCode) : Framer W * option error :=
  if negb (validStreamID streamID) && negb (fr_AllowIllegalWrites f) then (f, Some errStreamID) else
  endWrite (writeUint32 (startWrite f FrameRSTStream 0 streamID) code).

Definition WriteContinuation f (streamID : Z) (endHeaders : bool) (headerBlockFragment : bytes)
    : Framer W * option error :=
  if negb (validStreamID streamID) && negb (fr_AllowIllegalWrites f) then (f, Some errStreamID) else
  let flags := if endHeaders then FlagContinuationEndHeaders else 0 in
  endWrite (writeBytes (startWrite f FrameContinuation flags streamID) headerBlockFragment).

Definition WritePushPromise f (p : PushPromiseParam) : Framer W * option error :=
  if negb (validStreamID (PP_StreamID p)) && negb (fr_AllowIllegalWrites f)
  then (f, Some errStreamID) else
  let flags := 0 in
  let flags := if PP_PadLength p =? 0 then flags else Z.lor flags FlagPushPromisePadded in
  let flags := if PP_EndHeaders p then Z.lor flags FlagPushPromiseEndHeaders else flags in
  let f := startWrite f FramePushPromise flags (PP_StreamID p) in
  let f := if PP_PadLength p =? 0 then f else writeByte f (PP_PadLength p) in
  if negb (validStreamID (PP_PromiseID p)) && negb (fr_AllowIllegalWrites f)
  then (f, Some errStreamID) else
  let f := writeUint32 f (PP_PromiseID p) in
  endWrite (writeBytes (writeBytes f (PP_BlockFragment p)) (zeros (PP_PadLength p))).

Definition WriteRawFrame f (t flags streamID : Z) (payload : bytes) : Framer W * option error :=
  endWrite (writeBytes (startWrite f t flags streamID) payload).
End Writers.

(** ** Reading back one frame

    [readFrame_raw] is [ReadFrame] up to the call of the parser: header, size
    check, payload. *)
Definition maxFrameSize : Z := Z.shiftl 1 24 - 1.

Definition readFrame_raw (maxReadSize : Z) (r : bytes)
    : result error (FrameHeader * parsed) * bytes :=
  match readFrameHeader r with
  | (Err e, r) => (Err e, r)
  | (Ok fh, r) =>
      if maxReadSize <? fh_Length fh then (Err errFrameTooLarge, r) else
      match io_ReadFull r (fh_Length fh) with
      | (Err e, r) => (Err e, r)
      | (Ok payload, r) => (Ok (fh, typeFrameParser (fh_Type fh) fh payload), r)
      end
  end.

Definition frame_bytes (t flags sid : Z) (payload : bytes) : bytes :=
  put_u24 (len payload) ++ [t; flags] ++ put_u32 sid ++ payload.

Definition wire_header (t flags sid : Z) (payload : bytes) : FrameHeader :=
  mkFrameHeader true t flags (len payload) sid.

Lemma endWrite_bytes (w : bytes) b t flags sid payload :
  is_u8 t -> is_u8 flags -> len payload < 2 ^ 24 ->
  endWrite (mkFramer w ([0; 0; 0; t; flags] ++ put_u32 sid ++ payload) b)
  = (mkFramer (w ++ frame_bytes t flags sid payload) (frame_bytes t flags sid payload) b, None).
Proof.
  intros Ht Hf Hl. unfold endWrite. cbn [fr_wbuf fr_w fr_AllowIllegalWrites].
  assert (len ([0; 0; 0; t; flags] ++ put_u32 sid ++ payload) - frameHeaderLen = len payload) as ->.
  { unfold frameHeaderLen. autorewrite with lens. lia. }
  change (Z.shiftl 1 24) with (2 ^ 24). destruct (Z.leb_spec (2 ^ 24) (len payload)); [lia|].
  change (slice_from ([0; 0; 0; t; flags] ++ put_u32 sid ++ payload) 3)
    with ([t; flags] ++ put_u32 sid ++ payload).
  unfold wr_Write, Buffer_Writer. by rewrite Z.eqb_refl.
Qed.

Lemma frame_bytes_read t flags sid payload rest max :
  is_u8 t -> is_u8 flags -> 0 <= sid < 2 ^ 31 -> len payload <= max -> len payload < 2 ^ 24 ->
  readFrame_raw max (frame_bytes t flags sid payload ++ rest)
  = (Ok (wire_header t flags sid payload,
         typeFrameParser t (wire_header t flags sid payload) payload), rest).
Proof.
  intros Ht Hf Hs Hmax Hl. pose proof (len_nonneg payload). pose proof (len_nonneg rest).
  unfold readFrame_raw, readFrameHeader, io_ReadFull, frame_bytes. rewrite <- !app_assoc.
  set (hdr := put_u24 (len payload) ++ [t; flags] ++ put_u32 sid).
  assert (put_u24 (len payload) ++ [t; flags] ++ put_u32 sid ++ payload ++ rest
          = hdr ++ payload ++ rest) as -> by (unfold hdr; by rewrite <- !app_assoc).
  assert (len hdr = frameHeaderLen) as Hh by reflexivity.
  rewrite len_app, Hh. unfold frameHeaderLen at 1 2.
  rewrite len_app. destruct (Z.leb_spec 9 (9 + (len payload + len rest))); [|lia].
  rewrite slice_to_app, slice_from_app by done.
  assert (get_u24 hdr = len payload) as Hlen by (apply get_put_u24; lia).
  assert (Z.land (get_u32 (slice_from hdr 5)) 2147483647 = sid) as Hsid.
  { change (slice_from hdr 5) with (put_u32 sid). rewrite <- (app_nil_r (put_u32 sid)).
    rewrite get_put_u32, land31 by word. apply Z.mod_small. lia. }
  rewrite Hlen, Hsid. change (hdr !!! 3%nat) with t. change (hdr !!! 4%nat) with flags.
  cbn [fh_Length fh_Type]. destruct (Z.ltb_spec max (len payload)); [lia|].
  rewrite len_app. destruct (Z.leb_spec (len payload) (len payload + len rest)); [|lia].
  by rewrite slice_to_app, slice_from_app by done.
Qed.

(** ** What each writer puts on the wire *)
Inductive wire_op :=
| OpData (sid : Z) (es : bool) (data : bytes) (pad : option bytes)
| OpHeaders (p : HeadersFrameParam)
| OpPriority (sid : Z) (p : PriorityParam)
| OpRSTStream (sid : Z) (code : ErrCode)
| OpSettings (l : list Setting)
| OpSettingsAck
| OpPushPromise (p : PushPromiseParam)
| OpPing (ack : bool) (data : bytes)
| OpGoAway (lst : Z) (code : ErrCode) (debug : bytes)
| OpWindowUpdate (sid incr : Z)
| OpContinuation (sid : Z) (eh : bool) (frag : bytes)
| OpExtension (t flags sid : Z) (payload : bytes).

Definition write_op {W} `{Writer W} (f : Framer W) (o : wire_op) : Framer W * option error :=
  match o with
  | OpData sid es data pad => WriteDataPadded f sid es data pad
  | OpHeaders p => WriteHeaders f p
  | OpPriority sid p => WritePriority f sid p
  | OpRSTStream sid code => WriteRSTStream f sid code
  | OpSettings l => WriteSettings f l
  | OpSettingsAck => WriteSettingsAck f
  | OpPushPromise p => WritePushPromise f p
  | OpPing ack data => WritePing f ack data
  | OpGoAway last code debug => WriteGoAway f last code debug
  | OpWindowUpdate sid incr => WriteWindowUpdate f sid incr
  | OpContinuation sid eh frag => WriteContinuation f sid eh frag
  | OpExtension t flags sid payload => WriteRawFrame f t flags sid payload
  end.

Definition flag (b : bool) (v : Z) : Z := if b then v else 0.
Definition prio_word (p : PriorityParam) : Z := StreamDep p + (if Exclusive p then 2 ^ 31 else 0).
Definition prio_bytes (p : PriorityParam) : bytes := put_u32 (prio_word p) ++ [Weight p].
Definition setting_bytes (s : Setting) : bytes := put_u16 (S_ID s) ++ put_u32 (S_Val s).
Definition pad_byte (n : Z) : bytes := if n =? 0 then [] else [n].

(** Type, flags, stream and payload of the frame an operation writes. *)
Definition op_type (o : wire_op) : Z :=
  match o with
  | OpData _ _ _ _ => 0 | OpHeaders _ => 1 | OpPriority _ _ => 2 | OpRSTStream _ _ => 3
  | OpSettings _ | OpSettingsAck => 4 | OpPushPromise _ => 5 | OpPing _ _ => 6
  | OpGoAway _ _ _ => 7 | OpWindowUpdate _ _ => 8 | OpContinuation _ _ _ => 9
  | OpExtension t _ _ _ => t
  end.
Definition op_flags (o : wire_op) : Z :=
  match o with
  | OpData _ es _ pad => flag es 1 + flag (is_set pad) 8
  | OpHeaders p => flag (HP_EndStream p) 1 + flag (HP_EndHeaders p) 4
      + flag (negb (HP_PadLength p =? 0)) 8 + flag (negb (PriorityParam_IsZero (HP_Priority p))) 32
  | OpSettingsAck => 1
  | OpPushPromise p => flag (PP_EndHeaders p) 4 + flag (negb (PP_PadLength p =? 0)) 8
  | OpPing ack _ => flag ack 1
  | OpContinuation _ eh _ => flag eh 4
  | OpExtension _ flags _ _ => flags
  | _ => 0
  end.
Definition op_sid (o : wire_op) : Z :=
  match o with
  | OpData sid _ _ _ | OpPriority sid _ | OpRSTStream sid _ | OpWindowUpdate sid _
  | OpContinuation sid _ _ | OpExtension _ _ sid _ => sid
  | OpHeaders p => HP_StreamID p
  | OpPushPromise p => PP_StreamID p
  | _ => 0
  end.
Definition op_payload (o : wire_op) : bytes :=
  match o with
  | OpData _ _ data pad => (match pad with Some p => [len p] | None => [] end) ++ data ++ default [] pad
  | OpHeaders p => pad_byte (HP_PadLength p)
      ++ (if PriorityParam_IsZero (HP_Priority p) then [] else prio_bytes (HP_Priority p))
      ++ HP_BlockFragment p ++ zeros (HP_PadLength p)
  | OpPriority _ p => prio_bytes p
  | OpRSTStream _ code => put_u32 code
  | OpSettings l => concat (setting_bytes <$> l)
  | OpSettingsAck => []
  | OpPushPromise p => pad_byte (PP_PadLength p) ++ put_u32 (PP_PromiseID p)
      ++ PP_BlockFragment p ++ zeros (PP_PadLength p)
  | OpPing _ data => data
  | OpGoAway last code debug => put_u32 last ++ put_u32 code ++ debug
  | OpWindowUpdate _ incr => put_u32 incr
  | OpContinuation _ _ frag => frag
  | OpExtension _ _ _ payload => payload
  end.
Definition op_header (o : wire_op) : FrameHeader :=
  wire_header (op_type o) (op_flags o) (op_sid o) (op_payload o).

(** The frame a peer should read. *)
Definition op_frame (o : wire_op) : Frame :=
  let h := op_header o in
  match o with
  | OpData _ _ data _ => DataFrame h data
  | OpHeaders p => HeadersFrame h (HP_Priority p) (HP_BlockFragment p)
  | OpPriority _ p => PriorityFrame h p
  | OpRSTStream _ code => RSTStreamFrame h code
  | OpSettings _ | OpSettingsAck => SettingsFrame h (op_payload o)
  | OpPushPromise p => PushPromiseFrame h (PP_PromiseID p) (PP_BlockFragment p)
  | OpPing _ data => PingFrame h data
  | OpGoAway last code debug => GoAwayFrame h last code debug
  | OpWindowUpdate _ incr => WindowUpdateFrame h incr
  | OpContinuation _ _ frag => ContinuationFrame h frag
  | OpExtension _ _ _ payload => UnknownFrame h payload
  end.

Definition stream_id (sid : Z) : Prop := 0 < sid < 2 ^ 31.
Definition prio_legal (p : PriorityParam) : Prop := 0 <= StreamDep p < 2 ^ 31 /\ is_u8 (Weight p).

(** The documented preconditions of the writers, and payloads below 2^24. *)
Definition op_legal (o : wire_op) : Prop :=
  len (op_payload o) < 2 ^ 24 /\
  match o with
  | OpData sid _ _ pad =>
      stream_id sid /\ match pad with Some p => len p <= 255 /\ Forall (eq 0) p | None => True end
  | OpHeaders p => stream_id (HP_StreamID p) /\ is_u8 (HP_PadLength p) /\ prio_legal (HP_Priority p)
  | OpPriority sid p => stream_id sid /\ prio_legal p
  | OpRSTStream sid code => stream_id sid /\ is_u32 code
  | OpSettings l => Forall Setting_ok l
      /\ (forall s, List.find (fun s => S_ID s =? SettingInitialWindowSize) l = Some s -> S_Val s < 2 ^ 31)
  | OpSettingsAck => True
  | OpPushPromise p => stream_id (PP_StreamID p) /\ stream_id (PP_PromiseID p) /\ is_u8 (PP_PadLength p)
  | OpPing _ data => len data = 8
  | OpGoAway last code _ => 0 <= last < 2 ^ 31 /\ is_u32 code
  | OpWindowUpdate sid incr => 0 <= sid < 2 ^ 31 /\ 1 <= incr < 2 ^ 31
  | OpContinuation sid _ _ => stream_id sid
  | OpExtension t flags sid _ => 10 <= t < 256 /\ is_u8 flags /\ 0 <= sid < 2 ^ 31
  end.

Lemma validStreamID_spec sid : stream_id sid -> validStreamID sid = true.
Proof.
  unfold stream_id, validStreamID. intros. rewrite land_bit31 by word.
  destruct (Z.eqb_spec sid 0); [lia|]. cbn. apply Z.ltb_lt. lia.
Qed.
Lemma validStreamIDOrZero_spec sid : 0 <= sid < 2 ^ 31 -> validStreamIDOrZero sid = true.
Proof. unfold validStreamIDOrZero. intros. rewrite land_bit31 by word. apply Z.ltb_lt. lia. Qed.

Lemma prio_word_lor p : prio_legal p ->
  (if Exclusive p then Z.lor (StreamDep p) (Z.shiftl 1 31) else StreamDep p) = prio_word p.
Proof.
  intros [Hd _]. unfold prio_word. destruct (Exclusive p); [|lia].
  rewrite Z.lor_comm, (lor_shiftl_add 1 _ 31) by lia. lia.
Qed.

Lemma op_sid_range o : op_legal o -> 0 <= op_sid o < 2 ^ 31.
Proof. unfold op_legal, stream_id. destruct o; cbn; intros [_ H]; try lia; destruct H; try lia. Qed.
Lemma op_type_range o : op_legal o -> is_u8 (op_type o).
Proof. unfold op_legal. destruct o; cbn; intros [_ H]; word. Qed.
Lemma op_flags_range o : op_legal o -> is_u8 (op_flags o).
Proof.
  unfold op_legal. destruct o; cbn; unfold flag; intros [_ H]; repeat case_match; word.
Qed.

(** *** The bytes written *)
Lemma startWrite_buf (w : bytes) b0 al t flags sid : is_u8 t -> is_u8 flags ->
  startWrite (mkFramer w b0 al) t flags sid
  = mkFramer w ([0; 0; 0; t; flags] ++ put_u32 sid) al.
Proof. intros. unfold startWrite. by rewrite !u8_small by done. Qed.

Lemma settings_fold {W} `{Writer W} (l : list Setting) (w : W) b al :
  fold_left (fun f s => writeUint32 (writeUint16 f (S_ID s)) (S_Val s)) l (mkFramer w b al)
  = mkFramer w (b ++ concat (setting_bytes <$> l)) al.
Proof.
  revert b. induction l as [|s l IH]; intros b; cbn; [by rewrite app_nil_r|].
  unfold writeUint32, writeUint16, set_wbuf. cbn. rewrite IH. unfold setting_bytes.
  by rewrite <- !app_assoc.
Qed.

(** [finish] ends a writer whose scratch buffer is the frame under construction. *)
Ltac finish :=
  unfold writeByte, writeBytes, writeUint16, writeUint32, set_wbuf;
  cbn [fr_w fr_wbuf fr_AllowIllegalWrites];
  rewrite <- ?app_assoc;
  apply endWrite_bytes; auto; try word.

Definition op_bytes (o : wire_op) : bytes :=
  frame_bytes (op_type o) (op_flags o) (op_sid o) (op_payload o).

(** The frame written by [o] is appended to the writer. *)
Definition writes (o : wire_op) : Prop :=
  forall (w b : bytes), op_legal o ->
    write_op (mkFramer w b false) o = (mkFramer (w ++ op_bytes o) (op_bytes o) false, None).

Ltac start_writes :=
  intros w b Hlegal; pose proof (op_type_range _ Hlegal) as Ht;
  pose proof (op_flags_range _ Hlegal) as Hf; destruct Hlegal as [Hlen H];
  unfold op_bytes; cbn [write_op op_type op_sid] in *.

Lemma all_zero_scan p : Forall (eq 0) p -> existsb (fun b => negb (b =? 0)) p = false.
Proof. induction 1 as [|x l <- _ IH]; cbn; [done|exact IH]. Qed.

Lemma writes_data sid es data pad : writes (OpData sid es data pad).
Proof.
  start_writes. destruct H as [Hs Hp]. unfold WriteDataPadded, startWriteDataPadded.
  rewrite validStreamID_spec by done. cbn [negb andb fr_AllowIllegalWrites].
  match goal with |- context [if 0 <? len (default [] pad) then ?x else None] =>
    assert ((if 0 <? len (default [] pad) then x else None) = None) as -> end.
  { destruct pad as [p|]; [|done]. destruct Hp as [Hp1 Hp2]. cbn [default]. change (id p) with p.
    rewrite all_zero_scan by done. destruct (Z.ltb_spec 255 (len p)); [lia|].
    destruct (0 <? len p); reflexivity. }
  assert ((if is_set pad then Z.lor (if es then Z.lor 0 FlagDataEndStream else 0) FlagDataPadded
           else if es then Z.lor 0 FlagDataEndStream else 0)
          = op_flags (OpData sid es data pad)) as -> by (by destruct es, pad).
  rewrite startWrite_buf by done. destruct pad as [p|]; cbn [is_set default]; [|finish].
  change (id p) with p. rewrite u8_small by (pose proof (len_nonneg p); word). finish.
Qed.

Lemma writes_headers p : writes (OpHeaders p).
Proof.
  start_writes. destruct H as (Hs & Hpad & Hprio). unfold WriteHeaders.
  rewrite validStreamID_spec by done. cbn [negb andb fr_AllowIllegalWrites].
  match goal with |- context [startWrite _ FrameHeaders ?fl _] =>
    assert (fl = op_flags (OpHeaders p)) as -> by
      (cbn [op_flags]; by destruct (HP_PadLength p =? 0), (HP_EndStream p), (HP_EndHeaders p),
         (PriorityParam_IsZero (HP_Priority p))) end.
  rewrite startWrite_buf by done.
  rewrite validStreamIDOrZero_spec by apply Hprio. rewrite andb_false_r. cbn [andb].
  rewrite prio_word_lor by done. revert Hlen. cbn [op_payload]. unfold pad_byte, prio_bytes.
  destruct (Z.eqb_spec (HP_PadLength p) 0), (PriorityParam_IsZero (HP_Priority p)); intros Hlen;
    cbn [negb]; finish.
Qed.

Lemma writes_push p : writes (OpPushPromise p).
Proof.
  start_writes. destruct H as (Hs & Hpid & Hpad). unfold WritePushPromise.
  rewrite !validStreamID_spec by done. cbn [negb andb].
  match goal with |- context [startWrite _ FramePushPromise ?fl _] =>
    assert (fl = op_flags (OpPushPromise p)) as -> by
      (cbn [op_flags]; by destruct (PP_PadLength p =? 0), (PP_EndHeaders p)) end.
  rewrite startWrite_buf by done. revert Hlen. cbn [op_payload]. unfold pad_byte.
  destruct (Z.eqb_spec (PP_PadLength p) 0); intros Hlen; finish.
Qed.

Lemma writes_settings l : writes (OpSettings l).
Proof.
  start_writes. unfold WriteSettings. rewrite startWrite_buf, settings_fold by done. finish.
Qed.

Lemma write_op_bytes o : writes o.
Proof.
  destruct o; eauto using writes_data, writes_headers, writes_push, writes_settings; start_writes.
  - destruct H as [Hs Hp]. unfold WritePriority.
    rewrite validStreamID_spec, validStreamIDOrZero_spec by (done || apply Hp). cbn [negb andb].
    rewrite startWrite_buf, prio_word_lor by done. finish.
  - unfold WriteRSTStream. rewrite validStreamID_spec by apply H. cbn [negb andb].
    rewrite startWrite_buf by done. finish.
  - unfold WriteSettingsAck. rewrite startWrite_buf by done.
    rewrite <- (app_nil_r (put_u32 0)). finish.
  - unfold WritePing. rewrite startWrite_buf by (by destruct ack). finish.
  - unfold WriteGoAway. rewrite startWrite_buf by done.
    rewrite land31, Z.mod_small by lia. finish.
  - unfold WriteWindowUpdate.
    destruct (Z.ltb_spec incr 1), (Z.ltb_spec 2147483647 incr); try lia. cbn [orb andb].
    rewrite startWrite_buf by done. finish.
  - unfold WriteContinuation. rewrite validStreamID_spec by done. cbn [negb andb].
    rewrite startWrite_buf by (by destruct eh). finish.
  - unfold WriteRawFrame. rewrite startWrite_buf by done. finish.
Qed.

(** *** What a peer parses *)
Definition parses (o : wire_op) : Prop :=
  op_legal o -> typeFrameParser (op_type o) (op_header o) (op_payload o) = Parsed (op_frame o).

Lemma trim_pad (p q : bytes) n : len q = n -> slice_to (p ++ q) (len (p ++ q) - n) = p.
Proof. intros <-. apply slice_to_app. rewrite len_app. lia. Qed.

Lemma len_pad_zeros n : is_u8 n -> len (zeros n) = n.
Proof. intros. apply len_zeros. word. Qed.

Lemma get_put_u32' v : is_u32 v -> get_u32 (put_u32 v) = v.
Proof. intros. rewrite <- (app_nil_r (put_u32 v)). by apply get_put_u32. Qed.

Lemma readUint32_put v q : is_u32 v -> readUint32 (put_u32 v ++ q) = Ok (q, v).
Proof.
  intros. unfold readUint32. rewrite len_app. change (len (put_u32 v)) with 4.
  pose proof (len_nonneg q). destruct (Z.ltb_spec (4 + len q) 4); [lia|].
  by rewrite slice_to_app, slice_from_app, get_put_u32' by done.
Qed.

Lemma prio_word_range p : prio_legal p -> is_u32 (prio_word p).
Proof. intros [? _]. unfold prio_word. destruct (Exclusive p); word. Qed.

Lemma prio_word_dep p : prio_legal p -> Z.land (prio_word p) 2147483647 = StreamDep p.
Proof.
  intros [Hd _]. rewrite land31. unfold prio_word. destruct (Exclusive p).
  - replace (StreamDep p + 2 ^ 31) with (StreamDep p + 1 * 2147483648) by lia.
    rewrite Z_mod_plus_full. apply Z.mod_small. lia.
  - rewrite Z.add_0_r. apply Z.mod_small. lia.
Qed.

Lemma prio_word_excl p : prio_legal p -> negb (prio_word p =? StreamDep p) = Exclusive p.
Proof.
  intros _. unfold prio_word. destruct (Exclusive p).
  - destruct (Z.eqb_spec (StreamDep p + 2 ^ 31) (StreamDep p)); [lia|done].
  - by rewrite Z.add_0_r, Z.eqb_refl.
Qed.

Lemma readPriority_bytes p q : prio_legal p -> readPriority (prio_bytes p ++ q) = inr (q, p).
Proof.
  intros Hp. unfold readPriority, prio_bytes. rewrite <- app_assoc.
  rewrite readUint32_put by auto using prio_word_range. cbn [app readByte].
  rewrite prio_word_dep, prio_word_excl by done. by destruct p.
Qed.

Lemma parses_data sid es data pad : parses (OpData sid es data pad).
Proof.
  intros (Hlen & Hs & Hp). unfold stream_id in Hs. cbn [op_type typeFrameParser]. unfold parseDataFrame.
  cbn [op_header wire_header fh_StreamID op_sid fh_Flags].
  destruct (Z.eqb_spec sid 0); [lia|].
  assert (Flags_Has (op_flags (OpData sid es data pad)) FlagDataPadded = is_set pad) as ->
    by (by destruct es, pad).
  cbn [op_payload]. destruct pad as [p|]; cbn [is_set app readByte default].
  - change (id p) with p. destruct (Z.ltb_spec (len (data ++ p)) (len p)).
    { rewrite len_app in *. pose proof (len_nonneg data). lia. }
    by rewrite trim_pad.
  - change (id []) with ([] : bytes). pose proof (len_nonneg (data ++ [])).
    destruct (Z.ltb_spec (len (data ++ [])) 0); [lia|]. by rewrite trim_pad.
Qed.

Lemma parses_headers p : parses (OpHeaders p).
Proof.
  intros (Hlen & Hs & Hpad & Hprio). unfold stream_id in Hs. cbn [op_type typeFrameParser].
  unfold parseHeadersFrame. cbn [op_header wire_header fh_StreamID op_sid fh_Flags].
  destruct (Z.eqb_spec (HP_StreamID p) 0); [lia|].
  set (zp := HP_PadLength p =? 0). set (zq := PriorityParam_IsZero (HP_Priority p)).
  assert (Flags_Has (op_flags (OpHeaders p)) FlagHeadersPadded = negb zp) as ->
    by (cbn [op_flags]; fold zp zq; by destruct zp, zq, (HP_EndStream p), (HP_EndHeaders p)).
  assert (Flags_Has (op_flags (OpHeaders p)) FlagHeadersPriority = negb zq) as ->
    by (cbn [op_flags]; fold zp zq; by destruct zp, zq, (HP_EndStream p), (HP_EndHeaders p)).
  set (body := HP_BlockFragment p ++ zeros (HP_PadLength p)).
  assert ((if negb zp then readByte (op_payload (OpHeaders p)) else Ok (op_payload (OpHeaders p), 0))
    = Ok ((if zq then [] else prio_bytes (HP_Priority p)) ++ body, HP_PadLength p)) as ->.
  { cbn [op_payload]. unfold pad_byte. fold zp zq. subst zp.
    destruct (Z.eqb_spec (HP_PadLength p) 0) as [E|]; [|reflexivity].
    unfold body. cbn [negb app]. by rewrite E. }
  assert ((if negb zq then readPriority ((if zq then [] else prio_bytes (HP_Priority p)) ++ body)
           else inr ((if zq then [] else prio_bytes (HP_Priority p)) ++ body, PriorityParam_zero))
    = inr (body, HP_Priority p)) as ->.
  { subst zq. unfold PriorityParam_IsZero. case_bool_decide as E; cbn [negb app].
    - by rewrite E.
    - by apply readPriority_bytes. }
  unfold body. rewrite len_app, len_pad_zeros by done. pose proof (len_nonneg (HP_BlockFragment p)).
  destruct (Z.ltb_spec (len (HP_BlockFragment p) + HP_PadLength p - HP_PadLength p) 0); [lia|].
  rewrite slice_to_app by lia. done.
Qed.

Lemma parses_push p : parses (OpPushPromise p).
Proof.
  intros (Hlen & Hs & Hpid & Hpad). unfold stream_id in *. cbn [op_type typeFrameParser].
  unfold parsePushPromise. cbn [op_header wire_header fh_StreamID op_sid fh_Flags].
  destruct (Z.eqb_spec (PP_StreamID p) 0); [lia|]. set (zp := PP_PadLength p =? 0).
  assert (Flags_Has (op_flags (OpPushPromise p)) FlagPushPromisePadded = negb zp) as ->
    by (cbn [op_flags]; fold zp; by destruct zp, (PP_EndHeaders p)).
  assert ((if negb zp then readByte (op_payload (OpPushPromise p)) else Ok (op_payload (OpPushPromise p), 0))
    = Ok (put_u32 (PP_PromiseID p) ++ PP_BlockFragment p ++ zeros (PP_PadLength p), PP_PadLength p)) as ->.
  { cbn [op_payload]. unfold pad_byte. fold zp. subst zp.
    destruct (Z.eqb_spec (PP_PadLength p) 0) as [E|]; [|reflexivity].
    cbn [negb app]. by rewrite E. }
  rewrite readUint32_put by word.
  rewrite len_app, len_pad_zeros by done. pose proof (len_nonneg (PP_BlockFragment p)).
  destruct (Z.ltb_spec (len (PP_BlockFragment p) + PP_PadLength p) (PP_PadLength p)); [lia|].
  rewrite slice_to_app, land31, Z.mod_small by lia. done.
Qed.

Lemma len_concat_settings l : len (concat (setting_bytes <$> l)) = 6 * len l.
Proof.
  induction l as [|s l IH]; [done|]. cbn [fmap list_fmap concat]. rewrite len_app, IH, len_cons.
  change (len (setting_bytes s)) with 6. lia.
Qed.

Lemma Setting_at_skip s q i : 0 <= i ->
  Setting_at (setting_bytes s ++ q) (i + 1) = Setting_at q i.
Proof.
  intros. unfold Setting_at.
  assert (forall k, 0 <= k -> slice_from (setting_bytes s ++ q) (6 + k) = slice_from q k) as Hsk.
  { intros k Hk. unfold slice_from. replace (Z.to_nat (6 + k)) with (6 + Z.to_nat k)%nat by lia.
    reflexivity. }
  replace ((i + 1) * 6) with (6 + i * 6) by lia.
  replace (6 + i * 6 + 2) with (6 + (i * 6 + 2)) by lia. by rewrite !Hsk by lia.
Qed.

Lemma Setting_at_0 s q : Setting_ok s -> Setting_at (setting_bytes s ++ q) 0 = s.
Proof.
  intros [Hi Hv]. unfold Setting_at.
  change (slice_from (setting_bytes s ++ q) (0 * 6)) with (put_u16 (S_ID s) ++ put_u32 (S_Val s) ++ q).
  change (slice_from (setting_bytes s ++ q) (0 * 6 + 2)) with (put_u32 (S_Val s) ++ q).
  rewrite get_put_u16, get_put_u32 by done. by destruct s.
Qed.

(** Decoding inverts the encoding of a settings list. *)
Lemma settings_list_bytes l : Forall Setting_ok l ->
  settings_list (concat (setting_bytes <$> l)) = l.
Proof.
  intros Hl. unfold settings_list, NumSettings. rewrite len_concat_settings.
  rewrite Z.mul_comm, Z.div_mul by lia. unfold len.
  induction Hl as [|s l Hs Hl IH]; [done|]. cbn [length]. rewrite Nat2Z.inj_succ.
  rewrite seqZ_cons by lia. cbn [fmap list_fmap concat]. f_equal.
  - by apply Setting_at_0.
  - rewrite Z.pred_succ. etransitivity; [|exact IH]. change (Z.succ 0) with (1 + 0).
    rewrite <- (fmap_add_seqZ 1 0), <- list_fmap_compose.
    apply list_fmap_ext. intros i k Hik. apply lookup_seqZ in Hik as [-> Hik]. cbn [compose].
    unfold compose. rewrite (Z.add_comm 1). apply Setting_at_skip. lia.
Qed.

Lemma parses_settings l : parses (OpSettings l).
Proof.
  intros (Hlen & Hl & Hwin). cbn [op_type typeFrameParser]. unfold parseSettingsFrame.
  cbn [op_header wire_header fh_Flags fh_StreamID op_sid op_flags].
  change (Flags_Has 0 FlagSettingsAck) with false. cbn [andb Z.eqb negb op_payload].
  rewrite len_concat_settings. replace (6 * len l) with (len l * 6) by lia. rewrite Z.mod_mul by lia.
  cbn [Z.eqb negb]. unfold SettingsFrame_Value, checked. cbn [fh_valid wire_header].
  rewrite settings_list_bytes by done.
  destruct (List.find _ l) as [s|] eqn:E; [|done]. specialize (Hwin s eq_refl).
  change (Z.shiftl 1 31 - 1) with 2147483647.
  change (fh_valid (op_header (OpSettings l))) with true. cbn [andb].
  destruct (Z.ltb_spec 2147483647 (S_Val s)); [lia|done].
Qed.

Lemma parse_op o : parses o.
Proof.
  destruct o; eauto using parses_data, parses_headers, parses_push, parses_settings;
    intros [Hlen H]; unfold stream_id in *; cbn [op_type].
  - destruct H as [Hs Hp]. cbn [typeFrameParser]. unfold parsePriorityFrame.
    cbn [op_header wire_header fh_StreamID op_sid op_payload]. destruct (Z.eqb_spec sid 0); [lia|].
    change (len (prio_bytes p)) with 5. cbn [Z.eqb negb Pos.eqb].
    unfold prio_bytes. rewrite slice_to_app, get_put_u32' by auto using prio_word_range.
    rewrite prio_word_dep by done.
    rewrite Z.eqb_sym, prio_word_excl by done. cbn. by destruct p.
  - destruct H as [Hs Hc]. cbn [typeFrameParser]. unfold parseRSTStreamFrame.
    cbn [op_header wire_header fh_StreamID op_sid op_payload]. change (len (put_u32 code)) with 4.
    cbn [Z.eqb negb Pos.eqb]. destruct (Z.eqb_spec sid 0); [lia|]. by rewrite get_put_u32'.
  - reflexivity.
  - cbn [typeFrameParser]. unfold parsePingFrame. cbn [op_payload]. rewrite H. reflexivity.
  - destruct H as [Hl Hc]. cbn [typeFrameParser]. unfold parseGoAwayFrame.
    cbn [op_header wire_header fh_StreamID op_sid op_payload]. cbn [Z.eqb negb].
    rewrite !len_app. change (len (put_u32 lst)) with 4. change (len (put_u32 code)) with 4.
    pose proof (len_nonneg debug). destruct (Z.ltb_spec (4 + (4 + len debug)) 8); [lia|].
    rewrite slice_to_app, slice_from_app, get_put_u32, get_put_u32', land31, Z.mod_small by (done || word).
    rewrite app_assoc, slice_from_app by done. done.
  - destruct H as [Hs Hi]. cbn [typeFrameParser]. unfold parseWindowUpdateFrame. cbn [op_payload].
    change (len (put_u32 incr)) with 4. cbn [Z.eqb negb Pos.eqb].
    rewrite get_put_u32', land31, Z.mod_small by (word || lia).
    destruct (Z.eqb_spec incr 0); [lia|done].
  - cbn [typeFrameParser]. unfold parseContinuationFrame. cbn [op_header wire_header fh_StreamID op_sid].
    destruct (Z.eqb_spec sid 0); [lia|done].
  - destruct H as (Ht & Hf & Hs). unfold typeFrameParser.
    repeat match goal with |- context [match ?t with _ => _ end] => is_var t; destruct t; try lia end;
      reflexivity.
Qed.

(** C6: frame round trip. Every frame a [Framer] writes from legal arguments, of
    any type, is read back by [ReadFrame]'s header, size check and parser as the
    same frame: same type, flags, stream, length and the same fields; exactly
    the bytes of that frame are consumed. *)
Theorem frame_roundtrip (o : wire_op) (b : bytes) (max : Z) (rest : bytes) :
  op_legal o -> len (op_payload o) <= max ->
  readFrame_raw max (fr_w (fst (write_op (mkFramer [] b false) o)) ++ rest)
  = (Ok (op_header o, Parsed (op_frame o)), rest).
Proof.
  intros Ho Hmax. rewrite (write_op_bytes o [] b Ho). cbn [fst fr_w app]. unfold op_bytes.
  rewrite frame_bytes_read by (auto using op_type_range, op_flags_range, op_sid_range; apply Ho).
  pose proof (parse_op o Ho) as Hp. unfold op_header in *. by rewrite Hp.
Qed.

Lemma frame_roundtrip_witness :
  let o := OpHeaders (mkHeadersFrameParam 5 [130; 134] true false 2 (mkPriorityParam 3 true 15)) in
  readFrame_raw 16384 (fr_w (fst (write_op (mkFramer [] [] false) o)) ++ [7])
  = (Ok (mkFrameHeader true 1 41 10 5,
         Parsed (HeadersFrame (mkFrameHeader true 1 41 10 5) (mkPriorityParam 3 true 15) [130; 134])), [7]).
Proof.
  intros o. apply (frame_roundtrip o [] 16384 [7]).
  - split; [reflexivity|]. unfold stream_id, prio_legal. cbn. split_and!; try word; lia.
  - vm_compute. discriminate.
Defined.

(** ** Rejected writes *)
Definition bad_sid (sid : Z) : bool := (sid =? 0) || (2 ^ 31 <=? sid).

(** The error a writer documents for illegal arguments. *)
Definition op_rejects (o : wire_op) : option error :=
  match o with
  | OpData sid _ _ pad =>
      if bad_sid sid then Some errStreamID
      else if 255 <? len (default [] pad) then Some errPadLength
      else if existsb (fun b => negb (b =? 0)) (default [] pad) then Some errPadBytes else None
  | OpHeaders p =>
      if bad_sid (HP_StreamID p) then Some errStreamID
      else if negb (PriorityParam_IsZero (HP_Priority p)) && (2 ^ 31 <=? StreamDep (HP_Priority p))
      then Some errDepStreamID else None
  | OpPriority sid p =>
      if bad_sid sid then Some errStreamID
      else if 2 ^ 31 <=? StreamDep p then Some errDepStreamID else None
  | OpRSTStream sid _ | OpContinuation sid _ _ => if bad_sid sid then Some errStreamID else None
  | OpPushPromise p => if bad_sid (PP_StreamID p) || bad_sid (PP_PromiseID p) then Some errStreamID else None
  | OpWindowUpdate _ incr =>
      if (incr <? 1) || (2 ^ 31 <=? incr) then Some (errors_New "illegal window increment value") else None
  | OpSettings _ | OpSettingsAck | OpPing _ _ | OpGoAway _ _ _ | OpExtension _ _ _ _ => None
  end.

Definition op_error (o : wire_op) : option error :=
  match op_rejects o with
  | Some e => Some e
  | None => if 2 ^ 24 <=? len (op_payload o) then Some errFrameTooLarge else None
  end.

(** The stream identifiers are [uint32]s. *)
Definition op_typed (o : wire_op) : Prop :=
  match o with
  | OpData sid _ _ _ | OpRSTStream sid _ | OpContinuation sid _ _ => is_u32 sid
  | OpPriority sid p => is_u32 sid /\ is_u32 (StreamDep p)
  | OpHeaders p => is_u32 (HP_StreamID p) /\ is_u32 (StreamDep (HP_Priority p))
  | OpPushPromise p => is_u32 (PP_StreamID p) /\ is_u32 (PP_PromiseID p)
  | _ => True
  end.

Lemma validStreamID_bad sid : is_u32 sid -> validStreamID sid = negb (bad_sid sid).
Proof.
  intros. unfold validStreamID, bad_sid. rewrite land_bit31 by done.
  change (2 ^ 31) with 2147483648.
  destruct (sid =? 0), (Z.ltb_spec sid 2147483648), (Z.leb_spec 2147483648 sid); try lia; reflexivity.
Qed.
Lemma validStreamIDOrZero_bad sid : is_u32 sid -> validStreamIDOrZero sid = negb (2 ^ 31 <=? sid).
Proof.
  intros. unfold validStreamIDOrZero. rewrite land_bit31 by done. change (2 ^ 31) with 2147483648.
  destruct (Z.ltb_spec sid 2147483648), (Z.leb_spec 2147483648 sid); try lia; reflexivity.
Qed.

Section Rejected.
Context {W : Type} `{Writer W}.
Implicit Types f : Framer W.

(** Nothing reached the writer. *)
Definition rejected f (e : error) (res : Framer W * option error) : Prop :=
  fr_w (fst res) = fr_w f /\ snd res = Some e.

Lemma endWrite_too_large w buf b f :
  fr_w f = w -> frameHeaderLen + 2 ^ 24 <= len buf ->
  rejected f errFrameTooLarge (endWrite (mkFramer w buf b)).
Proof.
  intros <- Hl. unfold endWrite, frameHeaderLen in *. cbn [fr_wbuf].
  change (Z.shiftl 1 24) with (2 ^ 24). destruct (Z.leb_spec (2 ^ 24) (len buf - 9)); [done|lia].
Qed.
End Rejected.

Ltac reject_large :=
  unfold writeByte, writeBytes, writeUint16, writeUint32, startWrite, set_wbuf;
  cbn [fr_w fr_wbuf fr_AllowIllegalWrites];
  apply endWrite_too_large; [done|];
  unfold frameHeaderLen; autorewrite with lens in *; lia.

Lemma reject_data {W} `{Writer W} (f : Framer W) sid es data pad e :
  fr_AllowIllegalWrites f = false -> is_u32 sid -> op_error (OpData sid es data pad) = Some e ->
  rejected f e (WriteDataPadded f sid es data pad).
Proof.
  intros Hal Hs. unfold op_error, op_rejects, WriteDataPadded, startWriteDataPadded.
  rewrite validStreamID_bad, Hal, negb_involutive by done. cbn [negb andb].
  destruct (bad_sid sid); cbn [andb]; [by intros [= <-]|].
  set (pb := default [] pad). destruct (Z.ltb_spec 255 (len pb)) as [Hl|Hl].
  { intros [= <-]. destruct (Z.ltb_spec 0 (len pb)); [done|lia]. }
  assert ((if 0 <? len pb then if existsb (fun b => negb (b =? 0)) pb then Some errPadBytes else None
           else None) = if existsb (fun b => negb (b =? 0)) pb then Some errPadBytes else None) as ->.
  { destruct (Z.ltb_spec 0 (len pb)) as [|Hz]; [done|]. destruct pb; [done|].
    rewrite len_cons in Hz. pose proof (len_nonneg pb). lia. }
  destruct (existsb _ pb); [by intros [= <-]|]. cbn [op_payload]. fold pb.
  destruct (Z.leb_spec (2 ^ 24) (len ((match pad with Some p => [len p] | None => [] end) ++ data ++ pb)));
    [|done]. intros [= <-]. destruct pad; cbn [is_set]; reject_large.
Qed.

Lemma reject_headers {W} `{Writer W} (f : Framer W) p e :
  fr_AllowIllegalWrites f = false -> op_typed (OpHeaders p) -> op_error (OpHeaders p) = Some e ->
  rejected f e (WriteHeaders f p).
Proof.
  intros Hal [Hs Hd]. unfold op_error, op_rejects, WriteHeaders.
  rewrite validStreamID_bad, validStreamIDOrZero_bad, !negb_involutive by done.
  unfold writeByte, startWrite, set_wbuf. cbn [fr_w fr_wbuf fr_AllowIllegalWrites]. rewrite Hal.
  cbn [negb andb]. rewrite !andb_true_r. destruct (bad_sid _); [by intros [= <-]|].
  cbn [op_payload]. unfold pad_byte.
  destruct (PriorityParam_IsZero (HP_Priority p)), (HP_PadLength p =? 0), (2 ^ 31 <=? StreamDep (HP_Priority p));
    cbn [negb andb fr_AllowIllegalWrites]; rewrite ?Hal; cbn [negb];
    try (by intros [= <-]);
    match goal with |- (if ?c then _ else _) = _ -> _ => destruct c eqn:Hc end; try done;
    apply Z.leb_le in Hc; intros [= <-]; unfold prio_bytes in Hc; reject_large.
Qed.

Lemma reject_push {W} `{Writer W} (f : Framer W) p e :
  fr_AllowIllegalWrites f = false -> op_typed (OpPushPromise p) -> op_error (OpPushPromise p) = Some e ->
  rejected f e (WritePushPromise f p).
Proof.
  intros Hal [Hs Hd]. unfold op_error, op_rejects, WritePushPromise.
  rewrite !validStreamID_bad, !negb_involutive by done.
  unfold writeByte, startWrite, set_wbuf. cbn [fr_w fr_wbuf fr_AllowIllegalWrites]. rewrite Hal.
  cbn [negb andb]. rewrite !andb_true_r. destruct (bad_sid (PP_StreamID p)); [by intros [= <-]|].
  cbn [op_payload orb]. unfold pad_byte.
  destruct (PP_PadLength p =? 0), (bad_sid (PP_PromiseID p));
    cbn [negb andb fr_AllowIllegalWrites]; rewrite ?Hal; cbn [negb];
    try (by intros [= <-]);
    match goal with |- (if ?c then _ else _) = _ -> _ => destruct c eqn:Hc end; try done;
    apply Z.leb_le in Hc; intros [= <-]; reject_large.
Qed.

(** A rejected write leaves the connection untouched. Whatever the writer
    behind the framer, when the arguments are illegal (stream zero or above
    2^31, oversized or non-zero padding, bad dependency, window increment out of
    [1, 2^31), payload of 2^24 bytes or more) every write method returns the
    documented error, in the documented order of the checks, and not one byte
    of a partial frame reaches the connection. *)
Theorem rejected_write_is_silent {W} `{Writer W} (f : Framer W) (o : wire_op) (e : error) :
  fr_AllowIllegalWrites f = false -> op_typed o -> op_error o = Some e ->
  fr_w (fst (write_op f o)) = fr_w f /\ snd (write_op f o) = Some e.
Proof.
  intros Hal Ht He.
  destruct o; cbn [write_op]; try (by eapply reject_data); try (by eapply reject_headers);
    try (by eapply reject_push);
    unfold op_error, op_rejects in He; cbn [op_payload op_typed] in *;
    unfold WritePriority, WriteRSTStream, WriteSettings, WriteSettingsAck, WritePing, WriteGoAway,
      WriteWindowUpdate, WriteContinuation, WriteRawFrame.
  all: try (destruct Ht; rewrite validStreamIDOrZero_bad by done).
  all: try (rewrite validStreamID_bad by done); rewrite ?Hal, ?negb_involutive; cbn [negb];
    rewrite ?andb_true_r.
  all: try replace (2147483647 <? incr) with (2 ^ 31 <=? incr) 
    by (destruct (Z.ltb_spec 2147483647 incr), (Z.leb_spec (2 ^ 31) incr); lia).
  all: repeat match type of He with
  | context [if ?c then _ else _] => destruct c eqn:?; try discriminate He; try (by injection He as <-)
  end.
  all: match goal with H : (2 ^ 24 <=? _) = true |- _ => apply Z.leb_le in H end; injection He as <-;
    unfold prio_bytes in *; change (fr_w (fst ?r) = fr_w f /\ _) with (rejected f errFrameTooLarge r);
    try (unfold startWrite, set_wbuf; rewrite settings_fold); reject_large.
Qed.

Lemma rejected_write_is_silent_witness :
  let f := mkFramer (W := bytes) [1; 2] [] false in
  fr_w (fst (write_op f (OpData 0 true [1] None))) = [1; 2]
  /\ snd (write_op f (OpData 0 true [1] None)) = Some errStreamID.
Proof.
  intros f. apply (rejected_write_is_silent f (OpData 0 true [1] None)).
  - reflexivity.
  - cbn. word.
  - reflexivity.
Defined.
