(* ===== verification/Framer.v ===== *)
(** * The reading half of [Framer] ([src/internal/http2/frame.go])

    [ReadFrame], the order check on HEADERS and CONTINUATION frames, and the
    assembly of a header block into a [MetaHeadersFrame]. The HPACK decoder is
    golang.org/x/net's: the class [HpackDecoder] lists the operations the code
    calls, [HpackDecoderOk] their documented behaviour. Dumping of the decoded
    fields and the debug logs have no effect on the result and are left out. *)

From S2P Require Import Prelude.
From S2P Require Import H2Errors.
From S2P Require Import Frame.
From S2P Require Import FrameWrite.

(** ** The HPACK decoder *)
Class HpackDecoder (D : Type) := {
  EmitEnabled : D -> bool;
  SetEmitEnabled : D -> bool -> D;
  SetMaxStringLength : D -> Z -> D;
  (** [Write] with the emit function in force, which reads and changes the
      decoder and the variables [M] it closes over. *)
  hdec_Write : forall M : Type,
    (D * M -> HeaderField -> D * M) -> D * M -> bytes -> (D * M) * option error;
  hdec_Close : D -> D * option error;
  hf_Size : HeaderField -> Z;
  hf_IsPseudo : HeaderField -> bool }.
Arguments hdec_Write {D _ M}.

(** What [Write] may do: work on its own state, and call the emit function on
    the fields it decodes while emitting is enabled. *)
Inductive emitted {D M} `{HpackDecoder D} (emit : D * M -> HeaderField -> D * M)
    : D * M -> D * M -> Prop :=
| emitted_done s : emitted emit s s
| emitted_internal d d' m s :
    EmitEnabled d' = EmitEnabled d -> emitted emit (d', m) s -> emitted emit (d, m) s
| emitted_field d m hf s :
    EmitEnabled d = true -> emitted emit (emit (d, m) hf) s -> emitted emit (d, m) s.

Definition has_colon (s : string) : bool :=
  match bytes_of_string s with 58 :: _ => true | _ => false end.

Class HpackDecoderOk (D : Type) `{HpackDecoder D} := {
  SetEmitEnabled_spec d b : EmitEnabled (SetEmitEnabled d b) = b;
  hdec_Write_spec M emit (s : D * M) p s' e : hdec_Write emit s p = (s', e) -> emitted emit s s';
  hf_Size_spec hf : is_u32 (hf_Size hf);
  hf_IsPseudo_spec hf : hf_IsPseudo hf = has_colon (hf_Name hf) }.

(** A decoder for header blocks of indexed fields of HPACK's static table; it
    shows that the laws can hold. Its state is whether emitting is enabled. *)
Definition static_field (b : byte) : option HeaderField :=
  match b with
  | 130 => Some (mkHeaderField ":method" "GET") | 132 => Some (mkHeaderField ":path" "/")
  | 136 => Some (mkHeaderField ":status" "200") | 141 => Some (mkHeaderField ":status" "404")
  | 144 => Some (mkHeaderField "accept-encoding" "gzip, deflate")
  | _ => None
  end%string.

Fixpoint static_write {M} (emit : bool * M -> HeaderField -> bool * M) (s : bool * M) (p : bytes)
    : (bool * M) * option error :=
  match p with
  | [] => (s, None)
  | b :: p =>
      match static_field b with
      | None => (s, Some (errors_New "invalid indexed representation"))
      | Some hf => static_write emit (if s.1 then emit s hf else s) p
      end
  end.

Definition field_size (hf : HeaderField) : Z :=
  u32 (len (bytes_of_string (hf_Name hf)) + len (bytes_of_string (hf_Value hf)) + 32).

#[export] Instance static_decoder : HpackDecoder bool := {
  EmitEnabled d := d;
  SetEmitEnabled _ b := b;
  SetMaxStringLength d _ := d;
  hdec_Write := @static_write;
  hdec_Close d := (d, None);
  hf_Size := field_size;
  hf_IsPseudo hf := has_colon (hf_Name hf) }.

#[export] Instance static_decoder_ok : HpackDecoderOk bool.
Proof.
  split; intros; cbn in *; [done| |unfold field_size; apply u32_range|done].
  revert s H. induction p as [|b p IH]; intros [d m] Hw; cbn in Hw; [injection Hw as <- <-; constructor|].
  destruct (static_field b) as [hf|]; [|injection Hw as <- <-; constructor].
  destruct d; cbn in Hw; [|by apply IH].
  apply (emitted_field _ _ _ hf); [done|]. by apply IH.
Qed.

(** ** The framer *)
Module Reader.

Record Framer (D : Type) := mkFramer {
  r : bytes;                      (* what the connection will still deliver *)
  maxReadSize : Z;
  lastFrame : option Frame;
  errDetail : option error;
  lastHeaderStream : Z;
  AllowIllegalReads : bool;
  MaxHeaderListSize : Z;
  ReadMetaHeaders : option D }.
Arguments mkFramer {D}. Arguments r {D}. Arguments maxReadSize {D}. Arguments lastFrame {D}.
Arguments errDetail {D}. Arguments lastHeaderStream {D}. Arguments AllowIllegalReads {D}.
Arguments MaxHeaderListSize {D}. Arguments ReadMetaHeaders {D}.

(** [(Frame, error)], or a panic, or the fuel of the model ran out. *)
Inductive outcome :=
| Returned (f : option Frame) (err : option error)
| Panicked (msg : string)
| OutOfFuel.

Section Setters.
Context {D : Type}.
Implicit Types fr : Framer D.
Definition set_r fr v := mkFramer v (maxReadSize fr) (lastFrame fr) (errDetail fr)
  (lastHeaderStream fr) (AllowIllegalReads fr) (MaxHeaderListSize fr) (ReadMetaHeaders fr).
Definition set_maxReadSize fr v := mkFramer (r fr) v (lastFrame fr) (errDetail fr)
  (lastHeaderStream fr) (AllowIllegalReads fr) (MaxHeaderListSize fr) (ReadMetaHeaders fr).
Definition set_lastFrame fr v := mkFramer (r fr) (maxReadSize fr) v (errDetail fr)
  (lastHeaderStream fr) (AllowIllegalReads fr) (MaxHeaderListSize fr) (ReadMetaHeaders fr).
Definition set_errDetail fr v := mkFramer (r fr) (maxReadSize fr) (lastFrame fr) v
  (lastHeaderStream fr) (AllowIllegalReads fr) (MaxHeaderListSize fr) (ReadMetaHeaders fr).
Definition set_lastHeaderStream fr v := mkFramer (r fr) (maxReadSize fr) (lastFrame fr) (errDetail fr)
  v (AllowIllegalReads fr) (MaxHeaderListSize fr) (ReadMetaHeaders fr).
Definition set_hdec fr v : Framer D := mkFramer (r fr) (maxReadSize fr) (lastFrame fr) (errDetail fr)
  (lastHeaderStream fr) (AllowIllegalReads fr) (MaxHeaderListSize fr) v.
End Setters.

Section Basics.
Context {D : Type}.
Implicit Types fr : Framer D.

Definition SetMaxReadFrameSize fr (v : Z) : Framer D :=
  set_maxReadSize fr (if maxFrameSize <? v then maxFrameSize else v).

Definition maxHeaderListSize fr : Z :=
  if MaxHeaderListSize fr =? 0 then Z.shiftl 16 20 else MaxHeaderListSize fr.

Definition maxHeaderStringLen fr : Z :=
  let v := i64 (maxHeaderListSize fr) in if v <? 0 then 0 else v.

Definition connError fr (code : ErrCode) (reason : string) : Framer D * error :=
  (set_errDetail fr (Some (errors_New reason)), ConnectionError code).

(** [checkFrameOrder]; the first component of the result is a panic message
    (the only one is [last.Header()] on a nil frame). *)
Definition checkFrameOrder fr (f : Frame) : result string (Framer D * option error) :=
  let last_ := lastFrame fr in
  let fr := set_lastFrame fr (Some f) in
  if AllowIllegalReads fr then Ok (fr, None) else
  let fh := Frame_Header f in
  let fail (reason : string) :=
    let '(fr, e) := connError fr ErrCodeProtocol reason in Ok (fr, Some e) in
  let accept :=
    if (fh_Type fh =? FrameHeaders) || (fh_Type fh =? FrameContinuation) then
      Ok (set_lastHeaderStream fr
            (if Flags_Has (fh_Flags fh) FlagHeadersEndHeaders then 0 else fh_StreamID fh), None)
    else Ok (fr, None) in
  if negb (lastHeaderStream fr =? 0) then
    if negb (fh_Type fh =? FrameContinuation) then
      match last_ with
      | None => Err "nil pointer dereference"%string
      | Some l =>
          fail ("got " +:+ FrameType_String (fh_Type fh) +:+ " for stream "
                +:+ format_dec (fh_StreamID fh) +:+ "; expected CONTINUATION following "
                +:+ FrameType_String (fh_Type (Frame_Header l)) +:+ " for stream "
                +:+ format_dec (lastHeaderStream fr))
      end
    else if negb (fh_StreamID fh =? lastHeaderStream fr) then
      fail ("got CONTINUATION for stream " +:+ format_dec (fh_StreamID fh)
            +:+ "; expected stream " +:+ format_dec (lastHeaderStream fr))
    else accept
  else if fh_Type fh =? FrameContinuation then
    fail ("unexpected CONTINUATION for stream " +:+ format_dec (fh_StreamID fh))
  else accept.
End Basics.

(** *** Header lists *)
Record meta := mkMeta {
  remainSize : Z;
  sawRegular : bool;
  invalid : option error;
  mh_Fields : list HeaderField;
  mh_Truncated : bool }.

Section Meta.
Context {D : Type} `{HpackDecoder D}
  (ValidHeaderFieldValue : string -> bool) (IsTokenRune : Z -> bool).

Fixpoint PseudoValue (fields : list HeaderField) (pseudo : string) : string :=
  match fields with
  | [] => ""
  | hf :: fields =>
      if negb (hf_IsPseudo hf) then ""
      else if String.eqb (String.substring 1 (String.length (hf_Name hf) - 1) (hf_Name hf)) pseudo
      then hf_Value hf else PseudoValue fields pseudo
  end%string.

Fixpoint RegularFields (fields : list HeaderField) : list HeaderField :=
  match fields with
  | [] => []
  | hf :: rest => if negb (hf_IsPseudo hf) then fields else RegularFields rest
  end.

Fixpoint PseudoFields (fields : list HeaderField) : list HeaderField :=
  match fields with
  | [] => []
  | hf :: rest => if negb (hf_IsPseudo hf) then [] else hf :: PseudoFields rest
  end.

Definition requestPseudo : list string := [":method"; ":path"; ":scheme"; ":authority"]%string.

(** The loop of [checkPseudos]; [seen] is [pf[:i]]. *)
Fixpoint checkPseudos_loop (seen pf : list HeaderField) (isRequest isResponse : bool) : option error :=
  match pf with
  | [] => if isRequest && isResponse then Some errMixPseudoHeaderTypes else None
  | hf :: pf =>
      let req := bool_decide (hf_Name hf ∈ requestPseudo) in
      let resp := String.eqb (hf_Name hf) ":status" in
      if negb req && negb resp then Some (pseudoHeaderError (hf_Name hf)) else
      if existsb (fun hf2 => String.eqb (hf_Name hf) (hf_Name hf2)) seen
      then Some (duplicatePseudoHeaderError (hf_Name hf))
      else checkPseudos_loop (seen ++ [hf]) pf (isRequest || req) (isResponse || resp)
  end.
Definition checkPseudos (fields : list HeaderField) : option error :=
  checkPseudos_loop [] (PseudoFields fields) false false.

(** [rawEmitFunc] *)
Definition rawEmitFunc (s : D * meta) (hf : HeaderField) : D * meta :=
  let '(hdec, m) := s in
  let inv := invalid m in
  let inv := if negb (ValidHeaderFieldValue (hf_Value hf))
             then Some (headerFieldValueError (hf_Name hf)) else inv in
  let isPseudo := has_colon (hf_Name hf) in
  let inv := if isPseudo then if sawRegular m then Some errPseudoAfterRegular else inv
             else if negb (validWireHeaderFieldName IsTokenRune (hf_Name hf))
                  then Some (headerFieldNameError (hf_Name hf)) else inv in
  let saw := if isPseudo then sawRegular m else true in
  match inv with
  | Some _ =>
      (SetEmitEnabled hdec false, mkMeta (remainSize m) saw inv (mh_Fields m) (mh_Truncated m))
  | None =>
      let size := hf_Size hf in
      if remainSize m <? size
      then (SetEmitEnabled hdec false, mkMeta 0 saw inv (mh_Fields m) true)
      else (hdec, mkMeta (remainSize m - size) saw inv (mh_Fields m ++ [hf]) (mh_Truncated m))
  end.

(** What the loop of [readMetaFrame] ends with: the function returned (or
    panicked), or the header block is complete. *)
Inductive loopResult :=
| LoopReturn (o : outcome) (fr : Framer D)
| LoopBreak (fr : Framer D) (fh : FrameHeader) (m : meta).

(** [hf] is the HEADERS frame; [hc], [frag] the header and the fragment of
    the current HEADERS or CONTINUATION frame. The next [ReadFrame]
    invalidates the last frame, hence [hf]. *)
Fixpoint metaLoop (ReadFrame : Framer D -> outcome * Framer D) (n : nat) (fr : Framer D)
    (hf : FrameHeader) (prio : PriorityParam) (hc : FrameHeader) (frag : bytes) (m : meta)
    : loopResult :=
  match n with
  | O => LoopReturn OutOfFuel fr
  | S n =>
      let mh := MetaHeadersFrame hf prio (mh_Fields m) (mh_Truncated m) in
      match checked hc frag with
      | Err msg => LoopReturn (Panicked msg) fr
      | Ok frag =>
          if i64 (u32 (2 * remainSize m)) <? len frag
          then LoopReturn (Returned (Some mh) (Some (ConnectionError ErrCodeProtocol))) fr else
          if is_set (invalid m)
          then LoopReturn (Returned (Some mh) (Some (ConnectionError ErrCodeProtocol))) fr else
          match ReadMetaHeaders fr with
          | None => LoopReturn (Panicked "nil pointer dereference") fr
          | Some hdec =>
              let '((hdec, m), err) := hdec_Write rawEmitFunc (hdec, m) frag in
              let fr := set_hdec fr (Some hdec) in
              let mh := MetaHeadersFrame hf prio (mh_Fields m) (mh_Truncated m) in
              if is_set err
              then LoopReturn (Returned (Some mh) (Some (ConnectionError ErrCodeCompression))) fr else
              if Flags_Has (fh_Flags hc) FlagHeadersEndHeaders then LoopBreak fr hf m else
              match ReadFrame fr with
              | (Returned _ (Some err), fr) => LoopReturn (Returned None (Some err)) fr
              | (Returned (Some (ContinuationFrame ch cfrag)) None, fr) =>
                  metaLoop ReadFrame n fr (invalidate_header hf) prio ch cfrag m
              | (Returned _ None, fr) => LoopReturn (Panicked "interface conversion") fr
              | (o, fr) => LoopReturn o fr
              end
          end
      end
  end.

Definition readMetaFrame (ReadFrame : Framer D -> outcome * Framer D) (n : nat) (fr : Framer D)
    (hf : FrameHeader) (prio : PriorityParam) (frag : bytes) : outcome * Framer D :=
  if AllowIllegalReads fr
  then (Returned None (Some (errors_New "illegal use of AllowIllegalReads with ReadMetaHeaders")), fr)
  else
  match ReadMetaHeaders fr with
  | None => (Panicked "nil pointer dereference", fr)
  | Some hdec =>
      let hdec := SetEmitEnabled hdec true in
      let hdec := SetMaxStringLength hdec (maxHeaderStringLen fr) in
      let fr := set_hdec fr (Some hdec) in
      match metaLoop ReadFrame n fr hf prio hf frag (mkMeta (maxHeaderListSize fr) false None [] false) with
      | LoopReturn o fr => (o, fr)
      | LoopBreak fr hf m =>
          let hf := invalidate_header hf in
          let mh := MetaHeadersFrame hf prio (mh_Fields m) (mh_Truncated m) in
          match ReadMetaHeaders fr with
          | None => (Panicked "nil pointer dereference", fr)
          | Some hdec =>
              let '(hdec, err) := hdec_Close hdec in
              let fr := set_hdec fr (Some hdec) in
              if is_set err
              then (Returned (Some mh) (Some (ConnectionError ErrCodeCompression)), fr) else
              match invalid m with
              | Some e =>
                  (Returned None (Some (StreamError (fh_StreamID hf) ErrCodeProtocol (Some e))),
                   set_errDetail fr (Some e))
              | None =>
                  match checkPseudos (mh_Fields m) with
                  | Some e =>
                      (Returned None (Some (StreamError (fh_StreamID hf) ErrCodeProtocol (Some e))),
                       set_errDetail fr (Some e))
                  | None => (Returned (Some mh) None, fr)
                  end
              end
          end
      end
  end.

Fixpoint ReadFrame (fuel : nat) (fr : Framer D) : outcome * Framer D :=
  match fuel with
  | O => (OutOfFuel, fr)
  | S fuel =>
      let fr := set_errDetail fr None in
      let fr := set_lastFrame fr (Frame_invalidate <$> lastFrame fr) in
      match readFrameHeader (r fr) with
      | (Err err, r') => (Returned None (Some err), set_r fr r')
      | (Ok fh, r') =>
          let fr := set_r fr r' in
          if maxReadSize fr <? fh_Length fh then (Returned None (Some errFrameTooLarge), fr) else
          match io_ReadFull (r fr) (fh_Length fh) with
          | (Err err, r') => (Returned None (Some err), set_r fr r')
          | (Ok payload, r') =>
              let fr := set_r fr r' in
              match typeFrameParser (fh_Type fh) fh payload with
              | ParsePanic => (Panicked "Frame accessor called on non-owned Frame", fr)
              | ParseErr _ (H2Errors.connError code reason) =>
                  let '(fr, err) := connError fr code reason in (Returned None (Some err), fr)
              | ParseErr _ err => (Returned None (Some err), fr)
              | Parsed f =>
                  match checkFrameOrder fr f with
                  | Err msg => (Panicked msg, fr)
                  | Ok (fr, Some err) => (Returned None (Some err), fr)
                  | Ok (fr, None) =>
                      if (fh_Type fh =? FrameHeaders) && is_set (ReadMetaHeaders fr) then
                        match f with
                        | HeadersFrame h prio frag => readMetaFrame (ReadFrame fuel) fuel fr h prio frag
                        | _ => (Panicked "interface conversion", fr)
                        end
                      else (Returned (Some f) None, fr)
                  end
              end
          end
      end
  end.
End Meta.

(** ** Facts about the parsers *)
Lemma parse_not_panic h p : fh_valid h = true -> typeFrameParser (fh_Type h) h p <> ParsePanic.
Proof.
  intros Hv. unfold typeFrameParser.
  repeat match goal with |- match ?t with _ => _ end _ _ <> _ => destruct t end;
    unfold parseDataFrame, parsePriorityFrame, parseRSTStreamFrame, parseSettingsFrame,
      SettingsFrame_Value, checked, parsePushPromise, parsePingFrame, parseGoAwayFrame,
      parseWindowUpdateFrame, parseContinuationFrame, parseUnknownFrame; rewrite ?Hv;
    try (repeat case_match; done).
  unfold parseHeadersFrame. destruct (_ =? 0); [done|].
  destruct (if Flags_Has (fh_Flags h) FlagHeadersPadded then _ else _) as [[]|]; [|done].
  destruct (Flags_Has _ FlagHeadersPriority); unfold readPriority; repeat case_match; congruence.
Qed.

Lemma parse_meta_free h p f fh prio l tr :
  typeFrameParser (fh_Type h) h p = Parsed f -> f <> MetaHeadersFrame fh prio l tr.
Proof.
  unfold typeFrameParser. intros H ->. revert H.
  repeat match goal with |- match ?t with _ => _ end _ _ = _ -> _ => destruct t end;
    unfold parseDataFrame, parsePriorityFrame, parseRSTStreamFrame, parseSettingsFrame,
      SettingsFrame_Value, checked, parsePushPromise, parsePingFrame, parseGoAwayFrame,
      parseWindowUpdateFrame, parseContinuationFrame, parseUnknownFrame, parseHeadersFrame, readPriority;
    repeat case_match; congruence.
Qed.

Lemma parse_type_headers h p f : fh_Type h = FrameHeaders ->
  typeFrameParser (fh_Type h) h p = Parsed f -> exists prio frag, f = HeadersFrame h prio frag.
Proof.
  intros ->. cbn. unfold parseHeadersFrame, readPriority. intros H. repeat case_match; try congruence.
  all: injection H as <-; eauto.
Qed.

Lemma parse_type_continuation h p f : fh_Type h = FrameContinuation ->
  typeFrameParser (fh_Type h) h p = Parsed f -> exists frag, f = ContinuationFrame h frag.
Proof.
  intros ->. cbn. unfold parseContinuationFrame. intros H. case_match; [congruence|].
  injection H as <-; eauto.
Qed.

Lemma readFrameHeader_ok rd fh rd' : readFrameHeader rd = (Ok fh, rd') ->
  fh_valid fh = true /\ (length rd' + 9 = length rd)%nat.
Proof.
  unfold readFrameHeader, io_ReadFull, frameHeaderLen. destruct (Z.leb_spec 9 (len rd)); [|done].
  intros [= <- <-]. split; [done|]. unfold slice_from, len in *. rewrite length_drop. lia.
Qed.

Lemma readFrameHeader_err rd e rd' : readFrameHeader rd = (Err e, rd') -> (length rd' <= length rd)%nat.
Proof.
  unfold readFrameHeader, io_ReadFull. destruct (_ <=? _); [done|]. intros [= _ <-]. cbn. lia.
Qed.

Lemma io_ReadFull_length rd n v rd' : io_ReadFull rd n = (v, rd') -> (length rd' <= length rd)%nat.
Proof.
  unfold io_ReadFull. destruct (_ <=? _); intros [= _ <-]; cbn; [|lia].
  unfold slice_from. rewrite length_drop. lia.
Qed.

(** ** Totality: [ReadFrame] returns, and never panics *)
Section Total.
Context {D : Type} `{HpackDecoder D}
  (ValidHeaderFieldValue : string -> bool) (IsTokenRune : Z -> bool).
Implicit Types fr : Framer D.

(** The well-formedness invariant of a framer: a pending header block has a
    last frame (which the error message of [checkFrameOrder] prints). *)
Definition fr_ok fr : Prop := lastHeaderStream fr <> 0 -> lastFrame fr <> None.

(** The fields reading does not change. *)
Definition same_config fr fr' : Prop :=
  AllowIllegalReads fr' = AllowIllegalReads fr /\ maxReadSize fr' = maxReadSize fr
  /\ MaxHeaderListSize fr' = MaxHeaderListSize fr
  /\ is_set (ReadMetaHeaders fr') = is_set (ReadMetaHeaders fr).

Lemma same_config_trans a b c : same_config a b -> same_config b c -> same_config a c.
Proof. unfold same_config. intuition congruence. Qed.

(** What a pending header block guarantees of the next frame read. *)
Definition continues fr (f : Frame) fr' : Prop :=
  AllowIllegalReads fr = false -> lastHeaderStream fr <> 0 ->
  exists ch frag, f = ContinuationFrame ch frag /\ fh_valid ch = true
    /\ (Flags_Has (fh_Flags ch) FlagHeadersEndHeaders = false -> lastHeaderStream fr' <> 0).

Definition read_post fr (res : outcome * Framer D) : Prop :=
  exists f e fr', res = (Returned f e, fr') /\ fr_ok fr' /\ same_config fr fr'
    /\ (length (r fr') <= length (r fr))%nat
    /\ (e = None -> (length (r fr') + 9 <= length (r fr))%nat
         /\ exists f', f = Some f' /\ continues fr f' fr').

Lemma read_post_err fr f e fr' :
  fr_ok fr' -> same_config fr fr' -> (length (r fr') <= length (r fr))%nat ->
  read_post fr (Returned f (Some e), fr').
Proof. intros. exists f, (Some e), fr'. split_and!; try done; apply H1. Qed.

Definition loop_post fr (res : loopResult) : Prop :=
  match res with
  | LoopReturn (Returned _ (Some _)) fr' | LoopBreak fr' _ _ =>
      fr_ok fr' /\ same_config fr fr' /\ (length (r fr') <= length (r fr))%nat
  | LoopReturn _ _ => False
  end.

Lemma loop_post_weaken fr fr0 res :
  same_config fr fr0 -> (length (r fr0) <= length (r fr))%nat -> loop_post fr0 res -> loop_post fr res.
Proof.
  intros Hc Hl. destruct res as [[? [?|]| |]|]; cbn; try done;
    intros (Hok & Hs & Hr); (split; [done|]; split; [by eapply same_config_trans|lia]).
Qed.

Ltac done' :=
  cbn; repeat split; cbn; try done;
  repeat match goal with E : ReadMetaHeaders _ = _ |- _ => rewrite E end; done.

Lemma metaLoop_total (rd : Framer D -> outcome * Framer D) bound :
  (forall fr, fr_ok fr -> (length (r fr) < bound)%nat -> read_post fr (rd fr)) ->
  forall n fr hf prio hc frag m,
  (length (r fr) < bound)%nat -> (length (r fr) < n)%nat -> fr_ok fr -> AllowIllegalReads fr = false ->
  is_set (ReadMetaHeaders fr) = true -> fh_valid hc = true ->
  (Flags_Has (fh_Flags hc) FlagHeadersEndHeaders = false -> lastHeaderStream fr <> 0) ->
  loop_post fr (metaLoop ValidHeaderFieldValue IsTokenRune rd n fr hf prio hc frag m).
Proof.
  intros Hrd. induction n as [|n IH]; intros fr hf prio hc frag m Hb Hn Hok Hair Hset Hv Hpend; [lia|].
  cbn [metaLoop]. unfold checked at 1. rewrite Hv.
  destruct (_ <? len frag); [done'|]. destruct (is_set (invalid m)); [done'|].
  destruct (ReadMetaHeaders fr) as [d|] eqn:Hd; [|done].
  destruct (hdec_Write _ _ _) as [[d' m'] err].
  destruct (is_set err); [done'|].
  destruct (Flags_Has (fh_Flags hc) FlagHeadersEndHeaders) eqn:Hend; [done'|].
  set (fr0 := set_hdec fr (Some d')).
  assert (same_config fr fr0) as Hc0 by (unfold same_config; cbn; by rewrite Hd).
  destruct (Hrd fr0 Hok Hb) as (f & e & fr1 & -> & Hok1 & Hc1 & Hl1 & Hnone).
  pose proof (same_config_trans _ _ _ Hc0 Hc1) as Hc.
  destruct e as [e|]; [by (destruct f as [[]|]; (split; [|split]))|].
  destruct (Hnone eq_refl) as (Hl & f' & -> & Hcont).
  destruct (Hcont Hair (Hpend eq_refl)) as (ch & cfrag & -> & Hv' & Hpend').
  cbn in Hl. eapply (loop_post_weaken _ fr1); [done|lia|].
  destruct Hc as (Ha & _ & _ & Hm).
  apply IH; try done; try lia; try congruence.
Qed.

Lemma readMetaFrame_total rd bound n fr hf prio frag :
  (forall fr, fr_ok fr -> (length (r fr) < bound)%nat -> read_post fr (rd fr)) ->
  (length (r fr) < bound)%nat -> (length (r fr) < n)%nat -> fr_ok fr ->
  is_set (ReadMetaHeaders fr) = true -> fh_valid hf = true ->
  (AllowIllegalReads fr = false -> Flags_Has (fh_Flags hf) FlagHeadersEndHeaders = false ->
   lastHeaderStream fr <> 0) ->
  exists f e fr', readMetaFrame ValidHeaderFieldValue IsTokenRune rd n fr hf prio frag
                  = (Returned f e, fr')
    /\ fr_ok fr' /\ same_config fr fr' /\ (length (r fr') <= length (r fr))%nat
    /\ (e = None -> is_set f = true).
Proof.
  intros Hrd Hb Hn Hok Hset Hv Hpend. unfold readMetaFrame.
  destruct (AllowIllegalReads fr) eqn:Ha; [by do 3 eexists; split; [reflexivity|]; split_and!|].
  destruct (ReadMetaHeaders fr) as [d|] eqn:Hd; [|done].
  set (fr0 := set_hdec fr _). set (m0 := mkMeta _ _ _ _ _).
  assert (same_config fr fr0) as Hc0 by (unfold same_config; cbn; by rewrite Hd).
  pose proof (metaLoop_total rd bound Hrd n fr0 hf prio hf frag m0 Hb Hn Hok Ha eq_refl Hv (Hpend eq_refl))
    as Hloop.
  destruct (metaLoop _ _ _ _ _ _ _ _ _ _) as [[f [e|]| |] fr1|fr1 fh1 m1]; try done;
    destruct Hloop as (Hok1 & Hc1 & Hl1); pose proof (same_config_trans _ _ _ Hc0 Hc1) as Hc.
  { by do 3 eexists; split; [reflexivity|]; split_and!. }
  destruct (ReadMetaHeaders fr1) as [d1|] eqn:Hd1; [|by destruct Hc as (_ & _ & _ & Hm); rewrite Hd1, Hd in Hm].
  destruct (hdec_Close d1) as [d2 err].
  assert (forall err, same_config fr (set_errDetail (set_hdec fr1 (Some d2)) err)) as Hc2.
  { intros. destruct Hc as (? & ? & ? & Hm). rewrite Hd1, Hd in Hm.
    split_and!; try done. cbn. by rewrite Hd. }
  assert (same_config fr (set_hdec fr1 (Some d2))) as Hc3 by apply (Hc2 None).
  destruct (is_set err); [|destruct (invalid m1); [|destruct (checkPseudos _)]];
    (do 3 eexists; split; [reflexivity|]; by split_and!).
Qed.

Lemma checkFrameOrder_post fr f : fr_ok fr ->
  exists fr' e, checkFrameOrder fr f = Ok (fr', e) /\ fr_ok fr' /\ same_config fr fr' /\ r fr' = r fr
    /\ (e = None -> AllowIllegalReads fr = false ->
         (lastHeaderStream fr <> 0 -> fh_Type (Frame_Header f) = FrameContinuation)
         /\ (fh_Type (Frame_Header f) = FrameHeaders \/ fh_Type (Frame_Header f) = FrameContinuation ->
             lastHeaderStream fr' = if Flags_Has (fh_Flags (Frame_Header f)) FlagHeadersEndHeaders
                                    then 0 else fh_StreamID (Frame_Header f))).
Proof.
  intros Hok. unfold checkFrameOrder. cbn [set_lastFrame AllowIllegalReads lastHeaderStream].
  set (h := Frame_Header f).
  destruct (AllowIllegalReads fr) eqn:Ha.
  { do 2 eexists. split; [reflexivity|]. by split_and!. }
  destruct (Z.eqb_spec (lastHeaderStream fr) 0) as [Hz|Hz]; cbn [negb];
  destruct (Z.eqb_spec (fh_Type h) FrameContinuation) as [Ht|Ht]; cbn [negb].
  all: try (destruct (Z.eqb_spec (fh_StreamID h) (lastHeaderStream fr)); cbn [negb]).
  all: try (destruct (lastFrame fr) eqn:El; [|by destruct (Hok Hz El)]).
  all: try (destruct (Z.eqb_spec (fh_Type h) FrameHeaders) as [Ht'|Ht']; cbn [orb]).
  all: do 2 eexists; (split; [reflexivity|]); (split; [done|]); (split; [by repeat split|]);
    (split; [done|]); intros; try done; split; try tauto; intros [?|?]; by try congruence.
Qed.

Lemma ReadFrame_spec fuel : forall fr, fr_ok fr -> (length (r fr) < fuel)%nat ->
  read_post fr (ReadFrame ValidHeaderFieldValue IsTokenRune fuel fr).
Proof.
  induction fuel as [|fuel IH]; intros fr Hok Hf; [lia|]. cbn [ReadFrame].
  set (fr0 := set_lastFrame _ _).
  assert (fr_ok fr0) as Hok0 by (unfold fr_ok in *; cbn; by destruct (lastFrame fr)).
  destruct (readFrameHeader (r fr0)) as [[fh|e] r1] eqn:Hh.
  2:{ apply readFrameHeader_err in Hh. by apply read_post_err. }
  apply readFrameHeader_ok in Hh as [Hv Hr1]. cbn [r fr0 set_lastFrame set_errDetail] in Hr1.
  destruct (_ <? fh_Length fh); [apply read_post_err; [done|done|cbn; lia]|].
  destruct (io_ReadFull _ _) as [[payload|e] r2] eqn:Hp; apply io_ReadFull_length in Hp; cbn [r set_r] in Hp;
    [|apply read_post_err; [done|done|cbn; lia]].
  destruct (typeFrameParser _ _ _) as [f|tok e|] eqn:Hparse.
  3:{ by apply parse_not_panic in Hparse. }
  2:{ destruct e; apply read_post_err; try done; cbn; lia. }
  destruct (parser_ok _ _ _ Hparse) as [Hfok Hfh].
  set (fr1 := set_r _ r2).
  destruct (checkFrameOrder_post fr1 f Hok0) as (fr2 & e & -> & Hok2 & Hc2 & Hr2 & Hord).
  cbn [r set_r fr1] in Hr2. rewrite Hfh in Hord.
  destruct e as [e|]; [apply read_post_err; [done|done|rewrite Hr2; lia]|].
  specialize (Hord eq_refl). cbn in Hord.
  destruct ((fh_Type fh =? FrameHeaders) && is_set (ReadMetaHeaders fr2)) eqn:Hmeta.
  - apply andb_true_iff in Hmeta as [Ht%Z.eqb_eq Hset].
    destruct (parse_type_headers _ _ _ Ht Hparse) as (prio & frag & ->).
    assert (same_config fr fr2) as Hc by done. subst r2.
    destruct (readMetaFrame_total (ReadFrame ValidHeaderFieldValue IsTokenRune fuel) fuel fuel fr2 fh prio frag)
      as (f' & e' & fr3 & -> & Hok3 & Hc3 & Hl3 & Hf3); try done; try lia.
    { intros Ha He. destruct Hc as (Ha2 & _). destruct (Hord ltac:(congruence)) as [_ ->]; [|by left].
      rewrite He. cbn in Hfok. done. }
    exists f', e', fr3. split_and!; try done; [by eapply same_config_trans|lia|].
    intros ->. split; [lia|]. specialize (Hf3 eq_refl). destruct f' as [f'|]; [|done].
    exists f'. split; [done|]. intros Ha Hl. destruct (Hord Ha) as [Hord1 _].
    specialize (Hord1 Hl). by rewrite Ht in Hord1.
  - subst r2. exists (Some f), None, fr2. split_and!; try done; [lia|]. intros _. split; [lia|].
    exists f. split; [done|]. intros Ha Hl. destruct (Hord Ha) as [Hord1 Hord2].
    specialize (Hord1 Hl). destruct (parse_type_continuation _ _ _ Hord1 Hparse) as (frag & ->).
    exists fh, frag. split_and!; try done. intros He. rewrite Hord2, He by tauto. done.
Qed.

(** [ReadFrame] always returns. On any byte stream, well-formed or not, and
    with or without header decoding, [ReadFrame] terminates (fuel one more than
    the bytes of the connection is enough), does not panic (in particular the type assertion on
    CONTINUATION frames in [readMetaFrame] and the accessors of owned frames
    cannot fail), and a success consumes at least a frame header. *)
Theorem ReadFrame_returns fuel fr :
  fr_ok fr -> (length (r fr) < fuel)%nat ->
  exists f e fr', ReadFrame ValidHeaderFieldValue IsTokenRune fuel fr = (Returned f e, fr')
    /\ fr_ok fr' /\ (length (r fr') <= length (r fr))%nat
    /\ (e = None -> is_set f = true /\ (length (r fr') + 9 <= length (r fr))%nat).
Proof.
  intros Hok Hf. destruct (ReadFrame_spec fuel fr Hok Hf) as (f & e & fr' & Hr & Hok' & _ & Hl & Hn).
  exists f, e, fr'. split_and!; try done. intros ->. destruct (Hn eq_refl) as (Hl' & f' & -> & _). done.
Qed.
End Total.

Definition sample_framer (b : bytes) : Framer bool :=
  mkFramer b 16384 None None 0 false 0 (Some true).

Definition sample_ReadFrame := ReadFrame (D := bool) (fun _ => true) (fun _ => true).

Lemma ReadFrame_returns_witness :
  exists f e fr', sample_ReadFrame 11 (sample_framer [0; 0; 1; 1; 4; 0; 0; 0; 1; 136]) = (Returned f e, fr')
    /\ fr_ok fr' /\ (length (r fr') <= 10)%nat
    /\ (e = None -> is_set f = true /\ (length (r fr') + 9 <= 10)%nat).
Proof.
  apply (ReadFrame_returns (fun _ => true) (fun _ => true) 11
           (sample_framer [0; 0; 1; 1; 4; 0; 0; 0; 1; 136])).
  - intros H. exfalso. by apply H.
  - cbn. lia.
Defined.

Example sample_response :
  (sample_ReadFrame 20 (sample_framer [0; 0; 1; 1; 4; 0; 0; 0; 1; 136; 9])).1
  = Returned (Some (MetaHeadersFrame (mkFrameHeader false 1 4 1 1) PriorityParam_zero
                      [mkHeaderField ":status" "200"] false)) None.
Proof. reflexivity. Qed.

(** ** What a [MetaHeadersFrame] guarantees *)
Section MetaOk.
Context {D : Type} `{HpackDecoderOk D}
  (ValidHeaderFieldValue : string -> bool) (IsTokenRune : Z -> bool).
Implicit Types fr : Framer D.

Definition total_size (l : list HeaderField) : Z := foldr (fun hf n => hf_Size hf + n) 0 l.
Definition pseudo (hf : HeaderField) : Prop := has_colon (hf_Name hf) = true.
Definition regular_ok (hf : HeaderField) : Prop :=
  has_colon (hf_Name hf) = false /\ validWireHeaderFieldName IsTokenRune (hf_Name hf) = true.

(** Pseudo-header fields come first, names and values are valid. *)
Definition fields_ok (l : list HeaderField) : Prop :=
  Forall (fun hf => ValidHeaderFieldValue (hf_Value hf) = true) l
  /\ exists ps rs, l = ps ++ rs /\ Forall pseudo ps /\ Forall regular_ok rs.

(** The invariant of the variables [rawEmitFunc] closes over. *)
Definition meta_ok (max : Z) (m : meta) : Prop :=
  0 <= remainSize m /\ total_size (mh_Fields m) + remainSize m <= max
  /\ fields_ok (mh_Fields m)
  /\ (sawRegular m = false -> Forall pseudo (mh_Fields m)).

#[local] Arguments total_size : simpl never.

Lemma total_size_app l1 l2 : total_size (l1 ++ l2) = total_size l1 + total_size l2.
Proof. unfold total_size. induction l1 as [|x l IH]; cbn; [done|]. rewrite IH. lia. Qed.

Lemma emit_ok max d m hf : meta_ok max m ->
  meta_ok max (rawEmitFunc ValidHeaderFieldValue IsTokenRune (d, m) hf).2.
Proof.
  intros (Hr & Ht & (Hv & ps & rs & Hl & Hps & Hrs) & Hsaw). unfold rawEmitFunc.
  pose proof (hf_Size_spec hf) as Hsz. unfold is_u32 in Hsz.
  assert (forall b, (b = false -> sawRegular m = false) -> fields_ok (mh_Fields m)
          /\ (b = false -> Forall pseudo (mh_Fields m))) as Hkeep.
  { intros b Hb. split; [|auto]. split; [done|]. by exists ps, rs. }
  destruct (has_colon (hf_Name hf)) eqn:Hcol.
  - destruct (sawRegular m) eqn:Hs; [split; [done|]; split; [done|]; apply Hkeep; done|].
    destruct (ValidHeaderFieldValue (hf_Value hf)) eqn:Hval; cbn [negb];
      [destruct (invalid m)|]; try (split; [done|]; split; [done|]; by apply Hkeep).
    destruct (Z.ltb_spec (remainSize m) (hf_Size hf)); cbn.
    { split; cbn; [lia|]. split; cbn; [lia|]. by apply Hkeep. }
    specialize (Hsaw eq_refl).
    split; cbn; [lia|]. rewrite total_size_app. change (total_size [hf]) with (hf_Size hf + 0). split; [lia|].
    assert (Forall pseudo (mh_Fields m ++ [hf])) as Hall by (apply Forall_app; by repeat constructor).
    split; [|done]. split; [apply Forall_app; by repeat constructor|].
    exists (mh_Fields m ++ [hf]), []. rewrite app_nil_r. by repeat split.
  - destruct (validWireHeaderFieldName IsTokenRune (hf_Name hf)) eqn:Hname; cbn [negb];
      [|split; [done|]; split; [done|]; by apply Hkeep].
    destruct (ValidHeaderFieldValue (hf_Value hf)) eqn:Hval; cbn [negb];
      [destruct (invalid m)|]; try (split; [done|]; split; [done|]; by apply Hkeep).
    destruct (Z.ltb_spec (remainSize m) (hf_Size hf)); cbn.
    { split; cbn; [lia|]. split; cbn; [lia|]. by apply Hkeep. }
    split; cbn; [lia|]. rewrite total_size_app. change (total_size [hf]) with (hf_Size hf + 0). split; [lia|]. split; [|done].
    split; [apply Forall_app; by repeat constructor|].
    exists ps, (rs ++ [hf]). rewrite Hl, app_assoc. split; [done|]. split; [done|].
    apply Forall_app. by repeat constructor.
Qed.

Lemma emitted_ok max s s' :
  emitted (rawEmitFunc ValidHeaderFieldValue IsTokenRune) s s' -> meta_ok max s.2 -> meta_ok max s'.2.
Proof. induction 1; auto. intros. apply IHemitted. by apply emit_ok. Qed.

Lemma metaLoop_meta_ok max rd n : forall fr hf prio hc frag m fr' hf' m',
  meta_ok max m ->
  metaLoop ValidHeaderFieldValue IsTokenRune rd n fr hf prio hc frag m = LoopBreak fr' hf' m' ->
  meta_ok max m' /\ fh_StreamID hf' = fh_StreamID hf.
Proof.
  induction n as [|n IH]; intros fr hf prio hc frag m fr' hf' m' Hm; cbn [metaLoop]; [done|].
  unfold checked at 1. destruct (fh_valid hc); [|done].
  destruct (_ <? len frag); [done|]. destruct (is_set (invalid m)); [done|].
  destruct (ReadMetaHeaders fr) as [d|]; [|done].
  destruct (hdec_Write _ _ _) as [[d' m1] err] eqn:Hw.
  apply hdec_Write_spec in Hw. pose proof (emitted_ok max _ _ Hw Hm) as Hm1. cbn in Hm1.
  destruct (is_set err); [done|].
  destruct (Flags_Has _ _); [intros [= <- <- <-]; done|].
  destruct (rd _) as [[[[]|] [e|]| |] fr1]; try done. intros Hrest.
  by apply IH in Hrest.
Qed.

Lemma metaLoop_return_err rd n : forall fr hf prio hc frag m f fr',
  metaLoop ValidHeaderFieldValue IsTokenRune rd n fr hf prio hc frag m
  <> LoopReturn (Returned f None) fr'.
Proof.
  induction n as [|n IH]; intros fr hf prio hc frag m f fr'; cbn [metaLoop]; [done|].
  unfold checked at 1. destruct (fh_valid hc); [|done].
  destruct (_ <? len frag); [done|]. destruct (is_set (invalid m)); [done|].
  destruct (ReadMetaHeaders fr) as [d|]; [|done].
  destruct (hdec_Write _ _ _) as [[d' m1] err]. destruct (is_set err); [done|].
  destruct (Flags_Has _ _); [done|]. destruct (rd _) as [[[[]|] [e|]| |] fr1]; done.
Qed.

(** [checkPseudos] accepts exactly the lists without unknown, repeated or
    mixed pseudo-header fields; here, what acceptance means. *)
Lemma checkPseudos_loop_ok pf : forall seen q s,
  checkPseudos_loop seen pf q s = None ->
  NoDup (hf_Name <$> seen) -> 
  NoDup (hf_Name <$> seen ++ pf)
  /\ Forall (fun hf => hf_Name hf ∈ requestPseudo \/ hf_Name hf = ":status"%string) pf
  /\ ((q = true \/ Exists (fun hf => hf_Name hf ∈ requestPseudo) pf) ->
      (s = true \/ Exists (fun hf => hf_Name hf = ":status"%string) pf) -> False).
Proof.
  induction pf as [|hf pf IH]; intros seen q s; cbn [checkPseudos_loop].
  { intros Hc Hn. rewrite app_nil_r. split; [done|]. split; [done|]. rewrite !Exists_nil.
    destruct q, s; try done; intros [?|?] [?|?]; done. }
  destruct (negb (bool_decide (hf_Name hf ∈ requestPseudo)) && negb (String.eqb (hf_Name hf) ":status")) eqn:Hk;
    [done|].
  destruct (existsb _ seen) eqn:Hdup; [done|]. intros Hc Hn.
  assert (hf_Name hf ∉ hf_Name <$> seen) as Hnew.
  { intros (h2 & He & Hin)%list_elem_of_fmap. apply not_true_iff_false in Hdup. apply Hdup.
    apply existsb_exists. exists h2. rewrite <- list_elem_of_In. split; [done|]. by apply String.eqb_eq. }
  apply IH in Hc as (Hnd & Hfa & Hmix).
  2:{ rewrite fmap_app. apply NoDup_app. split; [done|]. split; [|by apply NoDup_singleton].
      intros x Hx Hx'. cbn in Hx'. apply list_elem_of_singleton in Hx' as ->. done. }
  rewrite <- app_assoc in Hnd. split; [done|]. split.
  - constructor; [|done]. apply andb_false_iff in Hk as [Hk%negb_false_iff|Hk%negb_false_iff].
    + left. by apply bool_decide_eq_true in Hk.
    + right. by apply String.eqb_eq.
  - rewrite !Exists_cons. intros Hq Hs. apply Hmix.
    + destruct Hq as [->|[Hq|Hq]]; [by left|left|by right].
      apply orb_true_iff. right. by apply bool_decide_eq_true.
    + destruct Hs as [->|[Hs|Hs]]; [by left|left|by right].
      apply orb_true_iff. right. by apply String.eqb_eq.
Qed.

Lemma PseudoFields_split ps rs : Forall pseudo ps -> Forall regular_ok rs ->
  PseudoFields (ps ++ rs) = ps.
Proof.
  induction 1 as [|hf ps Hp Hps IH]; intros Hrs; cbn.
  - destruct Hrs as [|hf rs [Hc _] _]; [done|]. cbn. rewrite hf_IsPseudo_spec, Hc. done.
  - rewrite hf_IsPseudo_spec. unfold pseudo in Hp. rewrite Hp. cbn. by rewrite IH.
Qed.

(** The guarantees documented for [MetaHeadersFrame.Fields]. *)
Definition header_list_ok (max : Z) (fields : list HeaderField) : Prop :=
  total_size fields <= max
  /\ Forall (fun hf => ValidHeaderFieldValue (hf_Value hf) = true) fields
  /\ exists ps rs, fields = ps ++ rs /\ Forall pseudo ps /\ Forall regular_ok rs
     /\ NoDup (hf_Name <$> ps)
     /\ (Forall (fun hf => hf_Name hf ∈ requestPseudo) ps
         \/ Forall (fun hf => hf_Name hf = ":status"%string) ps).

Lemma checkPseudos_ok max m : meta_ok max m -> checkPseudos (mh_Fields m) = None ->
  header_list_ok max (mh_Fields m).
Proof.
  intros (Hr & Ht & (Hv & ps & rs & Hl & Hps & Hrs) & _) Hc. split; [lia|]. split; [done|].
  exists ps, rs. split_and!; try done; unfold checkPseudos in Hc; rewrite Hl, PseudoFields_split in Hc by done;
    apply checkPseudos_loop_ok in Hc as (Hnd & Hk & Hmix); try apply NoDup_nil_2.
  - done.
  - destruct (decide (Forall (fun hf => hf_Name hf ∈ requestPseudo) ps)) as [|Hn]; [by left|right].
    apply not_Forall_Exists in Hn; [|apply _]. apply Forall_forall. intros hf Hin.
    rewrite Forall_forall in Hk. destruct (Hk hf Hin) as [Hreq|]; [|done]. exfalso. apply Hmix; right.
    + apply Exists_exists. eauto.
    + apply Exists_exists in Hn as (h2 & Hin2 & Hn2). apply Exists_exists. exists h2.
      split; [done|]. destruct (Hk h2 Hin2); [by destruct Hn2|done].
Qed.

(** The guarantees of [MetaHeadersFrame]. When [ReadFrame] succeeds with a
    decoded header block, whatever the peer's bytes and the decoder: every
    field value and every regular name is valid, pseudo-header fields come
    first, are known, occur once, and do not mix request and response ones;
    the accumulated size respects [MaxHeaderListSize] (its default when 0);
    and the frame is on a stream. *)
Theorem meta_headers_ok fuel fr h prio fields tr fr' :
  is_u32 (MaxHeaderListSize fr) ->
  ReadFrame ValidHeaderFieldValue IsTokenRune fuel fr
    = (Returned (Some (MetaHeadersFrame h prio fields tr)) None, fr') ->
  header_list_ok (maxHeaderListSize fr) fields /\ fh_StreamID h <> 0.
Proof.
  destruct fuel as [|fuel]; cbn [ReadFrame]; [done|]. intros Hmax.
  destruct (readFrameHeader _) as [[fh|] r1]; [|done].
  destruct (_ <? fh_Length fh); [done|]. destruct (io_ReadFull _ _) as [[payload|] r2]; [|done].
  destruct (typeFrameParser _ _ _) as [f|? []|] eqn:Hparse; try done.
  set (fr1 := set_r _ r2). destruct (checkFrameOrder fr1 f) as [[fr2 [e|]]|] eqn:Ho; try done.
  assert (MaxHeaderListSize fr2 = MaxHeaderListSize fr) as Hm2.
  { unfold checkFrameOrder, connError in Ho. repeat case_match; simplify_eq; done. }
  destruct (_ && _); [|by intros [= -> _]; eapply parse_meta_free in Hparse].
  destruct (parser_ok _ _ _ Hparse) as [Hfok Hfh].
  destruct f as [|hh p1 frag| | | | | | | | | |]; try done. cbn in Hfh, Hfok. subst hh.
  unfold readMetaFrame. destruct (AllowIllegalReads fr2); [done|].
  destruct (ReadMetaHeaders fr2) as [d|]; [|done].
  set (m0 := mkMeta _ _ _ _ _).
  assert (maxHeaderListSize fr2 = maxHeaderListSize fr) as Hmx by (unfold maxHeaderListSize; by rewrite Hm2).
  assert (meta_ok (maxHeaderListSize fr) m0) as Hm0.
  { assert (m0 = mkMeta (maxHeaderListSize fr) false None [] false) as -> by (unfold m0; f_equal; exact Hmx).
    unfold meta_ok. cbn [remainSize mh_Fields sawRegular]. change (total_size []) with 0.
    unfold maxHeaderListSize. split; [case_match; [done|apply Hmax]|]. split; [lia|].
    split; [|by repeat constructor]. split; [by constructor|]. by exists [], []. }
  destruct (metaLoop _ _ _ _ _ _ _ _ _ _) as [o fr3|fr3 hf m] eqn:Hloop.
  { intros [= -> ->]. by apply metaLoop_return_err in Hloop. }
  apply (metaLoop_meta_ok (maxHeaderListSize fr)) in Hloop as [Hm Hid]; [|done].
  destruct (ReadMetaHeaders fr3) as [d3|]; [|done]. destruct (hdec_Close d3) as [d4 [e|]]; [done|].
  destruct (invalid m); [done|]. destruct (checkPseudos (mh_Fields m)) eqn:Hc; [done|].
  intros [= <- _ <- _ _]. cbn. rewrite Hid. split; [by apply checkPseudos_ok|done].
Qed.
End MetaOk.

Lemma meta_headers_ok_witness :
  let fields := [mkHeaderField ":status" "200"; mkHeaderField "accept-encoding" "gzip, deflate"] in
  header_list_ok (D := bool) (fun _ => true) (fun _ => true) (Z.shiftl 16 20) fields /\ 3 <> 0.
Proof.
  intros fields.
  apply (meta_headers_ok (D := bool) (fun _ => true) (fun _ => true) 20
    (sample_framer [0; 0; 1; 1; 0; 0; 0; 0; 3; 136; 0; 0; 1; 9; 4; 0; 0; 0; 3; 144])
    (mkFrameHeader false 1 0 1 3) PriorityParam_zero fields false
    (mkFramer [] 16384 (Some (ContinuationFrame (mkFrameHeader true 9 4 1 3) [144])) None 0 false 0
       (Some true))).
  - cbn. word.
  - reflexivity.
Defined.

(** *** A header list limit of 2^31

    [2*remainSize] is computed in [uint32]: with [MaxHeaderListSize] equal to
    2^31 it is zero, and the first non-empty header block is refused as too
    large. *)
Definition overflow_framer : Framer bool :=
  mkFramer [0; 0; 1; 1; 4; 0; 0; 0; 1; 136] 16384 None None 0 false 2147483648 (Some true).

(** A limit of 2^31 octets on header lists refuses every response. The
    doubled limit wraps around to zero in 32 bits, so a one-octet header block is
    a connection error, although it is far below the limit. *)
Theorem header_limit_overflow :
  (sample_ReadFrame 20 overflow_framer).1
  = Returned (Some (MetaHeadersFrame (mkFrameHeader true 1 4 1 1) PriorityParam_zero [] false))
      (Some (ConnectionError ErrCodeProtocol)).
Proof. reflexivity. Qed.

(** ** The order of frames *)

(** The grammar of RFC 7540 for HEADERS and CONTINUATION: a header block is one
    HEADERS frame and the CONTINUATION frames of the same stream up to the one
    that ends it, with nothing in between. *)
Inductive continuations (sid : Z) : list FrameHeader -> Prop :=
| cont_last h :
    fh_Type h = FrameContinuation -> fh_StreamID h = sid ->
    Flags_Has (fh_Flags h) FlagHeadersEndHeaders = true -> continuations sid [h]
| cont_more h hs :
    fh_Type h = FrameContinuation -> fh_StreamID h = sid ->
    Flags_Has (fh_Flags h) FlagHeadersEndHeaders = false -> continuations sid hs ->
    continuations sid (h :: hs).

Inductive wire_seq : list FrameHeader -> Prop :=
| seq_done : wire_seq []
| seq_other h hs :
    fh_Type h <> FrameHeaders -> fh_Type h <> FrameContinuation -> wire_seq hs -> wire_seq (h :: hs)
| seq_headers h hs :
    fh_Type h = FrameHeaders -> Flags_Has (fh_Flags h) FlagHeadersEndHeaders = true ->
    wire_seq hs -> wire_seq (h :: hs)
| seq_block h cs hs :
    fh_Type h = FrameHeaders -> Flags_Has (fh_Flags h) FlagHeadersEndHeaders = false ->
    continuations (fh_StreamID h) cs -> wire_seq hs -> wire_seq (h :: cs ++ hs).

Section Order.
Context {D : Type}.
Implicit Types fr : Framer D.

(** [checkFrameOrder] on a sequence of frames. *)
Fixpoint check_order fr (fs : list Frame) : option (Framer D) :=
  match fs with
  | [] => Some fr
  | f :: fs => match checkFrameOrder fr f with
               | Ok (fr, None) => check_order fr fs
               | _ => None
               end
  end.

Definition on_stream (f : Frame) : Prop :=
  fh_Type (Frame_Header f) = FrameHeaders \/ fh_Type (Frame_Header f) = FrameContinuation ->
  fh_StreamID (Frame_Header f) <> 0.

(** One step, as an equation on the pending stream. *)
Definition next_pending (p : Z) (h : FrameHeader) : option Z :=
  let ok := if p =? 0 then negb (fh_Type h =? FrameContinuation)
            else (fh_Type h =? FrameContinuation) && (fh_StreamID h =? p) in
  if ok then
    Some (if (fh_Type h =? FrameHeaders) || (fh_Type h =? FrameContinuation) then
            if Flags_Has (fh_Flags h) FlagHeadersEndHeaders then 0 else fh_StreamID h
          else p)
  else None.

Lemma checkFrameOrder_step fr f : fr_ok fr -> AllowIllegalReads fr = false ->
  match next_pending (lastHeaderStream fr) (Frame_Header f) with
  | Some p => checkFrameOrder fr f = Ok (set_lastHeaderStream (set_lastFrame fr (Some f)) p, None)
  | None => exists fr' e, checkFrameOrder fr f = Ok (fr', Some e)
  end.
Proof.
  intros Hok Ha. unfold checkFrameOrder, next_pending. cbn [set_lastFrame AllowIllegalReads lastHeaderStream].
  rewrite Ha. set (h := Frame_Header f).
  destruct (Z.eqb_spec (lastHeaderStream fr) 0) as [Hz|Hz]; cbn [negb];
  destruct (fh_Type h =? FrameContinuation) eqn:Hc; cbn [negb andb orb]; rewrite ?orb_true_r, ?orb_false_r.
  all: try (destruct (Z.eqb_spec (fh_StreamID h) (lastHeaderStream fr)) as [Hs|Hs]; cbn [negb andb]).
  all: try (destruct (lastFrame fr) eqn:El; [|by destruct (Hok Hz El)]).
  all: try (by do 2 eexists). all: try reflexivity.
  all: destruct (fh_Type h =? FrameHeaders); try reflexivity.
  all: by destruct fr.
Qed.

(** [check_order] through the automaton [next_pending]. *)
Fixpoint pending_after (p : Z) (hs : list FrameHeader) : option Z :=
  match hs with
  | [] => Some p
  | h :: hs => match next_pending p h with Some p => pending_after p hs | None => None end
  end.

Lemma check_order_pending fs : forall fr, fr_ok fr -> AllowIllegalReads fr = false ->
  lastHeaderStream <$> check_order fr fs = pending_after (lastHeaderStream fr) (Frame_Header <$> fs).
Proof.
  induction fs as [|f fs IH]; intros fr Hok Ha; [done|]. cbn [check_order fmap list_fmap pending_after].
  pose proof (checkFrameOrder_step fr f Hok Ha) as Hs.
  destruct (next_pending _ _) as [p|]; [rewrite Hs|by destruct Hs as (? & ? & ->)].
  change p with (lastHeaderStream (set_lastHeaderStream (set_lastFrame fr (Some f)) p)) at 2.
  apply IH; [|done]. unfold fr_ok. done.
Qed.
End Order.

Lemma next_pending_other h : fh_Type h <> FrameHeaders -> fh_Type h <> FrameContinuation ->
  next_pending 0 h = Some 0.
Proof.
  intros H1 H2. unfold next_pending. cbn [Z.eqb].
  by destruct (Z.eqb_spec (fh_Type h) FrameHeaders), (Z.eqb_spec (fh_Type h) FrameContinuation).
Qed.

Lemma next_pending_headers h : fh_Type h = FrameHeaders ->
  next_pending 0 h = Some (if Flags_Has (fh_Flags h) FlagHeadersEndHeaders then 0 else fh_StreamID h).
Proof. intros H1. unfold next_pending. by rewrite H1. Qed.

Lemma next_pending_continuation h p : p <> 0 -> fh_Type h = FrameContinuation -> fh_StreamID h = p ->
  next_pending p h = Some (if Flags_Has (fh_Flags h) FlagHeadersEndHeaders then 0 else p).
Proof.
  intros Hp H1 <-. unfold next_pending. rewrite H1.
  destruct (Z.eqb_spec (fh_StreamID h) 0); [done|]. rewrite (Z.eqb_refl (fh_StreamID h)). reflexivity.
Qed.

Lemma continuations_pending sid cs hs : sid <> 0 -> continuations sid cs ->
  pending_after sid (cs ++ hs) = pending_after 0 hs.
Proof.
  intros Hs. induction 1 as [h Ht Hid He|h cs Ht Hid He _ IH]; cbn [app pending_after];
    rewrite next_pending_continuation by done; by rewrite He.
Qed.

Lemma wire_seq_pending hs :
  Forall (fun h => fh_Type h = FrameHeaders -> fh_StreamID h <> 0) hs ->
  wire_seq hs -> pending_after 0 hs = Some 0.
Proof.
  intros Hall. induction 1 as [|h hs H1 H2 _ IH|h hs H1 H2 _ IH|h cs hs H1 H2 H3 _ IH]; [done|..];
    apply Forall_cons in Hall as [Hh Hall]; cbn [pending_after].
  - rewrite next_pending_other by done. auto.
  - rewrite next_pending_headers, H2 by done. auto.
  - rewrite next_pending_headers, H2 by done. rewrite continuations_pending by auto.
    apply IH. by apply Forall_app in Hall as [_ ?].
Qed.

Lemma pending_continuations hs : forall sid, sid <> 0 -> pending_after sid hs = Some 0 ->
  exists cs rest, hs = cs ++ rest /\ continuations sid cs /\ pending_after 0 rest = Some 0.
Proof.
  induction hs as [|h hs IH]; intros sid Hs; cbn [pending_after]; [by intros [= ?]|].
  destruct (next_pending sid h) as [p|] eqn:Hn; [|done]. intros Hp.
  unfold next_pending in Hn. destruct (Z.eqb_spec sid 0); [done|].
  destruct (Z.eqb_spec (fh_Type h) FrameContinuation) as [Ht|]; [|done].
  destruct (Z.eqb_spec (fh_StreamID h) sid) as [Hid|]; [|done]. cbn [andb] in Hn.
  rewrite orb_true_r in Hn. injection Hn as <-.
  destruct (Flags_Has (fh_Flags h) FlagHeadersEndHeaders) eqn:He.
  - exists [h], hs. split; [done|]. split; [by apply cont_last|done].
  - rewrite Hid in Hp. destruct (IH sid Hs Hp) as (cs & rest & -> & Hc & Hr).
    exists (h :: cs), rest. split; [done|]. split; [by apply cont_more|done].
Qed.

Lemma pending_wire_seq n : forall hs, (length hs <= n)%nat ->
  Forall (fun h => fh_Type h = FrameHeaders -> fh_StreamID h <> 0) hs ->
  pending_after 0 hs = Some 0 -> wire_seq hs.
Proof.
  induction n as [|n IH]; intros [|h hs] Hl Hall; cbn in Hl; try lia; [constructor..|].
  apply Forall_cons in Hall as [Hh Hall]. cbn [pending_after].
  destruct (decide (fh_Type h = FrameHeaders)) as [Ht|Ht].
  - rewrite next_pending_headers by done.
    destruct (Flags_Has (fh_Flags h) FlagHeadersEndHeaders) eqn:He; intros Hp.
    + apply seq_headers; [done..|]. apply IH; [lia|done..].
    + destruct (pending_continuations hs _ (Hh Ht) Hp) as (cs & rest & -> & Hc & Hr).
      apply Forall_app in Hall as [_ Hall]. rewrite length_app in Hl.
      apply seq_block; [done..|]. apply IH; [lia|done..].
  - unfold next_pending. cbn [Z.eqb]. destruct (Z.eqb_spec (fh_Type h) FrameContinuation) as [|Hc]; [done|].
    cbn [negb]. destruct (Z.eqb_spec (fh_Type h) FrameHeaders); [done|]. cbn [orb]. intros Hp.
    apply seq_other; [done..|]. apply IH; [lia|done..].
Qed.

(** [checkFrameOrder] is the grammar of header blocks. From a state with no
    pending header block, the frames of a sequence are all accepted, with no
    block left open at the end, exactly when the sequence is one of RFC 7540:
    each HEADERS frame is complete or immediately followed by the CONTINUATION
    frames of its stream, up to the one with END_HEADERS, and no other
    CONTINUATION occurs. *)
Theorem checkFrameOrder_grammar {D} (fr : Framer D) (fs : list Frame) :
  lastHeaderStream fr = 0 -> AllowIllegalReads fr = false -> Forall on_stream fs ->
  (exists fr', check_order fr fs = Some fr' /\ lastHeaderStream fr' = 0)
  <-> wire_seq (Frame_Header <$> fs).
Proof.
  intros Hz Ha Hs.
  assert (Forall (fun h => fh_Type h = FrameHeaders -> fh_StreamID h <> 0) (Frame_Header <$> fs)) as Hall.
  { apply Forall_fmap. eapply Forall_impl; [exact Hs|]. intros f Hf Ht. apply Hf. by left. }
  assert (fr_ok fr) as Hok by (intros ?; done).
  pose proof (check_order_pending fs fr Hok Ha) as Hp. rewrite Hz in Hp. split.
  - intros (fr' & Hc & Hl). rewrite Hc in Hp. cbn in Hp. rewrite Hl in Hp.
    by eapply pending_wire_seq.
  - intros Hw%wire_seq_pending; [|done]. rewrite Hw in Hp.
    destruct (check_order fr fs) as [fr'|]; [|done]. exists fr'. by injection Hp.
Qed.

Lemma checkFrameOrder_grammar_witness :
  let h := mkFrameHeader true 1 0 1 3 in let c := mkFrameHeader true 9 4 1 3 in
  let fs := [HeadersFrame h PriorityParam_zero [136]; ContinuationFrame c [144]] in
  (exists fr', check_order (sample_framer []) fs = Some fr' /\ lastHeaderStream fr' = 0)
  <-> wire_seq (Frame_Header <$> fs).
Proof.
  intros h c fs. apply (checkFrameOrder_grammar (sample_framer []) fs); [done..|].
  repeat constructor; unfold on_stream; cbn; done.
Defined.

(** ** A connection written by a framer and read by another *)
Section StreamRoundTrip.
Context {D : Type} `{HpackDecoder D}
  (ValidHeaderFieldValue : string -> bool) (IsTokenRune : Z -> bool).
Implicit Types fr : Framer D.

(** Frames until the first error. *)
Fixpoint read_all (n : nat) fr : list Frame * option error :=
  match n with
  | O => ([], None)
  | S n =>
      match ReadFrame ValidHeaderFieldValue IsTokenRune (S (length (r fr))) fr with
      | (Returned (Some f) None, fr) => let '(fs, e) := read_all n fr in (f :: fs, e)
      | (Returned _ e, _) => ([], e)
      | _ => ([], None)
      end
  end.

Lemma read_all_S n fr :
  read_all (S n) fr =
  match ReadFrame ValidHeaderFieldValue IsTokenRune (S (length (r fr))) fr with
  | (Returned (Some f) None, fr) => let '(fs, e) := read_all n fr in (f :: fs, e)
  | (Returned _ e, _) => ([], e)
  | _ => ([], None)
  end.
Proof. reflexivity. Qed.

Lemma ReadFrame_raw_mode n fr h f r' :
  ReadMetaHeaders fr = None ->
  readFrame_raw (maxReadSize fr) (r fr) = (Ok (h, Parsed f), r') ->
  ReadFrame ValidHeaderFieldValue IsTokenRune (S n) fr =
  match checkFrameOrder (set_r (set_lastFrame (set_errDetail fr None) (Frame_invalidate <$> lastFrame fr)) r') f with
  | Err msg => (Panicked msg, set_r (set_lastFrame (set_errDetail fr None) (Frame_invalidate <$> lastFrame fr)) r')
  | Ok (fr, Some err) => (Returned None (Some err), fr)
  | Ok (fr, None) => (Returned (Some f) None, fr)
  end.
Proof.
  intros Hm. unfold readFrame_raw. cbn [ReadFrame r set_lastFrame set_errDetail lastFrame].
  destruct (readFrameHeader (r fr)) as [[fh|] r1]; [|done].
  cbn [set_r set_lastFrame set_errDetail maxReadSize r].
  destruct (_ <? fh_Length fh); [done|]. destruct (io_ReadFull r1 _) as [[payload|] r2]; [|done].
  intros [= -> Hp ->]. rewrite Hp.
  cbn [set_r set_lastFrame set_errDetail maxReadSize r lastFrame errDetail].
  destruct (checkFrameOrder _ f) as [[fr2 [e|]]|] eqn:Ho; try done.
  assert (ReadMetaHeaders fr2 = None) as ->.
  { unfold checkFrameOrder, connError in Ho. repeat case_match; simplify_eq; done. }
  by rewrite andb_false_r.
Qed.

Definition write_ops (fw : FrameWrite.Framer bytes) (ops : list wire_op) : FrameWrite.Framer bytes :=
  fold_left (fun fw o => fst (write_op fw o)) ops fw.

Lemma write_ops_bytes ops : forall w b, Forall op_legal ops ->
  fr_w (write_ops (FrameWrite.mkFramer w b false) ops) = w ++ concat (op_bytes <$> ops).
Proof.
  unfold write_ops. induction ops as [|o ops IH]; intros w b Hall; [by rewrite app_nil_r|].
  apply Forall_cons in Hall as [Ho Hall]. cbn [fold_left].
  rewrite (write_op_bytes o w b Ho). cbn [fst]. rewrite (IH _ _ Hall). cbn [fmap list_fmap concat].
  by rewrite app_assoc.
Qed.

Lemma op_frame_header o : Frame_Header (op_frame o) = op_header o.
Proof. by destruct o. Qed.

Lemma read_all_ops ops : forall fr rest,
  Forall op_legal ops -> Forall (fun o => len (op_payload o) <= maxReadSize fr) ops ->
  r fr = concat (op_bytes <$> ops) ++ rest -> ReadMetaHeaders fr = None ->
  fr_ok fr -> AllowIllegalReads fr = false ->
  is_set (pending_after (lastHeaderStream fr) (op_header <$> ops)) = true ->
  exists fr', r fr' = rest /\ read_all (S (length ops)) fr
    = let '(fs, e) := read_all 1 fr' in ((op_frame <$> ops) ++ fs, e).
Proof.
  induction ops as [|o ops IH]; intros fr rest Hall Hmax Hr Hm Hok Ha Hp.
  { exists fr. split; [done|]. change (read_all (S (length [])) fr) with (read_all 1 fr).
    by destruct (read_all 1 fr) as [fs e]. }
  apply Forall_cons in Hall as [Ho Hall]. apply Forall_cons in Hmax as [Hox Hmax].
  set (n := length ops) in *. cbn [fmap list_fmap concat app pending_after] in *.
  change (length (o :: ops)) with (S n). rewrite read_all_S.
  assert (readFrame_raw (maxReadSize fr) (r fr)
    = (Ok (op_header o, Parsed (op_frame o)), concat (op_bytes <$> ops) ++ rest)) as Hraw.
  { rewrite Hr, <- app_assoc. unfold op_bytes at 1.
    rewrite frame_bytes_read by (auto using op_type_range, op_flags_range, op_sid_range; apply Ho).
    pose proof (parse_op o Ho) as Hpo. unfold op_header in *. by rewrite Hpo. }
  rewrite (ReadFrame_raw_mode _ _ _ _ _ Hm Hraw).
  set (fr1 := set_r _ _).
  assert (fr_ok fr1) as Hok1 by (unfold fr_ok in *; cbn; by destruct (lastFrame fr)).
  pose proof (checkFrameOrder_step fr1 (op_frame o) Hok1 Ha) as Hs. rewrite op_frame_header in Hs.
  change (lastHeaderStream fr1) with (lastHeaderStream fr) in Hs.
  destruct (next_pending _ _) as [p|]; [|done]. rewrite Hs.
  destruct (IH (set_lastHeaderStream (set_lastFrame fr1 (Some (op_frame o))) p) rest)
    as (fr' & Hr' & Hread); try done.
  exists fr'. split; [done|]. rewrite Hread. by destruct (read_all 1 fr').
Qed.

(** C9: a connection round trip. Frames written one after the other by a
    framer, from legal arguments and in an order the protocol allows, are read
    back by another framer as the same frames in the same order, and then the
    end of the stream; nothing is lost, merged or reordered at the frame
    boundaries. *)
Theorem connection_roundtrip (ops : list wire_op) (b : bytes) fr :
  Forall op_legal ops -> Forall (fun o => len (op_payload o) <= maxReadSize fr) ops ->
  wire_seq (op_header <$> ops) ->
  r fr = fr_w (write_ops (FrameWrite.mkFramer [] b false) ops) ->
  ReadMetaHeaders fr = None -> lastHeaderStream fr = 0 -> AllowIllegalReads fr = false ->
  read_all (S (length ops)) fr = (op_frame <$> ops, Some io_EOF).
Proof.
  intros Hall Hmax Hw Hr Hm Hz Ha. rewrite write_ops_bytes in Hr by done. cbn [app] in Hr.
  assert (pending_after 0 (op_header <$> ops) = Some 0) as Hp.
  { apply wire_seq_pending; [|done]. apply Forall_fmap. eapply Forall_impl; [exact Hall|].
    intros o Ho Ht. destruct o; try done; destruct Ho as [_ Ho]; cbn in *;
      unfold stream_id, FrameHeaders in *; lia. }
  destruct (read_all_ops ops fr [] Hall Hmax) as (fr' & Hr' & Hread); try done.
  { by rewrite app_nil_r. } { by intros ?. } { by rewrite Hz, Hp. }
  assert (read_all 1 fr' = ([], Some io_EOF)) as Heof.
  { rewrite read_all_S. cbn [ReadFrame r set_lastFrame set_errDetail]. by rewrite Hr'. }
  rewrite Hread, Heof. by rewrite app_nil_r.
Qed.
End StreamRoundTrip.

Lemma connection_roundtrip_witness :
  let ops := [OpSettings [mkSetting 4 65535];
              OpHeaders (mkHeadersFrameParam 1 [130] true false 0 PriorityParam_zero);
              OpContinuation 1 true [132]; OpPing false (zeros 8)] in
  let fr := mkFramer (D := bool) (fr_w (write_ops (FrameWrite.mkFramer [] [] false) ops))
              16384 None None 0 false 0 None in
  read_all (fun _ => true) (fun _ => true) 5 fr = (op_frame <$> ops, Some io_EOF).
Proof.
  intros ops fr.
  apply (connection_roundtrip (fun _ => true) (fun _ => true) ops [] fr); try reflexivity.
  - repeat (apply Forall_cons; split); [..|apply Forall_nil_2]; (split; [reflexivity|]).
    + split; [repeat constructor; cbn; word|]. intros s [= <-]. reflexivity.
    + unfold stream_id, prio_legal. cbn. split_and!; try word; lia.
    + unfold stream_id. lia.
    + reflexivity.
  - repeat constructor; vm_compute; discriminate.
  - apply seq_other; [done..|]. apply (seq_block _ [_]); [done..| |].
    + by apply cont_last.
    + apply seq_other; [done..|]. constructor.
Defined.
End Reader.
