(* ===== verification/NetText.v ===== *)
(** * Text of the protocols: header keys, ASCII helpers, numbers

    Models [src/internal/ascii/print.go] and [src/internal/http2/headermap.go],
    and the functions of Go's standard library the transports call on header
    text ([net/textproto], [net/http.Header], [strings], [strconv]). A Go
    [http.Header] is a finite map from keys to lists of values; a key mapped to
    nil is mapped to the empty list. *)

From S2P Require Import Prelude.
From S2P Require Import H2Errors.

(** ** Bytes of text *)
Definition is_upper (b : byte) : bool := (65 <=? b) && (b <=? 90).
Definition is_lower (b : byte) : bool := (97 <=? b) && (b <=? 122).
Definition is_digit (b : byte) : bool := (48 <=? b) && (b <=? 57).
Definition lower (b : byte) : byte := if is_upper b then b + 32 else b.
Definition upper (b : byte) : byte := if is_lower b then b - 32 else b.

(** [textproto]'s table of header field bytes (RFC 7230 tchar). *)
Definition validHeaderFieldByte (b : byte) : bool :=
  is_upper b || is_lower b || is_digit b
  || existsb (Z.eqb b) [33; 35; 36; 37; 38; 39; 42; 43; 45; 46; 94; 95; 96; 124; 126].

Definition map_string (f : byte -> byte) (s : string) : string :=
  string_of_bytes (f <$> bytes_of_string s).

(** [strings.HasPrefix], [strings.Contains] and [strings.Split] with a
    one-byte separator. *)
Definition has_prefix (p s : string) : bool := String.prefix p s.
Definition contains_byte (c : byte) (s : string) : bool := existsb (Z.eqb c) (bytes_of_string s).
Fixpoint split_bytes (c : byte) (p : bytes) (cur : bytes) : list bytes :=
  match p with
  | [] => [cur]
  | b :: p => if b =? c then cur :: split_bytes c p [] else split_bytes c p (cur ++ [b])
  end.
Definition split (c : byte) (s : string) : list string :=
  string_of_bytes <$> split_bytes c (bytes_of_string s) [].

(** [textproto.TrimString] *)
Definition isASCIISpace (b : byte) : bool := (b =? 32) || (b =? 9) || (b =? 10) || (b =? 13).
Fixpoint trim_left (p : bytes) : bytes :=
  match p with b :: q => if isASCIISpace b then trim_left q else p | [] => [] end.
Definition trim_bytes (p : bytes) : bytes := reverse (trim_left (reverse (trim_left p))).
Definition TrimString (s : string) : string := string_of_bytes (trim_bytes (bytes_of_string s)).

(** ** [internal/ascii] *)
Fixpoint EqualFold_loop (s t : bytes) : bool :=
  match s, t with
  | a :: s, b :: t => if lower a =? lower b then EqualFold_loop s t else false
  | _, _ => true
  end.
Definition EqualFold (s t : string) : bool :=
  let s := bytes_of_string s in let t := bytes_of_string t in
  if negb (len s =? len t) then false else EqualFold_loop s t.

Definition IsPrint (s : string) : bool :=
  forallb (fun b => negb ((b <? 32) || (126 <? b))) (bytes_of_string s).
Definition Is (s : string) : bool := forallb (fun b => negb (127 <? b)) (bytes_of_string s).
(** [strings.ToLower] of a printable ASCII string. *)
Definition ToLower (s : string) : string * bool :=
  if negb (IsPrint s) then (""%string, false) else (map_string lower s, true).

(** ** Canonical header keys *)
Fixpoint canonical_bytes (up : bool) (p : bytes) : bytes :=
  match p with
  | [] => []
  | c :: p =>
      let c := if up && is_lower c then c - 32 else if negb up && is_upper c then c + 32 else c in
      c :: canonical_bytes (c =? 45) p
  end.
Definition CanonicalHeaderKey (s : string) : string :=
  let p := bytes_of_string s in
  if forallb validHeaderFieldByte p then string_of_bytes (canonical_bytes true p) else s.

Definition commonHeaders : list string :=
  ["accept"; "accept-charset"; "accept-encoding"; "accept-language"; "accept-ranges"; "age";
   "access-control-allow-credentials"; "access-control-allow-headers"; "access-control-allow-methods";
   "access-control-allow-origin"; "access-control-expose-headers"; "access-control-max-age";
   "access-control-request-headers"; "access-control-request-method"; "allow"; "authorization";
   "cache-control"; "content-disposition"; "content-encoding"; "content-language"; "content-length";
   "content-location"; "content-range"; "content-type"; "cookie"; "date"; "etag"; "expect"; "expires";
   "from"; "host"; "if-match"; "if-modified-since"; "if-none-match"; "if-unmodified-since";
   "last-modified"; "link"; "location"; "max-forwards"; "origin"; "proxy-authenticate";
   "proxy-authorization"; "range"; "referer"; "refresh"; "retry-after"; "server"; "set-cookie";
   "strict-transport-security"; "trailer"; "transfer-encoding"; "user-agent"; "vary"; "via";
   "www-authenticate"; "x-forwarded-for"; "x-forwarded-proto"]%string.

(** [buildCommonHeaderMaps]: the two maps, built by the loop over the list. *)
Definition commonLowerHeader : gmap string string :=
  fold_left (fun m v => <[CanonicalHeaderKey v := v]> m) commonHeaders ∅.
Definition commonCanonHeader : gmap string string :=
  fold_left (fun m v => <[v := CanonicalHeaderKey v]> m) commonHeaders ∅.

Definition lowerHeader (v : string) : string * bool :=
  match commonLowerHeader !! v with
  | Some s => (s, true)
  | None => ToLower v
  end.
Definition canonicalHeader (v : string) : string :=
  match commonCanonHeader !! v with
  | Some s => s
  | None => CanonicalHeaderKey v
  end.

(** ** [http.Header] *)
Abbreviation Header := (gmap string (list string)) (only parsing).

Definition Header_values (h : Header) (k : string) : list string := default [] (h !! k).
Definition Header_Get (h : Header) (k : string) : string :=
  match Header_values h (CanonicalHeaderKey k) with v :: _ => v | [] => "" end.
Definition Header_Values (h : Header) (k : string) : list string := Header_values h (CanonicalHeaderKey k).
Definition Header_Del (h : Header) (k : string) : Header := delete (CanonicalHeaderKey k) h.
Definition Header_Set (h : Header) (k v : string) : Header := <[CanonicalHeaderKey k := [v]]> h.
Definition Header_append (h : Header) (k v : string) : Header := <[k := Header_values h k ++ [v]]> h.
Definition Header_Add (h : Header) (k v : string) : Header := Header_append h (CanonicalHeaderKey k) v.

(** ** [strconv] *)
Fixpoint digits_value (p : bytes) (acc : Z) : option Z :=
  match p with
  | [] => Some acc
  | b :: p => if is_digit b then digits_value p (acc * 10 + (b - 48)) else None
  end.
(** [ParseUint(s, 10, bits)], [None] for its errors. *)
Definition ParseUint (s : string) (bits : Z) : option Z :=
  match bytes_of_string s with
  | [] => None
  | p => match digits_value p 0 with
         | Some v => if v <? 2 ^ bits then Some v else None
         | None => None
         end
  end.
(** [Atoi], [None] for its errors. *)
Definition Atoi (s : string) : option Z :=
  let '(neg, p) := match bytes_of_string s with
                   | 43 :: p => (false, p) | 45 :: p => (true, p) | p => (false, p)
                   end in
  match p with
  | [] => None
  | _ => match digits_value p 0 with
         | Some v => if neg then if v <=? 2 ^ 63 then Some (- v) else None
                     else if v <? 2 ^ 63 then Some v else None
         | None => None
         end
  end.

(** [http.StatusText] *)
Definition StatusText (code : Z) : string :=
  match code with
  | 100 => "Continue" | 101 => "Switching Protocols" | 102 => "Processing" | 103 => "Early Hints"
  | 200 => "OK" | 201 => "Created" | 202 => "Accepted" | 203 => "Non-Authoritative Information"
  | 204 => "No Content" | 205 => "Reset Content" | 206 => "Partial Content" | 207 => "Multi-Status"
  | 208 => "Already Reported" | 226 => "IM Used" | 300 => "Multiple Choices"
  | 301 => "Moved Permanently" | 302 => "Found" | 303 => "See Other" | 304 => "Not Modified"
  | 305 => "Use Proxy" | 307 => "Temporary Redirect" | 308 => "Permanent Redirect"
  | 400 => "Bad Request" | 401 => "Unauthorized" | 402 => "Payment Required" | 403 => "Forbidden"
  | 404 => "Not Found" | 405 => "Method Not Allowed" | 406 => "Not Acceptable"
  | 407 => "Proxy Authentication Required" | 408 => "Request Timeout" | 409 => "Conflict"
  | 410 => "Gone" | 411 => "Length Required" | 412 => "Precondition Failed"
  | 413 => "Request Entity Too Large" | 414 => "Request URI Too Long" | 415 => "Unsupported Media Type"
  | 416 => "Requested Range Not Satisfiable" | 417 => "Expectation Failed" | 418 => "I'm a teapot"
  | 421 => "Misdirected Request" | 422 => "Unprocessable Entity" | 423 => "Locked"
  | 424 => "Failed Dependency" | 425 => "Too Early" | 426 => "Upgrade Required"
  | 428 => "Precondition Required" | 429 => "Too Many Requests"
  | 431 => "Request Header Fields Too Large" | 451 => "Unavailable For Legal Reasons"
  | 500 => "Internal Server Error" | 501 => "Not Implemented" | 502 => "Bad Gateway"
  | 503 => "Service Unavailable" | 504 => "Gateway Timeout" | 505 => "HTTP Version Not Supported"
  | 506 => "Variant Also Negotiates" | 507 => "Insufficient Storage" | 508 => "Loop Detected"
  | 510 => "Not Extended" | 511 => "Network Authentication Required"
  | _ => ""
  end%string.

(** ** The caches of header keys are transparent *)
Lemma lookup_fold_insert {A} (f g : A -> string) (l : list A) (m : gmap string string) k v :
  fold_left (fun m x => <[f x := g x]> m) l m !! k = Some v ->
  m !! k = Some v \/ exists x, x ∈ l /\ k = f x /\ v = g x.
Proof.
  revert m. induction l as [|x l IH]; intros m; cbn; [by left|].
  intros [Hm|(y & Hy & -> & ->)]%IH.
  - destruct (decide (f x = k)) as [<-|Hne].
    + rewrite lookup_insert_eq in Hm. injection Hm as <-. right. exists x. by split; [left|].
    + rewrite lookup_insert_ne in Hm by done. by left.
  - right. exists y. by split; [right|].
Qed.

Lemma common_lower_ok : Forall (fun v => ToLower (CanonicalHeaderKey v) = (v, true)) commonHeaders.
Proof. repeat constructor. Qed.

(** The caches of common header keys change nothing. [canonicalHeader] is
    [http.CanonicalHeaderKey] and [lowerHeader] is [ascii.ToLower], on every
    string, cached or not; and lowering a canonical key gives back the lower-case
    name of every common header. *)
Theorem header_caches_transparent (v : string) :
  canonicalHeader v = CanonicalHeaderKey v /\ lowerHeader v = ToLower v
  /\ (v ∈ commonHeaders -> lowerHeader (canonicalHeader v) = (v, true)).
Proof.
  assert (canonicalHeader v = CanonicalHeaderKey v) as Hc.
  { unfold canonicalHeader. destruct (commonCanonHeader !! v) as [s|] eqn:E; [|done].
    apply (lookup_fold_insert id CanonicalHeaderKey) in E as [E|(x & _ & -> & ->)]; done. }
  assert (forall k, lowerHeader k = ToLower k) as Hl.
  { intros k. unfold lowerHeader. destruct (commonLowerHeader !! k) as [s|] eqn:E; [|done].
    apply (lookup_fold_insert CanonicalHeaderKey id) in E as [E|(x & Hx & -> & ->)]; [done|].
    pose proof common_lower_ok as Hok. rewrite Forall_forall in Hok. by rewrite Hok. }
  split; [done|]. split; [done|]. intros Hv. rewrite Hc, Hl.
  pose proof common_lower_ok as Hok. rewrite Forall_forall in Hok. by apply Hok.
Qed.

(** ** [EqualFold] is an equivalence *)
Lemma EqualFold_loop_spec s : forall t, length s = length t ->
  EqualFold_loop s t = bool_decide (lower <$> s = lower <$> t).
Proof.
  induction s as [|a s IH]; intros [|b t] Hl; cbn in *; try done.
  destruct (Z.eqb_spec (lower a) (lower b)) as [E|E].
  - rewrite IH by lia. apply bool_decide_ext. rewrite E. split; [by intros ->|by intros [= ->]].
  - symmetry. apply bool_decide_eq_false. by intros [= ? ?].
Qed.

Lemma EqualFold_spec s t :
  EqualFold s t = bool_decide (lower <$> bytes_of_string s = lower <$> bytes_of_string t).
Proof.
  unfold EqualFold. destruct (Z.eqb_spec (len (bytes_of_string s)) (len (bytes_of_string t))) as [E|E]; cbn.
  - apply EqualFold_loop_spec. unfold len in E. lia.
  - symmetry. apply bool_decide_eq_false. intros Heq. apply E.
    apply (f_equal length) in Heq. rewrite !length_fmap in Heq. unfold len. lia.
Qed.

(** ** Numbers in decimal *)
Lemma digits_value_pretty x : forall s, digits_value (bytes_of_string (pretty_N_go x s)) 0 = digits_value (bytes_of_string s) (Z.of_N x).
Proof.
  induction (N.lt_wf_0 x) as [x _ IH]; intros s. destruct (decide (0 < x)%N) as [Hx|Hx].
  - rewrite pretty_N_go_step by done. rewrite IH by (apply N.div_lt; lia). cbn [bytes_of_string digits_value].
    assert (forall d, (d < 10)%N -> Z.of_N (Ascii.N_of_ascii (pretty_N_char d)) = 48 + Z.of_N d) as Hd.
    { intros d Hd. assert (d = 0 \/ d = 1 \/ d = 2 \/ d = 3 \/ d = 4 \/ d = 5 \/ d = 6 \/ d = 7 \/ d = 8 \/ d = 9)%N as Hin by lia.
      by repeat destruct Hin as [->|Hin]; subst. }
    pose proof (N.mod_lt x 10 ltac:(lia)) as Hm. pose proof (N.div_mod x 10 ltac:(lia)) as Hdm. rewrite (Hd _ Hm).
    set (d := (x `mod` 10)%N) in *. set (q := (x `div` 10)%N) in *. clearbody d q. unfold is_digit.
    destruct (Z.leb_spec 48 (48 + Z.of_N d)) as [_|?]; [|lia]. destruct (Z.leb_spec (48 + Z.of_N d) 57) as [_|?]; [|lia]. cbn [andb].
    f_equal. lia.
  - assert (x = 0%N) as -> by lia. by rewrite pretty_N_go_0.
Qed.
Lemma ParseUint_format_dec n bits : 0 <= n < 2 ^ bits -> ParseUint (format_dec n) bits = Some n.
Proof.
  intros Hn. unfold format_dec. destruct n as [|p|p]; [change ((if 0 <? 2 ^ bits then Some 0 else None) = Some 0); by rewrite (proj2 (Z.ltb_lt 0 (2 ^ bits))) by lia| |lia].
  unfold ParseUint. change (pretty (Z.pos p)) with (pretty_N_go (N.pos p) EmptyString).
  pose proof (digits_value_pretty (N.pos p) "") as Hd. cbn [bytes_of_string digits_value] in Hd.
  destruct (bytes_of_string (pretty_N_go (N.pos p) "")) as [|c l] eqn:E; [discriminate Hd|]. rewrite Hd. cbn.
  destruct (Z.ltb_spec (Z.pos p) (2 ^ bits)); [done|lia].
Qed.
Lemma digits_value_digits p : forall acc n, digits_value p acc = Some n -> forallb is_digit p = true.
Proof. induction p as [|b p IH]; intros acc n; cbn; [done|]. destruct (is_digit b); [apply IH|done]. Qed.
Lemma ParseUint_digits s bits n : ParseUint s bits = Some n -> forallb is_digit (bytes_of_string s) = true /\ bytes_of_string s <> [].
Proof.
  unfold ParseUint. destruct (bytes_of_string s) as [|b p]; [done|]. destruct (digits_value (b :: p) 0) eqn:E; [|done]. intros _.
  split; [by eapply digits_value_digits|done].
Qed.
Lemma Atoi_ParseUint s n : ParseUint s 63 = Some n -> Atoi s = Some n.
Proof.
  intros H. destruct (ParseUint_digits _ _ _ H) as [Hd _]. unfold ParseUint in H. unfold Atoi. destruct (bytes_of_string s) as [|b p]; [done|].
  cbn [forallb] in Hd. apply andb_true_iff in Hd as [Hb _]. unfold is_digit in Hb.
  assert ((match b :: p with 43 :: p => (false, p) | 45 :: p => (true, p) | p => (false, p) end) = (false, b :: p)) as ->.
  { destruct b as [|q|q]; try done. destruct (decide (Z.pos q = 43)) as [?|?]; [lia|]. destruct (decide (Z.pos q = 45)) as [?|?]; [lia|].
    by repeat (destruct q as [q|q|]; try done). }
  done.
Qed.
