(* ===== verification/ConnState.v ===== *)
(** * The state of an HTTP/2 client connection ([src/internal/http2/transport.go])

    [ClientConn] and [clientStream] as records. A [*clientStream] is its stream
    ID; [stream_objs] is the heap of stream objects and [streams] the keys of
    [cc.streams], so that a stream removed from the map is still reachable from
    its response body. A stream without an ID yet ([cs.ID] is 0) is an object at
    a negative key. [M] is the monad of the code that runs on this state: it
    may return, panic, lock a mutex its own goroutine holds ([Deadlock]: Go's
    mutexes are not reentrant) or park on the condition variable ([Parked]). A
    value of [M] is the code of one goroutine from one blocking point to the
    next; other goroutines run between such values. *)

From S2P Require Import Prelude.
From S2P Require Import H2Errors.
From S2P Require Import Flow.
From S2P Require Import Pipe.
From S2P Require Import Frame.
From S2P Require Import FrameWrite.
From S2P Require Import NetText.

Abbreviation inflow := Inflow.inflow (only parsing).

(** The fields of [Transport] the connection reads. *)
Record Transport := mkTransport {
  StrictMaxConcurrentStreams : bool;
  DisableKeepAlives : bool;
  T_MaxHeaderListSize : Z;
  InitialStreamID : Z;
  T_Settings : list Setting;
  ConnectionFlow : Z;
  PriorityFrames : list PriorityFrameSetting;
  HeaderPriority : PriorityParam;
  IdleConnTimeout : Z;
  AutoDecompression : bool }.

(** [http.Response] and the kinds of bodies [handleResponse] installs;
    [BodyNil] is a nil [Body]. *)
Inductive body :=
| noBody
| missingBody
| transportResponseBody
| GzipReader (inner : body)
| CompressReader (encoding : string) (inner : body)
| BodyNil.

Record response := mkResponse {
  res_Status : string;
  res_StatusCode : Z;
  res_Header : Header;
  res_Trailer : option Header;
  res_ContentLength : Z;
  res_Body : body;
  res_Uncompressed : bool }.

Record goAwayFrame := mkGoAway { ga_LastStreamID : Z; ga_ErrCode : ErrCode; ga_DebugData : bytes }.

Section State.
Context {B : Type}.

#[local] Set Primitive Projections.

Record clientStream := mkClientStream {
  cs_bufPipe : pipe B unit;
  cs_requestedGzip : bool;
  cs_isHead : bool;
  cs_abort : option error;   (* abortErr, set when the channel abort is closed *)
  cs_peerClosed : bool;   (* channels are modelled by whether they are closed *)
  cs_donec : bool;
  cs_on100 : bool;
  cs_respHeaderRecv : bool;
  cs_res : option response;
  cs_flow : Z;
  cs_inflow : inflow;
  cs_bytesRemain : Z;
  cs_readErr : option error;
  cs_reqBody : bool;   (* non-nil reqBody *)
  cs_reqBodyContentLength : Z;
  cs_reqBodyClosed : bool;   (* non-nil reqBodyClosed *)
  cs_sentEndStream : bool;
  cs_sentHeaders : bool;
  cs_firstByte : bool;
  cs_pastHeaders : bool;
  cs_pastTrailers : bool;
  cs_num1xx : Z;   (* uint8 *)
  cs_readClosed : bool;
  cs_readAborted : bool;
  cs_trailer : Header }.

Definition set_cs_bufPipe (v : pipe B unit) (s : clientStream) : clientStream :=
  mkClientStream v (cs_requestedGzip s) (cs_isHead s) (cs_abort s) (cs_peerClosed s) (cs_donec s)
    (cs_on100 s) (cs_respHeaderRecv s) (cs_res s) (cs_flow s) (cs_inflow s) (cs_bytesRemain s)
    (cs_readErr s) (cs_reqBody s) (cs_reqBodyContentLength s) (cs_reqBodyClosed s)
    (cs_sentEndStream s) (cs_sentHeaders s) (cs_firstByte s) (cs_pastHeaders s) (cs_pastTrailers s)
    (cs_num1xx s) (cs_readClosed s) (cs_readAborted s) (cs_trailer s).
Definition set_cs_requestedGzip (v : bool) (s : clientStream) : clientStream :=
  mkClientStream (cs_bufPipe s) v (cs_isHead s) (cs_abort s) (cs_peerClosed s) (cs_donec s)
    (cs_on100 s) (cs_respHeaderRecv s) (cs_res s) (cs_flow s) (cs_inflow s) (cs_bytesRemain s)
    (cs_readErr s) (cs_reqBody s) (cs_reqBodyContentLength s) (cs_reqBodyClosed s)
    (cs_sentEndStream s) (cs_sentHeaders s) (cs_firstByte s) (cs_pastHeaders s) (cs_pastTrailers s)
    (cs_num1xx s) (cs_readClosed s) (cs_readAborted s) (cs_trailer s).
Definition set_cs_isHead (v : bool) (s : clientStream) : clientStream :=
  mkClientStream (cs_bufPipe s) (cs_requestedGzip s) v (cs_abort s) (cs_peerClosed s) (cs_donec s)
    (cs_on100 s) (cs_respHeaderRecv s) (cs_res s) (cs_flow s) (cs_inflow s) (cs_bytesRemain s)
    (cs_readErr s) (cs_reqBody s) (cs_reqBodyContentLength s) (cs_reqBodyClosed s)
    (cs_sentEndStream s) (cs_sentHeaders s) (cs_firstByte s) (cs_pastHeaders s) (cs_pastTrailers s)
    (cs_num1xx s) (cs_readClosed s) (cs_readAborted s) (cs_trailer s).
Definition set_cs_abort (v : option error) (s : clientStream) : clientStream :=
  mkClientStream (cs_bufPipe s) (cs_requestedGzip s) (cs_isHead s) v (cs_peerClosed s) (cs_donec s)
    (cs_on100 s) (cs_respHeaderRecv s) (cs_res s) (cs_flow s) (cs_inflow s) (cs_bytesRemain s)
    (cs_readErr s) (cs_reqBody s) (cs_reqBodyContentLength s) (cs_reqBodyClosed s)
    (cs_sentEndStream s) (cs_sentHeaders s) (cs_firstByte s) (cs_pastHeaders s) (cs_pastTrailers s)
    (cs_num1xx s) (cs_readClosed s) (cs_readAborted s) (cs_trailer s).
Definition set_cs_peerClosed (v : bool) (s : clientStream) : clientStream :=
  mkClientStream (cs_bufPipe s) (cs_requestedGzip s) (cs_isHead s) (cs_abort s) v (cs_donec s)
    (cs_on100 s) (cs_respHeaderRecv s) (cs_res s) (cs_flow s) (cs_inflow s) (cs_bytesRemain s)
    (cs_readErr s) (cs_reqBody s) (cs_reqBodyContentLength s) (cs_reqBodyClosed s)
    (cs_sentEndStream s) (cs_sentHeaders s) (cs_firstByte s) (cs_pastHeaders s) (cs_pastTrailers s)
    (cs_num1xx s) (cs_readClosed s) (cs_readAborted s) (cs_trailer s).
Definition set_cs_donec (v : bool) (s : clientStream) : clientStream :=
  mkClientStream (cs_bufPipe s) (cs_requestedGzip s) (cs_isHead s) (cs_abort s) (cs_peerClosed s) v
    (cs_on100 s) (cs_respHeaderRecv s) (cs_res s) (cs_flow s) (cs_inflow s) (cs_bytesRemain s)
    (cs_readErr s) (cs_reqBody s) (cs_reqBodyContentLength s) (cs_reqBodyClosed s)
    (cs_sentEndStream s) (cs_sentHeaders s) (cs_firstByte s) (cs_pastHeaders s) (cs_pastTrailers s)
    (cs_num1xx s) (cs_readClosed s) (cs_readAborted s) (cs_trailer s).
Definition set_cs_on100 (v : bool) (s : clientStream) : clientStream :=
  mkClientStream (cs_bufPipe s) (cs_requestedGzip s) (cs_isHead s) (cs_abort s) (cs_peerClosed s)
    (cs_donec s) v (cs_respHeaderRecv s) (cs_res s) (cs_flow s) (cs_inflow s) (cs_bytesRemain s)
    (cs_readErr s) (cs_reqBody s) (cs_reqBodyContentLength s) (cs_reqBodyClosed s)
    (cs_sentEndStream s) (cs_sentHeaders s) (cs_firstByte s) (cs_pastHeaders s) (cs_pastTrailers s)
    (cs_num1xx s) (cs_readClosed s) (cs_readAborted s) (cs_trailer s).
Definition set_cs_respHeaderRecv (v : bool) (s : clientStream) : clientStream :=
  mkClientStream (cs_bufPipe s) (cs_requestedGzip s) (cs_isHead s) (cs_abort s) (cs_peerClosed s)
    (cs_donec s) (cs_on100 s) v (cs_res s) (cs_flow s) (cs_inflow s) (cs_bytesRemain s)
    (cs_readErr s) (cs_reqBody s) (cs_reqBodyContentLength s) (cs_reqBodyClosed s)
    (cs_sentEndStream s) (cs_sentHeaders s) (cs_firstByte s) (cs_pastHeaders s) (cs_pastTrailers s)
    (cs_num1xx s) (cs_readClosed s) (cs_readAborted s) (cs_trailer s).
Definition set_cs_res (v : option response) (s : clientStream) : clientStream :=
  mkClientStream (cs_bufPipe s) (cs_requestedGzip s) (cs_isHead s) (cs_abort s) (cs_peerClosed s)
    (cs_donec s) (cs_on100 s) (cs_respHeaderRecv s) v (cs_flow s) (cs_inflow s) (cs_bytesRemain s)
    (cs_readErr s) (cs_reqBody s) (cs_reqBodyContentLength s) (cs_reqBodyClosed s)
    (cs_sentEndStream s) (cs_sentHeaders s) (cs_firstByte s) (cs_pastHeaders s) (cs_pastTrailers s)
    (cs_num1xx s) (cs_readClosed s) (cs_readAborted s) (cs_trailer s).
Definition set_cs_flow (v : Z) (s : clientStream) : clientStream :=
  mkClientStream (cs_bufPipe s) (cs_requestedGzip s) (cs_isHead s) (cs_abort s) (cs_peerClosed s)
    (cs_donec s) (cs_on100 s) (cs_respHeaderRecv s) (cs_res s) v (cs_inflow s) (cs_bytesRemain s)
    (cs_readErr s) (cs_reqBody s) (cs_reqBodyContentLength s) (cs_reqBodyClosed s)
    (cs_sentEndStream s) (cs_sentHeaders s) (cs_firstByte s) (cs_pastHeaders s) (cs_pastTrailers s)
    (cs_num1xx s) (cs_readClosed s) (cs_readAborted s) (cs_trailer s).
Definition set_cs_inflow (v : inflow) (s : clientStream) : clientStream :=
  mkClientStream (cs_bufPipe s) (cs_requestedGzip s) (cs_isHead s) (cs_abort s) (cs_peerClosed s)
    (cs_donec s) (cs_on100 s) (cs_respHeaderRecv s) (cs_res s) (cs_flow s) v (cs_bytesRemain s)
    (cs_readErr s) (cs_reqBody s) (cs_reqBodyContentLength s) (cs_reqBodyClosed s)
    (cs_sentEndStream s) (cs_sentHeaders s) (cs_firstByte s) (cs_pastHeaders s) (cs_pastTrailers s)
    (cs_num1xx s) (cs_readClosed s) (cs_readAborted s) (cs_trailer s).
Definition set_cs_bytesRemain (v : Z) (s : clientStream) : clientStream :=
  mkClientStream (cs_bufPipe s) (cs_requestedGzip s) (cs_isHead s) (cs_abort s) (cs_peerClosed s)
    (cs_donec s) (cs_on100 s) (cs_respHeaderRecv s) (cs_res s) (cs_flow s) (cs_inflow s) v
    (cs_readErr s) (cs_reqBody s) (cs_reqBodyContentLength s) (cs_reqBodyClosed s)
    (cs_sentEndStream s) (cs_sentHeaders s) (cs_firstByte s) (cs_pastHeaders s) (cs_pastTrailers s)
    (cs_num1xx s) (cs_readClosed s) (cs_readAborted s) (cs_trailer s).
Definition set_cs_readErr (v : option error) (s : clientStream) : clientStream :=
  mkClientStream (cs_bufPipe s) (cs_requestedGzip s) (cs_isHead s) (cs_abort s) (cs_peerClosed s)
    (cs_donec s) (cs_on100 s) (cs_respHeaderRecv s) (cs_res s) (cs_flow s) (cs_inflow s)
    (cs_bytesRemain s) v (cs_reqBody s) (cs_reqBodyContentLength s) (cs_reqBodyClosed s)
    (cs_sentEndStream s) (cs_sentHeaders s) (cs_firstByte s) (cs_pastHeaders s) (cs_pastTrailers s)
    (cs_num1xx s) (cs_readClosed s) (cs_readAborted s) (cs_trailer s).
Definition set_cs_reqBody (v : bool) (s : clientStream) : clientStream :=
  mkClientStream (cs_bufPipe s) (cs_requestedGzip s) (cs_isHead s) (cs_abort s) (cs_peerClosed s)
    (cs_donec s) (cs_on100 s) (cs_respHeaderRecv s) (cs_res s) (cs_flow s) (cs_inflow s)
    (cs_bytesRemain s) (cs_readErr s) v (cs_reqBodyContentLength s) (cs_reqBodyClosed s)
    (cs_sentEndStream s) (cs_sentHeaders s) (cs_firstByte s) (cs_pastHeaders s) (cs_pastTrailers s)
    (cs_num1xx s) (cs_readClosed s) (cs_readAborted s) (cs_trailer s).
Definition set_cs_reqBodyContentLength (v : Z) (s : clientStream) : clientStream :=
  mkClientStream (cs_bufPipe s) (cs_requestedGzip s) (cs_isHead s) (cs_abort s) (cs_peerClosed s)
    (cs_donec s) (cs_on100 s) (cs_respHeaderRecv s) (cs_res s) (cs_flow s) (cs_inflow s)
    (cs_bytesRemain s) (cs_readErr s) (cs_reqBody s) v (cs_reqBodyClosed s) (cs_sentEndStream s)
    (cs_sentHeaders s) (cs_firstByte s) (cs_pastHeaders s) (cs_pastTrailers s) (cs_num1xx s)
    (cs_readClosed s) (cs_readAborted s) (cs_trailer s).
Definition set_cs_reqBodyClosed (v : bool) (s : clientStream) : clientStream :=
  mkClientStream (cs_bufPipe s) (cs_requestedGzip s) (cs_isHead s) (cs_abort s) (cs_peerClosed s)
    (cs_donec s) (cs_on100 s) (cs_respHeaderRecv s) (cs_res s) (cs_flow s) (cs_inflow s)
    (cs_bytesRemain s) (cs_readErr s) (cs_reqBody s) (cs_reqBodyContentLength s) v
    (cs_sentEndStream s) (cs_sentHeaders s) (cs_firstByte s) (cs_pastHeaders s) (cs_pastTrailers s)
    (cs_num1xx s) (cs_readClosed s) (cs_readAborted s) (cs_trailer s).
Definition set_cs_sentEndStream (v : bool) (s : clientStream) : clientStream :=
  mkClientStream (cs_bufPipe s) (cs_requestedGzip s) (cs_isHead s) (cs_abort s) (cs_peerClosed s)
    (cs_donec s) (cs_on100 s) (cs_respHeaderRecv s) (cs_res s) (cs_flow s) (cs_inflow s)
    (cs_bytesRemain s) (cs_readErr s) (cs_reqBody s) (cs_reqBodyContentLength s)
    (cs_reqBodyClosed s) v (cs_sentHeaders s) (cs_firstByte s) (cs_pastHeaders s)
    (cs_pastTrailers s) (cs_num1xx s) (cs_readClosed s) (cs_readAborted s) (cs_trailer s).
Definition set_cs_sentHeaders (v : bool) (s : clientStream) : clientStream :=
  mkClientStream (cs_bufPipe s) (cs_requestedGzip s) (cs_isHead s) (cs_abort s) (cs_peerClosed s)
    (cs_donec s) (cs_on100 s) (cs_respHeaderRecv s) (cs_res s) (cs_flow s) (cs_inflow s)
    (cs_bytesRemain s) (cs_readErr s) (cs_reqBody s) (cs_reqBodyContentLength s)
    (cs_reqBodyClosed s) (cs_sentEndStream s) v (cs_firstByte s) (cs_pastHeaders s)
    (cs_pastTrailers s) (cs_num1xx s) (cs_readClosed s) (cs_readAborted s) (cs_trailer s).
Definition set_cs_firstByte (v : bool) (s : clientStream) : clientStream :=
  mkClientStream (cs_bufPipe s) (cs_requestedGzip s) (cs_isHead s) (cs_abort s) (cs_peerClosed s)
    (cs_donec s) (cs_on100 s) (cs_respHeaderRecv s) (cs_res s) (cs_flow s) (cs_inflow s)
    (cs_bytesRemain s) (cs_readErr s) (cs_reqBody s) (cs_reqBodyContentLength s)
    (cs_reqBodyClosed s) (cs_sentEndStream s) (cs_sentHeaders s) v (cs_pastHeaders s)
    (cs_pastTrailers s) (cs_num1xx s) (cs_readClosed s) (cs_readAborted s) (cs_trailer s).
Definition set_cs_pastHeaders (v : bool) (s : clientStream) : clientStream :=
  mkClientStream (cs_bufPipe s) (cs_requestedGzip s) (cs_isHead s) (cs_abort s) (cs_peerClosed s)
    (cs_donec s) (cs_on100 s) (cs_respHeaderRecv s) (cs_res s) (cs_flow s) (cs_inflow s)
    (cs_bytesRemain s) (cs_readErr s) (cs_reqBody s) (cs_reqBodyContentLength s)
    (cs_reqBodyClosed s) (cs_sentEndStream s) (cs_sentHeaders s) (cs_firstByte s) v
    (cs_pastTrailers s) (cs_num1xx s) (cs_readClosed s) (cs_readAborted s) (cs_trailer s).
Definition set_cs_pastTrailers (v : bool) (s : clientStream) : clientStream :=
  mkClientStream (cs_bufPipe s) (cs_requestedGzip s) (cs_isHead s) (cs_abort s) (cs_peerClosed s)
    (cs_donec s) (cs_on100 s) (cs_respHeaderRecv s) (cs_res s) (cs_flow s) (cs_inflow s)
    (cs_bytesRemain s) (cs_readErr s) (cs_reqBody s) (cs_reqBodyContentLength s)
    (cs_reqBodyClosed s) (cs_sentEndStream s) (cs_sentHeaders s) (cs_firstByte s) (cs_pastHeaders s)
    v (cs_num1xx s) (cs_readClosed s) (cs_readAborted s) (cs_trailer s).
Definition set_cs_num1xx (v : Z) (s : clientStream) : clientStream :=
  mkClientStream (cs_bufPipe s) (cs_requestedGzip s) (cs_isHead s) (cs_abort s) (cs_peerClosed s)
    (cs_donec s) (cs_on100 s) (cs_respHeaderRecv s) (cs_res s) (cs_flow s) (cs_inflow s)
    (cs_bytesRemain s) (cs_readErr s) (cs_reqBody s) (cs_reqBodyContentLength s)
    (cs_reqBodyClosed s) (cs_sentEndStream s) (cs_sentHeaders s) (cs_firstByte s) (cs_pastHeaders s)
    (cs_pastTrailers s) v (cs_readClosed s) (cs_readAborted s) (cs_trailer s).
Definition set_cs_readClosed (v : bool) (s : clientStream) : clientStream :=
  mkClientStream (cs_bufPipe s) (cs_requestedGzip s) (cs_isHead s) (cs_abort s) (cs_peerClosed s)
    (cs_donec s) (cs_on100 s) (cs_respHeaderRecv s) (cs_res s) (cs_flow s) (cs_inflow s)
    (cs_bytesRemain s) (cs_readErr s) (cs_reqBody s) (cs_reqBodyContentLength s)
    (cs_reqBodyClosed s) (cs_sentEndStream s) (cs_sentHeaders s) (cs_firstByte s) (cs_pastHeaders s)
    (cs_pastTrailers s) (cs_num1xx s) v (cs_readAborted s) (cs_trailer s).
Definition set_cs_readAborted (v : bool) (s : clientStream) : clientStream :=
  mkClientStream (cs_bufPipe s) (cs_requestedGzip s) (cs_isHead s) (cs_abort s) (cs_peerClosed s)
    (cs_donec s) (cs_on100 s) (cs_respHeaderRecv s) (cs_res s) (cs_flow s) (cs_inflow s)
    (cs_bytesRemain s) (cs_readErr s) (cs_reqBody s) (cs_reqBodyContentLength s)
    (cs_reqBodyClosed s) (cs_sentEndStream s) (cs_sentHeaders s) (cs_firstByte s) (cs_pastHeaders s)
    (cs_pastTrailers s) (cs_num1xx s) (cs_readClosed s) v (cs_trailer s).
Definition set_cs_trailer (v : Header) (s : clientStream) : clientStream :=
  mkClientStream (cs_bufPipe s) (cs_requestedGzip s) (cs_isHead s) (cs_abort s) (cs_peerClosed s)
    (cs_donec s) (cs_on100 s) (cs_respHeaderRecv s) (cs_res s) (cs_flow s) (cs_inflow s)
    (cs_bytesRemain s) (cs_readErr s) (cs_reqBody s) (cs_reqBodyContentLength s)
    (cs_reqBodyClosed s) (cs_sentEndStream s) (cs_sentHeaders s) (cs_firstByte s) (cs_pastHeaders s)
    (cs_pastTrailers s) (cs_num1xx s) (cs_readClosed s) (cs_readAborted s) v.

Record ClientConn := mkClientConn {
  singleUse : bool;
  mu : bool;   (* the mutexes: whether held *)
  wmu : bool;
  flow : Z;
  cc_inflow : inflow;
  doNotReuse : bool;
  closing : bool;
  closed : bool;
  seenSettings : bool;
  wantSettingsAck : bool;
  goAway : option goAwayFrame;
  goAwayDebug : bytes;
  stream_objs : gmap Z clientStream;   (* every stream object created, by ID *)
  streams : gset Z;   (* the keys of the map streams *)
  streamsReserved : Z;
  nextStreamID : Z;
  pendingRequests : Z;
  pings : gset bytes;
  pings_acked : gset bytes;   (* pings whose channel was closed *)
  lastIdle : option Z;
  peer_maxFrameSize : Z;
  maxConcurrentStreams : Z;
  peerMaxHeaderListSize : Z;
  initialWindow : Z;
  wire : list wire_op;   (* frames written, oldest first *)
  werr : option error;
  tconnClosed : bool;
  markedDead : bool;   (* MarkDead(cc) was called on the pool *)
  clock : Z }.   (* time.Now() *)

Definition set_singleUse (v : bool) (s : ClientConn) : ClientConn :=
  mkClientConn v (mu s) (wmu s) (flow s) (cc_inflow s) (doNotReuse s) (closing s) (closed s)
    (seenSettings s) (wantSettingsAck s) (goAway s) (goAwayDebug s) (stream_objs s) (streams s)
    (streamsReserved s) (nextStreamID s) (pendingRequests s) (pings s) (pings_acked s) (lastIdle s)
    (peer_maxFrameSize s) (maxConcurrentStreams s) (peerMaxHeaderListSize s) (initialWindow s)
    (wire s) (werr s) (tconnClosed s) (markedDead s) (clock s).
Definition set_mu (v : bool) (s : ClientConn) : ClientConn :=
  mkClientConn (singleUse s) v (wmu s) (flow s) (cc_inflow s) (doNotReuse s) (closing s) (closed s)
    (seenSettings s) (wantSettingsAck s) (goAway s) (goAwayDebug s) (stream_objs s) (streams s)
    (streamsReserved s) (nextStreamID s) (pendingRequests s) (pings s) (pings_acked s) (lastIdle s)
    (peer_maxFrameSize s) (maxConcurrentStreams s) (peerMaxHeaderListSize s) (initialWindow s)
    (wire s) (werr s) (tconnClosed s) (markedDead s) (clock s).
Definition set_wmu (v : bool) (s : ClientConn) : ClientConn :=
  mkClientConn (singleUse s) (mu s) v (flow s) (cc_inflow s) (doNotReuse s) (closing s) (closed s)
    (seenSettings s) (wantSettingsAck s) (goAway s) (goAwayDebug s) (stream_objs s) (streams s)
    (streamsReserved s) (nextStreamID s) (pendingRequests s) (pings s) (pings_acked s) (lastIdle s)
    (peer_maxFrameSize s) (maxConcurrentStreams s) (peerMaxHeaderListSize s) (initialWindow s)
    (wire s) (werr s) (tconnClosed s) (markedDead s) (clock s).
Definition set_flow (v : Z) (s : ClientConn) : ClientConn :=
  mkClientConn (singleUse s) (mu s) (wmu s) v (cc_inflow s) (doNotReuse s) (closing s) (closed s)
    (seenSettings s) (wantSettingsAck s) (goAway s) (goAwayDebug s) (stream_objs s) (streams s)
    (streamsReserved s) (nextStreamID s) (pendingRequests s) (pings s) (pings_acked s) (lastIdle s)
    (peer_maxFrameSize s) (maxConcurrentStreams s) (peerMaxHeaderListSize s) (initialWindow s)
    (wire s) (werr s) (tconnClosed s) (markedDead s) (clock s).
Definition set_cc_inflow (v : inflow) (s : ClientConn) : ClientConn :=
  mkClientConn (singleUse s) (mu s) (wmu s) (flow s) v (doNotReuse s) (closing s) (closed s)
    (seenSettings s) (wantSettingsAck s) (goAway s) (goAwayDebug s) (stream_objs s) (streams s)
    (streamsReserved s) (nextStreamID s) (pendingRequests s) (pings s) (pings_acked s) (lastIdle s)
    (peer_maxFrameSize s) (maxConcurrentStreams s) (peerMaxHeaderListSize s) (initialWindow s)
    (wire s) (werr s) (tconnClosed s) (markedDead s) (clock s).
Definition set_doNotReuse (v : bool) (s : ClientConn) : ClientConn :=
  mkClientConn (singleUse s) (mu s) (wmu s) (flow s) (cc_inflow s) v (closing s) (closed s)
    (seenSettings s) (wantSettingsAck s) (goAway s) (goAwayDebug s) (stream_objs s) (streams s)
    (streamsReserved s) (nextStreamID s) (pendingRequests s) (pings s) (pings_acked s) (lastIdle s)
    (peer_maxFrameSize s) (maxConcurrentStreams s) (peerMaxHeaderListSize s) (initialWindow s)
    (wire s) (werr s) (tconnClosed s) (markedDead s) (clock s).
Definition set_closing (v : bool) (s : ClientConn) : ClientConn :=
  mkClientConn (singleUse s) (mu s) (wmu s) (flow s) (cc_inflow s) (doNotReuse s) v (closed s)
    (seenSettings s) (wantSettingsAck s) (goAway s) (goAwayDebug s) (stream_objs s) (streams s)
    (streamsReserved s) (nextStreamID s) (pendingRequests s) (pings s) (pings_acked s) (lastIdle s)
    (peer_maxFrameSize s) (maxConcurrentStreams s) (peerMaxHeaderListSize s) (initialWindow s)
    (wire s) (werr s) (tconnClosed s) (markedDead s) (clock s).
Definition set_closed (v : bool) (s : ClientConn) : ClientConn :=
  mkClientConn (singleUse s) (mu s) (wmu s) (flow s) (cc_inflow s) (doNotReuse s) (closing s) v
    (seenSettings s) (wantSettingsAck s) (goAway s) (goAwayDebug s) (stream_objs s) (streams s)
    (streamsReserved s) (nextStreamID s) (pendingRequests s) (pings s) (pings_acked s) (lastIdle s)
    (peer_maxFrameSize s) (maxConcurrentStreams s) (peerMaxHeaderListSize s) (initialWindow s)
    (wire s) (werr s) (tconnClosed s) (markedDead s) (clock s).
Definition set_seenSettings (v : bool) (s : ClientConn) : ClientConn :=
  mkClientConn (singleUse s) (mu s) (wmu s) (flow s) (cc_inflow s) (doNotReuse s) (closing s)
    (closed s) v (wantSettingsAck s) (goAway s) (goAwayDebug s) (stream_objs s) (streams s)
    (streamsReserved s) (nextStreamID s) (pendingRequests s) (pings s) (pings_acked s) (lastIdle s)
    (peer_maxFrameSize s) (maxConcurrentStreams s) (peerMaxHeaderListSize s) (initialWindow s)
    (wire s) (werr s) (tconnClosed s) (markedDead s) (clock s).
Definition set_wantSettingsAck (v : bool) (s : ClientConn) : ClientConn :=
  mkClientConn (singleUse s) (mu s) (wmu s) (flow s) (cc_inflow s) (doNotReuse s) (closing s)
    (closed s) (seenSettings s) v (goAway s) (goAwayDebug s) (stream_objs s) (streams s)
    (streamsReserved s) (nextStreamID s) (pendingRequests s) (pings s) (pings_acked s) (lastIdle s)
    (peer_maxFrameSize s) (maxConcurrentStreams s) (peerMaxHeaderListSize s) (initialWindow s)
    (wire s) (werr s) (tconnClosed s) (markedDead s) (clock s).
Definition set_goAway (v : option goAwayFrame) (s : ClientConn) : ClientConn :=
  mkClientConn (singleUse s) (mu s) (wmu s) (flow s) (cc_inflow s) (doNotReuse s) (closing s)
    (closed s) (seenSettings s) (wantSettingsAck s) v (goAwayDebug s) (stream_objs s) (streams s)
    (streamsReserved s) (nextStreamID s) (pendingRequests s) (pings s) (pings_acked s) (lastIdle s)
    (peer_maxFrameSize s) (maxConcurrentStreams s) (peerMaxHeaderListSize s) (initialWindow s)
    (wire s) (werr s) (tconnClosed s) (markedDead s) (clock s).
Definition set_goAwayDebug (v : bytes) (s : ClientConn) : ClientConn :=
  mkClientConn (singleUse s) (mu s) (wmu s) (flow s) (cc_inflow s) (doNotReuse s) (closing s)
    (closed s) (seenSettings s) (wantSettingsAck s) (goAway s) v (stream_objs s) (streams s)
    (streamsReserved s) (nextStreamID s) (pendingRequests s) (pings s) (pings_acked s) (lastIdle s)
    (peer_maxFrameSize s) (maxConcurrentStreams s) (peerMaxHeaderListSize s) (initialWindow s)
    (wire s) (werr s) (tconnClosed s) (markedDead s) (clock s).
Definition set_stream_objs (v : gmap Z clientStream) (s : ClientConn) : ClientConn :=
  mkClientConn (singleUse s) (mu s) (wmu s) (flow s) (cc_inflow s) (doNotReuse s) (closing s)
    (closed s) (seenSettings s) (wantSettingsAck s) (goAway s) (goAwayDebug s) v (streams s)
    (streamsReserved s) (nextStreamID s) (pendingRequests s) (pings s) (pings_acked s) (lastIdle s)
    (peer_maxFrameSize s) (maxConcurrentStreams s) (peerMaxHeaderListSize s) (initialWindow s)
    (wire s) (werr s) (tconnClosed s) (markedDead s) (clock s).
Definition set_streams (v : gset Z) (s : ClientConn) : ClientConn :=
  mkClientConn (singleUse s) (mu s) (wmu s) (flow s) (cc_inflow s) (doNotReuse s) (closing s)
    (closed s) (seenSettings s) (wantSettingsAck s) (goAway s) (goAwayDebug s) (stream_objs s) v
    (streamsReserved s) (nextStreamID s) (pendingRequests s) (pings s) (pings_acked s) (lastIdle s)
    (peer_maxFrameSize s) (maxConcurrentStreams s) (peerMaxHeaderListSize s) (initialWindow s)
    (wire s) (werr s) (tconnClosed s) (markedDead s) (clock s).
Definition set_streamsReserved (v : Z) (s : ClientConn) : ClientConn :=
  mkClientConn (singleUse s) (mu s) (wmu s) (flow s) (cc_inflow s) (doNotReuse s) (closing s)
    (closed s) (seenSettings s) (wantSettingsAck s) (goAway s) (goAwayDebug s) (stream_objs s)
    (streams s) v (nextStreamID s) (pendingRequests s) (pings s) (pings_acked s) (lastIdle s)
    (peer_maxFrameSize s) (maxConcurrentStreams s) (peerMaxHeaderListSize s) (initialWindow s)
    (wire s) (werr s) (tconnClosed s) (markedDead s) (clock s).
Definition set_nextStreamID (v : Z) (s : ClientConn) : ClientConn :=
  mkClientConn (singleUse s) (mu s) (wmu s) (flow s) (cc_inflow s) (doNotReuse s) (closing s)
    (closed s) (seenSettings s) (wantSettingsAck s) (goAway s) (goAwayDebug s) (stream_objs s)
    (streams s) (streamsReserved s) v (pendingRequests s) (pings s) (pings_acked s) (lastIdle s)
    (peer_maxFrameSize s) (maxConcurrentStreams s) (peerMaxHeaderListSize s) (initialWindow s)
    (wire s) (werr s) (tconnClosed s) (markedDead s) (clock s).
Definition set_pendingRequests (v : Z) (s : ClientConn) : ClientConn :=
  mkClientConn (singleUse s) (mu s) (wmu s) (flow s) (cc_inflow s) (doNotReuse s) (closing s)
    (closed s) (seenSettings s) (wantSettingsAck s) (goAway s) (goAwayDebug s) (stream_objs s)
    (streams s) (streamsReserved s) (nextStreamID s) v (pings s) (pings_acked s) (lastIdle s)
    (peer_maxFrameSize s) (maxConcurrentStreams s) (peerMaxHeaderListSize s) (initialWindow s)
    (wire s) (werr s) (tconnClosed s) (markedDead s) (clock s).
Definition set_pings (v : gset bytes) (s : ClientConn) : ClientConn :=
  mkClientConn (singleUse s) (mu s) (wmu s) (flow s) (cc_inflow s) (doNotReuse s) (closing s)
    (closed s) (seenSettings s) (wantSettingsAck s) (goAway s) (goAwayDebug s) (stream_objs s)
    (streams s) (streamsReserved s) (nextStreamID s) (pendingRequests s) v (pings_acked s)
    (lastIdle s) (peer_maxFrameSize s) (maxConcurrentStreams s) (peerMaxHeaderListSize s)
    (initialWindow s) (wire s) (werr s) (tconnClosed s) (markedDead s) (clock s).
Definition set_pings_acked (v : gset bytes) (s : ClientConn) : ClientConn :=
  mkClientConn (singleUse s) (mu s) (wmu s) (flow s) (cc_inflow s) (doNotReuse s) (closing s)
    (closed s) (seenSettings s) (wantSettingsAck s) (goAway s) (goAwayDebug s) (stream_objs s)
    (streams s) (streamsReserved s) (nextStreamID s) (pendingRequests s) (pings s) v (lastIdle s)
    (peer_maxFrameSize s) (maxConcurrentStreams s) (peerMaxHeaderListSize s) (initialWindow s)
    (wire s) (werr s) (tconnClosed s) (markedDead s) (clock s).
Definition set_lastIdle (v : option Z) (s : ClientConn) : ClientConn :=
  mkClientConn (singleUse s) (mu s) (wmu s) (flow s) (cc_inflow s) (doNotReuse s) (closing s)
    (closed s) (seenSettings s) (wantSettingsAck s) (goAway s) (goAwayDebug s) (stream_objs s)
    (streams s) (streamsReserved s) (nextStreamID s) (pendingRequests s) (pings s) (pings_acked s) v
    (peer_maxFrameSize s) (maxConcurrentStreams s) (peerMaxHeaderListSize s) (initialWindow s)
    (wire s) (werr s) (tconnClosed s) (markedDead s) (clock s).
Definition set_peer_maxFrameSize (v : Z) (s : ClientConn) : ClientConn :=
  mkClientConn (singleUse s) (mu s) (wmu s) (flow s) (cc_inflow s) (doNotReuse s) (closing s)
    (closed s) (seenSettings s) (wantSettingsAck s) (goAway s) (goAwayDebug s) (stream_objs s)
    (streams s) (streamsReserved s) (nextStreamID s) (pendingRequests s) (pings s) (pings_acked s)
    (lastIdle s) v (maxConcurrentStreams s) (peerMaxHeaderListSize s) (initialWindow s) (wire s)
    (werr s) (tconnClosed s) (markedDead s) (clock s).
Definition set_maxConcurrentStreams (v : Z) (s : ClientConn) : ClientConn :=
  mkClientConn (singleUse s) (mu s) (wmu s) (flow s) (cc_inflow s) (doNotReuse s) (closing s)
    (closed s) (seenSettings s) (wantSettingsAck s) (goAway s) (goAwayDebug s) (stream_objs s)
    (streams s) (streamsReserved s) (nextStreamID s) (pendingRequests s) (pings s) (pings_acked s)
    (lastIdle s) (peer_maxFrameSize s) v (peerMaxHeaderListSize s) (initialWindow s) (wire s)
    (werr s) (tconnClosed s) (markedDead s) (clock s).
Definition set_peerMaxHeaderListSize (v : Z) (s : ClientConn) : ClientConn :=
  mkClientConn (singleUse s) (mu s) (wmu s) (flow s) (cc_inflow s) (doNotReuse s) (closing s)
    (closed s) (seenSettings s) (wantSettingsAck s) (goAway s) (goAwayDebug s) (stream_objs s)
    (streams s) (streamsReserved s) (nextStreamID s) (pendingRequests s) (pings s) (pings_acked s)
    (lastIdle s) (peer_maxFrameSize s) (maxConcurrentStreams s) v (initialWindow s) (wire s)
    (werr s) (tconnClosed s) (markedDead s) (clock s).
Definition set_initialWindow (v : Z) (s : ClientConn) : ClientConn :=
  mkClientConn (singleUse s) (mu s) (wmu s) (flow s) (cc_inflow s) (doNotReuse s) (closing s)
    (closed s) (seenSettings s) (wantSettingsAck s) (goAway s) (goAwayDebug s) (stream_objs s)
    (streams s) (streamsReserved s) (nextStreamID s) (pendingRequests s) (pings s) (pings_acked s)
    (lastIdle s) (peer_maxFrameSize s) (maxConcurrentStreams s) (peerMaxHeaderListSize s) v (wire s)
    (werr s) (tconnClosed s) (markedDead s) (clock s).
Definition set_wire (v : list wire_op) (s : ClientConn) : ClientConn :=
  mkClientConn (singleUse s) (mu s) (wmu s) (flow s) (cc_inflow s) (doNotReuse s) (closing s)
    (closed s) (seenSettings s) (wantSettingsAck s) (goAway s) (goAwayDebug s) (stream_objs s)
    (streams s) (streamsReserved s) (nextStreamID s) (pendingRequests s) (pings s) (pings_acked s)
    (lastIdle s) (peer_maxFrameSize s) (maxConcurrentStreams s) (peerMaxHeaderListSize s)
    (initialWindow s) v (werr s) (tconnClosed s) (markedDead s) (clock s).
Definition set_werr (v : option error) (s : ClientConn) : ClientConn :=
  mkClientConn (singleUse s) (mu s) (wmu s) (flow s) (cc_inflow s) (doNotReuse s) (closing s)
    (closed s) (seenSettings s) (wantSettingsAck s) (goAway s) (goAwayDebug s) (stream_objs s)
    (streams s) (streamsReserved s) (nextStreamID s) (pendingRequests s) (pings s) (pings_acked s)
    (lastIdle s) (peer_maxFrameSize s) (maxConcurrentStreams s) (peerMaxHeaderListSize s)
    (initialWindow s) (wire s) v (tconnClosed s) (markedDead s) (clock s).
Definition set_tconnClosed (v : bool) (s : ClientConn) : ClientConn :=
  mkClientConn (singleUse s) (mu s) (wmu s) (flow s) (cc_inflow s) (doNotReuse s) (closing s)
    (closed s) (seenSettings s) (wantSettingsAck s) (goAway s) (goAwayDebug s) (stream_objs s)
    (streams s) (streamsReserved s) (nextStreamID s) (pendingRequests s) (pings s) (pings_acked s)
    (lastIdle s) (peer_maxFrameSize s) (maxConcurrentStreams s) (peerMaxHeaderListSize s)
    (initialWindow s) (wire s) (werr s) v (markedDead s) (clock s).
Definition set_markedDead (v : bool) (s : ClientConn) : ClientConn :=
  mkClientConn (singleUse s) (mu s) (wmu s) (flow s) (cc_inflow s) (doNotReuse s) (closing s)
    (closed s) (seenSettings s) (wantSettingsAck s) (goAway s) (goAwayDebug s) (stream_objs s)
    (streams s) (streamsReserved s) (nextStreamID s) (pendingRequests s) (pings s) (pings_acked s)
    (lastIdle s) (peer_maxFrameSize s) (maxConcurrentStreams s) (peerMaxHeaderListSize s)
    (initialWindow s) (wire s) (werr s) (tconnClosed s) v (clock s).
Definition set_clock (v : Z) (s : ClientConn) : ClientConn :=
  mkClientConn (singleUse s) (mu s) (wmu s) (flow s) (cc_inflow s) (doNotReuse s) (closing s)
    (closed s) (seenSettings s) (wantSettingsAck s) (goAway s) (goAwayDebug s) (stream_objs s)
    (streams s) (streamsReserved s) (nextStreamID s) (pendingRequests s) (pings s) (pings_acked s)
    (lastIdle s) (peer_maxFrameSize s) (maxConcurrentStreams s) (peerMaxHeaderListSize s)
    (initialWindow s) (wire s) (werr s) (tconnClosed s) (markedDead s) v.

End State.
Arguments clientStream : clear implicits.
Arguments ClientConn : clear implicits.

(** ** The monad *)
Inductive outcome (B A : Type) :=
| Done (a : A) (s : ClientConn B)
| Panicked (msg : string)
| Deadlock
| Parked (s : ClientConn B).
Arguments Done {B A} a s.
Arguments Panicked {B A} msg.
Arguments Deadlock {B A}.
Arguments Parked {B A} s.

Definition M (B A : Type) : Type := ClientConn B -> outcome B A.

Section Monad.
Context {B : Type}.

Definition ret {A} (a : A) : M B A := fun s => Done a s.
Definition bind {A C} (m : M B A) (k : A -> M B C) : M B C := fun s =>
  match m s with
  | Done a s => k a s
  | Panicked msg => Panicked msg
  | Deadlock => Deadlock
  | Parked s => Parked s
  end.
Definition get : M B (ClientConn B) := fun s => Done s s.
Definition modify (f : ClientConn B -> ClientConn B) : M B unit := fun s => Done tt (f s).
Definition panic {A} (msg : string) : M B A := fun _ => Panicked msg.

Definition lock_mu : M B unit := fun s => if mu s then Deadlock else Done tt (set_mu true s).
Definition unlock_mu : M B unit := fun s => Done tt (set_mu false s).
Definition lock_wmu : M B unit := fun s => if wmu s then Deadlock else Done tt (set_wmu true s).
Definition unlock_wmu : M B unit := fun s => Done tt (set_wmu false s).

(** [mu.Lock(); defer mu.Unlock()] around a body. *)
Definition with_mu {A} (m : M B A) : M B A :=
  bind lock_mu (fun _ => bind m (fun a => bind unlock_mu (fun _ => ret a))).
Definition with_wmu {A} (m : M B A) : M B A :=
  bind lock_wmu (fun _ => bind m (fun a => bind unlock_wmu (fun _ => ret a))).

(** A stream object; dereferencing a nil pointer panics. *)
Definition get_cs (id : Z) : M B (clientStream B) := fun s =>
  match stream_objs s !! id with
  | Some cs => Done cs s
  | None => Panicked "invalid memory address or nil pointer dereference"
  end.
Definition modify_cs (id : Z) (f : clientStream B -> clientStream B) : M B unit :=
  modify (fun s => set_stream_objs (alter f id (stream_objs s)) s).

(** Lifting a pure operation that may panic. *)
Definition lift {A} (r : result string A) : M B A :=
  match r with Ok a => ret a | Err msg => panic msg end.

(** A frame written through [cc.bw]: [werr] is the sticky error of the writer
    underneath; the frame's own checks come first. *)
Definition write_frame (o : wire_op) : M B (option error) := fun s =>
  match werr s with
  | Some e => Done (Some e) s
  | None => match snd (write_op (mkFramer ([] : bytes) [] false) o) with
            | Some e => Done (Some e) s
            | None => Done None (set_wire (wire s ++ [o]) s)
            end
  end.
Definition flush : M B (option error) := fun s => Done (werr s) s.

(** The streams of the connection, in the unspecified order of a Go map:
    each step only touches its own stream. *)
Definition for_streams (f : Z -> clientStream B -> clientStream B) (s : ClientConn B) : ClientConn B :=
  set_stream_objs (map_imap (fun id cs => Some (if bool_decide (id ∈ streams s) then f id cs else cs))
                     (stream_objs s)) s.
End Monad.

Declare Scope conn_scope.
Delimit Scope conn_scope with conn.
Module ConnNotations.
Notation "x <- m ;; k" := (bind m (fun x => k))
  (at level 100, m at next level, k at level 200, right associativity) : conn_scope.
Notation "'let*' p ':=' m 'in' k" := (bind m (fun x => match x with p => k end))
  (at level 10, p pattern, m at level 100, k at level 200) : conn_scope.
Notation "m ;; k" := (bind m (fun _ => k)) (at level 100, k at level 200, right associativity) : conn_scope.
#[global] Open Scope conn_scope.
End ConnNotations.
