(* ===== verification/H2Transport.v ===== *)
(** * Pure parts of the HTTP/2 transport ([src/internal/http2/transport.go])

    Limits and defaults, the decision to retry a request, checks of request
    headers, sizes of scratch buffers, parsing of list-valued headers. *)

From S2P Require Import Prelude.
From S2P Require Import H2Errors.
From S2P Require Import Flow.
From S2P Require Import Pipe.
From S2P Require Import Frame.
From S2P Require Import FrameWrite.
From S2P Require Import NetText.
From S2P Require Import ConnState.

Definition transportDefaultConnFlow : Z := Z.shiftl 1 30.
Definition transportDefaultStreamFlow : Z := Z.shiftl 4 20.
Definition initialMaxConcurrentStreams : Z := 100.
Definition defaultMaxConcurrentStreams : Z := 1000.

Definition Transport_maxHeaderListSize (t : Transport) : Z :=
  if T_MaxHeaderListSize t =? 0 then Z.shiftl 10 20
  else if T_MaxHeaderListSize t =? 4294967295 then 0
  else T_MaxHeaderListSize t.

Definition initialStreamID (t : Transport) : Z :=
  let id := InitialStreamID t in
  if (id =? 0) || (2147483647 <? id) then 1
  else if id mod 2 =? 0 then
    let id := u32 (id + 1) in
    if 2147483647 <? id then 1 else id
  else id.

(** ** Retrying a request *)
Definition CanRetryError (err : error) : bool :=
  if bool_decide (err = errClientConnUnusable) || bool_decide (err = errClientConnGotGoAway) then true
  else match err with
       | StreamError _ Code Cause =>
           if (Code =? ErrCodeProtocol) && bool_decide (Cause = Some errFromPeer) then true
           else Code =? ErrCodeRefusedStream
       | _ => false
       end.

(** The body of a request: absent ([nil] or [http.NoBody]) or a reader; and
    [GetBody], nil or its result. *)
Record retryRequest (Bd : Type) := mkRetryRequest {
  rq_Body : option Bd;
  rq_GetBody : option (result error Bd) }.
Arguments mkRetryRequest {Bd}. Arguments rq_Body {Bd}. Arguments rq_GetBody {Bd}.

Definition shouldRetryRequest {Bd} (error_text : error -> string) (req : retryRequest Bd) (err : error)
    : result error (retryRequest Bd) :=
  if negb (CanRetryError err) then Err err else
  match rq_Body req with
  | None => Ok req
  | Some _ =>
      match rq_GetBody req with
      | Some (Err e) => Err e
      | Some (Ok body) => Ok (mkRetryRequest (Some body) (rq_GetBody req))
      | None =>
          if bool_decide (err = errClientConnUnusable) then Ok req
          else Err (errors_New ("http2: Transport: cannot retry err [" +:+ error_text err
                     +:+ "] after Request.Body was written; define Request.GetBody to avoid this error"))
      end
  end.

(** ** Request headers *)
Definition errInvalid (msg : string) : error := errors_New msg.

(** [%q] of the offending values is abstracted by the argument [quote]. *)
Definition checkConnHeaders (quote : list string -> string) (h : Header) : option error :=
  if negb (String.eqb (Header_Get h "Upgrade") "")
  then Some (errInvalid ("http2: invalid Upgrade request header: " +:+ quote (Header_values h "Upgrade"))) else
  let te := Header_values h "Transfer-Encoding" in
  let te0 := default ""%string (head te) in
  if (0 <? len te) && ((1 <? len te) || (negb (String.eqb te0 "") && negb (String.eqb te0 "chunked")))
  then Some (errInvalid ("http2: invalid Transfer-Encoding request header: " +:+ quote te)) else
  let co := Header_values h "Connection" in
  let co0 := default ""%string (head co) in
  if (0 <? len co) && ((1 <? len co) || (negb (String.eqb co0 "") && negb (EqualFold co0 "close")
                                         && negb (EqualFold co0 "keep-alive")))
  then Some (errInvalid ("http2: invalid Connection request header: " +:+ quote co)) else None.

(** [validateHeaders]: the first offending key in the order [keys] of the map
    iteration; the values are not quoted in the message. *)
Section ValidateHeaders.
Context (ValidHeaderFieldName ValidHeaderFieldValue : string -> bool) (quote : string -> string).
Fixpoint validateHeaders (kvs : list (string * list string)) : string :=
  match kvs with
  | [] => ""
  | (k, vv) :: kvs =>
      if negb (ValidHeaderFieldName k) then "name " +:+ quote k
      else if existsb (fun v => negb (ValidHeaderFieldValue v)) vv then "value for header " +:+ quote k
      else validateHeaders kvs
  end.
End ValidateHeaders.

Definition actualContentLength (hasBody : bool) (contentLength : Z) : Z :=
  if negb hasBody then 0 else if negb (contentLength =? 0) then contentLength else -1.

Definition shouldSendReqContentLength (method : string) (contentLength : Z) : bool :=
  if 0 <? contentLength then true
  else if contentLength <? 0 then false
  else bool_decide (method ∈ ["POST"; "PUT"; "PATCH"]%string).

(** ** Buffers for request bodies *)
Definition frameScratchBufferLen (maxFrameSize reqBodyContentLength : Z) : Z :=
  let max := Z.shiftl 512 10 in
  let n := maxFrameSize in
  let n := if max <? n then max else n in
  let cl := reqBodyContentLength in
  let n := if negb (cl =? -1) && (i64 (cl + 1) <? n) then i64 (cl + 1) else n in
  if n <? 1 then 1 else n.

(** [bits.Len] *)
Definition bits_Len (n : Z) : Z := if n <=? 0 then 0 else Z.log2 n + 1.
Definition bufPoolIndex (size : Z) : Z :=
  if size <=? 16384 then 0 else
  let size := size - 1 in
  let index := bits_Len size - 14 in
  if 7 <=? index then 6 else index.

(** a scratch buffer always fits its pool. For every frame size of a
    32-bit setting and every content length, the buffer has between 1 and 512 KB
    bytes, never more than the frame size (unless that is 0), and, for a declared
    length below the limits, room for exactly one byte more than declared; its
    pool index is one of the seven, never the "infinity" pool, and is the one
    whose size range contains it. *)
Theorem scratch_buffer_fits (maxFrameSize cl : Z) :
  is_u32 maxFrameSize -> -1 <= cl -> is_i64 cl ->
  let n := frameScratchBufferLen maxFrameSize cl in
  1 <= n <= 524288 /\ (0 < maxFrameSize -> n <= maxFrameSize)
  /\ (0 <= cl < Z.min maxFrameSize 524288 -> n = cl + 1)
  /\ 0 <= bufPoolIndex n <= 5
  /\ (n <= 16384 * 2 ^ bufPoolIndex n)
  /\ (bufPoolIndex n <> 0 -> 16384 * 2 ^ (bufPoolIndex n - 1) < n).
Proof.
  intros Hm Hcl Hcl64 n.
  assert (1 <= n <= 524288 /\ (0 < maxFrameSize -> n <= maxFrameSize)
          /\ (0 <= cl < Z.min maxFrameSize 524288 -> n = cl + 1)) as (Hn & Hle & Heq).
  { subst n. unfold frameScratchBufferLen. change (Z.shiftl 512 10) with 524288.
    set (m := if 524288 <? maxFrameSize then 524288 else maxFrameSize).
    assert (m = Z.min maxFrameSize 524288) as -> by (subst m; destruct (Z.ltb_spec 524288 maxFrameSize); lia).
    destruct (Z.eqb_spec cl (-1)) as [->|Hne]; cbn [negb andb];
      [|assert (i64 (cl + 1) = cl + 1 \/ i64 (cl + 1) = - 2 ^ 63 /\ cl = 2 ^ 63 - 1) as Hw by word;
        destruct (Z.ltb_spec (i64 (cl + 1)) (Z.min maxFrameSize 524288))];
      match goal with |- context [?x <? 1] => destruct (Z.ltb_spec x 1) end; word. }
  split; [done|]. split; [done|]. split; [done|]. clear Hle Heq. unfold bufPoolIndex.
  destruct (Z.leb_spec n 16384); [split; [done|]; split; [cbn; lia|done]|].
  unfold bits_Len. destruct (Z.leb_spec (n - 1) 0); [lia|].
  pose proof (Z.log2_spec (n - 1) ltac:(lia)) as [Hl1 Hl2].
  assert (14 <= Z.log2 (n - 1)) by (apply (Z.log2_le_mono (2 ^ 14)); lia).
  assert (Z.log2 (n - 1) <= 18) by (apply Z.lt_succ_r; apply Z.log2_lt_pow2; lia).
  set (k := Z.log2 (n - 1)) in *. destruct (Z.leb_spec 7 (k + 1 - 14)); [lia|].
  change 16384 with (2 ^ 14). rewrite <- !Z.pow_add_r by lia.
  replace (14 + (k + 1 - 14)) with (Z.succ k) by lia.
  replace (14 + (k + 1 - 14 - 1)) with k by lia. lia.
Qed.

Lemma scratch_buffer_fits_witness :
  frameScratchBufferLen 16384 9 = 10 /\ 1 <= frameScratchBufferLen 16384 9 <= 524288.
Proof.
  split; [reflexivity|]. apply (scratch_buffer_fits 16384 9); word.
Defined.

(** ** Lists in header values *)
Section ForeachHeaderElement.
Context {St : Type} (fn : St -> string -> St).
Definition foreachHeaderElement (st : St) (v : string) : St :=
  let v := TrimString v in
  if String.eqb v "" then st
  else if negb (contains_byte 44 v) then fn st v
  else fold_left (fun st f => let f := TrimString f in if negb (String.eqb f "") then fn st f else st)
         (split 44 v) st.
End ForeachHeaderElement.

Definition isEOFOrNetReadError (err : option error) : bool :=
  match err with
  | Some io_EOF => true
  | Some (net_OpError op) => String.eqb op "read"
  | _ => false
  end.

(** [commaSeparatedTrailers]: [keys] are the keys of [req.Trailer] in the order
    of the map iteration. *)
Fixpoint trailer_keys (keys : list string) : result error (list string) :=
  match keys with
  | [] => Ok []
  | k :: keys =>
      let k := canonicalHeader k in
      if bool_decide (k ∈ ["Transfer-Encoding"; "Trailer"; "Content-Length"]%string)
      then Err (errors_New ("invalid Trailer key " +:+ k))
      else match trailer_keys keys with Ok ks => Ok (k :: ks) | Err e => Err e end
  end.

(** The errors a request is retried for, and its body then: none, a fresh one from
    [GetBody], or the same one after the connection refused to start the stream. *)
Lemma retried_cases {Bd} (error_text : error -> string) (req req' : retryRequest Bd) (err : error) :
  shouldRetryRequest error_text req err = Ok req' ->
  (err = errClientConnUnusable \/ err = errClientConnGotGoAway
   \/ (exists id cause, err = StreamError id ErrCodeRefusedStream cause)
   \/ (exists id, err = StreamError id ErrCodeProtocol (Some errFromPeer)))
  /\ (rq_Body req' = None
      \/ (exists b, rq_GetBody req = Some (Ok b) /\ rq_Body req' = Some b)
      \/ (err = errClientConnUnusable /\ rq_GetBody req = None /\ req' = req)).
Proof.
  unfold shouldRetryRequest. destruct (CanRetryError err) eqn:Hcan; [|done]. cbn [negb]. intros H. split.
  - unfold CanRetryError in Hcan. repeat case_bool_decide; try tauto. cbn in Hcan.
    destruct err; try done; right; right.
    destruct (Z.eqb_spec Code ErrCodeProtocol) as [->|]; cbn [andb] in Hcan.
    + case_bool_decide; [subst|done]. right. eauto.
    + apply Z.eqb_eq in Hcan. subst. left. eauto.
  - destruct (rq_Body req) eqn:Eb; [|injection H as <-; by left].
    destruct (rq_GetBody req) as [[b'|e]|] eqn:Eg; [injection H as <-|done|].
    + right. left. by exists b'.
    + case_bool_decide; [|done]. injection H as <-. by right; right.
Qed.
