(* ===== verification/H2Conn.v ===== *)
(** * Operations of a client connection ([src/internal/http2/transport.go])

    Creation, the decision to take a request, streams entering and leaving the
    connection, shutdown, and the writing side: header blocks, flow control,
    resets. Each definition is the whole Go function; log lines and the
    [CountError] callback are left out. *)

From S2P Require Import Prelude.
From S2P Require Import H2Errors.
From S2P Require Import Flow.
From S2P Require Import Pipe.
From S2P Require Import Frame.
From S2P Require Import FrameWrite.
From S2P Require Import NetText.
From S2P Require Import ConnState.
From S2P Require Import H2Transport.
Import ConnNotations.

(** ** A new connection *)
Section New.
Context {B : Type}.

Definition clientConn_zero (t : Transport) (singleUse : bool) : ClientConn B := {|
  singleUse := singleUse; mu := false; wmu := false; flow := 0; cc_inflow := Inflow.zero;
  doNotReuse := false; closing := false; closed := false; seenSettings := false;
  wantSettingsAck := true; goAway := None; goAwayDebug := []; stream_objs := ∅; streams := ∅;
  streamsReserved := 0; nextStreamID := initialStreamID t; pendingRequests := 0;
  pings := ∅; pings_acked := ∅; lastIdle := None;
  peer_maxFrameSize := Z.shiftl 16 10; maxConcurrentStreams := initialMaxConcurrentStreams;
  peerMaxHeaderListSize := 18446744073709551615; initialWindow := 65535;
  wire := []; werr := None; tconnClosed := false; markedDead := false; clock := 0 |}.

(** The loop over [t.Settings]: the connection's frame size, the transport's
    limit on header lists and the size of the HPACK table. *)
Definition apply_own_setting (acc : ClientConn B * Z * Z) (s : Setting) : ClientConn B * Z * Z :=
  let '(cc, maxHeaderListSize, headerTableSize) := acc in
  if S_ID s =? SettingMaxFrameSize then (set_peer_maxFrameSize (S_Val s) cc, maxHeaderListSize, headerTableSize)
  else if S_ID s =? SettingMaxHeaderListSize then (cc, S_Val s, headerTableSize)
  else if S_ID s =? SettingHeaderTableSize then (cc, maxHeaderListSize, S_Val s)
  else acc.

Definition set_T_MaxHeaderListSize (v : Z) (t : Transport) : Transport :=
  mkTransport (StrictMaxConcurrentStreams t) (DisableKeepAlives t) v (InitialStreamID t) (T_Settings t)
    (ConnectionFlow t) (PriorityFrames t) (HeaderPriority t) (IdleConnTimeout t) (AutoDecompression t).

(** The frames sent first, after [clientPreface]. *)
Definition initialSettings (t : Transport) : list Setting :=
  if 0 <? len (T_Settings t) then T_Settings t
  else [mkSetting SettingEnablePush 0; mkSetting SettingInitialWindowSize transportDefaultStreamFlow]
       ++ (let max := Transport_maxHeaderListSize t in
           if negb (max =? 0) then [mkSetting SettingMaxHeaderListSize max] else []).

(** [newClientConn], on a socket whose writes fail with [broken]: the transport
    (its limit on header lists may change), the connection and the error. The
    connection's [fr.MaxHeaderListSize] is [Transport_maxHeaderListSize] of the
    resulting transport and its HPACK table has the size returned. *)
Definition newClientConn (t : Transport) (singleUse : bool) (broken : option error)
    : Transport * Z * ClientConn B * option error :=
  let cc := clientConn_zero t singleUse in
  let '(cc, mhl, headerTableSize) :=
    fold_left apply_own_setting (T_Settings t) (cc, T_MaxHeaderListSize t, initialHeaderTableSize) in
  let t := set_T_MaxHeaderListSize mhl t in
  let cc := set_flow (fst (Outflow.add (flow cc) initialWindowSize)) cc in
  let cc := set_werr broken cc in
  let wr (cc : ClientConn B) (o : wire_op) :=
    match write_frame o cc with Done _ cc => cc | _ => cc end in
  let cc := wr cc (OpSettings (initialSettings t)) in
  let connFlow := if ConnectionFlow t <? 1 then transportDefaultConnFlow else ConnectionFlow t in
  let cc := wr cc (OpWindowUpdate 0 connFlow) in
  let cc := fold_left (fun cc p =>
      set_nextStreamID (u32 (PF_StreamID p + 2)) (wr cc (OpPriority (PF_StreamID p) (PF_PriorityParam p))))
    (PriorityFrames t) cc in
  let cc := set_cc_inflow (Inflow.init (cc_inflow cc) (i32 (i32 connFlow + initialWindowSize))) cc in
  match werr cc with
  | Some e => (t, headerTableSize, set_tconnClosed true (set_closed true cc), Some e)
  | None => (t, headerTableSize, cc, None)
  end.
End New.

(** The stream [roundTrip] starts a request with; [requestedGzip] when
    compression is on and the request leaves the choice to the transport. *)
Definition newClientStream {B} (DisableCompression : bool) (Method : string) (Header_ : Header)
    (hasBody : bool) (ContentLength : Z) : clientStream B :=
  let isHead := String.eqb Method "HEAD" in
  let gzip := negb DisableCompression && String.eqb (Header_Get Header_ "Accept-Encoding") ""
              && String.eqb (Header_Get Header_ "Range") "" && negb isHead in
  {| cs_bufPipe := newPipe; cs_requestedGzip := gzip; cs_isHead := isHead; cs_abort := None;
     cs_peerClosed := false; cs_donec := false; cs_on100 := false; cs_respHeaderRecv := false;
     cs_res := None; cs_flow := 0; cs_inflow := Inflow.zero; cs_bytesRemain := 0; cs_readErr := None;
     cs_reqBody := hasBody; cs_reqBodyContentLength := ContentLength; cs_reqBodyClosed := false;
     cs_sentEndStream := false; cs_sentHeaders := false; cs_firstByte := false; cs_pastHeaders := false;
     cs_pastTrailers := false; cs_num1xx := 0; cs_readClosed := false; cs_readAborted := false;
     cs_trailer := ∅ |}.

Section Conn.
Context {B : Type} `{PipeBuffer B} (t : Transport).

(** ** Streams *)
Definition closeReqBodyLocked (cs : clientStream B) : clientStream B :=
  if cs_reqBodyClosed cs then cs else set_cs_reqBodyClosed true cs.

(** [abortOnce] keeps the first error. *)
Definition abortStreamLocked (err : error) (cs : clientStream B) : clientStream B :=
  let cs := if is_set (cs_abort cs) then cs else set_cs_abort (Some err) cs in
  if cs_reqBody cs then closeReqBodyLocked cs else cs.

Definition abortStream (id : Z) (err : error) : M B unit :=
  with_mu (modify_cs id (abortStreamLocked err)).

Definition abortRequestBodyWrite (id : Z) : M B unit :=
  with_mu (modify_cs id (fun cs =>
    if cs_reqBody cs && negb (cs_reqBodyClosed cs) then closeReqBodyLocked cs else cs)).

(** [cs.ID] of the stream at key [r]. *)
Definition ID_of (r : Z) : Z := if r <? 0 then 0 else r.

(** [addStreamLocked] (requires [cc.mu]): the stream at [r], without an ID,
    moves to its ID, which is the result. *)
Definition addStreamLocked (r : Z) : M B Z :=
  s <- get ;;
  cs <- get_cs r ;;
  let cs := set_cs_flow (fst (Outflow.add (cs_flow cs) (i32 (initialWindow s)))) cs in
  let cs := set_cs_inflow (Inflow.init (cs_inflow cs) transportDefaultStreamFlow) cs in
  let id := nextStreamID s in
  modify (fun s => set_nextStreamID (u32 (nextStreamID s + 2)) s) ;;
  modify (fun s => set_stream_objs (<[id := cs]> (delete r (stream_objs s))) s) ;;
  modify (fun s => set_streams ({[id]} ∪ streams s) s) ;;
  if id =? 0 then panic "assigned stream ID 0" else ret id.

(** [closeConn] closes the socket. *)
Definition closeConn : M B unit := modify (set_tconnClosed true).

Definition forgetStreamID (id : Z) : M B unit :=
  lock_mu ;;
  s <- get ;;
  let slen := size (streams s) in
  modify (fun s => set_streams (streams s ∖ {[id]}) s) ;;
  s <- get ;;
  if negb (Z.of_nat (size (streams s)) =? Z.of_nat slen - 1) then panic "forgetting unknown stream id" else
  modify (fun s =>
    if bool_decide (streams s = ∅) && negb (IdleConnTimeout t =? 0) then set_lastIdle (Some (clock s)) s else s) ;;
  s <- get ;;
  let closeOnIdle := singleUse s || doNotReuse s || DisableKeepAlives t || is_set (goAway s) in
  if closeOnIdle && (streamsReserved s =? 0) && bool_decide (streams s = ∅)
  then modify (set_closed true) ;; unlock_mu ;; closeConn
  else unlock_mu.

(** ** Can the connection take a request? *)

(** [tooIdleLocked]; [lastIdle] is the zero time until the first idle period. *)
Definition tooIdleLocked (s : ClientConn B) : bool :=
  negb (IdleConnTimeout t =? 0)
  && match lastIdle s with Some l => IdleConnTimeout t <? clock s - l | None => false end.

Definition idleStateLocked (s : ClientConn B) : bool :=
  if singleUse s && (1 <? nextStreamID s) then false else
  let maxConcurrentOkay :=
    if StrictMaxConcurrentStreams t then true
    else Z.of_nat (size (streams s)) + streamsReserved s + 1 <=? maxConcurrentStreams s in
  negb (is_set (goAway s)) && negb (closed s) && negb (closing s) && maxConcurrentOkay
  && negb (doNotReuse s)
  && (nextStreamID s + 2 * pendingRequests s <? 2147483647)
  && negb (tooIdleLocked s).

Definition canTakeNewRequestLocked (s : ClientConn B) : bool := idleStateLocked s.
Definition CanTakeNewRequest : M B bool := with_mu (s <- get ;; ret (canTakeNewRequestLocked s)).

Definition ReserveNewRequest : M B bool :=
  with_mu (
    s <- get ;;
    if negb (idleStateLocked s) then ret false else
    modify (fun s => set_streamsReserved (streamsReserved s + 1) s) ;; ret true).

Definition decrStreamReservationsLocked (s : ClientConn B) : ClientConn B :=
  if 0 <? streamsReserved s then set_streamsReserved (streamsReserved s - 1) s else s.
Definition decrStreamReservations : M B unit := with_mu (modify decrStreamReservationsLocked).

(** [awaitOpenSlotForStreamLocked] up to the point where it parks (or returns),
    and from the wake-up to the next loop iteration. *)
Definition awaitOpenSlotForStreamLocked : M B (option error) := fun s =>
  if closed s || negb (canTakeNewRequestLocked s) then Done (Some errClientConnUnusable) s else
  let s := set_lastIdle None s in
  if Z.of_nat (size (streams s)) <? maxConcurrentStreams s then Done None s
  else Parked (set_mu false (set_pendingRequests (pendingRequests s + 1) s)).
Definition awaitOpenSlot_wake (abortErr : option error) : M B (option error) :=
  lock_mu ;;
  modify (fun s => set_pendingRequests (pendingRequests s - 1) s) ;;
  match abortErr with
  | Some e => ret (Some e)
  | None => awaitOpenSlotForStreamLocked
  end.

(** The critical section of [writeRequest] that gives the stream at [r] its ID,
    from its start or, after parking, from the wake-up; [connClose] is
    [isConnectionCloseRequest(req)]. *)
Definition writeRequest_slot (r : Z) (connClose : bool) (slot : M B (option error)) : M B (result error Z) :=
  err <- slot ;;
  match err with
  | Some e => unlock_mu ;; ret (Err e)
  | None =>
      id <- addStreamLocked r ;;
      (if connClose then modify (set_doNotReuse true) else ret tt) ;;
      unlock_mu ;;
      ret (Ok id)
  end.
Definition writeRequest_open (r : Z) (connClose : bool) : M B (result error Z) :=
  writeRequest_slot r connClose
    (lock_mu ;; modify decrStreamReservationsLocked ;; awaitOpenSlotForStreamLocked).
Definition writeRequest_reopen (r : Z) (connClose : bool) (abortErr : option error) : M B (result error Z) :=
  writeRequest_slot r connClose (awaitOpenSlot_wake abortErr).

Definition SetDoNotReuse : M B unit := with_mu (modify (set_doNotReuse true)).

(** ** GOAWAY, shutdown and close *)
Definition setGoAway (f : goAwayFrame) : M B unit :=
  with_mu (
    s <- get ;;
    let old := goAway s in
    modify (fun s => if len (goAwayDebug s) =? 0 then set_goAwayDebug (ga_DebugData f) s else s) ;;
    let code := match old with
                | Some o => if negb (ga_ErrCode o =? ErrCodeNo) then ga_ErrCode o else ga_ErrCode f
                | None => ga_ErrCode f
                end in
    modify (set_goAway (Some (mkGoAway (ga_LastStreamID f) code (ga_DebugData f)))) ;;
    let last_ := ga_LastStreamID f in
    modify (for_streams (fun streamID cs =>
      if streamID <=? last_ then cs
      else if (streamID =? 1) && negb (code =? ErrCodeNo)
      then abortStreamLocked (errors_New ("http2: Transport received GOAWAY from server ErrCode:"
                                          +:+ ErrCode_String code)) cs
      else abortStreamLocked errClientConnGotGoAway cs))).

Definition closeIfIdle : M B unit :=
  lock_mu ;;
  s <- get ;;
  if negb (bool_decide (streams s = ∅)) || (0 <? streamsReserved s) then unlock_mu
  else modify (set_closed true) ;; unlock_mu ;; closeConn.
Definition onIdleTimeout : M B unit := closeIfIdle.

Definition sendGoAway : M B (option error) :=
  lock_mu ;;
  s <- get ;;
  let was_closing := closing s in
  modify (set_closing true) ;;
  let maxStreamID := nextStreamID s in
  unlock_mu ;;
  if was_closing then ret None else
  with_wmu (
    err <- write_frame (OpGoAway maxStreamID ErrCodeNo []) ;;
    if is_set err then ret err else flush).

(** The goroutine of [Shutdown] that waits for the streams: one evaluation of
    its loop. *)
Definition shutdown_wait : M B bool :=
  lock_mu ;;
  s <- get ;;
  if bool_decide (streams s = ∅) || closed s
  then modify (set_closed true) ;; unlock_mu ;; ret true
  else fun s => Parked (set_mu false s).

Definition closeForError (err : error) : M B unit :=
  lock_mu ;;
  modify (set_closed true) ;;
  modify (for_streams (fun _ => abortStreamLocked err)) ;;
  unlock_mu ;;
  closeConn.
Definition Close : M B unit :=
  closeForError (errors_New "http2: client connection force closed via ClientConn.Close").
Definition closeForLostPing : M B unit := closeForError (errors_New "http2: client connection lost").

(** [Ping] up to its select: register an unused payload (chosen by [rand]),
    then write the frame. The result says whether the payload was fresh. *)
Definition Ping_register (p : bytes) : M B bool :=
  with_mu (
    s <- get ;;
    if bool_decide (p ∈ pings s) then ret false
    else modify (fun s => set_pings ({[p]} ∪ pings s) s) ;; ret true).
Definition Ping_send (p : bytes) : M B (option error) :=
  with_wmu (err <- write_frame (OpPing false p) ;; if is_set err then ret err else flush).

(** ** Writing (requires [cc.wmu]) *)
Fixpoint writeHeaders_loop (fuel : nat) (streamID : Z) (endStream : bool) (maxFrameSize : Z)
    (hdrs : bytes) (first : bool) : M B bool :=
  match fuel with
  | O => ret false
  | S fuel =>
      s <- get ;;
      if negb (0 <? len hdrs) || is_set (werr s) then ret true else
      let chunk := if maxFrameSize <? len hdrs then slice_to hdrs maxFrameSize else hdrs in
      let hdrs := slice_from hdrs (len chunk) in
      let endHeaders := len hdrs =? 0 in
      (if first then write_frame (OpHeaders (mkHeadersFrameParam streamID chunk endStream endHeaders 0 (HeaderPriority t)))
       else write_frame (OpContinuation streamID endHeaders chunk)) ;;
      writeHeaders_loop fuel streamID endStream maxFrameSize hdrs false
  end.

(** [None]: the loop did not end within the fuel. *)
Definition writeHeaders (fuel : nat) (streamID : Z) (endStream : bool) (maxFrameSize : Z) (hdrs : bytes)
    : M B (option (option error)) :=
  done <- writeHeaders_loop fuel streamID endStream maxFrameSize hdrs true ;;
  if negb done then ret None else
  flush ;;
  s <- get ;;
  ret (Some (werr s)).

Definition writeStreamReset (streamID : Z) (code : ErrCode) : M B unit :=
  with_wmu (write_frame (OpRSTStream streamID code) ;; flush ;; ret tt).

(** [awaitFlowControl]: [ctx_err] and [canceled] are the states of [ctx.Done()]
    and [reqCancel]. A result is the tokens taken or an error; it parks when the
    window is empty. *)
Definition awaitFlowControl (id maxBytes : Z) (ctx_err : option error) (canceled : bool)
    : M B (Z * option error) :=
  lock_mu ;;
  s <- get ;;
  cs <- get_cs id ;;
  if closed s then unlock_mu ;; ret (0, Some errClientConnClosed) else
  if cs_reqBodyClosed cs then unlock_mu ;; ret (0, Some errStopReqBodyWrite) else
  if is_set (cs_abort cs) then unlock_mu ;; ret (0, cs_abort cs) else
  if is_set ctx_err then unlock_mu ;; ret (0, ctx_err) else
  if canceled then unlock_mu ;; ret (0, Some ErrRequestCanceled) else
  let a := Outflow.available (cs_flow cs) (Some (flow s)) in
  if 0 <? a then
    let take := a in
    let take := if maxBytes <? take then i32 maxBytes else take in
    let take := if i32 (peer_maxFrameSize s) <? take then i32 (peer_maxFrameSize s) else take in
    let* (n, c) := lift (Outflow.take (cs_flow cs) (Some (flow s)) take) in
    modify_cs id (set_cs_flow n) ;;
    modify (set_flow (default (flow s) c)) ;;
    unlock_mu ;;
    ret (take, None)
  else fun s => Parked (set_mu false s).

(** [cleanupWriteRequest] on the stream at [id], which may not have an ID yet.
    The wait for the request body to be closed is the end of [reqBody.Close]. *)
Definition cleanupWriteRequest (id : Z) (err : option error) : M B unit :=
  (if ID_of id =? 0 then decrStreamReservations else ret tt) ;;
  with_mu (modify_cs id (fun cs =>
    if cs_reqBody cs && negb (cs_reqBodyClosed cs) then set_cs_reqBodyClosed true cs else cs)) ;;
  cs <- get_cs id ;;
  let err := if is_set err && cs_sentEndStream cs && cs_peerClosed cs then None else err in
  match err with
  | Some e =>
      abortStream id e ;;
      (if cs_sentHeaders cs then
         match e with
         | StreamError _ Code Cause =>
             if negb (bool_decide (Cause = Some errFromPeer)) then writeStreamReset (ID_of id) Code else ret tt
         | _ => writeStreamReset (ID_of id) ErrCodeCancel
         end
       else ret tt) ;;
      cs <- get_cs id ;;
      p <- lift (CloseWithError (cs_bufPipe cs) (Some e)) ;;
      modify_cs id (set_cs_bufPipe p)
  | None =>
      (if cs_sentHeaders cs && negb (cs_sentEndStream cs) then writeStreamReset (ID_of id) ErrCodeNo else ret tt) ;;
      cs <- get_cs id ;;
      p <- lift (CloseWithError (cs_bufPipe cs) (Some ErrRequestCanceled)) ;;
      modify_cs id (set_cs_bufPipe p)
  end ;;
  (if negb (ID_of id =? 0) then forgetStreamID (ID_of id) else ret tt) ;;
  werr <- with_wmu (s <- get ;; ret (werr s)) ;;
  (if is_set werr then Close else ret tt) ;;
  modify_cs id (set_cs_donec true).
End Conn.
