(* ===== verification/H2ReadLoop.v ===== *)
(** * The read loop of a client connection ([src/internal/http2/transport.go])

    Every [process*] handler, the response builder and the body returned to the
    caller. The buffer of a response body is made by [newBuf] ([&dataBuffer{expected}]);
    [got1xx] is the trace hook for informational responses (nil: the constant
    [None]). Log lines, traces and the [CountError] callback are left out. *)

From S2P Require Import Prelude.
From S2P Require Import H2Errors.
From S2P Require Import Flow.
From S2P Require Import Pipe.
From S2P Require Import Frame.
From S2P Require Import FrameWrite.
From S2P Require Import Framer.
From S2P Require Import NetText.
From S2P Require Import ConnState.
From S2P Require Import H2Transport.
From S2P Require Import H2Conn.
Import ConnNotations.

(** The arguments of the handlers: a [MetaHeadersFrame] and a [DataFrame]. *)
Definition FrameStreamEnded (fh : FrameHeader) : bool := Flags_Has (fh_Flags fh) FlagHeadersEndStream.

Section ReadLoop.
Context {B : Type} `{PipeBuffer B} {D : Type} `{HpackDecoder D} (t : Transport)
  (newBuf : Z -> B) (got1xx : Z -> Header -> option error).

Definition streamByID (id : Z) : M B (option (clientStream B)) :=
  with_mu (
    s <- get ;;
    ret (match stream_objs s !! id with
         | Some cs => if bool_decide (id ∈ streams s) && negb (cs_readAborted cs) then Some cs else None
         | None => None
         end)).

Definition endStreamError (id : Z) (err : error) : M B unit :=
  modify_cs id (set_cs_readAborted true) ;;
  abortStream id err.

(** [close] of a channel that is closed panics. *)
Definition close_peerClosed (id : Z) : M B unit :=
  cs <- get_cs id ;;
  if cs_peerClosed cs then panic "close of closed channel" else modify_cs id (set_cs_peerClosed true).
Definition close_respHeaderRecv (id : Z) : M B unit :=
  cs <- get_cs id ;;
  if cs_respHeaderRecv cs then panic "close of closed channel"
  else modify_cs id (set_cs_respHeaderRecv true).

(** [endStream]; the deferred function [copyTrailers] is the [tt] stored in
    the pipe. *)
Definition endStream (id : Z) : M B unit :=
  cs <- get_cs id ;;
  if negb (cs_readClosed cs) then
    modify_cs id (set_cs_readClosed true) ;;
    with_mu (
      cs <- get_cs id ;;
      p <- lift (closeWithErrorAndCode (cs_bufPipe cs) (Some io_EOF) (Some tt)) ;;
      modify_cs id (set_cs_bufPipe p) ;;
      close_peerClosed id)
  else ret tt.

(** [copyTrailers]: the trailers read are added to [Response.Trailer], of the response
    [cs.resTrailer] points into; [None] is the panic of the nil pointer. *)
Definition copyTrailers (cs : clientStream B) : option (clientStream B) :=
  match cs_res cs with
  | None => if bool_decide (cs_trailer cs = ∅) then Some cs else None
  | Some res =>
      let add (tr : option Header) (kv : string * list string) : option Header :=
        Some (<[kv.1 := kv.2]> (default ∅ tr)) in
      Some (set_cs_res (Some (mkResponse (res_Status res) (res_StatusCode res) (res_Header res)
        (fold_left add (map_to_list (cs_trailer cs)) (res_Trailer res))
        (res_ContentLength res) (res_Body res) (res_Uncompressed res))) cs)
  end.
(** The deferred function as the pipe runs it. *)
Definition run_copyTrailers (id : Z) : M B unit :=
  cs <- get_cs id ;;
  match copyTrailers cs with
  | Some cs => modify_cs id (fun _ => cs)
  | None => panic "invalid memory address or nil pointer dereference"
  end.

(** ** Responses *)

(** The loop over the regular fields: the headers and the announced trailers. *)
Definition add_field (acc : Header * option Header) (hf : HeaderField) : Header * option Header :=
  let '(header, trailer) := acc in
  let key := canonicalHeader (hf_Name hf) in
  if String.eqb key "Trailer" then
    (header, Some (foreachHeaderElement (fun t v => <[canonicalHeader v := []]> t) (default ∅ trailer) (hf_Value hf)))
  else (Header_append header key (hf_Value hf), trailer).

(** The content length of a final response. *)
Definition responseContentLength (header : Header) (streamEnded isHead : bool) : Z :=
  match Header_values header "Content-Length" with
  | [v] => default (-1) (ParseUint v 63)
  | _ :: _ => -1
  | [] => if streamEnded && negb isHead then 0 else -1
  end.

(** [compress.NewCompressReader]: nil for an encoding it does not know. *)
Definition NewCompressReader (inner : body) (contentEncoding : string) : body :=
  if bool_decide (contentEncoding ∈ ["gzip"; "deflate"; "br"; "zstd"]%string)
  then CompressReader contentEncoding inner else BodyNil.

(** What [handleResponse] returns: a response, nothing (1xx), or an error. *)
Definition handleResponse (id : Z) (fh : FrameHeader) (fields : list HeaderField) (truncated : bool)
    : M B (result error (option response)) :=
  if truncated then ret (Err errResponseHeaderListSize) else
  let status := Reader.PseudoValue fields "status" in
  if String.eqb status "" then
    ret (Err (errors_New "malformed response from server: missing status pseudo header")) else
  match Atoi status with
  | None => ret (Err (errors_New "malformed response from server: malformed non-numeric status pseudo header"))
  | Some statusCode =>
      let '(header, trailer) := fold_left add_field (Reader.RegularFields fields) (∅, None) in
      cs <- get_cs id ;;
      if (100 <=? statusCode) && (statusCode <=? 199) then
        if FrameStreamEnded fh then ret (Err (errors_New "1xx informational response with END_STREAM flag")) else
        let num1xx := u8 (cs_num1xx cs + 1) in
        modify_cs id (set_cs_num1xx num1xx) ;;
        if 5 <? num1xx then ret (Err (errors_New "http2: too many 1xx informational responses")) else
        match got1xx statusCode header with
        | Some e => ret (Err e)
        | None =>
            (if statusCode =? 100 then modify_cs id (set_cs_on100 true) else ret tt) ;;
            modify_cs id (set_cs_pastHeaders false) ;;
            ret (Ok None)
        end
      else
        let cl := responseContentLength header (FrameStreamEnded fh) (cs_isHead cs) in
        let statusText := status +:+ " " +:+ StatusText statusCode in
        let res := mkResponse statusText statusCode header trailer in
        if cs_isHead cs then ret (Ok (Some (res cl noBody false))) else
        if FrameStreamEnded fh
        then ret (Ok (Some (res cl (if 0 <? cl then missingBody else noBody) false))) else
        modify_cs id (fun cs => set_cs_bufPipe (setBuffer (cs_bufPipe cs) (newBuf cl)) cs) ;;
        modify_cs id (set_cs_bytesRemain cl) ;;
        let plain h := Header_Del (Header_Del h "Content-Encoding") "Content-Length" in
        if cs_requestedGzip cs && EqualFold (Header_Get header "Content-Encoding") "gzip" then
          ret (Ok (Some (mkResponse statusText statusCode (plain header) trailer (-1)
                           (GzipReader transportResponseBody) true)))
        else if AutoDecompression t then
          let contentEncoding := Header_Get header "Content-Encoding" in
          if negb (String.eqb contentEncoding "") then
            ret (Ok (Some (mkResponse statusText statusCode (plain header) trailer (-1)
                             (NewCompressReader transportResponseBody contentEncoding) true)))
          else ret (Ok (Some (res cl transportResponseBody false)))
        else ret (Ok (Some (res cl transportResponseBody false)))
  end.

Definition processTrailers (id : Z) (fh : FrameHeader) (fields : list HeaderField) : M B (option error) :=
  cs <- get_cs id ;;
  if cs_pastTrailers cs then ret (Some (ConnectionError ErrCodeProtocol)) else
  modify_cs id (set_cs_pastTrailers true) ;;
  if negb (FrameStreamEnded fh) then ret (Some (ConnectionError ErrCodeProtocol)) else
  if 0 <? len (Reader.PseudoFields fields) then ret (Some (ConnectionError ErrCodeProtocol)) else
  let trailer := fold_left (fun (tr : Header) hf => Header_append tr (canonicalHeader (hf_Name hf)) (hf_Value hf))
                   (Reader.RegularFields fields) ∅ in
  modify_cs id (set_cs_trailer trailer) ;;
  endStream id ;;
  ret None.

Definition processHeaders (fh : FrameHeader) (fields : list HeaderField) (truncated : bool)
    : M B (option error) :=
  let id := fh_StreamID fh in
  cs <- streamByID id ;;
  match cs with
  | None => ret None
  | Some cs =>
      if cs_readClosed cs then
        endStreamError id (StreamError id ErrCodeProtocol
          (Some (errors_New "protocol error: headers after END_STREAM"))) ;;
        ret None
      else
        modify_cs id (set_cs_firstByte true) ;;
        if cs_pastHeaders cs then processTrailers id fh fields else
        modify_cs id (set_cs_pastHeaders true) ;;
        r <- handleResponse id fh fields truncated ;;
        match r with
        | Err (ConnectionError c) => ret (Some (ConnectionError c))
        | Err e => endStreamError id (StreamError id ErrCodeProtocol (Some e)) ;; ret None
        | Ok None => ret None
        | Ok (Some res) =>
            modify_cs id (set_cs_res (Some res)) ;;
            close_respHeaderRecv id ;;
            (if FrameStreamEnded fh then endStream id else ret tt) ;;
            ret None
        end
  end.

(** ** DATA *)

(** A WINDOW_UPDATE for each non-zero refund, then a flush. *)
Definition sendWindowUpdates (id connAdd streamAdd : Z) : M B unit :=
  if (0 <? connAdd) || (0 <? streamAdd) then
    with_wmu (
      (if 0 <? connAdd then write_frame (OpWindowUpdate 0 connAdd) ;; ret tt else ret tt) ;;
      (if 0 <? streamAdd then write_frame (OpWindowUpdate id streamAdd) ;; ret tt else ret tt) ;;
      flush ;; ret tt)
  else ret tt.

(** The part of [processData] for a frame with a length, on an open stream;
    the boolean is whether [processData] goes on to the END_STREAM flag. *)
Definition processData_window (id : Z) (fh : FrameHeader) (data : bytes) : M B (option error * bool) :=
  lock_mu ;;
  s <- get ;;
  cs <- get_cs id ;;
  let '(cin, sin, ok) := Inflow.takeInflows (cc_inflow s) (cs_inflow cs) (fh_Length fh) in
  modify (set_cc_inflow cin) ;;
  modify_cs id (set_cs_inflow sin) ;;
  if negb ok then unlock_mu ;; ret (Some (ConnectionError ErrCodeFlowControl), false) else
  let pad := fh_Length fh - len data in
  let refund := if 0 <? pad then pad else 0 in
  werr <- (if 0 <? len data then
             match pipe_Write (cs_bufPipe cs) data with
             | None => panic "runtime error: dataBuffer"
             | Some (p, _, e) => modify_cs id (set_cs_bufPipe p) ;; ret e
             end
           else ret None) ;;
  let refund := if is_set werr then refund + len data else refund in
  s <- get ;;
  let* (cin, sendConn) := lift (Inflow.add (cc_inflow s) refund) in
  modify (set_cc_inflow cin) ;;
  cs <- get_cs id ;;
  sendStream <- (if is_set werr then ret 0 else
                   let* (sin, a) := lift (Inflow.add (cs_inflow cs) refund) in
                   modify_cs id (set_cs_inflow sin) ;; ret a) ;;
  unlock_mu ;;
  sendWindowUpdates id sendConn sendStream ;;
  match werr with
  | Some e => endStreamError id e ;; ret (None, false)
  | None => ret (None, true)
  end.

(** DATA on a stream the connection does not know: flow control is returned. *)
Definition processData_unknown (fh : FrameHeader) : M B (option error) :=
  s <- with_mu get ;;
  if nextStreamID s <=? fh_StreamID fh then ret (Some (ConnectionError ErrCodeProtocol)) else
  if 0 <? fh_Length fh then
    lock_mu ;;
    s <- get ;;
    let '(cin, ok) := Inflow.take (cc_inflow s) (fh_Length fh) in
    let* (cin, connAdd) := lift (Inflow.add cin (fh_Length fh)) in
    modify (set_cc_inflow cin) ;;
    unlock_mu ;;
    if negb ok then ret (Some (ConnectionError ErrCodeFlowControl)) else
    sendWindowUpdates 0 connAdd 0 ;;
    ret None
  else ret None.

Definition processData (fh : FrameHeader) (data : bytes) : M B (option error) :=
  let id := fh_StreamID fh in
  cs <- streamByID id ;;
  match cs with
  | None => processData_unknown fh
  | Some cs =>
      let protocol_error := endStreamError id (streamError id ErrCodeProtocol) ;; ret None in
      if cs_readClosed cs then protocol_error else
      if negb (cs_pastHeaders cs) then protocol_error else
      if (0 <? fh_Length fh) && cs_isHead cs && (0 <? len data) then protocol_error else
      let* (err, go) := if 0 <? fh_Length fh then processData_window id fh data else ret (None, true) in
      if go then (if FrameStreamEnded fh then endStream id else ret tt) ;; ret None
      else ret err
  end.

(** ** Control frames *)
Definition processGoAway (f : goAwayFrame) : M B (option error) :=
  modify (set_markedDead true) ;;
  setGoAway f ;;
  ret None.

(** One setting of the peer; the boolean records MAX_CONCURRENT_STREAMS. *)
Definition apply_setting (acc : ClientConn B * bool) (s : Setting) : (ClientConn B * bool) * option error :=
  let '(cc, seen) := acc in
  if S_ID s =? SettingMaxFrameSize then (set_peer_maxFrameSize (S_Val s) cc, seen, None)
  else if S_ID s =? SettingMaxConcurrentStreams then (set_maxConcurrentStreams (S_Val s) cc, true, None)
  else if S_ID s =? SettingMaxHeaderListSize then (set_peerMaxHeaderListSize (S_Val s) cc, seen, None)
  else if S_ID s =? SettingInitialWindowSize then
    if 2147483647 <? S_Val s then (cc, seen, Some (ConnectionError ErrCodeFlowControl)) else
    let delta := i32 (i32 (S_Val s) - i32 (initialWindow cc)) in
    let cc := for_streams (fun _ cs => set_cs_flow (fst (Outflow.add (cs_flow cs) delta)) cs) cc in
    (set_initialWindow (S_Val s) cc, seen, None)
  else (acc, None).

Definition processSettingsNoWrite (fh : FrameHeader) (p : bytes) : M B (option error) :=
  with_mu (
    s <- get ;;
    if SettingsFrame_IsAck fh then
      if wantSettingsAck s then modify (set_wantSettingsAck false) ;; ret None
      else ret (Some (ConnectionError ErrCodeProtocol))
    else
      let* ((cc, seen), err) := lift (SettingsFrame_ForeachSetting fh p apply_setting (s, false)) in
      modify (fun _ => cc) ;;
      if is_set err then ret err else
      modify (fun s =>
        if negb (seenSettings s) then
          set_seenSettings true (if negb seen then set_maxConcurrentStreams defaultMaxConcurrentStreams s else s)
        else s) ;;
      ret None).

Definition processSettings (fh : FrameHeader) (p : bytes) : M B (option error) :=
  with_wmu (
    err <- processSettingsNoWrite fh p ;;
    if is_set err then ret err else
    (if negb (SettingsFrame_IsAck fh) then write_frame OpSettingsAck ;; flush ;; ret tt else ret tt) ;;
    ret None).

(** [processWindowUpdate]: [cc.mu] is held while [endStreamError] runs. *)
Definition processWindowUpdate (fh : FrameHeader) (inc : Z) : M B (option error) :=
  let id := fh_StreamID fh in
  cs <- streamByID id ;;
  if negb (id =? 0) && negb (is_set cs) then ret None else
  with_mu (
    s <- get ;;
    match cs with
    | Some _ =>
        cs <- get_cs id ;;
        let '(n, ok) := Outflow.add (cs_flow cs) (i32 inc) in
        modify_cs id (set_cs_flow n) ;;
        if negb ok then endStreamError id (streamError id ErrCodeFlowControl) ;; ret None else ret None
    | None =>
        let '(n, ok) := Outflow.add (flow s) (i32 inc) in
        modify (set_flow n) ;;
        if negb ok then ret (Some (ConnectionError ErrCodeFlowControl)) else ret None
    end).

Definition processResetStream (fh : FrameHeader) (code : ErrCode) : M B (option error) :=
  let id := fh_StreamID fh in
  cs <- streamByID id ;;
  match cs with
  | None => ret None
  | Some _ =>
      let serr := StreamError id code (Some errFromPeer) in
      (if code =? ErrCodeProtocol then SetDoNotReuse else ret tt) ;;
      abortStream id serr ;;
      cs <- get_cs id ;;
      p <- lift (CloseWithError (cs_bufPipe cs) (Some serr)) ;;
      modify_cs id (set_cs_bufPipe p) ;;
      ret None
  end.

Definition processPing (fh : FrameHeader) (data : bytes) : M B (option error) :=
  if PingFrame_IsAck fh then
    with_mu (
      s <- get ;;
      (if bool_decide (data ∈ pings s) then
         modify (fun s => set_pings_acked ({[data]} ∪ pings_acked s) s) ;;
         modify (fun s => set_pings (pings s ∖ {[data]}) s)
       else ret tt) ;;
      ret None)
  else
    with_wmu (
      err <- write_frame (OpPing true data) ;;
      if is_set err then ret err else flush).

Definition processPushPromise : M B (option error) := ret (Some (ConnectionError ErrCodeProtocol)).

(** ** The loop *)

(** What [run] does with one result of [ReadFrame]: go on, or return. The
    error detail of the framer completes a stream error without a cause. *)
Definition run_step (gotSettings : bool) (f : option Frame) (err : option error) (errDetail : option error)
    : M B (bool * option error) :=
  match err with
  | Some (StreamError sid code cause) =>
      cs <- streamByID sid ;;
      (if is_set cs then
         endStreamError sid (StreamError sid code (if is_set cause then cause else errDetail))
       else ret tt) ;;
      ret (gotSettings, None)
  | Some e => ret (gotSettings, Some e)
  | None =>
      match f with
      | None => panic "invalid memory address or nil pointer dereference"
      | Some f =>
          if negb gotSettings && negb (match f with SettingsFrame _ _ => true | _ => false end)
          then ret (gotSettings, Some (ConnectionError ErrCodeProtocol)) else
          err <- match f with
                 | MetaHeadersFrame h _ fields tr => processHeaders h fields tr
                 | DataFrame h d => processData h d
                 | GoAwayFrame h lst code debug => processGoAway (mkGoAway lst code debug)
                 | RSTStreamFrame h code => processResetStream h code
                 | SettingsFrame h p => processSettings h p
                 | PushPromiseFrame _ _ _ => processPushPromise
                 | WindowUpdateFrame h inc => processWindowUpdate h inc
                 | PingFrame h d => processPing h d
                 | _ => ret None
                 end ;;
          ret (true, err)
      end
  end.

(** [run] on the sequence of results [ReadFrame] gives; [None] while it is
    still running when the sequence ends. *)
Fixpoint run (gotSettings : bool) (reads : list (option Frame * option error * option error))
    : M B (option error) :=
  match reads with
  | [] => ret None
  | (f, err, detail) :: reads =>
      let* (got, e) := run_step gotSettings f err detail in
      if is_set e then ret e else run got reads
  end.

(** The error [cleanup] gives to the streams that are still open. *)
Definition cleanup_error (readerErr : option error) (s : ClientConn B) : option error :=
  match goAway s with
  | Some g => if isEOFOrNetReadError readerErr
              then Some (GoAwayError (ga_LastStreamID g) (ga_ErrCode g) (goAwayDebug s))
              else if bool_decide (readerErr = Some io_EOF) then Some io_ErrUnexpectedEOF
              else readerErr
  | None => if bool_decide (readerErr = Some io_EOF) then Some io_ErrUnexpectedEOF else readerErr
  end.

(** The deferred [cleanup] of the read loop, with the error of [run]. *)
Definition cleanup (readerErr : option error) : M B unit :=
  modify (set_markedDead true) ;;
  lock_mu ;;
  s <- get ;;
  let err := cleanup_error readerErr s in
  modify (set_closed true) ;;
  modify (for_streams (fun _ cs =>
    if cs_peerClosed cs then cs
    else match err with Some e => abortStreamLocked e cs | None => cs end)) ;;
  unlock_mu ;;
  closeConn.

(** [readLoop] after [run] returned [err]. *)
Definition readLoop_end (err : option error) : M B unit :=
  (match err with
   | Some (ConnectionError c) => with_wmu (write_frame (OpGoAway 0 c []) ;; ret tt)
   | _ => ret tt
   end) ;;
  cleanup err.

Definition readLoop (reads : list (option Frame * option error * option error)) : M B unit :=
  err <- run false reads ;;
  readLoop_end err.

(** ** The response body *)
Definition body_Read (id room : Z) : M B (bytes * option error) :=
  cs <- get_cs id ;;
  if is_set (cs_readErr cs) then ret ([], cs_readErr cs) else
  match pipe_Read (cs_bufPipe cs) room with
  | RWait => fun s => Parked s
  | RPanic => panic "runtime error: dataBuffer"
  | RRet p d err ran =>
      modify_cs id (set_cs_bufPipe p) ;;
      (if is_set ran then run_copyTrailers id else ret tt) ;;
      let remain := cs_bytesRemain cs in
      let n := len d in
      if negb (remain =? -1) && (remain <? n) then
        let err' := if is_set err then err
                    else Some (errors_New "net/http: server replied with more than declared Content-Length; truncated") in
        (match err, err' with None, Some e => abortStream id e | _, _ => ret tt end) ;;
        modify_cs id (set_cs_readErr err') ;;
        ret (slice_to d remain, err')
      else
        (if negb (remain =? -1) then modify_cs id (set_cs_bytesRemain (remain - n)) else ret tt) ;;
        if negb (remain =? -1) && bool_decide (err = Some io_EOF) && (0 <? remain - n) then
          modify_cs id (set_cs_readErr (Some io_ErrUnexpectedEOF)) ;;
          ret (d, Some io_ErrUnexpectedEOF)
        else if n =? 0 then ret (d, err) else
        lock_mu ;;
        s <- get ;;
        let* (cin, connAdd) := lift (Inflow.add (cc_inflow s) n) in
        modify (set_cc_inflow cin) ;;
        cs <- get_cs id ;;
        streamAdd <- (if is_set err then ret 0 else
                        let* (sin, a) := lift (Inflow.add (cs_inflow cs) n) in
                        modify_cs id (set_cs_inflow sin) ;; ret a) ;;
        unlock_mu ;;
        (if negb (connAdd =? 0) || negb (streamAdd =? 0) then
           with_wmu (
             (if negb (connAdd =? 0) then
                match mustUint31 connAdd with
                | Some v => write_frame (OpWindowUpdate 0 v) ;; ret tt
                | None => panic "out of range"
                end
              else ret tt) ;;
             (if negb (streamAdd =? 0) then
                match mustUint31 streamAdd with
                | Some v => write_frame (OpWindowUpdate (ID_of id) v) ;; ret tt
                | None => panic "out of range"
                end
              else ret tt) ;;
             flush ;; ret tt)
         else ret tt) ;;
        ret (d, err)
  end.

(** [Close], up to the final wait for the stream to be done. *)
Definition body_Close (id : Z) : M B unit :=
  cs <- get_cs id ;;
  p <- lift (BreakWithError (cs_bufPipe cs) (Some errClosedResponseBody)) ;;
  modify_cs id (set_cs_bufPipe p) ;;
  abortStream id errClosedResponseBody ;;
  cs <- get_cs id ;;
  let unread := pipe_Len (cs_bufPipe cs) in
  if 0 <? unread then
    lock_mu ;;
    s <- get ;;
    let* (cin, connAdd) := lift (Inflow.add (cc_inflow s) unread) in
    modify (set_cc_inflow cin) ;;
    unlock_mu ;;
    with_wmu (
      (if 0 <? connAdd then write_frame (OpWindowUpdate 0 connAdd) ;; ret tt else ret tt) ;;
      flush ;; ret tt)
  else ret tt.
End ReadLoop.
