(* ===== verification/H2Safe.v ===== *)
(** * Safety of the client connection

    The invariant of a connection ([cinv]) and, operation by operation, that
    the code of [H2Conn] and [H2ReadLoop] started in a state that satisfies it
    neither panics nor blocks on its own mutexes, and leaves a state that
    satisfies it. The core of the invariant is the flow-control budget: the
    receive window of the connection plus what is owed to it plus every byte
    buffered for the application never exceeds the protocol's maximum, so that
    no later refund can overflow it. *)

From S2P Require Import Prelude.
From S2P Require Import H2Errors.
From S2P Require Import Flow.
From S2P Require Import Pipe.
From S2P Require Import Frame.
From S2P Require Import FrameWrite.
From S2P Require Import Framer.
From S2P Require Import NetText.
From S2P Require Import ConnState.
From S2P Require Import H2Transport.
From S2P Require Import H2Conn.
From S2P Require Import H2ReadLoop.
Import ConnNotations.

(** ** Reasoning about the monad *)
Section Wp.
Context {B : Type}.

(** [wp R m Q s]: run from [s], [m] ends normally in [Q], or parks in [R];
    it neither panics nor deadlocks. *)
Definition wp (R : ClientConn B -> Prop) {A} (m : M B A) (Q : A -> ClientConn B -> Prop)
    (s : ClientConn B) : Prop :=
  match m s with
  | Done a s' => Q a s'
  | Parked s' => R s'
  | Panicked _ | Deadlock => False
  end.

Lemma wp_ret R {A} (a : A) Q s : Q a s -> wp R (ret a) Q s.
Proof. done. Qed.
Lemma wp_bind R {A C} (m : M B A) (k : A -> M B C) Q s :
  wp R m (fun a s' => wp R (k a) Q s') s -> wp R (bind m k) Q s.
Proof. unfold wp, bind. by destruct (m s). Qed.
Lemma wp_mono R {A} (m : M B A) (Q Q' : A -> ClientConn B -> Prop) s :
  (forall a s', Q a s' -> Q' a s') -> wp R m Q s -> wp R m Q' s.
Proof. unfold wp. destruct (m s); auto. Qed.
Lemma wp_get R Q s : Q s s -> wp R get Q s.
Proof. done. Qed.
Lemma wp_modify R f Q s : Q tt (f s) -> wp R (modify f) Q s.
Proof. done. Qed.
Lemma wp_lock_mu R Q s : mu s = false -> Q tt (set_mu true s) -> wp R lock_mu Q s.
Proof. unfold wp, lock_mu. by intros ->. Qed.
Lemma wp_unlock_mu R Q s : Q tt (set_mu false s) -> wp R unlock_mu Q s.
Proof. done. Qed.
Lemma wp_lock_wmu R Q s : wmu s = false -> Q tt (set_wmu true s) -> wp R lock_wmu Q s.
Proof. unfold wp, lock_wmu. by intros ->. Qed.
Lemma wp_with_mu R {A} (m : M B A) Q s : mu s = false ->
  wp R m (fun a s' => Q a (set_mu false s')) (set_mu true s) -> wp R (with_mu m) Q s.
Proof.
  intros Hm Hw. unfold with_mu. apply wp_bind, wp_lock_mu; [done|]. apply wp_bind.
  eapply wp_mono; [|exact Hw]. intros a s' Hq. done.
Qed.
Lemma wp_with_wmu R {A} (m : M B A) Q s : wmu s = false ->
  wp R m (fun a s' => Q a (set_wmu false s')) (set_wmu true s) -> wp R (with_wmu m) Q s.
Proof.
  intros Hm Hw. unfold with_wmu. apply wp_bind, wp_lock_wmu; [done|]. apply wp_bind.
  eapply wp_mono; [|exact Hw]. intros a s' Hq. done.
Qed.
Lemma wp_get_cs R id cs Q s : stream_objs s !! id = Some cs -> Q cs s -> wp R (get_cs id) Q s.
Proof. unfold wp, get_cs. by intros ->. Qed.
Lemma wp_modify_cs R id f Q s :
  Q tt (set_stream_objs (alter f id (stream_objs s)) s) -> wp R (modify_cs id f) Q s.
Proof. done. Qed.
Lemma wp_lift R {A} (r : result string A) a Q s : r = Ok a -> Q a s -> wp R (lift r) Q s.
Proof. by intros ->. Qed.
Lemma wp_flush R Q s : Q (werr s) s -> wp R flush Q s.
Proof. done. Qed.
Lemma wp_write_frame R o (Q : option error -> ClientConn B -> Prop) s :
  (forall e, Q (Some e) s) -> Q None (set_wire (wire s ++ [o]) s) -> wp R (write_frame o) Q s.
Proof.
  intros He Hn. unfold wp, write_frame. destruct (werr s); [apply He|].
  destruct (snd _); [apply He|apply Hn].
Qed.
End Wp.

(** ** Pipes *)
Section PipeFacts.
Context {B : Type} `{PipeBufferOk B}.
Implicit Types p : pipe B unit.

Definition pipe_ok p : Prop :=
  (forall b, p_b p = Some b -> pb_inv b)
  /\ (p_breakErr p <> None -> p_b p = None)
  /\ (p_breakErr p = None -> p_unread p = 0)
  /\ 0 <= p_unread p.

Lemma pipe_ok_open p : (forall b, p_b p = Some b -> pb_inv b) -> p_breakErr p = None -> p_unread p = 0 ->
  pipe_ok p.
Proof. intros Hb Hbr Hu. split_and!; [done| |done|lia]. by rewrite Hbr. Qed.

(** Bytes buffered and not yet given up. *)
Definition held_pipe p : Z := if is_set (p_breakErr p) then 0 else pipe_Len p.

Lemma pipe_Len_nonneg p : pipe_ok p -> 0 <= pipe_Len p.
Proof.
  intros (Hb & _ & _ & Hu). unfold pipe_Len. destruct (p_b p) as [b|]; [|done].
  rewrite pb_Len_ok by auto. apply len_nonneg.
Qed.

Lemma held_nonneg p : pipe_ok p -> 0 <= held_pipe p.
Proof. unfold held_pipe. destruct (is_set _); [lia|apply pipe_Len_nonneg]. Qed.

Lemma pipe_Write_ok p d : pipe_ok p ->
  exists p' n e, pipe_Write p d = Some (p', n, e) /\ pipe_ok p'
    /\ held_pipe p' = held_pipe p + (if is_set e then 0 else len d)
    /\ p_err p' = p_err p /\ p_breakErr p' = p_breakErr p.
Proof.
  intros Hok. pose proof Hok as (Hb & Hbr & Hu & Hn). unfold pipe_Write.
  case_eq (is_set (p_err p) || is_set (p_breakErr p)); intros Ec.
  { eexists _, _, _. split; [reflexivity|]. cbn. split; [done|]. split; [lia|done]. }
  apply orb_false_iff in Ec as [_ Ec]. assert (p_breakErr p = None) as Ebr by (by destruct (p_breakErr p)).
  destruct (p_b p) as [b|] eqn:Eb.
  2:{ eexists _, _, _. split; [reflexivity|]. cbn. split; [done|]. split; [lia|done]. }
  destruct (pb_Write_ok b d (Hb _ eq_refl)) as (b' & -> & Hinv & Hc).
  eexists _, _, _. split; [reflexivity|]. split; [|split; [|done]].
  - apply pipe_ok_open; cbn; auto. by intros ? [= <-].
  - unfold held_pipe, pipe_Len. cbn. rewrite Ebr, Eb. cbn. rewrite !pb_Len_ok by auto.
    by rewrite Hc, len_app.
Qed.

Lemma pipe_close_ok p e fn : pipe_ok p ->
  exists p', closeWithErrorAndCode p (Some e) fn = Ok p' /\ pipe_ok p' /\ held_pipe p' = held_pipe p.
Proof.
  intros Hok. unfold closeWithErrorAndCode. destruct (is_set (p_err p)); [by eexists|].
  eexists. split; [reflexivity|]. unfold closeDoneLocked; cbn.
  destruct (p_donec p); done.
Qed.

Lemma pipe_break_ok p e : pipe_ok p ->
  exists p', BreakWithError p (Some e) = Ok p' /\ pipe_ok p' /\ held_pipe p' = 0
    /\ p_breakErr p' <> None /\ pipe_Len p' = pipe_Len p.
Proof.
  intros Hok. pose proof (pipe_Len_nonneg p Hok) as Hl. pose proof Hok as (Hb & Hbr & Hu & Hn).
  unfold BreakWithError. destruct (p_breakErr p) eqn:Ebr; cbn.
  { eexists. split; [reflexivity|]. split; [done|]. unfold held_pipe. rewrite Ebr. done. }
  specialize (Hu eq_refl). unfold pipe_Len in Hl.
  eexists. split; [reflexivity|]. unfold closeDoneLocked; cbn.
  assert (0 <= match p_b p with Some b => p_unread p + pb_Len b | None => p_unread p end) as Hnn
    by (destruct (p_b p); lia).
  assert (match p_b p with Some b => p_unread p + pb_Len b | None => p_unread p end = pipe_Len p) as Hlen
    by (unfold pipe_Len; destruct (p_b p); lia).
  destruct (p_donec p); (split; [|split; [done|split; [done|done]]]); split; cbn; done.
Qed.

Lemma pipe_setBuffer_ok p b : pipe_ok p -> pb_inv b -> pb_contents b = [] ->
  pipe_ok (setBuffer p b) /\ held_pipe (setBuffer p b) <= held_pipe p.
Proof.
  intros Hok Hb Hc. pose proof (held_nonneg p Hok). unfold setBuffer.
  case_eq (is_set (p_err p) || is_set (p_breakErr p)); intros Ec; [done|].
  apply orb_false_iff in Ec as [_ Ec]. assert (p_breakErr p = None) as Ebr by (by destruct (p_breakErr p)).
  destruct Hok as (_ & _ & Hu & Hn). split.
  - apply pipe_ok_open; cbn; auto. by intros ? [= <-].
  - unfold held_pipe at 1, pipe_Len. cbn. rewrite Ebr. cbn. by rewrite pb_Len_ok, Hc.
Qed.

(** A read of well-formed data: never a panic, and the bytes read leave the
    buffer. *)
Lemma pipe_Read_ok p room : pipe_ok p -> 0 <= room ->
  match pipe_Read p room with
  | RRet p' d e ran => pipe_ok p' /\ held_pipe p' + len d <= held_pipe p
      /\ (p_breakErr p' = p_breakErr p) /\ (is_set e = true -> d = [])
  | RWait => True
  | RPanic => False
  end.
Proof.
  intros Hok Hroom. pose proof (held_nonneg p Hok) as Hh. pose proof Hok as (Hb & Hbr & Hu & Hn).
  unfold pipe_Read. destruct (p_breakErr p) as [e0|] eqn:Ebr.
  { rewrite len_nil. split; [done|]. split; [lia|done]. }
  specialize (Hu eq_refl).
  assert (forall err, pipe_ok (mkPipe None (p_unread p) err None (p_donec p) None : pipe B unit)
          /\ held_pipe (mkPipe None (p_unread p) err None (p_donec p) None : pipe B unit) = 0) as Hend.
  { intros err. split; [by apply pipe_ok_open|]. unfold held_pipe, pipe_Len. cbn. lia. }
  destruct (p_b p) as [b|] eqn:Eb.
  - specialize (Hb b eq_refl). rewrite pb_Len_ok by done.
    destruct (Z.ltb_spec 0 (len (pb_contents b))) as [Hpos|].
    + destruct (pb_Read_ok b room Hb Hroom) as (b' & -> & Hinv & Hc); [by intros E; rewrite E in Hpos|].
      split; [|split; [|done]].
      * apply pipe_ok_open; cbn; auto. by intros ? [= <-].
      * unfold held_pipe, pipe_Len. cbn. rewrite Ebr, Eb. cbn.
        rewrite !pb_Len_ok by done. rewrite Hc.
        pose proof (slice_to_from (pb_contents b) room) as E. apply (f_equal len) in E.
        rewrite len_app in E. lia.
    + destruct (p_err p); [|done]. rewrite len_nil. destruct (Hend (Some e)) as [Ho1 Ho2].
      split; [done|]. rewrite Ho2. split; [lia|done].
  - destruct (p_err p); [|done]. rewrite len_nil. destruct (Hend (Some e)) as [Ho1 Ho2].
    split; [done|]. rewrite Ho2. split; [lia|done].
Qed.
End PipeFacts.

(** ** The invariant *)
Section Invariant.
Context {B : Type} `{PipeBufferOk B}.
Implicit Types s : ClientConn B.
Implicit Types cs : clientStream B.

(** A receive window; less than [inflowMinRefresh] is ever held back. *)
Definition inflow_ok (f : inflow) : Prop :=
  0 <= Inflow.avail f /\ 0 <= Inflow.unsent f < inflowMinRefresh.

Definition total (f : inflow) : Z := Inflow.avail f + Inflow.unsent f.

Lemma inflow_add_ok f n : inflow_ok f -> 0 <= n -> total f + n <= maxWindow ->
  exists f' a, Inflow.add f n = Ok (f', a) /\ inflow_ok f' /\ total f' = total f + n /\ 0 <= a <= maxWindow.
Proof.
  unfold inflow_ok, total. intros (Ha & Hu & Hm) Hn Hfit.
  destruct (Inflow.add_ok f n) as (f' & a & Heq & (Ha' & Hu' & Hs') & Hsum & Hav & Hpos & Hheld);
    [unfold Inflow.ok; lia|done|done|].
  exists f', a. split; [done|]. unfold inflowMinRefresh in *. change (Z.shiftl 4 10) with 4096 in *. lia.
Qed.

Definition cs_held cs : Z := held_pipe (cs_bufPipe cs).

Definition cs_ok cs : Prop :=
  pipe_ok (cs_bufPipe cs)
  /\ inflow_ok (cs_inflow cs)
  /\ total (cs_inflow cs) + cs_held cs <= maxWindow
  /\ is_i32 (cs_flow cs)
  /\ cs_readClosed cs = cs_peerClosed cs
  /\ (cs_respHeaderRecv cs = true -> cs_pastHeaders cs = true)
  /\ -1 <= cs_bytesRemain cs.

Definition held_sum (objs : gmap Z (clientStream B)) : Z :=
  map_fold (fun _ cs n => cs_held cs + n) 0 objs.

Lemma held_sum_insert objs i cs : objs !! i = None ->
  held_sum (<[i := cs]> objs) = cs_held cs + held_sum objs.
Proof. intros. unfold held_sum. rewrite map_fold_insert_L; [done| |done]. intros. lia. Qed.

Lemma held_sum_delete objs i cs : objs !! i = Some cs ->
  held_sum objs = cs_held cs + held_sum (delete i objs).
Proof. intros. unfold held_sum. rewrite (map_fold_delete_L _ _ i cs); [done| |done]. intros. lia. Qed.

Lemma held_sum_alter objs i cs f : objs !! i = Some cs ->
  held_sum (alter f i objs) = held_sum objs - cs_held cs + cs_held (f cs).
Proof.
  intros Hi. rewrite (held_sum_delete objs i cs Hi).
  rewrite (held_sum_delete (alter f i objs) i (f cs)) by by rewrite lookup_alter_eq, Hi.
  rewrite delete_alter_eq. lia.
Qed.

Lemma held_sum_imap (f : Z -> clientStream B -> clientStream B) objs :
  (forall i cs, objs !! i = Some cs -> cs_held (f i cs) = cs_held cs) ->
  held_sum (map_imap (fun i cs => Some (f i cs)) objs) = held_sum objs.
Proof.
  induction objs as [|i cs objs Hi IH] using map_ind; intros Hf; [done|].
  rewrite (map_imap_insert_Some _ _ _ _ (f i cs)) by done.
  rewrite !held_sum_insert by (done || by rewrite map_lookup_imap, Hi).
  rewrite IH, (Hf i cs); [done|by rewrite lookup_insert_eq|].
  intros j c Hj. apply Hf. rewrite lookup_insert_ne; [done|]. intros ->. congruence.
Qed.

Lemma held_sum_nonneg objs : map_Forall (fun _ cs => cs_ok cs) objs -> 0 <= held_sum objs.
Proof.
  induction objs as [|i cs objs Hi IH] using map_ind; intros Hall; [done|].
  apply map_Forall_insert in Hall as [(Hp & _) Hall]; [|done].
  rewrite held_sum_insert by done. specialize (IH Hall).
  pose proof (held_nonneg (cs_bufPipe cs) Hp). unfold cs_held. lia.
Qed.

(** [k] bytes of the budget are reserved by the code in progress. *)
Definition cinv (k : Z) s : Prop :=
  (forall id, id ∈ streams s -> 0 < id /\ is_Some (stream_objs s !! id))
  /\ map_Forall (fun _ cs => cs_ok cs) (stream_objs s)
  /\ inflow_ok (cc_inflow s)
  /\ total (cc_inflow s) + held_sum (stream_objs s) + k <= maxWindow
  /\ is_i32 (flow s)
  /\ 0 <= initialWindow s <= maxWindow.

(** The fields [cinv] depends on. *)
Definition core s := (streams s, stream_objs s, cc_inflow s, flow s, initialWindow s, nextStreamID s,
  pendingRequests s).

Lemma core_objs s s' : core s' = core s -> stream_objs s' = stream_objs s.
Proof. unfold core. by intros [= _ -> _ _ _ _ _]. Qed.

Lemma cinv_core k s s' : core s' = core s -> cinv k s -> cinv k s'.
Proof. unfold core, cinv. by intros [= -> -> -> -> -> _ _]. Qed.

(** The identity of the streams, which only [addStreamLocked] and
    [forgetStreamID] change. *)
Definition ids s := (dom (stream_objs s), streams s, nextStreamID s, pendingRequests s).

Lemma core_ids s s' : core s' = core s -> ids s' = ids s.
Proof. unfold core, ids. by intros [= -> -> _ _ _ -> ->]. Qed.

Lemma cinv_lookup k s id cs : cinv k s -> stream_objs s !! id = Some cs -> cs_ok cs.
Proof. intros (_ & Hall & _) Hl. by apply (Hall id). Qed.

Lemma cinv_less k k' s : k' <= k -> cinv k s -> cinv k' s.
Proof. intros ? (Hin & Hall & Hi & Hb & Hf & Hw).
  refine (conj Hin (conj Hall (conj Hi (conj _ (conj Hf Hw))))). lia. Qed.

Lemma cinv_cs k d s id cs f :
  cinv k s -> stream_objs s !! id = Some cs -> cs_ok (f cs) -> cs_held (f cs) <= cs_held cs + d ->
  cinv (k - d) (set_stream_objs (alter f id (stream_objs s)) s).
Proof.
  intros (Hin & Hall & Hi & Hb & Hf & Hw) Hl Hok Hh.
  refine (conj _ (conj _ (conj Hi (conj _ (conj Hf Hw))))); cbn.
  - intros i Hs. destruct (Hin i Hs) as [Hnz Hl']. split; [done|]. destruct (decide (i = id)) as [->|].
    + rewrite lookup_alter_eq, Hl. done.
    + by rewrite lookup_alter_ne by done.
  - intros i c Hc. destruct (decide (i = id)) as [->|].
    + rewrite lookup_alter_eq, Hl in Hc. by injection Hc as <-.
    + rewrite lookup_alter_ne in Hc by done. by apply (Hall i).
  - rewrite (held_sum_alter _ _ cs) by done. lia.
Qed.

Lemma cinv_cs_same k s id cs f :
  cinv k s -> stream_objs s !! id = Some cs -> cs_ok (f cs) -> cs_held (f cs) = cs_held cs ->
  cinv k (set_stream_objs (alter f id (stream_objs s)) s).
Proof. intros. replace k with (k - 0) by lia. eapply cinv_cs; try done. lia. Qed.

(** What is owed to the window is paid from the reserve. *)
Lemma cinv_add k s n : cinv k s -> 0 <= n <= k ->
  exists f' a, Inflow.add (cc_inflow s) n = Ok (f', a) /\ cinv (k - n) (set_cc_inflow f' s)
    /\ 0 <= a <= maxWindow.
Proof.
  intros (Hin & Hall & Hi & Hb & Hf & Hw) Hn. pose proof (held_sum_nonneg _ Hall).
  destruct (inflow_add_ok (cc_inflow s) n) as (f' & a & Heq & Hok & Ht & Ha); [done|lia|lia|].
  exists f', a. split; [done|]. split; [|done].
  refine (conj Hin (conj Hall (conj Hok (conj _ (conj Hf Hw))))); cbn. lia.
Qed.

Lemma cinv_for_streams k s f :
  (forall id cs, cs_ok cs -> cs_ok (f id cs) /\ cs_held (f id cs) = cs_held cs) ->
  cinv k s -> cinv k (for_streams f s).
Proof.
  intros Hf (Hin & Hall & Hi & Hb & Hfl & Hw).
  refine (conj _ (conj _ (conj Hi (conj _ (conj Hfl Hw))))); cbn.
  - intros i Hs. rewrite map_lookup_imap. destruct (Hin i Hs) as [Hnz [cs ->]]. split; [done|by eexists].
  - intros i c Hc. rewrite map_lookup_imap in Hc. destruct (stream_objs s !! i) as [cs|] eqn:El; [|done].
    injection Hc as <-. specialize (Hall i cs El). case_bool_decide; [by apply Hf|done].
  - set (g i cs := if bool_decide (i ∈ streams s) then f i cs else cs).
    rewrite (held_sum_imap g); [done|]. intros i cs El. unfold g.
    case_bool_decide; [by apply Hf, (Hall i)|done].
Qed.

(** ** What an operation leaves behind *)
Definition stable (k : Z) s s' : Prop :=
  cinv k s' /\ mu s' = false /\ wmu s' = false /\ ids s' = ids s.

Definition ready s : Prop := cinv 0 s /\ mu s = false /\ wmu s = false.

Lemma stable_refl k s : cinv k s -> mu s = false -> wmu s = false -> stable k s s.
Proof. intros. by refine (conj _ (conj _ (conj _ _))). Qed.
Lemma stable_ready s s' : stable 0 s s' -> ready s'.
Proof. intros (? & ? & ? & ?). by refine (conj _ (conj _ _)). Qed.
Lemma stable_lookup k s s' id : stable k s s' -> is_Some (stream_objs s !! id) ->
  exists cs, stream_objs s' !! id = Some cs.
Proof.
  intros (_ & _ & _ & [= Hd _ _ _]) Hl. apply elem_of_dom in Hl. rewrite <- Hd in Hl.
  by apply elem_of_dom in Hl.
Qed.
Lemma stable_trans k k' a b c : stable k a b -> stable k' b c -> stable k' a c.
Proof. intros (_ & _ & _ & Hd1) (? & ? & ? & Hd2).
  refine (conj _ (conj _ (conj _ _))); try done. congruence. Qed.
End Invariant.

(** ** The handlers of the read loop *)
Section Handlers.
Context {B : Type} `{PipeBufferOk B} {D : Type} `{HpackDecoder D} (t : Transport)
  (newBuf : Z -> B) (got1xx : Z -> Header -> option error).
Context (newBuf_ok : forall n, pb_inv (newBuf n) /\ pb_contents (newBuf n) = []).
Context (R : ClientConn B -> Prop).
Implicit Types s : ClientConn B.

(** [m] runs to its end and keeps the invariant. *)
Definition keeps {A} (k : Z) (m : M B A) s : Prop :=
  cinv k s -> mu s = false -> wmu s = false -> wp R m (fun _ s' => stable k s s') s.

Lemma keeps_bind {A C} k (m : M B A) (f : A -> M B C) s :
  keeps k m s -> (forall a s', stable k s s' -> keeps k (f a) s') -> keeps k (bind m f) s.
Proof.
  intros Hm Hf Hi Hmu Hwmu. apply wp_bind. eapply wp_mono; [|by apply Hm].
  intros a s' Hs. pose proof Hs as (Hi' & Hmu' & Hwmu' & _).
  eapply wp_mono; [|by apply Hf]. intros c s'' Hs'. cbn. exact (stable_trans _ _ _ _ _ Hs Hs').
Qed.

Lemma keeps_ret {A} k (a : A) s : keeps k (ret a) s.
Proof. intros ? ? ?. by apply stable_refl. Qed.

(** Updates of a stream that do not touch its flow-control budget. *)
Definition good_upd (f : clientStream B -> clientStream B) : Prop :=
  forall cs, cs_ok cs -> cs_ok (f cs) /\ cs_held (f cs) = cs_held cs.

Lemma cinv_upd k s id f : good_upd f -> cinv k s ->
  cinv k (set_stream_objs (alter f id (stream_objs s)) s).
Proof.
  intros Hf Hi. destruct (stream_objs s !! id) as [cs|] eqn:El.
  - destruct (Hf cs (cinv_lookup _ _ _ _ Hi El)). by eapply cinv_cs_same.
  - eapply cinv_core; [|exact Hi]. unfold core. cbn. by rewrite alter_id' by done.
Qed.

(** Closes the goals on [ids] after updates of streams. *)
Ltac ids_eq := unfold ids; cbn; rewrite ?dom_alter_L; done.

Lemma dom_alter_eq (f : clientStream B -> clientStream B) id (m : gmap Z (clientStream B)) :
  dom (alter f id m) = dom m.
Proof. apply dom_alter_L. Qed.

Lemma keeps_upd k id f s : good_upd f -> keeps k (modify_cs id f) s.
Proof.
  intros Hf Hi Hmu Hwmu. apply wp_modify_cs.
  refine (conj (cinv_upd _ _ _ _ Hf Hi) (conj Hmu (conj Hwmu _))). ids_eq.
Qed.

Lemma keeps_with_mu_upd k id f s : good_upd f -> keeps k (with_mu (modify_cs id f)) s.
Proof.
  intros Hf Hi Hmu Hwmu. apply wp_with_mu; [done|]. apply wp_modify_cs.
  refine (conj _ (conj eq_refl (conj Hwmu _))); [exact (cinv_upd _ _ _ _ Hf Hi)|ids_eq].
Qed.

Lemma keeps_modify k f s : (forall s', core (f s') = core s' /\ mu (f s') = mu s' /\ wmu (f s') = wmu s') ->
  keeps k (modify f) s.
Proof.
  intros Hf Hi Hmu Hwmu. apply wp_modify. destruct (Hf s) as (Hc & Hm & Hw).
  refine (conj _ (conj _ (conj _ _))); [by eapply cinv_core|congruence..|].
  by rewrite ?(core_ids _ _ Hc).
Qed.

Lemma set_mu_same s : mu s = false -> set_mu false (set_mu true s) = s.
Proof. destruct s; cbn. by intros ->. Qed.
Lemma set_wmu_same s : wmu s = false -> set_wmu false (set_wmu true s) = s.
Proof. destruct s; cbn. by intros ->. Qed.

Lemma abort_good e : good_upd (abortStreamLocked e).
Proof.
  intros cs Hok. unfold abortStreamLocked, closeReqBodyLocked.
  destruct (is_set (cs_abort cs)); cbn; (destruct (cs_reqBody cs); cbn; [destruct (cs_reqBodyClosed cs)|]);
    split; exact Hok || reflexivity.
Qed.

Lemma keeps_abortStream k id e s : keeps k (abortStream id e) s.
Proof. apply keeps_with_mu_upd, abort_good. Qed.

Lemma keeps_endStreamError k id e s : keeps k (endStreamError id e) s.
Proof.
  apply keeps_bind; [apply keeps_upd; intros cs Hok; split; exact Hok || reflexivity|].
  intros. apply keeps_abortStream.
Qed.

(** What [streamByID] finds. *)
Definition find_stream s id : option (clientStream B) :=
  match stream_objs s !! id with
  | Some cs => if bool_decide (id ∈ streams s) && negb (cs_readAborted cs) then Some cs else None
  | None => None
  end.

Lemma find_stream_Some s id cs : find_stream s id = Some cs ->
  stream_objs s !! id = Some cs /\ id ∈ streams s /\ cs_readAborted cs = false.
Proof.
  unfold find_stream. destruct (stream_objs s !! id) as [c|]; [|done].
  case_bool_decide; cbn; [|done]. destruct (cs_readAborted c) eqn:Ea; [done|]. by intros [= <-].
Qed.

Lemma wp_streamByID id Q s : mu s = false -> Q (find_stream s id) s -> wp R (streamByID id) Q s.
Proof.
  intros Hmu Hq. apply wp_with_mu; [done|]. apply wp_bind, wp_get, wp_ret.
  rewrite set_mu_same by done. exact Hq.
Qed.

Lemma wp_endStream k id s cs : cinv k s -> mu s = false -> wmu s = false ->
  stream_objs s !! id = Some cs -> wp R (endStream id) (fun _ s' => stable k s s') s.
Proof.
  intros Hi Hmu Hwmu El. pose proof (cinv_lookup _ _ _ _ Hi El) as Hok.
  unfold endStream. apply wp_bind. eapply wp_get_cs; [exact El|].
  destruct (cs_readClosed cs) eqn:Erc; cbn [negb]; [by apply wp_ret, stable_refl|].
  apply wp_bind, wp_modify_cs, wp_with_mu; [done|].
  apply wp_bind. eapply wp_get_cs; [cbn; by rewrite lookup_alter_eq, El|]. cbn.
  pose proof Hok as (Hp & Hfl & Hb & Hof & Hpc & Hrh & Hbr).
  destruct (pipe_close_ok (cs_bufPipe cs) io_EOF (Some tt) Hp) as (p' & Hp' & Hok' & Hheld).
  apply wp_bind. eapply wp_lift; [exact Hp'|]. apply wp_bind, wp_modify_cs.
  unfold close_peerClosed. apply wp_bind.
  eapply wp_get_cs; [cbn; by rewrite !lookup_alter_eq, El|]. cbn.
  rewrite <- Hpc, Erc. apply wp_modify_cs. cbn.
  refine (conj _ (conj eq_refl (conj Hwmu _))); [|ids_eq].
  eapply (cinv_core k (set_stream_objs
    (alter (set_cs_peerClosed true) id (alter (set_cs_bufPipe p') id (alter (set_cs_readClosed true) id (stream_objs s)))) s));
    [reflexivity|].
  rewrite !alter_alter_eq. eapply cinv_cs_same; [done|exact El| |exact Hheld].
  unfold cs_ok, cs_held in *. cbn. rewrite Hheld. done.
Qed.

Lemma wp_sendWindowUpdates id a b Q s : wmu s = false ->
  (forall s', core s' = core s -> mu s' = mu s -> wmu s' = false -> Q tt s') ->
  wp R (sendWindowUpdates id a b) Q s.
Proof.
  intros Hwmu Hq. unfold sendWindowUpdates. destruct (_ || _); [|by apply wp_ret, Hq].
  apply wp_with_wmu; [done|].
  apply wp_bind. destruct (0 <? a).
  - apply wp_bind, wp_write_frame; [intros e|]; apply wp_ret, wp_bind;
      (destruct (0 <? b); [apply wp_bind, wp_write_frame; [intros e'|]; apply wp_ret, wp_bind, wp_flush, wp_ret
                          |apply wp_ret, wp_bind, wp_flush, wp_ret]); by apply Hq.
  - apply wp_ret, wp_bind.
    destruct (0 <? b); [apply wp_bind, wp_write_frame; [intros e'|]; apply wp_ret, wp_bind, wp_flush, wp_ret
                          |apply wp_ret, wp_bind, wp_flush, wp_ret]; by apply Hq.
Qed.

Ltac good :=
  let c := fresh "c" in let h := fresh "h" in intros c h; split; exact h || reflexivity.

(** *** HEADERS *)
Lemma pastHeaders_good b cs : cs_ok cs -> (b = false -> cs_respHeaderRecv cs = false) ->
  cs_ok (set_cs_pastHeaders b cs).
Proof.
  intros (Hp & Hfl & Hb & Hof & Hpc & Hrh & Hbr) Hr.
  refine (conj Hp (conj Hfl (conj Hb (conj Hof (conj Hpc (conj _ Hbr)))))). cbn. intros Ht.
  destruct b; [done|]. by rewrite Hr in Ht.
Qed.

Lemma alter_lookup_Some {A} (f : A -> A) id (m : gmap Z A) x : m !! id = Some x ->
  alter f id m !! id = Some (f x).
Proof. intros E. by rewrite lookup_alter_eq, E. Qed.

Lemma responseContentLength_range header e h : -1 <= responseContentLength header e h.
Proof.
  unfold responseContentLength. destruct (Header_values header _) as [|v [|]]; [destruct (_ && _); lia| |lia].
  unfold ParseUint. destruct (bytes_of_string v) as [|b p]; [cbn; lia|].
  destruct (digits_value (b :: p) 0) as [z|] eqn:Ed; [|cbn; lia].
  assert (0 <= z) as Hz.
  { assert (forall q a, 0 <= a -> forall z, digits_value q a = Some z -> 0 <= z) as Hd; [|by eapply Hd; [|exact Ed]].
    induction q as [|c q IH]; cbn; intros a Ha w; [by intros [= <-]|].
    unfold is_digit. destruct (Z.leb_spec 48 c), (Z.leb_spec c 57); cbn; try done. apply IH. lia. }
  destruct (z <? 2 ^ 63); cbn; lia.
Qed.

(** A response is only returned with the stream ready for it. *)
Definition handled k id s (r : result error (option response)) s' : Prop :=
  stable k s s' /\ (forall res, r = Ok (Some res) ->
    exists cs', stream_objs s' !! id = Some cs' /\ cs_pastHeaders cs' = true
      /\ cs_respHeaderRecv cs' = false).

(** [handleResponse] on a stream that just got its first headers. *)
Lemma wp_handleResponse k id fh fields tr s cs : cinv k s -> mu s = false -> wmu s = false ->
  stream_objs s !! id = Some cs -> cs_pastHeaders cs = true -> cs_respHeaderRecv cs = false ->
  wp R (handleResponse (D := D) t newBuf got1xx id fh fields tr)
    (handled k id s) s.
Proof.
  intros Hi Hmu Hwmu El Hph Hrh. pose proof (cinv_lookup _ _ _ _ Hi El) as Hok.
  assert (forall (r : result error (option response)), (forall res, r <> Ok (Some res)) ->
    wp R (ret r) (handled k id s) s)
    as Hret.
  { intros r Hr. apply wp_ret. split; [by apply stable_refl|]. intros res ->. by destruct (Hr res). }
  unfold handleResponse. destruct tr; [by apply Hret|].
  destruct (String.eqb _ ""); [by apply Hret|]. destruct (Atoi _) as [code|]; [|by apply Hret].
  destruct (fold_left add_field _ _) as [header trailer].
  apply wp_bind. eapply wp_get_cs; [exact El|].
  destruct ((100 <=? code) && (code <=? 199)).
  - destruct (FrameStreamEnded fh); [by apply Hret|].
    apply wp_bind, wp_modify_cs.
    assert (good_upd (set_cs_num1xx (u8 (cs_num1xx cs + 1)))) as Hg by good.
    pose proof (cinv_upd k s id _ Hg Hi) as Hi1.
    set (s1 := set_stream_objs _ s) in *.
    assert (stable k s s1) as Hs1 by (refine (conj Hi1 (conj Hmu (conj Hwmu _))); ids_eq).
    destruct (5 <? _); [by apply wp_ret|]. destruct (got1xx code header); [by apply wp_ret|].
    assert (forall s2, stable k s1 s2 ->
      (forall c2, stream_objs s2 !! id = Some c2 -> cs_respHeaderRecv c2 = false) ->
      wp R (modify_cs id (set_cs_pastHeaders false) ;; ret (Ok None : result error (option response)))
        (handled k id s) s2)
      as Hend.
    { intros s2 Hs2 Hr2. apply wp_bind, wp_modify_cs, wp_ret. split; [|done].
      pose proof (stable_trans _ _ _ _ _ Hs1 Hs2) as (Hi2 & Hm2 & Hw2 & Hd2).
      destruct (stream_objs s2 !! id) as [c2|] eqn:E2.
      - refine (conj _ (conj Hm2 (conj Hw2 _))); [|ids_eq].
        eapply cinv_cs_same; [done|exact E2| |done]. apply pastHeaders_good; [by eapply cinv_lookup|auto].
      - refine (conj _ (conj Hm2 (conj Hw2 _))); [|ids_eq].
        eapply cinv_core; [|exact Hi2]. unfold core. cbn. by rewrite alter_id'. }
    destruct (code =? 100).
    + apply wp_bind, wp_modify_cs. apply Hend.
      * refine (conj _ (conj Hmu (conj Hwmu _))); [apply cinv_upd; [good|done]|ids_eq].
      * cbn. intros c2 Hc2. rewrite !lookup_alter_eq, El in Hc2. by injection Hc2 as <-.
    + apply wp_bind, wp_ret. apply Hend; [by apply stable_refl|].
      cbn. intros c2 Hc2. rewrite lookup_alter_eq, El in Hc2. by injection Hc2 as <-.
  - assert (forall (r : response), wp R (ret (Ok (Some r))) (handled k id s) s)
      as Hret'.
    { intros r. apply wp_ret. split; [by apply stable_refl|]. intros _ _. by exists cs. }
    destruct (cs_isHead cs); [apply Hret'|]. destruct (FrameStreamEnded fh); [apply Hret'|].
    set (cl := responseContentLength _ _ _). pose proof (responseContentLength_range header false false) as Hcl.
    destruct (newBuf_ok cl) as [Hnb1 Hnb2].
    apply wp_bind, wp_modify_cs, wp_bind, wp_modify_cs.
    set (f1 := fun cs0 : clientStream B => set_cs_bufPipe _ cs0). set (f2 := set_cs_bytesRemain cl).
    destruct Hok as (Hp & Hfl & Hb & Hof & Hpc & Hrh' & Hbr).
    destruct (pipe_setBuffer_ok (cs_bufPipe cs) (newBuf cl) Hp Hnb1 Hnb2) as [Hsb1 Hsb2].
    pose proof Hi as (_ & Hall & _).
    assert (stable k s (set_stream_objs (alter (f2 ∘ f1) id (stream_objs s)) s)) as Hst.
    { refine (conj _ (conj Hmu (conj Hwmu _))); [|ids_eq].
      replace k with (k - 0) by lia. eapply cinv_cs; [exact Hi|exact El| |unfold cs_held in *; cbn; lia].
      unfold cs_ok, cs_held in *. cbn.
      refine (conj Hsb1 (conj Hfl (conj _ (conj Hof (conj Hpc (conj Hrh' _)))))); [lia|exact Hcl]. }
    assert (forall (r : response), wp R (ret (Ok (Some r))) (handled k id s)
       (set_stream_objs (alter f2 id (stream_objs (set_stream_objs (alter f1 id (stream_objs s)) s)))
          (set_stream_objs (alter f1 id (stream_objs s)) s))) as Hret2.
    { intros r. apply wp_ret. cbn. rewrite alter_alter_eq. split; [exact Hst|].
      intros _ _. exists (f2 (f1 cs)). split; [by apply (alter_lookup_Some (f2 ∘ f1))|done]. }
    destruct (_ && _); [apply Hret2|]. destruct (AutoDecompression t); [|apply Hret2].
    destruct (negb _); apply Hret2.
Qed.

Lemma processTrailers_ok k id fh fields s : is_Some (stream_objs s !! id) ->
  keeps k (processTrailers (D := D) id fh fields) s.
Proof.
  intros [cs El] Hi Hmu Hwmu. unfold processTrailers. apply wp_bind. eapply wp_get_cs; [exact El|].
  destruct (cs_pastTrailers cs); [by apply wp_ret, stable_refl|].
  apply wp_bind, wp_modify_cs.
  assert (good_upd (set_cs_pastTrailers true)) as Hg1 by good.
  pose proof (cinv_upd k s id _ Hg1 Hi) as Hi1. set (s1 := set_stream_objs _ s) in *.
  assert (stable k s s1) as Hs1 by (refine (conj Hi1 (conj Hmu (conj Hwmu _))); ids_eq).
  destruct (negb _); [by apply wp_ret|]. destruct (0 <? _); [by apply wp_ret|].
  apply wp_bind, wp_modify_cs. set (tr := fold_left _ _ _).
  assert (good_upd (set_cs_trailer tr)) as Hg2 by good.
  pose proof (cinv_upd k s1 id _ Hg2 Hi1) as Hi2. set (s2 := set_stream_objs _ s1) in *.
  assert (stable k s1 s2) as Hs2 by (refine (conj Hi2 (conj Hmu (conj Hwmu _))); ids_eq).
  pose proof (stable_trans _ _ _ _ _ Hs1 Hs2) as Hs.
  destruct (stable_lookup _ _ _ id Hs) as [c2 E2]; [by exists cs|].
  apply wp_bind. eapply wp_mono; [|eapply wp_endStream; [exact Hi2|done|done|exact E2]].
  intros [] s3 Hs3. apply wp_ret. by eapply stable_trans.
Qed.

Lemma processHeaders_ok k fh fields tr s : keeps k (processHeaders (D := D) t newBuf got1xx fh fields tr) s.
Proof.
  intros Hi Hmu Hwmu. unfold processHeaders. set (id := fh_StreamID fh).
  apply wp_bind, wp_streamByID; [done|].
  destruct (find_stream s id) as [cs|] eqn:Ef; [|by apply wp_ret, stable_refl].
  apply find_stream_Some in Ef as (El & _ & _). pose proof (cinv_lookup _ _ _ _ Hi El) as Hok.
  destruct (cs_readClosed cs) eqn:Erc.
  { apply wp_bind. eapply wp_mono; [|by apply keeps_endStreamError]. intros [] s' Hs'. by apply wp_ret. }
  apply wp_bind, wp_modify_cs.
  assert (good_upd (set_cs_firstByte true)) as Hg1 by good.
  pose proof (cinv_upd k s id _ Hg1 Hi) as Hi1.
  pose proof (alter_lookup_Some (set_cs_firstByte true) _ _ _ El) as El1.
  set (s1 := set_stream_objs _ s) in *. change (stream_objs s1 !! id = Some (set_cs_firstByte true cs)) in El1.
  assert (stable k s s1) as Hs1 by (refine (conj Hi1 (conj Hmu (conj Hwmu _))); ids_eq).
  destruct (cs_pastHeaders cs) eqn:Eph.
  { eapply wp_mono; [|apply processTrailers_ok; try done; by eexists].
    intros r s' Hs'. by eapply stable_trans. }
  assert (cs_respHeaderRecv cs = false) as Erh.
  { destruct Hok as (_ & _ & _ & _ & _ & Hrh & _). destruct (cs_respHeaderRecv cs); [|done].
    by rewrite Hrh in Eph. }
  apply wp_bind, wp_modify_cs.
  assert (cinv k (set_stream_objs (alter (set_cs_pastHeaders true) id (stream_objs s1)) s1)) as Hi2.
  { eapply cinv_cs_same; [done|exact El1| |done]. apply pastHeaders_good; [by eapply cinv_lookup|done]. }
  pose proof (alter_lookup_Some (set_cs_pastHeaders true) _ _ _ El1) as El2.
  set (s2 := set_stream_objs (alter (set_cs_pastHeaders true) _ _) s1) in *.
  assert (stable k s1 s2) as Hs2 by (refine (conj Hi2 (conj Hmu (conj Hwmu _))); ids_eq).
  pose proof (stable_trans _ _ _ _ _ Hs1 Hs2) as Hs.
  apply wp_bind. eapply wp_mono;
    [|eapply (wp_handleResponse k id fh fields tr s2); [exact Hi2|exact Hmu|exact Hwmu|exact El2|done|exact Erh]].
  intros r s3 [Hs3 Hres]. pose proof (stable_trans _ _ _ _ _ Hs Hs3) as Hs03.
  pose proof Hs3 as (Hi3 & Hmu3 & Hwmu3 & _).
  assert (forall e, wp R (endStreamError id e ;; ret (None : option error)) (fun _ s' => stable k s s') s3) as Hee.
  { intros e. apply wp_bind. eapply wp_mono; [|by apply keeps_endStreamError].
    intros [] s' Hs'. apply wp_ret. by eapply stable_trans. }
  destruct r as [[res|]|e]; [|by apply wp_ret|destruct e; first [apply Hee|by apply wp_ret]].
  destruct (Hres res eq_refl) as (c3 & E3 & Hph3 & Hrh3).
  apply wp_bind, wp_modify_cs.
  assert (good_upd (set_cs_res (Some res))) as Hg4 by good.
  pose proof (cinv_upd k s3 id _ Hg4 Hi3) as Hi4.
  pose proof (alter_lookup_Some (set_cs_res (Some res)) _ _ _ E3) as E4.
  set (s4 := set_stream_objs _ s3) in *.
  assert (stable k s3 s4) as Hs4 by (refine (conj Hi4 (conj Hmu3 (conj Hwmu3 _))); ids_eq).
  apply wp_bind. unfold close_respHeaderRecv. apply wp_bind. eapply wp_get_cs; [exact E4|]. cbn.
  rewrite Hrh3. apply wp_modify_cs.
  assert (cinv k (set_stream_objs (alter (set_cs_respHeaderRecv true) id (stream_objs s4)) s4)) as Hi5.
  { eapply cinv_cs_same; [exact Hi4|exact E4| |done].
    destruct (cinv_lookup _ _ _ _ Hi4 E4) as (Hp & Hfl & Hb & Hof & Hpc & Hrh & Hbr).
    refine (conj Hp (conj Hfl (conj Hb (conj Hof (conj Hpc (conj _ Hbr)))))). done. }
  pose proof (alter_lookup_Some (set_cs_respHeaderRecv true) _ _ _ E4) as E5.
  set (s5 := set_stream_objs (alter (set_cs_respHeaderRecv true) _ _) s4) in *.
  assert (stable k s4 s5) as Hs5 by (refine (conj Hi5 (conj Hmu3 (conj Hwmu3 _))); ids_eq).
  pose proof (stable_trans _ _ _ _ _ Hs03 (stable_trans _ _ _ _ _ Hs4 Hs5)) as Hs05.
  apply wp_bind. destruct (FrameStreamEnded fh).
  - eapply wp_mono; [|eapply wp_endStream; [exact Hi5|exact Hmu3|exact Hwmu3|exact E5]].
    intros [] s6 Hs6. apply wp_ret. by eapply stable_trans.
  - by apply wp_ret, wp_ret.
Qed.

(** *** DATA *)

(** A DATA frame's payload and padding fit its length, which is below the
    size of a frame. *)
Definition data_frame_ok (fh : FrameHeader) (data : bytes) : Prop :=
  len data <= fh_Length fh < 2 ^ 24.

(** The result of a handler: a connection error may cost the budget one
    frame, after which the read loop stops. *)
Definition err_slack (r : option error) : Z := if is_set r then 2 ^ 24 else 0.
Definition keeps_err (k : Z) (m : M B (option error)) s : Prop :=
  cinv k s -> mu s = false -> wmu s = false ->
  wp R m (fun r s' => stable (k - err_slack r) s s') s.

Lemma keeps_keeps_err k m s : keeps k m s -> keeps_err k m s.
Proof.
  intros Hm Hi Hmu Hwmu. eapply wp_mono; [|by apply Hm]. intros r s' (Hi' & Hrest).
  refine (conj _ Hrest). eapply cinv_less; [|exact Hi']. unfold err_slack. destruct (is_set r); lia.
Qed.

Lemma inflow_take_ok f n f' b : inflow_ok f -> total f <= maxWindow -> 0 <= n < 2 ^ 24 ->
  Inflow.take f n = (f', b) ->
  inflow_ok f' /\ Inflow.unsent f' = Inflow.unsent f
  /\ (if b then total f' = total f - n else f' = f /\ Inflow.avail f < n).
Proof.
  unfold inflow_ok, total, maxWindow. intros (Ha & Hu & Hm) Ht Hn.
  rewrite Inflow.take_spec by (unfold Inflow.ok, maxWindow, inflowMinRefresh in *; cbn in *; lia || word).
  destruct (Z.leb_spec n (Inflow.avail f)); intros [= <- <-]; cbn; split_and!; try done; lia.
Qed.

(** A refused frame is short of window, hence its refund fits. *)
Lemma short_refund f n : inflow_ok f -> Inflow.avail f < n -> n < 2 ^ 24 -> total f + n <= maxWindow.
Proof.
  unfold inflow_ok, total, maxWindow, inflowMinRefresh. change (Z.shiftl 4 10) with 4096. lia.
Qed.

Lemma processData_unknown_ok k fh data s : data_frame_ok fh data -> 2 ^ 24 <= k ->
  keeps_err k (processData_unknown fh) s.
Proof.
  intros [Hd1 Hd2] Hk Hi Hmu Hwmu. pose proof (len_nonneg data). unfold processData_unknown.
  apply wp_bind, wp_with_mu; [done|]. apply wp_get. rewrite set_mu_same by done.
  assert (forall r : option error, wp R (ret r) (fun r s' => stable (k - err_slack r) s s') s) as Hret.
  { intros r. apply wp_ret, stable_refl; [|done..]. eapply cinv_less; [|exact Hi].
    unfold err_slack. destruct (is_set r); lia. }
  destruct (_ <=? fh_StreamID fh); [apply Hret|]. destruct (0 <? fh_Length fh); [|apply Hret].
  apply wp_bind, wp_lock_mu; [done|]. apply wp_bind, wp_get. cbn [cc_inflow set_mu].
  destruct Hi as (Hin & Hall & Hfl & Hb & Hf & Hw). pose proof (held_sum_nonneg _ Hall).
  destruct (Inflow.take (cc_inflow s) (fh_Length fh)) as [f' b] eqn:Et.
  apply inflow_take_ok in Et as (Hok & Hun & Hcase); [|done|lia|lia].
  destruct (inflow_add_ok f' (fh_Length fh)) as (f2 & a & Heq & Hok2 & Ht2 & Ha2); [done|lia| |].
  { destruct b; [lia|]. destruct Hcase as [-> Hs]. apply short_refund; [done|done|lia]. }
  apply wp_bind. eapply wp_lift; [exact Heq|]. apply wp_bind, wp_modify, wp_bind, wp_unlock_mu.
  destruct b; cbn [negb].
  - match goal with |- wp _ _ _ ?x => set (s1 := x) end.
    assert (cinv k s1) as Hi1.
    { refine (conj Hin (conj Hall (conj Hok2 (conj _ (conj Hf Hw))))). cbn. lia. }
    apply wp_bind, wp_sendWindowUpdates; [done|]. intros s2 Hc2 Hm2 Hw2. apply wp_ret.
    unfold err_slack. cbn. rewrite Z.sub_0_r.
    refine (conj (cinv_core _ _ _ Hc2 Hi1) (conj Hm2 (conj Hw2 _))).
    by rewrite ?(core_ids _ _ Hc2).
  - apply wp_ret. destruct Hcase as [-> Hs]. unfold err_slack. cbn [is_set].
    refine (conj _ (conj eq_refl (conj Hwmu eq_refl))).
    refine (conj Hin (conj Hall (conj Hok2 (conj _ (conj Hf Hw))))). cbn in *. lia.
Qed.

(** [takeInflows] charges both budgets or none. *)
Lemma takeInflows_ok f1 f2 n g1 g2 b : inflow_ok f1 -> inflow_ok f2 -> total f1 <= maxWindow ->
  total f2 <= maxWindow -> 0 <= n < 2 ^ 24 -> Inflow.takeInflows f1 f2 n = (g1, g2, b) ->
  inflow_ok g1 /\ inflow_ok g2 /\ total g1 = total f1 - (if b then n else 0)
  /\ total g2 = total f2 - (if b then n else 0) /\ (b = false -> g1 = f1 /\ g2 = f2).
Proof.
  unfold inflow_ok, total, maxWindow. intros (Ha & Hu & Hm) (Ha2 & Hu2 & Hm2) Ht Ht2 Hn.
  rewrite Inflow.takeInflows_spec by (unfold Inflow.ok, maxWindow, inflowMinRefresh in *; cbn in *; lia || word).
  destruct (Z.leb_spec n (Inflow.avail f1)), (Z.leb_spec n (Inflow.avail f2)); cbn;
    intros [= <- <- <-]; cbn; split_and!; try done; lia.
Qed.

(** The states inside the critical section of [processData]: [k] bytes of the
    connection's budget and [d] bytes of the stream's are reserved. *)
Definition in_data (k d id : Z) s0 s : Prop :=
  cinv k s /\ mu s = true /\ wmu s = false /\ ids s = ids s0
  /\ exists c, stream_objs s !! id = Some c
     /\ total (cs_inflow c) + cs_held c + d <= maxWindow.

Lemma in_data_upd k d dk id s0 s f c :
  in_data k d id s0 s -> stream_objs s !! id = Some c -> cs_ok (f c) -> cs_held (f c) <= cs_held c + dk ->
  total (cs_inflow (f c)) + cs_held (f c) <= total (cs_inflow c) + cs_held c + dk ->
  in_data (k - dk) (d - dk) id s0 (set_stream_objs (alter f id (stream_objs s)) s).
Proof.
  intros (Hi & Hm & Hw & Hd & c' & El & Ht) El' Hok Hh Hs. rewrite El' in El. injection El as <-.
  refine (conj _ (conj Hm (conj Hw (conj _ _)))).
  - by eapply cinv_cs.
  - ids_eq.
  - exists (f c). split; [by apply alter_lookup_Some|lia].
Qed.

Lemma wp_write_data k d id s0 s c data : in_data k d id s0 s -> stream_objs s !! id = Some c ->
  cs_ok c -> len data <= d ->
  wp R (if 0 <? len data then
          match pipe_Write (cs_bufPipe c) data with
          | None => panic "runtime error: dataBuffer"
          | Some (p, _, e) => modify_cs id (set_cs_bufPipe p) ;; ret e
          end
        else ret None)
    (fun e s' => let w := if is_set e then 0 else len data in in_data (k - w) (d - w) id s0 s') s.
Proof.
  intros Hin El Hok Hd. pose proof Hin as (_ & _ & _ & _ & c' & El' & Ht). rewrite El in El'. injection El' as <-.
  destruct (Z.ltb_spec 0 (len data)) as [Hl|Hl].
  - pose proof Hok as (Hp & Hfl & Hb & Hof & Hrest).
    destruct (pipe_Write_ok (cs_bufPipe c) data Hp) as (p' & n & e & -> & Hp' & Hh' & _).
    apply wp_bind, wp_modify_cs, wp_ret. cbn zeta.
    assert (cs_ok (set_cs_bufPipe p' c)) as Hok'.
    { refine (conj Hp' (conj Hfl (conj _ (conj Hof Hrest)))). unfold cs_held in *. cbn.
      destruct (is_set e); lia. }
    eapply in_data_upd; [done|done|done|unfold cs_held; cbn; destruct (is_set e); lia..].
  - apply wp_ret. assert (len data = 0) as E by (pose proof (len_nonneg data); lia).
    cbn. by rewrite E, !Z.sub_0_r.
Qed.

(** Paying back [n] reserved bytes to the connection, then to the stream. *)
Lemma wp_refund_conn k d id s0 s n f : in_data k d id s0 s -> 0 <= n <= k ->
  f = cc_inflow s ->
  exists f' a, Inflow.add f n = Ok (f', a) /\ in_data (k - n) d id s0 (set_cc_inflow f' s).
Proof.
  intros (Hi & Hm & Hw & Hd & c & El & Ht) Hn ->.
  destruct (cinv_add k s n Hi Hn) as (f' & a & Ha & Hi' & _). exists f', a. split; [done|].
  refine (conj Hi' (conj Hm (conj Hw (conj Hd _)))). by exists c.
Qed.

Lemma wp_refund_stream k d id s0 s n c : in_data k d id s0 s -> 0 <= n <= d ->
  stream_objs s !! id = Some c ->
  exists f' a, Inflow.add (cs_inflow c) n = Ok (f', a)
    /\ in_data k (d - n) id s0 (set_stream_objs (alter (set_cs_inflow f') id (stream_objs s)) s).
Proof.
  intros Hin Hn El. pose proof Hin as (Hi & Hm & Hw & Hd & c' & El' & Ht).
  rewrite El in El'. injection El' as <-.
  pose proof (cinv_lookup _ _ _ _ Hi El) as (Hp & Hfl & Hb & Hof & Hrest).
  pose proof (held_nonneg _ Hp). unfold cs_held in *.
  destruct (inflow_add_ok (cs_inflow c) n) as (f' & a & Ha & Hok & Ht' & _); [done|lia|lia|].
  exists f', a. split; [done|].
  refine (conj _ (conj Hm (conj Hw (conj _ _)))).
  - eapply cinv_cs_same; [done|exact El| |done].
    refine (conj Hp (conj Hok (conj _ (conj Hof Hrest)))). unfold cs_held; cbn. lia.
  - ids_eq.
  - exists (set_cs_inflow f' c). split; [by apply alter_lookup_Some|].
    unfold cs_held. cbn [cs_inflow cs_bufPipe set_cs_inflow]. lia.
Qed.

Lemma processData_window_ok k id fh data s cs : data_frame_ok fh data -> 0 <= k ->
  stream_objs s !! id = Some cs -> cinv k s -> mu s = false -> wmu s = false ->
  wp R (processData_window id fh data) (fun r s' => stable k s s' /\ (r.2 = true -> r.1 = None)) s.
Proof.
  intros [Hd1 Hd2] Hk El Hi Hmu Hwmu. pose proof (len_nonneg data). unfold processData_window.
  apply wp_bind, wp_lock_mu; [done|]. apply wp_bind, wp_get, wp_bind.
  eapply wp_get_cs; [exact El|]. cbn [cc_inflow set_mu].
  pose proof Hi as (Hin & Hall & Hfl & Hb & Hf & Hw). pose proof (held_sum_nonneg _ Hall).
  pose proof (cinv_lookup _ _ _ _ Hi El) as Hok.
  pose proof Hok as (Hp & Hsf & Hsb & Hof & Hrest). pose proof (held_nonneg _ Hp) as Hh.
  destruct (Inflow.takeInflows _ _ _) as [[cin sin] ok] eqn:Et. unfold cs_held in Hsb.
  apply takeInflows_ok in Et as (Hcin & Hsin & Htc & Hts & Hsame); [|done|done|lia|lia|lia].
  set (n := fh_Length fh) in *.
  apply wp_bind, wp_modify, wp_bind, wp_modify_cs.
  destruct ok; cbn [negb].
  2:{ destruct (Hsame eq_refl) as [-> ->]. apply wp_bind, wp_unlock_mu, wp_ret. split; [|done].
      refine (conj _ (conj eq_refl (conj Hwmu _))); [|ids_eq].
      eapply (cinv_core k (set_stream_objs (alter (set_cs_inflow (cs_inflow cs)) id (stream_objs s)) s)); [reflexivity|].
      eapply cinv_cs_same; [exact Hi|exact El|exact Hok|done]. }
  set (pad := n - len data).
  assert ((if 0 <? pad then pad else 0) = pad) as -> by (subst pad; destruct (Z.ltb_spec 0 (n - len data)); lia).
  match goal with |- wp _ _ _ ?x => set (s1 := x) end.
  assert (stream_objs s1 !! id = Some (set_cs_inflow sin cs)) as El1
    by exact (alter_lookup_Some (set_cs_inflow sin) _ _ _ El).
  assert (cs_ok (set_cs_inflow sin cs)) as Hok1.
  { refine (conj Hp (conj Hsin (conj _ (conj Hof Hrest)))). unfold cs_held; cbn. lia. }
  assert (in_data (k + n) n id s s1) as Hst1.
  { refine (conj _ (conj eq_refl (conj Hwmu (conj _ _)))).
    - apply (cinv_core _ (set_cc_inflow cin (set_stream_objs (alter (set_cs_inflow sin) id (stream_objs s)) s)));
        [reflexivity|].
      assert (cinv k (set_stream_objs (alter (set_cs_inflow sin) id (stream_objs s)) s)) as (Hin' & Hall' & _ & Hb' & _)
        by (eapply cinv_cs_same; done).
      refine (conj Hin' (conj Hall' (conj Hcin (conj _ (conj Hf Hw))))). cbn in *. lia.
    - ids_eq.
    - eexists. split; [exact El1|]. unfold cs_held; cbn. lia. }
  apply wp_bind. eapply wp_mono;
    [|eapply (wp_write_data _ _ _ _ _ (set_cs_inflow sin cs)); [exact Hst1|exact El1|exact Hok1|lia]].
  intros e s2 Hst2. cbn zeta in Hst2.
  set (refund := if is_set e then pad + len data else pad).
  apply wp_bind, wp_get.
  destruct (wp_refund_conn _ _ _ _ _ refund (cc_inflow s2) Hst2) as (f' & a & Ha & Hst3); [|done|].
  { subst refund pad. destruct (is_set e); lia. }
  apply wp_bind. eapply wp_lift; [exact Ha|]. apply wp_bind, wp_modify.
  pose proof Hst3 as (_ & _ & _ & _ & c3 & El3 & _).
  apply wp_bind. eapply wp_get_cs; [exact El3|]. apply wp_bind.
  assert (exists s4 sa, in_data k 0 id s s4 /\
    forall Q : Z -> ClientConn B -> Prop, Q sa s4 -> wp R (if is_set e then ret 0 else
      let* (sin, a) := lift (Inflow.add (cs_inflow c3) refund) in
      modify_cs id (set_cs_inflow sin) ;; ret a) Q (set_cc_inflow f' s2)) as (s4 & sa & Hst4 & Hwp).
  { subst refund pad. destruct (is_set e).
    - exists (set_cc_inflow f' s2), 0. split; [|by intros Q HQ].
      destruct Hst3 as (Hi3 & Hm3 & Hw3 & Hd3 & c & Ec & Ht).
      refine (conj _ (conj Hm3 (conj Hw3 (conj Hd3 _)))); [eapply cinv_less; [|exact Hi3]; lia|].
      exists c. split; [done|lia].
    - destruct (wp_refund_stream _ _ _ _ _ (n - len data) c3 Hst3) as (f4 & a4 & Ha4 & Hst4); [lia|done|].
      eexists _, a4. split; [|intros Q HQ; apply wp_bind; eapply wp_lift; [exact Ha4|]; apply wp_bind, wp_modify_cs, wp_ret; exact HQ].
      destruct Hst4 as (Hi4 & Hm4 & Hw4 & Hd4 & c & Ec & Ht).
      refine (conj _ (conj Hm4 (conj Hw4 (conj Hd4 _)))); [eapply cinv_less; [|exact Hi4]; lia|].
      exists c. split; [done|lia]. }
  apply Hwp. clear Hwp. destruct Hst4 as (Hi4 & Hm4 & Hw4 & Hd4 & _).
  apply wp_bind, wp_unlock_mu, wp_bind, wp_sendWindowUpdates; [done|].
  intros s5 Hc5 Hm5 Hw5.
  assert (stable k s s5) as Hs5.
  { refine (conj (cinv_core _ _ _ Hc5 _) (conj Hm5 (conj Hw5 _))); [exact Hi4|].
    rewrite <- Hd4. by rewrite ?(core_ids _ _ Hc5). }
  destruct e as [e|]; [|by apply wp_ret].
  pose proof Hs5 as (Hi5 & _).
  apply wp_bind. eapply wp_mono; [|by apply keeps_endStreamError]. intros [] s6 Hs6. apply wp_ret.
  split; [by eapply stable_trans|done].
Qed.

Lemma processData_ok k fh data s : data_frame_ok fh data -> 2 ^ 24 <= k ->
  keeps_err k (processData fh data) s.
Proof.
  intros Hd Hk Hi Hmu Hwmu. unfold processData. set (id := fh_StreamID fh).
  apply wp_bind, wp_streamByID; [done|].
  destruct (find_stream s id) as [cs|] eqn:Ef; [|by eapply processData_unknown_ok].
  apply find_stream_Some in Ef as (El & _ & _).
  assert (wp R (endStreamError id (streamError id ErrCodeProtocol) ;; ret None)
            (fun r s' => stable (k - err_slack r) s s') s) as Hpe.
  { apply wp_bind. eapply wp_mono; [|by apply (keeps_endStreamError k)]. intros [] s' Hs'. apply wp_ret.
    unfold err_slack. cbn. by rewrite Z.sub_0_r. }
  destruct (cs_readClosed cs); [exact Hpe|]. destruct (cs_pastHeaders cs); cbn [negb]; [|exact Hpe].
  destruct (_ && _ && _); [exact Hpe|]. clear Hpe. apply wp_bind.
  apply (wp_mono _ _ (fun r s' => stable k s s' /\ (r.2 = true -> r.1 = None))).
  2:{ destruct (0 <? fh_Length fh); [eapply processData_window_ok; [done|lia|done..]|].
      apply wp_ret. split; [by apply stable_refl|done]. }
  intros [err go] s1 [Hs1 Hgo]. pose proof Hs1 as (Hi1 & Hmu1 & Hwmu1 & _). cbn in Hgo.
  destruct (stable_lookup _ _ _ id Hs1) as [c1 El1]; [by eexists|].
  destruct go.
  - apply wp_bind. apply (wp_mono _ _ (fun _ s' => stable k s s')).
    + intros [] s2 Hs2. apply wp_ret. unfold err_slack. cbn. by rewrite Z.sub_0_r.
    + destruct (FrameStreamEnded fh); [|by apply wp_ret].
      eapply wp_mono; [|by eapply wp_endStream]. intros [] s2 Hs2. by eapply stable_trans.
  - apply wp_ret. destruct Hs1 as (_ & Hrest). refine (conj _ Hrest).
    eapply cinv_less; [|exact Hi1]. unfold err_slack. destruct (is_set err); lia.
Qed.

(** *** Control frames *)
Lemma keeps_with_mu_modify k f s : (forall s', core (f s') = core s' /\ wmu (f s') = wmu s') ->
  keeps k (with_mu (modify f)) s.
Proof.
  intros Hf Hi Hmu Hwmu. apply wp_with_mu; [done|]. apply wp_modify. destruct (Hf (set_mu true s)) as (Hc & Hw).
  refine (conj _ (conj eq_refl (conj _ _))); [by eapply (cinv_core k s)|cbn; rewrite Hw; exact Hwmu|].
  exact (core_ids _ _ Hc).
Qed.

Lemma dom_for_streams f s : ids (for_streams f s) = ids s.
Proof.
  unfold ids. do 3 f_equal. apply set_eq. intros i. cbn. rewrite !elem_of_dom, map_lookup_imap.
  destruct (stream_objs s !! i); cbn; split; intros [x Hx]; try done; by eexists.
Qed.

Lemma setGoAway_ok k f s : keeps k (setGoAway f) s.
Proof.
  intros Hi Hmu Hwmu. apply wp_with_mu; [done|]. apply wp_bind, wp_get, wp_bind, wp_modify, wp_bind, wp_modify, wp_modify.
  match goal with |- stable _ _ (set_mu _ (for_streams ?g ?x)) => set (s1 := x); set (gg := g) end.
  assert (core s1 = core s /\ wmu s1 = wmu s) as [Hc1 Hw1]
    by (unfold s1; destruct (len (goAwayDebug (set_mu true s)) =? 0); done).
  pose proof (cinv_core _ _ _ Hc1 Hi) as Hi1.
  refine (conj _ (conj eq_refl (conj _ _))).
  - apply (cinv_core k (for_streams gg s1)); [done|]. apply cinv_for_streams; [|done].
    intros id cs Hok. unfold gg. destruct (id <=? _); [done|]. destruct (_ && _); by apply abort_good.
  - transitivity (wmu s1); [reflexivity|congruence].
  - etransitivity; [apply (dom_for_streams gg)|]. exact (core_ids _ _ Hc1).
Qed.

Lemma processGoAway_ok k f s : keeps k (processGoAway f) s.
Proof.
  apply keeps_bind; [by apply keeps_modify|]. intros. apply keeps_bind; [apply setGoAway_ok|].
  intros. apply keeps_ret.
Qed.

Lemma setting_value_range p (se : Setting) : bytes_ok p -> se ∈ settings_list p -> is_u32 (S_Val se).
Proof.
  intros Hp (i & -> & _)%list_elem_of_fmap. cbn. apply get_u32_range.
  unfold slice_from. by apply Forall_drop.
Qed.

Lemma flow_upd_good d : is_i32 d ->
  good_upd (fun cs : clientStream B => set_cs_flow (fst (Outflow.add (cs_flow cs) d)) cs).
Proof.
  intros Hd cs (Hp & Hfl & Hb & Hof & Hrest). split; [|done].
  refine (conj Hp (conj Hfl (conj Hb (conj _ Hrest)))). cbn. rewrite Outflow.add_spec by done.
  destruct (Z.leb_spec (cs_flow cs + d) maxWindow), (Z.leb_spec (- 2 ^ 31) (cs_flow cs + d)); cbn; try done.
  unfold maxWindow in *. word.
Qed.

Lemma apply_setting_ok k s0 acc se acc' e : is_u32 (S_Val se) ->
  cinv k acc.1 -> ids acc.1 = ids s0 -> mu acc.1 = true -> wmu acc.1 = true ->
  apply_setting acc se = (acc', e) ->
  cinv k acc'.1 /\ ids acc'.1 = ids s0 /\ mu acc'.1 = true /\ wmu acc'.1 = true.
Proof.
  destruct acc as [cc seen]. cbn. intros Hv Hi Hd Hm Hw. unfold apply_setting.
  destruct (_ =? _); [by intros [= <- <-]|]. destruct (_ =? _); [by intros [= <- <-]|].
  destruct (_ =? _); [by intros [= <- <-]|]. destruct (_ =? _); [|by intros [= <- <-]].
  destruct (Z.ltb_spec 2147483647 (S_Val se)); intros [= <- <-]; [done|]. cbn.
  set (delta := i32 _).
  assert (cinv k (for_streams (fun _ cs => set_cs_flow (fst (Outflow.add (cs_flow cs) delta)) cs) cc))
    as (Hin & Hall & Hfl & Hb & Hf & _).
  { apply cinv_for_streams; [|done]. intros _ cs Hok. apply flow_upd_good; [apply i32_range|done]. }
  split; [|split; [by rewrite <- Hd; apply dom_for_streams|done]].
  refine (conj Hin (conj Hall (conj Hfl (conj Hb (conj Hf _))))). cbn. unfold maxWindow. word.
Qed.

Lemma foreach_settings_ok k s0 l : forall acc acc' e, Forall (fun se => is_u32 (S_Val se)) l ->
  cinv k acc.1 -> ids acc.1 = ids s0 -> mu acc.1 = true -> wmu acc.1 = true ->
  foreach_settings apply_setting acc l = (acc', e) ->
  cinv k acc'.1 /\ ids acc'.1 = ids s0 /\ mu acc'.1 = true /\ wmu acc'.1 = true.
Proof.
  induction l as [|se l IH]; intros acc acc' e Hall Hi Hd Hm Hw; cbn; [by intros [= <- <-]|].
  apply Forall_cons in Hall as [Hse Hall].
  destruct (apply_setting acc se) as [a1 e1] eqn:E1.
  pose proof (apply_setting_ok _ _ _ _ _ _ Hse Hi Hd Hm Hw E1) as (Hi1 & Hd1 & Hm1 & Hw1).
  destruct e1; [by intros [= <- <-]|]. by apply IH.
Qed.

Lemma processSettings_ok k fh p s : fh_valid fh = true -> bytes_ok p ->
  keeps k (processSettings fh p) s.
Proof.
  intros Hv Hp Hi Hmu Hwmu. unfold processSettings. apply wp_with_wmu; [done|]. apply wp_bind.
  apply (wp_mono _ _ (fun r s1 => cinv k s1 /\ mu s1 = false /\ wmu s1 = true
    /\ ids s1 = ids s)).
  - intros r s1 (Hi1 & Hm1 & Hw1 & Hd1).
    assert (forall s2, core s2 = core s1 -> mu s2 = mu s1 -> stable k s (set_wmu false s2)) as Hfin.
    { intros s2 Hc2 Hm2. refine (conj (cinv_core _ _ _ Hc2 Hi1) (conj _ (conj eq_refl _))); cbn; [congruence|].
      rewrite <- Hd1. exact (core_ids _ _ Hc2). }
    destruct (is_set r); [by apply wp_ret, Hfin|]. apply wp_bind.
    destruct (negb _); [|by apply wp_ret, wp_ret, Hfin].
    apply wp_bind, wp_write_frame; [intros e|]; apply wp_bind, wp_flush, wp_ret, wp_ret; by apply Hfin.
  - unfold processSettingsNoWrite. apply wp_with_mu; [done|]. apply wp_bind, wp_get. cbn [wantSettingsAck set_mu set_wmu].
    destruct (SettingsFrame_IsAck fh).
    { destruct (wantSettingsAck s); [apply wp_bind, wp_modify|]; by apply wp_ret. }
    unfold SettingsFrame_ForeachSetting, checked. rewrite Hv.
    destruct (foreach_settings apply_setting _ (settings_list p)) as [[cc seen] err] eqn:Ef.
    apply wp_bind. eapply wp_lift; [reflexivity|]. apply wp_bind, wp_modify.
    apply (foreach_settings_ok k s) in Ef as (Hi1 & Hd1 & Hm1 & Hw1); [|..|exact Hi|done|done|done].
    2:{ apply Forall_forall. intros se Hse. by eapply setting_value_range. }
    cbn in Hi1, Hd1, Hm1, Hw1.
    destruct (is_set err); [by apply wp_ret|]. apply wp_bind, wp_modify, wp_ret.
    destruct (negb (seenSettings cc)); [destruct (negb seen)|]; done.
Qed.

(** The increments a connection accepts without overflowing a stream's window. *)
Definition window_update_fits s id inc : Prop :=
  forall cs, find_stream s id = Some cs -> cs_flow cs + inc <= maxWindow.

Lemma processWindowUpdate_ok k fh inc s : 1 <= inc < 2 ^ 31 ->
  window_update_fits s (fh_StreamID fh) inc ->
  keeps k (processWindowUpdate fh inc) s.
Proof.
  intros Hinc Hfit Hi Hmu Hwmu. unfold processWindowUpdate. set (id := fh_StreamID fh) in *.
  apply wp_bind, wp_streamByID; [done|].
  destruct (find_stream s id) as [cs|] eqn:Ef; cbn [is_set negb andb].
  - specialize (Hfit cs Ef). rewrite andb_false_r.
    apply find_stream_Some in Ef as (El & _ & _).
    apply wp_with_mu; [done|]. apply wp_bind, wp_get, wp_bind. eapply wp_get_cs; [exact El|].
    pose proof (cinv_lookup _ _ _ _ Hi El) as Hok.
    rewrite (i32_small inc) by word. pose proof Hok as (_ & _ & _ & Hof & _).
    pose proof (flow_upd_good inc ltac:(word)) as Hg. destruct (Hg cs Hok) as [Hok' _].
    rewrite Outflow.add_spec in * by (done || word).
    destruct (Z.leb_spec (cs_flow cs + inc) maxWindow); [|lia].
    destruct (Z.leb_spec (- 2 ^ 31) (cs_flow cs + inc)); [|unfold is_i32 in Hof; lia].
    cbn [andb fst] in *. apply wp_bind, wp_modify_cs. cbn [negb]. apply wp_ret.
    refine (conj _ (conj eq_refl (conj Hwmu _))); [|ids_eq].
    apply (cinv_core k (set_stream_objs (alter (set_cs_flow (cs_flow cs + inc)) id (stream_objs s)) s)); [done|].
    by eapply cinv_cs_same.
  - rewrite andb_true_r. destruct (negb (id =? 0)); [by apply wp_ret, stable_refl|].
    apply wp_with_mu; [done|]. apply wp_bind, wp_get. cbn [flow set_mu].
    pose proof Hi as (Hin & Hall & Hfl & Hb & Hf & Hw).
    rewrite (i32_small inc), Outflow.add_spec by (done || word).
    assert (forall n, is_i32 n -> stable k s (set_mu false (set_flow n (set_mu true s)))) as Hst.
    { intros n Hn. refine (conj _ (conj eq_refl (conj Hwmu eq_refl))).
      exact (conj Hin (conj Hall (conj Hfl (conj Hb (conj Hn Hw))))). }
    destruct (Z.leb_spec (flow s + inc) maxWindow), (Z.leb_spec (- 2 ^ 31) (flow s + inc)); cbn [andb];
      apply wp_bind, wp_modify; cbn [negb]; apply wp_ret, Hst; unfold maxWindow in *; try done; word.
Qed.

Lemma processResetStream_ok k fh code s : keeps k (processResetStream fh code) s.
Proof.
  intros Hi Hmu Hwmu. unfold processResetStream. set (id := fh_StreamID fh).
  apply wp_bind, wp_streamByID; [done|].
  destruct (find_stream s id) as [cs|] eqn:Ef; [|by apply wp_ret, stable_refl].
  apply find_stream_Some in Ef as (El & _ & _).
  apply wp_bind. apply (wp_mono _ _ (fun _ s1 => stable k s s1)).
  2:{ destruct (code =? ErrCodeProtocol); [by apply keeps_with_mu_modify|by apply wp_ret, stable_refl]. }
  intros [] s1 Hs1. pose proof Hs1 as (Hi1 & Hm1 & Hw1 & _).
  apply wp_bind. eapply wp_mono; [|by apply (keeps_abortStream k)]. intros [] s2 Hs2.
  pose proof Hs2 as (Hi2 & Hm2 & Hw2 & _). pose proof (stable_trans _ _ _ _ _ Hs1 Hs2) as Hs02.
  destruct (stable_lookup _ _ _ id Hs02) as [c2 El2]; [by eexists|].
  apply wp_bind. eapply wp_get_cs; [exact El2|].
  pose proof (cinv_lookup _ _ _ _ Hi2 El2) as (Hp & Hfl & Hb & Hrest).
  destruct (pipe_close_ok (cs_bufPipe c2) (StreamError id code (Some errFromPeer)) None Hp) as (p' & Hp' & Hok' & Hh').
  apply wp_bind. eapply wp_lift; [exact Hp'|]. apply wp_bind, wp_modify_cs, wp_ret.
  eapply stable_trans; [exact Hs02|]. refine (conj _ (conj Hm2 (conj Hw2 _))); [|ids_eq].
  eapply cinv_cs_same; [done|exact El2| |exact Hh'].
  refine (conj Hok' (conj Hfl (conj _ Hrest))). unfold cs_held in *. cbn. lia.
Qed.

Lemma processPing_ok k fh data s : keeps k (processPing fh data) s.
Proof.
  intros Hi Hmu Hwmu. unfold processPing. destruct (PingFrame_IsAck fh).
  - apply wp_with_mu; [done|]. apply wp_bind, wp_get, wp_bind. case_bool_decide.
    + apply wp_bind, wp_modify, wp_modify, wp_ret. by refine (conj _ (conj _ (conj _ _))).
    + apply wp_ret, wp_ret. by refine (conj _ (conj _ (conj _ _))).
  - apply wp_with_wmu; [done|]. apply wp_bind, wp_write_frame; [intros e|]; cbn [is_set].
    + apply wp_ret. by refine (conj _ (conj _ (conj _ _))).
    + apply wp_flush. by refine (conj _ (conj _ (conj _ _))).
Qed.

(** *** The loop *)

(** What the framer guarantees of the frames it returns. *)
Definition frame_in_ok (f : Frame) : Prop :=
  match f with
  | DataFrame h d => data_frame_ok h d
  | SettingsFrame h p => fh_valid h = true /\ bytes_ok p
  | WindowUpdateFrame _ inc => 1 <= inc < 2 ^ 31
  | _ => True
  end.

Definition read_ok (rd : option Frame * option error * option error) : Prop :=
  rd.1.2 = None -> exists f, rd.1.1 = Some f /\ frame_in_ok f.

(** The frame is a WINDOW_UPDATE that overflows the window of a live stream. *)
Definition overflows s (f : option Frame) : Prop :=
  match f with
  | Some (WindowUpdateFrame h inc) => ~ window_update_fits s (fh_StreamID h) inc
  | _ => False
  end.

Lemma run_step_ok k got f err detail s : read_ok (f, err, detail) -> 2 ^ 24 <= k ->
  ~ overflows s f -> cinv k s -> mu s = false -> wmu s = false ->
  wp R (run_step (D := D) t newBuf got1xx got f err detail)
    (fun r s' => stable (k - err_slack r.2) s s') s.
Proof.
  intros Hrd Hk Hov Hi Hmu Hwmu. unfold run_step.
  assert (forall r : bool * option error, wp R (ret r) (fun r s' => stable (k - err_slack r.2) s s') s) as Hret.
  { intros r. apply wp_ret, stable_refl; [|done..]. eapply cinv_less; [|exact Hi].
    unfold err_slack. destruct (is_set r.2); lia. }
  destruct err as [e|].
  { destruct e; try apply Hret. apply wp_bind, wp_streamByID; [done|].
    destruct (find_stream s StreamID) as [cs|]; cbn [is_set]; apply wp_bind; [|apply wp_ret, Hret].
    eapply wp_mono; [|by apply (keeps_endStreamError k)]. intros [] s' Hs'. apply wp_ret.
    unfold err_slack. cbn. by rewrite Z.sub_0_r. }
  destruct (Hrd eq_refl) as (f' & [= ->] & Hf). destruct (negb got && _); [apply Hret|].
  apply wp_bind. apply (wp_mono _ _ (fun r s' => stable (k - err_slack r) s s')); [by intros; apply wp_ret|].
  assert (forall m, keeps k m s -> wp R m (fun r s' => stable (k - err_slack r) s s') s) as Hk'
    by (intros m Hm; by apply (keeps_keeps_err k m s Hm)).
  destruct f'; try (apply Hk', keeps_ret); cbn in Hf.
  - by eapply processData_ok.
  - apply Hk', processResetStream_ok.
  - destruct Hf. by apply Hk', processSettings_ok.
  - apply Hk', processPing_ok.
  - apply Hk', processGoAway_ok.
  - apply Hk', processWindowUpdate_ok; [done|]. cbn in Hov. intros cs Hcs.
    destruct (Z.le_gt_cases (cs_flow cs + Increment) maxWindow) as [|Hgt]; [done|].
    exfalso. apply Hov. intros Hfit. specialize (Hfit cs Hcs). lia.
  - apply Hk', processHeaders_ok.
Qed.

(** *** The response body *)
Lemma copyTrailers_good cs : is_Some (cs_res cs) -> exists cs', copyTrailers cs = Some cs' /\ (cs_ok cs -> cs_ok cs') /\ cs_held cs' = cs_held cs /\ cs_inflow cs' = cs_inflow cs.
Proof. intros [res Hr]. unfold copyTrailers. rewrite Hr. eexists. split; [reflexivity|]. done. Qed.

(** [n] bytes have left the pipe and are not returned yet. *)
Definition unreturned (k n id : Z) s0 s : Prop :=
  cinv (k + n) s /\ mu s = false /\ wmu s = false /\ ids s = ids s0
  /\ exists c, stream_objs s !! id = Some c /\ total (cs_inflow c) + cs_held c + n <= maxWindow.

Lemma unreturned_upd k n id s0 s f : unreturned k n id s0 s ->
  (forall c, cs_ok c -> stream_objs s !! id = Some c ->
    cs_ok (f c) /\ cs_held (f c) = cs_held c /\ cs_inflow (f c) = cs_inflow c) ->
  unreturned k n id s0 (set_stream_objs (alter f id (stream_objs s)) s).
Proof.
  intros (Hi & Hm & Hw & Hd & c & El & Ht) Hf.
  destruct (Hf c (cinv_lookup _ _ _ _ Hi El) El) as (Hok & Hh & Hfl).
  refine (conj _ (conj Hm (conj Hw (conj _ _)))).
  - by eapply cinv_cs_same.
  - rewrite <- Hd. ids_eq.
  - exists (f c). split; [by apply alter_lookup_Some|]. by rewrite Hfl, Hh.
Qed.

Lemma unreturned_stable k n id s0 s : 0 <= n -> unreturned k n id s0 s -> stable k s0 s.
Proof.
  intros Hn (Hi & Hm & Hw & Hd & _). refine (conj _ (conj Hm (conj Hw Hd))).
  eapply cinv_less; [|exact Hi]. lia.
Qed.

(** The critical section that returns the bytes and the updates it sends. *)
Lemma wp_return_flow k n id s0 s (err : option error) (data : bytes) : 0 <= k -> 0 <= n ->
  unreturned k n id s0 s ->
  wp R (lock_mu ;;
      s <- get ;;
      let* (cin, connAdd) := lift (Inflow.add (cc_inflow s) n) in
      modify (set_cc_inflow cin) ;;
      cs <- get_cs id ;;
      streamAdd <- (if is_set err then ret 0 else
                      let* (sin, a) := lift (Inflow.add (cs_inflow cs) n) in
                      modify_cs id (set_cs_inflow sin) ;; ret a) ;;
      unlock_mu ;;
      (if negb (connAdd =? 0) || negb (streamAdd =? 0) then
         with_wmu (
           (if negb (connAdd =? 0) then
              match mustUint31 connAdd with
              | Some v => write_frame (OpWindowUpdate 0 v) ;; ret tt
              | None => panic "out of range"
              end
            else ret tt) ;;
           (if negb (streamAdd =? 0) then
              match mustUint31 streamAdd with
              | Some v => write_frame (OpWindowUpdate (ID_of id) v) ;; ret tt
              | None => panic "out of range"
              end
            else ret tt) ;;
           flush ;; ret tt)
       else ret tt) ;;
      ret (data, err)) (fun _ s' => stable k s0 s') s.
Proof.
  intros Hk Hn (Hi & Hm & Hw & Hd & c & El & Ht).
  apply wp_bind, wp_lock_mu; [done|]. apply wp_bind, wp_get.
  assert (in_data (k + n) n id s0 (set_mu true s)) as Hst1.
  { refine (conj Hi (conj eq_refl (conj Hw (conj Hd _)))). by exists c. }
  destruct (wp_refund_conn _ _ _ _ _ n (cc_inflow (set_mu true s)) Hst1) as (f' & a & Ha & Hst2); [lia|done|].
  assert (0 <= a) as Hapos.
  { pose proof Hi as (_ & Hall & _). pose proof (held_sum_nonneg _ Hall).
    destruct Hi as (_ & _ & Hfl & Hb & _).
    destruct (inflow_add_ok (cc_inflow s) n) as (? & ? & Heq & _ & _ & Hr); [done|lia|lia|].
    cbn in Ha. rewrite Heq in Ha. injection Ha as <- <-. lia. }
  apply wp_bind. eapply wp_lift; [exact Ha|]. apply wp_bind, wp_modify.
  pose proof Hst2 as (_ & _ & _ & _ & c2 & El2 & _).
  apply wp_bind. eapply wp_get_cs; [exact El2|]. apply wp_bind.
  assert (exists s3 sa, 0 <= sa /\ in_data k 0 id s0 s3 /\
    forall Q : Z -> ClientConn B -> Prop, Q sa s3 -> wp R (if is_set err then ret 0 else
      let* (sin, a) := lift (Inflow.add (cs_inflow c2) n) in
      modify_cs id (set_cs_inflow sin) ;; ret a) Q (set_cc_inflow f' (set_mu true s)))
    as (s3 & sa & Hsa & Hst3 & Hwp).
  { replace (k + n - n) with k in Hst2 by lia. destruct (is_set err).
    - exists (set_cc_inflow f' (set_mu true s)), 0. split; [done|]. split; [|by intros Q HQ].
      destruct Hst2 as (Hi2 & Hm2 & Hw2 & Hd2 & c' & Ec & Ht').
      refine (conj Hi2 (conj Hm2 (conj Hw2 (conj Hd2 _)))). exists c'. split; [done|lia].
    - pose proof Hst2 as (Hi2 & _ & _ & _ & c' & Ec & Ht'). rewrite El2 in Ec. injection Ec as <-.
      pose proof (cinv_lookup _ _ _ _ Hi2 El2) as (Hp & Hfl & _). pose proof (held_nonneg _ Hp).
      destruct (wp_refund_stream _ _ _ _ _ n c2 Hst2) as (f4 & a4 & Ha4 & Hst4); [lia|done|].
      eexists _, a4. split; [|split; [replace (n - n) with 0 in Hst4 by lia; exact Hst4|]].
      + unfold cs_held in Ht'. destruct (inflow_add_ok (cs_inflow c2) n) as (? & ? & Heq & _ & _ & Hr); [done|lia|lia|].
        rewrite Heq in Ha4. injection Ha4 as <- <-. lia.
      + intros Q HQ. apply wp_bind. eapply wp_lift; [exact Ha4|]. apply wp_bind, wp_modify_cs, wp_ret. exact HQ. }
  apply Hwp. clear Hwp. destruct Hst3 as (Hi3 & _ & Hw3 & Hd3 & _).
  apply wp_bind, wp_unlock_mu, wp_bind.
  assert (forall s4, core s4 = core s3 -> mu s4 = false -> wmu s4 = false -> stable k s0 s4) as Hfin.
  { intros s4 Hc4 Hm4 Hw4. refine (conj (cinv_core _ _ _ Hc4 Hi3) (conj Hm4 (conj Hw4 _))).
    rewrite <- Hd3. by apply core_ids. }
  destruct (_ || _); [|by apply wp_ret, wp_ret, Hfin].
  apply wp_with_wmu; [done|]. unfold mustUint31.
  destruct (Z.ltb_spec a 0); [lia|]. destruct (Z.ltb_spec sa 0); [lia|].
  apply wp_bind. destruct (negb (a =? 0)); [apply wp_bind, wp_write_frame; [intros e|]|]; apply wp_ret, wp_bind;
    (destruct (negb (sa =? 0)); [apply wp_bind, wp_write_frame; [intros e'|]|];
     apply wp_ret, wp_bind, wp_flush, wp_ret, wp_ret; by apply Hfin).
Qed.

Lemma body_Read_ok k id room s cs : 0 <= k -> 0 <= room -> stream_objs s !! id = Some cs -> is_Some (cs_res cs) ->
  cinv k s -> mu s = false -> wmu s = false -> R s ->
  wp R (body_Read id room) (fun _ s' => stable k s s') s.
Proof.
  intros Hk Hroom El Hres Hi Hmu Hwmu HR. unfold body_Read. apply wp_bind. eapply wp_get_cs; [exact El|].
  destruct (is_set (cs_readErr cs)); [by apply wp_ret, stable_refl|].
  pose proof (cinv_lookup _ _ _ _ Hi El) as (Hp & Hfl & Hb & Hof & Hpc & Hrh & Hbr).
  pose proof (pipe_Read_ok (cs_bufPipe cs) room Hp Hroom) as Hread.
  destruct (pipe_Read (cs_bufPipe cs) room) as [p d err ran| |]; [|exact HR|done].
  destruct Hread as (Hp' & Hheld & _ & Hd). pose proof (len_nonneg d) as Hnn. set (n := len d) in *.
  apply wp_bind, wp_modify_cs. unfold cs_held in *.
  match goal with |- wp _ _ _ ?x => set (s1 := x) end.
  assert (unreturned k n id s s1) as Hu1.
  { refine (conj _ (conj Hmu (conj Hwmu (conj _ _)))).
    - replace (k + n) with (k - - n) by lia. eapply cinv_cs; [done|exact El| |unfold cs_held; cbn; lia].
      refine (conj Hp' (conj Hfl (conj _ (conj Hof (conj Hpc (conj Hrh Hbr)))))). unfold cs_held; cbn. lia.
    - ids_eq.
    - exists (set_cs_bufPipe p cs). split; [by apply alter_lookup_Some|]. unfold cs_held. cbn [cs_inflow cs_bufPipe set_cs_bufPipe]. lia. }
  assert (stream_objs s1 !! id = Some (set_cs_bufPipe p cs)) as El1 by by apply alter_lookup_Some.
  clearbody s1. apply wp_bind.
  apply (wp_mono _ _ (fun _ s2 => unreturned k n id s s2)).
  2:{ destruct (is_set ran); [|by apply wp_ret]. apply wp_bind. eapply wp_get_cs; [exact El1|].
      destruct (copyTrailers_good (set_cs_bufPipe p cs) Hres) as (cs' & -> & Hg & Hgh & Hgi). apply wp_modify_cs, unreturned_upd; [done|].
      intros c Hok Ec. rewrite El1 in Ec. injection Ec as <-. auto. }
  intros [] s2 Hu2. set (remain := cs_bytesRemain cs) in *.
  assert (forall v s3, unreturned k n id s s3 -> unreturned k n id s (set_stream_objs (alter (set_cs_readErr v) id (stream_objs s3)) s3)) as Hre.
  { intros v s3 Hu3. apply unreturned_upd; [done|]. intros c Hok _. done. }
  destruct (negb (remain =? -1) && (remain <? n)) eqn:Etr.
  - apply wp_bind. apply (wp_mono _ _ (fun _ s3 => stable k s s3)).
    + intros [] s3 Hs3. pose proof Hs3 as (Hi3 & Hm3 & Hw3 & Hd3).
      apply wp_bind, wp_modify_cs, wp_ret.
      assert (good_upd (set_cs_readErr (if is_set err then err
                 else Some (errors_New "net/http: server replied with more than declared Content-Length; truncated")))) as Hg by good.
      refine (conj (cinv_upd _ _ _ _ Hg Hi3) (conj Hm3 (conj Hw3 _))). rewrite <- Hd3. ids_eq.
    + pose proof (unreturned_stable _ _ _ _ _ Hnn Hu2) as Hs2. pose proof Hs2 as (Hi2 & Hm2 & Hw2 & _).
      destruct err as [e|]; cbn [is_set]; [by apply wp_ret|].
      eapply wp_mono; [|by apply (keeps_abortStream k)]. intros [] s3 Hs3. by eapply stable_trans.
  - apply wp_bind. apply (wp_mono _ _ (fun _ s3 => unreturned k n id s s3)).
    2:{ destruct (Z.eqb_spec remain (-1)) as [|Hne]; cbn [negb]; [by apply wp_ret|].
        cbn [negb andb] in Etr. apply Z.ltb_ge in Etr. apply wp_modify_cs, unreturned_upd; [done|].
        intros c (Hcp & Hcf & Hcb & Hco & Hcc & Hch & Hcr) _. split; [|done].
        refine (conj Hcp (conj Hcf (conj Hcb (conj Hco (conj Hcc (conj Hch _)))))). cbn. lia. }
    intros [] s3 Hu3. pose proof (unreturned_stable _ _ _ _ _ Hnn Hu3) as Hs3.
    destruct (_ && _ && _).
    { apply wp_bind, wp_modify_cs, wp_ret. by eapply unreturned_stable; [|apply Hre]. }
    destruct (n =? 0); [by apply wp_ret|]. by apply wp_return_flow.
Qed.

(** [Close] on a body that was not closed before, or has nothing unread. *)
Lemma body_Close_ok k id s cs : 0 <= k -> stream_objs s !! id = Some cs ->
  p_breakErr (cs_bufPipe cs) = None \/ pipe_Len (cs_bufPipe cs) = 0 ->
  cinv k s -> mu s = false -> wmu s = false ->
  wp R (body_Close id) (fun _ s' => stable k s s') s.
Proof.
  intros Hk El Hnb Hi Hmu Hwmu. unfold body_Close. apply wp_bind. eapply wp_get_cs; [exact El|].
  pose proof (cinv_lookup _ _ _ _ Hi El) as (Hp & Hfl & Hb & Hof & Hpc & Hrh & Hbr).
  destruct (pipe_break_ok (cs_bufPipe cs) errClosedResponseBody Hp) as (p & Hbrk & Hp' & Hh0 & Hbrk' & Hlen).
  pose proof (pipe_Len_nonneg _ Hp) as Hnn.
  assert (cs_held cs = pipe_Len (cs_bufPipe cs)) as Hhl by (unfold cs_held, held_pipe; destruct Hnb as [-> | ->]; [done|by destruct (is_set _)]).
  set (n := pipe_Len (cs_bufPipe cs)) in *.
  apply wp_bind. eapply wp_lift; [exact Hbrk|]. apply wp_bind, wp_modify_cs.
  match goal with |- wp _ _ _ ?x => set (s1 := x) end.
  assert (cinv (k + n) s1) as Hi1.
  { replace (k + n) with (k - - n) by lia. eapply cinv_cs; [done|exact El| |unfold cs_held in *; cbn; lia].
    refine (conj Hp' (conj Hfl (conj _ (conj Hof (conj Hpc (conj Hrh Hbr)))))). unfold cs_held in *; cbn. lia. }
  pose proof (alter_lookup_Some (set_cs_bufPipe p) _ _ _ El) as El1.
  assert (ids s1 = ids s) as Hd1 by ids_eq.
  apply wp_bind. apply wp_with_mu; [done|]. apply wp_modify_cs.
  match goal with |- wp _ _ _ ?x => set (s2 := x) end.
  assert (cinv (k + n) s2) as Hi2 by exact (cinv_upd (k + n) s1 id _ (abort_good errClosedResponseBody) Hi1).
  pose proof (alter_lookup_Some (abortStreamLocked errClosedResponseBody) _ _ _ El1) as El2.
  assert (ids s2 = ids s) as Hd2 by ids_eq.
  assert (mu s2 = false) as Hm2 by done. assert (wmu s2 = false) as Hw2 by exact Hwmu.
  change (stream_objs s2 !! id = Some (abortStreamLocked errClosedResponseBody (set_cs_bufPipe p cs))) in El2.
  assert (cs_bufPipe (abortStreamLocked errClosedResponseBody (set_cs_bufPipe p cs)) = p) as Hpp.
  { unfold abortStreamLocked, closeReqBodyLocked. cbn. repeat case_match; done. }
  clearbody s1 s2. apply wp_bind. eapply wp_get_cs; [exact El2|]. rewrite Hpp, Hlen. fold n.
  destruct (Z.ltb_spec 0 n) as [Hn|Hn].
  2:{ apply wp_ret. refine (conj _ (conj Hm2 (conj Hw2 Hd2))). eapply cinv_less; [|exact Hi2]. lia. }
  apply wp_bind, wp_lock_mu; [done|]. apply wp_bind, wp_get.
  destruct (cinv_add (k + n) s2 n Hi2) as (f' & a & Ha & Hi3 & _); [lia|].
  apply wp_bind. eapply wp_lift; [exact Ha|]. apply wp_bind, wp_modify, wp_bind, wp_unlock_mu.
  replace (k + n - n) with k in Hi3 by lia.
  apply wp_with_wmu; [done|]. apply wp_bind.
  destruct (0 <? a); [apply wp_bind, wp_write_frame; [intros e|]|]; apply wp_ret, wp_bind, wp_flush, wp_ret;
    exact (conj Hi3 (conj eq_refl (conj eq_refl Hd2))).
Qed.
End Handlers.
