(* ===== verification/H2System.v ===== *)
(** * The connection as a transition system

    Every interleaving of the goroutines of a connection, at the granularity of
    the operations of [H2Conn] and [H2ReadLoop]: one step is one iteration of the
    read loop, one call on a response body, or one operation of a request's own
    goroutine. [sysinv] holds in every reachable state, and no operation panics
    or deadlocks there. *)

From S2P Require Import Prelude.
From S2P Require Import H2Errors.
From S2P Require Import Flow.
From S2P Require Import DataBuffer.
From S2P Require Import Pipe.
From S2P Require Import Frame.
From S2P Require Import FrameWrite.
From S2P Require Import Framer.
From S2P Require Import NetText.
From S2P Require Import ConnState.
From S2P Require Import H2Transport.
From S2P Require Import H2Conn.
From S2P Require Import H2ReadLoop.
From S2P Require Import H2Safe.
Import ConnNotations.

(** ** The frames the framer delivers *)
Section Delivery.
Import Reader.
Context {D : Type} `{HpackDecoder D} (ValidHeaderFieldValue : string -> bool) (IsTokenRune : Z -> bool).
Implicit Types fr : Framer D.

Lemma io_ReadFull_bytes rd n v rd' : bytes_ok rd -> 0 <= n -> io_ReadFull rd n = (v, rd') ->
  bytes_ok rd' /\ (forall p, v = Ok p -> bytes_ok p /\ len p = n).
Proof.
  intros Hb Hn. unfold io_ReadFull. destruct (Z.leb_spec n (len rd)); intros [= <- <-].
  - split; [by apply Forall_drop|]. intros p [= <-]. split; [by apply Forall_take|].
    unfold slice_to, len in *. rewrite length_take. lia.
  - split; [constructor|done].
Qed.

Lemma get_u24_range p : bytes_ok p -> 0 <= get_u24 p < 2 ^ 24.
Proof.
  intros Hp. unfold get_u24.
  pose proof (bytes_ok_lookup p 0 Hp). pose proof (bytes_ok_lookup p 1 Hp). pose proof (bytes_ok_lookup p 2 Hp).
  rewrite !lor_byte by assumption. word.
Qed.

Lemma readFrameHeader_bytes rd fh rd' : bytes_ok rd -> readFrameHeader rd = (Ok fh, rd') ->
  bytes_ok rd' /\ fh_valid fh = true /\ 0 <= fh_Length fh < 2 ^ 24.
Proof.
  intros Hb. unfold readFrameHeader. destruct (io_ReadFull rd frameHeaderLen) as [[buf|] r1] eqn:E; [|done].
  apply io_ReadFull_bytes in E as [Hr Hbuf]; [|done..]. destruct (Hbuf buf eq_refl) as [Hbo _].
  intros [= <- <-]. split; [done|]. split; [done|]. cbn. by apply get_u24_range.
Qed.

Ltac parser_cases Hp :=
  unfold typeFrameParser in Hp;
  repeat match type of Hp with match ?t with _ => _ end _ _ = _ => destruct t end;
  unfold parseDataFrame, parseHeadersFrame, parsePriorityFrame, parseRSTStreamFrame, parseSettingsFrame,
    parsePushPromise, parsePingFrame, parseGoAwayFrame, parseWindowUpdateFrame, parseContinuationFrame,
    parseUnknownFrame, readPriority, readByte in Hp;
  repeat case_match; simplify_eq.

Lemma parsed_delivers h p f : fh_valid h = true -> bytes_ok p -> len p = fh_Length h -> fh_Length h < 2 ^ 24 ->
  typeFrameParser (fh_Type h) h p = Parsed f -> frame_in_ok f.
Proof.
  intros Hv Hb Hl Hlt Hp. destruct (parser_ok _ _ _ Hp) as [Hok Hh].
  destruct f; cbn in Hok, Hh |- *; try done; subst fh.
  - split; [|lia]. rewrite <- Hl.
    parser_cases Hp; unfold slice_to, len in *; rewrite ?length_take; cbn [length] in *; lia.
  - split; [done|]. by parser_cases Hp.
Qed.

Definition delivers (rd : Framer D -> Reader.outcome * Framer D) : Prop :=
  forall fr o fr', bytes_ok (r fr) -> rd fr = (o, fr') ->
    bytes_ok (r fr') /\ (forall f, o = Returned f None -> exists f', f = Some f' /\ frame_in_ok f').

Lemma metaLoop_bytes rd n : delivers rd -> forall fr hf prio hc frag m, bytes_ok (r fr) ->
  match metaLoop ValidHeaderFieldValue IsTokenRune rd n fr hf prio hc frag m with
  | LoopReturn o fr' => bytes_ok (r fr') /\ (forall f, o <> Returned f None)
  | LoopBreak fr' _ _ => bytes_ok (r fr')
  end.
Proof.
  intros Hrd. induction n as [|n IH]; intros fr hf prio hc frag m Hb; cbn [metaLoop]; [done|].
  unfold checked at 1. destruct (fh_valid hc); [|done].
  destruct (_ <? len frag); [done|]. destruct (is_set (invalid m)); [done|].
  destruct (ReadMetaHeaders fr) as [d|]; [|done].
  destruct (hdec_Write _ _ _) as [[d' m1] err]. destruct (is_set err); [done|].
  destruct (Flags_Has _ _); [done|]. destruct (rd _) as [o fr1] eqn:Er.
  apply Hrd in Er as [Hb1 _]; [|done].
  destruct o as [[[]|] [e|]| |]; try done. by apply IH.
Qed.

Lemma ReadFrame_delivers fuel : delivers (ReadFrame ValidHeaderFieldValue IsTokenRune fuel).
Proof.
  induction fuel as [|fuel IH]; intros fr o fr' Hb; cbn [ReadFrame]; [by intros [= <- <-]|].
  destruct (readFrameHeader _) as [[fh|] r1] eqn:Eh.
  2:{ unfold readFrameHeader in Eh. destruct (io_ReadFull _ _) as [[|] r2] eqn:E; [done|].
      apply io_ReadFull_bytes in E as [Hr _]; [|done..]. injection Eh as <- <-. by intros [= <- <-]. }
  apply readFrameHeader_bytes in Eh as (Hb1 & Hv & Hl); [|done].
  destruct (_ <? fh_Length fh); [by intros [= <- <-]|].
  destruct (io_ReadFull _ _) as [[payload|] r2] eqn:E; apply io_ReadFull_bytes in E as [Hb2 Hp]; try done; try lia;
    [|by intros [= <- <-]]. destruct (Hp payload eq_refl) as [Hbp Hlp].
  destruct (typeFrameParser _ _ _) as [f|? e|] eqn:Hparse; [|destruct e; by intros [= <- <-]|by intros [= <- <-]].
  pose proof (parsed_delivers _ _ _ Hv Hbp ltac:(lia) ltac:(lia) Hparse) as Hf.
  set (fr1 := set_r _ r2). destruct (checkFrameOrder fr1 f) as [[fr2 e]|] eqn:Ho; [|by intros [= <- <-]].
  assert (bytes_ok (r fr2)) as Hb2'.
  { unfold checkFrameOrder, connError in Ho. repeat case_match; simplify_eq; done. }
  destruct e as [e|]; [by intros [= <- <-]|].
  destruct (_ && _); [|intros [= <- <-]; split; [done|]; intros ? [= <-]; eauto].
  destruct f as [|hh p1 frag| | | | | | | | | |]; try (by intros [= <- <-]).
  unfold readMetaFrame. destruct (AllowIllegalReads fr2); [by intros [= <- <-]|].
  destruct (ReadMetaHeaders fr2) as [d|]; [|by intros [= <- <-]].
  match goal with |- context [metaLoop _ _ _ _ ?x ?h ?p ?c ?g ?m] =>
    pose proof (metaLoop_bytes _ fuel IH x h p c g m Hb2') as Hml end.
  destruct (metaLoop _ _ _ _ _ _ _ _ _ _) as [o3 fr3|fr3 hf m].
  { intros [= <- <-]. destruct Hml as [Hb3 Hne]. split; [done|]. intros f ->. by destruct (Hne f). }
  destruct (ReadMetaHeaders fr3) as [d3|]; [|by intros [= <- <-]].
  destruct (hdec_Close d3) as [d4 [e|]]; [by intros [= <- <-]|]. cbn [is_set].
  destruct (invalid m); [by intros [= <- <-]|].
  destruct (checkPseudos (mh_Fields m)); intros [= <- <-]; [done|]. split; [done|].
  intros f [= <-]. by eexists.
Qed.
End Delivery.

Section System.
Context {B : Type} `{PipeBufferOk B} {D : Type} `{HpackDecoder D} (t : Transport)
  (newBuf : Z -> B) (got1xx : Z -> Header -> option error).
Context (newBuf_ok : forall n, pb_inv (newBuf n) /\ pb_contents (newBuf n) = []).
(** The parity of the stream IDs of the connection. *)
Context (par : bool).
Implicit Types s : ClientConn B.

(** ** Events other than the read loop's *)
Inductive event :=
| EBodyRead (id room : Z)
| EBodyClose (id : Z)
| ENewStream (r : Z) (cs : clientStream B)
| EOpen (r : Z) (connClose : bool)
| EWake (r : Z) (connClose : bool) (abortErr : option error)
| EReserve
| EDecrReservations
| EAwaitFlow (id n : Z) (ctx_err : option error) (canceled : bool)
| EAbortBodyWrite (id : Z)
| ECleanup (id : Z) (err : option error)
| ECloseIfIdle
| ESendGoAway
| EClose (err : error)
| EPing (p : bytes)
| EPingSend (p : bytes)
| EClock (now : Z)
| EWriteError (err : error)
| EWriteHeaders (id : Z) (endStream : bool) (hdrs : bytes)
| EWriteData (id : Z) (endStream : bool) (data : bytes).

Definition discard {A} (m : M B A) : M B unit := m ;; ret tt.

(** Writing an encoded header block, of a request or its trailer, with the peer's frame size;
    more rounds than octets means that the loop never ends, which counts as a failure here. *)
Definition write_block (id : Z) (endStream : bool) (hdrs : bytes) : M B unit :=
  with_wmu (
    s <- get ;;
    r <- writeHeaders t (S (length hdrs)) id endStream (peer_maxFrameSize s) hdrs ;;
    match r with Some _ => ret tt | None => panic "writeHeaders does not end" end).

Definition exec (e : event) : M B unit :=
  match e with
  | EBodyRead id room => discard (body_Read id room)
  | EBodyClose id => body_Close id
  | ENewStream r cs => modify (fun s => set_stream_objs (<[r := cs]> (stream_objs s)) s)
  | EOpen r c => discard (writeRequest_open t r c)
  | EWake r c ae => discard (writeRequest_reopen t r c ae)
  | EReserve => discard (ReserveNewRequest t)
  | EDecrReservations => decrStreamReservations
  | EAwaitFlow id n ctx canceled => discard (awaitFlowControl id n ctx canceled)
  | EAbortBodyWrite id => abortRequestBodyWrite id
  | ECleanup id err => cleanupWriteRequest t id err
  | ECloseIfIdle => closeIfIdle
  | ESendGoAway => discard sendGoAway
  | EClose err => closeForError err
  | EPing p => discard (Ping_register p)
  | EPingSend p => discard (Ping_send p)
  | EClock now => modify (set_clock now)
  | EWriteError err => modify (set_werr (Some err))
  | EWriteHeaders id endStream hdrs => write_block id endStream hdrs
  | EWriteData id endStream data =>
      with_wmu (err <- write_frame (OpData id endStream data None) ;; if is_set err then ret tt else flush ;; ret tt)
  end.

(** A stream that was not opened yet: no buffer, no window. *)
Definition unopened s (r : Z) : Prop :=
  r < 0 /\ exists cs, stream_objs s !! r = Some cs /\ cs_held cs = 0 /\ cs_inflow cs = Inflow.zero.

(** When the program calls the operation: on a stream that exists, for
    [cleanupWriteRequest] once, and a wake-up for a parked request. A body is read
    by who has its response; it may be closed again unless it was closed with bytes
    unread, which a second [Close] gives back to the peer a second time
    ([H2Body.double_close_refunds_twice]). Headers are written in frames of a positive
    size: with the frame size 0 the loop of [writeHeaders] never ends
    ([H2Props.zero_frame_size_accepted]). *)
Definition pre (e : event) s : Prop :=
  match e with
  | EBodyRead id room => (exists cs, stream_objs s !! id = Some cs /\ is_Some (cs_res cs)) /\ 0 <= room
  | EBodyClose id => exists cs, stream_objs s !! id = Some cs /\ (p_breakErr (cs_bufPipe cs) = None \/ pipe_Len (cs_bufPipe cs) = 0)
  | ENewStream r cs => r < 0 /\ stream_objs s !! r = None /\ cs_ok cs /\ cs_held cs = 0
      /\ cs_inflow cs = Inflow.zero
  | EOpen r _ => unopened s r
  | EWake r _ _ => unopened s r /\ 0 < pendingRequests s
  | EAwaitFlow id n _ _ => is_Some (stream_objs s !! id) /\ 0 <= n
  | ECleanup id _ => is_Some (stream_objs s !! id) /\ (id < 0 \/ id ∈ streams s)
  | EWriteHeaders _ _ _ => 0 < peer_maxFrameSize s
  | _ => True
  end.

(** ** The invariant of the system *)
Definition ids_ok s : Prop :=
  1 <= nextStreamID s <= 2 ^ 31 /\ 0 <= pendingRequests s
  /\ (forall id, is_Some (stream_objs s !! id) -> id < nextStreamID s)
  /\ Z.odd (nextStreamID s) = par /\ (forall id, id ∈ streams s -> Z.odd id = par).

(** The reserve of the read loop while it runs. *)
Definition slack (alive : bool) : Z := if alive then 2 ^ 24 else 0.

Definition sysinv (alive : bool) s : Prop :=
  cinv (slack alive) s /\ mu s = false /\ wmu s = false /\ ids_ok s.

Lemma ids_ok_eq s s' : ids s' = ids s -> ids_ok s -> ids_ok s'.
Proof.
  unfold ids, ids_ok. intros [= Hd Hst Hn Hp] (Hnext & Hpend & Hlt & Hodd). rewrite Hn, Hp, Hst.
  refine (conj Hnext (conj Hpend (conj _ Hodd))). intros id Hid. apply Hlt. apply elem_of_dom. rewrite <- Hd. by apply elem_of_dom.
Qed.

Lemma sysinv_stable alive s s' : sysinv alive s -> stable (slack alive) s s' -> sysinv alive s'.
Proof.
  intros (_ & _ & _ & Hids) (Hi & Hm & Hw & Hd). exact (conj Hi (conj Hm (conj Hw (ids_ok_eq _ _ Hd Hids)))).
Qed.

Lemma slack_nonneg alive : 0 <= slack alive.
Proof. destruct alive; cbn; lia. Qed.

(** [m] runs without panic or deadlock and keeps the invariant, also where
    it parks. *)
Definition safe {A} (alive : bool) (m : M B A) s : Prop :=
  sysinv alive s -> wp (sysinv alive) m (fun _ s' => sysinv alive s') s.

Lemma safe_keeps {A} alive (m : M B A) s :
  keeps (sysinv alive) (slack alive) m s -> safe alive m s.
Proof.
  intros Hk Hs. pose proof Hs as (Hi & Hm & Hw & _). eapply wp_mono; [|by apply Hk].
  intros a s' Hst. by eapply sysinv_stable.
Qed.

Lemma safe_discard {A} alive (m : M B A) s : safe alive m s -> safe alive (discard m) s.
Proof.
  intros Hm Hs. unfold discard. apply wp_bind. eapply wp_mono; [|by apply Hm]. intros a s' Hs'. by apply wp_ret.
Qed.

Lemma keeps_core R k f s : (forall s', core (f s') = core s' /\ mu (f s') = mu s' /\ wmu (f s') = wmu s') ->
  keeps R k (modify f) s.
Proof. apply keeps_modify. Qed.

(** Sections under [cc.mu] that leave the streams alone. *)
Lemma keeps_locked {A} R k (m : M B A) s :
  (forall s1, core s1 = core s -> mu s1 = true -> wmu s1 = wmu s ->
     wp R m (fun _ s2 => core s2 = core s /\ wmu s2 = wmu s) s1) ->
  keeps R k (with_mu m) s.
Proof.
  intros Hm Hi Hmu Hwmu. apply wp_with_mu; [done|].
  eapply wp_mono; [|by apply (Hm (set_mu true s))]. intros a s2 [Hc Hw].
  refine (conj (cinv_core _ _ _ Hc Hi) (conj eq_refl (conj _ (core_ids _ _ Hc)))).
  transitivity (wmu s2); [done|congruence].
Qed.

(** Writes to the connection under [cc.wmu]. *)
Lemma keeps_write {A} R k (m : M B A) s :
  (forall s1, core s1 = core s -> mu s1 = mu s -> wp R m (fun _ s2 => core s2 = core s /\ mu s2 = mu s) s1) ->
  keeps R k (with_wmu m) s.
Proof.
  intros Hm Hi Hmu Hwmu. apply wp_with_wmu; [done|].
  eapply wp_mono; [|by apply (Hm (set_wmu true s))]. intros a s2 [Hc Hw].
  refine (conj (cinv_core _ _ _ Hc Hi) (conj _ (conj eq_refl (core_ids _ _ Hc)))).
  transitivity (mu s2); [done|congruence].
Qed.

Lemma Reserve_ok R k s : keeps R k (ReserveNewRequest t) s.
Proof.
  apply keeps_locked. intros s1 Hc Hm Hw. apply wp_bind, wp_get. destruct (negb _); [by apply wp_ret|].
  by apply wp_bind, wp_modify, wp_ret.
Qed.

Lemma decrLocked_core s : core (decrStreamReservationsLocked s) = core s
  /\ mu (decrStreamReservationsLocked s) = mu s /\ wmu (decrStreamReservationsLocked s) = wmu s.
Proof. unfold decrStreamReservationsLocked. by destruct (_ <? _). Qed.

Lemma decr_ok R k s : keeps R k decrStreamReservations s.
Proof.
  apply keeps_locked. intros s1 Hc Hm Hw. apply wp_modify. destruct (decrLocked_core s1) as (Hdc & _ & Hdw).
  split; congruence.
Qed.

Lemma Ping_register_ok R k p s : keeps R k (Ping_register p) s.
Proof.
  apply keeps_locked. intros s1 Hc Hm Hw. apply wp_bind, wp_get. case_bool_decide; [by apply wp_ret|].
  by apply wp_bind, wp_modify, wp_ret.
Qed.

Lemma write_flush_ok R s o s1 : core s1 = core s -> mu s1 = mu s ->
  wp R (err <- write_frame o ;; if is_set err then ret err else flush)
    (fun _ s2 => core s2 = core s /\ mu s2 = mu s) s1.
Proof.
  intros Hc Hm. apply wp_bind, wp_write_frame; [intros e; by apply wp_ret|]. by apply wp_flush.
Qed.

Lemma Ping_send_ok R k p s : keeps R k (Ping_send p) s.
Proof. apply keeps_write. intros. by apply write_flush_ok. Qed.

Lemma writeStreamReset_ok R k id code s : keeps R k (writeStreamReset id code) s.
Proof.
  apply keeps_write. intros s1 Hc Hm.
  apply wp_bind, wp_write_frame; [intros e|]; by apply wp_bind, wp_flush, wp_ret.
Qed.

Lemma closeForError_ok R k err s : keeps R k (closeForError err) s.
Proof.
  intros Hi Hmu Hwmu. apply wp_bind, wp_lock_mu; [done|]. apply wp_bind, wp_modify, wp_bind, wp_modify.
  apply wp_bind, wp_unlock_mu, wp_modify.
  set (s1 := set_closed true (set_mu true s)).
  refine (conj _ (conj eq_refl (conj Hwmu _))).
  - apply (cinv_core k (for_streams (fun _ => abortStreamLocked err) s1)); [done|].
    apply cinv_for_streams; [|exact Hi]. intros id cs Hok. by apply abort_good.
  - exact (dom_for_streams (fun _ => abortStreamLocked err) s1).
Qed.

Lemma closeIfIdle_ok R k s : keeps R k closeIfIdle s.
Proof.
  intros Hi Hmu Hwmu. apply wp_bind, wp_lock_mu; [done|]. apply wp_bind, wp_get. destruct (_ || _).
  - apply wp_unlock_mu. exact (conj Hi (conj eq_refl (conj Hwmu eq_refl))).
  - apply wp_bind, wp_modify, wp_bind, wp_unlock_mu, wp_modify.
    exact (conj Hi (conj eq_refl (conj Hwmu eq_refl))).
Qed.

Lemma sendGoAway_ok R k s : keeps R k sendGoAway s.
Proof.
  intros Hi Hmu Hwmu. apply wp_bind, wp_lock_mu; [done|]. apply wp_bind, wp_get, wp_bind, wp_modify, wp_bind, wp_unlock_mu.
  cbn [closing set_mu]. set (s1 := set_mu false _).
  assert (stable k s s1) as Hs1 by exact (conj Hi (conj eq_refl (conj Hwmu eq_refl))).
  destruct (closing s); [by apply wp_ret|].
  eapply wp_mono; [|apply (keeps_write R k)]; [intros a s2 Hs2; exact (stable_trans _ _ _ _ _ Hs1 Hs2)| |exact Hi|done|exact Hwmu].
  intros. by apply write_flush_ok.
Qed.

Lemma abortBodyWrite_ok R k id s : keeps R k (abortRequestBodyWrite id) s.
Proof.
  apply keeps_with_mu_upd. intros cs Hok. unfold closeReqBodyLocked.
  destruct (_ && _); [destruct (cs_reqBodyClosed cs)|]; split; exact Hok || reflexivity.
Qed.

(** [awaitFlowControl] never takes more than is available. *)
Lemma awaitFlow_ok alive id n ctx canceled s : is_Some (stream_objs s !! id) -> 0 <= n ->
  safe alive (awaitFlowControl id n ctx canceled) s.
Proof.
  intros [cs El] Hn Hs. pose proof Hs as (Hi & Hm & Hw & Hids). unfold awaitFlowControl.
  apply wp_bind, wp_lock_mu; [done|]. apply wp_bind, wp_get, wp_bind. eapply wp_get_cs; [exact El|].
  assert (forall r : Z * option error, wp (sysinv alive) (unlock_mu ;; ret r) (fun _ s' => sysinv alive s') (set_mu true s)) as Hret.
  { intros r. apply wp_bind, wp_unlock_mu, wp_ret. exact (conj Hi (conj eq_refl (conj Hw Hids))). }
  destruct (closed _); [apply Hret|]. destruct (cs_reqBodyClosed cs); [apply Hret|].
  destruct (is_set (cs_abort cs)); [apply Hret|]. destruct (is_set ctx); [apply Hret|].
  destruct canceled; [apply Hret|]. clear Hret. cbn [flow set_mu peer_maxFrameSize].
  pose proof (cinv_lookup _ _ _ _ Hi El) as (Hp & Hfl & Hb & Hof & Hrest).
  pose proof Hi as (Hin & Hall & Hcf & Hcb & Hf & Hiw).
  set (a := Outflow.available (cs_flow cs) (Some (flow s))).
  assert (is_i32 a) as Ha32 by (unfold a, Outflow.available; destruct (_ <? _); done).
  destruct (Z.ltb_spec 0 a) as [Ha|Ha]; [|exact (conj Hi (conj eq_refl (conj Hw Hids)))].
  set (k1 := if n <? a then i32 n else a).
  set (k2 := if i32 (peer_maxFrameSize s) <? k1 then i32 (peer_maxFrameSize s) else k1).
  assert (k1 <= a) as Hk1.
  { unfold k1. destruct (Z.ltb_spec n a); [|lia]. rewrite i32_small by word. lia. }
  assert (k2 <= a) as Hk2 by (unfold k2; destruct (Z.ltb_spec (i32 (peer_maxFrameSize s)) k1); lia).
  apply wp_bind. eapply wp_lift.
  { unfold Outflow.take. fold a. destruct (Z.ltb_spec a k2); [lia|reflexivity]. }
  apply wp_bind, wp_modify_cs, wp_bind, wp_modify, wp_bind, wp_unlock_mu, wp_ret.
  refine (conj _ (conj eq_refl (conj Hw _))); [|eapply ids_ok_eq; [|exact Hids]; unfold ids; cbn; by rewrite dom_alter_L].
  set (f := set_cs_flow (i32 (cs_flow cs - k2))).
  assert (cinv (slack alive) (set_stream_objs (alter f id (stream_objs s)) s)) as (Hin' & Hall' & _ & Hcb' & _).
  { eapply cinv_cs_same; [exact Hi|exact El| |done].
    exact (conj Hp (conj Hfl (conj Hb (conj (i32_range _) Hrest)))). }
  exact (conj Hin' (conj Hall' (conj Hcf (conj Hcb' (conj (i32_range _) Hiw))))).
Qed.

(** *** Streams entering and leaving *)
Lemma canTake_bound s : canTakeNewRequestLocked t s = true ->
  nextStreamID s + 2 * pendingRequests s < 2147483647.
Proof.
  unfold canTakeNewRequestLocked, idleStateLocked. destruct (_ && (1 <? _)); [done|].
  rewrite !andb_true_iff. intros (((_ & _) & Hlt) & _). by apply Z.ltb_lt.
Qed.

(** Moving the new stream to its ID. *)
Lemma held_sum_move (objs : gmap Z (clientStream B)) r id cs cs' : objs !! r = Some cs ->
  objs !! id = None -> held_sum (<[id := cs']> (delete r objs)) = held_sum objs - cs_held cs + cs_held cs'.
Proof.
  intros Hr Hid. rewrite (held_sum_delete objs r cs Hr), held_sum_insert; [lia|].
  destruct (decide (r = id)) as [->|]; [by rewrite lookup_delete_eq|by rewrite lookup_delete_ne].
Qed.

Lemma addStream_ok R alive r s s1 : sysinv alive s -> unopened s r -> nextStreamID s < 2147483647 ->
  core s1 = core s -> wmu s1 = false ->
  wp R (addStreamLocked r)
    (fun id s2 => sysinv alive (set_mu false s2) /\ id = nextStreamID s
       /\ streams s2 = {[id]} ∪ streams s /\ nextStreamID s2 = id + 2
       /\ cs_inflow <$> stream_objs s2 !! id = Some (Inflow.mk transportDefaultStreamFlow 0)) s1.
Proof.
  intros (Hi & _ & _ & Hnx & Hpd & Hlt & Hodd & Hpar) (Hr & cs & El & Hh0 & Hz) Hmax Hc Hw1.
  pose proof Hi as (Hin & Hall & Hcf & Hcb & Hf & Hiw).
  unfold core in Hc. injection Hc as Est Eob Ein Efl Eiw Enx Epd.
  pose proof (cinv_lookup _ _ _ _ Hi El) as (Hp & Hfl & Hb & Hof & Hpc & Hrest).
  unfold addStreamLocked. apply wp_bind, wp_get, wp_bind. eapply wp_get_cs; [by rewrite Eob|].
  apply wp_bind, wp_modify, wp_bind, wp_modify, wp_bind, wp_modify.
  rewrite Enx. set (id := nextStreamID s) in *.
  destruct (Z.eqb_spec id 0); [lia|]. apply wp_ret. set (cs' := set_cs_inflow _ _).
  assert (stream_objs s !! id = None) as Hfresh.
  { destruct (stream_objs s !! id) eqn:E; [|done]. specialize (Hlt id ltac:(by eexists)). unfold id in Hlt. lia. }
  assert (cs_ok cs') as Hok'.
  { assert (cs_inflow cs' = Inflow.mk transportDefaultStreamFlow 0) as Hcsi by (cbn; by rewrite Hz).
    refine (conj Hp (conj _ (conj _ (conj _ (conj Hpc Hrest))))).
    - rewrite Hcsi. done.
    - rewrite Hcsi. change (cs_held cs') with (cs_held cs). rewrite Hh0. done.
    - cbn. rewrite Outflow.add_spec by (done || apply i32_range).
      pose proof (i32_range (initialWindow s1)).
      destruct (Z.leb_spec (cs_flow cs + i32 (initialWindow s1)) maxWindow),
        (Z.leb_spec (- 2 ^ 31) (cs_flow cs + i32 (initialWindow s1))); cbn; unfold maxWindow in *; try done; word. }
  split; [|split; [done|split; [cbn; by rewrite Est|split; [cbn; rewrite ?Enx; apply u32_small; word|]]]].
  2:{ cbn. rewrite lookup_insert_eq. cbn. by rewrite Hz. }
  refine (conj _ (conj eq_refl (conj Hw1 (conj _ (conj _ (conj _ (conj _ _))))))); cbn.
  - refine (conj _ (conj _ (conj _ (conj _ (conj _ _))))); cbn; rewrite ?Est, ?Eob, ?Ein, ?Efl, ?Eiw; try done.
    + intros j [->%elem_of_singleton|Hj]%elem_of_union; [split; [lia|]; by rewrite lookup_insert_eq|].
      destruct (Hin j Hj) as [Hj0 Hjs]. split; [done|].
      destruct (decide (j = id)) as [->|]; [by rewrite lookup_insert_eq|]. rewrite lookup_insert_ne by done.
      destruct (decide (j = r)) as [->|]; [|by rewrite lookup_delete_ne].
      lia.
    + apply map_Forall_insert_2; [done|]. by apply map_Forall_delete.
    + rewrite (held_sum_move _ _ _ cs) by done. change (cs_held cs') with (cs_held cs). lia.
  - rewrite ?Enx. fold id. rewrite u32_small by word. lia.
  - by rewrite ?Epd.
  - intros j Hj. rewrite ?Enx. fold id. rewrite u32_small by word. rewrite Eob in Hj.
    destruct (decide (j = id)) as [->|]; [lia|]. rewrite lookup_insert_ne in Hj by done.
    destruct Hj as [c Hj]. apply lookup_delete_Some in Hj as [_ Hj].
    specialize (Hlt j ltac:(by eexists)). fold id in Hlt. lia.
  - rewrite ?Enx. fold id. rewrite u32_small by word. by rewrite Z.odd_add_even by (by exists 1).
  - intros j [->%elem_of_singleton|Hj]%elem_of_union; [done|]. rewrite Est in Hj. by apply Hpar.
Qed.

Lemma sysinv_locked alive s s1 : sysinv alive s -> core s1 = core s -> wmu s1 = false ->
  sysinv alive (set_mu false s1).
Proof.
  intros (Hi & Hm & Hw & Hids) Hc Hw1.
  exact (conj (cinv_core _ s _ Hc Hi) (conj eq_refl (conj Hw1 (ids_ok_eq s _ (core_ids _ _ Hc) Hids)))).
Qed.

Lemma awaitOpenSlot_ok alive s s1 : sysinv alive s -> core s1 = core s -> wmu s1 = false ->
  wp (sysinv alive) (awaitOpenSlotForStreamLocked t)
    (fun r s2 => core s2 = core s /\ wmu s2 = false
       /\ (r = None -> canTakeNewRequestLocked t s1 = true)) s1.
Proof.
  intros Hs Hc Hw1. unfold wp, awaitOpenSlotForStreamLocked.
  destruct (closed s1 || negb (canTakeNewRequestLocked t s1)) eqn:E; [done|].
  apply orb_false_iff in E as [_ E%negb_false_iff].
  destruct (_ <? _); [done|].
  destruct (sysinv_locked alive s s1 Hs Hc Hw1) as (Hi & _ & _ & Hnx & Hpd & Hlt).
  refine (conj Hi (conj eq_refl (conj Hw1 (conj Hnx (conj _ Hlt))))). cbn in *. lia.
Qed.

(** The part of [writeRequest] after the wait, from a state [s0] with the
    connection's data as the wait left it. *)
Lemma writeRequest_slot_ok alive r c s slot : sysinv alive s ->
  wp (sysinv alive) slot (fun e s2 => wmu s2 = false /\ exists s0, sysinv alive s0 /\ core s2 = core s0
      /\ (e = None -> unopened s0 r /\ nextStreamID s0 < 2147483647)) s ->
  wp (sysinv alive) (writeRequest_slot r c slot) (fun _ s' => sysinv alive s') s.
Proof.
  intros Hs Hslot. unfold writeRequest_slot. apply wp_bind. eapply wp_mono; [|exact Hslot].
  intros e s2 (Hw2 & s0 & Hs0 & Hc0 & Hcan). destruct e as [e|].
  { apply wp_bind, wp_unlock_mu, wp_ret. by eapply sysinv_locked. }
  destruct (Hcan eq_refl) as [Hun Hmax]. apply wp_bind.
  eapply wp_mono; [|exact (addStream_ok _ alive r s0 s2 Hs0 Hun Hmax Hc0 Hw2)].
  intros id s3 (Hs3 & _). apply wp_bind. destruct c.
  - apply wp_modify, wp_bind, wp_unlock_mu, wp_ret. exact Hs3.
  - apply wp_ret, wp_bind, wp_unlock_mu, wp_ret. exact Hs3.
Qed.

Lemma canTake_core s0 s1 : core s1 = core s0 -> ids_ok s0 -> canTakeNewRequestLocked t s1 = true ->
  nextStreamID s0 < 2147483647.
Proof.
  intros Hc (_ & Hpd & _) Hcan%canTake_bound. unfold core in Hc. injection Hc as _ _ _ _ _ En Ep.
  rewrite En, Ep in Hcan. lia.
Qed.

Lemma open_ok alive r c s : unopened s r -> safe alive (writeRequest_open t r c) s.
Proof.
  intros Hun Hs. pose proof Hs as (Hi & Hm & Hw & Hids). apply writeRequest_slot_ok; [done|].
  apply wp_bind, wp_lock_mu; [done|]. apply wp_bind, wp_modify.
  set (s1 := decrStreamReservationsLocked _).
  assert (core s1 = core s) as Hc1 by exact (proj1 (decrLocked_core (set_mu true s))).
  assert (wmu s1 = false) as Hw1 by (transitivity (wmu (set_mu true s)); [apply (decrLocked_core (set_mu true s))|done]).
  eapply wp_mono; [|exact (awaitOpenSlot_ok alive s s1 Hs Hc1 Hw1)].
  intros e s2 (Hc2 & Hw2 & Hcan). split; [done|]. exists s. split; [done|]. split; [done|].
  intros He. split; [done|]. by eapply canTake_core, Hcan.
Qed.

Lemma reopen_ok alive r c ae s : unopened s r -> 0 < pendingRequests s ->
  safe alive (writeRequest_reopen t r c ae) s.
Proof.
  intros Hun Hpos Hs. pose proof Hs as (Hi & Hm & Hw & Hnx & Hpd & Hlt). apply writeRequest_slot_ok; [done|].
  unfold awaitOpenSlot_wake. apply wp_bind, wp_lock_mu; [done|]. apply wp_bind, wp_modify.
  set (s0 := set_pendingRequests (pendingRequests s - 1) s).
  assert (sysinv alive s0) as Hs0.
  { refine (conj Hi (conj Hm (conj Hw (conj Hnx (conj _ Hlt))))). cbn. lia. }
  assert (unopened s0 r) as Hun0 by exact Hun.
  set (s1 := set_pendingRequests _ _). assert (core s1 = core s0) as Hc1 by reflexivity.
  destruct ae as [e|].
  - apply wp_ret. split; [exact Hw|]. by exists s0.
  - eapply wp_mono; [|exact (awaitOpenSlot_ok alive s0 s1 Hs0 Hc1 Hw)].
    intros e s2 (Hc2 & Hw2 & Hcan). split; [done|]. exists s0. split; [done|]. split; [done|].
    intros He. split; [done|]. destruct Hs0 as (_ & _ & _ & Hids0). by eapply canTake_core, Hcan.
Qed.

Lemma forgetStreamID_ok alive id s : id ∈ streams s -> safe alive (forgetStreamID t id) s.
Proof.
  intros Hid Hs. pose proof Hs as ((Hin & Hrest) & Hm & Hw & Hids). unfold forgetStreamID.
  apply wp_bind, wp_lock_mu; [done|]. apply wp_bind, wp_get, wp_bind, wp_modify, wp_bind, wp_get.
  cbn [streams set_mu set_streams].
  assert (base.size (streams s) = S (base.size (streams s ∖ {[id]}))) as Hsz.
  { rewrite (union_difference_singleton_L id (streams s)) at 1 by done.
    rewrite size_union by set_solver+. by rewrite size_singleton. }
  rewrite Hsz. replace (_ =? _) with true by (symmetry; apply Z.eqb_eq; lia). cbn [negb].
  apply wp_bind, wp_modify. match goal with |- wp _ _ _ ?x => set (s2 := x) end.
  assert (forall s3, core s3 = core (set_streams (streams s ∖ {[id]}) s) -> wmu s3 = false ->
    sysinv alive (set_mu false s3)) as Hfin.
  { intros s3 Hc3 Hw3. destruct Hids as (Hnx & Hpd & Hlt).
    assert (sysinv alive (set_streams (streams s ∖ {[id]}) s)) as Hs'.
    { refine (conj (conj _ Hrest) (conj Hm (conj Hw (conj Hnx (conj Hpd _))))).
      2:{ destruct Hlt as (Hlt & Hodd & Hpar). refine (conj Hlt (conj Hodd _)). cbn.
          intros i [Hi' _]%elem_of_difference. by apply Hpar. }
      intros i Hi'. cbn in Hi'. apply elem_of_difference in Hi' as [Hi' _]. by apply Hin. }
    by eapply sysinv_locked. }
  assert (core s2 = core (set_streams (streams s ∖ {[id]}) s) /\ wmu s2 = false) as [Hc2 Hw2].
  { unfold s2. destruct (_ && _); done. }
  clearbody s2. apply wp_bind, wp_get. destruct (_ && _).
  - apply wp_bind, wp_modify, wp_bind, wp_unlock_mu, wp_modify.
    exact (Hfin (set_closed true s2) Hc2 Hw2).
  - by apply wp_unlock_mu, Hfin.
Qed.

Lemma keeps_get_cs {A} R k id (f : clientStream B -> M B A) s : is_Some (stream_objs s !! id) ->
  (forall cs, stream_objs s !! id = Some cs -> keeps R k (f cs) s) -> keeps R k (bind (get_cs id) f) s.
Proof.
  intros [cs El] Hf Hi Hm Hw. apply wp_bind. eapply wp_get_cs; [exact El|]. by apply Hf.
Qed.

Lemma keeps_closePipe R k id e s : is_Some (stream_objs s !! id) ->
  keeps R k (cs <- get_cs id ;; p <- lift (CloseWithError (cs_bufPipe cs) (Some e)) ;;
             modify_cs id (set_cs_bufPipe p)) s.
Proof.
  intros Hl. apply keeps_get_cs; [done|]. intros cs El Hi Hm Hw.
  pose proof (cinv_lookup _ _ _ _ Hi El) as (Hp & Hfl & Hb & Hrest).
  destruct (pipe_close_ok (cs_bufPipe cs) e None Hp) as (p' & Hp' & Hok' & Hh').
  apply wp_bind. eapply wp_lift; [exact Hp'|]. apply wp_modify_cs.
  refine (conj _ (conj Hm (conj Hw _))); [|unfold ids; cbn; by rewrite dom_alter_L].
  eapply cinv_cs_same; [done|exact El| |exact Hh'].
  refine (conj Hok' (conj Hfl (conj _ Hrest))). unfold cs_held in *. cbn. lia.
Qed.

Lemma stable_is_Some k s s' id : stable k s s' -> is_Some (stream_objs s !! id) ->
  is_Some (stream_objs s' !! id).
Proof. intros Hs Hl. destruct (stable_lookup _ _ _ _ Hs Hl). by eexists. Qed.

(** The part of [cleanupWriteRequest] that ends the stream on the wire. *)
Lemma cleanup_end_ok R k id (err : option error) (cs : clientStream B) s : is_Some (stream_objs s !! id) ->
  keeps R k (match err with
    | Some e =>
        abortStream id e ;;
        (if cs_sentHeaders cs then
           match e with
           | StreamError _ Code Cause =>
               if negb (bool_decide (Cause = Some errFromPeer)) then writeStreamReset (ID_of id) Code else ret tt
           | _ => writeStreamReset (ID_of id) ErrCodeCancel
           end
         else ret tt) ;;
        cs <- get_cs id ;;
        p <- lift (CloseWithError (cs_bufPipe cs) (Some e)) ;;
        modify_cs id (set_cs_bufPipe p)
    | None =>
        (if cs_sentHeaders cs && negb (cs_sentEndStream cs) then writeStreamReset (ID_of id) ErrCodeNo else ret tt) ;;
        cs <- get_cs id ;;
        p <- lift (CloseWithError (cs_bufPipe cs) (Some ErrRequestCanceled)) ;;
        modify_cs id (set_cs_bufPipe p)
    end) s.
Proof.
  intros Hl. destruct err as [e|].
  - apply keeps_bind; [apply keeps_abortStream|]. intros [] s1 Hs1.
    apply keeps_bind; [|intros [] s2 Hs2; apply keeps_closePipe; do 2 (eapply stable_is_Some; [eassumption|]); done].
    destruct (cs_sentHeaders cs); [|apply keeps_ret].
    destruct e; try apply writeStreamReset_ok. destruct (negb _); [apply writeStreamReset_ok|apply keeps_ret].
  - apply keeps_bind; [destruct (_ && _); [apply writeStreamReset_ok|apply keeps_ret]|].
    intros [] s1 Hs1. apply keeps_closePipe. by eapply stable_is_Some.
Qed.

Lemma cleanup_ok alive id err s : is_Some (stream_objs s !! id) -> id < 0 \/ id ∈ streams s ->
  safe alive (cleanupWriteRequest t id err) s.
Proof.
  intros Hl Hin Hs. pose proof Hs as (Hi & Hm & Hw & Hids). unfold cleanupWriteRequest.
  set (R := sysinv alive). set (k := slack alive) in *.
  assert (forall s5, stable k s s5 -> wp R
    ((if negb (ID_of id =? 0) then forgetStreamID t (ID_of id) else ret tt) ;;
     werr <- with_wmu (s <- get ;; ret (werr s)) ;;
     (if is_set werr then Close else ret tt) ;;
     modify_cs id (set_cs_donec true)) (fun _ s' => sysinv alive s') s5) as Htail.
  { intros s5 Hs5. pose proof (sysinv_stable _ _ _ Hs Hs5) as Hinv5.
    apply wp_bind. apply (wp_mono _ _ (fun _ s6 => sysinv alive s6)).
    - intros [] s6 Hs6. apply safe_keeps; [|exact Hs6].
      apply keeps_bind; [apply keeps_write; intros; by apply wp_bind, wp_get, wp_ret|]. intros e s7 _.
      apply keeps_bind; [destruct (is_set e); [apply closeForError_ok|apply keeps_ret]|]. intros [] s8 _.
      apply keeps_upd. intros cs Hok. split; exact Hok || reflexivity.
    - unfold ID_of. destruct (Z.ltb_spec id 0) as [|Hge]; cbn [Z.eqb negb]; [by apply wp_ret|].
      destruct (Z.eqb_spec id 0); cbn [negb]; [by apply wp_ret|].
      apply forgetStreamID_ok; [|exact Hinv5]. destruct Hin as [|Hin]; [lia|].
      destruct Hs5 as (_ & _ & _ & Hd). unfold ids in Hd. injection Hd as _ -> _ _. done. }
  apply wp_bind. apply (wp_mono _ _ (fun _ s1 => stable k s s1)).
  2:{ destruct (_ =? 0); [by apply decr_ok|by apply wp_ret, stable_refl]. }
  intros [] s1 Hs1. pose proof Hs1 as (Hi1 & Hm1 & Hw1 & _).
  apply wp_bind. apply (wp_mono _ _ (fun _ s2 => stable k s s2)).
  2:{ eapply wp_mono; [|apply (keeps_with_mu_upd R k); [|done..]];
        [intros a s2 Hs2; by eapply stable_trans|].
      intros cs Hok. destruct (_ && _); split; exact Hok || reflexivity. }
  intros [] s2 Hs2. pose proof Hs2 as (Hi2 & Hm2 & Hw2 & _).
  pose proof (stable_is_Some _ _ _ _ Hs2 Hl) as Hl2. destruct Hl2 as [cs2 El2].
  apply wp_bind. eapply wp_get_cs; [exact El2|]. cbn zeta.
  set (err' := if is_set err && _ && _ then None else err). apply wp_bind.
  eapply wp_mono; [|apply (cleanup_end_ok R k id err' cs2); [by eexists|done..]].
  intros [] s3 Hs3. apply Htail. by eapply stable_trans.
Qed.

Lemma loop_end_ok R k err s : keeps R k (readLoop_end err) s.
Proof.
  apply keeps_bind.
  { destruct err as [[]|]; try apply keeps_ret. apply keeps_write. intros s1 Hc Hm.
    apply wp_bind, wp_write_frame; [intros e|]; by apply wp_ret. }
  intros [] s0 _ Hi Hmu Hwmu. unfold cleanup. apply wp_bind, wp_modify, wp_bind, wp_lock_mu; [done|].
  apply wp_bind, wp_get. apply wp_bind, wp_modify, wp_bind, wp_modify.
  apply wp_bind, wp_unlock_mu, wp_modify.
  set (g := fun (_ : Z) (cs : clientStream B) => _). set (s1 := set_closed true _).
  refine (conj _ (conj eq_refl (conj Hwmu _))).
  - apply (cinv_core k (for_streams g s1)); [done|].
    apply cinv_for_streams; [|exact Hi]. intros id cs Hok. unfold g.
    destruct (cs_peerClosed cs); [done|]. destruct (cleanup_error _ _); [by apply abort_good|done].
  - exact (dom_for_streams g s1).
Qed.

Lemma newStream_ok alive r cs s : r < 0 -> stream_objs s !! r = None -> cs_ok cs -> cs_held cs = 0 ->
  safe alive (exec (ENewStream r cs)) s.
Proof.
  intros Hr Hnone Hok Hh (Hi & Hm & Hw & Hnx & Hpd & Hlt & Hodd). apply wp_modify.
  pose proof Hi as (Hin & Hall & Hfl & Hb & Hf & Hiw).
  refine (conj _ (conj Hm (conj Hw (conj Hnx (conj Hpd (conj _ Hodd)))))).
  - refine (conj _ (conj _ (conj Hfl (conj _ (conj Hf Hiw))))); cbn.
    + intros i Hi'. destruct (Hin i Hi') as [Hpos Hsome]. split; [done|].
      rewrite lookup_insert_ne by lia. done.
    + by apply map_Forall_insert_2.
    + rewrite held_sum_insert by done. lia.
  - intros i Hi'. cbn in *. destruct (decide (i = r)) as [->|]; [lia|].
    rewrite lookup_insert_ne in Hi' by done. by apply Hlt.
Qed.

Lemma writeHeaders_loop_ok R fuel : forall id es max hdrs first s, 0 < max -> (length hdrs < fuel)%nat ->
  wp R (writeHeaders_loop t fuel id es max hdrs first) (fun done s2 => done = true /\ core s2 = core s /\ mu s2 = mu s) s.
Proof.
  induction fuel as [|fuel IH]; intros id es max hdrs first s Hmax Hf; [lia|]. cbn [writeHeaders_loop]. apply wp_bind, wp_get.
  destruct (Z.ltb_spec 0 (len hdrs)) as [Hpos|]; cbn [negb orb]; [|by apply wp_ret]. destruct (is_set (werr s)); [by apply wp_ret|].
  set (chunk := if max <? len hdrs then _ else _). assert (0 < len chunk <= len hdrs) as Hc.
  { unfold chunk. destruct (Z.ltb_spec max (len hdrs)); [rewrite len_slice_to by lia|]; lia. }
  assert (length (slice_from hdrs (len chunk)) < fuel)%nat as Hf'.
  { pose proof (len_slice_from hdrs (len chunk) ltac:(lia)) as Hl. unfold len in Hl, Hc, Hpos |- *. lia. }
  apply wp_bind. destruct first; apply wp_write_frame; [intros e| |intros e|]; (eapply wp_mono; [|by apply IH]; done).
Qed.
Lemma write_block_ok R k id es hdrs s : 0 < peer_maxFrameSize s -> keeps R k (write_block id es hdrs) s.
Proof.
  intros Hmax Hi Hm Hw. apply wp_with_wmu; [done|]. apply wp_bind, wp_get, wp_bind. unfold writeHeaders. apply wp_bind.
  eapply wp_mono; [|apply writeHeaders_loop_ok; [exact Hmax|lia]]. intros d s2 (-> & Hc & Hm2). cbn [negb]. apply wp_bind, wp_flush, wp_bind, wp_get, wp_ret, wp_ret.
  refine (conj (cinv_core _ _ _ Hc Hi) (conj _ (conj eq_refl (core_ids _ _ Hc)))). transitivity (mu s2); [done|]. by rewrite Hm2.
Qed.

(** Every event is safe. *)
Lemma exec_ok alive e s : pre e s -> safe alive (exec e) s.
Proof.
  intros Hpre. pose proof (slack_nonneg alive) as Hk.
  destruct e; cbn [exec pre] in *; try apply safe_discard.
  - destruct Hpre as [(cs & El & Hres) Hroom]. intros Hs. pose proof Hs as (Hi & Hm & Hw & _).
    eapply wp_mono; [|by eapply (body_Read_ok _ (slack alive))].
    intros a s' Hst. by eapply sysinv_stable.
  - destruct Hpre as (cs & El & Hnb). intros Hs. pose proof Hs as (Hi & Hm & Hw & _).
    eapply wp_mono; [|by eapply (body_Close_ok _ (slack alive))].
    intros a s' Hst. by eapply sysinv_stable.
  - destruct Hpre as (? & ? & ? & ? & ?). by apply (newStream_ok alive r cs s).
  - by apply open_ok.
  - destruct Hpre. by apply reopen_ok.
  - apply safe_keeps, Reserve_ok.
  - apply safe_keeps, decr_ok.
  - destruct Hpre. by apply awaitFlow_ok.
  - apply safe_keeps, abortBodyWrite_ok.
  - destruct Hpre. by apply cleanup_ok.
  - apply safe_keeps, closeIfIdle_ok.
  - apply safe_keeps, sendGoAway_ok.
  - apply safe_keeps, closeForError_ok.
  - apply safe_keeps, Ping_register_ok.
  - apply safe_keeps, Ping_send_ok.
  - by apply safe_keeps, keeps_modify.
  - by apply safe_keeps, keeps_modify.
  - by apply safe_keeps, write_block_ok.
  - apply safe_keeps, keeps_write. intros s1 Hc Hm. apply wp_bind, wp_write_frame; [intros e|]; [by apply wp_ret|]. by apply wp_bind, wp_flush, wp_ret.
Qed.

(** ** Reachable states

    A state is the connection, whether the read loop still runs, and its
    [gotSettings]. *)
Definition config : Type := ClientConn B * bool * bool.

Inductive sys_step : config -> config -> Prop :=
| step_read s got f err detail got' s' :
    read_ok (f, err, detail) -> ~ overflows s f ->
    run_step (D := D) t newBuf got1xx got f err detail s = Done (got', None) s' ->
    sys_step (s, true, got) (s', true, got')
| step_read_end s got f err detail got' e s1 s' :
    read_ok (f, err, detail) -> ~ overflows s f ->
    run_step (D := D) t newBuf got1xx got f err detail s = Done (got', Some e) s1 ->
    readLoop_end (Some e) s1 = Done tt s' ->
    sys_step (s, true, got) (s', false, got')
| step_event s alive got e s' :
    pre e s -> exec e s = Done tt s' \/ exec e s = Parked s' ->
    sys_step (s, alive, got) (s', alive, got).

Inductive reachable (s0 : ClientConn B) : config -> Prop :=
| reach_init : reachable s0 (s0, true, false)
| reach_step x y : reachable s0 x -> sys_step x y -> reachable s0 y.

(** The operation completes, or waits for an event. *)
Definition completes {A} (m : M B A) s : Prop :=
  (exists a s', m s = Done a s') \/ (exists s', m s = Parked s').

Lemma wp_completes {A} R (m : M B A) Q s : wp R m Q s -> completes m s.
Proof. unfold wp, completes. destruct (m s); eauto; done. Qed.

Lemma sys_step_inv x y : sysinv x.1.2 x.1.1 -> sys_step x y -> sysinv y.1.2 y.1.1.
Proof.
  intros Hx Hstep. destruct Hstep as [s got f err detail got' s' Hrd Hov Hrun|
    s got f err detail got' e s1 s' Hrd Hov Hrun Hend|s alive got e s' Hpre Hex]; cbn in *.
  - pose proof Hx as (Hi & Hm & Hw & _).
    pose proof (run_step_ok t newBuf got1xx newBuf_ok (fun _ => True) (2 ^ 24) got f err detail s Hrd
      ltac:(lia) Hov Hi Hm Hw) as Hwp. unfold wp in Hwp. rewrite Hrun in Hwp. cbn in Hwp.
    by eapply (sysinv_stable true).
  - pose proof Hx as (Hi & Hm & Hw & Hids).
    pose proof (run_step_ok t newBuf got1xx newBuf_ok (fun _ => True) (2 ^ 24) got f err detail s Hrd
      ltac:(lia) Hov Hi Hm Hw) as Hwp. unfold wp in Hwp. rewrite Hrun in Hwp. cbn in Hwp.
    assert (sysinv false s1) as Hs1.
    { destruct Hwp as (Hi1 & Hm1 & Hw1 & Hd1). exact (conj Hi1 (conj Hm1 (conj Hw1 (ids_ok_eq _ _ Hd1 Hids)))). }
    pose proof (safe_keeps false _ _ (loop_end_ok _ _ (Some e) s1) Hs1) as Hwp'. unfold wp in Hwp'.
    by rewrite Hend in Hwp'.
  - pose proof (exec_ok alive e s Hpre Hx) as Hwp. unfold wp in Hwp.
    by destruct Hex as [Hex|Hex]; rewrite Hex in Hwp.
Qed.

Lemma reachable_inv s0 x : sysinv true s0 -> reachable s0 x -> sysinv x.1.2 x.1.1.
Proof. intros Hinit. induction 1; [done|]. by eapply sys_step_inv. Qed.
End System.

(** ** A new connection satisfies the invariant *)

(** The transport's settings are in range: the priority frames name 31-bit
    streams below the last two, and the connection window, with the 65535 octets
    it starts with, leaves room for one frame below 2^31. *)
Definition conn_cfg_ok (t : Transport) : Prop :=
  is_u32 (InitialStreamID t)
  /\ 0 <= ConnectionFlow t <= maxWindow - initialWindowSize - 2 ^ 24
  /\ Forall (fun p => 0 <= PF_StreamID p < 2 ^ 31 - 2) (PriorityFrames t).

Lemma initialStreamID_odd t : is_u32 (InitialStreamID t) ->
  1 <= initialStreamID t < 2 ^ 31 /\ Z.odd (initialStreamID t) = true.
Proof.
  unfold initialStreamID. intros Hid. destruct (Z.eqb_spec (InitialStreamID t) 0); [done|].
  destruct (Z.ltb_spec 2147483647 (InitialStreamID t)); [done|]. cbn [orb].
  pose proof (Zmod_odd (InitialStreamID t)) as Hodd. destruct (Z.eqb_spec (InitialStreamID t mod 2) 0) as [E|E].
  - rewrite u32_small by word. destruct (Z.ltb_spec 2147483647 (InitialStreamID t + 1)); [done|].
    split; [word|]. rewrite Z.odd_add. rewrite E in Hodd. by destruct (Z.odd (InitialStreamID t)).
  - split; [word|]. by destruct (Z.odd (InitialStreamID t)).
Qed.

Section Init.
Context {B : Type} `{PipeBufferOk B} {D : Type} `{HpackDecoder D}.

(** The part of the state [newClientConn] builds on. *)
Definition fresh_conn (s : ClientConn B) : Prop :=
  mu s = false /\ wmu s = false /\ streams s = ∅ /\ stream_objs s = ∅ /\ Inflow.unsent (cc_inflow s) = 0
  /\ initialWindow s = 65535 /\ pendingRequests s = 0 /\ 1 <= nextStreamID s < 2 ^ 31.

Lemma apply_own_fresh l : forall (cc : ClientConn B) a b, fresh_conn cc -> flow cc = 0 ->
  let r := (fold_left apply_own_setting l (cc, a, b)).1.1 in fresh_conn r /\ flow r = 0.
Proof.
  induction l as [|s l IH]; intros cc a b Hf Hfl; [done|]. cbn [fold_left].
  assert (exists cc' a' b', apply_own_setting (cc, a, b) s = (cc', a', b') /\ fresh_conn cc' /\ flow cc' = 0)
    as (cc' & a' & b' & -> & Hf' & Hfl'); [|by apply IH].
  unfold apply_own_setting. repeat case_match; do 3 eexists; (split; [reflexivity|done]).
Qed.

Lemma write_fresh (cc : ClientConn B) o :
  fresh_conn cc /\ is_i32 (flow cc) ->
  let cc' := match write_frame o cc with Done _ cc => cc | _ => cc end in
  fresh_conn cc' /\ is_i32 (flow cc').
Proof. intros [Hf Hi]. unfold write_frame. destruct (werr cc); [done|]. by destruct (write_op _ _).2. Qed.

Lemma newClientConn_inv (t : Transport) (su : bool) broken t' hts (s0 : ClientConn B) e :
  conn_cfg_ok t -> newClientConn t su broken = (t', hts, s0, e) ->
  sysinv (Z.odd (nextStreamID s0)) true s0 /\ stream_objs s0 = ∅.
Proof.
  intros (Hid & Hcf & Hpr). unfold newClientConn.
  destruct (fold_left apply_own_setting _ _) as [[cc mhl] h2] eqn:Ef.
  assert (fresh_conn (clientConn_zero (B := B) t su)) as Hz.
  { repeat split; try done; by apply initialStreamID_odd. }
  pose proof (apply_own_fresh (T_Settings t) _ (T_MaxHeaderListSize t) initialHeaderTableSize Hz eq_refl) as Hcc.
  rewrite Ef in Hcc. cbn [fst] in Hcc. destruct Hcc as [Hcc Hfl].
  set (c1 := set_werr broken _).
  assert (fresh_conn c1 /\ is_i32 (flow c1)) as G1.
  { split; [exact Hcc|]. unfold c1. cbn [flow set_werr set_flow]. by rewrite Hfl. }
  clearbody c1. pose proof (write_fresh c1 (OpSettings (initialSettings (set_T_MaxHeaderListSize mhl t))) G1) as G2. cbv zeta in G2.
  match type of G2 with fresh_conn ?x /\ _ => set (c2 := x) in * end. clearbody c2.
  cbn zeta. cbn [ConnectionFlow set_T_MaxHeaderListSize PriorityFrames].
  set (cf := if ConnectionFlow t <? 1 then _ else _).
  pose proof (write_fresh c2 (OpWindowUpdate 0 cf) G2) as G3. cbv zeta in G3.
  match type of G3 with fresh_conn ?x /\ _ => set (c3 := x) in * end. clearbody c3.
  set (c4 := fold_left _ (PriorityFrames t) c3).
  assert (fresh_conn c4 /\ is_i32 (flow c4)) as G4.
  { subst c4. clear -G3 Hpr. revert c3 G3. induction Hpr as [|p l Hp Hl IH]; intros c3 G3; [done|].
    cbn [fold_left]. apply IH. destruct (write_fresh c3 (OpPriority (PF_StreamID p) (PF_PriorityParam p)) G3) as [Hc Hi].
    split; [|exact Hi]. destruct Hc as (? & ? & ? & ? & ? & ? & ? & ?).
    repeat split; try done; cbn; rewrite u32_small by word; lia. }
  clearbody c4. destruct G4 as [(Hm & Hw & Hst & Hob & Hun & Hiw & Hpd & Hnx) Hi4].
  assert (i32 cf = cf /\ 1 <= cf <= maxWindow - initialWindowSize - 2 ^ 24) as [Hcfi Hcfr].
  { unfold cf. destruct (Z.ltb_spec (ConnectionFlow t) 1); [done|].
    unfold maxWindow, initialWindowSize in *. rewrite i32_small by word. lia. }
  unfold maxWindow, initialWindowSize in Hcfr.
  assert (forall s : ClientConn B, core s = core (set_cc_inflow (Inflow.mk (cf + 65535) 0) c4) ->
    mu s = false -> wmu s = false -> sysinv (Z.odd (nextStreamID s)) true s /\ stream_objs s = ∅) as Hfin.
  { intros s [= E1 E2 E3 E4 E5 E6 E7] Hms Hws. cbn in *. split; [|congruence].
    split; [|split; [done|split; [done|]]].
    - unfold cinv. rewrite E1, E2, E3, E4, E5, Hst, Hob, Hiw.
      refine (conj _ (conj _ (conj _ (conj _ (conj Hi4 _))))).
      + intros id Hid'. by apply not_elem_of_empty in Hid'.
      + apply map_Forall_empty.
      + split; cbn; [lia|done].
      + change (held_sum ∅) with 0. unfold total, maxWindow. cbn. lia.
      + unfold maxWindow. lia.
    - unfold ids_ok. rewrite E6, E7, E2, E1, Hst, Hob, Hpd. refine (conj _ (conj _ (conj _ (conj eq_refl _)))); try lia.
      + intros id [? Hid']. by rewrite lookup_empty in Hid'.
      + intros id Hid'. by apply not_elem_of_empty in Hid'. }
  set (c5 := set_cc_inflow _ c4).
  assert (core c5 = core (set_cc_inflow (Inflow.mk (cf + 65535) 0) c4)) as G5.
  { unfold c5. rewrite Hcfi. unfold Inflow.init. rewrite Hun. unfold initialWindowSize. by rewrite i32_small by word. }
  change (mu c4) with (mu c5) in Hm. change (wmu c4) with (wmu c5) in Hw. clearbody c5.
  destruct (werr c5); intros [= _ _ <- _]; apply Hfin; done.
Qed.
End Init.

(** ** Theorems about every interleaving *)
Section Theorems.
Context {B : Type} `{PipeBufferOk B} {D : Type} `{HpackDecoder D}.

(** C2: no sequence of operations wedges a connection. Take a connection made by
    [newClientConn] and any sequence of whole operations (one handler, call or critical
    section after the other): frames handled by the read loop,
    its end with GOAWAY and [cleanup], requests opening streams or waiting for
    a slot, header blocks and DATA being written, body reads and closes, flow-control waits,
    cleanups, pings, shutdown. In every state reached both locks are free, every operation
    the program may call next ([pre]) runs to completion or waits on a condition variable
    or an empty body (it neither panics nor locks [cc.mu] twice), and while the
    read loop runs so does the handling of any frame the framer can deliver,
    except a WINDOW_UPDATE that overflows the window of a live stream. [pre] leaves out what
    does go wrong: the second [Close] of a body that was closed with bytes unread, and
    writing headers when the peer announced the frame size 0. *)
Theorem connection_never_stuck (t t' : Transport) su hts (newBuf : Z -> B)
    (got1xx : Z -> Header -> option error) (s0 s : ClientConn B) alive got :
  conn_cfg_ok t ->
  (forall n, pb_inv (newBuf n) /\ pb_contents (newBuf n) = []) ->
  newClientConn t su None = (t', hts, s0, None) ->
  reachable (D := D) t' newBuf got1xx s0 (s, alive, got) ->
  mu s = false /\ wmu s = false
  /\ (forall e, pre e s -> completes (exec t' e) s)
  /\ (forall err, completes (readLoop_end err) s)
  /\ (alive = true -> forall f err detail, read_ok (f, err, detail) -> ~ overflows s f ->
        completes (run_step (D := D) t' newBuf got1xx got f err detail) s).
Proof.
  intros Hcfg Hbuf Hnew Hreach. destruct (newClientConn_inv t su None t' hts s0 None Hcfg Hnew) as [Hs0 _].
  pose proof (reachable_inv t' newBuf got1xx Hbuf _ s0 _ Hs0 Hreach) as Hs. cbn in Hs.
  pose proof Hs as (Hi & Hm & Hw & Hids). refine (conj Hm (conj Hw (conj _ (conj _ _)))).
  - intros e Hpre. by eapply wp_completes, (exec_ok t' got1xx _ alive e s Hpre).
  - intros err. eapply wp_completes, safe_keeps; [apply loop_end_ok|exact Hs].
  - intros -> f err detail Hrd Hov.
    eapply wp_completes, (run_step_ok t' newBuf got1xx Hbuf (fun _ => True) (2 ^ 24)); try done.
Qed.

Definition window_bounded (f : inflow) (held : Z) : Prop :=
  0 <= Inflow.avail f /\ 0 <= Inflow.unsent f < inflowMinRefresh
  /\ Inflow.avail f + Inflow.unsent f + held <= maxWindow.

(** C33: the receive windows stay within the protocol. In every state reached by such
    operations (no body that was closed with bytes unread being closed again:
    [H2Body.double_close_refunds_twice])
    the connection's receive window, with what it has not announced yet and
    what the bodies still hold, is below 2^31, and so is every stream's; both
    windows are non-negative, and less than [inflowMinRefresh] is held back. So
    no WINDOW_UPDATE the client sends can overflow the server's counters, and
    [inflow.add] never panics. *)
Theorem receive_windows_bounded (t t' : Transport) su hts (newBuf : Z -> B)
    (got1xx : Z -> Header -> option error) (s0 s : ClientConn B) alive got :
  conn_cfg_ok t ->
  (forall n, pb_inv (newBuf n) /\ pb_contents (newBuf n) = []) ->
  newClientConn t su None = (t', hts, s0, None) ->
  reachable (D := D) t' newBuf got1xx s0 (s, alive, got) ->
  window_bounded (cc_inflow s) (held_sum (stream_objs s))
  /\ (forall id cs, stream_objs s !! id = Some cs -> window_bounded (cs_inflow cs) (cs_held cs)).
Proof.
  intros Hcfg Hbuf Hnew Hreach. destruct (newClientConn_inv t su None t' hts s0 None Hcfg Hnew) as [Hs0 _].
  pose proof (reachable_inv t' newBuf got1xx Hbuf _ s0 _ Hs0 Hreach) as (Hi & _).
  pose proof Hi as (_ & _ & [Ha Hu] & Hb & _). cbn in Ha, Hu, Hb. unfold window_bounded, total in *. split.
  - pose proof (slack_nonneg alive). lia.
  - intros id cs El. pose proof (cinv_lookup _ _ _ _ Hi El) as (_ & [Hca Hcu] & Hcb & _). unfold total in Hcb. lia.
Qed.

(** Stream identifiers. In every reachable state the live streams have
    distinct positive identifiers of the parity of the first one, all smaller
    than the next identifier, which stays at most 2^31; opening a stream either
    refuses it or gives it exactly that next identifier, never used before,
    with a window for the peer of 4 MB, and advances it by two. *)
Theorem stream_ids_ok (t t' : Transport) su hts (newBuf : Z -> B)
    (got1xx : Z -> Header -> option error) (s0 s : ClientConn B) alive got r cs :
  conn_cfg_ok t ->
  (forall n, pb_inv (newBuf n) /\ pb_contents (newBuf n) = []) ->
  newClientConn t su None = (t', hts, s0, None) ->
  reachable (D := D) t' newBuf got1xx s0 (s, alive, got) ->
  r < 0 -> stream_objs s !! r = Some cs -> cs_held cs = 0 -> cs_inflow cs = Inflow.zero ->
  (forall id, id ∈ streams s -> 0 < id < nextStreamID s /\ Z.odd id = Z.odd (nextStreamID s0))
  /\ nextStreamID s <= 2 ^ 31 /\ stream_objs s !! nextStreamID s = None
  /\ match awaitOpenSlotForStreamLocked t' (set_mu true s) with
     | Done None s1 => exists s2, addStreamLocked r s1 = Done (nextStreamID s) s2
         /\ nextStreamID s2 = nextStreamID s + 2 /\ streams s2 = {[nextStreamID s]} ∪ streams s
         /\ cs_inflow <$> stream_objs s2 !! nextStreamID s = Some (Inflow.mk transportDefaultStreamFlow 0)
     | Done (Some _) s1 | Parked s1 => nextStreamID s1 = nextStreamID s /\ streams s1 = streams s
     | _ => False
     end.
Proof.
  intros Hcfg Hbuf Hnew Hreach Hr El Hh Hz.
  destruct (newClientConn_inv t su None t' hts s0 None Hcfg Hnew) as [Hs0 _].
  pose proof (reachable_inv t' newBuf got1xx Hbuf _ s0 _ Hs0 Hreach) as Hs. cbn in Hs.
  pose proof Hs as ((Hin & _) & _ & Hw & Hnx & Hpd & Hlt & Hodd & Hpar).
  split; [|split; [apply Hnx|split]].
  - intros id Hid. destruct (Hin id Hid) as [Hpos Hsome]. specialize (Hlt id Hsome). split; [lia|by apply Hpar].
  - destruct (stream_objs s !! nextStreamID s) eqn:E; [|done].
    specialize (Hlt (nextStreamID s) ltac:(by eexists)). lia.
  - unfold awaitOpenSlotForStreamLocked. destruct (_ || negb _) eqn:E; [done|].
    apply orb_false_iff in E as [_ E%negb_false_iff].
    destruct (_ <? _); [|done]. set (s1 := set_lastIdle _ _).
    assert (nextStreamID s < 2147483647) as Hmax.
    { eapply (canTake_core t' _ s (set_mu true s) eq_refl); [apply Hs|exact E]. }
    assert (unopened s r) as Hun by (split; [done|]; by exists cs).
    pose proof (addStream_ok got1xx _ (fun _ => False) alive r s s1 Hs Hun Hmax eq_refl Hw) as Hadd.
    unfold wp in Hadd. destruct (addStreamLocked r s1) as [id s2| | |] eqn:Ea; try done.
    destruct Hadd as (_ & -> & Hst & Hn & Hcs). by exists s2.
Qed.
End Theorems.

(** ** A concrete run *)
Module Example.
#[local] Existing Instance static_decoder.
#[local] Instance db : PipeBuffer dataBuffer := dataBuffer_pipeBuffer zeros.
#[local] Instance db_ok : PipeBufferOk dataBuffer := dataBuffer_pipeBufferOk zeros zeros_pool_ok.

Definition transport : Transport :=
  mkTransport false false 0 0 [] 0 [] PriorityParam_zero 0 false.
Definition no1xx (_ : Z) (_ : Header) : option error := None.
Definition start : ClientConn dataBuffer := (newClientConn transport false None).1.2.

(** The state an operation leaves. *)
Definition after {A} (o : outcome dataBuffer A) (s : ClientConn dataBuffer) : ClientConn dataBuffer :=
  match o with Done _ s => s | Parked s => s | _ => s end.

Definition request : clientStream dataBuffer := newClientStream false "GET" ∅ false 0.
Definition settings_frame : Frame := SettingsFrame (mkFrameHeader true 4 0 0 0) [].
Definition settings_read (s : ClientConn dataBuffer) :=
  run_step (D := bool) transport newDataBuffer no1xx false (Some settings_frame) None None s.

Definition s1 : ClientConn dataBuffer := after (exec transport (ENewStream (-1) request) start) start.
Definition s2 : ClientConn dataBuffer := after (exec transport (EOpen (-1) false) s1) s1.
Definition s3 : ClientConn dataBuffer := after (settings_read s2) s2.
Definition s4 : ClientConn dataBuffer := after (exec transport (ENewStream (-2) request) s3) s3.

Lemma transport_ok : conn_cfg_ok transport.
Proof. split; [cbn; word|]. split; [vm_compute; done|constructor]. Qed.
Lemma newDataBuffer_ok n : pb_inv (newDataBuffer n) /\ pb_contents (newDataBuffer n) = [].
Proof. split; [apply newDataBuffer_wf|done]. Qed.

Lemma request_ok : cs_ok request.
Proof.
  refine (conj _ (conj _ (conj _ (conj _ (conj eq_refl (conj _ _)))))); done.
Qed.

Lemma start_eq : newClientConn transport false None = (transport, initialHeaderTableSize, start, None).
Proof. vm_compute. reflexivity. Qed.

Lemma s4_reachable : reachable (D := bool) transport newDataBuffer no1xx start (s4, true, true).
Proof.
  eapply reach_step; [eapply reach_step; [eapply reach_step; [eapply reach_step; [apply reach_init|]|]|]|].
  - eapply (step_event _ _ _ _ _ _ (ENewStream (-1) request) s1); [|left; reflexivity].
    split; [done|]. split; [reflexivity|]. split; [apply request_ok|done].
  - eapply (step_event _ _ _ _ _ _ (EOpen (-1) false) s2); [|left; vm_compute; reflexivity].
    split; [done|]. exists request. split; [reflexivity|done].
  - eapply (step_read _ _ _ s2 false (Some settings_frame) None None true s3); [|by intros []|vm_compute; reflexivity].
    intros _. exists settings_frame. split; [done|]. split; [done|constructor].
  - eapply (step_event _ _ _ _ _ _ (ENewStream (-2) request) s4); [|left; reflexivity].
    split; [done|]. split; [reflexivity|]. split; [apply request_ok|done].
Qed.
End Example.

Section Witnesses.
Import Example.
#[local] Existing Instance static_decoder.
#[local] Existing Instance db.
#[local] Existing Instance db_ok.

Lemma connection_never_stuck_witness :
  completes (exec transport (EOpen (-2) false)) s4.
Proof.
  destruct (connection_never_stuck transport transport false initialHeaderTableSize newDataBuffer no1xx start s4
    true true transport_ok newDataBuffer_ok start_eq s4_reachable) as (_ & _ & Hex & _).
  apply (Hex (EOpen (-2) false)). split; [done|]. exists request. split; [reflexivity|done].
Defined.

Lemma receive_windows_bounded_witness :
  window_bounded (cc_inflow s4) (held_sum (stream_objs s4)).
Proof.
  destruct (receive_windows_bounded transport transport false initialHeaderTableSize newDataBuffer no1xx start s4
    true true transport_ok newDataBuffer_ok start_eq s4_reachable) as [Hb _]. exact Hb.
Defined.

Lemma stream_ids_ok_witness :
  1 < nextStreamID s4 /\ stream_objs s4 !! 3 = None.
Proof.
  destruct (stream_ids_ok transport transport false initialHeaderTableSize newDataBuffer no1xx start s4
    true true (-2) request transport_ok newDataBuffer_ok start_eq s4_reachable) as (Hids & _ & Hn & _);
    [done|reflexivity|done|done|].
  split; [apply (Hids 1)|exact Hn]. change (streams s4) with (streams s2). vm_compute. done.
Defined.
End Witnesses.
