(* ===== verification/H2Props.v ===== *)
(** * What the operations of a connection do

    Functional theorems about single operations of [H2Conn] and [H2ReadLoop]:
    header blocks cut into frames, flow control taken by a request body, SETTINGS,
    GOAWAY, the content length of a body, the end of the connection; and the
    behaviours of the code that its own comments or the protocol contradict. *)

From S2P Require Import Prelude.
From S2P Require Import H2Errors.
From S2P Require Import Flow.
From S2P Require Import DataBuffer.
From S2P Require Import Pipe.
From S2P Require Import Frame.
From S2P Require Import FrameWrite.
From S2P Require Import Framer.
From S2P Require Import NetText.
From S2P Require Import ConnState.
From S2P Require Import H2Transport.
From S2P Require Import H2Conn.
From S2P Require Import H2ReadLoop.
From S2P Require Import H2Safe.
From S2P Require Import H2System.
Import ConnNotations.

(** ** WINDOW_UPDATE *)
Section WindowUpdate.
Context {B : Type} `{PipeBufferOk B} {D : Type} `{HpackDecoder D}.
Implicit Types s : ClientConn B.

(** An overflowing WINDOW_UPDATE on a stream deadlocks the connection.
    [processWindowUpdate] holds [cc.mu] when it calls [endStreamError], whose
    [abortStream] locks [cc.mu] again; so for every state with the lock free, a
    stream known to the read loop and an increment that takes its window above
    2^31 - 1, the handler never returns, and the lock stays held. *)
Theorem window_update_overflow_deadlocks (fh : FrameHeader) (inc : Z) s (cs : clientStream B) :
  mu s = false -> find_stream s (fh_StreamID fh) = Some cs -> fh_StreamID fh <> 0 ->
  is_i32 (cs_flow cs) -> 1 <= inc < 2 ^ 31 -> maxWindow < cs_flow cs + inc ->
  processWindowUpdate fh inc s = Deadlock.
Proof.
  intros Hm Hf Hid Hfl Hinc Hover. pose proof (find_stream_Some _ _ _ Hf) as (El & _ & _).
  unfold processWindowUpdate, bind at 1.
  assert (streamByID (fh_StreamID fh) s = Done (Some cs) s) as ->.
  { unfold streamByID, with_mu, bind, lock_mu, get, ret, unlock_mu. rewrite Hm. cbn.
    rewrite set_mu_same by done. f_equal. exact Hf. }
  replace (fh_StreamID fh =? 0) with false by (symmetry; by apply Z.eqb_neq). cbn [negb andb is_set].
  unfold with_mu, bind, lock_mu, get, get_cs. rewrite Hm. cbn [stream_objs set_mu]. rewrite El.
  rewrite (i32_small inc) by word. rewrite Outflow.add_spec by (done || word).
  replace (_ && _) with false by (symmetry; apply andb_false_iff; left; apply Z.leb_gt; unfold maxWindow in *; lia).
  reflexivity.
Qed.
End WindowUpdate.

(** A connection with one stream, with a send window of 2^31 - 1. *)
Definition full_window_conn : ClientConn dataBuffer :=
  set_stream_objs {[ 1 := set_cs_flow maxWindow Example.request ]} (set_streams {[ 1 ]} Example.start).

(** The same with 100 octets more than the initial window. *)
Definition full_window_conn0 : ClientConn dataBuffer :=
  set_stream_objs {[ 1 := set_cs_flow 65635 Example.request ]} (set_streams {[ 1 ]} Example.start).

Lemma window_update_overflow_deadlocks_witness :
  processWindowUpdate (mkFrameHeader true 8 0 4 1) 1 full_window_conn = Deadlock.
Proof.
  apply (@window_update_overflow_deadlocks dataBuffer (mkFrameHeader true 8 0 4 1) 1 full_window_conn
    (set_cs_flow maxWindow Example.request)); [reflexivity|reflexivity|done|cbn; unfold maxWindow; word|lia|].
  unfold maxWindow; cbn; lia.
Defined.

(** ** Header blocks *)
Section HeaderBlocks.
Context {B : Type} `{PipeBuffer B} (t : Transport).
Implicit Types s : ClientConn B.

(** The part of the header block a frame carries. *)
Definition fragment (o : wire_op) : bytes :=
  match o with
  | OpHeaders p => HP_BlockFragment p
  | OpContinuation _ _ frag => frag
  | _ => []
  end.

Definition is_continuation (o : wire_op) : Prop := match o with OpContinuation _ _ _ => True | _ => False end.
(** The frames that carry the block [hdrs], each with at most [max] octets of it. *)
Definition carries (max : Z) (hdrs : bytes) (ops : list wire_op) : Prop :=
  concat (fragment <$> ops) = hdrs /\ Forall (fun o => op_legal o /\ 0 < len (fragment o) <= max) ops.

Lemma write_legal_frame o s : op_legal o -> werr s = None ->
  write_frame o s = Done None (set_wire (wire s ++ [o]) s).
Proof.
  intros Ho Hw. unfold write_frame. rewrite Hw.
  pose proof (write_op_bytes o [] [] Ho) as Hb. by rewrite Hb.
Qed.

Lemma chunk_spec (hdrs : bytes) max : 0 < max -> 0 < len hdrs ->
  let chunk := if max <? len hdrs then slice_to hdrs max else hdrs in
  0 < len chunk <= Z.min max (len hdrs) /\ chunk ++ slice_from hdrs (len chunk) = hdrs.
Proof.
  intros Hm Hh. cbn zeta. destruct (Z.ltb_spec max (len hdrs)).
  - rewrite len_slice_to by lia. split; [lia|]. apply slice_to_from.
  - split; [lia|]. unfold slice_from, len. rewrite Nat2Z.id, drop_all. by rewrite app_nil_r.
Qed.

Lemma writeHeaders_done fuel sid es max first s :
  writeHeaders_loop t (S fuel) sid es max [] first s = Done true s.
Proof. reflexivity. Qed.

Lemma writeHeaders_cont sid es max n : stream_id sid -> 0 < max ->
  forall hdrs s, (length hdrs <= n)%nat -> 0 < len hdrs -> Z.min max (len hdrs) < 2 ^ 24 -> werr s = None ->
  exists ops, writeHeaders_loop t (S n) sid es max hdrs false s = Done true (set_wire (wire s ++ ops) s)
    /\ carries max hdrs ops /\ Reader.continuations sid (op_header <$> ops) /\ Forall is_continuation ops.
Proof.
  intros Hsid Hmax. induction n as [|n IH]; intros hdrs s Hn Hh Hmin Hw; [unfold len in Hh; lia|].
  remember (S n) as m. cbn [writeHeaders_loop]. unfold bind at 1, get. rewrite Hw.
  replace (0 <? len hdrs) with true by (symmetry; by apply Z.ltb_lt). cbn [negb orb is_set].
  destruct (chunk_spec hdrs max) as [Hc Happ]; [lia|done|]. cbn zeta in Hc, Happ.
  set (chunk := if max <? len hdrs then _ else _) in *. set (rest := slice_from hdrs (len chunk)) in *.
  set (o := OpContinuation sid (len rest =? 0) chunk).
  assert (op_legal o) as Ho by (split; [cbn; lia|exact Hsid]).
  unfold bind at 1. rewrite write_legal_frame by done. set (s1 := set_wire _ s).
  assert (op_legal o /\ 0 < len (fragment o) <= max) as Hof by (split; [exact Ho|unfold o; cbn [fragment HP_BlockFragment]; lia]).
  assert (len hdrs = len chunk + len rest) as Hlen by (rewrite <- Happ at 1; apply len_app).
  assert (fh_Type (op_header o) = FrameContinuation /\ fh_StreamID (op_header o) = sid) as [Ht Hid].
  { split; [reflexivity|]. unfold op_header, wire_header. cbn. unfold stream_id in Hsid. done. }
  destruct (Z.eqb_spec (len rest) 0) as [E|E].
  - exists [o]. assert (rest = []) as Hr by (apply nil_length_inv; unfold len in E; lia).
    split; [|split; [split|split; [|by repeat constructor]]].
    + subst m. rewrite Hr. apply writeHeaders_done.
    + cbn. rewrite app_nil_r. rewrite Hr, app_nil_r in Happ. done.
    + constructor; [done|constructor].
    + apply Reader.cont_last; [done|done|]. done.
  - destruct (IH rest s1) as (ops & Hrun & [Hcat Hall] & Hcont & Hisc).
    { unfold len in *. lia. } { pose proof (len_nonneg rest). lia. } { lia. } { done. }
    exists (o :: ops). split; [|split; [split|split; [|by constructor]]].
    + subst m. rewrite Hrun. unfold s1. cbn. by rewrite <- app_assoc.
    + cbn. by rewrite Hcat.
    + by constructor.
    + cbn [fmap list_fmap]. apply Reader.cont_more; try done.
Qed.

Lemma continuation_payload o : is_continuation o -> op_payload o = fragment o.
Proof. by destruct o. Qed.
Lemma len_prio_payload p : HP_PadLength p = 0 ->
  len (op_payload (OpHeaders p)) = len (HP_BlockFragment p) + (if PriorityParam_IsZero (HP_Priority p) then 0 else 5).
Proof.
  intros Hp. cbn [op_payload]. rewrite Hp, !len_app.
  assert (len (if PriorityParam_IsZero (HP_Priority p) then [] else prio_bytes (HP_Priority p)) = if PriorityParam_IsZero (HP_Priority p) then 0 else 5) as Hpr
    by (by case_match).
  change (len (pad_byte 0)) with 0. change (len (zeros 0)) with 0. lia.
Qed.

(** A header block is sent as one legal sequence of frames. For every positive
    frame size, unless the first frame would have no room for its priority (fragments
    up to 2^24 - 7 octets), [writeHeaders] ends, and writes one
    HEADERS frame, with the request's END_STREAM flag and the connection's
    priority, immediately followed by CONTINUATION frames of the same stream;
    their fragments, none empty and none above the frame size, are the block in
    order; END_HEADERS is on the last frame and only there, so the peer's
    [checkFrameOrder] accepts the sequence. *)
Theorem writeHeaders_block (sid : Z) (es : bool) (max : Z) (hdrs : bytes) s :
  stream_id sid -> prio_legal (HeaderPriority t) -> 0 < max -> Z.min max (len hdrs) <= 2 ^ 24 - 7 -> 0 < len hdrs -> werr s = None ->
  exists ops, writeHeaders t (S (length hdrs)) sid es max hdrs s = Done (Some None) (set_wire (wire s ++ ops) s)
    /\ carries max hdrs ops /\ Reader.wire_seq (op_header <$> ops)
    /\ exists p rest, ops = OpHeaders p :: rest /\ HP_StreamID p = sid /\ HP_EndStream p = es
         /\ HP_Priority p = HeaderPriority t /\ HP_PadLength p = 0 /\ Forall is_continuation rest.
Proof.
  intros Hsid Hprio Hmax Hmin Hh Hw. unfold writeHeaders, bind at 1. cbn [writeHeaders_loop]. unfold bind at 1, get. rewrite Hw.
  replace (0 <? len hdrs) with true by (symmetry; by apply Z.ltb_lt). cbn [negb orb is_set].
  destruct (chunk_spec hdrs max) as [Hc Happ]; [lia|done|]. cbn zeta in Hc, Happ.
  set (chunk := if max <? len hdrs then _ else _) in *. set (rest := slice_from hdrs (len chunk)) in *.
  set (o := OpHeaders _).
  assert (op_legal o) as Ho.
  { split; [|split; [exact Hsid|split; [done|exact Hprio]]].
    pose proof (len_prio_payload (mkHeadersFrameParam sid chunk es (len rest =? 0) 0 (HeaderPriority t)) eq_refl) as Hp.
    cbn [HP_BlockFragment] in Hp. unfold o. destruct (PriorityParam_IsZero _); lia. }
  unfold bind at 1. rewrite write_legal_frame by done. set (s1 := set_wire _ s).
  assert (op_legal o /\ 0 < len (fragment o) <= max) as Hof by (split; [exact Ho|unfold o; cbn [fragment HP_BlockFragment]; lia]).
  assert (len hdrs = len chunk + len rest) as Hlen by (rewrite <- Happ at 1; apply len_app).
  destruct (Z.eqb_spec (len rest) 0) as [E|E].
  - assert (rest = []) as Hr by (apply nil_length_inv; unfold len in E; lia).
    exists [o]. split; [|split; [split|split]].
    + rewrite Hr. destruct (length hdrs) eqn:El; [unfold len in Hh; lia|]. rewrite writeHeaders_done.
      unfold flush, bind, get, ret. cbn. by rewrite Hw.
    + cbn. rewrite app_nil_r. by rewrite Hr, app_nil_r in Happ.
    + constructor; [done|constructor].
    + apply Reader.seq_headers; [done| |constructor]. unfold o. cbn. unfold flag. repeat case_match; done.
    + by eexists _, [].
  - destruct (writeHeaders_cont sid es max (pred (length hdrs)) Hsid ltac:(lia) rest s1) as (ops & Hrun & [Hcat Hall] & Hcont & Hisc).
    { unfold len in *. lia. } { pose proof (len_nonneg rest). lia. } { lia. } { done. }
    exists (o :: ops). split; [|split; [split|split]].
    + replace (length hdrs) with (S (pred (length hdrs))) at 1 by (unfold len in Hh; lia).
      rewrite Hrun. unfold bind, get, ret, flush. cbn. rewrite Hw. by rewrite <- app_assoc.
    + cbn. by rewrite Hcat.
    + by constructor.
    + cbn [fmap list_fmap]. rewrite <- (app_nil_r (op_header <$> ops)).
      apply Reader.seq_block; [done| |exact Hcont|constructor]. unfold o. cbn. unfold flag. repeat case_match; done.
    + by eexists _, ops.
Qed.
End HeaderBlocks.

Lemma writeHeaders_block_witness :
  exists ops, writeHeaders Example.transport 6 1 true 2 [1; 2; 3; 4; 5] Example.start
      = Done (Some None) (set_wire (wire Example.start ++ ops) Example.start)
    /\ fragment <$> ops = [[1; 2]; [3; 4]; [5]].
Proof.
  destruct (@writeHeaders_block dataBuffer Example.transport 1 true 2 [1; 2; 3; 4; 5] Example.start)
    as (ops & Hrun & _); [unfold stream_id; lia|split; cbn; word|lia|vm_compute; discriminate|reflexivity|reflexivity|].
  exists ops. split; [exact Hrun|]. vm_compute in Hrun. injection Hrun as <-. reflexivity.
Defined.

(** A transport with the header priority of [ImpersonateChrome]. *)
Definition priority_transport : Transport :=
  mkTransport false false 0 0 [] 0 [] (mkPriorityParam 0 true 255) 0 false.

(** A header priority makes the first frame too large. [writeHeaders] cuts
    the block into fragments of the peer's maximal frame size, but the priority
    adds five octets to the payload of the HEADERS frame: with the priority of
    [ImpersonateChrome] and a block of 16384 octets, the frame sent has a payload
    of 16389 octets, although the peer accepts 16384. *)
Theorem header_priority_oversized :
  exists o, writeHeaders priority_transport 3 1 true 16384 (zeros 16384) Example.start
      = Done (Some None) (set_wire (wire Example.start ++ [o]) Example.start)
    /\ peer_maxFrameSize Example.start = 16384 /\ len (op_payload o) = 16389.
Proof. eexists. split; [vm_compute; reflexivity|]. split; vm_compute; reflexivity. Qed.

(** ** A peer's SETTINGS_MAX_FRAME_SIZE is not checked *)
Section FrameSize.
Context {B : Type} `{PipeBuffer B} (t : Transport).
Implicit Types s : ClientConn B.

Lemma writeHeaders_stuck fuel sid es hdrs first : 0 < len hdrs -> forall s, werr s = None ->
  exists s', writeHeaders_loop t fuel sid es 0 hdrs first s = Done false s'.
Proof.
  intros Hh. revert first. induction fuel as [|fuel IH]; intros first s Hw; [by exists s|].
  cbn [writeHeaders_loop]. unfold bind at 1, get. rewrite Hw.
  replace (0 <? len hdrs) with true by (symmetry; by apply Z.ltb_lt). cbn [negb orb is_set].
  replace (slice_to hdrs 0) with (@nil Z) by done. change (slice_from hdrs (len [])) with hdrs.
  set (m := if first then _ else _).
  assert (exists e s1, m s = Done e s1 /\ werr s1 = None) as (e & s1 & Hm & Hw1).
  { unfold m, write_frame. destruct first; rewrite Hw; (destruct (snd _); [by do 2 eexists|]); by do 2 eexists. }
  unfold bind. rewrite Hm. by apply IH.
Qed.

(** A maximal frame size of zero is accepted and stops every request. The
    protocol allows 2^14 to 2^24 - 1, but [processSettingsNoWrite] stores any
    value. After a SETTINGS frame with 0, [writeHeaders] does not end whatever the
    number of iterations, and [awaitFlowControl] returns zero tokens without an
    error, although its comment promises a non-zero number, so
    [writeRequestBody] sends empty DATA frames forever. *)
Theorem zero_frame_size_accepted (fh : FrameHeader) sid es hdrs id (cs : clientStream B) n s :
  fh_valid fh = true -> SettingsFrame_IsAck fh = false -> mu s = false -> wmu s = false -> werr s = None ->
  0 < len hdrs -> stream_objs s !! id = Some cs -> closed s = false -> cs_reqBodyClosed cs = false ->
  cs_abort cs = None -> 0 < n < 2 ^ 31 -> 0 < Outflow.available (cs_flow cs) (Some (flow s)) ->
  exists s', processSettings fh [0; 5; 0; 0; 0; 0] s = Done None s' /\ peer_maxFrameSize s' = 0
    /\ (forall fuel, exists s2, writeHeaders t fuel sid es (peer_maxFrameSize s') hdrs s' = Done None s2)
    /\ exists s3, awaitFlowControl id n None false s' = Done (0, None) s3.
Proof.
  intros Hv Hack Hm Hwm Hw Hh El Hcl Hbc Hab Hn Hav.
  assert (exists s', processSettings fh [0; 5; 0; 0; 0; 0] s = Done None s' /\ peer_maxFrameSize s' = 0
    /\ werr s' = None /\ mu s' = false /\ stream_objs s' = stream_objs s /\ closed s' = closed s /\ flow s' = flow s)
    as (s' & Hs & Hfs & Hw' & Hm' & Ho' & Hc' & Hf').
  { unfold processSettings, processSettingsNoWrite, with_wmu, with_mu, bind, lock_wmu, lock_mu, get, lift.
    rewrite Hwm. cbn [mu set_wmu]. rewrite Hm, Hack. unfold SettingsFrame_ForeachSetting, checked. rewrite Hv.
    change (settings_list [0; 5; 0; 0; 0; 0]) with [mkSetting SettingMaxFrameSize 0].
    cbn [foreach_settings apply_setting]. change (SettingMaxFrameSize =? SettingMaxFrameSize) with true.
    unfold modify, ret, unlock_mu, write_frame. cbn [is_set negb]. cbn -[write_op].
    destruct (seenSettings s); cbn -[write_op]; rewrite Hw; cbn; eexists; (split; [reflexivity|]); by repeat split. }
  exists s'. split; [exact Hs|]. split; [exact Hfs|]. rewrite Hfs. split.
  - intros fuel. destruct (writeHeaders_stuck fuel sid es hdrs true Hh s' Hw') as [s2 Hs2].
    exists s2. unfold writeHeaders, bind. by rewrite Hs2.
  - unfold awaitFlowControl, bind, lock_mu, get, get_cs. rewrite Hm'. cbn [stream_objs set_mu closed flow].
    rewrite Ho', El, Hc', Hcl, Hbc, Hab. cbn [is_set].
    rewrite Hf'. replace (0 <? _) with true by (symmetry; by apply Z.ltb_lt).
    cbn [peer_maxFrameSize set_mu]. rewrite Hfs. change (i32 0) with 0.
    set (a := Outflow.available _ _) in *. set (k := if n <? a then i32 n else a).
    assert (0 < k) as Hk by (unfold k; case_match; [rewrite i32_small by word|]; lia).
    replace (0 <? k) with true by (symmetry; by apply Z.ltb_lt).
    unfold Outflow.take. fold a. replace (a <? 0) with false by (symmetry; apply Z.ltb_ge; lia).
    cbn. eexists. reflexivity.
Qed.
End FrameSize.

Lemma zero_frame_size_accepted_witness :
  exists s', processSettings (mkFrameHeader true 4 0 6 0) [0; 5; 0; 0; 0; 0]
      (set_stream_objs {[ 1 := set_cs_flow 65535 Example.request ]} (set_streams {[ 1 ]} Example.start)) = Done None s'
    /\ peer_maxFrameSize s' = 0.
Proof.
  destruct (@zero_frame_size_accepted dataBuffer Example.transport (mkFrameHeader true 4 0 6 0) 1 true [130] 1
    (set_cs_flow 65535 Example.request) 10
    (set_stream_objs {[ 1 := set_cs_flow 65535 Example.request ]} (set_streams {[ 1 ]} Example.start)))
    as (s' & Hs & Hfs & _); try reflexivity; [lia|].
  exists s'. split; [exact Hs|exact Hfs].
Defined.

(** ** Flow control of request bodies *)
Section AwaitFlow.
Context {B : Type} `{PipeBuffer B}.
Implicit Types s : ClientConn B.

(** The tokens of a request body. When [awaitFlowControl] returns tokens for
    a write of [n] octets, under a frame size below 2^31 that is not 0, their
    number is at least one and at most [n], the frame size, the stream's window
    and the connection's; both windows shrink by exactly that number, no other
    stream changes and the lock is free. It waits only when one of the windows is
    empty. *)
Theorem awaitFlowControl_bounds (id n : Z) ctx canceled s (cs : clientStream B) :
  mu s = false -> stream_objs s !! id = Some cs -> is_i32 (cs_flow cs) -> is_i32 (flow s) ->
  0 < n < 2 ^ 31 -> 0 < peer_maxFrameSize s < 2 ^ 31 ->
  match awaitFlowControl id n ctx canceled s with
  | Done (k, None) s' =>
      1 <= k <= n /\ k <= peer_maxFrameSize s /\ k <= cs_flow cs /\ k <= flow s
      /\ mu s' = false /\ flow s' = flow s - k
      /\ stream_objs s' = <[id := set_cs_flow (cs_flow cs - k) cs]> (stream_objs s)
  | Done (_, Some _) s' => s' = s
  | Parked s' => s' = s /\ (cs_flow cs <= 0 \/ flow s <= 0)
  | _ => False
  end.
Proof.
  intros Hm El Hcf Hf Hn Hfs. unfold awaitFlowControl, bind, lock_mu, get, get_cs. rewrite Hm.
  cbn [stream_objs set_mu]. rewrite El. unfold unlock_mu, ret.
  assert (set_mu false (set_mu true s) = s) as Hsame.
  { transitivity (set_mu false s); [done|]. by apply set_mu_same. }
  destruct (closed _); [exact Hsame|]. destruct (cs_reqBodyClosed cs); [exact Hsame|].
  destruct (cs_abort cs); [exact Hsame|]. destruct ctx; [exact Hsame|]. destruct canceled; [exact Hsame|].
  cbn [is_set flow set_mu peer_maxFrameSize].
  assert (forall a, a = Outflow.available (cs_flow cs) (Some (flow s)) -> a = Z.min (cs_flow cs) (flow s)) as Ha.
  { intros a ->. unfold Outflow.available. destruct (Z.ltb_spec (flow s) (cs_flow cs)); lia. }
  set (a := Outflow.available _ _). specialize (Ha a eq_refl).
  destruct (Z.ltb_spec 0 a) as [Hpos|]; [|split; [exact Hsame|lia]].
  rewrite (i32_small (peer_maxFrameSize s)) by word. rewrite (i32_small n) by word.
  set (k1 := if n <? a then n else a). set (k := if peer_maxFrameSize s <? k1 then _ else k1).
  assert (k1 = Z.min n a) as Hk1 by (unfold k1; destruct (Z.ltb_spec n a); lia).
  assert (k = Z.min (peer_maxFrameSize s) k1) as Hk by (unfold k; destruct (Z.ltb_spec (peer_maxFrameSize s) k1); lia).
  unfold Outflow.take. fold a. destruct (Z.ltb_spec a k); [lia|]. cbn.
  rewrite !i32_small by word. do 4 (split; [lia|]). split; [done|]. split; [done|].
  apply map_eq. intros j. destruct (decide (j = id)) as [->|];
    [by rewrite lookup_alter_eq, El, lookup_insert_eq|by rewrite lookup_alter_ne, lookup_insert_ne].
Qed.
End AwaitFlow.

Lemma awaitFlowControl_bounds_witness :
  match awaitFlowControl 1 100 None false full_window_conn with
  | Done (k, None) s' => 1 <= k <= 100
  | _ => False
  end.
Proof.
  pose proof (@awaitFlowControl_bounds dataBuffer 1 100 None false full_window_conn
    (set_cs_flow maxWindow Example.request) eq_refl eq_refl ltac:(vm_compute; done) ltac:(vm_compute; done)
    ltac:(lia) ltac:(vm_compute; done)) as Hb.
  destruct (awaitFlowControl 1 100 None false full_window_conn) as [[k [e|]] s'| | |s'] eqn:E.
  - discriminate E.
  - exact (proj1 Hb).
  - discriminate E.
  - discriminate E.
  - discriminate E.
Defined.

(** ** SETTINGS_INITIAL_WINDOW_SIZE *)
Section InitialWindow.
Context {B : Type} `{PipeBuffer B}.
Implicit Types s : ClientConn B.

(** What a stream's send window holds above the initial window: the WINDOW_UPDATEs
    received for it, less what was sent. *)
Definition credit s (cs : clientStream B) : Z := cs_flow cs - initialWindow s.

(** Every window size of the list fits every live stream's credit. *)
Definition windows_fit s (l : list Setting) : Prop :=
  forall se id cs, se ∈ l -> S_ID se = SettingInitialWindowSize -> id ∈ streams s -> stream_objs s !! id = Some cs ->
    is_i32 (credit s cs + S_Val se).

(** The streams of [s'] are those of [s], the live ones with the same credit. *)
Definition same_credit s s' : Prop :=
  streams s' = streams s
  /\ forall id, match stream_objs s !! id, stream_objs s' !! id with
       | Some cs, Some cs' => cs' = set_cs_flow (cs_flow cs') cs
           /\ (if bool_decide (id ∈ streams s) then credit s' cs' = credit s cs else cs' = cs)
       | None, None => True
       | _, _ => False
       end.

Lemma set_cs_flow_same (cs : clientStream B) : set_cs_flow (cs_flow cs) cs = cs.
Proof. by destruct cs. Qed.

Lemma same_credit_refl s s' : streams s' = streams s -> stream_objs s' = stream_objs s ->
  initialWindow s' = initialWindow s -> same_credit s s'.
Proof.
  intros Hst Ho Hi. split; [done|]. intros id. rewrite Ho. destruct (stream_objs s !! id) as [cs|]; [|done].
  split; [by rewrite set_cs_flow_same|]. unfold credit. rewrite Hi. by case_bool_decide.
Qed.

Lemma apply_initial_window s v : 0 <= v <= maxWindow -> 0 <= initialWindow s <= maxWindow ->
  (forall id cs, stream_objs s !! id = Some cs -> is_i32 (cs_flow cs) /\ (id ∈ streams s -> is_i32 (credit s cs + v))) ->
  let s' := set_initialWindow v (for_streams (fun _ cs =>
              set_cs_flow (fst (Outflow.add (cs_flow cs) (i32 (i32 v - i32 (initialWindow s))))) cs) s) in
  same_credit s s' /\ (forall id cs, stream_objs s' !! id = Some cs -> is_i32 (cs_flow cs)).
Proof.
  intros Hv Hiw Hall s'. unfold maxWindow in *.
  assert (i32 (i32 v - i32 (initialWindow s)) = v - initialWindow s) as Hd by (rewrite !i32_small by word; done).
  assert (forall id cs, stream_objs s !! id = Some cs -> id ∈ streams s ->
    fst (Outflow.add (cs_flow cs) (v - initialWindow s)) = credit s cs + v) as Hadd.
  { intros id cs El Hin. destruct (Hall id cs El) as [Hf Hc]. specialize (Hc Hin). unfold credit in *.
    rewrite Outflow.add_spec by (done || word).
    replace (_ && _) with true; [cbn [fst]; lia|]. symmetry. apply andb_true_iff. unfold maxWindow. split; apply Z.leb_le; word. }
  assert (forall id, stream_objs s' !! id =
    (fun cs => if bool_decide (id ∈ streams s) then set_cs_flow (credit s cs + v) cs else cs) <$> stream_objs s !! id) as Hlk.
  { intros id. unfold s'. cbn. rewrite map_lookup_imap. destruct (stream_objs s !! id) as [cs|] eqn:El; cbn; [|done].
    rewrite Hd. case_bool_decide; [|done]. by rewrite (Hadd id cs El). }
  split.
  - split; [done|]. intros id. rewrite Hlk. destruct (stream_objs s !! id) as [cs|] eqn:El; cbn; [|done].
    case_bool_decide; cbn; [|by rewrite set_cs_flow_same]. split; [done|]. unfold credit. cbn. lia.
  - intros id cs. rewrite Hlk. destruct (stream_objs s !! id) as [c|] eqn:El; cbn; [|done]. intros [= <-].
    destruct (Hall id c El). case_bool_decide; [cbn; auto|done].
Qed.

Lemma same_credit_trans s s1 s2 : same_credit s s1 -> same_credit s1 s2 -> same_credit s s2.
Proof.
  intros [Hst H1] [Hst' H2]. split; [congruence|]. intros id. specialize (H1 id). specialize (H2 id).
  destruct (stream_objs s !! id) as [a|], (stream_objs s1 !! id) as [b|], (stream_objs s2 !! id) as [c|]; try done.
  destruct H1 as [E1 C1], H2 as [E2 C2]. rewrite Hst in C2. split.
  - rewrite E2, E1. by destruct a.
  - case_bool_decide; congruence.
Qed.

(** The effect of one setting on the windows. *)
Lemma apply_setting_credit s seen se :
  is_u32 (S_Val se) -> 0 <= initialWindow s <= maxWindow ->
  (forall id cs, stream_objs s !! id = Some cs -> is_i32 (cs_flow cs)) -> windows_fit s [se] ->
  forall s' seen', apply_setting (s, seen) se = ((s', seen'), None) ->
  same_credit s s' /\ 0 <= initialWindow s' <= maxWindow
  /\ (forall id cs, stream_objs s' !! id = Some cs -> is_i32 (cs_flow cs))
  /\ initialWindow s' = (if S_ID se =? SettingInitialWindowSize then S_Val se else initialWindow s).
Proof.
  intros Hv Hiw Hfl Hfit s' seen'. unfold apply_setting.
  destruct (Z.eqb_spec (S_ID se) SettingMaxFrameSize) as [E|_].
  { intros [= <- _]. rewrite E. split; [by apply same_credit_refl|]. split; [exact Hiw|]. split; [exact Hfl|done]. }
  destruct (Z.eqb_spec (S_ID se) SettingMaxConcurrentStreams) as [E|_].
  { intros [= <- _]. rewrite E. split; [by apply same_credit_refl|]. split; [exact Hiw|]. split; [exact Hfl|done]. }
  destruct (Z.eqb_spec (S_ID se) SettingMaxHeaderListSize) as [E|_].
  { intros [= <- _]. rewrite E. split; [by apply same_credit_refl|]. split; [exact Hiw|]. split; [exact Hfl|done]. }
  destruct (Z.eqb_spec (S_ID se) SettingInitialWindowSize) as [E|_].
  - destruct (Z.ltb_spec 2147483647 (S_Val se)); [done|]. intros [= <- _].
    destruct (apply_initial_window s (S_Val se)) as [Hc Hfl'].
    + unfold maxWindow. word.
    + done.
    + intros id cs El. split; [by eapply Hfl|]. intros Hin. eapply Hfit; [by apply list_elem_of_singleton|done|exact Hin|exact El].
    + split; [exact Hc|]. split; [cbn; unfold maxWindow; word|]. split; [exact Hfl'|done].
  - intros [= <- _]. split; [by apply same_credit_refl|]. split; [exact Hiw|]. split; [exact Hfl|done].
Qed.

Lemma windows_fit_step s s' se l : same_credit s s' -> windows_fit s (se :: l) -> windows_fit s' l.
Proof.
  intros [Hst Hc] Hfit se' id cs' Hse Hid Hin El. specialize (Hc id). rewrite El in Hc. rewrite Hst in Hin.
  destruct (stream_objs s !! id) as [cs|] eqn:E; [|done]. destruct Hc as [_ Hc].
  rewrite bool_decide_true in Hc by done. rewrite Hc. eapply Hfit; try done. by apply list_elem_of_further.
Qed.

(** The initial window after a list of settings. *)
Definition last_window (w : Z) (l : list Setting) : Z :=
  fold_left (fun w se => if S_ID se =? SettingInitialWindowSize then S_Val se else w) l w.

Lemma foreach_settings_credit l : forall s seen s' seen',
  Forall (fun se => is_u32 (S_Val se)) l -> 0 <= initialWindow s <= maxWindow ->
  (forall id cs, stream_objs s !! id = Some cs -> is_i32 (cs_flow cs)) -> windows_fit s l ->
  foreach_settings apply_setting (s, seen) l = ((s', seen'), None) ->
  same_credit s s' /\ initialWindow s' = last_window (initialWindow s) l.
Proof.
  induction l as [|se l IH]; intros s seen s' seen' Hv Hiw Hfl Hfit; cbn [foreach_settings].
  { intros [= <- _]. by split; [apply same_credit_refl|]. }
  destruct (apply_setting (s, seen) se) as [[s1 seen1] [e|]] eqn:Ea; [done|]. intros Hrest.
  apply Forall_cons in Hv as [Hv0 Hv].
  assert (windows_fit s [se]) as Hfit1.
  { intros se' id cs Hse. apply list_elem_of_singleton in Hse as ->. apply Hfit. by apply list_elem_of_here. }
  destruct (apply_setting_credit s seen se Hv0 Hiw Hfl Hfit1 s1 seen1 Ea) as (Hc1 & Hiw1 & Hfl1 & Hw1).
  destruct (IH s1 seen1 s' seen' Hv Hiw1 Hfl1 (windows_fit_step _ _ _ _ Hc1 Hfit) Hrest) as [Hc2 Hw2].
  split; [by eapply same_credit_trans|]. rewrite Hw2, Hw1. reflexivity.
Qed.

(** SETTINGS move every send window by the same amount. After a SETTINGS
    frame that is not an acknowledgement and is accepted, the connection's
    initial window is the last one of the frame (unchanged without one); every
    live stream keeps its credit, the difference between its window and the
    initial window, even with several such settings in the frame; nothing
    else of any stream changes, and the locks are free. The windows must fit in
    32 bits: the code ignores the failure of [flow.add]. *)
Theorem settings_keep_credit (fh : FrameHeader) (p : bytes) s s' :
  SettingsFrame_IsAck fh = false -> bytes_ok p -> mu s = false -> wmu s = false ->
  0 <= initialWindow s <= maxWindow ->
  (forall id cs, stream_objs s !! id = Some cs -> is_i32 (cs_flow cs)) ->
  windows_fit s (settings_list p) -> processSettings fh p s = Done None s' ->
  same_credit s s' /\ initialWindow s' = last_window (initialWindow s) (settings_list p)
  /\ mu s' = false /\ wmu s' = false.
Proof.
  intros Hack Hb Hm Hwm Hiw Hfl Hfit. unfold processSettings, processSettingsNoWrite.
  unfold with_wmu, with_mu, bind, lock_wmu, lock_mu, get, lift. rewrite Hwm. cbn [mu set_wmu]. rewrite Hm, Hack.
  unfold SettingsFrame_ForeachSetting, checked. destruct (fh_valid fh); [|done].
  set (s0 := set_mu true (set_wmu true s)).
  destruct (foreach_settings apply_setting (s0, false) (settings_list p)) as [[s1 seen] err] eqn:Ef.
  unfold ret, modify, unlock_mu, unlock_wmu. destruct err as [e|]; [done|]. cbn [is_set negb].
  apply foreach_settings_credit in Ef as [Hc Hw]; [|by apply Forall_forall; intros; eapply setting_value_range|done..].
  set (s2 := set_mu false _).
  assert (same_credit s s2 /\ initialWindow s2 = last_window (initialWindow s) (settings_list p) /\ mu s2 = false) as (Hc2 & Hw2 & Hm2).
  { unfold s2. destruct (seenSettings s1); cbn [negb]; [|destruct seen]; exact (conj Hc (conj Hw eq_refl)). }
  clearbody s2. unfold write_frame. destruct (werr s2); [|destruct (snd _)]; intros [= <-];
    exact (conj Hc2 (conj Hw2 (conj Hm2 eq_refl))).
Qed.
End InitialWindow.

Lemma settings_keep_credit_witness :
  exists s', processSettings (mkFrameHeader true 4 0 12 0) [0; 4; 0; 0; 0; 10; 0; 4; 0; 1; 0; 0] full_window_conn0 = Done None s'
    /\ initialWindow s' = 65536
    /\ cs_flow <$> stream_objs s' !! 1 = Some 65636.
Proof.
  destruct (processSettings (mkFrameHeader true 4 0 12 0) [0; 4; 0; 0; 0; 10; 0; 4; 0; 1; 0; 0] full_window_conn0)
    as [[e|] s'| | |] eqn:E; try (vm_compute in E; discriminate E).
  exists s'. split; [reflexivity|].
  destruct (@settings_keep_credit dataBuffer (mkFrameHeader true 4 0 12 0) [0; 4; 0; 0; 0; 10; 0; 4; 0; 1; 0; 0] full_window_conn0 s'
    eq_refl ltac:(repeat constructor; word) eq_refl eq_refl) as (Hc & Hw & _).
  - vm_compute. split; discriminate.
  - intros id cs Hid. change (({[ 1 := set_cs_flow 65635 Example.request ]} : gmap Z _) !! id = Some cs) in Hid.
    apply lookup_singleton_Some in Hid as [_ <-]. vm_compute. split; done.
  - intros se id cs Hse _ _ Hid. change (({[ 1 := set_cs_flow 65635 Example.request ]} : gmap Z _) !! id = Some cs) in Hid.
    apply lookup_singleton_Some in Hid as [_ <-].
    change (settings_list _) with [mkSetting 4 10; mkSetting 4 65536] in Hse.
    apply list_elem_of_In in Hse. cbn in Hse. destruct Hse as [<-|[<-|[]]]; vm_compute; split; done.
  - exact E.
  - split; [rewrite Hw; reflexivity|]. destruct Hc as [_ Hc]. specialize (Hc 1).
    change (stream_objs full_window_conn0 !! 1) with (Some (set_cs_flow 65635 Example.request)) in Hc.
    destruct (stream_objs s' !! 1) as [cs'|]; [|done]. destruct Hc as [_ Hc]. cbn. f_equal.
    rewrite bool_decide_true in Hc by (by apply elem_of_singleton). unfold credit in Hc. rewrite Hw in Hc. change (last_window _ _) with 65536 in Hc.
    change (initialWindow full_window_conn0) with 65535 in Hc.
    change (cs_flow (set_cs_flow 65635 Example.request)) with 65635 in Hc. lia.
Defined.

(** ** GOAWAY and the end of the connection *)
Section Ends.
Context {B : Type} `{PipeBuffer B} (t : Transport).
Implicit Types s : ClientConn B.

Lemma for_streams_lookup f s id :
  stream_objs (for_streams f s) !! id
  = (fun cs : clientStream B => if bool_decide (id ∈ streams s) then f id cs else cs) <$> stream_objs s !! id.
Proof. cbn. rewrite map_lookup_imap. by destruct (stream_objs s !! id). Qed.

Lemma abort_sets err (cs : clientStream B) :
  cs_abort (abortStreamLocked err cs) = Some (default err (cs_abort cs)).
Proof. unfold abortStreamLocked, closeReqBodyLocked. destruct (cs_abort cs) eqn:E; cbn; repeat case_match; cbn; congruence. Qed.

Lemma abort_closes_body err (cs : clientStream B) :
  cs_reqBody cs = true -> cs_reqBodyClosed (abortStreamLocked err cs) = true.
Proof.
  intros Hb. unfold abortStreamLocked, closeReqBodyLocked.
  destruct (cs_abort cs); cbn; rewrite Hb; by destruct (cs_reqBodyClosed cs) eqn:E; cbn.
Qed.

(** The error of a stream that a GOAWAY with code [code] excludes. *)
Definition goaway_error (id code : Z) : error :=
  if (id =? 1) && negb (code =? ErrCodeNo)
  then errors_New ("http2: Transport received GOAWAY from server ErrCode:" +:+ ErrCode_String code)
  else errClientConnGotGoAway.

(** GOAWAY. The connection takes no new request; of two GOAWAY frames, the
    first error code other than NO_ERROR is kept; the streams up to the last one
    the server handles are untouched; every later live stream is aborted, its
    request body closed, and (unless it had an error before) with the error that
    makes the request retriable on another connection, except stream 1 when the
    server reports an error. *)
Theorem goaway_aborts_later_streams (f : goAwayFrame) s :
  mu s = false ->
  exists s', setGoAway f s = Done tt s' /\ mu s' = false /\ canTakeNewRequestLocked t s' = false
    /\ let code := match goAway s with
                   | Some g => if ga_ErrCode g =? ErrCodeNo then ga_ErrCode f else ga_ErrCode g
                   | None => ga_ErrCode f
                   end in
       ga_ErrCode <$> goAway s' = Some code /\ dom (stream_objs s') = dom (stream_objs s)
       /\ forall id cs, stream_objs s !! id = Some cs -> exists cs', stream_objs s' !! id = Some cs'
          /\ (id ∉ streams s \/ id <= ga_LastStreamID f -> cs' = cs)
          /\ (id ∈ streams s -> ga_LastStreamID f < id ->
                cs_abort cs' = Some (default (goaway_error id code) (cs_abort cs))
                /\ (cs_reqBody cs = true -> cs_reqBodyClosed cs' = true)).
Proof.
  intros Hm. unfold setGoAway, with_mu, bind, lock_mu, get, modify, unlock_mu, ret. rewrite Hm.
  eexists. split; [reflexivity|]. split; [done|].
  split; [unfold canTakeNewRequestLocked, idleStateLocked; cbn; by destruct (_ && _)|].
  cbn zeta. set (s1 := set_goAway _ _).
  assert (goAway (set_mu true s) = goAway s) as -> by done.
  split; [|split].
  - cbn. destruct (goAway s) as [g|]; [|done]. by destruct (ga_ErrCode g =? ErrCodeNo).
  - apply set_eq. intros id. rewrite !elem_of_dom.
    match goal with |- context [for_streams ?g s1] => pose proof (for_streams_lookup g s1 id) as Hl end.
    cbn [stream_objs set_mu] in *. rewrite Hl. rewrite fmap_is_Some.
    unfold s1. cbn. by destruct (len _ =? 0).
  - intros id cs El. cbn [stream_objs set_mu]. rewrite for_streams_lookup.
    assert (streams s1 = streams s /\ stream_objs s1 = stream_objs s) as [-> ->].
    { unfold s1. cbn. by destruct (len _ =? 0). }
    rewrite El. cbn [fmap option_fmap option_map]. eexists. split; [reflexivity|]. split.
    + intros [Hn|Hle]; [by rewrite bool_decide_false|].
      case_bool_decide; [|done]. by replace (id <=? ga_LastStreamID f) with true by (symmetry; by apply Z.leb_le).
    + intros Hin Hlt. rewrite bool_decide_true by done.
      replace (id <=? ga_LastStreamID f) with false by (symmetry; by apply Z.leb_gt).
      unfold goaway_error. destruct (goAway s) as [g|]; [destruct (ga_ErrCode g =? ErrCodeNo)|]; cbn [negb];
        (destruct (_ && _); (split; [apply abort_sets|apply abort_closes_body])).
Qed.

(** The end of the read loop reaches every request. Whatever error the loop
    ended with, [readLoop]'s exit (the GOAWAY it sends on a connection error,
    then [cleanup]) completes with the locks free, marks the connection dead in
    the pool and closed, closes the socket, and leaves no live stream waiting:
    each is finished by the peer or aborted, so its request returns; a clean end
    of the socket is never reported as a plain EOF. *)
Theorem loop_end_reaches_everyone (err : error) s :
  mu s = false -> wmu s = false ->
  exists s', readLoop_end (Some err) s = Done tt s' /\ mu s' = false /\ wmu s' = false
    /\ markedDead s' = true /\ closed s' = true /\ tconnClosed s' = true
    /\ forall id cs, stream_objs s !! id = Some cs -> id ∈ streams s -> exists cs', stream_objs s' !! id = Some cs'
       /\ cs_peerClosed cs' = cs_peerClosed cs
       /\ (cs_peerClosed cs = false -> cs_abort cs' <> None /\ (cs_abort cs' = Some io_EOF -> cs_abort cs = Some io_EOF)).
Proof.
  intros Hm Hw. unfold readLoop_end.
  assert (exists s1, (match err with
    | ConnectionError c => with_wmu (write_frame (OpGoAway 0 c []) ;; ret tt)
    | _ => ret tt
    end) s = Done tt s1 /\ mu s1 = false /\ wmu s1 = false /\ stream_objs s1 = stream_objs s /\ streams s1 = streams s)
    as (s1 & Hs1 & Hm1 & Hw1 & Ho1 & Hst1).
  { destruct err; try (exists s; done). unfold with_wmu, bind, lock_wmu, unlock_wmu, ret, write_frame. rewrite Hw.
    destruct (werr (set_wmu true s)); [|destruct (snd _)]; by eexists. }
  unfold bind at 1. rewrite Hs1. unfold cleanup, bind, modify, lock_mu, get, unlock_mu, closeConn. cbn [mu set_markedDead].
  rewrite Hm1. set (err' := cleanup_error _ _).
  assert (exists e, err' = Some e /\ e <> io_EOF) as (e & He & Hne).
  { unfold err', cleanup_error. destruct (goAway _); [destruct (isEOFOrNetReadError _); [by eexists|]|];
      (case_bool_decide as Hd; [by eexists|exists err; split; [done|congruence]]). }
  rewrite He. eexists. split; [reflexivity|]. do 5 (split; [done|]).
  intros id cs El Hin. cbn [stream_objs set_tconnClosed set_mu]. rewrite for_streams_lookup. cbn [streams stream_objs set_closed set_mu set_markedDead].
  rewrite Ho1, Hst1, El. cbn [fmap option_fmap option_map]. rewrite bool_decide_true by done. eexists. split; [reflexivity|].
  destruct (cs_peerClosed cs) eqn:Ep; [by rewrite Ep|]. split.
  - unfold abortStreamLocked, closeReqBodyLocked. repeat case_match; done.
  - intros _. rewrite abort_sets. split; [done|]. destruct (cs_abort cs); cbn; [done|]. by intros [= ->].
Qed.
End Ends.

Lemma goaway_aborts_later_streams_witness :
  exists s', setGoAway (mkGoAway 0 ErrCodeNo []) full_window_conn = Done tt s'
    /\ cs_abort <$> stream_objs s' !! 1 = Some (Some errClientConnGotGoAway).
Proof.
  destruct (@goaway_aborts_later_streams dataBuffer Example.transport (mkGoAway 0 ErrCodeNo []) full_window_conn eq_refl)
    as (s' & Hs & _ & _ & _ & _ & Hall).
  exists s'. split; [exact Hs|].
  destruct (Hall 1 (set_cs_flow maxWindow Example.request) eq_refl) as (cs' & -> & _ & Hab).
  destruct Hab as [Ha _]; [by apply elem_of_singleton|done|]. exact (f_equal Some Ha).
Defined.

Lemma loop_end_reaches_everyone_witness :
  exists s', readLoop_end (Some io_EOF) full_window_conn = Done tt s' /\ closed s' = true.
Proof.
  destruct (@loop_end_reaches_everyone dataBuffer io_EOF full_window_conn eq_refl eq_refl)
    as (s' & Hs & _ & _ & _ & Hc & _).
  exists s'. split; [exact Hs|exact Hc].
Defined.

