(* ===== verification/H2Body.v ===== *)
(** * Response bodies of an HTTP/2 connection

    What a caller sees of a response body: its declared length, the encodings
    the transport removes, and the flow control returned when it is closed. *)

From S2P Require Import Prelude.
From S2P Require Import H2Errors.
From S2P Require Import Flow.
From S2P Require Import DataBuffer.
From S2P Require Import Pipe.
From S2P Require Import Frame.
From S2P Require Import FrameWrite.
From S2P Require Import Framer.
From S2P Require Import NetText.
From S2P Require Import ConnState.
From S2P Require Import H2Transport.
From S2P Require Import H2Conn.
From S2P Require Import H2ReadLoop.
From S2P Require Import H2Safe.
From S2P Require Import H2System.
From S2P Require Import H2Props.
Import ConnNotations.

(** ** Response bodies *)
Section Bodies.
Context {B : Type} `{PipeBufferOk B} {D : Type} `{HpackDecoder D}.
Implicit Types s : ClientConn B.

(** Partial correctness: what holds of a normal result, or where it parks. *)
Definition pwp (R : ClientConn B -> Prop) {A} (m : M B A) (Q : A -> ClientConn B -> Prop) s : Prop :=
  match m s with Done a s' => Q a s' | Parked s' => R s' | _ => True end.

Lemma pwp_bind R {A C} (m : M B A) (k : A -> M B C) Q s :
  pwp R m (fun a s' => pwp R (k a) Q s') s -> pwp R (bind m k) Q s.
Proof. unfold pwp, bind. by destruct (m s). Qed.
Lemma pwp_ret R {A} (a : A) Q s : Q a s -> pwp R (ret a) Q s.
Proof. done. Qed.
Lemma pwp_mono R {A} (m : M B A) (Q Q' : A -> ClientConn B -> Prop) s :
  (forall a s', Q a s' -> Q' a s') -> pwp R m Q s -> pwp R m Q' s.
Proof. unfold pwp. destruct (m s); auto. Qed.
Lemma pwp_wp R {A} (m : M B A) Q Q' s : wp R m Q s -> pwp R m Q' s -> wp R m (fun a s' => Q a s' /\ Q' a s') s.
Proof. unfold wp, pwp. by destruct (m s). Qed.

(** The length still expected of the body of stream [id], and its sticky error. *)
Definition expects id (remain : Z) (err : option error) s : Prop :=
  exists cs, stream_objs s !! id = Some cs /\ cs_bytesRemain cs = remain /\ cs_readErr cs = err.

(** Operations that keep every stream's expectation. *)
Definition keeps_expect {A} (m : M B A) : Prop :=
  forall id n e s, expects id n e s -> pwp (expects id n e) m (fun _ s' => expects id n e s') s.

Lemma expect_ret {A} (a : A) : keeps_expect (ret a).
Proof. intros id n e s He. exact He. Qed.
Lemma expect_bind {A C} (m : M B A) (k : A -> M B C) :
  keeps_expect m -> (forall a, keeps_expect (k a)) -> keeps_expect (bind m k).
Proof. intros Hm Hk id n e s He. apply pwp_bind. eapply pwp_mono; [|by apply Hm]. intros a s' He'. by apply Hk. Qed.
Lemma expect_get : keeps_expect get.
Proof. intros id n e s He. exact He. Qed.
Lemma expect_get_cs i : keeps_expect (get_cs i).
Proof. intros id n e s He. unfold pwp, get_cs. by destruct (stream_objs s !! i). Qed.
Lemma expect_lift {A} (r : result string A) : keeps_expect (lift r).
Proof. intros id n e s He. by destruct r. Qed.
Lemma expect_modify f : (forall s, stream_objs (f s) = stream_objs s) -> keeps_expect (modify f).
Proof. intros Hf id n e s (cs & El & Hr). exists cs. by rewrite Hf. Qed.
Lemma expect_modify_cs i f : (forall cs, cs_bytesRemain (f cs) = cs_bytesRemain cs /\ cs_readErr (f cs) = cs_readErr cs) ->
  keeps_expect (modify_cs i f).
Proof.
  intros Hf id n e s (cs & El & Hn & He). unfold pwp, modify_cs, modify. unfold expects. cbn.
  destruct (decide (i = id)) as [->|].
  - exists (f cs). rewrite lookup_alter_eq, El. destruct (Hf cs) as [-> ->]. done.
  - exists cs. by rewrite lookup_alter_ne.
Qed.
Lemma expect_panic {A} msg : keeps_expect (panic (A := A) msg).
Proof. intros id n e s He. done. Qed.
Lemma expect_lock : keeps_expect lock_mu /\ keeps_expect unlock_mu /\ keeps_expect lock_wmu /\ keeps_expect unlock_wmu.
Proof.
  unfold keeps_expect, pwp, lock_mu, unlock_mu, lock_wmu, unlock_wmu.
  split; [|split; [|split]]; intros id n e s He; repeat case_match; simplify_eq; done.
Qed.
Lemma expect_write o : keeps_expect (write_frame o).
Proof. intros id n e s He. unfold pwp, write_frame. repeat case_match; simplify_eq; done. Qed.
Lemma expect_flush : keeps_expect flush.
Proof. intros id n e s He. exact He. Qed.

Lemma expect_with_mu {A} (m : M B A) : keeps_expect m -> keeps_expect (with_mu m).
Proof. intros Hm. repeat (apply expect_bind; [apply expect_lock || exact Hm|intros ?]). apply expect_ret. Qed.
Lemma expect_with_wmu {A} (m : M B A) : keeps_expect m -> keeps_expect (with_wmu m).
Proof. intros Hm. repeat (apply expect_bind; [apply expect_lock || exact Hm|intros ?]). apply expect_ret. Qed.
End Bodies.

Create HintDb expect.
#[export] Hint Resolve expect_ret expect_bind expect_get expect_get_cs expect_lift expect_modify
  expect_panic expect_write expect_flush expect_with_mu expect_with_wmu : expect.

Section ContentLength.
Context {B : Type} `{PipeBufferOk B}.
Implicit Types s : ClientConn B.

Lemma expect_copyTrailers i : keeps_expect (B := B) (run_copyTrailers i).
Proof.
  intros id n e s (cs & El & Hn & He). unfold pwp, run_copyTrailers, bind, get_cs, panic. destruct (stream_objs s !! i) as [cs0|] eqn:E0; [|done].
  destruct (copyTrailers cs0) as [cs1|] eqn:Ec; [|done]. assert (cs_bytesRemain cs1 = cs_bytesRemain cs0 /\ cs_readErr cs1 = cs_readErr cs0) as [E1 E2].
  { unfold copyTrailers in Ec. destruct (cs_res cs0); [by injection Ec as <-|]. case_bool_decide; [by injection Ec as <-|done]. }
  unfold modify_cs, modify, expects. cbn. destruct (decide (i = id)) as [->|]; [|exists cs; by rewrite lookup_alter_ne].
  exists cs1. rewrite lookup_alter_eq, E0. rewrite E0 in El. injection El as ->. by rewrite E1, E2.
Qed.

Lemma expect_abortStream i e : keeps_expect (B := B) (abortStream i e).
Proof.
  apply expect_with_mu, expect_modify_cs. intros cs. unfold abortStreamLocked, closeReqBodyLocked.
  repeat case_match; done.
Qed.

(** Giving flow control back to the peer. *)
Lemma expect_return_flow i n (err : option error) (d : bytes) : keeps_expect (B := B) (
  lock_mu ;;
  s <- get ;;
  let* (cin, connAdd) := lift (Inflow.add (cc_inflow s) n) in
  modify (set_cc_inflow cin) ;;
  cs <- get_cs i ;;
  streamAdd <- (if is_set err then ret 0 else
                  let* (sin, a) := lift (Inflow.add (cs_inflow cs) n) in
                  modify_cs i (set_cs_inflow sin) ;; ret a) ;;
  unlock_mu ;;
  (if negb (connAdd =? 0) || negb (streamAdd =? 0) then
     with_wmu (
       (if negb (connAdd =? 0) then
          match mustUint31 connAdd with
          | Some v => write_frame (OpWindowUpdate 0 v) ;; ret tt
          | None => panic "out of range"
          end
        else ret tt) ;;
       (if negb (streamAdd =? 0) then
          match mustUint31 streamAdd with
          | Some v => write_frame (OpWindowUpdate (ID_of i) v) ;; ret tt
          | None => panic "out of range"
          end
        else ret tt) ;;
       flush ;; ret tt)
   else ret tt) ;;
  ret (d, err)).
Proof.
  repeat first [apply expect_bind; [|intros ?] | apply expect_lock | apply expect_with_wmu
    | apply expect_modify; done | apply expect_modify_cs; done
    | progress auto with expect | case_match | destruct (mustUint31 _)].
Qed.

Lemma expect_set_remain R id n m e s : expects id n e s ->
  pwp R (modify_cs id (set_cs_bytesRemain m)) (fun _ s' => expects (B := B) id m e s') s.
Proof.
  intros (cs & El & _ & He). unfold pwp, modify_cs, modify. exists (set_cs_bytesRemain m cs). cbn.
  by rewrite lookup_alter_eq, El.
Qed.

(** What the caller sees of a body with [r] declared octets left. *)
Definition read_within id r (res : bytes * option error) s : Prop :=
  len res.1 <= r /\ (res.2 = Some io_EOF -> res.1 = [] /\ r = 0)
  /\ (res.2 = None -> expects (B := B) id (r - len res.1) None s).

Lemma body_Read_partial id room s cs : stream_objs s !! id = Some cs -> pipe_ok (cs_bufPipe cs) -> 0 <= room ->
  cs_readErr cs = None -> 0 <= cs_bytesRemain cs ->
  pwp (fun s' => s' = s \/ exists n e, expects id n e s') (body_Read id room) (read_within id (cs_bytesRemain cs)) s.
Proof.
  intros El Hp Hroom He Hr. unfold body_Read. apply pwp_bind. unfold pwp at 1, get_cs. rewrite El, He. cbn [is_set].
  pose proof (pipe_Read_ok (cs_bufPipe cs) room Hp Hroom) as Hrd.
  destruct (pipe_Read _ room) as [p d err ran| |]; [|by left|done]. destruct Hrd as (_ & _ & _ & Hnil).
  set (r := cs_bytesRemain cs) in *. pose proof (len_nonneg d) as Hd.
  assert (expects id r None s) as Hx by (exists cs; done).
  set (R := fun s' => s' = s \/ exists n e, expects id n e s').
  assert (forall {A} (m : M B A) n e (Q : A -> ClientConn B -> Prop) s1, keeps_expect m -> expects id n e s1 ->
    (forall a s2, expects id n e s2 -> Q a s2) -> pwp R m Q s1) as Hk.
  { intros A m n e Q s1 Hm Hs1 HQ. pose proof (Hm id n e s1 Hs1) as Hpm. unfold pwp in *. destruct (m s1); auto.
    right. by eauto. }
  apply pwp_bind. apply (Hk _ _ r None); [by apply expect_modify_cs|done|]. intros [] s1 Hx1. apply pwp_bind.
  apply (Hk _ _ r None); [destruct (is_set ran); [apply expect_copyTrailers|apply expect_ret]|done|].
  intros [] s2 Hx2. replace (r =? -1) with false by (symmetry; apply Z.eqb_neq; lia). cbn [negb andb].
  destruct (Z.ltb_spec r (len d)) as [Hlt|Hge].
  - assert (err = None) as ->.
    { destruct err; [|done]. specialize (Hnil eq_refl). subst d. rewrite len_nil in Hlt. lia. }
    cbn [is_set]. apply pwp_bind. apply (Hk _ _ r None); [apply expect_abortStream|done|].
    intros [] s3 Hx3. apply pwp_bind. unfold pwp at 1, modify_cs, modify. apply pwp_ret.
    split; [|split; [by intros [=]|by intros [=]]]. cbn [fst]. rewrite len_slice_to by lia. lia.
  - apply pwp_bind. eapply pwp_mono; [|by apply (expect_set_remain R id r (r - len d) None)].
    intros [] s3 Hx3. destruct (bool_decide (err = Some io_EOF) && (0 <? r - len d)) eqn:Eeof.
    { apply pwp_bind. unfold pwp at 1, modify_cs, modify. apply pwp_ret.
      split; [exact Hge|]. split; by intros [=]. }
    assert (err = Some io_EOF -> d = [] /\ r = 0) as Heof.
    { intros ->. assert (d = []) as -> by (by apply Hnil). split; [done|]. rewrite bool_decide_true in Eeof by done.
      cbn [andb] in Eeof. apply Z.ltb_ge in Eeof. rewrite len_nil in *. lia. }
    destruct (len d =? 0).
    { apply pwp_ret. split; [exact Hge|]. split; [exact Heof|]. by intros _. }
    set (m := bind lock_mu _). assert (keeps_expect m) as Hm by apply expect_return_flow.
    pose proof (Hm id (r - len d) None s3 Hx3) as Hpm.
    assert (forall a s4, m s3 = Done a s4 -> a = (d, err)) as Hres.
    { intros a s4. unfold m, bind, ret. repeat case_match; congruence. }
    unfold pwp in *. destruct (m s3) as [a s4| | |s4]; [|done|done|right; by eauto].
    rewrite (Hres a s4 eq_refl). split; [exact Hge|]. split; [exact Heof|]. by intros _.
Qed.

(** A body never delivers more, or quietly less, than its Content-Length.
    Reading a body with [r] declared octets left, in a state that satisfies the
    invariant, completes or waits; it returns at most [r] octets; it reports EOF
    only when all the declared octets were delivered, otherwise an early end is
    an unexpected EOF and an excess is cut off with an error; and after a
    success exactly the octets not delivered are still expected. *)
Theorem body_Read_content_length (id room : Z) s (cs : clientStream B) :
  cinv 0 s -> mu s = false -> wmu s = false -> stream_objs s !! id = Some cs -> is_Some (cs_res cs) -> 0 <= room ->
  cs_readErr cs = None -> 0 <= cs_bytesRemain cs ->
  match body_Read id room s with
  | Done (d, err) s' =>
      len d <= cs_bytesRemain cs
      /\ (err = Some io_EOF -> d = [] /\ cs_bytesRemain cs = 0)
      /\ (err = None -> exists cs', stream_objs s' !! id = Some cs' /\ cs_readErr cs' = None
                          /\ cs_bytesRemain cs' = cs_bytesRemain cs - len d)
      /\ mu s' = false /\ wmu s' = false
  | Parked s' => s' = s
  | _ => False
  end.
Proof.
  intros Hi Hm Hw El Hres Hroom He Hr. pose proof (cinv_lookup _ _ _ _ Hi El) as (Hp & _).
  pose proof (body_Read_ok (fun s' => s' = s) 0 id room s cs ltac:(lia) Hroom El Hres Hi Hm Hw eq_refl) as Htot.
  pose proof (body_Read_partial id room s cs El Hp Hroom He Hr) as Hpart.
  unfold wp, pwp in *. destruct (body_Read id room s) as [[d err] s'| | |]; try done.
  destruct Hpart as (H1' & H2' & H3'). destruct Htot as (_ & Hm' & Hw' & _). cbn in *.
  refine (conj H1' (conj H2' (conj _ (conj Hm' Hw')))).
  intros Hn. destruct (H3' Hn) as (cs' & E1 & E2 & E3). by exists cs'.
Qed.
End ContentLength.

#[local] Existing Instance Example.db.
#[local] Existing Instance Example.db_ok.

(** A body with two octets left and three buffered. *)
Definition body_stream (remain : Z) (d : bytes) : clientStream dataBuffer :=
  set_cs_res (Some (mkResponse "200 OK" 200 ∅ None remain transportResponseBody false)) (set_cs_bytesRemain remain
    (set_cs_bufPipe (match pipe_Write (setBuffer newPipe (newDataBuffer (-1))) d with
                     | Some (p, _, _) => p
                     | None => newPipe
                     end)
       (set_cs_inflow (Inflow.mk transportDefaultStreamFlow 0) Example.request))).
Definition body_conn (remain : Z) (d : bytes) : ClientConn dataBuffer :=
  set_stream_objs {[ 1 := body_stream remain d ]} (set_streams {[ 1 ]} Example.start).

Lemma body_stream_pipe remain d : len d <= 1000 ->
  pipe_ok (cs_bufPipe (body_stream remain d)) /\ 0 <= cs_held (body_stream remain d) <= 1000.
Proof.
  intros Hd. pose proof (len_nonneg d).
  assert (pipe_ok (newPipe : pipe dataBuffer unit)) as Hn by (by apply pipe_ok_open).
  destruct (Example.newDataBuffer_ok (-1)) as [Hb Hc].
  destruct (pipe_setBuffer_ok newPipe (newDataBuffer (-1)) Hn Hb Hc) as [Hs Hh].
  change (held_pipe newPipe) with 0 in Hh.
  destruct (pipe_Write_ok _ d Hs) as (p & n & e & Hw & Hok & Hheld & _).
  assert (cs_bufPipe (body_stream remain d) = p) as Hp by (unfold body_stream; rewrite Hw; done).
  unfold cs_held. rewrite Hp. split; [done|]. pose proof (held_nonneg _ Hok). destruct (is_set e); lia.
Qed.

Lemma body_stream_ok remain d : -1 <= remain -> len d <= 1000 -> cs_ok (body_stream remain d).
Proof.
  intros Hr Hd. destruct (body_stream_pipe remain d Hd) as [Hp Hh].
  refine (conj Hp (conj _ (conj _ (conj _ (conj eq_refl (conj _ Hr)))))); try done.
  change (total (cs_inflow (body_stream remain d))) with 4194304. unfold maxWindow. lia.
Qed.

Lemma body_conn_ok remain d : -1 <= remain -> len d <= 1000 -> cinv 0 (body_conn remain d).
Proof.
  intros Hr Hd. pose proof (body_stream_ok remain d Hr Hd) as Hok. destruct (body_stream_pipe remain d Hd) as [_ Hh].
  refine (conj _ (conj _ (conj _ (conj _ (conj _ _))))).
  - intros id Hid. change (id ∈ ({[ 1 ]} : gset Z)) in Hid. apply elem_of_singleton in Hid as ->. split; [lia|]. by exists (body_stream remain d).
  - intros id cs Hid. change (({[ 1 := body_stream remain d ]} : gmap Z _) !! id = Some cs) in Hid.
    by apply lookup_singleton_Some in Hid as [_ <-].
  - change (cc_inflow (body_conn remain d)) with (Inflow.mk 1073807359 0). split; cbn; [lia|done].
  - change (stream_objs (body_conn remain d)) with ({[ 1 := body_stream remain d ]} : gmap Z (clientStream dataBuffer)).
    rewrite <- insert_empty, held_sum_insert by done. change (held_sum ∅) with 0.
    change (total (cc_inflow (body_conn remain d))) with 1073807359. unfold maxWindow. lia.
  - change (flow (body_conn remain d)) with 65535. word.
  - change (initialWindow (body_conn remain d)) with 65535. unfold maxWindow. lia.
Qed.

Lemma body_Read_content_length_witness :
  exists d e s', body_Read 1 10 (body_conn 2 [7; 8; 9]) = Done (d, Some e) s' /\ len d <= 2 /\ d = [7; 8].
Proof.
  destruct (body_Read 1 10 (body_conn 2 [7; 8; 9])) as [[d [e|]] s'| | |] eqn:E; try (vm_compute in E; discriminate E).
  exists d, e, s'. split; [reflexivity|].
  pose proof (body_Read_content_length 1 10 (body_conn 2 [7; 8; 9]) (body_stream 2 [7; 8; 9])
    (body_conn_ok 2 [7; 8; 9] ltac:(lia) ltac:(vm_compute; discriminate)) eq_refl eq_refl eq_refl ltac:(by eexists) ltac:(lia) eq_refl
    ltac:(vm_compute; discriminate)) as Hr.
  rewrite E in Hr. split; [exact (proj1 Hr)|]. vm_compute in E. by injection E as <- _ _.
Defined.

(** Closing a body twice returns its flow control twice. [Close] refunds the
    bytes not read, counted by the pipe, each time it is called: a connection
    whose server sent 5000 bytes that are never read announces 10000 bytes of
    new window after two calls, as many as it received plus 5000 that the server
    never sent. *)
Theorem double_close_refunds_twice :
  let conn := body_conn (-1) (zeros 5000) in
  exists s1 s2, body_Close 1 conn = Done tt s1 /\ body_Close 1 s1 = Done tt s2
    /\ total (cc_inflow s1) = total (cc_inflow conn) + 5000
    /\ total (cc_inflow s2) = total (cc_inflow conn) + 10000
    /\ wire s2 = wire conn ++ [OpWindowUpdate 0 5000; OpWindowUpdate 0 5000].
Proof. do 2 eexists. split; [vm_compute; reflexivity|]. split; [vm_compute; reflexivity|]. by repeat split. Qed.

(** ** Content encodings *)
Section Encodings.
Context {B : Type} `{PipeBuffer B} (t : Transport)
  (newBuf : Z -> B) (got1xx : Z -> Header -> option error).
Implicit Types s : ClientConn B.

Lemma Header_Del_lookup (h : Header) k : CanonicalHeaderKey k = k -> Header_Del h k !! k = None.
Proof. intros Hk. unfold Header_Del. rewrite Hk. apply lookup_delete_eq. Qed.

(** An unknown encoding loses the body. With automatic decompression, a final
    response with a body whose Content-Encoding is not one of gzip, deflate, br and
    zstd (and was not asked for as gzip) is returned with a nil [Body], as
    decompressed, of unknown length and without the Content-Encoding header that
    would explain it; [http.Response] promises a non-nil body, and a caller that
    reads or closes it panics. *)
Theorem unknown_encoding_nil_body (id : Z) (fh : FrameHeader) (fields : list HeaderField) (code : Z) s
    (cs : clientStream B) :
  let header := (fold_left add_field (Reader.RegularFields fields) (∅, None)).1 in
  let ce := Header_Get header "Content-Encoding" in
  AutoDecompression t = true -> stream_objs s !! id = Some cs -> cs_isHead cs = false ->
  FrameStreamEnded fh = false -> Atoi (Reader.PseudoValue fields "status") = Some code ->
  ~ 100 <= code <= 199 -> ce <> ""%string -> ce ∉ ["gzip"; "deflate"; "br"; "zstd"]%string ->
  cs_requestedGzip cs && EqualFold ce "gzip" = false ->
  exists res s', handleResponse t newBuf got1xx id fh fields false s = Done (Ok (Some res)) s'
    /\ res_Body res = BodyNil /\ res_StatusCode res = code /\ res_Uncompressed res = true
    /\ res_ContentLength res = -1 /\ Header_Get (res_Header res) "Content-Encoding" = ""%string.
Proof.
  intros header ce Hauto El Hhead Hend Hcode Hrange Hne Hunk Hgz. unfold handleResponse.
  destruct (String.eqb_spec (Reader.PseudoValue fields "status") "") as [E|_];
    [rewrite E in Hcode; discriminate Hcode|].
  rewrite Hcode. subst ce. subst header.
  destruct (fold_left add_field (Reader.RegularFields fields) (∅, None)) as [header trailer]. cbn [fst] in *.
  unfold bind at 1, get_cs. rewrite El.
  replace ((100 <=? code) && (code <=? 199)) with false by (symmetry; destruct (Z.leb_spec 100 code), (Z.leb_spec code 199); cbn; lia).
  rewrite Hhead, Hend, Hgz, Hauto. unfold bind, modify_cs, modify.
  destruct (String.eqb_spec (Header_Get header "Content-Encoding") "") as [E|_]; [done|]. cbn [negb].
  do 2 eexists. split; [reflexivity|]. cbn [res_Body res_StatusCode res_Uncompressed res_ContentLength res_Header].
  split; [unfold NewCompressReader; by rewrite bool_decide_false|]. split; [done|]. split; [done|]. split; [done|].
  unfold Header_Get, Header_values.
  assert (CanonicalHeaderKey "Content-Encoding" = "Content-Encoding"%string) as Hc by reflexivity.
  assert (CanonicalHeaderKey "Content-Length" = "Content-Length"%string) as Hl by reflexivity.
  unfold Header_Del. rewrite Hc, Hl, lookup_delete_ne by done. by rewrite lookup_delete_eq.
Qed.
End Encodings.

Lemma unknown_encoding_nil_body_witness :
  let t := mkTransport false false 0 0 [] 0 [] PriorityParam_zero 0 true in
  exists res s', handleResponse t newDataBuffer Example.no1xx 1 (mkFrameHeader true 1 4 9 1)
      [mkHeaderField ":status" "200"; mkHeaderField "content-encoding" "compress"] false full_window_conn
      = Done (Ok (Some res)) s'
    /\ res_Body res = BodyNil.
Proof.
  intros t.
  destruct (@unknown_encoding_nil_body dataBuffer t newDataBuffer Example.no1xx 1 (mkFrameHeader true 1 4 9 1)
      [mkHeaderField ":status" "200"; mkHeaderField "content-encoding" "compress"] 200 full_window_conn
      (set_cs_flow maxWindow Example.request)
      eq_refl eq_refl eq_refl eq_refl ltac:(vm_compute; reflexivity) ltac:(lia) ltac:(vm_compute; discriminate))
    as (res & s' & Hr & Hb & _).
  - vm_compute. intros Hin. repeat (apply elem_of_cons in Hin as [Hin|Hin]; [discriminate Hin|]). by apply elem_of_nil in Hin.
  - vm_compute. reflexivity.
  - exists res, s'. split; [exact Hr|exact Hb].
Defined.
