(* ===== verification/H2Retry.v ===== *)
(** * Which HTTP/2 requests are sent again ([src/internal/http2/transport.go])

    [shouldRetryRequest] looks at an error only; here the error is followed back to what
    made it. The read loop's frames are recorded next to the state of the connection of
    [H2System], and in every state they explain each error that gets a request retried. *)

From S2P Require Import Prelude.
From S2P Require Import H2Errors.
From S2P Require Import Flow.
From S2P Require Import DataBuffer.
From S2P Require Import Pipe.
From S2P Require Import Frame.
From S2P Require Import FrameWrite.
From S2P Require Import Framer.
From S2P Require Import NetText.
From S2P Require Import ConnState.
From S2P Require Import H2Transport.
From S2P Require Import H2Conn.
From S2P Require Import H2ReadLoop.
From S2P Require Import H2Safe.
From S2P Require Import H2System.
From S2P Require Import H2Body.
Import ConnNotations.

(** An error that gets no request retried. *)
Notation foreign e := (CanRetryError e = false).

(** ** Operations and the errors streams are aborted with *)
Section Tame.
Context {B : Type} `{PipeBuffer B}.
(** The errors that get a request retried and that the stream [id] may have been aborted with. *)
Context (Ev : Z -> error -> Prop).
Implicit Types s : ClientConn B.

Definition cs_clean (id : Z) (cs : clientStream B) : Prop := forall e, cs_abort cs = Some e -> CanRetryError e = true -> Ev id e.
Definition clean s : Prop := map_Forall cs_clean (stream_objs s) /\ forall e, werr s = Some e -> foreign e.
(** [m] keeps this, also where it parks. *)
Definition tame {A} (m : M B A) : Prop := forall s, clean s -> pwp clean m (fun _ => clean) s.

Lemma tame_ret {A} (a : A) : tame (ret a). Proof. by intros s Hs. Qed.
Lemma tame_get : tame get. Proof. by intros s Hs. Qed.
Lemma tame_panic {A} msg : tame (panic (A := A) msg). Proof. by intros s Hs. Qed.
Lemma tame_bind {A C} (m : M B A) (k : A -> M B C) : tame m -> (forall a, tame (k a)) -> tame (bind m k).
Proof. intros Hm Hk s Hs. apply pwp_bind. eapply pwp_mono; [|by apply Hm]. intros a s' Hs'. by apply Hk. Qed.
Lemma tame_get_cs i : tame (get_cs i).
Proof. intros s Hs. unfold pwp, get_cs. by destruct (stream_objs s !! i). Qed.
Lemma tame_lift {A} (r : result string A) : tame (lift r). Proof. intros s Hs. by destruct r. Qed.
Lemma tame_locks : tame lock_mu /\ tame unlock_mu /\ tame lock_wmu /\ tame unlock_wmu.
Proof. split_and!; intros s Hs; unfold pwp, lock_mu, unlock_mu, lock_wmu, unlock_wmu; repeat case_match; simplify_eq; done. Qed.
Lemma tame_with_mu {A} (m : M B A) : tame m -> tame (with_mu m).
Proof. intros Hm. repeat (apply tame_bind; [apply tame_locks || exact Hm|intros ?]). apply tame_ret. Qed.
Lemma tame_with_wmu {A} (m : M B A) : tame m -> tame (with_wmu m).
Proof. intros Hm. repeat (apply tame_bind; [apply tame_locks || exact Hm|intros ?]). apply tame_ret. Qed.
Lemma tame_write o : tame (write_frame o).
Proof. intros s Hs. unfold pwp, write_frame. repeat case_match; simplify_eq; done. Qed.
Lemma tame_flush : tame flush. Proof. by intros s Hs. Qed.
Lemma tame_park f : (forall s, clean s -> clean (f s)) -> tame (fun s => Parked (B := B) (A := unit) (f s)).
Proof. intros Hf s Hs. by apply Hf. Qed.
Lemma tame_modify f : (forall s, stream_objs (f s) = stream_objs s /\ werr (f s) = werr s) -> tame (modify f).
Proof. intros Hf s Hs. unfold pwp, modify, clean. by destruct (Hf s) as [-> ->]. Qed.
Lemma tame_modify_cs i f : (forall cs, cs_clean i cs -> cs_clean i (f cs)) -> tame (modify_cs i f).
Proof.
  intros Hf s [Hs Hw]. split; [|exact Hw]. cbn. intros id cs El. destruct (decide (i = id)) as [->|].
  - rewrite lookup_alter_eq in El. apply fmap_Some in El as (cs0 & El & ->). by apply Hf, Hs.
  - rewrite lookup_alter_ne in El by done. by apply Hs.
Qed.
Lemma tame_modify_cs_same i f : (forall cs, cs_abort (f cs) = cs_abort cs) -> tame (modify_cs i f).
Proof. intros Hf. apply tame_modify_cs. intros cs Hcs e. rewrite Hf. apply Hcs. Qed.
Lemma tame_for_streams f : (forall id cs, cs_clean id cs -> cs_clean id (f id cs)) -> tame (modify (for_streams f)).
Proof.
  intros Hf s [Hs Hw]. split; [|exact Hw]. intros id cs. cbn. rewrite map_lookup_imap. intros El. apply bind_Some in El as (cs0 & El & [= <-]).
  case_bool_decide; [by apply Hf, Hs|by apply Hs].
Qed.

Lemma abort_clean id e cs : (CanRetryError e = true -> Ev id e) -> cs_clean id cs -> cs_clean id (abortStreamLocked e cs).
Proof.
  intros He Hcs e' Ha. assert (cs_abort (abortStreamLocked e cs) = Some (default e (cs_abort cs))) as Hd.
  { unfold abortStreamLocked, closeReqBodyLocked. destruct (cs_abort cs) eqn:E; cbn; repeat case_match; cbn; congruence. }
  rewrite Hd in Ha. injection Ha as <-. destruct (cs_abort cs) as [e0|] eqn:E; [by apply Hcs|done].
Qed.
Lemma tame_abort id e : (CanRetryError e = true -> Ev id e) -> tame (abortStream id e).
Proof. intros He. apply tame_with_mu, tame_modify_cs. intros cs. by apply abort_clean. Qed.
Lemma tame_abort_foreign id e : foreign e -> tame (abortStream id e).
Proof. intros He. apply tame_abort. by rewrite He. Qed.
Lemma tame_endStreamError id e : foreign e -> tame (endStreamError id e).
Proof. intros He. apply tame_bind; [by apply tame_modify_cs_same|]. intros _. by apply tame_abort_foreign. Qed.
End Tame.

Create HintDb tame.
#[export] Hint Resolve tame_ret tame_get tame_panic tame_get_cs tame_lift tame_write tame_flush : tame.

(** The operations are sequences of these steps. *)
Ltac tame_step :=
  lazymatch goal with
  | |- tame _ (abortStream _ _) => apply tame_abort_foreign; reflexivity
  | |- tame _ (endStreamError _ _) => apply tame_endStreamError; reflexivity
  | |- tame _ (bind _ _) => apply tame_bind; [|intros ?]
  | |- tame _ (with_mu _) => apply tame_with_mu
  | |- tame _ (with_wmu _) => apply tame_with_wmu
  | |- tame _ (ret _) => apply tame_ret
  | |- tame _ get => apply tame_get
  | |- tame _ (get_cs _) => apply tame_get_cs
  | |- tame _ (lift _) => apply tame_lift
  | |- tame _ (panic _) => apply tame_panic
  | |- tame _ flush => apply tame_flush
  | |- tame _ (write_frame _) => apply tame_write
  | |- tame _ lock_mu => apply tame_locks
  | |- tame _ unlock_mu => apply tame_locks
  | |- tame _ (modify _) => apply tame_modify; intros; repeat case_match; done
  | |- tame _ (modify_cs _ _) => apply tame_modify_cs_same; intros; repeat case_match; done
  | |- tame _ (match _ with _ => _ end) => case_match
  | |- tame _ (fun s => Parked _) => by intros ? ?
  | |- forall _ : _, _ => intros ?
  end.
Ltac tame := repeat tame_step.

Section Operations.
Context {B : Type} `{PipeBuffer B} {D : Type} `{HpackDecoder D} (t : Transport)
  (newBuf : Z -> B) (got1xx : Z -> Header -> option error) (Ev : Z -> error -> Prop).
Implicit Types s : ClientConn B.
Notation tame m := (tame (B := B) Ev m).

Lemma tame_copyTrailers i : tame (run_copyTrailers i).
Proof.
  intros s Hs. unfold pwp, run_copyTrailers, bind, get_cs, panic. destruct (stream_objs s !! i) as [cs0|] eqn:E0; [|done].
  destruct (copyTrailers cs0) as [cs1|] eqn:Ec; [|done]. apply (tame_modify_cs Ev i (fun _ => cs1)); [|done].
  intros cs _ e Ha. apply (proj1 Hs i cs0 E0). unfold copyTrailers in Ec. destruct (cs_res cs0); [by injection Ec as <-|]. case_bool_decide; [by injection Ec as <-|done].
Qed.
Lemma tame_body_Read id room : tame (body_Read id room).
Proof.
  unfold body_Read. apply tame_bind; [auto with tame|]. intros cs. case_match; [auto with tame|]. destruct (pipe_Read _ _) as [p d err ran| |]; [|by intros s Hs|auto with tame].
  apply tame_bind; [by apply tame_modify_cs_same|]. intros _. apply tame_bind; [destruct (is_set ran); [apply tame_copyTrailers|auto with tame]|]. intros _.
  cbv zeta. case_match.
  - apply tame_bind; [destruct err; cbn; [auto with tame|by apply tame_abort_foreign]|]. intros _. tame.
  - tame.
Qed.
Lemma tame_body_Close id : tame (body_Close id).
Proof.
  unfold body_Close. tame.
Qed.

(** *** Requests *)
(** A stream that is opened was not aborted with such an error. *)
Definition opens r s : Prop := forall cs e, stream_objs s !! r = Some cs -> cs_abort cs = Some e -> foreign e.
Lemma addStream_clean r s : opens r s -> clean Ev s -> pwp (clean Ev) (addStreamLocked r) (fun _ => clean Ev) s.
Proof.
  intros Hr Hs. unfold addStreamLocked, pwp, bind, get, get_cs, modify. destruct (stream_objs s !! r) as [cs|] eqn:El; [|done].
  set (cs' := set_cs_inflow _ _). cbv zeta. assert (clean Ev (set_stream_objs (<[nextStreamID s := cs']> (delete r (stream_objs s))) s)) as Hc.
  { destruct Hs as [Hs Hw]. split; [|exact Hw]. apply map_Forall_insert_2; [|by apply map_Forall_delete]. intros e Ha Hre. by rewrite (Hr cs e El Ha) in Hre. }
  cbn. destruct (nextStreamID s =? 0); [done|exact Hc].
Qed.
Lemma awaitSlot_clean s : clean Ev s -> pwp (clean Ev) (awaitOpenSlotForStreamLocked t) (fun _ s' => clean Ev s' /\ stream_objs s' = stream_objs s) s.
Proof. intros Hs. unfold pwp, awaitOpenSlotForStreamLocked. repeat case_match; simplify_eq; done. Qed.
Lemma slot_clean r c slot s : opens r s -> pwp (clean Ev) slot (fun _ s' => clean Ev s' /\ stream_objs s' = stream_objs s) s ->
  pwp (clean Ev) (writeRequest_slot r c slot) (fun _ => clean Ev) s.
Proof.
  intros Hr Hslot. unfold writeRequest_slot. apply pwp_bind. eapply pwp_mono; [|exact Hslot]. intros e s1 [Hs1 Eo]. destruct e as [e|].
  - apply (tame_bind Ev unlock_mu (fun _ => ret _)); [apply tame_locks|by intros; apply tame_ret|done].
  - apply pwp_bind. eapply pwp_mono; [|apply addStream_clean; [|exact Hs1]; unfold opens; by rewrite Eo]. intros id s2 Hs2.
    match goal with |- pwp _ ?m _ _ => assert (tame m) as Ht by tame end. by apply Ht.
Qed.
Lemma open_clean r c s : opens r s -> clean Ev s -> pwp (clean Ev) (writeRequest_open t r c) (fun _ => clean Ev) s.
Proof.
  intros Hr Hs. apply slot_clean; [done|]. unfold pwp, bind, lock_mu, modify. destruct (mu s); [done|].
  unfold decrStreamReservationsLocked. destruct (0 <? _); [apply (awaitSlot_clean (set_streamsReserved (streamsReserved s - 1) (set_mu true s)))|apply (awaitSlot_clean (set_mu true s))]; exact Hs.
Qed.
Lemma reopen_clean r c ae s : opens r s -> clean Ev s -> pwp (clean Ev) (writeRequest_reopen t r c ae) (fun _ => clean Ev) s.
Proof.
  intros Hr Hs. apply slot_clean; [done|]. unfold awaitOpenSlot_wake, pwp, bind, lock_mu, modify. destruct (mu s); [done|].
  destruct ae; [done|]. by apply (awaitSlot_clean (set_pendingRequests (pendingRequests s - 1) (set_mu true s))).
Qed.
Lemma tame_awaitFlow id n ctx canceled : tame (awaitFlowControl id n ctx canceled).
Proof. unfold awaitFlowControl. tame. Qed.
Lemma tame_forgetStreamID id : tame (forgetStreamID t id).
Proof. unfold forgetStreamID, closeConn. tame. Qed.
Lemma tame_closeForError e : foreign e -> tame (closeForError e).
Proof. intros He. unfold closeForError, closeConn. tame. apply tame_for_streams. intros id cs. apply abort_clean. by rewrite He. Qed.
Lemma tame_writeStreamReset id code : tame (writeStreamReset id code).
Proof. unfold writeStreamReset. tame. Qed.
Lemma tame_cleanup id err : (forall e, err = Some e -> CanRetryError e = true -> Ev id e) -> tame (cleanupWriteRequest t id err).
Proof.
  intros He. unfold cleanupWriteRequest. apply tame_bind; [destruct (_ =? 0); [unfold decrStreamReservations, decrStreamReservationsLocked|]; tame|]. intros _.
  apply tame_bind; [tame|]. intros _. apply tame_bind; [auto with tame|]. intros cs. cbv zeta.
  apply tame_bind.
  - assert (forall e, (if is_set err && cs_sentEndStream cs && cs_peerClosed cs then None else err) = Some e -> CanRetryError e = true -> Ev id e) as He' by (intros e; by case_match; [|apply He]).
    destruct (if is_set err && _ && _ then None else err) as [e|].
    + apply tame_bind; [by apply tame_abort, He'|]. intros _. apply tame_bind; [|intros _; tame].
      destruct (cs_sentHeaders cs); [|auto with tame]. destruct e; try apply tame_writeStreamReset. destruct (negb _); [apply tame_writeStreamReset|auto with tame].
    + apply tame_bind; [destruct (_ && _); [apply tame_writeStreamReset|auto with tame]|]. intros _. tame.
  - intros _. apply tame_bind; [destruct (negb _); [apply tame_forgetStreamID|auto with tame]|]. intros _. apply tame_bind; [tame|]. intros werr.
    apply tame_bind; [destruct (is_set werr); [by apply tame_closeForError|auto with tame]|]. intros _. tame.
Qed.
End Operations.

(** ** The read loop *)
(** The frame that explains the error a stream is aborted with: a GOAWAY whose last stream
    comes before, or the stream's own RST_STREAM. *)
Definition explains (f : Frame) (id : Z) (e : error) : Prop :=
  match f with
  | GoAwayFrame _ last_ _ _ => last_ < id /\ e = errClientConnGotGoAway
  | RSTStreamFrame h code => id = fh_StreamID h /\ (code = ErrCodeRefusedStream \/ code = ErrCodeProtocol) /\ e = StreamError id code (Some errFromPeer)
  | _ => False
  end.

Section Handlers.
Context {B : Type} `{PipeBuffer B} {D : Type} `{HpackDecoder D} (t : Transport)
  (newBuf : Z -> B) (got1xx : Z -> Header -> option error) (Ev : Z -> error -> Prop).
(** The errors of the buffers and of the trace hook are their own. *)
Context (write_foreign : forall b d b' n e, pb_Write b d = Some (b', n, Some e) -> foreign e)
  (trace_foreign : forall c h, got1xx c h <> Some errFromPeer).
Implicit Types s : ClientConn B.

Lemma tame_bind_result {A C} (m : M B A) (k : A -> M B C) : tame Ev m -> (forall a s s', m s = Done a s' -> tame Ev (k a)) -> tame Ev (bind m k).
Proof.
  intros Hm Hk s Hs. specialize (Hm s Hs). unfold pwp, bind in *. destruct (m s) as [a s'| | |] eqn:E; [|done..]. by apply (Hk a s s' E).
Qed.

Lemma tame_streamByID id : tame Ev (B := B) (streamByID id).
Proof. unfold streamByID. tame. Qed.
Lemma tame_endStream id : tame Ev (B := B) (endStream id).
Proof. unfold endStream, close_peerClosed. tame. Qed.
Lemma tame_handleResponse id fh fields tr : tame Ev (handleResponse t newBuf got1xx id fh fields tr).
Proof. unfold handleResponse. tame. Qed.
Lemma handleResponse_error id fh fields tr a s s' : handleResponse t newBuf got1xx id fh fields tr s = Done a s' -> a <> Err errFromPeer.
Proof.
  unfold handleResponse, bind, ret, get_cs, panic, modify_cs, modify. intros Hr ->. cbv zeta in Hr.
  repeat (case_match; simplify_eq; try discriminate Hr). by eapply trace_foreign.
Qed.
Lemma tame_processHeaders fh fields tr : tame Ev (processHeaders t newBuf got1xx fh fields tr).
Proof.
  unfold processHeaders. apply tame_bind; [apply tame_streamByID|]. intros [cs|]; [|apply tame_ret]. case_match; [tame|]. apply tame_bind; [tame|]. intros _.
  case_match; [unfold processTrailers; tame; apply tame_endStream|]. apply tame_bind; [tame|]. intros _.
  apply tame_bind_result; [apply tame_handleResponse|]. intros r s s' Hr. apply handleResponse_error in Hr. destruct r as [[res|]|e].
  - unfold close_respHeaderRecv. tame. apply tame_endStream.
  - tame.
  - assert (foreign (StreamError (fh_StreamID fh) ErrCodeProtocol (Some e))) as He.
    { unfold CanRetryError. rewrite !bool_decide_false; [done|congruence|done|done]. }
    destruct e; try (apply tame_bind; [by apply tame_endStreamError|tame]). tame.
Qed.

Lemma pipe_write_foreign (p p' : pipe B unit) d n e : pipe_Write p d = Some (p', n, Some e) -> foreign e.
Proof. unfold pipe_Write. intros Hw. repeat case_match; simplify_eq; try done. by eapply write_foreign. Qed.
Lemma tame_sendWindowUpdates id a b : tame Ev (B := B) (sendWindowUpdates id a b).
Proof. unfold sendWindowUpdates. tame. Qed.
Lemma tame_processData_window id fh data : tame Ev (B := B) (processData_window id fh data).
Proof.
  unfold processData_window. do 3 (apply tame_bind; [tame|intros ?]). case_match. case_match. do 2 (apply tame_bind; [tame|intros ?]). case_match; [tame|]. cbv zeta.
  apply tame_bind_result; [tame|]. intros werr s1 s2 Hw. assert (forall e, werr = Some e -> foreign e) as He.
  { intros e ->. unfold bind, ret, panic, modify_cs, modify in Hw. repeat case_match; simplify_eq. by eapply pipe_write_foreign. }
  tame; first [apply tame_sendWindowUpdates|by apply tame_endStreamError, He].
Qed.
Lemma tame_processData fh data : tame Ev (B := B) (processData fh data).
Proof.
  unfold processData. apply tame_bind; [apply tame_streamByID|]. intros [cs|]; [|unfold processData_unknown; tame; apply tame_sendWindowUpdates]. cbv zeta.
  do 3 (case_match; [tame|]). apply tame_bind; [case_match; [apply tame_processData_window|tame]|]. intros [err go]. tame. apply tame_endStream.
Qed.

Lemma tame_setGoAway f : (forall id, ga_LastStreamID f < id -> Ev id errClientConnGotGoAway) -> tame Ev (B := B) (setGoAway f).
Proof.
  intros Hf. unfold setGoAway. apply tame_with_mu. apply tame_bind; [tame|]. intros s. cbv zeta. do 2 (apply tame_bind; [tame|intros ?]).
  apply tame_for_streams. intros id cs Hcs. destruct (Z.leb_spec id (ga_LastStreamID f)); [done|]. destruct (_ && _); apply abort_clean; [|done|by intros _; apply Hf|done].
  intros Hre. exfalso. revert Hre. unfold CanRetryError. by rewrite !bool_decide_false.
Qed.
Lemma foreach_clean l : forall acc acc' e, clean Ev acc.1 -> foreach_settings (apply_setting (B := B)) acc l = (acc', e) -> clean Ev acc'.1.
Proof.
  induction l as [|se l IH]; intros acc acc' e Hc; [by intros [= <- <-]|]. cbn [foreach_settings]. destruct (apply_setting acc se) as [a1 e1] eqn:E1. assert (clean Ev a1.1) as H1.
  { destruct acc as [cc seen]. unfold apply_setting in E1. repeat (case_match; simplify_eq; try exact Hc). cbn.
    apply (tame_for_streams Ev (fun _ cs => set_cs_flow (fst (Outflow.add (cs_flow cs) (i32 (i32 (S_Val se) - i32 (initialWindow cc))))) cs)); [|exact Hc]. done. }
  destruct e1; [by intros [= <- <-]|]. by apply IH.
Qed.
Lemma tame_processSettings fh p : tame Ev (B := B) (processSettings fh p).
Proof.
  unfold processSettings. apply tame_with_wmu. apply tame_bind; [|tame]. unfold processSettingsNoWrite. apply tame_with_mu. intros s Hs. unfold pwp, bind, get.
  destruct (SettingsFrame_IsAck fh); [by destruct (wantSettingsAck s)|]. destruct (SettingsFrame_ForeachSetting fh p apply_setting (s, false)) as [[[cc seen] err]|] eqn:Ef; cbn; [|done].
  assert (clean Ev cc) as Hcc.
  { unfold SettingsFrame_ForeachSetting, checked in Ef. case_match; [|done]. injection Ef as Ef. exact (foreach_clean _ (s, false) _ _ Hs Ef). }
  destruct (is_set err); cbn; [done|]. unfold clean. by repeat case_match.
Qed.
Lemma tame_processWindowUpdate fh inc : tame Ev (B := B) (processWindowUpdate fh inc).
Proof. unfold processWindowUpdate. apply tame_bind; [apply tame_streamByID|]. intros cs. tame. Qed.
Lemma tame_processResetStream fh code :
  (code = ErrCodeRefusedStream \/ code = ErrCodeProtocol -> Ev (fh_StreamID fh) (StreamError (fh_StreamID fh) code (Some errFromPeer))) ->
  tame Ev (B := B) (processResetStream fh code).
Proof.
  intros Hcode. unfold processResetStream, SetDoNotReuse. apply tame_bind; [apply tame_streamByID|]. intros [cs|]; [|tame]. apply tame_bind; [tame|]. intros _.
  apply tame_bind; [|intros _; tame]. apply tame_abort. unfold CanRetryError. rewrite !bool_decide_false by done. cbn. intros Hre. apply Hcode.
  case_bool_decide; [|done]. destruct (Z.eqb_spec code ErrCodeProtocol) as [->|]; [by right|]. left. by apply Z.eqb_eq.
Qed.
Lemma tame_processPing fh data : tame Ev (B := B) (processPing fh data).
Proof. unfold processPing. tame. Qed.

(** One result of [ReadFrame]: its errors are the framer's and the network's own. *)
Definition foreign_read (err detail : option error) : Prop :=
  match err with
  | Some (StreamError sid code cause) => foreign (StreamError sid code (if is_set cause then cause else detail))
  | Some e => foreign e
  | None => True
  end.
Lemma tame_run_step got f err detail : foreign_read err detail -> (forall fr id e, f = Some fr -> err = None -> explains fr id e -> Ev id e) ->
  tame Ev (run_step t newBuf got1xx got f err detail).
Proof.
  intros Hfo Hf. unfold run_step. destruct err as [[]|]; try (tame; fail).
  - apply tame_bind; [apply tame_streamByID|]. intros cs. tame. by apply tame_endStreamError.
  - destruct f as [f|]; [|tame]. case_match; [tame|]. apply tame_bind; [|intros; tame]. specialize (Hf f). destruct f; try (tame; fail).
    + apply tame_processData.
    + apply tame_processResetStream. intros Hc. by apply Hf.
    + apply tame_processSettings.
    + unfold processPushPromise. tame.
    + apply tame_processPing.
    + unfold processGoAway. apply tame_bind; [tame|]. intros _. apply tame_bind; [|intros _; tame]. apply tame_setGoAway. intros id Hid. by apply Hf.
    + apply tame_processWindowUpdate.
    + apply tame_processHeaders.
Qed.
Lemma tame_readLoop_end err : (forall e, err = Some e -> foreign e) -> tame Ev (B := B) (readLoop_end err).
Proof.
  intros He. unfold readLoop_end, cleanup, closeConn. apply tame_bind; [destruct err as [[]|]; tame|]. intros _. do 2 (apply tame_bind; [tame|intros _]). apply tame_bind; [tame|]. intros s. cbv zeta.
  apply tame_bind; [tame|intros _]. apply tame_bind; [|intros _; tame]. apply tame_for_streams. intros id cs Hcs. destruct (cs_peerClosed cs); [done|].
  destruct (cleanup_error err s) as [e|] eqn:Ee; [|done]. apply abort_clean; [|done]. intros Hre. exfalso. assert (foreign e) as Hfo; [|congruence].
  unfold cleanup_error in Ee. repeat case_match; simplify_eq; try done; by apply He.
Qed.
End Handlers.

(** ** The framer's errors get no request retried *)
Section FramerErrors.
Import Reader.
Context {D : Type} `{HpackDecoderOk D} (ValidHeaderFieldValue : string -> bool) (IsTokenRune : Z -> bool).
Implicit Types fr : Framer D.

Definition meta_foreign (m : meta) : Prop := invalid m <> Some errFromPeer.
Lemma rawEmit_foreign s hf : meta_foreign s.2 -> meta_foreign (rawEmitFunc ValidHeaderFieldValue IsTokenRune s hf).2.
Proof. destruct s as [d m]. unfold meta_foreign, rawEmitFunc. cbn [snd]. intros Hm. repeat case_match; cbn; congruence. Qed.
Lemma emitted_foreign (s s' : D * meta) : emitted (rawEmitFunc ValidHeaderFieldValue IsTokenRune) s s' -> meta_foreign s.2 -> meta_foreign s'.2.
Proof. induction 1 as [|? ? ? ? ? ? IH|? ? ? ? ? ? IH]; [done|exact IH|]. intros Hm. apply IH. by apply (rawEmit_foreign (d, m)). Qed.
Lemma pseudos_foreign fields : checkPseudos fields <> Some errFromPeer.
Proof.
  unfold checkPseudos. assert (forall pf seen a b, checkPseudos_loop seen pf a b <> Some errFromPeer) as Hl; [|apply Hl].
  induction pf as [|hf pf IH]; intros seen a b; cbn; [by destruct (_ && _)|]. destruct (_ && _); [done|]. destruct (existsb _ _); [done|apply IH].
Qed.
Lemma protocol_foreign id e : e <> errFromPeer -> foreign (StreamError id ErrCodeProtocol (Some e)).
Proof. intros He. unfold CanRetryError. rewrite !bool_decide_false; [done|congruence|done|done]. Qed.

Definition reads_foreign (rd : Framer D -> Reader.outcome * Framer D) : Prop :=
  forall fr f err fr', rd fr = (Returned f err, fr') -> foreign_read err (errDetail fr').
Lemma metaLoop_foreign rd n : reads_foreign rd -> forall fr hf prio hc frag m, meta_foreign m ->
  match metaLoop ValidHeaderFieldValue IsTokenRune rd n fr hf prio hc frag m with
  | LoopReturn (Returned _ err) fr' => foreign_read err (errDetail fr')
  | LoopReturn _ _ => True
  | LoopBreak _ _ m' => meta_foreign m'
  end.
Proof.
  intros Hrd. induction n as [|n IH]; intros fr hf prio hc frag m Hm; cbn [metaLoop]; [done|]. unfold checked at 1. destruct (fh_valid hc); [|done].
  destruct (_ <? len frag); [done|]. destruct (is_set (invalid m)); [done|]. destruct (ReadMetaHeaders fr) as [d|]; [|done].
  destruct (hdec_Write _ _ _) as [[d' m1] err] eqn:Ew. apply hdec_Write_spec in Ew. apply emitted_foreign in Ew; [|exact Hm]. cbn [snd] in Ew. destruct (is_set err); [done|].
  destruct (Flags_Has _ _); [done|]. destruct (rd _) as [o fr1] eqn:Er. destruct o as [f e| |]; [|done..]. pose proof (Hrd _ _ _ _ Er) as Hf.
  destruct e as [e|]; [destruct f as [[]|]; exact Hf|]. destruct f as [[]|]; try done. by apply IH.
Qed.

Lemma parse_foreign h p tok e : typeFrameParser (fh_Type h) h p = ParseErr tok e -> (exists code reason, e = H2Errors.connError code reason) \/ foreign_read (Some e) None.
Proof.
  intros Hp. unfold typeFrameParser in Hp.
  repeat match type of Hp with match ?t with _ => _ end _ _ = _ => destruct t end;
  unfold parseDataFrame, parseHeadersFrame, parsePriorityFrame, parseRSTStreamFrame, parseSettingsFrame,
    parsePushPromise, parsePingFrame, parseGoAwayFrame, parseWindowUpdateFrame, parseContinuationFrame,
    parseUnknownFrame, readPriority, readByte, readUint32 in Hp;
  repeat case_match; simplify_eq; solve [right; reflexivity|left; by eexists _, _].
Qed.
Lemma ReadFrame_foreign fuel : reads_foreign (ReadFrame ValidHeaderFieldValue IsTokenRune fuel).
Proof.
  induction fuel as [|fuel IH]; intros fr f err fr'; cbn [ReadFrame]; [done|]. destruct (readFrameHeader _) as [[fh|e] r1] eqn:Eh.
  2:{ intros [= <- <- <-]. unfold readFrameHeader, io_ReadFull in Eh. repeat case_match; simplify_eq; reflexivity. }
  destruct (_ <? fh_Length fh); [by intros [= <- <- <-]|]. destruct (io_ReadFull _ _) as [[payload|e] r2] eqn:E.
  2:{ intros [= <- <- <-]. unfold io_ReadFull in E. repeat case_match; simplify_eq; reflexivity. }
  destruct (typeFrameParser _ _ _) as [g|tok e|] eqn:Hparse; [| |done].
  - destruct (checkFrameOrder _ g) as [[fr2 e]|] eqn:Ho; [|done]. destruct e as [e|].
    { intros [= <- <- <-]. unfold checkFrameOrder, connError in Ho. repeat case_match; simplify_eq; reflexivity. }
    destruct (_ && _); [|by intros [= <- <- <-]]. destruct g as [|hh p1 frag| | | | | | | | | |]; try done. unfold readMetaFrame. destruct (AllowIllegalReads fr2); [by intros [= <- <- <-]|].
    destruct (ReadMetaHeaders fr2) as [d|]; [|done].
    match goal with |- context [metaLoop _ _ _ _ ?x ?h ?p ?c ?g ?m] => pose proof (metaLoop_foreign _ fuel IH x h p c g m ltac:(done)) as Hml end.
    destruct (metaLoop _ _ _ _ _ _ _ _ _ _) as [o3 fr3|fr3 hf m]; [by intros [= -> <-]|]. destruct (ReadMetaHeaders fr3) as [d3|]; [|done]. destruct (hdec_Close d3) as [d4 [e|]]; [by intros [= <- <- <-]|].
    cbn [is_set]. destruct (invalid m) eqn:Em; [intros [= <- <- <-]; apply protocol_foreign; unfold meta_foreign in Hml; congruence|].
    destruct (checkPseudos (mh_Fields m)) eqn:Ep; [|by intros [= <- <- <-]]. intros [= <- <- <-]. apply protocol_foreign. pose proof (pseudos_foreign (mh_Fields m)). congruence.
  - apply parse_foreign in Hparse as [(code & reason & ->)|Hf]; [by intros [= <- <- <-]|]. destruct e; intros [= <- <- <-]; exact Hf.
Qed.
End FramerErrors.

(** ** The errors the read loop ends with *)
Section LoopErrors.
Context {B : Type} `{PipeBuffer B} {D : Type} `{HpackDecoder D} (t : Transport)
  (newBuf : Z -> B) (got1xx : Z -> Header -> option error).
Implicit Types s : ClientConn B.

(** The result of a handler is no error that gets a request retried. *)
Definition yields {A} (P : A -> Prop) (m : M B A) : Prop := forall s a s', m s = Done a s' -> P a.
Definition no_retry (r : option error) : Prop := forall e, r = Some e -> foreign e.
Lemma yields_ret {A} (P : A -> Prop) a : P a -> yields P (ret a).
Proof. by intros HP s b s' [= <- _]. Qed.
Lemma yields_bind {A C} (P : C -> Prop) (m : M B A) (k : A -> M B C) : (forall a, yields P (k a)) -> yields P (bind m k).
Proof. intros Hk s c s'. unfold bind. destruct (m s); try done. apply Hk. Qed.
Lemma yields_bind_with {A C} (Q : A -> Prop) (P : C -> Prop) (m : M B A) (k : A -> M B C) : yields Q m -> (forall a, Q a -> yields P (k a)) -> yields P (bind m k).
Proof. intros Hm Hk s c s'. unfold bind. destruct (m s) eqn:E; try done. by eapply Hk, Hm. Qed.
Lemma yields_with_mu {A} (P : A -> Prop) (m : M B A) : yields P m -> yields P (with_mu m).
Proof. intros Hm. apply yields_bind. intros _. eapply yields_bind_with; [exact Hm|]. intros a Ha. apply yields_bind. intros _. by apply yields_ret. Qed.
Lemma yields_with_wmu {A} (P : A -> Prop) (m : M B A) : yields P m -> yields P (with_wmu m).
Proof. intros Hm. apply yields_bind. intros _. eapply yields_bind_with; [exact Hm|]. intros a Ha. apply yields_bind. intros _. by apply yields_ret. Qed.
Lemma yields_panic {A} (P : A -> Prop) msg : yields P (panic (A := A) msg). Proof. by intros s a s'. Qed.
Lemma no_retry_none : no_retry None. Proof. done. Qed.
Lemma no_retry_conn c : no_retry (Some (ConnectionError c)). Proof. by intros e [= <-]. Qed.
End LoopErrors.

Ltac yields_step :=
  lazymatch goal with
  | |- yields _ (bind _ _) => apply yields_bind; intros ?
  | |- yields _ (with_mu _) => apply yields_with_mu
  | |- yields _ (with_wmu _) => apply yields_with_wmu
  | |- yields _ (panic _) => apply yields_panic
  | |- yields _ (ret _) => apply yields_ret; first [apply no_retry_none|apply no_retry_conn|done]
  | |- yields _ (match _ with _ => _ end) => case_match
  end.
Ltac yields := repeat yields_step.

Section StepErrors.
Context {B : Type} `{PipeBuffer B} {D : Type} `{HpackDecoder D} (t : Transport)
  (newBuf : Z -> B) (got1xx : Z -> Header -> option error).
Implicit Types s : ClientConn B.

Lemma processHeaders_yields fh fields tr : yields no_retry (processHeaders t newBuf got1xx fh fields tr).
Proof. unfold processHeaders, processTrailers. yields. Qed.
Lemma processData_window_yields id fh data : yields (fun r => no_retry r.1) (processData_window (B := B) id fh data).
Proof. unfold processData_window. yields. Qed.
Lemma processData_yields fh data : yields no_retry (processData (B := B) fh data).
Proof.
  unfold processData, processData_unknown. apply yields_bind. intros [cs|]; [|yields]. cbv zeta. do 3 (case_match; [yields|]).
  eapply (yields_bind_with (fun r => no_retry r.1)); [case_match; [apply processData_window_yields|yields]|]. intros [e go] He. cbn in He. destruct go; [yields|by apply yields_ret].
Qed.
Lemma foreach_yields l : forall acc acc' e, foreach_settings (apply_setting (B := B)) acc l = (acc', e) -> no_retry e.
Proof.
  induction l as [|se l IH]; intros acc acc' e; cbn [foreach_settings]; [by intros [= _ <-]|]. destruct (apply_setting acc se) as [a1 [e1|]] eqn:E1; [|apply IH]. intros [= _ <-].
  destruct acc as [c0 b0]. unfold apply_setting in E1. repeat case_match; simplify_eq. apply no_retry_conn.
Qed.
Lemma processSettings_yields fh p : yields no_retry (processSettings (B := B) fh p).
Proof.
  unfold processSettings. apply yields_with_wmu. eapply (yields_bind_with no_retry); [|intros r Hr; case_match; [by apply yields_ret|yields]].
  unfold processSettingsNoWrite. apply yields_with_mu, yields_bind. intros s. case_match; [yields|].
  eapply (yields_bind_with (fun x => no_retry x.2)).
  - intros s1 [[cc seen] err] s2. unfold lift, SettingsFrame_ForeachSetting, checked. case_match; [|done]. repeat case_match; simplify_eq. intros [= E _]. by eapply foreach_yields.
  - intros [[cc seen] err] He. cbn in He. apply yields_bind. intros _. case_match; [by apply yields_ret|yields].
Qed.
Lemma processWindowUpdate_yields fh inc : yields no_retry (processWindowUpdate (B := B) fh inc).
Proof. unfold processWindowUpdate. yields. Qed.
Lemma processPing_error fh data s e s' : (forall e, werr s = Some e -> foreign e) -> processPing (B := B) fh data s = Done (Some e) s' -> foreign e.
Proof.
  intros Hw. unfold processPing. destruct (PingFrame_IsAck fh).
  - intros Hp. assert (yields no_retry (with_mu (B := B) (s <- get ;; (if bool_decide (data ∈ pings s) then
      modify (fun s => set_pings_acked ({[data]} ∪ pings_acked s) s) ;; modify (fun s => set_pings (pings s ∖ {[data]}) s) else ret tt) ;; ret None))) as Hy by yields.
    by eapply (Hy _ _ _ Hp).
  - unfold with_wmu, bind, lock_wmu. destruct (wmu s); [done|]. unfold write_frame, flush, write_op, WritePing, endWrite. cbn [werr set_wmu]. destruct (werr s) as [e0|] eqn:Ew; cbn.
    + intros [= <- _]. by apply Hw.
    + repeat case_match; unfold ret in *; simplify_eq; cbn in *; intros Hx; simplify_eq; try done.
Qed.

(** Errors of a step of the loop: the frame reader's, connection errors, and a failed write. *)
Lemma run_step_error got f err detail s got' e s' : foreign_read err detail -> (forall e, werr s = Some e -> foreign e) ->
  run_step t newBuf got1xx got f err detail s = Done (got', Some e) s' -> foreign e.
Proof.
  intros Hfo Hw. unfold run_step. destruct err as [[]|]; try (intros [= _ <- _]; exact Hfo).
  - intros Hr. assert (yields (fun r => no_retry r.2) (cs <- streamByID (B := B) StreamID ;;
      (if is_set cs then endStreamError StreamID (StreamError StreamID Code (if is_set Cause then Cause else detail)) else ret tt) ;; ret (got, None))) as Hy by yields.
    by apply (Hy _ _ _ Hr).
  - destruct f as [f|]; [|done]. destruct (negb got && _); [by intros [= _ <- _]|]. unfold bind at 1. intros Hr.
    assert (forall m : M B (option error), (match m s with Done a s1 => ret (true, a) s1 | Panicked msg => Panicked msg | Deadlock => Deadlock | Parked s1 => Parked s1 end) = Done (got', Some e) s' -> m s = Done (Some e) s') as Hm.
    { intros m. destruct (m s) as [a s1| | |]; try done. by intros [= _ -> ->]. }
    apply Hm in Hr. destruct f; try (discriminate Hr).
    + by apply (processData_yields _ _ _ _ _ Hr).
    + assert (yields no_retry (processResetStream (B := B) fh code)) as Hy by (unfold processResetStream; yields). by apply (Hy _ _ _ Hr).
    + by apply (processSettings_yields _ _ _ _ _ Hr).
    + injection Hr as <- _. reflexivity.
    + by eapply processPing_error.
    + assert (yields no_retry (processGoAway (B := B) (mkGoAway LastStreamID code debugData))) as Hy by (unfold processGoAway; yields). by apply (Hy _ _ _ Hr).
    + by apply (processWindowUpdate_yields _ _ _ _ _ Hr).
    + by apply (processHeaders_yields _ _ _ _ _ _ Hr).
Qed.
End StepErrors.

(** ** The connection with the frames it received *)
Section History.
Context {B : Type} `{PipeBuffer B} {D : Type} `{HpackDecoder D} (t : Transport)
  (newBuf : Z -> B) (got1xx : Z -> Header -> option error).
Implicit Types s : ClientConn B.

(** What a request's goroutine and the program bring into the connection: streams that
    were not aborted; to [cleanupWriteRequest] the error [writeRequest] returned, which gets
    the request retried only when it is what the stream was aborted with or the refusal of
    a slot; and errors of the network and of the caller, which are not the connection's own. *)
Definition own (e : event (B := B)) s : Prop :=
  match e with
  | ENewStream r cs => cs_abort cs = None
  | EOpen r _ | EWake r _ _ => opens r s
  | ECleanup id (Some e) => CanRetryError e = true ->
      (exists cs, stream_objs s !! id = Some cs /\ cs_abort cs = Some e) \/ (id < 0 /\ e = errClientConnUnusable)
  | EClose e | EWriteError e => foreign e
  | _ => True
  end.
Definition received (f : option Frame) (err : option error) : list Frame := match err with None => option_list f | Some _ => [] end.

(** Any sequence of operations, with the frames the read loop was given. *)
Inductive runs (s0 : ClientConn B) : list Frame -> config -> Prop :=
| runs_init : runs s0 [] (s0, true, false)
| runs_event h s alive got e s' :
    runs s0 h (s, alive, got) -> own e s -> exec t e s = Done tt s' \/ exec t e s = Parked s' -> runs s0 h (s', alive, got)
| runs_read h s got f err detail got' s' :
    runs s0 h (s, true, got) -> foreign_read err detail ->
    run_step t newBuf got1xx got f err detail s = Done (got', None) s' -> runs s0 (h ++ received f err) (s', true, got')
| runs_read_end h s got f err detail got' e s1 s' :
    runs s0 h (s, true, got) -> foreign_read err detail ->
    run_step t newBuf got1xx got f err detail s = Done (got', Some e) s1 ->
    readLoop_end (Some e) s1 = Done tt s' -> runs s0 (h ++ received f err) (s', false, got').

(** Why a stream may have been aborted with an error that gets its request retried. *)
Definition evidence (h : list Frame) (id : Z) (e : error) : Prop :=
  (exists f, f ∈ h /\ explains f id e) \/ (id < 0 /\ e = errClientConnUnusable).
Lemma evidence_app h h' id e : evidence h id e -> evidence (h ++ h') id e.
Proof. intros [(f & Hf & He)|?]; [left; exists f; split; [apply elem_of_app; by left|done]|by right]. Qed.
Lemma clean_app h h' s : clean (evidence h) s -> clean (evidence (h ++ h')) s.
Proof. intros [Hs Hw]. split; [|done]. intros id cs El e Ha Hre. by apply evidence_app, (Hs id cs El e). Qed.

Context (write_foreign : forall b d b' n e, pb_Write b d = Some (b', n, Some e) -> foreign e)
  (trace_foreign : forall c h, got1xx c h <> Some errFromPeer).

Lemma tame_discard {A} Ev (m : M B A) s : pwp (clean Ev) m (fun _ => clean Ev) s -> pwp (clean Ev) (discard m) (fun _ => clean Ev) s.
Proof. intros Hm. unfold discard. apply pwp_bind. eapply pwp_mono; [|exact Hm]. by intros. Qed.
Lemma exec_clean Ev e s : (forall id, id < 0 -> Ev id errClientConnUnusable) -> own e s -> clean Ev s -> pwp (clean Ev) (exec t e) (fun _ => clean Ev) s.
Proof.
  intros HEv Hown Hs. pose proof (proj2 Hs) as Hw. destruct e; cbn [exec]; try apply tame_discard; revert s Hs Hown Hw.
  - intros s Hs _ _. by apply tame_body_Read.
  - intros s Hs _ _. by apply tame_body_Close.
  - intros s [Hs Hw] Hown _. split; [|exact Hw]. apply map_Forall_insert_2; [|exact Hs]. intros e Ha. cbn in Hown. congruence.
  - intros s Hs Hown _. by apply open_clean.
  - intros s Hs Hown _. by apply reopen_clean.
  - intros s Hs _ _. assert (tame Ev (ReserveNewRequest (B := B) t)) as Ht by (unfold ReserveNewRequest; tame). by apply Ht.
  - intros s Hs _ _. assert (tame Ev (decrStreamReservations (B := B))) as Ht by (unfold decrStreamReservations, decrStreamReservationsLocked; tame). by apply Ht.
  - intros s Hs _ _. by apply tame_awaitFlow.
  - intros s Hs _ _. assert (tame Ev (abortRequestBodyWrite (B := B) id)) as Ht by (unfold abortRequestBodyWrite, closeReqBodyLocked; tame). by apply Ht.
  - intros s Hs Hown _. apply tame_cleanup; [|exact Hs]. intros e -> Hre. destruct (Hown Hre) as [(cs & El & Ha)|[Hid ->]]; [by apply (proj1 Hs id cs El)|by apply HEv].
  - intros s Hs _ _. assert (tame Ev (closeIfIdle (B := B))) as Ht by (unfold closeIfIdle, closeConn; tame). by apply Ht.
  - intros s Hs _ _. assert (tame Ev (sendGoAway (B := B))) as Ht by (unfold sendGoAway; tame). by apply Ht.
  - intros s Hs Hown _. by apply tame_closeForError.
  - intros s Hs _ _. assert (tame Ev (Ping_register (B := B) p)) as Ht by (unfold Ping_register; tame). by apply Ht.
  - intros s Hs _ _. assert (tame Ev (Ping_send (B := B) p)) as Ht by (unfold Ping_send; tame). by apply Ht.
  - intros s Hs _ _. exact Hs.
  - intros s [Hs _] Hown _. split; [exact Hs|]. by intros e [= <-].
  - intros s Hs _ _. assert (forall fuel id es mx hdrs first, tame Ev (writeHeaders_loop (B := B) t fuel id es mx hdrs first)) as Hl.
    { induction fuel as [|fuel IH]; intros; cbn [writeHeaders_loop]; [tame|]. apply tame_bind; [tame|]. intros s1. case_match; [tame|]. cbv zeta. apply tame_bind; [tame|]. intros _. apply IH. }
    assert (tame Ev (write_block (B := B) t id endStream hdrs)) as Ht; [|by apply Ht]. unfold write_block, writeHeaders. apply tame_with_wmu. apply tame_bind; [tame|]. intros s1.
    apply tame_bind; [|tame]. apply tame_bind; [apply Hl|]. tame.
  - intros s Hs _ _. match goal with |- pwp _ ?m _ _ => assert (tame Ev m) as Ht by tame end. by apply Ht.
Qed.

Lemma runs_clean s0 h x : clean (evidence []) s0 -> runs s0 h x -> clean (evidence h) x.1.1.
Proof.
  intros Hs0 Hr. induction Hr as [|h s alive got e s' _ IH Hown Hex|h s got f err detail got' s' _ IH Hfo Hex|h s got f err detail got' e s1 s' _ IH Hfo Hex Hend]; cbn in *; [done| | |].
  - pose proof (exec_clean (evidence h) e s ltac:(intros; by right) Hown IH) as Hp. unfold pwp in Hp. by destruct Hex as [Hex|Hex]; rewrite Hex in Hp.
  - pose proof (tame_run_step t newBuf got1xx (evidence (h ++ received f err)) write_foreign trace_foreign got f err detail Hfo) as Hp.
    assert (forall fr id e, f = Some fr -> err = None -> explains fr id e -> evidence (h ++ received f err) id e) as Hexp.
    { intros fr id e -> -> He. left. exists fr. split; [apply elem_of_app; right; by left|done]. }
    specialize (Hp Hexp s (clean_app _ _ _ IH)). unfold pwp in Hp. by rewrite Hex in Hp.
  - pose proof (tame_run_step t newBuf got1xx (evidence (h ++ received f err)) write_foreign trace_foreign got f err detail Hfo) as Hp.
    assert (forall fr id e, f = Some fr -> err = None -> explains fr id e -> evidence (h ++ received f err) id e) as Hexp.
    { intros fr id e' -> -> He. left. exists fr. split; [apply elem_of_app; right; by left|done]. }
    specialize (Hp Hexp s (clean_app _ _ _ IH)). unfold pwp in Hp. rewrite Hex in Hp.
    pose proof (run_step_error t newBuf got1xx got f err detail s got' e s1 Hfo (proj2 IH) Hex) as He.
    pose proof (tame_readLoop_end (evidence (h ++ received f err)) (Some e) ltac:(by intros ? [= <-]) s1 Hp) as Hq. unfold pwp in Hq. by rewrite Hend in Hq.
Qed.
End History.

(** ** Retries are safe *)
Section Safe.
Context {B : Type} `{PipeBufferOk B} {D : Type} `{HpackDecoder D}.
Implicit Types s : ClientConn B.

Lemma new_werr (t t' : Transport) su hts (s0 : ClientConn B) : newClientConn t su None = (t', hts, s0, None) -> werr s0 = None.
Proof. unfold newClientConn. destruct (fold_left _ _ _) as [[cc mhl] h2]. cbv zeta. match goal with |- context [match werr ?x with _ => _ end = _] => destruct (werr x) eqn:E end; intros Hn; [discriminate Hn|]. injection Hn as _ _ <-. exact E. Qed.

(** A request that is refused a slot has had nothing written for it. *)
Lemma slot_refused t r c s e s' : writeRequest_open t r c s = Done (Err e) s' -> e = errClientConnUnusable /\ wire s' = wire s /\ stream_objs s' = stream_objs s.
Proof.
  unfold writeRequest_open, writeRequest_slot, bind, lock_mu, unlock_mu, modify, awaitOpenSlotForStreamLocked, decrStreamReservationsLocked, addStreamLocked, get, get_cs, panic, ret.
  intros Hw. cbv zeta in Hw. repeat (case_match; simplify_eq); done.
Qed.

(** C36: an HTTP/2 request is sent again only when the peer said that it did not process it,
    or reset it with PROTOCOL_ERROR, and never with a body that may be partly consumed. In
    every state of a connection reached by any sequence of operations, whatever frames came:
    if the error the request's stream was aborted with gets it retried, then (1) a GOAWAY was
    received whose last stream ID is below the stream's, or an RST_STREAM on the stream
    itself with REFUSED_STREAM or PROTOCOL_ERROR, or the stream has no ID yet because the
    connection had no slot for it, (2) and the request has no body, a fresh one from [GetBody], or its own
    in the last of these cases; (3) a request that is refused a slot has had nothing
    written. The errors of the network, of the caller and of the trace hook are not the
    transport's own ([own], [foreign_read], which the framer's errors satisfy by
    [ReadFrame_foreign]). *)
Theorem retry_is_safe {Bd} (error_text : error -> string) (t t' : Transport) su hts (newBuf : Z -> B) (got1xx : Z -> Header -> option error)
    (s0 s : ClientConn B) h alive got id cs err (req req' : retryRequest Bd) :
  conn_cfg_ok t -> newClientConn t su None = (t', hts, s0, None) ->
  (forall b d b' n e, pb_Write b d = Some (b', n, Some e) -> foreign e) -> (forall c hd, got1xx c hd <> Some errFromPeer) ->
  runs (D := D) t' newBuf got1xx s0 h (s, alive, got) ->
  stream_objs s !! id = Some cs -> cs_abort cs = Some err -> shouldRetryRequest error_text req err = Ok req' ->
  ((err = errClientConnGotGoAway /\ exists hd last_ code debug, GoAwayFrame hd last_ code debug ∈ h /\ last_ < id)
   \/ (exists hd code, RSTStreamFrame hd code ∈ h /\ id = fh_StreamID hd /\ (code = ErrCodeRefusedStream \/ code = ErrCodeProtocol) /\ err = StreamError id code (Some errFromPeer))
   \/ (id < 0 /\ err = errClientConnUnusable))
  /\ (rq_Body req' = None \/ (exists b, rq_GetBody req = Some (Ok b) /\ rq_Body req' = Some b)
      \/ (err = errClientConnUnusable /\ rq_GetBody req = None /\ req' = req))
  /\ (forall r c e s', writeRequest_open t' r c s = Done (Err e) s' -> e = errClientConnUnusable /\ wire s' = wire s).
Proof.
  intros Hcfg Hnew Hwr Htr Hruns El Ha Hretry. destruct (newClientConn_inv t su None t' hts s0 None Hcfg Hnew) as [_ Hobj].
  assert (clean (evidence []) s0) as Hs0 by (split; [rewrite Hobj; apply map_Forall_empty|rewrite (new_werr _ _ _ _ _ Hnew); done]).
  pose proof (runs_clean t' newBuf got1xx Hwr Htr s0 h (s, alive, got) Hs0 Hruns) as [Hs _]. pose proof (retried_cases _ _ _ _ Hretry) as [_ Hbody].
  split; [|split; [exact Hbody|intros r c e s' Ho; by destruct (slot_refused _ _ _ _ _ _ Ho) as (? & ? & _)]].
  assert (CanRetryError err = true) as Hre by (unfold shouldRetryRequest in Hretry; by destruct (CanRetryError err)).
  destruct (Hs id cs El err Ha Hre) as [(f & Hf & He)|?]; [|by right; right]. destruct f; try done; cbn in He.
  - destruct He as (-> & Hc & ->). right. left. by eexists _, _.
  - destruct He as [Hl ->]. left. split; [done|]. by eexists _, _, _, _.
Qed.
End Safe.

(** ** A concrete run: the second of two requests is excluded by a GOAWAY *)
Module RetryExample.
Import H2System.Example.
#[local] Existing Instance static_decoder.
#[local] Existing Instance db.
#[local] Existing Instance db_ok.
Definition goaway : Frame := GoAwayFrame (mkFrameHeader true 7 0 8 0) 1 0 [].
Definition goaway_read (s : ClientConn dataBuffer) := run_step (D := bool) transport newDataBuffer no1xx true (Some goaway) None None s.
Definition s5 : ClientConn dataBuffer := after (exec transport (EOpen (-2) false) s4) s4.
Definition s6 : ClientConn dataBuffer := after (goaway_read s5) s5.
Lemma opens_fresh r (s : ClientConn dataBuffer) : cs_abort <$> stream_objs s !! r = Some None -> opens r s.
Proof. intros Hr cs e El. rewrite El in Hr. cbn in Hr. congruence. Qed.
Lemma s6_runs : runs (D := bool) transport newDataBuffer no1xx start [settings_frame; goaway] (s6, true, true).
Proof.
  change [settings_frame; goaway] with (([] ++ received (Some settings_frame) None) ++ received (Some goaway) None).
  eapply (runs_read _ _ _ _ _ s5 true (Some goaway) None None); [|done|vm_compute; reflexivity].
  eapply (runs_event _ _ _ _ _ s4 true true (EOpen (-2) false)); [|apply opens_fresh; vm_compute; reflexivity|left; vm_compute; reflexivity].
  eapply (runs_event _ _ _ _ _ s3 true true (ENewStream (-2) request)); [|reflexivity|left; reflexivity].
  eapply (runs_read _ _ _ _ _ s2 false (Some settings_frame) None None); [|done|vm_compute; reflexivity].
  eapply (runs_event _ _ _ _ _ s1 true false (EOpen (-1) false)); [|apply opens_fresh; vm_compute; reflexivity|left; vm_compute; reflexivity].
  eapply (runs_event _ _ _ _ _ start true false (ENewStream (-1) request)); [apply runs_init|reflexivity|left; reflexivity].
Qed.
Definition with_body : retryRequest nat := mkRetryRequest (Some 1%nat) (Some (Ok 2%nat)).
Example second_aborted : cs_abort <$> stream_objs s6 !! 3 = Some (Some errClientConnGotGoAway) /\ cs_abort <$> stream_objs s6 !! 1 = Some None.
Proof. vm_compute. split; reflexivity. Qed.

Lemma retry_is_safe_witness : exists req', shouldRetryRequest (fun _ => ""%string) with_body errClientConnGotGoAway = Ok req' /\
  (rq_Body req' = None \/ (exists b, rq_GetBody with_body = Some (Ok b) /\ rq_Body req' = Some b) \/ (errClientConnGotGoAway = errClientConnUnusable /\ rq_GetBody with_body = None /\ req' = with_body)).
Proof.
  destruct (stream_objs s6 !! 3) as [cs|] eqn:El; [|vm_compute in El; discriminate El].
  assert (cs_abort cs = Some errClientConnGotGoAway) as Ha by (pose proof (proj1 second_aborted) as Hx; rewrite El in Hx; by injection Hx).
  eexists. split; [reflexivity|].
  apply (retry_is_safe (fun _ => ""%string) transport transport false initialHeaderTableSize newDataBuffer no1xx start s6 [settings_frame; goaway] true true 3 cs errClientConnGotGoAway
    with_body (mkRetryRequest (Some 2%nat) (Some (Ok 2%nat))) transport_ok start_eq); [|done|apply s6_runs|exact El|exact Ha|reflexivity].
  intros b d b' n e Hw. cbn in Hw. destruct (dataBuffer_Write zeros b d) as [[? ?]|]; discriminate Hw.
Defined.
End RetryExample.
