(* ===== verification/Bufio.v ===== *)
(** * [bufio.Reader] over a segmented source

    The network delivers a byte stream in segments of any size; [bufio.Reader]
    (standard library) buffers at most [bufsize] bytes of it. The state is what is
    buffered, the segments still to come and the error after the last one. *)

From S2P Require Import Prelude.
From S2P Require Import H2Errors.

(** [bufio.defaultBufSize]. *)
Definition bufsize : Z := 4096.

Record BufReader := mkBufReader {
  bbuf : bytes;
  bsrc : list bytes;   (* what each [Read] of the source can return at most *)
  bend : error }.

(** [rd.Read(p)] of the source for [len(p) = k]. *)
Definition src_read (k : Z) (src : list bytes) : option (bytes * list bytes) :=
  match src with
  | [] => None
  | seg :: src => if len seg <=? k then Some (seg, src) else Some (slice_to seg k, slice_from seg k :: src)
  end.

Definition Buffered (r : BufReader) : Z := len (bbuf r).

(** [Reader.Read] for [len(p) = k > 0]: one read of the source at most, directly
    into [p] when it is larger than the buffer. *)
Definition bufio_Read (r : BufReader) (k : Z) : (bytes * option error) * BufReader :=
  if 0 <? Buffered r then
    ((slice_to (bbuf r) k, None), mkBufReader (slice_from (bbuf r) k) (bsrc r) (bend r))
  else if bufsize <=? k then
    match src_read k (bsrc r) with
    | None => (([], Some (bend r)), r)
    | Some (d, src) => ((d, None), mkBufReader [] src (bend r))
    end
  else
    match src_read bufsize (bsrc r) with
    | None => (([], Some (bend r)), r)
    | Some (d, src) => ((slice_to d k, None), mkBufReader (slice_from d k) src (bend r))
    end.

(** [io.ReadFull(r, buf)] for [len(buf) = k]: [io.ReadAtLeast]'s loop. *)
Fixpoint bufio_ReadFull (fuel : nat) (r : BufReader) (k : Z) (got : bytes) : option (result error bytes * BufReader) :=
  if k <=? len got then Some (Ok got, r) else
  match fuel with
  | O => None
  | S fuel =>
      let '((d, err), r) := bufio_Read r (k - len got) in
      let got := got ++ d in
      match err with
      | None => bufio_ReadFull fuel r k got
      | Some e => Some ((if k <=? len got then Ok got
                         else if (0 <? len got) && bool_decide (e = io_EOF) then Err io_ErrUnexpectedEOF
                         else Err e), r)
      end
  end.

(** [bytes.IndexByte(p, '\n')]. *)
Fixpoint index_nl (p : bytes) : option nat :=
  match p with
  | [] => None
  | b :: p => if b =? 10 then Some 0%nat else S <$> index_nl p
  end.

Definition errBufferFull : error := errors_New "bufio: buffer full".

(** [Reader.ReadSlice('\n')]. *)
Fixpoint bufio_ReadSlice (fuel : nat) (r : BufReader) : option ((bytes * option error) * BufReader) :=
  match index_nl (bbuf r) with
  | Some i => Some ((take (S i) (bbuf r), None), mkBufReader (drop (S i) (bbuf r)) (bsrc r) (bend r))
  | None =>
      if bufsize <=? Buffered r then Some ((bbuf r, Some errBufferFull), mkBufReader [] (bsrc r) (bend r)) else
      match fuel with
      | O => None
      | S fuel =>
          match src_read (bufsize - Buffered r) (bsrc r) with
          | None => Some ((bbuf r, Some (bend r)), mkBufReader [] [] (bend r))
          | Some (d, src) => bufio_ReadSlice fuel (mkBufReader (bbuf r ++ d) src (bend r))
          end
      end
  end.

(** ** What the reader still delivers, whatever the segmentation *)
Definition pending (r : BufReader) : bytes := bbuf r ++ concat (bsrc r).

(** No segment is empty, and the buffer is not overfull. *)
Definition buf_ok (r : BufReader) : Prop := Forall (fun s => s <> []) (bsrc r) /\ len (bbuf r) <= bufsize.

Lemma slice_to_app_l {A} (p q : list A) n : n <= len p -> slice_to (p ++ q) n = slice_to p n.
Proof. intros Hn. unfold slice_to, len in *. by rewrite take_app_le by lia. Qed.
Lemma src_read_spec k src : 0 < k -> Forall (fun s => s <> []) src ->
  match src_read k src with
  | None => src = []
  | Some (d, src') => d <> [] /\ len d <= k /\ d ++ concat src' = concat src /\ Forall (fun s => s <> []) src'
  end.
Proof.
  intros Hk Hs. destruct Hs as [|seg src Hseg Hsrc]; [done|]. cbn [src_read].
  destruct (Z.leb_spec (len seg) k) as [Hl|Hl]; [done|]. split; [|split; [|split]].
  - destruct seg; [done|]. unfold slice_to. destruct (Z.to_nat k) eqn:E; [lia|done].
  - unfold slice_to, len in *. rewrite length_take. lia.
  - cbn [concat]. by rewrite app_assoc, slice_to_from.
  - constructor; [|done]. unfold slice_from. intros E. apply (f_equal length) in E. rewrite length_drop in E.
    unfold len in *. cbn in E. lia.
Qed.

Lemma bufio_Read_spec r k : buf_ok r -> 0 < k ->
  let '((d, err), r') := bufio_Read r k in
  buf_ok r' /\ bend r' = bend r /\ len d <= k /\ d ++ pending r' = pending r
  /\ match err with
     | None => d <> []
     | Some e => d = [] /\ pending r = [] /\ e = bend r
     end.
Proof.
  intros [Hseg Hbuf] Hk. unfold bufio_Read, Buffered.
  destruct (Z.ltb_spec 0 (len (bbuf r))) as [Hb|Hb].
  - unfold pending, buf_ok. cbn. split; [split; [done|]|]; [unfold slice_from, len in *; rewrite length_drop; lia|].
    split; [done|]. split; [unfold slice_to, len in *; rewrite length_take; lia|].
    split; [by rewrite app_assoc, slice_to_from|].
    destruct (bbuf r); [done|]. unfold slice_to. destruct (Z.to_nat k) eqn:E; [lia|done].
  - assert (bbuf r = []) as Hnil by (apply nil_length_inv; unfold len in Hb; lia). unfold pending, buf_ok.
    destruct (Z.leb_spec bufsize k).
    + pose proof (src_read_spec k (bsrc r) Hk Hseg) as Hs. destruct (src_read k (bsrc r)) as [[d src]|]; cbn; rewrite Hnil.
      * destruct Hs as (Hd & Hl & Hc & Hf). by repeat split.
      * rewrite Hs in *. repeat split; try done. unfold len. cbn. lia.
    + pose proof (src_read_spec bufsize (bsrc r) ltac:(done) Hseg) as Hs.
      destruct (src_read bufsize (bsrc r)) as [[d src]|]; cbn; rewrite Hnil.
      * destruct Hs as (Hd & Hl & Hc & Hf). split; [split; [done|]|].
        { unfold slice_from, len in *. rewrite length_drop. lia. }
        split; [done|]. split; [unfold slice_to, len in *; rewrite length_take; lia|].
        split; [by rewrite app_assoc, slice_to_from|].
        destruct d; [done|]. unfold slice_to. destruct (Z.to_nat k) eqn:E; [lia|done].
      * rewrite Hs in *. repeat split; try done. unfold len. cbn. lia.
Qed.

Lemma bufio_ReadFull_spec k : forall fuel r got, buf_ok r -> (length (pending r) < fuel)%nat -> len got <= k ->
  exists res r', bufio_ReadFull fuel r k got = Some (res, r') /\ buf_ok r' /\ bend r' = bend r
    /\ match res with
       | Ok d => len d = k /\ d ++ pending r' = got ++ pending r
       | Err e => len (got ++ pending r) < k
           /\ e = (if (0 <? len (got ++ pending r)) && bool_decide (bend r = io_EOF) then io_ErrUnexpectedEOF else bend r)
       end.
Proof.
  induction fuel as [|fuel IH]; intros r got Hr Hf Hg; [lia|]. cbn [bufio_ReadFull].
  destruct (Z.leb_spec k (len got)).
  { exists (Ok got), r. split; [done|]. split; [done|]. split; [done|]. split; [lia|done]. }
  pose proof (bufio_Read_spec r (k - len got) Hr ltac:(lia)) as Hs.
  destruct (bufio_Read r (k - len got)) as [[d err] r1]. destruct Hs as (Hr1 & Hb1 & Hd & Hp & He).
  destruct err as [e|].
  - destruct He as (-> & Hnil & ->). rewrite Hnil, !app_nil_r. destruct (Z.leb_spec k (len got)); [lia|].
    destruct (_ && _) eqn:E; do 2 eexists; (split; [reflexivity|]); split; try done.
  - destruct (IH r1 (got ++ d)) as (res & r' & Hrun & Hok & Hbe & Hres); [done| |rewrite len_app; lia|].
    + rewrite <- Hp, length_app in Hf. destruct d; [done|cbn in Hf; lia].
    + exists res, r'. split; [done|]. split; [done|]. split; [congruence|].
      rewrite <- Hp, Hb1 in *. rewrite <- app_assoc in Hres. exact Hres.
Qed.

Lemma index_nl_app p q : index_nl p = None -> index_nl (p ++ q) = (Nat.add (length p)) <$> index_nl q.
Proof.
  induction p as [|b p IH]; cbn; [by destruct (index_nl q)|]. destruct (b =? 10); [done|].
  destruct (index_nl p) eqn:E; [done|]. intros _. rewrite IH by done. by destruct (index_nl q).
Qed.
Lemma index_nl_prefix p q i : index_nl p = Some i -> index_nl (p ++ q) = Some i.
Proof.
  revert i. induction p as [|b p IH]; cbn; intros i; [done|]. destruct (b =? 10); [done|].
  destruct (index_nl p) eqn:E; cbn; [|done]. intros [= <-]. by rewrite (IH n eq_refl).
Qed.
Lemma index_nl_lt p i : index_nl p = Some i -> (i < length p)%nat.
Proof.
  revert i. induction p as [|b p IH]; cbn; intros i; [done|]. destruct (b =? 10); [intros [= <-]; lia|].
  destruct (index_nl p) eqn:E; cbn; [|done]. intros [= <-]. specialize (IH _ eq_refl). lia.
Qed.

(** A line of the pending bytes, as [ReadSlice] finds it. *)
Inductive slice_result (c : bytes) (e0 : error) : bytes -> option error -> bytes -> Prop :=
| slice_line i : index_nl c = Some i -> Z.of_nat i < bufsize -> slice_result c e0 (take (S i) c) None (drop (S i) c)
| slice_full d c' : (forall i, index_nl c = Some i -> bufsize <= Z.of_nat i) -> len d = bufsize ->
    d ++ c' = c -> slice_result c e0 d (Some errBufferFull) c'
| slice_end : index_nl c = None -> len c < bufsize -> slice_result c e0 c (Some e0) [].

Lemma bufio_ReadSlice_spec : forall fuel r, buf_ok r -> (length (concat (bsrc r)) < fuel)%nat ->
  exists d err r', bufio_ReadSlice fuel r = Some ((d, err), r') /\ buf_ok r' /\ bend r' = bend r
    /\ slice_result (pending r) (bend r) d err (pending r').
Proof.
  induction fuel as [|fuel IH]; intros r [Hseg Hbuf] Hf; [lia|]. cbn [bufio_ReadSlice].
  destruct (index_nl (bbuf r)) as [i|] eqn:Ei.
  { do 3 eexists. split; [reflexivity|]. pose proof (index_nl_lt _ _ Ei) as Hi.
    split; [split; [done|]; cbn; unfold len in *; rewrite length_drop; lia|]. split; [done|].
    unfold pending. cbn. rewrite <- (take_app_le (bbuf r) (concat (bsrc r))) by lia.
    rewrite <- drop_app_le by lia. apply slice_line; [by apply index_nl_prefix|unfold len in Hbuf; lia]. }
  unfold Buffered. destruct (Z.leb_spec bufsize (len (bbuf r))).
  { do 3 eexists. split; [reflexivity|]. split; [split; [done|]; done|]. split; [done|].
    apply slice_full; unfold pending; cbn.
    - intros i. rewrite index_nl_app by done. destruct (index_nl (concat (bsrc r))); cbn; [|done].
      intros [= <-]. unfold len in *. lia.
    - lia.
    - done. }
  pose proof (src_read_spec (bufsize - len (bbuf r)) (bsrc r) ltac:(lia) Hseg) as Hs.
  destruct (src_read _ (bsrc r)) as [[d src]|].
  - destruct Hs as (Hd & Hl & Hc & Hf'). destruct (IH (mkBufReader (bbuf r ++ d) src (bend r))) as (d' & err & r' & Hrun & Hok & Hbe & Hres).
    + split; [done|]. cbn. rewrite len_app. lia.
    + cbn. rewrite <- Hc, length_app in Hf. destruct d; [done|cbn in Hf; lia].
    + exists d', err, r'. split; [done|]. split; [done|]. split; [done|].
      unfold pending in *. cbn in Hres. rewrite <- app_assoc, Hc in Hres. exact Hres.
  - do 3 eexists. split; [reflexivity|]. split; [split; [constructor|]; done|]. split; [done|].
    unfold pending. rewrite Hs. cbn. rewrite app_nil_r. by apply slice_end.
Qed.
