(* ===== verification/Chunked.v ===== *)
(** * The chunked transfer encoding ([src/internal/chunked.go])

    The reader, over a [bufio.Reader] of the default size, and the writer. The
    reader is proved equivalent to a decoder of the flat byte stream, [dechunk]:
    how the network cut the stream, and how large the caller's buffers are,
    changes nothing. *)

From S2P Require Import Prelude.
From S2P Require Import H2Errors.
From S2P Require Import FrameWrite.
From S2P Require Import NetText.
From S2P Require Import Bufio.

Definition maxLineLength : Z := 4096.
Definition ErrLineTooLong : error := errors_New "header line too long".

(** ** Chunk lines *)
Definition trimTrailingWhitespace (b : bytes) : bytes := reverse (trim_left (reverse b)).

(** [bytes.Cut(p, ";")]: what precedes the separator. *)
Fixpoint removeChunkExtension (p : bytes) : bytes :=
  match p with
  | [] => []
  | b :: p => if b =? 59 then [] else b :: removeChunkExtension p
  end.

Definition hex_value (b : byte) : option Z :=
  if (48 <=? b) && (b <=? 57) then Some (b - 48)
  else if (97 <=? b) && (b <=? 102) then Some (b - 97 + 10)
  else if (65 <=? b) && (b <=? 70) then Some (b - 65 + 10)
  else None.

(** [parseHexUint], from the byte at index [i] on. *)
Fixpoint parseHexUint_loop (v : bytes) (i n : Z) : result error Z :=
  match v with
  | [] => Ok n
  | b :: v =>
      match hex_value b with
      | None => Err (errors_New "invalid byte in chunk length")
      | Some d =>
          if i =? 16 then Err (errors_New "http chunk length too large") else
          parseHexUint_loop v (i + 1) (Z.lor (u64 (Z.shiftl n 4)) d)
      end
  end.
Definition parseHexUint (v : bytes) : result error Z := parseHexUint_loop v 0 0.

(** [readChunkLine]; the fuel bounds the reads of one [ReadSlice]. *)
Definition readChunkLine (r : BufReader) : option (result error bytes * BufReader) :=
  match bufio_ReadSlice (S (length (concat (bsrc r)))) r with
  | None => None
  | Some ((p, Some err), r) =>
      Some (Err (if bool_decide (err = io_EOF) then io_ErrUnexpectedEOF
                 else if bool_decide (err = errBufferFull) then ErrLineTooLong else err), r)
  | Some ((p, None), r) =>
      if maxLineLength <=? len p then Some (Err ErrLineTooLong, r)
      else Some (Ok (removeChunkExtension (trimTrailingWhitespace p)), r)
  end.

(** ** The reader *)
Record chunkedReader := mkChunkedReader {
  cr_r : BufReader;
  cr_n : Z;   (* uint64: unread bytes in chunk *)
  cr_err : option error;
  cr_checkEnd : bool }.

Definition NewChunkedReader (r : BufReader) : chunkedReader := mkChunkedReader r 0 None false.

Definition set_cr (r : BufReader) (n : Z) (err : option error) (checkEnd : bool) : chunkedReader :=
  mkChunkedReader r n err checkEnd.

Definition beginChunk (cr : chunkedReader) : option chunkedReader :=
  match readChunkLine (cr_r cr) with
  | None => None
  | Some (Err e, r) => Some (set_cr r (cr_n cr) (Some e) (cr_checkEnd cr))
  | Some (Ok line, r) =>
      match parseHexUint line with
      | Err e => Some (set_cr r 0 (Some e) (cr_checkEnd cr))
      | Ok n => Some (set_cr r n (if n =? 0 then Some io_EOF else None) (cr_checkEnd cr))
      end
  end.

Definition chunkHeaderAvailable (cr : chunkedReader) : bool :=
  if 0 <? Buffered (cr_r cr) then match index_nl (bbuf (cr_r cr)) with Some _ => true | None => false end
  else false.

(** The check of the chunk footer: [None] when the loop breaks before it,
    otherwise the state after it. *)
Definition checkFooter (cr : chunkedReader) : option chunkedReader :=
  match bufio_ReadFull (S (length (pending (cr_r cr)))) (cr_r cr) 2 [] with
  | None => None
  | Some (Ok buf, r) =>
      if bool_decide (buf = [13; 10]) then Some (set_cr r (cr_n cr) None false)
      else Some (set_cr r (cr_n cr) (Some (errors_New "malformed chunked encoding")) (cr_checkEnd cr))
  | Some (Err e, r) =>
      Some (set_cr r (cr_n cr) (Some (if bool_decide (e = io_EOF) then io_ErrUnexpectedEOF else e)) (cr_checkEnd cr))
  end.

(** [Read] for a buffer with [room] bytes left, [out] read so far; [None]: the
    fuel of the model ran out. *)
Fixpoint cr_loop (fuel : nat) (cr : chunkedReader) (room : Z) (out : bytes) : option (bytes * chunkedReader) :=
  match fuel with
  | O => None
  | S fuel =>
      if is_set (cr_err cr) then Some (out, cr) else
      if cr_checkEnd cr && (0 <? len out) && (Buffered (cr_r cr) <? 2) then Some (out, cr) else
      match (if cr_checkEnd cr then checkFooter cr else Some cr) with
      | None => None
      | Some cr =>
          if is_set (cr_err cr) then Some (out, cr) else
          if cr_n cr =? 0 then
            if (0 <? len out) && negb (chunkHeaderAvailable cr) then Some (out, cr) else
            match beginChunk cr with
            | None => None
            | Some cr => cr_loop fuel cr room out
            end
          else if room =? 0 then Some (out, cr) else
          let k := if cr_n cr <? room then cr_n cr else room in
          let '((d, err), r) := bufio_Read (cr_r cr) k in
          let n := cr_n cr - len d in
          let end_ := (n =? 0) && negb (is_set err) in
          let err := if negb end_ && bool_decide (err = Some io_EOF) then Some io_ErrUnexpectedEOF else err in
          cr_loop fuel (set_cr r n err (if end_ then true else cr_checkEnd cr)) (room - len d) (out ++ d)
      end
  end.

Definition cr_fuel (cr : chunkedReader) : nat := S (S (length (pending (cr_r cr)))).
Definition cr_Read (cr : chunkedReader) (room : Z) : option (bytes * option error * chunkedReader) :=
  match cr_loop (cr_fuel cr) cr room [] with
  | None => None
  | Some (out, cr) => Some (out, cr_err cr, cr)
  end.

(** ** The writer *)
Section Writer.
Context {W : Type} `{Writer W} (bw_Flush : option (W -> W * option error)).

(** [chunkedWriter.Write]; [bw_Flush] is the [Flush] of a
    [FlushAfterChunkWriter], absent for any other writer. The results are the
    writer, the count and the error. *)
Definition cw_Write (w : W) (data : bytes) : W * Z * option error :=
  if len data =? 0 then (w, 0, None) else
  match wr_Write w (format_hex (len data) ++ [13; 10]) with
  | (w, _, Some err) => (w, 0, Some err)
  | (w, _, None) =>
      match wr_Write w data with
      | (w, n, Some err) => (w, n, Some err)
      | (w, n, None) =>
          if negb (n =? len data) then (w, n, Some io_ErrShortWrite) else
          match wr_Write w [13; 10] with
          | (w, _, Some err) => (w, n, Some err)
          | (w, _, None) =>
              match bw_Flush with
              | Some flush => let '(w, err) := flush w in (w, n, err)
              | None => (w, n, None)
              end
          end
      end
  end.

Definition cw_Close (w : W) : W * option error :=
  let '(w, _, err) := wr_Write w [48; 13; 10] in (w, err).
End Writer.

(** ** The reference: decoding the flat stream *)

(** The error of a stream that ends early, with [e0] after its last byte. *)
Definition premature (e0 : error) : error := if bool_decide (e0 = io_EOF) then io_ErrUnexpectedEOF else e0.

(** The next chunk size of [c], and what follows its line. *)
Definition flat_chunk_size (c : bytes) (e0 : error) : result error (Z * bytes) :=
  match index_nl c with
  | Some i =>
      if Z.of_nat i + 1 <? maxLineLength then
        match parseHexUint (removeChunkExtension (trimTrailingWhitespace (take (S i) c))) with
        | Ok n => Ok (n, drop (S i) c)
        | Err e => Err e
        end
      else Err ErrLineTooLong
  | None => if bufsize <=? len c then Err ErrLineTooLong else Err (premature e0)
  end.

(** The payload of the stream [c], the error that ends it ([io.EOF] after the
    last chunk) and what follows the last chunk, with [n] bytes left in the
    current chunk and [footer]: its CRLF is still to come. *)
Fixpoint dechunk (fuel : nat) (n : Z) (footer : bool) (c : bytes) (e0 : error) : option (bytes * error * bytes) :=
  match fuel with
  | O => None
  | S fuel =>
      match (if footer then
               match c with
               | a :: b :: c => if (a =? 13) && (b =? 10) then Ok c else Err (errors_New "malformed chunked encoding")
               | _ => Err (premature e0)
               end
             else Ok c) with
      | Err e => Some ([], e, [])
      | Ok c =>
          if n =? 0 then
            match flat_chunk_size c e0 with
            | Err e => Some ([], e, [])
            | Ok (n, c) => if n =? 0 then Some ([], io_EOF, c) else dechunk fuel n false c e0
            end
          else if len c <? n then Some (c, premature e0, [])
          else match dechunk fuel 0 true (slice_from c n) e0 with
               | Some (d, e, rest) => Some (slice_to c n ++ d, e, rest)
               | None => None
               end
      end
  end.

Definition dechunks (n : Z) (footer : bool) (c : bytes) (e0 : error) (d : bytes) (e : error) (rest : bytes) : Prop :=
  exists fuel, dechunk fuel n footer c e0 = Some (d, e, rest).

Lemma dechunk_mono fuel : forall n footer c e0 x, dechunk fuel n footer c e0 = Some x ->
  dechunk (S fuel) n footer c e0 = Some x.
Proof.
  induction fuel as [|fuel IH]; intros n footer c e0 x; [done|]. intros Hd.
  remember (S fuel) as f. rewrite Heqf in Hd. cbn [dechunk] in Hd |- *.
  destruct (if footer then _ else _) as [c1|]; [|done]. destruct (n =? 0).
  - destruct (flat_chunk_size c1 e0) as [[n1 c2]|]; [|done]. destruct (n1 =? 0); [done|]. subst f. by apply IH.
  - destruct (len c1 <? n); [done|]. destruct (dechunk fuel 0 true _ e0) as [[[d e] r]|] eqn:E; [|done].
    subst f. by rewrite (IH _ _ _ _ _ E).
Qed.

Lemma dechunk_le f1 f2 n footer c e0 x : (f1 <= f2)%nat -> dechunk f1 n footer c e0 = Some x ->
  dechunk f2 n footer c e0 = Some x.
Proof. induction 1; [done|]. intros. by apply dechunk_mono, IHle. Qed.

(** The decoding is a function of the stream. *)
Lemma dechunks_det n footer c e0 d e r d' e' r' :
  dechunks n footer c e0 d e r -> dechunks n footer c e0 d' e' r' -> d = d' /\ e = e' /\ r = r'.
Proof.
  intros [f1 H1] [f2 H2]. apply (dechunk_le _ (f1 + f2)) in H1; [|lia]. apply (dechunk_le _ (f1 + f2)) in H2; [|lia].
  rewrite H1 in H2. by injection H2 as -> -> ->.
Qed.

(** ** The reader decodes the flat stream *)
Definition e0_of (cr : chunkedReader) : error := bend (cr_r cr).
Definition cr_ok (cr : chunkedReader) : Prop :=
  buf_ok (cr_r cr) /\ 0 <= cr_n cr /\ (cr_checkEnd cr = true -> cr_n cr = 0) /\ e0_of cr <> errBufferFull.

Definition decodes (cr : chunkedReader) (d : bytes) (e : error) (rest : bytes) : Prop :=
  dechunks (cr_n cr) (cr_checkEnd cr) (pending (cr_r cr)) (e0_of cr) d e rest.

Lemma parseHexUint_nonneg v n : parseHexUint v = Ok n -> 0 <= n.
Proof.
  unfold parseHexUint. assert (forall v i a, 0 <= a -> parseHexUint_loop v i a = Ok n -> 0 <= n) as H.
  { clear. induction v as [|b v IH]; cbn; intros i a Ha; [by intros [= <-]|].
    destruct (hex_value b) as [d|] eqn:Ed; [|done]. destruct (i =? 16); [done|]. apply IH.
    apply Z.lor_nonneg. split; [apply u64_range|]. unfold hex_value in Ed.
    repeat (destruct (_ <=? _) eqn:? in Ed; cbn in Ed); try discriminate Ed; injection Ed as <-; lia. }
  by apply H.
Qed.

Lemma parseHexUint_not_eof v : parseHexUint v <> Err io_EOF.
Proof.
  unfold parseHexUint. assert (forall i a, parseHexUint_loop v i a <> Err io_EOF) as Hl; [|apply Hl].
  induction v as [|b v IH]; cbn; intros i a; [done|].
  destruct (hex_value b); [|done]. destruct (i =? 16); [done|]. apply IH.
Qed.

Lemma beginChunk_spec cr : cr_ok cr -> cr_err cr = None -> cr_checkEnd cr = false -> cr_n cr = 0 ->
  exists cr', beginChunk cr = Some cr' /\ cr_ok cr'
    /\ match cr_err cr' with
       | Some e => exists rest, decodes cr [] e rest /\ (e = io_EOF -> rest = pending (cr_r cr'))
       | None => cr_checkEnd cr' = false /\ (length (pending (cr_r cr')) < length (pending (cr_r cr)))%nat
           /\ forall d e rest, decodes cr' d e rest -> decodes cr d e rest
       end.
Proof.
  intros (Hb & Hn & Hc & He0) Herr Hchk Hn0. unfold beginChunk, readChunkLine.
  destruct (bufio_ReadSlice_spec (S (length (concat (bsrc (cr_r cr))))) (cr_r cr) Hb ltac:(lia))
    as (p & err & r' & -> & Hb' & Hbe & Hres).
  unfold decodes, dechunks. rewrite Hchk, Hn0. unfold e0_of in *.
  assert (forall e, flat_chunk_size (pending (cr_r cr)) (bend (cr_r cr)) = Err e ->
    exists rest, (exists fuel, dechunk fuel 0 false (pending (cr_r cr)) (bend (cr_r cr)) = Some ([], e, rest))
      /\ (e = io_EOF -> rest = [])) as Hfail.
  { intros e Hf. exists []. split; [|done]. exists 1%nat. cbn [dechunk]. change (0 =? 0) with true. cbn iota. by rewrite Hf. }
  assert (forall r e, buf_ok r -> bend r = bend (cr_r cr) -> cr_ok (set_cr r 0 (Some e) false)) as Hok.
  { intros r e Hr Hbr. split; [done|]. split; [done|]. split; [done|]. unfold e0_of. cbn. by rewrite Hbr. }
  assert (cr_checkEnd cr = false) as _ by done. rewrite ?Hchk.
  set (c := pending (cr_r cr)) in *. set (e0 := bend (cr_r cr)) in *.
  inversion Hres as [i Hi Hlt Hp Herr' Hpend|q c' Hno Hlen Happ Hp Herr' Hpend|Hi Hlt Hp Herr' Hpend]; subst p err.
  - assert (len (take (S i) c) = Z.of_nat i + 1) as Hl.
    { apply index_nl_lt in Hi. unfold len. rewrite length_take. lia. }
    rewrite Hl. destruct (Z.leb_spec maxLineLength (Z.of_nat i + 1)) as [Hlong|Hshort].
    + eexists. split; [reflexivity|]. split; [by apply Hok|]. cbn.
      destruct (Hfail ErrLineTooLong) as (rest & Hd & Hr); [|exists rest; split; [exact Hd|done]].
      unfold flat_chunk_size. rewrite Hi. by replace (_ <? _) with false by (symmetry; apply Z.ltb_ge; lia).
    + assert (flat_chunk_size c e0 = match parseHexUint (removeChunkExtension (trimTrailingWhitespace (take (S i) c))) with
        | Ok n => Ok (n, drop (S i) c) | Err e => Err e end) as Hflat.
      { unfold flat_chunk_size. rewrite Hi. by replace (_ <? _) with true by (symmetry; apply Z.ltb_lt; lia). }
      destruct (parseHexUint _) as [n|e] eqn:Ep.
      * eexists. split; [reflexivity|]. split.
        { split; [done|]. split; [by apply parseHexUint_nonneg in Ep|]. split; [done|]. unfold e0_of. cbn. by rewrite Hbe. }
        cbn. destruct (Z.eqb_spec n 0) as [->|Hn'].
        -- exists (drop (S i) c). split; [|by intros _]. exists 1%nat. cbn [dechunk].
           change (0 =? 0) with true. cbn iota. by rewrite Hflat.
        -- split; [done|]. split; [rewrite <- Hpend, length_drop; apply index_nl_lt in Hi; lia|].
           rewrite Hbe, <- Hpend. intros d e rest [f Hf]. exists (S f). cbn [dechunk].
           change (0 =? 0) with true. cbn iota. rewrite Hflat.
           by replace (n =? 0) with false by (symmetry; by apply Z.eqb_neq).
      * eexists. split; [reflexivity|]. split; [by apply Hok|]. cbn.
        destruct (Hfail e) as (rest & Hd & _); [by rewrite Hflat|]. exists rest. split; [exact Hd|].
        intros ->. by apply parseHexUint_not_eof in Ep.
  - rewrite bool_decide_false by done. rewrite bool_decide_true by done.
    eexists. split; [reflexivity|]. split; [by apply Hok|]. cbn.
    destruct (Hfail ErrLineTooLong) as (rest & Hd & Hr); [|exists rest; split; [exact Hd|done]].
    unfold flat_chunk_size. destruct (index_nl c) as [i|].
    + specialize (Hno i eq_refl). by replace (_ <? _) with false by (symmetry; apply Z.ltb_ge; unfold maxLineLength, bufsize in *; lia).
    + assert (bufsize <= len c) as Hbc.
      { rewrite <- Happ, len_app. pose proof (len_nonneg (pending r')). lia. }
      by replace (_ <=? _) with true by (symmetry; by apply Z.leb_le).
  - rewrite (bool_decide_false (e0 = errBufferFull)) by done.
    eexists. split; [reflexivity|]. split; [by apply Hok|]. cbn.
    destruct (Hfail (premature e0)) as (rest & Hd & Hr).
    + unfold flat_chunk_size. rewrite Hi. by replace (_ <=? _) with false by (symmetry; apply Z.leb_gt; lia).
    + exists rest. unfold premature in *. split; [exact Hd|]. case_bool_decide; done.
Qed.

Lemma checkFooter_spec cr : cr_ok cr -> cr_err cr = None -> cr_checkEnd cr = true ->
  exists cr', checkFooter cr = Some cr' /\ cr_ok cr'
    /\ match cr_err cr' with
       | Some e => e <> io_EOF /\ decodes cr [] e []
       | None => cr_checkEnd cr' = false /\ cr_n cr' = 0
           /\ (length (pending (cr_r cr')) < length (pending (cr_r cr)))%nat
           /\ forall d e rest, decodes cr' d e rest -> decodes cr d e rest
       end.
Proof.
  intros (Hb & Hn & Hc & He0) Herr Hchk. unfold checkFooter. specialize (Hc Hchk).
  destruct (bufio_ReadFull_spec 2 (S (length (pending (cr_r cr)))) (cr_r cr) [] Hb ltac:(lia) ltac:(vm_compute; discriminate))
    as (res & r' & -> & Hb' & Hbe & Hres).
  unfold decodes, dechunks, e0_of in *. rewrite Hchk, Hc.
  set (c := pending (cr_r cr)) in *. set (e0 := bend (cr_r cr)) in *.
  assert (forall e, cr_ok (set_cr r' 0 (Some e) true)) as Hok.
  { intros e. split; [done|]. split; [done|]. split; [done|]. unfold e0_of. cbn. by rewrite Hbe. }
  destruct res as [d|e].
  - destruct Hres as [Hl Happ]. cbn in Happ.
    destruct d as [|a [|b [|x d]]]; try (unfold len in Hl; cbn in Hl; lia). clear Hl.
    destruct (bool_decide_reflect ([a; b] = [13; 10])) as [[= -> ->]|Hne].
    + eexists. split; [reflexivity|]. split.
      { split; [done|]. split; [done|]. split; [done|]. unfold e0_of. cbn. by rewrite Hbe. }
      cbn. split; [done|]. split; [done|]. rewrite <- Happ, Hbe. cbn. split; [lia|].
      intros d e rest [[|f] Hf]; [done|]. exists (S f). exact Hf.
    + eexists. split; [reflexivity|]. split; [apply Hok|]. cbn. split; [done|]. exists 1%nat.
      rewrite <- Happ. cbn. destruct (Z.eqb_spec a 13) as [->|]; [|done]. destruct (Z.eqb_spec b 10) as [->|]; done.
  - destruct Hres as [Hl He]. cbn [app] in Hl, He.
    eexists. split; [reflexivity|]. split; [apply Hok|]. cbn.
    assert ((if bool_decide (e = io_EOF) then io_ErrUnexpectedEOF else e) = premature e0) as ->.
    { rewrite He. unfold premature. destruct (0 <? len c); cbn [andb]; [|done].
      destruct (bool_decide_reflect (e0 = io_EOF)) as [->|]; [done|]. by rewrite bool_decide_false. }
    split; [unfold premature; by case_bool_decide|]. exists 1%nat.
    destruct c as [|a [|b c]]; try done. unfold len in Hl. cbn in Hl. lia.
Qed.

Lemma decodes_nonzero cr : cr_checkEnd cr = false -> cr_n cr <> 0 ->
  forall k d, 0 < k <= cr_n cr -> len d <= k -> forall c', d ++ c' = pending (cr_r cr) ->
  forall n' chk' d' e rest, n' = cr_n cr - len d -> chk' = (n' =? 0) ->
  dechunks n' chk' c' (e0_of cr) d' e rest -> decodes cr (d ++ d') e rest.
Proof.
  intros Hchk Hn k d Hk Hd c' Hc n' chk' d' e rest -> -> [f Hf]. unfold decodes, dechunks. rewrite Hchk, <- Hc.
  assert (forall f' cc nn, nn <> 0 -> dechunk (S f') nn false cc (e0_of cr) =
    if len cc <? nn then Some (cc, premature (e0_of cr), [])
    else match dechunk f' 0 true (slice_from cc nn) (e0_of cr) with
         | Some (d, e, rest) => Some (slice_to cc nn ++ d, e, rest) | None => None end) as Hstep.
  { intros f' cc nn Hnn. cbn [dechunk]. by replace (nn =? 0) with false by (symmetry; by apply Z.eqb_neq). }
  destruct (Z.eqb_spec (cr_n cr - len d) 0) as [E|E].
  - exists (S f). rewrite Hstep by done. rewrite len_app.
    replace (len d + len c' <? cr_n cr) with false by (symmetry; apply Z.ltb_ge; pose proof (len_nonneg c'); lia).
    rewrite slice_from_app, slice_to_app by lia. rewrite E in Hf. by rewrite Hf.
  - destruct f as [|f]; [done|]. exists (S f). rewrite Hstep in Hf |- * by done. rewrite len_app.
    destruct (Z.ltb_spec (len c') (cr_n cr - len d)) as [Hlt|Hge].
    + injection Hf as <- <- <-. by replace (len d + len c' <? cr_n cr) with true by (symmetry; apply Z.ltb_lt; lia).
    + replace (len d + len c' <? cr_n cr) with false by (symmetry; apply Z.ltb_ge; lia).
      pose proof (len_nonneg d).
      assert (slice_from (d ++ c') (cr_n cr) = slice_from c' (cr_n cr - len d)) as ->.
      { unfold slice_from, len in *. rewrite drop_app_ge by lia. f_equal. lia. }
      assert (slice_to (d ++ c') (cr_n cr) = d ++ slice_to c' (cr_n cr - len d)) as ->.
      { unfold slice_to, len in *. rewrite take_app_ge by lia. f_equal. f_equal. lia. }
      destruct (dechunk f 0 true _ _) as [[[x y] z]|]; [|done]. injection Hf as <- <- <-. by rewrite app_assoc.
Qed.

(** What one call of [Read] leaves, having added [d] to the output. *)
Definition read_result cr d cr' : Prop :=
  cr_ok cr' /\ match cr_err cr' with
               | Some e => exists rest, decodes cr d e rest /\ (e = io_EOF -> rest = pending (cr_r cr'))
               | None => (length d + length (pending (cr_r cr')) <= length (pending (cr_r cr)))%nat
                   /\ forall d' e rest, decodes cr' d' e rest -> decodes cr (d ++ d') e rest
               end.

Lemma read_result_prefix cr cr1 d0 d cr' :
  (forall d' e rest, decodes cr1 d' e rest -> decodes cr (d0 ++ d') e rest) ->
  (length d0 + length (pending (cr_r cr1)) <= length (pending (cr_r cr)))%nat ->
  read_result cr1 d cr' -> read_result cr (d0 ++ d) cr'.
Proof.
  intros Hd Hl [Hok Hr]. split; [done|]. destruct (cr_err cr') as [e|].
  - destruct Hr as (rest & Hr & He). exists rest. split; [by apply Hd|done].
  - destruct Hr as [Hl' Hr]. rewrite length_app. split; [lia|]. intros d' e rest Hx. rewrite <- app_assoc. by apply Hd, Hr.
Qed.

Lemma read_result_refl cr : cr_ok cr -> cr_err cr = None -> read_result cr [] cr.
Proof. intros Hok He. split; [done|]. rewrite He. split; [cbn; lia|done]. Qed.

Lemma cr_loop_err fuel cr room out e : cr_err cr = Some e -> cr_loop (S fuel) cr room out = Some (out, cr).
Proof. intros He. cbn [cr_loop]. by rewrite He. Qed.

(** The chunk being read: what one read of the buffer does. *)
Lemma chunk_read_spec cr k : cr_ok cr -> cr_checkEnd cr = false -> cr_n cr <> 0 -> 0 < k <= cr_n cr ->
  let '((d, err), r) := bufio_Read (cr_r cr) k in
  let n := cr_n cr - len d in
  let end_ := (n =? 0) && negb (is_set err) in
  let err := if negb end_ && bool_decide (err = Some io_EOF) then Some io_ErrUnexpectedEOF else err in
  let cr' := set_cr r n err (if end_ then true else cr_checkEnd cr) in
  read_result cr d cr' /\ len d <= k
  /\ (err = None -> d <> [] /\ (length d + length (pending r) = length (pending (cr_r cr)))%nat).
Proof.
  intros (Hb & Hn & Hc & He0) Hchk Hn0 Hk.
  pose proof (bufio_Read_spec (cr_r cr) k Hb ltac:(lia)) as Hs.
  destruct (bufio_Read (cr_r cr) k) as [[d err] r]. destruct Hs as (Hb' & Hbe & Hl & Hp & He).
  rewrite Hchk. destruct err as [e|].
  - destruct He as (-> & Hnil & ->). rewrite len_nil, Z.sub_0_r.
    cbn [negb is_set]. rewrite andb_false_r. cbn [andb negb].
    assert ((if bool_decide (Some (bend (cr_r cr)) = Some io_EOF) then Some io_ErrUnexpectedEOF else Some (bend (cr_r cr)))
            = Some (premature (bend (cr_r cr)))) as ->.
    { unfold premature. destruct (bool_decide_reflect (bend (cr_r cr) = io_EOF)) as [->|Hne]; [done|].
      rewrite bool_decide_false; [done|]. by intros [= ?]. }
    split; [|split; [lia|done]]. split.
    { split; [done|]. split; [done|]. split; [done|]. unfold e0_of in *. cbn. by rewrite Hbe. }
    cbn. exists []. split; [|unfold premature; by case_bool_decide]. exists 1%nat. rewrite Hnil, Hchk. cbn [dechunk].
    replace (cr_n cr =? 0) with false by (symmetry; by apply Z.eqb_neq). rewrite len_nil.
    by replace (0 <? cr_n cr) with true by (symmetry; apply Z.ltb_lt; lia).
  - cbn [is_set negb]. rewrite andb_true_r, (bool_decide_false (None = Some io_EOF)) by done. rewrite andb_false_r.
    assert ((length d + length (pending r) = length (pending (cr_r cr)))%nat) as Hlen by (by rewrite <- Hp, length_app).
    split; [|split; [done|by intros _]].
    assert ((if cr_n cr - len d =? 0 then true else false) = (cr_n cr - len d =? 0)) as -> by (by destruct (_ =? 0)).
    split.
    { split; [done|]. split; [cbn; lia|]. split; [cbn; apply Z.eqb_eq|]. unfold e0_of in *. cbn. by rewrite Hbe. }
    cbn. split; [lia|]. intros d' e rest Hx. unfold decodes, e0_of in Hx. cbn in Hx. rewrite Hbe in Hx.
    by eapply (decodes_nonzero cr Hchk Hn0 k d Hk Hl (pending r) Hp).
Qed.

Lemma cr_loop_spec fuel : forall cr room out, cr_ok cr -> 0 <= room -> cr_err cr = None ->
  (length (pending (cr_r cr)) + 2 <= fuel)%nat ->
  exists d cr', cr_loop fuel cr room out = Some (out ++ d, cr') /\ read_result cr d cr' /\ len d <= room
    /\ (cr_err cr' = None -> room = 0 \/ 0 < len (out ++ d)).
Proof.
  induction fuel as [|fuel IH]; intros cr room out Hok Hroom Herr Hf; [lia|]. cbn [cr_loop]. rewrite Herr. cbn [is_set].
  destruct (cr_checkEnd cr && (0 <? len out) && (Buffered (cr_r cr) <? 2)) eqn:Ebreak.
  { exists [], cr. rewrite app_nil_r. split; [done|]. split; [by apply read_result_refl|]. split; [done|].
    intros _. right. apply andb_true_iff in Ebreak as [Eb _]. apply andb_true_iff in Eb as [_ Eb]. by apply Z.ltb_lt. }
  assert (exists cr1, (if cr_checkEnd cr then checkFooter cr else Some cr) = Some cr1 /\ cr_ok cr1
    /\ match cr_err cr1 with
       | Some e => e <> io_EOF /\ decodes cr [] e []
       | None => cr_checkEnd cr1 = false /\ (length (pending (cr_r cr1)) <= length (pending (cr_r cr)))%nat
           /\ forall d e rest, decodes cr1 d e rest -> decodes cr d e rest
       end) as (cr1 & -> & Hok1 & H1).
  { destruct (cr_checkEnd cr) eqn:Hchk.
    - destruct (checkFooter_spec cr Hok Herr Hchk) as (cr1 & Hc1 & Hok1 & H1). exists cr1. split; [done|]. split; [done|].
      destruct (cr_err cr1); [done|]. destruct H1 as (? & ? & ? & ?). split; [done|]. split; [lia|done].
    - exists cr. rewrite Herr. split; [done|]. split; [done|]. split; [done|]. split; [lia|done]. }
  destruct (cr_err cr1) as [e|] eqn:Herr1; cbn [is_set].
  { destruct H1 as [Hne Hd]. exists [], cr1. rewrite app_nil_r. split; [done|]. split; [|split; [done|by rewrite Herr1]].
    split; [done|]. rewrite Herr1. exists []. by split. }
  destruct H1 as (Hchk1 & Hlen1 & Hd1).
  assert (forall d cr', read_result cr1 d cr' -> read_result cr d cr') as Hpre.
  { intros d cr'. apply (read_result_prefix cr cr1 [] d); [exact Hd1|cbn; lia]. }
  destruct (Z.eqb_spec (cr_n cr1) 0) as [Hn0|Hn0].
  - destruct ((0 <? len out) && negb (chunkHeaderAvailable cr1)) eqn:Eav.
    { exists [], cr1. rewrite app_nil_r. split; [done|]. split; [by apply Hpre, read_result_refl|]. split; [done|].
      intros _. right. apply andb_true_iff in Eav as [Ea _]. by apply Z.ltb_lt. }
    destruct (beginChunk_spec cr1 Hok1 Herr1 Hchk1 Hn0) as (cr2 & -> & Hok2 & H2).
    destruct (cr_err cr2) as [e|] eqn:Herr2.
    + destruct fuel as [|fuel]; [lia|]. rewrite (cr_loop_err _ _ _ _ e) by done.
      exists [], cr2. rewrite app_nil_r. split; [done|]. split; [|split; [done|by rewrite Herr2]].
      apply Hpre. split; [done|]. by rewrite Herr2.
    + destruct H2 as (Hchk2 & Hlen2 & Hd2).
      destruct (IH cr2 room out Hok2 Hroom Herr2 ltac:(lia)) as (d & cr' & Hrun & Hres & Hl & Hprog).
      exists d, cr'. split; [done|]. split; [|done]. apply Hpre.
      apply (read_result_prefix cr1 cr2 [] d); [exact Hd2|cbn; lia|done].
  - destruct (Z.eqb_spec room 0) as [->|Hroom0].
    { exists [], cr1. rewrite app_nil_r. split; [done|]. split; [by apply Hpre, read_result_refl|]. split; [done|by left]. }
    set (k := if cr_n cr1 <? room then cr_n cr1 else room).
    assert (0 < k <= cr_n cr1 /\ k <= room) as [Hk Hkr].
    { destruct Hok1 as (_ & Hn & _). unfold k. destruct (Z.ltb_spec (cr_n cr1) room); lia. }
    pose proof (chunk_read_spec cr1 k Hok1 Hchk1 Hn0 Hk) as Hs. cbn zeta in Hs |- *.
    destruct (bufio_Read (cr_r cr1) k) as [[d err] r].
    set (err' := if _ && _ then _ else err) in *. set (cr2 := set_cr r _ err' _) in *.
    destruct Hs as (Hr & Hl & Hne). destruct err' as [e|] eqn:Ee.
    + destruct fuel as [|fuel]; [lia|]. rewrite (cr_loop_err _ _ _ _ e) by done.
      exists d, cr2. split; [done|]. split; [by apply Hpre|]. split; [lia|done].
    + destruct (Hne eq_refl) as [Hd Hlen]. destruct Hr as [Hok2 Hr].
      change (cr_err cr2) with (@None error) in Hr. destruct Hr as [_ Hr].
      assert ((0 < length d)%nat) as Hdl by (destruct d; [done|cbn; lia]).
      destruct (IH cr2 (room - len d) (out ++ d) Hok2 ltac:(lia) eq_refl) as (d' & cr' & Hrun & Hres & Hl' & Hprog).
      { change (pending (cr_r cr2)) with (pending r). lia. }
      exists (d ++ d'), cr'. rewrite Hrun, <- app_assoc. split; [done|]. split.
      { apply Hpre. apply (read_result_prefix cr1 cr2 d d'); [exact Hr|change (cr_r cr2) with r; lia|done]. }
      split; [rewrite len_app; lia|]. intros _. right. rewrite !len_app. unfold len in *. lia.
Qed.

(** Reading until an error, the [i]-th call with a buffer of [rooms i] bytes. *)
Fixpoint read_all (fuel : nat) (cr : chunkedReader) (rooms : nat -> Z) : option (bytes * error * chunkedReader) :=
  match fuel with
  | O => None
  | S fuel =>
      match cr_Read cr (rooms 0%nat) with
      | None => None
      | Some (d, Some e, cr) => Some (d, e, cr)
      | Some (d, None, cr) =>
          match read_all fuel cr (fun i => rooms (S i)) with
          | Some (d', e, cr) => Some (d ++ d', e, cr)
          | None => None
          end
      end
  end.

Lemma read_all_decodes fuel : forall cr rooms, cr_ok cr -> cr_err cr = None -> (forall i, 0 < rooms i) ->
  (length (pending (cr_r cr)) < fuel)%nat ->
  exists d e cr' rest, read_all fuel cr rooms = Some (d, e, cr') /\ decodes cr d e rest
    /\ (e = io_EOF -> rest = pending (cr_r cr')).
Proof.
  induction fuel as [|fuel IH]; intros cr rooms Hok Herr Hrooms Hf; [lia|]. cbn [read_all]. unfold cr_Read.
  destruct (cr_loop_spec (cr_fuel cr) cr (rooms 0%nat) [] Hok ltac:(specialize (Hrooms 0%nat); lia) Herr
    ltac:(unfold cr_fuel; lia)) as (d & cr1 & -> & [Hok1 Hres] & _ & Hprog). cbn [app] in *.
  destruct (cr_err cr1) as [e|] eqn:He.
  - destruct Hres as (rest & Hd & Hr). by exists d, e, cr1, rest.
  - destruct Hres as [Hlen Hd]. destruct (Hprog eq_refl) as [Hz|Hpos]; [specialize (Hrooms 0%nat); lia|].
    destruct (IH cr1 (fun i => rooms (S i)) Hok1 He (fun i => Hrooms (S i))) as (d' & e & cr' & rest & -> & Hd' & Hr).
    { unfold len in Hpos. lia. }
    exists (d ++ d'), e, cr', rest. split; [done|]. split; [by apply Hd|done].
Qed.

(** The chunked reader decodes the byte stream, however it arrives. For every
    stream, well-formed or not, every way the network cuts it into segments, every
    error that ends it and every sequence of buffer sizes, reading to the first
    error terminates and yields exactly the payload and the error of the flat
    decoder [dechunk]; after a regular end the connection stands right behind the
    last chunk. The decoder being a function, two arrivals of the same stream
    cannot be told apart. *)
Theorem chunked_reader_decodes (r : BufReader) (rooms : nat -> Z) :
  buf_ok r -> bend r <> errBufferFull -> (forall i, 0 < rooms i) ->
  exists d e cr' rest,
    read_all (S (length (pending r))) (NewChunkedReader r) rooms = Some (d, e, cr')
    /\ dechunks 0 false (pending r) (bend r) d e rest
    /\ (e = io_EOF -> pending (cr_r cr') = rest)
    /\ (forall d' e' rest', dechunks 0 false (pending r) (bend r) d' e' rest' -> d' = d /\ e' = e).
Proof.
  intros Hr He0 Hrooms.
  destruct (read_all_decodes (S (length (pending r))) (NewChunkedReader r) rooms) as (d & e & cr' & rest & Hrun & Hd & Hrest);
    [by repeat split; try apply Hr|done|done|cbn; lia|].
  exists d, e, cr', rest. split; [done|]. split; [exact Hd|]. split; [intros; symmetry; auto|].
  intros d' e' rest' Hd'. destruct (dechunks_det _ _ _ _ _ _ _ _ _ _ Hd Hd') as (-> & -> & _). done.
Qed.

Lemma chunked_reader_decodes_witness :
  let r := mkBufReader [] [[51; 13]; [10; 1; 2]; [3; 13; 10; 48; 13; 10; 99]] io_EOF in
  exists cr', read_all 15 (NewChunkedReader r) (fun _ => 2) = Some ([1; 2; 3], io_EOF, cr')
    /\ pending (cr_r cr') = [99].
Proof.
  intros r. destruct (chunked_reader_decodes r (fun _ => 2)) as (d & e & cr' & rest & Hrun & _ & Hrest & Hdet).
  - split; [repeat constructor; discriminate|]. vm_compute. discriminate.
  - done.
  - intros _. lia.
  - exists cr'. destruct (Hdet [1; 2; 3] io_EOF [99]) as [<- <-]; [by exists 9%nat|].
    split; [exact Hrun|]. vm_compute in Hrun. injection Hrun as <-. reflexivity.
Defined.

(** ** Round trip with the writer *)
Lemma hex_value_digit d : 0 <= d < 16 -> hex_value (hex_digit d) = Some d.
Proof.
  intros Hd. assert (d ∈ seqZ 0 16) as Hin by (apply elem_of_seqZ; lia). clear Hd. revert d Hin.
  apply Forall_forall. vm_compute. repeat constructor.
Qed.

Lemma hex_go_parse f : forall m acc, 0 <= m < 16 ^ Z.of_nat (S f) ->
  exists k, 0 < k <= Z.of_nat (S f) /\ forall i a, 0 <= i -> i + k <= 16 -> 0 <= a -> a * 16 ^ k + m < 2 ^ 64 ->
    parseHexUint_loop (hex_go (S f) m acc) i a = parseHexUint_loop acc (i + k) (a * 16 ^ k + m).
Proof.
  assert (forall m acc i a, 0 <= i -> i < 16 -> 0 <= a -> 0 <= m -> a * 16 + m mod 16 < 2 ^ 64 ->
    parseHexUint_loop (hex_digit (m mod 16) :: acc) i a = parseHexUint_loop acc (i + 1) (a * 16 + m mod 16)) as Hstep.
  { intros m acc0 i a Hi Hi' Ha Hm Hb. pose proof (Z.mod_pos_bound m 16 ltac:(lia)).
    cbn [parseHexUint_loop]. rewrite hex_value_digit by done.
    replace (i =? 16) with false by (symmetry; apply Z.eqb_neq; lia).
    rewrite Z.shiftl_mul_pow2 by lia. rewrite u64_small by (change (2 ^ 4) with 16; word).
    rewrite <- Z.shiftl_mul_pow2 by lia. by rewrite lor_shiftl_add by (change (2 ^ 4) with 16; lia). }
  assert (forall f m acc, 0 <= m -> m / 16 = 0 -> exists k, 0 < k <= Z.of_nat (S f) /\
    forall i a, 0 <= i -> i + k <= 16 -> 0 <= a -> a * 16 ^ k + m < 2 ^ 64 ->
    parseHexUint_loop (hex_go (S f) m acc) i a = parseHexUint_loop acc (i + k) (a * 16 ^ k + m)) as Hlast.
  { intros f0 m acc Hm E. exists 1. split; [lia|]. intros i a Hi Hk Ha Hb. change (16 ^ 1) with 16 in *.
    pose proof (Z.div_mod m 16 ltac:(lia)). cbn [hex_go]. rewrite E. change (0 =? 0) with true. cbn iota.
    rewrite Hstep by lia. f_equal. lia. }
  induction f as [|f IH]; intros m acc Hm.
  { apply Hlast; [lia|]. apply Z.div_small. exact Hm. }
  destruct (Z.eq_dec (m / 16) 0) as [E|E]; [by apply Hlast; [lia|]|].
  pose proof (Z.div_mod m 16 ltac:(lia)) as Hdm. pose proof (Z.mod_pos_bound m 16 ltac:(lia)) as Hd.
  rewrite Nat2Z.inj_succ, Z.pow_succ_r in Hm by lia.
  destruct (IH (m / 16) (hex_digit (m mod 16) :: acc)) as (k & Hk & Hrun).
  { split; [apply Z.div_pos; lia|]. apply Z.div_lt_upper_bound; lia. }
  exists (k + 1). split; [lia|]. intros i a Hi Hik Ha Hb. rewrite Z.pow_add_r in * by lia. change (16 ^ 1) with 16 in *.
  assert (0 < 16 ^ k) by (apply Z.pow_pos_nonneg; lia).
  remember (S f) as f1. cbn [hex_go]. replace (m / 16 =? 0) with false by (symmetry; by apply Z.eqb_neq).
  rewrite Hrun by nia. rewrite Hstep by nia. f_equal; [lia|]. nia.
Qed.

Lemma parse_format_hex n : 0 <= n < 2 ^ 64 -> parseHexUint (format_hex n) = Ok n.
Proof.
  intros Hn. destruct (hex_go_parse 15 n []) as (k & Hk & Hrun); [exact Hn|].
  unfold parseHexUint, format_hex. rewrite Hrun by lia. cbn. f_equal.
Qed.

Definition is_hex (b : byte) : Prop := 48 <= b <= 57 \/ 97 <= b <= 102.

Lemma hex_go_hex f : forall m acc, 0 <= m -> Forall is_hex acc -> Forall is_hex (hex_go f m acc).
Proof.
  induction f as [|f IH]; intros m acc Hm Hacc; [done|]. cbn [hex_go].
  assert (is_hex (hex_digit (m mod 16))) as Hd.
  { pose proof (Z.mod_pos_bound m 16 ltac:(lia)). unfold is_hex, hex_digit. destruct (Z.ltb_spec (m mod 16) 10); lia. }
  destruct (m / 16 =? 0); [by constructor|]. apply IH; [apply Z.div_pos; lia|by constructor].
Qed.
Lemma hex_go_length f : forall m acc, (length (hex_go f m acc) <= f + length acc)%nat
  /\ (length acc <= length (hex_go f m acc))%nat /\ ((0 < f)%nat -> (length acc < length (hex_go f m acc))%nat).
Proof.
  induction f as [|f IH]; intros m acc; cbn [hex_go]; [lia|]. destruct (m / 16 =? 0); [cbn; lia|].
  destruct (IH (m / 16) (hex_digit (m mod 16) :: acc)) as (? & ? & ?). cbn in *. lia.
Qed.

Lemma index_nl_hex h c : Forall is_hex h -> index_nl (h ++ 13 :: 10 :: c) = Some (S (length h)).
Proof.
  induction 1 as [|b h Hb Hh IH]; [done|]. cbn [app index_nl length].
  replace (b =? 10) with false by (symmetry; apply Z.eqb_neq; unfold is_hex in Hb; lia). by rewrite IH.
Qed.
Lemma no_extension h : Forall is_hex h -> removeChunkExtension h = h.
Proof.
  induction 1 as [|b h Hb Hh IH]; [done|]. cbn.
  replace (b =? 59) with false by (symmetry; apply Z.eqb_neq; unfold is_hex in Hb; lia). by rewrite IH.
Qed.
Lemma trim_hex h : Forall is_hex h -> trimTrailingWhitespace (h ++ [13; 10]) = h.
Proof.
  intros Hh. unfold trimTrailingWhitespace. rewrite reverse_app. cbn [reverse rev_append app].
  change (reverse [13; 10]) with [10; 13]. cbn.
  destruct h as [|b h] using rev_ind; [done|]. rewrite reverse_snoc. cbn.
  apply Forall_app in Hh as [_ Hb]. rewrite Forall_singleton in Hb.
  assert (isASCIISpace b = false) as -> by (unfold isASCIISpace, is_hex in *;
    repeat (apply orb_false_iff; split); apply Z.eqb_neq; lia).
  change (reverse (b :: reverse h) = h ++ [b]). by rewrite reverse_cons, reverse_involutive.
Qed.

Lemma flat_chunk_size_hex n c e0 : 0 <= n < 2 ^ 64 ->
  flat_chunk_size (format_hex n ++ 13 :: 10 :: c) e0 = Ok (n, c).
Proof.
  intros Hn. assert (Forall is_hex (format_hex n)) as Hh by (apply hex_go_hex; [lia|constructor]).
  destruct (hex_go_length 16 n []) as (Hl & _ & _). change (length (format_hex n) <= 16)%nat in Hl.
  unfold flat_chunk_size. rewrite index_nl_hex by done.
  replace (_ <? maxLineLength) with true by (symmetry; apply Z.ltb_lt; unfold maxLineLength; lia).
  change (13 :: 10 :: c) with ([13; 10] ++ c). rewrite app_assoc.
  assert (S (S (length (format_hex n))) = length (format_hex n ++ [13; 10])) as -> by (rewrite length_app; cbn; lia).
  rewrite take_app_length, drop_app_length, trim_hex, no_extension, parse_format_hex by done. done.
Qed.

(** What [Write] and [Close] put on the wire. *)
Definition chunk_bytes (d : bytes) : bytes :=
  if len d =? 0 then [] else format_hex (len d) ++ 13 :: 10 :: d ++ [13; 10].

Lemma cw_Write_bytes (w d : bytes) : cw_Write None w d = (w ++ chunk_bytes d, len d, None).
Proof.
  unfold cw_Write, chunk_bytes. destruct (Z.eqb_spec (len d) 0) as [E|E]; [by rewrite E, app_nil_r|].
  cbn. rewrite Z.eqb_refl. cbn. by rewrite <- !app_assoc.
Qed.

(** Writing [ds] one after the other, then closing. *)
Definition cw_all (ds : list bytes) : bytes :=
  (cw_Close (fold_left (fun w d => (cw_Write None w d).1.1) ds [])).1.

Lemma cw_all_bytes ds : cw_all ds = concat (chunk_bytes <$> ds) ++ [48; 13; 10].
Proof.
  assert (forall w, fold_left (fun w d => (cw_Write None w d).1.1) ds w = w ++ concat (chunk_bytes <$> ds)) as H.
  { induction ds as [|d ds IH]; intros w; cbn; [by rewrite app_nil_r|]. rewrite cw_Write_bytes, IH. cbn. by rewrite app_assoc. }
  unfold cw_all. rewrite H. reflexivity.
Qed.

Lemma dechunks_footer c e0 d e r : dechunks 0 false c e0 d e r -> dechunks 0 true ([13; 10] ++ c) e0 d e r.
Proof. intros [[|f] Hf]; [done|]. exists (S f). exact Hf. Qed.

Lemma dechunks_chunk d c e0 d' e r : d <> [] -> len d < 2 ^ 63 -> dechunks 0 true c e0 d' e r ->
  dechunks 0 false (format_hex (len d) ++ 13 :: 10 :: d ++ c) e0 (d ++ d') e r.
Proof.
  intros Hd Hl [f Hf]. pose proof (len_nonneg d). pose proof (len_nonneg c).
  assert (len d <> 0) as Hn by (unfold len; destruct d; [done|cbn; lia]).
  exists (S (S f)). remember (S f) as f1. cbn [dechunk]. change (0 =? 0) with true. cbn iota.
  rewrite flat_chunk_size_hex by (change (2 ^ 64) with 18446744073709551616; change (2 ^ 63) with 9223372036854775808 in Hl; lia).
  replace (len d =? 0) with false by (symmetry; by apply Z.eqb_neq).
  subst f1. cbn [dechunk]. replace (len d =? 0) with false by (symmetry; by apply Z.eqb_neq).
  rewrite len_app. replace (_ <? len d) with false by (symmetry; apply Z.ltb_ge; lia).
  by rewrite slice_from_app, slice_to_app, Hf by done.
Qed.

Lemma dechunks_written ds tail e0 : Forall (fun d => len d < 2 ^ 63) ds ->
  dechunks 0 false (concat (chunk_bytes <$> ds) ++ [48; 13; 10] ++ tail) e0 (concat ds) io_EOF tail.
Proof.
  induction 1 as [|d ds Hd Hds IH].
  - exists 1%nat. cbn [fmap list_fmap concat app dechunk]. change (0 =? 0) with true. cbn iota.
    change (48 :: 13 :: 10 :: tail) with (format_hex 0 ++ 13 :: 10 :: tail). by rewrite flat_chunk_size_hex.
  - cbn [fmap list_fmap concat]. unfold chunk_bytes at 1. destruct (Z.eqb_spec (len d) 0) as [E|E].
    { assert (d = []) as -> by (apply nil_length_inv; unfold len in E; lia). exact IH. }
    rewrite <- !app_assoc. cbn [app]. rewrite <- app_assoc.
    apply dechunks_chunk; [by intros ->|done|]. exact (dechunks_footer _ _ _ _ _ IH).
Qed.

(** Chunked round trip. Whatever a [chunkedWriter] is given, in any number of
    writes of any sizes (empty ones included), and closed, a [chunkedReader] reads
    back: the concatenation of the writes, then [io.EOF], with the connection at
    the byte that follows, for every segmentation of the stream and all buffer
    sizes. *)
Theorem chunked_roundtrip (ds : list bytes) (tail : bytes) (r : BufReader) (rooms : nat -> Z) :
  Forall (fun d => len d < 2 ^ 63) ds -> buf_ok r -> bend r <> errBufferFull -> (forall i, 0 < rooms i) ->
  pending r = cw_all ds ++ tail ->
  exists cr', read_all (S (length (pending r))) (NewChunkedReader r) rooms = Some (concat ds, io_EOF, cr')
    /\ pending (cr_r cr') = tail.
Proof.
  intros Hds Hr He0 Hrooms Hp.
  destruct (read_all_decodes (S (length (pending r))) (NewChunkedReader r) rooms) as (d & e & cr' & rest & Hrun & Hd & Hrest);
    [by repeat split; try apply Hr|done|done|cbn; lia|].
  unfold decodes in Hd. cbn [cr_n cr_checkEnd cr_r NewChunkedReader] in Hd. rewrite Hp, cw_all_bytes, <- app_assoc in Hd.
  destruct (dechunks_det _ _ _ _ _ _ _ _ _ _ Hd (dechunks_written ds tail _ Hds)) as (-> & -> & ->).
  exists cr'. split; [done|]. symmetry. by apply Hrest.
Qed.

Lemma chunked_roundtrip_witness :
  let r := mkBufReader [] [[50]; [13; 10; 7]; [8; 13; 10; 49; 13; 10; 9; 13; 10; 48; 13]; [10; 5]] io_EOF in
  exists cr', read_all 18 (NewChunkedReader r) (fun _ => 10) = Some ([7; 8; 9], io_EOF, cr').
Proof.
  intros r. destruct (chunked_roundtrip [[7; 8]; []; [9]] [5] r (fun _ => 10)) as (cr' & Hrun & _).
  - repeat constructor.
  - split; [repeat constructor; discriminate|]. vm_compute. discriminate.
  - done.
  - intros _. lia.
  - vm_compute. reflexivity.
  - exists cr'. exact Hrun.
Defined.
