(* ===== verification/WantQueue.v ===== *)
(** * The two-stage queue of waiting requests ([wantConnQueue] of [src/transport.go])

    The queue keeps the requests that wait for a connection in two slices: [head],
    read from [headPos] on, and [tail]. When the first is used up the second
    replaces it. The abstract value is the list [queue_items]; every operation is
    shown to act on it as on a first-in first-out list. *)

From S2P Require Import Prelude.

Section Queue.
Context {W : Type}.

Record wantConnQueue := mkQueue {
  q_head : list (option W);   (* popped entries are nil *)
  q_headPos : nat;
  q_tail : list (option W) }.

Definition empty_queue : wantConnQueue := mkQueue [] 0 [].

Definition queue_len (q : wantConnQueue) : Z := len (q_head q) - Z.of_nat (q_headPos q) + len (q_tail q).

Definition pushBack (w : W) (q : wantConnQueue) : wantConnQueue :=
  mkQueue (q_head q) (q_headPos q) (q_tail q ++ [Some w]).

(** [popFront]; the result is nil for an empty queue. *)
Definition popFront (q : wantConnQueue) : option W * wantConnQueue :=
  let pop (q : wantConnQueue) :=
    (mjoin (q_head q !! q_headPos q),
     mkQueue (<[q_headPos q := None]> (q_head q)) (S (q_headPos q)) (q_tail q)) in
  if (length (q_head q) <=? q_headPos q)%nat then
    match q_tail q with
    | [] => (None, q)
    | _ => pop (mkQueue (q_tail q) 0 [])
    end
  else pop q.

Definition peekFront (q : wantConnQueue) : option W :=
  if (q_headPos q <? length (q_head q))%nat then mjoin (q_head q !! q_headPos q)
  else match q_tail q with w :: _ => w | [] => None end.

(** [all], as the sequence of its calls. *)
Definition queue_all (q : wantConnQueue) : list (option W) := drop (q_headPos q) (q_head q) ++ q_tail q.

(** ** The queue as a list *)
Definition queue_items (q : wantConnQueue) : list W := omap id (queue_all q).
Definition queue_ok (q : wantConnQueue) : Prop :=
  Forall is_Some (queue_all q) /\ (q_headPos q <= length (q_head q))%nat.

Lemma empty_queue_ok : queue_ok empty_queue. Proof. split; [constructor|cbn; lia]. Qed.

Lemma queue_all_ok q : queue_ok q -> queue_all q = Some <$> queue_items q.
Proof.
  intros [H _]. unfold queue_items. revert H. generalize (queue_all q). induction 1 as [|x l [y ->] Hl IH]; [done|].
  cbn. by rewrite IH at 1.
Qed.
Lemma omap_Some (l : list W) : omap id (Some <$> l) = l.
Proof. induction l as [|x l IH]; [done|]. cbn. by rewrite IH. Qed.

Lemma queue_len_items q : queue_ok q -> queue_len q = len (queue_items q).
Proof.
  intros Hq. unfold queue_len, len. pose proof (f_equal length (queue_all_ok q Hq)) as E.
  destruct Hq as [_ Hp]. unfold queue_all in E. rewrite length_app, length_drop, length_fmap in E. lia.
Qed.

Lemma pushBack_ok w q : queue_ok q -> queue_ok (pushBack w q) /\ queue_items (pushBack w q) = queue_items q ++ [w].
Proof.
  intros Hq. pose proof (queue_all_ok q Hq) as E. destruct Hq as [Hf Hp].
  assert (queue_all (pushBack w q) = queue_all q ++ [Some w]) as Ea by (unfold queue_all, pushBack; cbn; by rewrite app_assoc).
  split; [split; [|done]|].
  - rewrite Ea. apply Forall_app. split; [done|]. by repeat constructor.
  - unfold queue_items at 1. rewrite Ea, E. by rewrite omap_app, omap_Some.
Qed.

Lemma queue_items_all q l : queue_all q = Some <$> l -> queue_items q = l.
Proof. intros E. unfold queue_items. by rewrite E, omap_Some. Qed.

Lemma pop_all (l : list (option W)) n : drop (S n) (<[n := None]> l) = drop (S n) l.
Proof. by rewrite drop_insert_lt by lia. Qed.

(** [popFront] takes the first element. *)
Lemma popFront_ok q : queue_ok q ->
  match queue_items q with
  | [] => popFront q = (None, q)
  | w :: l => exists q', popFront q = (Some w, q') /\ queue_ok q' /\ queue_items q' = l
  end.
Proof.
  intros Hq. pose proof (queue_all_ok q Hq) as E. revert E. generalize (queue_items q). intros items E.
  destruct Hq as [Hf Hp]. destruct q as [h p t]. unfold queue_all in E, Hf. unfold popFront. cbn [q_head q_headPos q_tail] in *.
  destruct (Nat.leb_spec (length h) p) as [Hle|Hlt].
  - rewrite drop_ge in E, Hf by lia. cbn in E, Hf. destruct t as [|x t].
    { by destruct items. }
    destruct items as [|w l]; [done|]. cbn in E. injection E as -> E.
    eexists. split; [reflexivity|]. split; [split|].
    + unfold queue_all. cbn. rewrite drop_0, app_nil_r. by inversion Hf.
    + cbn. lia.
    + apply queue_items_all. unfold queue_all. cbn. by rewrite drop_0, app_nil_r.
  - destruct (lookup_lt_is_Some_2 h p Hlt) as [x Hx]. rewrite (drop_S h x p Hx) in E, Hf. cbn in E, Hf.
    destruct items as [|w l]; [done|]. cbn in E. injection E as -> E.
    rewrite Hx. eexists. split; [reflexivity|]. split; [split|].
    + unfold queue_all. cbn [q_head q_headPos q_tail]. rewrite pop_all. by inversion Hf.
    + cbn. rewrite length_insert. lia.
    + apply queue_items_all. unfold queue_all. cbn [q_head q_headPos q_tail]. by rewrite pop_all.
Qed.

Lemma peekFront_ok q : queue_ok q -> peekFront q = head (queue_items q).
Proof.
  intros Hq. pose proof (queue_all_ok q Hq) as E. revert E. generalize (queue_items q). intros items E.
  destruct q as [h p t]. unfold queue_all in E. unfold peekFront. cbn [q_head q_headPos q_tail] in *.
  destruct (Nat.ltb_spec p (length h)) as [Hlt|Hge].
  - destruct (lookup_lt_is_Some_2 h p Hlt) as [x Hx]. rewrite (drop_S h x p Hx) in E. rewrite Hx. cbn [app fmap list_fmap] in E.
    destruct items; [done|]. cbn in *. injection E as -> _. done.
  - rewrite drop_ge in E by lia. cbn in E. destruct t, items; try done. cbn in *. injection E as -> _. done.
Qed.

(** ** A queue refines a list *)
Inductive queue_op := QPush (w : W) | QPop.
Definition queue_run (o : queue_op) (s : wantConnQueue * list (option W)) : wantConnQueue * list (option W) :=
  let '(q, out) := s in
  match o with QPush w => (pushBack w q, out) | QPop => let '(w, q) := popFront q in (q, out ++ [w]) end.
Definition list_run (o : queue_op) (s : list W * list (option W)) : list W * list (option W) :=
  let '(l, out) := s in
  match o with QPush w => (l ++ [w], out) | QPop => (tail l, out ++ [head l]) end.

(** The queue of waiting requests is a first-in first-out list. Whatever the
    sequence of pushes and pops, the pops return what they return on a list, the
    length and the front are those of the list, and [all] visits its elements in
    order. *)
Theorem wantConnQueue_refines_list (ops : list queue_op) :
  let '(q, out) := fold_left (fun s o => queue_run o s) ops (empty_queue, []) in
  let '(l, out') := fold_left (fun s o => list_run o s) ops ([], []) in
  out = out' /\ queue_all q = Some <$> l /\ queue_len q = len l /\ peekFront q = head l.
Proof.
  assert (forall q l out, queue_ok q -> queue_items q = l ->
    let '(q', out1) := fold_left (fun s o => queue_run o s) ops (q, out) in
    let '(l', out2) := fold_left (fun s o => list_run o s) ops (l, out) in
    out1 = out2 /\ queue_ok q' /\ queue_items q' = l') as H.
  { induction ops as [|[w|] ops IH]; intros q l out Hq Hl; cbn [fold_left]; [done| |].
    - cbn. destruct (pushBack_ok w q Hq) as [Hq' Hl']. apply IH; [done|]. by rewrite Hl', Hl.
    - cbn. pose proof (popFront_ok q Hq) as Hp. rewrite Hl in Hp. destruct l as [|w l].
      + rewrite Hp. by apply IH.
      + destruct Hp as (q' & -> & Hq' & Hl'). by apply IH. }
  specialize (H empty_queue [] [] empty_queue_ok eq_refl).
  destruct (fold_left _ ops (empty_queue, [])) as [q out], (fold_left _ ops ([], [])) as [l out'].
  destruct H as (-> & Hq & <-). split; [done|]. split; [by apply queue_all_ok|].
  split; [by apply queue_len_items|by apply peekFront_ok].
Qed.
End Queue.
Arguments wantConnQueue W : clear implicits.
Arguments queue_op W : clear implicits.
