(* ===== verification/H1Pool.v ===== *)
(** * The connection pool of the HTTP/1 transport ([src/transport.go])

    The state of a [Transport] that concerns connections: the idle connections
    and their LRU list, the requests that wait for one, the number of connections
    per host and the requests that wait to dial. Connections, requests for a
    connection ([wantConn]) and goroutines are objects of the store, named by
    integers. Each critical section is one operation; [exec] is the next critical
    section of a goroutine. What the network, the timers and the callers do is
    chosen by an [event]. *)

From S2P Require Import Prelude.
From S2P Require Import H2Errors.
From S2P Require Import WantQueue.

(** ** Data *)
Record connectMethodKey := mkKey { k_proxy : string; k_scheme : string; k_addr : string; k_onlyH1 : bool }.
#[export] Instance connectMethodKey_eq_dec : EqDecision connectMethodKey.
Proof. solve_decision. Defined.
#[export] Instance connectMethodKey_countable : Countable connectMethodKey.
Proof.
  refine (inj_countable' (fun k => (k_proxy k, k_scheme k, k_addr k, k_onlyH1 k))
    (fun '(p, s, a, o) => mkKey p s a o) _). by intros [].
Defined.

(** The proxy of a [connectMethod] is its URL's text and scheme. *)
Record connectMethod := mkConnectMethod {
  cm_proxyURL : option (string * string); cm_targetScheme : string; cm_targetAddr : string; cm_onlyH1 : bool }.

Definition connectMethod_key (cm : connectMethod) : connectMethodKey :=
  let '(proxyStr, targetAddr) :=
    match cm_proxyURL cm with
    | None => (""%string, cm_targetAddr cm)
    | Some (url, scheme) =>
        (url, if (bool_decide (scheme = "http"%string) || bool_decide (scheme = "https"%string))
                 && bool_decide (cm_targetScheme cm = "http"%string)
              then ""%string else cm_targetAddr cm)
    end in
  mkKey proxyStr (cm_targetScheme cm) targetAddr (cm_onlyH1 cm).

Definition errKeepAlivesDisabled : error := errors_New "http: putIdleConn: keep alives disabled".
Definition errConnBroken : error := errors_New "http: putIdleConn: connection is in bad state".
Definition errCloseIdle : error := errors_New "http: putIdleConn: CloseIdleConnections was called".
Definition errTooManyIdle : error := errors_New "http: putIdleConn: too many idle connections".
Definition errTooManyIdleHost : error := errors_New "http: putIdleConn: too many idle connections for host".
Definition errCloseIdleConns : error := errors_New "http: CloseIdleConnections called".
Definition errIdleConnTimeout : error := errors_New "http: idle connection timeout".

Definition defaultMaxIdleConnsPerHost : Z := 2.

(** The options of the transport the pool reads; durations in nanoseconds. *)
Record Options := mkOptions {
  DisableKeepAlives : bool;
  MaxIdleConns : Z;
  MaxIdleConnsPerHost : Z;
  MaxConnsPerHost : Z;
  IdleConnTimeout : Z }.

Record persistConn := mkPersistConn {
  pc_cacheKey : connectMethodKey;
  pc_alt : bool;                  (* an HTTP/2 entry: [pc.alt != nil] *)
  pc_closed : option error;
  pc_reused : bool;
  pc_idleAt : Z;
  pc_idleTimer : option bool }.   (* nil, or whether it is running *)

Record connOrError := mkConnOrError { ce_pc : option Z; ce_err : option error; ce_idleAt : Z }.

Record wantConn := mkWantConn {
  w_key : connectMethodKey;
  w_ctx : bool;                   (* [w.ctx != nil] *)
  w_cancelCtx : bool;             (* [w.cancelCtx != nil] *)
  w_ctxCanceled : bool;           (* [w.cancelCtx] was called *)
  w_done : bool;
  w_result : option connOrError;  (* the value in the channel *)
  w_closed : bool }.              (* the channel is closed *)

(** What a goroutine does next. [after] is the request whose dial goroutine runs
    [putOrCloseIdleConn], none when it is another goroutine that does. *)
Inductive goroutine :=
| GGetConn (w : Z)                                (* [getConn], before [queueForIdleConn] *)
| GQueueForDial (w : Z)
| GSelect (w : Z)                                 (* [getConn], in its [select] *)
| GCancel (w : Z)                                 (* [getConn], the deferred [w.cancel] *)
| GUse (pc : Z)                                   (* a round trip on [pc] *)
| GPut (pc : Z) (after : option Z)                (* [putOrCloseIdleConn] *)
| GPutLocked (pc : Z) (after : option Z)          (* [tryPutIdleConn], from [t.idleMu.Lock()] on *)
| GClose (pc : Z) (err : error) (after : option Z)
| GDialConnFor (w : Z)
| GDialing (w : Z)                                (* in [dialConn] *)
| GDialOk (w pc : Z)                              (* [dialConn] returned a connection *)
| GDialErr (w : Z) (err : error)
| GDec (key : connectMethodKey) (after : option Z) (* [decConnsPerHost] *)
| GDialEnd (w : Z)                                (* the end of the dial goroutine *)
| GCloseIfIdle (pc : Z)                           (* [closeConnIfStillIdle] *)
| GCloseAll (pcs : list Z).                       (* [CloseIdleConnections], after its first section *)

Record Transport := mkTransport {
  idleConn : gmap connectMethodKey (list Z);
  idleConnWait : gmap connectMethodKey (wantConnQueue Z);
  closeIdle : bool;
  idleLRU : list Z;               (* the most recent first *)
  connsPerHost : gmap connectMethodKey Z;
  connsPerHostWait : gmap connectMethodKey (wantConnQueue Z);
  dialsInProgress : wantConnQueue Z;
  conns : gmap Z persistConn;
  wants : gmap Z wantConn;
  goroutines : gmap Z goroutine;
  nextGo : Z }.

Definition new_Transport : Transport := mkTransport ∅ ∅ false [] ∅ ∅ empty_queue ∅ ∅ ∅ 0.

Definition set_idleConn v t := mkTransport v (idleConnWait t) (closeIdle t) (idleLRU t) (connsPerHost t) (connsPerHostWait t) (dialsInProgress t) (conns t) (wants t) (goroutines t) (nextGo t).
Definition set_idleConnWait v t := mkTransport (idleConn t) v (closeIdle t) (idleLRU t) (connsPerHost t) (connsPerHostWait t) (dialsInProgress t) (conns t) (wants t) (goroutines t) (nextGo t).
Definition set_closeIdle v t := mkTransport (idleConn t) (idleConnWait t) v (idleLRU t) (connsPerHost t) (connsPerHostWait t) (dialsInProgress t) (conns t) (wants t) (goroutines t) (nextGo t).
Definition set_idleLRU v t := mkTransport (idleConn t) (idleConnWait t) (closeIdle t) v (connsPerHost t) (connsPerHostWait t) (dialsInProgress t) (conns t) (wants t) (goroutines t) (nextGo t).
Definition set_connsPerHost v t := mkTransport (idleConn t) (idleConnWait t) (closeIdle t) (idleLRU t) v (connsPerHostWait t) (dialsInProgress t) (conns t) (wants t) (goroutines t) (nextGo t).
Definition set_connsPerHostWait v t := mkTransport (idleConn t) (idleConnWait t) (closeIdle t) (idleLRU t) (connsPerHost t) v (dialsInProgress t) (conns t) (wants t) (goroutines t) (nextGo t).
Definition set_dialsInProgress v t := mkTransport (idleConn t) (idleConnWait t) (closeIdle t) (idleLRU t) (connsPerHost t) (connsPerHostWait t) v (conns t) (wants t) (goroutines t) (nextGo t).
Definition set_conns v t := mkTransport (idleConn t) (idleConnWait t) (closeIdle t) (idleLRU t) (connsPerHost t) (connsPerHostWait t) (dialsInProgress t) v (wants t) (goroutines t) (nextGo t).
Definition set_wants v t := mkTransport (idleConn t) (idleConnWait t) (closeIdle t) (idleLRU t) (connsPerHost t) (connsPerHostWait t) (dialsInProgress t) (conns t) v (goroutines t) (nextGo t).
Definition set_goroutines v t := mkTransport (idleConn t) (idleConnWait t) (closeIdle t) (idleLRU t) (connsPerHost t) (connsPerHostWait t) (dialsInProgress t) (conns t) (wants t) v (nextGo t).
Definition set_nextGo v t := mkTransport (idleConn t) (idleConnWait t) (closeIdle t) (idleLRU t) (connsPerHost t) (connsPerHostWait t) (dialsInProgress t) (conns t) (wants t) (goroutines t) v.

(** ** Code that may panic *)
Definition P (A : Type) : Type := Transport -> result string (A * Transport).
Definition pret {A} (a : A) : P A := fun t => Ok (a, t).
Definition pbind {A B} (m : P A) (k : A -> P B) : P B :=
  fun t => match m t with Ok (a, t) => k a t | Err e => Err e end.
Definition ppanic {A} (msg : string) : P A := fun _ => Err msg.
Definition pget : P Transport := fun t => Ok (t, t).
Definition pmod (f : Transport -> Transport) : P unit := fun t => Ok (tt, f t).

Declare Scope pool_scope.
Delimit Scope pool_scope with pool.
Module PoolNotations.
Notation "x <- m ;; k" := (pbind m (fun x => k)) (at level 100, m at next level, k at level 200, right associativity) : pool_scope.
Notation "'let*' p ':=' m 'in' k" := (pbind m (fun x => match x with p => k end))
  (at level 10, p pattern, m at level 100, k at level 200) : pool_scope.
Notation "m ;; k" := (pbind m (fun _ => k)) (at level 100, k at level 200, right associativity) : pool_scope.
#[global] Open Scope pool_scope.
End PoolNotations.
Import PoolNotations.

Definition nil_pointer : string := "invalid memory address or nil pointer dereference".

Definition get_want (w : Z) : P wantConn :=
  t <- pget ;; match wants t !! w with Some wc => pret wc | None => ppanic nil_pointer end.
Definition put_want (w : Z) (wc : wantConn) : P unit := pmod (fun t => set_wants (<[w := wc]> (wants t)) t).
Definition get_conn (pc : Z) : P persistConn :=
  t <- pget ;; match conns t !! pc with Some p => pret p | None => ppanic nil_pointer end.
Definition put_conn (pc : Z) (p : persistConn) : P unit := pmod (fun t => set_conns (<[pc := p]> (conns t)) t).

(** The [go] statement. *)
Definition spawn (g : goroutine) : P unit :=
  pmod (fun t => set_nextGo (nextGo t + 1) (set_goroutines (<[nextGo t := g]> (goroutines t)) t)).

Definition deref (o : option Z) : P Z := match o with Some w => pret w | None => ppanic nil_pointer end.

(** ** [wantConn] *)
Definition waiting (w : Z) : P bool := wc <- get_want w ;; pret (negb (w_done wc)).

Definition tryDeliver (w : Z) (pc : option Z) (err : option error) (idleAt : Z) : P bool :=
  wc <- get_want w ;;
  if w_done wc then pret false else
  if Bool.eqb (negb (is_set pc)) (negb (is_set err))
  then ppanic "net/http: internal error: misuse of tryDeliver" else
  if w_closed wc then ppanic "send on closed channel" else
  if is_set (w_result wc) then ppanic "all goroutines are asleep - deadlock!" else
  put_want w (mkWantConn (w_key wc) false (w_cancelCtx wc) (w_ctxCanceled wc) true
                (Some (mkConnOrError pc err idleAt)) true) ;;
  pret true.

(** [cancel], up to the call of [putOrCloseIdleConn] with the connection returned. *)
Definition wantConn_cancel (w : Z) : P (option Z) :=
  wc <- get_want w ;;
  let done_ wc r := mkWantConn (w_key wc) false (w_cancelCtx wc) (w_ctxCanceled wc) true r true in
  if w_done wc then
    match w_result wc with
    | Some r => put_want w (done_ wc None) ;; pret (ce_pc r)
    | None => if w_closed wc then put_want w (done_ wc None) ;; pret None
              else ppanic "all goroutines are asleep - deadlock!"
    end
  else if w_closed wc then ppanic "close of closed channel"
  else put_want w (done_ wc (w_result wc)) ;; pret None.

(** The two clean-ups of a queue; the fuel is the length of the queue. *)
Fixpoint cleanFrontNotWaiting (fuel : nat) (q : wantConnQueue Z) : P (wantConnQueue Z) :=
  match fuel with
  | O => pret q
  | S fuel =>
      match peekFront q with
      | None => pret q
      | Some w =>
          b <- waiting w ;;
          if b then pret q else cleanFrontNotWaiting fuel (snd (popFront q))
      end
  end.
Fixpoint cleanFrontCanceled (fuel : nat) (q : wantConnQueue Z) : P (wantConnQueue Z) :=
  match fuel with
  | O => pret q
  | S fuel =>
      match peekFront q with
      | None => pret q
      | Some w =>
          wc <- get_want w ;;
          if w_cancelCtx wc then pret q else cleanFrontCanceled fuel (snd (popFront q))
      end
  end.
Definition queue_fuel (q : wantConnQueue Z) : nat := Z.to_nat (queue_len q).

(** ** [connLRU] *)
Definition connLRU_add (pc : Z) : P unit :=
  t <- pget ;;
  if bool_decide (pc ∈ idleLRU t) then ppanic "persistConn was already in LRU"
  else pmod (set_idleLRU (pc :: idleLRU t)).
Definition connLRU_removeOldest : P Z :=
  t <- pget ;;
  match last (idleLRU t) with
  | None => ppanic nil_pointer
  | Some pc => pmod (set_idleLRU (take (pred (length (idleLRU t))) (idleLRU t))) ;; pret pc
  end.
Definition connLRU_remove (pc : Z) : P unit :=
  pmod (fun t => set_idleLRU (filter (fun x => x <> pc) (idleLRU t)) t).

Section Pool.
Context (o : Options).

(** ** Dialing *)
Definition startDialConnForLocked (w : Z) : P unit :=
  t <- pget ;;
  q <- cleanFrontCanceled (queue_fuel (dialsInProgress t)) (dialsInProgress t) ;;
  pmod (set_dialsInProgress (pushBack w q)) ;;
  spawn (GDialConnFor w).

Definition queueForDial (w : Z) : P unit :=
  if MaxConnsPerHost o <=? 0 then startDialConnForLocked w else
  wc <- get_want w ;;
  t <- pget ;;
  let n := default 0 (connsPerHost t !! w_key wc) in
  if n <? MaxConnsPerHost o then
    pmod (set_connsPerHost (<[w_key wc := n + 1]> (connsPerHost t))) ;;
    startDialConnForLocked w
  else
    let q := default empty_queue (connsPerHostWait t !! w_key wc) in
    q <- cleanFrontNotWaiting (queue_fuel q) q ;;
    pmod (fun t => set_connsPerHostWait (<[w_key wc := pushBack w q]> (connsPerHostWait t)) t).

(** The loop of [decConnsPerHost] over the requests waiting to dial. *)
Fixpoint handToWaiter (fuel : nat) (q : wantConnQueue Z) : P (bool * wantConnQueue Z) :=
  if 0 <? queue_len q then
    match fuel with
    | O => ppanic "out of fuel"
    | S fuel =>
        let '(w, q) := popFront q in
        w <- deref w ;;
        b <- waiting w ;;
        if b then startDialConnForLocked w ;; pret (true, q) else handToWaiter fuel q
    end
  else pret (false, q).

Definition decConnsPerHost (key : connectMethodKey) : P unit :=
  if MaxConnsPerHost o <=? 0 then pret tt else
  t <- pget ;;
  let n := default 0 (connsPerHost t !! key) in
  if n =? 0 then ppanic "net/http: internal error: connCount underflow" else
  let q := default empty_queue (connsPerHostWait t !! key) in
  done <- (if 0 <? queue_len q then
             let* (done, q) := handToWaiter (queue_fuel q) q in
             pmod (fun t => set_connsPerHostWait
               (if queue_len q =? 0 then delete key (connsPerHostWait t)
                else <[key := q]> (connsPerHostWait t)) t) ;;
             pret done
           else pret false) ;;
  if done then pret tt else
  pmod (fun t => set_connsPerHost
    (if n - 1 =? 0 then delete key (connsPerHost t) else <[key := n - 1]> (connsPerHost t)) t).

(** ** Closing *)
Definition isBroken (pc : Z) : P bool := p <- get_conn pc ;; pret (is_set (pc_closed p)).

Definition persistConn_close (pc : Z) (err : error) : P unit :=
  p <- get_conn pc ;;
  if is_set (pc_closed p) then pret tt else
  put_conn pc (mkPersistConn (pc_cacheKey p) (pc_alt p) (Some err) (pc_reused p) (pc_idleAt p) (pc_idleTimer p)) ;;
  decConnsPerHost (pc_cacheKey p).

(** The slide down of [removeIdleConnLocked]: the list without its first [pc]. *)
Fixpoint remove_first (pc : Z) (l : list Z) : list Z :=
  match l with
  | [] => []
  | x :: l => if x =? pc then l else x :: remove_first pc l
  end.

Definition removeIdleConnLocked (pc : Z) : P bool :=
  p <- get_conn pc ;;
  put_conn pc (mkPersistConn (pc_cacheKey p) (pc_alt p) (pc_closed p) (pc_reused p) (pc_idleAt p)
                 (match pc_idleTimer p with Some _ => Some false | None => None end)) ;;
  connLRU_remove pc ;;
  t <- pget ;;
  match default [] (idleConn t !! pc_cacheKey p) with
  | [] => pret false
  | [x] => if x =? pc then pmod (set_idleConn (delete (pc_cacheKey p) (idleConn t))) ;; pret true else pret false
  | pconns =>
      if bool_decide (pc ∈ pconns)
      then pmod (set_idleConn (<[pc_cacheKey p := remove_first pc pconns]> (idleConn t))) ;; pret true
      else pret false
  end.

Definition closeConnIfStillIdle (pc : Z) : P unit :=
  t <- pget ;;
  if negb (bool_decide (pc ∈ idleLRU t)) then pret tt else
  removeIdleConnLocked pc ;;
  persistConn_close pc errIdleConnTimeout.

(** ** Putting a connection back *)
Definition maxIdleConnsPerHost : Z :=
  if MaxIdleConnsPerHost o =? 0 then defaultMaxIdleConnsPerHost else MaxIdleConnsPerHost o.

(** [tryPutIdleConn] before [t.idleMu.Lock()]. *)
Definition tryPutIdleConn_check (pc : Z) : P (option error) :=
  if DisableKeepAlives o || (MaxIdleConnsPerHost o <? 0) then pret (Some errKeepAlivesDisabled) else
  b <- isBroken pc ;;
  if b then pret (Some errConnBroken) else
  p <- get_conn pc ;;
  put_conn pc (mkPersistConn (pc_cacheKey p) (pc_alt p) (pc_closed p) true (pc_idleAt p) (pc_idleTimer p)) ;;
  pret None.

(** Its two loops over the waiting requests. *)
Fixpoint deliverOne (fuel : nat) (pc : Z) (q : wantConnQueue Z) : P (bool * wantConnQueue Z) :=
  if 0 <? queue_len q then
    match fuel with
    | O => ppanic "out of fuel"
    | S fuel =>
        let '(w, q) := popFront q in
        w <- deref w ;;
        b <- tryDeliver w (Some pc) None 0 ;;
        if b then pret (true, q) else deliverOne fuel pc q
    end
  else pret (false, q).
Fixpoint deliverAll (fuel : nat) (pc : Z) (q : wantConnQueue Z) : P (wantConnQueue Z) :=
  if 0 <? queue_len q then
    match fuel with
    | O => ppanic "out of fuel"
    | S fuel =>
        let '(w, q) := popFront q in
        w <- deref w ;;
        tryDeliver w (Some pc) None 0 ;;
        deliverAll fuel pc q
    end
  else pret q.

Definition deliverToWaiters (pc : Z) (p : persistConn) : P bool :=
  t <- pget ;;
  match idleConnWait t !! pc_cacheKey p with
  | None => pret false
  | Some q =>
      let* (done, q) := (if negb (pc_alt p) then deliverOne (queue_fuel q) pc q
                         else q <- deliverAll (queue_fuel q) pc q ;; pret (false, q)) in
      pmod (fun t => set_idleConnWait
        (if queue_len q =? 0 then delete (pc_cacheKey p) (idleConnWait t)
         else <[pc_cacheKey p := q]> (idleConnWait t)) t) ;;
      pret done
  end.

(** Appending [pc] to the idle connections of its key. *)
Definition addIdleConn (now pc : Z) : P (option error) :=
  p <- get_conn pc ;;
  t <- pget ;;
  let idles := default [] (idleConn t !! pc_cacheKey p) in
  if maxIdleConnsPerHost <=? len idles then pret (Some errTooManyIdleHost) else
  if bool_decide (pc ∈ idles) then ppanic "dup idle pconn in freelist" else
  pmod (fun t => set_idleConn (<[pc_cacheKey p := idles ++ [pc]]> (idleConn t)) t) ;;
  connLRU_add pc ;;
  t <- pget ;;
  (if negb (MaxIdleConns o =? 0) && (MaxIdleConns o <? len (idleLRU t)) then
     oldest <- connLRU_removeOldest ;;
     persistConn_close oldest errTooManyIdle ;;
     removeIdleConnLocked oldest ;; pret tt
   else pret tt) ;;
  p <- get_conn pc ;;
  put_conn pc (mkPersistConn (pc_cacheKey p) (pc_alt p) (pc_closed p) (pc_reused p) now
                 (if (0 <? IdleConnTimeout o) && negb (pc_alt p) then Some true else pc_idleTimer p)) ;;
  pret None.

(** [tryPutIdleConn] from [t.idleMu.Lock()] on. *)
Definition tryPutIdleConn_locked (now pc : Z) : P (option error) :=
  p <- get_conn pc ;;
  t <- pget ;;
  if pc_alt p && bool_decide (pc ∈ idleLRU t) then pret None else
  delivered <- deliverToWaiters pc p ;;
  if delivered then pret None else
  t <- pget ;;
  if closeIdle t then pret (Some errCloseIdle) else
  addIdleConn now pc.

(** ** Asking for a connection *)
(** The loop over the idle connections, the most recently used (last) first: the
    list that remains, reversed, and what was delivered when it stopped. *)
Fixpoint pickIdle (now w : Z) (rev_list : list Z) : P (option bool * list Z) :=
  match rev_list with
  | [] => pret (None, [])
  | pc :: rest =>
      p <- get_conn pc ;;
      let tooOld := (0 <? IdleConnTimeout o) && (pc_idleAt p <? now - IdleConnTimeout o) in
      (if tooOld then spawn (GCloseIfIdle pc) else pret tt) ;;
      if is_set (pc_closed p) || tooOld then pickIdle now w rest else
      delivered <- tryDeliver w (Some pc) None (pc_idleAt p) ;;
      if delivered then
        if pc_alt p then pret (Some true, rev_list)
        else connLRU_remove pc ;; pret (Some true, rest)
      else pret (Some false, rev_list)
  end.

Definition queueForIdleConn (now w : Z) : P bool :=
  if DisableKeepAlives o then pret false else
  pmod (set_closeIdle false) ;;
  wc <- get_want w ;;
  t <- pget ;;
  stopped <- (match idleConn t !! w_key wc with
              | None => pret None
              | Some l =>
                  let* (stop, rest) := pickIdle now w (reverse l) in
                  let l := reverse rest in
                  pmod (fun t => set_idleConn (match l with [] => delete (w_key wc) (idleConn t)
                                               | _ => <[w_key wc := l]> (idleConn t) end) t) ;;
                  pret stop
              end) ;;
  match stopped with
  | Some delivered => pret delivered
  | None =>
      t <- pget ;;
      let q := default empty_queue (idleConnWait t !! w_key wc) in
      q <- cleanFrontNotWaiting (queue_fuel q) q ;;
      pmod (fun t => set_idleConnWait (<[w_key wc := pushBack w q]> (idleConnWait t)) t) ;;
      pret false
  end.

(** [CloseIdleConnections] up to its first unlock: the connections to close. *)
Definition takeIdleConns : P (list Z) :=
  t <- pget ;;
  pmod (fun t => set_idleLRU [] (set_closeIdle true (set_idleConn ∅ t))) ;;
  pret (concat (snd <$> map_to_list (idleConn t))).

(** Its loop over the dials in progress. *)
Fixpoint cancelDials (ws : list (option Z)) : P unit :=
  match ws with
  | [] => pret tt
  | w :: ws =>
      w <- deref w ;;
      wc <- get_want w ;;
      (if w_cancelCtx wc && w_done wc
       then put_want w (mkWantConn (w_key wc) (w_ctx wc) true true (w_done wc) (w_result wc) (w_closed wc))
       else pret tt) ;;
      cancelDials ws
  end.

(** [cancelCtx] is cleared at the end of the dial goroutine. *)
Definition clearCancelCtx (w : Z) : P unit :=
  wc <- get_want w ;;
  put_want w (mkWantConn (w_key wc) (w_ctx wc) false (w_ctxCanceled wc) (w_done wc) (w_result wc) (w_closed wc)).

(** ** Goroutines *)
(** What the environment decides at a step: the time, the outcome of a dial, the
    case taken by a [select], the outcome of a round trip. *)
Inductive choice :=
| CStep (now : Z)
| CDialOk (pc : Z) (alt : bool)
| CDialErr (err : error)
| CResult                       (* receive from [w.result] *)
| CCtxDone                      (* the request is canceled *)
| CPutBack                      (* HTTP/1: the read loop reuses the connection *)
| CDrop                         (* the round trip ends without giving it back *)
| CNoCachedConn.                (* HTTP/2: [IsNoCachedConnError(err)] *)

Section Go.
Context (g : Z).
Definition goto (c : goroutine) : P unit := pmod (fun t => set_goroutines (<[g := c]> (goroutines t)) t).
Definition exit_go : P unit := pmod (fun t => set_goroutines (delete g (goroutines t)) t).
(** The end of [putOrCloseIdleConn]: a dial goroutine goes on to its end. *)
Definition resume (after : option Z) : P unit :=
  match after with Some w => goto (GDialEnd w) | None => exit_go end.

(** The next step of goroutine [g], which runs [c]; [None] when the choice does
    not apply to it. First the steps of [getConn]. *)
Definition getConn_go (c : goroutine) (ch : choice) : option (P unit) :=
  match c, ch with
  | GGetConn w, CStep now => Some (
      delivered <- queueForIdleConn now w ;;
      goto (if delivered then GSelect w else GQueueForDial w))
  | GQueueForDial w, CStep _ => Some (queueForDial w ;; goto (GSelect w))
  | GSelect w, CResult => Some (
      wc <- get_want w ;;
      match w_result wc with
      | Some r =>
          put_want w (mkWantConn (w_key wc) (w_ctx wc) (w_cancelCtx wc) (w_ctxCanceled wc) (w_done wc) None (w_closed wc)) ;;
          match ce_pc r, ce_err r with
          | Some pc, None => goto (GUse pc)
          | _, Some _ => goto (GCancel w)
          | None, None => ppanic nil_pointer
          end
      | None => if w_closed wc then ppanic nil_pointer else pret tt
      end)
  | GSelect w, CCtxDone => Some (goto (GCancel w))
  | GCancel w, CStep _ => Some (
      pc <- wantConn_cancel w ;;
      match pc with Some pc => goto (GPut pc None) | None => exit_go end)
  | _, _ => None
  end.
(** The end of a round trip on the connection. *)
Definition roundTrip_go (pc : Z) (ch : choice) : option (P unit) :=
  match ch with
  | CPutBack => Some (p <- get_conn pc ;; if pc_alt p then exit_go else goto (GPut pc None))
  | CDrop => Some exit_go
  | CNoCachedConn => Some (
      p <- get_conn pc ;;
      if negb (pc_alt p) then exit_go else
      removed <- removeIdleConnLocked pc ;;
      if removed then goto (GDec (pc_cacheKey p) None) else exit_go)
  | _ => None
  end.
(** [putOrCloseIdleConn]. *)
Definition putOrCloseIdleConn_go (c : goroutine) (ch : choice) : option (P unit) :=
  match c, ch with
  | GPut pc after, CStep _ => Some (
      err <- tryPutIdleConn_check pc ;;
      match err with Some e => goto (GClose pc e after) | None => goto (GPutLocked pc after) end)
  | GPutLocked pc after, CStep now => Some (
      err <- tryPutIdleConn_locked now pc ;;
      match err with Some e => goto (GClose pc e after) | None => resume after end)
  | GClose pc e after, CStep _ => Some (persistConn_close pc e ;; resume after)
  | _, _ => None
  end.
(** The goroutine of [startDialConnForLocked] and its [dialConnFor]. *)
Definition dialConnFor_go (c : goroutine) (ch : choice) : option (P unit) :=
  match c, ch with
  | GDialConnFor w, CStep _ => Some (
      wc <- get_want w ;;
      if w_ctx wc then goto (GDialing w) else goto (GDec (w_key wc) (Some w)))
  | GDialing w, CDialOk pc alt => Some (
      wc <- get_want w ;;
      put_conn pc (mkPersistConn (w_key wc) alt None false 0 None) ;;
      goto (GDialOk w pc))
  | GDialing w, CDialErr err => Some (goto (GDialErr w err))
  | GDialOk w pc, CStep _ => Some (
      p <- get_conn pc ;;
      delivered <- tryDeliver w (Some pc) None 0 ;;
      if negb delivered || pc_alt p then goto (GPut pc (Some w)) else goto (GDialEnd w))
  | GDialErr w err, CStep _ => Some (
      wc <- get_want w ;;
      tryDeliver w None (Some err) 0 ;;
      goto (GDec (w_key wc) (Some w)))
  | GDec key after, CStep _ => Some (decConnsPerHost key ;; resume after)
  | GDialEnd w, CStep _ => Some (clearCancelCtx w ;; exit_go)
  | _, _ => None
  end.
(** The rest of [CloseIdleConnections]. *)
Definition closeIdle_go (pcs : list Z) (ch : choice) : option (P unit) :=
  match pcs, ch with
  | pc :: pcs, CStep _ => Some (persistConn_close pc errCloseIdleConns ;; goto (GCloseAll pcs))
  | [], CStep _ => Some (t <- pget ;; cancelDials (queue_all (dialsInProgress t)) ;; exit_go)
  | _, _ => None
  end.

Definition run_go (c : goroutine) (ch : choice) : option (P unit) :=
  match c with
  | GGetConn _ | GQueueForDial _ | GSelect _ | GCancel _ => getConn_go c ch
  | GUse pc => roundTrip_go pc ch
  | GPut _ _ | GPutLocked _ _ | GClose _ _ _ => putOrCloseIdleConn_go c ch
  | GDialConnFor _ | GDialing _ | GDialOk _ _ | GDialErr _ _ | GDec _ _ | GDialEnd _ => dialConnFor_go c ch
  | GCloseIfIdle pc => match ch with CStep _ => Some (closeConnIfStillIdle pc ;; exit_go) | _ => None end
  | GCloseAll pcs => closeIdle_go pcs ch
  end.
End Go.

(** ** The system *)
Inductive event :=
| EGetConn (w : Z) (key : connectMethodKey)   (* a request calls [getConn] *)
| ERun (g : Z) (ch : choice)                  (* a step of a goroutine *)
| EClose (pc : Z) (err : error)               (* the loops of [pc], or its round trip, close it *)
| ERemoveIdle (pc : Z)                        (* the end of its read loop *)
| ETimer (pc : Z)                             (* its idle timer fires *)
| ECloseIdleConnections.

(** [None]: the event is not possible in this state. *)
Definition exec (e : event) (t : Transport) : option (result string (unit * Transport)) :=
  match e with
  | EGetConn w key =>
      if is_set (wants t !! w) then None else
      Some ((put_want w (mkWantConn key true true false false None false) ;; spawn (GGetConn w)) t)
  | ERun g ch =>
      match goroutines t !! g with
      | None => None
      | Some c =>
          if (match ch with CDialOk pc _ => is_set (conns t !! pc) | _ => false end) then None else
          option_map (fun m : P unit => m t) (run_go g c ch)
      end
  | EClose pc err =>
      match conns t !! pc with
      | Some p => if pc_alt p then None else Some (persistConn_close pc err t)
      | None => None
      end
  | ERemoveIdle pc =>
      match conns t !! pc with
      | Some p => if negb (pc_alt p) && is_set (pc_closed p)
                  then Some ((removeIdleConnLocked pc ;; pret tt) t) else None
      | None => None
      end
  | ETimer pc =>
      match conns t !! pc with
      | Some p => match pc_idleTimer p with
                  | Some true => Some ((put_conn pc (mkPersistConn (pc_cacheKey p) (pc_alt p) (pc_closed p)
                      (pc_reused p) (pc_idleAt p) (Some false)) ;; spawn (GCloseIfIdle pc)) t)
                  | _ => None
                  end
      | None => None
      end
  | ECloseIdleConnections => Some ((pcs <- takeIdleConns ;; spawn (GCloseAll pcs)) t)
  end.

Fixpoint exec_all (es : list event) (t : Transport) : option (result string Transport) :=
  match es with
  | [] => Some (Ok t)
  | e :: es =>
      match exec e t with
      | Some (Ok (_, t)) => exec_all es t
      | Some (Err msg) => Some (Err msg)
      | None => None
      end
  end.

(** [pc.alt] is the HTTP/2 transport, whose [RoundTrip] asks its own pool to dial
    on a miss: it does not return [ErrNoCachedConn], so [CNoCachedConn], the
    branch of [roundTrip] for that error, does not occur. *)
Definition happens (e : event) : Prop := forall g, e <> ERun g CNoCachedConn.

Inductive reachable : Transport -> Prop :=
| reach_new : reachable new_Transport
| reach_step e t t' : reachable t -> happens e -> exec e t = Some (Ok (tt, t')) -> reachable t'.
End Pool.
