(* ===== verification/H1PoolInv.v ===== *)
(** * The invariant of the connection pool

    Three things are tracked. Who has an HTTP/1 connection: the pool (the LRU
    list), the result channel of a request, or one goroutine, never two of them.
    What is counted for a host: the dials in progress and the open connections.
    Where a waiting request is found: in the queue of idle connections, and
    dialing or in the queue of dials. The invariant is stated for the time a
    goroutine [g] runs its step [me]: it may hold one connection [cur] and owe one unit [tok]
    of the count of a host. *)

From S2P Require Import Prelude.
From S2P Require Import H2Errors.
From S2P Require Import WantQueue.
From S2P Require Import H1Pool.
Import PoolNotations.

Implicit Types (t : Transport) (k : connectMethodKey) (w pc g : Z) (q : wantConnQueue Z).

(** ** Definitions *)
Definition wkey t w : option connectMethodKey := w_key <$> wants t !! w.
Definition ckey t pc : option connectMethodKey := pc_cacheKey <$> conns t !! pc.
Definition isdone t w : Prop := exists wc, wants t !! w = Some wc /\ w_done wc = true.
Definition is_h1 t pc : Prop := exists p, conns t !! pc = Some p /\ pc_alt p = false.

(** The connection a goroutine has to itself, and the request it dials for. *)
Definition go_pc (c : goroutine) : option Z :=
  match c with
  | GUse pc | GPut pc _ | GPutLocked pc _ | GDialOk _ pc => Some pc
  | _ => None
  end.
Definition go_dial (c : goroutine) : option Z :=
  match c with
  | GDialConnFor w | GDialing w | GDialOk w _ | GDialErr w _ => Some w
  | _ => None
  end.
(** The request for a connection a goroutine runs. *)
Definition go_req (c : goroutine) : option Z :=
  match c with
  | GGetConn w | GQueueForDial w | GSelect w | GCancel w => Some w
  | _ => None
  end.
(** The host whose count includes the goroutine. *)
Definition go_tok t (c : goroutine) : option connectMethodKey :=
  match c with
  | GDialConnFor w | GDialing w | GDialErr w _ => wkey t w
  | GDec k _ => Some k
  | _ => None
  end.

Definition after_ok t (after : option Z) : Prop := match after with Some w => is_Some (wants t !! w) | None => True end.
Definition go_wf t (c : goroutine) : Prop :=
  match c with
  | GGetConn w | GQueueForDial w | GSelect w | GCancel w
  | GDialConnFor w | GDialing w | GDialErr w _ | GDialEnd w => is_Some (wants t !! w)
  | GUse pc | GCloseIfIdle pc => is_Some (conns t !! pc)
  | GPut pc a | GPutLocked pc a | GClose pc _ a => is_Some (conns t !! pc) /\ after_ok t a
  | GDialOk w pc => exists k, wkey t w = Some k /\ ckey t pc = Some k
  | GDec _ a => after_ok t a
  | GCloseAll pcs => Forall (fun pc => is_Some (conns t !! pc)) pcs
  end.

Definition result_pc (wc : wantConn) : option Z := r ← w_result wc; ce_pc r.

Inductive loc := LCur | LLRU | LWant (w : Z) | LGo (g : Z).
Definition holds g (cur : option Z) t pc (l : loc) : Prop :=
  match l with
  | LCur => cur = Some pc
  | LLRU => pc ∈ idleLRU t
  | LWant w => exists wc, wants t !! w = Some wc /\ result_pc wc = Some pc
  | LGo h => h <> g /\ exists c, goroutines t !! h = Some c /\ go_pc c = Some pc
  end.

Definition excl g cur t : Prop :=
  forall pc l l', is_h1 t pc -> holds g cur t pc l -> holds g cur t pc l' -> l = l'.

Definition want_ok t (wc : wantConn) : Prop :=
  w_closed wc = w_done wc /\ w_ctx wc = negb (w_done wc)
  /\ (forall r, w_result wc = Some r -> w_done wc = true
       /\ match ce_pc r with
          | Some pc => ce_err r = None /\ ckey t pc = Some (w_key wc)
          | None => is_Some (ce_err r)
          end).

Definition waitq_ok t k q : Prop := queue_ok q /\ Forall (fun w => wkey t w = Some k) (queue_items q).
Definition queued (m : gmap connectMethodKey (wantConnQueue Z)) w k : Prop :=
  exists q, m !! k = Some q /\ w ∈ queue_items q.

Create HintDb pool.

Section Inv.
Context (o : Options).

(** The dial a waiting request counts on: its own, or, when the host is at its
    limit, a place in the queue. *)
Definition hope t w k : Prop :=
  (exists h c, goroutines t !! h = Some c /\ go_dial c = Some w)
  \/ (0 < MaxConnsPerHost o /\ queued (connsPerHostWait t) w k).

Definition select_ok t (c : goroutine) : Prop :=
  forall w wc, c = GSelect w \/ c = GQueueForDial w -> wants t !! w = Some wc -> w_done wc = false ->
    (DisableKeepAlives o = false -> queued (idleConnWait t) w (w_key wc)) /\ (c = GSelect w -> hope t w (w_key wc)).

Definition go_tokens g t k : Z := count (fun c => bool_decide (go_tok t c = Some k)) (delete g (goroutines t)).
Definition conn_tokens t k : Z :=
  count (fun p => negb (is_set (pc_closed p)) && bool_decide (pc_cacheKey p = k)) (conns t).
Definition tokens g (tok : option connectMethodKey) t k : Z :=
  go_tokens g t k + conn_tokens t k + b2z (bool_decide (tok = Some k)).

Definition count_ok g tok t k : Prop :=
  connsPerHost t !! k <> Some 0
  /\ default 0 (connsPerHost t !! k) = tokens g tok t k
  /\ tokens g tok t k <= MaxConnsPerHost o
  /\ (tokens g tok t k < MaxConnsPerHost o ->
      forall q, connsPerHostWait t !! k = Some q -> Forall (isdone t) (queue_items q)).

Record InvB g (me : option goroutine) (cur : option Z) (tok : option connectMethodKey) t : Prop := {
  I_self : goroutines t !! g = me;
  I_want : forall w wc, wants t !! w = Some wc -> want_ok t wc;
  I_waitq : forall k q, idleConnWait t !! k = Some q -> waitq_ok t k q;
  I_dialq : forall k q, connsPerHostWait t !! k = Some q -> waitq_ok t k q;
  I_dials : queue_ok (dialsInProgress t) /\ Forall (fun w => is_Some (wants t !! w)) (queue_items (dialsInProgress t));
  I_go : forall h c, goroutines t !! h = Some c -> 0 <= h < nextGo t /\ go_wf t c;
  I_next : 0 <= nextGo t /\ g < nextGo t;
  I_cur : forall pc, cur = Some pc -> is_Some (conns t !! pc);
  I_lru_conns : forall pc, pc ∈ idleLRU t -> is_Some (conns t !! pc);
  I_excl : excl g cur t;
  I_req : forall h c w wc, h <> g \/ c <> GSelect w -> goroutines t !! h = Some c -> go_req c = Some w -> c <> GCancel w ->
    wants t !! w = Some wc -> w_done wc = true -> is_Some (w_result wc);
  I_req_one : forall h h' c c' w, goroutines t !! h = Some c -> goroutines t !! h' = Some c' ->
    go_req c = Some w -> go_req c' = Some w -> h = h';
  I_sel : forall h c, h <> g -> goroutines t !! h = Some c -> select_ok t c;
  I_count : 0 < MaxConnsPerHost o -> forall k, count_ok g tok t k }.

Definition idle_list t k (l : list Z) : Prop :=
  l <> [] /\ NoDup l /\ len l <= maxIdleConnsPerHost o
  /\ Forall (fun pc => pc ∈ idleLRU t /\ ckey t pc = Some k) l.

Record InvA t : Prop := {
  I_lru : NoDup (idleLRU t);
  I_idle : forall k l, idleConn t !! k = Some l -> idle_list t k l;
  I_max : MaxIdleConns o <> 0 -> len (idleLRU t) <= Z.max 0 (MaxIdleConns o);
  I_nowait : forall k l q, idleConn t !! k = Some l -> idleConnWait t !! k = Some q -> Forall (isdone t) (queue_items q) }.

(** Between steps no goroutine is running. *)
Definition Sys t : Prop := InvA t /\ InvB (-1) None None None t.

(** ** Objects keep their identity *)
Definition ext t t' : Prop :=
  (forall w wc, wants t !! w = Some wc ->
     exists wc', wants t' !! w = Some wc' /\ w_key wc' = w_key wc /\ (w_done wc = true -> w_done wc' = true))
  /\ (forall pc p, conns t !! pc = Some p ->
     exists p', conns t' !! pc = Some p' /\ pc_cacheKey p' = pc_cacheKey p /\ pc_alt p' = pc_alt p).

Lemma ext_refl t : ext t t. Proof. split; eauto. Qed.
Lemma ext_trans t1 t2 t3 : ext t1 t2 -> ext t2 t3 -> ext t1 t3.
Proof.
  intros [Hw Hc] [Hw' Hc']. split.
  - intros w wc Hl. destruct (Hw w wc Hl) as (wc' & Hl' & Hk & Hd). destruct (Hw' w wc' Hl') as (wc2 & Hl2 & Hk2 & Hd2).
    exists wc2. split; [done|]. split; [congruence|auto].
  - intros pc p Hl. destruct (Hc pc p Hl) as (p' & Hl' & Hk & Hd). destruct (Hc' pc p' Hl') as (p2 & Hl2 & Hk2 & Hd2).
    exists p2. split; [done|]. split; congruence.
Qed.
Lemma ext_wkey t t' w k : ext t t' -> wkey t w = Some k -> wkey t' w = Some k.
Proof.
  intros [H _] Hk. unfold wkey in *. destruct (wants t !! w) as [wc|] eqn:E; [|done]. cbn in Hk.
  destruct (H w wc E) as (wc' & -> & E' & _). cbn. congruence.
Qed.
Lemma ext_ckey t t' pc k : ext t t' -> ckey t pc = Some k -> ckey t' pc = Some k.
Proof.
  intros [_ H] Hk. unfold ckey in *. destruct (conns t !! pc) as [p|] eqn:E; [|done]. cbn in Hk.
  destruct (H pc p E) as (p' & -> & E' & _). cbn. congruence.
Qed.
Lemma ext_want t t' w : ext t t' -> is_Some (wants t !! w) -> is_Some (wants t' !! w).
Proof. intros [H _] [wc Hl]. destruct (H w wc Hl) as (wc' & -> & _). eauto. Qed.
Lemma ext_conn t t' pc : ext t t' -> is_Some (conns t !! pc) -> is_Some (conns t' !! pc).
Proof. intros [_ H] [p Hl]. destruct (H pc p Hl) as (p' & -> & _). eauto. Qed.
Lemma ext_done t t' w : ext t t' -> isdone t w -> isdone t' w.
Proof. intros [H _] (wc & Hl & Hd). destruct (H w wc Hl) as (wc' & Hl' & _ & Hd'). exists wc'. auto. Qed.
Lemma ext_h1 t t' pc : ext t t' -> is_Some (conns t !! pc) -> is_h1 t' pc -> is_h1 t pc.
Proof.
  intros [_ H] [p Hl] (p' & Hl' & Ha). destruct (H pc p Hl) as (p2 & Hl2 & _ & Ha2). exists p. split; [done|]. congruence.
Qed.
Lemma ext_go_wf t t' c : ext t t' -> go_wf t c -> go_wf t' c.
Proof.
  intros He. pose proof (fun w => ext_want t t' w He) as Hw. pose proof (fun pc => ext_conn t t' pc He) as Hc.
  assert (forall a, after_ok t a -> after_ok t' a) as Ha by (intros [w|]; [apply Hw|done]).
  destruct c; cbn; auto.
  1-3: intros [? ?]; auto.
  - intros (k & ? & ?). exists k. eauto using ext_wkey, ext_ckey.
  - intros Hf. eapply Forall_impl; [exact Hf|]. auto.
Qed.
Lemma ext_go_tok t t' c : ext t t' -> go_wf t c -> go_tok t' c = go_tok t c.
Proof.
  intros He Hwf. destruct c; cbn in *; try done; destruct Hwf as [wc Hl];
    destruct (proj1 He w wc Hl) as (wc' & Hl' & Hk & _); unfold wkey; rewrite Hl, Hl'; cbn; congruence.
Qed.
Lemma ext_waitq t t' k q : ext t t' -> waitq_ok t k q -> waitq_ok t' k q.
Proof. intros He [Hq Hf]. split; [done|]. eapply Forall_impl; [exact Hf|]. intros w. by apply ext_wkey. Qed.
Lemma ext_all_done t t' l : ext t t' -> Forall (isdone t) l -> Forall (isdone t') l.
Proof. intros He Hf. eapply Forall_impl; [exact Hf|]. intros w. by apply ext_done. Qed.
Lemma ext_want_ok t t' wc : ext t t' -> want_ok t wc -> want_ok t' wc.
Proof.
  intros He (H1 & H2 & H3). split; [done|]. split; [done|]. intros r Hr. destruct (H3 r Hr) as [Hd Hp]. split; [done|].
  destruct (ce_pc r); [|done]. destruct Hp. eauto using ext_ckey.
Qed.
#[local] Hint Resolve ext_refl ext_wkey ext_ckey ext_want ext_conn ext_done ext_go_wf ext_waitq ext_all_done ext_want_ok : pool.

(** ** Whoever has a connection *)
Lemma holds_exists g me cur tok t pc l : InvB g me cur tok t -> holds g cur t pc l -> is_Some (conns t !! pc).
Proof.
  intros HB. destruct l as [| |w|h]; cbn.
  - apply (I_cur _ _ _ _ _ HB).
  - apply (I_lru_conns _ _ _ _ _ HB).
  - intros (wc & Hl & Hr). destruct (I_want _ _ _ _ _ HB w wc Hl) as (_ & _ & H). unfold result_pc in Hr.
    destruct (w_result wc) as [r|]; [|done]. cbn in Hr. destruct (H r eq_refl) as [_ Hp]. rewrite Hr in Hp.
    destruct Hp as [_ Hk]. unfold ckey in Hk. destruct (conns t !! pc); [eauto|done].
  - intros (_ & c & Hl & Hc). destruct (I_go _ _ _ _ _ HB h c Hl) as [_ Hwf].
    destruct c; cbn in Hc; simplify_eq; cbn in Hwf; try tauto.
    destruct Hwf as (k & _ & Hk). unfold ckey in Hk. destruct (conns t !! pc); [eauto|done].
Qed.

(** Exclusion is kept when every holder of the new state, moved by [f], is one of
    the old state and [f] keeps holders apart. *)
Lemma excl_map (f : Z -> loc -> loc) g g' cur cur' t t' :
  (forall pc l, holds g' cur' t' pc l -> is_h1 t' pc -> is_h1 t pc /\ holds g cur t pc (f pc l)) ->
  (forall pc l l', holds g' cur' t' pc l -> holds g' cur' t' pc l' -> f pc l = f pc l' -> l = l') ->
  excl g cur t -> excl g' cur' t'.
Proof.
  intros Hf Hinj He pc l l' Hh Hl Hl'. apply (Hinj pc); [done..|].
  destruct (Hf pc l Hl Hh) as [Hh1 H1]. destruct (Hf pc l' Hl' Hh) as [_ H2]. by apply (He pc).
Qed.
Lemma excl_sub g cur cur' t t' :
  (forall pc l, holds g cur' t' pc l -> is_h1 t' pc -> is_h1 t pc /\ holds g cur t pc l) -> excl g cur t -> excl g cur' t'.
Proof. intros H. apply (excl_map (fun _ l => l)); auto. Qed.

(** ** Entering and leaving a step *)
Lemma go_tokens_in t g c k : goroutines t !! g = Some c ->
  count (fun c => bool_decide (go_tok t c = Some k)) (goroutines t)
  = go_tokens g t k + b2z (bool_decide (go_tok t c = Some k)).
Proof. intros Hg. exact (count_delete (fun c => bool_decide (go_tok t c = Some k)) _ _ _ Hg). Qed.
Lemma go_tokens_out t g k : goroutines t !! g = None ->
  go_tokens g t k = count (fun c => bool_decide (go_tok t c = Some k)) (goroutines t).
Proof. intros Hg. unfold go_tokens. by rewrite delete_id. Qed.

Lemma tokens_None g t k : tokens g None t k = go_tokens g t k + conn_tokens t k.
Proof. unfold tokens. rewrite bool_decide_false by done. cbn. lia. Qed.

Lemma InvB_enter g c t : InvB (-1) None None None t -> goroutines t !! g = Some c ->
  InvB g (Some c) (go_pc c) (go_tok t c) t.
Proof.
  intros HB Hg. destruct (I_go _ _ _ _ _ HB g c Hg) as [Hb Hwf]. split; try apply HB; [done| |  | | | |].
  - split; [apply HB|lia].
  - intros pc Hpc. apply (holds_exists (-1) None None None t pc (LGo g) HB). cbn. split; [lia|eauto].
  - apply (excl_map (fun pc l => match l with LCur => LGo g | _ => l end) (-1) g None _ t t); [| |apply HB].
    + intros pc [| |w|h] Hh Hh1; (split; [done|]); cbn in *; try done; [split; [lia|eauto]|].
      destruct Hh as [_ Hh]. split; [|done]. intros ->. destruct Hh as (c' & Hl & _).
      destruct (I_go _ _ _ _ _ HB _ _ Hl). lia.
    + intros pc [| |w|h] [| |w'|h'] Hl Hl' E; try done; injection E as ->; by destruct Hl, Hl'.
  - intros h c' w wc _ Hh. apply (I_req _ _ _ _ _ HB h c'); [|done]. left. destruct (I_go _ _ _ _ _ HB h c' Hh). lia.
  - intros h c' Hne Hh. apply (I_sel _ _ _ _ _ HB h c'); [|done].
    destruct (I_go _ _ _ _ _ HB h c' Hh). lia.
  - intros Hm k. pose proof (I_count _ _ _ _ _ HB Hm k) as Hc.
    assert (tokens g (go_tok t c) t k = tokens (-1) None t k) as E.
    { rewrite tokens_None. unfold tokens. rewrite (go_tokens_out t (-1)) by apply HB. rewrite (go_tokens_in t g c k Hg). lia. }
    unfold count_ok in *. by rewrite E.
Qed.
(** The step ends: the goroutine goes on with [oc], or ends. *)
Definition set_go g (oc : option goroutine) t : Transport :=
  set_goroutines (partial_alter (fun _ => oc) g (goroutines t)) t.

Lemma set_go_lookup g oc t h :
  goroutines (set_go g oc t) !! h = if decide (h = g) then oc else goroutines t !! h.
Proof.
  cbn. case_decide; subst; [apply lookup_partial_alter_eq|by apply lookup_partial_alter_ne].
Qed.
Lemma ext_set_go g oc t : ext t (set_go g oc t). Proof. exact (ext_refl t). Qed.
Lemma go_tok_set_go g oc t c : go_tok (set_go g oc t) c = go_tok t c. Proof. by destruct c. Qed.

Lemma hope_leave g me oc t w k : goroutines t !! g = me ->
  (forall c0, me = Some c0 -> go_dial c0 = Some w -> isdone t w \/ exists c, oc = Some c /\ go_dial c = Some w) ->
  ~ isdone t w -> hope t w k -> hope (set_go g oc t) w k.
Proof.
  intros Hme Hd Hnd [(h & c & Hh & Hc)|Hq]; [|by right]. left. destruct (decide (h = g)) as [->|Hne].
  - destruct (Hd c) as [?|(c' & -> & Hc')]; [congruence|done|done|].
    exists g, c'. rewrite set_go_lookup, decide_True by done. done.
  - exists h, c. by rewrite set_go_lookup, decide_False by done.
Qed.

Lemma not_done t w wc : wants t !! w = Some wc -> w_done wc = false -> ~ isdone t w.
Proof. intros Hl Hd (wc' & Hl' & Hd'). congruence. Qed.

(** A goroutine that runs a request ran it before, and has not taken its result. *)
Definition req_ok (me : option goroutine) (c : goroutine) : Prop :=
  forall w, go_req c = Some w ->
    me = Some (GGetConn w) \/ me = Some (GQueueForDial w) \/ me = Some (GSelect w) /\ c = GCancel w.

Lemma InvB_leave g me cur tok oc t : InvB g me cur tok t -> 0 <= g ->
  (forall c, oc = Some c -> go_wf t c /\ (go_pc c = None \/ go_pc c = cur) /\ select_ok t c /\ req_ok me c) ->
  (0 < MaxConnsPerHost o -> tok = (c ← oc; go_tok t c)) ->
  (forall w c0, me = Some c0 -> go_dial c0 = Some w -> isdone t w \/ exists c, oc = Some c /\ go_dial c = Some w) ->
  InvB (-1) None None None (set_go g oc t).
Proof.
  intros HB Hg Hc Htok Hd. split; try apply HB.
  - rewrite set_go_lookup, decide_False by lia. destruct (goroutines t !! (-1)) eqn:E; [|done].
    destruct (I_go _ _ _ _ _ HB _ _ E). lia.
  - intros h c. rewrite set_go_lookup. case_decide; [|apply HB]. intros ->. subst. split.
    + pose proof (I_next _ _ _ _ _ HB). cbn. lia.
    + by apply (Hc c).
  - pose proof (I_next _ _ _ _ _ HB). cbn. lia.
  - done.
  - apply (excl_map (fun pc l => match l with LGo h => if decide (h = g) then LCur else l | _ => l end) g (-1) cur _ t); [| |apply HB].
    + intros pc [| |w|h] Hh Hh1; (split; [done|]); try done. destruct Hh as (Hne & c & Hl & Hpc).
      rewrite set_go_lookup in Hl. cbn. case_decide; [|cbn; eauto]. subst. destruct (Hc c eq_refl) as (_ & [E|E] & _); congruence.
    + intros pc [| |w|h] [| |w'|h'] Hl Hl' E; try done; repeat case_decide; congruence.
  - intros h c w wc _. rewrite set_go_lookup. change (wants (set_go g oc t)) with (wants t). intros Hl Hr Hnc Hw Hwd.
    pose proof (I_self _ _ _ _ _ HB) as Hme. case_decide; [subst h|].
    + destruct (Hc c Hl) as (_ & _ & _ & Hreq). destruct (Hreq w Hr) as [E|[E|[_ ->]]]; [| |done]; rewrite E in Hme.
      * apply (I_req _ _ _ _ _ HB g (GGetConn w) w wc); try done. by right.
      * apply (I_req _ _ _ _ _ HB g (GQueueForDial w) w wc); try done. by right.
    + exact (I_req _ _ _ _ _ HB h c w wc (or_introl H) Hl Hr Hnc Hw Hwd).
  - assert (forall h c w, goroutines (set_go g oc t) !! h = Some c -> go_req c = Some w ->
      exists c', goroutines t !! h = Some c' /\ go_req c' = Some w) as Hback.
    { intros h c w. rewrite set_go_lookup. case_decide; [subst h|eauto]. intros Hl Hr. pose proof (I_self _ _ _ _ _ HB) as Hme.
      destruct (Hc c Hl) as (_ & _ & _ & Hreq). destruct (Hreq w Hr) as [E|[E|[E _]]]; rewrite E in Hme; eauto. }
    intros h h' c c' w Hh Hh' Hr Hr'. destruct (Hback h c w Hh Hr) as (d & ? & ?), (Hback h' c' w Hh' Hr') as (d' & ? & ?).
    by apply (I_req_one _ _ _ _ _ HB h h' d d' w).
  - intros h c Hne. rewrite set_go_lookup. intros Hl w wc Hw Hwc Hwd.
    assert (select_ok t c) as Hs. { case_decide; [by apply (Hc c)|by apply (I_sel _ _ _ _ _ HB h)]. }
    destruct (Hs w wc Hw Hwc Hwd) as [Hq Hho]. split; [exact Hq|]. intros ->.
    apply (hope_leave g me); [apply HB|by apply Hd|by apply (not_done t w wc)|by apply Hho].
  - intros Hm k. pose proof (I_count _ _ _ _ _ HB Hm k) as Hk. rewrite (Htok Hm) in Hk.
    assert (tokens (-1) None (set_go g oc t) k = tokens g (c ← oc; go_tok t c) t k) as E.
    { rewrite tokens_None, go_tokens_out by (rewrite set_go_lookup, decide_False by lia;
        destruct (goroutines t !! (-1)) eqn:E; [destruct (I_go _ _ _ _ _ HB _ _ E); lia|done]).
      unfold tokens. rewrite (count_ext _ (fun c => bool_decide (go_tok t c = Some k)))
        by (intros; by rewrite go_tok_set_go).
      destruct oc as [c|]; cbn [mbind option_bind].
      - change (goroutines (set_go g (Some c) t)) with (<[g := c]> (goroutines t)). rewrite count_insert.
        change (conn_tokens (set_go g (Some c) t) k) with (conn_tokens t k). unfold go_tokens. lia.
      - rewrite bool_decide_false by done. change (conn_tokens (set_go g None t) k) with (conn_tokens t k).
        change (goroutines (set_go g None t)) with (delete g (goroutines t)). unfold go_tokens. cbn [b2z]. lia. }
    unfold count_ok in *. rewrite E. exact Hk.
Qed.

Lemma InvA_set_go g oc t : InvA t -> InvA (set_go g oc t).
Proof. intros HA. split; apply HA. Qed.

Lemma Sys_leave g me cur tok oc t : InvA t -> InvB g me cur tok t -> 0 <= g ->
  (forall c, oc = Some c -> go_wf t c /\ (go_pc c = None \/ go_pc c = cur) /\ select_ok t c /\ req_ok me c) ->
  (0 < MaxConnsPerHost o -> tok = (c ← oc; go_tok t c)) ->
  (forall w c0, me = Some c0 -> go_dial c0 = Some w -> isdone t w \/ exists c, oc = Some c /\ go_dial c = Some w) ->
  Sys (set_go g oc t).
Proof. intros. split; [by apply InvA_set_go|by eapply InvB_leave]. Qed.

(** A goroutine that gives up its connection. *)
Lemma InvB_drop g me cur tok t : InvB g me cur tok t -> InvB g me None tok t.
Proof.
  intros HB. split; try apply HB; [done|]. apply (excl_sub g cur _ t); [|apply HB]. intros pc [] H Hh; (split; [done|]); done.
Qed.
(** A connection that may be shared is nobody's. *)
Lemma InvB_shared g me pc tok t : InvB g me None tok t -> is_Some (conns t !! pc) -> ~ is_h1 t pc -> InvB g me (Some pc) tok t.
Proof.
  intros HB Hpc Hn. split; try apply HB; [by intros x [= <-]|]. intros x l l' Hh Hl Hl'.
  assert (forall l, holds g (Some pc) t x l -> holds g None t x l) as H.
  { intros [| |w|h] Hx; [by injection Hx as ->|done..]. }
  apply (I_excl _ _ _ _ _ HB x); auto.
Qed.
(** Without a limit nothing is counted. *)
Lemma InvB_tok g me cur tok tok' t : ~ 0 < MaxConnsPerHost o -> InvB g me cur tok t -> InvB g me cur tok' t.
Proof. intros Hm HB. split; try apply HB. done. Qed.
(** ** Changes of one field *)
Definition spawned (c : goroutine) t : Transport :=
  set_nextGo (nextGo t + 1) (set_goroutines (<[nextGo t := c]> (goroutines t)) t).

Lemma goroutines_fresh g me cur tok t : InvB g me cur tok t -> goroutines t !! nextGo t = None.
Proof. intros HB. destruct (goroutines t !! nextGo t) eqn:E; [|done]. destruct (I_go _ _ _ _ _ HB _ _ E). lia. Qed.

Lemma hope_more t t' w k : (forall h c, goroutines t !! h = Some c -> goroutines t' !! h = Some c) ->
  connsPerHostWait t' = connsPerHostWait t -> hope t w k -> hope t' w k.
Proof. intros Hg Hw [(h & c & Hh & Hc)|Hq]; [left; eauto|right; by rewrite Hw]. Qed.

Lemma InvB_spawn g me cur tok tok' c t : InvB g me cur tok t -> go_wf t c -> go_pc c = None ->
  (forall w, go_req c = Some w -> c = GGetConn w /\ (forall h c', goroutines t !! h = Some c' -> go_req c' <> Some w)
     /\ (forall wc, wants t !! w = Some wc -> w_done wc = false)) ->
  (go_tok t c = None /\ tok' = tok \/ go_tok t c = tok /\ tok' = None) ->
  InvB g me cur tok' (spawned c t).
Proof.
  intros HB Hwf Hpc Hsel Htok. pose proof (goroutines_fresh _ _ _ _ _ HB) as Hf. pose proof (I_next _ _ _ _ _ HB) as Hn.
  assert (forall h c', goroutines t !! h = Some c' -> goroutines (spawned c t) !! h = Some c') as Hmore.
  { intros h c' Hh. cbn. rewrite lookup_insert_ne; [done|]. intros <-. congruence. }
  split; try apply HB.
  - cbn. rewrite lookup_insert_ne by lia. apply HB.
  - intros h c'. cbn. rewrite lookup_insert. case_decide; [intros [= <-]; subst; split; [lia|done]|].
    intros Hh. destruct (I_go _ _ _ _ _ HB h c' Hh) as [? ?]. split; [lia|done].
  - cbn. lia.
  - apply (excl_sub g cur _ t); [|apply HB]. intros pc [| |w|h] Hh Hh1; (split; [done|]); try done.
    destruct Hh as (Hne & c' & Hl & Hc'). cbn in Hl. rewrite lookup_insert in Hl. case_decide; [congruence|]. cbn. eauto.
  - intros h c' w wc Hor Hh Hr Hnc Hw Hd. cbn in Hh. rewrite lookup_insert in Hh. case_decide.
    + injection Hh as <-. destruct (Hsel w Hr) as (_ & _ & H'). rewrite (H' wc Hw) in Hd. done.
    + by apply (I_req _ _ _ _ _ HB h c' w wc).
  - intros h h' c1 c2 w Hh Hh' Hr Hr'. cbn in Hh, Hh'. rewrite lookup_insert in Hh, Hh'. repeat case_decide; try congruence.
    { injection Hh' as <-. destruct (Hsel w Hr') as (_ & H' & _). by destruct (H' h c1 Hh). }
    { injection Hh as <-. destruct (Hsel w Hr) as (_ & H' & _). by destruct (H' h' c2 Hh'). }
    by apply (I_req_one _ _ _ _ _ HB h h' c1 c2 w).
  - intros h c' Hne Hh w wc Hw Hwc Hwd. cbn in Hh. rewrite lookup_insert in Hh. case_decide.
    { injection Hh as <-. destruct (Hsel w) as (E & _); [by destruct Hw as [->| ->]|]. destruct Hw; congruence. }
    destruct (I_sel _ _ _ _ _ HB h c' Hne Hh w wc Hw Hwc Hwd) as [? Hho]. split; [done|]. intros E.
    apply (hope_more t); auto.
  - intros Hm k. pose proof (I_count _ _ _ _ _ HB Hm k) as Hk. unfold count_ok in *.
    assert (tokens g tok' (spawned c t) k = tokens g tok t k) as E; [|by rewrite E].
    unfold tokens, go_tokens. cbn [goroutines spawned set_nextGo set_goroutines].
    rewrite delete_insert_ne by lia. rewrite count_insert_new by (rewrite lookup_delete_ne; [done|lia]).
    rewrite (count_ext (fun c0 => bool_decide (go_tok (spawned c t) c0 = Some k)) (fun c0 => bool_decide (go_tok t c0 = Some k)))
      by (intros i x _; by destruct x).
    change (conn_tokens (spawned c t) k) with (conn_tokens t k).
    replace (go_tok (spawned c t) c) with (go_tok t c) by (by destruct c).
    destruct Htok as [[-> ->]|[-> ->]]; rewrite (bool_decide_false (None = Some k)) by done; cbn; lia.
Qed.
Lemma InvA_spawned c t : InvA t -> InvA (spawned c t).
Proof. intros HA. split; apply HA. Qed.

(** An update of a connection that keeps its key and kind. *)
Definition upd_conn pc (p' : persistConn) t : Transport := set_conns (<[pc := p']> (conns t)) t.
Lemma ext_upd_conn pc p p' t : conns t !! pc = Some p -> pc_cacheKey p' = pc_cacheKey p -> pc_alt p' = pc_alt p ->
  ext t (upd_conn pc p' t).
Proof.
  intros Hp Hk Ha. split; [eauto|]. intros x px Hx. cbn. destruct (decide (x = pc)) as [->|Hne].
  - rewrite lookup_insert_eq. exists p'. split; [done|]. split; congruence.
  - rewrite lookup_insert_ne by done. eauto.
Qed.
Lemma conn_tokens_upd pc p p' t k : conns t !! pc = Some p -> pc_cacheKey p' = pc_cacheKey p ->
  conn_tokens (upd_conn pc p' t) k
  = conn_tokens t k + (b2z (negb (is_set (pc_closed p')) && bool_decide (pc_cacheKey p = k))
                       - b2z (negb (is_set (pc_closed p)) && bool_decide (pc_cacheKey p = k))).
Proof.
  intros Hp Hk. unfold conn_tokens. cbn [conns upd_conn set_conns]. rewrite count_insert.
  rewrite (count_delete _ (conns t) pc p Hp). rewrite Hk. lia.
Qed.

Lemma InvB_ext_parts g me cur tok t t' : InvB g me cur tok t -> ext t t' ->
  wants t' = wants t -> goroutines t' = goroutines t -> idleLRU t' = idleLRU t ->
  excl g cur t'.
Proof.
  intros HB He Hw Hg Hl. apply (excl_sub g cur _ t); [|apply HB]. intros pc l Hh Hh1.
  assert (holds g cur t pc l) as Hh'.
  { destruct l as [| |w|h]; cbn in *; [done|by rewrite <- Hl|by rewrite <- Hw|by rewrite <- Hg]. }
  split; [|done]. apply (ext_h1 _ _ _ He); [by eapply holds_exists|done].
Qed.

Lemma go_tokens_ext g me cur tok t t' k : InvB g me cur tok t -> ext t t' -> goroutines t' = goroutines t ->
  go_tokens g t' k = go_tokens g t k.
Proof.
  intros HB He Hg. unfold go_tokens. rewrite Hg. apply count_ext. intros h c Hh.
  rewrite lookup_delete in Hh. case_decide; [done|]. destruct (I_go _ _ _ _ _ HB h c Hh) as [_ Hwf].
  by rewrite (ext_go_tok _ _ _ He Hwf).
Qed.

Lemma InvB_upd_conn g me cur tok tok' pc p p' t : InvB g me cur tok t -> conns t !! pc = Some p ->
  pc_cacheKey p' = pc_cacheKey p -> pc_alt p' = pc_alt p ->
  (pc_closed p' = pc_closed p /\ tok' = tok \/ pc_closed p = None /\ is_set (pc_closed p') = true /\ tok = None /\ tok' = Some (pc_cacheKey p)) ->
  InvB g me cur tok' (upd_conn pc p' t).
Proof.
  intros HB Hp Hk Ha Hcl. pose proof (ext_upd_conn pc p p' t Hp Hk Ha) as He. split; try apply HB.
  - intros w wc Hl. apply (ext_want_ok t), (I_want _ _ _ _ _ HB w wc Hl). done.
  - intros h c Hh. destruct (I_go _ _ _ _ _ HB h c Hh). eauto with pool.
  - intros x Hx. apply (ext_conn t); [done|]. by apply (I_cur _ _ _ _ _ HB).
  - intros x Hx. apply (ext_conn t); [done|]. by apply (I_lru_conns _ _ _ _ _ HB).
  - by apply (InvB_ext_parts g me cur tok t).
  - intros Hm k. pose proof (I_count _ _ _ _ _ HB Hm k) as Hc. unfold count_ok in *.
    assert (tokens g tok' (upd_conn pc p' t) k = tokens g tok t k) as E; [|by rewrite E].
    unfold tokens. rewrite (go_tokens_ext g me cur tok t) by done. rewrite (conn_tokens_upd pc p) by done.
    destruct Hcl as [[-> ->]|(-> & -> & -> & ->)]; [lia|]. rewrite (bool_decide_false (None = Some k)) by done. cbn.
    destruct (bool_decide_reflect (pc_cacheKey p = k)) as [->|Hne];
      [rewrite bool_decide_true by done|rewrite bool_decide_false by congruence]; cbn; lia.
Qed.
Lemma InvA_upd_conn pc p p' t : InvA t -> conns t !! pc = Some p ->
  pc_cacheKey p' = pc_cacheKey p -> pc_alt p' = pc_alt p -> InvA (upd_conn pc p' t).
Proof.
  intros HA Hp Hk Ha. pose proof (ext_upd_conn pc p p' t Hp Hk Ha) as He. split; try apply HA.
  intros k l Hl. destruct (I_idle _ HA k l Hl) as (? & ? & ? & Hf). repeat split; try done.
  eapply Forall_impl; [exact Hf|]. intros x [? ?]. split; [done|]. eauto with pool.
Qed.
(** A connection just dialed: it replaces the dial in the count. *)
Lemma ext_new_conn pc p t : conns t !! pc = None -> ext t (upd_conn pc p t).
Proof.
  intros Hn. split; [eauto|]. intros x px Hx. cbn. rewrite lookup_insert_ne by congruence. eauto.
Qed.
Lemma InvB_new_conn g me tok pc p t : InvB g me None tok t -> conns t !! pc = None -> pc_closed p = None ->
  (0 < MaxConnsPerHost o -> tok = Some (pc_cacheKey p)) -> InvB g me (Some pc) None (upd_conn pc p t).
Proof.
  intros HB Hn Hcl Htok. pose proof (ext_new_conn pc p t Hn) as He.
  assert (forall l, ~ holds g None t pc l) as Hnot.
  { intros l Hl. destruct (holds_exists _ _ _ _ _ _ _ HB Hl) as [x Hx]. congruence. }
  split; try apply HB.
  - intros w wc Hl. apply (ext_want_ok t), (I_want _ _ _ _ _ HB w wc Hl). done.
  - intros h c Hh. destruct (I_go _ _ _ _ _ HB h c Hh). eauto with pool.
  - intros x [= <-]. cbn. rewrite lookup_insert_eq. eauto.
  - intros x Hx. apply (ext_conn t); [done|]. by apply (I_lru_conns _ _ _ _ _ HB).
  - intros x l l' (px & Hpx & Ha) Hl Hl'. destruct (decide (x = pc)) as [->|Hne].
    + assert (forall l, holds g (Some pc) (upd_conn pc p t) pc l -> l = LCur) as H.
      { intros [| |w|h] Hh; [done|by destruct (Hnot LLRU)|by destruct (Hnot (LWant w))|by destruct (Hnot (LGo h))]. }
      by rewrite (H l Hl), (H l' Hl').
    + assert (forall l, holds g (Some pc) (upd_conn pc p t) x l -> holds g None t x l) as H.
      { intros [| |w|h] Hh; [by injection Hh as ->|done..]. }
      apply (I_excl _ _ _ _ _ HB x l l'); [|by apply H..]. exists px. cbn in Hpx. by rewrite lookup_insert_ne in Hpx.
  - intros Hm k. pose proof (I_count _ _ _ _ _ HB Hm k) as Hc. rewrite (Htok Hm) in Hc. unfold count_ok in *.
    assert (tokens g None (upd_conn pc p t) k = tokens g (Some (pc_cacheKey p)) t k) as E; [|by rewrite E].
    unfold tokens. rewrite (go_tokens_ext g me None tok t) by done. rewrite (bool_decide_false (None = Some k)) by done.
    unfold conn_tokens. cbn [conns upd_conn set_conns]. rewrite count_insert_new by done. rewrite Hcl. cbn [is_set negb andb].
    destruct (bool_decide_reflect (pc_cacheKey p = k)) as [->|Hne];
      [rewrite bool_decide_true by done|rewrite bool_decide_false by congruence]; cbn; lia.
Qed.
(** An update of a request for a connection. *)
Definition upd_want w (wc' : wantConn) t : Transport := set_wants (<[w := wc']> (wants t)) t.
Lemma ext_upd_want w wc wc' t : wants t !! w = Some wc -> w_key wc' = w_key wc ->
  (w_done wc = true -> w_done wc' = true) -> ext t (upd_want w wc' t).
Proof.
  intros Hp Hk Ha. split; [|eauto]. intros x px Hx. cbn. destruct (decide (x = w)) as [->|Hne].
  - rewrite lookup_insert_eq. exists wc'. split; [done|]. split; [congruence|]. rewrite Hp in Hx. injection Hx as <-. done.
  - rewrite lookup_insert_ne by done. eauto.
Qed.

(** What the update does to the connection in the channel: it is dropped or kept,
    it comes from the running goroutine (or is shared), or goes to it. *)
Definition moves t cur cur' (r r' : option Z) : Prop :=
  (r' = None \/ r' = r) /\ cur' = cur
  \/ (exists pc, r' = Some pc /\ cur' = None /\ (cur = Some pc \/ ~ is_h1 t pc))
  \/ r' = None /\ cur = None /\ cur' = r.

Lemma excl_upd_want g me cur cur' tok w wc wc' t : InvB g me cur tok t -> wants t !! w = Some wc ->
  moves t cur cur' (result_pc wc) (result_pc wc') -> excl g cur' (upd_want w wc' t).
Proof.
  intros HB Hw Hm.
  assert (forall pc w', holds g cur' (upd_want w wc' t) pc (LWant w') ->
    w' = w /\ result_pc wc' = Some pc \/ w' <> w /\ holds g cur t pc (LWant w')) as Hres.
  { intros pc w' (wx & Hl & Hr). cbn in Hl. rewrite lookup_insert in Hl. case_decide; [left|right].
    - split; [done|]. congruence.
    - split; [done|]. cbn. eauto. }
  destruct Hm as [[Hr ->]|[(pc0 & Hr & -> & Hc)|(Hr & -> & ->)]].
  - apply (excl_sub g cur _ t); [|apply HB]. intros pc [| |w'|h] Hh Hh1; (split; [exact Hh1|]); try done.
    destruct (Hres pc w' Hh) as [(-> & E)|[_ ?]]; [|done]. destruct Hr as [Hr|Hr]; [congruence|]. exists wc. split; [done|congruence].
  - destruct Hc as [->|Hc].
    + apply (excl_map (fun pc l => match l with LWant w' => if decide (w' = w) then LCur else l | _ => l end) g g (Some pc0) _ t); [| |apply HB].
      * intros pc [| |w'|h] Hh Hh1; (split; [exact Hh1|]); try done.
        destruct (Hres pc w' Hh) as [(-> & E)|[Hne ?]]; [rewrite decide_True by done; cbn; congruence|by rewrite decide_False by done].
      * intros pc [| |w'|h] [| |w2|h'] Hl Hl' E; try done; repeat case_decide; congruence.
    + apply (excl_sub g cur _ t); [|apply HB]. intros pc [| |w'|h] Hh Hh1; (split; [exact Hh1|]); try done.
      destruct (Hres pc w' Hh) as [(-> & E)|[_ ?]]; [|done]. rewrite Hr in E. injection E as <-. by destruct Hc.
  - apply (excl_map (fun pc l => match l with LCur => LWant w | _ => l end) g g None _ t); [| |apply HB].
    + intros pc [| |w'|h] Hh Hh1; (split; [exact Hh1|]); try done; [cbn in *; eauto|].
      destruct (Hres pc w' Hh) as [(-> & E)|[_ ?]]; [congruence|done].
    + intros pc [| |w'|h] [| |w2|h'] Hl Hl' E; try done.
      * injection E as <-. destruct (Hres pc w Hl') as [(_ & E)|[? _]]; [congruence|done].
      * injection E as ->. destruct (Hres pc w Hl) as [(_ & E)|[? _]]; [congruence|done].
Qed.

Lemma InvB_upd_want g me cur cur' tok w wc wc' t : InvB g me cur tok t -> wants t !! w = Some wc ->
  w_key wc' = w_key wc -> (w_done wc = true -> w_done wc' = true) -> want_ok t wc' ->
  moves t cur cur' (result_pc wc) (result_pc wc') ->
  (w_done wc' = true -> is_Some (w_result wc') \/ w_done wc = true /\ w_result wc' = w_result wc) \/ me = Some (GSelect w) \/ me = Some (GCancel w) ->
  InvB g me cur' tok (upd_want w wc' t).
Proof.
  intros HB Hw Hk Hd Hok Hm Htake. pose proof (ext_upd_want w wc wc' t Hw Hk Hd) as He.
  assert (excl g cur' (upd_want w wc' t)) as Hex by by eapply excl_upd_want.
  split; try apply HB; try done.
  - intros x wx Hl. cbn in Hl. rewrite lookup_insert in Hl. case_decide; [by injection Hl as <-|]. apply (I_want _ _ _ _ _ HB x wx Hl).
  - intros k q Hq. apply (ext_waitq t); [done|]. by apply (I_waitq _ _ _ _ _ HB).
  - intros k q Hq. apply (ext_waitq t); [done|]. by apply (I_dialq _ _ _ _ _ HB).
  - destruct (I_dials _ _ _ _ _ HB) as [Hq Hf]. split; [done|]. eapply Forall_impl; [exact Hf|]. intros x. by apply ext_want.
  - intros h c Hh. destruct (I_go _ _ _ _ _ HB h c Hh). eauto with pool.
  - intros pc Hpc. destruct Hm as [[_ ->]|[(pc0 & _ & -> & _)|(_ & _ & ->)]]; [by apply (I_cur _ _ _ _ _ HB)|done|].
    apply (holds_exists g me cur tok t pc (LWant w) HB). cbn. eauto.
  - intros h c x wx Hor Hh Hr Hnc Hl Hdx. change (goroutines t !! h = Some c) in Hh. cbn in Hl. rewrite lookup_insert in Hl.
    case_decide; [subst x; injection Hl as <-|by apply (I_req _ _ _ _ _ HB h c x wx)].
    pose proof (I_self _ _ _ _ _ HB) as Hme.
    assert (forall c0, me = Some c0 -> go_req c0 = Some w -> h = g /\ c = c0) as Hone.
    { intros c0 -> Hr0. assert (h = g) as -> by by apply (I_req_one _ _ _ _ _ HB h g c c0 w). split; [done|congruence]. }
    destruct Htake as [Ht|[->| ->]].
    + destruct (Ht Hdx) as [?|[Hd0 ->]]; [done|]. by apply (I_req _ _ _ _ _ HB h c w wc).
    + destruct (Hone _ eq_refl eq_refl) as [-> ->]. by destruct Hor.
    + by destruct (Hone _ eq_refl eq_refl) as [-> ->].
  - intros h c Hne Hh x wx Hx Hl Hdx. cbn in Hl. rewrite lookup_insert in Hl.
    assert (exists wx0, wants t !! x = Some wx0 /\ w_key wx0 = w_key wx /\ w_done wx0 = false) as (wx0 & Hl0 & Hk0 & Hd0).
    { case_decide; [|eauto]. subst. injection Hl as <-. exists wc. split; [done|]. split; [done|].
      destruct (w_done wc); [|done]. by rewrite Hd in Hdx. }
    rewrite <- Hk0. exact (I_sel _ _ _ _ _ HB h c Hne Hh x wx0 Hx Hl0 Hd0).
  - intros Hlim k. pose proof (I_count _ _ _ _ _ HB Hlim k) as Hc. unfold count_ok in *.
    assert (tokens g tok (upd_want w wc' t) k = tokens g tok t k) as ->.
    { unfold tokens. by rewrite (go_tokens_ext g me cur tok t). }
    destruct Hc as (H1 & H2 & H3 & H4). repeat split; try done. intros Hlt q Hq. apply (ext_all_done t); [done|]. by apply (H4 Hlt).
Qed.
Lemma InvA_upd_want w wc wc' t : InvA t -> wants t !! w = Some wc -> w_key wc' = w_key wc ->
  (w_done wc = true -> w_done wc' = true) -> InvA (upd_want w wc' t).
Proof.
  intros HA Hw Hk Hd. split; try apply HA. intros k l q Hl Hq. apply (ext_all_done t); [by eapply ext_upd_want|].
  by apply (I_nowait _ HA k l q).
Qed.

(** A request that begins. *)
Lemma ext_new_want w wc t : wants t !! w = None -> ext t (upd_want w wc t).
Proof. intros Hn. split; [|eauto]. intros x px Hx. cbn. rewrite lookup_insert_ne by congruence. eauto. Qed.
Lemma InvB_new_want g me cur tok w k b t : InvB g me cur tok t -> wants t !! w = None ->
  InvB g me cur tok (upd_want w (mkWantConn k true b false false None false) t).
Proof.
  intros HB Hn. set (wc := mkWantConn _ _ _ _ _ _ _). pose proof (ext_new_want w wc t Hn) as He. split; try apply HB.
  - intros x wx Hl. cbn in Hl. rewrite lookup_insert in Hl. case_decide; [by injection Hl as <-|]. apply (I_want _ _ _ _ _ HB x wx Hl).
  - intros k' q Hq. apply (ext_waitq t); [done|]. by apply (I_waitq _ _ _ _ _ HB).
  - intros k' q Hq. apply (ext_waitq t); [done|]. by apply (I_dialq _ _ _ _ _ HB).
  - destruct (I_dials _ _ _ _ _ HB) as [Hq Hf]. split; [done|]. eapply Forall_impl; [exact Hf|]. intros x. by apply ext_want.
  - intros h c Hh. destruct (I_go _ _ _ _ _ HB h c Hh). eauto with pool.
  - apply (excl_sub g cur _ t); [|apply HB]. intros pc [| |x|h] Hh Hh1; (split; [done|]); try done.
    destruct Hh as (wx & Hl & Hr). cbn in Hl. rewrite lookup_insert in Hl. case_decide; [|cbn; eauto]. by injection Hl as <-.
  - intros h c x wx Hor Hh Hr Hnc Hl Hd. cbn in Hl. rewrite lookup_insert in Hl.
    case_decide; [by injection Hl as <-|by apply (I_req _ _ _ _ _ HB h c x wx)].
  - intros h c Hne Hh x wx Hx Hl Hd. cbn in Hl. rewrite lookup_insert in Hl. case_decide; [|by apply (I_sel _ _ _ _ _ HB h c Hne Hh x wx)].
    subst x. destruct (I_go _ _ _ _ _ HB h c Hh) as [_ Hwf]. assert (is_Some (wants t !! w)) as [? ?]; [by destruct Hx as [->| ->]|]. congruence.
  - intros Hlim k'. pose proof (I_count _ _ _ _ _ HB Hlim k') as Hc. unfold count_ok in *.
    assert (tokens g tok (upd_want w wc t) k' = tokens g tok t k') as ->.
    { unfold tokens. by rewrite (go_tokens_ext g me cur tok t). }
    destruct Hc as (H1 & H2 & H3 & H4). split; [done|]. split; [done|]. split; [done|].
    intros Hlt q Hq. apply (ext_all_done t); [done|]. by apply (H4 Hlt).
Qed.

(** The LRU list: connections taken out, possibly by the running goroutine, or
    one put in. *)
Lemma InvB_lru_sub g me cur tok l t : InvB g me cur tok t -> l ⊆ idleLRU t -> InvB g me cur tok (set_idleLRU l t).
Proof.
  intros HB Hl. split; try apply HB.
  - intros pc Hpc. apply (I_lru_conns _ _ _ _ _ HB), Hl, Hpc.
  - apply (excl_sub g cur _ t); [|apply HB]. intros pc [| |w|h] Hh Hh1; (split; [done|]); try done. by apply Hl.
Qed.
Lemma InvB_lru_take g me tok pc l t : InvB g me None tok t -> pc ∈ idleLRU t -> l ⊆ idleLRU t -> pc ∉ l ->
  InvB g me (Some pc) tok (set_idleLRU l t).
Proof.
  intros HB Hin Hl Hnot. split; try apply HB.
  - intros x [= <-]. by apply (I_lru_conns _ _ _ _ _ HB).
  - intros x Hx. apply (I_lru_conns _ _ _ _ _ HB), Hl, Hx.
  - apply (excl_map (fun x l => match l with LCur => LLRU | _ => l end) g g None _ t); [| |apply HB].
    + intros x [| |w|h] Hh Hh1; (split; [done|]); try done; cbn in *; [congruence|by apply Hl].
    + intros x [| |w|h] [| |w'|h'] Ha Hb E; try done; cbn in *; congruence.
Qed.
Lemma InvB_lru_add g me cur tok pc t : InvB g me cur tok t -> is_Some (conns t !! pc) -> (cur = Some pc \/ ~ is_h1 t pc) ->
  InvB g me None tok (set_idleLRU (pc :: idleLRU t) t).
Proof.
  intros HB Hpc Hc. split; try apply HB; try done.
  - intros x Hx. cbn in Hx. apply elem_of_cons in Hx as [->|Hx]; [done|]. by apply (I_lru_conns _ _ _ _ _ HB).
  - apply (excl_map (fun x l => match l with LLRU => if decide (x = pc) then (match cur with Some _ => LCur | None => l end) else l | _ => l end) g g cur _ t); [| |apply HB].
    + intros x [| |w|h] Hh Hh1; (split; [done|]); try done. cbn in Hh. apply elem_of_cons in Hh.
      case_decide as Hd; [subst|destruct Hh; [done|done]]. destruct Hc as [->|Hc]; [done|by destruct Hc].
    + intros x [| |w|h] [| |w'|h'] Ha Hb E; try done; case_decide; try done; destruct cur; done.
Qed.
End Inv.
#[export] Hint Resolve ext_refl ext_wkey ext_ckey ext_want ext_conn ext_done ext_go_wf ext_waitq ext_all_done ext_want_ok : pool.
