(* ===== verification/H1PoolSafe.v ===== *)
(** * The operations of the connection pool keep its invariant

    Every operation of [H1Pool] is run from a state that satisfies the invariant
    of [H1PoolInv]; it does not panic, and the state it reaches satisfies the
    invariant again. *)

From S2P Require Import Prelude.
From S2P Require Import H2Errors.
From S2P Require Import WantQueue.
From S2P Require Import H1Pool.
From S2P Require Import H1PoolInv.
Import PoolNotations.

Implicit Types (t : Transport) (k : connectMethodKey) (w pc g : Z) (q : wantConnQueue Z).

(** ** Running *)
Lemma run_bind {A B} (m : P A) (f : A -> P B) t a t' : m t = Ok (a, t') -> pbind m f t = f a t'.
Proof. unfold pbind. by intros ->. Qed.
Lemma run_assoc {A B C} (m : P A) (f : A -> P B) (h : B -> P C) t :
  pbind (pbind m f) h t = pbind m (fun a => pbind (f a) h) t.
Proof. unfold pbind. by destruct (m t) as [[a t']|]. Qed.
Lemma run_get {B} (f : Transport -> P B) t : pbind pget f t = f t t. Proof. done. Qed.
Lemma run_ret {A B} (a : A) (f : A -> P B) t : pbind (pret a) f t = f a t. Proof. done. Qed.
Lemma run_mod {B} h (f : unit -> P B) t : pbind (pmod h) f t = f tt (h t). Proof. done. Qed.
Lemma run_put_want {B} w wc (f : unit -> P B) t : pbind (put_want w wc) f t = f tt (upd_want w wc t). Proof. done. Qed.
Lemma run_put_conn {B} pc p (f : unit -> P B) t : pbind (put_conn pc p) f t = f tt (upd_conn pc p t). Proof. done. Qed.
Lemma run_spawn {B} c (f : unit -> P B) t : pbind (spawn c) f t = f tt (spawned c t). Proof. done. Qed.
Lemma run_goto g c t : goto g c t = Ok (tt, set_go g (Some c) t). Proof. done. Qed.
Lemma run_exit g t : exit_go g t = Ok (tt, set_go g None t). Proof. done. Qed.
Create Rewrite HintDb prun.
#[export] Hint Rewrite @run_assoc @run_get @run_ret @run_mod @run_put_want @run_put_conn @run_spawn : prun.

Lemma get_want_run w wc t : wants t !! w = Some wc -> get_want w t = Ok (wc, t).
Proof. intros H. unfold get_want. rewrite run_get, H. done. Qed.
Lemma get_conn_run pc p t : conns t !! pc = Some p -> get_conn pc t = Ok (p, t).
Proof. intros H. unfold get_conn. rewrite run_get, H. done. Qed.
Lemma waiting_run w wc t : wants t !! w = Some wc -> waiting w t = Ok (negb (w_done wc), t).
Proof. intros H. unfold waiting. by rewrite (run_bind _ _ _ _ _ (get_want_run w wc t H)). Qed.

(** [pstep H] runs the first operation of the goal by its equation [H]. *)
Ltac pstep H := rewrite (run_bind _ _ _ _ _ H); autorewrite with prun.
Ltac pgo := autorewrite with prun.

Lemma wkey_want t w k : wkey t w = Some k -> exists wc, wants t !! w = Some wc /\ w_key wc = k.
Proof. unfold wkey. destruct (wants t !! w) as [wc|]; [|done]. intros [= <-]. eauto. Qed.

Section Safe.
Context (o : Options).

(** ** Cleaning the queues *)
Lemma cleanFrontNotWaiting_ok fuel t : forall q, queue_ok q -> Forall (fun w => is_Some (wants t !! w)) (queue_items q) ->
  exists q' pre, cleanFrontNotWaiting fuel q t = Ok (q', t) /\ queue_ok q'
    /\ queue_items q = pre ++ queue_items q' /\ Forall (isdone t) pre.
Proof.
  induction fuel as [|fuel IH]; intros q Hq Hf; cbn [cleanFrontNotWaiting]; [by exists q, []|].
  rewrite (peekFront_ok q Hq). pose proof (popFront_ok q Hq) as Hp. destruct (queue_items q) as [|w l] eqn:E; cbn [head].
  { exists q, []. rewrite E. done. }
  destruct Hp as (q1 & Hp & Hq1 & E1). apply Forall_cons in Hf as [[wc Hw] Hf].
  pstep (waiting_run w wc t Hw). destruct (w_done wc) eqn:Hd; cbn [negb].
  - rewrite Hp. cbn [snd]. destruct (IH q1 Hq1) as (q' & pre & -> & Hq' & E' & Hpre); [by rewrite E1|].
    exists q', (w :: pre). split; [done|]. split; [done|]. split; [cbn; congruence|]. constructor; [by exists wc|done].
  - exists q, []. by rewrite E.
Qed.
Lemma cleanFrontCanceled_ok fuel t : forall q, queue_ok q -> Forall (fun w => is_Some (wants t !! w)) (queue_items q) ->
  exists q' pre, cleanFrontCanceled fuel q t = Ok (q', t) /\ queue_ok q' /\ queue_items q = pre ++ queue_items q'.
Proof.
  induction fuel as [|fuel IH]; intros q Hq Hf; cbn [cleanFrontCanceled]; [by exists q, []|].
  rewrite (peekFront_ok q Hq). pose proof (popFront_ok q Hq) as Hp. destruct (queue_items q) as [|w l] eqn:E; cbn [head].
  { exists q, []. rewrite E. done. }
  destruct Hp as (q1 & Hp & Hq1 & E1). apply Forall_cons in Hf as [[wc Hw] Hf].
  pstep (get_want_run w wc t Hw). destruct (w_cancelCtx wc).
  - exists q, []. by rewrite E.
  - rewrite Hp. cbn [snd]. destruct (IH q1 Hq1) as (q' & pre & -> & Hq' & E'); [by rewrite E1|].
    exists q', (w :: pre). split; [done|]. split; [done|]. cbn. congruence.
Qed.

(** ** Dialing *)
(** What the dial operations leave alone. *)
Definition dial_frame t t' : Prop :=
  idleConn t' = idleConn t /\ idleConnWait t' = idleConnWait t /\ closeIdle t' = closeIdle t /\ idleLRU t' = idleLRU t
  /\ conns t' = conns t /\ wants t' = wants t.

Lemma dial_frame_ext t t' : dial_frame t t' -> ext t t'.
Proof. intros (_ & _ & _ & _ & Hc & Hw). split; [rewrite Hw|rewrite Hc]; eauto. Qed.
Lemma idle_list_ext t t' k l : ext t t' -> idleLRU t ⊆ idleLRU t' -> idle_list o t k l -> idle_list o t' k l.
Proof.
  intros He Hs (? & ? & ? & Hf). unfold idle_list. splits; try done. eapply Forall_impl; [exact Hf|].
  intros x [? ?]. split; [by apply Hs|eauto with pool].
Qed.
Lemma dial_frame_InvA t t' : dial_frame t t' -> InvA o t -> InvA o t'.
Proof.
  intros Hf HA. pose proof (dial_frame_ext t t' Hf) as He. destruct Hf as (H1 & H2 & _ & H4 & _). split.
  - rewrite H4. apply HA.
  - rewrite H1. intros k l Hl. apply (idle_list_ext t); [done|by rewrite H4|by apply (I_idle _ _ HA)].
  - rewrite H4. apply HA.
  - rewrite H1, H2. intros k l q Hl Hq. apply (ext_all_done t); [done|]. by apply (I_nowait _ _ HA k l q).
Qed.

Definition dialing t w : Prop := exists h c, goroutines t !! h = Some c /\ go_dial c = Some w.

Lemma startDial_ok g me cur tok k w t : InvB o g me cur tok t -> wkey t w = Some k ->
  (0 < MaxConnsPerHost o -> tok = Some k) ->
  exists t', startDialConnForLocked w t = Ok (tt, t') /\ InvB o g me cur None t' /\ dial_frame t t'
    /\ dialing t' w /\ connsPerHostWait t' = connsPerHostWait t /\ connsPerHost t' = connsPerHost t
    /\ (forall w', hope o t w' k -> hope o t' w' k).
Proof.
  intros HB Hk Htok. unfold startDialConnForLocked. pgo. destruct (I_dials _ _ _ _ _ _ HB) as [Hq Hf].
  destruct (cleanFrontCanceled_ok (queue_fuel (dialsInProgress t)) t _ Hq Hf) as (q' & pre & Hrun & Hq' & E).
  pstep Hrun. set (t1 := set_dialsInProgress (pushBack w q') t).
  assert (is_Some (wants t !! w)) as Hw by (destruct (wkey_want t w k Hk) as (wc & -> & _); eauto).
  assert (InvB o g me cur tok t1) as HB1.
  { split; try apply HB. destruct (pushBack_ok w q' Hq') as [Hq2 E2]. split; [done|].
    unfold t1. cbn [dialsInProgress set_dialsInProgress wants]. rewrite E2.
    rewrite E in Hf. apply Forall_app in Hf as [_ Hf]. apply Forall_app. split; [done|]. by constructor. }
  exists (spawned (GDialConnFor w) t1). split; [done|].
  assert (goroutines t1 !! nextGo t1 = None) as Hfresh by by eapply goroutines_fresh.
  split; [|split; [done|split; [|split; [done|split; [done|]]]]].
  - destruct (decide (0 < MaxConnsPerHost o)) as [Hm|Hm].
    + apply (InvB_spawn _ _ _ _ tok); try done. right. split; [|done]. cbn. by rewrite Htok.
    + apply (InvB_tok _ _ _ _ (Some k)); [done|]. apply (InvB_tok _ _ _ _ tok None) in HB1; [|done].
      apply (InvB_tok _ _ _ _ None); [done|]. apply (InvB_spawn _ _ _ _ (Some k)); try done; [by apply (InvB_tok _ _ _ _ None)|].
      right. split; [done|done].
  - exists (nextGo t1), (GDialConnFor w). split; [|done]. apply lookup_insert_eq.
  - intros w'. apply (hope_more o t); [|done]. intros h c Hh. cbn. rewrite lookup_insert_ne; [done|]. intros <-.
    change (goroutines t !! nextGo t = None) in Hfresh. change (goroutines t !! nextGo t = Some c) in Hh. congruence.
Qed.
Lemma hope_same t t' w k : goroutines t' = goroutines t -> connsPerHostWait t' = connsPerHostWait t ->
  hope o t w k -> hope o t' w k.
Proof. intros Hg Hw. unfold hope. by rewrite Hg, Hw. Qed.

Lemma go_tokens_nonneg g t k : 0 <= go_tokens g t k. Proof. apply count_nonneg. Qed.
Lemma conn_tokens_nonneg t k : 0 <= conn_tokens t k. Proof. apply count_nonneg. Qed.

(** The count of [k] set to [n], one more or one less than before. *)
Lemma InvB_count_add g me cur k n t : InvB o g me cur None t -> n = default 0 (connsPerHost t !! k) ->
  n < MaxConnsPerHost o -> InvB o g me cur (Some k) (set_connsPerHost (<[k := n + 1]> (connsPerHost t)) t).
Proof.
  intros HB Hn Hlt. split; try apply HB. intros Hm k'. destruct (I_count _ _ _ _ _ _ HB Hm k') as (H1 & H2 & H3 & H4).
  rewrite tokens_None in *. unfold count_ok, tokens. cbn [connsPerHost set_connsPerHost].
  change (go_tokens g (set_connsPerHost _ t) k') with (go_tokens g t k').
  change (conn_tokens (set_connsPerHost _ t) k') with (conn_tokens t k').
  destruct (decide (k = k')) as [<-|Hne].
  - rewrite lookup_insert_eq, bool_decide_true by done. cbn [b2z]. pose proof (go_tokens_nonneg g t k). pose proof (conn_tokens_nonneg t k).
    change (default 0 (Some (n + 1))) with (n + 1). split; [intros [= E]; lia|].
    split; [lia|]. split; [lia|]. intros ?. apply H4. lia.
  - rewrite lookup_insert_ne by done. rewrite bool_decide_false by congruence. cbn [b2z]. rewrite Z.add_0_r. done.
Qed.
Lemma InvB_count_sub g me cur k n t : InvB o g me cur (Some k) t -> n = default 0 (connsPerHost t !! k) ->
  (0 < MaxConnsPerHost o -> forall q, connsPerHostWait t !! k = Some q -> Forall (isdone t) (queue_items q)) ->
  InvB o g me cur None (set_connsPerHost (if n - 1 =? 0 then delete k (connsPerHost t) else <[k := n - 1]> (connsPerHost t)) t).
Proof.
  intros HB Hn Hq. split; try apply HB. intros Hm k'. destruct (I_count _ _ _ _ _ _ HB Hm k') as (H1 & H2 & H3 & H4).
  unfold count_ok. rewrite tokens_None. unfold tokens in *. cbn [connsPerHost set_connsPerHost].
  change (go_tokens g (set_connsPerHost _ t) k') with (go_tokens g t k').
  change (conn_tokens (set_connsPerHost _ t) k') with (conn_tokens t k').
  destruct (decide (k = k')) as [<-|Hne].
  - rewrite bool_decide_true in * by done. cbn [b2z] in *.
    assert (default 0 ((if n - 1 =? 0 then delete k (connsPerHost t) else <[k:=n - 1]> (connsPerHost t)) !! k) = n - 1
      /\ (if n - 1 =? 0 then delete k (connsPerHost t) else <[k:=n - 1]> (connsPerHost t)) !! k <> Some 0) as [E1 E2].
    { destruct (Z.eqb_spec (n - 1) 0) as [E|E]; [rewrite lookup_delete_eq, E; done|].
      rewrite lookup_insert_eq. split; [done|congruence]. }
    split; [done|]. split; [lia|]. split; [lia|]. intros _. by apply Hq.
  - rewrite bool_decide_false in * by congruence. cbn [b2z] in *. rewrite Z.add_0_r in *.
    assert ((if n - 1 =? 0 then delete k (connsPerHost t) else <[k:=n - 1]> (connsPerHost t)) !! k' = connsPerHost t !! k') as ->.
    { destruct (n - 1 =? 0); [by rewrite lookup_delete_ne|by rewrite lookup_insert_ne]. }
    done.
Qed.

(** The queue of dials of [k] replaced by one without its first elements. *)
Definition store_queue k q (m : gmap connectMethodKey (wantConnQueue Z)) : gmap connectMethodKey (wantConnQueue Z) :=
  if queue_len q =? 0 then delete k m else <[k := q]> m.
Lemma store_queue_lookup k q m k' q' : queue_ok q -> store_queue k q m !! k' = Some q' ->
  k' = k /\ q' = q /\ queue_items q <> [] \/ k' <> k /\ m !! k' = Some q'.
Proof.
  intros Hq. unfold store_queue. rewrite (queue_len_items q Hq). destruct (Z.eqb_spec (len (queue_items q)) 0) as [E|E].
  - rewrite lookup_delete. case_decide; [done|right; done].
  - rewrite lookup_insert. case_decide; [|right; done]. intros [= <-]. left. split; [done|]. split; [done|]. intros E'. by rewrite E' in E.
Qed.
Lemma store_queue_queued k q m w : queue_ok q -> w ∈ queue_items q -> queued (store_queue k q m) w k.
Proof.
  intros Hq Hw. exists q. split; [|done]. unfold store_queue. rewrite (queue_len_items q Hq).
  destruct (Z.eqb_spec (len (queue_items q)) 0) as [E|E]; [|apply lookup_insert_eq].
  apply len_zero in E. rewrite E in Hw. by apply not_elem_of_nil in Hw.
Qed.
Lemma store_queue_other k q m w k' : k' <> k -> queued m w k' -> queued (store_queue k q m) w k'.
Proof.
  intros Hne (q' & Hl & Hw). exists q'. split; [|done]. unfold store_queue.
  destruct (queue_len q =? 0); [by rewrite lookup_delete_ne|by rewrite lookup_insert_ne].
Qed.

Lemma InvB_dialq_shrink g me cur tok k q q' pre t : InvB o g me cur tok t -> connsPerHostWait t !! k = Some q ->
  queue_ok q' -> queue_items q = pre ++ queue_items q' -> Forall (fun w => isdone t w \/ dialing t w) pre ->
  InvB o g me cur tok (set_connsPerHostWait (store_queue k q' (connsPerHostWait t)) t).
Proof.
  intros HB Hk Hq' E Hpre. destruct (I_dialq _ _ _ _ _ _ HB k q Hk) as [Hq Hf]. rewrite E in Hf. apply Forall_app in Hf as [_ Hf].
  split; try apply HB.
  - intros k' q2 Hl. apply store_queue_lookup in Hl as [(-> & -> & _)|[_ Hl]]; [|by apply (I_dialq _ _ _ _ _ _ HB k' q2)|done]. by split.
  - intros h c Hne Hh w wc Hw Hwc Hwd. destruct (I_sel _ _ _ _ _ _ HB h c Hne Hh w wc Hw Hwc Hwd) as [Hi Ho].
    split; [done|]. intros Ec. destruct (Ho Ec) as [Hd|[Hm Hqu]]; [by left|].
    destruct (decide (w_key wc = k)) as [Ek|Hne']; [|right; split; [done|]; by apply store_queue_other].
    destruct Hqu as (q2 & Hl & Hin). rewrite Ek, Hk in Hl. injection Hl as <-. rewrite E in Hin.
    apply elem_of_app in Hin as [Hin|Hin].
    + rewrite Forall_forall in Hpre. destruct (Hpre w Hin) as [Hdn|Hdi]; [|by left]. by destruct (not_done t w wc Hwc Hwd).
    + right. split; [done|]. rewrite Ek. by apply store_queue_queued.
  - intros Hm k'. destruct (I_count _ _ _ _ _ _ HB Hm k') as (H1 & H2 & H3 & H4). split; [done|]. split; [done|]. split; [done|].
    intros Hlt q2 Hl. apply store_queue_lookup in Hl as [(-> & -> & _)|[_ Hl]]; [|by apply (H4 Hlt)|done].
    specialize (H4 Hlt q Hk). rewrite E in H4. by apply Forall_app in H4 as [_ H4].
Qed.

Lemma pop_run q w l : queue_ok q -> queue_items q = w :: l ->
  exists q', popFront q = (Some w, q') /\ queue_ok q' /\ queue_items q' = l.
Proof. intros Hq E. pose proof (popFront_ok q Hq) as Hp. by rewrite E in Hp. Qed.
Lemma queue_len_pos q : queue_ok q -> (0 <? queue_len q) = negb (bool_decide (queue_items q = [])).
Proof.
  intros Hq. rewrite (queue_len_items q Hq). destruct (queue_items q); [done|]. rewrite bool_decide_false by done.
  rewrite len_cons. pose proof (len_nonneg l). by apply Z.ltb_lt; lia.
Qed.

Lemma handToWaiter_ok g me cur k t : InvB o g me cur (Some k) t -> forall fuel q,
  waitq_ok t k q -> len (queue_items q) <= Z.of_nat fuel ->
  exists b q' pre t', handToWaiter fuel q t = Ok ((b, q'), t') /\ queue_ok q' /\ queue_items q = pre ++ queue_items q'
    /\ dial_frame t t' /\ connsPerHostWait t' = connsPerHostWait t /\ connsPerHost t' = connsPerHost t
    /\ Forall (fun w => isdone t' w \/ dialing t' w) pre
    /\ if b then InvB o g me cur None t' else t' = t /\ queue_items q' = [] /\ Forall (isdone t) pre.
Proof.
  intros HB. induction fuel as [|fuel IH]; intros q [Hq Hf] Hl; cbn [handToWaiter]; rewrite (queue_len_pos q Hq);
    revert Hf Hl; destruct (queue_items q) as [|w l] eqn:E; intros Hf Hl.
  1,3: rewrite bool_decide_true by done; cbn [negb]; exists false, q, [], t; rewrite E; splits; try done.
  - rewrite len_cons in Hl. pose proof (len_nonneg l). lia.
  - rewrite bool_decide_false by done. cbn [negb]. destruct (pop_run q w l Hq E) as (q1 & -> & Hq1 & E1).
    apply Forall_cons in Hf as [Hk Hf]. destruct (wkey_want t w k Hk) as (wc & Hw & Hwk). cbn [deref]. pgo.
    pstep (waiting_run w wc t Hw). destruct (w_done wc) eqn:Hd; cbn [negb].
    + destruct (IH q1) as (b & q' & pre & t' & Hrun & Hq' & E' & Hfr & Hcw & Hch & Hpre & Hb).
      { split; [done|by rewrite E1]. } { rewrite E1. rewrite len_cons in Hl. lia. }
      exists b, q', (w :: pre), t'. split; [done|]. split; [done|]. split; [cbn; congruence|].
      pose proof (ext_done _ _ w (dial_frame_ext _ _ Hfr) (ex_intro _ wc (conj Hw Hd))) as Hdn.
      splits; try done; [by constructor; [left|]|]. destruct b; [done|]. destruct Hb as (-> & ? & ?).
      splits; try done. by constructor.
    + destruct (startDial_ok g me cur (Some k) k w t HB Hk) as (t' & Hrun & HB' & Hfr & Hdi & Hcw & Hch & _); [done|].
      pstep Hrun. exists true, q1, [w], t'. split; [done|]. split; [done|]. split; [cbn; congruence|].
      splits; try done; try apply Hfr. constructor; [by right|done].
Qed.

(** [decConnsPerHost] pays back the unit of the count its caller owes. *)
Lemma decConnsPerHost_ok g me cur k t : InvB o g me cur (Some k) t ->
  exists t', decConnsPerHost o k t = Ok (tt, t') /\ InvB o g me cur None t' /\ dial_frame t t'.
Proof.
  intros HB. unfold decConnsPerHost. destruct (Z.leb_spec (MaxConnsPerHost o) 0) as [Hm|Hm].
  { exists t. split; [done|]. split; [|done]. apply (InvB_tok _ _ _ _ (Some k)); [lia|done]. }
  pgo. destruct (I_count _ _ _ _ _ _ HB Hm k) as (_ & Hn & _ & Hall).
  destruct (Z.eqb_spec (default 0 (connsPerHost t !! k)) 0) as [E|Hn0].
  { unfold tokens in Hn. rewrite bool_decide_true in Hn by done. cbn [b2z] in Hn.
    pose proof (go_tokens_nonneg g t k). pose proof (conn_tokens_nonneg t k). lia. }
  assert (exists t', (if 0 <? queue_len (default empty_queue (connsPerHostWait t !! k))
      then let* (done, q) := handToWaiter (queue_fuel (default empty_queue (connsPerHostWait t !! k)))
                               (default empty_queue (connsPerHostWait t !! k)) in
           pmod (fun t => set_connsPerHostWait (store_queue k q (connsPerHostWait t)) t) ;; pret done
      else pret false) t = Ok (true, t') /\ InvB o g me cur None t' /\ dial_frame t t'
    \/ (if 0 <? queue_len (default empty_queue (connsPerHostWait t !! k))
      then let* (done, q) := handToWaiter (queue_fuel (default empty_queue (connsPerHostWait t !! k)))
                               (default empty_queue (connsPerHostWait t !! k)) in
           pmod (fun t => set_connsPerHostWait (store_queue k q (connsPerHostWait t)) t) ;; pret done
      else pret false) t = Ok (false, t') /\ InvB o g me cur (Some k) t' /\ dial_frame t t' /\ connsPerHost t' = connsPerHost t
      /\ forall q, connsPerHostWait t' !! k = Some q -> Forall (isdone t') (queue_items q)) as (t' & Hcase).
  { destruct (connsPerHostWait t !! k) as [q|] eqn:Hl.
    - change (default empty_queue (Some q)) with q. destruct (I_dialq _ _ _ _ _ _ HB k q Hl) as [Hq Hf]. rewrite (queue_len_pos q Hq).
      destruct (bool_decide_reflect (queue_items q = [])) as [E|E]; cbn [negb].
      { exists t. right. split; [done|]. split; [done|]. split; [done|]. split; [done|]. intros q2. rewrite Hl. intros [= <-]. by rewrite E. }
      destruct (handToWaiter_ok g me cur k t HB (queue_fuel q) q) as (b & q' & pre & t1 & Hrun & Hq' & E' & Hfr & Hcw & Hch & Hpre & Hb).
      { by split. } { unfold queue_fuel. rewrite (queue_len_items q Hq). pose proof (len_nonneg (queue_items q)). lia. }
      exists (set_connsPerHostWait (store_queue k q' (connsPerHostWait t1)) t1). pstep Hrun. destruct b; [left|right].
      + split; [done|]. split; [|done]. apply (InvB_dialq_shrink g me cur None k q q' pre); [done|by rewrite Hcw|done|done|done].
      + destruct Hb as (-> & E2 & Hpre'). split; [done|]. split; [by apply (InvB_dialq_shrink g me cur _ k q q' pre)|].
        split; [done|]. split; [done|]. intros q2 Hq2. apply store_queue_lookup in Hq2 as [(_ & -> & Hne)|[? _]]; done.
    - exists t. right. split; [done|]. split; [done|]. split; [done|]. split; [done|]. intros q2. by rewrite Hl. }
  destruct Hcase as [(Hrun & HB' & Hfr)|(Hrun & HB' & Hfr & Hch & Hd)]; fold (store_queue); rewrite (run_bind _ _ _ _ _ Hrun).
  - by exists t'.
  - eexists. split; [reflexivity|]. split; [|exact Hfr]. rewrite <- Hch. apply InvB_count_sub; done.
Qed.

Lemma queueForDial_ok g me cur w wc t : InvB o g me cur None t -> wants t !! w = Some wc ->
  exists t', queueForDial o w t = Ok (tt, t') /\ InvB o g me cur None t' /\ dial_frame t t' /\ hope o t' w (w_key wc).
Proof.
  intros HB Hw. unfold queueForDial. assert (wkey t w = Some (w_key wc)) as Hk by (unfold wkey; by rewrite Hw).
  destruct (Z.leb_spec (MaxConnsPerHost o) 0) as [Hm|Hm].
  { destruct (startDial_ok g me cur None (w_key wc) w t HB Hk) as (t' & Hrun & HB' & Hfr & Hdi & _); [lia|].
    exists t'. splits; try done. by left. }
  pstep (get_want_run w wc t Hw). destruct (I_count _ _ _ _ _ _ HB Hm (w_key wc)) as (_ & Hn & _ & Hall).
  destruct (Z.ltb_spec (default 0 (connsPerHost t !! w_key wc)) (MaxConnsPerHost o)) as [Hlt|Hge]; pgo.
  - pose proof (InvB_count_add g me cur (w_key wc) _ t HB eq_refl Hlt) as HB1.
    destruct (startDial_ok g me cur (Some (w_key wc)) (w_key wc) w _ HB1 Hk) as (t' & Hrun & HB' & Hfr & Hdi & _); [done|].
    exists t'. splits; try done. by left.
  - assert (waitq_ok t (w_key wc) (default empty_queue (connsPerHostWait t !! w_key wc))) as [Hq Hf].
    { destruct (connsPerHostWait t !! w_key wc) as [q|] eqn:E; [by apply (I_dialq _ _ _ _ _ _ HB)|]. split; [apply empty_queue_ok|constructor]. }
    set (q := default empty_queue (connsPerHostWait t !! w_key wc)) in *.
    destruct (cleanFrontNotWaiting_ok (queue_fuel q) t q Hq) as (q' & pre & Hrun & Hq' & E & Hpre).
    { eapply Forall_impl; [exact Hf|]. intros x Hx. destruct (wkey_want t x _ Hx) as (wx & -> & _). eauto. }
    pstep Hrun. destruct (pushBack_ok w q' Hq') as [Hq2 E2]. eexists. split; [reflexivity|].
    rewrite E in Hf. apply Forall_app in Hf as [_ Hf].
    splits; [|done|right; split; [done|]; exists (pushBack w q'); split; [apply lookup_insert_eq|rewrite E2; set_solver]].
    split; try apply HB.
    + intros k' q3 Hl. cbn [connsPerHostWait set_connsPerHostWait] in Hl. rewrite lookup_insert in Hl. case_decide; [|by apply (I_dialq _ _ _ _ _ _ HB k' q3)].
      injection Hl as <-. subst k'. split; [done|]. rewrite E2. apply Forall_app. split; [done|]. by constructor.
    + intros h c Hne Hh x wx Hx Hwx Hd. destruct (I_sel _ _ _ _ _ _ HB h c Hne Hh x wx Hx Hwx Hd) as [Hi Ho]. split; [done|].
      intros Ec. destruct (Ho Ec) as [Hdi|[_ (q3 & Hl & Hin)]]; [by left|]. right. split; [done|]. unfold queued.
      cbn [connsPerHostWait set_connsPerHostWait]. rewrite lookup_insert. case_decide as Hkk; [|eauto].
      exists (pushBack w q'). split; [done|]. rewrite E2. apply elem_of_app. left.
      assert (q3 = q) as -> by (unfold q; by rewrite Hkk, Hl). rewrite E in Hin. apply elem_of_app in Hin as [Hin|Hin]; [|done].
      rewrite Forall_forall in Hpre. destruct (not_done t x wx Hwx Hd). by apply Hpre.
    + intros _ k'. destruct (I_count _ _ _ _ _ _ HB Hm k') as (H1 & H2 & H3 & H4). unfold count_ok. splits; try done.
      intros Hlt q3 Hl. cbn [connsPerHostWait set_connsPerHostWait] in Hl. rewrite lookup_insert in Hl. case_decide; [|by apply (H4 Hlt)].
      subst k'. change (tokens g None t (w_key wc) < MaxConnsPerHost o) in Hlt. lia.
Qed.

(** ** Closing *)
Definition close_frame t t' : Prop :=
  idleConn t' = idleConn t /\ idleConnWait t' = idleConnWait t /\ closeIdle t' = closeIdle t /\ idleLRU t' = idleLRU t
  /\ wants t' = wants t /\ ext t t'.

Lemma close_frame_InvA t t' : close_frame t t' -> InvA o t -> InvA o t'.
Proof.
  intros (H1 & H2 & _ & H4 & _ & He) HA. split.
  - rewrite H4. apply HA.
  - rewrite H1. intros k l Hl. apply (idle_list_ext t); [done|by rewrite H4|by apply (I_idle _ _ HA)].
  - rewrite H4. apply HA.
  - rewrite H1, H2. intros k l q Hl Hq. apply (ext_all_done t); [done|]. by apply (I_nowait _ _ HA k l q).
Qed.

Lemma persistConn_close_ok g me cur pc err t : InvB o g me cur None t -> is_Some (conns t !! pc) ->
  exists t', persistConn_close o pc err t = Ok (tt, t') /\ InvB o g me cur None t' /\ close_frame t t'.
Proof.
  intros HB [p Hp]. unfold persistConn_close. pstep (get_conn_run pc p t Hp). destruct (pc_closed p) eqn:Hc; cbn [is_set].
  { exists t. unfold close_frame. splits; try done. apply ext_refl. }
  pgo. set (p' := mkPersistConn _ _ _ _ _ _).
  assert (InvB o g me cur (Some (pc_cacheKey p)) (upd_conn pc p' t)) as HB1.
  { apply (InvB_upd_conn o g me cur None _ pc p); try done. right. done. }
  destruct (decConnsPerHost_ok g me cur (pc_cacheKey p) _ HB1) as (t' & Hrun & HB' & Hfr). exists t'. splits; [done|done|].
  pose proof (dial_frame_ext _ _ Hfr) as He. destruct Hfr as (H1 & H2 & H3 & H4 & H5 & H6).
  unfold close_frame. splits; try done. eapply ext_trans; [|exact He]. by apply (ext_upd_conn pc p).
Qed.

(** ** Leaving the idle list *)
Definition drop_idle k pc (m : gmap connectMethodKey (list Z)) : gmap connectMethodKey (list Z) :=
  match remove_first pc (default [] (m !! k)) with [] => delete k m | l => <[k := l]> m end.
Definition removed pc (p' : persistConn) (b : bool) t : Transport :=
  set_idleConn (if b then drop_idle (pc_cacheKey p') pc (idleConn t) else idleConn t)
    (set_idleLRU (filter (fun x => x <> pc) (idleLRU t)) (upd_conn pc p' t)).
Definition stop_timer (p : persistConn) : persistConn :=
  mkPersistConn (pc_cacheKey p) (pc_alt p) (pc_closed p) (pc_reused p) (pc_idleAt p)
    (match pc_idleTimer p with Some _ => Some false | None => None end).

Lemma removeIdleConnLocked_run pc p t : conns t !! pc = Some p ->
  removeIdleConnLocked pc t
  = let b := bool_decide (pc ∈ default [] (idleConn t !! pc_cacheKey p)) in Ok (b, removed pc (stop_timer p) b t).
Proof.
  intros Hp. unfold removeIdleConnLocked. pstep (get_conn_run pc p t Hp). unfold connLRU_remove. pgo.
  cbn [idleConn set_idleLRU upd_conn set_conns]. unfold removed, drop_idle, stop_timer. cbn [pc_cacheKey].
  destruct (default [] (idleConn t !! pc_cacheKey p)) as [|x [|y l]]; cbn [remove_first].
  - by rewrite bool_decide_false by apply not_elem_of_nil.
  - destruct (Z.eqb_spec x pc) as [->|Hne].
    + rewrite bool_decide_true by set_solver. done.
    + rewrite bool_decide_false by set_solver. done.
  - destruct (bool_decide_reflect (pc ∈ x :: y :: l)); [|done].
    destruct (Z.eqb_spec x pc) as [->|Hne]; [done|]. destruct (y =? pc); done.
Qed.

Lemma remove_first_spec pc l : NoDup l -> NoDup (remove_first pc l)
  /\ (forall x, x ∈ remove_first pc l <-> x ∈ l /\ x <> pc) /\ (length (remove_first pc l) <= length l)%nat.
Proof.
  induction 1 as [|x l Hx Hl (IH1 & IH2 & IH3)]; cbn [remove_first]; [splits; [constructor|set_solver|done]|].
  destruct (Z.eqb_spec x pc) as [->|Hne].
  - splits; [done| |cbn; lia]. intros y. rewrite elem_of_cons. split; [|tauto]. intros Hy. split; [by right|]. by intros ->.
  - splits; [| |cbn; lia].
    + constructor; [|done]. rewrite IH2. tauto.
    + intros y. rewrite !elem_of_cons, IH2. split; [|tauto]. intros [->|[? ?]]; tauto.
Qed.

Lemma InvA_removed pc p t : conns t !! pc = Some p -> NoDup (idleLRU t) ->
  (forall k l, idleConn t !! k = Some l -> l <> [] /\ NoDup l /\ len l <= maxIdleConnsPerHost o
     /\ Forall (fun x => (x = pc \/ x ∈ idleLRU t) /\ ckey t x = Some k) l) ->
  (MaxIdleConns o <> 0 -> len (idleLRU t) <= Z.max 0 (MaxIdleConns o)) ->
  (forall k l q, idleConn t !! k = Some l -> idleConnWait t !! k = Some q -> Forall (isdone t) (queue_items q)) ->
  InvA o (removed pc (stop_timer p) (bool_decide (pc ∈ default [] (idleConn t !! pc_cacheKey p))) t).
Proof.
  intros Hp Hn Hi Hm Hw. set (b := bool_decide _).
  assert (ext t (removed pc (stop_timer p) b t)) as He by apply (ext_upd_conn pc p (stop_timer p) t Hp eq_refl eq_refl).
  assert (forall k l', idleConn (removed pc (stop_timer p) b t) !! k = Some l' ->
    exists l, idleConn t !! k = Some l /\ l' <> [] /\ (pc ∉ l') /\ (l' = l \/ l' = remove_first pc l)) as Hlook.
  { intros k l'. cbn [idleConn removed set_idleConn]. destruct (bool_decide_reflect (pc ∈ default [] (idleConn t !! pc_cacheKey p))) as [Hin|Hnin]; subst b.
    - unfold drop_idle. cbn [stop_timer pc_cacheKey]. destruct (idleConn t !! pc_cacheKey p) as [l|] eqn:El; [|by apply not_elem_of_nil in Hin].
      destruct (Hi _ l El) as (_ & Hnd & _). destruct (remove_first_spec pc l Hnd) as (_ & Hsp & _).
      change (default [] (Some l)) with l in *. intros Hl.
      assert (k = pc_cacheKey p /\ l' = remove_first pc l /\ l' <> [] \/ k <> pc_cacheKey p /\ idleConn t !! k = Some l') as Hc.
      { destruct (remove_first pc l) as [|y r] eqn:Er; [rewrite lookup_delete in Hl|rewrite lookup_insert in Hl]; case_decide; try done; [by right| |by right].
        injection Hl as <-. by left. }
      destruct Hc as [(-> & -> & Hne)|[Hne Hl']].
      + exists l. splits; [done|done| |by right]. rewrite Hsp. tauto.
      + exists l'. destruct (Hi _ _ Hl') as (Hne' & _ & _ & Hf). splits; [done|done| |by left]. intros Hin'.
        rewrite Forall_forall in Hf. destruct (Hf _ Hin') as [_ Hk]. unfold ckey in Hk. rewrite Hp in Hk. by injection Hk as Hk.
    - intros Hl. exists l'. destruct (Hi _ _ Hl) as (Hne' & _ & _ & Hf). splits; [done|done| |by left]. intros Hin'.
      rewrite Forall_forall in Hf. destruct (Hf _ Hin') as [_ Hk]. unfold ckey in Hk. rewrite Hp in Hk. injection Hk as Hk. subst k.
      by rewrite Hl in Hnin. }
  split.
  - cbn [idleLRU removed set_idleConn set_idleLRU]. by apply NoDup_filter.
  - intros k l' Hl'. destruct (Hlook k l' Hl') as (l & Hl & Hne & Hnot & Hor). destruct (Hi k l Hl) as (_ & Hnd & Hlen & Hf).
    destruct (remove_first_spec pc l Hnd) as (Hnd' & Hsp & Hlen').
    assert (forall x, x ∈ l' -> x ∈ l) as Hsub by (destruct Hor as [->| ->]; [done|intros x; rewrite Hsp; tauto]).
    unfold idle_list. splits; [done|by destruct Hor as [->| ->]|destruct Hor as [->| ->]; unfold len in *; lia|].
    apply Forall_forall. intros x Hx. rewrite Forall_forall in Hf. destruct (Hf x (Hsub x Hx)) as [Hx1 Hx2].
    split; [|by apply (ext_ckey t)]. cbn [idleLRU removed set_idleConn set_idleLRU]. apply list_elem_of_filter.
    assert (x <> pc) by (intros ->; done). split; [done|]. by destruct Hx1.
  - intros Hm0. specialize (Hm Hm0). cbn [idleLRU removed set_idleConn set_idleLRU].
    pose proof (length_filter (fun x => x <> pc) (idleLRU t)). unfold len in *. lia.
  - intros k l' q Hl' Hq. destruct (Hlook k l' Hl') as (l & Hl & _). apply (ext_all_done t); [done|]. by apply (Hw k l q).
Qed.
Lemma InvB_removed g me cur tok pc p b t : InvB o g me cur tok t -> conns t !! pc = Some p ->
  InvB o g me cur tok (removed pc (stop_timer p) b t).
Proof.
  intros HB Hp. assert (InvB o g me cur tok (set_idleLRU (filter (fun x => x <> pc) (idleLRU t)) (upd_conn pc (stop_timer p) t))) as HB'.
  { apply InvB_lru_sub; [|intros x Hx; by apply list_elem_of_filter in Hx as [_ ?]].
    apply (InvB_upd_conn o g me cur tok tok pc p); try done. by left. }
  split; try apply HB'.
Qed.

Lemma removeIdleConnLocked_ok g me cur tok pc t : InvA o t -> InvB o g me cur tok t -> is_Some (conns t !! pc) ->
  exists b t', removeIdleConnLocked pc t = Ok (b, t') /\ InvA o t' /\ InvB o g me cur tok t' /\ ext t t'.
Proof.
  intros HA HB [p Hp]. rewrite (removeIdleConnLocked_run pc p t Hp). do 2 eexists. split; [reflexivity|].
  splits; [|by apply InvB_removed|exact (ext_upd_conn pc p (stop_timer p) t Hp eq_refl eq_refl)].
  apply InvA_removed; try apply HA; [done|]. intros k l Hl. destruct (I_idle _ _ HA k l Hl) as (? & ? & ? & Hf).
  splits; try done. eapply Forall_impl; [exact Hf|]. intros x [? ?]. split; [by right|done].
Qed.

Lemma closeConnIfStillIdle_ok g me cur pc t : InvA o t -> InvB o g me cur None t -> is_Some (conns t !! pc) ->
  exists t', closeConnIfStillIdle o pc t = Ok (tt, t') /\ InvA o t' /\ InvB o g me cur None t' /\ ext t t'.
Proof.
  intros HA HB Hp. unfold closeConnIfStillIdle. pgo. destruct (bool_decide_reflect (pc ∈ idleLRU t)) as [Hin|]; cbn [negb].
  - destruct (removeIdleConnLocked_ok g me cur None pc t HA HB Hp) as (b & t1 & Hrun & HA1 & HB1 & He1). pstep Hrun.
    destruct (persistConn_close_ok g me cur pc errIdleConnTimeout t1 HB1) as (t2 & Hrun2 & HB2 & Hfr); [by apply (ext_conn t)|].
    exists t2. splits; [done|by apply (close_frame_InvA t1)|done|]. eapply ext_trans; [exact He1|]. apply Hfr.
  - exists t. splits; try done. apply ext_refl.
Qed.

(** ** Delivering *)
Definition delivered_want (wc : wantConn) (r : connOrError) : wantConn :=
  mkWantConn (w_key wc) false (w_cancelCtx wc) (w_ctxCanceled wc) true (Some r) true.

(** [tryDeliver] does nothing when the request is done, or gives it the connection
    the goroutine has (or a shared one). *)
Lemma tryDeliver_pc_run g me cur tok w wc pc idleAt t : InvB o g me cur tok t -> wants t !! w = Some wc ->
  tryDeliver w (Some pc) None idleAt t
  = if w_done wc then Ok (false, t)
    else Ok (true, upd_want w (delivered_want wc (mkConnOrError (Some pc) None idleAt)) t).
Proof.
  intros HB Hw. unfold tryDeliver. pstep (get_want_run w wc t Hw).
  destruct (I_want _ _ _ _ _ _ HB w wc Hw) as (H1 & H2 & H3). destruct (w_done wc) eqn:Hd; [done|].
  rewrite H1. cbn [is_set negb Bool.eqb]. destruct (w_result wc) as [r|] eqn:Hr; [by destruct (H3 r eq_refl)|done].
Qed.
Lemma InvB_delivered g me cur tok w wc pc idleAt t : InvB o g me cur tok t -> wants t !! w = Some wc ->
  w_done wc = false -> ckey t pc = Some (w_key wc) -> cur = Some pc \/ ~ is_h1 t pc ->
  let t' := upd_want w (delivered_want wc (mkConnOrError (Some pc) None idleAt)) t in
  InvB o g me None tok t' /\ isdone t' w /\ ext t t'.
Proof.
  intros HB Hw Hd Hk Hc t'. assert (ext t t') as He by by apply (ext_upd_want w wc).
  splits; [|exists (delivered_want wc (mkConnOrError (Some pc) None idleAt)); split; [apply lookup_insert_eq|done]|done].
  apply (InvB_upd_want o g me cur _ tok w wc); try done.
  - unfold want_ok. splits; try done. intros r [= <-]. done.
  - right. left. exists pc. splits; try done.
  - left. intros _. left. by eexists.
Qed.
Lemma tryDeliver_pc_ok g me cur tok w wc pc idleAt t : InvB o g me cur tok t -> wants t !! w = Some wc ->
  ckey t pc = Some (w_key wc) -> cur = Some pc \/ ~ is_h1 t pc ->
  w_done wc = true /\ tryDeliver w (Some pc) None idleAt t = Ok (false, t)
  \/ exists t', w_done wc = false /\ tryDeliver w (Some pc) None idleAt t = Ok (true, t')
      /\ t' = upd_want w (delivered_want wc (mkConnOrError (Some pc) None idleAt)) t
      /\ InvB o g me None tok t' /\ isdone t' w /\ ext t t'.
Proof.
  intros HB Hw Hk Hc. rewrite (tryDeliver_pc_run g me cur tok w wc) by done. destruct (w_done wc) eqn:Hd; [by left|right].
  destruct (InvB_delivered g me cur tok w wc pc idleAt t HB Hw Hd Hk Hc) as (? & ? & ?). eexists. splits; done.
Qed.
(** What a delivery leaves alone. *)
Definition deliver_frame t t' : Prop :=
  idleConn t' = idleConn t /\ idleConnWait t' = idleConnWait t /\ closeIdle t' = closeIdle t /\ idleLRU t' = idleLRU t
  /\ conns t' = conns t /\ ext t t'.
Lemma deliver_frame_refl t : deliver_frame t t. Proof. unfold deliver_frame. splits; try done. apply ext_refl. Qed.
Lemma deliver_frame_InvA t t' : deliver_frame t t' -> InvA o t -> InvA o t'.
Proof.
  intros (H1 & H2 & _ & H4 & _ & He) HA. split; [rewrite H4; apply HA| |rewrite H4; apply HA|].
  - rewrite H1. intros k l Hl. apply (idle_list_ext t); [done|by rewrite H4|by apply (I_idle _ _ HA)].
  - rewrite H1, H2. intros k l q Hl Hq. apply (ext_all_done t); [done|]. by apply (I_nowait _ _ HA k l q).
Qed.

Lemma tryDeliver_err_ok g me cur tok w wc err t : InvB o g me cur tok t -> wants t !! w = Some wc ->
  exists b t', tryDeliver w None (Some err) 0 t = Ok (b, t') /\ InvB o g me cur tok t' /\ isdone t' w /\ deliver_frame t t'.
Proof.
  intros HB Hw. unfold tryDeliver. pstep (get_want_run w wc t Hw).
  destruct (I_want _ _ _ _ _ _ HB w wc Hw) as (H1 & H2 & H3). destruct (w_done wc) eqn:Hd.
  { exists false, t. splits; try done; [by exists wc|apply deliver_frame_refl]. }
  rewrite H1. cbn [is_set negb Bool.eqb]. destruct (w_result wc) as [r|] eqn:Hr; [by destruct (H3 r eq_refl)|]. cbn [is_set].
  pgo. set (wc' := mkWantConn _ _ _ _ _ _ _). exists true, (upd_want w wc' t). split; [done|].
  splits; try done; [|exists wc'; split; [apply lookup_insert_eq|done]|unfold deliver_frame; splits; try done; by apply (ext_upd_want w wc)].
  apply (InvB_upd_want o g me cur _ tok w wc); try done.
  - unfold want_ok. splits; try done. intros r [= <-]. by split; [|eexists].
  - left. split; [|done]. by left.
  - left. intros _. left. by eexists.
Qed.

Lemma deliverOne_ok g me tok k pc : forall fuel q t, InvB o g me (Some pc) tok t -> ckey t pc = Some k ->
  waitq_ok t k q -> len (queue_items q) <= Z.of_nat fuel ->
  exists b q' pre t', deliverOne fuel pc q t = Ok ((b, q'), t') /\ queue_ok q' /\ queue_items q = pre ++ queue_items q'
    /\ Forall (isdone t') pre /\ deliver_frame t t'
    /\ if b then InvB o g me None tok t' else t' = t /\ queue_items q' = [].
Proof.
  induction fuel as [|fuel IH]; intros q t HB Hck [Hq Hf] Hl; cbn [deliverOne]; rewrite (queue_len_pos q Hq);
    revert Hf Hl; destruct (queue_items q) as [|w l] eqn:E; intros Hf Hl.
  1,3: rewrite bool_decide_true by done; cbn [negb]; exists false, q, [], t; rewrite E; splits; try done; apply deliver_frame_refl.
  - rewrite len_cons in Hl. pose proof (len_nonneg l). lia.
  - rewrite bool_decide_false by done. cbn [negb]. destruct (pop_run q w l Hq E) as (q1 & -> & Hq1 & E1).
    apply Forall_cons in Hf as [Hk Hf]. destruct (wkey_want t w k Hk) as (wc & Hw & Hwk). cbn [deref]. pgo.
    destruct (tryDeliver_pc_ok g me (Some pc) tok w wc pc 0 t HB Hw) as [[Hd Hrun]|(t' & Hd & Hrun & Ht' & HB' & Hdn & He)];
      [by rewrite Hwk|by left| |].
    + pstep Hrun. destruct (IH q1 t HB Hck) as (b & q' & pre & t' & Hrun' & Hq' & E' & Hpre & Hfr & Hb).
      { split; [done|by rewrite E1]. } { rewrite E1. rewrite len_cons in Hl. lia. }
      exists b, q', (w :: pre), t'. splits; try done; [cbn; congruence|].
      constructor; [|done]. apply (ext_done t); [apply Hfr|]. by exists wc.
    + pstep Hrun. exists true, q1, [w], t'. splits; try done; [cbn; congruence|by constructor|]. subst t'. by unfold deliver_frame; splits.
Qed.
Lemma deliverAll_ok g me tok k pc : forall fuel q t, InvB o g me None tok t -> ckey t pc = Some k -> ~ is_h1 t pc ->
  waitq_ok t k q -> len (queue_items q) <= Z.of_nat fuel ->
  exists q' t', deliverAll fuel pc q t = Ok (q', t') /\ queue_ok q' /\ queue_items q' = []
    /\ Forall (isdone t') (queue_items q) /\ deliver_frame t t' /\ InvB o g me None tok t'.
Proof.
  induction fuel as [|fuel IH]; intros q t HB Hck Hh1 [Hq Hf] Hl; cbn [deliverAll]; rewrite (queue_len_pos q Hq);
    revert Hf Hl; destruct (queue_items q) as [|w l] eqn:E; intros Hf Hl.
  1,3: rewrite bool_decide_true by done; cbn [negb]; exists q, t; splits; try done; apply deliver_frame_refl.
  - rewrite len_cons in Hl. pose proof (len_nonneg l). lia.
  - rewrite bool_decide_false by done. cbn [negb]. destruct (pop_run q w l Hq E) as (q1 & -> & Hq1 & E1).
    apply Forall_cons in Hf as [Hk Hf]. destruct (wkey_want t w k Hk) as (wc & Hw & Hwk). cbn [deref]. pgo.
    assert (exists b t1, tryDeliver w (Some pc) None 0 t = Ok (b, t1) /\ deliver_frame t t1 /\ InvB o g me None tok t1 /\ isdone t1 w)
      as (b & t1 & Hrun & Hfr1 & HB1 & Hd1).
    { destruct (tryDeliver_pc_ok g me None tok w wc pc 0 t HB Hw) as [[Hd Hrun]|(t' & Hd & Hrun & Ht' & HB' & Hdn & He)];
        [by rewrite Hwk|by right| |].
      - exists false, t. splits; try done; [apply deliver_frame_refl|by exists wc].
      - exists true, t'. splits; try done. subst t'. by unfold deliver_frame; splits. }
    pstep Hrun. assert (ext t t1) as He1 by apply Hfr1.
    destruct (IH q1 t1 HB1) as (q' & t' & Hrun' & Hq' & E' & Hpre & Hfr & HB').
    { eauto with pool. }
    { intros Hx. apply Hh1. apply (ext_h1 t t1); [done| |done]. unfold ckey in Hck. destruct (conns t !! pc); [eauto|done]. }
    { split; [done|]. rewrite E1. eapply Forall_impl; [exact Hf|]. intros x. by apply ext_wkey. }
    { rewrite E1. rewrite len_cons in Hl. lia. }
    exists q', t'. splits; try done.
    + rewrite E1 in Hpre. constructor; [|done]. apply (ext_done t1); [apply Hfr|done].
    + destruct Hfr as (? & ? & ? & ? & ? & ?), Hfr1 as (? & ? & ? & ? & ? & ?).
      unfold deliver_frame. splits; try congruence. by eapply ext_trans.
Qed.

(** The queue of waiting requests without its first elements, which are done. *)
Lemma Inv_waitq_shrink g me cur tok k q q' pre t : InvA o t -> InvB o g me cur tok t -> idleConnWait t !! k = Some q ->
  queue_ok q' -> queue_items q = pre ++ queue_items q' -> Forall (isdone t) pre ->
  InvA o (set_idleConnWait (store_queue k q' (idleConnWait t)) t)
  /\ InvB o g me cur tok (set_idleConnWait (store_queue k q' (idleConnWait t)) t).
Proof.
  intros HA HB Hk Hq' E Hpre. destruct (I_waitq _ _ _ _ _ _ HB k q Hk) as [Hq Hf]. rewrite E in Hf. apply Forall_app in Hf as [_ Hf].
  split; split; try apply HA; try apply HB.
  - intros k' l q2 Hl Hl2. apply store_queue_lookup in Hl2 as [(-> & -> & _)|[_ Hl2]]; [|by apply (I_nowait _ _ HA k' l)|done].
    pose proof (I_nowait _ _ HA k l q Hl Hk) as Hd. rewrite E in Hd. by apply Forall_app in Hd as [_ Hd].
  - intros k' q2 Hl. apply store_queue_lookup in Hl as [(-> & -> & _)|[_ Hl]]; [|by apply (I_waitq _ _ _ _ _ _ HB k' q2)|done]. by split.
  - intros h c Hne Hh w wc Hw Hwc Hwd. destruct (I_sel _ _ _ _ _ _ HB h c Hne Hh w wc Hw Hwc Hwd) as [Hi Ho].
    split; [|done]. intros Hka. specialize (Hi Hka). destruct (decide (w_key wc = k)) as [Ek|Hne']; [|by apply store_queue_other].
    destruct Hi as (q2 & Hl & Hin). rewrite Ek, Hk in Hl. injection Hl as <-. rewrite E in Hin.
    apply elem_of_app in Hin as [Hin|Hin]; [|rewrite Ek; by apply store_queue_queued].
    rewrite Forall_forall in Hpre. destruct (not_done t w wc Hwc Hwd). by apply Hpre.
Qed.

(** ** Putting a connection back *)
Lemma InvB_idle g me cur tok m t : InvB o g me cur tok t -> InvB o g me cur tok (set_idleConn m t).
Proof. intros HB. split; apply HB. Qed.

(** [removeOldest], [close] and [removeIdleConnLocked]: the eviction of the least
    recently used connection, from a state whose LRU list may exceed the limit by
    one. *)
Lemma evict_ok g me cur t : InvB o g me cur None t -> NoDup (idleLRU t) -> idleLRU t <> [] ->
  (forall k l, idleConn t !! k = Some l -> idle_list o t k l) ->
  len (idleLRU t) <= Z.max 0 (MaxIdleConns o) + 1 ->
  (forall k l q, idleConn t !! k = Some l -> idleConnWait t !! k = Some q -> Forall (isdone t) (queue_items q)) ->
  exists t', (oldest <- connLRU_removeOldest ;; persistConn_close o oldest errTooManyIdle ;;
              removeIdleConnLocked oldest ;; pret tt) t = Ok (tt, t')
    /\ InvA o t' /\ InvB o g me cur None t' /\ ext t t'.
Proof.
  intros HB Hnd Hne Hi Hl Hw. unfold connLRU_removeOldest. pgo.
  destruct (idleLRU t) as [|old l _] eqn:El using rev_ind; [done|]. rewrite last_snoc. pgo.
  rewrite length_app. cbn [length]. replace (pred (length l + 1)) with (length l) by lia. rewrite take_app_length.
  set (t3 := set_idleLRU l t).
  assert (InvB o g me cur None t3) as HB3 by (apply InvB_lru_sub; [done|rewrite El; set_solver]).
  destruct (I_lru_conns _ _ _ _ _ _ HB old) as [p Hp]; [rewrite El; set_solver|].
  destruct (persistConn_close_ok g me cur old errTooManyIdle t3 HB3) as (t4 & Hrun & HB4 & H1 & H2 & H3 & H4 & H5 & He); [by exists p|].
  pstep Hrun. destruct (ext_conn t3 t4 old He) as [p4 Hp4]; [by exists p|].
  pose proof (removeIdleConnLocked_run old p4 t4 Hp4) as Hrm. cbv zeta in Hrm. pstep Hrm.
  eexists. split; [reflexivity|].
  assert (ext t t4) as Het by exact He. apply NoDup_app in Hnd as (Hnd & Hdisj & _).
  splits; [|by apply InvB_removed|].
  - apply InvA_removed; [done|by rewrite H4| |rewrite H4; cbn [idleLRU t3 set_idleLRU]|].
    + rewrite H1. intros k l' Hl'. destruct (Hi k l' Hl') as (? & ? & ? & Hf). splits; try done.
      eapply Forall_impl; [exact Hf|]. intros x [Hx ?]. split; [|by apply (ext_ckey t)].
      rewrite El in Hx. rewrite H4. cbn [idleLRU t3 set_idleLRU]. set_solver.
    + intros _. unfold len in *. rewrite length_app in Hl. cbn in Hl. lia.
    + rewrite H1, H2. intros k l' q Hl' Hq. apply (ext_all_done t); [done|]. by apply (Hw k l' q).
  - eapply ext_trans; [exact Het|]. exact (ext_upd_conn old p4 (stop_timer p4) t4 Hp4 eq_refl eq_refl).
Qed.

Lemma addIdleConn_ok g me cur now pc p t : InvA o t -> InvB o g me cur None t -> conns t !! pc = Some p ->
  cur = Some pc \/ ~ is_h1 t pc -> pc ∉ idleLRU t ->
  (forall q, idleConnWait t !! pc_cacheKey p = Some q -> Forall (isdone t) (queue_items q)) ->
  exists r t', addIdleConn o now pc t = Ok (r, t') /\ InvA o t' /\ InvB o g me None None t' /\ ext t t'.
Proof.
  intros HA HB Hp Hc Hnot Hw. unfold addIdleConn. pstep (get_conn_run pc p t Hp).
  set (idles := default [] (idleConn t !! pc_cacheKey p)).
  destruct (Z.leb_spec (maxIdleConnsPerHost o) (len idles)) as [Hge|Hlt].
  { do 2 eexists. splits; [done|done|by apply InvB_drop in HB|apply ext_refl]. }
  assert (NoDup idles /\ Forall (fun x => x ∈ idleLRU t /\ ckey t x = Some (pc_cacheKey p)) idles) as [Hnd Hf].
  { unfold idles. destruct (idleConn t !! pc_cacheKey p) as [l|] eqn:E; [|by split; constructor].
    destruct (I_idle _ _ HA _ l E) as (_ & ? & _ & ?). done. }
  assert (pc ∉ idles) as Hni by (intros Hin; rewrite Forall_forall in Hf; by destruct (Hf _ Hin)).
  rewrite bool_decide_false by done. pgo. unfold connLRU_add. pgo. cbn [idleLRU set_idleConn].
  rewrite bool_decide_false by done. pgo. set (t1 := set_idleConn (<[pc_cacheKey p := idles ++ [pc]]> (idleConn t)) t).
  set (t2 := set_idleLRU (pc :: idleLRU t) t1).
  assert (InvB o g me None None t2) as HB2 by (apply (InvB_lru_add o g me cur None pc t1); [by apply InvB_idle|by exists p|done]).
  assert (forall k l, idleConn t2 !! k = Some l -> idle_list o t2 k l) as Hi2.
  { intros k l. cbn [idleConn t2 set_idleLRU t1 set_idleConn]. rewrite lookup_insert. case_decide as Hk.
    - intros [= <-]. subst k. unfold idle_list. splits; [by destruct idles| |rewrite len_app, len_cons, len_nil; lia|].
      + apply NoDup_app. splits; [done|set_solver|apply NoDup_singleton].
      + apply Forall_app. split; [eapply Forall_impl; [exact Hf|]; intros x [? ?]; split; [by right|done]|].
        constructor; [|done]. split; [by left|]. unfold ckey. cbn. by rewrite Hp.
    - intros Hl. apply (idle_list_ext t t2); [exact (ext_refl t)|by right|by apply (I_idle _ _ HA)]. }
  assert (forall k l q, idleConn t2 !! k = Some l -> idleConnWait t2 !! k = Some q -> Forall (isdone t2) (queue_items q)) as Hw2.
  { intros k l q. cbn [idleConn t2 set_idleLRU t1 set_idleConn]. rewrite lookup_insert. case_decide as Hk.
    - subst k. intros _ Hq. exact (Hw q Hq).
    - intros Hl Hq. exact (I_nowait _ _ HA k l q Hl Hq). }
  assert (NoDup (idleLRU t2)) as Hn2 by (constructor; [done|apply HA]).
  assert (exists t3, (if negb (MaxIdleConns o =? 0) && (MaxIdleConns o <? len (idleLRU t2))
      then oldest <- connLRU_removeOldest ;; persistConn_close o oldest errTooManyIdle ;; removeIdleConnLocked oldest ;; pret tt
      else pret tt) t2 = Ok (tt, t3) /\ InvA o t3 /\ InvB o g me None None t3 /\ ext t2 t3) as (t3 & Hrun & HA3 & HB3 & He3).
  { pose proof (I_max _ _ HA) as Hm. destruct (negb (MaxIdleConns o =? 0) && (MaxIdleConns o <? len (idleLRU t2))) eqn:Ev.
    - apply andb_true_iff in Ev as [E1 E2]. apply negb_true_iff, Z.eqb_neq in E1. specialize (Hm E1).
      apply evict_ok; try done. cbn [idleLRU t2 set_idleLRU]. rewrite len_cons. lia.
    - exists t2. splits; [done| |done|apply ext_refl]. split; try done. intros E1. specialize (Hm E1).
      apply andb_false_iff in Ev as [Ev|Ev]; [apply negb_false_iff, Z.eqb_eq in Ev; lia|]. apply Z.ltb_ge in Ev. lia. }
  pstep Hrun. destruct (ext_conn t2 t3 pc He3) as [p3 Hp3]; [by exists p|]. pstep (get_conn_run pc p3 t3 Hp3).
  set (p4 := mkPersistConn _ _ _ _ _ _). do 2 eexists. split; [reflexivity|].
  splits; [by apply (InvA_upd_conn o pc p3)| |].
  - apply (InvB_upd_conn o g me None None None pc p3); try done. by left.
  - eapply ext_trans; [|exact (ext_upd_conn pc p3 p4 t3 Hp3 eq_refl eq_refl)]. exact He3.
Qed.

Lemma tryPutIdleConn_check_ok g me cur tok pc t : InvA o t -> InvB o g me cur tok t -> is_Some (conns t !! pc) ->
  exists r t', tryPutIdleConn_check o pc t = Ok (r, t') /\ InvA o t' /\ InvB o g me cur tok t' /\ ext t t'.
Proof.
  intros HA HB [p Hp]. unfold tryPutIdleConn_check. destruct (_ || _).
  { do 2 eexists. splits; [done|done|done|apply ext_refl]. }
  unfold isBroken. pgo. pstep (get_conn_run pc p t Hp). destruct (is_set (pc_closed p)).
  { do 2 eexists. splits; [done|done|done|apply ext_refl]. }
  pstep (get_conn_run pc p t Hp). set (p4 := mkPersistConn _ _ _ _ _ _). do 2 eexists. split; [reflexivity|].
  splits; [by apply (InvA_upd_conn o pc p)| |exact (ext_upd_conn pc p p4 t Hp eq_refl eq_refl)].
  apply (InvB_upd_conn o g me cur tok tok pc p); try done. by left.
Qed.

Lemma deliverToWaiters_ok g me pc p t : InvA o t -> InvB o g me (Some pc) None t -> conns t !! pc = Some p ->
  exists b t', deliverToWaiters pc p t = Ok (b, t') /\ InvA o t'
    /\ InvB o g me (if b then None else if pc_alt p then None else Some pc) None t'
    /\ ext t t' /\ idleLRU t' = idleLRU t /\ conns t' = conns t
    /\ (b = false -> forall q, idleConnWait t' !! pc_cacheKey p = Some q -> Forall (isdone t') (queue_items q)).
Proof.
  intros HA HB Hp. unfold deliverToWaiters. pgo. destruct (idleConnWait t !! pc_cacheKey p) as [q|] eqn:Eq.
  2: { exists false, t. splits; [done|done|destruct (pc_alt p); [by apply InvB_drop in HB|done]|apply ext_refl|done|done|].
       intros _ q. by rewrite Eq. }
  pose proof (I_waitq _ _ _ _ _ _ HB _ q Eq) as Hq. assert (ckey t pc = Some (pc_cacheKey p)) as Hck by (unfold ckey; by rewrite Hp).
  assert (len (queue_items q) <= Z.of_nat (queue_fuel q)) as Hfuel.
  { unfold queue_fuel. rewrite (queue_len_items q) by apply Hq. lia. }
  assert (exists b q' pre t1, (if negb (pc_alt p) then deliverOne (queue_fuel q) pc q
       else q <- deliverAll (queue_fuel q) pc q ;; pret (false, q)) t = Ok ((b, q'), t1)
     /\ queue_ok q' /\ queue_items q = pre ++ queue_items q' /\ Forall (isdone t1) pre /\ deliver_frame t t1
     /\ InvB o g me (if b then None else if pc_alt p then None else Some pc) None t1 /\ (b = false -> queue_items q' = []))
    as (b & q' & pre & t1 & Hrun & Hq' & E & Hpre & Hfr & HB1 & Hb).
  { destruct (pc_alt p) eqn:Ha; cbn [negb].
    - assert (~ is_h1 t pc) as Hh1 by (intros (p' & Hp' & Ha'); congruence).
      destruct (deliverAll_ok g me None (pc_cacheKey p) pc (queue_fuel q) q t) as (q' & t1 & Hrun & Hq' & E & Hd & Hfr & HB1);
        [by apply InvB_drop in HB|done|done|done|done|]. pstep Hrun. exists false, q', (queue_items q), t1.
      splits; try done. by rewrite E, app_nil_r.
    - destruct (deliverOne_ok g me None (pc_cacheKey p) pc (queue_fuel q) q t HB Hck Hq Hfuel) as (b & q' & pre & t1 & Hrun & Hq' & E & Hpre & Hfr & Hb).
      exists b, q', pre, t1. splits; try done; [destruct b; [done|by destruct Hb as [-> _]]|]. intros ->. by destruct Hb. }
  pstep Hrun. pose proof (deliver_frame_InvA t t1 Hfr HA) as HA1. destruct Hfr as (H1 & H2 & H3 & H4 & H5 & He).
  destruct (Inv_waitq_shrink g me _ None (pc_cacheKey p) q q' pre t1 HA1 HB1) as [HA2 HB2]; [by rewrite H2|done|done|done|].
  do 2 eexists. split; [reflexivity|]. splits; [done|done|done|done|done|]. intros Hbf q2 Hq2.
  apply store_queue_lookup in Hq2 as [(_ & -> & Hne)|[? _]]; [|done|done]. by destruct (Hne (Hb Hbf)).
Qed.

Lemma tryPutIdleConn_locked_ok g me now pc t : InvA o t -> InvB o g me (Some pc) None t ->
  exists r t', tryPutIdleConn_locked o now pc t = Ok (r, t') /\ InvA o t' /\ InvB o g me None None t' /\ ext t t'.
Proof.
  intros HA HB. destruct (I_cur _ _ _ _ _ _ HB pc eq_refl) as [p Hp]. unfold tryPutIdleConn_locked.
  pstep (get_conn_run pc p t Hp). destruct (pc_alt p && bool_decide (pc ∈ idleLRU t)) eqn:Ealt.
  { exists None, t. splits; [done|done|by apply InvB_drop in HB|apply ext_refl]. }
  assert (pc ∉ idleLRU t) as Hnot.
  { intros Hin. rewrite bool_decide_true, andb_true_r in Ealt by done.
    assert (LCur = LLRU) as E; [|done]. apply (I_excl _ _ _ _ _ _ HB pc); [by exists p|done|done]. }
  destruct (deliverToWaiters_ok g me pc p t HA HB Hp) as (b & t1 & Hrun & HA1 & HB1 & He1 & Hl1 & Hc1 & Hd1).
  pstep Hrun. destruct b. { exists None, t1. splits; try done. }
  pgo. destruct (closeIdle t1). { exists (Some errCloseIdle), t1. splits; try done. by apply InvB_drop in HB1. }
  destruct (addIdleConn_ok g me (if pc_alt p then None else Some pc) now pc p t1 HA1 HB1) as (r & t2 & Hrun2 & HA2 & HB2 & He2).
  - by rewrite Hc1.
  - destruct (pc_alt p) eqn:Ea; [right|by left]. intros (p' & Hp' & Ha'). rewrite Hc1, Hp in Hp'. congruence.
  - by rewrite Hl1.
  - by apply Hd1.
  - exists r, t2. splits; try done. by eapply ext_trans.
Qed.

(** ** Asking for a connection *)
Definition pick_frame t t' : Prop :=
  idleConn t' = idleConn t /\ idleConnWait t' = idleConnWait t /\ conns t' = conns t /\ ext t t'.
Lemma pick_frame_trans t1 t2 t3 : pick_frame t1 t2 -> pick_frame t2 t3 -> pick_frame t1 t3.
Proof.
  intros (? & ? & ? & ?) (? & ? & ? & ?). unfold pick_frame. splits; try congruence. by eapply ext_trans.
Qed.

Lemma pickIdle_ok g me now w : forall rl t wc, InvB o g me None None t -> wants t !! w = Some wc -> NoDup rl ->
  Forall (fun pc => pc ∈ idleLRU t /\ ckey t pc = Some (w_key wc)) rl ->
  exists r rest pre t', pickIdle o now w rl t = Ok ((r, rest), t') /\ InvB o g me None None t' /\ pick_frame t t'
    /\ rl = pre ++ rest
    /\ (idleLRU t' = idleLRU t \/ exists pc, (pc ∉ rest) /\ (pc ∈ pre) /\ idleLRU t' = filter (fun x => x <> pc) (idleLRU t))
    /\ match r with None => rest = [] | Some _ => isdone t' w end.
Proof.
  induction rl as [|pc rl IH]; intros t wc HB Hw Hnd Hf; cbn [pickIdle].
  { exists None, [], [], t. splits; try done; [unfold pick_frame; splits; try done; apply ext_refl|by left]. }
  apply Forall_cons in Hf as [[Hin Hck] Hf]. apply NoDup_cons in Hnd as [Hnot Hnd].
  destruct (I_lru_conns _ _ _ _ _ _ HB pc Hin) as [p Hp]. pstep (get_conn_run pc p t Hp).
  set (tooOld := (0 <? IdleConnTimeout o) && _).
  assert (exists t1, (if tooOld then spawn (GCloseIfIdle pc) else pret tt) t = Ok (tt, t1) /\ InvB o g me None None t1
    /\ pick_frame t t1 /\ idleLRU t1 = idleLRU t /\ wants t1 = wants t) as (t1 & Hrun & HB1 & Hfr1 & Hl1 & Hw1).
  { destruct tooOld.
    - exists (spawned (GCloseIfIdle pc) t). splits; try done.
      + apply (InvB_spawn o g me None None None); try done; [by exists p|]. by left.
      + unfold pick_frame. splits; try done. exact (ext_refl t).
    - exists t. splits; try done. unfold pick_frame. splits; try done. apply ext_refl. }
  pstep Hrun. assert (ext t t1) as He1 by apply Hfr1. assert (wants t1 !! w = Some wc) as Hw1' by by rewrite Hw1.
  destruct (is_set (pc_closed p) || tooOld) eqn:Eskip.
  { destruct (IH t1 wc HB1 Hw1' Hnd) as (r & rest & pre & t' & Hrun' & HB' & Hfr & E & Hl & Hr).
    { eapply Forall_impl; [exact Hf|]. rewrite Hl1. intros x [? ?]. split; [done|by apply (ext_ckey t)]. }
    exists r, rest, (pc :: pre), t'. splits; try done; [by eapply pick_frame_trans|cbn; congruence|].
    rewrite <- Hl1. destruct Hl as [Hl|(x & ? & ? & ?)]; [by left|right]. exists x. splits; [done|by right|done]. }
  clear IH. assert (ckey t1 pc = Some (w_key wc)) as Hck1 by by apply (ext_ckey t).
  pose proof (tryDeliver_pc_run g me None None w wc pc (pc_idleAt p) t1 HB1 Hw1') as Hrun2.
  destruct (w_done wc) eqn:Hd.
  { pstep Hrun2. exists (Some false), (pc :: rl), [], t1. splits; try done; [by left|by exists wc]. }
  pstep Hrun2. destruct Hfr1 as (F1 & F2 & F3 & F4). destruct (pc_alt p) eqn:Ha.
  - destruct (InvB_delivered g me None None w wc pc (pc_idleAt p) t1 HB1 Hw1' Hd Hck1) as (HB2 & Hdn & He2).
    { right. intros (p' & Hp' & Ha'). rewrite F3 in Hp'. congruence. }
    exists (Some true), (pc :: rl), []. eexists. split; [reflexivity|]. splits; try done; [|by left].
    unfold pick_frame. splits; try done. by eapply ext_trans.
  - set (l := filter (fun x => x <> pc) (idleLRU t1)).
    assert (InvB o g me (Some pc) None (set_idleLRU l t1)) as HBa.
    { apply InvB_lru_take; [done|by rewrite Hl1|intros x Hx; by apply list_elem_of_filter in Hx as [_ ?]|].
      unfold l. rewrite list_elem_of_filter. tauto. }
    destruct (InvB_delivered g me (Some pc) None w wc pc (pc_idleAt p) _ HBa Hw1' Hd Hck1) as (HB2 & Hdn & He2); [by left|].
    unfold connLRU_remove. pgo. exists (Some true), rl, [pc]. eexists. split; [reflexivity|].
    splits; [exact HB2| |done|right; exists pc; splits; [done|by left|by unfold l; rewrite <- Hl1]|exact Hdn].
    unfold pick_frame. splits; try done. eapply ext_trans; [exact He1|exact He2].
Qed.

Lemma queueForIdleConn_ok g me now w wc t : InvA o t -> InvB o g me None None t -> wants t !! w = Some wc ->
  exists b t', queueForIdleConn o now w t = Ok (b, t') /\ InvA o t' /\ InvB o g me None None t' /\ ext t t'
    /\ (isdone t' w \/ b = false /\ (DisableKeepAlives o = false -> queued (idleConnWait t') w (w_key wc))).
Proof.
  intros HA HB Hw. unfold queueForIdleConn. destruct (DisableKeepAlives o) eqn:Hka.
  { exists false, t. splits; try done; [apply ext_refl|by right]. }
  pgo. set (t0 := set_closeIdle false t).
  assert (InvA o t0) as HA0 by (split; apply HA). assert (InvB o g me None None t0) as HB0 by (split; apply HB).
  pstep (get_want_run w wc t0 Hw). 
  assert (exists r t1, (match idleConn t0 !! w_key wc with
     | None => pret None
     | Some l => let* (stop, rest) := pickIdle o now w (reverse l) in
                 let l := reverse rest in
                 pmod (fun t => set_idleConn (match l with [] => delete (w_key wc) (idleConn t)
                                               | _ => <[w_key wc := l]> (idleConn t) end) t) ;;
                 pret stop
     end) t0 = Ok (r, t1) /\ InvA o t1 /\ InvB o g me None None t1 /\ ext t0 t1
     /\ match r with Some _ => isdone t1 w | None => idleConn t1 !! w_key wc = None end) as (r & t1 & Hrun & HA1 & HB1 & He1 & Hr).
  { destruct (idleConn t0 !! w_key wc) as [l|] eqn:El.
    2: { exists None, t0. splits; try done. apply ext_refl. }
    destruct (I_idle _ _ HA0 _ l El) as (_ & Hnd & Hlen & Hf).
    destruct (pickIdle_ok g me now w (reverse l) t0 wc HB0 Hw) as (r & rest & pre & t1 & Hrun & HB1 & (F1 & F2 & F3 & He1) & E & Hl & Hr).
    { by rewrite reverse_Permutation. } { by rewrite reverse_Permutation. }
    pstep Hrun. set (l' := reverse rest).
    eexists. eexists. split; [reflexivity|]. splits; [|by apply InvB_idle|exact He1|].
    2: { destruct r; [done|]. subst rest. cbn [idleConn set_idleConn]. unfold l'. cbn. apply lookup_delete_eq. }
    assert (forall k l2, match l' with [] => delete (w_key wc) (idleConn t1) | _ => <[w_key wc := l']> (idleConn t1) end !! k = Some l2 ->
      k = w_key wc /\ l2 = l' /\ l' <> [] \/ k <> w_key wc /\ idleConn t0 !! k = Some l2) as Hlook.
    { intros k l2. rewrite F1. destruct l' as [|x l'']; [rewrite lookup_delete|rewrite lookup_insert]; case_decide; try done; [by right| |by right].
      intros [= <-]. by left. }
    assert (l = reverse rest ++ reverse pre) as El2 by (rewrite <- reverse_app, <- E; by rewrite reverse_involutive).
    assert (forall x, x ∈ l' -> x ∈ idleLRU t0 -> x ∈ idleLRU t1) as Hkeep.
    { intros x Hx Hx0. destruct Hl as [->|(pc & Hpc & _ & ->)]; [done|]. apply list_elem_of_filter. split; [|done].
      intros ->. apply Hpc. unfold l' in Hx. by rewrite elem_of_reverse in Hx. }
    split.
    - cbn [idleLRU set_idleConn]. destruct Hl as [->|(pc & _ & _ & ->)]; [apply HA0|apply NoDup_filter, HA0].
    - intros k l2 Hl2. apply Hlook in Hl2 as [(-> & -> & Hne)|[Hne Hl2]].
      + unfold idle_list. splits; [done| | |].
        * rewrite El2 in Hnd. by apply NoDup_app in Hnd as (? & _).
        * rewrite El2, len_app in Hlen. pose proof (len_nonneg (reverse pre)). unfold l'. lia.
        * apply Forall_forall. intros x Hx. rewrite Forall_forall in Hf. destruct (Hf x) as [Hx1 Hx2].
          { rewrite El2. apply elem_of_app. by left. }
          split; [by apply Hkeep|]. by apply (ext_ckey t0 t1).
      + destruct (I_idle _ _ HA0 k l2 Hl2) as (? & ? & ? & Hf2). unfold idle_list. splits; try done.
        apply Forall_forall. intros x Hx. rewrite Forall_forall in Hf2. destruct (Hf2 x Hx) as [Hx1 Hx2].
        split; [|by apply (ext_ckey t0 t1)]. cbn [idleLRU set_idleConn]. destruct Hl as [->|(pc & Hpc & Hpre & Hlru)]; [done|].
        rewrite Hlru. apply list_elem_of_filter. split; [|done]. intros ->. rewrite Forall_forall in Hf.
        destruct (Hf pc) as [_ Hk]; [|congruence]. rewrite El2. apply elem_of_app. right. by rewrite elem_of_reverse.
    - intros Hm. cbn [idleLRU set_idleConn]. pose proof (I_max _ _ HA0 Hm). destruct Hl as [->|(pc & _ & _ & ->)]; [done|].
      pose proof (length_filter (fun x => x <> pc) (idleLRU t0)). unfold len in *. lia.
    - intros k l2 q Hl2 Hq. cbn [idleConnWait set_idleConn] in Hq. rewrite F2 in Hq. apply (ext_all_done t0 t1); [done|].
      apply Hlook in Hl2 as [(-> & _ & _)|[Hne Hl2]]; [by apply (I_nowait _ _ HA0 (w_key wc) l q)|by apply (I_nowait _ _ HA0 k l2 q)]. }
  pstep Hrun. destruct r as [b|].
  { exists b, t1. splits; try done. by left. }
  pgo. destruct (proj1 He1 w wc Hw) as (wc1 & Hw1 & Hk1 & _).
  assert (waitq_ok t1 (w_key wc) (default empty_queue (idleConnWait t1 !! w_key wc))) as [Hq Hf].
  { destruct (idleConnWait t1 !! w_key wc) as [q|] eqn:E; [by apply (I_waitq _ _ _ _ _ _ HB1)|]. split; [apply empty_queue_ok|constructor]. }
  set (q := default empty_queue (idleConnWait t1 !! w_key wc)) in *.
  destruct (cleanFrontNotWaiting_ok (queue_fuel q) t1 q Hq) as (q' & pre & Hrun2 & Hq' & E & Hpre).
  { eapply Forall_impl; [exact Hf|]. intros x Hx. destruct (wkey_want t1 x _ Hx) as (wx & -> & _). eauto. }
  pstep Hrun2. destruct (pushBack_ok w q' Hq') as [Hq2 E2]. exists false. eexists. split; [reflexivity|].
  rewrite E in Hf. apply Forall_app in Hf as [_ Hf]. assert (wkey t1 w = Some (w_key wc)) as Hkw by (unfold wkey; rewrite Hw1; cbn; congruence).
  splits; [| |exact He1|right; split; [done|]; intros _; exists (pushBack w q'); split; [apply lookup_insert_eq|rewrite E2; set_solver]].
  - split; try apply HA1. intros k l q3 Hl Hq3. cbn [idleConnWait set_idleConnWait] in Hq3. rewrite lookup_insert in Hq3.
    case_decide; [|exact (I_nowait _ _ HA1 k l q3 Hl Hq3)]. subst k. cbn [idleConn set_idleConnWait] in Hl. congruence.
  - split; try apply HB1.
    + intros k' q3 Hl. cbn [idleConnWait set_idleConnWait] in Hl. rewrite lookup_insert in Hl.
      case_decide; [|by apply (I_waitq _ _ _ _ _ _ HB1 k' q3)].
      injection Hl as <-. subst k'. split; [done|]. rewrite E2. apply Forall_app. split; [done|]. by constructor.
    + intros h c Hne Hh x wx Hx Hwx Hd. destruct (I_sel _ _ _ _ _ _ HB1 h c Hne Hh x wx Hx Hwx Hd) as [Hi Ho]. split; [|exact Ho].
      intros _. destruct (Hi Hka) as (q3 & Hl & Hin). unfold queued. cbn [idleConnWait set_idleConnWait].
      rewrite lookup_insert. case_decide as Hkk; [|eauto]. exists (pushBack w q'). split; [done|]. rewrite E2. apply elem_of_app. left.
      assert (q3 = q) as -> by (unfold q; by rewrite Hkk, Hl). rewrite E in Hin. apply elem_of_app in Hin as [Hin|Hin]; [|done].
      rewrite Forall_forall in Hpre. destruct (not_done t1 x wx Hwx Hd). by apply Hpre.
Qed.

(** ** Canceling, closing everything *)
Lemma wantConn_cancel_ok g tok w wc t : InvA o t -> InvB o g (Some (GCancel w)) None tok t -> wants t !! w = Some wc ->
  exists r t', wantConn_cancel w t = Ok (r, t') /\ InvA o t' /\ InvB o g (Some (GCancel w)) r tok t' /\ ext t t' /\ isdone t' w.
Proof.
  intros HA HB Hw. unfold wantConn_cancel. pstep (get_want_run w wc t Hw).
  destruct (I_want _ _ _ _ _ _ HB w wc Hw) as (H1 & H2 & H3). rewrite H1.
  assert (forall r cur', want_ok t (mkWantConn (w_key wc) false (w_cancelCtx wc) (w_ctxCanceled wc) true r true) ->
    moves t None cur' (result_pc wc) (result_pc (mkWantConn (w_key wc) false (w_cancelCtx wc) (w_ctxCanceled wc) true r true)) ->
    exists t', t' = upd_want w (mkWantConn (w_key wc) false (w_cancelCtx wc) (w_ctxCanceled wc) true r true) t
      /\ InvA o t' /\ InvB o g (Some (GCancel w)) cur' tok t' /\ ext t t' /\ isdone t' w) as Hupd.
  { intros r cur' Hok Hm. set (wc' := mkWantConn _ _ _ _ _ _ _) in *. exists (upd_want w wc' t).
    splits; [done|by apply (InvA_upd_want o w wc)| |by apply (ext_upd_want w wc)|exists wc'; split; [apply lookup_insert_eq|done]].
    apply (InvB_upd_want o g _ None cur' tok w wc); try done. by right; right. }
  assert (want_ok t (mkWantConn (w_key wc) false (w_cancelCtx wc) (w_ctxCanceled wc) true None true)) as Hok by done.
  destruct (w_done wc) eqn:Hd.
  - destruct (w_result wc) as [r|] eqn:Hr; pgo.
    + destruct (Hupd None (ce_pc r) Hok) as (t' & E & HA' & HB' & He & Hdn).
      { right. right. unfold result_pc. rewrite Hr. done. }
      exists (ce_pc r), t'. subst t'. splits; done.
    + destruct (Hupd None None Hok) as (t' & E & HA' & HB' & He & Hdn).
      { left. split; [by left|done]. }
      exists None, t'. subst t'. splits; done.
  - pgo. assert (w_result wc = None) as Hr. { destruct (w_result wc) as [r|] eqn:Hr; [|done]. by destruct (H3 r eq_refl). }
    rewrite Hr. destruct (Hupd None None Hok) as (t' & E & HA' & HB' & He & Hdn).
    { left. split; [by left|done]. }
    exists None, t'. subst t'. splits; done.
Qed.

Lemma takeIdleConns_ok g me cur tok t : InvA o t -> InvB o g me cur tok t ->
  exists pcs t', takeIdleConns t = Ok (pcs, t') /\ InvA o t' /\ InvB o g me cur tok t' /\ ext t t'
    /\ Forall (fun pc => is_Some (conns t' !! pc)) pcs.
Proof.
  intros HA HB. unfold takeIdleConns. pgo. do 2 eexists. split; [reflexivity|]. splits; [| |exact (ext_refl t)|].
  - constructor; cbn [idleLRU idleConn set_idleLRU set_closeIdle set_idleConn].
    + apply NoDup_nil_2.
    + intros k l. by rewrite lookup_empty.
    + intros _. rewrite len_nil. lia.
    + intros k l q. by rewrite lookup_empty.
  - assert (InvB o g me cur tok (set_idleLRU [] t)) as HB' by (apply InvB_lru_sub; [done|set_solver]). split; apply HB'.
  - apply Forall_forall. intros pc Hpc. apply list_elem_of_In, in_concat in Hpc as (l & Hl & Hin).
    apply list_elem_of_In in Hl, Hin. apply list_elem_of_fmap in Hl as ([k l'] & -> & Hl). apply elem_of_map_to_list in Hl.
    destruct (I_idle _ _ HA k l' Hl) as (_ & _ & _ & Hf). rewrite Forall_forall in Hf. destruct (Hf pc Hin) as [Hlru _].
    exact (I_lru_conns _ _ _ _ _ _ HB pc Hlru).
Qed.

(** An update of a request that leaves its outcome as it is. *)
Lemma upd_want_same_ok g me cur tok w wc wc' t : InvA o t -> InvB o g me cur tok t -> wants t !! w = Some wc ->
  w_key wc' = w_key wc -> w_done wc' = w_done wc -> w_closed wc' = w_closed wc -> w_ctx wc' = w_ctx wc ->
  w_result wc' = w_result wc ->
  InvA o (upd_want w wc' t) /\ InvB o g me cur tok (upd_want w wc' t) /\ ext t (upd_want w wc' t).
Proof.
  intros HA HB Hw E1 E2 E3 E4 E5. pose proof (I_want _ _ _ _ _ _ HB w wc Hw) as Hok.
  splits; [apply (InvA_upd_want o w wc)|apply (InvB_upd_want o g me cur cur tok w wc)|apply (ext_upd_want w wc)]; try done; try congruence.
  - unfold want_ok in *. rewrite E1, E2, E3, E4, E5. done.
  - left. split; [|done]. right. unfold result_pc. by rewrite E5.
  - left. rewrite E2, E5. intros Hd. by right.
Qed.

Lemma cancelDials_ok g me cur tok : forall ws t, InvA o t -> InvB o g me cur tok t ->
  Forall (fun w => is_Some (wants t !! w)) ws ->
  exists t', cancelDials (Some <$> ws) t = Ok (tt, t') /\ InvA o t' /\ InvB o g me cur tok t' /\ ext t t'.
Proof.
  induction ws as [|w ws IH]; intros t HA HB Hf; cbn [cancelDials fmap list_fmap].
  { exists t. splits; try done. apply ext_refl. }
  apply Forall_cons in Hf as [[wc Hw] Hf]. cbn [deref]. pgo. pstep (get_want_run w wc t Hw).
  assert (exists t1, (if w_cancelCtx wc && w_done wc
       then put_want w (mkWantConn (w_key wc) (w_ctx wc) true true (w_done wc) (w_result wc) (w_closed wc))
       else pret tt) t = Ok (tt, t1) /\ InvA o t1 /\ InvB o g me cur tok t1 /\ ext t t1) as (t1 & Hrun & HA1 & HB1 & He1).
  { destruct (w_cancelCtx wc && w_done wc).
    - destruct (upd_want_same_ok g me cur tok w wc (mkWantConn (w_key wc) (w_ctx wc) true true (w_done wc) (w_result wc) (w_closed wc)) t)
        as (? & ? & ?); try done. eexists. splits; done.
    - exists t. splits; try done. apply ext_refl. }
  pstep Hrun. destruct (IH t1 HA1 HB1) as (t2 & Hrun2 & HA2 & HB2 & He2).
  { eapply Forall_impl; [exact Hf|]. intros x. by apply ext_want. }
  exists t2. splits; try done. by eapply ext_trans.
Qed.
End Safe.
