(* ===== verification/H1PoolSystem.v ===== *)
(** * The connection pool as a system

    Every state reached by any interleaving of requests, dials, connections,
    timers and calls of [CloseIdleConnections] satisfies the invariant, and no step
    from it panics. The theorems about reachable states follow. *)

From S2P Require Import Prelude.
From S2P Require Import H2Errors.
From S2P Require Import WantQueue.
From S2P Require Import H1Pool.
From S2P Require Import H1PoolInv.
From S2P Require Import H1PoolSafe.
Import PoolNotations.

Implicit Types (t : Transport) (k : connectMethodKey) (w pc g : Z) (q : wantConnQueue Z).

Section System.
Context (o : Options).

(** ** One step of a goroutine *)
Lemma select_ok_other t c : (forall w, c <> GSelect w /\ c <> GQueueForDial w) -> select_ok o t c.
Proof. intros H w wc [->| ->]; destruct (H w); done. Qed.

(** The ways a step ends. *)
Lemma goto_ok g c0 cur tok c t : InvA o t -> InvB o g (Some c0) cur tok t -> 0 <= g -> go_wf t c ->
  go_pc c = None \/ go_pc c = cur -> select_ok o t c -> req_ok (Some c0) c -> (0 < MaxConnsPerHost o -> tok = go_tok t c) ->
  (forall w, go_dial c0 = Some w -> isdone t w \/ go_dial c = Some w) ->
  exists t', goto g c t = Ok (tt, t') /\ Sys o t'.
Proof.
  intros HA HB Hg Hwf Hpc Hs Hr Htok Hd. eexists. split; [apply run_goto|].
  apply (Sys_leave o g (Some c0) cur tok); try done.
  - by intros c' [= <-].
  - intros w c1 [= <-] Hw. destruct (Hd w Hw) as [?|?]; [by left|right; eauto].
Qed.
Lemma exit_ok g c0 cur t : InvA o t -> InvB o g (Some c0) cur None t -> 0 <= g ->
  (forall w, go_dial c0 = Some w -> isdone t w) -> exists t', exit_go g t = Ok (tt, t') /\ Sys o t'.
Proof.
  intros HA HB Hg Hd. eexists. split; [apply run_exit|]. apply (Sys_leave o g (Some c0) cur None); try done.
  intros w c1 [= <-] Hw. left. by apply Hd.
Qed.
Lemma resume_ok g c0 cur after t : InvA o t -> InvB o g (Some c0) cur None t -> 0 <= g -> after_ok t after ->
  go_dial c0 = None -> exists t', resume g after t = Ok (tt, t') /\ Sys o t'.
Proof.
  intros HA HB Hg Ha Hd. destruct after as [w|]; cbn [resume].
  - apply (goto_ok g c0 cur None); try done; [by left|by apply select_ok_other|]. intros x Hx. congruence.
  - apply (exit_ok g c0 cur); try done. intros x Hx. congruence.
Qed.
Lemma after_ext t t' a : ext t t' -> after_ok t a -> after_ok t' a.
Proof. intros He. destruct a; [by apply ext_want|done]. Qed.

Ltac not_select := apply select_ok_other; intros ?; by split.
(** [gone] closes what is left of [goto_ok] and [exit_ok] once the goroutine's own facts are given. *)
Ltac gone := try done; try (eexists; eassumption); try (by left); try (by right); try not_select; try (intros ? HH; discriminate HH).

Definition step_ok g c ch t : Prop := forall m, run_go o g c ch = Some m -> exists t', m t = Ok (tt, t') /\ Sys o t'.

(** What is known when goroutine [g] starts its step [c]. *)
Lemma enter g c t : Sys o t -> goroutines t !! g = Some c ->
  InvA o t /\ InvB o g (Some c) (go_pc c) (go_tok t c) t /\ 0 <= g /\ go_wf t c /\ select_ok o t c.
Proof.
  intros [HA HB] Hg. destruct (I_go _ _ _ _ _ _ HB g c Hg) as [Hb Hwf]. splits; try done; [by apply InvB_enter|lia|].
  apply (I_sel _ _ _ _ _ _ HB g c); [lia|done].
Qed.

(** The goroutine of a request that wants a connection. *)
Lemma GGetConn_ok g ch t w : Sys o t -> goroutines t !! g = Some (GGetConn w) -> step_ok g (GGetConn w) ch t.
Proof.
  intros HS Hg m Hrun. destruct (enter g _ t HS Hg) as (HA & HB & Hg0 & [wc Hw] & _). destruct ch; try discriminate Hrun; injection Hrun as <-.
  destruct (queueForIdleConn_ok o g _ now w wc t HA HB Hw) as (b & t1 & Hrun & HA1 & HB1 & He & Hdn). pstep Hrun.
  destruct (proj1 He w wc Hw) as (wc1 & Hw1 & Hk1 & _).
  assert (select_ok o t1 (if b then GSelect w else GQueueForDial w)) as Hs.
  { intros x wx Hx Hwx Hd. assert (x = w) as -> by (destruct b, Hx; congruence). rewrite Hw1 in Hwx. injection Hwx as <-.
    destruct Hdn as [Hdn|[-> Hq]]; [by destruct (not_done t1 w wc1 Hw1 Hd)|]. rewrite Hk1. split; [done|done]. }
  apply (goto_ok g (GGetConn w) None None); gone; [destruct b; cbn; by rewrite Hw1|by destruct b; left| |by destruct b].
  intros x Hx. left. destruct b; cbn in Hx; congruence.
Qed.
Lemma GQueueForDial_ok g ch t w : Sys o t -> goroutines t !! g = Some (GQueueForDial w) -> step_ok g (GQueueForDial w) ch t.
Proof.
  intros HS Hg m Hrun. destruct (enter g _ t HS Hg) as (HA & HB & Hg0 & [wc Hw] & Hsel). destruct ch; try discriminate Hrun; injection Hrun as <-.
  destruct (queueForDial_ok o g _ None w wc t HB Hw) as (t1 & Hrun & HB1 & Hfr & Hh). pstep Hrun.
  pose proof (dial_frame_InvA o t t1 Hfr HA) as HA1. assert (wants t1 = wants t) as Ew by apply Hfr.
  assert (idleConnWait t1 = idleConnWait t) as Ei by apply Hfr.
  apply (goto_ok g (GQueueForDial w) None None); gone; [cbn; rewrite Ew, Hw; done| |].
  - intros x wx Hx Hwx Hd. assert (x = w) as -> by (destruct Hx; congruence). rewrite Ew, Hw in Hwx. injection Hwx as <-.
    split; [|done]. rewrite Ei. apply (Hsel w wc (or_intror eq_refl) Hw Hd).
  - intros x [= ->]. by right; left.
Qed.
Lemma GSelect_ok g ch t w : Sys o t -> goroutines t !! g = Some (GSelect w) -> step_ok g (GSelect w) ch t.
Proof.
  intros HS Hg m Hrun. destruct (enter g _ t HS Hg) as (HA & HB & Hg0 & [wc Hw] & _). destruct ch; try discriminate Hrun; injection Hrun as <-.
  - pstep (get_want_run w wc t Hw). destruct (I_want _ _ _ _ _ _ HB w wc Hw) as (H1 & H2 & H3).
    destruct (w_result wc) as [r|] eqn:Hr.
    + pgo. destruct (H3 r eq_refl) as [Hd Hpc]. set (wc' := mkWantConn _ _ _ _ _ _ _).
      assert (InvA o (upd_want w wc' t)) as HA1 by by apply (InvA_upd_want o w wc).
      assert (ext t (upd_want w wc' t)) as He by by apply (ext_upd_want w wc).
      assert (InvB o g (Some (GSelect w)) (ce_pc r) None (upd_want w wc' t)) as HB1.
      { apply (InvB_upd_want o g _ None (ce_pc r) None w wc); try done; [|by right; left]. right. right. unfold result_pc. rewrite Hr. done. }
      destruct (ce_pc r) as [pc|] eqn:Epc.
      * destruct Hpc as [-> Hk]. apply (goto_ok g (GSelect w) (Some pc) None); gone. apply (I_cur _ _ _ _ _ _ HB1 pc eq_refl).
      * destruct Hpc as [e ->]. apply (goto_ok g (GSelect w) None None); gone.
        -- apply (ext_want t); [done|by exists wc].
        -- intros x [= ->]. by right; right.
    + destruct (w_closed wc) eqn:Hcl; [|by exists t].
      assert (is_Some (w_result wc)) as [r Hr']; [|congruence].
      destruct HS as [_ HS]. apply (I_req _ _ _ _ _ _ HS g (GSelect w) w wc); try done. left. lia.
  - apply (goto_ok g (GSelect w) None None); gone. intros x [= ->]. by right; right.
Qed.
Lemma GCancel_ok g ch t w : Sys o t -> goroutines t !! g = Some (GCancel w) -> step_ok g (GCancel w) ch t.
Proof.
  intros HS Hg m Hrun. destruct (enter g _ t HS Hg) as (HA & HB & Hg0 & [wc Hw] & _). destruct ch; try discriminate Hrun; injection Hrun as <-.
  destruct (wantConn_cancel_ok o g None w wc t HA HB Hw) as (r & t1 & Hrun & HA1 & HB1 & He & Hdn). pstep Hrun.
  destruct r as [pc|]; [|by apply (exit_ok g (GCancel w) None)].
  apply (goto_ok g (GCancel w) (Some pc) None); gone. split; [|done]. apply (I_cur _ _ _ _ _ _ HB1 pc eq_refl).
Qed.

(** The goroutine that has a connection. *)
Lemma GUse_ok g ch t pc : Sys o t -> goroutines t !! g = Some (GUse pc) -> ch <> CNoCachedConn -> step_ok g (GUse pc) ch t.
Proof.
  intros HS Hg Hch m Hrun. destruct (enter g _ t HS Hg) as (HA & HB & Hg0 & [p Hp] & _). destruct ch; try discriminate Hrun; try done; injection Hrun as <-.
  - pstep (get_conn_run pc p t Hp). destruct (pc_alt p); [by apply (exit_ok g (GUse pc) (Some pc))|].
    apply (goto_ok g (GUse pc) (Some pc) None); gone.
  - by apply (exit_ok g (GUse pc) (Some pc)).
Qed.
Lemma GPut_ok g ch t pc a : Sys o t -> goroutines t !! g = Some (GPut pc a) -> step_ok g (GPut pc a) ch t.
Proof.
  intros HS Hg m Hrun. destruct (enter g _ t HS Hg) as (HA & HB & Hg0 & [Hp Ha] & _). destruct ch; try discriminate Hrun; injection Hrun as <-.
  destruct (tryPutIdleConn_check_ok o g _ _ _ pc t HA HB Hp) as (r & t1 & Hrun & HA1 & HB1 & He). pstep Hrun.
  pose proof (ext_conn _ _ _ He Hp) as Hp1. pose proof (after_ext _ _ _ He Ha) as Ha1.
  destruct r as [e|]; apply (goto_ok g (GPut pc a) (Some pc) None); gone.
Qed.
Lemma GPutLocked_ok g ch t pc a : Sys o t -> goroutines t !! g = Some (GPutLocked pc a) -> step_ok g (GPutLocked pc a) ch t.
Proof.
  intros HS Hg m Hrun. destruct (enter g _ t HS Hg) as (HA & HB & Hg0 & [Hp Ha] & _). destruct ch; try discriminate Hrun; injection Hrun as <-.
  destruct (tryPutIdleConn_locked_ok o g _ now pc t HA HB) as (r & t1 & Hrun & HA1 & HB1 & He). pstep Hrun.
  pose proof (ext_conn _ _ _ He Hp) as Hp1. pose proof (after_ext _ _ _ He Ha) as Ha1.
  destruct r as [e|]; [apply (goto_ok g (GPutLocked pc a) None None); gone|by apply (resume_ok g (GPutLocked pc a) None)].
Qed.
Lemma GClose_ok g ch t pc e a : Sys o t -> goroutines t !! g = Some (GClose pc e a) -> step_ok g (GClose pc e a) ch t.
Proof.
  intros HS Hg m Hrun. destruct (enter g _ t HS Hg) as (HA & HB & Hg0 & [Hp Ha] & _). destruct ch; try discriminate Hrun; injection Hrun as <-.
  destruct (persistConn_close_ok o g _ _ pc e t HB Hp) as (t1 & Hrun & HB1 & Hfr). pstep Hrun.
  apply (resume_ok g (GClose pc e a) None); try done; [by apply (close_frame_InvA o t)|by apply (after_ext t); [apply Hfr|]].
Qed.

(** The goroutine that dials. *)
Lemma GDialConnFor_ok g ch t w : Sys o t -> goroutines t !! g = Some (GDialConnFor w) -> step_ok g (GDialConnFor w) ch t.
Proof.
  intros HS Hg m Hrun. destruct (enter g _ t HS Hg) as (HA & HB & Hg0 & [wc Hw] & _). destruct ch; try discriminate Hrun; injection Hrun as <-.
  pstep (get_want_run w wc t Hw). cbn [go_tok] in HB. destruct (I_want _ _ _ _ _ _ HB w wc Hw) as (_ & H2 & _).
  destruct (w_ctx wc).
  - apply (goto_ok g (GDialConnFor w) None (wkey t w)); gone.
  - apply (goto_ok g (GDialConnFor w) None (wkey t w)); gone; [unfold wkey; by rewrite Hw|].
    intros x [= <-]. left. exists wc. by destruct (w_done wc).
Qed.
Lemma GDialing_ok g ch t w : Sys o t -> goroutines t !! g = Some (GDialing w) ->
  (forall pc alt, ch = CDialOk pc alt -> conns t !! pc = None) -> step_ok g (GDialing w) ch t.
Proof.
  intros HS Hg Hnew m Hrun. destruct (enter g _ t HS Hg) as (HA & HB & Hg0 & [wc Hw] & _). destruct ch; try discriminate Hrun; injection Hrun as <-.
  - pstep (get_want_run w wc t Hw). set (p := mkPersistConn _ _ _ _ _ _). specialize (Hnew pc alt eq_refl).
    pose proof (ext_new_conn pc p t Hnew) as He.
    assert (InvB o g (Some (GDialing w)) (Some pc) None (upd_conn pc p t)) as HB1.
    { apply (InvB_new_conn o g _ (wkey t w)); try done. intros _. unfold wkey. by rewrite Hw. }
    apply (goto_ok g (GDialing w) (Some pc) None); gone.
    + split; try apply HA. intros k l Hl. by apply (idle_list_ext o t), (I_idle _ _ HA).
    + exists (w_key wc). split; [unfold wkey; cbn; by rewrite Hw|]. unfold ckey. cbn. by rewrite lookup_insert_eq.
  - apply (goto_ok g (GDialing w) None (wkey t w)); gone.
Qed.
Lemma GDialOk_ok g ch t w pc : Sys o t -> goroutines t !! g = Some (GDialOk w pc) -> step_ok g (GDialOk w pc) ch t.
Proof.
  intros HS Hg m Hrun. destruct (enter g _ t HS Hg) as (HA & HB & Hg0 & (k & Hk & Hck) & _). destruct ch; try discriminate Hrun; injection Hrun as <-.
  destruct (wkey_want t w k Hk) as (wc & Hw & <-). destruct (I_cur _ _ _ _ _ _ HB pc eq_refl) as [p Hp].
  pstep (get_conn_run pc p t Hp). cbn [go_pc go_tok] in HB.
  destruct (tryDeliver_pc_ok o g _ _ _ w wc pc 0 t HB Hw Hck) as [[Hd Hrun]|(t' & Hd & Hrun & Ht' & HB' & Hdn & He)]; [by left| |].
  - pstep Hrun. cbn [negb orb]. apply (goto_ok g (GDialOk w pc) (Some pc) None); gone; [split; [by exists p|by exists wc]|].
    intros x [= <-]. left. by exists wc.
  - pstep Hrun. assert (InvA o t') as HA' by (subst t'; by apply (InvA_upd_want o w wc)).
    assert (is_Some (wants t' !! w)) as Hw' by by apply (ext_want t); [|exists wc].
    assert (is_Some (conns t' !! pc)) as Hp' by by apply (ext_conn t); [|exists p].
    cbn [negb orb]. destruct (pc_alt p) eqn:Ha.
    + apply (goto_ok g (GDialOk w pc) (Some pc) None); gone; [|by intros x [= <-]; left].
      apply InvB_shared; [done|done|]. intros (p' & Hl & Ha'). subst t'. change (conns t !! pc = Some p') in Hl. congruence.
    + apply (goto_ok g (GDialOk w pc) None None); gone. by intros x [= <-]; left.
Qed.
Lemma GDialErr_ok g ch t w e : Sys o t -> goroutines t !! g = Some (GDialErr w e) -> step_ok g (GDialErr w e) ch t.
Proof.
  intros HS Hg m Hrun. destruct (enter g _ t HS Hg) as (HA & HB & Hg0 & [wc Hw] & _). destruct ch; try discriminate Hrun; injection Hrun as <-.
  pstep (get_want_run w wc t Hw). cbn [go_pc go_tok] in HB. unfold wkey in HB. rewrite Hw in HB.
  destruct (tryDeliver_err_ok o g _ _ _ w wc e t HB Hw) as (b & t1 & Hrun & HB1 & Hdn & Hfr). pstep Hrun.
  apply (goto_ok g (GDialErr w e) None (Some (w_key wc))); gone; [by apply (deliver_frame_InvA o t)| |by intros x [= <-]; left].
  apply (ext_want t); [apply Hfr|by exists wc].
Qed.
Lemma GDec_ok g ch t k a : Sys o t -> goroutines t !! g = Some (GDec k a) -> step_ok g (GDec k a) ch t.
Proof.
  intros HS Hg m Hrun. destruct (enter g _ t HS Hg) as (HA & HB & Hg0 & Ha & _). destruct ch; try discriminate Hrun; injection Hrun as <-.
  destruct (decConnsPerHost_ok o g _ _ k t HB) as (t1 & Hrun & HB1 & Hfr). pstep Hrun.
  apply (resume_ok g (GDec k a) None); try done; [by apply (dial_frame_InvA o t)|by apply (after_ext t); [apply dial_frame_ext|]].
Qed.
Lemma GDialEnd_ok g ch t w : Sys o t -> goroutines t !! g = Some (GDialEnd w) -> step_ok g (GDialEnd w) ch t.
Proof.
  intros HS Hg m Hrun. destruct (enter g _ t HS Hg) as (HA & HB & Hg0 & [wc Hw] & _). destruct ch; try discriminate Hrun; injection Hrun as <-.
  unfold clearCancelCtx. pgo. pstep (get_want_run w wc t Hw). set (wc' := mkWantConn _ _ _ _ _ _ _).
  destruct (upd_want_same_ok o g _ _ _ w wc wc' t HA HB Hw) as (HA1 & HB1 & _); try done. by apply (exit_ok g (GDialEnd w) None).
Qed.

(** The goroutines that close idle connections. *)
Lemma GCloseIfIdle_ok g ch t pc : Sys o t -> goroutines t !! g = Some (GCloseIfIdle pc) -> step_ok g (GCloseIfIdle pc) ch t.
Proof.
  intros HS Hg m Hrun. destruct (enter g _ t HS Hg) as (HA & HB & Hg0 & Hp & _). destruct ch; try discriminate Hrun; injection Hrun as <-.
  destruct (closeConnIfStillIdle_ok o g _ _ pc t HA HB Hp) as (t1 & Hrun & HA1 & HB1 & _). pstep Hrun.
  by apply (exit_ok g (GCloseIfIdle pc) None).
Qed.
Lemma GCloseAll_ok g ch t pcs : Sys o t -> goroutines t !! g = Some (GCloseAll pcs) -> step_ok g (GCloseAll pcs) ch t.
Proof.
  intros HS Hg m Hrun. destruct (enter g _ t HS Hg) as (HA & HB & Hg0 & Hf & _).
  destruct pcs as [|pc pcs]; destruct ch; try discriminate Hrun; injection Hrun as <-.
  - pgo. destruct (I_dials _ _ _ _ _ _ HB) as [Hq Hfq]. rewrite (queue_all_ok _ Hq).
    destruct (cancelDials_ok o g _ _ _ (queue_items (dialsInProgress t)) t HA HB Hfq) as (t1 & Hrun & HA1 & HB1 & _). pstep Hrun.
    by apply (exit_ok g (GCloseAll []) None).
  - apply Forall_cons in Hf as [Hp Hf]. destruct (persistConn_close_ok o g _ _ pc errCloseIdleConns t HB Hp) as (t1 & Hrun & HB1 & Hfr).
    pstep Hrun. apply (goto_ok g (GCloseAll (pc :: pcs)) None None); gone; [by apply (close_frame_InvA o t)|].
    eapply Forall_impl; [exact Hf|]. intros x. apply ext_conn, Hfr.
Qed.

Lemma run_go_ok g c ch t : Sys o t -> goroutines t !! g = Some c -> ch <> CNoCachedConn ->
  (forall pc alt, ch = CDialOk pc alt -> conns t !! pc = None) -> step_ok g c ch t.
Proof.
  intros HS Hg Hch Hnew. destruct c; [by apply GGetConn_ok|by apply GQueueForDial_ok|by apply GSelect_ok|by apply GCancel_ok
    |by apply GUse_ok|by apply GPut_ok|by apply GPutLocked_ok|by apply GClose_ok|by apply GDialConnFor_ok|by apply GDialing_ok
    |by apply GDialOk_ok|by apply GDialErr_ok|by apply GDec_ok|by apply GDialEnd_ok|by apply GCloseIfIdle_ok|by apply GCloseAll_ok].
Qed.

(** ** Every event *)
Lemma spawn_ok c t : Sys o t -> go_wf t c -> go_pc c = None -> go_tok t c = None ->
  (forall w, go_req c = Some w -> c = GGetConn w /\ (forall h c', goroutines t !! h = Some c' -> go_req c' <> Some w)
     /\ (forall wc, wants t !! w = Some wc -> w_done wc = false)) -> Sys o (spawned c t).
Proof. intros [HA HB] Hwf Hpc Htok Hr. split; [by apply InvA_spawned|]. apply (InvB_spawn o (-1) None None None); try done. by left. Qed.

Lemma pool_exec_ok e t r : Sys o t -> happens e -> exec o e t = Some r -> exists t', r = Ok (tt, t') /\ Sys o t'.
Proof.
  intros [HA HB] Hh. destruct e as [w key|g ch|pc err|pc|pc|]; cbn [exec].
  - destruct (wants t !! w) eqn:Hw; [done|]. intros [= <-]. pgo. eexists. split; [reflexivity|]. set (wc := mkWantConn _ _ _ _ _ _ _).
    apply spawn_ok; try done.
    + split; [|by apply InvB_new_want]. split; try apply HA. intros k l q Hl Hq.
      apply (ext_all_done t); [by apply ext_new_want|by apply (I_nowait _ _ HA k l q)].
    + cbn. rewrite lookup_insert_eq. done.
    + intros x [= <-]. splits; [done| |intros wx; cbn; rewrite lookup_insert_eq; by intros [= <-]].
      intros h c Hc Hr. destruct (I_go _ _ _ _ _ _ HB h c Hc) as [_ Hwf].
      destruct c; cbn in Hr; simplify_eq; cbn in Hwf; destruct Hwf; congruence.
  - destruct (goroutines t !! g) as [c|] eqn:Hg; [|done]. destruct (match ch with CDialOk pc _ => _ | _ => false end) eqn:Hnew; [done|].
    destruct (run_go o g c ch) as [m|] eqn:Hm; [|done]. intros [= <-]. apply (run_go_ok g c ch t); try done; [by intros ->; apply (Hh g)|].
    intros pc alt ->. by destruct (conns t !! pc).
  - destruct (conns t !! pc) as [p|] eqn:Hp; [|done]. destruct (pc_alt p); [done|]. intros [= <-].
    destruct (persistConn_close_ok o (-1) None None pc err t HB) as (t1 & -> & HB1 & Hfr); [by exists p|].
    exists t1. split; [done|]. split; [by apply (close_frame_InvA o t)|done].
  - destruct (conns t !! pc) as [p|] eqn:Hp; [|done]. destruct (negb (pc_alt p) && _); [|done]. intros [= <-].
    destruct (removeIdleConnLocked_ok o (-1) None None None pc t HA HB) as (b & t1 & Hrun & HA1 & HB1 & _); [by exists p|].
    pstep Hrun. by exists t1.
  - destruct (conns t !! pc) as [p|] eqn:Hp; [|done]. destruct (pc_idleTimer p) as [[]|]; try done. intros [= <-]. pgo.
    eexists. split; [reflexivity|]. apply spawn_ok; try done; [|cbn; rewrite lookup_insert_eq; done].
    split; [by apply (InvA_upd_conn o pc p)|]. apply (InvB_upd_conn o (-1) None None None None pc p); try done. by left.
  - intros [= <-]. destruct (takeIdleConns_ok o (-1) None None None t HA HB) as (pcs & t1 & Hrun & HA1 & HB1 & He & Hf).
    pstep Hrun. eexists. split; [reflexivity|]. by apply spawn_ok.
Qed.

Lemma Sys_new : Sys o new_Transport.
Proof.
  split; constructor; try done; cbn; try (by intros; simplify_map_eq); try (by intros ? ?; rewrite lookup_empty).
  - apply NoDup_nil_2.
  - intros _. rewrite len_nil. lia.
  - intros pc Hpc. by apply not_elem_of_nil in Hpc.
  - intros pc l l' (p & Hp & _). cbn in Hp. by rewrite lookup_empty in Hp.
  - intros Hm k. unfold count_ok. rewrite tokens_None. unfold go_tokens, conn_tokens. cbn.
    rewrite delete_empty, !count_empty, lookup_empty. cbn. splits; try done; try lia.
Qed.
Lemma reachable_Sys t : reachable o t -> Sys o t.
Proof.
  induction 1 as [|e t t' _ IH Hh He]; [apply Sys_new|]. destruct (pool_exec_ok e t _ IH Hh He) as (t2 & [= <-] & ?). done.
Qed.
End System.
