(* ===== verification/H1PoolProps.v ===== *)
(** * What the connection pool promises

    The theorems about the states [H1Pool]'s system reaches, from the invariant
    proved in [H1PoolSystem]. *)

From S2P Require Import Prelude.
From S2P Require Import H2Errors.
From S2P Require Import WantQueue.
From S2P Require Import H1Pool.
From S2P Require Import H1PoolInv.
From S2P Require Import H1PoolSafe.
From S2P Require Import H1PoolSystem.
Import PoolNotations.

Implicit Types (t : Transport) (k : connectMethodKey) (w pc g : Z) (q : wantConnQueue Z).

(** ** Definitions *)
Definition happensb (e : event) : bool := match e with ERun _ CNoCachedConn => false | _ => true end.
(** The requests of a queue that still wait. *)
Definition live t w : bool := match wants t !! w with Some wc => negb (w_done wc) | None => false end.
Definition live_waiters t (m : gmap connectMethodKey (wantConnQueue Z)) k : list Z :=
  filter (fun w => live t w = true) (queue_items (default empty_queue (m !! k))).
(** Every goroutine waits for the network or for the caller. *)
Definition quiescent t : Prop := forall h c, goroutines t !! h = Some c -> exists x, c = GSelect x \/ c = GUse x.
(** A run from the new transport. *)
Definition run (o : Options) (es : list event) : Transport :=
  match exec_all o es new_Transport with Some (Ok t) => t | _ => new_Transport end.

Section Props.
Context (o : Options).

Lemma happensb_ok e : happensb e = true -> happens e.
Proof. intros H g ->. done. Qed.
Lemma exec_all_reachable es : forall t t', reachable o t -> forallb happensb es = true ->
  exec_all o es t = Some (Ok t') -> reachable o t'.
Proof.
  induction es as [|e es IH]; cbn; intros t t' Hr Hh He; [congruence|]. apply andb_prop in Hh as [Hh1 Hh2].
  destruct (exec o e t) as [[[[] t1]|]|] eqn:E; try done. apply (IH t1); try done. by apply (reach_step o e t t1 Hr); [apply happensb_ok|].
Qed.
Lemma run_reachable es : forallb happensb es = true -> reachable o (run o es).
Proof.
  intros H. unfold run. destruct (exec_all o es new_Transport) as [[t|]|] eqn:E; try apply reach_new.
  by apply (exec_all_reachable es new_Transport); [apply reach_new| |].
Qed.

(** ** Closing a connection *)
Lemma live_run t w wc : wants t !! w = Some wc -> live t w = negb (w_done wc).
Proof. unfold live. by intros ->. Qed.

Lemma live_none t l : Forall (isdone t) l -> filter (fun w => live t w = true) l = [].
Proof.
  induction 1 as [|w ws (wc & Hw & Hd) _ IH]; [done|]. rewrite filter_cons, (live_run t w wc Hw), Hd.
  by rewrite decide_False.
Qed.

Lemma startDial_run g me cur tok w t : InvB o g me cur tok t ->
  exists q, startDialConnForLocked w t = Ok (tt, spawned (GDialConnFor w) (set_dialsInProgress q t)).
Proof.
  intros HB. unfold startDialConnForLocked. pgo. destruct (I_dials _ _ _ _ _ _ HB) as [Hq Hf].
  destruct (cleanFrontCanceled_ok (queue_fuel (dialsInProgress t)) t _ Hq Hf) as (q' & pre & Hrun & _). pstep Hrun. by eexists.
Qed.

Lemma handToWaiter_run k t : forall fuel q, waitq_ok t k q -> len (queue_items q) <= Z.of_nat fuel ->
  match filter (fun w => live t w = true) (queue_items q) with
  | [] => exists q', handToWaiter fuel q t = Ok ((false, q'), t) /\ queue_ok q' /\ queue_items q' = []
  | w :: rest => exists q', handToWaiter fuel q t = (startDialConnForLocked w ;; pret (true, q')) t /\ queue_ok q'
      /\ filter (fun w => live t w = true) (queue_items q') = rest
  end.
Proof.
  induction fuel as [|fuel IH]; intros q [Hq Hf] Hl; cbn [handToWaiter]; rewrite (queue_len_pos q Hq);
    revert Hf Hl; destruct (queue_items q) as [|w l] eqn:E; intros Hf Hl.
  1,3: rewrite bool_decide_true by done; cbn; exists q; done.
  - rewrite len_cons in Hl. pose proof (len_nonneg l). lia.
  - rewrite bool_decide_false by done. cbn [negb]. destruct (pop_run q w l Hq E) as (q1 & -> & Hq1 & E1).
    apply Forall_cons in Hf as [Hk Hf]. destruct (wkey_want t w k Hk) as (wc & Hw & Hwk). cbn [deref]. pgo.
    rewrite len_cons in Hl. rewrite filter_cons, (live_run t w wc Hw). case_decide as Hd.
    + exists q1. pstep (waiting_run w wc t Hw). rewrite Hd, E1. done.
    + specialize (IH q1). rewrite E1 in IH. destruct (w_done wc) eqn:Ed; [|done].
      assert (waitq_ok t k q1) as Hwq by (split; [done|by rewrite E1]). specialize (IH Hwq ltac:(lia)).
      destruct (filter _ l) as [|x rest]; destruct IH as (q' & Hrun & Hq'); exists q'; (split; [|done]);
        rewrite (run_bind _ _ _ _ _ (waiting_run w wc t Hw)), Ed; done.
Qed.

(** The token of the connection is handed to the first request that still waits,
    or the count of the host goes down. *)
Lemma decConnsPerHost_run g me cur k t : InvB o g me cur (Some k) t -> 0 < MaxConnsPerHost o ->
  exists t', decConnsPerHost o k t = Ok (tt, t') /\
  match live_waiters t (connsPerHostWait t) k with
  | [] => goroutines t' = goroutines t
      /\ default 0 (connsPerHost t' !! k) = default 0 (connsPerHost t !! k) - 1
  | w :: rest => goroutines t' = <[nextGo t := GDialConnFor w]> (goroutines t) /\ connsPerHost t' = connsPerHost t
      /\ live_waiters t (connsPerHostWait t') k = rest
  end.
Proof.
  intros HB Hm. unfold decConnsPerHost. destruct (Z.leb_spec (MaxConnsPerHost o) 0) as [?|_]; [lia|].
  pgo. destruct (I_count _ _ _ _ _ _ HB Hm k) as (_ & Hn & _ & _).
  destruct (Z.eqb_spec (default 0 (connsPerHost t !! k)) 0) as [E|Hn0].
  { unfold tokens in Hn. rewrite bool_decide_true in Hn by done. cbn [b2z] in Hn.
    pose proof (go_tokens_nonneg g t k). pose proof (conn_tokens_nonneg t k). lia. }
  unfold live_waiters. set (q := default empty_queue (connsPerHostWait t !! k)). set (n := default 0 (connsPerHost t !! k)) in *.
  assert (waitq_ok t k q) as [Hq Hf].
  { unfold q. destruct (connsPerHostWait t !! k) as [q0|] eqn:E; [by apply (I_dialq _ _ _ _ _ _ HB)|]. split; [apply empty_queue_ok|constructor]. }
  assert (forall t1, default 0 ((if n - 1 =? 0 then delete k (connsPerHost t1) else <[k := n - 1]> (connsPerHost t1)) !! k) = n - 1) as Hdec.
  { intros t1. destruct (Z.eqb_spec (n - 1) 0) as [->|?]; [by rewrite lookup_delete_eq|by rewrite lookup_insert_eq]. }
  rewrite (queue_len_pos q Hq). destruct (bool_decide_reflect (queue_items q = [])) as [E|E]; cbn [negb].
  { pgo. rewrite E. eexists. split; [reflexivity|]. split; [done|]. apply Hdec. }
  pose proof (handToWaiter_run k t (queue_fuel q) q (conj Hq Hf)) as Hrun.
  specialize (Hrun ltac:(unfold queue_fuel; rewrite (queue_len_items q Hq); pose proof (len_nonneg (queue_items q)); lia)).
  destruct (filter _ (queue_items q)) as [|w rest]; destruct Hrun as (q' & Hrun & Hq' & E').
  - pgo. pstep Hrun. eexists. split; [reflexivity|]. split; [done|]. apply Hdec.
  - destruct (startDial_run g me cur _ w t HB) as (qd & Hsd). pgo. rewrite (run_bind _ _ _ _ _ (eq_trans Hrun (run_bind _ _ _ _ _ Hsd))).
    pgo. eexists. split; [reflexivity|]. split; [done|]. split; [done|]. cbn [connsPerHostWait set_connsPerHostWait spawned set_nextGo set_goroutines set_dialsInProgress].
    rewrite (queue_len_items q' Hq'). destruct (Z.eqb_spec (len (queue_items q')) 0) as [E0|E0].
    + rewrite lookup_delete_eq. cbn. rewrite <- E'. apply len_zero in E0. by rewrite E0.
    + by rewrite lookup_insert_eq.
Qed.

(** ** The theorems *)
(** C3: No interleaving of requests, dials, timers, closed connections and calls of
    [CloseIdleConnections] makes the pool panic: every event that is possible in a
    reachable state runs to its end. The panics of the code ("connCount underflow",
    "persistConn was already in LRU", "dup idle pconn in freelist", "misuse of
    tryDeliver"), a send on a closed or full result channel and a nil dereference
    are all values of the model's error type. *)
Theorem pool_never_panics t e r : reachable o t -> happens e -> exec o e t = Some r ->
  exists t', r = Ok (tt, t') /\ reachable o t'.
Proof.
  intros Hr Hh He. destruct (pool_exec_ok o e t r (reachable_Sys o t Hr) Hh He) as (t' & -> & _). exists t'.
  split; [done|]. by apply (reach_step o e t).
Qed.

(** C10: An HTTP/1 connection has at most one owner in every reachable state: it is
    in the pool once, or in the result channel of one request, or with one
    goroutine (a round trip, a dial that delivers it, [putOrCloseIdleConn]). No
    two requests are ever sent over one HTTP/1 connection at a time. *)
Theorem connection_has_one_owner t pc l l' : reachable o t -> is_h1 t pc ->
  holds (-1) None t pc l -> holds (-1) None t pc l' -> l = l' /\ NoDup (idleLRU t).
Proof.
  intros Hr Hh Hl Hl'. destruct (reachable_Sys o t Hr) as [HA HB]. split; [|apply HA]. by apply (I_excl _ _ _ _ _ _ HB pc).
Qed.

(** C37: With a limit, the count of a host is exactly the dials that hold a unit of it
    plus the open connections, it is never stored as zero, and it never exceeds
    [MaxConnsPerHost]: neither do the open connections of the host. *)
Theorem connections_per_host_bounded t k : reachable o t -> 0 < MaxConnsPerHost o ->
  default 0 (connsPerHost t !! k) = count (fun c => bool_decide (go_tok t c = Some k)) (goroutines t) + conn_tokens t k
  /\ connsPerHost t !! k <> Some 0 /\ default 0 (connsPerHost t !! k) <= MaxConnsPerHost o
  /\ conn_tokens t k <= MaxConnsPerHost o.
Proof.
  intros Hr Hm. destruct (reachable_Sys o t Hr) as [_ HB]. destruct (I_count _ _ _ _ _ _ HB Hm k) as (H1 & H2 & H3 & _).
  rewrite tokens_None in *. rewrite (go_tokens_out t (-1)) in * by apply HB.
  pose proof (count_nonneg (fun c => bool_decide (go_tok t c = Some k)) (goroutines t)). splits; try done; lia.
Qed.

(** In every reachable state the idle connections of a key are at most
    [maxIdleConnsPerHost], distinct, of that key and in the LRU list; the LRU list
    has no duplicate and at most [MaxIdleConns] entries; and no request still waits
    for a key that has an idle connection. *)
Theorem idle_pool_consistent t : reachable o t ->
  NoDup (idleLRU t) /\ (MaxIdleConns o <> 0 -> len (idleLRU t) <= Z.max 0 (MaxIdleConns o))
  /\ forall k l, idleConn t !! k = Some l -> idle_list o t k l /\ live_waiters t (idleConnWait t) k = [].
Proof.
  intros Hr. destruct (reachable_Sys o t Hr) as [HA _]. splits; [apply HA|apply HA|]. intros k l Hl.
  split; [by apply (I_idle _ _ HA)|]. unfold live_waiters. destruct (idleConnWait t !! k) as [q|] eqn:Eq; [|done].
  apply live_none. by apply (I_nowait _ _ HA k l q).
Qed.

(** No wake-up is lost. When nothing runs any more (every goroutine waits for the
    network or for its caller) and a request still has no connection, then
    [MaxConnsPerHost] is a limit, the host has exactly that many open connections
    and none of them is idle (unless keep-alives are off), and the request is in the
    queue of dials and in the queue of idle connections, where [decConnsPerHost] and
    [tryPutIdleConn] find it. *)
Theorem waiting_request_means_host_busy t g w wc : reachable o t -> quiescent t ->
  goroutines t !! g = Some (GSelect w) -> wants t !! w = Some wc -> w_done wc = false ->
  0 < MaxConnsPerHost o /\ conn_tokens t (w_key wc) = MaxConnsPerHost o
  /\ w ∈ live_waiters t (connsPerHostWait t) (w_key wc)
  /\ (DisableKeepAlives o = false -> idleConn t !! w_key wc = None /\ w ∈ live_waiters t (idleConnWait t) (w_key wc)).
Proof.
  intros Hr Hq Hg Hw Hd. destruct (reachable_Sys o t Hr) as [HA HB]. set (k := w_key wc).
  assert (g <> -1) as Hg1 by (destruct (I_go _ _ _ _ _ _ HB g _ Hg); lia).
  destruct (I_sel _ _ _ _ _ _ HB g _ Hg1 Hg w wc (or_introl eq_refl) Hw Hd) as [Hi Ho].
  assert (forall m, queued m w k -> w ∈ live_waiters t m k) as Hlive.
  { intros m (q & Hl & Hin). unfold live_waiters. rewrite Hl. apply list_elem_of_filter. split; [|done]. by rewrite (live_run t w wc Hw), Hd. }
  assert (forall q, w ∈ queue_items q -> ~ Forall (isdone t) (queue_items q)) as Hnd.
  { intros q Hin Hf. rewrite Forall_forall in Hf. by apply (not_done t w wc Hw Hd), Hf. }
  destruct (Ho eq_refl) as [(h & c & Hh & Hc)|[Hm Hqu]].
  { destruct (Hq h c Hh) as (x & [->| ->]); done. }
  destruct (I_count _ _ _ _ _ _ HB Hm k) as (_ & _ & Hle & Hfree). rewrite tokens_None in *. rewrite (go_tokens_out t (-1)) in * by apply HB.
  rewrite count_none in * by (intros h c Hh; destruct (Hq h c Hh) as (x & [->| ->]); by apply bool_decide_false).
  splits; [done| |by apply Hlive|].
  - destruct Hqu as (q & Hl & Hin). destruct (decide (0 + conn_tokens t k < MaxConnsPerHost o)) as [Hlt|?]; [|lia].
    destruct (Hnd q Hin). by apply (Hfree Hlt).
  - intros Hka. specialize (Hi Hka). split; [|by apply Hlive]. destruct (idleConn t !! k) as [l|] eqn:El; [|done].
    destruct Hi as (q & Hl & Hin). destruct (Hnd q Hin). by apply (I_nowait _ _ HA k l).
Qed.

(** Closing an open HTTP/1 connection hands its place to the first request that
    still waits to dial to that host, in the order they asked: a dial for it starts
    and the count is unchanged. Only when none waits does the count go down. *)
Theorem close_serves_next_waiter t pc p err : reachable o t -> 0 < MaxConnsPerHost o ->
  conns t !! pc = Some p -> pc_alt p = false -> pc_closed p = None ->
  exists t', exec o (EClose pc err) t = Some (Ok (tt, t')) /\
  match live_waiters t (connsPerHostWait t) (pc_cacheKey p) with
  | [] => goroutines t' = goroutines t
      /\ default 0 (connsPerHost t' !! pc_cacheKey p) = default 0 (connsPerHost t !! pc_cacheKey p) - 1
  | w :: rest => goroutines t' = <[nextGo t := GDialConnFor w]> (goroutines t) /\ connsPerHost t' = connsPerHost t
      /\ live_waiters t (connsPerHostWait t') (pc_cacheKey p) = rest
  end.
Proof.
  intros Hr Hm Hp Ha Hc. destruct (reachable_Sys o t Hr) as [HA HB]. cbn [exec]. rewrite Hp, Ha.
  unfold persistConn_close. rewrite (run_bind _ _ _ _ _ (get_conn_run pc p t Hp)), Hc. cbn [is_set]. pgo.
  set (p' := mkPersistConn _ _ _ _ _ _).
  assert (InvB o (-1) None None (Some (pc_cacheKey p)) (upd_conn pc p' t)) as HB1.
  { apply (InvB_upd_conn o (-1) None None None _ pc p); try done. right. done. }
  destruct (decConnsPerHost_run (-1) None None (pc_cacheKey p) _ HB1 Hm) as (t' & Hrun & Hout).
  exists t'. split; [by rewrite Hrun|]. exact Hout.
Qed.
End Props.

(** ** Concrete runs *)
Definition key_a : connectMethodKey := connectMethod_key (mkConnectMethod None "https" "a:443" false).
Definition one_conn : Options := mkOptions false 100 2 1 10.
Definition step g : event := ERun g (CStep 0).
(** Request 0 dials connection 100 and uses it; request 1 has to wait. *)
Definition busy_events : list event :=
  [EGetConn 0 key_a; step 0; step 0; step 1; ERun 1 (CDialOk 100 false); step 1; step 1; ERun 0 CResult;
   EGetConn 1 key_a; step 2; step 2].
Definition busy : Transport := run one_conn busy_events.
(** The round trip ends and the connection goes back to the pool. *)
Definition idle_events : list event :=
  [EGetConn 0 key_a; step 0; step 0; step 1; ERun 1 (CDialOk 100 false); step 1; step 1; ERun 0 CResult;
   ERun 0 CPutBack; step 0; step 0].

Lemma pool_never_panics_witness :
  reachable one_conn busy /\ exists t', exec one_conn ECloseIdleConnections busy = Some (Ok (tt, t')) /\ reachable one_conn t'.
Proof.
  assert (reachable one_conn busy) as H by by apply run_reachable. split; [exact H|].
  destruct (pool_never_panics one_conn busy ECloseIdleConnections _ H (fun g => ltac:(discriminate)) eq_refl) as (t' & Ht' & Hr).
  exists t'. split; [exact (f_equal Some Ht')|exact Hr].
Defined.
Lemma connection_has_one_owner_witness :
  holds (-1) None busy 100 (LGo 0) /\ forall l, holds (-1) None busy 100 l -> LGo 0 = l.
Proof.
  assert (holds (-1) None busy 100 (LGo 0)) as H by (split; [done|]; exists (GUse 100); split; vm_compute; reflexivity).
  split; [done|]. intros l Hl. apply (connection_has_one_owner one_conn busy 100 (LGo 0) l); try done; [by apply run_reachable|].
  eexists. split; vm_compute; reflexivity.
Defined.
Lemma connections_per_host_bounded_witness :
  conn_tokens busy key_a = 1 /\ conn_tokens busy key_a <= 1.
Proof.
  split; [vm_compute; reflexivity|]. apply (connections_per_host_bounded one_conn busy key_a); [by apply run_reachable|done].
Defined.
Lemma idle_pool_consistent_witness :
  idleConn (run one_conn idle_events) !! key_a = Some [100] /\ idle_list one_conn (run one_conn idle_events) key_a [100].
Proof.
  assert (idleConn (run one_conn idle_events) !! key_a = Some [100]) as H by (vm_compute; reflexivity). split; [done|].
  by apply (idle_pool_consistent one_conn (run one_conn idle_events)); [apply run_reachable|].
Defined.
Lemma waiting_request_means_host_busy_witness : conn_tokens busy key_a = 1 /\ idleConn busy !! key_a = None.
Proof.
  assert (exists wc, wants busy !! 1 = Some wc /\ w_key wc = key_a /\ w_done wc = false) as (wc & Hw & Hk & Hd).
  { eexists. split; [vm_compute; reflexivity|done]. }
  assert (quiescent busy) as Hq.
  { intros h c Hh. assert (goroutines busy = {[0 := GUse 100; 2 := GSelect 1]}) as E by (vm_compute; reflexivity).
    rewrite E in Hh. apply lookup_insert_Some in Hh as [[_ <-]|[_ Hh]]; [exists 100; by right|].
    apply lookup_singleton_Some in Hh as [_ <-]. exists 1. by left. }
  assert (reachable one_conn busy) as Hr by by apply run_reachable.
  assert (goroutines busy !! 2 = Some (GSelect 1)) as Hg by (vm_compute; reflexivity).
  destruct (waiting_request_means_host_busy one_conn busy 2 1 wc Hr Hq Hg Hw Hd) as (_ & H1 & _ & H2).
  rewrite <- Hk. split; [exact H1|]. by apply H2.
Defined.
Lemma close_serves_next_waiter_witness :
  live_waiters busy (connsPerHostWait busy) key_a = [1]
  /\ exists t', exec one_conn (EClose 100 errCloseIdleConns) busy = Some (Ok (tt, t'))
       /\ goroutines t' = <[3 := GDialConnFor 1]> (goroutines busy).
Proof.
  assert (live_waiters busy (connsPerHostWait busy) key_a = [1]) as Hl by (vm_compute; reflexivity). split; [done|].
  assert (exists p, conns busy !! 100 = Some p /\ pc_alt p = false /\ pc_closed p = None /\ pc_cacheKey p = key_a) as (p & Hp & Ha & Hc & Hk).
  { eexists. split; [vm_compute; reflexivity|done]. }
  assert (reachable one_conn busy) as Hr by by apply run_reachable.
  destruct (close_serves_next_waiter one_conn busy 100 p errCloseIdleConns Hr eq_refl Hp Ha Hc) as (t' & Ht' & Hm).
  rewrite Hk, Hl in Hm. exists t'. split; [done|]. apply Hm.
Defined.

(** ** What the runs show *)
(** The connection has been idle for 100 units of time, ten times the limit. *)
Definition leak_events : list event :=
  idle_events ++ [EGetConn 1 key_a; ERun 2 (CStep 100); ECloseIdleConnections; step 4; step 3; ETimer 100; step 5; step 2].
(** A connection found too old by [queueForIdleConn] is closed by a goroutine of its
    own, [closeConnIfStillIdle], which looks for it in the LRU list. When
    [CloseIdleConnections] runs in between, it takes the connection out of the LRU
    list but does not close it (it is no longer in [idleConn]), and the goroutine
    and the idle timer then do nothing: the connection stays open with no owner, and
    the request waits although the host's only place is taken by it. *)
Example close_idle_leaks_stale_connection :
  match exec_all one_conn leak_events new_Transport with
  | Some (Ok t) => Some (map_to_list (goroutines t), w_done <$> wants t !! 1, (idleLRU t, map_to_list (idleConn t)),
      connsPerHost t !! key_a, pc_closed <$> conns t !! 100, pc_idleTimer <$> conns t !! 100)
  | _ => None
  end = Some ([(2, GSelect 1)], Some false, ([], []), Some 1, Some None, Some (Some false)).
Proof. vm_compute. reflexivity. Qed.

(** Were [CNoCachedConn] possible, the unit of a connection could be paid back
    twice, by the round trip that removes it from the pool and by the eviction or
    the close that follows: the count would underflow. *)
Definition no_cached_events : list event :=
  [EGetConn 0 key_a; step 0; step 0; step 1; ERun 1 (CDialOk 100 true); step 1; step 1; step 1; step 1; ERun 0 CResult; ERun 0 CDrop;
   EGetConn 1 key_a; step 2; EGetConn 2 key_a; step 3; ERun 3 CResult; ERun 2 CCtxDone; step 2; step 2; ERun 3 CNoCachedConn; step 3; step 2;
   EGetConn 3 key_a; step 4; ERun 4 CResult; ERun 4 CNoCachedConn; step 4].
Example no_cached_conn_would_underflow :
  exec_all one_conn no_cached_events new_Transport = Some (Err "net/http: internal error: connCount underflow"%string).
Proof. vm_compute. reflexivity. Qed.
