(* ===== verification/BufioLine.v ===== *)
(** * Peeking and reading lines through a [bufio.Reader]

    The operations of [bufio.Reader] (standard library) that the header parser and
    the message bodies use, over the reader of [Bufio]. Two readers are equivalent
    when they still deliver the same bytes and then the same error, however the
    network cut the stream; every operation respects the equivalence. *)

From S2P Require Import Prelude.
From S2P Require Import H2Errors.
From S2P Require Import Bufio.

(** ** Operations *)
(** The loop of [Peek]: fill until [k] bytes are buffered, or the buffer is full,
    or the source ends. *)
Fixpoint bufio_fill (fuel : nat) (r : BufReader) (k : Z) : option (BufReader * bool) :=
  if (k <=? Buffered r) || (bufsize <=? Buffered r) then Some (r, false) else
  match fuel with
  | O => None
  | S fuel =>
      match src_read (bufsize - Buffered r) (bsrc r) with
      | None => Some (r, true)
      | Some (d, src) => bufio_fill fuel (mkBufReader (bbuf r ++ d) src (bend r)) k
      end
  end.
Definition bufio_Peek (r : BufReader) (k : Z) : option (bytes * option error * BufReader) :=
  match bufio_fill (S (length (concat (bsrc r)))) r k with
  | None => None
  | Some (r, ended) =>
      if bufsize <? k then Some (bbuf r, Some errBufferFull, r)
      else if k <=? Buffered r then Some (slice_to (bbuf r) k, None, r)
      else Some (bbuf r, Some (if ended then bend r else errBufferFull), r)
  end.

(** [Discard(n)] of bytes that are buffered. *)
Definition bufio_Discard (r : BufReader) (n : Z) : BufReader :=
  mkBufReader (slice_from (bbuf r) n) (bsrc r) (bend r).

Definition bufio_ReadByte (r : BufReader) : option (option byte * BufReader) :=
  match bufio_fill (S (length (concat (bsrc r)))) r 1 with
  | None => None
  | Some (r, _) =>
      match bbuf r with
      | [] => Some (None, r)
      | b :: rest => Some (Some b, mkBufReader rest (bsrc r) (bend r))
      end
  end.
(** [UnreadByte] after a [ReadByte] that returned [b]. *)
Definition bufio_UnreadByte (r : BufReader) (b : byte) : BufReader := mkBufReader (b :: bbuf r) (bsrc r) (bend r).

(** The end of a line that [ReadLine] drops. *)
Definition chomp (line : bytes) : bytes :=
  match reverse line with
  | 10 :: 13 :: l => reverse l
  | 10 :: l => reverse l
  | _ => line
  end.
(** [ReadLine]: the line, [isPrefix] and the error. *)
Definition bufio_ReadLine (r : BufReader) : option (bytes * bool * option error * BufReader) :=
  match bufio_ReadSlice (S (length (concat (bsrc r)))) r with
  | None => None
  | Some ((line, err), r) =>
      if bool_decide (err = Some errBufferFull) then
        match reverse line with
        | 13 :: l => Some (reverse l, true, None, mkBufReader (13 :: bbuf r) (bsrc r) (bend r))
        | _ => Some (line, true, None, r)
        end
      else match line with
           | [] => Some ([], false, err, r)
           | _ => Some (chomp line, false, None, r)
           end
  end.

(** ** Equivalent readers *)
#[export] Instance BufReader_equiv : Equiv BufReader :=
  fun r1 r2 => buf_ok r1 /\ buf_ok r2 /\ bend r1 = bend r2 /\ pending r1 = pending r2.

#[export] Instance BufReader_equiv_sym : Symmetric (≡@{BufReader}).
Proof. intros r1 r2 (? & ? & ? & ?). by split. Qed.
#[export] Instance BufReader_equiv_trans : Transitive (≡@{BufReader}).
Proof. intros r1 r2 r3 (? & ? & ? & ?) (? & ? & ? & ?). split; [done|]. split; [done|]. split; congruence. Qed.
Lemma BufReader_equiv_refl r : buf_ok r -> r ≡ r.
Proof. done. Qed.

(** Outcomes of an operation on equivalent readers: the same value, and
    equivalent readers again. *)
Definition same_outcome {A} (x y : option (A * BufReader)) : Prop :=
  exists a r1 r2, x = Some (a, r1) /\ y = Some (a, r2) /\ r1 ≡ r2.

Lemma same_outcome_intro {A} (a : A) r1 r2 : r1 ≡ r2 -> same_outcome (Some (a, r1)) (Some (a, r2)).
Proof. intros H. by exists a, r1, r2. Qed.

(** The same, with [Q] of the value and of the reader left. *)
Definition same_post {A} (x y : option (A * BufReader)) (Q : A -> BufReader -> Prop) : Prop :=
  exists a r1 r2, x = Some (a, r1) /\ y = Some (a, r2) /\ r1 ≡ r2 /\ Q a r1.
Lemma same_post_intro {A} (a : A) r1 r2 (Q : A -> BufReader -> Prop) : r1 ≡ r2 -> Q a r1 -> same_post (Some (a, r1)) (Some (a, r2)) Q.
Proof. intros H HQ. by exists a, r1, r2. Qed.
Lemma same_post_weaken {A} (x y : option (A * BufReader)) (Q Q' : A -> BufReader -> Prop) :
  same_post x y Q -> (forall a r, Q a r -> Q' a r) -> same_post x y Q'.
Proof. intros (a & r1 & r2 & ? & ? & ? & ?) HQ. exists a, r1, r2. auto. Qed.
Lemma same_post_outcome {A} (x y : option (A * BufReader)) Q : same_post x y Q -> same_outcome x y.
Proof. intros (a & r1 & r2 & ? & ? & ? & ?). by exists a, r1, r2. Qed.

(** ** What the operations deliver *)
Lemma bufio_fill_spec k : forall fuel r, buf_ok r -> (length (concat (bsrc r)) < fuel)%nat ->
  exists r' ended, bufio_fill fuel r k = Some (r', ended) /\ buf_ok r' /\ bend r' = bend r /\ pending r' = pending r
    /\ if ended then bbuf r' = pending r /\ bsrc r' = [] /\ len (bbuf r') < k /\ len (bbuf r') < bufsize
       else k <= len (bbuf r') \/ len (bbuf r') = bufsize.
Proof.
  induction fuel as [|fuel IH]; intros r [Hseg Hbuf] Hf; [lia|]. cbn [bufio_fill]. unfold Buffered.
  destruct (Z.leb_spec k (len (bbuf r))) as [Hk|Hk]; cbn [orb].
  { exists r, false. splits; try done. by left. }
  destruct (Z.leb_spec bufsize (len (bbuf r))) as [Hb|Hb].
  { exists r, false. splits; try done. right. lia. }
  pose proof (src_read_spec (bufsize - len (bbuf r)) (bsrc r) ltac:(lia) Hseg) as Hs.
  destruct (src_read _ (bsrc r)) as [[d src]|].
  - destruct Hs as (Hd & Hl & Hc & Hf'). destruct (IH (mkBufReader (bbuf r ++ d) src (bend r))) as (r' & e & Hrun & Hok & Hbe & Hp & He).
    + split; [done|]. cbn. rewrite len_app. lia.
    + cbn. rewrite <- Hc, length_app in Hf. destruct d; [done|cbn in Hf; lia].
    + assert (pending (mkBufReader (bbuf r ++ d) src (bend r)) = pending r) as Ep.
      { unfold pending. cbn. by rewrite <- app_assoc, Hc. }
      rewrite Ep in *. exists r', e. splits; done.
  - exists r, true. unfold pending. rewrite Hs. cbn. rewrite app_nil_r. splits; try done.
Qed.

Lemma bufio_Peek_spec r k : buf_ok r -> 0 <= k <= bufsize ->
  exists r', r' ≡ r /\ bufio_Peek r k =
    Some (slice_to (pending r) k, if len (pending r) <? k then Some (bend r) else None, r')
    /\ len (slice_to (pending r) k) <= len (bbuf r').
Proof.
  intros Hok Hk. unfold bufio_Peek.
  destruct (bufio_fill_spec k (S (length (concat (bsrc r)))) r Hok ltac:(lia)) as (r' & e & -> & Hok' & Hbe & Hp & He).
  exists r'. split; [done|]. destruct (Z.ltb_spec bufsize k) as [?|_]; [lia|].
  assert (len (bbuf r') <= len (pending r)) as Hle.
  { rewrite <- Hp. unfold pending. rewrite len_app. pose proof (len_nonneg (concat (bsrc r'))). lia. }
  unfold Buffered. destruct (Z.leb_spec k (len (bbuf r'))) as [Hkb|Hkb].
  - assert (slice_to (bbuf r') k = slice_to (pending r) k) as E.
    { rewrite <- Hp. unfold pending, slice_to, len in *. rewrite take_app_le; [done|lia]. }
    destruct (Z.ltb_spec (len (pending r)) k) as [?|_]; [lia|]. rewrite <- E. split; [done|].
    unfold slice_to, len in *. rewrite length_take. lia.
  - destruct e; [|lia]. destruct He as (Hb & _). rewrite Hb in *. destruct (Z.ltb_spec (len (pending r)) k) as [_|?]; [|lia].
    assert (slice_to (pending r) k = pending r) as ->.
    { unfold slice_to, len in *. apply take_ge. lia. }
    by rewrite Hbe.
Qed.

Lemma bufio_Discard_spec r n : buf_ok r -> 0 <= n <= len (bbuf r) ->
  buf_ok (bufio_Discard r n) /\ bend (bufio_Discard r n) = bend r /\ pending (bufio_Discard r n) = slice_from (pending r) n.
Proof.
  intros [Hs Hb] Hn. unfold bufio_Discard, buf_ok, pending, slice_from, len in *. cbn. splits; try done.
  - rewrite length_drop. lia.
  - rewrite drop_app_le; [done|lia].
Qed.

Lemma bufio_ReadByte_spec r : buf_ok r ->
  exists r', bufio_ReadByte r = Some (head (pending r), r') /\ buf_ok r' /\ bend r' = bend r /\ pending r' = tail (pending r)
    /\ (forall b, head (pending r) = Some b -> bufio_UnreadByte r' b ≡ r).
Proof.
  intros Hok. unfold bufio_ReadByte.
  destruct (bufio_fill_spec 1 (S (length (concat (bsrc r)))) r Hok ltac:(lia)) as (r1 & e & -> & Hok' & Hbe & Hp & He).
  destruct (bbuf r1) as [|b l] eqn:Eb.
  - destruct e; [|exfalso; rewrite len_nil in He; unfold bufsize in He; lia].
    destruct He as (Hb & Hs & _). exists r1. rewrite <- Hb in *. splits; try done.
  - assert (pending r = b :: l ++ concat (bsrc r1)) as Ep by (rewrite <- Hp; unfold pending; by rewrite Eb).
    exists (mkBufReader l (bsrc r1) (bend r1)). rewrite Ep. destruct Hok' as [Hs Hb]. rewrite Eb in Hb.
    splits; try done; [split; cbn; [done|]; rewrite len_cons in Hb; lia|].
    intros b' [= <-]. splits; unfold buf_ok, bufio_UnreadByte, pending; cbn; try done.
Qed.

Lemma slice_result_det c e0 d err c' d2 err2 c2 : e0 <> errBufferFull ->
  slice_result c e0 d err c' -> slice_result c e0 d2 err2 c2 -> d = d2 /\ err = err2 /\ c' = c2.
Proof.
  intros He H1 H2.
  destruct H1 as [i Hi Hl|d c' Hno Hd Hc|Hi Hl]; inversion H2 as [j Hj Hl2|q c3 Hno2 Hd2 Hc2|Hi2 Hl2]; subst; try congruence.
  - assert (i = j) as -> by congruence. done.
  - specialize (Hno2 i Hi). lia.
  - specialize (Hno j Hj). lia.
  - assert (length d = length d2) as El by (unfold len in *; lia).
    apply app_inj_1 in Hc2 as [-> ->]; [done|by rewrite El].
  - rewrite len_app in Hl2. pose proof (len_nonneg c'). lia.
  - rewrite len_app in Hl. match type of Hl with context [len d2 + len ?x] => pose proof (len_nonneg x) end. lia.
  - done.
Qed.

(** ** Operations on equivalent readers *)
Lemma bufio_ReadSlice_same r1 r2 : r1 ≡ r2 -> bend r1 <> errBufferFull ->
  same_outcome (bufio_ReadSlice (S (length (concat (bsrc r1)))) r1) (bufio_ReadSlice (S (length (concat (bsrc r2)))) r2).
Proof.
  intros (Hok1 & Hok2 & Hb & Hp) He.
  destruct (bufio_ReadSlice_spec (S (length (concat (bsrc r1)))) r1 Hok1 ltac:(lia)) as (d1 & e1 & r1' & -> & Hok1' & Hb1 & Hr1).
  destruct (bufio_ReadSlice_spec (S (length (concat (bsrc r2)))) r2 Hok2 ltac:(lia)) as (d2 & e2 & r2' & -> & Hok2' & Hb2 & Hr2).
  rewrite Hb in He. rewrite Hb, Hp in Hr1. destruct (slice_result_det _ _ _ _ _ _ _ _ He Hr1 Hr2) as (-> & -> & E).
  apply same_outcome_intro. split; [done|]. split; [done|]. split; congruence.
Qed.

Lemma bufio_Peek_same r1 r2 k : r1 ≡ r2 -> 0 <= k <= bufsize -> same_outcome (bufio_Peek r1 k) (bufio_Peek r2 k).
Proof.
  intros Hr Hk. pose proof Hr as (Hok1 & Hok2 & Hb & Hp).
  destruct (bufio_Peek_spec r1 k Hok1 Hk) as (r1' & Hr1 & -> & _). destruct (bufio_Peek_spec r2 k Hok2 Hk) as (r2' & Hr2 & -> & _).
  rewrite Hb, Hp. apply same_outcome_intro. rewrite Hr1, Hr. by symmetry.
Qed.

Lemma bufio_ReadByte_same r1 r2 : r1 ≡ r2 -> same_outcome (bufio_ReadByte r1) (bufio_ReadByte r2).
Proof.
  intros (Hok1 & Hok2 & Hb & Hp).
  destruct (bufio_ReadByte_spec r1 Hok1) as (r1' & -> & Hok1' & Hb1 & Hp1 & _).
  destruct (bufio_ReadByte_spec r2 Hok2) as (r2' & -> & Hok2' & Hb2 & Hp2 & _).
  rewrite Hp in *. apply same_outcome_intro. split; [done|]. split; [done|]. split; congruence.
Qed.

(** Putting a byte back that was just read. *)
Lemma put_back_ok r d c : buf_ok r -> len (bbuf r) < bufsize -> buf_ok (mkBufReader (d :: bbuf r) (bsrc r) c).
Proof. intros [Hs Hb] Hl. split; [done|]. cbn. rewrite len_cons. lia. Qed.

Lemma bufio_ReadSlice_full_buf r d r' : buf_ok r ->
  bufio_ReadSlice (S (length (concat (bsrc r)))) r = Some ((d, Some errBufferFull), r') -> bend r <> errBufferFull -> bbuf r' = [].
Proof.
  intros _. generalize (S (length (concat (bsrc r)))) as fuel. intros fuel. revert r.
  induction fuel as [|fuel IH]; intros r; cbn [bufio_ReadSlice]; (destruct (index_nl (bbuf r)); [congruence|]);
    (destruct (bufsize <=? Buffered r); [by intros [= _ <-]|]); [done|].
  destruct (src_read _ (bsrc r)) as [[q src]|]; [|congruence]. intros H He. by apply (IH _ H).
Qed.

Lemma bufio_ReadLine_same r1 r2 : r1 ≡ r2 -> bend r1 <> errBufferFull -> same_outcome (bufio_ReadLine r1) (bufio_ReadLine r2).
Proof.
  intros Hr He. destruct (bufio_ReadSlice_same r1 r2 Hr He) as ([line err] & r1' & r2' & E1 & E2 & Hr').
  unfold bufio_ReadLine. rewrite E1, E2. case_bool_decide as Hf; [|destruct line; by apply same_outcome_intro].
  subst err. pose proof Hr as (Hok1 & Hok2 & Hbe & _). pose proof Hr' as (Hok1' & Hok2' & Hb' & Hp').
  pose proof (bufio_ReadSlice_full_buf _ _ _ Hok1 E1 He) as Hn1. pose proof (bufio_ReadSlice_full_buf _ _ _ Hok2 E2 ltac:(congruence)) as Hn2.
  assert (mkBufReader (13 :: bbuf r1') (bsrc r1') (bend r1') ≡ mkBufReader (13 :: bbuf r2') (bsrc r2') (bend r2')) as Hput.
  { split; [apply put_back_ok; [done|by rewrite Hn1]|]. split; [apply put_back_ok; [done|by rewrite Hn2]|].
    split; [done|]. unfold pending in *. cbn. by f_equal. }
  destruct (reverse line) as [|b l]; [by apply same_outcome_intro|].
  destruct (decide (b = 13)) as [->|Hb]; [by apply same_outcome_intro|].
  assert (forall A (x y : A), match b with 13 => x | _ => y end = y) as Hm.
  { intros A x y. destruct b as [|p|p]; try done. do 4 (destruct p; try done). }
  rewrite !Hm. by apply same_outcome_intro.
Qed.

(** [ReadLine] takes something from a stream that is not at its end. *)
Lemma bufio_ReadLine_progress r : buf_ok r -> bend r <> errBufferFull ->
  exists line more err r', bufio_ReadLine r = Some (line, more, err, r') /\ buf_ok r' /\ bend r' = bend r
    /\ match err with
       | Some e => e = bend r /\ pending r = [] /\ pending r' = []
       | None => (length (pending r') < length (pending r))%nat
       end.
Proof.
  intros Hok He. unfold bufio_ReadLine.
  destruct (bufio_ReadSlice_spec (S (length (concat (bsrc r)))) r Hok ltac:(lia)) as (d & e & r' & E & Hok' & Hb' & Hr).
  rewrite E. inversion Hr as [i Hi Hlt Hd Hee Hc|d' c' Hno Hlen Happ Hd Hee Hc|Hi Hl4 Hd Hee Hc].
  - rewrite bool_decide_false by done. apply index_nl_lt in Hi.
    destruct (take (S i) (pending r)) as [|b l] eqn:El.
    { apply (f_equal length) in El. rewrite length_take in El. change (S i `min` length (pending r) = 0)%nat in El. lia. }
    do 4 eexists. split; [reflexivity|]. splits; try done. rewrite <- Hc, length_drop. lia.
  - subst e d'. rewrite bool_decide_true by done. pose proof (bufio_ReadSlice_full_buf _ _ _ Hok E He) as Hnil.
    assert (len d + len (pending r') = len (pending r)) as Hl by (rewrite <- Happ, len_app; congruence).
    assert (forall r2, pending r2 = pending r' \/ pending r2 = 13 :: pending r' -> (length (pending r2) < length (pending r))%nat) as Hlt.
    { intros r2 [E2|E2]; rewrite E2; cbn; unfold len, bufsize in *; lia. }
    destruct (reverse d) as [|b l]; [do 4 eexists; split; [reflexivity|]; splits; try done; apply Hlt; by left|].
    destruct (decide (b = 13)) as [->|Hb].
    + do 4 eexists. split; [reflexivity|]. splits; [apply put_back_ok; [done|by rewrite Hnil]|done|]. apply Hlt. by right.
    + assert (forall A (x y : A), match b with 13 => x | _ => y end = y) as Hm.
      { intros A x y. destruct b as [|p|p]; try done. do 4 (destruct p; try done). }
      rewrite Hm. do 4 eexists. split; [reflexivity|]. splits; try done. apply Hlt. by left.
  - rewrite (bool_decide_false (Some (bend r) = _)) by congruence. destruct (pending r) as [|b l] eqn:El.
    + do 4 eexists. split; [reflexivity|]. splits; done.
    + do 4 eexists. split; [reflexivity|]. splits; try done. rewrite <- Hc. cbn. lia.
Qed.

(** ** Lines *)
Lemma chomp_crlf l : chomp (l ++ [13; 10]) = l.
Proof. unfold chomp. rewrite reverse_app. change (reverse [13; 10]) with [10; 13]. cbn [app]. by rewrite reverse_involutive. Qed.

Lemma index_nl_none l : index_nl l = None <-> Forall (fun b => b <> 10) l.
Proof.
  induction l as [|b l IH]; cbn; [by split|]. destruct (Z.eqb_spec b 10) as [->|Hb].
  - split; [done|]. intros H. by apply Forall_cons in H as [H _].
  - rewrite Forall_cons. rewrite <- IH. destruct (index_nl l); cbn; [|tauto]. split; [done|]. intros [_ H]. done.
Qed.
Lemma index_nl_line l c : Forall (fun b => b <> 10) l -> index_nl (l ++ 10 :: c) = Some (length l).
Proof. intros H. rewrite index_nl_app by by apply index_nl_none. cbn. by rewrite Nat.add_0_r. Qed.

(** One call of [ReadLine] on a stream that begins with the line [l]: the line, or
    a prefix of it as long as the buffer, up to a carriage return at its end. *)
Lemma bufio_ReadLine_line r l c : buf_ok r -> bend r <> errBufferFull -> Forall (fun b => b <> 10) l ->
  pending r = l ++ 13 :: 10 :: c ->
  (exists r', bufio_ReadLine r = Some (l, false, None, r') /\ buf_ok r' /\ bend r' = bend r /\ pending r' = c)
  \/ exists l1 l2 r', l = l1 ++ l2 /\ l1 <> [] /\ bufio_ReadLine r = Some (l1, true, None, r')
       /\ buf_ok r' /\ bend r' = bend r /\ pending r' = l2 ++ 13 :: 10 :: c.
Proof.
  intros Hok He Hl Hp. unfold bufio_ReadLine.
  destruct (bufio_ReadSlice_spec (S (length (concat (bsrc r)))) r Hok ltac:(lia)) as (d & e & r' & E & Hok' & Hb' & Hr).
  rewrite E. rewrite Hp in Hr. replace (l ++ 13 :: 10 :: c) with ((l ++ [13]) ++ 10 :: c) in Hr by (by rewrite <- app_assoc).
  assert (Forall (fun b => b <> 10) (l ++ [13])) as Hl' by (apply Forall_app; split; [done|by constructor]).
  pose proof (index_nl_line (l ++ [13]) c Hl') as Hi.
  inversion Hr as [i Hi' Hlt Hd Hee Hc|d' c' Hno Hlen Happ Hd Hee Hc|Hi' Hl4 Hd Hee Hc]; [| |congruence].
  - left. rewrite Hi in Hi'. injection Hi' as <-. rewrite bool_decide_false by done.
    assert (take (S (length (l ++ [13]))) ((l ++ [13]) ++ 10 :: c) = l ++ [13; 10]) as ->.
    { replace ((l ++ [13]) ++ 10 :: c) with ((l ++ [13; 10]) ++ c) by (by rewrite <- !app_assoc).
      rewrite take_app_le by (rewrite !length_app; cbn; lia). apply take_ge. rewrite !length_app. cbn. lia. }
    rewrite chomp_crlf. exists r'. split; [by destruct l|]. splits; try done. rewrite <- Hc.
    replace ((l ++ [13]) ++ 10 :: c) with ((l ++ [13; 10]) ++ c) by (by rewrite <- !app_assoc).
    rewrite drop_app_ge by (rewrite !length_app; cbn; lia).
    rewrite !length_app. cbn [length]. by replace (S (length l + 1) - (length l + 2))%nat with 0%nat by lia.
  - right. subst e. rewrite bool_decide_true by done. specialize (Hno _ Hi).
    pose proof (bufio_ReadSlice_full_buf _ _ _ Hok E He) as Hnil.
    assert (len d <= len (l ++ [13])) as Hdl by (unfold len in *; lia).
    assert (exists l2, l ++ [13] = d ++ l2 /\ pending r' = l2 ++ 10 :: c) as (l2 & El & Ep).
    { exists (drop (length d) (l ++ [13])). apply (f_equal (take (length (l ++ [13])))) in Happ as Ht. apply (f_equal (drop (length (l ++ [13])))) in Happ as Hdr.
      rewrite take_app_length in Ht. rewrite drop_app_length in Hdr. unfold len in *.
      rewrite take_app_ge in Ht by lia. rewrite drop_app_ge in Hdr by lia. rewrite <- Ht. rewrite drop_app_length. split; [done|].
      rewrite <- Hdr. by rewrite take_drop. }
    destruct d as [|b0 d0 _] using rev_ind; [discriminate|]. rewrite reverse_snoc.
    assert (0 < len d0) as Hd0 by (rewrite len_app in Hlen; change (len [b0]) with 1 in Hlen; unfold bufsize in Hlen; lia).
    assert (d0 <> []) as Hne by (intros ->; done).
    destruct (decide (b0 = 13)) as [->|Hb].
    + rewrite reverse_involutive. destruct l2 as [|x l2 _] using rev_ind.
      * rewrite app_nil_r in El. apply app_inj_tail in El as [-> _]. exists d0, []. eexists. rewrite app_nil_r. splits; try done.
        -- apply put_back_ok; [done|by rewrite Hnil].
        -- unfold pending in *. cbn in *. by rewrite Ep.
      * rewrite app_assoc in El. apply app_inj_tail in El as [-> <-]. exists d0, (13 :: l2). eexists. rewrite <- app_assoc. splits; try done.
        -- apply put_back_ok; [done|by rewrite Hnil].
        -- unfold pending in *. cbn in *. rewrite Ep. by rewrite <- app_assoc.
    + assert (forall A (x y : A), match b0 with 13 => x | _ => y end = y) as Hm.
      { intros A x y. destruct b0 as [|p|p]; try done. do 4 (destruct p; try done). }
      rewrite Hm. destruct l2 as [|x l2 _] using rev_ind.
      * rewrite app_nil_r in El. apply app_inj_tail in El as [_ E13]. congruence.
      * rewrite app_assoc in El. apply app_inj_tail in El as [-> <-]. exists (d0 ++ [b0]), l2, r'. splits; try done.
        -- by destruct d0.
        -- rewrite Ep. by rewrite <- app_assoc.
Qed.
