(* ===== verification/TextProto.v ===== *)
(** * Reading a MIME header ([src/textproto_reader.go])

    The reader of lines, of continued lines and of header fields, over a
    [bufio.Reader]. How the network cuts the stream changes nothing
    ([ReadMIMEHeader_same]), and a written header block is read back
    ([mime_header_roundtrip]). [dump] selects the line reader used when response
    headers are dumped. *)

From S2P Require Import Prelude.
From S2P Require Import H2Errors.
From S2P Require Import NetText.
From S2P Require Import Bufio.
From S2P Require Import BufioLine.

Definition errMessageTooLarge : error := errors_New "message too large".
Definition maxInt64 : Z := 2 ^ 63 - 1.

(** ** Bytes *)
Definition isASCIILetter (b : byte) : bool := let b := Z.lor b 32 in (97 <=? b) && (b <=? 122).
Definition is_space (b : byte) : bool := (b =? 32) || (b =? 9).

(** [trim] and [bytes.TrimLeft(v, " \t")]. *)
Fixpoint trim_spaces (s : bytes) : bytes :=
  match s with b :: s' => if is_space b then trim_spaces s' else s | [] => [] end.
Definition trim (s : bytes) : bytes := reverse (trim_spaces (reverse (trim_spaces s))).

(** The keys of [isTokenTable]. *)
Definition token_bytes : bytes :=
  bytes_of_string "!#$%&'*+-.0123456789ABCDEFGHIJKLMNOPQRSTUWVXYZ^_`abcdefghijklmnopqrstuvwxyz|~".
Definition isTokenTable : list bool := (fun b => existsb (Z.eqb b) token_bytes) <$> seqZ 0 127.
Definition tp_validHeaderFieldByte (b : byte) : bool :=
  (b <? len isTokenTable) && nth (Z.to_nat b) isTokenTable false.

(** The mask of [validHeaderValueByte], and its test on a byte. *)
Definition value_mask : Z :=
  Z.lor (Z.lor (Z.shiftl (Z.shiftl 1 (127 - 33) - 1) 33) (Z.shiftl 1 32)) (Z.shiftl 1 9).
Definition validHeaderValueByte (c : byte) : bool :=
  Z.lor (Z.ldiff (u64 (Z.shiftl 1 c)) (Z.land value_mask (2 ^ 64 - 1)))
        (Z.ldiff (u64 (Z.shiftl 1 (u8 (c - 64)))) (Z.shiftr value_mask 64)) =? 0.

Definition commonHeader : gmap string string :=
  fold_left (fun m v => <[v := v]> m)
    ["Accept"; "Accept-Charset"; "Accept-Encoding"; "Accept-Language"; "Accept-Ranges"; "Cache-Control"; "Cc";
     "Connection"; "Content-Id"; "Content-Language"; "Content-Length"; "Content-Transfer-Encoding"; "Content-Type";
     "Cookie"; "Date"; "Dkim-Signature"; "Etag"; "Expires"; "From"; "Host"; "If-Modified-Since"; "If-None-Match";
     "In-Reply-To"; "Last-Modified"; "Location"; "Message-Id"; "Mime-Version"; "Pragma"; "Received"; "Return-Path";
     "Server"; "Set-Cookie"; "Subject"; "To"; "User-Agent"; "Via"; "X-Forwarded-For"; "X-Imforwards"; "X-Powered-By"]%string ∅.

(** The key and [ok]. *)
Definition canonicalMIMEHeaderKey (a : bytes) : string * bool :=
  match a with
  | [] => (""%string, false)
  | _ =>
      if negb (forallb (fun c => tp_validHeaderFieldByte c || (c =? 32)) a) then (string_of_bytes a, false)
      else if negb (forallb tp_validHeaderFieldByte a) then (string_of_bytes a, true)
      else let key := string_of_bytes (canonical_bytes true a) in
           match commonHeader !! key with
           | Some v => (if bool_decide (v = ""%string) then key else v, true)
           | None => (key, true)
           end
  end.

(** [bytes.Cut] at the first [c]. *)
Fixpoint cut (c : byte) (p : bytes) : option (bytes * bytes) :=
  match p with
  | [] => None
  | b :: p => if b =? c then Some ([], p) else match cut c p with Some (k, v) => Some (b :: k, v) | None => None end
  end.

(** The last occurrence of a byte: what precedes it and what follows. *)
Fixpoint cut_last (c : byte) (p : bytes) : option (bytes * bytes) :=
  match p with
  | [] => None
  | b :: p =>
      match cut_last c p with
      | Some (x, y) => Some (b :: x, y)
      | None => if b =? c then Some ([], p) else None
      end
  end.

Definition mustHaveFieldNameColon (line : bytes) : option error :=
  if existsb (Z.eqb 58) line then None else Some (protocolError "malformed MIME header: missing colon: " line).

(** ** Lines *)
Definition rd_fuel (r : BufReader) : nat := S (length (pending r)).

Section Reader.
Context (dump : bool).

(** The field [readLine]: [bufio.Reader.ReadLine], or the closure that dumps what
    it reads. *)
Definition readLine (r : BufReader) : option (bytes * bool * option error * BufReader) :=
  if dump then
    match bufio_ReadSlice (S (length (concat (bsrc r)))) r with
    | None => None
    | Some (([], err), r) => Some ([], false, err, r)
    | Some ((line, _), r) => Some (chomp line, false, None, r)
    end
  else bufio_ReadLine r.

Fixpoint readLineSlice_loop (fuel : nat) (r : BufReader) (lim : Z) (line : bytes) : option (result error bytes * BufReader) :=
  match fuel with
  | O => None
  | S fuel =>
      match readLine r with
      | None => None
      | Some (_, _, Some e, r) => Some (Err e, r)
      | Some (l, more, None, r) =>
          if (0 <=? lim) && (lim <? len line + len l) then Some (Err errMessageTooLarge, r)
          else if more then readLineSlice_loop fuel r lim (line ++ l) else Some (Ok (line ++ l), r)
      end
  end.
Definition readLineSlice (r : BufReader) (lim : Z) : option (result error bytes * BufReader) :=
  readLineSlice_loop (rd_fuel r) r lim [].
Definition ReadLine (r : BufReader) : option (result error string * BufReader) :=
  match readLineSlice r (-1) with
  | None => None
  | Some (Ok l, r) => Some (Ok (string_of_bytes l), r)
  | Some (Err e, r) => Some (Err e, r)
  end.

Fixpoint skipSpace_loop (fuel : nat) (r : BufReader) (n : Z) : option (Z * BufReader) :=
  match fuel with
  | O => None
  | S fuel =>
      match bufio_ReadByte r with
      | None => None
      | Some (None, r) => Some (n, r)
      | Some (Some c, r) => if is_space c then skipSpace_loop fuel r (n + 1) else Some (n, bufio_UnreadByte r c)
      end
  end.
Definition skipSpace (r : BufReader) : option (Z * BufReader) := skipSpace_loop (rd_fuel r) r 0.

(** The continuation lines; [buf] is [r.buf]. *)
Fixpoint continuation_loop (fuel : nat) (r : BufReader) (lim : Z) (buf : bytes) : option (bytes * option error * BufReader) :=
  match fuel with
  | O => None
  | S fuel =>
      match skipSpace r with
      | None => None
      | Some (n, r) =>
          if 0 <? n then
            let buf := buf ++ [32] in
            if lim <=? len buf then Some ([], Some errMessageTooLarge, r) else
            match readLineSlice r (lim - len buf) with
            | None => None
            | Some (Err _, r) => Some (buf, None, r)
            | Some (Ok line, r) => continuation_loop fuel r lim (buf ++ trim line)
            end
          else Some (buf, None, r)
      end
  end.

(** Whether the next line, when it is buffered, cannot be a continuation. *)
Definition next_line_starts (r : BufReader) : option (bool * BufReader) :=
  if 1 <? Buffered r then
    match bufio_Peek r 2 with
    | None => None
    | Some (peek, _, r) =>
        Some (match peek with
              | c :: rest => isASCIILetter c || (c =? 10) || match rest with d :: _ => (c =? 13) && (d =? 10) | [] => false end
              | [] => false
              end, r)
    end
  else Some (false, r).

Definition readContinuedLineSlice (r : BufReader) (lim : Z) : option (bytes * option error * BufReader) :=
  match readLineSlice r lim with
  | None => None
  | Some (Err e, r) => Some ([], Some e, r)
  | Some (Ok [], r) => Some ([], None, r)
  | Some (Ok line, r) =>
      match mustHaveFieldNameColon line with
      | Some e => Some ([], Some e, r)
      | None =>
          match next_line_starts r with
          | None => None
          | Some (true, r) => Some (trim line, None, r)
          | Some (false, r) =>
              let buf := trim line in
              let lim := (if lim <? 0 then maxInt64 else lim) - len buf in
              continuation_loop (rd_fuel r) r lim buf
          end
      end
  end.

(** ** The header *)
(** The number of keys that seem to come, which only sizes an allocation. *)
Fixpoint count_keys (fuel : nat) (peek : bytes) (n : Z) : Z :=
  match fuel, peek with
  | O, _ | _, [] => n
  | S fuel, _ =>
      if 1000 <=? n then n else
      let '(line, rest) := match cut 10 peek with Some (l, p) => (l, p) | None => (peek, []) end in
      match line with
      | [] | [13] => n
      | c :: _ => if is_space c then count_keys fuel rest n else count_keys fuel rest (n + 1)
      end
  end.
Definition upcomingHeaderKeys (r : BufReader) : option (Z * BufReader) :=
  match bufio_Peek r 1 with
  | None => None
  | Some (_, _, r) =>
      let s := Buffered r in
      if s =? 0 then Some (0, r) else
      match bufio_Peek r s with
      | None => None
      | Some (peek, _, r) => Some (count_keys (length peek) peek 0, r)
      end
  end.

Definition malformed (kv : bytes) : error := protocolError "malformed MIME header line: " kv.

Fixpoint readMIMEHeader_loop (fuel : nat) (r : BufReader) (m : Header) (maxMemory maxHeaders : Z)
    : option (Header * option error * BufReader) :=
  match fuel with
  | O => None
  | S fuel =>
      match readContinuedLineSlice r maxMemory with
      | None => None
      | Some ([], err, r) => Some (m, err, r)
      | Some (kv, err, r) =>
          match cut 58 kv with
          | None => Some (m, Some (malformed kv), r)
          | Some (k, v) =>
              let '(key, ok) := canonicalMIMEHeaderKey k in
              if negb ok then Some (m, Some (malformed kv), r) else
              (* the key was canonicalized in place *)
              let kv := bytes_of_string key ++ 58 :: v in
              if negb (forallb validHeaderValueByte v) then Some (m, Some (malformed kv), r) else
              let maxHeaders := maxHeaders - 1 in
              if maxHeaders <? 0 then Some (∅, Some errMessageTooLarge, r) else
              let value := string_of_bytes (trim_spaces v) in
              let maxMemory := match m !! key with None => maxMemory - len (bytes_of_string key) - 200 | Some _ => maxMemory end in
              let maxMemory := maxMemory - len (bytes_of_string value) in
              if maxMemory <? 0 then Some (m, Some errMessageTooLarge, r) else
              let m := Header_append m key value in
              match err with
              | Some e => Some (m, Some e, r)
              | None => readMIMEHeader_loop fuel r m maxMemory maxHeaders
              end
          end
      end
  end.

Definition readMIMEHeader (r : BufReader) (maxMemory maxHeaders : Z) : option (Header * option error * BufReader) :=
  match upcomingHeaderKeys r with
  | None => None
  | Some (_, r) =>
      let maxMemory := maxMemory - 400 in
      match bufio_Peek r 1 with
      | None => None
      | Some (buf, err, r) =>
          if negb (is_set err) && match buf with c :: _ => is_space c | [] => false end then
            match readLineSlice r 80 with
            | None => None
            | Some (Err e, r) => Some (∅, Some e, r)
            | Some (Ok line, r) => Some (∅, Some (protocolError "malformed MIME header initial line: " line), r)
            end
          else readMIMEHeader_loop (rd_fuel r) r ∅ maxMemory maxHeaders
      end
  end.
Definition ReadMIMEHeader (r : BufReader) : option (Header * option error * BufReader) :=
  readMIMEHeader r maxInt64 maxInt64.
End Reader.

(** ** Segmentation does not matter *)
Section Same.
Context (dump : bool).

(** What an operation leaves of a stream that [r] delivers. *)
Definition keeps_end (r r' : BufReader) : Prop := bend r' = bend r /\ (length (pending r') <= length (pending r))%nat.
Definition takes (r r' : BufReader) : Prop := bend r' = bend r /\ (length (pending r') < length (pending r))%nat.
Lemma takes_keeps r r' : takes r r' -> keeps_end r r'. Proof. intros [? ?]. split; [done|lia]. Qed.
Lemma keeps_end_trans r1 r2 r3 : keeps_end r1 r2 -> keeps_end r2 r3 -> keeps_end r1 r3.
Proof. intros [? ?] [? ?]. split; [congruence|lia]. Qed.
Lemma takes_trans r1 r2 r3 : takes r1 r2 -> keeps_end r2 r3 -> takes r1 r3.
Proof. intros [? ?] [? ?]. split; [congruence|lia]. Qed.
Lemma equiv_fuel r1 r2 : r1 ≡ r2 -> rd_fuel r1 = rd_fuel r2.
Proof. intros (_ & _ & _ & E). unfold rd_fuel. by rewrite E. Qed.
Lemma equiv_keeps r1 r2 r3 : r1 ≡ r2 -> keeps_end r2 r3 -> keeps_end r1 r3.
Proof. intros (_ & _ & E1 & E2) [? ?]. split; [congruence|by rewrite E2]. Qed.

Lemma readLine_same r1 r2 : r1 ≡ r2 -> bend r1 <> errBufferFull ->
  same_post (readLine dump r1) (readLine dump r2)
    (fun res r' => match res with (_, _, Some _) => keeps_end r1 r' | (_, _, None) => takes r1 r' end).
Proof.
  intros Hr He. pose proof Hr as (Hok & _). unfold readLine. destruct dump.
  - destruct (bufio_ReadSlice_same r1 r2 Hr He) as ([d e] & r1' & r2' & E1 & E2 & Hr').
    destruct (bufio_ReadSlice_spec (S (length (concat (bsrc r1)))) r1 Hok ltac:(lia)) as (d0 & e0 & r0 & E0 & _ & Hb & Hs).
    rewrite E1 in E0. injection E0 as <- <- <-. rewrite E1, E2.
    destruct d as [|b l].
    + apply same_post_intro; [done|]. inversion Hs as [i Hi Hlt Hd Hee Hc|d' c' Hno Hlen Happ Hd Hee Hc|Hi Hl4 Hd Hee Hc].
      * apply index_nl_lt in Hi. destruct (pending r1); [cbn in Hi; lia|done].
      * done.
      * split; [done|]. rewrite <- Hc. cbn. lia.
    + apply same_post_intro; [done|]. split; [done|]. inversion Hs as [i Hi Hlt Hd Hee Hc|d' c' Hno Hlen Happ Hd Hee Hc|Hi Hl4 Hd Hee Hc].
      * apply index_nl_lt in Hi. rewrite length_drop. lia.
      * rewrite <- Happ. rewrite length_app. cbn. lia.
      * destruct (pending r1); [done|]. cbn. lia.
  - destruct (bufio_ReadLine_same r1 r2 Hr He) as ([[l more] e] & r1' & r2' & E1 & E2 & Hr').
    destruct (bufio_ReadLine_progress r1 Hok He) as (l0 & m0 & e0 & r0 & E0 & _ & Hb & Hp).
    rewrite E1 in E0. injection E0 as <- <- <- <-. rewrite E1, E2. apply same_post_intro; [done|].
    destruct e; [destruct Hp as (_ & _ & Hp0); split; [done|]; rewrite Hp0; cbn; lia|by split].
Qed.

Lemma readLineSlice_loop_same lim : forall fuel r1 r2 line, r1 ≡ r2 -> bend r1 <> errBufferFull ->
  (length (pending r1) < fuel)%nat ->
  same_post (readLineSlice_loop dump fuel r1 lim line) (readLineSlice_loop dump fuel r2 lim line)
    (fun res r' => match res with Err _ => keeps_end r1 r' | Ok _ => takes r1 r' end).
Proof.
  induction fuel as [|fuel IH]; intros r1 r2 line Hr He Hf; [lia|]. cbn [readLineSlice_loop].
  destruct (readLine_same r1 r2 Hr He) as ([[l more] e] & r1' & r2' & -> & -> & Hr' & Hq).
  destruct e as [e|]; [by apply same_post_intro|].
  destruct (_ && _); [apply same_post_intro; [done|by apply takes_keeps]|].
  destruct more; [|by apply same_post_intro]. destruct Hq as [Hb Hl].
  eapply same_post_weaken; [apply (IH r1' r2'); [done|congruence|lia]|].
  intros [x|x] r [Hb2 Hl2]; (split; [congruence|lia]).
Qed.
Lemma readLineSlice_same lim r1 r2 : r1 ≡ r2 -> bend r1 <> errBufferFull ->
  same_post (readLineSlice dump r1 lim) (readLineSlice dump r2 lim)
    (fun res r' => match res with Err _ => keeps_end r1 r' | Ok _ => takes r1 r' end).
Proof.
  intros Hr He. unfold readLineSlice. rewrite <- (equiv_fuel _ _ Hr).
  apply readLineSlice_loop_same; [done|done|unfold rd_fuel; lia].
Qed.

Lemma skipSpace_loop_same : forall fuel r1 r2 n, r1 ≡ r2 -> (length (pending r1) < fuel)%nat ->
  same_post (skipSpace_loop fuel r1 n) (skipSpace_loop fuel r2 n) (fun _ r' => keeps_end r1 r').
Proof.
  induction fuel as [|fuel IH]; intros r1 r2 n Hr Hf; [lia|]. cbn [skipSpace_loop].
  pose proof Hr as (Hok1 & Hok2 & Hb & Hp).
  destruct (bufio_ReadByte_spec r1 Hok1) as (r1' & -> & Hok1' & Hb1 & Hp1 & Hu1).
  destruct (bufio_ReadByte_spec r2 Hok2) as (r2' & -> & Hok2' & Hb2 & Hp2 & Hu2).
  assert (r1' ≡ r2') as Hr' by (split; [done|]; split; [done|]; split; congruence).
  assert (keeps_end r1 r1') as Hk. { split; [done|]. rewrite Hp1. destruct (pending r1); cbn; lia. }
  rewrite <- Hp in *. destruct (head (pending r1)) as [c|] eqn:Eh; [|by apply same_post_intro].
  destruct (is_space c).
  - eapply same_post_weaken; [apply IH; [done|]|].
    + rewrite Hp1. destruct (pending r1); [done|]. cbn in *. lia.
    + intros x r. by apply keeps_end_trans.
  - specialize (Hu1 c eq_refl). specialize (Hu2 c eq_refl). apply same_post_intro.
    + rewrite Hu1. symmetry. rewrite Hu2. by symmetry.
    + destruct Hu1 as (_ & _ & E1 & E2). split; [done|]. by rewrite E2.
Qed.
Lemma skipSpace_same r1 r2 : r1 ≡ r2 -> same_post (skipSpace r1) (skipSpace r2) (fun _ r' => keeps_end r1 r').
Proof.
  intros Hr. unfold skipSpace. rewrite <- (equiv_fuel _ _ Hr). apply skipSpace_loop_same; [done|unfold rd_fuel; lia].
Qed.
Lemma skipSpace_none r : buf_ok r -> match head (pending r) with Some c => is_space c = false | None => True end ->
  exists r', skipSpace r = Some (0, r') /\ r' ≡ r.
Proof.
  intros Hok Hh. unfold skipSpace, rd_fuel. cbn [skipSpace_loop].
  destruct (bufio_ReadByte_spec r Hok) as (r' & -> & Hok' & Hb & Hp & Hu).
  destruct (head (pending r)) as [c|] eqn:E.
  - rewrite Hh. eexists. split; [reflexivity|]. by apply Hu.
  - exists r'. split; [done|]. split; [done|]. split; [done|]. split; [done|]. rewrite Hp. by destruct (pending r).
Qed.

Lemma continuation_loop_same : forall fuel r1 r2 lim buf, r1 ≡ r2 -> bend r1 <> errBufferFull -> (length (pending r1) < fuel)%nat ->
  same_post (continuation_loop dump fuel r1 lim buf) (continuation_loop dump fuel r2 lim buf) (fun _ r' => keeps_end r1 r').
Proof.
  induction fuel as [|fuel IH]; intros r1 r2 lim buf Hr He Hf; [lia|]. cbn [continuation_loop].
  destruct (skipSpace_same r1 r2 Hr) as (n & r1' & r2' & -> & -> & Hr' & Hk).
  destruct (0 <? n); [|by apply same_post_intro]. destruct (lim <=? _); [by apply same_post_intro|].
  pose proof Hk as [Hb Hl].
  destruct (readLineSlice_same (lim - len (buf ++ [32])) r1' r2' Hr' ltac:(rewrite Hb; exact He)) as (res & r1'' & r2'' & -> & -> & Hr'' & Hq).
  destruct res as [l|e]; [|apply same_post_intro; [done|by apply (keeps_end_trans _ r1')]].
  destruct Hq as [Hb2 Hl2]. eapply same_post_weaken; [apply IH; [done|congruence|lia]|].
  intros x r [? ?]. split; [congruence|lia].
Qed.

Lemma next_line_starts_spec r : buf_ok r ->
  exists b r', next_line_starts r = Some (b, r') /\ r' ≡ r
    /\ (b = true -> match head (pending r) with Some c => is_space c = false | None => True end).
Proof.
  intros Hok. unfold next_line_starts. destruct (1 <? Buffered r); [|by exists false, r].
  destruct (bufio_Peek_spec r 2 Hok ltac:(done)) as (r' & Hr' & -> & _).
  eexists _, r'. split; [reflexivity|]. split; [done|].
  destruct (pending r) as [|c l]; [done|]. cbn. unfold is_space, isASCIILetter.
  destruct (Z.eqb_spec c 32) as [->|]; [by destruct l|]. destruct (Z.eqb_spec c 9) as [->|]; [by destruct l|]. done.
Qed.

Lemma readContinuedLineSlice_same lim r1 r2 : r1 ≡ r2 -> bend r1 <> errBufferFull ->
  same_post (readContinuedLineSlice dump r1 lim) (readContinuedLineSlice dump r2 lim)
    (fun res r' => keeps_end r1 r' /\ (res.1 <> [] -> takes r1 r')).
Proof.
  intros Hr He. unfold readContinuedLineSlice.
  destruct (readLineSlice_same lim r1 r2 Hr He) as (res & r1' & r2' & -> & -> & Hr' & Hq).
  destruct res as [[|b l]|e]; [apply same_post_intro; [done|]; split; [by apply takes_keeps|done]| |by apply same_post_intro].
  pose proof (takes_keeps _ _ Hq) as Hk. pose proof Hq as [Hb Hl].
  destruct (mustHaveFieldNameColon _); [by apply same_post_intro|].
  set (line := b :: l). pose proof Hr' as (Hok1 & Hok2 & Hbe & Hp).
  destruct (next_line_starts_spec r1' Hok1) as (b1 & r1'' & -> & Hr1 & Hb1).
  destruct (next_line_starts_spec r2' Hok2) as (b2 & r2'' & -> & Hr2 & Hb2).
  assert (r1'' ≡ r2'') as Hr'' by (rewrite Hr1, Hr'; by symmetry).
  set (lim' := (if lim <? 0 then maxInt64 else lim) - len (trim line)).
  (* the slow path, when the next line is no continuation *)
  assert (forall r, r ≡ r1' -> match head (pending r1') with Some c => is_space c = false | None => True end ->
    exists r', continuation_loop dump (rd_fuel r) r lim' (trim line) = Some (trim line, None, r') /\ r' ≡ r1') as Hslow.
  { intros r Hrr Hh. pose proof Hrr as (Hokr & _ & _ & Epr). unfold rd_fuel. cbn [continuation_loop].
    destruct (skipSpace_none r Hokr) as (r' & -> & Hr3); [by rewrite Epr|]. exists r'. split; [done|]. by rewrite Hr3. }
  assert (forall (r : BufReader), r ≡ r1' -> takes r1 r) as Htk.
  { intros r (_ & _ & E1 & E2). split; [congruence|by rewrite E2]. }
  destruct b1, b2.
  - apply same_post_intro; [done|]. split; [apply takes_keeps|]; by (try intros _; apply Htk).
  - destruct (Hslow r2'') as (r' & -> & Hr3); [rewrite Hr2; by symmetry|by apply Hb1|].
    apply same_post_intro; [rewrite Hr1; by symmetry|]. split; [apply takes_keeps|]; by (try intros _; apply Htk).
  - rewrite Hp in Hslow. destruct (Hslow r1'' Hr1) as (r' & -> & Hr3); [by apply Hb2|].
    apply same_post_intro; [rewrite Hr3, Hr2; done|]. split; [apply takes_keeps|]; by (try intros _; apply Htk).
  - rewrite <- (equiv_fuel _ _ Hr''). pose proof (Htk _ Hr1) as [Hb3 Hl3].
    eapply same_post_weaken; [apply continuation_loop_same; [done|congruence|unfold rd_fuel; lia]|].
    intros x r [? ?]. assert (takes r1 r) by (split; [congruence|lia]). split; [by apply takes_keeps|done].
Qed.

Lemma readMIMEHeader_loop_same : forall fuel r1 r2 m mem hdrs, r1 ≡ r2 -> bend r1 <> errBufferFull -> (length (pending r1) < fuel)%nat ->
  same_post (readMIMEHeader_loop dump fuel r1 m mem hdrs) (readMIMEHeader_loop dump fuel r2 m mem hdrs) (fun _ r' => keeps_end r1 r').
Proof.
  induction fuel as [|fuel IH]; intros r1 r2 m mem hdrs Hr He Hf; [lia|]. cbn [readMIMEHeader_loop].
  destruct (readContinuedLineSlice_same mem r1 r2 Hr He) as ([kv err] & r1' & r2' & -> & -> & Hr' & Hk & Ht).
  destruct kv as [|b kv]; [by apply same_post_intro|]. specialize (Ht ltac:(done)).
  destruct (cut 58 (b :: kv)) as [[k v]|]; [|by apply same_post_intro].
  destruct (canonicalMIMEHeaderKey k) as [key ok]. destruct (negb ok); [by apply same_post_intro|].
  destruct (negb _); [by apply same_post_intro|]. destruct (hdrs - 1 <? 0); [by apply same_post_intro|].
  destruct (_ <? 0); [by apply same_post_intro|]. destruct err; [by apply same_post_intro|].
  destruct Ht as [Hb Hl]. eapply same_post_weaken; [apply IH; [done|congruence|lia]|].
  intros x r. by apply keeps_end_trans.
Qed.

Lemma upcomingHeaderKeys_equiv r : buf_ok r -> exists n r', upcomingHeaderKeys r = Some (n, r') /\ r' ≡ r.
Proof.
  intros Hok. unfold upcomingHeaderKeys. destruct (bufio_Peek_spec r 1 Hok ltac:(done)) as (r1 & Hr1 & -> & _).
  destruct (Buffered r1 =? 0); [by exists 0, r1|]. pose proof Hr1 as (Hok1 & _).
  destruct (bufio_Peek_spec r1 (Buffered r1) Hok1) as (r2 & Hr2 & -> & _).
  { split; [apply len_nonneg|apply Hok1]. }
  do 2 eexists. split; [reflexivity|]. by rewrite Hr2.
Qed.

(** A header read from the same bytes is the same, however they arrive; and it is
    read in finite time. *)
Lemma readMIMEHeader_same mem hdrs r1 r2 : r1 ≡ r2 -> bend r1 <> errBufferFull ->
  same_post (readMIMEHeader dump r1 mem hdrs) (readMIMEHeader dump r2 mem hdrs) (fun _ r' => keeps_end r1 r').
Proof.
  intros Hr He. pose proof Hr as (Hok1 & Hok2 & _). unfold readMIMEHeader.
  destruct (upcomingHeaderKeys_equiv r1 Hok1) as (n1 & r1' & -> & Hr1). destruct (upcomingHeaderKeys_equiv r2 Hok2) as (n2 & r2' & -> & Hr2).
  assert (r1' ≡ r2') as Hr' by (rewrite Hr1, Hr; by symmetry).
  destruct (bufio_Peek_same r1' r2' 1 Hr' ltac:(done)) as ([buf err] & r1'' & r2'' & E1 & E2 & Hr'').
  assert (r1'' ≡ r1) as Hr3.
  { pose proof Hr1 as (Hok & _). destruct (bufio_Peek_spec r1' 1 Hok ltac:(done)) as (r & Hrr & E & _). rewrite E1 in E. injection E as _ _ <-. by rewrite Hrr. }
  rewrite E1, E2. pose proof Hr3 as (_ & _ & Hb3 & Hp3).
  destruct (_ && _).
  - destruct (readLineSlice_same 80 r1'' r2'' Hr'' ltac:(congruence)) as (res & ra & rb & -> & -> & Hab & Hq).
    assert (keeps_end r1'' ra) as Hk by (destruct res; [by apply takes_keeps|done]).
    destruct res; (apply same_post_intro; [done|]; apply (equiv_keeps _ r1''); [by symmetry|done]).
  - rewrite <- (equiv_fuel _ _ Hr''). eapply same_post_weaken; [apply readMIMEHeader_loop_same; [done|congruence|unfold rd_fuel; lia]|].
    intros x r. apply equiv_keeps. by symmetry.
Qed.
End Same.

(** ** Reading what was written *)
Definition field_line (kv : string * string) : bytes :=
  bytes_of_string kv.1 ++ [58; 32] ++ bytes_of_string kv.2.
Definition field_bytes (kv : string * string) : bytes := field_line kv ++ [13; 10].
Definition header_bytes (fields : list (string * string)) : bytes := concat (field_bytes <$> fields) ++ [13; 10].

(** A field whose name is a token and whose value needs no trimming. *)
Definition field_ok (kv : string * string) : Prop :=
  bytes_of_string kv.1 <> [] /\ Forall (fun b => validHeaderFieldByte b = true) (bytes_of_string kv.1)
  /\ Forall (fun b => validHeaderValueByte b = true) (bytes_of_string kv.2)
  /\ match head (bytes_of_string kv.2) with Some b => is_space b = false | None => True end
  /\ match last (bytes_of_string kv.2) with Some b => is_space b = false | None => True end.
Definition field_cost (kv : string * string) : Z := len (bytes_of_string kv.1) + 200 + len (bytes_of_string kv.2).
Definition fields_cost (fields : list (string * string)) : Z := fold_right (fun kv n => field_cost kv + n) 0 fields.
Definition add_field (m : Header) (kv : string * string) : Header := Header_append m (CanonicalHeaderKey kv.1) kv.2.

Lemma field_cost_pos kv : 200 <= field_cost kv.
Proof. unfold field_cost. pose proof (len_nonneg (bytes_of_string kv.1)). pose proof (len_nonneg (bytes_of_string kv.2)). lia. Qed.
Lemma fields_cost_nonneg fields : 0 <= fields_cost fields.
Proof. unfold fields_cost. induction fields as [|kv l IH]; cbn [fold_right]; [done|]. pose proof (field_cost_pos kv). lia. Qed.

(** The byte tables. *)
Definition all_bytes : list Z := seqZ 0 256.
Lemma all_bytes_in b : 0 <= b < 256 -> b ∈ all_bytes.
Proof. intros H. apply elem_of_seqZ. lia. Qed.
Lemma tables_ok : Forall (fun b => tp_validHeaderFieldByte b = validHeaderFieldByte b
  /\ (validHeaderFieldByte b = true -> b <> 10 /\ b <> 58 /\ is_space b = false)
  /\ validHeaderValueByte b = ((b =? 9) || ((32 <=? b) && negb (b =? 127)))) all_bytes.
Proof. apply Forall_forall. intros b Hb. apply elem_of_seqZ in Hb.
  assert (forallb (fun b => bool_decide (tp_validHeaderFieldByte b = validHeaderFieldByte b)
    && implb (validHeaderFieldByte b) (negb (b =? 10) && negb (b =? 58) && negb (is_space b))
    && bool_decide (validHeaderValueByte b = ((b =? 9) || ((32 <=? b) && negb (b =? 127))))) all_bytes = true) as H by (vm_compute; reflexivity).
  rewrite forallb_forall in H. specialize (H b). rewrite <- list_elem_of_In in H. specialize (H (all_bytes_in b ltac:(lia))).
  apply andb_prop in H as [H H3]. apply andb_prop in H as [H1 H2]. apply bool_decide_eq_true in H1, H3. splits; [done| |done].
  intros E. rewrite E in H2. cbn in H2. apply andb_prop in H2 as [H2 H4]. apply andb_prop in H2 as [H2 H5].
  apply negb_true_iff in H2, H4, H5. splits; [by apply Z.eqb_neq|by apply Z.eqb_neq|done].
Qed.
Lemma string_bytes_range s : Forall (fun b => 0 <= b < 256) (bytes_of_string s).
Proof. apply bytes_of_string_ok. Qed.
Lemma table_byte s b : b ∈ bytes_of_string s -> tp_validHeaderFieldByte b = validHeaderFieldByte b
  /\ (validHeaderFieldByte b = true -> b <> 10 /\ b <> 58 /\ is_space b = false)
  /\ validHeaderValueByte b = ((b =? 9) || ((32 <=? b) && negb (b =? 127))).
Proof.
  intros Hb. pose proof tables_ok as H. rewrite Forall_forall in H. apply H, all_bytes_in.
  pose proof (string_bytes_range s) as Hr. rewrite Forall_forall in Hr. by apply Hr.
Qed.

Lemma trim_spaces_head l : match head l with Some b => is_space b = false | None => True end -> trim_spaces l = l.
Proof. destruct l as [|b l]; cbn; [done|]. by intros ->. Qed.
Lemma trim_ends l : match head l with Some b => is_space b = false | None => True end ->
  match last l with Some b => is_space b = false | None => True end -> trim l = l.
Proof.
  intros Hh Hl. unfold trim. rewrite (trim_spaces_head l Hh), trim_spaces_head; [apply reverse_involutive|].
  by rewrite head_reverse.
Qed.
Lemma cut_first c k w : Forall (fun b => b <> c) k -> cut c (k ++ c :: w) = Some (k, w).
Proof.
  induction 1 as [|b k Hb Hk IH]; cbn; [by rewrite Z.eqb_refl|]. by rewrite (proj2 (Z.eqb_neq b c) Hb), IH.
Qed.

Lemma field_line_parts kv : field_ok kv ->
  Forall (fun b => b <> 10) (field_line kv) /\ mustHaveFieldNameColon (field_line kv) = None
  /\ match head (field_line kv) with Some b => is_space b = false | None => False end
  /\ exists w, trim (field_line kv) <> [] /\ cut 58 (trim (field_line kv)) = Some (bytes_of_string kv.1, w)
     /\ trim_spaces w = bytes_of_string kv.2 /\ forallb validHeaderValueByte w = true.
Proof.
  intros (Hne & Hk & Hv & Hh & Hl). destruct kv as [k v]. unfold field_line. cbn [fst snd] in *.
  assert (Forall (fun b => b <> 10 /\ b <> 58 /\ is_space b = false) (bytes_of_string k)) as Hkb.
  { apply Forall_forall. intros b Hb. apply (table_byte k b Hb). rewrite Forall_forall in Hk. by apply Hk. }
  assert (Forall (fun b => b <> 10) (bytes_of_string v)) as Hvb.
  { apply Forall_forall. intros b Hb. rewrite Forall_forall in Hv. specialize (Hv b Hb). destruct (table_byte v b Hb) as (_ & _ & E).
    rewrite E in Hv. intros ->. discriminate Hv. }
  assert (match head (bytes_of_string k ++ [58; 32] ++ bytes_of_string v) with Some b => is_space b = false | None => False end) as Hhead.
  { destruct (bytes_of_string k) as [|b l]; [done|]. cbn. by apply Forall_cons in Hkb as [(_ & _ & ?) _]. }
  assert (Forall (fun b => b <> 58) (bytes_of_string k)) as H58 by (eapply Forall_impl; [exact Hkb|]; by intros b (? & ? & ?)).
  splits; [| |exact Hhead|].
  - apply Forall_app. split; [eapply Forall_impl; [exact Hkb|]; by intros b (? & ? & ?)|]. by repeat constructor.
  - unfold mustHaveFieldNameColon. replace (existsb (Z.eqb 58) _) with true; [done|]. symmetry. apply existsb_exists. exists 58.
    split; [|done]. apply list_elem_of_In, elem_of_app. right. by left.
  - assert (match head (bytes_of_string k ++ [58; 32] ++ bytes_of_string v) with Some b => is_space b = false | None => True end) as Hhead'
      by (revert Hhead; by destruct (head (bytes_of_string k ++ [58; 32] ++ bytes_of_string v))).
    destruct (bytes_of_string v) as [|b0 v0] eqn:Ev.
    + exists []. assert (trim (bytes_of_string k ++ [58; 32] ++ []) = bytes_of_string k ++ [58]) as ->.
      { unfold trim. rewrite (trim_spaces_head _ Hhead'). rewrite app_nil_r, reverse_app. change (reverse [58; 32]) with [32; 58]. cbn [app trim_spaces is_space].
        change (is_space 32) with true. change (is_space 58) with false. cbn iota. rewrite reverse_cons, reverse_involutive. done. }
      splits; try done; [by destruct (bytes_of_string k)|by apply (cut_first 58 _ [])].
    + exists (32 :: b0 :: v0). rewrite trim_ends; [|exact Hhead'|].
      * splits; [by destruct (bytes_of_string k)|by apply cut_first| |].
        -- change (trim_spaces (b0 :: v0) = b0 :: v0). by apply trim_spaces_head.
        -- apply forallb_forall. intros x [<-|Hx]; [done|]. apply list_elem_of_In in Hx. rewrite Forall_forall in Hv. by apply Hv.
      * rewrite app_assoc, last_app_cons. exact Hl.
Qed.

Lemma canonical_token k : bytes_of_string k <> [] -> Forall (fun b => validHeaderFieldByte b = true) (bytes_of_string k) ->
  canonicalMIMEHeaderKey (bytes_of_string k) = (CanonicalHeaderKey k, true).
Proof.
  intros Hne Hk. unfold canonicalMIMEHeaderKey, CanonicalHeaderKey.
  assert (forallb validHeaderFieldByte (bytes_of_string k) = true) as E1.
  { apply forallb_forall. intros b Hb. apply list_elem_of_In in Hb. rewrite Forall_forall in Hk. by apply Hk. }
  assert (forallb tp_validHeaderFieldByte (bytes_of_string k) = true) as E2.
  { apply forallb_forall. intros b Hb. apply list_elem_of_In in Hb. destruct (table_byte k b Hb) as (-> & _).
    rewrite Forall_forall in Hk. by apply Hk. }
  assert (forallb (fun c => tp_validHeaderFieldByte c || (c =? 32)) (bytes_of_string k) = true) as E3.
  { apply forallb_forall. intros b Hb. rewrite forallb_forall in E2. by rewrite (E2 b Hb). }
  rewrite E1, E2, E3. cbn [negb]. destruct (bytes_of_string k) as [|b l] eqn:E; [done|].
  destruct (commonHeader !! _) as [v|] eqn:Ec; [|done].
  assert (v = string_of_bytes (canonical_bytes true (b :: l))) as ->; [|by case_bool_decide].
  unfold commonHeader in Ec. apply (lookup_fold_insert (fun v => v) (fun v => v)) in Ec as [Ec|(x & _ & -> & ->)]; [|done].
  by rewrite lookup_empty in Ec.
Qed.

Lemma length_canonical up p : length (canonical_bytes up p) = length p.
Proof. revert up. induction p as [|c p IH]; intros up; cbn; [done|]. by rewrite IH. Qed.
Lemma canonical_bytes_ok up p : bytes_ok p -> bytes_ok (canonical_bytes up p).
Proof.
  intros Hp. revert up. induction Hp as [|c p Hc Hp IH]; intros up; cbn; [constructor|]. constructor; [|apply IH].
  unfold is_lower, is_upper, is_u8 in *. destruct up; cbn [andb orb negb]; repeat case_match; lia.
Qed.

Section RoundTrip.
Context (dump : bool).

Lemma readLine_line r l c : buf_ok r -> bend r <> errBufferFull -> Forall (fun b => b <> 10) l ->
  (dump = true -> len l + 2 <= bufsize) -> pending r = l ++ 13 :: 10 :: c ->
  (exists r', readLine dump r = Some (l, false, None, r') /\ buf_ok r' /\ bend r' = bend r /\ pending r' = c)
  \/ exists l1 l2 r', l = l1 ++ l2 /\ l1 <> [] /\ readLine dump r = Some (l1, true, None, r')
       /\ buf_ok r' /\ bend r' = bend r /\ pending r' = l2 ++ 13 :: 10 :: c.
Proof.
  intros Hok He Hl Hd Hp. unfold readLine. destruct dump; [|by apply bufio_ReadLine_line]. left. specialize (Hd eq_refl).
  destruct (bufio_ReadSlice_spec (S (length (concat (bsrc r)))) r Hok ltac:(lia)) as (d & e & r' & -> & Hok' & Hb' & Hr).
  assert (slice_result (pending r) (bend r) (l ++ [13; 10]) None c) as Hs.
  { pose proof (slice_line (pending r) (bend r) (S (length l))) as H. rewrite Hp in *.
    rewrite take_app_ge, drop_app_ge in H by lia. replace (S (S (length l)) - length l)%nat with 2%nat in H by lia.
    apply H; [|unfold len in Hd; lia]. rewrite index_nl_app by by apply index_nl_none. cbn. f_equal. lia. }
  destruct (slice_result_det _ _ _ _ _ _ _ _ He Hr Hs) as (-> & -> & E). rewrite chomp_crlf.
  exists r'. by destruct l.
Qed.

Lemma readLineSlice_loop_line lim : forall fuel r l c acc, buf_ok r -> bend r <> errBufferFull -> Forall (fun b => b <> 10) l ->
  (dump = true -> len l + 2 <= bufsize) -> pending r = l ++ 13 :: 10 :: c -> (length (pending r) < fuel)%nat ->
  lim < 0 \/ len acc + len l <= lim ->
  exists r', readLineSlice_loop dump fuel r lim acc = Some (Ok (acc ++ l), r') /\ buf_ok r' /\ bend r' = bend r /\ pending r' = c.
Proof.
  induction fuel as [|fuel IH]; intros r l c acc Hok He Hl Hd Hp Hf Hlim; [lia|]. cbn [readLineSlice_loop].
  destruct (readLine_line r l c Hok He Hl Hd Hp) as [(r' & -> & Hok' & Hb & Hp')|(l1 & l2 & r' & -> & Hne & -> & Hok' & Hb & Hp')].
  - replace ((0 <=? lim) && (lim <? len acc + len l)) with false; [by exists r'|]. symmetry. apply andb_false_iff.
    destruct Hlim; [left; apply Z.leb_gt; lia|right; apply Z.ltb_ge; lia].
  - rewrite len_app in *. pose proof (len_nonneg l2).
    replace ((0 <=? lim) && (lim <? len acc + len l1)) with false.
    2: { symmetry. apply andb_false_iff. destruct Hlim; [left; apply Z.leb_gt; lia|right; apply Z.ltb_ge; lia]. }
    apply Forall_app in Hl as [_ Hl2]. destruct (IH r' l2 c (acc ++ l1)) as (r2 & -> & Hok2 & Hb2 & Hp2); try done.
    + congruence.
    + intros E. specialize (Hd E). pose proof (len_nonneg l1). lia.
    + rewrite Hp' . rewrite Hp in Hf. rewrite <- app_assoc, length_app in Hf. destruct l1; [done|cbn in Hf; lia].
    + rewrite len_app. destruct Hlim; [by left|right; lia].
    + exists r2. rewrite app_assoc. splits; try done. congruence.
Qed.
Lemma readLineSlice_line r lim l c : buf_ok r -> bend r <> errBufferFull -> Forall (fun b => b <> 10) l ->
  (dump = true -> len l + 2 <= bufsize) -> pending r = l ++ 13 :: 10 :: c -> lim < 0 \/ len l <= lim ->
  exists r', readLineSlice dump r lim = Some (Ok l, r') /\ buf_ok r' /\ bend r' = bend r /\ pending r' = c.
Proof.
  intros Hok He Hl Hd Hp Hlim. unfold readLineSlice.
  apply (readLineSlice_loop_line lim (rd_fuel r) r l c []); try done. unfold rd_fuel. lia.
Qed.

Lemma readContinuedLineSlice_line r lim l c : buf_ok r -> bend r <> errBufferFull -> Forall (fun b => b <> 10) l -> l <> [] ->
  mustHaveFieldNameColon l = None -> (dump = true -> len l + 2 <= bufsize) -> pending r = l ++ 13 :: 10 :: c -> len l <= lim ->
  match head c with Some b => is_space b = false | None => True end ->
  exists r', readContinuedLineSlice dump r lim = Some (trim l, None, r') /\ buf_ok r' /\ bend r' = bend r /\ pending r' = c.
Proof.
  intros Hok He Hl Hne Hcol Hd Hp Hlim Hc. unfold readContinuedLineSlice.
  destruct (readLineSlice_line r lim l c Hok He Hl Hd Hp (or_intror Hlim)) as (r1 & -> & Hok1 & Hb1 & Hp1).
  rewrite Hcol. destruct l as [|b0 l0]; [done|]. set (l := b0 :: l0) in *.
  destruct (next_line_starts_spec r1 Hok1) as (b & r2 & -> & (Hok2 & _ & Hb2 & Hp2) & _).
  destruct b; [exists r2; splits; try done; congruence|].
  unfold rd_fuel. cbn [continuation_loop].
  destruct (skipSpace_none r2 Hok2) as (r3 & -> & (Hok3 & _ & Hb3 & Hp3)); [by rewrite Hp2, Hp1|].
  exists r3. splits; try done; congruence.
Qed.

Lemma readContinuedLineSlice_blank r lim c : buf_ok r -> bend r <> errBufferFull -> pending r = 13 :: 10 :: c -> 0 <= lim ->
  exists r', readContinuedLineSlice dump r lim = Some ([], None, r') /\ buf_ok r' /\ bend r' = bend r /\ pending r' = c.
Proof.
  intros Hok He Hp Hlim. unfold readContinuedLineSlice.
  destruct (readLineSlice_line r lim [] c Hok He (Forall_nil_2 _)) as (r1 & -> & Hok1 & Hb1 & Hp1); [done|done|by right|].
  by exists r1.
Qed.

Definition lines_fit (fields : list (string * string)) : Prop :=
  dump = true -> Forall (fun kv => len (field_bytes kv) <= bufsize) fields.

Lemma header_head fields c : Forall field_ok fields ->
  match head (header_bytes fields ++ c) with Some b => is_space b = false | None => True end.
Proof.
  intros Hf. destruct Hf as [|kv fields Hkv _]; [done|]. destruct (field_line_parts kv Hkv) as (_ & _ & Hh & _).
  unfold header_bytes, field_bytes. cbn [fmap list_fmap concat]. destruct (field_line kv); [done|]. exact Hh.
Qed.

Lemma readMIMEHeader_loop_fields c : forall fields fuel r m mem hdrs, Forall field_ok fields -> lines_fit fields ->
  buf_ok r -> bend r <> errBufferFull -> pending r = header_bytes fields ++ c -> (length (pending r) < fuel)%nat ->
  fields_cost fields <= mem -> fields_cost fields <= hdrs ->
  exists r', readMIMEHeader_loop dump fuel r m mem hdrs = Some (fold_left add_field fields m, None, r')
    /\ buf_ok r' /\ bend r' = bend r /\ pending r' = c.
Proof.
  induction fields as [|kv fields IH]; intros fuel r m mem hdrs Hf Hd Hok He Hp Hfu Hm Hh; (destruct fuel as [|fuel]; [lia|]); cbn [readMIMEHeader_loop].
  - destruct (readContinuedLineSlice_blank r mem c Hok He Hp Hm) as (r' & -> & ?). by exists r'.
  - apply Forall_cons in Hf as [Hkv Hf]. destruct (field_line_parts kv Hkv) as (Hnl & Hcol & _ & w & Hne & Hcut & Hw & Hval).
    assert (pending r = field_line kv ++ 13 :: 10 :: (header_bytes fields ++ c)) as Hp'.
    { rewrite Hp. unfold header_bytes, field_bytes. cbn [fmap list_fmap concat]. by rewrite <- !app_assoc. }
    cbn [fields_cost fold_right] in Hm, Hh. fold (fields_cost fields) in Hm, Hh.
    pose proof (field_cost_pos kv). pose proof (fields_cost_nonneg fields).
    assert (len (field_line kv) <= mem) as Hlm.
    { unfold field_line, field_cost in *. rewrite !len_app. change (len [58; 32]) with 2. lia. }
    destruct (readContinuedLineSlice_line r mem (field_line kv) (header_bytes fields ++ c)) as (r' & -> & Hok' & Hb' & Hpr); try done.
    { intros E. rewrite E in Hne. done. }
    { intros E. specialize (Hd E). apply Forall_cons in Hd as [Hd _]. unfold field_bytes in Hd. rewrite len_app in Hd. exact Hd. }
    { by apply header_head. }
    destruct (trim (field_line kv)) as [|b0 l0] eqn:Etr; [done|]. rewrite Hcut.
    destruct Hkv as (Hk1 & Hk2 & _). rewrite (canonical_token _ Hk1 Hk2). cbn [negb]. rewrite Hval. cbn [negb].
    destruct (Z.ltb_spec (hdrs - 1) 0); [lia|]. rewrite Hw, string_of_bytes_of_string.
    assert (len (bytes_of_string (CanonicalHeaderKey kv.1)) = len (bytes_of_string kv.1)) as Hcl.
    { unfold CanonicalHeaderKey. cbv zeta. case_match; [|done].
      rewrite bytes_of_string_of_bytes; [unfold len; by rewrite length_canonical|].
      apply canonical_bytes_ok, bytes_of_string_ok. }
    set (mem' := match m !! CanonicalHeaderKey kv.1 with None => _ | Some _ => _ end).
    assert (fields_cost fields <= mem' - len (bytes_of_string kv.2)) as Hmem.
    { unfold mem', field_cost in *. rewrite Hcl. pose proof (len_nonneg (bytes_of_string kv.1)). destruct (m !! _); lia. }
    destruct (Z.ltb_spec (mem' - len (bytes_of_string kv.2)) 0); [lia|].
    destruct (IH fuel r' (Header_append m (CanonicalHeaderKey kv.1) kv.2) (mem' - len (bytes_of_string kv.2)) (hdrs - 1)) as (r2 & -> & Hok2 & Hb2 & Hp2); try done.
    + intros E. specialize (Hd E). by apply Forall_cons in Hd as [_ Hd].
    + congruence.
    + rewrite Hpr. rewrite Hp' in Hfu. rewrite length_app in Hfu. cbn in Hfu. lia.
    + lia.
    + exists r2. splits; try done. congruence.
Qed.

Lemma ReadMIMEHeader_fields fields c r : Forall field_ok fields -> lines_fit fields -> fields_cost fields <= maxInt64 - 400 ->
  buf_ok r -> bend r <> errBufferFull -> pending r = header_bytes fields ++ c ->
  exists r', ReadMIMEHeader dump r = Some (fold_left add_field fields ∅, None, r')
    /\ buf_ok r' /\ bend r' = bend r /\ pending r' = c.
Proof.
  intros Hf Hd Hcost Hok He Hp. unfold ReadMIMEHeader, readMIMEHeader.
  destruct (upcomingHeaderKeys_equiv r Hok) as (n & r1 & -> & Hr1). pose proof Hr1 as (Hok1 & _ & Hb1 & Hp1).
  destruct (bufio_Peek_spec r1 1 Hok1 ltac:(done)) as (r2 & Hr2 & -> & _). pose proof Hr2 as (Hok2 & _ & Hb2 & Hp2).
  assert (pending r2 = header_bytes fields ++ c) as Hp3 by congruence. pose proof (header_head fields c Hf) as Hh. rewrite <- Hp3 in Hh.
  replace (negb _ && _) with false.
  - destruct (readMIMEHeader_loop_fields c fields (rd_fuel r2) r2 ∅ (maxInt64 - 400) maxInt64) as (r' & -> & ? & ? & ?); try done; [congruence|unfold rd_fuel; lia|lia|].
    exists r'. splits; try done. congruence.
  - symmetry. apply andb_false_iff. right. rewrite <- Hp2. destruct (pending r2); [done|]. exact Hh.
Qed.

(** A header block is read back: for any fields with token names and valid
    values, [ReadMIMEHeader] returns exactly these fields, under their canonical
    keys and in their order, and leaves the reader at the first byte after the
    blank line, and so it does on any other reader of the same bytes, however the
    network cuts them. (When headers are dumped, the lines must fit in the buffer.) *)
Theorem mime_header_roundtrip fields c r r' : Forall field_ok fields -> lines_fit fields -> fields_cost fields <= maxInt64 - 400 ->
  bend r <> errBufferFull -> pending r = header_bytes fields ++ c -> r ≡ r' ->
  same_post (ReadMIMEHeader dump r) (ReadMIMEHeader dump r')
    (fun res r2 => res = (fold_left add_field fields ∅, None) /\ pending r2 = c).
Proof.
  intros Hf Hd Hcost He Hp Hr. pose proof Hr as (Hok & _).
  destruct (readMIMEHeader_same dump maxInt64 maxInt64 r r' Hr He) as (res & r1 & r2 & E1 & E2 & Hr12 & _).
  destruct (ReadMIMEHeader_fields fields c r Hf Hd Hcost Hok He Hp) as (r3 & E3 & _ & _ & Hp3).
  unfold ReadMIMEHeader in *. rewrite E1 in E3. injection E3 as -> ->. exists (fold_left add_field fields ∅, None), r3, r2. done.
Qed.
End RoundTrip.

Lemma ReadLine_line dump r s c : buf_ok r -> bend r <> errBufferFull -> Forall (fun b => b <> 10) (bytes_of_string s) ->
  (dump = true -> len (bytes_of_string s) + 2 <= bufsize) -> pending r = bytes_of_string s ++ 13 :: 10 :: c ->
  exists r', ReadLine dump r = Some (Ok s, r') /\ buf_ok r' /\ bend r' = bend r /\ pending r' = c.
Proof.
  intros Hok He Hl Hd Hp. unfold ReadLine.
  destruct (readLineSlice_line dump r (-1) _ c Hok He Hl Hd Hp ltac:(by left)) as (r' & -> & H). exists r'.
  by rewrite string_of_bytes_of_string.
Qed.

Lemma mime_header_roundtrip_witness :
  let fields := [("content-length", "5"); ("X-A", ""); ("x-a", "b c")]%string in
  let r := mkBufReader (slice_to (header_bytes fields) 7) [slice_from (header_bytes fields) 7; [1; 2]] io_EOF in
  let r' := mkBufReader [] [header_bytes fields ++ [1]; [2]] io_EOF in
  same_post (ReadMIMEHeader false r) (ReadMIMEHeader false r')
    (fun res r2 => res = (fold_left add_field fields ∅, None) /\ pending r2 = [1; 2])
  /\ fold_left add_field fields ∅ !! "X-A"%string = Some [""; "b c"]%string.
Proof.
  intros fields r r'. split; [|vm_compute; reflexivity]. apply (mime_header_roundtrip false fields [1; 2] r r').
  - unfold fields, field_ok. repeat constructor; vm_compute; congruence.
  - intros E. discriminate E.
  - vm_compute. discriminate.
  - done.
  - reflexivity.
  - unfold equiv, BufReader_equiv, buf_ok. splits; try reflexivity; try (vm_compute; discriminate); repeat constructor; discriminate.
Defined.

(** ** Dumping response headers *)
Definition as_ (n : nat) : bytes := replicate n 97.
(** A header line longer than the buffer: its first 4096 bytes are a field, what
    follows looks like another one. *)
Definition long_line : bytes := bytes_of_string "X-A: " ++ as_ 4091 ++ bytes_of_string "Evil: 1" ++ [13; 10; 13; 10].

(** With response headers dumped, the line reader ignores that the buffer was
    full: it returns the first 4096 bytes of a longer line as a whole line. The rest
    of the line is then parsed as a header field of its own, so that dumping the
    headers changes what they say. *)
Theorem dumped_long_line_is_split :
  let r := mkBufReader [] [long_line] io_EOF in
  match ReadMIMEHeader false r, ReadMIMEHeader true r with
  | Some (h, err, _), Some (h', err', _) =>
      err = None /\ h !! "Evil"%string = None /\ err' = None /\ h' !! "Evil"%string = Some ["1"]%string
  | _, _ => False
  end.
Proof. vm_compute. splits; reflexivity. Qed.
