(* ===== verification/Transfer.v ===== *)
(** * HTTP/1 message bodies: framing and delivery ([src/transfer.go])

    How the length of a response's body is determined, and the body that delivers
    it: a chunked, a length-limited or an unlimited view of the connection's
    [bufio.Reader], with the trailer of a chunked body. The body owns the reader
    until it is read to its end. [ReadMIMEHeader] of the standard library, which
    reads the trailer, is the function [TextProto] models: the file
    [src/textproto_reader.go] is a copy of it. *)

From S2P Require Import Prelude.
From S2P Require Import H2Errors.
From S2P Require Import NetText.
From S2P Require Import H2Transport.
From S2P Require Import Bufio.
From S2P Require Import Chunked.
From S2P Require Import BufioLine.
From S2P Require Import TextProto.

Definition ErrBodyReadAfterClose : error := errors_New "http: invalid Read on closed Body".
Definition errTrailerEOF : error := errors_New "http: unexpected EOF reading trailer".

(** ** The body *)
(** [io.LimitedReader] over the connection is [SrcLimited]. *)
Inductive bodySrc :=
| SrcChunked (cr : chunkedReader)
| SrcLimited (r : BufReader) (N : Z)
| SrcBuf (r : BufReader).

(** [b_hdr]: the trailer is still to be read; [b_Trailer] is the [Trailer] field of
    the response it is merged into. The fields the client never sets
    ([doEarlyClose], [onHitEOF]) are left out. *)
Record body := mkBody {
  b_src : bodySrc; b_hdr : bool; b_closing : bool; b_sawEOF : bool; b_closed : bool; b_Trailer : option Header }.

Definition src_reader (s : bodySrc) : BufReader :=
  match s with SrcChunked cr => cr_r cr | SrcLimited r _ | SrcBuf r => r end.
Definition set_src_reader (s : bodySrc) (r : BufReader) : bodySrc :=
  match s with
  | SrcChunked cr => SrcChunked (set_cr r (cr_n cr) (cr_err cr) (cr_checkEnd cr))
  | SrcLimited _ n => SrcLimited r n
  | SrcBuf _ => SrcBuf r
  end.
(** [Read(p)] of the source, for [len(p) = k > 0]. *)
Definition src_Read (s : bodySrc) (k : Z) : option (bytes * option error * bodySrc) :=
  match s with
  | SrcChunked cr =>
      match cr_Read cr k with Some (d, err, cr) => Some (d, err, SrcChunked cr) | None => None end
  | SrcLimited r n =>
      if n <=? 0 then Some ([], Some io_EOF, s) else
      let '((d, err), r) := bufio_Read r (if n <? k then n else k) in
      Some (d, err, SrcLimited r (n - len d))
  | SrcBuf r => let '((d, err), r) := bufio_Read r k in Some (d, err, SrcBuf r)
  end.

Definition singleCRLF : bytes := [13; 10].
Definition doubleCRLF : bytes := [13; 10; 13; 10].
Definition has_suffix (s suffix : bytes) : bool :=
  (len suffix <=? len s) && bool_decide (slice_from s (len s - len suffix) = suffix).

(** The loop over the sizes to peek; the sizes end with the buffer. *)
Fixpoint seeUpcomingDoubleCRLF_loop (fuel : nat) (r : BufReader) (peekSize : Z) : option (bool * BufReader) :=
  match fuel with
  | O => None
  | S fuel =>
      match bufio_Peek r peekSize with
      | None => None
      | Some (buf, err, r) =>
          if has_suffix buf doubleCRLF then Some (true, r)
          else if is_set err then Some (false, r)
          else seeUpcomingDoubleCRLF_loop fuel r (peekSize + 1)
      end
  end.
Definition seeUpcomingDoubleCRLF (r : BufReader) : option (bool * BufReader) :=
  seeUpcomingDoubleCRLF_loop (Z.to_nat bufsize) r 4.

Definition mergeSetHeader (dst : option Header) (src : Header) : option Header :=
  match dst with None => Some src | Some d => Some (src ∪ d) end.

(** The error, the trailer and the reader left. *)
Definition readTrailer (trailer : option Header) (r : BufReader) : option (option error * option Header * BufReader) :=
  match bufio_Peek r 2 with
  | None => None
  | Some (buf, err, r) =>
      if bool_decide (buf = singleCRLF) then Some (None, trailer, bufio_Discard r 2)
      else if len buf <? 2 then Some (Some errTrailerEOF, trailer, r)
      else if is_set err then Some (err, trailer, r)
      else
      match seeUpcomingDoubleCRLF r with
      | None => None
      | Some (false, r) => Some (Some (errors_New "http: suspiciously long trailer after chunked body"), trailer, r)
      | Some (true, r) =>
          match ReadMIMEHeader false r with
          | None => None
          | Some (_, Some e, r) => Some (Some (if bool_decide (e = io_EOF) then errTrailerEOF else e), trailer, r)
          | Some (hdr, None, r) => Some (None, mergeSetHeader trailer hdr, r)
          end
      end
  end.

Definition limited_left (s : bodySrc) : option Z := match s with SrcLimited _ n => Some n | _ => None end.

Definition readLocked (b : body) (k : Z) : option (bytes * option error * body) :=
  if b_sawEOF b then Some ([], Some io_EOF, b) else
  match src_Read (b_src b) k with
  | None => None
  | Some (d, err, src) =>
      if bool_decide (err = Some io_EOF) then
        if b_hdr b then
          match readTrailer (b_Trailer b) (src_reader src) with
          | None => None
          | Some (Some e, tr, r) => Some (d, Some e, mkBody (set_src_reader src r) false (b_closing b) false true tr)
          | Some (None, tr, r) => Some (d, Some io_EOF, mkBody (set_src_reader src r) false (b_closing b) true (b_closed b) tr)
          end
        else
          let err := match limited_left src with Some n => if 0 <? n then io_ErrUnexpectedEOF else io_EOF | None => io_EOF end in
          Some (d, Some err, mkBody src false (b_closing b) true (b_closed b) (b_Trailer b))
      else
        let hit := negb (is_set err) && (0 <? len d) && match limited_left src with Some n => n =? 0 | None => false end in
        Some (d, if hit then Some io_EOF else err, mkBody src (b_hdr b) (b_closing b) hit (b_closed b) (b_Trailer b))
  end.

Definition body_Read (b : body) (k : Z) : option (bytes * option error * body) :=
  if b_closed b then Some ([], Some ErrBodyReadAfterClose, b) else readLocked b k.

(** [io.Copy(io.Discard, bodyLocked{b})]: [io.Discard] reads 8192 bytes at a time. *)
Fixpoint body_drain (fuel : nat) (b : body) : option (option error * body) :=
  match fuel with
  | O => None
  | S fuel =>
      match (if b_closed b then Some ([], Some ErrBodyReadAfterClose, b) else readLocked b 8192) with
      | None => None
      | Some (_, Some e, b) => Some (if bool_decide (e = io_EOF) then None else Some e, b)
      | Some (_, None, b) => body_drain fuel b
      end
  end.
Definition drain_fuel (b : body) : nat := S (S (length (pending (src_reader (b_src b))))).

Definition body_Close (b : body) : option (option error * body) :=
  let done_ (b : body) := mkBody (b_src b) (b_hdr b) (b_closing b) (b_sawEOF b) true (b_Trailer b) in
  if b_closed b then Some (None, b)
  else if b_sawEOF b then Some (None, done_ b)
  else if negb (b_hdr b) && b_closing b then Some (None, done_ b)
  else match body_drain (drain_fuel b) b with
       | None => None
       | Some (err, b) => Some (err, done_ b)
       end.

(** ** The framing of a response *)
Definition bodyAllowedForStatus (status : Z) : bool :=
  if (100 <=? status) && (status <=? 199) then false
  else if status =? 204 then false else if status =? 304 then false else true.
Definition noResponseBodyExpected (requestMethod : string) : bool := String.eqb requestMethod "HEAD".

Section Framing.
(** [httpguts.HeaderValuesContainsToken] and the value of the debug setting
    [httplaxcontentlength]. *)
Context (containsToken : list string -> string -> bool) (httplax : bool).

Definition parseContentLength (clHeaders : list string) : result error Z :=
  match clHeaders with
  | [] => Ok (-1)
  | v :: _ =>
      let cl := TrimString v in
      if String.eqb cl "" then
        if httplax then Ok (-1) else Err (badStringError "invalid empty Content-Length" cl)
      else match ParseUint cl 63 with
           | None => Err (badStringError "bad Content-Length" cl)
           | Some n => Ok n
           end
  end.

(** [t.Chunked] and the header left. *)
Definition parseTransferEncoding (header : Header) (major minor : Z) : result error (bool * Header) :=
  match header !! "Transfer-Encoding"%string with
  | None => Ok (false, header)
  | Some raw =>
      let header := delete "Transfer-Encoding"%string header in
      if negb ((1 <? major) || (major =? 1) && (1 <=? minor)) then Ok (false, header) else
      match raw with
      | [v] => if EqualFold v "chunked" then Ok (true, header)
               else Err (unsupportedTEError "unsupported transfer encoding: " [v])
      | _ => Err (unsupportedTEError "too many transfer encodings: " raw)
      end
  end.

(** The length and the header left; -1 when the body is chunked or unbounded. *)
Definition fixLength (isResponse : bool) (status : Z) (requestMethod : string) (header : Header) (chunked : bool)
    : result error (Z * Header) :=
  let contentLens := Header_values header "Content-Length" in
  match (match contentLens with
         | v :: ((_ :: _) as others) =>
             let first := TrimString v in
             if forallb (fun ct => String.eqb first (TrimString ct)) others
             then Ok ([first], Header_Add (Header_Del header "Content-Length") "Content-Length" first)
             else Err (fmt_Errorf "http: message cannot contain multiple Content-Length headers; got %q" contentLens)
         | _ => Ok (contentLens, header)
         end) with
  | Err e => Err e
  | Ok (contentLens, header) =>
      match (match contentLens with [] => Ok 0 | _ => parseContentLength contentLens end) with
      | Err e => Err e
      | Ok n =>
          if isResponse && noResponseBodyExpected requestMethod then Ok (0, header)
          else if Z.quot status 100 =? 1 then Ok (0, header)
          else if (status =? 204) || (status =? 304) then Ok (0, header)
          else if chunked then Ok (-1, Header_Del header "Content-Length")
          else match contentLens with
               | _ :: _ => Ok (n, header)
               | [] => Ok (if isResponse then -1 else 0, Header_Del header "Content-Length")
               end
      end
  end.

(** Whether to hang up, and the header left. *)
Definition shouldClose (major minor : Z) (header : Header) (removeCloseHeader : bool) : bool * Header :=
  if major <? 1 then (true, header) else
  let conv := Header_values header "Connection" in
  let hasClose := containsToken conv "close" in
  if (major =? 1) && (minor =? 0) then (hasClose || negb (containsToken conv "keep-alive"), header)
  else (hasClose, if hasClose && removeCloseHeader then Header_Del header "Connection" else header).

(** The trailer announced and the header left. *)
Definition fixTrailer (header : Header) (chunked : bool) : result error (option Header * Header) :=
  match header !! "Trailer"%string with
  | None => Ok (None, header)
  | Some vv =>
      if negb chunked then Ok (None, header) else
      let header := Header_Del header "Trailer" in
      let add (acc : Header * option error) (key : string) :=
        let key := CanonicalHeaderKey key in
        let '(trailer, err) := acc in
        if bool_decide (key ∈ ["Transfer-Encoding"; "Trailer"; "Content-Length"]%string) && negb (is_set err)
        then (trailer, Some (badStringError "bad trailer key" key))
        else (<[key := []]> trailer, err) in
      let '(trailer, err) := fold_left (foreachHeaderElement add) vv (∅, None) in
      match err with
      | Some e => Err e
      | None => Ok (if bool_decide (trailer = ∅) then None else Some trailer, header)
      end
  end.

(** ** [readTransfer] *)
(** The fields of a [http.Response] the reading of its body uses or sets. *)
Record Response := mkResponse1 {
  rs_Proto : string; rs_Status : string; rs_StatusCode : Z; rs_ProtoMajor : Z; rs_ProtoMinor : Z;
  rs_Header : Header; rs_ContentLength : Z; rs_TransferEncoding : list string; rs_Close : bool;
  rs_Trailer : option Header; rs_RequestMethod : string }.

(** The body, or [NoBody] with the connection's reader. *)
Inductive respBody := NoBody (r : BufReader) | HasBody (b : body).
Definition body_reader (b : respBody) : BufReader :=
  match b with NoBody r => r | HasBody b => src_reader (b_src b) end.

Definition readTransfer (rr : Response) (r : BufReader) : result error (Response * respBody) :=
  let '(close, header) := shouldClose (rs_ProtoMajor rr) (rs_ProtoMinor rr) (rs_Header rr) true in
  let '(major, minor) := if (rs_ProtoMajor rr =? 0) && (rs_ProtoMinor rr =? 0) then (1, 1) else (rs_ProtoMajor rr, rs_ProtoMinor rr) in
  match parseTransferEncoding header major minor with
  | Err e => Err e
  | Ok (chunked, header) =>
      match fixLength true (rs_StatusCode rr) (rs_RequestMethod rr) header chunked with
      | Err e => Err e
      | Ok (realLength, header) =>
          match (if String.eqb (rs_RequestMethod rr) "HEAD" then parseContentLength (Header_values header "Content-Length")
                 else Ok realLength) with
          | Err e => Err e
          | Ok contentLength =>
              match fixTrailer header chunked with
              | Err e => Err e
              | Ok (trailer, header) =>
                  let close := close || (realLength =? -1) && negb chunked && bodyAllowedForStatus (rs_StatusCode rr) in
                  let new src hdr := HasBody (mkBody src hdr close false false trailer) in
                  let body :=
                    if chunked then
                      if noResponseBodyExpected (rs_RequestMethod rr) || negb (bodyAllowedForStatus (rs_StatusCode rr)) then NoBody r
                      else new (SrcChunked (NewChunkedReader r)) true
                    else if realLength =? 0 then NoBody r
                    else if 0 <? realLength then new (SrcLimited r realLength) false
                    else if close then new (SrcBuf r) false else NoBody r in
                  Ok (mkResponse1 (rs_Proto rr) (rs_Status rr) (rs_StatusCode rr) (rs_ProtoMajor rr) (rs_ProtoMinor rr) header
                        contentLength (if chunked then ["chunked"%string] else rs_TransferEncoding rr) close trailer
                        (rs_RequestMethod rr), body)
              end
          end
      end
  end.
End Framing.
