(* ===== verification/TransferBody.v ===== *)
(** * A message body delivers its message and nothing else

    [body_at b p tf tail]: the body [b] still has the payload [p] to deliver, then
    the trailer fields [tf]; after it the connection continues with [tail]. Reads
    keep it, and at the end, or after [Close], the connection's reader stands at
    [tail]. *)

From S2P Require Import Prelude.
From S2P Require Import H2Errors.
From S2P Require Import NetText.
From S2P Require Import Bufio.
From S2P Require Import Chunked.
From S2P Require Import BufioLine.
From S2P Require Import TextProto.
From S2P Require Import Transfer.

(** ** The decoder is total *)
Lemma decodes_total cr : cr_ok cr -> cr_err cr = None -> exists d e rest, decodes cr d e rest.
Proof.
  intros Hok He. destruct (read_all_decodes (S (length (pending (cr_r cr)))) cr (fun _ => 1) Hok He) as (d & e & cr' & rest & _ & Hd & _);
    [intros; lia|lia|]. by exists d, e, rest.
Qed.

(** Reading never changes how the connection ends. *)
Lemma bufio_Read_bend r k x r' : bufio_Read r k = (x, r') -> bend r' = bend r.
Proof.
  unfold bufio_Read. destruct (0 <? Buffered r); [by intros [= _ <-]|].
  destruct (bufsize <=? k); destruct (src_read _ _) as [[? ?]|]; by intros [= _ <-].
Qed.
Lemma bufio_ReadFull_bend k : forall fuel r got x r', bufio_ReadFull fuel r k got = Some (x, r') -> bend r' = bend r.
Proof.
  induction fuel as [|fuel IH]; intros r got x r'; cbn [bufio_ReadFull]; (destruct (k <=? len got); [by intros [= _ <-]|]); [done|].
  destruct (bufio_Read r (k - len got)) as [[d [e|]] r1] eqn:E; apply bufio_Read_bend in E.
  - intros [= _ <-]. done.
  - intros H. apply IH in H. congruence.
Qed.
Lemma bufio_ReadSlice_bend : forall fuel r x r', bufio_ReadSlice fuel r = Some (x, r') -> bend r' = bend r.
Proof.
  induction fuel as [|fuel IH]; intros r x r'; cbn [bufio_ReadSlice]; (destruct (index_nl (bbuf r)); [by intros [= _ <-]|]);
    (destruct (bufsize <=? Buffered r); [by intros [= _ <-]|]); [done|].
  destruct (src_read _ _) as [[d src]|]; [|by intros [= _ <-]]. intros H. by apply IH in H.
Qed.
Lemma cr_loop_bend : forall fuel cr room out x, cr_loop fuel cr room out = Some x -> bend (cr_r x.2) = bend (cr_r cr).
Proof.
  induction fuel as [|fuel IH]; intros cr room out x; cbn [cr_loop]; [done|].
  destruct (is_set (cr_err cr)); [by intros [= <-]|]. destruct (cr_checkEnd cr && _ && _); [by intros [= <-]|].
  destruct (if cr_checkEnd cr then checkFooter cr else Some cr) as [cr1|] eqn:Ef; [|done].
  assert (bend (cr_r cr1) = bend (cr_r cr)) as H1.
  { destruct (cr_checkEnd cr); [|by injection Ef as <-]. unfold checkFooter in Ef.
    destruct (bufio_ReadFull _ _ _ _) as [[[buf|e] r]|] eqn:E; [| |done]; apply bufio_ReadFull_bend in E; [|by injection Ef as <-].
    destruct (bool_decide _); by injection Ef as <-. }
  destruct (is_set (cr_err cr1)); [by intros [= <-]|]. destruct (cr_n cr1 =? 0).
  - destruct ((0 <? len out) && _); [by intros [= <-]|]. destruct (beginChunk cr1) as [cr2|] eqn:Eb; [|done].
    intros H. apply IH in H. rewrite H, <- H1. unfold beginChunk, readChunkLine in Eb.
    destruct (bufio_ReadSlice _ _) as [[[p [e|]] r]|] eqn:E; [| |done]; apply bufio_ReadSlice_bend in E; [by injection Eb as <-|].
    destruct (maxLineLength <=? len p); [by injection Eb as <-|]. destruct (parseHexUint _); by injection Eb as <-.
  - destruct (room =? 0); [by intros [= <-]|]. destruct (bufio_Read _ _) as [[d err] r] eqn:E. apply bufio_Read_bend in E.
    intros H. apply IH in H. rewrite H. cbn. congruence.
Qed.
Lemma cr_Read_bend cr k d e cr' : cr_Read cr k = Some (d, e, cr') -> bend (cr_r cr') = bend (cr_r cr).
Proof. unfold cr_Read. destruct (cr_loop _ _ _ _) as [[out cr1]|] eqn:E; [|done]. intros [= _ _ <-]. by apply cr_loop_bend in E. Qed.

(** One [Read] of the chunked reader, of a stream that decodes to [p]. *)
Lemma cr_Read_decodes cr p rest k : cr_ok cr -> cr_err cr = None -> decodes cr p io_EOF rest -> 0 < k ->
  exists d cr', cr_Read cr k = Some (d, cr_err cr', cr') /\ cr_ok cr'
    /\ match cr_err cr' with
       | None => d <> [] /\ (length (pending (cr_r cr')) < length (pending (cr_r cr)))%nat
           /\ exists p', p = d ++ p' /\ decodes cr' p' io_EOF rest
       | Some e => e = io_EOF /\ d = p /\ pending (cr_r cr') = rest
       end.
Proof.
  intros Hok He Hd Hk. unfold cr_Read.
  destruct (cr_loop_spec (cr_fuel cr) cr k [] Hok ltac:(lia) He ltac:(unfold cr_fuel; lia)) as (d & cr1 & -> & [Hok1 Hres] & _ & Hprog).
  exists d, cr1. split; [done|]. split; [done|]. cbn [app] in *. destruct (cr_err cr1) as [e|] eqn:E1.
  - destruct Hres as (rest' & Hd' & Hr). destruct (dechunks_det _ _ _ _ _ _ _ _ _ _ Hd Hd') as (-> & <- & ->).
    splits; try done. symmetry. by apply Hr.
  - destruct Hres as [Hlen Hres]. destruct (Hprog eq_refl) as [?|Hpos]; [lia|].
    assert (d <> []) as Hne by (by intros ->). split; [done|].
    split; [destruct d; [done|cbn in Hlen; lia]|].
    destruct (decodes_total cr1 Hok1 E1) as (d' & e' & r' & Hd1). specialize (Hres _ _ _ Hd1).
    destruct (dechunks_det _ _ _ _ _ _ _ _ _ _ Hd Hres) as (-> & <- & <-). by exists d'.
Qed.

(** ** The trailer *)
Definition trailer_ok (tf : list (string * string)) : Prop :=
  Forall field_ok tf /\ len (header_bytes tf) <= bufsize /\ fields_cost tf <= maxInt64 - 400.

(** The fields merged into the response's trailer. *)
Definition merged (trailer : option Header) (tf : list (string * string)) : option Header :=
  match tf with [] => trailer | _ => mergeSetHeader trailer (fold_left add_field tf ∅) end.

Lemma has_suffix_app p q : has_suffix (p ++ q) q = true.
Proof.
  unfold has_suffix. rewrite len_app. pose proof (len_nonneg p). apply andb_true_intro. split; [apply Z.leb_le; lia|].
  apply bool_decide_eq_true. replace (len p + len q - len q) with (len p) by lia. by rewrite slice_from_app.
Qed.

Lemma header_bytes_double tf : Forall field_ok tf -> tf <> [] -> exists p, header_bytes tf = p ++ doubleCRLF.
Proof.
  intros Hf Hne. destruct tf as [|kv tf _] using rev_ind; [done|]. unfold header_bytes, field_bytes.
  rewrite fmap_app, concat_app. cbn [fmap list_fmap concat]. rewrite app_nil_r.
  exists (concat ((fun kv => field_line kv ++ [13; 10]) <$> tf) ++ field_line kv). unfold doubleCRLF. by rewrite <- !app_assoc.
Qed.

Lemma see_double fuel : forall r k n c, buf_ok r -> 0 <= k <= n -> n <= bufsize -> Z.of_nat fuel >= n - k + 1 ->
  (exists p, slice_to (pending r) n = p ++ doubleCRLF) -> pending r = slice_to (pending r) n ++ c -> len (slice_to (pending r) n) = n ->
  exists r', seeUpcomingDoubleCRLF_loop fuel r k = Some (true, r') /\ r' ≡ r.
Proof.
  induction fuel as [|fuel IH]; intros r k n c Hok Hk Hn Hf Hd Hp Hl; [lia|]. cbn [seeUpcomingDoubleCRLF_loop].
  destruct (bufio_Peek_spec r k Hok ltac:(lia)) as (r' & Hr' & -> & _).
  assert (n <= len (pending r)) as Hlen by (rewrite Hp, len_app; pose proof (len_nonneg c); lia).
  destruct (Z.ltb_spec (len (pending r)) k) as [?|_]; [lia|].
  destruct (has_suffix (slice_to (pending r) k) doubleCRLF) eqn:Es; [by exists r'|]. cbn [is_set].
  destruct (decide (k = n)) as [->|Hne].
  { destruct Hd as [p Hd]. rewrite Hd, has_suffix_app in Es. done. }
  pose proof Hr' as (Hok' & _ & Hb' & Hp').
  destruct (IH r' (k + 1) n c Hok' ltac:(lia) Hn ltac:(lia)) as (r2 & -> & Hr2); [by rewrite Hp'..|].
  exists r2. split; [done|]. by rewrite Hr2.
Qed.

Lemma readTrailer_fields tr tf r c : trailer_ok tf -> buf_ok r -> bend r <> errBufferFull -> pending r = header_bytes tf ++ c ->
  exists r', readTrailer tr r = Some (None, merged tr tf, r') /\ buf_ok r' /\ bend r' = bend r /\ pending r' = c.
Proof.
  intros (Hf & Hlen & Hcost) Hok He Hp. unfold readTrailer.
  destruct (bufio_Peek_spec r 2 Hok ltac:(done)) as (r1 & Hr1 & -> & Hbuf). pose proof Hr1 as (Hok1 & _ & Hb1 & Hp1).
  destruct tf as [|kv tf].
  - change (header_bytes [] ++ c) with (13 :: 10 :: c) in Hp. rewrite Hp in *. change (slice_to (13 :: 10 :: c) 2) with [13; 10] in *.
    rewrite bool_decide_true by done. destruct (bufio_Discard_spec r1 2 Hok1) as (Hok2 & Hb2 & Hp2); [split; [done|exact Hbuf]|].
    exists (bufio_Discard r1 2). splits; try done. by rewrite Hp2, Hp1.
  - destruct (header_bytes_double (kv :: tf) Hf ltac:(done)) as [p0 Hd].
    assert (4 <= len (header_bytes (kv :: tf))) as H4 by (rewrite Hd, len_app; change (len doubleCRLF) with 4; pose proof (len_nonneg p0); lia).
    assert (len (slice_to (pending r) 2) = 2) as Hl2.
    { rewrite Hp. unfold slice_to, len in *. rewrite length_take, length_app. lia. }
    assert (slice_to (pending r) 2 <> singleCRLF) as Hns.
    { pose proof (header_head (kv :: tf) c Hf) as _. apply Forall_cons in Hf as [Hkv _].
      destruct Hkv as (Hk1 & Hk2 & _). rewrite Hp. unfold header_bytes, field_bytes, field_line. cbn [fmap list_fmap concat].
      destruct (bytes_of_string kv.1) as [|b l] eqn:Ek; [done|]. cbn. unfold singleCRLF. intros E.
      assert (b = 13) as ->. { unfold slice_to in E. change (Z.to_nat 2) with 2%nat in E. cbn in E. by injection E. }
      apply Forall_cons in Hk2 as [Hk2 _]. discriminate Hk2. }
    rewrite bool_decide_false by done. rewrite Hl2. change (2 <? 2) with false. cbn iota.
    destruct (Z.ltb_spec (len (pending r)) 2) as [?|_]; [rewrite Hp, len_app in *; pose proof (len_nonneg c); lia|]. cbn [is_set].
    assert (slice_to (pending r1) (len (header_bytes (kv :: tf))) = header_bytes (kv :: tf)) as Esl.
    { rewrite Hp1, Hp. by rewrite slice_to_app. }
    unfold seeUpcomingDoubleCRLF.
    destruct (see_double (Z.to_nat bufsize) r1 4 (len (header_bytes (kv :: tf))) c Hok1) as (r2 & -> & Hr2); try done.
    + rewrite Z2Nat.id by done. lia.
    + rewrite Esl. by exists p0.
    + rewrite Esl. congruence.
    + by rewrite Esl.
    + pose proof Hr2 as (Hok2 & _ & Hb2 & Hp2).
      destruct (ReadMIMEHeader_fields false (kv :: tf) c r2) as (r3 & -> & Hok3 & Hb3 & Hp3); try done; [congruence|congruence|].
      exists r3. splits; try done. congruence.
Qed.

(** ** Bodies *)
Definition body_at (b : body) (p : bytes) (tf : list (string * string)) (tail : bytes) : Prop :=
  b_closed b = false /\ b_sawEOF b = false /\ buf_ok (src_reader (b_src b)) /\ bend (src_reader (b_src b)) <> errBufferFull
  /\ match b_src b with
     | SrcChunked cr => cr_ok cr /\ cr_err cr = None /\ b_hdr b = true /\ trailer_ok tf
         /\ decodes cr p io_EOF (header_bytes tf ++ tail)
     | SrcLimited r n => tf = [] /\ b_hdr b = false /\ 0 < n /\ len p = n /\ pending r = p ++ tail
     | SrcBuf r => tf = [] /\ b_hdr b = false /\ pending r = p /\ tail = [] /\ bend r = io_EOF
     end.
(** The body has delivered everything. *)
Definition body_done (b : body) (tail : bytes) : Prop :=
  b_sawEOF b = true /\ buf_ok (src_reader (b_src b)) /\ bend (src_reader (b_src b)) <> errBufferFull
  /\ pending (src_reader (b_src b)) = tail.

Definition left_bytes (b : body) : nat := length (pending (src_reader (b_src b))).

Lemma body_Read_step b p tf tail k : body_at b p tf tail -> 0 < k ->
  exists d err b', body_Read b k = Some (d, err, b') /\ b_closing b' = b_closing b
    /\ bend (src_reader (b_src b')) = bend (src_reader (b_src b))
    /\ match err with
       | None => d <> [] /\ (left_bytes b' < left_bytes b)%nat /\ b_Trailer b' = b_Trailer b /\ b_hdr b' = b_hdr b
           /\ exists p', p = d ++ p' /\ body_at b' p' tf tail
       | Some e => e = io_EOF /\ d = p /\ body_done b' tail /\ b_closed b' = false /\ b_Trailer b' = merged (b_Trailer b) tf
       end.
Proof.
  intros (Hcl & Hsaw & Hok & He & Hs) Hk. unfold body_Read, readLocked. rewrite Hcl, Hsaw.
  destruct (b_src b) as [cr|r n|r] eqn:Es; cbn [src_Read src_reader] in *.
  - destruct Hs as (Hcr & Herr & Hhdr & Htf & Hd).
    destruct (cr_Read_decodes cr p _ k Hcr Herr Hd Hk) as (d & cr' & Ecr & Hcr' & Hres). pose proof (cr_Read_bend _ _ _ _ _ Ecr) as Hbcr. rewrite Ecr.
    destruct (cr_err cr') as [e|] eqn:E1.
    + destruct Hres as (-> & -> & Hpend). rewrite bool_decide_true by done. rewrite Hhdr. cbn [src_reader].
      destruct Hcr' as (Hbuf & _ & _ & He0). destruct (readTrailer_fields (b_Trailer b) tf (cr_r cr') tail Htf Hbuf He0 Hpend) as (r' & -> & Hok' & Hb' & Hp').
      do 3 eexists. split; [reflexivity|]. split; [done|]. split; [cbn; congruence|]. cbn. splits; try done. unfold body_done. cbn. splits; try done. unfold e0_of in He0. congruence.
    + destruct Hres as (Hne & Hlt & p' & -> & Hd'). rewrite bool_decide_false by done. cbn [is_set limited_left]. rewrite andb_false_r.
      do 3 eexists. split; [reflexivity|]. split; [done|]. split; [cbn; congruence|]. unfold left_bytes. rewrite Es. cbn. splits; try done.
      exists p'. split; [done|]. unfold body_at. cbn. destruct Hcr' as (Hbuf & Hn & Hce & He0). splits; try done.
  - destruct Hs as (-> & Hhdr & Hn & Hl & Hp). destruct (Z.leb_spec n 0) as [?|_]; [lia|].
    set (m := if n <? k then n else k). assert (0 < m <= n /\ m <= k) as Hm by (unfold m; destruct (Z.ltb_spec n k); lia).
    pose proof (bufio_Read_spec r m Hok ltac:(lia)) as Hr. destruct (bufio_Read r m) as [[d err] r']. destruct Hr as (Hok' & Hb' & Hdl & Hdp & Her).
    destruct err as [e|].
    { destruct Her as (-> & Hnil & _). rewrite Hnil in Hp. symmetry in Hp. apply app_nil in Hp as [-> _]. rewrite len_nil in Hl. lia. }
    rewrite bool_decide_false by done. cbn [is_set negb andb limited_left].
    assert (len d <= len p) as Hdp' by lia.
    assert (exists p', p = d ++ p' /\ pending r' = p' ++ tail) as (p' & -> & Hp').
    { rewrite Hp in Hdp. apply app_eq_inv in Hdp as [(x & -> & Hx)|(x & -> & Hx)]; [|by exists x].
      rewrite len_app in Hdp'. assert (x = []) as -> by (apply nil_length_inv; unfold len in Hdp'; lia).
      exists []. split; [by rewrite !app_nil_r|]. by rewrite Hx. }
    rewrite len_app in Hl. assert (0 < len d) as Hd0 by (destruct d; [done|rewrite len_cons; pose proof (len_nonneg d); lia]).
    destruct (Z.ltb_spec 0 (len d)) as [_|?]; [|lia]. cbn [andb].
    destruct (Z.eqb_spec (n - len d) 0) as [Ez|Ez].
    + assert (p' = []) as -> by (apply nil_length_inv; unfold len in *; lia). rewrite app_nil_r.
      do 3 eexists. split; [reflexivity|]. split; [done|]. split; [cbn; congruence|]. splits; try done. unfold body_done. cbn. splits; try done. congruence.
    + do 3 eexists. split; [reflexivity|]. split; [done|]. split; [cbn; congruence|]. cbn. splits; try done.
      * unfold left_bytes. rewrite Es. cbn. rewrite <- Hdp, length_app. unfold len in Hd0. lia.
      * exists p'. split; [done|]. unfold body_at. cbn. pose proof (len_nonneg p'). splits; try done; try lia. congruence.
  - destruct Hs as (-> & Hhdr & Hp & -> & Hend). pose proof (bufio_Read_spec r k Hok Hk) as Hr.
    destruct (bufio_Read r k) as [[d err] r']. destruct Hr as (Hok' & Hb' & Hdl & Hdp & Her). destruct err as [e|].
    + destruct Her as (-> & Hnil & ->). rewrite Hend, bool_decide_true by done. rewrite Hhdr. cbn [limited_left].
      do 3 eexists. split; [reflexivity|]. split; [done|]. split; [cbn; congruence|]. cbn in Hdp. splits; try done; [congruence|]. unfold body_done. cbn. splits; try done; congruence.
    + rewrite bool_decide_false by done. cbn [is_set limited_left]. rewrite andb_false_r.
      do 3 eexists. split; [reflexivity|]. split; [done|]. split; [cbn; congruence|]. cbn. splits; try done.
      * unfold left_bytes. rewrite Es. cbn. rewrite <- Hdp, length_app. destruct d; [done|cbn; lia].
      * exists (pending r'). split; [congruence|]. unfold body_at. cbn. splits; try done; congruence.
Qed.

(** ** Reading to the end, closing *)
(** Reading until an error, the [i]-th call with a buffer of [rooms i] bytes. *)
Fixpoint body_read_all (fuel : nat) (b : body) (rooms : nat -> Z) : option (bytes * error * body) :=
  match fuel with
  | O => None
  | S fuel =>
      match body_Read b (rooms 0%nat) with
      | None => None
      | Some (d, Some e, b) => Some (d, e, b)
      | Some (d, None, b) =>
          match body_read_all fuel b (fun i => rooms (S i)) with
          | Some (d', e, b) => Some (d ++ d', e, b)
          | None => None
          end
      end
  end.

Lemma body_read_all_at tail tf : forall fuel b p rooms, body_at b p tf tail -> (forall i, 0 < rooms i) -> (left_bytes b < fuel)%nat ->
  exists b', body_read_all fuel b rooms = Some (p, io_EOF, b') /\ body_done b' tail /\ b_Trailer b' = merged (b_Trailer b) tf.
Proof.
  induction fuel as [|fuel IH]; intros b p rooms Hb Hr Hf; [lia|]. cbn [body_read_all].
  destruct (body_Read_step b p tf tail (rooms 0%nat) Hb (Hr 0%nat)) as (d & err & b1 & -> & _ & Hbe & Hres). destruct err as [e|].
  - destruct Hres as (-> & -> & Hd & _ & Ht). by exists b1.
  - destruct Hres as (_ & Hl & Ht & _ & p' & -> & Hb1).
    destruct (IH b1 p' (fun i => rooms (S i)) Hb1 (fun i => Hr (S i)) ltac:(lia)) as (b' & -> & Hd & Ht'). exists b'.
    splits; try done. congruence.
Qed.

Lemma body_drain_at tail tf : forall fuel b p, body_at b p tf tail -> (left_bytes b < fuel)%nat ->
  exists b', body_drain fuel b = Some (None, b') /\ body_done b' tail /\ b_Trailer b' = merged (b_Trailer b) tf.
Proof.
  induction fuel as [|fuel IH]; intros b p Hb Hf; [lia|]. cbn [body_drain].
  destruct (body_Read_step b p tf tail 8192 Hb ltac:(lia)) as (d & err & b1 & E & _ & Hbe & Hres). unfold body_Read in E. rewrite E. destruct err as [e|].
  - destruct Hres as (-> & -> & Hd & _ & Ht). rewrite bool_decide_true by done. by exists b1.
  - destruct Hres as (_ & Hl & Ht & _ & p' & -> & Hb1). destruct (IH b1 p' Hb1 ltac:(lia)) as (b' & -> & Hd & Ht').
    exists b'. splits; try done. congruence.
Qed.

(** [Close] reads the rest of the message, unless there is no trailer and the
    connection is going to be closed anyway. *)
Lemma body_Close_at b p tf tail : body_at b p tf tail -> b_hdr b = true \/ b_closing b = false ->
  exists b', body_Close b = Some (None, b') /\ b_closed b' = true /\ body_done b' tail /\ b_Trailer b' = merged (b_Trailer b) tf.
Proof.
  intros Hb Hc. pose proof Hb as (Hcl & Hsaw & _). unfold body_Close. rewrite Hcl, Hsaw.
  replace (negb (b_hdr b) && b_closing b) with false by (destruct Hc as [-> | ->]; [done|by rewrite andb_false_r]).
  destruct (body_drain_at tail tf (drain_fuel b) b p Hb) as (b' & -> & Hd & Ht); [unfold drain_fuel, left_bytes; lia|].
  eexists. split; [reflexivity|]. done.
Qed.

(** A message cut short by the end of the connection. *)
Lemma body_read_all_short n : forall fuel b r m p rooms, b_closed b = false -> b_sawEOF b = false -> b_hdr b = false ->
  b_src b = SrcLimited r m -> buf_ok r -> bend r = io_EOF -> pending r = p -> len p < m -> m = n -> (forall i, 0 < rooms i) ->
  (length p < fuel)%nat ->
  exists b', body_read_all fuel b rooms = Some (p, io_ErrUnexpectedEOF, b').
Proof.
  intros fuel. revert n. induction fuel as [|fuel IH]; intros n b r m p rooms Hcl Hsaw Hhdr Hsrc Hok He Hp Hlt -> Hr Hf; [lia|].
  cbn [body_read_all]. unfold body_Read, readLocked. rewrite Hcl, Hsaw, Hsrc. cbn [src_Read].
  pose proof (len_nonneg p). destruct (Z.leb_spec n 0) as [?|_]; [lia|]. set (k := if n <? rooms 0%nat then n else rooms 0%nat).
  assert (0 < k <= n) as Hk by (specialize (Hr 0%nat); unfold k; destruct (Z.ltb_spec n (rooms 0%nat)); lia).
  pose proof (bufio_Read_spec r k Hok ltac:(lia)) as Hrd. destruct (bufio_Read r k) as [[d err] r']. destruct Hrd as (Hok' & Hb' & Hdl & Hdp & Her).
  destruct err as [e|].
  - destruct Her as (-> & Hnil & ->). rewrite He, bool_decide_true by done. rewrite Hhdr. cbn [limited_left].
    change (len (@nil Z)) with 0. destruct (Z.ltb_spec 0 (n - 0)) as [_|?]; [|lia]. eexists. rewrite <- Hp, Hnil. reflexivity.
  - rewrite bool_decide_false by done. cbn [is_set negb andb limited_left].
    assert (len d <= len p) as Hdp2 by (rewrite <- Hp, <- Hdp, len_app; pose proof (len_nonneg (pending r')); lia).
    replace (n - len d =? 0) with false by (symmetry; apply Z.eqb_neq; lia). rewrite andb_false_r.
    match goal with |- context [body_read_all fuel ?b1 _] => set (b2 := b1) end.
    assert (length p = length d + length (pending r'))%nat as Hlen by (rewrite <- Hp, <- Hdp, length_app; done).
    destruct (IH (n - len d) b2 r' (n - len d) (pending r') (fun i => rooms (S i))) as (b' & ->); try done.
    + congruence.
    + unfold len in *. lia.
    + destruct d; [done|]. cbn in Hlen. lia.
    + exists b'. by rewrite <- Hp, <- Hdp.
Qed.

(** ** The framing of a response *)
(** RFC 9112, section 6.3: the rules that apply to a response, in their order. *)
Inductive Framing := FNone | FChunked | FLength (n : Z) | FUntilClose.
Definition no_body (method : string) (status : Z) : bool :=
  String.eqb method "HEAD" || ((100 <=? status) && (status <=? 199)) || (status =? 204) || (status =? 304).
Definition rfc_framing (method : string) (status : Z) (te_chunked : bool) (cl : option Z) : Framing :=
  if no_body method status then FNone
  else if te_chunked then FChunked
  else match cl with
       | Some n => if n =? 0 then FNone else FLength n
       | None => FUntilClose
       end.
Definition body_framing (b : respBody) : Framing :=
  match b with
  | NoBody _ => FNone
  | HasBody b => match b_src b with SrcChunked _ => FChunked | SrcLimited _ n => FLength n | SrcBuf _ => FUntilClose end
  end.
(** Transfer-Encoding only counts from HTTP/1.1 on (0.0 stands for 1.1). *)
Definition te_counts (rr : Response) : bool :=
  (1 <? rs_ProtoMajor rr) || (rs_ProtoMajor rr =? 1) && (1 <=? rs_ProtoMinor rr) || (rs_ProtoMajor rr =? 0) && (rs_ProtoMinor rr =? 0).
(** The length all Content-Length values agree on, [None] when there is none. *)
Definition declared_length (cls : list string) : option (option Z) :=
  match cls with
  | [] => Some None
  | v :: _ => if forallb (fun c => String.eqb (TrimString v) (TrimString c)) cls
              then Some <$> ParseUint (TrimString v) 63 else None
  end.

Lemma canonical_keys : CanonicalHeaderKey "Content-Length" = "Content-Length"%string
  /\ CanonicalHeaderKey "Connection" = "Connection"%string /\ CanonicalHeaderKey "Trailer" = "Trailer"%string.
Proof. vm_compute. done. Qed.

Lemma trim_left_idem p : trim_left (trim_left p) = trim_left p.
Proof. induction p as [|b p IH]; cbn; [done|]. destruct (isASCIISpace b) eqn:E; [done|]. cbn. by rewrite E. Qed.
Lemma trim_left_suffix p : exists q, p = q ++ trim_left p.
Proof.
  induction p as [|b p [q IH]]; cbn; [by exists []|]. destruct (isASCIISpace b); [|by exists []].
  exists (b :: q). cbn. congruence.
Qed.
Lemma trim_left_last p x : match head p with Some b => isASCIISpace b = false | None => True end ->
  x = trim_left (reverse p) -> match head (reverse x) with Some b => isASCIISpace b = false | None => True end.
Proof.
  intros Hh ->. destruct (trim_left_suffix (reverse p)) as [q Hq].
  assert (p = reverse (trim_left (reverse p)) ++ reverse q) as Hp.
  { rewrite <- reverse_app, <- Hq. by rewrite reverse_involutive. }
  destruct (reverse (trim_left (reverse p))) as [|b l]; [done|]. rewrite Hp in Hh. exact Hh.
Qed.
Lemma trim_bytes_idem p : trim_bytes (trim_bytes p) = trim_bytes p.
Proof.
  unfold trim_bytes. set (y := trim_left p). set (z := trim_left (reverse y)).
  assert (match head y with Some b => isASCIISpace b = false | None => True end) as Hy.
  { unfold y. clear. induction p as [|b p IH]; cbn; [done|]. destruct (isASCIISpace b) eqn:E; [done|]. cbn. done. }
  pose proof (trim_left_last y z Hy eq_refl) as Hz.
  assert (trim_left (reverse z) = reverse z) as ->.
  { destruct (reverse z) as [|b l]; [done|]. cbn. cbn in Hz. by rewrite Hz. }
  rewrite reverse_involutive. unfold z. by rewrite trim_left_idem.
Qed.
Lemma TrimString_idem s : TrimString (TrimString s) = TrimString s.
Proof.
  unfold TrimString. rewrite bytes_of_string_of_bytes; [by rewrite trim_bytes_idem|].
  unfold trim_bytes. pose proof (bytes_of_string_ok s) as Hs. apply Forall_reverse.
  assert (forall p, bytes_ok p -> bytes_ok (trim_left p)) as Ht.
  { intros p Hp. destruct (trim_left_suffix p) as [q E]. rewrite E in Hp. by apply bytes_ok_app in Hp as [_ ?]. }
  apply Ht, Forall_reverse, Ht, Hs.
Qed.

Lemma digits_value_nonneg p : forall acc n, 0 <= acc -> digits_value p acc = Some n -> 0 <= n.
Proof.
  induction p as [|b p IH]; cbn; intros acc n Ha; [by intros [= <-]|].
  destruct (is_digit b) eqn:E; [|done]. apply IH. unfold is_digit in E. lia.
Qed.
Lemma ParseUint_nonneg s bits n : ParseUint s bits = Some n -> 0 <= n.
Proof.
  unfold ParseUint. destruct (bytes_of_string s); [done|]. destruct (digits_value _ 0) eqn:E; [|done].
  destruct (_ <? _); [|done]. intros [= <-]. by apply digits_value_nonneg in E.
Qed.

(** Without the [httplaxcontentlength] setting a value must parse. *)
Lemma parseContentLength_strict v cls n : parseContentLength false (v :: cls) = Ok n -> ParseUint (TrimString v) 63 = Some n.
Proof.
  cbn. destruct (String.eqb_spec (TrimString v) "") as [?|_]; [done|]. destruct (ParseUint (TrimString v) 63); [|done]. by intros [= <-].
Qed.

Lemma fixLength_declared status method header chunked n header' : fixLength false true status method header chunked = Ok (n, header') ->
  exists cl, declared_length (Header_values header "Content-Length") = Some cl
    /\ n = (if no_body method status then 0 else if chunked then -1 else default (-1) cl) /\ (forall k, cl = Some k -> 0 <= k).
Proof.
  unfold fixLength, noResponseBodyExpected. set (cls := Header_values header "Content-Length"). intros H.
  match type of H with match ?x with _ => _ end = _ => assert (exists cls' h', x = Ok (cls', h')
      /\ forall n, match cls' with [] => Ok 0 | _ => parseContentLength false cls' end = Ok n ->
         exists cl, declared_length cls = Some cl /\ (cls' = [] <-> cl = None) /\ (forall k, cl = Some k -> n = k /\ 0 <= k)) as (cls' & h' & E & Hcl) end.
  { destruct cls as [|v others].
    - do 2 eexists. split; [reflexivity|]. intros ? _. by exists None.
    - destruct others as [|v' others].
      + do 2 eexists. split; [reflexivity|]. intros k Hk. apply parseContentLength_strict in Hk. exists (Some k).
        cbn. rewrite String.eqb_refl. cbn. rewrite Hk. splits; try done. intros ? [= <-]. split; [done|]. by apply ParseUint_nonneg in Hk.
      + cbn zeta in *. destruct (forallb _ (v' :: others)) eqn:Ef; [|done]. do 2 eexists. split; [reflexivity|].
        intros k Hk. apply parseContentLength_strict in Hk. rewrite TrimString_idem in Hk. exists (Some k).
        cbn [declared_length forallb]. cbn [forallb] in Ef. rewrite String.eqb_refl, Ef. cbn [andb fmap option_fmap option_map]. rewrite Hk.
        splits; try done. intros ? [= <-]. split; [done|]. by apply ParseUint_nonneg in Hk. }
  rewrite E in H. destruct (match cls' with [] => Ok 0 | _ => _ end) as [k|] eqn:Ek; [|done].
  destruct (Hcl k eq_refl) as (cl & Hd & Hnone & Hsome). exists cl. split; [done|]. split; [|intros; by apply Hsome].
  unfold no_body. destruct (String.eqb method "HEAD") eqn:Em; cbn [andb orb] in *; [by injection H|].
  assert ((100 <=? status) && (status <=? 199) = (Z.quot status 100 =? 1)) as ->.
  { apply eq_true_iff_eq. rewrite andb_true_iff, !Z.leb_le, Z.eqb_eq. split.
    - intros ?. symmetry. apply Z.quot_unique with (status - 100); lia.
    - intros Hq. pose proof (Z.quot_rem' status 100). pose proof (Z.rem_bound_abs status 100 ltac:(lia)).
      destruct (Z.le_gt_cases 0 status); [pose proof (Z.rem_bound_pos status 100); lia|].
      pose proof (Z.rem_bound_neg_pos status 100). lia. }
  destruct (Z.quot status 100 =? 1); [by injection H|]. cbn [orb].
  destruct (status =? 204); [by injection H|]. destruct (status =? 304); [by injection H|]. cbn [orb] in *.
  destruct chunked; [by injection H|]. destruct cls' as [|c cls'].
  - injection H as <- _. by destruct Hnone as [-> _].
  - injection H as <- _. destruct cl as [cl|]; [by destruct (Hsome cl eq_refl) as [-> _]|]. destruct Hnone as [_ Hnone]. by specialize (Hnone eq_refl).
Qed.

Lemma bodyAllowed_not status : negb (bodyAllowedForStatus status) = ((100 <=? status) && (status <=? 199)) || (status =? 204) || (status =? 304).
Proof. unfold bodyAllowedForStatus. by destruct ((100 <=? status) && _), (status =? 204), (status =? 304). Qed.

Lemma shouldClose_header ct major minor header : exists close h, shouldClose ct major minor header true = (close, h)
  /\ forall k, k <> "Connection"%string -> h !! k = header !! k.
Proof.
  unfold shouldClose, Header_Del. destruct canonical_keys as (_ & -> & _).
  destruct (major <? 1); [by do 2 eexists|]. destruct ((major =? 1) && (minor =? 0)); [by do 2 eexists|]. cbn zeta. rewrite andb_true_r.
  do 2 eexists. split; [reflexivity|]. intros k Hk. destruct (ct _ _); [|done]. by rewrite lookup_delete_ne.
Qed.

(** The response's Transfer-Encoding field, if any, is in force. *)
Definition te_in_force (rr : Response) : bool := te_counts rr && is_set (rs_Header rr !! "Transfer-Encoding"%string).

Lemma readTransfer_framing ct rr r rr' b : readTransfer ct false rr r = Ok (rr', b) ->
  (te_in_force rr = true -> exists v, rs_Header rr !! "Transfer-Encoding"%string = Some [v] /\ EqualFold v "chunked" = true)
  /\ rs_TransferEncoding rr' = (if te_in_force rr then ["chunked"%string] else rs_TransferEncoding rr)
  /\ (exists cl, declared_length (Header_values (rs_Header rr) "Content-Length") = Some cl
       /\ body_framing b = rfc_framing (rs_RequestMethod rr) (rs_StatusCode rr) (te_in_force rr) cl
       /\ (body_framing b = FUntilClose -> rs_Close rr' = true)
       /\ (forall n, body_framing b = FLength n -> 0 < n))
  /\ body_reader b = r
  /\ match b with
     | NoBody _ => rs_RequestMethod rr = "HEAD"%string \/ rs_ContentLength rr' = 0
     | HasBody b => (rs_RequestMethod rr <> "HEAD"%string /\ rs_ContentLength rr' <> 0) /\ b_hdr b = te_in_force rr /\ b_closing b = rs_Close rr' /\ b_sawEOF b = false /\ b_closed b = false /\ b_Trailer b = rs_Trailer rr'
         /\ match b_src b with SrcChunked cr => cr = NewChunkedReader r | SrcLimited r' _ | SrcBuf r' => r' = r end
     end.
Proof.
  unfold readTransfer, te_in_force, te_counts. destruct (shouldClose_header ct (rs_ProtoMajor rr) (rs_ProtoMinor rr) (rs_Header rr)) as (close & h & -> & Hh).
  assert (Header_values h "Content-Length" = Header_values (rs_Header rr) "Content-Length") as Hcl.
  { unfold Header_values. by rewrite Hh. }
  set (mm := if (rs_ProtoMajor rr =? 0) && _ then _ else _).
  assert ((1 <? mm.1) || (mm.1 =? 1) && (1 <=? mm.2)
    = (1 <? rs_ProtoMajor rr) || (rs_ProtoMajor rr =? 1) && (1 <=? rs_ProtoMinor rr) || (rs_ProtoMajor rr =? 0) && (rs_ProtoMinor rr =? 0)) as Hte.
  { unfold mm. destruct ((rs_ProtoMajor rr =? 0) && (rs_ProtoMinor rr =? 0)) eqn:E; cbn [fst snd]; [symmetry; apply orb_true_r|by rewrite orb_false_r]. }
  destruct mm as [major minor]. cbn [fst snd] in Hte. unfold parseTransferEncoding. rewrite (Hh "Transfer-Encoding"%string) by done.
  rewrite Hte. set (counts := _ || _ && _ || _ && _). clearbody counts. clear Hte.
  match goal with |- context [match ?x with Err e => Err e | Ok _ => _ end] => set (te := x) end.
  intros H. destruct te as [[chunked h1]|] eqn:Ete; [|done]. unfold te in Ete. clear te.
  assert (chunked = counts && is_set (rs_Header rr !! "Transfer-Encoding"%string)
    /\ Header_values h1 "Content-Length" = Header_values h "Content-Length"
    /\ (chunked = true -> exists v, rs_Header rr !! "Transfer-Encoding"%string = Some [v] /\ EqualFold v "chunked" = true)) as (Hch & Hh1 & Hval).
  { destruct (rs_Header rr !! "Transfer-Encoding"%string) as [raw|]; cbn [is_set]; [|injection Ete as <- <-; by rewrite andb_false_r].
    destruct counts; cbn [negb] in Ete; [|injection Ete as <- <-; splits; try done; unfold Header_values; by rewrite lookup_delete_ne].
    destruct raw as [|v [|]]; try done. destruct (EqualFold v "chunked") eqn:Ev; [|done]. injection Ete as <- <-.
    splits; try done; [unfold Header_values; by rewrite lookup_delete_ne|by exists v]. }
  rewrite <- Hch. destruct (fixLength _ _ _ _ _ _) as [[rl h2]|] eqn:Efl; [|done].
  destruct (fixLength_declared _ _ _ _ _ _ Efl) as (cl & Hd & Hrl & Hpos). rewrite Hh1, Hcl in Hd.
  match type of H with match ?x with _ => _ end = _ =>
    assert (forall cl', x = Ok cl' -> rs_RequestMethod rr = "HEAD"%string \/ cl' = rl) as HcL;
      [destruct (String.eqb_spec (rs_RequestMethod rr) "HEAD"); [by left|intros ? [= <-]; by right]|destruct x as [contentLength|]; [|done]] end.
  specialize (HcL contentLength eq_refl).
  assert (no_body (rs_RequestMethod rr) (rs_StatusCode rr) = false -> rl <> 0 -> rs_RequestMethod rr <> "HEAD"%string /\ contentLength <> 0) as HcB.
  { unfold no_body. intros Hn ?. destruct (String.eqb_spec (rs_RequestMethod rr) "HEAD"); [done|]. split; [done|]. by destruct HcL as [?| ->]. }
  destruct (fixTrailer _ _) as [[trailer h3]|]; [|done]. injection H as <- <-. cbn [rs_TransferEncoding rs_Close rs_Trailer].
  pose proof (bodyAllowed_not (rs_StatusCode rr)) as Hallow.
  assert (noResponseBodyExpected (rs_RequestMethod rr) || negb (bodyAllowedForStatus (rs_StatusCode rr)) = no_body (rs_RequestMethod rr) (rs_StatusCode rr)) as Hnb.
  { rewrite Hallow. unfold no_body, noResponseBodyExpected. by rewrite !orb_assoc. }
  rewrite Hnb. unfold rfc_framing. split; [done|]. split; [done|].
  subst rl. destruct chunked.
  - destruct (no_body (rs_RequestMethod rr) (rs_StatusCode rr)) eqn:Enb; (split; [exists cl; splits; try done; intros ? [= <-]|]); splits; try done.
    all: by destruct HcB.
  - destruct (no_body (rs_RequestMethod rr) (rs_StatusCode rr)) eqn:Enb; cbn iota.
    + split; [exists cl; splits; try done; intros ? [= <-]|]; done.
    + destruct cl as [n|]; cbn [from_option]; unfold id.
      * specialize (Hpos n eq_refl). destruct (Z.eqb_spec n 0) as [->|Hn0].
        { split; [exists (Some 0); splits; try done; intros ? [= <-]|]; done. }
        destruct (Z.ltb_spec 0 n); [|lia]. replace (n =? -1) with false by (symmetry; apply Z.eqb_neq; lia).
        split; [exists (Some n); rewrite (proj2 (Z.eqb_neq n 0) Hn0); splits; try done; by intros ? [= <-]|]. splits; try done; by destruct HcB.
      * change (-1 =? 0) with false. change (0 <? -1) with false. change (-1 =? -1) with true. cbn [negb andb].
        apply orb_false_iff in Hnb as [_ Hna]. apply negb_false_iff in Hna. rewrite Hna. rewrite orb_true_r.
        split; [exists None; splits; done|]. splits; try done; by destruct HcB.
Qed.

(** What [readTransfer] decides does not depend on what the connection carries. *)
Lemma readTransfer_any_reader ct lax rr r rr' b : readTransfer ct lax rr r = Ok (rr', b) ->
  rs_StatusCode rr' = rs_StatusCode rr /\ rs_RequestMethod rr' = rs_RequestMethod rr /\ body_reader b = r
  /\ forall r2, exists b2, readTransfer ct lax rr r2 = Ok (rr', b2).
Proof.
  unfold readTransfer. destruct (shouldClose _ _ _ _ _) as [close h]. destruct ((rs_ProtoMajor rr =? 0) && (rs_ProtoMinor rr =? 0)).
  all: destruct (parseTransferEncoding _ _ _) as [[chunked h1]|]; [|done]; destruct (fixLength _ _ _ _ _ _) as [[n h2]|]; [|done].
  all: match goal with |- context [if String.eqb ?a ?b then ?x else ?y] => destruct (if String.eqb a b then x else y); [|done] end.
  all: destruct (fixTrailer _ _) as [[tr h3]|]; [|done].
  all: intros [= <- <-]; splits; try done; [|by eexists]; by repeat case_match.
Qed.

(** Without the [httplaxcontentlength] setting, a response the client accepts
    has at most one Transfer-Encoding value, [chunked], and Content-Length values
    that agree; the framing of its body is the one RFC 9112, section 6.3,
    determines from the method, the status and these two fields (a
    Transfer-Encoding takes precedence over a Content-Length and no other case
    reads to the end of the connection), and a body read to the end of the
    connection closes it. *)
Theorem accepted_response_framing ct rr r rr' b : readTransfer ct false rr r = Ok (rr', b) ->
  (te_in_force rr = true -> exists v, rs_Header rr !! "Transfer-Encoding"%string = Some [v] /\ EqualFold v "chunked" = true)
  /\ exists cl, declared_length (Header_values (rs_Header rr) "Content-Length") = Some cl
       /\ body_framing b = rfc_framing (rs_RequestMethod rr) (rs_StatusCode rr) (te_in_force rr) cl
       /\ (body_framing b = FUntilClose -> rs_Close rr' = true).
Proof.
  intros H. destruct (readTransfer_framing _ _ _ _ _ H) as (Hv & _ & (cl & Hd & Hf & Hc & _) & _). split; [done|]. by exists cl.
Qed.

Definition two_lengths : Response :=
  mkResponse1 "HTTP/1.1" "200 OK" 200 1 1 {["Content-Length"%string := ["3"; " 3 "]%string; "Server"%string := ["s"%string]]} 0 [] false None "GET".
Definition no_reader : BufReader := mkBufReader [] [] io_EOF.
Lemma accepted_response_framing_witness :
  exists rr' b, readTransfer (fun _ _ => false) false two_lengths no_reader = Ok (rr', b)
    /\ exists cl, declared_length (Header_values (rs_Header two_lengths) "Content-Length") = Some cl
       /\ body_framing b = rfc_framing (rs_RequestMethod two_lengths) (rs_StatusCode two_lengths) (te_in_force two_lengths) cl
       /\ (body_framing b = FUntilClose -> rs_Close rr' = true).
Proof.
  destruct (readTransfer (fun _ _ => false) false two_lengths no_reader) as [[rr' b]|e] eqn:E; [|vm_compute in E; discriminate E].
  exists rr', b. split; [reflexivity|]. exact (proj2 (accepted_response_framing _ _ _ _ _ E)).
Defined.
(** Values that differ are refused. *)
Example lengths_that_differ : exists e, readTransfer (fun _ _ => false) false
  (mkResponse1 "HTTP/1.1" "200 OK" 200 1 1 {["Content-Length"%string := ["1"; "2"]%string]} 0 [] false None "GET") no_reader = Err e.
Proof. eexists. vm_compute. reflexivity. Qed.

(** ** The message delivered *)
(** What a peer sends after the header for a body whose writes are [ds] and whose
    trailer fields are [tf], and when that is a message of this framing. *)
Definition message_wire (f : Framing) (ds : list bytes) (tf : list (string * string)) : bytes :=
  match f with
  | FNone => []
  | FChunked => cw_all ds ++ header_bytes tf
  | FLength _ | FUntilClose => concat ds
  end.
Definition wire_ok (f : Framing) (ds : list bytes) (tf : list (string * string)) (tail : bytes) (e0 : error) : Prop :=
  match f with
  | FNone => concat ds = [] /\ tf = []
  | FChunked => Forall (fun d => len d < 2 ^ 63) ds /\ trailer_ok tf
  | FLength n => len (concat ds) = n /\ tf = []
  | FUntilClose => tf = [] /\ tail = [] /\ e0 = io_EOF
  end.

Lemma fresh_body_at ct rr r rr' b ds tf tail : readTransfer ct false rr r = Ok (rr', HasBody b) -> buf_ok r -> bend r <> errBufferFull ->
  pending r = message_wire (body_framing (HasBody b)) ds tf ++ tail -> wire_ok (body_framing (HasBody b)) ds tf tail (bend r) ->
  body_at b (concat ds) tf tail.
Proof.
  intros H Hok He Hp Hw. destruct (readTransfer_framing _ _ _ _ _ H) as (_ & _ & (cl & _ & Hf & _ & Hpos) & Hr & _ & Hhdr & _ & Hsaw & Hcl & _ & Hsrc).
  cbn [body_reader] in Hr. unfold body_at. rewrite Hr. splits; try done. clear Hr.
  cbn [body_framing] in *. unfold rfc_framing in Hf.
  destruct (b_src b) as [cr|r' n|r'] eqn:Es; cbn [message_wire wire_ok src_reader] in *; subst.
  - rewrite Hhdr. destruct (no_body _ _); [done|]. destruct (te_in_force rr); [|by destruct cl as [m|]; [destruct (m =? 0)|]].
    destruct Hw as [Hds Htf]. unfold cr_ok, decodes, e0_of. cbn [NewChunkedReader cr_r cr_n cr_err cr_checkEnd] in *.
    splits; try done. rewrite Hp, cw_all_bytes, <- !app_assoc. by apply dechunks_written.
  - rewrite Hhdr. destruct (no_body _ _); [done|]. destruct (te_in_force rr); [done|]. destruct Hw as [Hn ->]. specialize (Hpos n eq_refl).
    splits; try done.
  - rewrite Hhdr. destruct (no_body _ _); [done|]. destruct (te_in_force rr); [done|]. destruct Hw as (-> & -> & He0).
    splits; try done. by rewrite app_nil_r in Hp.
Qed.

(** The body of an accepted response delivers exactly the bytes the peer sent
    as this message's body, in order and whatever the sizes of the reads and the
    segmentation of the stream, then [io.EOF]; the trailer fields are merged into
    [Response.Trailer]; and the connection's reader then stands at the first byte
    after the message. *)
Theorem response_body_delivered ct rr r rr' b ds tf tail rooms :
  readTransfer ct false rr r = Ok (rr', HasBody b) -> buf_ok r -> bend r <> errBufferFull ->
  pending r = message_wire (body_framing (HasBody b)) ds tf ++ tail -> wire_ok (body_framing (HasBody b)) ds tf tail (bend r) ->
  (forall i, 0 < rooms i) ->
  exists b', body_read_all (S (length (pending r))) b rooms = Some (concat ds, io_EOF, b')
    /\ pending (body_reader (HasBody b')) = tail /\ b_Trailer b' = merged (rs_Trailer rr') tf.
Proof.
  intros H Hok He Hp Hw Hr. pose proof (fresh_body_at _ _ _ _ _ _ _ _ H Hok He Hp Hw) as Hb.
  destruct (readTransfer_framing _ _ _ _ _ H) as (_ & _ & _ & Hrd & _ & _ & _ & _ & _ & <- & _). cbn [body_reader] in *.
  destruct (body_read_all_at tail tf (S (length (pending r))) b (concat ds) rooms Hb Hr) as (b' & Hrun & (_ & _ & _ & Hrest) & Ht).
  { unfold left_bytes. rewrite Hrd. lia. }
  by exists b'.
Qed.

(** At most [m] reads, stopping at an error. *)
Fixpoint body_reads (m : nat) (b : body) (rooms : nat -> Z) : option (bytes * option error * body) :=
  match m with
  | O => Some ([], None, b)
  | S m =>
      match body_Read b (rooms 0%nat) with
      | None => None
      | Some (d, Some e, b) => Some (d, Some e, b)
      | Some (d, None, b) =>
          match body_reads m b (fun i => rooms (S i)) with
          | Some (d', e, b) => Some (d ++ d', e, b)
          | None => None
          end
      end
  end.
Lemma body_reads_at tail tf m : forall b p rooms, body_at b p tf tail -> (forall i, 0 < rooms i) ->
  exists d err b', body_reads m b rooms = Some (d, err, b') /\ b_closing b' = b_closing b
    /\ match err with
       | Some e => e = io_EOF /\ d = p /\ body_done b' tail /\ b_closed b' = false
       | None => b_hdr b' = b_hdr b /\ exists p', p = d ++ p' /\ body_at b' p' tf tail
       end.
Proof.
  induction m as [|m IH]; intros b p rooms Hb Hr; cbn [body_reads].
  - do 3 eexists. split; [reflexivity|]. splits; try done. by exists p.
  - destruct (body_Read_step b p tf tail (rooms 0%nat) Hb (Hr 0%nat)) as (d & err & b1 & -> & Hc & Hbe & Hres). destruct err as [e|].
    + destruct Hres as (-> & -> & Hd & Hcl & _). do 3 eexists. split; [reflexivity|]. done.
    + destruct Hres as (_ & _ & _ & Hh & p' & -> & Hb1). destruct (IH b1 p' (fun i => rooms (S i)) Hb1 (fun i => Hr (S i))) as (d' & err & b' & -> & Hc' & Hres).
      do 3 eexists. split; [reflexivity|]. split; [congruence|]. destruct err as [e|].
      * destruct Hres as (-> & -> & Hd & Hcl). done.
      * destruct Hres as (Hh' & p'' & -> & Hb'). split; [congruence|]. exists p''. by rewrite app_assoc.
Qed.

(** [Close] after any number of reads. What was read is a prefix of this
    message's body, and unless the body has no trailer and the connection is to be
    closed anyway, [Close] succeeds and leaves the connection's reader at the first
    byte after the message: the rest of the body and its trailer are consumed and
    not one byte more. *)
Theorem response_body_closed ct rr r rr' b ds tf tail rooms m :
  readTransfer ct false rr r = Ok (rr', HasBody b) -> buf_ok r -> bend r <> errBufferFull ->
  pending r = message_wire (body_framing (HasBody b)) ds tf ++ tail -> wire_ok (body_framing (HasBody b)) ds tf tail (bend r) ->
  (forall i, 0 < rooms i) ->
  exists d err b1, body_reads m b rooms = Some (d, err, b1)
    /\ d `prefix_of` concat ds /\ (err = None \/ err = Some io_EOF /\ d = concat ds)
    /\ (rs_Close rr' = false \/ rs_TransferEncoding rr' = ["chunked"%string] /\ rs_TransferEncoding rr = [] ->
        exists b2, body_Close b1 = Some (None, b2) /\ pending (body_reader (HasBody b2)) = tail).
Proof.
  intros H Hok He Hp Hw Hr. pose proof (fresh_body_at _ _ _ _ _ _ _ _ H Hok He Hp Hw) as Hb.
  destruct (readTransfer_framing _ _ _ _ _ H) as (_ & Hte & _ & _ & _ & Hhdr & Hclosing & _).
  destruct (body_reads_at tail tf m b (concat ds) rooms Hb Hr) as (d & err & b1 & Hrun & Hcl1 & Hres).
  exists d, err, b1. split; [done|]. destruct err as [e|].
  - destruct Hres as (-> & -> & (Hsaw & _ & _ & Hrest) & Hcl). splits; [done|by right|]. intros _.
    unfold body_Close. rewrite Hcl, Hsaw. eexists. split; [reflexivity|]. done.
  - destruct Hres as (Hh & p' & -> & Hb1). splits; [by apply prefix_app_r|by left|]. intros Hc.
    destruct (body_Close_at b1 p' tf tail Hb1) as (b2 & Hclose & _ & (_ & _ & _ & Hrest) & _); [|by exists b2].
    destruct Hc as [Hc|[Hc1 Hc2]]; [right; congruence|left]. rewrite Hh, Hhdr. rewrite Hte, Hc2 in Hc1. by destruct (te_in_force rr).
Qed.

(** A body cut short. When the connection ends before the bytes announced by
    [Content-Length] have come, the reads deliver what came and then
    [io.ErrUnexpectedEOF], never [io.EOF]. *)
Theorem truncated_body_reported ct rr r rr' b n rooms :
  readTransfer ct false rr r = Ok (rr', HasBody b) -> body_framing (HasBody b) = FLength n -> buf_ok r -> bend r = io_EOF ->
  len (pending r) < n -> (forall i, 0 < rooms i) ->
  exists b', body_read_all (S (length (pending r))) b rooms = Some (pending r, io_ErrUnexpectedEOF, b').
Proof.
  intros H Hf Hok He Hl Hr. destruct (readTransfer_framing _ _ _ _ _ H) as (_ & _ & (cl & _ & Hf' & _) & _ & _ & Hhdr & _ & Hsaw & Hcl & _ & Hsrc).
  rewrite Hf in Hf'. cbn [body_framing] in Hf. destruct (b_src b) as [|r' n'|] eqn:Es; try done. injection Hf as ->. subst r'.
  apply (body_read_all_short n (S (length (pending r))) b r n (pending r) rooms); try done; [|lia].
  rewrite Hhdr. unfold rfc_framing in Hf'. destruct (no_body _ _); [done|]. by destruct (te_in_force rr).
Qed.

(** *** Witnesses: a chunked response with a trailer, a length-limited one *)
Definition chunked_response : Response :=
  mkResponse1 "HTTP/1.1" "200 OK" 200 1 1
    {["Transfer-Encoding"%string := ["Chunked"]%string; "Trailer"%string := ["X-Sum"]%string]} 0 [] false None "GET".
Definition length_response : Response :=
  mkResponse1 "HTTP/1.1" "200 OK" 200 1 1 {["Content-Length"%string := ["9"]%string]} 0 [] false None "GET".
Definition no_tokens (_ : list string) (_ : string) : bool := false.
Definition body_reader_at (p : bytes) : BufReader := mkBufReader (slice_to p 3) [slice_from p 3] io_EOF.
Definition sum_fields : list (string * string) := [("X-Sum", "1f")]%string.
Definition chunked_stream : bytes := message_wire FChunked [[7; 8]; []; [9]] sum_fields ++ [72; 84].
Definition response_body (rr : Response) (r : BufReader) : option (Response * body) :=
  match readTransfer no_tokens false rr r with Ok (rr', HasBody b) => Some (rr', b) | _ => None end.
Lemma response_body_Some rr r rr' b : response_body rr r = Some (rr', b) -> readTransfer no_tokens false rr r = Ok (rr', HasBody b).
Proof. unfold response_body. destruct (readTransfer _ _ _ _) as [[? [|]]|]; try done. by intros [= <- <-]. Qed.
Lemma chunked_response_body :
  match response_body chunked_response (body_reader_at chunked_stream) with
  | Some (rr', b) => body_framing (HasBody b) = FChunked /\ rs_TransferEncoding rr' = ["chunked"%string]
  | None => False
  end.
Proof. vm_compute. done. Qed.
Lemma body_reader_at_ok : buf_ok (body_reader_at chunked_stream).
Proof. split; [repeat constructor; discriminate|]. vm_compute. discriminate. Qed.
Lemma sum_fields_ok : trailer_ok sum_fields.
Proof. unfold trailer_ok, sum_fields, field_ok. splits; [repeat constructor; vm_compute; congruence|vm_compute; discriminate|vm_compute; discriminate]. Qed.

Lemma response_body_delivered_witness :
  exists rr' b, response_body chunked_response (body_reader_at chunked_stream) = Some (rr', b)
    /\ exists b', body_read_all (S (length (pending (body_reader_at chunked_stream)))) b (fun _ => 2) = Some ([7; 8; 9], io_EOF, b')
      /\ pending (body_reader (HasBody b')) = [72; 84] /\ b_Trailer b' = merged (rs_Trailer rr') sum_fields.
Proof.
  pose proof chunked_response_body as Hf.
  destruct (response_body chunked_response (body_reader_at chunked_stream)) as [[rr' b]|] eqn:E; [|destruct Hf].
  exists rr', b. split; [reflexivity|]. destruct Hf as [Hf _].
  apply (response_body_delivered no_tokens chunked_response (body_reader_at chunked_stream) rr' b [[7; 8]; []; [9]] sum_fields [72; 84] (fun _ => 2)).
  - by apply response_body_Some.
  - exact body_reader_at_ok.
  - discriminate.
  - rewrite Hf. reflexivity.
  - rewrite Hf. split; [repeat constructor|exact sum_fields_ok].
  - intros _. lia.
Defined.

Lemma response_body_closed_witness :
  exists rr' b, response_body chunked_response (body_reader_at chunked_stream) = Some (rr', b)
    /\ exists d err b1, body_reads 1 b (fun _ => 2) = Some (d, err, b1)
      /\ exists b2, body_Close b1 = Some (None, b2) /\ pending (body_reader (HasBody b2)) = [72; 84].
Proof.
  pose proof chunked_response_body as Hf.
  destruct (response_body chunked_response (body_reader_at chunked_stream)) as [[rr' b]|] eqn:E; [|destruct Hf].
  exists rr', b. split; [reflexivity|]. destruct Hf as [Hf Hte].
  destruct (response_body_closed no_tokens chunked_response (body_reader_at chunked_stream) rr' b [[7; 8]; []; [9]] sum_fields [72; 84] (fun _ => 2) 1)
    as (d & err & b1 & Hrun & _ & _ & Hc).
  - by apply response_body_Some.
  - exact body_reader_at_ok.
  - discriminate.
  - rewrite Hf. reflexivity.
  - rewrite Hf. split; [repeat constructor|exact sum_fields_ok].
  - intros _. lia.
  - exists d, err, b1. split; [exact Hrun|]. apply Hc. right. by split.
Defined.

Lemma truncated_body_reported_witness :
  exists rr' b, response_body length_response (body_reader_at [1; 2; 3; 4]) = Some (rr', b)
    /\ exists b', body_read_all 5 b (fun _ => 2) = Some ([1; 2; 3; 4], io_ErrUnexpectedEOF, b').
Proof.
  assert (match response_body length_response (body_reader_at [1; 2; 3; 4]) with
          | Some (_, b) => body_framing (HasBody b) = FLength 9 | None => False end) as Hf by (vm_compute; reflexivity).
  destruct (response_body length_response (body_reader_at [1; 2; 3; 4])) as [[rr' b]|] eqn:E; [|destruct Hf].
  exists rr', b. split; [reflexivity|].
  apply (truncated_body_reported no_tokens length_response (body_reader_at [1; 2; 3; 4]) rr' b 9 (fun _ => 2)).
  - by apply response_body_Some.
  - exact Hf.
  - split; [repeat constructor; discriminate|]. vm_compute. discriminate.
  - reflexivity.
  - reflexivity.
  - intros _. lia.
Defined.
