(* ===== verification/H1Message.v ===== *)
(** * Reading responses off an HTTP/1 connection ([src/transport.go])

    The status line and the header of a response ([_readResponse]), the loop over
    the informational ones ([readResponse]), the body handed to the caller
    ([bodyEOFSignal]) and the read loop of a connection ([readLoop]) as a step
    relation: the loop and the callers that read and close the bodies run
    concurrently, one step of one of them at a time. *)

From S2P Require Import Prelude.
From S2P Require Import H2Errors.
From S2P Require Import NetText.
From S2P Require Import H2Transport.
From S2P Require Import Bufio.
From S2P Require Import BufioLine.
From S2P Require Import TextProto.
From S2P Require Import Transfer.
From S2P Require Import TransferBody.

(** ** Strings and versions ([strings], [net/http]) *)
(** [strings.Cut(s, " ")] *)
Definition cut_space (s : string) : option (string * string) :=
  match cut 32 (bytes_of_string s) with
  | Some (a, b) => Some (string_of_bytes a, string_of_bytes b)
  | None => None
  end.
(** [strings.TrimLeft(s, " ")] *)
Fixpoint TrimLeft_space (s : string) : string :=
  match s with
  | String.String c s' => if Z.of_N (Ascii.N_of_ascii c) =? 32 then TrimLeft_space s' else s
  | String.EmptyString => s
  end.
Definition ParseHTTPVersion (vers : string) : option (Z * Z) :=
  if String.eqb vers "HTTP/1.1" then Some (1, 1)
  else if String.eqb vers "HTTP/1.0" then Some (1, 0)
  else if negb (has_prefix "HTTP/" vers) then None
  else match bytes_of_string vers with
       | [_; _; _; _; _; maj; dot; min] =>
           if negb (dot =? 46) then None
           else match ParseUint (string_of_bytes [maj]) 64, ParseUint (string_of_bytes [min]) 64 with
                | Some maj, Some min => Some (maj, min)
                | _, _ => None
                end
       | _ => None
       end.

Definition fixPragmaCacheControl (header : Header) : Header :=
  match header !! "Pragma"%string with
  | Some (v :: _) =>
      if String.eqb v "no-cache" && negb (is_set (header !! "Cache-Control"%string))
      then <["Cache-Control"%string := ["no-cache"%string]]> header else header
  | _ => header
  end.

Definition isProtocolSwitchHeader (containsToken : list string -> string -> bool) (h : Header) : bool :=
  negb (String.eqb (Header_Get h "Upgrade") "") && containsToken (Header_values h "Connection") "Upgrade".
Definition isProtocolSwitchResponse (containsToken : list string -> string -> bool) (code : Z) (h : Header) : bool :=
  (code =? 101) && isProtocolSwitchHeader containsToken h.
Definition isProtocolSwitch (containsToken : list string -> string -> bool) (resp : Response) : bool :=
  isProtocolSwitchResponse containsToken (rs_StatusCode resp) (rs_Header resp).

Definition eof_unexpected (e : error) : error := if bool_decide (e = io_EOF) then io_ErrUnexpectedEOF else e.

(** ** The limit on the header of a response ([persistConn.Read]) *)
(** The first [n] bytes of the segments, and what follows them. *)
Fixpoint src_take (n : Z) (src : list bytes) : list bytes :=
  match src with
  | [] => []
  | seg :: src => if n <=? 0 then [] else if len seg <=? n then seg :: src_take (n - len seg) src else [slice_to seg n]
  end.
Fixpoint src_drop (n : Z) (src : list bytes) : list bytes :=
  match src with
  | [] => []
  | seg :: src' => if n <=? 0 then src else if len seg <=? n then src_drop (n - len seg) src' else slice_from seg n :: src'
  end.
Definition src_left (r : BufReader) : Z := len (concat (bsrc r)).
Definition errReadLimit (max : Z) : error := fmt_Errorf "read limit of %d bytes exhausted" [pretty max].
(** The reader with [pc.readLimit = limit]: what is buffered is not counted, and after [limit] bytes of the connection comes the
    error. [restored]: the connection when [r'] is left of the limited one. [spent]: what was read of the connection. *)
Definition limited (max limit : Z) (r : BufReader) : BufReader :=
  if src_left r <? limit then r else mkBufReader (bbuf r) (src_take limit (bsrc r)) (errReadLimit max).
Definition restored (limit : Z) (r r' : BufReader) : BufReader :=
  if src_left r <? limit then r' else mkBufReader (bbuf r') (bsrc r' ++ src_drop limit (bsrc r)) (bend r).
Definition spent (r r' : BufReader) : Z := src_left r - src_left r'.
(** [maxHeaderResponseSize]. *)
Definition maxHeaderResponseSize (MaxResponseHeaderBytes : Z) : Z := if MaxResponseHeaderBytes =? 0 then Z.shiftl 10 20 else MaxResponseHeaderBytes.
(** [Peek(1)] at the top of the read loop, with the limit of a new response; and what it leaves of the limit. *)
Definition peek_response (max : Z) (r : BufReader) : option (bytes * option error * BufReader * Z) :=
  match bufio_Peek (limited max max r) 1 with
  | None => None
  | Some (buf, err, r') => let r' := restored max r r' in Some (buf, err, r', max - spent r r')
  end.
(** The error the caller gets when the limit is used up. *)
Definition limit_error (max limit : Z) (e : error) : error :=
  if limit <=? 0 then fmt_Errorf "net/http: server response headers exceeded %d bytes; aborted" [pretty max] else e.

Section Messages.
(** Whether response headers are dumped, what [Transfer.Framing] takes, and [maxHeaderResponseSize()]. *)
Context (dump : bool) (containsToken : list string -> string -> bool) (httplax : bool) (max : Z).

(** ** One response *)
(** The status line: [Proto], [Status], [StatusCode] and the version. *)
Definition parseStatusLine (line : string) : result error (string * string * Z * (Z * Z)) :=
  match cut_space line with
  | None => Err (badStringError "malformed HTTP response" line)
  | Some (proto, status) =>
      let status := TrimLeft_space status in
      let statusCode := match cut_space status with Some (c, _) => c | None => status end in
      if negb (len (bytes_of_string statusCode) =? 3) then Err (badStringError "malformed HTTP status code" statusCode) else
      match Atoi statusCode with
      | None => Err (badStringError "malformed HTTP status code" statusCode)
      | Some code =>
          if code <? 0 then Err (badStringError "malformed HTTP status code" statusCode) else
          match ParseHTTPVersion proto with
          | None => Err (badStringError "malformed HTTP version" proto)
          | Some v => Ok (proto, status, code, v)
          end
      end
  end.

(** What is read of a response before [readTransfer]: the status line and the header. The reader left comes with either result. *)
Definition read_head (method : string) (r : BufReader) : option (result error Response * BufReader) :=
  match ReadLine dump r with
  | None => None
  | Some (Err e, r) => Some (Err (eof_unexpected e), r)
  | Some (Ok line, r) =>
      match parseStatusLine line with
      | Err e => Some (Err e, r)
      | Ok (proto, status, code, (major, minor)) =>
          match ReadMIMEHeader dump r with
          | None => None
          | Some (_, Some e, r) => Some (Err (eof_unexpected e), r)
          | Some (header, None, r) => Some (Ok (mkResponse1 proto status code major minor (fixPragmaCacheControl header) 0 [] false None method), r)
          end
      end
  end.
(** The reader left comes with the error; with a response it is in its body. [readTransfer] does not read. *)
Definition _readResponse (limit : Z) (method : string) (r : BufReader) : option (result (error * BufReader) (Response * respBody)) :=
  match read_head method (limited max limit r) with
  | None => None
  | Some (Err e, r') => Some (Err (e, restored limit r r'))
  | Some (Ok resp, r') =>
      let r := restored limit r r' in
      match readTransfer containsToken httplax resp r with
      | Err e => Some (Err (e, r))
      | Ok res => Some (Ok res)
      end
  end.

(** ** The final response *)
Definition max1xxResponses : Z := 5.
(** What the write loop learns on [continueCh]: a value ([true]: send the body) or
    that it was closed ([false]). *)
Record final := mkFinal { f_resp : Response; f_body : respBody; f_switched : bool; f_continue : option bool }.

(** [waiting]: [continueCh] is not nil; [got1xx] is [trace.Got1xxResponse]; [limit]: what is left of [pc.readLimit], which every
    informational response resets. The errors are those that the read loop hands to the caller. *)
Fixpoint readResponse_loop (got1xx : Z -> Header -> option error) (method : string) (reqClose : bool)
    (fuel : nat) (limit : Z) (r : BufReader) (num1xx : Z) (waiting : bool) (told : option bool) : option (result (error * BufReader) final) :=
  match fuel with
  | O => None
  | S fuel =>
      match _readResponse limit method r with
      | None => None
      | Some (Err (e, r')) => Some (Err (limit_error max (limit - spent r r') e, r'))
      | Some (Ok (resp, body)) =>
          let limit := limit - spent r (body_reader body) in
          let code := rs_StatusCode resp in
          let '(waiting, told) := if waiting && (code =? 100) then (false, Some true) else (waiting, told) in
          if (100 <=? code) && (code <=? 199) && negb (code =? 101) then
            let r := body_reader body in
            let num1xx := num1xx + 1 in
            if max1xxResponses <? num1xx then Some (Err (limit_error max limit (errors_New "net/http: too many 1xx informational responses"), r))
            else match got1xx code (rs_Header resp) with
                 | Some e => Some (Err (limit_error max max e, r))
                 | None => readResponse_loop got1xx method reqClose fuel max r num1xx waiting told
                 end
          else
            Some (Ok (mkFinal resp body (isProtocolSwitch containsToken resp)
                        (if waiting then Some (negb (rs_Close resp || reqClose)) else told)))
      end
  end.
Definition readResponse (got1xx : Z -> Header -> option error) (method : string) (reqClose continueCh : bool) (limit : Z) (r : BufReader)
    : option (result (error * BufReader) final) :=
  readResponse_loop got1xx method reqClose 6 limit r 0 continueCh None.
End Messages.

(** ** The body handed to the caller *)
Definition errReadOnClosedResBody : error := errors_New "http: read on closed response body".

(** [es_fn]: [fn] is not nil; [es_wait]: what was sent on [waitForBodyRead]. The
    read loop sets both [fn] and [earlyCloseFn]. *)
Record bodyEOFSignal := mkBodyEOFSignal {
  es_body : respBody; es_closed : bool; es_rerr : option error; es_fn : bool; es_wait : list bool }.

Definition respBody_Read (b : respBody) (k : Z) : option (bytes * option error * respBody) :=
  match b with
  | NoBody r => Some ([], Some io_EOF, b)
  | HasBody b => match body_Read b k with Some (d, e, b) => Some (d, e, HasBody b) | None => None end
  end.
Definition respBody_Close (b : respBody) : option (option error * respBody) :=
  match b with
  | NoBody r => Some (None, b)
  | HasBody b => match body_Close b with Some (e, b) => Some (e, HasBody b) | None => None end
  end.

(** [condfn(err)] with the [fn] of the read loop; [canceled] is [pc.canceled()]. *)
Definition condfn (canceled : option error) (es : bodyEOFSignal) (err : option error) : option error * bodyEOFSignal :=
  if negb (es_fn es) then (err, es) else
  let isEOF := bool_decide (err = Some io_EOF) in
  let es := mkBodyEOFSignal (es_body es) (es_closed es) (es_rerr es) false (es_wait es ++ [isEOF]) in
  (if isEOF then err else if is_set err && is_set canceled then canceled else err, es).

Definition es_Read (canceled : option error) (es : bodyEOFSignal) (k : Z) : option (bytes * option error * bodyEOFSignal) :=
  if es_closed es then Some ([], Some errReadOnClosedResBody, es)
  else match es_rerr es with
  | Some e => Some ([], Some e, es)
  | None =>
      match respBody_Read (es_body es) k with
      | None => None
      | Some (d, None, b) => Some (d, None, mkBodyEOFSignal b (es_closed es) None (es_fn es) (es_wait es))
      | Some (d, Some e, b) =>
          let '(err, es) := condfn canceled (mkBodyEOFSignal b (es_closed es) (Some e) (es_fn es) (es_wait es)) (Some e) in
          Some (d, err, es)
      end
  end.

Definition es_Close (canceled : option error) (es : bodyEOFSignal) : option (option error * bodyEOFSignal) :=
  if es_closed es then Some (None, es)
  else
    let es := mkBodyEOFSignal (es_body es) true (es_rerr es) (es_fn es) (es_wait es) in
    if bool_decide (es_rerr es <> Some io_EOF)
    then Some (None, mkBodyEOFSignal (es_body es) true (es_rerr es) (es_fn es) (es_wait es ++ [false]))
    else match respBody_Close (es_body es) with
         | None => None
         | Some (err, b) => Some (condfn canceled (mkBodyEOFSignal b true (es_rerr es) (es_fn es) (es_wait es)) err)
         end.

(** ** What a response looks like on the wire *)
Record responseHead := mkHead { h_line : string; h_fields : list (string * string) }.
Definition head_wire (h : responseHead) : bytes := bytes_of_string (h_line h) ++ [13; 10] ++ header_bytes (h_fields h).
(** With the headers dumped, no line may be longer than the buffer. *)
Definition head_ok (dump : bool) (h : responseHead) : Prop :=
  Forall (fun b => b <> 10) (bytes_of_string (h_line h)) /\ (dump = true -> len (bytes_of_string (h_line h)) + 2 <= bufsize)
  /\ Forall field_ok (h_fields h) /\ lines_fit dump (h_fields h) /\ fields_cost (h_fields h) <= maxInt64 - 400.
(** The response before [readTransfer]. *)
Definition head_response (method : string) (h : responseHead) : result error Response :=
  match parseStatusLine (h_line h) with
  | Err e => Err e
  | Ok (proto, status, code, (major, minor)) =>
      Ok (mkResponse1 proto status code major minor (fixPragmaCacheControl (fold_left add_field (h_fields h) ∅)) 0 [] false None method)
  end.

(** *** The limited reader *)
Lemma src_split n src : Forall (fun s => s <> []) src ->
  concat (src_take n src) ++ concat (src_drop n src) = concat src /\ Forall (fun s => s <> []) (src_take n src) /\ Forall (fun s => s <> []) (src_drop n src)
  /\ len (concat (src_take n src)) = Z.min (Z.max 0 n) (len (concat src)).
Proof.
  intros Hs. revert n. induction Hs as [|seg src Hseg Hsrc IH]; intros n; cbn [src_take src_drop]; [splits; [done..|]; cbn; change (len []) with 0; lia|]. cbn [concat].
  pose proof (len_nonneg (concat src)). assert (0 < len seg) by (destruct seg; [done|rewrite len_cons; pose proof (len_nonneg seg); lia]). rewrite len_app. destruct (Z.leb_spec n 0).
  - cbn [concat]. rewrite len_nil. splits; [done|done|by constructor|lia].
  - destruct (Z.leb_spec (len seg) n).
    + destruct (IH (n - len seg)) as (E & Ht & Hd & El). cbn [concat]. rewrite <- app_assoc, E, len_app, El. splits; [done|by constructor|done|lia].
    + cbn [concat]. rewrite app_nil_r, app_assoc, slice_to_from, len_slice_to by lia. splits; try done.
      * constructor; [|done]. intros E. apply (f_equal len) in E. rewrite len_slice_to, len_nil in E by lia. lia.
      * constructor; [|done]. intros E. apply (f_equal len) in E. rewrite len_slice_from, len_nil in E by lia. lia.
      * lia.
Qed.
(** What the limit keeps back. *)
Definition kept_back (limit : Z) (r : BufReader) : bytes := if src_left r <? limit then [] else concat (src_drop limit (bsrc r)).
Lemma limited_spec max limit r : buf_ok r -> bend r <> errBufferFull ->
  buf_ok (limited max limit r) /\ bend (limited max limit r) <> errBufferFull /\ pending r = pending (limited max limit r) ++ kept_back limit r
  /\ Z.min (len (pending r)) (Buffered r + limit) <= len (pending (limited max limit r)).
Proof.
  intros [Hs Hb] He. unfold limited, kept_back. destruct (Z.ltb_spec (src_left r) limit); [rewrite app_nil_r; splits; try done; lia|].
  destruct (src_split limit (bsrc r) Hs) as (E & H1 & H2 & El). unfold buf_ok, pending, Buffered, src_left in *. cbn [bbuf bsrc bend]. splits; try done.
  - by rewrite <- app_assoc, E.
  - rewrite !len_app, El. lia.
Qed.
Lemma restored_spec limit r r' : buf_ok r -> buf_ok r' -> bend r' = bend r \/ limit <= src_left r ->
  buf_ok (restored limit r r') /\ bend (restored limit r r') = bend r /\ pending (restored limit r r') = pending r' ++ kept_back limit r /\ bbuf (restored limit r r') = bbuf r'.
Proof.
  intros [Hs Hb] [Hs' Hb'] He. unfold restored, kept_back. destruct (Z.ltb_spec (src_left r) limit); [rewrite app_nil_r; splits; try done; destruct He; [done|lia]|].
  destruct (src_split limit (bsrc r) Hs) as (_ & _ & H2 & _). unfold buf_ok, pending. cbn. splits; try done; [by apply Forall_app|]. by rewrite concat_app, app_assoc.
Qed.
Lemma limited_end max limit r r' : bend r' = bend (limited max limit r) -> bend r' = bend r \/ limit <= src_left r.
Proof. unfold limited. destruct (Z.ltb_spec (src_left r) limit); [by left|by right]. Qed.
(** A head that fits in what is buffered and the limit. *)
Lemma limited_prefix max limit r p c : buf_ok r -> bend r <> errBufferFull -> pending r = p ++ c -> len p <= Buffered r + limit ->
  exists c', pending (limited max limit r) = p ++ c' /\ c = c' ++ kept_back limit r.
Proof.
  intros Hok He Hp Hl. destruct (limited_spec max limit r Hok He) as (_ & _ & E & Hlen). rewrite Hp in E, Hlen. rewrite len_app in Hlen. pose proof (len_nonneg c).
  assert (len p <= len (pending (limited max limit r))) as Hle by lia. exists (slice_from (pending (limited max limit r)) (len p)).
  assert (slice_to (pending (limited max limit r)) (len p) = p) as Ep.
  { rewrite <- (slice_to_app_l _ (kept_back limit r)) by done. rewrite <- E. by rewrite slice_to_app. }
  rewrite <- (slice_to_from (pending (limited max limit r)) (len p)) in E at 1. rewrite Ep, <- app_assoc in E. apply app_inv_head in E. split; [|done].
  rewrite <- (slice_to_from (pending (limited max limit r)) (len p)) at 1. by rewrite Ep.
Qed.

Lemma peek_response_spec max r : buf_ok r -> bend r <> errBufferFull -> exists buf err r' limit, peek_response max r = Some (buf, err, r', limit)
  /\ r' ≡ r /\ Buffered r' + limit = Buffered r + max /\ (pending r <> [] -> 0 < Buffered r + max -> err = None).
Proof.
  intros Hok He. unfold peek_response. destruct (limited_spec max max r Hok He) as (Hok1 & He1 & Hp1 & Hl1). destruct (bufio_Peek_spec (limited max max r) 1 Hok1 ltac:(done)) as (r1 & Hr1 & -> & _).
  do 4 eexists. split; [reflexivity|]. destruct Hr1 as (Hok2 & _ & Hb2 & Hp2). destruct (restored_spec max r r1 Hok Hok2 (limited_end _ _ _ _ Hb2)) as (Hok3 & Hb3 & Hp3 & _).
  rewrite Hp2, <- Hp1 in Hp3. split; [by split|]. split.
  - unfold spent, src_left, Buffered. apply (f_equal len) in Hp3. unfold pending in Hp3. rewrite !len_app in Hp3. lia.
  - intros Hne Hpos. assert (0 < len (pending r)) by (destruct (pending r) as [|x p]; [done|rewrite len_cons; pose proof (len_nonneg p); lia]). by destruct (Z.ltb_spec (len (pending (limited max max r))) 1); [lia|].
Qed.

Lemma _readResponse_head dump ct lax max limit method h c r : head_ok dump h -> buf_ok r -> bend r <> errBufferFull -> pending r = head_wire h ++ c ->
  len (head_wire h) <= Buffered r + limit ->
  exists r', buf_ok r' /\ bend r' = bend r
    /\ match head_response method h with
       | Err e => _readResponse dump ct lax max limit method r = Some (Err (e, r'))
       | Ok rr => pending r' = c
           /\ _readResponse dump ct lax max limit method r =
                Some (match readTransfer ct lax rr r' with Err e => Err (e, r') | Ok res => Ok res end)
       end.
Proof.
  intros (Hl & Hd & Hf & Hlf & Hcost) Hok0 He0 Hp0 Hfit. destruct (limited_prefix max limit r _ _ Hok0 He0 Hp0 Hfit) as (c' & Hp & ->). destruct (limited_spec max limit r Hok0 He0) as (Hok & He & _).
  unfold _readResponse, read_head, head_response, head_wire in *. rewrite <- !app_assoc in Hp.
  destruct (ReadLine_line dump _ (h_line h) _ Hok He Hl Hd Hp) as (r1 & -> & Hok1 & Hb1 & Hp1).
  destruct (parseStatusLine (h_line h)) as [[[[proto status] code] [major minor]]|e].
  2: { destruct (restored_spec limit r r1 Hok0 Hok1 (limited_end _ _ _ _ Hb1)) as (? & ? & _). by eexists. }
  destruct (ReadMIMEHeader_fields dump (h_fields h) c' r1 Hf Hlf Hcost Hok1 ltac:(congruence) Hp1) as (r2 & -> & Hok2 & Hb2 & Hp2).
  destruct (restored_spec limit r r2 Hok0 Hok2 (limited_end max limit r r2 ltac:(congruence))) as (? & ? & Hp3 & _). rewrite Hp2 in Hp3.
  exists (restored limit r r2). splits; [done|done|done|]. by destruct (readTransfer ct lax _ (restored limit r r2)) as [[? ?]|].
Qed.

(** The head keeps to the limit of the client. *)
Definition head_fits (max : Z) (h : responseHead) : Prop := len (head_wire h) <= max.
(** An informational response is read whatever its header says. *)
Definition info_ok (dump : bool) (ct : list string -> string -> bool) (lax : bool) (method : string) (h : responseHead) : Prop :=
  head_ok dump h /\ exists rr, head_response method h = Ok rr /\ 100 <= rs_StatusCode rr <= 199 /\ rs_StatusCode rr <> 101
    /\ exists r res, readTransfer ct lax rr r = Ok res.

Definition head_code (h : responseHead) : Z := match parseStatusLine (h_line h) with Ok (_, _, code, _) => code | Err _ => -1 end.
Lemma head_response_code method h rr : head_response method h = Ok rr -> rs_StatusCode rr = head_code h /\ rs_RequestMethod rr = method.
Proof. unfold head_response, head_code. destruct (parseStatusLine _) as [[[[? ?] ?] [? ?]]|]; [|done]. by intros [= <-]. Qed.

Section RoundTrip.
Context (dump : bool) (ct : list string -> string -> bool) (max : Z) (got1xx : Z -> Header -> option error) (method : string) (reqClose : bool).
Abbreviation loop := (readResponse_loop dump ct false max got1xx method reqClose).

Definition has100 (hs : list responseHead) : bool := existsb (fun h => head_code h =? 100) hs.

(** The informational responses are skipped, unless the hook stops at one. *)
Lemma readResponse_loop_infos c : forall hs fuel limit r num waiting told, Forall (info_ok dump ct false method) hs -> Forall (head_fits max) hs -> max <= Buffered r + limit ->
  buf_ok r -> bend r <> errBufferFull -> pending r = concat (head_wire <$> hs) ++ c -> num + len hs <= 5 -> (length hs < fuel)%nat ->
  (exists code h e r', got1xx code h = Some e /\ loop fuel limit r num waiting told = Some (Err (limit_error max max e, r')))
  \/ exists limit' r' fuel' num', max <= Buffered r' + limit' /\ buf_ok r' /\ bend r' = bend r /\ pending r' = c
       /\ loop fuel limit r num waiting told =
            loop (S fuel') limit' r' num' (waiting && negb (has100 hs)) (if waiting && has100 hs then Some true else told).
Proof.
  induction hs as [|h hs IH]; intros fuel limit r num waiting told Hhs Hfit Hroom Hok He Hp Hnum Hf.
  - right. destruct fuel as [|fuel]; [lia|]. exists limit, r, fuel, num. splits; try done. cbn [has100 existsb negb]. by rewrite andb_true_r, andb_false_r.
  - destruct fuel as [|fuel]; [lia|]. apply Forall_cons in Hhs as [(Hh & rr & Hrr & Hcode & Hn101 & r0 & [rr' b0] & Htr) Hhs]. apply Forall_cons in Hfit as [Hfit1 Hfit].
    cbn [fmap list_fmap concat] in Hp. rewrite <- app_assoc in Hp.
    destruct (_readResponse_head dump ct false max limit method h _ r Hh Hok He Hp ltac:(unfold head_fits in *; lia)) as (r1 & Hok1 & Hb1 & Hres). rewrite Hrr in Hres. destruct Hres as [Hp1 Hres].
    destruct (readTransfer_any_reader _ _ _ _ _ _ Htr) as (Hsc & _ & _ & Hany). destruct (Hany r1) as [b1 Htr1]. rewrite Htr1 in Hres.
    destruct (readTransfer_framing _ _ _ _ _ Htr1) as (_ & _ & _ & Hrd & _).
    destruct (head_response_code _ _ _ Hrr) as [Hc _]. rewrite Hc in Hcode, Hn101, Hsc.
    cbn [readResponse_loop]. rewrite Hres, Hsc. rewrite len_cons in Hnum. pose proof (len_nonneg hs).
    set (w1 := if waiting && (head_code h =? 100) then (false, Some true) else (waiting, told)).
    assert (w1 = (waiting && negb (head_code h =? 100), if waiting && (head_code h =? 100) then Some true else told)) as ->
      by (unfold w1; by destruct waiting, (head_code h =? 100)).
    replace ((100 <=? head_code h) && (head_code h <=? 199) && negb (head_code h =? 101)) with true
      by (symmetry; rewrite !andb_true_iff, negb_true_iff, Z.eqb_neq; lia).
    destruct (Z.ltb_spec max1xxResponses (num + 1)) as [?|_]; [unfold max1xxResponses in *; lia|].
    destruct (got1xx (head_code h) (rs_Header rr')) as [e|] eqn:Eg; [left; by exists (head_code h), (rs_Header rr'), e, (body_reader b1)|].
    rewrite Hrd. cbn [length] in Hf.
    destruct (IH fuel max r1 (num + 1) (waiting && negb (head_code h =? 100)) (if waiting && (head_code h =? 100) then Some true else told))
      as [?|(limit' & r' & fuel' & num' & Hroom' & Hok' & Hb' & Hp' & Hloop)]; try done; try lia; [pose proof (len_nonneg (bbuf r1)); unfold Buffered; lia|congruence|by left|]. right.
    exists limit', r', fuel', num'. splits; try done; [congruence|]. rewrite Hloop. cbn [has100 existsb]. fold (has100 hs).
    f_equal; by destruct waiting, (head_code h =? 100), (has100 hs).
Qed.
End RoundTrip.

(** ** Every stream is read to a result *)
Section Same.
Context (dump : bool) (ct : list string -> string -> bool) (lax : bool) (max : Z).

Lemma ReadLine_same r1 r2 : r1 ≡ r2 -> bend r1 <> errBufferFull ->
  same_post (ReadLine dump r1) (ReadLine dump r2) (fun _ r' => keeps_end r1 r').
Proof.
  intros Hr He. unfold ReadLine. destruct (readLineSlice_same dump (-1) r1 r2 Hr He) as (res & r1' & r2' & -> & -> & Hr' & Hk).
  destruct res as [l|e]; cbn iota; (eapply same_post_intro; [exact Hr'|first [exact Hk|by apply takes_keeps]]).
Qed.

Lemma read_head_same method r1 r2 : r1 ≡ r2 -> bend r1 <> errBufferFull ->
  exists res r1' r2', read_head dump method r1 = Some (res, r1') /\ read_head dump method r2 = Some (res, r2') /\ r1' ≡ r2'
    /\ match res with Ok _ => bend r1' = bend r1 | Err _ => True end.
Proof.
  intros Hr He. unfold read_head. destruct (ReadLine_same r1 r2 Hr He) as (res & r1' & r2' & -> & -> & Hr' & Hk).
  destruct res as [line|e]; [|by do 3 eexists]. destruct (parseStatusLine line) as [[[[proto status] code] [major minor]]|e]; [|by do 3 eexists].
  destruct Hk as [Hb1 _]. destruct (readMIMEHeader_same dump maxInt64 maxInt64 r1' r2' Hr' ltac:(congruence)) as ([header err] & r1'' & r2'' & E1 & E2 & Hr'' & Hb2 & _).
  unfold ReadMIMEHeader. rewrite E1, E2. destruct err as [e|]; do 3 eexists; splits; try done. congruence.
Qed.
Lemma _readResponse_ends limit method r : buf_ok r -> bend r <> errBufferFull -> exists res, _readResponse dump ct lax max limit method r = Some res
  /\ match res with Ok (rr, b) => bend (body_reader b) = bend r /\ buf_ok (body_reader b) | Err _ => True end.
Proof.
  intros Hok He. destruct (limited_spec max limit r Hok He) as (Hok1 & He1 & _). unfold _readResponse.
  destruct (read_head_same method (limited max limit r) (limited max limit r)) as (res & r1 & r2 & -> & _ & (Hok2 & _) & Hb); [by split|done|].
  destruct res as [rr|e]; [|by eexists]. destruct (restored_spec limit r r1 Hok Hok2 (limited_end _ _ _ _ Hb)) as (Hok3 & Hb3 & _).
  destruct (readTransfer ct lax rr (restored limit r r1)) as [[rr' b]|e] eqn:E; [|by eexists]. eexists. split; [done|].
  destruct (readTransfer_any_reader _ _ _ _ _ _ E) as (_ & _ & -> & _). done.
Qed.
Lemma readResponse_loop_ends got1xx method reqClose : forall fuel limit r num waiting told, buf_ok r -> bend r <> errBufferFull ->
  num <= 5 -> Z.of_nat fuel > 5 - num -> is_Some (readResponse_loop dump ct lax max got1xx method reqClose fuel limit r num waiting told).
Proof.
  induction fuel as [|fuel IH]; intros limit r num waiting told Hok He Hn Hf; cbn [readResponse_loop]; [lia|].
  destruct (_readResponse_ends limit method r Hok He) as ([[rr b]|[e r']] & -> & Hb); [|done]. destruct Hb as [Hb Hbok].
  destruct (if waiting && _ then _ else _) as [w t]. destruct ((100 <=? rs_StatusCode rr) && _ && _); [|done].
  destruct (Z.ltb_spec max1xxResponses (num + 1)); [done|]. destruct (got1xx _ _); [done|]. unfold max1xxResponses in *. apply IH; [done|congruence|lia|lia].
Qed.
(** Reading a response always comes to an end, on any stream of bytes and any
    end of the connection: after at most five informational responses there is a
    final one or an error. *)
Theorem response_read_total got1xx method reqClose continueCh limit r : buf_ok r -> bend r <> errBufferFull ->
  is_Some (readResponse dump ct lax max got1xx method reqClose continueCh limit r).
Proof. intros Hok He. by apply readResponse_loop_ends. Qed.
End Same.

(** ** A whole response *)
(** What a server sends for a request: informational responses, the final head,
    the writes of its body and its trailer. *)
Record exchange := mkExchange {
  x_method : string; x_infos : list responseHead; x_head : responseHead; x_chunks : list bytes; x_trailer : list (string * string) }.
Definition x_payload (x : exchange) : bytes := concat (x_chunks x).

(** The framing that method, status and header announce. *)
Definition announced (rr : Response) : option Framing :=
  (fun cl => rfc_framing (rs_RequestMethod rr) (rs_StatusCode rr) (te_in_force rr) cl)
  <$> declared_length (Header_values (rs_Header rr) "Content-Length").
Definition x_framing (x : exchange) : option Framing :=
  match head_response (x_method x) (x_head x) with Ok rr => announced rr | Err _ => None end.
Definition x_wire (x : exchange) : bytes :=
  concat (head_wire <$> x_infos x) ++ head_wire (x_head x)
  ++ match x_framing x with Some f => message_wire f (x_chunks x) (x_trailer x) | None => [] end.

Section Exchange.
Context (dump : bool) (ct : list string -> string -> bool) (max : Z).

(** [rr'] is the response the caller gets. *)
Definition x_response (x : exchange) (rr' : Response) : Prop :=
  exists rr, head_response (x_method x) (x_head x) = Ok rr
    /\ forall r, exists b, readTransfer ct false rr r = Ok (rr', b).
Definition exchange_ok (x : exchange) (rr' : Response) (tail : bytes) (e0 : error) : Prop :=
  Forall (info_ok dump ct false (x_method x)) (x_infos x) /\ len (x_infos x) <= 5 /\ head_ok dump (x_head x)
  /\ Forall (head_fits max) (x_infos x) /\ head_fits max (x_head x)
  /\ (head_code (x_head x) = 101 \/ ~ 100 <= head_code (x_head x) <= 199)
  /\ x_response x rr' /\ exists f, x_framing x = Some f /\ wire_ok f (x_chunks x) (x_trailer x) tail e0.

(** The body of the final response, and what [continueCh] was told. *)
Definition body_for (x : exchange) (tail : bytes) (b : respBody) : Prop :=
  match b with
  | NoBody r => buf_ok r /\ bend r <> errBufferFull /\ x_payload x = [] /\ x_trailer x = [] /\ pending r = tail
  | HasBody b => body_at b (x_payload x) (x_trailer x) tail
  end.
Definition told_of (x : exchange) (rr' : Response) (reqClose continueCh : bool) : option bool :=
  if continueCh then if has100 (x_infos x) then Some true else Some (negb (rs_Close rr' || reqClose)) else None.

Lemma readResponse_exchange got1xx reqClose continueCh x rr' tail limit r : exchange_ok x rr' tail (bend r) -> max <= Buffered r + limit ->
  buf_ok r -> bend r <> errBufferFull -> pending r = x_wire x ++ tail ->
  (exists code h e r', got1xx code h = Some e /\ readResponse dump ct false max got1xx (x_method x) reqClose continueCh limit r = Some (Err (limit_error max max e, r')))
  \/ exists b, readResponse dump ct false max got1xx (x_method x) reqClose continueCh limit r
                = Some (Ok (mkFinal rr' b (isProtocolSwitch ct rr') (told_of x rr' reqClose continueCh)))
       /\ body_for x tail b /\ bend (body_reader b) = bend r
       /\ match b with
          | NoBody _ => x_method x = "HEAD"%string \/ rs_ContentLength rr' = 0
          | HasBody b => (x_method x <> "HEAD"%string /\ rs_ContentLength rr' <> 0) /\ b_Trailer b = rs_Trailer rr'
          end.
Proof.
  intros (Hinf & Hlen & Hh & Hfits & Hfit & Hcode & (rr & Hrr & Hany) & f & Hf & Hw) Hroom Hok He Hp. unfold x_wire in Hp. rewrite Hf, <- !app_assoc in Hp.
  unfold readResponse.
  destruct (readResponse_loop_infos dump ct max got1xx (x_method x) reqClose _ (x_infos x) 6 limit r 0 continueCh None Hinf Hfits Hroom Hok He Hp) as [?|H];
    [lia|unfold len in Hlen; lia|by left|]. right. destruct H as (limit1 & r1 & fuel' & num' & Hroom1 & Hok1 & Hb1 & Hp1 & ->).
  destruct (_readResponse_head dump ct false max limit1 (x_method x) (x_head x) _ r1 Hh Hok1 ltac:(congruence) Hp1 ltac:(unfold head_fits in *; lia)) as (r2 & Hok2 & Hb2 & Hres).
  rewrite Hrr in Hres. destruct Hres as [Hp2 Hres]. destruct (Hany r2) as [b Htr]. rewrite Htr in Hres.
  destruct (readTransfer_any_reader _ _ _ _ _ _ Htr) as (Hsc & _ & Hrd & _). destruct (head_response_code _ _ _ Hrr) as [Hc Hm].
  destruct (readTransfer_framing _ _ _ _ _ Htr) as (_ & _ & (cl & Hcl & Hfr & _ & _) & _ & Hb).
  assert (body_framing b = f) as Hbf.
  { unfold x_framing, announced in Hf. rewrite Hrr, Hcl in Hf. cbn in Hf. congruence. }
  exists b. cbn [readResponse_loop]. rewrite Hres, Hsc, Hc.
  set (w1 := if _ && (head_code (x_head x) =? 100) then _ else _).
  assert (w1 = (continueCh && negb (has100 (x_infos x)), if continueCh && has100 (x_infos x) then Some true else None)) as ->.
  { unfold w1. replace (head_code (x_head x) =? 100) with false by (symmetry; apply Z.eqb_neq; lia). by rewrite andb_false_r. }
  replace ((100 <=? head_code (x_head x)) && (head_code (x_head x) <=? 199) && negb (head_code (x_head x) =? 101)) with false
    by (symmetry; rewrite !andb_false_iff, negb_false_iff, Z.eqb_eq; lia).
  split; [unfold told_of; do 3 f_equal; by destruct continueCh, (has100 _)|].
  split; [|split; [congruence|]].
  - destruct b as [r'|b]; cbn [body_reader body_for] in *.
    + subst r' f. cbn [message_wire wire_ok body_framing] in *. destruct Hw as [Hnil Htf]. splits; try done. congruence.
    + apply (fresh_body_at ct rr r2 rr'); try done; [congruence| |]; rewrite Hbf; [done|]. congruence.
  - destruct b as [r'|b]; [by rewrite Hm in Hb|]. rewrite Hm in Hb. split; apply Hb.
Qed.

(** The look at the connection before a response that is there. *)
Lemma peek_exchange x rr' tail r : exchange_ok x rr' tail (bend r) -> buf_ok r -> bend r <> errBufferFull -> pending r = x_wire x ++ tail ->
  exists buf r1 limit, peek_response max r = Some (buf, None, r1, limit) /\ buf_ok r1 /\ bend r1 = bend r /\ pending r1 = x_wire x ++ tail /\ max <= Buffered r1 + limit.
Proof.
  intros (_ & _ & _ & _ & Hfit & _) Hok He Hp. destruct (peek_response_spec max r Hok He) as (buf & err & r1 & limit & Hpk & (Hok1 & _ & Hb1 & Hp1) & Hroom & Herr).
  pose proof (len_nonneg (bbuf r)). pose proof (len_nonneg (bytes_of_string (h_line (x_head x)))). unfold head_fits, head_wire in Hfit. rewrite !len_app, !len_cons in Hfit. pose proof (len_nonneg (header_bytes (h_fields (x_head x)))).
  rewrite len_nil in Hfit. unfold Buffered in *. rewrite Herr in Hpk; [|rewrite Hp; unfold x_wire, head_wire; intros E; apply (f_equal len) in E; rewrite !len_app in E; cbn [app] in E; rewrite !len_cons, len_nil in E|lia].
  - exists buf, r1, limit. splits; try done; [congruence|lia].
  - match type of E with ?a = _ => assert (0 < a); [|lia] end. repeat match goal with |- context[len ?x] => lazymatch goal with H : 0 <= len x |- _ => fail | _ => pose proof (len_nonneg x) end end. lia.
Qed.
(** C5: response round trip. What a server sends for a request (at most five
    informational responses, a status line, header fields, a body in the framing
    they announce, written in pieces of any sizes, trailer fields), with no head larger than
    [maxHeaderResponseSize] and, when heads are dumped, no line longer than the buffer, is read at the top of the read loop as that
    final response; reading its body gives the bytes written and [io.EOF], its
    trailer fields, and leaves the connection at the next response. A request
    waiting for [100 Continue] is told to send its body when it came, or when the
    connection stays open. *)
Theorem response_roundtrip reqClose continueCh x rr' tail r rooms : exchange_ok x rr' tail (bend r) ->
  buf_ok r -> bend r <> errBufferFull -> pending r = x_wire x ++ tail -> (forall i, 0 < rooms i) ->
  exists buf r1 limit b, peek_response max r = Some (buf, None, r1, limit)
    /\ readResponse dump ct false max (fun _ _ => None) (x_method x) reqClose continueCh limit r1
       = Some (Ok (mkFinal rr' b (isProtocolSwitch ct rr') (told_of x rr' reqClose continueCh)))
    /\ match b with
       | NoBody r' => x_payload x = [] /\ pending r' = tail
       | HasBody b => exists b', body_read_all (S (left_bytes b)) b rooms = Some (x_payload x, io_EOF, b')
           /\ pending (body_reader (HasBody b')) = tail /\ b_Trailer b' = merged (rs_Trailer rr') (x_trailer x)
       end.
Proof.
  intros Hx Hok He Hp Hr. destruct (peek_exchange x rr' tail r Hx Hok He Hp) as (buf & r1 & limit & Hpk & Hok1 & Hb1 & Hp1 & Hroom). rewrite <- Hb1 in Hx, He. exists buf, r1, limit.
  destruct (readResponse_exchange (fun _ _ => None) reqClose continueCh x rr' tail limit r1 Hx Hroom Hok1 He Hp1) as [(? & ? & ? & ? & ? & _)|(b & Hrun & Hb & _ & Hk)]; [done|].
  exists b. split; [done|]. split; [done|]. destruct b as [r'|b]; cbn [body_for] in Hb; [by destruct Hb as (_ & _ & ? & _ & ?)|].
  destruct (body_read_all_at tail (x_trailer x) (S (left_bytes b)) b (x_payload x) rooms Hb Hr ltac:(lia)) as (b' & Hall & (_ & _ & _ & Hd) & Ht).
  exists b'. splits; [done|done|]. rewrite Ht. f_equal. apply Hk.
Qed.
End Exchange.

(** *** Witnesses *)
Definition continue_head : responseHead := mkHead "HTTP/1.1 100 Continue" [].
Definition ok_exchange : exchange :=
  mkExchange "GET" [continue_head]
    (mkHead "HTTP/1.1 200 OK" [("transfer-encoding", "chunked"); ("Server", "s")]%string) [[104; 105]; []; [33]] sum_fields.
(** The response the caller gets for a well-formed exchange. *)
Definition response_of (ct : list string -> string -> bool) (x : exchange) : option Response :=
  match head_response (x_method x) (x_head x) with
  | Ok rr => match readTransfer ct false rr no_reader with Ok (rr', _) => Some rr' | Err _ => None end
  | Err _ => None
  end.
Lemma response_of_reads ct x rr' : response_of ct x = Some rr' -> x_response ct x rr'.
Proof.
  unfold response_of, x_response. destruct (head_response _ _) as [rr|]; [|done].
  destruct (readTransfer ct false rr no_reader) as [[rr1 b]|] eqn:E; [|done]. intros [= <-]. exists rr. split; [done|]. intros r.
  destruct (readTransfer_any_reader _ _ _ _ _ _ E) as (_ & _ & _ & Hany). apply Hany.
Qed.
Lemma info_reads ct method h : head_ok false h -> match head_response method h with
    | Ok rr => (100 <=? rs_StatusCode rr) && (rs_StatusCode rr <=? 199) && negb (rs_StatusCode rr =? 101)
               && match readTransfer ct false rr no_reader with Ok _ => true | Err _ => false end
    | Err _ => false end = true -> info_ok false ct false method h.
Proof.
  intros Hh H. split; [done|]. destruct (head_response method h) as [rr|]; [|done]. exists rr. split; [done|].
  rewrite !andb_true_iff, !Z.leb_le, negb_true_iff, Z.eqb_neq in H. destruct H as [[H ?] Htr]. splits; try lia.
  exists no_reader. destruct (readTransfer ct false rr no_reader) as [res|]; [by exists res|done].
Qed.

Definition ok_stream : bytes := x_wire ok_exchange ++ [72; 84; 84; 80].
Lemma ok_stream_reader : buf_ok (body_reader_at ok_stream).
Proof. split; [repeat constructor; discriminate|]. vm_compute. discriminate. Qed.
(** [head_ok], decided. *)
Definition field_okb (kv : string * string) : bool :=
  negb (String.eqb kv.1 "") && forallb validHeaderFieldByte (bytes_of_string kv.1) && forallb validHeaderValueByte (bytes_of_string kv.2)
  && match head (bytes_of_string kv.2) with Some b => negb (is_space b) | None => true end
  && match last (bytes_of_string kv.2) with Some b => negb (is_space b) | None => true end.
Definition head_okb (h : responseHead) : bool :=
  forallb (fun b => negb (b =? 10)) (bytes_of_string (h_line h)) && forallb field_okb (h_fields h)
  && (fields_cost (h_fields h) <=? maxInt64 - 400).
Lemma field_ok_dec kv : field_okb kv = true -> field_ok kv.
Proof.
  unfold field_okb, field_ok. rewrite !andb_true_iff, !forallb_Forall, !negb_true_iff. intros ((((Hn & Hk) & Hv) & Hh) & Hl). splits; try done.
  - by destruct kv.1.
  - destruct (head _); [by apply negb_true_iff|done].
  - destruct (last _); [by apply negb_true_iff|done].
Qed.
Lemma head_ok_dec h : head_okb h = true -> head_ok false h.
Proof.
  unfold head_okb, head_ok. rewrite !andb_true_iff, Z.leb_le, !forallb_Forall. intros ((Hl & Hf) & Hc). splits; try done.
  - eapply Forall_impl; [exact Hl|]. intros b Hb. by apply negb_true_iff, Z.eqb_neq in Hb.
  - eapply Forall_impl; [exact Hf|]. apply field_ok_dec.
Qed.
Lemma ok_exchange_ok rr' tail : response_of no_tokens ok_exchange = Some rr' -> exchange_ok false no_tokens 4096 ok_exchange rr' tail io_EOF.
Proof.
  intros H. assert (head_ok false continue_head /\ head_ok false (x_head ok_exchange)) as [Hh1 Hh2].
  { split; apply head_ok_dec; vm_compute; reflexivity. }
  unfold exchange_ok. splits.
  - constructor; [|constructor]. apply info_reads; [exact Hh1|vm_compute; reflexivity].
  - vm_compute. discriminate.
  - exact Hh2.
  - repeat constructor. vm_compute. discriminate.
  - vm_compute. discriminate.
  - right. vm_compute. intros [_ Hc]. by apply Hc.
  - by apply response_of_reads.
  - exists FChunked. split; [vm_compute; reflexivity|]. split; [repeat constructor|exact sum_fields_ok].
Qed.

Lemma response_roundtrip_witness :
  exists rr', response_of no_tokens ok_exchange = Some rr'
    /\ exists buf r1 limit b, peek_response 4096 (body_reader_at ok_stream) = Some (buf, None, r1, limit)
       /\ readResponse false no_tokens false 4096 (fun _ _ => None) "GET" false true limit r1
         = Some (Ok (mkFinal rr' b (isProtocolSwitch no_tokens rr') (Some true)))
       /\ match b with
          | NoBody _ => False
          | HasBody b => exists b', body_read_all (S (left_bytes b)) b (fun _ => 5) = Some ([104; 105; 33], io_EOF, b')
              /\ pending (body_reader (HasBody b')) = [72; 84; 84; 80]
          end.
Proof.
  destruct (response_of no_tokens ok_exchange) as [rr'|] eqn:E; [|vm_compute in E; discriminate E]. exists rr'. split; [reflexivity|].
  destruct (response_roundtrip false no_tokens 4096 false true ok_exchange rr' [72; 84; 84; 80] (body_reader_at ok_stream) (fun _ => 5))
    as (buf & r1 & limit & b & Hpk & Hrun & Hb).
  - by apply ok_exchange_ok.
  - exact ok_stream_reader.
  - discriminate.
  - reflexivity.
  - intros _. lia.
  - exists buf, r1, limit, b. split; [exact Hpk|]. split; [exact Hrun|]. destruct b as [r'|b]; [destruct Hb as [Hb _]; vm_compute in Hb; discriminate Hb|].
    destruct Hb as (b' & Hall & Hp & _). exists b'. split; [exact Hall|exact Hp].
Defined.

(** A head above the limit is refused, with the error of the limit; what is buffered before it is looked at does not count. *)
Definition two_segments (a b : bytes) : BufReader := mkBufReader [] [a; b] io_EOF.
Example big_head_refused : let r := two_segments (slice_to ok_stream 30) (slice_from ok_stream 30) in
  match peek_response 40 r with
  | Some (_, None, r1, limit) => (limit, match readResponse false no_tokens false 40 (fun _ _ => None) "GET" false false limit r1 with Some (Err (e, _)) => Some e | _ => None end)
  | _ => (0, None)
  end = (10, Some (fmt_Errorf "net/http: server response headers exceeded %d bytes; aborted" ["40"%string])).
Proof. vm_compute. reflexivity. Qed.
Example buffered_bytes_not_counted : let r := mkBufReader ok_stream [] io_EOF in
  match peek_response 40 r with
  | Some (_, None, r1, limit) => match readResponse false no_tokens false 40 (fun _ _ => None) "GET" false false limit r1 with Some (Ok f) => rs_StatusCode (f_resp f) = 200 | _ => False end
  | _ => False
  end.
Proof. vm_compute. reflexivity. Qed.
