(* ===== verification/H1ReadLoop.v ===== *)
(** * The read loop of an HTTP/1 connection ([persistConn.readLoop])

    A connection's read loop and the callers holding the bodies it handed out, as
    a step relation: callers send requests and read or close bodies at any time,
    the loop takes a response when a request is waiting for one, and after a
    response with a body it waits for that body's end before it looks at the
    connection again. The bodies share the connection's reader with the loop. *)

From S2P Require Import Prelude.
From S2P Require Import H2Errors.
From S2P Require Import NetText.
From S2P Require Import H2Transport.
From S2P Require Import Bufio.
From S2P Require Import Chunked.
From S2P Require Import BufioLine.
From S2P Require Import TextProto.
From S2P Require Import Transfer.
From S2P Require Import TransferBody.
From S2P Require Import H1Message.

(** ** Decoding *)
(** The reader that replaces [Response.Body]; [DNil]: a nil one. *)
Inductive decoding := DPlain | DGzip | DCompress (encoding : string) | DNil.
#[export] Instance decoding_eq_dec : EqDecision decoding.
Proof. solve_decision. Defined.

Definition NewCompressReader (contentEncoding : string) : decoding :=
  if bool_decide (contentEncoding ∈ ["gzip"; "deflate"; "br"; "zstd"]%string) then DCompress contentEncoding else DNil.

(** The response and its decoding; [Uncompressed] is set unless it is [DPlain]. *)
Definition decode_response (autoDecompression addedGzip : bool) (resp : Response) : Response * decoding :=
  let uncompressed :=
    mkResponse1 (rs_Proto resp) (rs_Status resp) (rs_StatusCode resp) (rs_ProtoMajor resp) (rs_ProtoMinor resp)
      (Header_Del (Header_Del (rs_Header resp) "Content-Encoding") "Content-Length") (-1) (rs_TransferEncoding resp)
      (rs_Close resp) (rs_Trailer resp) (rs_RequestMethod resp) in
  if addedGzip && EqualFold (Header_Get (rs_Header resp) "Content-Encoding") "gzip" then (uncompressed, DGzip)
  else if autoDecompression then
    let contentEncoding := Header_Get (rs_Header resp) "Content-Encoding" in
    if negb (String.eqb contentEncoding "") then (uncompressed, NewCompressReader contentEncoding) else (resp, DPlain)
  else (resp, DPlain).

(** ** The state *)
Record request := mkRequest { q_method : string; q_close : bool; q_continue : bool; q_addedGzip : bool }.

(** A response handed to its caller; [dl_data] is what its body has delivered. *)
Record delivered := mkDelivered {
  dl_resp : Response; dl_dec : decoding; dl_es : option bodyEOFSignal; dl_data : bytes }.

(** At the top of the loop, waiting for the end of the [i]-th response's body
    ([alive]: the connection may live on), or closed. *)
Inductive phase := PTop | PBody (i : nat) (alive : bool) | PDead.

(** [ls_r] is the connection's reader while no body owns it; [ls_expected] is
    [numExpectedResponses]; [ls_sent] and [ls_log] record all requests sent and
    all responses delivered. *)
Record loopState := mkLoop {
  ls_r : BufReader; ls_phase : phase; ls_expected : Z; ls_reqch : list request;
  ls_sent : list request; ls_log : list delivered }.
Definition loop_init (r : BufReader) : loopState := mkLoop r PTop 0 [] [] [].

Definition set_entry (s : loopState) (i : nat) (d : delivered) : loopState :=
  mkLoop (ls_r s) (ls_phase s) (ls_expected s) (ls_reqch s) (ls_sent s) (<[i := d]> (ls_log s)).
Definition dead (s : loopState) : loopState := mkLoop (ls_r s) PDead (ls_expected s) (ls_reqch s) (ls_sent s) (ls_log s).

(** Whether the connection may be kept after this response. *)
Definition keepAlive (q : request) (f : final) : bool :=
  negb (rs_Close (f_resp f) || q_close q || (rs_StatusCode (f_resp f) <=? 199) || f_switched f).
Definition hasBody (q : request) (f : final) : bool :=
  negb (String.eqb (q_method q) "HEAD") && negb (rs_ContentLength (f_resp f) =? 0).

Definition is408Message (buf : bytes) : bool :=
  (12 <=? len buf) && bool_decide (slice_to buf 7 = bytes_of_string "HTTP/1.")
  && bool_decide (slice_from (slice_to buf 12) 8 = bytes_of_string " 408").
Definition errServerClosedIdle : error := errors_New "http: server closed idle connection".
(** The error the connection is closed with when the server speaks, or hangs up,
    while no response is expected. *)
Definition readLoopPeekFailLocked (r : BufReader) (peekErr : option error) : error :=
  if (0 <? Buffered r) && is408Message (bbuf r) then errServerClosedIdle
  else if bool_decide (peekErr = Some io_EOF) then errServerClosedIdle
  else fmt_Errorf "readLoopPeekFailLocked: %w" [].

Section Loop.
Context (dump : bool) (ct : list string -> string -> bool) (lax : bool) (max : Z)
  (got1xx : Z -> Header -> option error) (autoDecompression : bool).

(** The response [f] to [q], read off the connection, is delivered. The flags
    [reuse] are the outcome of [!pc.sawEOF], [pc.wroteRequest()] and
    [tryPutIdleConn]: the connection goes back to the pool. *)
Definition deliver_no_body (s : loopState) (q : request) (reqch : list request) (f : final) (reuse : bool) : loopState :=
  mkLoop (body_reader (f_body f)) (if keepAlive q f && reuse then PTop else PDead) (ls_expected s - 1) reqch (ls_sent s)
    (ls_log s ++ [mkDelivered (f_resp f) DPlain None []]).
Definition deliver_body (s : loopState) (q : request) (reqch : list request) (f : final) : loopState :=
  let es := mkBodyEOFSignal (f_body f) false None true [] in
  let '(resp, dec) := decode_response autoDecompression (q_addedGzip q) (f_resp f) in
  mkLoop (body_reader (f_body f)) (PBody (length (ls_log s)) (keepAlive q f)) (ls_expected s - 1) reqch (ls_sent s)
    (ls_log s ++ [mkDelivered resp dec (Some es) []]).

Inductive loop_step : loopState -> loopState -> Prop :=
(** [roundTrip] *)
| st_send s q : loop_step s
    (mkLoop (ls_r s) (ls_phase s) (ls_expected s + 1) (ls_reqch s ++ [q]) (ls_sent s ++ [q]) (ls_log s))
(** The read loop *)
| st_unexpected s buf err r limit : ls_phase s = PTop -> peek_response max (ls_r s) = Some (buf, err, r, limit) -> ls_expected s = 0 -> loop_step s (dead s)
| st_peek_failed s q reqch buf e r limit : ls_phase s = PTop -> peek_response max (ls_r s) = Some (buf, Some e, r, limit) -> ls_expected s <> 0 ->
    ls_reqch s = q :: reqch -> loop_step s (dead s)
| st_read_failed s q reqch buf r limit e r' : ls_phase s = PTop -> peek_response max (ls_r s) = Some (buf, None, r, limit) -> ls_expected s <> 0 ->
    ls_reqch s = q :: reqch ->
    readResponse dump ct lax max got1xx (q_method q) (q_close q) (q_continue q) limit r = Some (Err (e, r')) -> loop_step s (dead s)
| st_no_body s q reqch buf r limit f reuse : ls_phase s = PTop -> peek_response max (ls_r s) = Some (buf, None, r, limit) -> ls_expected s <> 0 ->
    ls_reqch s = q :: reqch ->
    readResponse dump ct lax max got1xx (q_method q) (q_close q) (q_continue q) limit r = Some (Ok f) ->
    negb (hasBody q f) || f_switched f = true -> loop_step s (deliver_no_body s q reqch f reuse)
| st_body s q reqch buf r limit f : ls_phase s = PTop -> peek_response max (ls_r s) = Some (buf, None, r, limit) -> ls_expected s <> 0 ->
    ls_reqch s = q :: reqch ->
    readResponse dump ct lax max got1xx (q_method q) (q_close q) (q_continue q) limit r = Some (Ok f) ->
    hasBody q f && negb (f_switched f) = true -> loop_step s (deliver_body s q reqch f)
| st_body_end s i alive d es v wait reuse : ls_phase s = PBody i alive -> ls_log s !! i = Some d -> dl_es d = Some es ->
    es_wait es = v :: wait ->
    loop_step s
      (mkLoop (body_reader (es_body es)) (if alive && v && reuse then PTop else PDead) (ls_expected s) (ls_reqch s) (ls_sent s)
         (<[i := mkDelivered (dl_resp d) (dl_dec d) (Some (mkBodyEOFSignal (es_body es) (es_closed es) (es_rerr es) (es_fn es) wait)) (dl_data d)]> (ls_log s)))
(** The caller is gone, its request was cancelled, or another goroutine closed
    the connection. *)
| st_abandoned s : loop_step s (dead s)
(** The callers; a nil body cannot be read or closed. *)
| st_read s i d es k canceled data err es' : ls_phase s <> PDead -> ls_log s !! i = Some d -> dl_es d = Some es -> dl_dec d <> DNil -> 0 < k ->
    es_Read canceled es k = Some (data, err, es') ->
    loop_step s (set_entry s i (mkDelivered (dl_resp d) (dl_dec d) (Some es') (dl_data d ++ data)))
| st_close s i d es canceled err es' : ls_phase s <> PDead -> ls_log s !! i = Some d -> dl_es d = Some es -> dl_dec d <> DNil ->
    es_Close canceled es = Some (err, es') ->
    loop_step s (set_entry s i (mkDelivered (dl_resp d) (dl_dec d) (Some es') (dl_data d))).

Definition reachable (r : BufReader) (s : loopState) : Prop := rtc loop_step (loop_init r) s.
End Loop.

(** ** Running the loop *)
Inductive act := ASend (q : request) | ATake (reuse : bool) | AEnd (reuse : bool) | ARead (i : nat) (k : Z) | AClose (i : nat).
Section Run.
Context (dump : bool) (ct : list string -> string -> bool) (lax : bool) (max : Z)
  (got1xx : Z -> Header -> option error) (autoDecompression : bool).
Definition exec (a : act) (s : loopState) : option loopState :=
  match a with
  | ASend q => Some (mkLoop (ls_r s) (ls_phase s) (ls_expected s + 1) (ls_reqch s ++ [q]) (ls_sent s ++ [q]) (ls_log s))
  | ATake reuse =>
      match ls_phase s, ls_reqch s, peek_response max (ls_r s) with
      | PTop, q :: reqch, Some (_, None, r, limit) =>
          if ls_expected s =? 0 then None else
          match readResponse dump ct lax max got1xx (q_method q) (q_close q) (q_continue q) limit r with
          | Some (Ok f) =>
              if negb (hasBody q f) || f_switched f then Some (deliver_no_body s q reqch f reuse)
              else Some (deliver_body autoDecompression s q reqch f)
          | Some (Err _) => Some (dead s)
          | None => None
          end
      | _, _, _ => None
      end
  | AEnd reuse =>
      match ls_phase s with
      | PBody i alive =>
          match ls_log s !! i with
          | Some (mkDelivered resp dec (Some es) data) =>
              match es_wait es with
              | v :: wait =>
                  Some (mkLoop (body_reader (es_body es)) (if alive && v && reuse then PTop else PDead) (ls_expected s) (ls_reqch s) (ls_sent s)
                    (<[i := mkDelivered resp dec (Some (mkBodyEOFSignal (es_body es) (es_closed es) (es_rerr es) (es_fn es) wait)) data]> (ls_log s)))
              | [] => None
              end
          | _ => None
          end
      | _ => None
      end
  | ARead i k =>
      match ls_phase s, ls_log s !! i with
      | PDead, _ => None
      | _, Some (mkDelivered resp dec (Some es) data) =>
          if bool_decide (dec = DNil) || (k <=? 0) then None else
          match es_Read None es k with
          | Some (d, _, es') => Some (set_entry s i (mkDelivered resp dec (Some es') (data ++ d)))
          | None => None
          end
      | _, _ => None
      end
  | AClose i =>
      match ls_phase s, ls_log s !! i with
      | PDead, _ => None
      | _, Some (mkDelivered resp dec (Some es) data) =>
          if bool_decide (dec = DNil) then None else
          match es_Close None es with
          | Some (_, es') => Some (set_entry s i (mkDelivered resp dec (Some es') data))
          | None => None
          end
      | _, _ => None
      end
  end.
Definition exec_all (acts : list act) (s : loopState) : option loopState := fold_left (fun s a => s ≫= exec a) acts (Some s).

Lemma exec_sound a s s' : exec a s = Some s' -> loop_step dump ct lax max got1xx autoDecompression s s'.
Proof.
  destruct a as [q|reuse|reuse|i k|i]; cbn [exec].
  - intros [= <-]. apply st_send.
  - destruct (ls_phase s) eqn:Hp; [|done..]. destruct (ls_reqch s) as [|q reqch] eqn:Hq; [done|].
    destruct (peek_response max (ls_r s)) as [[[[buf [e|]] r] limit]|] eqn:Hk; [done| |done]. destruct (Z.eqb_spec (ls_expected s) 0); [done|].
    destruct (readResponse _ _ _ _ _ _ _ _ _ r) as [[f|[e r']]|] eqn:Hr; [| |done].
    + destruct (negb (hasBody q f) || f_switched f) eqn:Hb; intros [= <-]; [by eapply st_no_body|].
      eapply st_body; try done. apply orb_false_iff in Hb as [Hb ->]. by apply negb_false_iff in Hb as ->.
    + intros [= <-]. by eapply st_read_failed.
  - destruct (ls_phase s) as [|i alive|] eqn:Hp; [done| |done]. destruct (ls_log s !! i) as [[resp dec [es|] data]|] eqn:Hl; [|done|done].
    destruct (es_wait es) as [|v wait] eqn:Hw; [done|]. intros [= <-].
    by apply (st_body_end _ _ _ _ _ _ s i alive (mkDelivered resp dec (Some es) data) es v wait reuse).
  - destruct (ls_log s !! i) as [[resp dec [es|] data]|] eqn:Hl; [|by destruct (ls_phase s)..].
    destruct (ls_phase s) eqn:Hp; [| |done].
    all: destruct (bool_decide_reflect (dec = DNil)); [done|]; destruct (Z.leb_spec k 0); [done|]; cbn [orb].
    all: destruct (es_Read None es k) as [[[d err] es']|] eqn:Hr; [|done]; intros [= <-].
    all: apply (st_read _ _ _ _ _ _ s i (mkDelivered resp dec (Some es) data) es k None d err es'); try done; congruence.
  - destruct (ls_log s !! i) as [[resp dec [es|] data]|] eqn:Hl; [|by destruct (ls_phase s)..].
    destruct (ls_phase s) eqn:Hp; [| |done].
    all: destruct (bool_decide_reflect (dec = DNil)); [done|].
    all: destruct (es_Close None es) as [[err es']|] eqn:Hr; [|done]; intros [= <-].
    all: apply (st_close _ _ _ _ _ _ s i (mkDelivered resp dec (Some es) data) es None err es'); try done; congruence.
Qed.
Lemma exec_all_sound acts : forall s s', exec_all acts s = Some s' -> rtc (loop_step dump ct lax max got1xx autoDecompression) s s'.
Proof.
  assert (forall l, fold_left (fun s a => s ≫= exec a) l None = None) as Hn by (intros l; induction l as [|b l IHl]; [done|exact IHl]).
  induction acts as [|a acts IH]; intros s s'; unfold exec_all; cbn [fold_left].
  - intros [= <-]. done.
  - cbn [mbind option_bind]. destruct (exec a s) as [s1|] eqn:E; [|by rewrite Hn]. intros H. eapply rtc_l; [eapply exec_sound; exact E|]. by apply IH.
Qed.
End Run.

(** ** Bodies, on any stream *)
Lemma Peek_short r k buf e r' : 0 <= k -> bufio_Peek r k = Some (buf, Some e, r') -> k <= bufsize -> len buf < k.
Proof.
  unfold bufio_Peek. destruct (bufio_fill _ r k) as [[r1 ended]|]; [|done]. intros Hk H Hle.
  destruct (Z.ltb_spec bufsize k); [lia|]. destruct (Z.leb_spec k (Buffered r1)); [done|]. injection H as <- _ _. unfold Buffered in *. lia.
Qed.

Lemma readTrailer_not_eof tr r tr' r' : readTrailer tr r <> Some (Some io_EOF, tr', r').
Proof.
  unfold readTrailer. destruct (bufio_Peek r 2) as [[[buf err] r1]|] eqn:Ep; [|done]. destruct (bool_decide (buf = singleCRLF)); [done|].
  destruct (Z.ltb_spec (len buf) 2); [done|]. destruct err as [e|]; [apply Peek_short in Ep; [lia|done|done]|]. cbn [is_set].
  destruct (seeUpcomingDoubleCRLF r1) as [[[|] r2]|]; [|done|done]. destruct (ReadMIMEHeader false r2) as [[[hdr [e|]] r3]|]; [|done|done].
  destruct (decide (e = io_EOF)) as [->|He]; [by rewrite bool_decide_true|]. rewrite bool_decide_false by done. congruence.
Qed.

(** A body that has said [io.EOF] does not touch the connection again. *)
Lemma body_Read_eof b k d b' : body_Read b k = Some (d, Some io_EOF, b') -> b_sawEOF b' = true.
Proof.
  unfold body_Read, readLocked. destruct (b_closed b); [done|]. destruct (b_sawEOF b) eqn:Es; [by intros [= _ <-]|].
  destruct (src_Read (b_src b) k) as [[[d0 err] src]|]; [|done]. destruct (bool_decide_reflect (err = Some io_EOF)) as [He|He].
  - destruct (b_hdr b).
    + destruct (readTrailer (b_Trailer b) (src_reader src)) as [[[[e|] tr] r]|] eqn:Et; [|by intros [= _ <-]|done].
      intros [= _ -> _]. by apply readTrailer_not_eof in Et.
    + by intros [= _ _ <-].
  - match goal with |- context [if ?x then Some io_EOF else err] => destruct x end; [by intros [= _ <-]|]. intros [= _ -> _]. done.
Qed.

Definition quiet (b : respBody) : Prop := match b with NoBody _ => True | HasBody b => b_sawEOF b = true end.
Lemma respBody_Read_eof b k d b' : respBody_Read b k = Some (d, Some io_EOF, b') -> quiet b'.
Proof.
  destruct b as [r|b]; cbn; [by intros [= _ <-]|]. destruct (body_Read b k) as [[[d0 e] b0]|] eqn:E; [|done]. intros [= -> -> <-].
  by apply body_Read_eof in E.
Qed.
Lemma respBody_Close_quiet b : quiet b -> exists b', respBody_Close b = Some (None, b') /\ quiet b' /\ body_reader b' = body_reader b.
Proof.
  destruct b as [r|b]; cbn; [by eexists|]. intros Hs. unfold body_Close. destruct (b_closed b); [by eexists|]. rewrite Hs.
  eexists. split; [reflexivity|]. done.
Qed.

(** ** What the signal keeps *)
Definition es_live (es : bodyEOFSignal) : Prop := es_closed es = false /\ es_rerr es = None /\ es_wait es = [].
Definition sends_left (es : bodyEOFSignal) : nat := (if es_fn es then 1 else 0) + (if es_closed es then 0 else 1).
Record es_inv (es : bodyEOFSignal) : Prop := {
  esi_fn : es_fn es = negb (is_set (es_rerr es));
  esi_budget : (length (es_wait es) + sends_left es <= 2)%nat;
  esi_true : true ∈ es_wait es -> es_rerr es = Some io_EOF;
  esi_quiet : es_rerr es = Some io_EOF -> quiet (es_body es) }.

Lemma es_Read_inv canceled es k d err es' : es_inv es -> es_Read canceled es k = Some (d, err, es') ->
  es_inv es' /\ (es_live es \/ es_wait es <> [] -> es_live es' \/ es_wait es' <> [])
  /\ (es_rerr es = Some io_EOF -> es' = es /\ d = [] /\ is_set err = true).
Proof.
  intros Hi. pose proof Hi as [Hfn Hb Ht Hq]. unfold es_Read. destruct (es_closed es) eqn:Hc; [by intros [= <- <- <-]|].
  destruct (es_rerr es) as [e|] eqn:Hr; [intros [= <- <- <-]; splits; done|].
  destruct (respBody_Read (es_body es) k) as [[[d0 [e|]] b]|] eqn:Eb; [| |done].
  - unfold condfn. cbn. rewrite Hfn. cbn [is_set negb]. intros [= <- <- <-]. split; [|split; [|done]].
    + split; cbn; [done| | |].
      * unfold sends_left in *. rewrite Hfn, Hc in Hb. rewrite length_app. cbn in *. lia.
      * rewrite elem_of_app, list_elem_of_singleton. intros [Hw|H]; [discriminate (Ht Hw)|]. symmetry in H. by apply bool_decide_eq_true in H.
      * intros [= ->]. by apply respBody_Read_eof in Eb.
    + intros _. right. cbn. by destruct (es_wait es).
  - intros [= <- <- <-]. split; [split; cbn; try done; unfold sends_left in *; by rewrite Hc in Hb|]. split; [|done]. intros [(? & _ & Hw)|?]; [by left|by right].
Qed.

Lemma es_Close_inv canceled es err es' : es_inv es -> es_Close canceled es = Some (err, es') ->
  es_inv es' /\ (es_live es \/ es_wait es <> [] -> es_live es' \/ es_wait es' <> [])
  /\ es_rerr es' = es_rerr es
  /\ (es_rerr es = Some io_EOF -> body_reader (es_body es') = body_reader (es_body es)).
Proof.
  intros Hi. pose proof Hi as [Hfn Hb Ht Hq]. unfold es_Close. destruct (es_closed es) eqn:Hc; [by intros [= <- <-]|]. cbn [es_rerr es_body es_wait es_fn es_closed].
  destruct (bool_decide_reflect (es_rerr es <> Some io_EOF)) as [Hr|Hr].
  - intros [= <- <-]. split; [|split; [|done]]; cbn.
    + split; cbn; try done.
      * unfold sends_left in *. rewrite Hc in Hb. cbn. rewrite length_app. cbn. lia.
      * rewrite elem_of_app, list_elem_of_singleton. intros [?|?]; [by apply Ht|done].
    + intros _. right. by destruct (es_wait es).
  - destruct (decide (es_rerr es = Some io_EOF)) as [Hr'|Hr']; [|done]. destruct (respBody_Close_quiet (es_body es) (Hq Hr')) as (b' & -> & Hqb & Hrb).
    unfold condfn. cbn [es_fn]. rewrite Hfn, Hr'. cbn [is_set negb]. intros [= <- <-]. split; [|split; [|done]].
    + split; cbn; try done. unfold sends_left in *. rewrite Hc in Hb. cbn. rewrite Hfn, Hr' in Hb. cbn in Hb. lia.
    + intros [(_ & ? & _)|Hw]; [congruence|by right].
Qed.

(** ** The loop, on any stream *)
Definition entry_es (s : loopState) (i : nat) : option bodyEOFSignal := ls_log s !! i ≫= dl_es.
Record loop_inv (s : loopState) : Prop := {
  li_es : forall i es, entry_es s i = Some es -> es_inv es;
  li_body : forall i alive, ls_phase s = PBody i alive -> S i = length (ls_log s)
    /\ exists es, entry_es s i = Some es /\ (es_live es \/ es_wait es <> []);
  li_past : ls_phase s <> PDead -> forall i es, entry_es s i = Some es -> (forall alive, ls_phase s <> PBody i alive) ->
    es_rerr es = Some io_EOF }.

Lemma entry_es_insert s i d j d0 : ls_log s !! i = Some d0 ->
  (<[i := d]> (ls_log s)) !! j ≫= dl_es = if decide (i = j) then dl_es d else entry_es s j.
Proof.
  intros Hi. destruct (decide (i = j)) as [<-|Hij].
  - rewrite list_lookup_insert_eq by (by eapply lookup_lt_Some). done.
  - by rewrite list_lookup_insert_ne.
Qed.
Lemma entry_es_app s j d : (ls_log s ++ [d]) !! j ≫= dl_es = if decide (j = length (ls_log s)) then dl_es d else entry_es s j.
Proof.
  unfold entry_es. destruct (decide (j = length (ls_log s))) as [->|Hj].
  - by rewrite list_lookup_middle.
  - destruct (decide (j < length (ls_log s))%nat); [by rewrite lookup_app_l|].
    rewrite !(lookup_ge_None_2 _ j); [done|lia|]. rewrite length_app. cbn. lia.
Qed.
Lemma entry_es_len s i es : entry_es s i = Some es -> (i < length (ls_log s))%nat.
Proof. unfold entry_es. destruct (ls_log s !! i) eqn:E; [|done]. intros _. by eapply lookup_lt_Some. Qed.

(** A caller's step on entry [i]. *)
Lemma loop_inv_entry s i d es es' data : loop_inv s -> ls_phase s <> PDead -> ls_log s !! i = Some d -> dl_es d = Some es ->
  es_inv es' -> (es_live es \/ es_wait es <> [] -> es_live es' \/ es_wait es' <> []) -> (es_rerr es = Some io_EOF -> es_rerr es' = Some io_EOF) ->
  loop_inv (set_entry s i (mkDelivered (dl_resp d) (dl_dec d) (Some es') data)).
Proof.
  intros [H1 H2 H3] Hd Hi Hes Hinv Hlive Hr. assert (entry_es s i = Some es) as Ei by (unfold entry_es; by rewrite Hi).
  split; unfold entry_es at 1; cbn [set_entry ls_log ls_phase].
  - intros j es1. rewrite (entry_es_insert s i _ j d Hi). destruct (decide (i = j)) as [<-|]; [by intros [= <-]|apply H1].
  - intros j alive Hp. rewrite length_insert. destruct (H2 j alive Hp) as (Hl & es1 & He1 & Hw). split; [done|].
    unfold entry_es. cbn [ls_log]. rewrite (entry_es_insert s i _ j d Hi). destruct (decide (i = j)) as [<-|]; [|by exists es1].
    cbn. eexists. split; [reflexivity|]. apply Hlive. by rewrite Ei in He1; injection He1 as ->.
  - intros _ j es1. rewrite (entry_es_insert s i _ j d Hi). destruct (decide (i = j)) as [<-|]; [|apply (H3 Hd)].
    cbn. intros [= <-] Hp. apply Hr. by eapply H3.
Qed.

Section Inv.
Context (dump : bool) (ct : list string -> string -> bool) (lax : bool) (max : Z)
  (got1xx : Z -> Header -> option error) (autoDecompression : bool).
Abbreviation step := (loop_step dump ct lax max got1xx autoDecompression).

Lemma loop_inv_dead s : loop_inv s -> loop_inv (dead s).
Proof. intros [H1 H2 H3]. by split. Qed.

Lemma fresh_es_inv b : es_inv (mkBodyEOFSignal b false None true []).
Proof. split; cbn; try done. by intros ?%elem_of_nil. Qed.

Lemma loop_inv_step s s' : loop_inv s -> step s s' -> loop_inv s'.
Proof.
  intros Hinv Hs. pose proof Hinv as [H1 H2 H3].
  destruct Hs as [s q|s buf err r limit Hp _ _|s q reqch buf e r limit Hp _ _ _|s q reqch buf r limit e r' Hp _ _ _ _|s q reqch buf r limit f reuse Hp _ _ _ _ _
    |s q reqch buf r limit f Hp _ _ _ _ _|s i alive d es v wait reuse Hp Hi Hes Hw|s|s i d es k canceled data err es' Hp Hi Hes Hdec Hk Hrun
    |s i d es canceled err es' Hp Hi Hes Hdec Hrun].
  - by split.
  - by apply loop_inv_dead.
  - by apply loop_inv_dead.
  - by apply loop_inv_dead.
  - unfold deliver_no_body. split; unfold entry_es; cbn [ls_log ls_phase].
    + intros j es. rewrite entry_es_app. destruct (decide _); [done|apply H1].
    + intros j alive. by destruct (keepAlive q f && reuse).
    + intros _ j es. rewrite entry_es_app. destruct (decide _); [done|]. intros He _. apply (H3 ltac:(congruence) j es He). congruence.
  - unfold deliver_body. destruct (decode_response _ _ _) as [resp dec]. split; unfold entry_es; cbn [ls_log ls_phase].
    + intros j es. rewrite entry_es_app. destruct (decide _); [intros [= <-]; apply fresh_es_inv|apply H1].
    + intros j alive [= <- _]. rewrite length_app, entry_es_app, decide_True by done. cbn. split; [lia|]. eexists. split; [reflexivity|]. by left.
    + intros _ j es. rewrite entry_es_app. destruct (decide _) as [->|]; [intros _ Hne; by edestruct Hne|].
      intros He _. apply (H3 ltac:(congruence) j es He). congruence.
  - assert (entry_es s i = Some es) as Ei by (unfold entry_es; by rewrite Hi). pose proof (H1 i es Ei) as [Hfn Hb Ht Hq]. rewrite Hw in *.
    assert (es_inv (mkBodyEOFSignal (es_body es) (es_closed es) (es_rerr es) (es_fn es) wait)) as Hinv'.
    { split; cbn; try done; [unfold sends_left in *; cbn in *; lia|]. intros Hin. apply Ht. by right. }
    destruct (H2 i alive Hp) as [Hlen _].
    split; unfold entry_es; cbn [ls_log ls_phase].
    + intros j es1. rewrite (entry_es_insert s i _ j d Hi). destruct (decide (i = j)); [by intros [= <-]|apply H1].
    + intros j a. by destruct (alive && v && reuse).
    + intros Hnd j es1. rewrite (entry_es_insert s i _ j d Hi). destruct (decide (i = j)) as [<-|Hij].
      * cbn. intros [= <-] _. cbn. apply Ht. destruct alive, v, reuse; cbn in Hnd; try done. by left.
      * intros He _. apply (H3 ltac:(congruence) j es1 He). intros a. rewrite Hp. congruence.
  - by apply loop_inv_dead.
  - assert (entry_es s i = Some es) as Ei by (unfold entry_es; by rewrite Hi).
    destruct (es_Read_inv _ _ _ _ _ _ (H1 i es Ei) Hrun) as (Hi' & Hl & He). apply (loop_inv_entry s i d es); try done.
    intros Hr. by destruct (He Hr) as [-> _].
  - assert (entry_es s i = Some es) as Ei by (unfold entry_es; by rewrite Hi).
    destruct (es_Close_inv _ _ _ _ (H1 i es Ei) Hrun) as (Hi' & Hl & He & _). apply (loop_inv_entry s i d es); try done. congruence.
Qed.

Lemma loop_inv_reachable r s : reachable dump ct lax max got1xx autoDecompression r s -> loop_inv s.
Proof.
  intros H. unfold reachable in H. remember (loop_init r) as s0 eqn:E0.
  assert (loop_inv s0) as Hi by (subst s0; split; unfold entry_es; cbn; done). clear E0.
  induction H as [|s0 s1 s2 Hst _ IH]; [done|]. apply IH. by eapply loop_inv_step.
Qed.

(** A connection that is back in use is out of the reach of earlier responses.
    Whatever the server sent, in every reachable state in which the connection is
    open, each body already handed out, except the one the loop waits for, has
    reported [io.EOF]: reading it again gives no bytes and an error, and closing it
    leaves the connection's reader where it is. *)
Theorem finished_bodies_detached r s i es canceled k : reachable dump ct lax max got1xx autoDecompression r s ->
  ls_phase s <> PDead -> entry_es s i = Some es -> (forall alive, ls_phase s <> PBody i alive) ->
  (exists e, es_Read canceled es k = Some ([], Some e, es))
  /\ exists es', es_Close canceled es = Some (None, es') /\ body_reader (es_body es') = body_reader (es_body es).
Proof.
  intros Hr Hd Hi Hp. destruct (loop_inv_reachable _ _ Hr) as [H1 _ H3]. pose proof (H3 Hd i es Hi Hp) as He. pose proof (H1 i es Hi) as Hinv.
  split.
  - unfold es_Read. destruct (es_closed es); [by eexists|]. rewrite He. by eexists.
  - unfold es_Close. destruct (es_closed es); [by eexists|]. cbn [es_rerr es_body]. rewrite bool_decide_false by naive_solver.
    destruct (respBody_Close_quiet (es_body es) (esi_quiet _ Hinv He)) as (b' & -> & _ & Hrb). unfold condfn. cbn [es_fn].
    rewrite (esi_fn _ Hinv), He. cbn. by eexists.
Qed.

(** The hand-over of the end of a body neither blocks nor gets lost. In every
    reachable state a body has room for the values it can still send on
    [waitForBodyRead], a channel of capacity two; and once the caller has seen an
    error or has closed the body the loop waits for, a value is waiting for the
    loop, which can go on. *)
Theorem body_end_is_signalled r s : reachable dump ct lax max got1xx autoDecompression r s ->
  (forall i es, entry_es s i = Some es -> (length (es_wait es) + sends_left es <= 2)%nat)
  /\ forall i alive, ls_phase s = PBody i alive -> exists es, entry_es s i = Some es
       /\ (es_closed es = true \/ is_set (es_rerr es) = true -> exists s', step s s' /\ forall j a, ls_phase s' <> PBody j a).
Proof.
  intros Hr. destruct (loop_inv_reachable _ _ Hr) as [H1 H2 _]. split; [intros i es Hi; apply (H1 i es Hi)|].
  intros i alive Hp. destruct (H2 i alive Hp) as (_ & es & Hi & Hw). exists es. split; [done|]. intros Hover.
  destruct Hw as [(Hc & He & _)|Hw]; [rewrite Hc, He in Hover; by destruct Hover|].
  destruct (es_wait es) as [|v wait] eqn:Ew; [done|]. unfold entry_es in Hi. destruct (ls_log s !! i) as [d|] eqn:El; [|done]. cbn in Hi.
  eexists. split; [by apply (st_body_end _ _ _ _ _ _ s i alive d es v wait true)|]. intros j a. cbn. by destruct (alive && v && true).
Qed.

(** A body that no reader decodes. When [AutoDecompression] is set and the
    response names an encoding other than the four that are known, the caller gets
    a nil body, which it can neither read nor close: whatever callers do, the loop
    waits for that body, and the connection is held, until somebody closes it or
    the request is cancelled. *)
Theorem unknown_encoding_holds_connection s q reqch f enc s' :
  hasBody q f = true -> q_addedGzip q = false -> autoDecompression = true -> Header_Get (rs_Header (f_resp f)) "Content-Encoding" = enc ->
  enc ∉ [""; "gzip"; "deflate"; "br"; "zstd"]%string ->
  rtc step (deliver_body autoDecompression s q reqch f) s' ->
  ls_phase s' = PBody (length (ls_log s)) (keepAlive q f) \/ ls_phase s' = PDead.
Proof.
  intros _ Hg Ha He Hn Hs. set (n := length (ls_log s)).
  assert (forall s1 s2, rtc step s1 s2 ->
    ls_phase s1 = PDead \/ ls_phase s1 = PBody n (keepAlive q f) /\ (exists d es, ls_log s1 !! n = Some d /\ dl_dec d = DNil /\ dl_es d = Some es /\ es_wait es = []) ->
    ls_phase s2 = PDead \/ ls_phase s2 = PBody n (keepAlive q f) /\ (exists d es, ls_log s2 !! n = Some d /\ dl_dec d = DNil /\ dl_es d = Some es /\ es_wait es = [])) as Hrun.
  { clear. induction 1 as [|s1 s2 s3 Hst _ IH]; [done|]. intros H. apply IH. clear IH.
    destruct H as [Hd|(Hp & d & es & Hl & Hdec & Hes & Hw)].
    - left. destruct Hst; cbn; congruence.
    - destruct Hst as [| | | | | |s1 i alive d1 es1 v wait reuse Hp1 Hi1 Hes1 Hw1| |s1 i d1 es1 k canceled data err es1' Hp1 Hi1 Hes1 Hd1 Hk1 Hr1
        |s1 i d1 es1 canceled err es1' Hp1 Hi1 Hes1 Hd1 Hr1]; try congruence; try by left.
      + right. split; [done|]. by exists d, es.
      + right. split; [done|]. cbn. assert (i <> n) by (intros ->; congruence). rewrite list_lookup_insert_ne by done. by exists d, es.
      + right. split; [done|]. cbn. assert (i <> n) by (intros ->; congruence). rewrite list_lookup_insert_ne by done. by exists d, es. }
  destruct (Hrun _ _ Hs) as [?|[? _]]; [|by right|by left]. right.
  unfold deliver_body, decode_response. rewrite Hg, He, Ha. cbn [andb]. destruct (String.eqb_spec enc "") as [->|Hne]; [by destruct Hn; left|]. cbn [negb].
  split; [done|]. cbn [ls_log]. unfold n. rewrite list_lookup_middle by done. do 2 eexists. split; [reflexivity|]. split; [|done].
  cbn. unfold NewCompressReader. rewrite bool_decide_false; [done|]. intros Hin. apply Hn. by right.
Qed.
End Inv.

(** *** Witnesses: a chunked response read to its end, then the next request *)
Definition get_request : request := mkRequest "GET" false false false.
Definition two_response_reader : BufReader := body_reader_at (x_wire ok_exchange ++ x_wire ok_exchange).
Definition run_two (acts : list act) : option loopState :=
  exec_all false no_tokens false 4096 (fun _ _ => None) true acts (loop_init two_response_reader).
Definition first_read : list act := [ASend get_request; ATake true; ARead 0 2; ARead 0 2; ARead 0 2; ARead 0 2].
Definition second_sent : list act := first_read ++ [AEnd true; ASend get_request; ATake true; ARead 0 5; AClose 0; ARead 1 2].
Lemma run_two_reachable acts s : run_two acts = Some s ->
  reachable false no_tokens false 4096 (fun _ _ => None) true two_response_reader s.
Proof. apply exec_all_sound. Qed.

Lemma finished_bodies_detached_witness :
  exists s es, run_two second_sent = Some s /\ ls_phase s = PBody 1 true /\ entry_es s 0 = Some es
    /\ exists e, es_Read None es 7 = Some ([], Some e, es).
Proof.
  assert (match run_two second_sent with
          | Some s => ls_phase s = PBody 1 true /\ is_set (entry_es s 0) = true | None => False end) as Hs by (vm_compute; split; reflexivity).
  destruct (run_two second_sent) as [s|] eqn:E; [|destruct Hs]. destruct Hs as [Hp He].
  destruct (entry_es s 0) as [es|] eqn:Ee; [|discriminate He]. exists s, es. splits; [reflexivity|exact Hp|exact Ee|].
  apply (finished_bodies_detached false no_tokens false 4096 (fun _ _ => None) true two_response_reader s 0 es None 7);
    [eapply run_two_reachable; exact E|rewrite Hp; discriminate|exact Ee|intros alive Hq; rewrite Hp in Hq; discriminate Hq].
Defined.

Lemma body_end_is_signalled_witness :
  exists s es, run_two first_read = Some s /\ ls_phase s = PBody 0 true /\ entry_es s 0 = Some es /\ es_rerr es = Some io_EOF
    /\ exists s', loop_step false no_tokens false 4096 (fun _ _ => None) true s s' /\ forall j a, ls_phase s' <> PBody j a.
Proof.
  assert (match run_two first_read with
          | Some s => ls_phase s = PBody 0 true /\ match entry_es s 0 with Some es => es_rerr es = Some io_EOF | None => False end
          | None => False end) as Hs by (vm_compute; split; reflexivity).
  destruct (run_two first_read) as [s|] eqn:E; [|destruct Hs]. destruct Hs as [Hp He].
  destruct (body_end_is_signalled false no_tokens false 4096 (fun _ _ => None) true two_response_reader s) as [_ Hb]; [eapply run_two_reachable; exact E|].
  destruct (Hb 0%nat true Hp) as (es & Hes & Hgo). rewrite Hes in He. exists s, es. splits; [reflexivity|exact Hp|exact Hes|exact He|].
  apply Hgo. right. by rewrite He.
Defined.

Definition unknown_final : final :=
  mkFinal (mkResponse1 "HTTP/1.1" "200 OK" 200 1 1 {["Content-Encoding"%string := ["lzma"%string]]} 9 [] false None "GET")
    (HasBody (mkBody (SrcLimited two_response_reader 9) false false false false None)) false None.
Lemma unknown_encoding_holds_connection_witness :
  ls_phase (dead (deliver_body true (loop_init two_response_reader) get_request [] unknown_final)) = PBody 0 true
  \/ ls_phase (dead (deliver_body true (loop_init two_response_reader) get_request [] unknown_final)) = PDead.
Proof.
  apply (unknown_encoding_holds_connection false no_tokens false 4096 (fun _ _ => None) true (loop_init two_response_reader) get_request [] unknown_final "lzma").
  - reflexivity.
  - reflexivity.
  - reflexivity.
  - vm_compute. reflexivity.
  - set_solver.
  - eapply rtc_l; [apply st_abandoned|]. apply rtc_refl.
Defined.
