(* ===== verification/H1Exchange.v ===== *)
(** * Requests and responses of an HTTP/1 connection are matched

    When the server answers the requests of a connection in order, with
    well-formed responses, the read loop hands the [i]-th response to the [i]-th
    request, with the bytes of its own body, and looks for the next response at
    the first byte after it. *)

From S2P Require Import Prelude.
From S2P Require Import H2Errors.
From S2P Require Import NetText.
From S2P Require Import H2Transport.
From S2P Require Import Bufio.
From S2P Require Import Chunked.
From S2P Require Import BufioLine.
From S2P Require Import TextProto.
From S2P Require Import Transfer.
From S2P Require Import TransferBody.
From S2P Require Import H1Message.
From S2P Require Import H1ReadLoop.

Section Script.
Context (dump : bool) (ct : list string -> string -> bool) (max : Z)
  (got1xx : Z -> Header -> option error) (autoDecompression : bool).
(** The exchanges of the connection, what follows them, how the connection ends. *)
Context (xs : list exchange) (tail : bytes) (e0 : error).
Abbreviation step := (loop_step dump ct false max got1xx autoDecompression).
Abbreviation reach := (reachable dump ct false max got1xx autoDecompression).

Definition rest_wire (n : nat) : bytes := concat (x_wire <$> drop n xs) ++ tail.
Definition script_ok : Prop := forall i x, xs !! i = Some x -> exists rr', exchange_ok dump ct max x rr' (rest_wire (S i)) e0.
(** The requests sent are the ones these exchanges answer. *)
Definition methods_match (s : loopState) : Prop := q_method <$> ls_sent s `prefix_of` x_method <$> xs.

(** ** A body in the hands of its caller *)
Definition sig_ok (es : bodyEOFSignal) (x : exchange) (tl data : bytes) : Prop :=
  exists b, es_body es = HasBody b
    /\ ((es_live es /\ exists p, x_payload x = data ++ p /\ body_at b p (x_trailer x) tl /\ bend (src_reader (b_src b)) = e0)
        \/ (es_rerr es = Some io_EOF /\ data = x_payload x /\ body_done b tl /\ bend (src_reader (b_src b)) = e0)
        \/ (es_closed es = true /\ es_rerr es = None /\ data `prefix_of` x_payload x)).

Lemma es_Read_sig canceled es x tl data k d err es' : es_inv es -> sig_ok es x tl data -> 0 < k ->
  es_Read canceled es k = Some (d, err, es') -> sig_ok es' x tl (data ++ d).
Proof.
  intros Hinv (b & Hb & Hcase) Hk Hrun. destruct Hcase as [((Hc & Hr & Hw) & p & Hp & Hat & He)|[(Hr & -> & Hd)|(Hc & Hr & Hp)]].
  - unfold es_Read in Hrun. rewrite Hc, Hr, Hb in Hrun. cbn [respBody_Read] in Hrun.
    destruct (body_Read_step b p (x_trailer x) tl k Hat Hk) as (d1 & err1 & b1 & E & _ & Hbe & Hres). rewrite E in Hrun. destruct err1 as [e1|].
    + destruct Hres as (-> & -> & Hd & _). unfold condfn in Hrun. cbn in Hrun. rewrite (esi_fn _ Hinv), Hr in Hrun. cbn in Hrun.
      injection Hrun as <- <- <-. exists b1. split; [done|]. right; left. splits; [done|by rewrite Hp|done|congruence].
    + destruct Hres as (_ & _ & _ & _ & p' & -> & Hat'). injection Hrun as <- <- <-. exists b1. split; [done|]. left. split; [by split|].
      exists p'. splits; [by rewrite Hp, app_assoc|done|congruence].
  - destruct (es_Read_inv _ _ _ _ _ _ Hinv Hrun) as (_ & _ & He). destruct (He Hr) as (-> & -> & _). rewrite app_nil_r.
    exists b. split; [done|]. right; left. done.
  - unfold es_Read in Hrun. rewrite Hc in Hrun. injection Hrun as <- <- <-. rewrite app_nil_r. exists b. split; [done|]. right; right. done.
Qed.

Lemma es_Close_sig canceled es x tl data err es' : es_inv es -> sig_ok es x tl data ->
  es_Close canceled es = Some (err, es') -> sig_ok es' x tl data.
Proof.
  intros Hinv Hsig Hrun. pose proof Hsig as (b & Hb & Hcase). unfold es_Close in Hrun. destruct (es_closed es) eqn:Hc.
  { injection Hrun as <- <-. exact Hsig. }
  cbn [es_rerr es_body es_wait es_fn es_closed] in Hrun. destruct Hcase as [((_ & Hr & _) & p & Hp & Hat & He)|[(Hr & -> & Hd & He)|(Hc' & _)]]; [| |congruence].
  - rewrite Hr, bool_decide_true in Hrun by done. injection Hrun as <- <-. exists b. split; [done|]. right; right. splits; try done.
    rewrite Hp. by apply prefix_app_r.
  - rewrite Hr, bool_decide_false, Hb in Hrun by naive_solver. cbn [respBody_Close] in Hrun. pose proof Hd as (Hsaw & Hrest).
    unfold body_Close in Hrun. unfold condfn in Hrun. cbn [es_fn] in Hrun. rewrite (esi_fn _ Hinv), Hr in Hrun. cbn [is_set negb] in Hrun.
    destruct (b_closed b).
    + injection Hrun as <- <-. exists b. split; [done|]. right; left. done.
    + rewrite Hsaw in Hrun. injection Hrun as <- <-. eexists. split; [reflexivity|]. right; left. splits; done.
Qed.

(** ** The invariant *)
Definition entry_ok (i : nat) (d : delivered) : Prop :=
  exists x rr', xs !! i = Some x /\ x_response ct x rr'
    /\ (dl_resp d = rr' \/ exists gz, dl_resp d = (decode_response autoDecompression gz rr').1)
    /\ match dl_es d with
       | None => dl_data d = [] /\ (x_payload x = [] \/ isProtocolSwitch ct rr' = true)
       | Some es => sig_ok es x (rest_wire (S i)) (dl_data d)
       end.
Record script_inv (s : loopState) : Prop := {
  si_loop : loop_inv s;
  si_len : (length (ls_log s) <= length (ls_sent s))%nat;
  si_log : forall i d, ls_log s !! i = Some d -> entry_ok i d;
  si_reqs : ls_phase s <> PDead -> ls_reqch s = drop (length (ls_log s)) (ls_sent s);
  si_top : ls_phase s = PTop -> buf_ok (ls_r s) /\ bend (ls_r s) = e0 /\ pending (ls_r s) = rest_wire (length (ls_log s)) }.

Lemma rest_wire_next n x : xs !! n = Some x -> rest_wire n = x_wire x ++ rest_wire (S n).
Proof. intros Hx. unfold rest_wire. rewrite (drop_S xs x n Hx). cbn. by rewrite <- app_assoc. Qed.

Lemma drop_cons_lookup {A} (l : list A) n y r : drop n l = y :: r -> l !! n = Some y /\ r = drop (S n) l.
Proof.
  intros H. assert (l !! n = Some y) as Hy by (rewrite <- (Nat.add_0_r n), <- lookup_drop, H; done).
  split; [done|]. rewrite (drop_S l y n Hy) in H. congruence.
Qed.

(** The next response is read as the exchange of the next request. *)
Lemma next_response s q reqch buf err r limit : e0 <> errBufferFull -> script_ok -> methods_match s -> script_inv s ->
  ls_phase s = PTop -> ls_reqch s = q :: reqch -> peek_response max (ls_r s) = Some (buf, err, r, limit) ->
  reqch = drop (S (length (ls_log s))) (ls_sent s) /\ (length (ls_log s) < length (ls_sent s))%nat
  /\ exists x rr', xs !! length (ls_log s) = Some x /\ x_response ct x rr'
    /\ ((exists e r', readResponse dump ct false max got1xx (q_method q) (q_close q) (q_continue q) limit r = Some (Err (e, r')))
        \/ exists b told, readResponse dump ct false max got1xx (q_method q) (q_close q) (q_continue q) limit r
             = Some (Ok (mkFinal rr' b (isProtocolSwitch ct rr') told))
           /\ body_for x (rest_wire (S (length (ls_log s)))) b /\ bend (body_reader b) = e0
           /\ (hasBody q (mkFinal rr' b (isProtocolSwitch ct rr') told) = match b with NoBody _ => false | HasBody _ => true end)).
Proof.
  intros Hfull Hxs Hm [_ _ _ Hreq Htop] Hp Hq Hpk. destruct (Htop Hp) as (Hok & Hbe & Hpend).
  rewrite Hreq in Hq by congruence. apply drop_cons_lookup in Hq as [Hq ->]. split; [done|]. split; [by eapply lookup_lt_Some|].
  assert (exists x, xs !! length (ls_log s) = Some x /\ q_method q = x_method x) as (x & Hx & Hmx).
  { destruct Hm as [l Hl]. assert ((x_method <$> xs) !! length (ls_log s) = Some (q_method q)) as H.
    { rewrite Hl, lookup_app_l; [by rewrite list_lookup_fmap, Hq|]. rewrite length_fmap. by eapply lookup_lt_Some. }
    rewrite list_lookup_fmap in H. destruct (xs !! length (ls_log s)) as [x|]; [|done]. exists x. split; [done|]. cbn in H. congruence. }
  destruct (Hxs _ x Hx) as [rr' Hxok]. exists x, rr'. split; [done|]. split; [apply Hxok|].
  destruct (peek_response_spec max (ls_r s) Hok ltac:(congruence)) as (buf1 & err1 & r1 & limit1 & E & Hr1 & Hroom & _). rewrite Hpk in E. injection E as -> -> -> ->.
  destruct Hr1 as (Hok1 & _ & Hb1 & Hp1). rewrite Hmx.
  destruct (readResponse_exchange dump ct max got1xx (q_close q) (q_continue q) x rr' (rest_wire (S (length (ls_log s)))) limit1 r1) as [H|(b & H & Hb & Hbb & Hk)];
    [by rewrite Hb1, Hbe|pose proof (len_nonneg (bbuf (ls_r s))); unfold Buffered in *; lia|done|congruence|by rewrite Hp1, Hpend, <- rest_wire_next|..].
  - left. destruct H as (? & ? & e & r' & _ & H). by exists (limit_error max max e), r'.
  - right. exists b, (told_of x rr' (q_close q) (q_continue q)). splits; [done|done|congruence|]. unfold hasBody. cbn [f_resp]. rewrite Hmx.
    destruct b as [r'|b].
    + destruct Hk as [-> | ->]; [done|]. by rewrite andb_false_r.
    + destruct Hk as [[Hh Hc] _]. rewrite (proj2 (String.eqb_neq _ _) Hh), (proj2 (Z.eqb_neq _ _) Hc). done.
Qed.

Lemma script_inv_dead s : script_inv s -> script_inv (dead s).
Proof. intros [H1 H2 H3 H4 H5]. split; [by apply loop_inv_dead|done..]. Qed.

Lemma entry_ok_app s d : (forall i d, ls_log s !! i = Some d -> entry_ok i d) -> entry_ok (length (ls_log s)) d ->
  forall i d0, (ls_log s ++ [d]) !! i = Some d0 -> entry_ok i d0.
Proof.
  intros H Hd i d0. rewrite lookup_app_Some. intros [Hi|[Hge Hi]]; [by apply H|].
  apply list_lookup_singleton_Some in Hi as [Hz ->]. by replace i with (length (ls_log s)) by lia.
Qed.
Lemma entry_ok_insert s j d : (forall i d, ls_log s !! i = Some d -> entry_ok i d) -> entry_ok j d ->
  forall i d0, <[j := d]> (ls_log s) !! i = Some d0 -> entry_ok i d0.
Proof. intros H Hd i d0 Hi. apply list_lookup_insert_Some in Hi as [(<- & <- & _)|[_ Hi]]; [done|by apply H]. Qed.

Lemma script_inv_step s s' : e0 <> errBufferFull -> script_ok -> methods_match s -> script_inv s -> step s s' -> script_inv s'.
Proof.
  intros Hfull Hxs Hm Hinv Hst. pose proof Hinv as [Hloop Hlen0 Hlog Hreq Htop]. pose proof (loop_inv_step _ _ _ _ _ _ _ _ Hloop Hst) as Hloop'.
  destruct Hst as [s q|s buf err r limit Hp Hpk _|s q reqch buf e r limit Hp _ _ _|s q reqch buf r limit e r' Hp _ _ _ _|s q reqch buf r limit f reuse Hp Hpk _ Hq Hrun Hbody
    |s q reqch buf r limit f Hp Hpk _ Hq Hrun Hbody|s i alive d es v wait reuse Hp Hi Hes Hw|s|s i d es k canceled data err es' Hp Hi Hes Hdec Hk Hrun
    |s i d es canceled err es' Hp Hi Hes Hdec Hrun].
  - split; cbn; try done; [rewrite length_app; cbn; lia|]. intros Hnd. by rewrite (Hreq Hnd), drop_app_le.
  - by apply script_inv_dead.
  - by apply script_inv_dead.
  - by apply script_inv_dead.
  - destruct (next_response s q reqch buf None r limit Hfull Hxs Hm Hinv Hp Hq Hpk) as (Hrest & Hlt & x & rr' & Hx & Hresp & Hres).
    destruct Hres as [(e & r' & E)|(b & told & E & Hb & Hbb & Hhas)]; [congruence|].
    rewrite E in Hrun. injection Hrun as <-. cbn [f_switched] in Hbody. split; [done|..]; cbn [deliver_no_body ls_log ls_phase ls_r ls_reqch ls_sent f_body].
    + rewrite length_app. cbn. lia.
    + apply entry_ok_app; [done|]. exists x, rr'. split; [done|]. split; [done|]. split; [by left|]. cbn. split; [done|].
      rewrite Hhas in Hbody. destruct b as [r'|b]; [left; apply Hb|by right].
    + intros _. by rewrite length_app, Nat.add_1_r.
    + intros Hk. rewrite length_app, Nat.add_1_r. destruct (isProtocolSwitch ct rr') eqn:Esw.
      { unfold keepAlive in Hk. cbn [f_switched] in Hk. rewrite !orb_true_r in Hk. done. }
      rewrite orb_false_r, Hhas in Hbody. destruct b as [r'|b]; [|done]. cbn [body_reader] in *. destruct Hb as (Hok & _ & _ & _ & Hpe). done.
  - destruct (next_response s q reqch buf None r limit Hfull Hxs Hm Hinv Hp Hq Hpk) as (Hrest & Hlt & x & rr' & Hx & Hresp & Hres).
    destruct Hres as [(e & r' & E)|(b & told & E & Hb & Hbb & Hhas)]; [congruence|].
    rewrite E in Hrun. injection Hrun as <-. rewrite Hhas in Hbody. destruct b as [r'|b]; [done|]. cbn [body_for body_reader] in *.
    unfold deliver_body in *. cbn [f_resp f_body] in *. destruct (decode_response autoDecompression (q_addedGzip q) rr') as [resp dec] eqn:Edec.
    split; [done|..]; cbn [ls_log ls_phase ls_r ls_reqch ls_sent].
    + rewrite length_app. cbn. lia.
    + apply entry_ok_app; [done|]. exists x, rr'. split; [done|]. split; [done|].
      split; [right; exists (q_addedGzip q); by rewrite Edec|]. cbn. exists b. split; [done|]. left. split; [done|].
      exists (x_payload x). done.
    + intros _. by rewrite length_app, Nat.add_1_r.
    + done.
  - destruct (Hlog i d Hi) as (x & rr' & Hx & Hresp & Hd & Hsig). rewrite Hes in Hsig. pose proof Hsig as (b & Hb & Hcase).
    assert (entry_es s i = Some es) as Ei by (unfold entry_es; by rewrite Hi). pose proof (li_es _ Hloop i es Ei) as [_ _ Ht _].
    destruct (li_body _ Hloop i alive Hp) as [Hlen _].
    assert (es_rerr es = Some io_EOF -> dl_data d = x_payload x /\ body_done b (rest_wire (S i)) /\ bend (src_reader (b_src b)) = e0) as Hdone.
    { intros Hr. destruct Hcase as [((_ & Hr' & _) & _)|[(_ & ?)|(_ & Hr' & _)]]; [congruence|done|congruence]. }
    split; [done|..]; cbn [ls_log ls_phase ls_r ls_reqch ls_sent].
    + by rewrite length_insert.
    + apply entry_ok_insert; [done|]. exists x, rr'. split; [done|]. split; [done|]. split; [done|]. cbn. exists b. split; [done|].
      destruct Hcase as [((_ & _ & Hw') & _)|[Hd'|Ha]]; [congruence|by right; left|by right; right].
    + intros _. rewrite length_insert. apply Hreq. congruence.
    + intros Hk. rewrite length_insert. assert (v = true) as -> by (destruct alive, v; done).
      destruct Hdone as (_ & (_ & Hok & _ & Hpe) & Hbe); [apply Ht; rewrite Hw; by left|]. rewrite Hb. cbn [body_reader]. by rewrite <- Hlen.
  - by apply script_inv_dead.
  - destruct (Hlog i d Hi) as (x & rr' & Hx & Hresp & Hd & Hsig). rewrite Hes in Hsig.
    assert (entry_es s i = Some es) as Ei by (unfold entry_es; by rewrite Hi).
    split; [done|..]; cbn [set_entry ls_log ls_phase ls_r ls_reqch ls_sent]; rewrite ?length_insert; [done| |done|done].
    apply entry_ok_insert; [done|]. exists x, rr'. split; [done|]. split; [done|]. split; [done|]. cbn.
    by eapply es_Read_sig; [apply (li_es _ Hloop i)|..].
  - destruct (Hlog i d Hi) as (x & rr' & Hx & Hresp & Hd & Hsig). rewrite Hes in Hsig.
    assert (entry_es s i = Some es) as Ei by (unfold entry_es; by rewrite Hi).
    split; [done|..]; cbn [set_entry ls_log ls_phase ls_r ls_reqch ls_sent]; rewrite ?length_insert; [done| |done|done].
    apply entry_ok_insert; [done|]. exists x, rr'. split; [done|]. split; [done|]. split; [done|]. cbn.
    by eapply es_Close_sig; [apply (li_es _ Hloop i)|..].
Qed.

Lemma methods_match_mono s s' : step s s' -> methods_match s' -> methods_match s.
Proof.
  intros Hst Hm. destruct Hst; try exact Hm.
  - unfold methods_match in *. cbn in Hm. rewrite fmap_app in Hm. etrans; [|exact Hm]. by apply prefix_app_r.
  - unfold deliver_body in Hm. by destruct (decode_response _ _ _).
Qed.

Lemma script_inv_reachable r s : e0 <> errBufferFull -> script_ok -> buf_ok r -> bend r = e0 -> pending r = rest_wire 0 ->
  reach r s -> methods_match s -> script_inv s.
Proof.
  intros Hfull Hxs Hok Hbe Hp Hr. unfold reachable in Hr. revert s Hr. apply (rtc_ind_r (fun s => methods_match s -> script_inv s)).
  - intros _. split; done.
  - intros s s' _ Hst IH Hm. apply (script_inv_step s s'); try done; [|apply IH]; by eapply methods_match_mono.
Qed.

(** C1: requests and responses are matched. When the server answers the requests of
    a connection in order with well-formed responses, then in every reachable
    state, however callers read, abandon or close the bodies and whatever is
    decoded: the [i]-th response delivered is the [i]-th one the server sent, with
    at most its decoding applied; what its body has delivered is a prefix of its
    own payload, all of it once the body has reported [io.EOF]; a response without
    a body had none; and whenever the loop looks at the connection again, it stands
    at the first byte of the next response. *)
Theorem responses_matched r s : e0 <> errBufferFull -> script_ok -> buf_ok r -> bend r = e0 -> pending r = rest_wire 0 ->
  reach r s -> methods_match s ->
  (forall i d, ls_log s !! i = Some d -> exists x rr', xs !! i = Some x /\ x_response ct x rr'
     /\ (dl_resp d = rr' \/ exists gz, dl_resp d = (decode_response autoDecompression gz rr').1)
     /\ dl_data d `prefix_of` x_payload x
     /\ match dl_es d with
        | Some es => es_rerr es = Some io_EOF -> dl_data d = x_payload x
        | None => x_payload x = [] \/ isProtocolSwitch ct rr' = true
        end)
  /\ (ls_phase s = PTop -> pending (ls_r s) = rest_wire (length (ls_log s))).
Proof.
  intros Hfull Hxs Hok Hbe Hp Hr Hm. destruct (script_inv_reachable r s Hfull Hxs Hok Hbe Hp Hr Hm) as [_ _ Hlog _ Htop].
  split; [|intros Ht; by apply Htop]. intros i d Hi. destruct (Hlog i d Hi) as (x & rr' & Hx & Hresp & Hd & Hes).
  exists x, rr'. do 3 (split; [done|]). destruct (dl_es d) as [es|].
  - destruct Hes as (b & _ & [((_ & Hr' & _) & p & -> & _)|[(_ & -> & _)|(_ & Hr' & Hpre)]]).
    + split; [by apply prefix_app_r|congruence].
    + by split.
    + split; [done|congruence].
  - destruct Hes as [-> ?]. split; [apply prefix_nil|done].
Qed.
End Script.

Lemma ok_script : script_ok false no_tokens 4096 [ok_exchange; ok_exchange] [] io_EOF.
Proof.
  destruct (response_of no_tokens ok_exchange) as [rr'|] eqn:E; [|vm_compute in E; discriminate E].
  intros i x Hi. exists rr'. assert (x = ok_exchange) as ->; [|by apply ok_exchange_ok].
  destruct i as [|[|i]]; cbn in Hi; [congruence..|done].
Qed.
Lemma responses_matched_witness :
  exists s, run_two second_sent = Some s
    /\ forall i d, ls_log s !! i = Some d -> exists x rr', [ok_exchange; ok_exchange] !! i = Some x /\ x_response no_tokens x rr'
      /\ (dl_resp d = rr' \/ exists gz, dl_resp d = (decode_response true gz rr').1)
      /\ dl_data d `prefix_of` x_payload x
      /\ match dl_es d with
         | Some es => es_rerr es = Some io_EOF -> dl_data d = x_payload x
         | None => x_payload x = [] \/ isProtocolSwitch no_tokens rr' = true
         end.
Proof.
  assert (match run_two second_sent with Some s => q_method <$> ls_sent s = ["GET"; "GET"]%string | None => False end) as Hs by (vm_compute; reflexivity).
  destruct (run_two second_sent) as [s|] eqn:E; [|destruct Hs]. exists s. split; [reflexivity|].
  apply (responses_matched false no_tokens 4096 (fun _ _ => None) true [ok_exchange; ok_exchange] [] io_EOF two_response_reader s).
  - discriminate.
  - exact ok_script.
  - split; [repeat constructor; discriminate|]. vm_compute. discriminate.
  - reflexivity.
  - vm_compute. reflexivity.
  - eapply run_two_reachable. exact E.
  - unfold methods_match. rewrite Hs. by exists [].
Defined.
