(* ===== verification/TransferWrite.v ===== *)
(** * Writing requests: the framing of a request's body ([src/transfer.go])

    [transferWriter]: how the length of a request's body is announced, and the
    body, its chunks and its trailer written. A request body is a reader that
    delivers segments and ends with an error; the writer is any [Writer]. Dumping
    of request bodies is left out. *)

From S2P Require Import Prelude.
From S2P Require Import H2Errors.
From S2P Require Import NetText.
From S2P Require Import FrameWrite.
From S2P Require Import H2Transport.
From S2P Require Import Bufio.
From S2P Require Import Chunked.
From S2P Require Import TextProto.
From S2P Require Import Transfer.
From S2P Require Import TransferBody.

(** ** Requests *)
(** An [io.Reader]: what each [Read] can return at most, and its final error. *)
Record ioReader := mkReader { rd_src : list bytes; rd_end : error }.
Definition content (b : ioReader) : bytes := concat (rd_src b).
(** [Request.Body]: nil, [http.NoBody], or a reader. *)
Inductive requestBody := NilBody | NoRequestBody | ReadBody (b : ioReader).

(** The fields of a [http.Request] used here. [rq_inMemory] is
    [isKnownInMemoryReader(r.Body)]; [rq_closeErr] is what [Body.Close] returns. *)
Record httpRequest := mkHttpRequest {
  rq_Method : string; rq_Body : requestBody; rq_ContentLength : Z; rq_Close : bool;
  rq_TransferEncoding : list string; rq_Header : Header; rq_Trailer : option Header;
  rq_GetBody : option (result error ioReader); rq_inMemory : bool; rq_closeErr : option error }.

Definition valueOrDefault (value def : string) : string := if String.eqb value "" then def else value.
Definition outgoingLength (r : httpRequest) : Z :=
  match rq_Body r with
  | NilBody | NoRequestBody => 0
  | ReadBody _ => if negb (rq_ContentLength r =? 0) then rq_ContentLength r else -1
  end.
Definition requestMethodUsuallyLacksBody (method : string) : bool :=
  bool_decide (method ∈ ["GET"; "HEAD"; "DELETE"; "OPTIONS"; "PROPFIND"; "SEARCH"]%string).
Definition headerGet (h : Header) (key : string) : string := match h !! key with Some (v :: _) => v | _ => "" end.
Definition headerHas (h : Header) (key : string) : bool := is_set (h !! key).

Definition isTokenBoundary (b : byte) : bool := (b =? 32) || (b =? 44) || (b =? 9).
(** The loop over the starting points; [prev] is the byte before the rest [v]. *)
Fixpoint hasToken_loop (token : bytes) (prev : option byte) (v : bytes) : bool :=
  let n := len token in
  let here :=
    (n <=? len v)
    && match v, token with
       | b :: _, t :: _ => (b =? t) || (Z.lor b 32 =? t)
       | _, _ => false
       end
    && match prev with Some p => isTokenBoundary p | None => true end
    && match slice_from v n with e :: _ => isTokenBoundary e | [] => true end
    && EqualFold (string_of_bytes (slice_to v n)) (string_of_bytes token) in
  here || match v with [] => false | b :: v => hasToken_loop token (Some b) v end.
Definition hasToken (v token : string) : bool :=
  if (len (bytes_of_string v) <? len (bytes_of_string token)) || String.eqb token "" then false
  else String.eqb v token || hasToken_loop (bytes_of_string token) None (bytes_of_string v).

Definition isReplayable (r : httpRequest) : bool :=
  (match rq_Body r with ReadBody _ => is_set (rq_GetBody r) | _ => true end)
  && (bool_decide (valueOrDefault (rq_Method r) "GET" ∈ ["GET"; "HEAD"; "OPTIONS"; "TRACE"]%string)
      || headerHas (rq_Header r) "Idempotency-Key" || headerHas (rq_Header r) "X-Idempotency-Key").
Definition reqExpectsContinue (r : httpRequest) : bool := hasToken (headerGet (rq_Header r) "Expect") "100-continue".
Definition reqWantsClose (r : httpRequest) : bool := rq_Close r || hasToken (headerGet (rq_Header r) "Connection") "close".

(** ** [transferWriter] *)
Definition chunked (te : list string) : bool := match te with v :: _ => String.eqb v "chunked" | [] => false end.
Definition isIdentity (te : list string) : bool := match te with [v] => String.eqb v "identity" | _ => false end.

(** [tw_BodyCloser]: what closing the body returns, when there is one;
    [tw_inMemory]: [isKnownInMemoryReader(t.Body)]. *)
Record transferWriter := mkTransferWriter {
  tw_Method : string; tw_Body : option ioReader; tw_BodyCloser : option (option error); tw_ContentLength : Z; tw_Close : bool;
  tw_TransferEncoding : list string; tw_Header : Header; tw_Trailer : option Header; tw_FlushHeaders : bool; tw_inMemory : bool }.
Definition set_tw_body (t : transferWriter) (b : option ioReader) (n : Z) (flush inMemory : bool) : transferWriter :=
  mkTransferWriter (tw_Method t) b (tw_BodyCloser t) n (tw_Close t) (tw_TransferEncoding t) (tw_Header t) (tw_Trailer t) flush inMemory.
Definition set_tw_framing (t : transferWriter) (te : list string) (n : Z) (trailer : option Header) : transferWriter :=
  mkTransferWriter (tw_Method t) (tw_Body t) (tw_BodyCloser t) n (tw_Close t) te (tw_Header t) trailer (tw_FlushHeaders t) (tw_inMemory t).

Definition body_of (b : requestBody) : option ioReader :=
  match b with NilBody => None | NoRequestBody => Some (mkReader [] io_EOF) | ReadBody b => Some b end.

(** One byte of the body is read ahead; [slow]: it does not come within 200 ms, and
    the reads that follow deliver it. *)
Definition probeRequestBody (slow : bool) (t : transferWriter) : transferWriter :=
  match tw_Body t with
  | None => t
  | Some b =>
      if slow then set_tw_body t (Some b) (tw_ContentLength t) true false else
      match src_read 1 (rd_src b) with
      | None => if bool_decide (rd_end b = io_EOF) then set_tw_body t None 0 (tw_FlushHeaders t) false
                else set_tw_body t (Some (mkReader [] (rd_end b))) (tw_ContentLength t) (tw_FlushHeaders t) false
      | Some (d, src) => set_tw_body t (Some (mkReader (d :: src) (rd_end b))) (tw_ContentLength t) (tw_FlushHeaders t) false
      end
  end.

Definition shouldSendChunkedRequestBody (slow : bool) (t : transferWriter) : bool * transferWriter :=
  if (0 <=? tw_ContentLength t) || negb (is_set (tw_Body t)) then (false, t)
  else if String.eqb (tw_Method t) "CONNECT" then (false, t)
  else if requestMethodUsuallyLacksBody (tw_Method t) then
    let t := probeRequestBody slow t in (is_set (tw_Body t), t)
  else (true, t).

Definition newTransferWriter (slow : bool) (r : httpRequest) : result error transferWriter :=
  let body := body_of (rq_Body r) in
  if negb (rq_ContentLength r =? 0) && negb (is_set body) then
    Err (fmt_Errorf "http: Request.ContentLength=%d with nil Body" [format_dec (rq_ContentLength r)])
  else
    let t := mkTransferWriter (valueOrDefault (rq_Method r) "GET") body
               (match body with Some _ => Some (rq_closeErr r) | None => None end) (outgoingLength r) (rq_Close r)
               (rq_TransferEncoding r) (rq_Header r) (rq_Trailer r) false (rq_inMemory r) in
    let t := if (tw_ContentLength t <? 0) && bool_decide (tw_TransferEncoding t = []) then
               let '(send, t') := shouldSendChunkedRequestBody slow t in
               if send then set_tw_framing t' ["chunked"%string] (tw_ContentLength t') (tw_Trailer t') else t'
             else t in
    let t := if negb (tw_ContentLength t =? 0) && negb (tw_inMemory t)
             then set_tw_body t (tw_Body t) (tw_ContentLength t) true (tw_inMemory t) else t in
    let te := if is_set (tw_Body t) then tw_TransferEncoding t else [] in
    let n := if chunked te then -1 else if is_set (tw_Body t) then tw_ContentLength t else 0 in
    Ok (set_tw_framing t te n (if chunked te then tw_Trailer t else None)).

Definition shouldSendContentLength (t : transferWriter) : bool :=
  if chunked (tw_TransferEncoding t) then false
  else if 0 <? tw_ContentLength t then true
  else if tw_ContentLength t <? 0 then false
  else if bool_decide (tw_Method t ∈ ["POST"; "PUT"; "PATCH"]%string) then true
  else if (tw_ContentLength t =? 0) && isIdentity (tw_TransferEncoding t)
  then negb (bool_decide (tw_Method t ∈ ["GET"; "HEAD"]%string))
  else false.

(** [slices.Sort] of strings. *)
Fixpoint insert_sorted (k : string) (ks : list string) : list string :=
  match ks with
  | [] => [k]
  | k' :: ks' => if String.leb k k' then k :: ks else k' :: insert_sorted k ks'
  end.
Definition sort_strings (ks : list string) : list string := fold_right insert_sorted [] ks.
Fixpoint join (sep : string) (ks : list string) : string :=
  match ks with [] => "" | [k] => k | k :: ks => k +:+ sep +:+ join sep ks end.

(** The header lines, in the order they are written. *)
Definition writeHeader (t : transferWriter) : result error (list (string * list string)) :=
  let connection := if tw_Close t && negb (hasToken (headerGet (tw_Header t) "Connection") "close")
                    then [("Connection", ["close"])]%string else [] in
  let framing := if shouldSendContentLength t then [("Content-Length", [format_dec (tw_ContentLength t)])]%string
                 else if chunked (tw_TransferEncoding t) then [("Transfer-Encoding", ["chunked"])]%string else [] in
  match tw_Trailer t with
  | None => Ok (connection ++ framing)
  | Some trailer =>
      let keys := CanonicalHeaderKey <$> (map_to_list trailer).*1 in
      match list_find (fun k => k ∈ ["Transfer-Encoding"; "Trailer"; "Content-Length"]%string) keys with
      | Some (_, k) => Err (badStringError "invalid Trailer key" k)
      | None => Ok (connection ++ framing
                    ++ match keys with [] => [] | _ => [("Trailer"%string, [join "," (sort_strings keys)])] end)
      end
  end.

(** ** The body *)
(** [Read(p)] for [len(p) = k]. *)
Definition io_Read (b : ioReader) (k : Z) : bytes * option error * ioReader :=
  match src_read k (rd_src b) with
  | None => ([], Some (rd_end b), b)
  | Some (d, src) => (d, None, mkReader src (rd_end b))
  end.
(** [io.LimitReader(b, n)], [None] without a limit. *)
Definition limited_Read (lim : option Z) (b : ioReader) (k : Z) : bytes * option error * ioReader :=
  match lim with
  | Some n => if n <=? 0 then ([], Some io_EOF, b) else io_Read b (if n <? k then n else k)
  | None => io_Read b k
  end.

Section Body.
Context {W : Type} `{Writer W}.
(** The buffer of [getCopyBuf]: 32 kB. *)
Definition copyBufSize : Z := 32768.

(** [io.CopyBuffer]'s loop over reads and writes. *)
Fixpoint copy_loop (write : W -> bytes -> W * Z * option error) (fuel : nat) (w : W) (lim : option Z) (b : ioReader) (n : Z)
    : option (W * Z * option error * ioReader) :=
  match fuel with
  | O => None
  | S fuel =>
      let '((d, er), b) := limited_Read lim b copyBufSize in
      let lim := (fun l => l - len d) <$> lim in
      match er with
      | Some e => Some (w, n, if bool_decide (e = io_EOF) then None else Some e, b)
      | None =>
          match write w d with
          | (w, nw, Some e) => Some (w, n + nw, Some e, b)
          | (w, nw, None) =>
              if negb (nw =? len d) then Some (w, n + nw, Some io_ErrShortWrite, b)
              else copy_loop write fuel w lim b (n + nw)
          end
      end
  end.
Definition doBodyCopy (write : W -> bytes -> W * Z * option error) (w : W) (lim : option Z) (b : ioReader)
    : option (W * Z * option error * ioReader) :=
  copy_loop write (S (length (content b))) w lim b 0.

(** [http.Header.Write] (standard library): the valid names in order, the values
    with line breaks replaced. *)
Definition newline_to_space (s : string) : string := map_string (fun b => if (b =? 10) || (b =? 13) then 32 else b) s.
Definition valid_name (k : string) : bool := negb (String.eqb k "") && forallb validHeaderFieldByte (bytes_of_string k).
Definition written_value (v : string) : string := TrimString (newline_to_space v).
Definition header_lines (h : Header) : list (string * string) :=
  flat_map (fun k => if valid_name k then (fun v => (k, written_value v)) <$> Header_values h k else [])
    (sort_strings (map_to_list h).*1).
Fixpoint write_all (w : W) (ps : list bytes) : W * option error :=
  match ps with
  | [] => (w, None)
  | p :: ps => match wr_Write w p with (w, _, Some e) => (w, Some e) | (w, _, None) => write_all w ps end
  end.

(** [flush] is the [Flush] of a [bufio.Writer]. The body is closed on every path;
    the error of [Close] counts when there is no other. [None]: the model's fuel
    ran out. *)
Definition writeBody (flush : option (W -> W * option error)) (t : transferWriter) (w : W) : option (W * option error) :=
  let finish (w : W) (ncopy : Z) : option (W * option error) :=
    match tw_BodyCloser t with
    | Some (Some e) => Some (w, Some e)
    | _ =>
        if negb (tw_ContentLength t =? -1) && negb (tw_ContentLength t =? ncopy) then
          Some (w, Some (fmt_Errorf "http: ContentLength=%d with Body length %d" [format_dec (tw_ContentLength t); format_dec ncopy]))
        else if chunked (tw_TransferEncoding t) then
          match (match tw_Trailer t with
                 | Some trailer => write_all w (field_bytes <$> header_lines trailer)
                 | None => (w, None)
                 end) with
          | (w, Some e) => Some (w, Some e)
          | (w, None) => let '(w, _, err) := wr_Write w [13; 10] in Some (w, err)
          end
        else Some (w, None)
    end in
  match tw_Body t with
  | None => finish w 0
  | Some b =>
      if chunked (tw_TransferEncoding t) then
        match doBodyCopy (cw_Write flush) w None b with
        | None => None
        | Some (w, _, Some e, _) => Some (w, Some e)
        | Some (w, _, None, _) =>
            match cw_Close w with
            | (w, Some e) => Some (w, Some e)
            | (w, None) => finish w 0
            end
        end
      else if tw_ContentLength t =? -1 then
        match doBodyCopy wr_Write w None b with
        | None => None
        | Some (w, _, Some e, _) => Some (w, Some e)
        | Some (w, ncopy, None, _) => finish w ncopy
        end
      else
        match doBodyCopy wr_Write w (Some (tw_ContentLength t)) b with
        | None => None
        | Some (w, _, Some e, _) => Some (w, Some e)
        | Some (w, ncopy, None, b) =>
            (* [io.Discard] *)
            match doBodyCopy (fun w d => (w, len d, None)) w None b with
            | None => None
            | Some (w, _, Some e, _) => Some (w, Some e)
            | Some (w, nextra, None, _) => finish w (ncopy + nextra)
            end
        end
  end.
End Body.

Lemma sort_strings_perm ks : sort_strings ks ≡ₚ ks.
Proof.
  induction ks as [|k ks IH]; cbn; [done|]. fold (sort_strings ks). rewrite <- IH at 2. generalize (sort_strings ks). intros l.
  induction l as [|k' l IHl]; cbn; [done|]. destruct (String.leb k k'); [done|]. rewrite IHl. by constructor.
Qed.

(** ** Copying *)
Definition reader_ok (b : ioReader) : Prop := Forall (fun s => s <> []) (rd_src b).
Definition copy_error (e : error) : option error := if bool_decide (e = io_EOF) then None else Some e.

Lemma limited_Read_spec lim b k : reader_ok b -> 0 < k -> match lim with Some l => 0 <= l | None => True end ->
  let '((d, er), b') := limited_Read lim b k in
  reader_ok b' /\ rd_end b' = rd_end b /\ content b = d ++ content b' /\ len d <= k
  /\ match er with
     | None => d <> [] /\ match lim with Some l => len d <= l | None => True end
     | Some e => d = [] /\ b' = b /\ (lim = Some 0 /\ e = io_EOF \/ lim <> Some 0 /\ content b = [] /\ e = rd_end b)
     end.
Proof.
  intros Hok Hk Hlim. unfold limited_Read. destruct lim as [l|].
  - destruct (Z.leb_spec l 0) as [Hl|Hl]; [assert (l = 0) as -> by lia; splits; try done; [rewrite len_nil; lia|by left]|].
    unfold io_Read. pose proof (src_read_spec (if l <? k then l else k) (rd_src b) ltac:(destruct (Z.ltb_spec l k); lia) Hok) as Hs.
    destruct (src_read _ _) as [[d src]|].
    + destruct Hs as (Hd & Hlen & Hc & Hf). unfold content, reader_ok. cbn. splits; try done; destruct (Z.ltb_spec l k); lia.
    + splits; try done; [rewrite len_nil; lia|]. right. unfold content. rewrite Hs. splits; try done. intros [=]; lia.
  - unfold io_Read. pose proof (src_read_spec k (rd_src b) Hk Hok) as Hs. destruct (src_read _ _) as [[d src]|].
    + destruct Hs as (Hd & Hlen & Hc & Hf). unfold content, reader_ok. cbn. done.
    + splits; try done; [rewrite len_nil; lia|]. right. unfold content. rewrite Hs. done.
Qed.

(** What a copy does to a writer that appends [f d] for a write of [d]. *)
Lemma copy_loop_spec (write : bytes -> bytes -> bytes * Z * option error) (f : bytes -> bytes) :
  (forall w d, d <> [] -> write w d = (w ++ f d, len d, None)) ->
  forall fuel w lim b n, reader_ok b -> (length (content b) < fuel)%nat -> match lim with Some l => 0 <= l | None => True end ->
  exists ds b' err, copy_loop write fuel w lim b n = Some (w ++ concat (f <$> ds), n + len (concat ds), err, b')
    /\ content b = concat ds ++ content b' /\ reader_ok b' /\ rd_end b' = rd_end b
    /\ Forall (fun d => d <> [] /\ len d <= copyBufSize) ds
    /\ match lim with
       | None => content b' = [] /\ err = copy_error (rd_end b)
       | Some l => len (concat ds) = l /\ err = None \/ len (concat ds) < l /\ content b' = [] /\ err = copy_error (rd_end b)
       end.
Proof.
  intros Hw. induction fuel as [|fuel IH]; intros w lim b n Hok Hf Hlim; [lia|]. cbn [copy_loop].
  pose proof (limited_Read_spec lim b copyBufSize Hok ltac:(done) Hlim) as Hr.
  destruct (limited_Read lim b copyBufSize) as [[d er] b1]. destruct Hr as (Hok1 & He1 & Hc1 & Hd1 & Her). destruct er as [e|].
  - destruct Her as (-> & -> & Hcase). exists [], b. eexists. split; [cbn; rewrite app_nil_r, Z.add_0_r; reflexivity|].
    splits; try done. destruct lim as [l|].
    + destruct Hcase as [(Hz & ->)|(Hz & Hnil & ->)]; [left; split; [by injection Hz as ->|done]|]. right. splits; try done. cbn. rewrite len_nil.
      assert (l <> 0) by congruence. lia.
    + destruct Hcase as [(? & _)|(_ & Hnil & ->)]; [done|]. done.
  - destruct Her as [Hd Hl]. rewrite (Hw w d Hd). rewrite Z.eqb_refl. cbn [negb].
    assert (length (content b1) < fuel)%nat as Hf1.
    { rewrite Hc1, length_app in Hf. destruct d; [done|]. cbn in Hf. lia. }
    destruct (IH (w ++ f d) ((fun l => l - len d) <$> lim) b1 (n + len d) Hok1 Hf1) as (ds & b' & err & -> & Hc & Hok' & He' & Hds & Hres);
      [destruct lim as [l|]; [cbn; lia|done]|].
    exists (d :: ds), b', err. cbn [fmap list_fmap concat]. rewrite len_app, !app_assoc, Z.add_assoc.
    splits; [done|by rewrite Hc1, Hc, app_assoc|done|congruence|by constructor|]. destruct lim as [l|]; cbn in Hres.
    + destruct Hres as [[Hl' ->]|(Hl' & Hnil & ->)]; [left; split; [lia|done]|right]. splits; [lia|done|congruence].
    + destruct Hres as [Hnil ->]. split; [done|congruence].
Qed.

(** ** The framing announced *)
(** What a server makes of the header lines of a request (RFC 9112, section 6.3);
    [None]: it must refuse them. *)
Definition values_of (key : string) (hs : list (string * list string)) : list (list string) :=
  (filter (fun kv => kv.1 = key) hs).*2.
Definition request_framing (hs : list (string * list string)) : option Framing :=
  match values_of "Transfer-Encoding" hs, values_of "Content-Length" hs with
  | [], [] => Some FNone
  | [["chunked"%string]], [] => Some FChunked
  | [], [[v]] => (fun n => if n =? 0 then FNone else FLength n) <$> ParseUint v 63
  | _, _ => None
  end.

Definition stream_of (r : httpRequest) : ioReader := default (mkReader [] io_EOF) (body_of (rq_Body r)).
(** What a body delivers and how it ends. *)
Definition same_stream (b b' : ioReader) : Prop := reader_ok b' /\ content b' = content b /\ rd_end b' = rd_end b.

(** The three kinds of writer [newTransferWriter] makes: chunked, without a body,
    or with a declared length. *)
Inductive writer_kind (r : httpRequest) (t : transferWriter) : Prop :=
| WkChunked b : tw_TransferEncoding t = ["chunked"%string] -> tw_Body t = Some b -> same_stream (stream_of r) b ->
    tw_ContentLength t = -1 -> tw_Trailer t = rq_Trailer r -> writer_kind r t
| WkNone : tw_TransferEncoding t = [] -> tw_Body t = None -> content (stream_of r) = [] -> rd_end (stream_of r) = io_EOF ->
    tw_ContentLength t = 0 -> tw_Trailer t = None -> writer_kind r t
| WkLength b : tw_TransferEncoding t = [] -> tw_Body t = Some b -> same_stream (stream_of r) b ->
    0 <= tw_ContentLength t -> tw_ContentLength t = outgoingLength r -> tw_Trailer t = None -> writer_kind r t.

Lemma same_stream_refl b : reader_ok b -> same_stream b b. Proof. done. Qed.

Lemma probe_stream slow t b : tw_Body t = Some b -> reader_ok b ->
  let t' := probeRequestBody slow t in
  (tw_Body t' = None /\ tw_ContentLength t' = 0 /\ content b = [] /\ rd_end b = io_EOF)
  \/ exists b', tw_Body t' = Some b' /\ same_stream b b' /\ tw_ContentLength t' = tw_ContentLength t.
Proof.
  intros Hb Hok. unfold probeRequestBody. rewrite Hb. cbn zeta. destruct slow; [right; by exists b|].
  pose proof (src_read_spec 1 (rd_src b) ltac:(lia) Hok) as Hs. destruct (src_read 1 (rd_src b)) as [[d src]|].
  - destruct Hs as (Hd & _ & Hc & Hf). right. eexists. split; [reflexivity|]. split; [|done]. unfold same_stream, content, reader_ok. cbn.
    splits; [by constructor|done|done].
  - destruct (bool_decide_reflect (rd_end b = io_EOF)) as [He|He]; [left; unfold content; by rewrite Hs|].
    right. eexists. split; [reflexivity|]. split; [|done]. unfold same_stream, content, reader_ok. cbn. by rewrite Hs.
Qed.
Lemma probe_keeps slow t : tw_Method (probeRequestBody slow t) = tw_Method t /\ tw_TransferEncoding (probeRequestBody slow t) = tw_TransferEncoding t
  /\ tw_BodyCloser (probeRequestBody slow t) = tw_BodyCloser t /\ tw_Trailer (probeRequestBody slow t) = tw_Trailer t.
Proof.
  unfold probeRequestBody. destruct (tw_Body t) as [b|]; [|done]. destruct slow; [done|].
  destruct (src_read 1 (rd_src b)) as [[? ?]|]; [done|]. by destruct (bool_decide _).
Qed.

Definition te_ok (r : httpRequest) : Prop := rq_TransferEncoding r = [] /\ rq_Method r <> "CONNECT"%string \/ rq_TransferEncoding r = ["chunked"%string].

Lemma newTransferWriter_kind slow r t : newTransferWriter slow r = Ok t -> te_ok r -> reader_ok (stream_of r) ->
  writer_kind r t /\ (tw_BodyCloser t = match body_of (rq_Body r) with Some _ => Some (rq_closeErr r) | None => None end).
Proof.
  intros H Hte Hok. unfold newTransferWriter in H. destruct (negb (rq_ContentLength r =? 0) && _); [done|].
  set (t0 := mkTransferWriter _ _ _ _ _ _ _ _ _ _) in H. set (t1 := if (tw_ContentLength t0 <? 0) && _ then _ else t0) in H.
  set (t2 := if negb (tw_ContentLength t1 =? 0) && _ then _ else t1) in H.
  assert (tw_Body t2 = tw_Body t1 /\ tw_ContentLength t2 = tw_ContentLength t1 /\ tw_TransferEncoding t2 = tw_TransferEncoding t1
    /\ tw_Trailer t2 = tw_Trailer t1 /\ tw_BodyCloser t2 = tw_BodyCloser t1) as (E1 & E2 & E3 & E4 & E5) by (unfold t2; by destruct (negb (tw_ContentLength t1 =? 0) && negb (tw_inMemory t1))).
  injection H as <-. cbn [set_tw_framing tw_TransferEncoding tw_Body tw_ContentLength tw_Trailer tw_BodyCloser]. rewrite E1, E2, E3, E4, E5. clearbody t2.
  assert (tw_BodyCloser t1 = tw_BodyCloser t0 /\ tw_Trailer t1 = rq_Trailer r
    /\ ((tw_TransferEncoding t1 = ["chunked"%string] /\ match tw_Body t1 with Some b => same_stream (stream_of r) b | None => body_of (rq_Body r) = None end)
       \/ (tw_TransferEncoding t1 = [] /\ tw_Body t1 = None /\ content (stream_of r) = [] /\ rd_end (stream_of r) = io_EOF)
       \/ (tw_TransferEncoding t1 = [] /\ (exists b, tw_Body t1 = Some b /\ same_stream (stream_of r) b)
           /\ 0 <= tw_ContentLength t1 /\ tw_ContentLength t1 = outgoingLength r))) as (Hc & Htr & Hcase).
  { assert (tw_ContentLength t0 = outgoingLength r) as Hcl by done. assert (tw_TransferEncoding t0 = rq_TransferEncoding r) as Hte0 by done.
    assert (tw_Body t0 = body_of (rq_Body r)) as Hb0 by done.
    unfold t1. destruct Hte as [[Hte Hm]|Hte].
    - destruct (Z.ltb_spec (tw_ContentLength t0) 0) as [Hneg|Hpos]; cbn [andb].
      + rewrite bool_decide_true by congruence. unfold shouldSendChunkedRequestBody.
        assert (exists b, rq_Body r = ReadBody b) as [b Hb].
        { rewrite Hcl in Hneg. unfold outgoingLength in Hneg. destruct (rq_Body r) as [| |b]; [lia|lia|by exists b]. }
        assert (stream_of r = b) as Hsb by (unfold stream_of; by rewrite Hb).
        rewrite Hb in Hb0. cbn [body_of] in Hb0. rewrite Hb0. cbn [is_set negb]. destruct (Z.leb_spec 0 (tw_ContentLength t0)) as [?|_]; [lia|]. cbn [orb].
        assert (String.eqb (tw_Method t0) "CONNECT" = false) as ->.
        { apply String.eqb_neq. unfold t0. cbn. unfold valueOrDefault. destruct (String.eqb_spec (rq_Method r) ""); [done|done]. }
        destruct (requestMethodUsuallyLacksBody (tw_Method t0)).
        * destruct (probe_keeps slow t0) as (_ & Hpte & Hpc & Hptr). rewrite Hsb in Hok. cbn zeta.
          destruct (probe_stream slow t0 b Hb0 Hok) as [(Hn & Hz & Hcn & He)|(b' & Hb' & Hs & Hz)].
          { rewrite Hn. cbn [is_set]. splits; [done|by rewrite Hptr|]. right; left. rewrite Hpte, Hsb. splits; try done; by rewrite Hte0. }
          { rewrite Hb'. cbn [is_set set_tw_framing tw_BodyCloser tw_Trailer tw_TransferEncoding tw_Body]. splits; [done|by rewrite Hptr|]. left. rewrite Hb', Hsb. done. }
        * cbn [set_tw_framing tw_BodyCloser tw_Trailer tw_TransferEncoding tw_Body]. splits; [done|done|]. left. rewrite Hb0, Hsb. split; [done|]. apply same_stream_refl. congruence.
      + splits; [done|done|]. destruct (body_of (rq_Body r)) as [b|] eqn:Eb.
        * right; right. split; [congruence|]. split; [exists b; split; [done|]; unfold stream_of in *; rewrite Eb in *; by apply same_stream_refl|]. done.
        * right; left. unfold stream_of. rewrite Eb. splits; try done; congruence.
    - rewrite bool_decide_false, andb_false_r by (rewrite Hte0, Hte; done). splits; [done|done|]. left. split; [congruence|]. rewrite Hb0.
      destruct (body_of (rq_Body r)) as [b|] eqn:Eb; [|done]. unfold stream_of in *. rewrite Eb in *. by apply same_stream_refl. }
  split; [|by rewrite Hc]. destruct Hcase as [(Hte1 & Hb1)|[(Hte1 & Hb1 & Hn & He)|(Hte1 & (b & Hb1 & Hs) & Hp & Hl)]].
  - destruct (tw_Body t1) as [b|] eqn:Eb; cbn [is_set]; rewrite ?Hte1.
    + apply (WkChunked r _ b); try done.
    + apply WkNone; try done; unfold stream_of; by rewrite Hb1.
  - rewrite Hb1. cbn [is_set chunked]. apply WkNone; try done. cbn. congruence.
  - rewrite Hb1, Hte1. cbn [is_set chunked]. apply (WkLength r _ b); try done. cbn. congruence.
Qed.

(** ** The theorem *)
Definition closer_fails (r : httpRequest) : bool := match body_of (rq_Body r) with Some _ => is_set (rq_closeErr r) | None => false end.
Definition trailer_lines (f : Framing) (r : httpRequest) : list (string * string) :=
  match f, rq_Trailer r with FChunked, Some trailer => header_lines trailer | _, _ => [] end.
Definition length_fits (f : Framing) (p : bytes) : Prop :=
  match f with FNone => p = [] | FChunked => True | FLength n => len p = n | FUntilClose => False end.

Lemma values_of_app key hs1 hs2 : values_of key (hs1 ++ hs2) = values_of key hs1 ++ values_of key hs2.
Proof. unfold values_of. by rewrite filter_app, fmap_app. Qed.

Lemma outgoingLength_zero r : outgoingLength r = 0 -> content (stream_of r) = [] /\ rd_end (stream_of r) = io_EOF.
Proof.
  unfold outgoingLength, stream_of. destruct (rq_Body r) as [| |b]; [done|done|]. destruct (Z.eqb_spec (rq_ContentLength r) 0); cbn; lia.
Qed.
Lemma outgoingLength_le r : 0 <= outgoingLength r -> rq_ContentLength r < 2 ^ 63 -> outgoingLength r < 2 ^ 63.
Proof. unfold outgoingLength. destruct (rq_Body r); [lia|lia|]. destruct (negb _); lia. Qed.

(** The framing a kind of writer announces. *)
Definition kind_framing (t : transferWriter) : Framing :=
  if chunked (tw_TransferEncoding t) then FChunked else if 0 <? tw_ContentLength t then FLength (tw_ContentLength t) else FNone.

Lemma writeHeader_framing r t hs : writer_kind r t -> writeHeader t = Ok hs -> rq_ContentLength r < 2 ^ 63 ->
  request_framing hs = Some (kind_framing t).
Proof.
  intros Hk Hw Hlt. unfold writeHeader in Hw. set (conn := if tw_Close t && _ then _ else _) in Hw.
  set (fr := if shouldSendContentLength t then _ else _) in Hw.
  assert (exists last, hs = conn ++ fr ++ last /\ values_of "Transfer-Encoding" last = [] /\ values_of "Content-Length" last = []) as (last & -> & Hl1 & Hl2).
  { destruct (tw_Trailer t) as [trailer|]; [|injection Hw as <-; exists []; by rewrite app_nil_r].
    destruct (list_find _ _) as [[? ?]|]; [done|]. injection Hw as <-. eexists. split; [reflexivity|].
    by destruct (CanonicalHeaderKey <$> (map_to_list trailer).*1). }
  assert (values_of "Transfer-Encoding" conn = [] /\ values_of "Content-Length" conn = []) as [Hc1 Hc2] by (unfold conn; by destruct (tw_Close t && _)).
  unfold request_framing. rewrite !values_of_app, Hl1, Hl2, Hc1, Hc2, !app_nil_r. cbn [app].
  unfold fr, kind_framing, shouldSendContentLength. clear fr Hw. destruct Hk as [b Hte Hb Hs Hn Htr|Hte Hb Hc He Hn Htr|b Hte Hb Hs Hp Hl Htr]; rewrite Hte; cbn [chunked].
  - done.
  - rewrite Hn. cbn [Z.ltb Z.compare isIdentity andb]. rewrite andb_false_r. by destruct (bool_decide _).
  - pose proof (outgoingLength_le r ltac:(lia) Hlt) as Hlt'.
    destruct (Z.ltb_spec 0 (tw_ContentLength t)) as [Hpos|Hz].
    + change (option_map (fun n => if n =? 0 then FNone else FLength n) (ParseUint (format_dec (tw_ContentLength t)) 63) = Some (FLength (tw_ContentLength t))).
      rewrite ParseUint_format_dec by lia. cbn. destruct (Z.eqb_spec (tw_ContentLength t) 0); [lia|done].
    + assert (tw_ContentLength t = 0) as -> by lia. cbn [Z.ltb Z.compare isIdentity andb]. rewrite andb_false_r. by destruct (bool_decide _).
Qed.

Lemma write_all_bytes ps : forall w : bytes, write_all w ps = (w ++ concat ps, None).
Proof. induction ps as [|p ps IH]; intros w; cbn; [by rewrite app_nil_r|]. by rewrite IH, app_assoc. Qed.

Lemma cw_Write_flush (flush : option (bytes -> bytes * option error)) w d : (forall f, flush = Some f -> forall w, f w = (w, None)) ->
  cw_Write flush w d = (w ++ chunk_bytes d, len d, None).
Proof.
  intros Hf. rewrite <- cw_Write_bytes. unfold cw_Write. destruct (len d =? 0); [done|]. cbn. destruct (negb _); [done|].
  destruct flush as [f|]; [|done]. by rewrite (Hf f eq_refl).
Qed.

(** What closing the body adds to the error. *)
Definition closed_error (t : transferWriter) : option error := match tw_BodyCloser t with Some (Some e) => Some e | _ => None end.
Lemma closer_match {A} t (X : A) (f : error -> A) :
  match tw_BodyCloser t with Some (Some e) => f e | _ => X end = match closed_error t with Some e => f e | None => X end.
Proof. unfold closed_error. by destruct (tw_BodyCloser t) as [[?|]|]. Qed.
Lemma closed_error_set r t : tw_BodyCloser t = (match body_of (rq_Body r) with Some _ => Some (rq_closeErr r) | None => None end) ->
  is_set (closed_error t) = closer_fails r.
Proof. unfold closed_error, closer_fails. intros ->. destruct (body_of _); [by destruct (rq_closeErr r)|done]. Qed.

Lemma copy_discard b (w : bytes) : reader_ok b ->
  copy_loop (fun w d => (w, len d, None)) (S (length (content b))) w None b 0
    = Some (w, len (content b), copy_error (rd_end b), mkReader [] (rd_end b)).
Proof.
  intros Hok. destruct (copy_loop_spec (fun w d => (w, len d, None)) (fun _ => []) ltac:(intros; by rewrite app_nil_r) (S (length (content b))) w None b 0 Hok ltac:(lia) I)
    as (ds & [src e] & err & -> & Hds & Hok2 & Heb & _ & Hnil & ->). cbn in Heb. subst e.
  assert (src = []) as ->.
  { unfold content, reader_ok in *. cbn in *. destruct src as [|s src]; [done|]. apply Forall_cons in Hok2 as [? _]. by destruct s. }
  assert (concat ((fun _ : bytes => @nil Z) <$> ds) = []) as -> by (clear; by induction ds).
  rewrite Hnil, app_nil_r in Hds. by rewrite app_nil_r, Z.add_0_l, <- Hds.
Qed.

Section WriteBody.
Context (flush : option (bytes -> bytes * option error)) (r : httpRequest) (t : transferWriter) (w : bytes).
Hypothesis Hflush : forall f, flush = Some f -> forall w, f w = (w, None).
Hypothesis Hcl : is_set (closed_error t) = closer_fails r.
Abbreviation p := (content (stream_of r)).
(** What [writeBody] does to a writer that keeps everything, in the framing [f]. *)
Definition body_written (f : Framing) : Prop := exists w' err, writeBody flush t w = Some (w', err)
  /\ (err = None <-> rd_end (stream_of r) = io_EOF /\ closer_fails r = false /\ length_fits f p)
  /\ (err = None -> exists ds, w' = w ++ message_wire f ds (trailer_lines f r) /\ concat ds = p)
  /\ (forall n, f = FLength n -> exists d, w' = w ++ d /\ len d <= n /\ d `prefix_of` p).

Lemma writeBody_chunked b : tw_TransferEncoding t = ["chunked"%string] -> tw_Body t = Some b -> same_stream (stream_of r) b ->
  tw_ContentLength t = -1 -> tw_Trailer t = rq_Trailer r -> body_written FChunked.
Proof.
  intros Hte Hb Hs Hn Htr. unfold body_written, writeBody.
  rewrite Hte, Hb. cbn [chunked]. change (String.eqb "chunked" "chunked") with true. cbn iota. destruct Hs as (Hok & Hcb & Heb). unfold doBodyCopy.
  destruct (copy_loop_spec (cw_Write flush) chunk_bytes ltac:(intros; by apply cw_Write_flush) (S (length (content b))) w None b 0 Hok ltac:(lia) I)
    as (ds & b' & err & -> & Hds & _ & _ & _ & Hnil & ->).
  rewrite Hnil, app_nil_r in Hds. unfold copy_error. rewrite Heb. destruct (bool_decide_reflect (rd_end (stream_of r) = io_EOF)) as [Heof|Heof].
  - cbn [cw_Close wr_Write Buffer_Writer]. unfold cw_Close. cbn [wr_Write Buffer_Writer]. rewrite closer_match. destruct (closed_error t) as [e|]; cbn [is_set] in Hcl.
    { do 2 eexists. split; [reflexivity|]. splits; try done. split; [done|]. intros (_ & Hcf & _). congruence. }
    rewrite Hn. cbn [Z.eqb negb andb]. rewrite Htr.
    assert (exists lines, (match rq_Trailer r with Some trailer => write_all ((w ++ concat (chunk_bytes <$> ds)) ++ [48; 13; 10]) (field_bytes <$> header_lines trailer)
        | None => ((w ++ concat (chunk_bytes <$> ds)) ++ [48; 13; 10], None) end) = (((w ++ concat (chunk_bytes <$> ds)) ++ [48; 13; 10]) ++ concat (field_bytes <$> lines), None)
        /\ lines = trailer_lines FChunked r) as (lines & -> & ->).
    { unfold trailer_lines. destruct (rq_Trailer r) as [trailer|]; [rewrite write_all_bytes; by eexists|]. exists []. cbn. by rewrite app_nil_r. }
    do 2 eexists. split; [reflexivity|]. splits; [split; done| |done]. intros _. exists ds. split; [|congruence].
    cbn [message_wire]. rewrite cw_all_bytes. unfold header_bytes. by rewrite <- !app_assoc.
  - do 2 eexists. split; [reflexivity|]. splits; [split; [done|by intros (? & _)]|done|done].
Qed.

Lemma writeBody_none : tw_TransferEncoding t = [] -> tw_Body t = None -> p = [] -> rd_end (stream_of r) = io_EOF ->
  tw_ContentLength t = 0 -> body_written FNone.
Proof.
  intros Hte Hb Hc He Hn. unfold body_written, writeBody.
  rewrite Hte, Hb, Hn. cbn [chunked Z.ltb Z.compare]. rewrite closer_match. destruct (closed_error t) as [e|]; cbn [is_set] in Hcl.
  - do 2 eexists. split; [reflexivity|]. splits; [split; [done|intros (_ & ? & _); congruence]|done|done].
  - cbn [Z.eqb negb andb]. do 2 eexists. split; [reflexivity|]. splits; [split; [|done]; intros _; splits; done| |done].
    intros _. exists []. cbn [message_wire]. rewrite app_nil_r. split; [done|]. by rewrite Hc.
Qed.

Lemma writeBody_length b : tw_TransferEncoding t = [] -> tw_Body t = Some b -> same_stream (stream_of r) b -> 0 <= tw_ContentLength t ->
  body_written (if 0 <? tw_ContentLength t then FLength (tw_ContentLength t) else FNone).
Proof.
  intros Hte Hb Hs Hp. unfold body_written, writeBody.
  rewrite Hte, Hb. cbn [chunked]. destruct Hs as (Hok & Hcb & Heb). destruct (Z.eqb_spec (tw_ContentLength t) (-1)) as [?|Hm1]; [lia|]. cbn [negb andb]. unfold doBodyCopy.
  destruct (copy_loop_spec (wr_Write (Writer := Buffer_Writer)) (fun d => d) ltac:(done) (S (length (content b))) w (Some (tw_ContentLength t)) b 0 Hok ltac:(lia) Hp)
    as (ds & b1 & err & -> & Hds & Hok1 & Heb1 & _ & Hcase).
  rewrite list_fmap_id. assert (len (concat ds) <= tw_ContentLength t) as Hle by (destruct Hcase as [[? _]|[? _]]; lia).
  assert (forall n, (if 0 <? tw_ContentLength t then FLength (tw_ContentLength t) else FNone) = FLength n ->
    exists d, w ++ concat ds = w ++ d /\ len d <= n /\ d `prefix_of` p) as Hpre.
  { intros n Hn. destruct (0 <? tw_ContentLength t); [|done]. injection Hn as <-. exists (concat ds). splits; [done|done|]. rewrite <- Hcb, Hds. by apply prefix_app_r. }
  assert (length_fits (if 0 <? tw_ContentLength t then FLength (tw_ContentLength t) else FNone) p <-> len p = tw_ContentLength t) as Hfit.
  { destruct (Z.ltb_spec 0 (tw_ContentLength t)); cbn; [done|]. assert (tw_ContentLength t = 0) as -> by lia. split; [intros ->; done|].
    intros Hz. apply nil_length_inv. unfold len in Hz. lia. }
  assert (len p = len (concat ds) + len (content b1)) as Hsum by (rewrite <- Hcb, Hds, len_app; done).
  destruct err as [e|].
  { do 2 eexists. split; [reflexivity|]. splits; [split; [done|]|done|exact Hpre]. intros (He & _ & Hf). exfalso.
    destruct Hcase as [[_ ?]|(_ & _ & Hce)]; [done|]. unfold copy_error in Hce. rewrite Heb, He in Hce. done. }
  rewrite (copy_discard b1 (w ++ concat ds) Hok1). unfold copy_error. rewrite Heb1, Heb. destruct (bool_decide_reflect (rd_end (stream_of r) = io_EOF)) as [Heof|Heof].
  - rewrite closer_match. destruct (closed_error t) as [e|]; cbn [is_set] in Hcl.
    { do 2 eexists. split; [reflexivity|]. splits; [split; [done|intros (_ & ? & _); congruence]|done|exact Hpre]. }
    rewrite Z.add_0_l. destruct (Z.eqb_spec (tw_ContentLength t) (len (concat ds) + len (content b1))) as [Heq|Hne]; cbn [negb].
    + do 2 eexists. split; [reflexivity|]. splits; [split; [|done]; intros _; splits; [done|done|apply Hfit; lia]| |exact Hpre].
      intros _. pose proof (len_nonneg (content b1)).
      assert (content b1 = []) as Hnil by (destruct Hcase as [[? _]|(_ & ? & _)]; [apply nil_length_inv; unfold len in *; lia|done]).
      rewrite Hnil, app_nil_r in Hds. exists ds. split; [|congruence]. destruct (Z.ltb_spec 0 (tw_ContentLength t)); cbn [message_wire]; [done|].
      assert (concat ds = []) as -> by (apply nil_length_inv; unfold len in *; lia). done.
    + do 2 eexists. split; [reflexivity|]. splits; [split; [done|]|done|exact Hpre]. intros (_ & _ & Hf). apply Hfit in Hf. lia.
  - do 2 eexists. split; [reflexivity|]. splits; [split; [done|by intros (? & _)]|done|exact Hpre].
Qed.
End WriteBody.

Lemma writeBody_spec flush r t w : (forall f, flush = Some f -> forall w, f w = (w, None)) -> writer_kind r t ->
  tw_BodyCloser t = (match body_of (rq_Body r) with Some _ => Some (rq_closeErr r) | None => None end) ->
  body_written flush r t w (kind_framing t).
Proof.
  intros Hf Hk Hc. pose proof (closed_error_set r t Hc) as Hcl. unfold kind_framing.
  destruct Hk as [b Hte Hb Hs Hn Htr|Hte Hb Hcn He Hn Htr|b Hte Hb Hs Hp Hl Htr]; rewrite Hte; cbn [chunked].
  - by apply (writeBody_chunked flush r t w Hf Hcl b).
  - rewrite Hn. by apply writeBody_none.
  - by apply (writeBody_length flush r t w Hcl b).
Qed.

(** The body of a request is sent in the framing its header announces. The
    header lines carry either [Transfer-Encoding: chunked] or one [Content-Length]
    or neither, never both; writing succeeds exactly when the body ends with
    [io.EOF] and has the announced length and its [Close] succeeds, and then the
    bytes written are that message: the whole body, chunked with its trailer
    fields or as it is. A body longer than announced is reported and never written
    past the announced length. *)
Theorem request_body_framed slow r t hs flush (w : bytes) : newTransferWriter slow r = Ok t -> writeHeader t = Ok hs ->
  te_ok r -> reader_ok (stream_of r) -> rq_ContentLength r < 2 ^ 63 -> (forall f, flush = Some f -> forall w, f w = (w, None)) ->
  exists f w' err, request_framing hs = Some f /\ writeBody flush t w = Some (w', err)
    /\ (err = None <-> rd_end (stream_of r) = io_EOF /\ closer_fails r = false /\ length_fits f (content (stream_of r)))
    /\ (err = None -> exists ds, w' = w ++ message_wire f ds (trailer_lines f r) /\ concat ds = content (stream_of r))
    /\ (forall n, f = FLength n -> exists d, w' = w ++ d /\ len d <= n /\ d `prefix_of` content (stream_of r)).
Proof.
  intros Ht Hw Hte Hok Hlt Hf. destruct (newTransferWriter_kind _ _ _ Ht Hte Hok) as [Hk Hc].
  destruct (writeBody_spec flush r t w Hf Hk Hc) as (w' & err & Hrun & H1 & H2 & H3).
  exists (kind_framing t), w', err. split; [by eapply writeHeader_framing|]. done.
Qed.

(** A GET whose body is probed: it has bytes, so it is sent chunked. *)
Definition upload : httpRequest :=
  mkHttpRequest "GET" (ReadBody (mkReader [[104; 105]; [33]] io_EOF)) 0 false [] ∅ (Some {["X-Sum"%string := ["1f"]%string]}) None true None.
Lemma request_body_framed_witness :
  exists t hs, newTransferWriter false upload = Ok t /\ writeHeader t = Ok hs
    /\ hs = [("Transfer-Encoding", ["chunked"]); ("Trailer", ["X-Sum"])]%string
    /\ exists ds w', writeBody (Some (fun w => (w, None))) t [1] = Some (w', None)
      /\ w' = [1] ++ message_wire FChunked ds [("X-Sum", "1f")]%string /\ concat ds = [104; 105; 33].
Proof.
  destruct (newTransferWriter false upload) as [t|e] eqn:Et; [|vm_compute in Et; discriminate Et].
  destruct (writeHeader t) as [hs|e] eqn:Eh; [|vm_compute in Et; injection Et as <-; vm_compute in Eh; discriminate Eh].
  exists t, hs. split; [reflexivity|]. split; [exact Eh|].
  destruct (request_body_framed false upload t hs (Some (fun w => (w, None))) [1] Et Eh) as (f & w' & err & Hf & Hrun & Hok & Hw & _).
  - by left.
  - repeat constructor; discriminate.
  - reflexivity.
  - by intros f [= <-].
  - vm_compute in Et. injection Et as <-. vm_compute in Eh. injection Eh as <-. split; [reflexivity|].
    vm_compute in Hf. injection Hf as <-. assert (err = None) as -> by (apply Hok; split; [reflexivity|split; [reflexivity|exact I]]).
    destruct (Hw eq_refl) as (ds & -> & Hds). exists ds. eexists. split; [exact Hrun|]. split; [reflexivity|exact Hds].
Defined.
(** The short, the long and the failing body. *)
Example bodies_refused :
  let run n src e := match newTransferWriter false (mkHttpRequest "POST" (ReadBody (mkReader src e)) n false [] ∅ None None true None) with
                     | Ok t => writeBody None t [] | Err _ => None end in
  run 3 [[1; 2]] io_EOF = Some ([1; 2], Some (fmt_Errorf "http: ContentLength=%d with Body length %d" ["3"; "2"]%string))
  /\ run 3 [[1; 2]; [3; 4]] io_EOF = Some ([1; 2; 3], Some (fmt_Errorf "http: ContentLength=%d with Body length %d" ["3"; "4"]%string))
  /\ run 3 [[1; 2]; [3]] errClosedPipeWrite = Some ([1; 2; 3], Some errClosedPipeWrite).
Proof. vm_compute. done. Qed.
