(* ===== verification/HeaderSort.v ===== *)
(** * The order in which header fields are written ([src/internal/header/sort.go])

    Fields are sorted by the rank of their name in a given list of names, a field
    without a rank by its current index. [sort.Sort] is the pattern-defeating
    quicksort of the standard library: insertion sort up to twelve elements. *)

From Stdlib Require Import Sorted.
From S2P Require Import Prelude.
From S2P Require Import NetText.
From S2P Require Import TextProto.

Record KeyValues := mkKeyValues { kv_Key : string; kv_Values : list string }.

(** ** [sort.Sort] *)
(** A slice behind [sort.Interface]; [less l i j] is [Less(i, j)]. *)
Section Sort.
Context {A : Type} (less : list A -> nat -> nat -> bool).
Definition swap (l : list A) (i j : nat) : list A :=
  match l !! i, l !! j with Some x, Some y => <[i := y]> (<[j := x]> l) | _, _ => l end.

Fixpoint insert_down (a j : nat) (l : list A) : list A :=
  match j with
  | O => l
  | S j' => if (a <? j)%nat && less l j j' then insert_down a j' (swap l j j') else l
  end.
Definition insertionSort (a b : nat) (l : list A) : list A :=
  fold_left (fun l i => insert_down a i l) (seq (a + 1) (b - a - 1)) l.

(** [heapSort] *)
Fixpoint siftDown (fuel : nat) (root hi first : nat) (l : list A) : list A :=
  match fuel with
  | O => l
  | S fuel =>
      let child := (2 * root + 1)%nat in
      if (hi <=? child)%nat then l else
      let child := if (child + 1 <? hi)%nat && less l (first + child) (first + child + 1) then (child + 1)%nat else child in
      if negb (less l (first + root) (first + child)) then l
      else siftDown fuel child hi first (swap l (first + root) (first + child))
  end.
Definition heapSort (a b : nat) (l : list A) : list A :=
  let hi := (b - a)%nat in
  let l := fold_left (fun l i => siftDown hi i hi a l) (rev (seq 0 (Nat.div (hi - 1) 2 + 1))) l in
  fold_left (fun l i => siftDown hi 0 i a (swap l a (a + i))) (rev (seq 0 hi)) l.

(** The pivot; [swaps] counts the inversions seen. *)
Definition order2 (l : list A) (a b swaps : nat) : nat * nat * nat :=
  if less l b a then (b, a, S swaps) else (a, b, swaps).
Definition median (l : list A) (a b c swaps : nat) : nat * nat :=
  let '(a, b, swaps) := order2 l a b swaps in
  let '(b, c, swaps) := order2 l b c swaps in
  let '(a, b, swaps) := order2 l a b swaps in (b, swaps).
Definition medianAdjacent (l : list A) (a swaps : nat) : nat * nat := median l (a - 1) a (a + 1) swaps.
Inductive sortedHint := unknownHint | increasingHint | decreasingHint.
Definition choosePivot (l : list A) (a b : nat) : nat * sortedHint :=
  let n := (b - a)%nat in
  let i := (a + Nat.div n 4)%nat in
  let j := (a + Nat.div n 4 * 2)%nat in
  let k := (a + Nat.div n 4 * 3)%nat in
  let '(j, swaps) :=
    if (8 <=? n)%nat then
      let '(i, j, k, swaps) :=
        if (50 <=? n)%nat then
          let '(i, swaps) := medianAdjacent l i 0 in
          let '(j, swaps) := medianAdjacent l j swaps in
          let '(k, swaps) := medianAdjacent l k swaps in (i, j, k, swaps)
        else (i, j, k, 0%nat) in
      median l i j k swaps
    else (j, 0%nat) in
  (j, if (swaps =? 0)%nat then increasingHint else if (swaps =? 12)%nat then decreasingHint else unknownHint).

Fixpoint reverseRange (fuel : nat) (i j : nat) (l : list A) : list A :=
  match fuel with
  | O => l
  | S fuel => if (i <? j)%nat then reverseRange fuel (i + 1) (j - 1) (swap l i j) else l
  end.
(** [xorshift.Next] *)
Definition xorshift (r : Z) : Z :=
  let r := Z.lxor r (u64 (Z.shiftl r 13)) in
  let r := Z.lxor r (Z.shiftr r 7) in
  Z.lxor r (u64 (Z.shiftl r 17)).
Definition breakPatterns (a b : nat) (l : list A) : list A :=
  let n := (b - a)%nat in
  if (n <? 8)%nat then l else
  let modulus := Z.shiftl 1 (Z.log2 (Z.of_nat n) + 1) in
  let idx := (a + Nat.div n 4 * 2 - 1)%nat in
  let step (acc : Z * list A) (i : nat) :=
    let r := xorshift acc.1 in
    let other := Z.to_nat (Z.land r (modulus - 1)) in
    let other := if (n <=? other)%nat then (other - n)%nat else other in
    (r, swap acc.2 (idx - 1 + i) (a + other)) in
  (fold_left step (seq 0 3) (Z.of_nat n, l)).2.

(** The scans of the partitions. *)
Fixpoint scan_up (fuel : nat) (stop : nat -> bool) (i j : nat) : nat :=
  match fuel with O => i | S fuel => if (i <=? j)%nat && negb (stop i) then scan_up fuel stop (i + 1) j else i end.
Fixpoint scan_down (fuel : nat) (stop : nat -> bool) (i j : nat) : nat :=
  match fuel with O => j | S fuel => if (i <=? j)%nat && negb (stop j) then scan_down fuel stop i (j - 1) else j end.

Fixpoint partition_loop (fuel : nat) (a i j : nat) (l : list A) : nat * nat * list A :=
  match fuel with
  | O => (i, j, l)
  | S fuel =>
      let i := scan_up (length l) (fun i => negb (less l i a)) i j in
      let j := scan_down (length l) (fun j => less l j a) i j in
      if (j <? i)%nat then (i, j, l) else partition_loop fuel a (i + 1) (j - 1) (swap l i j)
  end.
Definition partition (a b pivot : nat) (l : list A) : nat * bool * list A :=
  let l := swap l a pivot in
  let i := scan_up (length l) (fun i => negb (less l i a)) (a + 1) (b - 1) in
  let j := scan_down (length l) (fun j => less l j a) i (b - 1) in
  if (j <? i)%nat then (j, true, swap l j a) else
  let '(_, j, l) := partition_loop (length l) a (i + 1) (j - 1) (swap l i j) in (j, false, swap l j a).
Fixpoint partitionEqual_loop (fuel : nat) (a i j : nat) (l : list A) : nat * list A :=
  match fuel with
  | O => (i, l)
  | S fuel =>
      let i := scan_up (length l) (fun i => less l a i) i j in
      let j := scan_down (length l) (fun j => negb (less l a j)) i j in
      if (j <? i)%nat then (i, l) else partitionEqual_loop fuel a (i + 1) (j - 1) (swap l i j)
  end.
Definition partitionEqual (a b pivot : nat) (l : list A) : nat * list A :=
  let l := swap l a pivot in partitionEqual_loop (length l) a (a + 1) (b - 1) l.

(** Whether the range was sorted, after at most five shifts. *)
Fixpoint shift_right (fuel : nat) (j b : nat) (l : list A) : list A :=
  match fuel with
  | O => l
  | S fuel => if (j <? b)%nat && less l j (j - 1) then shift_right fuel (j + 1) b (swap l j (j - 1)) else l
  end.
Fixpoint partialInsertionSort_loop (steps : nat) (a b i : nat) (l : list A) : bool * list A :=
  match steps with
  | O => (false, l)
  | S steps =>
      let i := scan_up (length l) (fun i => less l i (i - 1)) i (b - 1) in
      if (i =? b)%nat then (true, l)
      else if (b - a <? 50)%nat then (false, l)
      else
        let l := swap l i (i - 1) in
        let l := if (2 <=? i - a)%nat then insert_down 0 (i - 1) l else l in
        let l := if (2 <=? b - i)%nat then shift_right (length l) (i + 1) b l else l in
        partialInsertionSort_loop steps a b i l
  end.
Definition partialInsertionSort (a b : nat) (l : list A) : bool * list A := partialInsertionSort_loop 5 a b (a + 1) l.

Fixpoint pdqsort (fuel : nat) (a b limit : nat) (wasBalanced wasPartitioned : bool) (l : list A) : list A :=
  match fuel with
  | O => l
  | S fuel =>
      let n := (b - a)%nat in
      if (n <=? 12)%nat then insertionSort a b l
      else if (limit =? 0)%nat then heapSort a b l
      else
        let '(l, limit) := if wasBalanced then (l, limit) else (breakPatterns a b l, (limit - 1)%nat) in
        let '(pivot, hint) := choosePivot l a b in
        let '(pivot, increasing, l) :=
          match hint with
          | decreasingHint => ((b - 1 - (pivot - a))%nat, true, reverseRange n a (b - 1) l)
          | increasingHint => (pivot, true, l)
          | unknownHint => (pivot, false, l)
          end in
        let '(sorted, l) := if wasBalanced && wasPartitioned && increasing then partialInsertionSort a b l else (false, l) in
        if sorted then l
        else if (0 <? a)%nat && negb (less l (a - 1) pivot) then
          let '(mid, l) := partitionEqual a b pivot l in pdqsort fuel mid b limit wasBalanced wasPartitioned l
        else
          let '(mid, already, l) := partition a b pivot l in
          let leftLen := (mid - a)%nat in
          let rightLen := (b - mid)%nat in
          if (leftLen <? rightLen)%nat
          then pdqsort fuel (mid + 1) b limit (Nat.div n 8 <=? leftLen)%nat already (pdqsort fuel a mid limit true true l)
          else pdqsort fuel a mid limit (Nat.div n 8 <=? rightLen)%nat already (pdqsort fuel (mid + 1) b limit true true l)
  end.
Definition Sort (l : list A) : list A :=
  let n := length l in
  if (n <=? 1)%nat then l else pdqsort n 0 n (Z.to_nat (Z.log2 (Z.of_nat n) + 1)) true true l.
End Sort.

(** ** [SortKeyValues] *)
(** An element of [sorter] is a rank with its field. *)
Definition sorter_key (l : list (Z * KeyValues)) (i : nat) : Z :=
  match l !! i with Some (rank, _) => if 0 <=? rank then rank else Z.of_nat i | None => Z.of_nat i end.
Definition sorter_Less (l : list (Z * KeyValues)) (i j : nat) : bool := sorter_key l i <? sorter_key l j.

Section Ranks.
(** [httpguts.ValidHeaderFieldName] *)
Context (ValidHeaderFieldName : string -> bool).

Definition canonicalHeaderKeyEqual (a b : string) : bool := String.eqb a b || EqualFold a b && ValidHeaderFieldName a.
(** The rank of one name: the last position of an equal one, -1 without one. *)
Fixpoint rank_linear (key : string) (orderedKeys : list string) (pos rank : Z) : Z :=
  match orderedKeys with
  | [] => rank
  | k :: ks => rank_linear key ks (pos + 1) (if canonicalHeaderKeyEqual key k then pos else rank)
  end.
Definition headerOrderRanksLinear (kvs : list KeyValues) (orderedKeys : list string) : list Z :=
  (fun kv => rank_linear (kv_Key kv) orderedKeys 0 (-1)) <$> kvs.

Fixpoint order_map (orderedKeys : list string) (rank : Z) (m : gmap string Z) : gmap string Z :=
  match orderedKeys with
  | [] => m
  | k :: ks => order_map ks (rank + 1) (<[CanonicalHeaderKey k := rank]> m)
  end.
Definition headerOrderRanksMap (kvs : list KeyValues) (orderedKeys : list string) : list Z :=
  let order := order_map orderedKeys 0 ∅ in
  (fun kv => default (-1) (order !! CanonicalHeaderKey (kv_Key kv))) <$> kvs.

Definition linearHeaderOrderSearchLimit : Z := 1024.
Definition SortKeyValues (kvs : list KeyValues) (orderedKeys : list string) : list KeyValues :=
  if (len kvs <? 2) || (len orderedKeys =? 0) then kvs else
  let ranks := if len kvs <=? Z.quot linearHeaderOrderSearchLimit (len orderedKeys)
               then headerOrderRanksLinear kvs orderedKeys else headerOrderRanksMap kvs orderedKeys in
  (Sort sorter_Less (zip ranks kvs)).*2.
End Ranks.

(** ** Sorting only permutes, whatever [Less] answers *)
Lemma split_two {A} (l : list A) i j x y : (i < j)%nat -> l !! i = Some x -> l !! j = Some y ->
  exists l1 l2 l3, l = l1 ++ x :: l2 ++ y :: l3 /\ i = length l1 /\ j = (length l1 + S (length l2))%nat.
Proof.
  intros Hij Hi Hj. exists (take i l), (take (j - S i) (drop (S i) l)), (drop (S j) l).
  assert (i < length l)%nat by (by eapply lookup_lt_Some). assert (j < length l)%nat by (by eapply lookup_lt_Some).
  splits.
  - rewrite <- (take_drop_middle l i x Hi) at 1. do 2 f_equal.
    assert (drop (S i) l !! (j - S i)%nat = Some y) as Hy by (rewrite lookup_drop; replace (S i + (j - S i))%nat with j by lia; done).
    rewrite <- (take_drop_middle _ _ _ Hy) at 1. do 2 f_equal. rewrite drop_drop. f_equal. lia.
  - rewrite length_take. lia.
  - rewrite !length_take, length_drop. lia.
Qed.
Lemma insert_middle {A} (l1 l2 : list A) x z i : i = length l1 -> <[i := z]> (l1 ++ x :: l2) = l1 ++ z :: l2.
Proof. intros ->. induction l1 as [|y l1 IH]; cbn; [done|]. f_equal. apply IH. Qed.
Lemma swap_split {A} (l1 l2 l3 : list A) x y : let l := l1 ++ x :: l2 ++ y :: l3 in
  swap l (length l1) (length l1 + S (length l2)) = l1 ++ y :: l2 ++ x :: l3
  /\ swap l (length l1 + S (length l2)) (length l1) = l1 ++ y :: l2 ++ x :: l3.
Proof.
  intros l. assert (l !! length l1 = Some x) as Hx by (by apply list_lookup_middle).
  assert (l !! (length l1 + S (length l2))%nat = Some y) as Hy.
  { unfold l. rewrite (app_comm_cons l2), (assoc app). apply list_lookup_middle. rewrite length_app. cbn. lia. }
  assert (forall x z, <[(length l1 + S (length l2))%nat := z]> (l1 ++ x :: l2 ++ y :: l3) = l1 ++ x :: l2 ++ z :: l3) as H1.
  { intros x' z. rewrite (app_comm_cons l2), (assoc app), insert_middle; [by rewrite <- (assoc app)|]. rewrite length_app. cbn. lia. }
  unfold swap. rewrite Hx, Hy. unfold l. rewrite !H1, !insert_middle by done. rewrite H1. done.
Qed.
Lemma swap_perm {A} (l : list A) i j : swap l i j ≡ₚ l.
Proof.
  destruct (l !! i) as [x|] eqn:Hi; [|unfold swap; by rewrite Hi]. destruct (l !! j) as [y|] eqn:Hj; [|unfold swap; by rewrite Hi, Hj].
  assert (forall l1 l2 l3, l1 ++ y :: l2 ++ x :: l3 ≡ₚ l1 ++ x :: l2 ++ y :: l3) as Hp by (intros; solve_Permutation).
  assert (i < j \/ i = j \/ j < i)%nat as [Hlt|[->|Hlt]] by lia.
  - destruct (split_two l i j x y Hlt Hi Hj) as (l1 & l2 & l3 & -> & -> & ->). destruct (swap_split l1 l2 l3 x y) as [-> _]. apply Hp.
  - unfold swap. rewrite Hj, !list_insert_id; [done|done|]. by rewrite list_insert_id.
  - destruct (split_two l j i y x Hlt Hj Hi) as (l1 & l2 & l3 & -> & -> & ->). destruct (swap_split l1 l2 l3 y x) as [_ ->]. symmetry. apply Hp.
Qed.

Section Permutes.
Context {A : Type} (less : list A -> nat -> nat -> bool).
Lemma fold_perm {B} (f : list A -> B -> list A) : (forall l b, f l b ≡ₚ l) -> forall bs l, fold_left f bs l ≡ₚ l.
Proof. intros Hf bs. induction bs as [|b bs IH]; intros l; cbn; [done|]. by rewrite IH. Qed.
Lemma insert_down_perm a j : forall l, insert_down less a j l ≡ₚ l.
Proof. induction j as [|j IH]; intros l; cbn [insert_down]; [done|]. case_match; [|done]. by rewrite IH, swap_perm. Qed.
Lemma siftDown_perm hi first : forall fuel root l, siftDown less fuel root hi first l ≡ₚ l.
Proof.
  induction fuel as [|fuel IH]; intros root l; cbn [siftDown]; [done|]. destruct (hi <=? _)%nat; [done|].
  destruct (negb _); [done|]. by rewrite IH, swap_perm.
Qed.
Lemma heapSort_perm a b l : heapSort less a b l ≡ₚ l.
Proof.
  unfold heapSort. rewrite fold_perm; [apply fold_perm; intros; apply siftDown_perm|]. intros l' i. by rewrite siftDown_perm, swap_perm.
Qed.
Lemma reverseRange_perm : forall fuel i j (l : list A), reverseRange fuel i j l ≡ₚ l.
Proof. induction fuel as [|fuel IH]; intros i j l; cbn; [done|]. case_match; [|done]. by rewrite IH, swap_perm. Qed.
Lemma breakPatterns_perm a b (l : list A) : breakPatterns a b l ≡ₚ l.
Proof. unfold breakPatterns. destruct (_ <? 8)%nat; [done|]. cbn [fold_left seq fst snd]. by rewrite !swap_perm. Qed.
Lemma partition_loop_perm a : forall fuel i j l, (partition_loop less fuel a i j l).2 ≡ₚ l.
Proof.
  induction fuel as [|fuel IH]; intros i j l; cbn [partition_loop]; [done|]. case_match; [done|]. by rewrite IH, swap_perm.
Qed.
Lemma partition_perm a b pivot l : (partition less a b pivot l).2 ≡ₚ l.
Proof.
  unfold partition. case_match; [cbn; by rewrite !swap_perm|].
  match goal with |- context [partition_loop ?f ?n ?a ?i ?j ?l'] => pose proof (partition_loop_perm a n i j l') as Hl; destruct (partition_loop f n a i j l') as [[? ?] ?] end.
  cbn in *. by rewrite swap_perm, Hl, !swap_perm.
Qed.
Lemma partitionEqual_loop_perm a : forall fuel i j l, (partitionEqual_loop less fuel a i j l).2 ≡ₚ l.
Proof.
  induction fuel as [|fuel IH]; intros i j l; cbn [partitionEqual_loop]; [done|]. case_match; [done|]. by rewrite IH, swap_perm.
Qed.
Lemma shift_right_perm b : forall fuel j l, shift_right less fuel j b l ≡ₚ l.
Proof. induction fuel as [|fuel IH]; intros j l; cbn [shift_right]; [done|]. case_match; [|done]. by rewrite IH, swap_perm. Qed.
Lemma partialInsertionSort_perm a b : forall steps i l, (partialInsertionSort_loop less steps a b i l).2 ≡ₚ l.
Proof.
  induction steps as [|steps IH]; intros i l; cbn [partialInsertionSort_loop]; [done|]. case_match; [done|]. case_match; [done|]. rewrite IH.
  case_match; rewrite ?shift_right_perm; case_match; rewrite ?insert_down_perm; apply swap_perm.
Qed.
Lemma pdqsort_perm : forall fuel a b limit bal part l, pdqsort less fuel a b limit bal part l ≡ₚ l.
Proof.
  induction fuel as [|fuel IH]; intros a b limit bal part l; cbn [pdqsort]; [done|].
  destruct (_ <=? 12)%nat; [apply fold_perm; intros; apply insert_down_perm|]. destruct (limit =? 0)%nat; [apply heapSort_perm|].
  set (l1 := if bal then (l, limit) else _). assert (l1.1 ≡ₚ l) as H1 by (unfold l1; destruct bal; [done|apply breakPatterns_perm]).
  destruct l1 as [l1 limit1]. destruct (choosePivot less l1 a b) as [pivot hint].
  set (x2 := match hint with unknownHint => _ | _ => _ end).
  assert (x2.2 ≡ₚ l1) as H2 by (unfold x2; destruct hint; [done|done|apply reverseRange_perm]). destruct x2 as [[pivot2 inc] l2].
  set (x3 := if bal && part && inc then _ else _). assert (x3.2 ≡ₚ l2) as H3 by (unfold x3; destruct (bal && part && inc); [apply partialInsertionSort_perm|done]).
  destruct x3 as [sorted l3]. cbn [fst snd] in *. rewrite <- H1, <- H2, <- H3. destruct sorted; [done|].
  destruct ((0 <? a)%nat && _).
  - pose proof (partitionEqual_loop_perm a (length (swap l3 a pivot2)) (a + 1) (b - 1) (swap l3 a pivot2)) as H. unfold partitionEqual.
    destruct (partitionEqual_loop _ _ _ _ _ _) as [mid l4]. cbn in H. by rewrite IH, H, swap_perm.
  - pose proof (partition_perm a b pivot2 l3) as H. destruct (partition less a b pivot2 l3) as [[mid already] l4]. cbn in H.
    destruct (_ <? _)%nat; by rewrite !IH.
Qed.
Lemma Sort_perm l : Sort less l ≡ₚ l.
Proof. unfold Sort. case_match; [done|]. apply pdqsort_perm. Qed.
End Permutes.

Lemma SortKeyValues_perm valid kvs orderedKeys : SortKeyValues valid kvs orderedKeys ≡ₚ kvs.
Proof.
  unfold SortKeyValues. destruct (_ || _); [done|]. rewrite Sort_perm. rewrite snd_zip; [done|].
  destruct (len kvs <=? _); unfold headerOrderRanksLinear, headerOrderRanksMap; rewrite length_fmap; lia.
Qed.

(** ** The two ways to compute ranks agree *)
Section Agree.
Context (ValidHeaderFieldName : string -> bool).
(** Documented: a non-empty token. *)
Hypothesis valid_token : forall v, ValidHeaderFieldName v = negb (String.eqb v "") && forallb validHeaderFieldByte (bytes_of_string v).

Definition canon_byte (up : bool) (c : byte) : byte := if up && is_lower c then c - 32 else if negb up && is_upper c then c + 32 else c.
Lemma byte_facts c : 0 <= c < 256 -> validHeaderFieldByte (lower c) = validHeaderFieldByte c
  /\ forall up, lower (canon_byte up c) = lower c /\ validHeaderFieldByte (canon_byte up c) = validHeaderFieldByte c.
Proof.
  intros Hc. assert (forallb (fun c => Bool.eqb (validHeaderFieldByte (lower c)) (validHeaderFieldByte c)
    && forallb (fun up => (lower (canon_byte up c) =? lower c) && Bool.eqb (validHeaderFieldByte (canon_byte up c)) (validHeaderFieldByte c)) [true; false]) all_bytes = true)
    as H by (vm_compute; reflexivity).
  rewrite forallb_forall in H. specialize (H c ltac:(by apply list_elem_of_In, all_bytes_in)). cbn [forallb] in H.
  rewrite !andb_true_iff, !Z.eqb_eq, !Bool.eqb_true_iff in H. destruct H as (? & (? & ?) & (? & ?) & _). split; [done|]. by intros [].
Qed.
(** The canonical form depends on the lower-case form only. *)
Lemma canonical_bytes_lower p : forall up q, Forall (fun b => 0 <= b < 256) p -> Forall (fun b => 0 <= b < 256) q ->
  lower <$> p = lower <$> q -> canonical_bytes up p = canonical_bytes up q.
Proof.
  induction p as [|c p IH]; intros up [|d q] Hp Hq H; try done. apply Forall_cons in Hp as [Hc Hp], Hq as [Hd Hq]. injection H as Hcd H.
  cbn [canonical_bytes]. fold (canon_byte up c) (canon_byte up d). assert (canon_byte up c = canon_byte up d) as ->; [|f_equal; by apply IH].
  unfold canon_byte, lower, is_upper, is_lower in *. destruct up; cbn [andb negb]; repeat case_match; lia.
Qed.
Lemma lower_canonical p : forall up, Forall (fun b => 0 <= b < 256) p -> lower <$> canonical_bytes up p = lower <$> p.
Proof.
  induction p as [|c p IH]; intros up Hp; [done|]. apply Forall_cons in Hp as [Hc Hp]. cbn [canonical_bytes fmap list_fmap]. fold (canon_byte up c).
  f_equal; [by apply (byte_facts c Hc)|]. by apply IH.
Qed.
Lemma valid_canonical p : forall up, Forall (fun b => 0 <= b < 256) p ->
  forallb validHeaderFieldByte (canonical_bytes up p) = forallb validHeaderFieldByte p.
Proof.
  induction p as [|c p IH]; intros up Hp; [done|]. apply Forall_cons in Hp as [Hc Hp]. cbn [canonical_bytes forallb]. fold (canon_byte up c).
  f_equal; [by apply (byte_facts c Hc)|]. by apply IH.
Qed.
Lemma valid_lower p q : Forall (fun b => 0 <= b < 256) p -> Forall (fun b => 0 <= b < 256) q -> lower <$> p = lower <$> q ->
  forallb validHeaderFieldByte p = forallb validHeaderFieldByte q.
Proof.
  revert q. induction p as [|c p IH]; intros [|d q] Hp Hq H; try done. apply Forall_cons in Hp as [Hc Hp], Hq as [Hd Hq]. injection H as Hcd H.
  cbn [forallb]. rewrite (IH q Hp Hq H). f_equal. rewrite <- (proj1 (byte_facts c Hc)), <- (proj1 (byte_facts d Hd)). by rewrite Hcd.
Qed.

Lemma CanonicalHeaderKey_bytes v : forallb validHeaderFieldByte (bytes_of_string v) = true ->
  bytes_of_string (CanonicalHeaderKey v) = canonical_bytes true (bytes_of_string v).
Proof.
  intros Hv. unfold CanonicalHeaderKey. rewrite Hv. apply bytes_of_string_of_bytes, canonical_bytes_ok, bytes_of_string_ok.
Qed.

Lemma canonicalHeaderKeyEqual_spec a b :
  canonicalHeaderKeyEqual ValidHeaderFieldName a b = bool_decide (CanonicalHeaderKey a = CanonicalHeaderKey b).
Proof.
  unfold canonicalHeaderKeyEqual. destruct (String.eqb_spec a b) as [->|Hne]; [by rewrite bool_decide_true|]. cbn [orb].
  pose proof (string_bytes_range a) as Ha. pose proof (string_bytes_range b) as Hb. rewrite EqualFold_spec, valid_token.
  apply eq_true_iff_eq. rewrite !andb_true_iff, !bool_decide_eq_true. split.
  - intros [Hl [_ Hv]]. unfold CanonicalHeaderKey. rewrite Hv, <- (valid_lower _ _ Ha Hb Hl), Hv. f_equal. by apply canonical_bytes_lower.
  - intros Heq. destruct (forallb validHeaderFieldByte (bytes_of_string a)) eqn:Eva, (forallb validHeaderFieldByte (bytes_of_string b)) eqn:Evb.
    + apply (f_equal bytes_of_string) in Heq. rewrite !CanonicalHeaderKey_bytes in Heq by done. apply (f_equal (fmap lower)) in Heq.
      rewrite !lower_canonical in Heq by done. splits; [done| |done]. destruct a; [|done]. destruct b; [done|]. done.
    + exfalso. assert (forallb validHeaderFieldByte (bytes_of_string (CanonicalHeaderKey a)) = true) as H by (rewrite CanonicalHeaderKey_bytes, valid_canonical by done; done).
      rewrite Heq in H. unfold CanonicalHeaderKey in H. rewrite Evb in H. congruence.
    + exfalso. assert (forallb validHeaderFieldByte (bytes_of_string (CanonicalHeaderKey b)) = true) as H by (rewrite CanonicalHeaderKey_bytes, valid_canonical by done; done).
      rewrite <- Heq in H. unfold CanonicalHeaderKey in H. rewrite Eva in H. congruence.
    + exfalso. unfold CanonicalHeaderKey in Heq. rewrite Eva, Evb in Heq. done.
Qed.

Lemma rank_linear_map key : forall ks pos rank m, default (-1) (m !! CanonicalHeaderKey key) = rank ->
  rank_linear ValidHeaderFieldName key ks pos rank = default (-1) (order_map ks pos m !! CanonicalHeaderKey key).
Proof.
  induction ks as [|k ks IH]; intros pos rank m Hm; cbn; [done|]. apply IH. rewrite canonicalHeaderKeyEqual_spec.
  destruct (bool_decide_reflect (CanonicalHeaderKey key = CanonicalHeaderKey k)) as [->|Hne]; [by rewrite lookup_insert_eq|].
  by rewrite lookup_insert_ne.
Qed.

(** The linear scan used for short lists and the map used for long ones give
    every field the same rank, also with repeated or invalid names, so the size
    of a request does not change how names are matched. *)
Theorem header_ranks_agree kvs orderedKeys :
  headerOrderRanksLinear ValidHeaderFieldName kvs orderedKeys = headerOrderRanksMap kvs orderedKeys.
Proof. unfold headerOrderRanksLinear, headerOrderRanksMap. apply list_fmap_ext. intros _ kv _. by apply rank_linear_map. Qed.
End Agree.

Definition token_name (v : string) : bool := negb (String.eqb v "") && forallb validHeaderFieldByte (bytes_of_string v).
Lemma header_ranks_agree_witness :
  headerOrderRanksLinear token_name [mkKeyValues "user-agent" []; mkKeyValues "x y" []] ["x y"; "User-Agent"; "USER-AGENT"]%string
  = headerOrderRanksMap [mkKeyValues "user-agent" []; mkKeyValues "x y" []] ["x y"; "User-Agent"; "USER-AGENT"]%string.
Proof. apply (header_ranks_agree token_name). intros v. reflexivity. Defined.

(** ** Up to twelve fields: insertion sort *)
(** The elements before an index, from the nearest to the first; the key of an
    element without a rank is its index. *)
Abbreviation ranked x := (0 <=? fst x).
Definition key_at (x : Z * KeyValues) (i : nat) : Z := if ranked x then x.1 else Z.of_nat i.
Fixpoint ins (e : Z * KeyValues) (p : list (Z * KeyValues)) : list (Z * KeyValues) :=
  match p with
  | [] => [e]
  | x :: p' => if key_at e (length p) <? key_at x (length p') then x :: ins e p' else e :: x :: p'
  end.

Lemma sorter_key_at l i x : l !! i = Some x -> sorter_key l i = key_at x i.
Proof. unfold sorter_key, key_at. intros ->. by destruct x. Qed.
Lemma rev_lookup {A} (p : list A) x q : (rev p ++ x :: q) !! length p = Some x.
Proof. rewrite <- length_rev. by apply list_lookup_middle. Qed.

Lemma insert_down_ins : forall p e q, insert_down sorter_Less 0 (length p) (rev p ++ e :: q) = rev (ins e p) ++ q.
Proof.
  induction p as [|x p IH]; intros e q; [done|]. cbn [length insert_down ins]. change (0 <? S (length p))%nat with true. cbn [andb].
  assert ((rev (x :: p) ++ e :: q) !! S (length p) = Some e) as He by apply (rev_lookup (x :: p)).
  assert ((rev (x :: p) ++ e :: q) !! length p = Some x) as Hx by (cbn [rev]; rewrite <- app_assoc; apply rev_lookup).
  unfold sorter_Less at 1. rewrite (sorter_key_at _ _ _ He), (sorter_key_at _ _ _ Hx). cbn [length].
  destruct (key_at e (S (length p)) <? key_at x (length p)); [|cbn [rev]; by rewrite <- !app_assoc].
  assert (swap (rev (x :: p) ++ e :: q) (S (length p)) (length p) = rev p ++ e :: x :: q) as ->.
  { unfold swap. rewrite He, Hx. cbn [rev]. rewrite <- app_assoc. cbn [app].
    replace (S (length p)) with (length (rev p) + 1)%nat by (rewrite length_rev; lia). replace (length p) with (length (rev p) + 0)%nat by (rewrite length_rev; lia).
    by rewrite !insert_app_r. }
  rewrite IH. cbn [rev]. by rewrite <- app_assoc.
Qed.

(** What the prefix sorted so far satisfies: its ranks ascend, and what stands
    before an element without a rank has a rank at most its index. *)
Fixpoint good (p : list (Z * KeyValues)) : Prop :=
  match p with
  | [] => True
  | x :: p' => good p' /\ Forall (fun y => ranked y = true -> y.1 <= (if ranked x then x.1 else Z.of_nat (length p'))) p'
  end.

Lemma ins_perm e p : ins e p ≡ₚ e :: p.
Proof. induction p as [|x p IH]; cbn; [done|]. case_match; [|done]. rewrite IH. by constructor. Qed.
Lemma length_ins e p : length (ins e p) = S (length p).
Proof. by rewrite (Permutation_length (ins_perm e p)). Qed.

Lemma ins_good e p : good p -> good (ins e p).
Proof.
  induction p as [|x p IH]; cbn [ins good]; [by repeat constructor|]. intros [Hp Hx]. unfold key_at. cbn [length].
  destruct (Z.ltb_spec (if ranked e then e.1 else Z.of_nat (S (length p))) (if ranked x then x.1 else Z.of_nat (length p))) as [Hlt|Hge]; cbn [good].
  - split; [by apply IH|]. rewrite (ins_perm e p), length_ins. apply Forall_cons. split.
    + intros He. rewrite He in Hlt. destruct (ranked x); lia.
    + eapply Forall_impl; [exact Hx|]. intros y Hy Hr. specialize (Hy Hr). destruct (ranked x); lia.
  - splits; [done|done|]. apply Forall_cons. split.
    + intros Hrx. rewrite Hrx in Hge. cbn [length]. destruct (ranked e); lia.
    + eapply Forall_impl; [exact Hx|]. intros y Hy Hr. specialize (Hy Hr). cbn [length]. destruct (ranked e), (ranked x) eqn:Erx; lia.
Qed.

Lemma insertionSort_good l : exists p, insertionSort sorter_Less 0 (length l) l = rev p /\ good p /\ p ≡ₚ l.
Proof.
  unfold insertionSort. destruct l as [|x l]; [by exists []|]. cbn [length]. replace (S (length l) - 0 - 1)%nat with (length l) by lia. cbn [Nat.add].
  assert (forall q p, good p -> p <> [] -> exists p', fold_left (fun l i => insert_down sorter_Less 0 i l) (seq (length p) (length q)) (rev p ++ q) = rev p'
    /\ good p' /\ p' ≡ₚ p ++ q) as H.
  { clear. induction q as [|e q IH]; intros p Hp Hne; [exists p; rewrite !app_nil_r; done|]. cbn [length seq fold_left].
    rewrite insert_down_ins. destruct (IH (ins e p)) as (p' & E & Hg & Hperm); [by apply ins_good|by destruct p as [|? ?]; cbn; [|case_match]|].
    rewrite length_ins in E. exists p'. splits; [done|done|]. rewrite Hperm, (ins_perm e p). cbn. by rewrite Permutation_middle. }
  destruct (H l [x]) as (p & E & Hg & Hperm); [by repeat constructor|done|]. exists p. done.
Qed.

Definition ranked_part (l : list (Z * KeyValues)) : list Z := (filter (fun x => ranked x = true) l).*1.
Lemma good_sorted p : good p -> StronglySorted Z.le (ranked_part (rev p)).
Proof.
  unfold ranked_part. induction p as [|x p IH]; intros Hg; [constructor|]. destruct Hg as [Hg Hx]. cbn [rev]. rewrite filter_app, fmap_app.
  destruct (ranked x) eqn:Ex.
  - rewrite (filter_cons_True _ x []) by done. cbn. specialize (IH Hg).
    assert (Forall (fun y => y <= x.1) (filter (fun x => ranked x = true) (rev p)).*1) as Hall.
    { apply Forall_fmap, Forall_forall. intros y Hy. apply list_elem_of_filter in Hy as [Hr Hy]. rewrite Forall_forall in Hx. apply Hx; [|done]. by rewrite (Permutation_rev p). }
    clear -IH Hall. induction (filter (fun x0 => ranked x0 = true) (rev p)).*1 as [|a l IHl]; cbn; [by repeat constructor|].
    apply StronglySorted_inv in IH as [Hs Ha]. apply Forall_cons in Hall as [Hal Hall]. constructor; [by apply IHl|].
    apply Forall_app. split; [done|]. by constructor.
  - rewrite (filter_cons_False _ x []) by (rewrite Ex; done). cbn. rewrite app_nil_r. by apply IH.
Qed.

Definition rank_of (orderedKeys : list string) (kv : KeyValues) : Z := default (-1) (order_map orderedKeys 0 ∅ !! CanonicalHeaderKey (kv_Key kv)).
(** The ranks, in their order, of the fields that have one. *)
Definition ranks_out (orderedKeys : list string) (kvs : list KeyValues) : list Z :=
  filter (fun r => (0 <=? r) = true) (rank_of orderedKeys <$> kvs).

Lemma order_map_empty_ranks kvs : ranks_out [] kvs = [].
Proof. unfold ranks_out. induction kvs as [|kv kvs IH]; [done|]. cbn [fmap list_fmap]. rewrite filter_cons_False; [exact IH|done]. Qed.

Lemma ranked_part_ranks ks (l : list (Z * KeyValues)) : Forall (fun x => x.1 = rank_of ks x.2) l -> ranked_part l = ranks_out ks l.*2.
Proof.
  unfold ranked_part, ranks_out. induction 1 as [|x l Hx Hl IH]; [done|]. cbn [fmap list_fmap].
  destruct (ranked x) eqn:Ex; rewrite Hx in Ex.
  - rewrite !filter_cons_True by (rewrite ?Hx; done). cbn [fmap list_fmap]. by rewrite Hx, IH.
  - rewrite !filter_cons_False by (rewrite ?Hx, Ex; done). done.
Qed.

Lemma Sort_short (l : list (Z * KeyValues)) : (length l <= 12)%nat ->
  exists p, Sort sorter_Less l = rev p /\ good p /\ p ≡ₚ l.
Proof.
  intros Hl. unfold Sort. destruct (Nat.leb_spec (length l) 1) as [H1|H1].
  - exists l. destruct l as [|x [|]]; [done| |cbn in H1; lia]. splits; [done|by repeat constructor|done].
  - destruct (length l) as [|n] eqn:En; [lia|]. cbn [pdqsort]. rewrite Nat.sub_0_r, (proj2 (Nat.leb_le (S n) 12)) by lia.
    rewrite <- En. apply insertionSort_good.
Qed.

Section Order.
Context (ValidHeaderFieldName : string -> bool).
Hypothesis valid_token : forall v, ValidHeaderFieldName v = negb (String.eqb v "") && forallb validHeaderFieldByte (bytes_of_string v).

(** The order asked for is kept, for up to twelve fields. The fields written
    are the fields given, each once, and those whose names are listed come in the
    order of the list (the last position counts for a repeated name), wherever the
    others end up. *)
Theorem header_order_kept kvs orderedKeys : (length kvs <= 12)%nat ->
  SortKeyValues ValidHeaderFieldName kvs orderedKeys ≡ₚ kvs
  /\ StronglySorted Z.le (ranks_out orderedKeys (SortKeyValues ValidHeaderFieldName kvs orderedKeys)).
Proof.
  intros Hlen. unfold SortKeyValues. rewrite (header_ranks_agree _ valid_token).
  set (ranks := if len kvs <=? _ then headerOrderRanksMap kvs orderedKeys else headerOrderRanksMap kvs orderedKeys).
  assert (ranks = rank_of orderedKeys <$> kvs) as -> by (unfold ranks; by destruct (len kvs <=? _)).
  destruct (Z.ltb_spec (len kvs) 2) as [H2|H2]; cbn [orb].
  { split; [done|]. destruct kvs as [|kv [|? ?]]; [constructor| |unfold len in H2; cbn in H2; lia]. unfold ranks_out. cbn [fmap list_fmap].
    destruct (0 <=? rank_of orderedKeys kv) eqn:E; [rewrite filter_cons_True by done|rewrite filter_cons_False by (rewrite E; done)]; by repeat constructor. }
  destruct (Z.eqb_spec (len orderedKeys) 0) as [H0|H0].
  { split; [done|]. assert (orderedKeys = []) as -> by (apply nil_length_inv; unfold len in H0; lia). rewrite order_map_empty_ranks. constructor. }
  set (l := zip (rank_of orderedKeys <$> kvs) kvs).
  assert (l.*2 = kvs) as Hl2 by (unfold l; apply snd_zip; rewrite length_fmap; lia).
  assert (length l = length kvs) as Hll by (by rewrite <- Hl2, length_fmap).
  destruct (Sort_short l ltac:(lia)) as (p & -> & Hg & Hp).
  assert (rev p ≡ₚ l) as Hr by (by rewrite <- (Permutation_rev p)). split; [by rewrite Hr, Hl2|].
  rewrite <- ranked_part_ranks; [by apply good_sorted|]. rewrite Hr. unfold l. clear. induction kvs as [|kv kvs IH]; cbn; by constructor.
Qed.
End Order.

Definition field (k : string) : KeyValues := mkKeyValues k [].
Lemma header_order_kept_witness :
  SortKeyValues token_name (field <$> ["x"; "b"; "y"; "A"]%string) ["a"; "b"]%string ≡ₚ (field <$> ["x"; "b"; "y"; "A"]%string)
  /\ StronglySorted Z.le (ranks_out ["a"; "b"]%string (SortKeyValues token_name (field <$> ["x"; "b"; "y"; "A"]%string) ["a"; "b"]%string)).
Proof. apply (header_order_kept token_name); [intros v; reflexivity|cbn; lia]. Defined.

(** With more fields it is not. [Less] compares a rank with the current index
    of a field without one, so its answer on two fields changes as they move, and
    the quicksort used beyond twelve fields leaves listed fields in another order:
    of these sixteen fields the ones listed first to fifth are written first,
    third, second, fourth, fifth. *)
Theorem header_order_lost :
  let kvs := field <$> ["u0"; "u1"; "u2"; "u3"; "a"; "u5"; "b"; "u7"; "u8"; "c"; "u10"; "e"; "u12"; "d"; "u14"; "u15"]%string in
  let order := ["A"; "B"; "C"; "D"; "E"]%string in
  ranks_out order (SortKeyValues token_name kvs order) = [0; 2; 1; 3; 4].
Proof. vm_compute. reflexivity. Qed.
