(* ===== verification/H1Request.v ===== *)
(** * Writing requests: the head ([persistConn.writeRequest], [src/header.go])

    The request line and the header fields of an HTTP/1 request, their order, the
    checks on what goes into them, and the body behind them. *)

From S2P Require Import Prelude.
From S2P Require Import H2Errors.
From S2P Require Import NetText.
From S2P Require Import FrameWrite.
From S2P Require Import H2Transport.
From S2P Require Import Bufio.
From S2P Require Import BufioLine.
From S2P Require Import Chunked.
From S2P Require Import TextProto.
From S2P Require Import Transfer.
From S2P Require Import TransferBody.
From S2P Require Import TransferWrite.
From S2P Require Import HeaderSort.

(** ** Strings *)
Definition removeZone (host : string) : string :=
  if negb (has_prefix "[" host) then host else
  match cut_last 93 (bytes_of_string host) with
  | None => host
  | Some (before, after) =>
      match cut_last 37 before with
      | None => host
      | Some (addr, _) => string_of_bytes (addr ++ 93 :: after)
      end
  end.
Definition stringContainsCTLByte (s : string) : bool := existsb (fun b => (b <? 32) || (b =? 127)) (bytes_of_string s).

(** The parts of a [url.URL] used here; [u_RequestURI] is [RequestURI()]. *)
Record URL := mkURL { u_Scheme : string; u_Opaque : string; u_Host : string; u_Path : string; u_RequestURI : string }.
(** A request: its host, URL (if any) and what [TransferWrite] uses. *)
Record outRequest := mkOutRequest { or_req : httpRequest; or_Host : string; or_URL : option URL }.

Definition HeaderOderKey : string := "__header_order__".
Definition PseudoHeaderOderKey : string := "__pseudo_header_order__".
Definition DefaultUserAgent : string := "req/v3 (https://github.com/jwwsjlm/req)".
Definition reqWriteExcludeHeader : list string :=
  ["Host"; "User-Agent"; "Content-Length"; "Transfer-Encoding"; "Trailer"; HeaderOderKey; PseudoHeaderOderKey]%string.
Definition errMissingHost : error := errors_New "http: Request.Write on Request with no Host or URL set".

Section Head.
(** [httpguts.PunycodeHostPort], [ValidHostHeader], [ValidHeaderFieldName] and
    [ValidHeaderFieldValue]; the order in which a map is ranged over. *)
Context (PunycodeHostPort : string -> result error string) (ValidHostHeader ValidHeaderFieldName ValidHeaderFieldValue : string -> bool)
  (map_range : Header -> list (string * list string)).

Definition validateHeaders (hdrs : Header) : option string :=
  match list_find (fun kv : string * list string => negb (ValidHeaderFieldName kv.1) || existsb (fun v => negb (ValidHeaderFieldValue v)) kv.2 = true) (map_range hdrs) with
  | Some (_, (k, _)) => Some (if negb (ValidHeaderFieldName k) then "field name " +:+ k else "field value for " +:+ k)%string
  | None => None
  end.

(** ** Header fields *)
Definition headerSortedKeyValues (h : Header) (exclude : list string) : list (string * list string) :=
  (fun k => (k, Header_values h k)) <$> filter (fun k => k ∉ exclude) (sort_strings (map_to_list h).*1).
(** The calls of [writeHeader]. *)
Definition headerWriteSubset (h : Header) (exclude : list string) (sort : bool) : list (string * list string) :=
  let kvs := if sort then filter (fun kv : string * list string => kv.1 ∉ exclude) (map_range h) else headerSortedKeyValues h exclude in
  (fun kv : string * list string => (kv.1, written_value <$> kv.2)) <$> filter (fun kv : string * list string => ValidHeaderFieldName kv.1 = true) kvs.
Definition headerWrite (h : Header) (sort : bool) : list (string * list string) := headerWriteSubset h [] sort.

Definition lines_of (kvs : list (string * list string)) : list (string * string) :=
  flat_map (fun kv : string * list string => (fun v => (kv.1, v)) <$> kv.2) kvs.

(** The host written, from [r.Host] or the URL. *)
Definition request_host (r : outRequest) (usingProxy : bool) : result error string :=
  match (if String.eqb (or_Host r) "" then match or_URL r with None => Err errMissingHost | Some u => Ok (u_Host u) end else Ok (or_Host r)) with
  | Err e => Err e
  | Ok host =>
      match PunycodeHostPort host with
      | Err e => Err e
      | Ok host =>
          if ValidHostHeader host then Ok (removeZone host)
          else if negb usingProxy then Ok (removeZone "")
          else Err (errors_New "http: invalid Host header")
      end
  end.
Definition request_uri (u : URL) (method host : string) (usingProxy : bool) : string :=
  if usingProxy && negb (String.eqb (u_Scheme u) "") && String.eqb (u_Opaque u) ""
  then u_Scheme u +:+ "://" +:+ host +:+ u_RequestURI u
  else if String.eqb method "CONNECT" && String.eqb (u_Path u) ""
  then if negb (String.eqb (u_Opaque u) "") then u_Opaque u else host
  else u_RequestURI u.

Definition with_order (r : outRequest) : list string := Header_values (rq_Header (or_req r)) HeaderOderKey.
(** The header lines written, in order. *)
Definition ordered (r : outRequest) (kvs : list (string * list string)) : list (string * list string) :=
  match with_order r with
  | [] => kvs
  | order => (fun kv => (kv_Key kv, kv_Values kv)) <$> SortKeyValues ValidHeaderFieldName ((fun kv : string * list string => mkKeyValues kv.1 kv.2) <$> kvs) order
  end.
Definition userAgent (h : Header) : string := if headerHas h "User-Agent" then Header_Get h "User-Agent" else DefaultUserAgent.

(** The lines of a head, in the order they are produced. *)
Definition first_kvs (r : outRequest) (host : string) : list (string * list string) :=
  let ua := userAgent (rq_Header (or_req r)) in
  ("Host", [host])%string :: (if String.eqb ua "" then [] else [("User-Agent", [ua])])%string.
Definition head_kvs (r : outRequest) (host : string) (framing : list (string * list string)) (extraHeaders : option Header) : list (string * list string) :=
  let sort := negb (bool_decide (with_order r = [])) in
  first_kvs r host ++ framing ++ headerWriteSubset (rq_Header (or_req r)) reqWriteExcludeHeader sort
  ++ match extraHeaders with Some h => headerWrite h sort | None => [] end.
Definition request_line (method ruri : string) : string := valueOrDefault method "GET" +:+ " " +:+ ruri +:+ " HTTP/1.1".

Section Write.
Context {W : Type} `{Writer W}.

(** The calls of [_writeHeader] for sorted fields, whose errors are dropped. *)
Fixpoint write_lenient (w : W) (ps : list bytes) : W :=
  match ps with [] => w | p :: ps => let '(w, _, _) := wr_Write w p in write_lenient w ps end.

(** [writeRequest] with the outcome [proceed] of [waitForContinue] ([None]: it is
    nil) and [slow] of the probe of the body; [flush] is [bufio.Writer.Flush]. A
    body that is not sent is closed, and its error does not count. *)
Definition writeRequest (r : outRequest) (w : W) (flush : option (W -> W * option error)) (usingProxy : bool) (extraHeaders : option Header)
    (proceed : option bool) (slow : bool) : option (W * option error) :=
  let early (e : error) : option (W * option error) := Some (w, Some e) in
  match request_host r usingProxy with
  | Err e => early e
  | Ok host =>
      match or_URL r with
      | None => None (* a nil dereference *)
      | Some u =>
          let ruri := request_uri u (rq_Method (or_req r)) host usingProxy in
          if stringContainsCTLByte ruri then early (errors_New "net/http: can't write control character in Request.URL") else
          let line := bytes_of_string (request_line (rq_Method (or_req r)) ruri) ++ [13; 10] in
          let sort := negb (bool_decide (with_order r = [])) in
          let first := first_kvs r host in
          let now (kvs : list (string * list string)) : list bytes := if sort then [] else field_bytes <$> lines_of kvs in
          match newTransferWriter slow (or_req r) with
          | Err e => let '(w, werr) := write_all w (line :: now first) in Some (w, Some (default e werr))
          | Ok tw =>
              match writeHeader tw with
              | Err e => let '(w, werr) := write_all w (line :: now first) in Some (w, Some (default e werr))
              | Ok framing =>
                  let fields := field_bytes <$> lines_of (ordered r (head_kvs r host framing extraHeaders)) in
                  match (if sort then
                           match write_all w [line] with
                           | (w, Some e) => (w, Some e)
                           | (w, None) => write_all (write_lenient w fields) [[13; 10]]
                           end
                         else write_all w (line :: fields ++ [[13; 10]])) with
                  | (w, Some e) => Some (w, Some e)
                  | (w, None) =>
                      match proceed with
                      | Some false => Some (w, None)
                      | _ => writeBody flush tw w
                      end
                  end
              end
          end
      end
  end.
End Write.
End Head.

(** ** What is safe to write *)
Lemma trim_left_spec p : exists q, p = q ++ trim_left p /\ match head (trim_left p) with Some b => is_space b = false | None => True end.
Proof.
  induction p as [|b p IH]; cbn [trim_left]; [by exists []|]. destruct (isASCIISpace b) eqn:E.
  - destruct IH as (q & Hq & Hh). exists (b :: q). split; [|done]. cbn. by rewrite <- Hq.
  - exists []. split; [done|]. cbn. unfold isASCIISpace in E. unfold is_space. apply orb_false_iff in E as [E _]. apply orb_false_iff in E as [E _]. exact E.
Qed.
Lemma trim_bytes_ends p : trim_bytes p ⊆ p
  /\ match head (trim_bytes p) with Some b => is_space b = false | None => True end
  /\ match last (trim_bytes p) with Some b => is_space b = false | None => True end.
Proof.
  unfold trim_bytes. destruct (trim_left_spec p) as (q & Hq & Hh). set (x := trim_left p) in *.
  destruct (trim_left_spec (reverse x)) as (q2 & Hq2 & Hh2). set (y := trim_left (reverse x)) in *.
  assert (x = reverse y ++ reverse q2) as Hx by (rewrite <- reverse_app, <- Hq2; by rewrite reverse_involutive).
  splits.
  - intros b Hb. rewrite Hq, elem_of_app. right. rewrite Hx, elem_of_app. by left.
  - rewrite Hx in Hh. destruct (reverse y); [done|exact Hh].
  - by rewrite last_reverse.
Qed.

Definition value_ok (v : string) : Prop := forallb validHeaderValueByte (bytes_of_string v) = true
  /\ match head (bytes_of_string v) with Some b => is_space b = false | None => True end
  /\ match last (bytes_of_string v) with Some b => is_space b = false | None => True end.
Lemma field_ok_intro k v : token_name k = true -> value_ok v -> field_ok (k, v).
Proof.
  unfold token_name, field_ok. intros [Hk Ht]%andb_prop (Hv & Hh & Hl). cbn [fst snd]. apply forallb_Forall in Ht, Hv. splits; try done.
  intros E. apply negb_true_iff, String.eqb_neq in Hk. by destruct k.
Qed.
Lemma newline_to_space_valid v : forallb validHeaderValueByte (bytes_of_string v) = true -> newline_to_space v = v.
Proof.
  intros Hv. apply forallb_Forall in Hv. unfold newline_to_space, map_string. rewrite <- (string_of_bytes_of_string v) at 2. f_equal.
  pose proof (table_byte v) as Ht. revert Hv Ht. generalize (bytes_of_string v). intros p. induction p as [|b p IH]; intros Hv Ht; cbn; [done|].
  apply Forall_cons in Hv as [Hb Hv]. rewrite IH; [|done|intros c Hc; apply Ht; by right]. f_equal.
  destruct (Ht b ltac:(by left)) as (_ & _ & E). rewrite E in Hb.
  destruct (Z.eqb_spec b 10) as [->|_]; [discriminate Hb|]. by destruct (Z.eqb_spec b 13) as [->|_]; [discriminate Hb|].
Qed.
Lemma written_value_ok v : forallb validHeaderValueByte (bytes_of_string v) = true -> value_ok (written_value v).
Proof.
  intros Hv. unfold written_value. rewrite newline_to_space_valid by done. unfold TrimString, value_ok.
  destruct (trim_bytes_ends (bytes_of_string v)) as (Hsub & Hh & Hl). rewrite bytes_of_string_of_bytes; [splits; [|done|done]|].
  - apply forallb_Forall, Forall_forall. intros b Hb. apply forallb_Forall in Hv. rewrite Forall_forall in Hv. by apply Hv, Hsub.
  - apply Forall_forall. intros b Hb. pose proof (string_bytes_range v) as Hr. rewrite Forall_forall in Hr. by apply Hr, Hsub.
Qed.
(** Visible ASCII. *)
Definition visible (b : byte) : bool := (32 <? b) && (b <? 127).
Lemma visible_value_ok v : forallb visible (bytes_of_string v) = true -> value_ok v.
Proof.
  intros Hv. apply forallb_Forall in Hv. assert (Forall (fun b => is_space b = false) (bytes_of_string v)) as Hs.
  { eapply Forall_impl; [exact Hv|]. unfold visible, is_space. intros b ?. lia. }
  unfold value_ok. splits.
  - apply forallb_Forall, Forall_forall. intros b Hb. destruct (table_byte v b Hb) as (_ & _ & ->).
    rewrite Forall_forall in Hv. specialize (Hv b Hb). unfold visible in Hv. lia.
  - destruct (bytes_of_string v); [done|]. by apply Forall_cons in Hs as [? _].
  - destruct (last (bytes_of_string v)) as [b|] eqn:E; [|done]. rewrite Forall_forall in Hs. apply Hs. by apply last_Some_elem_of.
Qed.
Lemma token_visible k : forallb validHeaderFieldByte (bytes_of_string k) = true -> forallb visible (bytes_of_string k) = true.
Proof.
  intros Hk. apply forallb_Forall in Hk. apply forallb_Forall, Forall_forall. intros b Hb. rewrite Forall_forall in Hk. specialize (Hk b Hb).
  pose proof (string_bytes_range k) as Hr. rewrite Forall_forall in Hr. specialize (Hr b Hb).
  assert (forallb (fun b => implb (validHeaderFieldByte b) (visible b)) all_bytes = true) as H by (vm_compute; reflexivity).
  rewrite forallb_forall in H. specialize (H b). rewrite <- list_elem_of_In in H. specialize (H (all_bytes_in b Hr)). by rewrite Hk in H.
Qed.
Lemma format_dec_visible n : forallb visible (bytes_of_string (format_dec n)) = true.
Proof.
  assert (forall d, visible (Z.of_N (Ascii.N_of_ascii (pretty_N_char d))) = true) as Hd.
  { intros d. unfold pretty_N_char. by repeat case_match. }
  assert (forall x s, forallb visible (bytes_of_string s) = true -> forallb visible (bytes_of_string (pretty_N_go x s)) = true) as Hgo.
  { intros x. induction (N.lt_wf_0 x) as [x _ IH]. intros s Hs. destruct (decide (0 < x)%N) as [Hx|Hx].
    - rewrite pretty_N_go_step by done. apply IH; [by apply N.div_lt; lia|]. cbn [bytes_of_string forallb]. by rewrite Hd.
    - assert (x = 0%N) as -> by lia. by rewrite pretty_N_go_0. }
  unfold format_dec. destruct n as [|p|p]; [done| |].
  - change (pretty (Z.pos p)) with (pretty_N_go (N.pos p) EmptyString). by apply Hgo.
  - change (pretty (Z.neg p)) with (String.append "-" (pretty_N_go (N.pos p) EmptyString)). rewrite bytes_of_string_app, forallb_app. by rewrite Hgo.
Qed.

Section Safe.
Context (PunycodeHostPort : string -> result error string) (ValidHostHeader ValidHeaderFieldName ValidHeaderFieldValue : string -> bool)
  (map_range : Header -> list (string * list string)).
(** Documented: names are tokens, values have no control characters but tabs, a
    host header consists of visible characters; a range visits each entry once. *)
Hypothesis name_token : forall k, ValidHeaderFieldName k = token_name k.
Hypothesis value_bytes : forall v, ValidHeaderFieldValue v = forallb validHeaderValueByte (bytes_of_string v).
Hypothesis host_visible : forall h, ValidHostHeader h = true -> forallb visible (bytes_of_string h) = true.
Hypothesis range_all : forall h, map_range h ≡ₚ map_to_list h.
Abbreviation validate := (validateHeaders ValidHeaderFieldName ValidHeaderFieldValue map_range).
Abbreviation subset := (headerWriteSubset ValidHeaderFieldName map_range).

Lemma validated h k vs : validate h = None -> h !! k = Some vs ->
  token_name k = true /\ Forall (fun v => forallb validHeaderValueByte (bytes_of_string v) = true) vs.
Proof.
  unfold validateHeaders. destruct (list_find _ (map_range h)) as [[? []]|] eqn:E; [done|]. intros _ Hk. rewrite list_find_None in E.
  rewrite Forall_forall in E. specialize (E (k, vs)). cbn [fst snd] in E. rewrite name_token in E.
  assert (negb (token_name k) || existsb (fun v => negb (ValidHeaderFieldValue v)) vs <> true) as [Hn He]%not_true_iff_false%orb_false_iff.
  { apply E. rewrite range_all. by apply elem_of_map_to_list. }
  split; [by apply negb_false_iff|]. apply Forall_forall. intros v Hv. rewrite <- value_bytes. apply not_false_iff_true. intros Hf.
  apply not_true_iff_false in He. apply He, existsb_exists. exists v. rewrite Hf. split; [by apply list_elem_of_In|done].
Qed.

Lemma in_lines kvs k v : (k, v) ∈ lines_of kvs <-> exists vs, (k, vs) ∈ kvs /\ v ∈ vs.
Proof.
  unfold lines_of. rewrite list_elem_of_In, in_flat_map. setoid_rewrite <- list_elem_of_In. split.
  - intros ([k' vs] & Hin & (v' & [= -> ->] & Hv)%list_elem_of_fmap). by exists vs.
  - intros (vs & Hin & Hv). exists (k, vs). split; [done|]. apply list_elem_of_fmap; by exists v.
Qed.
(** A field that is written is one of the header's, and its value is trimmed. *)
Lemma subset_in h exclude sort k vs : (k, vs) ∈ subset h exclude sort ->
  exists us, h !! k = Some us /\ (k ∉ exclude) /\ vs = (written_value <$> us).
Proof.
  unfold headerWriteSubset. intros ([k' us] & [= -> ->] & [_ Hin]%list_elem_of_filter)%list_elem_of_fmap. cbn [fst snd]. exists us. destruct sort.
  - apply list_elem_of_filter in Hin as [He Hin]. rewrite range_all in Hin. by apply elem_of_map_to_list in Hin.
  - unfold headerSortedKeyValues in Hin. apply list_elem_of_fmap in Hin as (k2 & [= -> ->] & Hin). apply list_elem_of_filter in Hin as [He Hin].
    rewrite sort_strings_perm in Hin. apply list_elem_of_fmap in Hin as ([k3 us] & -> & Hin). apply elem_of_map_to_list in Hin. cbn [fst].
    unfold Header_values. rewrite Hin. done.
Qed.
Lemma subset_ok h exclude sort : validate h = None -> Forall field_ok (lines_of (subset h exclude sort)).
Proof.
  intros Hv. apply Forall_forall. intros [k v] (vs & Hin & Hvs)%in_lines. apply subset_in in Hin as (us & Hk & _ & ->).
  destruct (validated h k us Hv Hk) as [Ht Hus]. apply list_elem_of_fmap in Hvs as (u & -> & Hu). rewrite Forall_forall in Hus.
  apply field_ok_intro; [done|]. by apply written_value_ok, Hus.
Qed.

Lemma removeZone_visible host : forallb visible (bytes_of_string host) = true -> forallb visible (bytes_of_string (removeZone host)) = true.
Proof.
  intros Hv. unfold removeZone. destruct (negb _); [done|]. destruct (cut_last 93 (bytes_of_string host)) as [[before after]|] eqn:E1; [|done].
  destruct (cut_last 37 before) as [[addr rest]|] eqn:E2; [|done].
  assert (forall c p x y, cut_last c p = Some (x, y) -> p = x ++ c :: y) as Hcut.
  { clear. induction p as [|b p IH]; intros x y H; cbn in H; [done|]. destruct (cut_last c p) as [[x' y']|]; [injection H as <- <-; cbn; f_equal; by apply IH|].
    destruct (Z.eqb_spec b c) as [->|]; [|done]. by injection H as <- <-. }
  apply Hcut in E1, E2. subst before. rewrite bytes_of_string_of_bytes.
  - rewrite E1 in Hv. rewrite !forallb_app in Hv. cbn [forallb] in Hv. rewrite forallb_app. cbn [forallb]. rewrite !andb_true_iff in *. tauto.
  - pose proof (string_bytes_range host) as Hr. rewrite E1 in Hr. apply Forall_app in Hr as [[Hr1 _]%Forall_app Hr2]. by apply Forall_app.
Qed.
Lemma request_host_ok r usingProxy host : request_host PunycodeHostPort ValidHostHeader r usingProxy = Ok host -> value_ok host.
Proof.
  unfold request_host. intros H. apply visible_value_ok. destruct (if String.eqb (or_Host r) "" then _ else _) as [h|e]; [|done].
  destruct (PunycodeHostPort h) as [h'|e]; [|done]. destruct (ValidHostHeader h') eqn:E.
  - injection H as <-. by apply removeZone_visible, host_visible.
  - destruct (negb usingProxy); [|done]. by injection H as <-.
Qed.
Lemma join_visible sep ks : forallb visible (bytes_of_string sep) = true -> Forall (fun k => forallb visible (bytes_of_string k) = true) ks ->
  forallb visible (bytes_of_string (join sep ks)) = true.
Proof.
  intros Hs Hks. induction Hks as [|k ks Hk Hks IH]; [done|]. cbn [join]. destruct ks as [|k2 ks]; [done|].
  rewrite !bytes_of_string_app, !forallb_app, Hk, Hs. exact IH.
Qed.
Lemma canonical_key_token k : token_name k = true -> forallb validHeaderFieldByte (bytes_of_string (CanonicalHeaderKey k)) = true.
Proof. intros [_ H]%andb_prop. rewrite CanonicalHeaderKey_bytes by done. rewrite valid_canonical by apply string_bytes_range. done. Qed.

(** The names the transfer writer uses. *)
Definition framing_names : list string := ["Connection"; "Content-Length"; "Transfer-Encoding"; "Trailer"].
Lemma framing_ok r t hs : writer_kind r t -> writeHeader t = Ok hs -> rq_ContentLength r < 2 ^ 63 ->
  (forall trailer, rq_Trailer r = Some trailer -> validate trailer = None) ->
  Forall (fun kv : string * list string => kv.1 ∈ framing_names) hs /\ Forall field_ok (lines_of hs).
Proof.
  intros Hk Hw Hlt Htr.
  assert (Forall (fun kv : string * list string => kv.1 ∈ framing_names /\ Forall value_ok kv.2) hs) as H.
  { unfold writeHeader in Hw. set (conn := if tw_Close t && _ then _ else _) in Hw. set (fr := if shouldSendContentLength t then _ else _) in Hw.
    assert (Forall (fun kv : string * list string => kv.1 ∈ framing_names /\ Forall value_ok kv.2) (conn ++ fr)) as Hcf.
    { assert (forall k, value_ok (format_dec k)) as Hdec.
      { intros k. apply visible_value_ok, format_dec_visible. }
      apply Forall_app. split; [unfold conn|unfold fr]; repeat case_match; repeat constructor; try apply Hdec; cbn; set_solver. }
    destruct (tw_Trailer t) as [trailer|] eqn:Et; [|by injection Hw as <-].
    assert (rq_Trailer r = Some trailer) as Hrt by (destruct Hk; congruence).
    destruct (list_find _ _) as [[? ?]|]; [done|]. injection Hw as <-. rewrite app_assoc. apply Forall_app. split; [done|].
    destruct (CanonicalHeaderKey <$> (map_to_list trailer).*1) as [|k ks] eqn:Ek; [done|]. rewrite <- Ek. apply Forall_singleton. split; [by apply list_elem_of_In; cbn; tauto|]. apply Forall_singleton.
    cbn [snd]. apply visible_value_ok, join_visible; [done|]. rewrite sort_strings_perm. apply Forall_forall. intros k' Hk'.
    apply list_elem_of_fmap in Hk' as (k0 & -> & Hk0). apply list_elem_of_fmap in Hk0 as ([k1 vs] & -> & Hin). apply elem_of_map_to_list in Hin.
    apply token_visible, canonical_key_token. by apply (validated trailer k1 vs (Htr _ Hrt)). }
  split; [eapply Forall_impl; [exact H|]; by intros ? []|]. apply Forall_forall. intros [k v] (vs & Hin & Hv)%in_lines.
  rewrite Forall_forall in H. destruct (H _ Hin) as [Hn Hvs]. cbn in *. rewrite Forall_forall in Hvs. apply field_ok_intro; [|by apply Hvs].
  clear -Hn. unfold framing_names in Hn. set_unfold in Hn. destruct Hn as [->|[->|[->|[->|[]]]]]; reflexivity.
Qed.

(** ** What is written *)
Abbreviation write := (writeRequest PunycodeHostPort ValidHostHeader ValidHeaderFieldName map_range).
Abbreviation kvs_of := (head_kvs ValidHeaderFieldName map_range).
Abbreviation in_order := (ordered ValidHeaderFieldName).

Lemma write_lenient_bytes ps : forall w : bytes, write_lenient w ps = w ++ concat ps.
Proof. induction ps as [|p ps IH]; intros w; cbn; [by rewrite app_nil_r|]. by rewrite IH, app_assoc. Qed.

(** A request written without error: a request line, a header block and, unless
    the server declined, the body. *)
Lemma writeRequest_bytes r (w w' : bytes) flush usingProxy extra proceed slow : write r w flush usingProxy extra proceed slow = Some (w', None) ->
  exists host u tw framing, let ruri := request_uri u (rq_Method (or_req r)) host usingProxy in
    let head := w ++ bytes_of_string (request_line (rq_Method (or_req r)) ruri) ++ 13 :: 10 :: header_bytes (lines_of (in_order r (kvs_of r host framing extra))) in
    request_host PunycodeHostPort ValidHostHeader r usingProxy = Ok host /\ or_URL r = Some u /\ stringContainsCTLByte ruri = false
    /\ newTransferWriter slow (or_req r) = Ok tw /\ writeHeader tw = Ok framing
    /\ if bool_decide (proceed = Some false) then w' = head else writeBody flush tw head = Some (w', None).
Proof.
  unfold writeRequest. destruct (request_host _ _ _ _) as [host|e]; [|done]. destruct (or_URL r) as [u|]; [|done].
  destruct (stringContainsCTLByte _) eqn:Ec; [done|]. destruct (newTransferWriter slow (or_req r)) as [tw|e]; [|by destruct (write_all _ _)].
  destruct (writeHeader tw) as [framing|e] eqn:Ew; [|by destruct (write_all _ _)]. intros H. exists host, u, tw, framing. cbn zeta. splits; try done.
  set (fields := lines_of (in_order r (kvs_of r host framing extra))) in *.
  set (line := bytes_of_string (request_line (rq_Method (or_req r)) (request_uri u (rq_Method (or_req r)) host usingProxy))) in *.
  assert (forall x, x = w ++ line ++ 13 :: 10 :: header_bytes fields ->
    match proceed with Some false => Some (x, None) | _ => writeBody flush tw x end = Some (w', None) ->
    if bool_decide (proceed = Some false) then w' = w ++ line ++ 13 :: 10 :: header_bytes fields
    else writeBody flush tw (w ++ line ++ 13 :: 10 :: header_bytes fields) = Some (w', None)) as Hfin.
  { intros x -> Hx. destruct proceed as [[|]|]; [by rewrite bool_decide_false| |by rewrite bool_decide_false]. rewrite bool_decide_true by done. by injection Hx. }
  unfold header_bytes in *. destruct (negb _).
  - rewrite write_all_bytes, write_lenient_bytes, write_all_bytes in H. apply Hfin in H; [done|]. cbn [concat]. by rewrite !app_nil_r, <- !app_assoc.
  - rewrite write_all_bytes in H. apply Hfin in H; [done|]. cbn [concat]. by rewrite concat_app, <- !app_assoc.
Qed.
End Safe.

(** ** Reading it back *)
(** The values of a key, as a reader sees them. *)
Definition values_at (key : string) (fields : list (string * string)) : list string :=
  (filter (fun kv => CanonicalHeaderKey kv.1 = key) fields).*2.
Lemma values_at_app key l1 l2 : values_at key (l1 ++ l2) = values_at key l1 ++ values_at key l2.
Proof. unfold values_at. by rewrite filter_app, fmap_app. Qed.
Lemma add_fields_values key fields : forall m, Header_values (fold_left add_field fields m) key = Header_values m key ++ values_at key fields.
Proof.
  induction fields as [|[k v] fields IH]; intros m; cbn [fold_left]; [by rewrite app_nil_r|]. rewrite IH. unfold add_field, Header_append, Header_values, values_at. cbn [fst snd].
  destruct (decide (CanonicalHeaderKey k = key)) as [Hk|Hk].
  - rewrite filter_cons_True by done. rewrite Hk, lookup_insert_eq. cbn. by rewrite <- app_assoc.
  - rewrite filter_cons_False by done. by rewrite lookup_insert_ne.
Qed.
Lemma values_at_none key fields : Forall (fun kv => CanonicalHeaderKey kv.1 <> key) fields -> values_at key fields = [].
Proof. unfold values_at. induction 1 as [|kv l Hk _ IH]; [done|]. by rewrite filter_cons_False. Qed.

(** The framing of a request in the header a server has read. *)
Definition server_framing (h : Header) : option Framing :=
  match Header_values h "Transfer-Encoding", Header_values h "Content-Length" with
  | [], [] => Some FNone
  | ["chunked"%string], [] => Some FChunked
  | [], [v] => (fun n => if n =? 0 then FNone else FLength n) <$> ParseUint v 63
  | _, _ => None
  end.

Lemma fields_cost_bytes fields : fields_cost fields <= 50 * len (header_bytes fields).
Proof.
  unfold header_bytes, fields_cost. rewrite len_app. change (len [13; 10]) with 2.
  assert (fold_right (fun kv n => field_cost kv + n) 0 fields <= 50 * len (concat (field_bytes <$> fields))); [|lia].
  induction fields as [|kv fields IH]; cbn [fold_right fmap list_fmap concat]; [done|]. rewrite len_app.
  assert (field_cost kv <= 50 * len (field_bytes kv)); [|lia]. unfold field_cost, field_bytes, field_line. rewrite !len_app.
  change (len [13; 10]) with 2. change (len [58; 32]) with 2. pose proof (len_nonneg (bytes_of_string kv.1)). pose proof (len_nonneg (bytes_of_string kv.2)). lia.
Qed.
Lemma lines_of_app l1 l2 : lines_of (l1 ++ l2) = lines_of l1 ++ lines_of l2.
Proof. apply flat_map_app. Qed.

Section ReadBack.
Context (PunycodeHostPort : string -> result error string) (ValidHostHeader ValidHeaderFieldName ValidHeaderFieldValue : string -> bool)
  (map_range : Header -> list (string * list string)).
Hypothesis name_token : forall k, ValidHeaderFieldName k = token_name k.
Hypothesis value_bytes : forall v, ValidHeaderFieldValue v = forallb validHeaderValueByte (bytes_of_string v).
Hypothesis host_visible : forall h, ValidHostHeader h = true -> forallb visible (bytes_of_string h) = true.
Hypothesis range_all : forall h, map_range h ≡ₚ map_to_list h.
Abbreviation validate := (validateHeaders ValidHeaderFieldName ValidHeaderFieldValue map_range).
Abbreviation write := (writeRequest PunycodeHostPort ValidHostHeader ValidHeaderFieldName map_range).
Abbreviation kvs_of := (head_kvs ValidHeaderFieldName map_range).
Abbreviation in_order := (ordered ValidHeaderFieldName).

(** What [Transport.roundTrip] has checked; a [User-Agent] without spaces at its ends, which is written as it is; no other spelling of the
    names the transfer writer decides about ([noncanonical_length_sent]); extra headers that are the transport's own; and a
    [TransferEncoding] that is empty, with a method other than CONNECT, or chunked. *)
Record request_valid (r : outRequest) (extra : option Header) : Prop := {
  rv_method : forallb validHeaderFieldByte (bytes_of_string (rq_Method (or_req r))) = true;
  rv_header : validate (rq_Header (or_req r)) = None;
  rv_trailer : forall h, rq_Trailer (or_req r) = Some h -> validate h = None;
  rv_extra : forall h, extra = Some h -> validate h = None;
  rv_agent : value_ok (userAgent (rq_Header (or_req r)));
  rv_canonical : forall k vs, rq_Header (or_req r) !! k = Some vs -> CanonicalHeaderKey k ∈ framing_names -> CanonicalHeaderKey k = k;
  rv_extra_keys : forall h k vs, extra = Some h -> h !! k = Some vs -> CanonicalHeaderKey k ∉ framing_names;
  rv_te : te_ok (or_req r);
  rv_body : reader_ok (stream_of (or_req r));
  rv_length : rq_ContentLength (or_req r) < 2 ^ 63 }.

Lemma in_order_perm r kvs : lines_of (in_order r kvs) ≡ₚ lines_of kvs.
Proof.
  unfold ordered. destruct (with_order r) as [|o os]; [done|]. apply Permutation_flat_map. rewrite SortKeyValues_perm, <- list_fmap_compose.
  apply reflexive_eq. rewrite <- (list_fmap_id kvs) at 2. apply list_fmap_ext. by intros i [] ?.
Qed.

Lemma fields_valid r extra host tw framing : request_valid r extra -> value_ok host ->
  writer_kind (or_req r) tw -> writeHeader tw = Ok framing ->
  Forall (fun kv : string * list string => kv.1 ∈ framing_names) framing /\ Forall field_ok (lines_of (kvs_of r host framing extra)).
Proof.
  intros Hv Hh Hk Hw. destruct (framing_ok PunycodeHostPort ValidHeaderFieldName ValidHeaderFieldValue map_range name_token value_bytes range_all
    (or_req r) tw framing Hk Hw (rv_length _ _ Hv) (rv_trailer _ _ Hv)) as [Hn Hf]. split; [done|].
  unfold head_kvs, first_kvs. rewrite !lines_of_app, !Forall_app. splits.
  - apply Forall_cons. split; [by apply field_ok_intro|]. destruct (String.eqb _ _); [done|]. apply Forall_singleton. by apply field_ok_intro, (rv_agent _ _ Hv).
  - done.
  - by eapply subset_ok, rv_header.
  - destruct extra as [h|]; [|done]. eapply subset_ok; try done. by eapply rv_extra.
Qed.

(** The framing fields are the transfer writer's alone. *)
Lemma framing_values r extra host framing key : request_valid r extra -> key ∈ ["Content-Length"; "Transfer-Encoding"]%string ->
  Forall (fun kv : string * list string => kv.1 ∈ framing_names) framing ->
  values_at key (lines_of (kvs_of r host framing extra)) = concat (values_of key framing).
Proof.
  intros Hv Hkey Hn. unfold head_kvs. rewrite !lines_of_app, !values_at_app.
  assert (values_at key (lines_of (first_kvs r host)) = []) as ->.
  { unfold first_kvs. destruct (String.eqb _ _); set_unfold in Hkey; destruct Hkey as [->|[->|[]]]; reflexivity. }
  assert (values_at key (lines_of (headerWriteSubset ValidHeaderFieldName map_range (rq_Header (or_req r)) reqWriteExcludeHeader (negb (bool_decide (with_order r = []))))) = []) as ->.
  { apply values_at_none, Forall_forall. intros [k v] (vs & Hin & _)%in_lines. cbn. apply subset_in in Hin as (us & Hk & Hex & _); [|done].
    intros Hck. pose proof (rv_canonical _ _ Hv k us Hk) as Hcan. rewrite Hck in Hcan. rewrite <- (Hcan ltac:(clear -Hkey; unfold framing_names; set_unfold in Hkey; destruct Hkey as [->|[->|[]]]; set_solver)) in Hex. apply Hex. clear -Hkey. unfold reqWriteExcludeHeader. set_unfold in Hkey. destruct Hkey as [->|[->|[]]]; set_solver. }
  assert (values_at key (lines_of (match extra with Some h => headerWrite ValidHeaderFieldName map_range h (negb (bool_decide (with_order r = []))) | None => [] end)) = []) as ->.
  { destruct extra as [h|]; [|done]. apply values_at_none, Forall_forall. intros [k v] (vs & Hin & _)%in_lines. cbn. apply subset_in in Hin as (us & Hk & _ & _); [|done].
    intros Heq. apply (rv_extra_keys _ _ Hv h k us eq_refl Hk). rewrite Heq. clear -Hkey. unfold framing_names. set_unfold in Hkey. destruct Hkey as [->|[->|[]]]; set_solver. }
  rewrite !app_nil_r. cbn [app]. clear Hv. unfold values_at, values_of, lines_of. induction Hn as [|[k vs] l Hk _ IH]; [done|]. cbn [flat_map fst snd] in *.
  rewrite filter_app, fmap_app, IH. assert (CanonicalHeaderKey k = k) as Hc.
  { clear -Hk. unfold framing_names in Hk. set_unfold in Hk. destruct Hk as [->|[->|[->|[->|[]]]]]; reflexivity. }
  assert (values_at key ((fun v => (k, v)) <$> vs) = if decide (k = key) then vs else []) as Hone.
  { unfold values_at. clear -Hc. induction vs as [|v vs IHv]; cbn [fmap list_fmap]; [by destruct (decide _)|]. destruct (decide (k = key)) as [->|Hne].
    - rewrite filter_cons_True by done. cbn. by rewrite IHv.
    - rewrite filter_cons_False by (cbn; congruence). done. }
  unfold values_at in Hone. rewrite Hone. destruct (decide (k = key)) as [->|Hne].
  - by rewrite (filter_cons_True _ (key, vs)).
  - by rewrite (filter_cons_False _ (k, vs)).
Qed.

Lemma server_framing_of hs h f : request_framing hs = Some f ->
  (forall key, key ∈ ["Content-Length"; "Transfer-Encoding"]%string -> Header_values h key ≡ₚ concat (values_of key hs)) ->
  server_framing h = Some f.
Proof.
  unfold request_framing, server_framing. intros Hf Hp. pose proof (Hp "Content-Length"%string ltac:(set_solver)) as Hcl. pose proof (Hp "Transfer-Encoding"%string ltac:(set_solver)) as Hte.
  destruct (values_of "Transfer-Encoding" hs) as [|te tes].
  - apply Permutation_nil_r in Hte. rewrite Hte. destruct (values_of "Content-Length" hs) as [|[|v [|]] []]; try done.
    + apply Permutation_nil_r in Hcl. by rewrite Hcl.
    + apply Permutation_singleton_r in Hcl. by rewrite Hcl.
  - destruct te as [|t [|]]; [by destruct tes| |by repeat (case_match; try done)]. destruct tes; [|by repeat (case_match; try done)].
    destruct (decide (t = "chunked"%string)) as [->|Hne]; [|by repeat (case_match; try done; simplify_eq)].
    apply Permutation_singleton_r in Hte. rewrite Hte. destruct (values_of "Content-Length" hs); [|done]. apply Permutation_nil_r in Hcl. by rewrite Hcl.
Qed.

Lemma request_line_ok method ruri : forallb validHeaderFieldByte (bytes_of_string method) = true -> stringContainsCTLByte ruri = false ->
  Forall (fun b => b <> 10) (bytes_of_string (request_line method ruri)).
Proof.
  intros Hm Hu. unfold request_line. rewrite !bytes_of_string_app, !Forall_app. splits; [|repeat constructor; discriminate| |repeat constructor; discriminate].
  - assert (forallb visible (bytes_of_string (valueOrDefault method "GET")) = true) as Hv.
    { apply token_visible. unfold valueOrDefault. by destruct (String.eqb method ""). }
    apply forallb_Forall in Hv. eapply Forall_impl; [exact Hv|]. intros b Hb ->. discriminate Hb.
  - apply Forall_forall. intros b Hb ->. unfold stringContainsCTLByte in Hu. apply not_true_iff_false in Hu. apply Hu, existsb_exists. exists 10.
    split; [by apply list_elem_of_In|done].
Qed.

(** C4: a request that is sent is the request a server reads. For a request whose method, header and trailer passed the checks, whose
    header has no spelling of a framing name but the canonical one, whose [User-Agent] has no spaces at its ends, and whose
    [TransferEncoding] is empty (and the method not CONNECT) or chunked: from the bytes
    written, however the network cuts them, a server reads the request line, and
    then a header with exactly the lines meant to be sent, none more (no field
    value or host injects one) and none lost, in whatever order the caller asked
    for; the framing this header declares is unambiguous and is the one of the
    body that follows, and after that body comes the next request. *)
Theorem request_reaches_server r extra flush usingProxy proceed slow w buf c : request_valid r extra ->
  (forall f, flush = Some f -> forall w, f w = (w, None)) ->
  write r [] flush usingProxy extra proceed slow = Some (w, None) -> proceed <> Some false -> 50 * len w <= maxInt64 - 400 ->
  buf_ok buf -> bend buf <> errBufferFull -> pending buf = w ++ c ->
  exists host u framing buf1 h buf2 f ds,
    request_host PunycodeHostPort ValidHostHeader r usingProxy = Ok host /\ or_URL r = Some u
    /\ ReadLine false buf = Some (Ok (request_line (rq_Method (or_req r)) (request_uri u (rq_Method (or_req r)) host usingProxy)), buf1)
    /\ ReadMIMEHeader false buf1 = Some (h, None, buf2)
    /\ (forall key, Header_values h key ≡ₚ values_at key (lines_of (kvs_of r host framing extra)))
    /\ request_framing framing = Some f /\ server_framing h = Some f
    /\ pending buf2 = message_wire f ds (trailer_lines f (or_req r)) ++ c /\ concat ds = content (stream_of (or_req r)).
Proof.
  intros Hv Hfl Hrun Hpr Hlen Hok He Hp.
  destruct (writeRequest_bytes _ _ _ _ _ _ _ _ _ _ _ _ Hrun) as (host & u & tw & framing & Hh & Hu & Hc & Ht & Hw & Hrest). rewrite bool_decide_false in Hrest by done.
  assert (value_ok host) as Hhok by (by eapply request_host_ok).
  destruct (newTransferWriter_kind _ _ _ Ht (rv_te _ _ Hv) (rv_body _ _ Hv)) as [Hk Hcl].
  destruct (fields_valid r extra host tw framing Hv Hhok Hk Hw) as [Hn Hf].
  set (fields := lines_of (in_order r (kvs_of r host framing extra))) in *.
  assert (Forall field_ok fields) as Hf' by (unfold fields; by rewrite in_order_perm).
  match type of Hrest with writeBody _ _ ?x = _ => destruct (writeBody_spec flush (or_req r) tw x Hfl Hk Hcl) as (w2 & err & Hwb & _ & Hbody & _) end. rewrite Hrest in Hwb. injection Hwb as <- <-.
  destruct (Hbody eq_refl) as (ds & Hww & Hds). set (line := request_line _ _) in Hww.
  pose proof (writeHeader_framing _ _ _ Hk Hw (rv_length _ _ Hv)) as Hfr. set (f := kind_framing tw) in *.
  assert (pending buf = bytes_of_string line ++ 13 :: 10 :: header_bytes fields ++ message_wire f ds (trailer_lines f (or_req r)) ++ c) as Hp1.
  { rewrite Hp, Hww, app_nil_l. repeat (rewrite <- app_assoc || rewrite <- app_comm_cons). done. }
  destruct (ReadLine_line false buf line _ Hok He (request_line_ok _ _ (rv_method _ _ Hv) Hc) ltac:(done) Hp1) as (buf1 & HRL & Hok1 & Hb1 & Hp2).
  assert (fields_cost fields <= maxInt64 - 400) as Hcost.
  { pose proof (fields_cost_bytes fields) as Hfc. assert (len (header_bytes fields) <= len w); [|lia]. rewrite Hww. unfold len. repeat (rewrite length_app || cbn [length]). lia. }
  destruct (ReadMIMEHeader_fields false fields (message_wire f ds (trailer_lines f (or_req r)) ++ c) buf1 Hf' ltac:(done) Hcost Hok1) as (buf2 & HRM & _ & _ & Hp3); [congruence|done|].
  exists host, u, framing, buf1, (fold_left add_field fields ∅), buf2, f, ds. splits; try done.
  - intros key. rewrite add_fields_values. unfold Header_values at 1. rewrite lookup_empty. cbn [default app]. unfold values_at, fields. by rewrite in_order_perm.
  - apply (server_framing_of framing); [done|]. intros key Hkey. rewrite add_fields_values. unfold Header_values at 1. rewrite lookup_empty. cbn [default app].
    rewrite <- (framing_values r extra host framing key Hv Hkey Hn). unfold values_at, fields. by rewrite in_order_perm.
Qed.
End ReadBack.

(** A POST through a proxy, its fields in the order the caller asked for. *)
Definition any_host (h : string) : bool := forallb visible (bytes_of_string h).
Definition any_value (v : string) : bool := forallb validHeaderValueByte (bytes_of_string v).
Definition order_all (h : Header) : list (string * list string) := map_to_list h.
Definition posted : outRequest :=
  mkOutRequest
    (mkHttpRequest "POST" (ReadBody (mkReader [[104; 105]; [33]] io_EOF)) 3 false []
       {["Accept"%string := ["a"; " b"]%string; HeaderOderKey := ["accept"; "user-agent"]%string]} None None true None)
    "example.org" (Some (mkURL "http" "" "example.org" "/x" "/x?q=1")).
Definition posted_write : option (bytes * option error) :=
  writeRequest Ok any_host token_name order_all posted [] None true (Some {["Proxy-Authorization"%string := ["Basic x"]%string]}) None false.
Lemma posted_valid : request_valid token_name any_value order_all posted (Some {["Proxy-Authorization"%string := ["Basic x"]%string]}).
Proof.
  constructor.
  - reflexivity.
  - vm_compute. reflexivity.
  - intros h [=].
  - intros h [= <-]. vm_compute. reflexivity.
  - vm_compute. repeat split.
  - intros k vs. cbn [posted or_req rq_Header]. intros [[<- _]|[_ [<- _]%lookup_singleton_Some]]%lookup_insert_Some _; reflexivity.
  - intros h k vs [= <-] [<- _]%lookup_singleton_Some. apply (proj1 (bool_decide_eq_false _)). vm_compute. reflexivity.
  - left. split; [reflexivity|discriminate].
  - repeat constructor; discriminate.
  - reflexivity.
Qed.
Definition posted_bytes : bytes := Eval vm_compute in match posted_write with Some (w, _) => w | None => [] end.
Lemma request_reaches_server_witness :
  let buf := mkBufReader (slice_to posted_bytes 20) [slice_from posted_bytes 20; [71; 69]] io_EOF in
  exists buf1 h buf2 ds, ReadLine false buf = Some (Ok "POST http://example.org/x?q=1 HTTP/1.1"%string, buf1) /\ ReadMIMEHeader false buf1 = Some (h, None, buf2)
    /\ server_framing h = Some (FLength 3) /\ pending buf2 = concat ds ++ [71; 69] /\ concat ds = [104; 105; 33].
Proof.
  intros buf.
  destruct (request_reaches_server Ok any_host token_name any_value order_all ltac:(reflexivity) ltac:(reflexivity) ltac:(intros h Hh; exact Hh) ltac:(reflexivity)
    posted (Some {["Proxy-Authorization"%string := ["Basic x"]%string]}) None true None false posted_bytes buf [71; 69] posted_valid)
    as (host & u & framing & buf1 & h & buf2 & f & ds & Hh & Hu & H1 & H2 & _ & _ & H3 & H4 & H5).
  - discriminate.
  - vm_compute. reflexivity.
  - discriminate.
  - vm_compute. discriminate.
  - unfold buf, buf_ok. splits; try reflexivity; try (vm_compute; discriminate); repeat constructor; discriminate.
  - discriminate.
  - unfold buf, pending. cbn [app]. vm_compute. reflexivity.
  - assert (host = "example.org"%string) as -> by (vm_compute in Hh; by injection Hh). injection Hu as <-.
    exists buf1, h, buf2, ds. split; [exact H1|]. split; [exact H2|].
    vm_compute in H1. injection H1 as <-.
    assert (server_framing h = Some (FLength 3)) as Hc.
    { match type of H2 with ReadMIMEHeader _ ?b = _ =>
        assert (match ReadMIMEHeader false b with Some (h, _, _) => server_framing h | None => None end = Some (FLength 3)) as Hc by (vm_compute; reflexivity) end.
      by rewrite H2 in Hc. }
    rewrite Hc in H3. injection H3 as <-. split; [exact Hc|]. split; [exact H4|]. rewrite H5. reflexivity.
Defined.

(** Finding. A framing name in another spelling ([SetHeaderNonCanonical]) passes the list of names left out: the request is sent with
    two lengths. *)
Definition two_lengths : outRequest :=
  mkOutRequest
    (mkHttpRequest "POST" (ReadBody (mkReader [[104; 105; 33]] io_EOF)) 3 false []
       {["content-length"%string := ["1"]%string]} None None true None)
    "example.org" (Some (mkURL "http" "" "example.org" "/x" "/x?q=1")).
Example noncanonical_length_sent :
  match writeRequest Ok any_host token_name order_all two_lengths [] None false None None false with
  | Some (w, None) =>
      match ReadLine false (mkBufReader [] [w] io_EOF) with
      | Some (Ok _, buf) => match ReadMIMEHeader false buf with Some (h, None, _) => Header_values h "Content-Length" = ["3"; "1"]%string /\ server_framing h = None | _ => False end
      | _ => False
      end
  | _ => False
  end.
Proof. vm_compute. split; reflexivity. Qed.
