(* ===== verification/ReqRetry.v ===== *)
(** * The retry loop of a request ([src/request.go], [src/retry.go])

    [Request.Do] runs the middlewares that prepare a request, sends it, runs the
    ones that see its response, and starts over while the retry option says so.
    Middlewares, conditions and hooks are the user's functions: each may change the
    request, the response (both are shared by pointer) and the rest of the world
    [W]. What the loop itself does is recorded as a list of events. Traces and dumps
    are left out. *)

From S2P Require Import Prelude.
From S2P Require Import H2Errors.
From S2P Require Import NetText.

(** The parts of a [http.Response]: [hr_Body] names its body, nil is [None]. *)
Record httpResponse := mkHttpResponse { hr_StatusCode : Z; hr_ContentLength : Z; hr_Header : Header; hr_Body : option Z }.
Record Response := mkResponse { rs_Response : option httpResponse; rs_Err : option error; rs_body : option bytes }.
Definition emptyResponse : Response := mkResponse None None None.
Definition set_Err (r : Response) (e : option error) : Response := mkResponse (rs_Response r) e (rs_body r).

(** A [Request], as far as the loop and the middlewares of [ReqPrepare] use it.
    [q_error] is what the setters recorded; [q_unReplayable]: the body is a reader
    that can be read once. *)
Record Request := mkRequest {
  q_Method : string; q_Headers : option Header; q_Cookies : list string;
  q_FormData : gmap string (list string); q_OrderedFormData : list string;
  q_Body : option bytes; q_GetBody : option (option bytes); q_marshalBody : option string;
  q_error : option error; q_unReplayable : bool; q_RetryAttempt : Z }.
Definition set_Headers (r : Request) (h : option Header) : Request :=
  mkRequest (q_Method r) h (q_Cookies r) (q_FormData r) (q_OrderedFormData r) (q_Body r) (q_GetBody r) (q_marshalBody r) (q_error r) (q_unReplayable r) (q_RetryAttempt r).
Definition set_RetryAttempt (r : Request) (n : Z) : Request :=
  mkRequest (q_Method r) (q_Headers r) (q_Cookies r) (q_FormData r) (q_OrderedFormData r) (q_Body r) (q_GetBody r) (q_marshalBody r) (q_error r) (q_unReplayable r) n.

(** What the loop does that others can see. *)
Inductive event :=
| EvRoundTrip (body : option Z) (* a round trip, and the body of its response *)
| EvHook (i : nat) | EvClose (body : Z) (drained : bool) | EvWait (d : Z).

Section Loop.
Context {W : Type}.
Record shared := Sh { sh_req : Request; sh_resp : option Response; sh_w : W }.
Abbreviation callback X := (shared -> X * shared).

(** [RetryOption]; the interval is in nanoseconds. *)
Record RetryOption := mkRetryOption {
  MaxRetries : Z; GetRetryInterval : Z -> callback Z;
  RetryConditions : list (option error -> callback bool); RetryHooks : list (option error -> callback unit) }.
(** A retry option is copied when a request is made from a client. *)
Definition RetryOption_Clone (ro : option RetryOption) : option RetryOption :=
  match ro with
  | None => None
  | Some ro => Some (mkRetryOption (MaxRetries ro) (GetRetryInterval ro) ([] ++ RetryConditions ro) ([] ++ RetryHooks ro))
  end.

(** [errors.Is(err, context.Canceled)], the error of the request's context, and the
    wait for a timer ([None] when it fires before the context ends). *)
Context (is_canceled : error -> bool) (ctx_Err : W -> option error) (elapse : Z -> W -> option error * W)
  (drain_close : Z -> bool -> W -> W).

Definition set_resp (s : shared) (r : option Response) : shared := Sh (sh_req s) r (sh_w s).
Definition resp_of (s : shared) : Response := default emptyResponse (sh_resp s).

(** Conditions are asked from the last to the first, until one holds. *)
Fixpoint ask (cs : list (option error -> callback bool)) (err : option error) (s : shared) : bool * shared :=
  match cs with
  | [] => (false, s)
  | c :: cs => let '(b, s) := c err s in if b then (true, s) else ask cs err s
  end.
Definition canceled (err : option error) : bool := match err with Some e => is_canceled e | None => false end.
Definition shouldRetry (ro : option RetryOption) (err : option error) (s : shared) : bool * shared :=
  match ro with
  | None => (false, s)
  | Some ro =>
      if canceled err || ((MaxRetries ro <=? q_RetryAttempt (sh_req s)) && (0 <=? MaxRetries ro)) then (false, s)
      else match RetryConditions ro with
           | [] => (is_set err, s)
           | cs => ask (rev cs) err s
           end
  end.

Definition maxRetryBodyDrainSize : Z := 2048.
Definition closeRetryResponseBody (s : shared) : list event * shared :=
  match sh_resp s with
  | Some (mkResponse (Some hr) _ _) =>
      match hr_Body hr with
      | Some b =>
          let drain := (0 <=? hr_ContentLength hr) && (hr_ContentLength hr <=? maxRetryBodyDrainSize) in
          ([EvClose b drain], Sh (sh_req s) (sh_resp s) (drain_close b drain (sh_w s)))
      | None => ([], s)
      end
  | _ => ([], s)
  end.
Definition waitRetryInterval (d : Z) (s : shared) : option error * shared :=
  if d <=? 0 then (ctx_Err (sh_w s), s)
  else let '(e, w) := elapse d (sh_w s) in (e, Sh (sh_req s) (sh_resp s) w).

(** Hooks run from the last to the first. *)
Fixpoint run_hooks (hs : list (option error -> callback unit)) (err : option error) (s : shared) : shared :=
  match hs with [] => s | h :: hs => run_hooks hs err (h err s).2 end.
Definition hook_events {A} (hs : list A) : list event := EvHook <$> rev (seq 0 (length hs)).

Definition prepareRetry (ro : RetryOption) (err : option error) (s : shared) : list event * option error * shared :=
  let s := Sh (set_RetryAttempt (sh_req s) (q_RetryAttempt (sh_req s) + 1)) (sh_resp s) (sh_w s) in
  let s := run_hooks (rev (RetryHooks ro)) err s in
  let '(d, s) := GetRetryInterval ro (q_RetryAttempt (sh_req s)) s in
  let '(ev, s) := closeRetryResponseBody s in
  match waitRetryInterval d s with
  | (Some e, s) => (hook_events (RetryHooks ro) ++ ev ++ [EvWait d], Some e, s)
  | (None, s) =>
      (hook_events (RetryHooks ro) ++ ev ++ [EvWait d], None,
       set_resp s ((fun r => mkResponse (rs_Response r) (rs_Err r) None) <$> sh_resp s))
  end.

(** Whether the loop goes on, and the error of the wait. *)
Definition tryRetry (ro : option RetryOption) (err : option error) (s : shared) : list event * (bool * option error) * shared :=
  let r := resp_of s in
  let s := set_resp s (Some (match err with Some _ => set_Err r err | None => r end)) in
  match shouldRetry ro err s, ro with
  | (true, s), Some ro' =>
      match prepareRetry ro' err s with
      | (ev, Some e, s) => (ev, (false, Some e), s)
      | (ev, None, s) => (ev, (true, None), s)
      end
  | (_, s), _ => ([], (false, None), s)
  end.

(** A list of middlewares, up to the first error. *)
Fixpoint run_middlewares (fs : list (callback (option error))) (s : shared) : option error * shared :=
  match fs with
  | [] => (None, s)
  | f :: fs => match f s with (Some e, s) => (Some e, s) | (None, s) => run_middlewares fs s end
  end.

(** The client: its user-defined and its own middlewares, the round trip
    ([wrappedRoundTrip] when set, [Client.roundTrip] else), which sets the response. *)
Record Client := mkClient {
  udBeforeRequest : list (callback (option error)); beforeRequest : list (callback (option error));
  roundTrip : callback (option error); onError : option (error -> callback unit) }.

Definition ensure_headers (s : shared) : shared :=
  match q_Headers (sh_req s) with Some _ => s | None => Sh (set_Headers (sh_req s) (Some ∅)) (sh_resp s) (sh_w s) end.
Definition resp_body (s : shared) : option Z := match sh_resp s with Some (mkResponse (Some hr) _ _) => hr_Body hr | _ => None end.

Section Do.
Context (c : Client) (afterResponse : list (callback (option error))) (ro : option (RetryOption)).

(** The [retry:] loop; its fuel bounds the number of attempts. *)
Fixpoint do_loop (fuel : nat) (s : shared) : option (list event * option error * shared) :=
  match fuel with
  | O => None
  | S fuel =>
      let again (first : list event) (err : option error) (s : shared) : option (list event * option error * shared) :=
        match tryRetry ro err s with
        | (ev, (_, Some retryErr), s) => Some (first ++ ev, Some retryErr, s)
        | (ev, (false, None), s) => Some (first ++ ev, err, s)
        | (ev, (true, None), s) =>
            match do_loop fuel s with
            | Some (ev', err, s) => Some (first ++ ev ++ ev', err, s)
            | None => None
            end
        end in
      match run_middlewares (udBeforeRequest c ++ beforeRequest c) (ensure_headers s) with
      | (Some e, s) => again [] (Some e) s
      | (None, s) =>
          let '(err, s) := roundTrip c s in
          let sent := [EvRoundTrip (resp_body s)] in
          let contextCanceled := canceled err in
          match run_middlewares afterResponse s with
          | (Some e, s) => Some (sent, Some e, s)
          | (None, s) =>
              (* each middleware overwrites [err] *)
              let err := match afterResponse with [] => err | _ => None end in
              if contextCanceled then Some (sent, err, s) else again sent err s
          end
      end
  end.

(** The deferred function of [do]. *)
Definition finish (err : option error) (s : shared) : shared :=
  let r := resp_of s in
  set_resp s (Some (match err, rs_Err r with Some _, None => set_Err r err | _, _ => r end)).
Definition do (fuel : nat) (s : shared) : option (list event * shared) :=
  match do_loop fuel (set_resp s None) with
  | Some (ev, err, s) => Some (ev, finish err s)
  | None => None
  end.

Definition errRetryableWithUnReplayableBody : error := errors_New "retryable request should not have unreplayable Body (io.Reader)".
Definition Do (fuel : nat) (s : shared) : option (list event * shared) :=
  match q_error (sh_req s) with
  | Some e => Some ([], set_resp s (Some (set_Err emptyResponse (Some e))))
  | None =>
      if match ro with Some o => negb (MaxRetries o =? 0) | None => false end && q_unReplayable (sh_req s)
      then Some ([], set_resp s (Some (set_Err emptyResponse (Some errRetryableWithUnReplayableBody))))
      else do fuel s
  end.
(** The second result of [Send] is the response's error. *)
Definition Send (fuel : nat) (s : shared) : option (list event * shared * option error) :=
  match Do fuel s with
  | None => None
  | Some (ev, s) =>
      let s := match rs_Err (resp_of s), onError c with Some e, Some hook => (hook e s).2 | _, _ => s end in
      Some (ev, s, rs_Err (resp_of s))
  end.
End Do.

(** ** What the loop keeps *)
Abbreviation attempt s := (q_RetryAttempt (sh_req s)).
(** A callback leaves [f] alone. *)
Definition keeps {A X} (f : shared -> A) (cb : callback X) : Prop := forall s, f (cb s).2 = f s.
Definition option_keeps {A} (f : shared -> A) (ro : option RetryOption) : Prop :=
  match ro with
  | None => True
  | Some o => Forall (fun cd => forall err, keeps f (cd err)) (RetryConditions o) /\ Forall (fun h => forall err, keeps f (h err)) (RetryHooks o)
              /\ forall n, keeps f (GetRetryInterval o n)
  end.

Lemma run_middlewares_keeps {A} (f : shared -> A) fs : Forall (keeps f) fs -> keeps f (run_middlewares fs).
Proof.
  intros Hf. induction Hf as [|g fs Hg _ IH]; intros s; cbn; [done|]. specialize (Hg s). destruct (g s) as [[e|] s']; cbn in Hg; [done|]. by rewrite IH.
Qed.
Lemma ask_keeps {A} (f : shared -> A) cs err : Forall (fun cd => forall err, keeps f (cd err)) cs -> keeps f (ask cs err).
Proof.
  intros Hf. induction Hf as [|g fs Hg _ IH]; intros s; cbn; [done|]. specialize (Hg err s). destruct (g err s) as [[|] s']; cbn in Hg; [done|]. by rewrite IH.
Qed.
Lemma run_hooks_keeps {A} (f : shared -> A) hs err s : Forall (fun h => forall err, keeps f (h err)) hs -> f (run_hooks hs err s) = f s.
Proof. intros Hf. revert s. induction Hf as [|h hs Hh _ IH]; intros s; cbn; [done|]. by rewrite IH, Hh. Qed.
Lemma shouldRetry_keeps {A} (f : shared -> A) ro err : option_keeps f ro -> keeps f (shouldRetry ro err).
Proof.
  intros Ho s. unfold shouldRetry. destruct ro as [o|]; [|done]. destruct Ho as (Hc & _). destruct (_ || _); [done|].
  destruct (RetryConditions o) as [|cd cs] eqn:E; [done|]. apply ask_keeps. by apply Forall_rev.
Qed.

(** The steps of a retry; [s] is the state when the condition has been asked. *)
Lemma prepareRetry_spec o err s : option_keeps resp_body (Some o) -> option_keeps (fun s => attempt s) (Some o) ->
  exists d dr e s', prepareRetry o err s = (hook_events (RetryHooks o) ++ (match resp_body s with Some b => [EvClose b dr] | None => [] end) ++ [EvWait d], e, s')
    /\ attempt s' = attempt s + 1 /\ resp_body s' = resp_body s /\ (0 < d -> (forall d w, 0 < d -> (elapse d w).1 = None) -> e = None).
Proof.
  intros (_ & Hh & Hi) (_ & Hh2 & Hi2). unfold prepareRetry. set (s1 := Sh _ _ _). assert (resp_body s1 = resp_body s) as Hb1 by done. assert (attempt s1 = attempt s + 1) as Ha1 by done.
  clearbody s1. assert (resp_body (run_hooks (rev (RetryHooks o)) err s1) = resp_body s) as Hb2 by (rewrite run_hooks_keeps; [done|by apply Forall_rev]).
  assert (attempt (run_hooks (rev (RetryHooks o)) err s1) = attempt s + 1) as Ha2 by (rewrite (run_hooks_keeps (fun s => attempt s)); [done|by apply Forall_rev]).
  set (s2 := run_hooks _ _ _) in *. clearbody s2. specialize (Hi (attempt s2) s2). specialize (Hi2 (attempt s2) s2). destruct (GetRetryInterval o (attempt s2) s2) as [d s3]. cbn in Hi, Hi2.
  rewrite <- Hi in Hb2. rewrite <- Hi2 in Ha2. clear s1 s2 Hb1 Ha1 Hi Hi2.
  assert (exists dr s4, closeRetryResponseBody s3 = (match resp_body s with Some b => [EvClose b dr] | None => [] end, s4) /\ sh_req s4 = sh_req s3 /\ sh_resp s4 = sh_resp s3) as (dr & s4 & -> & Hr4 & Hp4).
  { unfold closeRetryResponseBody, resp_body in *. destruct (sh_resp s3) as [[[hr|] e b]|] eqn:E; rewrite <- Hb2; [|by exists false, s3..].
    destruct (hr_Body hr); [|by exists false, s3]. do 2 eexists. split; [reflexivity|]. by rewrite <- E. }
  assert (attempt s4 = attempt s + 1) as Ha4 by (by rewrite Hr4). assert (resp_body s4 = resp_body s) as Hb4 by (by unfold resp_body in *; rewrite Hp4).
  destruct (waitRetryInterval d s4) as [e s5] eqn:Ew. assert (sh_req s5 = sh_req s4 /\ sh_resp s5 = sh_resp s4 /\ (0 < d -> (forall d w, 0 < d -> (elapse d w).1 = None) -> e = None)) as (Hr5 & Hp5 & He).
  { unfold waitRetryInterval in Ew. destruct (Z.leb_spec d 0); [injection Ew as <- <-; splits; [done|done|lia]|].
    destruct (elapse d (sh_w s4)) as [e' w] eqn:El. injection Ew as <- <-. splits; [done|done|]. intros Hd Hel. specialize (Hel d (sh_w s4) Hd). by rewrite El in Hel. }
  assert (attempt s5 = attempt s + 1) as Ha5 by (by rewrite Hr5). assert (resp_body s5 = resp_body s) as Hb5 by (by unfold resp_body in *; rewrite Hp5).
  destruct e as [e|].
  - exists d, dr, (Some e), s5. splits; try done. 
  - exists d, dr, None, (set_resp s5 ((fun r => mkResponse (rs_Response r) (rs_Err r) None) <$> sh_resp s5)). splits; try done.
    rewrite <- Hb5. unfold resp_body, set_resp. cbn. by destruct (sh_resp s5) as [[[]]|].
Qed.

Lemma tryRetry_spec ro err s : option_keeps resp_body ro -> option_keeps (fun s => attempt s) ro ->
  exists ev r s', tryRetry ro err s = (ev, r, s') /\ resp_body s' = resp_body s
    /\ (r = (false, None) /\ ev = [] /\ attempt s' = attempt s
        \/ exists o d dr e, ro = Some o /\ r = (negb (is_set e), e) /\ attempt s' = attempt s + 1 /\ (MaxRetries o < 0 \/ attempt s < MaxRetries o)
             /\ canceled err = false
             /\ ev = hook_events (RetryHooks o) ++ (match resp_body s with Some b => [EvClose b dr] | None => [] end) ++ [EvWait d]).
Proof.
  intros Hb Ha. unfold tryRetry. set (s1 := set_resp s _). assert (resp_body s1 = resp_body s) as Hb1.
  { unfold s1, resp_body, set_resp, resp_of. cbn. destruct (sh_resp s) as [[hr e b]|]; by destruct err. }
  assert (attempt s1 = attempt s) as Ha1 by done. clearbody s1.
  pose proof (shouldRetry_keeps _ ro err Hb s1) as Hb2. pose proof (shouldRetry_keeps _ ro err Ha s1) as Ha2. cbn beta in Ha2.
  destruct (shouldRetry ro err s1) as [go s2] eqn:Es. cbn in Hb2, Ha2. rewrite Hb1 in Hb2. rewrite Ha1 in Ha2.
  destruct go; [|do 3 eexists; split; [reflexivity|]; split; [done|]; by left].
  destruct ro as [o|]; [|by cbn in Es]. unfold shouldRetry in Es.
  destruct (canceled err) eqn:Ec; [by injection Es|]. cbn [orb] in Es. destruct (_ && _) eqn:Em; [by injection Es|]. rewrite Ha1 in Em.
  destruct (prepareRetry_spec o err s2 Hb Ha) as (d & dr & e & s3 & -> & Ha3 & Hb3 & _).
  eexists _, (negb (is_set e), e), s3. split; [by destruct e|]. split; [congruence|]. right. exists o, d, dr, e. rewrite Hb2. splits; try done; [lia|].
  apply andb_false_iff in Em as [?|?]; lia.
Qed.

(** ** Attempts and the bodies of their responses *)
(** The events of [do], and the body of the response it returns, if it is still
    open: before another attempt, the body of the response is closed, after the
    hooks and before the wait. *)
Inductive trace_ok {A} (hooks : list A) : list event -> option Z -> Prop :=
| TrNone : trace_ok hooks [] None
| TrSent b : trace_ok hooks [EvRoundTrip b] b
| TrGivenUp first b dr d : first = [EvRoundTrip b] \/ first = [] ->
    trace_ok hooks (first ++ hook_events hooks ++ (match b with Some b => [EvClose b dr] | None => [] end) ++ [EvWait d]) None
| TrAgain first b dr d rest fin : first = [EvRoundTrip b] \/ first = [] -> trace_ok hooks rest fin ->
    trace_ok hooks (first ++ (hook_events hooks ++ (match b with Some b => [EvClose b dr] | None => [] end) ++ [EvWait d]) ++ rest) fin.
Definition hooks_of (ro : option RetryOption) : list (option error -> callback unit) := match ro with Some o => RetryHooks o | None => [] end.

Section Disciplined.
Context (c : Client) (afterResponse : list (callback (option error))) (ro : option RetryOption).
(** Callbacks leave the number of the attempt and the body of the response alone. *)
Hypothesis before_keeps : Forall (keeps (fun s => attempt s)) (udBeforeRequest c ++ beforeRequest c).
Hypothesis roundTrip_keeps : keeps (fun s => attempt s) (roundTrip c).
Hypothesis after_keeps : Forall (keeps (fun s => attempt s)) afterResponse.
Hypothesis after_body : Forall (keeps resp_body) afterResponse.
Hypothesis option_attempt : option_keeps (fun s => attempt s) ro.
Hypothesis option_body : option_keeps resp_body ro.

Lemma ensure_headers_keeps s : attempt (ensure_headers s) = attempt s.
Proof. unfold ensure_headers. by destruct (q_Headers (sh_req s)). Qed.

Lemma do_loop_trace fuel : forall s ev err s', do_loop c afterResponse ro fuel s = Some (ev, err, s') ->
  exists fin, trace_ok (hooks_of ro) ev fin /\ (fin = None \/ resp_body s' = fin).
Proof.
  induction fuel as [|fuel IH]; intros s ev err s' H; [done|]. cbn [do_loop] in H.
  assert (forall first e s1, (exists b, first = [EvRoundTrip b] /\ resp_body s1 = b) \/ first = [] ->
    match tryRetry ro e s1 with
    | (ev, (_, Some retryErr), s) => Some (first ++ ev, Some retryErr, s)
    | (ev, (false, None), s) => Some (first ++ ev, e, s)
    | (ev, (true, None), s) => match do_loop c afterResponse ro fuel s with Some (ev', err, s) => Some (first ++ ev ++ ev', err, s) | None => None end
    end = Some (ev, err, s') -> exists fin, trace_ok (hooks_of ro) ev fin /\ (fin = None \/ resp_body s' = fin)) as Hagain.
  { intros first e s1 Hfirst Ht. destruct (tryRetry_spec ro e s1 option_body option_attempt) as (ev1 & r & s2 & Heq & Hb & [(-> & -> & _)|(o & d & dr & er & -> & -> & _ & _ & _ & ->)]); rewrite Heq in Ht.
    - injection Ht as <- <- <-. rewrite app_nil_r. destruct Hfirst as [(b & -> & Hb1)| ->]; [exists b|exists None]; split; [constructor|right; congruence|constructor|by left].
    - assert (first = [EvRoundTrip (resp_body s1)] \/ first = []) as Hf by (destruct Hfirst as [(b & -> & <-)| ->]; [by left|by right]).
      destruct er as [er|]; cbn in Ht.
      + injection Ht as <- <- <-. exists None. split; [|by left]. by apply (TrGivenUp (RetryHooks o)).
      + destruct (do_loop c afterResponse (Some o) fuel s2) as [[[ev' err'] s3]|] eqn:E; [|done]. injection Ht as <- <- <-.
        destruct (IH _ _ _ _ E) as (fin & Htr & Hfin). exists fin. split; [|done]. by apply (TrAgain (RetryHooks o)). }
  destruct (run_middlewares _ (ensure_headers s)) as [[e|] s1]; [by apply (Hagain [] (Some e) s1); [right|]|].
  destruct (roundTrip c s1) as [e s2]. pose proof (run_middlewares_keeps resp_body afterResponse after_body s2) as Hb.
  destruct (run_middlewares afterResponse s2) as [[e'|] s3]; cbn in Hb.
  { injection H as <- <- <-. exists (resp_body s2). split; [constructor|by right]. }
  destruct (canceled e).
  { injection H as <- <- <-. exists (resp_body s2). split; [constructor|by right]. }
  eapply (Hagain [EvRoundTrip (resp_body s2)]); [left; by exists (resp_body s2)|exact H].
Qed.

Definition is_send (e : event) : bool := match e with EvRoundTrip _ => true | _ => false end.
Definition sends (ev : list event) : Z := len (filter (fun e => is_send e = true) ev).
Definition retries_left (s : shared) : Z := match ro with None => 0 | Some o => Z.max 0 (MaxRetries o - attempt s) end.
Definition may_end : Prop := match ro with None => True | Some o => 0 <= MaxRetries o end.
Lemma sends_app ev1 ev2 : sends (ev1 ++ ev2) = sends ev1 + sends ev2.
Proof. unfold sends. by rewrite filter_app, len_app. Qed.
Lemma sends_retry {A} (hs : list A) b dr d : sends (hook_events hs ++ match b with Some b => [EvClose b dr] | None => [] end ++ [EvWait d]) = 0.
Proof.
  rewrite !sends_app. assert (sends (hook_events hs) = 0) as ->; [|by destruct b].
  unfold hook_events. generalize (rev (seq 0 (length hs))). intros l. induction l as [|i l IH]; [done|]. exact IH.
Qed.

Lemma do_loop_ends fuel : may_end -> forall s, retries_left s < Z.of_nat fuel ->
  exists ev err s', do_loop c afterResponse ro fuel s = Some (ev, err, s') /\ sends ev <= retries_left s + 1 /\ attempt s <= attempt s' <= attempt s + retries_left s.
Proof.
  intros Hend. induction fuel as [|fuel IH]; intros s Hf; [unfold retries_left in Hf; destruct ro; lia|]. cbn [do_loop].
  assert (forall first e s1, sends first <= 1 -> attempt s1 = attempt s -> exists ev err s',
    match tryRetry ro e s1 with
    | (ev, (_, Some retryErr), s) => Some (first ++ ev, Some retryErr, s)
    | (ev, (false, None), s) => Some (first ++ ev, e, s)
    | (ev, (true, None), s) => match do_loop c afterResponse ro fuel s with Some (ev', err, s) => Some (first ++ ev ++ ev', err, s) | None => None end
    end = Some (ev, err, s') /\ sends ev <= retries_left s + 1 /\ attempt s <= attempt s' <= attempt s + retries_left s) as Hagain.
  { intros first e s1 Hs Ha. assert (0 <= retries_left s) as Hpos by (unfold retries_left; destruct ro; lia).
    destruct (tryRetry_spec ro e s1 option_body option_attempt) as (ev1 & r & s2 & -> & _ & [(-> & -> & Ha2)|(o & d & dr & er & Ho & -> & Ha2 & Hm & _ & ->)]).
    - do 3 eexists. split; [reflexivity|]. rewrite app_nil_r. lia.
    - assert (attempt s < MaxRetries o) as Hlt by (unfold may_end in Hend; rewrite Ho in Hend; lia).
      assert (retries_left s = retries_left s2 + 1) as Hl by (unfold retries_left; rewrite Ho; lia).
      destruct er as [er|]; cbn.
      + do 3 eexists. split; [reflexivity|]. rewrite sends_app, sends_retry. unfold retries_left in *. rewrite Ho in *. lia.
      + destruct (IH s2 ltac:(lia)) as (ev' & err' & s3 & -> & Hs3 & Ha3). do 3 eexists. split; [reflexivity|].
        rewrite (sends_app first), (sends_app _ ev'), sends_retry. lia. }
  pose proof (run_middlewares_keeps (fun s => attempt s) _ before_keeps (ensure_headers s)) as Hb. cbn beta in Hb. rewrite ensure_headers_keeps in Hb.
  destruct (run_middlewares _ (ensure_headers s)) as [[e|] s1]; cbn in Hb; [by apply (Hagain [] (Some e) s1)|].
  pose proof (roundTrip_keeps s1) as Hr. cbn beta in Hr. destruct (roundTrip c s1) as [e s2]. cbn in Hr.
  pose proof (run_middlewares_keeps (fun s => attempt s) _ after_keeps s2) as Haf. cbn beta in Haf.
  assert (0 <= retries_left s) as Hpos by (unfold retries_left; destruct ro; lia).
  assert (sends [EvRoundTrip (resp_body s2)] = 1) as Hone by done.
  destruct (run_middlewares afterResponse s2) as [[e'|] s3]; cbn in Haf; [do 3 eexists; split; [reflexivity|]; lia|].
  destruct (canceled e); [do 3 eexists; split; [reflexivity|]; lia|]. apply Hagain; [lia|congruence].
Qed.

Lemma do_ends fuel s : may_end -> retries_left s < Z.of_nat fuel ->
  exists ev s' r fin, do c afterResponse ro fuel s = Some (ev, s') /\ sh_resp s' = Some r /\ sends ev <= retries_left s + 1
    /\ trace_ok (hooks_of ro) ev fin /\ (fin = None \/ resp_body s' = fin).
Proof.
  intros Hend Hf. unfold do. destruct (do_loop_ends fuel Hend (set_resp s None)) as (ev & err & s' & Hrun & Hs & _); [exact Hf|].
  rewrite Hrun. destruct (do_loop_trace _ _ _ _ _ Hrun) as (fin & Htr & Hfin).
  exists ev, (finish err s'). eexists. exists fin. splits; [done|reflexivity|exact Hs|exact Htr|]. destruct Hfin as [?|Hfin]; [by left|right].
  rewrite <- Hfin. unfold finish, resp_body, resp_of, set_resp. cbn. destruct (sh_resp s') as [[[hr|] e b]|]; cbn; by destruct err, e || destruct err.
Qed.
End Disciplined.

(** C19: a request that may be retried [n] times is sent at most [n + 1] times, and
    [Do] returns a response. Every attempt but the last is given up in order: hooks
    from the last added to the first, then the body of its response is closed, then
    the wait; no body but that of the response returned is left open. *)
Theorem retries_bounded c afterResponse ro fuel s :
  Forall (keeps (fun s => attempt s)) (udBeforeRequest c ++ beforeRequest c) -> keeps (fun s => attempt s) (roundTrip c) ->
  Forall (keeps (fun s => attempt s)) afterResponse -> Forall (keeps resp_body) afterResponse ->
  option_keeps (fun s => attempt s) ro -> option_keeps resp_body ro -> may_end ro -> retries_left ro s < Z.of_nat fuel ->
  exists ev s' r fin, Do c afterResponse ro fuel s = Some (ev, s') /\ sh_resp s' = Some r /\ sends ev <= retries_left ro s + 1
    /\ trace_ok (hooks_of ro) ev fin /\ (fin = None \/ resp_body s' = fin).
Proof.
  intros H1 H2 H3 H4 H5 H6 Hend Hf. assert (0 <= retries_left ro s) as Hpos by (unfold retries_left; destruct ro; lia).
  assert (forall e, exists ev s' r fin, Some ([] : list event, set_resp s (Some (set_Err emptyResponse (Some e)))) = Some (ev, s') /\ sh_resp s' = Some r
    /\ sends ev <= retries_left ro s + 1 /\ trace_ok (hooks_of ro) ev fin /\ (fin = None \/ resp_body s' = fin)) as Hearly.
  { intros e. exists []. eexists _, _, None. splits; [reflexivity|reflexivity|change (sends []) with 0; lia|constructor|by left]. }
  unfold Do. destruct (q_error (sh_req s)); [apply Hearly|]. destruct (_ && _); [apply Hearly|]. by apply do_ends.
Qed.

(** Retries are used up: when every round trip fails, not because the request
    was cancelled, and nothing but the retry count limits it, the request is sent
    exactly [MaxRetries + 1] times and its last error is returned. *)
Theorem retries_used_up c o fuel s (bad : error) :
  (forall s, run_middlewares (udBeforeRequest c ++ beforeRequest c) s = (None, s)) -> keeps (fun s => attempt s) (roundTrip c) ->
  (forall s, (roundTrip c s).1 = Some bad) -> is_canceled bad = false -> RetryConditions o = [] ->
  option_keeps (fun s => attempt s) (Some o) -> option_keeps resp_body (Some o) ->
  (forall n s, 0 < (GetRetryInterval o n s).1) -> (forall d w, 0 < d -> (elapse d w).1 = None) ->
  0 <= MaxRetries o -> 0 <= MaxRetries o - attempt s < Z.of_nat fuel ->
  exists ev s', do_loop c [] (Some o) fuel s = Some (ev, Some bad, s') /\ sends ev = MaxRetries o - attempt s + 1.
Proof.
  intros Hbefore Hk Hbad Hc Hno Ha Hb Hint Hel Hm. revert s. induction fuel as [|fuel IH]; intros s Hf; [lia|]. cbn [do_loop].
  rewrite Hbefore. specialize (Hbad (ensure_headers s)) as Hbad1. specialize (Hk (ensure_headers s)) as Hk1. cbn beta in Hk1. rewrite ensure_headers_keeps in Hk1.
  destruct (roundTrip c (ensure_headers s)) as [e s1]. cbn in Hbad1, Hk1. subst e. cbn [run_middlewares canceled]. rewrite Hc.
  unfold tryRetry. set (s2 := set_resp s1 _). assert (attempt s2 = attempt s) as Ha2 by done. clearbody s2. unfold shouldRetry. cbn [canceled]. rewrite Hc, Hno, Ha2. cbn [orb is_set].
  destruct (Z.leb_spec (MaxRetries o) (attempt s)) as [Hle|Hgt]; [destruct (Z.leb_spec 0 (MaxRetries o))|]; cbn [andb].
  - do 2 eexists. split; [reflexivity|]. rewrite app_nil_r. change (sends [EvRoundTrip (resp_body s1)]) with 1. lia.
  - lia.
  - pose proof (prepareRetry_spec o (Some bad) s2 Hb Ha) as (d & dr & e & s3 & Hp & Ha3 & _ & _). pose proof Hp as Hp'. rewrite Hp.
    assert (e = None) as ->.
    { unfold prepareRetry in Hp. destruct Ha as (_ & _ & _). set (s4 := run_hooks _ _ _) in Hp. specialize (Hint (attempt s4) s4). destruct (GetRetryInterval o (attempt s4) s4) as [d' s5]. cbn in Hint.
      destruct (closeRetryResponseBody s5) as [ev6 s6]. unfold waitRetryInterval in Hp. destruct (Z.leb_spec d' 0); [lia|]. specialize (Hel d' (sh_w s6) Hint).
      destruct (elapse d' (sh_w s6)) as [e' w']. cbn in Hel. subst e'. by injection Hp as _ <- _. }
    destruct (IH s3 ltac:(lia)) as (ev' & s' & -> & Hs). do 2 eexists. split; [reflexivity|]. rewrite (sends_app [_]), (sends_app _ ev'), sends_retry, Hs.
    change (sends [EvRoundTrip (resp_body s1)]) with 1. lia.
Qed.

(** A request with a response middleware of its own ([OnAfterResponse]) is not
    retried when a round trip fails, although retries are configured: the
    middleware's result overwrites the error before [tryRetry] looks at it. *)
Theorem own_middleware_stops_retries c afterResponse o fuel s :
  (forall s, (run_middlewares (udBeforeRequest c ++ beforeRequest c) s).1 = None) ->
  afterResponse <> [] -> Forall (fun f => forall s, (f s).1 = None) afterResponse -> RetryConditions o = [] ->
  exists b s', do_loop c afterResponse (Some o) (S fuel) s = Some ([EvRoundTrip b], None, s').
Proof.
  intros Hbefore Hne Hafter Hno. cbn [do_loop]. specialize (Hbefore (ensure_headers s)). destruct (run_middlewares _ (ensure_headers s)) as [e s1]. cbn in Hbefore. subst e.
  destruct (roundTrip c s1) as [e s2].
  assert (forall s, (run_middlewares afterResponse s).1 = None) as Hall.
  { clear -Hafter. induction Hafter as [|f fs Hf _ IH]; intros s; cbn; [done|]. specialize (Hf s). destruct (f s) as [e s']. cbn in Hf. subst e. apply IH. }
  specialize (Hall s2). destruct (run_middlewares afterResponse s2) as [e' s3]. cbn in Hall. subst e'.
  destruct (canceled e); [destruct afterResponse; [done|]; by do 2 eexists|]. destruct afterResponse; [done|].
  unfold tryRetry, shouldRetry. cbn [canceled]. rewrite Hno. destruct (_ || _); cbn; by do 2 eexists.
Qed.
End Loop.
Arguments shared : clear implicits.
Arguments RetryOption : clear implicits.

(** ** Intervals *)
Definition defaultGetRetryInterval : Z := 100 * 1000000.
(** [backoffInterval(min, max)], for durations below 2^53 ns, where the floating
    point operations are exact; [r] is what [rand.Int63n] draws, below its argument,
    and it panics for an argument that is not positive. *)
Definition backoff_temp (min max attempt : Z) : Z := Z.min max (min * 2 ^ attempt).
Definition backoffInterval (rand_Int63n : Z -> Z) (min max attempt : Z) : result string Z :=
  let halfTemp := Z.quot (backoff_temp min max attempt) 2 in
  if halfTemp <=? 0 then Err "invalid argument to Int63n" else Ok (halfTemp + rand_Int63n halfTemp).

(** A back-off interval is at least half of [min(max, min * 2^attempt)] and below
    it, so it doubles with every attempt and never reaches the maximum. It exists
    exactly when that value is at least 2 ns: a zero minimum panics. *)
Theorem backoff_bounds rand_Int63n min max attempt : (forall n, 0 < n -> 0 <= rand_Int63n n < n) -> 0 <= attempt ->
  match backoffInterval rand_Int63n min max attempt with
  | Ok d => Z.quot (backoff_temp min max attempt) 2 <= d < backoff_temp min max attempt /\ d < max
            /\ (0 <= min -> backoff_temp min max attempt <= backoff_temp min max (attempt + 1))
  | Err _ => backoff_temp min max attempt < 2
  end.
Proof.
  intros Hr Ha. unfold backoffInterval. set (t := backoff_temp min max attempt). assert (t <= max) as Hm by (unfold t, backoff_temp; lia).
  destruct (Z.leb_spec (Z.quot t 2) 0) as [Hle|Hgt].
  - destruct (Z.lt_ge_cases t 2); [done|]. pose proof (Z.quot_le_mono 2 t 2). assert (Z.quot 2 2 = 1) by done. lia.
  - assert (0 <= t) as Ht. { destruct (Z.lt_ge_cases t 0) as [Hn|]; [|done]. pose proof (Z.quot_le_mono t 0 2). assert (Z.quot 0 2 = 0) by done. lia. }
    rewrite Z.quot_div_nonneg in * by lia. specialize (Hr (t / 2) Hgt). pose proof (Z.div_mod t 2). pose proof (Z.mod_pos_bound t 2). splits; [lia|lia|lia|].
    intros Hmin. unfold t, backoff_temp. rewrite Z.pow_add_r by lia. change (2 ^ 1) with 2. pose proof (Z.pow_pos_nonneg 2 attempt). nia.
Qed.
Lemma backoff_bounds_witness :
  match backoffInterval (fun n => n - 1) 1000 5000 2 with
  | Ok d => Z.quot (backoff_temp 1000 5000 2) 2 <= d < backoff_temp 1000 5000 2 /\ d < 5000
            /\ (0 <= 1000 -> backoff_temp 1000 5000 2 <= backoff_temp 1000 5000 (2 + 1))
  | Err _ => backoff_temp 1000 5000 2 < 2
  end.
Proof. apply (backoff_bounds (fun n => n - 1) 1000 5000 2); [intros n Hn; lia|lia]. Defined.
Example backoff_zero_panics : backoffInterval (fun n => 0) 0 1000000 1 = Err "invalid argument to Int63n"%string.
Proof. reflexivity. Qed.

(** ** A server that fails *)
Definition plain_request (n : Z) : Request := mkRequest "GET" None [] ∅ [] None None None None false n.
Definition start : shared unit := Sh (plain_request 0) None tt.
(** Every round trip gives a 503 with a body of its own. *)
Definition unavailable (s : shared unit) : option error * shared unit :=
  (None, set_resp s (Some (mkResponse (Some (mkHttpResponse 503 5 ∅ (Some (q_RetryAttempt (sh_req s))))) None None))).
Definition reset_error : error := errors_New "read: connection reset by peer".
Definition failing (s : shared unit) : option error * shared unit := (Some reset_error, set_resp s (Some (mkResponse None (Some reset_error) None))).
Definition client_of (f : shared unit -> option error * shared unit) : Client := mkClient [] [] f None.
Definition every_ms {W} (n : Z) (s : shared W) : Z * shared W := (1000000, s).
Definition on_5xx (err : option error) (s : shared unit) : bool * shared unit :=
  (match sh_resp s with Some (mkResponse (Some hr) _ _) => 500 <=? hr_StatusCode hr | _ => false end, s).
Definition no_hook (err : option error) (s : shared unit) : unit * shared unit := (tt, s).
Definition is_ctx_Canceled (e : error) : bool := bool_decide (e = ctx_Canceled).
Definition twice : RetryOption unit := mkRetryOption 2 every_ms [on_5xx] [no_hook; no_hook].
Definition run_Do := Do is_ctx_Canceled (fun _ : unit => None) (fun _ w => (None, w)) (fun _ _ w => w).

Lemma retries_bounded_witness :
  exists ev s' r fin, run_Do (client_of unavailable) [] (Some twice) 3 start = Some (ev, s') /\ sh_resp s' = Some r /\ sends ev <= 3
    /\ trace_ok [no_hook; no_hook] ev fin /\ (fin = None \/ resp_body s' = fin).
Proof.
  apply (retries_bounded is_ctx_Canceled (fun _ => None) (fun _ w => (None, w)) (fun _ _ w => w) (client_of unavailable) [] (Some twice) 3 start).
  - constructor.
  - intros s. reflexivity.
  - constructor.
  - constructor.
  - split; [|split]; repeat constructor; intros; reflexivity.
  - split; [|split]; repeat constructor; intros; reflexivity.
  - cbn. lia.
  - cbn. lia.
Defined.
Example retries_of_503 : (fun x : list event * shared unit => (x.1, resp_body x.2)) <$> run_Do (client_of unavailable) [] (Some twice) 3 start =
  Some ([EvRoundTrip (Some 0); EvHook 1; EvHook 0; EvClose 0 true; EvWait 1000000;
         EvRoundTrip (Some 1); EvHook 1; EvHook 0; EvClose 1 true; EvWait 1000000; EvRoundTrip (Some 2)], Some 2).
Proof. vm_compute. reflexivity. Qed.

Definition twice_on_error : RetryOption unit := mkRetryOption 2 every_ms [] [].
Definition run_loop := do_loop is_ctx_Canceled (fun _ : unit => None) (fun _ w => (None, w)) (fun _ _ w => w).
Lemma retries_used_up_witness : exists ev s', run_loop (client_of failing) [] (Some twice_on_error) 3 start = Some (ev, Some reset_error, s') /\ sends ev = 3.
Proof.
  apply (retries_used_up is_ctx_Canceled (fun _ => None) (fun _ w => (None, w)) (fun _ _ w => w) (client_of failing) twice_on_error 3 start reset_error).
  - intros s. reflexivity.
  - intros s. reflexivity.
  - intros s. reflexivity.
  - reflexivity.
  - reflexivity.
  - split; [|split]; repeat constructor; intros; reflexivity.
  - split; [|split]; repeat constructor; intros; reflexivity.
  - intros n s. cbn. lia.
  - reflexivity.
  - cbn. lia.
  - cbn. lia.
Defined.
Lemma own_middleware_stops_retries_witness :
  exists b s', run_loop (client_of failing) [fun s => (None, s)] (Some twice_on_error) 3 start = Some ([EvRoundTrip b], None, s').
Proof.
  apply (own_middleware_stops_retries is_ctx_Canceled (fun _ => None) (fun _ w => (None, w)) (fun _ _ w => w) (client_of failing) [fun s => (None, s)] twice_on_error 2 start).
  - intros s. reflexivity.
  - discriminate.
  - repeat constructor.
  - reflexivity.
Defined.
