(* ===== verification/ReqMultipart.v ===== *)
(** * Multipart bodies ([src/middleware.go], [src/req.go])

    The bytes of a [multipart/form-data] body and the length announced for it:
    [multipartContentLength] counts without reading the files, [writeMultiPart]
    writes. [multipart.Writer] is the standard library's; progress callbacks, which
    pass the bytes on, are left out. *)

From S2P Require Import Prelude.
From S2P Require Import H2Errors.
From S2P Require Import NetText.
From S2P Require Import FrameWrite.
From S2P Require Import TransferWrite.

(** [fu_Content] is what [GetFileContent] gives, at its start (a content that can
    be sought is sought to its start on a retry); [fu_closeErr] is not used: the
    error of [Close] is dropped. *)
Record FileUpload := mkFileUpload {
  fu_ParamName : string; fu_FileName : string; fu_Content : result error ioReader; fu_FileSize : Z; fu_ContentType : string;
  fu_Extra : option (list (string * string)) }.
(** The parts of a [Request] used here, the form data in the order the map is ranged over. *)
Record multipartRequest := mkMultipartRequest {
  mr_FormData : list (string * list string); mr_OrderedFormData : list string; mr_uploadFiles : list FileUpload }.
Definition errBadOrderedFormData : error := errors_New "bad ordered form data, the number of key-value pairs should be an even number".

Definition dquote : string := string_of_bytes [34].
(** ASCII white space only. *)
Definition IsStringEmpty (s : string) : bool := forallb (fun b => (b =? 32) || ((9 <=? b) && (b <=? 13))) (bytes_of_string s).

Section Multipart.
(** [%q] of [fmt], [escapeQuotes] of [mime/multipart] and [http.DetectContentType]. *)
Context (quote escapeQuotes : string -> string) (DetectContentType : bytes -> string).

Definition ContentDisposition_string (kv : list (string * string)) : string :=
  fold_left (fun s kv => s +:+ "; " +:+ kv.1 +:+ "=" +:+ quote kv.2) kv "".
(** The header of a part, by key. *)
Definition createMultipartHeader (file : FileUpload) (contentType : string) : list (string * string) :=
  let cd := (if String.eqb (fu_ParamName file) "" then [] else [("name"%string, fu_ParamName file)])
            ++ (if String.eqb (fu_FileName file) "" then [] else [("filename"%string, fu_FileName file)])
            ++ default [] (fu_Extra file) in
  ("Content-Disposition", "form-data" +:+ ContentDisposition_string cd)%string
  :: (if IsStringEmpty contentType then [] else [("Content-Type"%string, contentType)]).

(** ** [multipart.Writer] *)
Section Writing.
Context {W : Type} `{Writer W}.
Record mpWriter := mkMpWriter { mw_w : W; mw_boundary : bytes; mw_lastpart : option (option error) (* the open part, and its error *) }.
Definition part_bytes (boundary : bytes) (first : bool) (hdr : list (string * string)) : bytes :=
  (if first then [] else [13; 10]) ++ [45; 45] ++ boundary ++ [13; 10]
  ++ concat ((fun kv => bytes_of_string kv.1 ++ [58; 32] ++ bytes_of_string kv.2 ++ [13; 10]) <$> hdr) ++ [13; 10].
Definition CreatePart (w : mpWriter) (hdr : list (string * string)) : mpWriter * option error :=
  match mw_lastpart w with
  | Some (Some e) => (w, Some e)
  | last =>
      let '(w', _, err) := wr_Write (mw_w w) (part_bytes (mw_boundary w) (negb (is_set last)) hdr) in
      (mkMpWriter w' (mw_boundary w) (match err with Some _ => last | None => Some None end), err)
  end.
Definition part_Write (w : mpWriter) (d : bytes) : mpWriter * Z * option error :=
  let '(w', n, err) := wr_Write (mw_w w) d in
  (mkMpWriter w' (mw_boundary w) (match err with Some e => Some (Some e) | None => mw_lastpart w end), n, err).
Definition WriteField (w : mpWriter) (name value : string) : mpWriter * option error :=
  match CreatePart w [("Content-Disposition", "form-data; name=" +:+ dquote +:+ escapeQuotes name +:+ dquote)]%string with
  | (w, Some e) => (w, Some e)
  | (w, None) => let '(w, _, err) := part_Write w (bytes_of_string value) in (w, err)
  end.
Definition close_bytes (boundary : bytes) : bytes := [13; 10; 45; 45] ++ boundary ++ [45; 45; 13; 10].
Definition mw_Close (w : mpWriter) : mpWriter * option error :=
  match mw_lastpart w with
  | Some (Some e) => (w, Some e)
  | _ => let '(w', _, err) := wr_Write (mw_w w) (close_bytes (mw_boundary w)) in (mkMpWriter w' (mw_boundary w) None, err)
  end.

(** ** Writing *)
(** The content is sniffed on its first read of up to 512 bytes, in a buffer of 512. *)
Definition writeMultipartFormFile (w : mpWriter) (file : FileUpload) : option (mpWriter * option error) :=
  match fu_Content file with
  | Err e => Some (w, Some e)
  | Ok content =>
      let '((d, er), content) := io_Read content 512 in
      match er with
      | Some e =>
          if negb (bool_decide (e = io_EOF)) then Some (w, Some e) else
          let ct := if String.eqb (fu_ContentType file) "" then DetectContentType (zeros 512) else fu_ContentType file in
          match CreatePart w (createMultipartHeader file ct) with
          | (w, Some e) => Some (w, Some e)
          | (w, None) => let '(w, _, err) := part_Write w d in Some (w, err)
          end
      | None =>
          let ct := if String.eqb (fu_ContentType file) "" then DetectContentType (d ++ zeros (512 - len d)) else fu_ContentType file in
          match CreatePart w (createMultipartHeader file ct) with
          | (w, Some e) => Some (w, Some e)
          | (w, None) =>
              match part_Write w d with
              | (w, _, Some e) => Some (w, Some e)
              | (w, _, None) =>
                  match copy_loop part_Write (S (length (TransferWrite.content content))) w None content 0 with
                  | None => None
                  | Some (w, _, err, _) => Some (w, err)
                  end
              end
          end
      end
  end.

Fixpoint write_fields (w : mpWriter) (kvs : list (string * string)) : mpWriter * option error :=
  match kvs with
  | [] => (w, None)
  | (k, v) :: kvs => match WriteField w k v with (w, Some e) => (w, Some e) | (w, None) => write_fields w kvs end
  end.
Fixpoint write_files (w : mpWriter) (fs : list FileUpload) : option (mpWriter * option error) :=
  match fs with
  | [] => Some (w, None)
  | f :: fs => match writeMultipartFormFile w f with Some (w, None) => write_files w fs | r => r end
  end.
Fixpoint pairs_of (l : list string) : list (string * string) :=
  match l with k :: v :: l => (k, v) :: pairs_of l | _ => [] end.
Definition flat_form (f : list (string * list string)) : list (string * string) := flat_map (fun kv => (fun v => (kv.1, v)) <$> kv.2) f.
Definition form_fields (r : multipartRequest) : result error (list (string * string)) :=
  match mr_FormData r with
  | [] => if Nat.odd (length (mr_OrderedFormData r)) then Err errBadOrderedFormData else Ok (pairs_of (mr_OrderedFormData r))
  | f => Ok (flat_form f)
  end.

(** The writer is closed on every path; its error counts when there is no other. *)
Definition writeMultiPart (r : multipartRequest) (w : mpWriter) : option (mpWriter * option error) :=
  let close (w : mpWriter) (err : option error) : mpWriter * option error :=
    let '(w, closeErr) := mw_Close w in (w, match err with Some _ => err | None => closeErr end) in
  match form_fields r with
  | Err e => Some (close w (Some e))
  | Ok kvs =>
      match write_fields w kvs with
      | (w, Some e) => Some (close w (Some e))
      | (w, None) =>
          match write_files w (mr_uploadFiles r) with
          | None => None
          | Some (w, err) => Some (close w err)
          end
      end
  end.
End Writing.
Arguments mpWriter : clear implicits.
Arguments mkMpWriter {W}.

(** ** Counting *)
Definition i64_add (n m : Z) : Z := i64 (n + m).
#[local] Instance countingWriter : Writer Z := fun n p => (i64_add n (len p), len p, None).
Fixpoint count_files (w : mpWriter Z) (fs : list FileUpload) : option (result error (mpWriter Z)) :=
  match fs with
  | [] => Some (Ok w)
  | file :: fs =>
      if (fu_FileSize file <=? 0) || String.eqb (fu_ContentType file) "" then None else
      match CreatePart w (createMultipartHeader file (fu_ContentType file)) with
      | (_, Some e) => Some (Err e)
      | (w, None) => count_files (mkMpWriter (i64_add (mw_w w) (fu_FileSize file)) (mw_boundary w) (mw_lastpart w)) fs
      end
  end.
(** The length, and whether it is known. *)
Definition multipartContentLength (r : multipartRequest) (boundary : bytes) : Z * bool * option error :=
  match form_fields r with
  | Err e => (0, false, Some e)
  | Ok kvs =>
      match write_fields (mkMpWriter 0 boundary None) kvs with
      | (_, Some e) => (0, false, Some e)
      | (w, None) =>
          match count_files w (mr_uploadFiles r) with
          | None => (0, false, None)
          | Some (Err e) => (0, false, Some e)
          | Some (Ok w) =>
              match mw_Close w with
              | (_, Some e) => (0, false, Some e)
              | (w, None) => (mw_w w, true, None)
              end
          end
      end
  end.

(** ** Both passes *)
Definition healthy {W} (w : mpWriter W) : Prop := match mw_lastpart w with Some (Some _) => False | _ => True end.
(** The counting writer against the bytes. *)
Definition counts (z : mpWriter Z) (b : mpWriter bytes) : Prop :=
  mw_w z = i64 (len (mw_w b)) /\ mw_boundary z = mw_boundary b /\ mw_lastpart z = mw_lastpart b /\ healthy b.
Lemma i64_add_l a b : i64_add (i64 a) b = i64 (a + b).
Proof. unfold i64_add. word. Qed.

Lemma CreatePart_bytes (b : mpWriter bytes) hdr : healthy b ->
  CreatePart b hdr = (mkMpWriter (mw_w b ++ part_bytes (mw_boundary b) (negb (is_set (mw_lastpart b))) hdr) (mw_boundary b) (Some None), None).
Proof. unfold CreatePart, healthy. by destruct (mw_lastpart b) as [[e|]|]. Qed.
Lemma CreatePart_counts z b hdr : counts z b -> exists z', CreatePart z hdr = (z', None) /\ counts z' (CreatePart b hdr).1.
Proof.
  intros (Hw & Hb & Hl & Hh). rewrite CreatePart_bytes by done. unfold CreatePart. rewrite Hl, Hb.
  assert (forall first, i64_add (mw_w z) (len (part_bytes (mw_boundary b) first hdr)) = i64 (len (mw_w b ++ part_bytes (mw_boundary b) first hdr))) as Hn.
  { intros first. rewrite Hw, i64_add_l, len_app. done. }
  unfold healthy in Hh. destruct (mw_lastpart b) as [[e|]|] eqn:E; [done|..]; (eexists; split; [reflexivity|]; split; [apply Hn|done]).
Qed.
Lemma part_Write_bytes (b : mpWriter bytes) d : part_Write b d = (mkMpWriter (mw_w b ++ d) (mw_boundary b) (mw_lastpart b), len d, None).
Proof. done. Qed.
Lemma part_Write_counts z b d : counts z b -> exists z', part_Write z d = (z', len d, None) /\ counts z' (part_Write b d).1.1.
Proof. intros (Hw & Hb & Hl & Hh). eexists. split; [reflexivity|]. unfold counts. cbn. by rewrite Hw, i64_add_l, len_app. Qed.
Lemma write_fields_counts kvs : forall z b, counts z b -> exists z' b', write_fields z kvs = (z', None) /\ write_fields b kvs = (b', None) /\ counts z' b'.
Proof.
  induction kvs as [|[k v] kvs IH]; intros z b Hc; [by exists z, b|]. cbn [write_fields]. unfold WriteField. set (hdr := [_]).
  destruct (CreatePart_counts z b hdr Hc) as (z1 & -> & Hc1). destruct Hc as (_ & _ & _ & Hh). rewrite CreatePart_bytes in * by done. cbn [fst] in Hc1.
  destruct (part_Write_counts z1 _ (bytes_of_string v) Hc1) as (z2 & -> & Hc2). rewrite part_Write_bytes in *. by apply IH.
Qed.

(** The length of the fields does not depend on their order. *)
Definition field_len (boundary : bytes) (kv : string * string) : Z :=
  len (part_bytes boundary false [("Content-Disposition", "form-data; name=" +:+ dquote +:+ escapeQuotes kv.1 +:+ dquote)%string]) + len (bytes_of_string kv.2).
Definition fields_len (boundary : bytes) (kvs : list (string * string)) : Z := fold_right (fun kv n => field_len boundary kv + n) 0 kvs.
Lemma fields_len_perm boundary kvs kvs' : kvs ≡ₚ kvs' -> fields_len boundary kvs = fields_len boundary kvs'.
Proof. unfold fields_len. induction 1; cbn [fold_right]; lia. Qed.
Lemma part_bytes_first boundary hdr : len (part_bytes boundary true hdr) = len (part_bytes boundary false hdr) - 2.
Proof. unfold part_bytes. rewrite !len_app. change (len [13; 10]) with 2. rewrite len_nil. lia. Qed.
Lemma write_fields_len kvs : forall (b : mpWriter bytes), healthy b -> exists b', write_fields b kvs = (b', None) /\ healthy b'
  /\ mw_boundary b' = mw_boundary b /\ mw_lastpart b' = match kvs with [] => mw_lastpart b | _ => Some None end
  /\ len (mw_w b') = len (mw_w b) + fields_len (mw_boundary b) kvs - match kvs with [] => 0 | _ => if is_set (mw_lastpart b) then 0 else 2 end.
Proof.
  induction kvs as [|[k v] kvs IH]; intros b Hh; [exists b; splits; try done; cbn; lia|]. cbn [write_fields fields_len fold_right]. fold (fields_len (mw_boundary b) kvs).
  unfold WriteField. set (hdr := [_]). rewrite CreatePart_bytes, part_Write_bytes by done. cbn [mw_w mw_boundary mw_lastpart].
  edestruct IH as (b' & -> & Hh' & Hb' & Hl' & Hn'); [|exists b'; splits; [done|done|done|by rewrite Hl'; destruct kvs|]]; [done|].
  rewrite Hn'. cbn [mw_w mw_boundary mw_lastpart is_set]. rewrite !len_app. unfold field_len. cbn [fst snd]. fold hdr.
  destruct (is_set (mw_lastpart b)); cbn [negb]; [|rewrite part_bytes_first]; destruct kvs; lia.
Qed.

Abbreviation appended b d := (mkMpWriter (mw_w b ++ d) (mw_boundary b) (mw_lastpart b)).
Lemma copy_part fuel : forall (b : mpWriter bytes) c n, reader_ok c -> (length (content c) < fuel)%nat ->
  exists n' c', copy_loop part_Write fuel b None c n = Some (appended b (content c), n', copy_error (rd_end c), c').
Proof.
  induction fuel as [|fuel IH]; intros b c n Hok Hf; [lia|]. cbn [copy_loop].
  pose proof (limited_Read_spec None c copyBufSize Hok ltac:(done) I) as Hr. destruct (limited_Read None c copyBufSize) as [[d er] c1].
  destruct Hr as (Hok1 & He1 & Hc1 & _ & Her). destruct er as [e|].
  - destruct Her as (-> & -> & [[? _]|(_ & Hnil & ->)]); [done|]. rewrite Hnil, app_nil_r. exists n, c. by destruct b.
  - destruct Her as [Hd _]. rewrite part_Write_bytes, Z.eqb_refl. cbn [negb fmap option_fmap option_map].
    assert (length (content c1) < fuel)%nat as Hf1 by (rewrite Hc1, length_app in Hf; destruct d; [done|cbn in Hf; lia]).
    destruct (IH (appended b d) c1 (n + len d) Hok1 Hf1) as (n' & c' & ->). exists n', c'. cbn [mw_w mw_boundary mw_lastpart]. by rewrite Hc1, app_assoc, He1.
Qed.

(** A file whose content is as long as declared, and of a given type. *)
Definition file_ok (f : FileUpload) : Prop := exists c, fu_Content f = Ok c /\ reader_ok c /\ rd_end c = io_EOF /\ len (content c) = fu_FileSize f.
Lemma writeMultipartFormFile_bytes f c (b : mpWriter bytes) : fu_Content f = Ok c -> reader_ok c -> rd_end c = io_EOF -> fu_ContentType f <> ""%string -> healthy b ->
  writeMultipartFormFile b f = Some (appended (CreatePart b (createMultipartHeader f (fu_ContentType f))).1 (content c), None).
Proof.
  intros Hc Hok He Hct Hh. unfold writeMultipartFormFile. rewrite Hc, (proj2 (String.eqb_neq _ _) Hct).
  pose proof (limited_Read_spec None c 512 Hok ltac:(done) I) as Hr. cbn [limited_Read] in Hr. destruct (io_Read c 512) as [[d er] c1].
  destruct Hr as (Hok1 & He1 & Hc1 & _ & Her). rewrite CreatePart_bytes by done. cbn [fst]. rewrite !part_Write_bytes. destruct er as [e|].
  - destruct Her as (-> & -> & [[? _]|(_ & Hnil & ->)]); [done|]. rewrite He, bool_decide_true by done. cbn [negb]. by rewrite Hnil.
  - cbn [mw_w mw_boundary mw_lastpart]. match goal with |- context [copy_loop part_Write ?fu ?w None c1 0] => destruct (copy_part fu w c1 0 Hok1 ltac:(lia)) as (n' & c' & ->) end.
    cbn [mw_w mw_boundary mw_lastpart]. unfold copy_error. rewrite He1, He, bool_decide_true by done. by rewrite Hc1, app_assoc.
Qed.

Lemma files_count fs : forall z b z', counts z b -> Forall file_ok fs -> count_files z fs = Some (Ok z') ->
  exists b', write_files b fs = Some (b', None) /\ counts z' b'.
Proof.
  induction fs as [|f fs IH]; intros z b z' Hc Hf Hn; [injection Hn as <-; by exists b|]. cbn [count_files write_files] in *. apply Forall_cons in Hf as [(c & Hfc & Hok & He & Hlen) Hf].
  destruct (_ || _) eqn:Eg; [done|]. apply orb_false_iff in Eg as [_ Hct%String.eqb_neq]. pose proof Hc as (_ & _ & _ & Hh).
  rewrite (writeMultipartFormFile_bytes f c b Hfc Hok He Hct Hh). destruct (CreatePart_counts z b (createMultipartHeader f (fu_ContentType f)) Hc) as (z1 & Hz1 & Hc1).
  rewrite Hz1 in Hn. set (b1 := (CreatePart b _).1) in *. clearbody b1. eapply IH; [|done|exact Hn].
  destruct Hc1 as (Hw & Hb & Hl & Hh1). unfold counts. cbn [mw_w mw_boundary mw_lastpart]. rewrite Hw, i64_add_l, len_app, Hlen. splits; done.
Qed.

(** C32: the length computed for a multipart body without reading its files is the
    length of the body that is written, when each file is as long as declared,
    whatever order the form data is ranged over in each of the two passes. *)
Theorem multipart_length_exact r r' boundary n : multipartContentLength r boundary = (n, true, None) ->
  mr_FormData r' ≡ₚ mr_FormData r -> mr_OrderedFormData r' = mr_OrderedFormData r -> mr_uploadFiles r' = mr_uploadFiles r -> Forall file_ok (mr_uploadFiles r) ->
  exists b, writeMultiPart r' (mkMpWriter [] boundary None) = Some (b, None) /\ n = i64 (len (mw_w b)).
Proof.
  intros Hn Hform Hord Hfiles Hok. unfold multipartContentLength in Hn. unfold writeMultiPart.
  assert (forall kvs, form_fields r = Ok kvs -> exists kvs', form_fields r' = Ok kvs' /\ kvs' ≡ₚ kvs) as Hkvs.
  { unfold form_fields. rewrite Hord. intros kvs Hk. destruct (mr_FormData r') as [|x l] eqn:E'.
    - apply Permutation_nil_l in Hform. rewrite <- Hform in Hk. by exists kvs.
    - destruct (mr_FormData r) as [|y l2] eqn:E; [apply Permutation_nil_r in Hform; done|]. injection Hk as <-. eexists. split; [reflexivity|]. exact (Permutation_flat_map _ Hform). }
  destruct (form_fields r) as [kvs|e] eqn:Ef; [|done]. destruct (Hkvs kvs eq_refl) as (kvs' & -> & Hp).
  set (b0 := mkMpWriter ([] : bytes) boundary None). assert (counts (mkMpWriter 0 boundary None) b0) as Hc0 by (splits; done).
  destruct (write_fields_counts kvs _ _ Hc0) as (z1 & b1 & Hz1 & Hb1 & Hc1). rewrite Hz1 in Hn.
  destruct (write_fields_len kvs b0 ltac:(done)) as (b1' & Hb1' & _ & _ & _ & Hl1). rewrite Hb1 in Hb1'. injection Hb1' as <-.
  destruct (write_fields_len kvs' b0 ltac:(done)) as (b2 & Hb2 & Hh2 & Hbo2 & Hla2 & Hl2). rewrite Hb2.
  assert (forall A (x y : A), match kvs with [] => x | _ => y end = match kvs' with [] => x | _ => y end) as Hshape.
  { intros A x y. destruct kvs as [|? kvs]; [by apply Permutation_nil_r in Hp as ->|]. destruct kvs'; [by apply Permutation_nil_l in Hp|done]. }
  assert (counts z1 b2) as Hc2.
  { destruct (write_fields_len kvs b0 ltac:(done)) as (b1' & Hb1' & _ & Hbo1 & Hla1 & _). rewrite Hb1 in Hb1'. injection Hb1' as <-.
    destruct Hc1 as (Hw & Hb & Hl & _). unfold counts. splits; [|congruence| |done].
    - rewrite Hw. f_equal. by rewrite Hl1, Hl2, (fields_len_perm _ _ _ Hp), Hshape.
    - by rewrite Hl, Hla1, Hla2, Hshape. }
  destruct (count_files z1 (mr_uploadFiles r)) as [[z3|e]|] eqn:Ec; [|done|done]. rewrite Hfiles.
  destruct (files_count _ _ _ _ Hc2 Hok Ec) as (b3 & -> & Hw & Hb & Hl & Hh). unfold mw_Close in *. rewrite Hl, Hb in Hn. unfold healthy in Hh.
  assert (i64_add (mw_w z3) (len (close_bytes (mw_boundary b3))) = i64 (len (mw_w b3 ++ close_bytes (mw_boundary b3)))) as Hcl by (rewrite Hw, i64_add_l, len_app; done).
  destruct (mw_lastpart b3) as [[e|]|]; [done|..]; cbn in Hn; injection Hn as <-; eexists; (split; [reflexivity|]); exact Hcl.
Qed.
End Multipart.

(** Two fields in two orders and a file. *)
Definition form_upload (swap : bool) : multipartRequest :=
  let a := ("a"%string, ["1"; "2"]%string) in let b := ("b"%string, ["x"%string]) in
  mkMultipartRequest (if swap then [b; a] else [a; b]) [] [mkFileUpload "f" "f.txt" (Ok (mkReader [[104; 105]; [33]] io_EOF)) 3 "text/plain" None].
Definition quoted (s : string) : string := dquote +:+ s +:+ dquote.
Lemma multipart_length_exact_witness : exists b,
  writeMultiPart quoted id (fun _ => "text/plain"%string) (form_upload true) (mkMpWriter [] [66] None) = Some (b, None) /\ 261 = i64 (len (mw_w b)).
Proof.
  apply (multipart_length_exact quoted id (fun _ => "text/plain"%string) (form_upload false) (form_upload true) [66] 261).
  - vm_compute. reflexivity.
  - constructor.
  - reflexivity.
  - reflexivity.
  - repeat constructor. exists (mkReader [[104; 105]; [33]] io_EOF). repeat split. repeat constructor; discriminate.
Defined.
