(* ===== verification/ReqPrepare.v ===== *)
(** * Preparing a request ([src/middleware.go])

    The middlewares a client runs before every attempt: the common headers and
    cookies are added, the form, the query and the body are built. They run again
    on a retry, on the same request. *)

From S2P Require Import Prelude.
From S2P Require Import H2Errors.
From S2P Require Import NetText.
From S2P Require Import TextProto.
From S2P Require Import TransferWrite.
From S2P Require Import ReqRetry.
From S2P Require Import ReqMultipart.

(** ** [net/url]: query encoding *)
Abbreviation Values := (gmap string (list string)).
Definition unreserved (c : byte) : bool :=
  is_lower c || is_upper c || is_digit c || (c =? 45) || (c =? 95) || (c =? 46) || (c =? 126).
Definition hex_upper (d : Z) : byte := if d <? 10 then 48 + d else 55 + d.
Definition escape_byte (c : byte) : bytes :=
  if unreserved c then [c] else if c =? 32 then [43] else [37; hex_upper (Z.shiftr c 4); hex_upper (Z.land c 15)].
Definition QueryEscape_bytes (p : bytes) : bytes := flat_map escape_byte p.
Definition QueryEscape (s : string) : bytes := QueryEscape_bytes (bytes_of_string s).
(** [Values.Encode]: by key. *)
Definition encode_pair (kv : string * string) : bytes := QueryEscape kv.1 ++ 61 :: QueryEscape kv.2.
Fixpoint join_pairs (kvs : list (string * string)) : bytes :=
  match kvs with [] => [] | [kv] => encode_pair kv | kv :: kvs => encode_pair kv ++ 38 :: join_pairs kvs end.
Definition sorted_pairs (v : Values) : list (string * string) :=
  flat_map (fun k => (fun x => (k, x)) <$> Header_values v k) (sort_strings (map_to_list v).*1).
Definition Values_Encode (v : Values) : bytes := join_pairs (sorted_pairs v).
Definition Values_Add (v : Values) (k x : string) : Values := <[k := Header_values v k ++ [x]]> v.

(** ** The client's settings *)
Record clientConfig := mkClientConfig {
  cc_Headers : option Header; cc_Cookies : list string; cc_FormData : Values; cc_QueryParams : Values; cc_AllowGetMethodPayload : bool }.
Definition isPayloadForbid (c : clientConfig) (m : string) : bool :=
  String.eqb m "GET" && negb (cc_AllowGetMethodPayload c) || String.eqb m "HEAD" || String.eqb m "OPTIONS".

Definition parseRequestHeader (c : clientConfig) (r : Request) : Request :=
  match cc_Headers c with
  | None => r
  | Some hs =>
      let own := default ∅ (q_Headers r) in
      (* a key of the client is taken when the request has no value for it *)
      set_Headers r (Some (map_fold (fun k vs h => match Header_values own k with [] => <[k := vs]> h | _ => h end) own hs))
  end.
Definition set_Cookies (r : Request) (cs : list string) : Request :=
  mkRequest (q_Method r) (q_Headers r) cs (q_FormData r) (q_OrderedFormData r) (q_Body r) (q_GetBody r) (q_marshalBody r) (q_error r) (q_unReplayable r) (q_RetryAttempt r).
Definition parseRequestCookie (c : clientConfig) (r : Request) : Request :=
  if (0 <? len (cc_Cookies c)) || (q_RetryAttempt r <=? 0) then set_Cookies r (q_Cookies r ++ cc_Cookies c) else r.

(** Client and request parameters; a key of the request replaces the client's. *)
Definition encodeQueryParams (clientParams requestParams : Values) : bytes :=
  if bool_decide (clientParams = ∅) then Values_Encode requestParams
  else if bool_decide (requestParams = ∅) then Values_Encode clientParams
  else Values_Encode (map_fold (fun k vs q => <[k := vs]> q) clientParams requestParams).

(** ** The body *)
Definition SetContentType (r : Request) (ct : string) : Request :=
  set_Headers r (Some (<["Content-Type"%string := [ct]]> (default ∅ (q_Headers r)))).
Definition set_form (r : Request) (f : Values) : Request :=
  mkRequest (q_Method r) (q_Headers r) (q_Cookies r) f (q_OrderedFormData r) (q_Body r) (q_GetBody r) (q_marshalBody r) (q_error r) (q_unReplayable r) (q_RetryAttempt r).
Definition SetBodyBytes (r : Request) (b : bytes) : Request :=
  mkRequest (q_Method r) (q_Headers r) (q_Cookies r) (q_FormData r) (q_OrderedFormData r) (Some b) (Some (Some b)) (q_marshalBody r) (q_error r) (q_unReplayable r) (q_RetryAttempt r).
Definition clear_body (r : Request) : Request :=
  mkRequest (q_Method r) (q_Headers r) (q_Cookies r) (q_FormData r) (q_OrderedFormData r) None None None (q_error r) (q_unReplayable r) (q_RetryAttempt r).
Definition set_error (r : Request) (e : error) : Request :=
  mkRequest (q_Method r) (q_Headers r) (q_Cookies r) (q_FormData r) (q_OrderedFormData r) (q_Body r) (q_GetBody r) (q_marshalBody r) (Some e) (q_unReplayable r) (q_RetryAttempt r).
Definition FormContentType : string := "application/x-www-form-urlencoded".
Definition JsonContentType : string := "application/json; charset=utf-8".

Definition SetFormDataFromValues (r : Request) (data : Values) : Request :=
  set_form r (map_fold (fun k vs f => fold_left (fun f v => Values_Add f k v) vs f) (q_FormData r) data).
Definition handleFormData (r : Request) : Request := SetBodyBytes (SetContentType r FormContentType) (Values_Encode (q_FormData r)).
Definition handleOrderedFormData (r : Request) : Request :=
  let r := SetContentType r FormContentType in
  if Nat.odd (length (q_OrderedFormData r)) then set_error r errBadOrderedFormData
  else SetBodyBytes r (join_pairs (pairs_of (q_OrderedFormData r))).

Definition contains (sub s : string) : bool :=
  let fix go (p : bytes) := bool_decide (bytes_of_string sub = slice_to p (len (bytes_of_string sub))) || match p with [] => false | _ :: p => go p end in
  go (bytes_of_string s).
Section Body.
(** The client's marshallers and [http.DetectContentType]; [multi] is
    [r.isMultiPart], with what [handleMultiPart] does. *)
Context (jsonMarshal xmlMarshal : string -> result error bytes) (DetectContentType : bytes -> string).

Definition header_get (h : option Header) (k : string) : string := match h with Some h => Header_Get h k | None => "" end.
Definition handleMarshalBody (c : clientConfig) (r : Request) (v : string) : Request * option error :=
  let ct := header_get (q_Headers r) "Content-Type" in
  let ct := if String.eqb ct "" then header_get (cc_Headers c) "Content-Type" else ct in
  if negb (String.eqb ct "") then
    match (if contains "xml" ct then xmlMarshal v else jsonMarshal v) with
    | Err e => (r, Some e)
    | Ok body => (SetBodyBytes r body, None)
    end
  else
    match jsonMarshal v with
    | Err e => (r, Some e)
    | Ok body => (SetBodyBytes (SetContentType r JsonContentType) body, None)
    end.

Definition parseRequestBody (c : clientConfig) (multi : option (Request -> Request * option error)) (r : Request) : Request * option error :=
  if isPayloadForbid c (q_Method r) then (clear_body r, None) else
  match multi with
  | Some handleMultiPart => handleMultiPart r
  | None =>
      let r := if bool_decide (cc_FormData c = ∅) then r else SetFormDataFromValues r (cc_FormData c) in
      if negb (bool_decide (q_FormData r = ∅)) then (handleFormData r, None)
      else if negb (bool_decide (q_OrderedFormData r = [])) then (handleOrderedFormData r, None)
      else
        let marshalled := match q_marshalBody r with Some v => handleMarshalBody c r v | None => (r, None) end in
        match marshalled with
        | (r, Some e) => (r, Some e)
        | (r, None) =>
            match q_Body r with
            | None => (r, None)
            | Some body =>
                if negb (String.eqb (header_get (cc_Headers c) "Content-Type") "") then (r, None)
                else if negb (String.eqb (header_get (q_Headers r) "Content-Type") "") then (r, None)
                else (SetContentType r (DetectContentType body), None)
            end
        end
  end.
(** The client's own middlewares before a request, [parseRequestURL] apart. *)
Definition prepare (c : clientConfig) (r : Request) : Request * option error :=
  parseRequestBody c None (parseRequestCookie c (parseRequestHeader c r)).
End Body.

(** ** Decoding ([url.ParseQuery]) *)
Definition unhex (c : byte) : option Z :=
  if is_digit c then Some (c - 48) else if (97 <=? c) && (c <=? 102) then Some (c - 87) else if (65 <=? c) && (c <=? 70) then Some (c - 55) else None.
Fixpoint unescape (p : bytes) : option bytes :=
  match p with
  | [] => Some []
  | c :: q =>
      if c =? 37 then
        match q with
        | a :: b :: q => match unhex a, unhex b, unescape q with Some x, Some y, Some r => Some (16 * x + y :: r) | _, _, _ => None end
        | _ => None
        end
      else match unescape q with Some r => Some ((if c =? 43 then 32 else c) :: r) | None => None end
  end.
Definition parse_pair (p : bytes) : option (string * string) :=
  if existsb (Z.eqb 59) p then None else
  let '(k, v) := default (p, []) (cut 61 p) in
  match unescape k, unescape v with Some k, Some v => Some (string_of_bytes k, string_of_bytes v) | _, _ => None end.
(** The pairs in order; [None] when one is malformed. *)
Definition parse_query (p : bytes) : option (list (string * string)) :=
  mapM parse_pair (filter (fun s => s <> []) (split_bytes 38 p [])).

Lemma escape_byte_spec c p : 0 <= c < 256 -> unescape (escape_byte c ++ p) = (cons c) <$> unescape p.
Proof.
  intros Hc. unfold escape_byte. destruct (unreserved c) eqn:E.
  - cbn [app unescape]. destruct (Z.eqb_spec c 37) as [->|_]; [done|]. destruct (Z.eqb_spec c 43) as [->|_]; [done|]. by destruct (unescape p).
  - destruct (Z.eqb_spec c 32) as [->|_]; [cbn; by destruct (unescape p)|]. cbn [app unescape]. change (37 =? 37) with true. cbn iota.
    assert (forallb (fun c => bool_decide (unhex (hex_upper (Z.shiftr c 4)) = Some (Z.shiftr c 4)) && bool_decide (unhex (hex_upper (Z.land c 15)) = Some (Z.land c 15))
      && (16 * Z.shiftr c 4 + Z.land c 15 =? c)) (seqZ 0 256) = true) as H by (vm_compute; reflexivity).
    rewrite forallb_forall in H. specialize (H c). rewrite <- list_elem_of_In, elem_of_seqZ in H. specialize (H ltac:(lia)).
    apply andb_prop in H as [[->%bool_decide_eq_true ->%bool_decide_eq_true]%andb_prop ->%Z.eqb_eq]. by destruct (unescape p).
Qed.
Lemma unescape_escape p : Forall (fun b => 0 <= b < 256) p -> unescape (QueryEscape_bytes p) = Some p.
Proof. induction 1 as [|c p Hc _ IH]; [done|]. cbn [QueryEscape_bytes flat_map]. rewrite escape_byte_spec by done. fold (QueryEscape_bytes p). by rewrite IH. Qed.
Lemma escape_safe p : Forall (fun b => 0 <= b < 256) p -> Forall (fun b => b <> 38 /\ b <> 59 /\ b <> 61) (QueryEscape_bytes p).
Proof.
  induction 1 as [|c p Hc _ IH]; [constructor|]. cbn [QueryEscape_bytes flat_map]. apply Forall_app. split; [|exact IH].
  assert (forallb (fun c => forallb (fun b => negb (b =? 38) && negb (b =? 59) && negb (b =? 61)) (escape_byte c)) (seqZ 0 256) = true) as H by (vm_compute; reflexivity).
  rewrite forallb_forall in H. specialize (H c). rewrite <- list_elem_of_In, elem_of_seqZ in H. specialize (H ltac:(lia)). apply forallb_Forall in H.
  eapply Forall_impl; [exact H|]. intros b Hb. cbn beta in Hb. rewrite !andb_true_iff, !negb_true_iff, !Z.eqb_neq in Hb. tauto.
Qed.
Lemma parse_encode_pair kv : parse_pair (encode_pair kv) = Some kv /\ Forall (fun b => b <> 38) (encode_pair kv) /\ encode_pair kv <> [].
Proof.
  destruct kv as [k v]. unfold encode_pair, QueryEscape. cbn [fst snd]. pose proof (bytes_of_string_ok k) as Hk. pose proof (bytes_of_string_ok v) as Hv.
  pose proof (escape_safe _ Hk) as Ek. pose proof (escape_safe _ Hv) as Ev. splits.
  - unfold parse_pair. assert (existsb (Z.eqb 59) (QueryEscape_bytes (bytes_of_string k) ++ 61 :: QueryEscape_bytes (bytes_of_string v)) = false) as ->.
    { apply not_true_iff_false. intros (b & Hin & Heq)%existsb_exists. apply Z.eqb_eq in Heq as <-. apply list_elem_of_In in Hin. rewrite Forall_forall in Ek, Ev.
      apply elem_of_app in Hin as [Hin|[?|Hin]%elem_of_cons]; [by destruct (Ek _ Hin) as (_ & ? & _)|done|by destruct (Ev _ Hin) as (_ & ? & _)]. }
    rewrite cut_first; [|eapply Forall_impl; [exact Ek|]; by intros b (_ & _ & ?)]. cbn [default from_option id]. rewrite !unescape_escape by done. by rewrite !string_of_bytes_of_string.
  - apply Forall_app. split; [eapply Forall_impl; [exact Ek|]; by intros b (? & _)|]. constructor; [done|]. eapply Forall_impl; [exact Ev|]; by intros b (? & _).
  - by destruct (QueryEscape_bytes (bytes_of_string k)).
Qed.
Lemma split_bytes_none c p cur : Forall (fun b => b <> c) p -> split_bytes c p cur = [cur ++ p].
Proof. intros H. revert cur. induction H as [|b p Hb _ IH]; intros cur; cbn; [by rewrite app_nil_r|]. rewrite (proj2 (Z.eqb_neq b c) Hb), IH. by rewrite <- app_assoc. Qed.
Lemma split_bytes_cons c p q cur : Forall (fun b => b <> c) p -> split_bytes c (p ++ c :: q) cur = (cur ++ p) :: split_bytes c q [].
Proof.
  intros H. revert cur. induction H as [|b p Hb _ IH]; intros cur; cbn; [by rewrite Z.eqb_refl, app_nil_r|]. rewrite (proj2 (Z.eqb_neq b c) Hb), IH. by rewrite <- app_assoc.
Qed.
Lemma parse_join kvs : parse_query (join_pairs kvs) = Some kvs.
Proof.
  unfold parse_query. destruct kvs as [|kv kvs]; [done|]. assert (split_bytes 38 (join_pairs (kv :: kvs)) [] = encode_pair <$> kv :: kvs) as ->.
  { revert kv. induction kvs as [|kv2 kvs IH]; intros kv; destruct (parse_encode_pair kv) as (_ & Hs & _).
    - cbn [join_pairs fmap list_fmap]. by rewrite split_bytes_none.
    - change (join_pairs (kv :: kv2 :: kvs)) with (encode_pair kv ++ 38 :: join_pairs (kv2 :: kvs)). rewrite split_bytes_cons by done. by rewrite IH. }
  generalize (kv :: kvs). clear. intros kvs. induction kvs as [|kv kvs IH]; [done|]. destruct (parse_encode_pair kv) as (Hp & _ & Hne).
  cbn [fmap list_fmap]. rewrite filter_cons_True by done. cbn [mapM]. rewrite Hp. cbn. rewrite IH. done.
Qed.

(** ** Queries *)
Definition pairs_values (k : string) (kvs : list (string * string)) : list string := (filter (fun kv => kv.1 = k) kvs).*2.
Lemma pairs_values_keys (f : string -> list string) k ks : NoDup ks ->
  pairs_values k (flat_map (fun k => (fun x => (k, x)) <$> f k) ks) = if decide (k ∈ ks) then f k else [].
Proof.
  unfold pairs_values. induction 1 as [|k' ks Hk' Hnd IH]; [done|]. cbn [flat_map]. rewrite filter_app, fmap_app, IH.
  assert ((filter (fun kv : string * string => kv.1 = k) ((fun x => (k', x)) <$> f k')).*2 = if decide (k' = k) then f k' else []) as ->.
  { induction (f k') as [|x xs IHx]; [by destruct (decide (k' = k))|]. cbn [fmap list_fmap]. destruct (decide (k' = k)) as [->|Hne].
    - rewrite filter_cons_True by done. cbn. by f_equal.
    - rewrite filter_cons_False by done. exact IHx. }
  destruct (decide (k' = k)) as [->|Hne].
  - rewrite (decide_False (P := k ∈ ks)) by done. rewrite (decide_True (P := k ∈ k :: ks)) by (by left). apply app_nil_r.
  - cbn [app]. destruct (decide (k ∈ ks)) as [Hin|Hin]; [by rewrite decide_True by (by right)|]. rewrite decide_False; [done|]. intros [?|?]%elem_of_cons; congruence.
Qed.
Lemma sorted_pairs_values k v : pairs_values k (sorted_pairs v) = Header_values v k.
Proof.
  unfold sorted_pairs. assert (NoDup (sort_strings (map_to_list v).*1)) as Hnd by (rewrite sort_strings_perm; apply NoDup_fst_map_to_list).
  rewrite (pairs_values_keys (Header_values v)) by done. destruct (decide _) as [|Hn]; [done|]. unfold Header_values. destruct (v !! k) as [vs|] eqn:E; [|done].
  exfalso. apply Hn. rewrite sort_strings_perm. apply list_elem_of_fmap. exists (k, vs). split; [done|]. by apply elem_of_map_to_list.
Qed.
Lemma merge_union (client request : Values) : map_fold (fun k vs q => <[k := vs]> q) client request = request ∪ client.
Proof.
  apply (map_fold_weak_ind (fun (r m : Values) => r = m ∪ client)); [by rewrite (left_id_L ∅ (∪))|].
  intros k vs m q _ ->. by rewrite insert_union_l.
Qed.

(** The query sent carries the client's parameters and the request's, decoded as
    they were given; the values of a key set on the request replace the client's. *)
Theorem query_params_merge client request : exists kvs, parse_query (encodeQueryParams client request) = Some kvs
  /\ forall k, pairs_values k kvs = match request !! k with Some vs => vs | None => Header_values client k end.
Proof.
  assert (exists m : Values, encodeQueryParams client request = Values_Encode m /\ forall k, Header_values m k = match request !! k with Some vs => vs | None => Header_values client k end) as (m & -> & Hm).
  { unfold encodeQueryParams. repeat case_bool_decide; subst.
    - exists request. split; [done|]. intros k. unfold Header_values. rewrite lookup_empty. by destruct (request !! k).
    - exists client. split; [done|]. intros k. by rewrite lookup_empty.
    - eexists. split; [reflexivity|]. intros k. rewrite merge_union. unfold Header_values. rewrite lookup_union. destruct (request !! k), (client !! k); done. }
  exists (sorted_pairs m). split; [apply parse_join|]. intros k. by rewrite sorted_pairs_values.
Qed.

(** ** Bodies *)
Section Bodies.
Context (jsonMarshal xmlMarshal : string -> result error bytes) (DetectContentType : bytes -> string).
Abbreviation parse_body := (parseRequestBody jsonMarshal xmlMarshal DetectContentType).

(** An ordered form of pairs is sent as a replayable body that decodes to these
    pairs, in their order. *)
Theorem ordered_form_roundtrip c r kvs : isPayloadForbid c (q_Method r) = false -> cc_FormData c = ∅ -> q_FormData r = ∅ ->
  q_OrderedFormData r = flat_map (fun kv => [kv.1; kv.2]) kvs -> kvs <> [] ->
  exists r' b, parse_body c None r = (r', None) /\ q_Body r' = Some b /\ q_GetBody r' = Some (Some b) /\ parse_query b = Some kvs
    /\ header_get (q_Headers r') "Content-Type" = FormContentType.
Proof.
  intros Hp Hc Hf Ho Hne. unfold parseRequestBody. rewrite Hp, (bool_decide_true (cc_FormData c = ∅)), (bool_decide_true (q_FormData r = ∅)) by done. cbn [negb].
  rewrite bool_decide_false by (rewrite Ho; by destruct kvs). cbn [negb]. unfold handleOrderedFormData.
  assert (Nat.odd (length (flat_map (fun kv : string * string => [kv.1; kv.2]) kvs)) = false /\ pairs_of (flat_map (fun kv : string * string => [kv.1; kv.2]) kvs) = kvs) as [Hodd Hpairs].
  { clear. induction kvs as [|[k v] kvs [IH1 IH2]]; [done|]. cbn [flat_map app length pairs_of fst snd]. split; [exact IH1|by rewrite IH2]. }
  cbn [SetContentType set_Headers q_OrderedFormData]. rewrite Ho, Hodd, Hpairs. do 2 eexists. split; [reflexivity|]. split; [reflexivity|]. split; [reflexivity|]. split; [apply parse_join|].
  cbn. unfold Header_Get, Header_values. change (CanonicalHeaderKey "Content-Type") with "Content-Type"%string. by rewrite lookup_insert_eq.
Qed.

(** An ordered form with a key that has no value is sent all the same, without
    the form: its error is recorded on the request, where only the next [Do] looks. *)
Theorem odd_form_sent_without_error c r : isPayloadForbid c (q_Method r) = false -> cc_FormData c = ∅ -> q_FormData r = ∅ ->
  Nat.odd (length (q_OrderedFormData r)) = true ->
  exists r', parse_body c None r = (r', None) /\ q_Body r' = q_Body r /\ q_error r' = Some errBadOrderedFormData.
Proof.
  intros Hp Hc Hf Ho. unfold parseRequestBody. rewrite Hp, (bool_decide_true (cc_FormData c = ∅)), (bool_decide_true (q_FormData r = ∅)) by done. cbn [negb].
  rewrite bool_decide_false by (intros E; rewrite E in Ho; discriminate Ho). cbn [negb]. unfold handleOrderedFormData. cbn [SetContentType set_Headers q_OrderedFormData].
  rewrite Ho. by eexists.
Qed.
End Bodies.

(** ** Preparing again *)
(** A fold over a map whose step at [k] changes only the entry [k]. *)
Lemma map_fold_lookup {A B} (f : string -> A -> gmap string B -> gmap string B) (g : A -> option B -> option B) :
  (forall k a h k', f k a h !! k' = if decide (k = k') then g a (h !! k) else h !! k') ->
  forall (m : gmap string A) h k, map_fold f h m !! k = match m !! k with Some a => g a (h !! k) | None => h !! k end.
Proof.
  intros Hf m h. apply (map_fold_weak_ind (fun r m => forall k, r !! k = match m !! k with Some a => g a (h !! k) | None => h !! k end)).
  - intros k. by rewrite lookup_empty.
  - intros i a m' r Hi IH k. rewrite Hf. destruct (decide (i = k)) as [->|Hne].
    + rewrite lookup_insert_eq, IH, Hi. done.
    + rewrite lookup_insert_ne by done. apply IH.
Qed.
Lemma Values_Add_all k vs : forall f k', fold_left (fun f v => Values_Add f k v) vs f !! k' =
  if decide (k = k') then match vs with [] => f !! k | _ => Some (Header_values f k ++ vs) end else f !! k'.
Proof.
  induction vs as [|v vs IH]; intros f k'; cbn [fold_left]; [by destruct (decide (k = k')) as [->|]|]. rewrite IH. unfold Values_Add. destruct (decide (k = k')) as [<-|Hne].
  - unfold Header_values. rewrite lookup_insert_eq. cbn. destruct vs; [done|]. by rewrite <- app_assoc.
  - by rewrite lookup_insert_ne.
Qed.
Lemma SetFormData_values r data k : Header_values (q_FormData (SetFormDataFromValues r data)) k = Header_values (q_FormData r) k ++ Header_values data k.
Proof.
  unfold SetFormDataFromValues. cbn [set_form q_FormData]. unfold Header_values at 1.
  rewrite (map_fold_lookup (fun k vs f => fold_left (fun f v => Values_Add f k v) vs f) (fun vs o => match vs with [] => o | _ => Some (default [] o ++ vs) end)).
  - unfold Header_values. destruct (data !! k) as [[|v vs]|]; cbn; by rewrite ?app_nil_r.
  - intros k' vs h k2. rewrite Values_Add_all. done.
Qed.

(** The client's headers are inherited: a header the request sets keeps its
    values, any other has the client's; doing it again for a retry changes nothing. *)
Theorem common_headers_inherited c r hs : cc_Headers c = Some hs ->
  exists h, q_Headers (parseRequestHeader c r) = Some h
    /\ (forall k, Header_values h k = match Header_values (default ∅ (q_Headers r)) k with [] => Header_values hs k | vs => vs end)
    /\ parseRequestHeader c (parseRequestHeader c r) = parseRequestHeader c r.
Proof.
  intros Hc. unfold parseRequestHeader. rewrite Hc. cbn [set_Headers q_Headers default from_option id]. set (own := default ∅ (q_Headers r)).
  assert (forall own (m h : Header) k, map_fold (fun k vs h => match Header_values own k with [] => <[k := vs]> h | _ => h end) h m !! k
    = match m !! k with Some vs => match Header_values own k with [] => Some vs | _ => h !! k end | None => h !! k end) as Hl.
  { clear. intros own m h. apply (map_fold_weak_ind (fun r (m : Header) => forall k, r !! k = match m !! k with Some vs => match Header_values own k with [] => Some vs | _ => h !! k end | None => h !! k end)).
    - intros k. by rewrite lookup_empty.
    - intros i vs m' r Hi IH k. destruct (decide (i = k)) as [->|Hne].
      + rewrite lookup_insert_eq. destruct (Header_values own k); [by rewrite lookup_insert_eq|]. by rewrite IH, Hi.
      + rewrite lookup_insert_ne by done. destruct (Header_values own i); [rewrite lookup_insert_ne by done|]; apply IH. }
  eexists. split; [reflexivity|]. split.
  - intros k. lazymatch goal with |- Header_values ?h k = _ => change (Header_values h k) with (default [] (h !! k)) end.
    rewrite Hl. unfold Header_values. destruct (hs !! k) as [vs|], (own !! k) as [[|v l]|]; done.
  - unfold set_Headers. cbn [q_Method q_Headers q_Cookies q_FormData q_OrderedFormData q_Body q_GetBody q_marshalBody q_error q_unReplayable q_RetryAttempt default from_option id]. do 2 f_equal. apply map_eq. intros k. rewrite !Hl. destruct (hs !! k) as [vs|] eqn:Eh; [|done].
    lazymatch goal with |- match Header_values ?h k with _ => _ end = _ => change (Header_values h k) with (default [] (h !! k)) end.
    rewrite Hl, Eh. destruct (Header_values own k) eqn:E; [by destruct vs|]. unfold Header_values in E. destruct (own !! k) as [x|]; [|done]. cbn in *. by rewrite E.
Qed.

Section Again.
Context (jsonMarshal xmlMarshal : string -> result error bytes) (DetectContentType : bytes -> string) (c : clientConfig).
Abbreviation prep := (prepare jsonMarshal xmlMarshal DetectContentType c).
(** The request before its [n]-th retry, when every attempt fails after it was prepared. *)
Fixpoint before_retry (r : Request) (n : nat) : Request :=
  match n with
  | O => r
  | S n => let r := (prep (before_retry r n)).1 in set_RetryAttempt r (q_RetryAttempt r + 1)
  end.

Lemma prepare_keeps r : isPayloadForbid c (q_Method r) = false -> cc_Cookies c <> [] ->
  let r' := (prep r).1 in q_Method r' = q_Method r /\ q_Cookies r' = q_Cookies r ++ cc_Cookies c
  /\ forall k, Header_values (q_FormData r') k = Header_values (q_FormData r) k ++ Header_values (cc_FormData c) k.
Proof.
  intros Hp Hck. unfold prepare. set (r1 := parseRequestCookie c (parseRequestHeader c r)).
  assert (q_Method r1 = q_Method r /\ q_Cookies r1 = q_Cookies r ++ cc_Cookies c /\ q_FormData r1 = q_FormData r) as (Hm & Hc1 & Hf1).
  { unfold r1, parseRequestCookie. assert (0 <? len (cc_Cookies c) = true) as ->.
    { apply Z.ltb_lt. destruct (cc_Cookies c); [done|]. rewrite len_cons. pose proof (len_nonneg l). lia. }
    cbn. unfold parseRequestHeader. by destruct (cc_Headers c). }
  clearbody r1. unfold parseRequestBody. rewrite Hm, Hp. set (r2 := if bool_decide (cc_FormData c = ∅) then r1 else SetFormDataFromValues r1 (cc_FormData c)).
  assert (q_Method r2 = q_Method r1 /\ q_Cookies r2 = q_Cookies r1 /\ forall k, Header_values (q_FormData r2) k = Header_values (q_FormData r1) k ++ Header_values (cc_FormData c) k) as (Hm2 & Hc2 & Hf2).
  { unfold r2. case_bool_decide as E; [|splits; [done|done|apply SetFormData_values]]. splits; [done|done|]. intros k. rewrite E. unfold Header_values at 3. rewrite lookup_empty. by rewrite app_nil_r. }
  clearbody r2.
  assert (forall r', q_Method r' = q_Method r2 -> q_Cookies r' = q_Cookies r2 -> q_FormData r' = q_FormData r2 -> q_Method r' = q_Method r /\ q_Cookies r' = q_Cookies r ++ cc_Cookies c
    /\ forall k, Header_values (q_FormData r') k = Header_values (q_FormData r) k ++ Header_values (cc_FormData c) k) as Hdone.
  { intros r' E1 E2 E3. splits; [congruence|congruence|]. intros k. by rewrite E3, Hf2, Hf1. }
  destruct (negb (bool_decide (q_FormData r2 = ∅))); [by apply Hdone|]. destruct (negb (bool_decide (q_OrderedFormData r2 = []))).
  { apply Hdone; unfold handleOrderedFormData; by destruct (Nat.odd _). }
  unfold handleMarshalBody. destruct (q_marshalBody r2) as [v|]; cbn zeta; repeat case_match; simplify_eq; by apply Hdone.
Qed.

(** The client's cookies and form values are added once more for every retry:
    the [n]-th retry of a request carries [n + 1] copies of each of them. *)
Theorem retry_repeats_client_values r n : isPayloadForbid c (q_Method r) = false -> cc_Cookies c <> [] ->
  let r' := (prep (before_retry r n)).1 in q_Cookies r' = q_Cookies r ++ concat (replicate (S n) (cc_Cookies c))
  /\ forall k, Header_values (q_FormData r') k = Header_values (q_FormData r) k ++ concat (replicate (S n) (Header_values (cc_FormData c) k)).
Proof.
  intros Hp Hck. cbn zeta. enough (q_Method (before_retry r n) = q_Method r /\ q_Cookies (before_retry r n) = q_Cookies r ++ concat (replicate n (cc_Cookies c))
    /\ forall k, Header_values (q_FormData (before_retry r n)) k = Header_values (q_FormData r) k ++ concat (replicate n (Header_values (cc_FormData c) k))) as (Hm & Hc & Hf).
  { destruct (prepare_keeps (before_retry r n)) as (_ & -> & Hf'); [by rewrite Hm|done|]. rewrite Hc, replicate_S_end, concat_app, <- app_assoc. cbn [concat]. rewrite app_nil_r.
    split; [done|]. intros k. rewrite Hf', Hf, replicate_S_end, concat_app, <- app_assoc. cbn [concat]. by rewrite app_nil_r. }
  induction n as [|n (Hm & Hc & Hf)]; cbn [before_retry]; [cbn; splits; [done|by rewrite app_nil_r|intros k; by rewrite app_nil_r]|].
  cbn [set_RetryAttempt q_Method q_Cookies q_FormData]. destruct (prepare_keeps (before_retry r n)) as (-> & -> & Hf'); [by rewrite Hm|done|]. splits; [done| |].
  - rewrite Hc, replicate_S_end, concat_app, <- app_assoc. cbn [concat]. by rewrite app_nil_r.
  - intros k. rewrite Hf', Hf, replicate_S_end, concat_app, <- app_assoc. cbn [concat]. by rewrite app_nil_r.
Qed.
End Again.

(** ** A client with common values *)
Definition common : clientConfig :=
  mkClientConfig (Some {["X-A"%string := ["1"]%string; "X-B"%string := ["2"]%string]}) ["sid=1"]%string {["tok"%string := ["t"]%string]} ∅ true.
Definition plain : clientConfig := mkClientConfig None [] ∅ ∅ true.
Definition form_post (kvs : list string) : Request := mkRequest "POST" (Some {["X-A"%string := ["own"]%string]}) [] ∅ kvs None None None None false 0.
Definition no_json (v : string) : result error bytes := Err (errors_New "json: unsupported type").
Lemma ordered_form_roundtrip_witness :
  exists r' b, parseRequestBody no_json no_json (fun _ => "text/plain"%string) plain None (form_post ["a b"; "1&2"; "k"; ""]%string) = (r', None)
    /\ q_Body r' = Some b /\ q_GetBody r' = Some (Some b) /\ parse_query b = Some [("a b", "1&2"); ("k", "")]%string /\ header_get (q_Headers r') "Content-Type" = FormContentType.
Proof. apply (ordered_form_roundtrip no_json no_json (fun _ => "text/plain"%string) plain (form_post ["a b"; "1&2"; "k"; ""]%string)); try reflexivity. discriminate. Defined.
Lemma odd_form_sent_without_error_witness :
  exists r', parseRequestBody no_json no_json (fun _ => "text/plain"%string) plain None (form_post ["a"; "1"; "k"]%string) = (r', None)
    /\ q_Body r' = None /\ q_error r' = Some errBadOrderedFormData.
Proof. apply (odd_form_sent_without_error no_json no_json (fun _ => "text/plain"%string) plain (form_post ["a"; "1"; "k"]%string)); reflexivity. Defined.
Lemma common_headers_inherited_witness : exists h, q_Headers (parseRequestHeader common (form_post [])) = Some h
  /\ (forall k, Header_values h k = match Header_values {["X-A"%string := ["own"]%string]} k with [] => Header_values {["X-A"%string := ["1"]%string; "X-B"%string := ["2"]%string]} k | vs => vs end)
  /\ parseRequestHeader common (parseRequestHeader common (form_post [])) = parseRequestHeader common (form_post []).
Proof. apply (common_headers_inherited common (form_post [])). reflexivity. Defined.
Lemma retry_repeats_client_values_witness :
  let r' := (prepare no_json no_json (fun _ => "text/plain"%string) common (before_retry no_json no_json (fun _ => "text/plain"%string) common (form_post []) 2)).1 in
  q_Cookies r' = ["sid=1"; "sid=1"; "sid=1"]%string /\ forall k, Header_values (q_FormData r') k = Header_values ∅ k ++ concat (replicate 3 (Header_values {["tok"%string := ["t"]%string]} k)).
Proof. apply (retry_repeats_client_values no_json no_json (fun _ => "text/plain"%string) common (form_post []) 2); [reflexivity|discriminate]. Defined.
