(* ===== verification/ReqResponse.v ===== *)
(** * The size limit of a response ([src/response.go], [src/client.go])

    [maxResponseBodyReader] stops a body that is longer than the limit;
    [applyMaxResponseSize] puts it in front of a response's body, or refuses the
    response on its [Content-Length]. *)

From S2P Require Import Prelude.
From S2P Require Import H2Errors.
From S2P Require Import NetText.
From S2P Require Import Bufio.
From S2P Require Import TransferWrite.

(** [*ResponseBodyTooLargeError] *)
Definition ResponseBodyTooLargeError (Limit ContentLength : Z) : error :=
  fmt_Errorf "req: response body too large" [format_dec Limit; format_dec ContentLength].
Record maxResponseBodyReader := mkMaxReader { ml_r : ioReader; ml_n : Z; ml_limit : Z; ml_err : option error }.

(** [Read(p)] for [len(p) = k]: at most one byte more than what remains is read. *)
Definition ml_Read (l : maxResponseBodyReader) (k : Z) : bytes * option error * maxResponseBodyReader :=
  match ml_err l with
  | Some e => ([], Some e, l)
  | None =>
      if k =? 0 then ([], None, l) else
      let '((d, err), r) := io_Read (ml_r l) (if ml_n l <? k - 1 then ml_n l + 1 else k) in
      if len d <=? ml_n l then (d, err, mkMaxReader r (ml_n l - len d) (ml_limit l) err)
      else
        let e := ResponseBodyTooLargeError (ml_limit l) (-1) in
        (slice_to d (ml_n l), Some e, mkMaxReader r 0 (ml_limit l) (Some e))
  end.

(** What becomes of a response's body: refused, as it is, or limited. *)
Inductive limited := Refused (e : error) | Unlimited | Limited (l : maxResponseBodyReader).
Definition getMaxResponseSize (request : option Z) (client : Z) : Z := match request with Some n => n | None => client end.
Definition SetMaxResponseSize (max : Z) : option Z := Some (if max <? 0 then 0 else max).
(** [body] is the body of the response, nil is [None]. *)
Definition applyMaxResponseSize (max : Z) (method : string) (ContentLength : Z) (body : option ioReader) : limited :=
  match body with
  | None => Unlimited
  | Some b =>
      if max <=? 0 then Unlimited
      else if negb (String.eqb method "HEAD") && (max <? ContentLength) then Refused (ResponseBodyTooLargeError max ContentLength)
      else Limited (mkMaxReader b max max None)
  end.

(** The reads of a caller, up to the first error. *)
Fixpoint ml_reads (l : maxResponseBodyReader) (ks : list Z) : bytes * option error * maxResponseBodyReader :=
  match ks with
  | [] => ([], None, l)
  | k :: ks =>
      match ml_Read l k with
      | (d, Some e, l) => (d, Some e, l)
      | (d, None, l) => let '((ds, e), l) := ml_reads l ks in (d ++ ds, e, l)
      end
  end.

Definition outcome (l : maxResponseBodyReader) : bytes * error :=
  if len (content (ml_r l)) <=? ml_n l then (content (ml_r l), rd_end (ml_r l))
  else (slice_to (content (ml_r l)) (ml_n l), ResponseBodyTooLargeError (ml_limit l) (-1)).
Definition ml_ok (l : maxResponseBodyReader) : Prop := reader_ok (ml_r l) /\ 0 <= ml_n l /\ ml_err l = None.

Lemma ml_Read_spec l k : ml_ok l -> 0 < k -> let '((d, e), l') := ml_Read l k in
  match e with
  | Some e => outcome l = (d, e) /\ ml_err l' = Some e
  | None => ml_ok l' /\ d <> [] /\ outcome l = (d ++ (outcome l').1, (outcome l').2) /\ (length (content (ml_r l')) < length (content (ml_r l)))%nat
  end.
Proof.
  intros (Hok & Hn & He) Hk. unfold ml_Read. rewrite He, (proj2 (Z.eqb_neq k 0)) by lia. set (q := if ml_n l <? k - 1 then ml_n l + 1 else k).
  assert (0 < q /\ q <= ml_n l + 1 /\ (ml_n l < q - 1 -> False)) as (Hq & Hq1 & _) by (unfold q; destruct (Z.ltb_spec (ml_n l) (k - 1)); lia).
  pose proof (limited_Read_spec None (ml_r l) q Hok Hq I) as Hr. cbn [limited_Read] in Hr. destruct (io_Read (ml_r l) q) as [[d er] r].
  destruct Hr as (Hok1 & He1 & Hc & Hlen & Her). destruct er as [e|].
  - destruct Her as (-> & -> & [[? _]|(_ & Hnil & ->)]); [done|]. rewrite len_nil, (proj2 (Z.leb_le 0 _)) by lia. unfold outcome. rewrite Hnil, len_nil, (proj2 (Z.leb_le 0 _)) by lia. done.
  - destruct Her as [Hd _]. destruct (Z.leb_spec (len d) (ml_n l)) as [Hle|Hgt].
    + splits; [unfold ml_ok; cbn; splits; [done|lia|done]|done| |].
      * unfold outcome. cbn [ml_r ml_n ml_limit]. rewrite Hc, len_app, He1.
        destruct (Z.leb_spec (len d + len (content r)) (ml_n l)); destruct (Z.leb_spec (len (content r)) (ml_n l - len d)); try lia; [done|].
        cbn [fst snd]. f_equal. unfold slice_to, len in *. rewrite take_app_ge by lia. do 2 f_equal. lia.
      * cbn [ml_r]. rewrite Hc, length_app. destruct d; [done|cbn; lia].
    + assert (len d = ml_n l + 1) as Hd1 by lia. unfold outcome. rewrite Hc, len_app. pose proof (len_nonneg (content r)).
      destruct (Z.leb_spec (len d + len (content r)) (ml_n l)); [lia|]. split; [|done]. f_equal. unfold slice_to, len in *. rewrite take_app_le by lia. done.
Qed.

(** A limited body delivers its bytes up to the limit, whatever buffers it is read
    with. A body within the limit is delivered whole, with its own end; a longer one
    ends after exactly [max] bytes with the error of the limit, and stays there. *)
Theorem limited_body_exact method ContentLength max b l ks : applyMaxResponseSize max method ContentLength (Some b) = Limited l ->
  reader_ok b -> Forall (fun k => 0 < k) ks -> let '((d, e), l') := ml_reads l ks in
  let '(p, e0) := if len (content b) <=? max then (content b, rd_end b) else (slice_to (content b) max, ResponseBodyTooLargeError max (-1)) in
  d `prefix_of` p /\ ((length (content b) < length ks)%nat -> e <> None) /\ (e <> None -> d = p /\ e = Some e0 /\ forall k, (ml_Read l' k).1 = ([], Some e0)).
Proof.
  unfold applyMaxResponseSize. destruct (Z.leb_spec max 0); [done|]. destruct (_ && _); [done|]. intros [= <-] Hok Hks.
  assert (ml_ok (mkMaxReader b max max None)) as Hml by (unfold ml_ok; cbn; splits; [done|lia|done]).
  change (if len (content b) <=? max then (content b, rd_end b) else (slice_to (content b) max, ResponseBodyTooLargeError max (-1))) with (outcome (mkMaxReader b max max None)).
  change (content b) with (content (ml_r (mkMaxReader b max max None))). revert Hml. generalize (mkMaxReader b max max None). clear Hok.
  induction Hks as [|k ks Hk _ IH]; intros l Hl; cbn [ml_reads]; [destruct (outcome l); splits; [apply prefix_nil|cbn; lia|done]|].
  pose proof (ml_Read_spec l k Hl Hk) as Hr. destruct (ml_Read l k) as [[d [e|]] l1].
  - destruct Hr as [-> He]. splits; [done|done|]. intros _. splits; [done|done|]. intros k'. unfold ml_Read. by rewrite He.
  - destruct Hr as (Hl1 & Hd & Ho & Hlt). specialize (IH l1 Hl1). destruct (ml_reads l1 ks) as [[ds e] l2]. rewrite Ho. destruct (outcome l1) as [p e0]. cbn [fst snd].
    destruct IH as (Hp & Hend & Hfin). splits; [by apply prefix_app| |].
    + intros Hlen. apply Hend. cbn in Hlen. lia.
    + intros He. destruct (Hfin He) as (-> & -> & Hst). done.
Qed.
Lemma limited_body_exact_witness :
  let b := mkReader [[1; 2]; [3; 4]; [5]] io_EOF in let '((d, e), l') := ml_reads (mkMaxReader b 3 3 None) [10; 1; 1; 7; 7; 7] in
  d `prefix_of` [1; 2; 3] /\ ((5 < 6)%nat -> e <> None)
  /\ (e <> None -> d = [1; 2; 3] /\ e = Some (ResponseBodyTooLargeError 3 (-1)) /\ forall k, (ml_Read l' k).1 = ([], Some (ResponseBodyTooLargeError 3 (-1)))).
Proof.
  intros b. apply (limited_body_exact "GET" (-1) 3 b (mkMaxReader b 3 3 None) [10; 1; 1; 7; 7; 7]); [reflexivity| |].
  - repeat constructor; discriminate.
  - repeat constructor.
Defined.
