(* ===== verification/ParallelDownload.v ===== *)
(** * Parallel downloads ([src/parallel_download.go])

    [Do] as a system of goroutines: the caller, which hands out the ranges of the
    file, the workers that download them into temporary files, and the one that
    merges these in order. One action is one step of one of them; [exec] gives its
    effect, and [None] when it cannot be taken (a channel operation that blocks). *)

From S2P Require Import Prelude.
From S2P Require Import H2Errors.

(** [downloadTask]; its temporary file is named by its range. *)
Record downloadTask := mkTask { t_index : nat; t_start : Z; t_end : Z }.

(** [ensure] *)
Definition ensure_concurrency (n : Z) : Z := if n <=? 0 then 5 else n.
Definition ensure_segmentSize (n : Z) : Z := if n <=? 0 then 1073741824 else n.
(** *** float64
    [float64(n)] of a positive integer, and [math.Ceil] of a quotient: significands of 53 bits, rounded to the nearest, ties to even. *)
Definition round_half_even (a b : Z) : Z :=
  let q := a / b in let r := a mod b in
  if 2 * r <? b then q else if b <? 2 * r then q + 1 else if Z.even q then q else q + 1.
Definition float64_of (n : Z) : Z :=
  if n <? 2 ^ 53 then n else let e := Z.log2 n - 52 in round_half_even n (2 ^ e) * 2 ^ e.
(** The exponent of [x / y]: [2 ^ (52 + e) <= x / y < 2 ^ (53 + e)]. *)
Definition quotient_exponent (x y : Z) : Z :=
  let l := Z.log2 x - Z.log2 y in
  if y * 2 ^ Z.max 0 l <=? x * 2 ^ Z.max 0 (- l) then l - 52 else l - 53.
Definition float64_ceil_div (x y : Z) : Z :=
  let e := quotient_exponent x y in
  let m := round_half_even (x * 2 ^ Z.max 0 (- e)) (y * 2 ^ Z.max 0 e) in
  if e <? 0 then (m + 2 ^ (- e) - 1) / 2 ^ (- e) else m * 2 ^ e.
(** [int(math.Ceil(float64(contentLength) / float64(segmentSize))) - 1] *)
Definition lastIndex (contentLength segmentSize : Z) : Z := float64_ceil_div (float64_of contentLength) (float64_of segmentSize) - 1.
(** At 2^53 bytes and above it may be too small, and the merging ends before the file. *)
Example lastIndex_rounds : lastIndex (2 ^ 53 + 1) 1 = 2 ^ 53 - 1 /\ lastIndex (2 ^ 53 - 1) 1 = 2 ^ 53 - 2 /\ lastIndex 5 2 = 2 /\ lastIndex 4 2 = 1 /\ lastIndex 1 (2 ^ 62) = 0.
Proof. vm_compute. done. Qed.

Lemma round_half_even_le a b n : 0 < b -> a <= n * b -> round_half_even a b <= n.
Proof. intros Hb Ha. unfold round_half_even. pose proof (Z.div_mod a b ltac:(lia)). pose proof (Z.mod_pos_bound a b Hb). destruct (Z.ltb_spec (2 * (a mod b)) b); [nia|]. assert (a / b + 1 <= n) by nia. repeat case_match; lia. Qed.
Lemma round_half_even_ge a b n : 0 < b -> n * b <= a -> n <= round_half_even a b.
Proof. intros Hb Ha. unfold round_half_even. assert (n <= a / b) by (apply Z.div_le_lower_bound; lia). repeat case_match; lia. Qed.
Lemma round_half_even_gt a b n : 0 < b -> n * b < a -> b < 2 * (a - n * b) -> n < round_half_even a b.
Proof.
  intros Hb Ha H. destruct (Z.le_gt_cases ((n + 1) * b) a) as [?|Hlt]; [pose proof (round_half_even_ge a b (n + 1) Hb); lia|].
  unfold round_half_even. assert (a / b = n) as -> by (symmetry; apply (Z.div_unique a b n (a - n * b)); lia). assert (a mod b = a - n * b) as -> by (symmetry; apply (Z.mod_unique a b n (a - n * b)); lia).
  repeat case_match; lia.
Qed.
Lemma quotient_exponent_spec x y : 0 < x < 2 ^ 53 -> 0 < y -> let k := - quotient_exponent x y in 0 <= k /\ 2 ^ 52 * y <= x * 2 ^ k.
Proof.
  intros Hx Hy. pose proof (Z.log2_spec x ltac:(lia)) as Hlx. pose proof (Z.log2_spec y Hy) as Hly. pose proof (Z.log2_nonneg x). pose proof (Z.log2_nonneg y).
  assert (Z.log2 x < 53) by (apply Z.log2_lt_pow2; lia). unfold quotient_exponent. set (l := Z.log2 x - Z.log2 y).
  destruct (Z.leb_spec (y * 2 ^ Z.max 0 l) (x * 2 ^ Z.max 0 (- l))) as [Hle|Hgt]; cbv zeta.
  - assert (l <= 52) by lia. split; [lia|]. replace (- (l - 52)) with (52 - l) by lia. destruct (Z.le_gt_cases 0 l).
    + rewrite (Z.max_l 0 (- l)), (Z.max_r 0 l), Z.mul_1_r in Hle by lia. replace (2 ^ 52) with (2 ^ (52 - l) * 2 ^ l) by (rewrite <- Z.pow_add_r by lia; f_equal; lia). nia.
    + rewrite (Z.max_r 0 (- l)), (Z.max_l 0 l), Z.mul_1_r in Hle by lia. replace (52 - l) with (52 + - l) by lia. rewrite Z.pow_add_r by lia. nia.
  - assert (l <= 53) by lia. split; [lia|]. replace (- (l - 53)) with (53 - l) by lia.
    assert (y < 2 ^ (1 + Z.log2 y)) by (rewrite Z.add_1_l; lia). assert (2 ^ Z.log2 x <= x) by lia.
    assert (2 ^ 52 * 2 ^ (1 + Z.log2 y) = 2 ^ Z.log2 x * 2 ^ (53 - l)) as E by (rewrite <- !Z.pow_add_r by lia; f_equal; lia). assert (0 < 2 ^ (53 - l)) by lia. nia.
Qed.
Lemma float64_ceil_div_exact x y n : 0 < x < 2 ^ 53 -> 0 < y -> 0 < n -> (n - 1) * y < x <= n * y -> float64_ceil_div x y = n.
Proof.
  intros Hx Hy Hn Hxy. destruct (quotient_exponent_spec x y Hx Hy) as [Hk Hm]. unfold float64_ceil_div. set (e := quotient_exponent x y) in *. set (k := - e) in *.
  rewrite (Z.max_l 0 e), (Z.max_r 0 k), Z.mul_1_r by lia. pose proof (Z.pow_pos_nonneg 2 k ltac:(lia) Hk) as Hp. set (m := round_half_even _ _).
  assert (m <= n * 2 ^ k) by (apply round_half_even_le; [done|nia]).
  assert ((n - 1) * 2 ^ k < m) as Hlow.
  { destruct (Z.eq_dec n 1) as [->|]; [pose proof (round_half_even_ge (x * 2 ^ k) y (2 ^ 52) Hy Hm); lia|]. apply round_half_even_gt; [done|nia|]. assert (y < 2 * 2 ^ k) by nia. nia. }
  destruct (Z.ltb_spec e 0) as [|He]; [|assert (k = 0) as Hk0 by lia; rewrite Hk0 in *; assert (e = 0) as -> by lia; lia].
  symmetry. apply (Z.div_unique _ _ n (m + 2 ^ k - 1 - n * 2 ^ k)); lia.
Qed.
Lemma float64_of_ge n : 2 ^ 53 <= n -> 2 ^ 53 <= float64_of n.
Proof.
  intros H. unfold float64_of. destruct (Z.ltb_spec n (2 ^ 53)); [lia|]. pose proof (Z.log2_spec n ltac:(lia)). assert (53 <= Z.log2 n) by (apply Z.log2_le_pow2; lia). set (e := Z.log2 n - 52).
  assert (2 ^ 52 <= round_half_even n (2 ^ e)). { apply round_half_even_ge; [lia|]. rewrite <- Z.pow_add_r by lia. replace (52 + e) with (Z.log2 n) by lia. lia. }
  assert (2 ^ 1 <= 2 ^ e) by (apply Z.pow_le_mono_r; lia). nia.
Qed.
Lemma lastIndex_exact n size : 0 < n < 2 ^ 53 -> 0 < size -> lastIndex n size = (n + size - 1) / size - 1.
Proof.
  intros Hn Hs. unfold lastIndex. f_equal. unfold float64_of at 1. rewrite (proj2 (Z.ltb_lt _ _)) by lia.
  pose proof (Z.div_mod (n + size - 1) size ltac:(lia)). pose proof (Z.mod_pos_bound (n + size - 1) size Hs). assert (1 <= (n + size - 1) / size) by (apply Z.div_le_lower_bound; lia).
  set (q := (n + size - 1) / size) in *. destruct (Z.lt_ge_cases size (2 ^ 53)).
  - unfold float64_of. rewrite (proj2 (Z.ltb_lt _ _)) by lia. apply float64_ceil_div_exact; try lia; nia.
  - assert (q = 1) as -> by nia. pose proof (float64_of_ge size ltac:(lia)). apply float64_ceil_div_exact; lia.
Qed.

(** What [Do] of a segment's request leaves in its file when it reports no error: the body of some response, of any status. *)
Record segment := mkSegment { sg_status : Z; sg_body : bytes }.

Section Download.
(** The response to the request for a range, when there is one: nothing is known of it; the length announced, the
    size of a segment and the number of workers. *)
Context (fetch : Z -> Z -> segment) (totalBytes segmentSize : Z) (concurrency : nat).

(** [notify] and the map hold tasks with the content of their files. *)
Inductive workerState := WIdle | WGot (t : downloadTask) | WDownloading (t : downloadTask) | WNotifying (i : nat) (d : bytes) | WStopped.
Inductive mergeState := MgStart | MgCheck (i : nat) | MgWait (i : nat) | MgCopy (i : nat) (d : bytes) | MgFinished | MgAborted.
Inductive mainState := MDispatch (i : nat) (start : Z) | MWait | MErr (e : error) | MDone (r : option error).
Record download := mkDownload {
  d_main : mainState; d_workers : list workerState; d_merge : mergeState; d_map : gmap nat bytes; d_notify : list (nat * bytes);
  d_err : option error; d_done : bool; d_wgDone : bool; d_out : bytes }.

(** After a HEAD response with a positive [Content-Length]. *)
Definition init : download := mkDownload (MDispatch 0 0) (replicate concurrency WIdle) MgStart ∅ [] None false false [].

Definition with_worker (s : download) (w : nat) (x : workerState) : download :=
  mkDownload (d_main s) (<[w := x]> (d_workers s)) (d_merge s) (d_map s) (d_notify s) (d_err s) (d_done s) (d_wgDone s) (d_out s).
Definition with_main (s : download) (m : mainState) : download :=
  mkDownload m (d_workers s) (d_merge s) (d_map s) (d_notify s) (d_err s) (d_done s) (d_wgDone s) (d_out s).
Definition with_merge (s : download) (m : mergeState) (mp : gmap nat bytes) (nt : list (nat * bytes)) (out : bytes) : download :=
  mkDownload (d_main s) (d_workers s) m mp nt (d_err s) (d_done s) (d_wgDone s) out.
Definition with_flags (s : download) (err : option error) (done wg : bool) : download :=
  mkDownload (d_main s) (d_workers s) (d_merge s) (d_map s) (d_notify s) err done wg (d_out s).
(** The first error stays in the channel; [stop]. *)
Definition reportError (s : download) (e : error) : download :=
  with_flags s (Some (default e (d_err s))) true (d_wgDone s).

Inductive action :=
| Give (w : nat) | MainStop | MainErr | MainWg
| WStop (w : nat) | WAdd (w : nat) | WOk (w : nat) | WFail (w : nat) (e : error) | WNotify (w : nat) | WNotifyStop (w : nat)
| MgOpen | MgPop | MgRecv | MgStop | MgCopied (cleanup : option error) | MgFail (e : error) (written : nat)
| WgWait.

(** The caller's loop over the ranges. *)
Definition range_end (start : Z) : Z := let e := i64 (start + (segmentSize - 1)) in if totalBytes - 1 <? e then totalBytes - 1 else e.
Definition next_main (i : nat) (start : Z) : mainState :=
  let e := range_end start in if e <? totalBytes - 1 then MDispatch (S i) (e + 1) else MWait.
(** In [handleTask]: counted by the [WaitGroup]. *)
Definition in_handleTask (x : workerState) : bool := match x with WDownloading _ | WNotifying _ _ => true | _ => false end.
Definition merge_ended (m : mergeState) : bool := match m with MgFinished | MgAborted => true | _ => false end.

Definition exec (s : download) (a : action) : option download :=
  match a with
  | Give w =>
      match d_main s, d_workers s !! w with
      | MDispatch i start, Some WIdle => Some (with_main (with_worker s w (WGot (mkTask i start (range_end start)))) (next_main i start))
      | _, _ => None
      end
  | MainStop =>
      match d_main s with
      | MDispatch _ _ => if d_done s then Some (with_flags (with_main s (MDone (Some (default ctx_Canceled (d_err s))))) None true (d_wgDone s)) else None
      | _ => None
      end
  | MainErr =>
      match d_main s, d_err s with
      | MWait, Some e => Some (with_flags (with_main s (MErr e)) None true (d_wgDone s))
      | _, _ => None
      end
  | MainWg =>
      if d_wgDone s then
        match d_main s with
        | MWait => Some (with_flags (with_main s (MDone (d_err s))) None true (d_wgDone s))
        | MErr e => Some (with_flags (with_main s (MDone (Some e))) (d_err s) true (d_wgDone s))
        | _ => None
        end
      else None
  | WStop w => match d_workers s !! w with Some WIdle => if d_done s then Some (with_worker s w WStopped) else None | _ => None end
  | WAdd w => match d_workers s !! w with Some (WGot t) => Some (with_worker s w (WDownloading t)) | _ => None end
  | WOk w =>
      match d_workers s !! w with
      | Some (WDownloading t) =>
          let d := sg_body (fetch (t_start t) (t_end t)) in (* the status is not looked at *)
          let s := with_worker s w (WNotifying (t_index t) d) in
          Some (with_merge s (d_merge s) (<[t_index t := d]> (d_map s)) (d_notify s) (d_out s))
      | _ => None
      end
  | WFail w e => match d_workers s !! w with Some (WDownloading t) => Some (reportError (with_worker s w WIdle) e) | _ => None end
  | WNotify w =>
      match d_workers s !! w with
      | Some (WNotifying i d) =>
          if (length (d_notify s) <? concurrency)%nat then
            let s := with_worker s w WIdle in Some (with_merge s (d_merge s) (d_map s) (d_notify s ++ [(i, d)]) (d_out s))
          else None
      | _ => None
      end
  | WNotifyStop w => match d_workers s !! w with Some (WNotifying i d) => if d_done s then Some (with_worker s w WIdle) else None | _ => None end
  | MgOpen => match d_merge s with MgStart => Some (with_merge s (MgCheck 0) (d_map s) (d_notify s) (d_out s)) | _ => None end
  | MgPop =>
      match d_merge s with
      | MgCheck i =>
          match d_map s !! i with
          | Some d => Some (with_merge s (MgCopy i d) (delete i (d_map s)) (d_notify s) (d_out s))
          | None => Some (with_merge s (MgWait i) (d_map s) (d_notify s) (d_out s))
          end
      | _ => None
      end
  | MgRecv =>
      match d_merge s, d_notify s with
      | MgWait i, (j, d) :: nt =>
          if (j =? i)%nat then Some (with_merge s (MgCopy i d) (delete i (d_map s)) nt (d_out s))
          else Some (with_merge s (MgWait i) (d_map s) nt (d_out s))
      | _, _ => None
      end
  | MgStop => match d_merge s with MgWait i => if d_done s then Some (with_merge s MgAborted (d_map s) (d_notify s) (d_out s)) else None | _ => None end
  | MgCopied cleanup =>
      match d_merge s with
      | MgCopy i d =>
          if Z.of_nat i <? lastIndex totalBytes segmentSize then Some (with_merge s (MgCheck (S i)) (d_map s) (d_notify s) (d_out s ++ d))
          else
            let s := with_merge s MgFinished (d_map s) (d_notify s) (d_out s ++ d) in
            Some (match cleanup with Some e => reportError s e | None => s end)
      | _ => None
      end
  | MgFail e k =>
      match d_merge s with
      | MgStart => Some (reportError (with_merge s MgAborted (d_map s) (d_notify s) (d_out s)) e)
      | MgCopy i d => Some (reportError (with_merge s MgAborted (d_map s) (d_notify s) (d_out s ++ take k d)) e)
      | _ => None
      end
  | WgWait =>
      if merge_ended (d_merge s) && forallb (fun x => negb (in_handleTask x)) (d_workers s) && negb (d_wgDone s)
      then Some (with_flags s (d_err s) (d_done s) true) else None
  end.

Inductive reachable : download -> Prop :=
| ReachInit : reachable init
| ReachStep s a s' : reachable s -> exec s a = Some s' -> reachable s'.
Fixpoint run (s : download) (acts : list action) : option download :=
  match acts with [] => Some s | a :: acts => match exec s a with Some s => run s acts | None => None end end.
(** Nothing can move any more. *)
Definition stuck (s : download) : Prop := forall a, exec s a = None.

(** ** The ranges *)
Hypothesis total_pos : 0 < totalBytes.
Hypothesis total_exact : totalBytes < 2 ^ 53.
Hypothesis size_pos : 0 < segmentSize.
Hypothesis no_overflow : totalBytes + segmentSize < 2 ^ 63.
Hypothesis workers_pos : (0 < concurrency)%nat.

Definition N : nat := Z.to_nat (lastIndex totalBytes segmentSize + 1).
Definition start_of (i : nat) : Z := Z.of_nat i * segmentSize.
Definition task_of (i : nat) : downloadTask := mkTask i (start_of i) (range_end (start_of i)).
Definition content (i : nat) : bytes := sg_body (fetch (start_of i) (range_end (start_of i))).
Definition whole (n : nat) : bytes := concat (content <$> seq 0 n).
(** The bodies of the responses to all ranges, in the order of the file. *)
Definition answers : bytes := whole N.

Lemma N_spec : Z.of_nat N = lastIndex totalBytes segmentSize + 1 /\ Z.of_nat (N - 1) * segmentSize < totalBytes <= Z.of_nat N * segmentSize /\ (0 < N)%nat.
Proof.
  unfold N. rewrite lastIndex_exact by lia. pose proof (Z.div_mod (totalBytes + segmentSize - 1) segmentSize ltac:(lia)). pose proof (Z.mod_pos_bound (totalBytes + segmentSize - 1) segmentSize size_pos).
  assert (1 <= (totalBytes + segmentSize - 1) / segmentSize) by (apply Z.div_le_lower_bound; lia).
  set (q := (totalBytes + segmentSize - 1) / segmentSize) in *. clearbody q. splits; [lia| |nia|lia]. assert (Z.of_nat (Z.to_nat (q - 1 + 1) - 1) = q - 1) as -> by lia. nia.
Qed.
(** Every range but the last is a whole segment; the last ends with the file. *)
Lemma range_end_spec i : (i < N)%nat -> range_end (start_of i) = Z.min (start_of (S i)) totalBytes - 1 /\ start_of i <= range_end (start_of i)
  /\ (range_end (start_of i) < totalBytes - 1 <-> (S i < N)%nat).
Proof.
  intros Hi. destruct N_spec as (HN & Hlast & Hpos). assert (start_of (S i) = start_of i + segmentSize) as Hs by (unfold start_of; lia).
  assert (0 <= start_of i < totalBytes) as Hb by (unfold start_of; nia).
  unfold range_end. rewrite Hs. assert (i64 (start_of i + (segmentSize - 1)) = start_of i + (segmentSize - 1)) as -> by (apply i64_small; unfold is_i64; lia).
  assert (start_of i + segmentSize < totalBytes <-> (S i < N)%nat) as Hiff.
  { rewrite <- Hs. unfold start_of. split; [nia|]. intros Hlt. assert (Z.of_nat (S i) * segmentSize <= Z.of_nat (N - 1) * segmentSize) by nia. lia. }
  destruct (Z.ltb_spec (totalBytes - 1) (start_of i + (segmentSize - 1))); splits; try lia; rewrite <- Hiff; lia.
Qed.
Lemma next_main_spec i : (i < N)%nat -> next_main i (start_of i) = if (S i <? N)%nat then MDispatch (S i) (start_of (S i)) else MWait.
Proof.
  intros Hi. destruct (range_end_spec i Hi) as (He & _ & Hiff). unfold next_main. destruct (Z.ltb_spec (range_end (start_of i)) (totalBytes - 1)) as [Hlt|Hge].
  - apply Hiff in Hlt as Hlt'. rewrite (proj2 (Nat.ltb_lt _ _) Hlt'). f_equal. lia.
  - destruct (Nat.ltb_spec (S i) N) as [Hn|]; [apply Hiff in Hn; lia|done].
Qed.
Lemma whole_S n : whole (S n) = whole n ++ content n.
Proof. unfold whole. rewrite seq_S, fmap_app, concat_app. cbn. by rewrite app_nil_r. Qed.
Lemma whole_prefix i : (i <= N)%nat -> whole i `prefix_of` whole N.
Proof.
  intros Hi. replace N with (i + (N - i))%nat by lia. unfold whole. rewrite seq_app, fmap_app, concat_app. by apply prefix_app_r.
Qed.

(** ** The invariant *)
Definition failed (s : download) : Prop := d_err s <> None \/ match d_main s with MErr _ | MDone _ => True | _ => False end.
Definition dispatched (s : download) : nat := match d_main s with MDispatch i _ => i | _ => N end.
Definition popped (m : mergeState) : nat := match m with MgStart => 0 | MgCheck i | MgWait i => i | MgCopy i _ => S i | MgFinished | MgAborted => N end.
Definition worker_ok (s : download) (x : workerState) : Prop :=
  match x with
  | WIdle => True
  | WGot t | WDownloading t => exists i, t = task_of i /\ (i < dispatched s)%nat
  | WNotifying i d => d = content i /\ (i < dispatched s)%nat
  | WStopped => d_done s = true
  end.
Definition merge_ok (s : download) : Prop :=
  match d_merge s with
  | MgStart => d_out s = []
  | MgCheck i | MgWait i => (i < N)%nat /\ d_out s = whole i
  | MgCopy i d => (i < dispatched s)%nat /\ d_out s = whole i /\ d = content i
  | MgFinished => d_out s = whole N /\ dispatched s = N
  | MgAborted => d_out s `prefix_of` whole N /\ failed s
  end.
(** A worker has the task [j]. *)
Definition held (j : nat) (x : workerState) : Prop := match x with WGot t | WDownloading t => t_index t = j | _ => False end.
Definition announcing (j : nat) (x : workerState) : Prop := match x with WNotifying i _ => i = j | _ => False end.
Record inv (s : download) : Prop := {
  i_main : match d_main s with MDispatch i start => (i < N)%nat /\ start = start_of i | MDone None => d_out s = whole N /\ d_merge s = MgFinished | _ => True end;
  i_len : length (d_workers s) = concurrency;
  i_full : (length (d_notify s) <= concurrency)%nat;
  i_workers : Forall (worker_ok s) (d_workers s);
  i_map : forall j d, d_map s !! j = Some d -> d = content j /\ (j < dispatched s)%nat;
  i_notify : Forall (fun p => p.2 = content p.1 /\ (p.1 < dispatched s)%nat) (d_notify s);
  i_merge : merge_ok s;
  i_done : d_done s = true -> failed s;
  i_wg : d_wgDone s = true -> merge_ended (d_merge s) = true;
  i_where : failed s \/ forall j, (j < dispatched s)%nat -> (popped (d_merge s) <= j)%nat -> is_Some (d_map s !! j) \/ Exists (held j) (d_workers s);
  i_wait : failed s \/ match d_merge s with
                      | MgWait i => is_Some (d_map s !! i) -> Exists (fun p => p.1 = i) (d_notify s) \/ Exists (announcing i) (d_workers s)
                      | _ => True
                      end }.

Lemma dispatched_le s : inv s -> (dispatched s <= N)%nat.
Proof. intros Hi. pose proof (i_main s Hi) as Hm. unfold dispatched. destruct (d_main s); lia || done. Qed.
Lemma failed_step s a s' : failed s -> exec s a = Some s' -> failed s'.
Proof.
  unfold failed, exec, reportError, with_flags, with_main, with_merge, with_worker. intros Hf He.
  destruct a; repeat case_match; simplify_eq; cbn in *; try (left; congruence); try (by right); try tauto;
    destruct Hf as [Hf|Hf]; try done; try (by left); by right.
Qed.

Lemma worker_ok_mono s s' x : (dispatched s <= dispatched s')%nat -> (d_done s = true -> d_done s' = true) -> worker_ok s x -> worker_ok s' x.
Proof. intros Hd Hdone. destruct x as [|t|t|i d|]; cbn; try done; [intros (i & -> & ?); exists i; split; [done|lia]..|intros [-> ?]; split; [done|lia]]. Qed.
Lemma workers_mono s s' ws : (dispatched s <= dispatched s')%nat -> (d_done s = true -> d_done s' = true) -> Forall (worker_ok s) ws -> Forall (worker_ok s') ws.
Proof. intros ? ? H. eapply Forall_impl; [exact H|]. intros x. by apply worker_ok_mono. Qed.
Lemma merge_ok_mono s s' : (dispatched s <= dispatched s')%nat -> (dispatched s' <= N)%nat -> (failed s -> failed s') -> d_merge s' = d_merge s -> d_out s' = d_out s -> merge_ok s -> merge_ok s'.
Proof. unfold merge_ok. intros Hd HN Hf -> ->. destruct (d_merge s) as [|i|i|i d| |]; try done; [intros (? & ? & ?); splits; [lia|done|done]|intros [? ?]; split; [done|lia]|intros [? ?]; split; [done|auto]]. Qed.

(** Replacing one worker. *)
Lemma Exists_insert {A} (P : A -> Prop) (l : list A) w x y : l !! w = Some y -> (P y -> P x) -> Exists P l -> Exists P (<[w := x]> l).
Proof.
  intros Hw Hp (z & Hin & Hz)%Exists_exists. apply list_elem_of_lookup in Hin as [k Hk]. apply Exists_exists. destruct (decide (k = w)) as [->|Hne].
  - exists x. split; [|apply Hp; congruence]. apply list_elem_of_lookup. exists w. apply list_lookup_insert_eq. by eapply lookup_lt_Some.
  - exists z. split; [|done]. apply list_elem_of_lookup. exists k. by rewrite list_lookup_insert_ne.
Qed.
Lemma Exists_insert_new {A} (P : A -> Prop) (l : list A) w x y : l !! w = Some y -> P x -> Exists P (<[w := x]> l).
Proof. intros Hw Hp. apply Exists_exists. exists x. split; [|done]. apply list_elem_of_lookup. exists w. apply list_lookup_insert_eq. by eapply lookup_lt_Some. Qed.

(** A step that only replaces a worker by one that holds and announces as much. *)
Lemma inv_worker s w x y : inv s -> d_workers s !! w = Some y -> worker_ok s x -> (forall j, held j y -> held j x) ->
  failed s \/ (forall j, announcing j y -> announcing j x) -> inv (with_worker s w x).
Proof.
  intros Hi Hw Hx Hh Ha. destruct Hi. constructor; cbn; try done.
  - by rewrite length_insert.
  - apply Forall_insert; [done|]. done.
  - destruct i_where0 as [?|Hwh]; [by left|right]. intros j Hj Hp. destruct (Hwh j Hj Hp) as [?|He]; [by left|right]. eapply Exists_insert; [exact Hw|first [apply Hh|apply Ha]|done].
  - destruct i_wait0 as [?|Hwt]; [by left|]. destruct Ha as [?|Ha]; [by left|right]. destruct (d_merge s); try done. intros Hm. destruct (Hwt Hm) as [?|He]; [by left|right]. eapply Exists_insert; [exact Hw|first [apply Hh|apply Ha]|done].
Qed.
(** A step that sets the flags or moves the caller. *)
Lemma inv_flags s m err done wg : inv s -> let s' := with_flags (with_main s m) err done wg in
  match m with MDispatch i start => (i < N)%nat /\ start = start_of i | MDone None => d_out s = whole N /\ d_merge s = MgFinished | _ => True end ->
  (dispatched s <= dispatched s')%nat -> (failed s -> failed s') -> (d_done s = true -> done = true) -> (done = true -> failed s') ->
  (wg = true -> merge_ended (d_merge s) = true) -> failed s' \/ dispatched s' = dispatched s -> inv s'.
Proof.
  intros Hi s' Hm Hd Hf Hdn Hdf Hwg Hsame. assert (dispatched s' <= N)%nat as HN by (unfold dispatched, s'; cbn; destruct m; lia || done).
  destruct Hi. constructor; cbn; try done.
  - eapply workers_mono; [| |exact i_workers0]; [exact Hd|exact Hdn].
  - intros j d Hj. destruct (i_map0 j d Hj) as [-> ?]. split; [done|lia].
  - eapply Forall_impl; [exact i_notify0|]. intros [j d] [-> ?]. split; [done|]. cbn in *. lia.
  - eapply merge_ok_mono; [exact Hd|exact HN|exact Hf|..]; done.
  - destruct Hsame as [?|Hsame]; [by left|]. destruct i_where0 as [?|Hwh]; [left; auto|right]. intros j Hj. rewrite Hsame in Hj. by apply Hwh.
  - destruct i_wait0 as [?|Hwt]; [left; auto|by right].
Qed.
Lemma inv_reportError s e : inv s -> inv (reportError s e).
Proof.
  intros Hi. assert (failed (reportError s e)) as Hf by (left; done). destruct Hi. constructor; try done.
  - eapply workers_mono; [| |exact i_workers0]; [done|done].
  - eapply (merge_ok_mono s); [done| |done..]. unfold dispatched. cbn. destruct (d_main s); lia || done.
  - by left.
  - by left.
Qed.

Lemma inv_init : inv init.
Proof.
  destruct N_spec as (_ & _ & Hpos). constructor; try done.
  - cbn. by rewrite length_replicate.
  - cbn. lia.
  - by apply Forall_replicate.
  - right. intros j Hj. cbn in Hj. lia.
  - by right.
Qed.

(** What the merging goroutine does: it takes entries from the map and the channel. *)
Lemma inv_merge s m mp nt out : inv s -> let s' := with_merge s m mp nt out in
  (length nt <= length (d_notify s))%nat -> (forall p, p ∈ nt -> p ∈ d_notify s) -> (forall j d, mp !! j = Some d -> d_map s !! j = Some d) ->
  (forall j, (popped m <= j)%nat -> (popped (d_merge s) <= j)%nat /\ (mp !! j = None -> d_map s !! j = None)) -> merge_ok s' ->
  (merge_ended (d_merge s) = true -> merge_ended m = true) -> d_merge s <> MgFinished ->
  (failed s \/ match m with MgWait i => is_Some (mp !! i) -> Exists (fun p => p.1 = i) nt \/ Exists (announcing i) (d_workers s) | _ => True end) -> inv s'.
Proof.
  intros Hi s' Hnt Hin Hmp Hpop Hmg Hend Hmain Hwait. destruct Hi. constructor; cbn; try done.
  - destruct (d_main s) as [| | |[e|]]; try done. by destruct i_main0.
  - lia.
  - intros j d Hj. by apply i_map0, Hmp.
  - apply Forall_forall. intros p Hp. rewrite Forall_forall in i_notify0. by apply i_notify0, Hin.
  - auto.
  - destruct i_where0 as [?|Hwh]; [by left|right]. intros j Hj Hp. destruct (Hpop j Hp) as [Hp' Hn]. destruct (Hwh j Hj Hp') as [[d Hd]|?]; [left|by right].
    destruct (mp !! j) eqn:E; [done|]. rewrite Hn in Hd; done.
Qed.

Lemma inv_main s a s' : inv s -> exec s a = Some s' -> match a with Give _ | MainStop | MainErr | MainWg | WgWait => True | _ => False end -> inv s'.
Proof.
  intros Hi He Ha. destruct a; try done; clear Ha; unfold exec in He.
  - destruct (d_main s) as [i start| | |] eqn:Em; [|done..]. destruct (d_workers s !! w) as [[]|] eqn:Ew; [|done..]. injection He as <-.
    pose proof (i_main s Hi) as Hm. rewrite Em in Hm. destruct Hm as [Hi1 ->]. pose proof (dispatched_le s Hi) as HN.
    assert (dispatched s = i) as Hdi by (unfold dispatched; by rewrite Em). rewrite next_main_spec by done.
    set (m := if (S i <? N)%nat then _ else _). set (s' := with_main _ _).
    assert (dispatched s' = S i) as Hd' by (unfold dispatched, s', m; cbn [d_main with_main]; destruct (Nat.ltb_spec (S i) N); [done|lia]).
    assert (failed s -> failed s') as Hf by (unfold failed; cbn; rewrite Em; tauto).
    destruct Hi. constructor; cbn; try done.
    + unfold m. destruct (Nat.ltb_spec (S i) N); done.
    + by rewrite length_insert.
    + apply Forall_insert; [|exists i; split; [done|lia]]. eapply workers_mono; [| |exact i_workers0]; [lia|done].
    + intros j d Hj. destruct (i_map0 j d Hj) as [-> ?]. split; [done|lia].
    + eapply Forall_impl; [exact i_notify0|]. intros [j d] [-> ?]. split; [done|]. cbn in *. lia.
    + eapply (merge_ok_mono s); [lia|lia|exact Hf|done..].
    + auto.
    + destruct i_where0 as [?|Hwh]; [left; auto|right]. intros j Hj Hp. rewrite Hd' in Hj. destruct (decide (j = i)) as [->|Hne].
      * right. eapply Exists_insert_new; [exact Ew|done].
      * destruct (Hwh j) as [?|?]; [lia|done|by left|right]. eapply Exists_insert; [exact Ew|done|done].
    + destruct i_wait0 as [?|Hwt]; [left; auto|right]. destruct (d_merge s); try done. intros Hx. destruct (Hwt Hx) as [?|?]; [by left|right]. eapply Exists_insert; [exact Ew|done|done].
  - destruct (d_main s) eqn:Em; [|done..]. destruct (d_done s) eqn:Ed; [|done]. injection He as <-.
    pose proof (dispatched_le s Hi). apply inv_flags; try done; [by right|by right|apply (i_wg s Hi)|left; by right].
  - destruct (d_main s) eqn:Em; [done| |done..]. destruct (d_err s) as [e|] eqn:Ee; [|done]. injection He as <-.
    pose proof (dispatched_le s Hi). apply inv_flags; try done; [by right|by right|apply (i_wg s Hi)|left; by right].
  - destruct (d_wgDone s) eqn:Eg; [|done]. destruct (d_main s) as [| |e|] eqn:Em; [done| | |done].
    + injection He as <-. pose proof (dispatched_le s Hi). apply inv_flags; try done; [|by right|by right|intros _; by apply (i_wg s Hi)|left; by right].
      destruct (d_err s) as [e|] eqn:Ee; [done|]. pose proof (i_wg s Hi Eg) as Hend. pose proof (i_merge s Hi) as Hmg. unfold merge_ok in Hmg.
      destruct (d_merge s); try done; [by destruct Hmg|]. destruct Hmg as [_ [?|Hf]]; [done|]. by rewrite Em in Hf.
    + injection He as <-. pose proof (dispatched_le s Hi). apply inv_flags; try done; [by right|by right|intros _; by apply (i_wg s Hi)|left; by right].
  - destruct (merge_ended (d_merge s)) eqn:Em; [|done]. destruct (forallb _ _); [|done]. destruct (d_wgDone s); [done|]. injection He as <-.
    destruct Hi. constructor; try done.
Qed.

Lemma worker_at s w x : inv s -> d_workers s !! w = Some x -> worker_ok s x.
Proof. intros Hi Hw. pose proof (i_workers s Hi) as H. rewrite Forall_forall in H. apply H. by eapply list_elem_of_lookup_2. Qed.

Lemma inv_workers s a s' : inv s -> exec s a = Some s' ->
  match a with WStop _ | WAdd _ | WOk _ | WFail _ _ | WNotify _ | WNotifyStop _ => True | _ => False end -> inv s'.
Proof.
  intros Hi He Ha. destruct a as [| | | |w|w|w|w e|w|w| | | | | | |]; try done; clear Ha; unfold exec in He;
    (destruct (d_workers s !! w) as [x|] eqn:Ew; [|done]); pose proof (worker_at s w x Hi Ew) as Hx; destruct x as [|t|t|i d|]; try done.
  - destruct (d_done s) eqn:Ed; [|done]. injection He as <-. apply (inv_worker s w _ WIdle Hi Ew); try done. by right.
  - injection He as <-. apply (inv_worker s w _ (WGot t) Hi Ew); try done. by right.
  - injection He as <-. destruct Hx as (i & -> & Hlt). cbn [t_index t_start t_end task_of]. set (d := sg_body _). assert (d = content i) as Hd by done. clearbody d.
    destruct Hi. constructor; try done.
    + cbn. by rewrite length_insert.
    + apply Forall_insert; done.
    + intros j d'. cbn. intros [[<- <-]|[_ Hj]]%lookup_insert_Some; [done|]. by apply i_map0.
    + destruct i_where0 as [?|Hwh]; [by left|right]. cbn. intros j Hj Hp. destruct (decide (j = i)) as [->|Hne]; [left; by rewrite lookup_insert_eq|].
      rewrite lookup_insert_ne by done. destruct (Hwh j Hj Hp) as [?|?]; [by left|right]. eapply Exists_insert; [exact Ew|cbn; congruence|done].
    + destruct i_wait0 as [?|Hwt]; [by left|right]. cbn. destruct (d_merge s) as [| |k| | |]; try done. intros [d' Hk].
      apply lookup_insert_Some in Hk as [[-> _]|[Hne Hk]]; [right; by eapply Exists_insert_new|]. destruct (Hwt ltac:(by eexists)) as [?|?]; [by left|right].
      eapply Exists_insert; [exact Ew|done|done].
  - injection He as <-. assert (failed (reportError s e)) as Hf by by left.
    assert (reportError (with_worker s w WIdle) e = with_worker (reportError s e) w WIdle) as -> by done.
    pose proof (inv_reportError s e Hi) as Hi'. destruct Hi'. constructor; try done.
    + cbn. by rewrite length_insert.
    + by apply Forall_insert.
    + by left.
    + by left.
  - destruct (_ <? _)%nat eqn:El; [|done]. apply Nat.ltb_lt in El. injection He as <-. destruct Hx as [-> Hlt]. destruct Hi. constructor; try done.
    + cbn. by rewrite length_insert.
    + cbn. rewrite length_app. cbn. lia.
    + by apply Forall_insert.
    + cbn. apply Forall_app. split; [done|]. by apply Forall_singleton.
    + destruct i_where0 as [?|Hwh]; [by left|right]. cbn. intros j Hj Hp. destruct (Hwh j Hj Hp) as [?|?]; [by left|right]. eapply Exists_insert; [exact Ew|done|done].
    + destruct i_wait0 as [?|Hwt]; [by left|right]. cbn. destruct (d_merge s) as [| |k| | |]; try done. intros Hk. destruct (Hwt Hk) as [?|Hex]; [left; apply Exists_app; by left|].
      destruct (decide (k = i)) as [->|Hne]; [left; apply Exists_app; right; by constructor|]. right. eapply Exists_insert; [exact Ew|cbn; congruence|done].
  - destruct (d_done s) eqn:Ed; [|done]. injection He as <-. apply (inv_worker s w _ (WNotifying i d) Hi Ew); try done. left. by apply (i_done s Hi).
Qed.

Lemma popped_le s : inv s -> (popped (d_merge s) <= dispatched s)%nat \/ failed s \/ match d_merge s with MgCheck _ | MgWait _ => True | _ => False end.
Proof.
  intros Hi. pose proof (i_merge s Hi) as Hm. unfold merge_ok in Hm. destruct (d_merge s); cbn; try (right; by right); try (left; lia).
  right. left. tauto.
Qed.

Lemma inv_mergers s a s' : inv s -> exec s a = Some s' -> match a with MgOpen | MgPop | MgRecv | MgStop | MgCopied _ | MgFail _ _ => True | _ => False end -> inv s'.
Proof.
  intros Hi He Ha. destruct N_spec as (HN & _ & Hpos). pose proof (i_merge s Hi) as Hm. pose proof (dispatched_le s Hi) as HdN.
  destruct a as [| | | | | | | | | | | | | |cl|e k|]; try done; clear Ha; unfold exec in He.
  - destruct (d_merge s) eqn:Em; try done. injection He as <-. unfold merge_ok in Hm. rewrite Em in Hm.
    apply inv_merge; rewrite ?Em; try done; by right.
  - destruct (d_merge s) as [|i| | | |] eqn:Em; try done. unfold merge_ok in Hm. rewrite Em in Hm. destruct Hm as [Hi1 Ho]. destruct (d_map s !! i) as [d|] eqn:Ei.
    + injection He as <-. destruct (i_map s Hi i d Ei) as [-> Hlt]. apply inv_merge; rewrite ?Em; try done.
      * intros j d'. by intros [_ ?]%lookup_delete_Some.
      * cbn. intros j Hj. split; [lia|]. rewrite lookup_delete_ne by lia. done.
      * by right.
    + injection He as <-. apply inv_merge; rewrite ?Em; try done. right. rewrite Ei. by intros [? ?].
  - destruct (d_merge s) as [| |i| | |] eqn:Em; try done. destruct (d_notify s) as [|[j d] nt] eqn:En; [done|]. unfold merge_ok in Hm. rewrite Em in Hm. destruct Hm as [Hi1 Ho].
    pose proof (i_notify s Hi) as Hnt. rewrite En in Hnt. apply Forall_cons in Hnt as [[Hd Hlt] _]. cbn in Hd, Hlt. destruct (Nat.eqb_spec j i) as [->|Hne]; injection He as <-.
    + apply inv_merge; rewrite ?Em, ?En; try done; [cbn; lia|by right|intros j d'; by intros [_ ?]%lookup_delete_Some| |by right].
      cbn. intros j Hj. split; [lia|]. rewrite lookup_delete_ne by lia. done.
    + apply inv_merge; rewrite ?Em, ?En; try done; [cbn; lia|by right|].
      pose proof (i_wait s Hi) as Hwt. rewrite Em, En in Hwt. destruct Hwt as [?|Hwt]; [by left|right]. intros Hk. destruct (Hwt Hk) as [Hex|?]; [left|by right].
      apply Exists_cons in Hex as [?|?]; done.
  - destruct (d_merge s) as [| |i| | |] eqn:Em; try done. destruct (d_done s) eqn:Ed; [|done]. injection He as <-. unfold merge_ok in Hm. rewrite Em in Hm. destruct Hm as [Hi1 Ho].
    apply inv_merge; rewrite ?Em; try done; [cbn; intros j Hj; split; [lia|done]| |by right].
    split; [cbn; rewrite Ho; apply whole_prefix; lia|by apply (i_done s Hi)].
  - destruct (d_merge s) as [| | |i d| |] eqn:Em; try done. unfold merge_ok in Hm. rewrite Em in Hm. destruct Hm as (Hi1 & Ho & ->).
    destruct (Z.ltb_spec (Z.of_nat i) (lastIndex totalBytes segmentSize)) as [Hlt|Hge].
    + injection He as <-. apply inv_merge; rewrite ?Em; try done; [|by right]. split; [lia|]. change (d_out s ++ content i = whole (S i)). by rewrite Ho, whole_S.
    + assert (S i = N) as HSi by lia. assert (inv (with_merge s MgFinished (d_map s) (d_notify s) (d_out s ++ content i))) as Hfin.
      { apply inv_merge; rewrite ?Em; try done; [cbn; intros j Hj; split; [lia|done]| |by right].
        split; [|change (dispatched s = N); lia]. change (d_out s ++ content i = whole N). by rewrite Ho, <- whole_S, HSi. }
      destruct cl; injection He as <-; [by apply inv_reportError|done].
  - assert (forall out, out `prefix_of` whole N -> d_merge s <> MgFinished -> (popped (d_merge s) <= N)%nat ->
      inv (reportError (with_merge s MgAborted (d_map s) (d_notify s) out) e)) as Habort.
    { intros out Hout Hnf Hp. assert (reportError (with_merge s MgAborted (d_map s) (d_notify s) out) e = with_merge (reportError s e) MgAborted (d_map s) (d_notify s) out) as -> by done.
      apply inv_merge; try done; [by apply inv_reportError|intros j Hj; split; [cbn in *; lia|done]| |by right]. split; [done|]. by left. }
    destruct (d_merge s) as [| | |i d| |] eqn:Em; try done; injection He as <-; unfold merge_ok in Hm; rewrite Em in Hm.
    + rewrite Hm. apply Habort; [apply prefix_nil|done|cbn; lia].
    + destruct Hm as (Hi1 & Ho & ->). apply Habort; [|done|cbn; lia]. rewrite Ho. transitivity (whole (S i)); [|apply whole_prefix; lia].
      rewrite whole_S. apply prefix_app. exists (drop k (content i)). by rewrite take_drop.
Qed.
Lemma inv_step s a s' : inv s -> exec s a = Some s' -> inv s'.
Proof. intros Hi He. destruct a; first [by eapply inv_main|by eapply inv_workers|by eapply inv_mergers]. Qed.
Lemma download_inv s : reachable s -> inv s.
Proof. induction 1; [apply inv_init|by eapply inv_step]. Qed.
Lemma download_reachable s acts s' : reachable s -> run s acts = Some s' -> reachable s'.
Proof.
  revert s. induction acts as [|a acts IH]; intros s Hs Hr; cbn in Hr; [by simplify_eq|]. destruct (exec s a) eqn:E; [|done]. eapply IH; [|done]. by eapply ReachStep.
Qed.
Lemma failed_is_done s : reachable s -> failed s -> d_done s = true.
Proof.
  induction 1 as [|s a s' _ IH He]; [by intros []|]. unfold exec in He.
  destruct a; repeat case_match; simplify_eq; unfold failed in *; cbn in *; try done; try (intros ?; apply IH; tauto);
    unfold next_main; repeat case_match; try done; intros Hf; apply IH; by destruct Hf as [?|?]; [left|].
Qed.

(** A file that is cut into the ranges and put together again. *)
Lemma whole_slices file : len file = totalBytes ->
  (forall a e, 0 <= a -> a <= e -> e < totalBytes -> sg_body (fetch a e) = take (Z.to_nat (e - a + 1)) (drop (Z.to_nat a) file)) -> whole N = file.
Proof.
  intros Hl Hf. destruct N_spec as (_ & Hlast & Hpos). assert (forall n, (n <= N)%nat -> whole n = take (Z.to_nat (start_of n)) file) as Hw.
  { induction n as [|n IH]; intros Hn; [done|]. rewrite whole_S, IH by lia. unfold content. destruct (range_end_spec n) as (He & Hle & _); [lia|].
    assert (0 <= start_of n < totalBytes) as Hb by (unfold start_of; nia). assert (start_of (S n) = start_of n + segmentSize) as Hs by (unfold start_of; lia).
    rewrite Hf by lia. rewrite take_take_drop, He, Hs. unfold len in Hl. destruct (Z.min_spec (start_of n + segmentSize) totalBytes) as [[_ ->]|[? ->]]; [f_equal; lia|].
    rewrite !take_ge by lia. done. }
  rewrite Hw by lia. apply take_ge. unfold len, start_of in *. lia.
Qed.

(** ** Progress *)
Definition worker_weight (x : workerState) : nat := match x with WIdle => 1 | WGot _ => 5 | WDownloading _ => 4 | WNotifying _ _ => 3 | WStopped => 0 end.
Fixpoint workers_weight (ws : list workerState) : nat := match ws with [] => 0 | x :: ws => worker_weight x + workers_weight ws end.
Definition main_weight (m : mainState) : nat := match m with MDispatch i _ => 5 * (N - i) + 2 | MWait => 2 | MErr _ => 1 | MDone _ => 0 end.
Definition merge_weight (m : mergeState) : nat :=
  match m with MgStart => 3 * N + 4 | MgCheck i => 3 * (N - i) + 3 | MgWait i => 3 * (N - i) + 2 | MgCopy i _ => 3 * (N - i) + 1 | MgFinished | MgAborted => 0 end.
Definition wg_weight (b : bool) : nat := if b then 0 else 1.
Definition weight (s : download) : nat :=
  main_weight (d_main s) + workers_weight (d_workers s) + merge_weight (d_merge s) + length (d_notify s) + wg_weight (d_wgDone s).

Lemma workers_weight_insert ws w x y : ws !! w = Some y -> (workers_weight (<[w := x]> ws) + worker_weight y = workers_weight ws + worker_weight x)%nat.
Proof.
  revert w. induction ws as [|z ws IH]; intros [|w] Hw; [done|done|cbn in Hw; simplify_eq; cbn [workers_weight list_insert insert]; lia|].
  specialize (IH w Hw). change (<[S w := x]> (z :: ws)) with (z :: <[w := x]> ws). cbn [workers_weight]. lia.
Qed.
Lemma next_main_weight i start : (i < N)%nat -> start = start_of i -> (main_weight (next_main i start) + 5 <= main_weight (MDispatch i start))%nat.
Proof. intros Hi ->. rewrite next_main_spec by done. destruct (Nat.ltb_spec (S i) N); cbn [main_weight]; lia. Qed.
Lemma weight_decreases s a s' : inv s -> exec s a = Some s' -> (weight s' < weight s)%nat.
Proof.
  intros Hi He. pose proof (i_main s Hi) as Hm. pose proof (i_merge s Hi) as Hg. unfold exec in He.
  destruct a as [w| | | |w|w|w|w e|w|w| | | | |cl|e k|];
    try (destruct (d_workers s !! w) as [x|] eqn:Ew; [|by repeat case_match]; pose proof (fun v => workers_weight_insert (d_workers s) w v x Ew) as Hw).
  all: repeat case_match; simplify_eq; unfold weight, with_main, with_worker, with_merge, reportError, with_flags; cbn [d_main d_workers d_merge d_notify d_wgDone].
  all: unfold merge_ok in Hg; repeat match goal with H : _ ?s = _ |- context [_ ?s] => rewrite H in * end.
  all: try match goal with |- context [<[_ := ?v]> _] => specialize (Hw v) end.
  all: rewrite ?length_app; cbn [main_weight merge_weight worker_weight wg_weight length] in *; try lia.
  { destruct Hm as [Hn Hst]. pose proof (next_main_weight i start Hn Hst) as Hmw. cbn [main_weight] in Hmw. lia. }
  all: try match goal with H : (_ <? _) = true |- _ => apply Z.ltb_lt in H; destruct N_spec as (? & _); lia end.
  all: match goal with H : _ && _ = true |- _ => apply andb_true_iff in H as [_ H]; apply negb_true_iff in H; rewrite H; cbn; lia end.
Qed.
Lemma run_bounded s acts s' : inv s -> run s acts = Some s' -> (length acts + weight s' <= weight s)%nat.
Proof.
  revert s. induction acts as [|a acts IH]; intros s Hi Hr; cbn in Hr; [simplify_eq; cbn; lia|]. destruct (exec s a) as [s1|] eqn:E; [|done].
  specialize (IH s1 (inv_step _ _ _ Hi E) Hr). pose proof (weight_decreases _ _ _ Hi E). cbn. lia.
Qed.
Lemma weight_init : weight init = (8 * N + concurrency + 7)%nat.
Proof. unfold weight. cbn. assert (forall n, workers_weight (replicate n WIdle) = n) as -> by (induction n as [|n IH]; [done|]; cbn; lia). lia. Qed.

(** A system in which nothing moves has either ended or lost a notification. *)
Definition notifying (x : workerState) : Prop := match x with WNotifying _ _ => True | _ => False end.
#[local] Instance notifying_dec x : Decision (notifying x).
Proof. destruct x; solve_decision. Defined.
Lemma stuck_workers s : inv s -> stuck s -> Forall (fun x => match x with WIdle | WStopped => d_done s = false \/ x = WStopped | WNotifying _ _ => d_done s = false | _ => False end) (d_workers s).
Proof.
  intros Hi Hst. apply Forall_lookup_2. intros w x Hw. destruct x as [|t|t|i d|].
  - pose proof (Hst (WStop w)) as H. unfold exec in H. rewrite Hw in H. destruct (d_done s); [done|by left].
  - pose proof (Hst (WAdd w)) as H. unfold exec in H. by rewrite Hw in H.
  - pose proof (Hst (WOk w)) as H. unfold exec in H. by rewrite Hw in H.
  - pose proof (Hst (WNotifyStop w)) as H. unfold exec in H. rewrite Hw in H. by destruct (d_done s).
  - by right.
Qed.
Lemma stuck_merge s : inv s -> stuck s -> match d_merge s with MgWait i => d_done s = false /\ d_notify s = [] | MgFinished | MgAborted => True | _ => False end.
Proof.
  intros Hi Hst. pose proof (Hst MgOpen) as Ho. pose proof (Hst MgPop) as Hp. pose proof (Hst (MgCopied None)) as Hc. pose proof (Hst MgStop) as Hs. pose proof (Hst MgRecv) as Hr.
  unfold exec in *. destruct (d_merge s) as [|i|i|i d| |]; try done.
  - by destruct (d_map s !! i).
  - destruct (d_done s); [done|]. destruct (d_notify s) as [|[j d] nt]; [done|]. by destruct (j =? i)%nat.
  - by destruct (_ <? _).
Qed.
Lemma stuck_done s : inv s -> stuck s -> d_done s = true ->
  Forall (eq WStopped) (d_workers s) /\ merge_ended (d_merge s) = true /\ d_wgDone s = true /\ exists r, d_main s = MDone r.
Proof.
  intros Hi Hst Hd. pose proof (stuck_workers s Hi Hst) as Hw. rewrite Hd in Hw.
  assert (Forall (eq WStopped) (d_workers s)) as Hall by (eapply Forall_impl; [exact Hw|]; intros []; cbn; intuition congruence).
  pose proof (stuck_merge s Hi Hst) as Hm. assert (merge_ended (d_merge s) = true) as Hend by (destruct (d_merge s); try done; destruct Hm; congruence).
  assert (d_wgDone s = true) as Hwg.
  { pose proof (Hst WgWait) as H. unfold exec in H. rewrite Hend in H. destruct (d_wgDone s); [done|].
    rewrite (proj2 (forallb_forall _ _)) in H; [done|]. intros x Hx. rewrite Forall_forall in Hall. by rewrite <- (Hall x) by by apply list_elem_of_In. }
  splits; try done. pose proof (Hst MainStop) as H1. pose proof (Hst MainWg) as H2. unfold exec in H1, H2. rewrite Hd in H1. rewrite Hwg in H2.
  destruct (d_main s); try done. by eexists.
Qed.
Lemma stuck_not_done s : reachable s -> stuck s -> d_done s = false ->
  d_main s = MWait /\ d_merge s = MgFinished /\ length (d_notify s) = concurrency /\ Exists notifying (d_workers s).
Proof.
  intros Hr Hst Hd. pose proof (download_inv s Hr) as Hi. assert (~ failed s) as Hnf by (intros Hf; apply (failed_is_done s Hr) in Hf; congruence).
  pose proof (stuck_workers s Hi Hst) as Hw. pose proof (stuck_merge s Hi Hst) as Hm. pose proof (i_main s Hi) as Hmain. pose proof (i_merge s Hi) as Hmg. unfold merge_ok in Hmg.
  assert (d_main s = MWait \/ exists i st, d_main s = MDispatch i st) as Hms by (destruct (d_main s) eqn:E; [by right; eauto|by left|exfalso; apply Hnf; right; by rewrite E..]).
  assert (forall w i d, d_workers s !! w = Some (WNotifying i d) -> (concurrency <= length (d_notify s))%nat) as Hblocked.
  { intros w i d Hlk. pose proof (Hst (WNotify w)) as H. unfold exec in H. rewrite Hlk in H. by destruct (Nat.ltb_spec (length (d_notify s)) concurrency). }
  assert (Forall (fun x => x = WIdle \/ exists i d, x = WNotifying i d) (d_workers s)) as Hw'.
  { apply Forall_forall. intros x Hx. pose proof (i_workers s Hi) as Hok. rewrite Forall_forall in Hw, Hok. specialize (Hw x Hx). specialize (Hok x Hx).
    destruct x; try done; [by left|right; eauto|cbn in Hok; congruence]. }
  destruct (d_merge s) as [| |i| | |] eqn:Em; try done; [exfalso| |by destruct Hmg].
  - destruct Hm as [_ Hn]. assert (Forall (eq WIdle) (d_workers s)) as Hidle.
    { apply Forall_lookup_2. intros w x Hlk. rewrite Forall_lookup in Hw'. destruct (Hw' w x Hlk) as [->|(j & d & ->)]; [done|]. apply Hblocked in Hlk. rewrite Hn in Hlk. cbn in Hlk. lia. }
    assert (forall P, (P WIdle -> False) -> ~ Exists P (d_workers s)) as Hnone.
    { intros P HP (x & Hx & Hpx)%Exists_exists. rewrite Forall_forall in Hidle. rewrite <- (Hidle x Hx) in Hpx. done. }
    destruct Hms as [Hms|(k & st & Hms)].
    + destruct (i_where s Hi) as [?|Hwh]; [done|]. destruct (i_wait s Hi) as [?|Hwt]; [done|]. rewrite Em in Hwh, Hwt. destruct Hmg as [Hlt _].
      destruct (Hwh i) as [Hin|Hex]; [unfold dispatched; rewrite Hms; lia|cbn; lia| |by apply Hnone in Hex]. destruct (Hwt Hin) as [Hex|Hex]; [rewrite Hn in Hex; by apply Exists_nil in Hex|by apply Hnone in Hex].
    + destruct (d_workers s) as [|x ws] eqn:Ew; [pose proof (i_len s Hi) as Hl; rewrite Ew in Hl; cbn in Hl; lia|].
      apply Forall_cons in Hidle as [<- _]. pose proof (Hst (Give 0)) as H. unfold exec in H. by rewrite Hms, Ew in H.
  - destruct Hmg as [_ HdN]. destruct Hms as [Hms|(k & st & Hms)]; [|rewrite Hms in Hmain; unfold dispatched in HdN; rewrite Hms in HdN; lia].
    destruct (decide (Exists notifying (d_workers s))) as [Hex|Hno].
    + splits; [done|done| |done]. apply Exists_exists in Hex as ([| | |i d|] & Hx & Hn); try done. apply list_elem_of_lookup in Hx as [w Hlk]. apply Hblocked in Hlk. pose proof (i_full s Hi). lia.
    + exfalso. pose proof (Hst MainWg) as H1. pose proof (Hst WgWait) as H2. unfold exec in H1, H2. rewrite Em in H2. rewrite Hms in H1. destruct (d_wgDone s); [done|].
      rewrite (proj2 (forallb_forall _ _)) in H2; [done|]. intros x Hx%list_elem_of_In. rewrite Forall_forall in Hw'. destruct (Hw' x Hx) as [->|(i & d & ->)]; [done|].
      exfalso. apply Hno. apply Exists_exists. by eexists.
Qed.

(** C25: What a parallel download has written is always a prefix of the bodies of the segments' responses in the order of the ranges,
    and all of them when [Do] returns without error, whatever the interleaving of the workers and the merging and whatever the
    servers answered. The ranges tile the file: when every body is its range of a file of the length announced, what is written is
    a prefix of this file, and the file when [Do] returns without error. (The statuses are not looked at: a finding.) *)
Theorem download_complete s : reachable s ->
  d_out s `prefix_of` answers /\ (d_main s = MDone None -> d_out s = answers) /\
  (forall file, len file = totalBytes -> (forall a e, 0 <= a -> a <= e -> e < totalBytes -> sg_body (fetch a e) = take (Z.to_nat (e - a + 1)) (drop (Z.to_nat a) file)) -> answers = file).
Proof.
  intros Hr. pose proof (download_inv s Hr) as Hi. unfold answers. split; [|split; [|exact whole_slices]].
  - pose proof (i_merge s Hi) as Hm. unfold merge_ok in Hm. destruct (d_merge s).
    1: rewrite Hm; apply prefix_nil.
    1-2: destruct Hm as [? ->]; apply whole_prefix; lia.
    + destruct Hm as (? & -> & _). apply whole_prefix. pose proof (dispatched_le s Hi). lia.
    + by destruct Hm as [-> _].
    + by destruct Hm.
  - intros Hm. pose proof (i_main s Hi) as H. rewrite Hm in H. by destruct H.
Qed.

(** C26: A parallel download always ends: no execution has more than [8 N + concurrency + 7]
    steps for [N] segments, and when nothing moves any more either [Do] has returned,
    every worker has stopped and the merging has ended, or the merging is complete and a
    worker is blocked in [completeTask] because [taskNotifyCh] is full of notifications
    nobody will take (then [Do] never returns). *)
Theorem download_ends acts s : run init acts = Some s ->
  ((length acts <= 8 * N + concurrency + 7)%nat /\
   (stuck s ->
    ((exists r, d_main s = MDone r) /\ Forall (eq WStopped) (d_workers s) /\ merge_ended (d_merge s) = true /\ d_wgDone s = true) \/
    (d_main s = MWait /\ d_merge s = MgFinished /\ length (d_notify s) = concurrency /\ Exists notifying (d_workers s)))).
Proof.
  intros Hr. split; [pose proof (run_bounded _ _ _ inv_init Hr) as H; rewrite weight_init in H; lia|]. intros Hst.
  assert (reachable s) as Hre by (eapply download_reachable; [apply ReachInit|exact Hr]). pose proof (download_inv s Hre) as Hi. destruct (d_done s) eqn:Ed.
  - left. destruct (stuck_done s Hi Hst Ed) as (? & ? & ? & ?). done.
  - right. by apply stuck_not_done.
Qed.
End Download.

(** ** A file of five bytes in segments of two *)
Definition five : bytes := [10; 20; 30; 40; 50].
Definition serve_five (a e : Z) : segment := mkSegment 206 (take (Z.to_nat (e - a + 1)) (drop (Z.to_nat a) five)).
Definition prompt_merge : list action :=
  let segment := [MgPop; Give 0; WAdd 0; WOk 0; WNotify 0; MgRecv; MgCopied None] in
  [MgOpen] ++ segment ++ segment ++ segment ++ [WgWait; MainWg; WStop 0].
Lemma prompt_merge_runs : exists s, run serve_five 5 2 1 (init 1) prompt_merge = Some s /\ d_main s = MDone None /\ d_out s = five.
Proof. eexists. split; [vm_compute; reflexivity|]. done. Qed.

Lemma download_complete_witness : exists s, run serve_five 5 2 1 (init 1) prompt_merge = Some s /\ d_main s = MDone None /\ d_out s = five.
Proof.
  destruct (run serve_five 5 2 1 (init 1) prompt_merge) as [s|] eqn:E; [|vm_compute in E; discriminate]. exists s. split; [reflexivity|].
  destruct (download_complete serve_five 5 2 1 ltac:(lia) ltac:(lia) ltac:(lia) ltac:(lia) ltac:(lia) s (download_reachable _ _ _ _ _ _ _ (ReachInit _ _ _ _) E)) as (_ & Hd & Hf).
  assert (d_main s = MDone None) as Hm by (vm_compute in E; injection E as <-; reflexivity). split; [exact Hm|].
  etransitivity; [exact (Hd Hm)|]. apply (Hf five); [reflexivity|intros; reflexivity].
Defined.
(** Finding. A server that has no ranges answers each request with the whole file, one that fails with an error page: [Do] returns nil. *)
Example statuses_unchecked : (d_out <$> run (fun a _ => if a =? 0 then mkSegment 200 five else mkSegment 404 [33]) 5 2 1 (init 1) prompt_merge) = Some (five ++ [33; 33])
  /\ (d_main <$> run (fun a _ => if a =? 0 then mkSegment 200 five else mkSegment 404 [33]) 5 2 1 (init 1) prompt_merge) = Some (MDone None).
Proof. vm_compute. split; reflexivity. Qed.
Lemma download_ends_witness : exists s, run serve_five 5 2 1 (init 1) prompt_merge = Some s /\ (length prompt_merge <= 8 * N 5 2 + 1 + 7)%nat.
Proof.
  eexists. split; [vm_compute; reflexivity|]. eapply (download_ends serve_five 5 2 1); [lia..|]. vm_compute. reflexivity.
Defined.

(** The merging goroutine finds both segments in the map, so that their notifications
    stay in the channel. *)
Definition late_merge : list action :=
  [Give 0; WAdd 0; WOk 0; MgOpen; MgPop; WNotify 0; Give 0; WAdd 0; MgCopied None; WOk 0; MgPop; MgCopied None].
(** Finding. [popTask] takes a finished segment from the map and leaves its notification
    in [taskNotifyCh]: with more such segments than the channel holds a worker blocks in
    [completeTask] after the merging has ended, and [Do] never returns although the file
    is complete and nothing failed. *)
Theorem stale_notifications_deadlock : exists s, run serve_five 4 2 1 (init 1) late_merge = Some s /\ reachable serve_five 4 2 1 s /\
  stuck serve_five 4 2 1 s /\ d_main s = MWait /\ d_out s = take 4 five /\ d_err s = None /\ d_done s = false.
Proof.
  eexists. split; [vm_compute; reflexivity|]. splits; try done.
  - eapply (download_reachable _ _ _ _ _ late_merge); [apply ReachInit|]. vm_compute. reflexivity.
  - intros [w| | | |w|w|w|w e|w|w| | | | | | |]; try done; destruct w as [|w]; done.
Qed.
