(* ===== verification/NetAddr.v ===== *)
(** * Hosts and ports ([src/internal/netutil/addr.go], [net.SplitHostPort], [net.JoinHostPort]) *)

From S2P Require Import Prelude.
From S2P Require Import H2Errors.
From S2P Require Import NetText.
From S2P Require Import Bufio.
From S2P Require Import BufioLine.
From S2P Require Import Chunked.
From S2P Require Import TextProto.

Definition has_byte (c : byte) (p : bytes) : bool := existsb (Z.eqb c) p.

(** [net.SplitHostPort]; the errors are the [Err] of an [AddrError]. *)
Definition SplitHostPort (hostport : bytes) : result string (bytes * bytes) :=
  match cut_last 58 hostport with
  | None => Err "missing port in address"%string
  | Some (before, port) =>
      match hostport with
      | 91 :: _ =>
          match cut 93 hostport with
          | None => Err "missing ']' in address"%string
          | Some (_, []) => Err "missing port in address"%string
          | Some (opening, 58 :: after) =>
              if has_byte 58 after then Err "too many colons in address"%string
              else let host := slice_from opening 1 in
                   if has_byte 91 (slice_from hostport 1) then Err "unexpected '[' in address"%string
                   else if has_byte 93 after then Err "unexpected ']' in address"%string
                   else Ok (host, after)
          | Some (_, _) => Err "missing port in address"%string
          end
      | _ =>
          if has_byte 58 before then Err "too many colons in address"%string
          else if has_byte 91 hostport then Err "unexpected '[' in address"%string
          else if has_byte 93 hostport then Err "unexpected ']' in address"%string
          else Ok (before, port)
      end
  end.
Definition JoinHostPort (host port : bytes) : bytes :=
  if has_byte 58 host then 91 :: host ++ [93; 58] ++ port else host ++ 58 :: port.

(** ** [internal/netutil] *)
Section Authority.
(** [idna.ToASCII], [None] for its errors. *)
Context (idna_ToASCII : bytes -> option bytes).

Definition AuthorityHostPort (scheme : string) (authority : bytes) : bytes * bytes :=
  let '(host, port) :=
    match SplitHostPort authority with
    | Ok (host, port) => (host, port)
    | Err _ => (authority, bytes_of_string (if String.eqb scheme "http" then "80" else "443"))
    end in
  (default host (idna_ToASCII host), port).
Definition bracketed (p : bytes) : bool := match p with 91 :: _ => match last p with Some b => b =? 93 | None => false end | _ => false end.
Definition AuthorityAddr (scheme : string) (authority : bytes) : bytes :=
  let '(host, port) := AuthorityHostPort scheme authority in
  if bracketed host then host ++ 58 :: port else JoinHostPort host port.
Definition AuthorityKey (scheme : string) (authority : bytes) : bytes :=
  bytes_of_string scheme ++ bytes_of_string "://" ++ AuthorityAddr scheme authority.
End Authority.

(** ** Lemmas *)
#[global] Arguments has_byte : simpl never.
Lemma has_byte_cons c b p : has_byte c (b :: p) = (c =? b) || has_byte c p.
Proof. done. Qed.
Lemma has_byte_app c p q : has_byte c (p ++ q) = has_byte c p || has_byte c q.
Proof. apply existsb_app. Qed.
Lemma cut_last_none c p : has_byte c p = false -> cut_last c p = None.
Proof. induction p as [|b p IH]; [done|]. rewrite has_byte_cons. cbn. intros [Hb Hp]%orb_false_iff. by rewrite IH, Z.eqb_sym, Hb. Qed.
Lemma cut_last_app c p q : has_byte c q = false -> cut_last c (p ++ c :: q) = Some (p, q).
Proof.
  intros Hq. induction p as [|b p IH]; cbn; [|by rewrite IH]. by rewrite cut_last_none, Z.eqb_refl.
Qed.
Lemma cut_app c p q : has_byte c p = false -> cut c (p ++ c :: q) = Some (p, q).
Proof. induction p as [|b p IH]; [cbn; by rewrite Z.eqb_refl|]. rewrite has_byte_cons. cbn. intros [Hb Hp]%orb_false_iff. by rewrite Z.eqb_sym, Hb, IH. Qed.
Lemma cut_last_some c p x y : cut_last c p = Some (x, y) -> p = x ++ c :: y /\ has_byte c y = false.
Proof.
  revert x. induction p as [|b p IH]; intros x; cbn; [done|]. destruct (cut_last c p) as [[x' y']|] eqn:E.
  - intros [= <- <-]. destruct (IH x' eq_refl) as [-> ?]. done.
  - destruct (Z.eqb_spec b c) as [->|]; [|done]. intros [= <- <-]. split; [done|]. clear IH. induction p as [|d p IH]; [done|]. rewrite has_byte_cons. cbn in *.
    destruct (cut_last c p) as [[]|]; [done|]. destruct (Z.eqb_spec d c); [done|]. rewrite IH by done. by destruct (Z.eqb_spec c d).
Qed.

(** A host without colon or bracket, with a port. *)
Lemma SplitHostPort_plain host port : has_byte 58 host = false -> has_byte 58 port = false ->
  has_byte 91 (host ++ port) = false -> has_byte 93 (host ++ port) = false -> SplitHostPort (host ++ 58 :: port) = Ok (host, port).
Proof.
  intros Hh Hp Ho Hc. rewrite has_byte_app in Ho, Hc. apply orb_false_iff in Ho as [Ho Ho'], Hc as [Hc Hc']. unfold SplitHostPort.
  rewrite cut_last_app, Hh by done. assert (forall c, c <> 58 -> has_byte c host = false -> has_byte c port = false -> has_byte c (host ++ 58 :: port) = false) as Hno.
  { intros c Hne H1 H2. rewrite has_byte_app, has_byte_cons, H1, H2. by destruct (Z.eqb_spec c 58). }
  rewrite (Hno 91), (Hno 93) by (done || lia). destruct (host ++ 58 :: port) as [|b rest] eqn:E; [done|].
  assert (b <> 91) as Hb. { intros ->. specialize (Hno 91 ltac:(lia) Ho Ho'). by rewrite has_byte_cons in Hno. }
  destruct b as [|p|p]; try done. by repeat (destruct p as [p|p|]; try done).
Qed.
(** A bracketed host, with a port. *)
Lemma SplitHostPort_bracketed host port : has_byte 91 host = false -> has_byte 93 host = false -> has_byte 58 port = false ->
  has_byte 91 port = false -> has_byte 93 port = false -> SplitHostPort (91 :: host ++ [93; 58] ++ port) = Ok (host, port).
Proof.
  intros Ho Hc Hp Ho' Hc'. unfold SplitHostPort. replace (91 :: host ++ [93; 58] ++ port) with ((91 :: host ++ [93]) ++ 58 :: port) by (cbn; by rewrite <- app_assoc).
  rewrite cut_last_app by done. cbn [app]. replace (91 :: (host ++ [93]) ++ 58 :: port) with ((91 :: host) ++ 93 :: 58 :: port) by (cbn; by rewrite <- app_assoc).
  rewrite (cut_app 93) by (by rewrite has_byte_cons, Hc). rewrite Hp. unfold slice_from. change (Z.to_nat 1) with 1%nat. cbn [drop app]. rewrite !drop_0, has_byte_app, !has_byte_cons, Ho, Ho'. cbn. by rewrite Hc'.
Qed.
(** Splitting what was joined. *)
Lemma SplitHostPort_join host port : has_byte 91 host = false -> has_byte 93 host = false -> has_byte 58 port = false ->
  has_byte 91 port = false -> has_byte 93 port = false -> SplitHostPort (JoinHostPort host port) = Ok (host, port).
Proof.
  intros. unfold JoinHostPort. destruct (has_byte 58 host) eqn:E; [by apply SplitHostPort_bracketed|].
  apply SplitHostPort_plain; try done; rewrite has_byte_app; by apply orb_false_iff.
Qed.
(** A bracketed host without port is an error. *)
Lemma SplitHostPort_no_port host : has_byte 93 host = false -> has_byte 58 host = true -> exists e, SplitHostPort (91 :: host ++ [93]) = Err e.
Proof.
  intros Hc Hcol. unfold SplitHostPort. replace (91 :: host ++ [93]) with ((91 :: host) ++ 93 :: []) by done.
  destruct (cut_last 58 _) as [[x y]|]; [|by eexists]. cbn [app]. replace (91 :: host ++ [93]) with ((91 :: host) ++ 93 :: []) by done. rewrite cut_app by (by rewrite has_byte_cons, Hc). by eexists.
Qed.
