(* ===== verification/Redirect.v ===== *)
(** * Redirect policies ([src/redirect.go], [Client.SetRedirectPolicy])

    A policy looks at the request about to be sent and at those sent before, and
    may change the header of the former. [http.Client] calls [CheckRedirect] with at
    least one earlier request; on an empty list the policies that look at the first
    one panic ([None]). Host names are ASCII, as [strings.ToLower] is here. *)

From S2P Require Import Prelude.
From S2P Require Import H2Errors.
From S2P Require Import NetText.
From S2P Require Import Bufio.
From S2P Require Import BufioLine.
From S2P Require Import Chunked.
From S2P Require Import TextProto.
From S2P Require Import NetAddr.

(** [req.URL.Host] and [req.Header]. *)
Record redirectRequest := mkRedirect { r_Host : bytes; r_Header : Header }.
Abbreviation policy := (redirectRequest -> list redirectRequest -> option (option error * redirectRequest)) (only parsing).

Definition http_ErrUseLastResponse : error := errors_New "net/http: use last response".

(** ** Host names *)
Definition lower_bytes (p : bytes) : bytes := lower <$> p.
Fixpoint join_bytes (sep : byte) (ss : list bytes) : bytes :=
  match ss with [] => [] | [s] => s | s :: ss => s ++ sep :: join_bytes sep ss end.
Definition getHostname (host : bytes) : bytes :=
  let host :=
    match cut 58 host with
    | Some (_ :: _, _) => match SplitHostPort host with Ok (h, _) => h | Err _ => [] end
    | _ => host
    end in
  lower_bytes host.
Definition getDomain (host : bytes) : bytes :=
  let host := getHostname host in
  let ss := split_bytes 46 host [] in
  if (length ss <? 3)%nat then host else join_bytes 46 (tail ss).

(** ** The policies *)
Definition MaxRedirectPolicy (noOfRedirect : Z) : policy := fun req via =>
  if noOfRedirect <=? len via then Some (Some (fmt_Errorf "stopped after %d redirects" [format_dec noOfRedirect]), req) else Some (None, req).
Definition DefaultRedirectPolicy : policy := MaxRedirectPolicy 10.
Definition NoRedirectPolicy : policy := fun req via => Some (Some http_ErrUseLastResponse, req).
Definition SameDomainRedirectPolicy : policy := fun req via =>
  match via with
  | [] => None
  | v :: _ => if bool_decide (getDomain (r_Host req) <> getDomain (r_Host v)) then Some (Some (errors_New "different domain name is not allowed"), req) else Some (None, req)
  end.
Definition SameHostRedirectPolicy : policy := fun req via =>
  match via with
  | [] => None
  | v :: _ => if bool_decide (getHostname (r_Host req) <> getHostname (r_Host v)) then Some (Some (errors_New "different host name is not allowed"), req) else Some (None, req)
  end.
Definition AllowedHostRedirectPolicy (hosts : list bytes) : policy :=
  let m : gset bytes := list_to_set ((fun h => lower_bytes (getHostname h)) <$> hosts) in
  fun req via =>
  let h := getHostname (r_Host req) in
  if bool_decide (h ∈ m) then Some (None, req) else Some (Some (fmt_Errorf "redirect host [%s] is not allowed" [string_of_bytes h]), req).
Definition AllowedDomainRedirectPolicy (hosts : list bytes) : policy :=
  let domains : gset bytes := list_to_set ((fun h => lower_bytes (getDomain h)) <$> hosts) in
  fun req via =>
  let domain := getDomain (r_Host req) in
  if bool_decide (domain ∈ domains) then Some (None, req) else Some (Some (fmt_Errorf "redirect domain [%s] is not allowed" [string_of_bytes domain]), req).

Definition add_values (h : Header) (key : string) (vals : list string) : Header := fold_left (fun h v => Header_Add h key v) vals h.
Definition AlwaysCopyHeaderRedirectPolicy (headers : list string) : policy := fun req via =>
  (fix copy (hs : list string) (h : Header) : option (option error * redirectRequest) :=
     match hs with
     | [] => Some (None, mkRedirect (r_Host req) h)
     | k :: hs =>
         match Header_Values h k, via with
         | _ :: _, _ => copy hs h
         | [], [] => None
         | [], v :: _ => copy hs (add_values h k (Header_Values (r_Header v) k))
         end
     end) headers (r_Header req).
Definition SensitiveHeadersRedirectPolicy (headers : list string) : policy := fun req via =>
  match via with
  | [] => Some (None, req)
  | v :: _ => if bool_decide (getDomain (r_Host req) = getDomain (r_Host v)) then Some (None, req)
              else Some (None, mkRedirect (r_Host req) (fold_left Header_Del headers (r_Header req)))
  end.

(** [CheckRedirect] as [SetRedirectPolicy] sets it; nil policies are skipped. *)
Fixpoint CheckRedirect (policies : list (option policy)) (req : redirectRequest) (via : list redirectRequest) : option (option error * redirectRequest) :=
  match policies with
  | [] => Some (None, req)
  | None :: ps => CheckRedirect ps req via
  | Some f :: ps =>
      match f req via with
      | None => None
      | Some (Some err, req) => Some (Some err, req)
      | Some (None, req) => CheckRedirect ps req via
      end
  end.
(** No policies leave the client as it is. *)
Definition SetRedirectPolicy (policies : list (option policy)) (old : redirectRequest -> list redirectRequest -> option (option error * redirectRequest)) :=
  match policies with [] => old | _ => CheckRedirect policies end.

(** The requests [http.Client] sends for one [Do], first to last: each redirect is
    sent after the check let it pass. *)
Inductive chain (check : redirectRequest -> list redirectRequest -> option (option error * redirectRequest)) : list redirectRequest -> Prop :=
| ChainFirst r : chain check [r]
| ChainNext via r r' : chain check via -> check r via = Some (None, r') -> chain check (via ++ [r']).

(** ** What the policies leave alone *)
Definition keeps_host (p : policy) : Prop := forall r via e r', p r via = Some (e, r') -> r_Host r' = r_Host r.
(** A policy that does not bring the header [k] back. *)
Definition keeps_absent (k : string) (p : policy) : Prop := forall r via e r',
  p r via = Some (e, r') -> r_Header r !! CanonicalHeaderKey k = None -> r_Header r' !! CanonicalHeaderKey k = None.
Definition all_policies (P : policy -> Prop) (ps : list (option policy)) : Prop := forall p, Some p ∈ ps -> P p.

Lemma add_values_other key vals : forall h k, k <> CanonicalHeaderKey key -> add_values h key vals !! k = h !! k.
Proof.
  induction vals as [|v vals IH]; intros h k Hk; [done|]. cbn. unfold add_values in IH. rewrite IH by done. unfold Header_Add, Header_append. by rewrite lookup_insert_ne.
Qed.
Lemma keeps_host_simple (p : policy) : (forall r via e r', p r via = Some (e, r') -> r' = r) -> keeps_host p.
Proof. intros H r via e r' Hp. by rewrite (H _ _ _ _ Hp). Qed.
Lemma keeps_absent_simple k (p : policy) : (forall r via e r', p r via = Some (e, r') -> r' = r) -> keeps_absent k p.
Proof. intros H r via e r' Hp. by rewrite (H _ _ _ _ Hp). Qed.
Lemma Max_same n : forall r via e r', MaxRedirectPolicy n r via = Some (e, r') -> r' = r.
Proof. unfold MaxRedirectPolicy. intros r via e r'. case_match; congruence. Qed.
Lemma SameDomain_same : forall r via e r', SameDomainRedirectPolicy r via = Some (e, r') -> r' = r.
Proof. unfold SameDomainRedirectPolicy. intros r via e r'. repeat case_match; congruence. Qed.
Lemma SameHost_same : forall r via e r', SameHostRedirectPolicy r via = Some (e, r') -> r' = r.
Proof. unfold SameHostRedirectPolicy. intros r via e r'. repeat case_match; congruence. Qed.
Lemma AllowedHost_same hs : forall r via e r', AllowedHostRedirectPolicy hs r via = Some (e, r') -> r' = r.
Proof. unfold AllowedHostRedirectPolicy. intros r via e r'. case_match; congruence. Qed.
Lemma AllowedDomain_same hs : forall r via e r', AllowedDomainRedirectPolicy hs r via = Some (e, r') -> r' = r.
Proof. unfold AllowedDomainRedirectPolicy. intros r via e r'. case_match; congruence. Qed.
Lemma NoRedirect_same : forall r via e r', NoRedirectPolicy r via = Some (e, r') -> r' = r.
Proof. unfold NoRedirectPolicy. intros r via e r'. congruence. Qed.
Create HintDb policies.
#[export] Hint Resolve Max_same SameDomain_same SameHost_same AllowedHost_same AllowedDomain_same NoRedirect_same : policies.
#[export] Hint Resolve keeps_host_simple keeps_absent_simple : policies.
Lemma Sensitive_keeps_host hs : keeps_host (SensitiveHeadersRedirectPolicy hs).
Proof. unfold SensitiveHeadersRedirectPolicy. intros r via e r'. repeat case_match; intros [= <- <-]; done. Qed.
Lemma AlwaysCopy_keeps_host hs : keeps_host (AlwaysCopyHeaderRedirectPolicy hs).
Proof.
  intros r via e r'. unfold AlwaysCopyHeaderRedirectPolicy. generalize (r_Header r). induction hs as [|k hs IH]; intros h; [by intros [= <- <-]|].
  cbn. destruct (Header_Values h k); [destruct via|]; [done|apply IH..].
Qed.
#[export] Hint Resolve Sensitive_keeps_host AlwaysCopy_keeps_host : policies.
Lemma del_all_absent hs : forall h k, h !! k = None -> fold_left Header_Del hs h !! k = None.
Proof. induction hs as [|x hs IH]; intros h k Hk; [done|]. cbn. apply IH. unfold Header_Del. apply lookup_delete_None. by right. Qed.
Lemma Sensitive_keeps_absent k hs : keeps_absent k (SensitiveHeadersRedirectPolicy hs).
Proof. unfold SensitiveHeadersRedirectPolicy. intros r via e r'. repeat case_match; intros [= <- <-]; [done..|]. apply del_all_absent. Qed.
#[export] Hint Resolve Sensitive_keeps_absent : policies.

(** ** The checks of a list of policies *)
Lemma CheckRedirect_host ps r via e r' : all_policies keeps_host ps -> CheckRedirect ps r via = Some (e, r') -> r_Host r' = r_Host r.
Proof.
  revert r. induction ps as [|[p|] ps IH]; intros r Hk; cbn.
  - by intros [= <- <-].
  - destruct (p r via) as [[[err|] r1]|] eqn:E; [| |done].
    + intros [= <- <-]. eapply Hk; [|exact E]. left.
    + intros H. rewrite <- (Hk p ltac:(left) _ _ _ _ E). eapply IH; [|exact H]. intros q Hq. apply Hk. by right.
  - apply IH. intros q Hq. apply Hk. by right.
Qed.
Lemma CheckRedirect_keeps_absent k ps r via e r' : all_policies (keeps_absent k) ps -> CheckRedirect ps r via = Some (e, r') ->
  r_Header r !! CanonicalHeaderKey k = None -> r_Header r' !! CanonicalHeaderKey k = None.
Proof.
  revert r. induction ps as [|[p|] ps IH]; intros r Hk; cbn.
  - by intros [= <- <-].
  - destruct (p r via) as [[[err|] r1]|] eqn:E; [| |done].
    + intros [= <- <-]. eapply Hk; [|exact E]. left.
    + intros H Ha. eapply IH; [|exact H|]; [intros q Hq; apply Hk; by right|]. eapply Hk; [left|exact E|done].
  - apply IH. intros q Hq. apply Hk. by right.
Qed.
Lemma CheckRedirect_app ps qs r via r' : CheckRedirect (ps ++ qs) r via = Some (None, r') ->
  exists r1, CheckRedirect ps r via = Some (None, r1) /\ CheckRedirect qs r1 via = Some (None, r').
Proof.
  revert r. induction ps as [|[p|] ps IH]; intros r; cbn; [eauto| |apply IH]. destruct (p r via) as [[[err|] r1]|]; [done|apply IH|done].
Qed.
Lemma del_all_in hs : forall h k, k ∈ hs -> fold_left Header_Del hs h !! CanonicalHeaderKey k = None.
Proof.
  induction hs as [|x hs IH]; intros h k Hk; [by apply not_elem_of_nil in Hk|]. apply elem_of_cons in Hk as [->|Hk]; [|by apply IH].
  cbn. apply del_all_absent. unfold Header_Del. by rewrite lookup_delete_eq.
Qed.

Section Chain.
Context (ps : list (option policy)) (Hps : all_policies keeps_host ps).
Abbreviation sent := (chain (CheckRedirect ps)).

Lemma chain_nonempty check via : chain check via -> via <> [].
Proof. intros [|]; [done|]. by intros []%app_nil. Qed.
Lemma chain_first via r r' : sent via -> head (via ++ [r]) = head (via ++ [r']) .
Proof. intros H. pose proof (chain_nonempty _ _ H). by destruct via. Qed.
End Chain.

Definition redirected (reqs : list redirectRequest) (Q : redirectRequest -> redirectRequest -> Prop) : Prop :=
  forall r0 n r, reqs !! 0%nat = Some r0 -> reqs !! S n = Some r -> Q r0 r.

Section Confined.
Context (ps : list (option policy)) (Hps : all_policies keeps_host ps).

End Confined.


(** The derived domain: what follows the first label when at least two labels do, else the name itself. *)
Inductive derived : bytes -> bytes -> Prop :=
| DerivedShort n : (forall l m r, n <> l ++ 46 :: m ++ 46 :: r) -> derived n n
| DerivedLong l m r : has_byte 46 l = false -> derived (l ++ 46 :: m ++ 46 :: r) (m ++ 46 :: r).

(** A host has at most one name and a name one derived domain. *)
Lemma derived_unique n d d' : derived n d -> derived n d' -> d = d'.
Proof.
  intros [x Hx|l m r Hl]; inversion 1 as [y Hy|l' m' r' Hl' Eq]; subst; try done.
  - by destruct (Hx l' m' r').
  - by destruct (Hy l m r).
  - assert (Some (l', m' ++ 46 :: r') = Some (l, m ++ 46 :: r)) as [= _ ?]; [|congruence]. rewrite <- (cut_app 46 l'), <- (cut_app 46 l) by done. by f_equal.
Qed.



(** A sensitive header never goes to another domain: when no policy after
    [SensitiveHeadersRedirectPolicy] brings it back, no redirect whose derived domain
    differs from the first request's carries it. *)
Theorem sensitive_header_stripped ps1 hs ps2 k reqs : all_policies keeps_host (ps1 ++ Some (SensitiveHeadersRedirectPolicy hs) :: ps2) -> all_policies (keeps_absent k) ps2 -> k ∈ hs ->
  chain (CheckRedirect (ps1 ++ Some (SensitiveHeadersRedirectPolicy hs) :: ps2)) reqs ->
  redirected reqs (fun r0 r => getDomain (r_Host r) = getDomain (r_Host r0) \/ r_Header r !! CanonicalHeaderKey k = None).
Proof.
  intros Hps Habs Hk Hch. induction Hch as [r|via r r' Hch IH Hck]; intros r0 n x H0 Hx; [done|].
  destruct via as [|v via]; [by apply chain_nonempty in Hch|]. cbn in H0. injection H0 as <-. cbn [app lookup list_lookup] in Hx.
  apply lookup_app_Some in Hx as [Hx|[_ Hx]]; [by eapply (IH v n)|]. apply list_lookup_singleton_Some in Hx as [_ <-].
  pose proof Hck as Hck'. apply CheckRedirect_app in Hck as (r1 & H1 & H2). cbn in H2. case_bool_decide as Hd.
  - left. rewrite (CheckRedirect_host _ _ _ _ _ Hps Hck'), <- Hd. f_equal. symmetry. eapply CheckRedirect_host; [|exact H1]. intros q Hq. apply Hps, elem_of_app. by left.
  - right. eapply CheckRedirect_keeps_absent; [exact Habs|exact H2|]. cbn. by apply del_all_in.
Qed.

(** ** Addresses without a port *)
Lemma getHostname_ipv6 a : has_byte 58 a = true -> has_byte 93 a = false -> getHostname (91 :: a ++ [93]) = [].
Proof.
  intros Hcol Hc. unfold getHostname. destruct (SplitHostPort_no_port a Hc Hcol) as [e ->].
  destruct (cut 58 (91 :: a ++ [93])) as [[[|b x] y]|] eqn:E; [|done|]; exfalso; cbn in E.
  - by destruct (cut 58 (a ++ [93])) as [[]|].
  - destruct (cut 58 (a ++ [93])) as [[]|] eqn:E'; [done|]. clear E. induction a as [|b a IH]; [done|]. rewrite has_byte_cons in Hcol, Hc. apply orb_false_iff in Hc as [_ Hc].
    cbn in E'. destruct (b =? 58) eqn:Eb; [done|]. rewrite Z.eqb_sym, Eb in Hcol. apply IH; [done|done|]. by destruct (cut 58 (a ++ [93])) as [[]|].
Qed.
(** Finding. A bracketed IPv6 address without a port has the empty host name, because
    [getHostname] drops the error of [SplitHostPort]: [SameHostRedirectPolicy] and
    [SameDomainRedirectPolicy] let a redirect from any such address to any other pass, and
    allowing one of them allows all. *)
Theorem ipv6_hosts_confused a b h h' via : has_byte 58 a = true -> has_byte 93 a = false -> has_byte 58 b = true -> has_byte 93 b = false ->
  (let first := mkRedirect (91 :: a ++ [93]) h in let r := mkRedirect (91 :: b ++ [93]) h' in
   SameHostRedirectPolicy r (first :: via) = Some (None, r) /\ SameDomainRedirectPolicy r (first :: via) = Some (None, r) /\
   AllowedHostRedirectPolicy [91 :: a ++ [93]] r (first :: via) = Some (None, r)).
Proof.
  intros Ha Ha' Hb Hb'. unfold SameHostRedirectPolicy, SameDomainRedirectPolicy, AllowedHostRedirectPolicy, getDomain. cbn [r_Host].
  rewrite !getHostname_ipv6 by done. splits; try (by rewrite bool_decide_false by tauto).
  rewrite bool_decide_true; [done|]. apply elem_of_list_to_set. cbn [fmap list_fmap]. rewrite getHostname_ipv6 by done. left.
Qed.

(** ** Concrete redirects *)
Definition at_host (s : string) (h : Header) : redirectRequest := mkRedirect (bytes_of_string s) h.
Definition with_key : Header := {["X-Api-Key"%string := ["secret"%string]]}.
Definition careful : list (option policy) :=
  [None; Some (MaxRedirectPolicy 3); Some (AllowedDomainRedirectPolicy [bytes_of_string "example.com"; bytes_of_string "cdn.net"]);
   Some (AlwaysCopyHeaderRedirectPolicy ["X-Api-Key"]); Some (SensitiveHeadersRedirectPolicy ["x-api-key"])]%string.
Lemma careful_keeps_host : all_policies keeps_host careful.
Proof. intros p Hp. repeat (apply elem_of_cons in Hp as [Hp|Hp]; [injection Hp as -> || done; eauto with policies|]). by apply not_elem_of_nil in Hp. Qed.
Definition careful_reqs : list redirectRequest :=
  [at_host "www.example.com" with_key; at_host "Example.com:8443" with_key; at_host "a.cdn.net" ∅]%string.
Lemma careful_chain : chain (CheckRedirect careful) careful_reqs.
Proof.
  apply (ChainNext _ [at_host "www.example.com" with_key; at_host "Example.com:8443" with_key]%string (at_host "a.cdn.net" with_key)); [|vm_compute; reflexivity].
  apply (ChainNext _ [at_host "www.example.com" with_key] (at_host "Example.com:8443" ∅)); [constructor|vm_compute; reflexivity].
Qed.
Lemma sensitive_header_stripped_witness : redirected careful_reqs (fun r0 r => getDomain (r_Host r) = getDomain (r_Host r0) \/ r_Header r !! CanonicalHeaderKey "x-api-key" = None).
Proof.
  refine (sensitive_header_stripped (take 4 careful) ["x-api-key"%string] [] "x-api-key" careful_reqs _ _ _ _).
  - exact careful_keeps_host.
  - intros p Hp. by apply not_elem_of_nil in Hp.
  - left.
  - exact careful_chain.
Defined.
Example other_domain_refused : CheckRedirect careful (at_host "evil.org" ∅) [at_host "www.example.com" with_key]
  = Some (Some (fmt_Errorf "redirect domain [%s] is not allowed" ["evil.org"]), at_host "evil.org" ∅)%string.
Proof. vm_compute. reflexivity. Qed.
Lemma ipv6_hosts_confused_witness : SameHostRedirectPolicy (at_host "[2001:db8::2]" ∅) [at_host "[2001:db8::1]" with_key] = Some (None, at_host "[2001:db8::2]" ∅).
Proof. exact (proj1 (ipv6_hosts_confused (bytes_of_string "2001:db8::1") (bytes_of_string "2001:db8::2") with_key ∅ [] eq_refl eq_refl eq_refl eq_refl)). Defined.
(** The derived domain only drops the first label: two registrable domains of one public suffix are the same. *)
Example co_uk_confused : SameDomainRedirectPolicy (at_host "evil.co.uk" with_key) [at_host "bank.co.uk" with_key] = Some (None, at_host "evil.co.uk" with_key).
Proof. vm_compute. reflexivity. Qed.
