(* ===== verification/AltSvc.v ===== *)
(** * The Alt-Svc header ([src/internal/altsvcutil/altsvcutil.go], [src/pkg/altsvc/altsvc.go])

    The parser of the header, the URL of an alternative, and the jar that keeps
    alternatives. Strings are byte strings, white space is ASCII; a [time.Time] is the
    number of nanoseconds since 1970. *)

From S2P Require Import Prelude.
From S2P Require Import H2Errors.
From S2P Require Import NetText.
From S2P Require Import Bufio.
From S2P Require Import BufioLine.
From S2P Require Import Chunked.
From S2P Require Import TextProto.
From S2P Require Import NetAddr.

Record AltSvc := mkAltSvc { Protocol : bytes; Host : bytes; Port : bytes; Expire : Z }.
(** 9999-12-31 23:59:59 UTC. *)
Definition endOfTime : Z := 253402300799 * 1000000000.

(** ** Helpers *)
Definition is_ws (b : byte) : bool := (b =? 32) || ((9 <=? b) && (b <=? 13)).
Fixpoint drop_ws (p : bytes) : bytes := match p with b :: q => if is_ws b then drop_ws q else p | [] => [] end.
(** [strings.TrimSpace] *)
Definition TrimSpace (p : bytes) : bytes := reverse (drop_ws (reverse (drop_ws p))).
Definition validOptionalPort (port : bytes) : bool :=
  match port with [] => true | b :: p => if negb (b =? 58) then false else forallb is_digit p end.
Definition splitHostPort (hostPort : bytes) : bytes * bytes :=
  let '(host, port) :=
    match cut_last 58 hostPort with
    | Some (h, p) => if validOptionalPort (58 :: p) then (h, p) else (hostPort, [])
    | None => (hostPort, [])
    end in
  (if bracketed host then slice_to (slice_from host 1) (len host - 2) else host, port).
(** [strconv.ParseInt(s, 10, 64)], [None] for its errors. *)
Definition ParseInt (p : bytes) : option Z := Atoi (string_of_bytes p).

(** ** The parser: the state is what is left of the buffer *)
(** The first [;] or [,] of an unquoted value, its index, and whether it is [;]. *)
Fixpoint find_delim (p : bytes) (i : Z) : option (Z * bool) :=
  match p with
  | [] => None
  | b :: p => if b =? 44 then Some (i, false) else if b =? 59 then Some (i, true) else find_delim p (i + 1)
  end.
Record kv := mkKv { kv_key : bytes; kv_value : bytes; kv_more : bool; kv_err : option error }.
Definition incompleteQuote (bs : bytes) : error := fmt_Errorf "quote in alt-svc is not complete: %s" [string_of_bytes bs].

(** The value after the '=': [bs], which starts with a quote for the first. *)
Definition quoted (key bs q : bytes) : kv * bytes :=
  match cut 34 q with
  | None => (mkKv key [] false (Some (incompleteQuote bs)), bs)
  | Some (value, []) => (mkKv key value false (Some io_EOF), [])
  | Some (value, b :: rest) => (mkKv key value (b =? 59) None, rest)
  end.
Definition unquoted (key bs : bytes) : kv * bytes :=
  match find_delim bs 0 with
  | None => (mkKv key (TrimSpace bs) false (Some io_EOF), bs)
  | Some (i, semi) =>
      if i =? 0 then (mkKv key (TrimSpace bs) semi (Some io_EOF), bs)
      else (mkKv key (slice_to bs i) semi None, slice_from bs (i + 1))
  end.
Definition parseKv (p : bytes) : kv * bytes :=
  match p with
  | [] => (mkKv [] [] false (Some io_EOF), [])
  | _ =>
      match cut 61 p with
      | None => (* no '=': the whole buffer is the line, its last byte is dropped *)
          (mkKv (TrimSpace (slice_to p (len p - 1))) [] false (Some io_EOF), [])
      | Some (k, []) => (mkKv (TrimSpace k) [] false (Some io_EOF), [])
      | Some (k, (b :: q) as bs) => if b =? 34 then quoted (TrimSpace k) bs q else unquoted (TrimSpace k) bs
      end
  end.

(** Other parameters are dropped. *)
Fixpoint drain (fuel : nat) (p : bytes) : option (option error * bytes) :=
  match fuel with
  | O => None
  | S fuel => let '(f, p) := parseKv p in if kv_more f then drain fuel p else Some (kv_err f, p)
  end.
Definition expectMa (key : bytes) : error := fmt_Errorf "expect ma field, got %s" [string_of_bytes key].
Definition errParseInt (s : bytes) : error := fmt_Errorf "strconv.ParseInt: parsing %q: invalid syntax or value out of range" [string_of_bytes s].

Section Parser.
(** [time.Now()] *)
Context (now : Z).

Definition parseOne (p : bytes) : option (option AltSvc * option error * bytes) :=
  let '(f, p) := parseKv p in
  if bool_decide (kv_key f = []) || bool_decide (kv_value f = []) then Some (None, kv_err f, p)
  else
    let '(host, port) := splitHostPort (kv_value f) in
    let as_ := mkAltSvc (kv_key f) host port endOfTime in
    if negb (kv_more f) then Some (Some as_, kv_err f, p)
    else
      let '(g, p) := parseKv p in
      if bool_decide (kv_key g = []) || bool_decide (kv_value g = []) then Some (Some as_, kv_err g, p)
      else if bool_decide (kv_key g <> bytes_of_string "ma") then Some (Some as_, Some (expectMa (kv_key g)), p)
      else match ParseInt (kv_value g) with
           | None => Some (Some as_, Some (errParseInt (kv_value g)), p)
           | Some maInt =>
               let as_ := mkAltSvc (kv_key f) host port (now + i64 (maInt * 1000000000)) in
               (* the error of the field is overwritten by that of [ParseInt] *)
               if negb (kv_more g) then Some (Some as_, None, p)
               else match drain (S (length p)) p with Some (err, p) => Some (Some as_, err, p) | None => None end
           end.

Fixpoint Parse (fuel : nat) (p : bytes) : option (list AltSvc * option error) :=
  match fuel with
  | O => None
  | S fuel =>
      match parseOne p with
      | None => None
      | Some (a, e, p) =>
          let as_ := match a with Some a => [a] | None => [] end in
          match e with
          | Some e => Some (as_, if bool_decide (e = io_EOF) then None else Some e)
          | None => match Parse fuel p with Some (rest, err) => Some (as_ ++ rest, err) | None => None end
          end
      end
  end.
(** The buffer bounds the number of entries. *)
Definition ParseHeader (value : bytes) : option (list AltSvc * option error) := Parse (S (length value)) value.
End Parser.

(** ** The URL of an alternative: its host *)
Definition ConvertURL (idna_ToASCII : bytes -> option bytes) (a : AltSvc) (scheme : string) (uHost : bytes) : bytes :=
  let '(host, port) := AuthorityHostPort idna_ToASCII scheme uHost in
  let modify := (bool_decide (Host a <> []) && bool_decide (Host a <> host)) || (bool_decide (Port a <> []) && bool_decide (Port a <> port)) in
  let host := if bool_decide (Host a <> []) then Host a else host in
  let port := if bool_decide (Port a <> []) then Port a else port in
  if modify then JoinHostPort host port else uHost.

(** ** [AltSvcJar] *)
Abbreviation jar := (gmap bytes AltSvc) (only parsing).
Definition GetAltSvc (now : Z) (j : jar) (addr : bytes) : option AltSvc * jar :=
  match addr with
  | [] => (None, j)
  | _ =>
      match j !! addr with
      | None => (None, j)
      | Some a => if Expire a <? now then (None, delete addr j) else (Some a, j)
      end
  end.
Definition SetAltSvc (j : jar) (addr : bytes) (a : AltSvc) : jar := match addr with [] => j | _ => <[addr := a]> j end.

(** ** Termination *)
Lemma cut_length c p x y : cut c p = Some (x, y) -> (length x + S (length y) = length p)%nat.
Proof.
  revert x. induction p as [|b p IH]; intros x; cbn; [done|]. destruct (b =? c); [intros [= <- <-]; done|].
  destruct (cut c p) as [[k v]|]; [|done]. intros [= <- <-]. cbn. rewrite <- (IH k eq_refl). lia.
Qed.
Lemma quoted_le key bs q : (length q <= length bs)%nat -> (length (quoted key bs q).2 <= length bs)%nat.
Proof.
  unfold quoted. destruct (cut 34 q) as [[v [|d w]]|] eqn:E; cbn [snd]; [cbn; lia| |lia]. apply cut_length in E. cbn in E. lia.
Qed.
Lemma unquoted_le key bs : (length (unquoted key bs).2 <= length bs)%nat.
Proof. unfold unquoted. destruct (find_delim bs 0) as [[i semi]|]; [|done]. destruct (i =? 0); [done|]. cbn [snd]. unfold slice_from. rewrite length_drop. lia. Qed.
Lemma parseKv_shrinks p : p <> [] -> (length (parseKv p).2 < length p)%nat.
Proof.
  intros Hp. unfold parseKv. destruct p as [|b p]; [done|]. set (q := b :: p) in *. destruct (cut 61 q) as [[k bs]|] eqn:E; [|cbn; lia].
  apply cut_length in E. destruct bs as [|c bs]; [cbn; lia|]. destruct (c =? 34).
  - pose proof (quoted_le (TrimSpace k) (c :: bs) bs ltac:(cbn; lia)). lia.
  - pose proof (unquoted_le (TrimSpace k) (c :: bs)). lia.
Qed.
Lemma parseKv_nil : parseKv [] = (mkKv [] [] false (Some io_EOF), []).
Proof. done. Qed.
Lemma parseKv_le p : (length (parseKv p).2 <= length p)%nat.
Proof. destruct p as [|b p]; [done|]. pose proof (parseKv_shrinks (b :: p) ltac:(done)). lia. Qed.
Lemma drain_total fuel p : (length p < fuel)%nat -> exists r, drain fuel p = Some r /\ (length r.2 <= length p)%nat.
Proof.
  revert p. induction fuel as [|fuel IH]; intros p Hp; [lia|]. cbn. pose proof (parseKv_le p) as Hle. destruct (parseKv p) as [f q] eqn:E. cbn in Hle.
  destruct (kv_more f) eqn:Em; [|by eexists]. destruct p as [|b p]; [rewrite parseKv_nil in E; injection E as <- <-; done|].
  pose proof (parseKv_shrinks (b :: p) ltac:(done)) as Hs. rewrite E in Hs. cbn [snd] in Hs. destruct (IH q) as (r & -> & ?); [lia|]. exists r. split; [done|lia].
Qed.
Lemma parseOne_total now p : exists a e q, parseOne now p = Some (a, e, q) /\ (length q <= length p)%nat /\ (p = [] -> e = Some io_EOF) /\ (p <> [] -> (length q < length p)%nat).
Proof.
  unfold parseOne. destruct p as [|b p]; [rewrite parseKv_nil; cbn; do 3 eexists; splits; done|].
  pose proof (parseKv_shrinks (b :: p) ltac:(done)) as Hs. destruct (parseKv (b :: p)) as [f q] eqn:E. cbn [snd] in Hs.
  assert (forall (X : option AltSvc * option error * bytes), (length X.2 <= length q)%nat -> exists a e q', Some X = Some (a, e, q') /\ (length q' <= length (b :: p))%nat /\ (b :: p = [] -> e = Some io_EOF) /\ (b :: p <> [] -> (length q' < length (b :: p))%nat)) as Hok.
  { intros [[a e] q'] Hq. cbn in Hq. exists a, e, q'. splits; try done; lia. }
  destruct (_ || _); [by apply Hok|]. destruct (splitHostPort _) as [host port]. destruct (negb (kv_more f)); [by apply Hok|].
  pose proof (parseKv_le q) as Hle. destruct (parseKv q) as [g q2]. cbn [snd] in Hle. destruct (_ || _); [by apply Hok|].
  case_bool_decide; [by apply Hok|]. destruct (ParseInt _); [|by apply Hok]. destruct (negb (kv_more g)); [by apply Hok|].
  destruct (drain_total (S (length q2)) q2) as ([err q3] & -> & Hd); [lia|]. apply Hok. cbn in *. lia.
Qed.
Lemma Parse_total now fuel p : (length p < fuel)%nat -> exists r, Parse now fuel p = Some r.
Proof.
  revert p. induction fuel as [|fuel IH]; intros p Hp; [lia|]. cbn. destruct (parseOne_total now p) as (a & e & q & -> & _ & Hnil & Hne).
  destruct e as [e|]; [by eexists|]. destruct p as [|b p]; [by specialize (Hnil eq_refl)|]. specialize (Hne ltac:(done)).
  destruct (IH q) as ([rest err] & ->); [lia|]. by eexists.
Qed.

(** ** Round trip: a header written as RFC 7838 says *)
Record alternative := mkAlt { a_proto : bytes; a_host : bytes; a_port : bytes; a_ma : option (Z * list (bytes * bytes)) }.
Definition param_wire (kv : bytes * bytes) : bytes := 59 :: kv.1 ++ 61 :: kv.2.
Definition ma_wire (n : Z) : bytes := bytes_of_string "; ma=" ++ bytes_of_string (format_dec n).
(** [proto="host:port"; ma=n; params] *)
Definition alt_wire (a : alternative) : bytes :=
  a_proto a ++ [61; 34] ++ JoinHostPort (a_host a) (a_port a) ++ [34]
  ++ match a_ma a with Some (n, ps) => ma_wire n ++ concat (param_wire <$> ps) | None => [] end.
Fixpoint header_wire (l : list alternative) : bytes :=
  match l with [] => [] | [a] => alt_wire a | a :: l => alt_wire a ++ [44; 32] ++ header_wire l end.
Definition param_ok (kv : bytes * bytes) : Prop :=
  has_byte 61 kv.1 = false /\ kv.2 <> [] /\ head kv.2 <> Some 34 /\ has_byte 44 kv.2 = false /\ has_byte 59 kv.2 = false.
Definition alt_ok (a : alternative) : Prop :=
  a_proto a <> [] /\ has_byte 61 (a_proto a) = false /\ TrimSpace (a_proto a) = a_proto a /\
  has_byte 34 (a_host a) = false /\ has_byte 91 (a_host a) = false /\ has_byte 93 (a_host a) = false /\
  forallb is_digit (a_port a) = true /\ a_port a <> [] /\
  match a_ma a with Some (n, ps) => 0 <= n < 2 ^ 63 /\ Forall param_ok ps | None => True end.
(** The entry it stands for; the expiry is [time.Duration] arithmetic. *)
Definition entry_of (now : Z) (a : alternative) : AltSvc :=
  mkAltSvc (a_proto a) (a_host a) (a_port a) (match a_ma a with Some (n, _) => now + i64 (n * 1000000000) | None => endOfTime end).

Lemma find_delim_none p : forall i, has_byte 44 p = false -> has_byte 59 p = false -> find_delim p i = None.
Proof.
  induction p as [|b p IH]; intros i H1 H2; [done|]. rewrite has_byte_cons in H1, H2. apply orb_false_iff in H1 as [Hb1 H1], H2 as [Hb2 H2].
  cbn. rewrite Z.eqb_sym in Hb1, Hb2. rewrite Hb1, Hb2. by apply IH.
Qed.
Lemma find_delim_at p d q : forall i, has_byte 44 p = false -> has_byte 59 p = false -> d = 44 \/ d = 59 -> find_delim (p ++ d :: q) i = Some (i + len p, d =? 59).
Proof.
  induction p as [|b p IH]; intros i H1 H2 Hd.
  - rewrite len_nil, Z.add_0_r. by destruct Hd as [-> | ->].
  - rewrite has_byte_cons in H1, H2. apply orb_false_iff in H1 as [Hb1 H1], H2 as [Hb2 H2]. cbn. rewrite Z.eqb_sym in Hb1, Hb2. rewrite Hb1, Hb2, IH by done.
    rewrite len_cons. do 2 f_equal. lia.
Qed.
Lemma parseKv_key k bs : has_byte 61 k = false -> parseKv (k ++ 61 :: bs) =
  match bs with [] => (mkKv (TrimSpace k) [] false (Some io_EOF), []) | b :: q => if b =? 34 then quoted (TrimSpace k) bs q else unquoted (TrimSpace k) bs end.
Proof. intros Hk. unfold parseKv. rewrite cut_app by done. destruct (k ++ 61 :: bs) eqn:E; [by destruct k|]. by destruct bs. Qed.
Lemma parseKv_quoted k v rest : has_byte 61 k = false -> has_byte 34 v = false -> parseKv (k ++ [61; 34] ++ v ++ 34 :: rest) =
  match rest with [] => (mkKv (TrimSpace k) v false (Some io_EOF), []) | b :: rest => (mkKv (TrimSpace k) v (b =? 59) None, rest) end.
Proof. intros Hk Hv. cbn [app]. rewrite parseKv_key by done. cbn. unfold quoted. rewrite cut_app by done. by destruct rest. Qed.
Lemma parseKv_unquoted k v d rest : has_byte 61 k = false -> param_ok ([], v) -> d = 44 \/ d = 59 ->
  parseKv (k ++ 61 :: v ++ d :: rest) = (mkKv (TrimSpace k) v (d =? 59) None, rest).
Proof.
  intros Hk (_ & Hne & Hq & H1 & H2) Hd. rewrite parseKv_key by done. cbn [snd] in *. destruct v as [|b v]; [done|]. cbn [app].
  destruct (Z.eqb_spec b 34) as [->|_]; [done|]. unfold unquoted. rewrite (app_comm_cons v _ b), find_delim_at by done.
  assert (0 < len (b :: v)) as Hl by (rewrite len_cons; pose proof (len_nonneg v); lia). destruct (Z.eqb_spec (0 + len (b :: v)) 0) as [?|_]; [lia|].
  rewrite slice_to_app by lia. do 2 f_equal. replace ((b :: v) ++ d :: rest) with (((b :: v) ++ [d]) ++ rest) by (by rewrite <- app_assoc).
  rewrite slice_from_app; [done|]. rewrite len_app. change (len [d]) with 1. lia.
Qed.
Lemma parseKv_last k v : has_byte 61 k = false -> param_ok ([], v) -> parseKv (k ++ 61 :: v) = (mkKv (TrimSpace k) (TrimSpace v) false (Some io_EOF), v).
Proof.
  intros Hk (_ & Hne & Hq & H1 & H2). rewrite parseKv_key by done. cbn [snd] in *. destruct v as [|b v]; [done|].
  destruct (Z.eqb_spec b 34) as [->|_]; [done|]. unfold unquoted. by rewrite find_delim_none.
Qed.

(** What follows an alternative: nothing, or a comma and more. *)
Definition after (rest : bytes) : Prop := rest = [] \/ exists r, rest = 44 :: r.
Lemma drain_params ps : forall k v rest fuel, after rest -> has_byte 61 k = false -> param_ok ([], v) -> Forall param_ok ps ->
  len (k ++ 61 :: v ++ concat (param_wire <$> ps) ++ rest) < Z.of_nat fuel ->
  exists err q, drain fuel (k ++ 61 :: v ++ concat (param_wire <$> ps) ++ rest) = Some (err, q) /\
    match rest with [] => err = Some io_EOF | _ :: r => err = None /\ q = r end.
Proof.
  induction ps as [|[k' v'] ps IH]; intros k v rest fuel Hr Hk Hv Hps Hf; (destruct fuel as [|fuel]; [exfalso; match type of Hf with len ?l < _ => pose proof (len_nonneg l); lia end|]); cbn [drain].
  - cbn [fmap list_fmap concat app]. destruct Hr as [->|[r ->]].
    + rewrite app_nil_r, parseKv_last by done. cbn. by do 2 eexists.
    + rewrite parseKv_unquoted by (done || by left). cbn. by do 2 eexists.
  - apply Forall_cons in Hps as [Hkv Hps]. cbn [fmap list_fmap concat app]. change (param_wire (k', v')) with (59 :: k' ++ 61 :: v') in *.
    rewrite <- !app_assoc. cbn [app]. rewrite <- !app_assoc. cbn [app]. rewrite parseKv_unquoted by (done || by right). cbn. destruct Hkv as (Hk' & Hv').
    apply IH; [done|done|by split|done|]. change (param_wire <$> (k', v') :: ps) with ((59 :: k' ++ 61 :: v') :: (param_wire <$> ps)) in Hf. cbn [concat] in Hf.
    do 4 (rewrite ?len_app, ?len_cons in Hf; cbn [app] in Hf). do 2 (rewrite ?len_app, ?len_cons; cbn [app]). pose proof (len_nonneg k). pose proof (len_nonneg v). lia.
Qed.

Lemma digit_cases b : is_digit b = true -> 48 <= b <= 57.
Proof. unfold is_digit. lia. Qed.
Lemma digits_no p c : forallb is_digit p = true -> c < 48 \/ 57 < c -> has_byte c p = false.
Proof.
  intros Hp Hc. induction p as [|b p IH]; [done|]. cbn in Hp. apply andb_true_iff in Hp as [Hb Hp]. apply digit_cases in Hb. rewrite has_byte_cons, IH by done.
  destruct (Z.eqb_spec c b); [lia|done].
Qed.
Lemma drop_ws_head b p : is_ws b = false -> drop_ws (b :: p) = b :: p.
Proof. cbn. by intros ->. Qed.
Lemma TrimSpace_digits p : forallb is_digit p = true -> TrimSpace p = p.
Proof.
  assert (forall q, forallb is_digit q = true -> drop_ws q = q) as H.
  { intros [|b q]; [done|]. cbn [forallb]. intros [Hb _]%andb_true_iff. apply drop_ws_head. apply digit_cases in Hb. unfold is_ws. lia. }
  intros Hp. unfold TrimSpace. rewrite (H p Hp), H, reverse_involutive; [done|]. apply forallb_Forall. apply forallb_Forall in Hp. by apply Forall_reverse.
Qed.
Lemma param_ok_digits p : forallb is_digit p = true -> p <> [] -> param_ok ([], p).
Proof.
  intros Hp Hne. unfold param_ok. cbn [fst snd]. splits; try done; [|apply digits_no; [done|lia]..].
  destruct p as [|b p]; [done|]. cbn in Hp |- *. apply andb_true_iff in Hp as [Hb _]. apply digit_cases in Hb. intros [= ->]. lia.
Qed.
Lemma has_byte_join c host port : c <> 58 -> c <> 91 -> c <> 93 -> has_byte c host = false -> has_byte c port = false -> has_byte c (JoinHostPort host port) = false.
Proof.
  intros H1 H2 H3 Hh Hp. unfold JoinHostPort. destruct (has_byte 58 host); repeat (rewrite ?has_byte_cons, ?has_byte_app); rewrite Hh, Hp;
    repeat match goal with |- context [?x =? ?y] => destruct (Z.eqb_spec x y); [lia|] end; done.
Qed.
Lemma splitHostPort_join host port : has_byte 91 host = false -> has_byte 93 host = false -> forallb is_digit port = true -> splitHostPort (JoinHostPort host port) = (host, port).
Proof.
  intros Ho Hc Hd. assert (has_byte 58 port = false) as Hp by (apply digits_no; [done|lia]). unfold splitHostPort, JoinHostPort. destruct (has_byte 58 host).
  - replace (91 :: host ++ [93; 58] ++ port) with ((91 :: host ++ [93]) ++ 58 :: port) by (cbn; by rewrite <- app_assoc). rewrite cut_last_app by done. cbn [validOptionalPort Z.eqb Pos.eqb negb].
    rewrite Hd. unfold bracketed. rewrite last_cons, last_app. cbn [last Z.eqb Pos.eqb]. rewrite len_cons, len_app. change (len [93]) with 1. unfold slice_from. change (Z.to_nat 1) with 1%nat. cbn [drop]. rewrite drop_0.
    by rewrite slice_to_app by lia.
  - rewrite cut_last_app by done. cbn [validOptionalPort Z.eqb Pos.eqb negb]. rewrite Hd. unfold bracketed. destruct host as [|b host]; [done|].
    rewrite has_byte_cons in Ho. apply orb_false_iff in Ho as [Hb _]. destruct b as [|p|p]; try done. by repeat (destruct p as [p|p|]; try done).
Qed.
Lemma ParseInt_dec n : 0 <= n < 2 ^ 63 -> ParseInt (bytes_of_string (format_dec n)) = Some n /\ forallb is_digit (bytes_of_string (format_dec n)) = true /\ bytes_of_string (format_dec n) <> [].
Proof.
  intros Hn. pose proof (ParseUint_format_dec n 63 Hn) as H. unfold ParseInt. rewrite string_of_bytes_of_string. split; [by apply Atoi_ParseUint|]. by eapply ParseUint_digits.
Qed.
Lemma TrimSpace_space p : TrimSpace (32 :: p) = TrimSpace p.
Proof. done. Qed.

Lemma has_byte_key61 : has_byte 61 (bytes_of_string " ma") = false.
Proof. done. Qed.
(** The ["ma"] parameter and what follows it. *)
Lemma parse_ma n ps rest : 0 <= n < 2 ^ 63 -> Forall param_ok ps -> after rest ->
  exists more err q, parseKv (bytes_of_string " ma=" ++ bytes_of_string (format_dec n) ++ concat (param_wire <$> ps) ++ rest) = (mkKv (bytes_of_string "ma") (bytes_of_string (format_dec n)) more err, q) /\
    (if more then exists err' q', drain (S (length q)) q = Some (err', q') /\ match rest with [] => err' = Some io_EOF | _ :: r => err' = None /\ q' = r end
     else match rest with [] => cut 61 q = None | _ :: r => q = r end).
Proof.
  intros Hn Hps Hr. destruct (ParseInt_dec n Hn) as (_ & Hd & Hne). set (d := bytes_of_string (format_dec n)) in *. pose proof (param_ok_digits d Hd Hne) as Hok.
  change (bytes_of_string " ma=") with (bytes_of_string " ma" ++ [61]). rewrite <- app_assoc. cbn [app]. destruct ps as [|[k v] ps].
  - cbn [fmap list_fmap concat app]. destruct Hr as [->|[r ->]].
    + rewrite app_nil_r, parseKv_last by (done || apply has_byte_key61). rewrite (TrimSpace_digits d) by done. do 3 eexists. split; [done|].
      cbn. pose proof (digits_no d 61 Hd ltac:(lia)) as H61. clearbody d. clear -H61. induction d as [|b d IH]; [done|]. rewrite has_byte_cons in H61. apply orb_false_iff in H61 as [Hb H61].
      cbn. by rewrite Z.eqb_sym, Hb, IH.
    + rewrite parseKv_unquoted by (done || apply has_byte_key61 || by left). by do 3 eexists.
  - apply Forall_cons in Hps as [[Hk Hv] Hps]. cbn [fst] in Hk. change (param_wire <$> (k, v) :: ps) with ((59 :: k ++ 61 :: v) :: (param_wire <$> ps)). cbn [concat app].
    rewrite <- !app_assoc. cbn [app]. rewrite parseKv_unquoted by (done || apply has_byte_key61 || by right). do 3 eexists. split; [done|]. cbn [Z.eqb Pos.eqb]. cbv iota.
    rewrite <- ?app_assoc. apply drain_params; [done|done|by split|done|]. unfold len. lia.
Qed.

Lemma parseOne_alt now sp a rest : sp = [] \/ sp = [32] -> alt_ok a -> after rest ->
  exists err q, parseOne now (sp ++ alt_wire a ++ rest) = Some (Some (entry_of now a), err, q) /\
    match rest with [] => err = Some io_EOF \/ err = None /\ cut 61 q = None | _ :: r => err = None /\ q = r end.
Proof.
  intros Hsp (Hne & H61 & Htrim & H34 & H91 & H93 & Hd & Hpne & Hma) Hr. unfold alt_wire, parseOne.
  assert (TrimSpace (sp ++ a_proto a) = a_proto a) as Hkey by (by destruct Hsp as [-> | ->]).
  assert (has_byte 61 (sp ++ a_proto a) = false) as Hk61 by (rewrite has_byte_app, H61; by destruct Hsp as [-> | ->]).
  assert (has_byte 34 (JoinHostPort (a_host a) (a_port a)) = false) as Hq by (apply has_byte_join; [lia..|done|by apply digits_no; [|lia]]).
  assert (JoinHostPort (a_host a) (a_port a) <> []) as Hjne by (unfold JoinHostPort; destruct (has_byte 58 (a_host a)); [done|by destruct (a_host a)]).
  assert (splitHostPort (JoinHostPort (a_host a) (a_port a)) = (a_host a, a_port a)) as Hsplit by (by apply splitHostPort_join).
  set (auth := JoinHostPort (a_host a) (a_port a)) in *. clearbody auth. rewrite <- !app_assoc.
  match goal with |- context [parseKv (sp ++ a_proto a ++ [61; 34] ++ auth ++ [34] ++ ?r)] => replace (sp ++ a_proto a ++ [61; 34] ++ auth ++ [34] ++ r) with ((sp ++ a_proto a) ++ [61; 34] ++ auth ++ 34 :: r) by (by rewrite <- app_assoc) end.
  rewrite parseKv_quoted by done. rewrite Hkey. unfold entry_of. destruct (a_ma a) as [[n ps]|].
  - destruct Hma as [Hn Hps]. unfold ma_wire. change (bytes_of_string "; ma=") with (59 :: bytes_of_string " ma="). rewrite <- !app_assoc. cbn [app].
    cbn [kv_key kv_value kv_more]. rewrite !bool_decide_false by done. cbn [orb]. rewrite Hsplit. cbn [Z.eqb Pos.eqb negb].
    destruct (parse_ma n ps rest Hn Hps Hr) as (more & err & q & Hp & Hq'). cbn [app] in Hp. rewrite Hp. cbn [kv_key kv_value kv_more].
    destruct (ParseInt_dec n Hn) as (Hpi & _ & Hdne). rewrite !bool_decide_false by (done || tauto). cbn [orb]. rewrite Hpi. destruct more; cbn [negb].
    + destruct Hq' as (err' & q' & -> & Hres). do 2 eexists. split; [done|]. destruct rest; [by left|done].
    + do 2 eexists. split; [done|]. destruct rest; [by right|done].
  - cbn [app]. destruct Hr as [->|[r ->]]; cbn [kv_key kv_value kv_more]; rewrite !bool_decide_false by done; cbn [orb]; rewrite Hsplit; cbn [Z.eqb Pos.eqb negb].
    + do 2 eexists. split; [done|]. by left.
    + by do 2 eexists.
Qed.

Lemma Parse_wire now l : forall sp fuel, sp = [] \/ sp = [32] -> Forall alt_ok l -> l <> [] -> len (sp ++ header_wire l) < Z.of_nat fuel ->
  Parse now fuel (sp ++ header_wire l) = Some (entry_of now <$> l, None).
Proof.
  induction l as [|a l IH]; intros sp fuel Hsp Hok Hne Hf; [done|]. apply Forall_cons in Hok as [Ha Hok]. clear Hne.
  destruct fuel as [|fuel]; [exfalso; pose proof (len_nonneg (sp ++ header_wire (a :: l))); lia|]. cbn [Parse]. destruct l as [|a' l].
  - change (header_wire [a]) with (alt_wire a) in *. destruct (parseOne_alt now sp a [] Hsp Ha ltac:(by left)) as (err & q & Hp & He). rewrite app_nil_r in Hp. rewrite Hp.
    destruct He as [-> | [-> Hcut]]; [done|]. destruct (parseOne_total now (sp ++ alt_wire a)) as (? & ? & q0 & Hp' & _ & _ & Hlt). rewrite Hp in Hp'. injection Hp' as <- <- <-.
    assert (sp ++ alt_wire a <> []) as Hnn by (destruct sp; [|done]; unfold alt_wire; destruct Ha as (? & _); by destruct (a_proto a)). specialize (Hlt Hnn).
    destruct fuel as [|fuel]; [unfold len in Hf; lia|]. cbn [Parse]. unfold parseOne, parseKv. rewrite Hcut. destruct q; cbn [kv_key kv_value]; rewrite (bool_decide_true ([] = [])) by done; [done|]. by rewrite orb_true_r.
  - change (header_wire (a :: a' :: l)) with (alt_wire a ++ [44; 32] ++ header_wire (a' :: l)) in *.
    destruct (parseOne_alt now sp a ([44; 32] ++ header_wire (a' :: l)) Hsp Ha ltac:(right; by eexists)) as (err & q & Hp & -> & ->). rewrite Hp.
    change (32 :: header_wire (a' :: l)) with ([32] ++ header_wire (a' :: l)). rewrite IH; [done|by right|done|done|].
    repeat (rewrite ?len_app, ?len_cons in Hf). pose proof (len_nonneg sp). pose proof (len_nonneg (alt_wire a)). rewrite len_app. change (len [32]) with 1. change (len [44;32]) with 2 in Hf. unfold len in *. lia.
Qed.

(** An Alt-Svc header written as RFC 7838 says (alternatives [proto="host:port"] separated
    by commas, each with an optional [ma] and parameters after it) is parsed as those
    alternatives, in order: IPv6 hosts without their brackets, the expiry [ma] seconds from
    now in [time.Duration] arithmetic, or the end of time without it. *)
Theorem alt_svc_roundtrip now l : Forall alt_ok l -> l <> [] -> ParseHeader now (header_wire l) = Some (entry_of now <$> l, None).
Proof. intros Hok Hne. apply (Parse_wire now l []); [by left|done|done|]. cbn [app]. unfold len. lia. Qed.
(** Parsing terminates on every header, with the alternatives read before an error. *)
Theorem ParseHeader_total now p : exists l err, ParseHeader now p = Some (l, err).
Proof. destruct (Parse_total now (S (length p)) p) as ([l err] & H); [lia|]. by exists l, err. Qed.

(** ** Examples *)
Definition google : alternative := mkAlt (bytes_of_string "h3") [] (bytes_of_string "443") (Some (86400, [(bytes_of_string "persist", bytes_of_string "1")])).
Definition ipv6_alt : alternative := mkAlt (bytes_of_string "h3-29") (bytes_of_string "2001:db8::1") (bytes_of_string "8443") None.
Definition quoted_string (s : string) : bytes := 34 :: bytes_of_string s ++ [34].
Lemma google_ok : Forall alt_ok [google; ipv6_alt].
Proof. repeat constructor; done. Qed.
Example header_example : header_wire [google; ipv6_alt]
  = bytes_of_string "h3=" ++ quoted_string ":443" ++ bytes_of_string "; ma=86400;persist=1, h3-29=" ++ quoted_string "[2001:db8::1]:8443".
Proof. reflexivity. Qed.
Lemma alt_svc_roundtrip_witness : ParseHeader 0 (header_wire [google; ipv6_alt]) =
  Some ([mkAltSvc (bytes_of_string "h3") [] (bytes_of_string "443") 86400000000000;
         mkAltSvc (bytes_of_string "h3-29") (bytes_of_string "2001:db8::1") (bytes_of_string "8443") endOfTime], None).
Proof. exact (alt_svc_roundtrip 0 [google; ipv6_alt] google_ok ltac:(done)). Defined.
(** An unknown parameter before [ma] is an error, and the whole header is dropped. *)
Example persist_first : ParseHeader 0 (bytes_of_string "h3=:443; persist=1; ma=60")
  = Some ([mkAltSvc (bytes_of_string "h3") [] (bytes_of_string "443") endOfTime], Some (expectMa (bytes_of_string "persist"))).
Proof. vm_compute. reflexivity. Qed.
(** [ma] in nanoseconds wraps around: the alternative is expired when it arrives. *)
Example huge_ma : (ParseHeader 0 (bytes_of_string "h3=:443; ma=9223372037") ≫= (fun r => head r.1)) = Some (mkAltSvc (bytes_of_string "h3") [] (bytes_of_string "443") (-9223372036709551616)).
Proof. vm_compute. reflexivity. Qed.

(** ** The URL of an alternative *)
Section Convert.
Context (idna_ToASCII : bytes -> option bytes).

(** With a port in the authority, the alternative's host and port take the place of the
    authority's, where it has them. *)
Lemma ConvertURL_ok a scheme host port : (forall h, idna_ToASCII h = None \/ idna_ToASCII h = Some h) ->
  has_byte 91 host = false -> has_byte 93 host = false -> forallb is_digit port = true ->
  has_byte 91 (Host a) = false -> has_byte 93 (Host a) = false -> forallb is_digit (Port a) = true ->
  SplitHostPort (ConvertURL idna_ToASCII a scheme (JoinHostPort host port)) =
    Ok (if bool_decide (Host a <> []) then Host a else host, if bool_decide (Port a <> []) then Port a else port).
Proof.
  intros Hidna Ho Hc Hp Ho' Hc' Hp'. assert (forall p, forallb is_digit p = true -> has_byte 58 p = false /\ has_byte 91 p = false /\ has_byte 93 p = false) as Hd by (intros p Hd; splits; apply digits_no; done || lia).
  destruct (Hd port Hp) as (? & ? & ?), (Hd (Port a) Hp') as (? & ? & ?). unfold ConvertURL, AuthorityHostPort. rewrite SplitHostPort_join by done.
  assert (default host (idna_ToASCII host) = host) as -> by (by destruct (Hidna host) as [-> | ->]).
  set (h := if bool_decide (Host a <> []) then Host a else host). set (p := if bool_decide (Port a <> []) then Port a else port).
  assert (SplitHostPort (JoinHostPort h p) = Ok (h, p)) as Hj by (unfold h, p; repeat case_bool_decide; by rewrite SplitHostPort_join).
  destruct (_ || _) eqn:Em; [done|]. apply orb_false_iff in Em as [Eh Ep]. assert (h = host /\ p = port) as [-> ->]; [|done].
  unfold h, p. repeat case_bool_decide; split; try done; apply dec_stable; done.
Qed.
(** Without a port, the brackets of an IPv6 authority are doubled. *)
Lemma ConvertURL_ipv6 scheme addr port expire : idna_ToASCII (91 :: addr ++ [93]) = Some (91 :: addr ++ [93]) -> has_byte 58 addr = true -> has_byte 93 addr = false ->
  port <> [] -> port <> bytes_of_string "443" -> port <> bytes_of_string "80" ->
  ConvertURL idna_ToASCII (mkAltSvc (bytes_of_string "h3") [] port expire) scheme (91 :: addr ++ [93]) = [91; 91] ++ addr ++ [93; 93; 58] ++ port.
Proof.
  intros Hidna Hcol Hc Hp H443 H80. unfold ConvertURL, AuthorityHostPort. destruct (SplitHostPort_no_port addr Hc Hcol) as [e ->]. rewrite Hidna. cbn [default Host Port].
  rewrite bool_decide_false by tauto. rewrite (bool_decide_true (port <> [])) by done. cbn [andb orb]. rewrite bool_decide_true by (by destruct (String.eqb scheme "http")).
  unfold id, JoinHostPort. rewrite has_byte_cons, has_byte_app, Hcol. cbn. by rewrite <- app_assoc.
Qed.
End Convert.

(** ** The jar *)
Lemma jar_get_set now j addr a : addr <> [] -> GetAltSvc now (SetAltSvc j addr a) addr = if Expire a <? now then (None, delete addr j) else (Some a, <[addr := a]> j).
Proof. intros Hne. destruct addr as [|b p]; [done|]. unfold SetAltSvc, GetAltSvc. rewrite lookup_insert_eq. destruct (_ <? _); [|done]. by rewrite delete_insert_eq. Qed.
