(* ===== verification/AltSvcUse.v ===== *)
(** * Using alternatives ([src/transport.go]: [handleAltSvc], [handlePendingAltSvc], [checkAltSvc])

    The state the transport keeps about alternatives, and its steps: a response
    announces some, a goroutine tries to connect to them, requests use them. A request
    that uses a pending alternative holds its mutex from [UseStart] to [UseEnd]; the
    sections under [pendingAltSvcsMu] and the jar's lock are single steps, as is the
    loop over the entries of a goroutine. HTTP/3 is enabled. *)

From S2P Require Import Prelude.
From S2P Require Import H2Errors.
From S2P Require Import NetText.
From S2P Require Import NetAddr.
From S2P Require Import AltSvc.

Definition h3 : bytes := bytes_of_string "h3".
Definition allowedProtocols (p : bytes) : bool := bool_decide (p = h3).

Record pendingAltSvc := mkPending { CurrentIndex : nat; Entries : list AltSvc; p_Transport : bool }.
(** A request between reading [pas.Transport] and the lock, holding the lock with the
    round trip in progress, or using an entry of the jar. *)
Inductive use := UWaiting (pid : nat) | UPending (pid : nat) (a : AltSvc) | UJar (a : AltSvc).
Record request := mkUse { us_addr : bytes; us_scheme : string; us_host : bytes; us_use : use }.
Record altState := mkAltState {
  altSvcJar : gmap bytes AltSvc; pendingAltSvcs : gmap bytes nat; pas : gmap nat pendingAltSvc; http3AltSvcFails : gmap bytes Z;
  goroutines : gmap nat (bytes * string * bytes * nat); requests : gmap nat request; fresh : nat }.
Definition set_jar (s : altState) j := mkAltState j (pendingAltSvcs s) (pas s) (http3AltSvcFails s) (goroutines s) (requests s) (fresh s).
Definition set_pending (s : altState) p := mkAltState (altSvcJar s) p (pas s) (http3AltSvcFails s) (goroutines s) (requests s) (fresh s).
Definition set_pas (s : altState) pid p := mkAltState (altSvcJar s) (pendingAltSvcs s) (<[pid := p]> (pas s)) (http3AltSvcFails s) (goroutines s) (requests s) (fresh s).
Definition set_fails (s : altState) f := mkAltState (altSvcJar s) (pendingAltSvcs s) (pas s) f (goroutines s) (requests s) (fresh s).
Definition set_goroutines (s : altState) g := mkAltState (altSvcJar s) (pendingAltSvcs s) (pas s) (http3AltSvcFails s) g (requests s) (fresh s).
Definition set_requests (s : altState) r := mkAltState (altSvcJar s) (pendingAltSvcs s) (pas s) (http3AltSvcFails s) (goroutines s) r (fresh s).
Definition next (s : altState) := mkAltState (altSvcJar s) (pendingAltSvcs s) (pas s) (http3AltSvcFails s) (goroutines s) (requests s) (S (fresh s)).
Definition alt_init : altState := mkAltState ∅ ∅ ∅ ∅ ∅ ∅ 0.

Section Use.
(** [idna.ToASCII]; the options [http3AltSvcFailureCooldown] and [http3FallbackOnFailure]. *)
Context (idna_ToASCII : bytes -> option bytes) (FailureCooldown : Z) (FallbackOnFailure : bool).

Definition defaultHTTP3AltSvcFailureCooldown : Z := 30 * 1000000000.
Definition cooldownDuration : Z :=
  if FailureCooldown <? 0 then 0 else if FailureCooldown =? 0 then defaultHTTP3AltSvcFailureCooldown else FailureCooldown.
Definition isHTTP3AltSvcCoolingDown (now : Z) (s : altState) (addr : bytes) : bool * altState :=
  if (cooldownDuration <=? 0) || bool_decide (addr = []) then (false, s)
  else match http3AltSvcFails s !! addr with
       | None => (false, s)
       | Some until => if now <? until then (true, s) else (false, set_fails s (delete addr (http3AltSvcFails s)))
       end.
Definition markHTTP3AltSvcFailure (now : Z) (s : altState) (addr : bytes) : altState :=
  if (cooldownDuration <=? 0) || bool_decide (addr = []) then s
  else set_pending (set_fails s (<[addr := now + cooldownDuration]> (http3AltSvcFails s))) (delete addr (pendingAltSvcs s)).
Definition clearHTTP3AltSvcFailure (s : altState) (addr : bytes) : altState :=
  if bool_decide (addr = []) then s else set_fails s (delete addr (http3AltSvcFails s)).
Definition jar_get (now : Z) (s : altState) (addr : bytes) : option AltSvc * altState :=
  let '(a, j) := GetAltSvc now (altSvcJar s) addr in (a, set_jar s j).
Definition key_of (scheme : string) (host : bytes) : bytes := AuthorityKey idna_ToASCII scheme host.
(** [go t.handlePendingAltSvc(u, pas)] *)
Definition start (s : altState) (scheme : string) (host : bytes) (pid : nat) : altState :=
  next (set_goroutines s (<[fresh s := (key_of scheme host, scheme, host, pid)]> (goroutines s))).

(** A response with an Alt-Svc header. *)
Definition handleAltSvc (now : Z) (s : altState) (scheme : string) (host value : bytes) : altState :=
  let addr := key_of scheme host in
  let '(cooling, s) := isHTTP3AltSvcCoolingDown now s addr in
  if cooling then s else
  let '(as_, s) := jar_get now s addr in
  match as_ with
  | Some _ => s
  | None =>
      match pendingAltSvcs s !! addr with
      | Some _ => s
      | None =>
          match ParseHeader now value with
          | Some (ass, None) =>
              match filter (fun a => allowedProtocols (Protocol a) = true) ass with
              | [] => s
              | entries =>
                  let pid := fresh s in
                  let s := next (set_pas s pid (mkPending 0 entries false)) in
                  start (set_pending s (<[addr := pid]> (pendingAltSvcs s))) scheme host pid
              end
          | _ => s
          end
      end
  end.

(** The goroutine's loop: the first entry that [AddConn] connects to. *)
Fixpoint connect (AddConn : bytes -> bool) (scheme : string) (host : bytes) (entries : list AltSvc) (i : nat) : option nat :=
  match entries with
  | [] => None
  | a :: entries =>
      if bool_decide (Protocol a = h3) && AddConn (ConvertURL idna_ToASCII a scheme host) then Some i
      else connect AddConn scheme host entries (S i)
  end.
Definition handlePendingAltSvc (now : Z) (s : altState) (AddConn : bytes -> bool) (addr : bytes) (scheme : string) (host : bytes) (pid : nat) : altState :=
  match pas s !! pid with
  | None => s
  | Some p =>
      match connect AddConn scheme host (drop (CurrentIndex p) (Entries p)) (CurrentIndex p) with
      | Some i => clearHTTP3AltSvcFailure (set_pas s pid (mkPending i (Entries p) true)) addr
      | None => markHTTP3AltSvcFailure now s addr
      end
  end.

(** [roundTripHTTP3AltSvc] with the outcome of the HTTP/3 round trip, whether its error
    allows a fall-back, whether the body could be rewound, and the outcome of
    [roundTripWithoutHTTP3]: the response or error, and [usedAltSvc]. *)
Record outcome (R : Type) := mkOutcome { o_h3 : result error R; o_fallback : bool; o_rewound : bool; o_plain : result error R }.
Arguments o_h3 {R}. Arguments o_fallback {R}. Arguments o_rewound {R}. Arguments o_plain {R}.
Definition roundTripHTTP3AltSvc {R} (now : Z) (s : altState) (addr : bytes) (o : outcome R) : result error R * bool * altState :=
  if negb FallbackOnFailure then
    match o_h3 o with Ok r => (Ok r, true, clearHTTP3AltSvcFailure s addr) | Err e => (Err e, false, s) end
  else
    match o_h3 o with
    | Ok r => (Ok r, true, clearHTTP3AltSvcFailure s addr)
    | Err e =>
        let s := markHTTP3AltSvcFailure now s addr in
        if negb (o_fallback o) then (Err e, false, s)
        else if negb (o_rewound o) then (Err e, false, s)
        else (o_plain o, false, s)
    end.
(** By protocol; [None] is the panic for an unknown one. HTTP/2 alternatives use the
    outcome [o_h3] for their round trip. *)
Definition roundTripAltSvc {R} (now : Z) (s : altState) (addr : bytes) (a : AltSvc) (o : outcome R) : option (result error R * bool * altState) :=
  if bool_decide (Protocol a = h3) then Some (roundTripHTTP3AltSvc now s addr o)
  else if bool_decide (Protocol a = bytes_of_string "h2") then
    Some (o_h3 o, match o_h3 o with Ok _ => true | Err _ => false end, s)
  else None.

(** [checkAltSvc] up to the round trip: the use, if any; nil otherwise, and the caller
    goes on as without alternatives. *)
Definition checkAltSvc_start (now : Z) (s : altState) (scheme : string) (host : bytes) : option use * altState :=
  let addr := key_of scheme host in
  let '(cooling, s) := isHTTP3AltSvcCoolingDown now s addr in
  if cooling then (None, s) else
  match pendingAltSvcs s !! addr ≫= (fun pid => p ← pas s !! pid; if p_Transport p then Some pid else None) with
  | Some pid => (Some (UWaiting pid), s)
  | None => match jar_get now s addr with (Some a, s) => (Some (UJar a), s) | (None, s) => (None, s) end
  end.
(** Under [pas.Mu]: the transport is looked at again; [None] is an index out of range. *)
Definition checkAltSvc_lock (s : altState) (pid : nat) : option (option use) :=
  match pas s !! pid with
  | None => None
  | Some p =>
      if p_Transport p then match Entries p !! CurrentIndex p with Some a => Some (Some (UPending pid a)) | None => None end
      else Some None
  end.
Definition locked (s : altState) (pid : nat) : Prop := exists r q a, requests s !! r = Some q /\ us_use q = UPending pid a.
(** The rest of [checkAltSvc] for a pending alternative. *)
Definition checkAltSvc_end {R} (now : Z) (s : altState) (q : request) (pid : nat) (a : AltSvc) (o : outcome R) : option (result error R * altState) :=
  match roundTripAltSvc now s (us_addr q) a o with
  | None => None
  | Some (res, used, s) =>
      match pas s !! pid with
      | None => None
      | Some p =>
          match res with
          | Err _ =>
              let s := set_pas s pid (mkPending (CurrentIndex p) (Entries p) false) in
              if (S (CurrentIndex p) <? length (Entries p))%nat
              then Some (res, start (set_pas s pid (mkPending (S (CurrentIndex p)) (Entries p) false)) (us_scheme q) (us_host q) pid)
              else Some (res, s)
          | Ok _ =>
              if used then
                match Entries p !! CurrentIndex p with
                | None => None
                | Some e => Some (res, set_pending (set_jar s (SetAltSvc (altSvcJar s) (us_addr q) e)) (delete (us_addr q) (pendingAltSvcs s)))
                end
              else Some (res, set_pas s pid (mkPending (CurrentIndex p) (Entries p) false))
          end
      end
  end.

Inductive alt_step : altState -> altState -> Prop :=
| SResponse s now scheme host value : alt_step s (handleAltSvc now s scheme host value)
| SConnect s now g addr scheme host pid AddConn : goroutines s !! g = Some (addr, scheme, host, pid) ->
    alt_step s (let s := handlePendingAltSvc now s AddConn addr scheme host pid in set_goroutines s (delete g (goroutines s)))
| SRequest s now r scheme host u s' : requests s !! r = None -> checkAltSvc_start now s scheme host = (Some u, s') ->
    alt_step s (set_requests s' (<[r := mkUse (key_of scheme host) scheme host u]> (requests s')))
| SSkip s now scheme host s' : checkAltSvc_start now s scheme host = (None, s') -> alt_step s s'
| SLock s r q pid u : requests s !! r = Some q -> us_use q = UWaiting pid -> ~ locked s pid -> checkAltSvc_lock s pid = Some (Some u) ->
    alt_step s (set_requests s (<[r := mkUse (us_addr q) (us_scheme q) (us_host q) u]> (requests s)))
| SLockGone s r q pid : requests s !! r = Some q -> us_use q = UWaiting pid -> ~ locked s pid -> checkAltSvc_lock s pid = Some None ->
    alt_step s (set_requests s (delete r (requests s)))
| SEndPending s now r q pid a (o : outcome unit) res s' : requests s !! r = Some q -> us_use q = UPending pid a -> checkAltSvc_end now s q pid a o = Some (res, s') ->
    alt_step s (set_requests s' (delete r (requests s')))
| SEndJar s now r q a (o : outcome unit) res used s' : requests s !! r = Some q -> us_use q = UJar a -> roundTripAltSvc now s (us_addr q) a o = Some (res, used, s') ->
    alt_step s (set_requests s' (delete r (requests s'))).
Definition alt_reachable (s : altState) : Prop := rtc alt_step alt_init s.

(** ** The invariant: only HTTP/3 alternatives, indices in bounds *)
Definition is_h3 (a : AltSvc) : Prop := Protocol a = h3.
Definition pending_ok (p : pendingAltSvc) : Prop := Forall is_h3 (Entries p) /\ (CurrentIndex p < length (Entries p))%nat.
Definition use_ok (m : gmap nat pendingAltSvc) (u : use) : Prop :=
  match u with UWaiting pid => is_Some (m !! pid) | UPending pid a => is_Some (m !! pid) /\ is_h3 a | UJar a => is_h3 a end.
Record alt_inv (s : altState) : Prop := {
  ai_jar : map_Forall (fun _ a => is_h3 a) (altSvcJar s);
  ai_pas : map_Forall (fun pid p => pending_ok p /\ (pid < fresh s)%nat) (pas s);
  ai_pending : map_Forall (fun _ pid => is_Some (pas s !! pid)) (pendingAltSvcs s);
  ai_go : map_Forall (fun _ g => is_Some (pas s !! g.2)) (goroutines s);
  ai_requests : map_Forall (fun _ q => use_ok (pas s) (us_use q) /\ us_addr q = key_of (us_scheme q) (us_host q)) (requests s) }.

Lemma alt_inv_init : alt_inv alt_init.
Proof. constructor; apply map_Forall_empty. Qed.
Lemma insert_some {A} (m : gmap nat A) pid x y : is_Some (m !! y) -> is_Some (<[pid := x]> m !! y).
Proof. intros Hy. destruct (decide (pid = y)) as [->|]; [rewrite lookup_insert_eq; by eexists|by rewrite lookup_insert_ne]. Qed.
Lemma use_ok_insert m pid p u : use_ok m u -> use_ok (<[pid := p]> m) u.
Proof. destruct u; cbn; intuition auto using insert_some. Qed.

(** The parts of the state a helper may change. *)
Definition same_but_caches (s s' : altState) : Prop :=
  pas s' = pas s /\ goroutines s' = goroutines s /\ requests s' = requests s /\ fresh s' = fresh s /\
  altSvcJar s' ⊆ altSvcJar s /\ pendingAltSvcs s' ⊆ pendingAltSvcs s.
Lemma caches_inv s s' : same_but_caches s s' -> alt_inv s -> alt_inv s'.
Proof.
  intros (E1 & E2 & E3 & E4 & Hj & Hp) []. constructor; rewrite ?E1, ?E2, ?E3, ?E4; try done; intros k x Hk; [eapply ai_jar0|eapply ai_pending0]; by eapply lookup_weaken.
Qed.
Lemma same_refl s : same_but_caches s s.
Proof. unfold same_but_caches. by splits. Qed.
Lemma same_trans s1 s2 s3 : same_but_caches s1 s2 -> same_but_caches s2 s3 -> same_but_caches s1 s3.
Proof. unfold same_but_caches. intros (? & ? & ? & ? & ? & ?) (? & ? & ? & ? & ? & ?). splits; try congruence; etrans; eassumption. Qed.
Lemma cooling_same now s addr : same_but_caches s (isHTTP3AltSvcCoolingDown now s addr).2.
Proof. unfold same_but_caches, isHTTP3AltSvcCoolingDown. repeat case_match; by splits. Qed.
Lemma mark_same now s addr : same_but_caches s (markHTTP3AltSvcFailure now s addr).
Proof. unfold same_but_caches, markHTTP3AltSvcFailure. case_match; [by splits|]. splits; try done. cbn. apply delete_subseteq. Qed.
Lemma clear_same s addr : same_but_caches s (clearHTTP3AltSvcFailure s addr).
Proof. unfold same_but_caches, clearHTTP3AltSvcFailure. case_match; by splits. Qed.
Lemma jar_get_same now s addr : same_but_caches s (jar_get now s addr).2.
Proof. unfold same_but_caches, jar_get, GetAltSvc. repeat case_match; simplify_eq; splits; try done. cbn. apply delete_subseteq. Qed.
Lemma jar_get_h3 now s addr a : alt_inv s -> (jar_get now s addr).1 = Some a -> is_h3 a /\ altSvcJar s !! addr = Some a.
Proof. unfold jar_get, GetAltSvc. intros Hi. repeat case_match; simplify_eq; cbn; try done. intros [= ->]. split; [|done]. by eapply (ai_jar s Hi). Qed.
Create HintDb alt.
#[local] Hint Resolve same_refl cooling_same mark_same clear_same jar_get_same : alt.
Lemma round_same {R} now s addr a (o : outcome R) res used s' : roundTripAltSvc now s addr a o = Some (res, used, s') -> same_but_caches s s'.
Proof. unfold roundTripAltSvc, roundTripHTTP3AltSvc. repeat case_match; intros; simplify_eq; auto with alt. Qed.
Lemma connect_spec AddConn scheme host es : forall i j, connect AddConn scheme host es i = Some j -> (i <= j < i + length es)%nat.
Proof. induction es as [|a es IH]; intros i j; cbn; [done|]. destruct (_ && _); [intros [= <-]; lia|]. intros Hc%IH. lia. Qed.
Lemma inv_set_pas s pid p : alt_inv s -> pending_ok p -> (pid < fresh s)%nat -> alt_inv (set_pas s pid p).
Proof.
  intros [] Hp Hlt. constructor; cbn; try done.
  - by apply map_Forall_insert_2.
  - intros k x Hk. by apply insert_some, (ai_pending0 k).
  - intros k x Hk. by apply insert_some, (ai_go0 k).
  - intros k x Hk. destruct (ai_requests0 k x Hk). split; [by apply use_ok_insert|done].
Qed.
Lemma inv_start s scheme host pid : alt_inv s -> is_Some (pas s !! pid) -> alt_inv (start s scheme host pid).
Proof.
  intros [] Hp. constructor; cbn; try done; [|by apply map_Forall_insert_2].
  intros k x Hk. destruct (ai_pas0 k x Hk). split; [done|lia].
Qed.

Lemma inv_del_request s r : alt_inv s -> alt_inv (set_requests s (delete r (requests s))).
Proof. intros []. constructor; cbn; try done. by apply map_Forall_delete. Qed.
Lemma inv_set_request s r q : alt_inv s -> use_ok (pas s) (us_use q) -> us_addr q = key_of (us_scheme q) (us_host q) -> alt_inv (set_requests s (<[r := q]> (requests s))).
Proof. intros [] Hu Ha. constructor; cbn; try done. by apply map_Forall_insert_2. Qed.
Lemma inv_handleAltSvc now s scheme host value : alt_inv s -> alt_inv (handleAltSvc now s scheme host value).
Proof.
  intros Hi. unfold handleAltSvc. set (addr := key_of scheme host). pose proof (cooling_same now s addr) as Hc. destruct (isHTTP3AltSvcCoolingDown now s addr) as [[] s1]; cbn in Hc; [by eapply caches_inv|].
  pose proof (jar_get_same now s1 addr) as Hj. destruct (jar_get now s1 addr) as [[a|] s2]; cbn in Hj; (assert (alt_inv s2) as Hi2 by (eapply caches_inv; [exact Hj|]; by eapply caches_inv)); [done|].
  destruct (pendingAltSvcs s2 !! addr); [done|]. destruct (ParseHeader now value) as [[ass [e|]]|]; [done| |done].
  destruct (filter _ ass) as [|a es] eqn:Ef; [done|].
  assert (Forall is_h3 (a :: es)) as Hh3.
  { rewrite <- Ef. apply Forall_forall. intros x Hx. apply list_elem_of_filter in Hx as [Hx _]. unfold allowedProtocols in Hx. by apply bool_decide_eq_true in Hx. }
  apply inv_start; [|cbn; rewrite lookup_insert_eq; by eexists].
  destruct Hi2. constructor; cbn; try done.
  - apply map_Forall_insert_2; [split; [split; [done|cbn; lia]|lia]|]. intros k x Hk. destruct (ai_pas0 k x Hk). split; [done|lia].
  - apply map_Forall_insert_2; [rewrite lookup_insert_eq; by eexists|]. intros k x Hk. by apply insert_some, (ai_pending0 k).
  - intros k x Hk. by apply insert_some, (ai_go0 k).
  - intros k x Hk. destruct (ai_requests0 k x Hk). split; [by apply use_ok_insert|done].
Qed.
Lemma inv_connect now s AddConn addr scheme host pid : alt_inv s -> alt_inv (handlePendingAltSvc now s AddConn addr scheme host pid).
Proof.
  intros Hi. unfold handlePendingAltSvc. destruct (pas s !! pid) as [p|] eqn:Ep; [|done]. destruct (ai_pas s Hi pid p Ep) as [[Hh3 Hlt] Hf].
  destruct (connect _ _ _ _ _) as [i|] eqn:Ec; [|eapply caches_inv; [apply mark_same|done]]. apply connect_spec in Ec. rewrite length_drop in Ec.
  eapply caches_inv; [apply clear_same|]. apply inv_set_pas; [done| |done]. split; cbn; [done|lia].
Qed.
Lemma inv_end {R} now s q pid a (o : outcome R) res s' : alt_inv s -> checkAltSvc_end now s q pid a o = Some (res, s') -> us_addr q = key_of (us_scheme q) (us_host q) -> alt_inv s'.
Proof.
  unfold checkAltSvc_end. intros Hi He Ha. destruct (roundTripAltSvc now s (us_addr q) a o) as [[[res0 used] s1]|] eqn:Er; [|done].
  pose proof (caches_inv _ _ (round_same _ _ _ _ _ _ _ _ Er) Hi) as Hi1. destruct (pas s1 !! pid) as [p|] eqn:Ep; [|done]. destruct (ai_pas s1 Hi1 pid p Ep) as [[Hh3 Hlt] Hf].
  assert (alt_inv (set_pas s1 pid (mkPending (CurrentIndex p) (Entries p) false))) as Hoff by (by apply inv_set_pas).
  destruct res0 as [r|e].
  - destruct used; [|by injection He as <- <-]. destruct (Entries p !! CurrentIndex p) as [x|] eqn:Ex; [|done]. injection He as <- <-.
    rewrite Forall_lookup in Hh3. specialize (Hh3 _ _ Ex). destruct Hi1. constructor; cbn; try done; [|by apply map_Forall_delete].
    unfold SetAltSvc. destruct (us_addr q); [done|]. by apply map_Forall_insert_2.
  - destruct (Nat.ltb_spec (S (CurrentIndex p)) (length (Entries p))) as [Hn|]; injection He as <- <-; [|done].
    apply inv_start; [|cbn; rewrite lookup_insert_eq; by eexists]. apply inv_set_pas; [done|by split|done].
Qed.
Lemma start_same now s scheme host : same_but_caches s (checkAltSvc_start now s scheme host).2.
Proof.
  unfold checkAltSvc_start. set (addr := key_of scheme host). pose proof (cooling_same now s addr) as Hc. destruct (isHTTP3AltSvcCoolingDown now s addr) as [[] s1]; cbn in Hc; [done|].
  destruct (_ ≫= _); [done|]. pose proof (jar_get_same now s1 addr) as Hj. destruct (jar_get now s1 addr) as [[a|] s2]; cbn in *; by eapply same_trans.
Qed.
Lemma start_use_ok now s scheme host u s' : alt_inv s -> checkAltSvc_start now s scheme host = (Some u, s') -> use_ok (pas s') u.
Proof.
  intros Hi. unfold checkAltSvc_start. set (addr := key_of scheme host). pose proof (cooling_same now s addr) as Hc. destruct (isHTTP3AltSvcCoolingDown now s addr) as [[] s1]; cbn in Hc; [done|].
  pose proof (caches_inv _ _ Hc Hi) as Hi1. destruct (pendingAltSvcs s1 !! addr) as [pid|] eqn:Ep; cbn.
  - pose proof (ai_pending s1 Hi1 addr pid Ep) as [p Hp]. rewrite Hp. cbn. destruct (p_Transport p); [intros [= <- <-]; by eexists|].
    pose proof (fun a => jar_get_h3 now s1 addr a Hi1) as Hj. destruct (jar_get now s1 addr) as [[a|] s2]; intros [= <- <-]. by apply Hj.
  - pose proof (fun a => jar_get_h3 now s1 addr a Hi1) as Hj. destruct (jar_get now s1 addr) as [[a|] s2]; intros [= <- <-]. by apply Hj.
Qed.
Lemma alt_inv_step s s' : alt_inv s -> alt_step s s' -> alt_inv s'.
Proof.
  intros Hi Hst. revert Hi. destruct Hst; intros Hi.
  - by apply inv_handleAltSvc.
  - destruct (inv_connect now s AddConn addr scheme host pid Hi). constructor; cbn; try done. by apply map_Forall_delete.
  - pose proof (start_same now s scheme host) as Hs. rewrite H0 in Hs. apply inv_set_request; [by eapply caches_inv|by eapply start_use_ok|done].
  - pose proof (start_same now s scheme host) as Hs. rewrite H in Hs. by eapply caches_inv.
  - destruct (ai_requests _ Hi r q H) as [Hu Ha]. rewrite H0 in Hu. apply inv_set_request; [done| |done]. unfold checkAltSvc_lock in H2.
    destruct (pas s !! pid) as [p|] eqn:Ep; [|done]. destruct (p_Transport p); [|done]. destruct (Entries p !! CurrentIndex p) as [a|] eqn:Ea; [|done]. injection H2 as <-.
    split; [done|]. destruct (ai_pas _ Hi pid p Ep) as [[Hh3 _] _]. rewrite Forall_lookup in Hh3. by eapply Hh3.
  - by apply inv_del_request.
  - destruct (ai_requests _ Hi r q H) as [_ Ha]. apply inv_del_request. by eapply inv_end.
  - apply inv_del_request. eapply caches_inv; [by eapply round_same|done].
Qed.
Lemma alt_reachable_inv s : alt_reachable s -> alt_inv s.
Proof. intros H. assert (forall x y, rtc alt_step x y -> alt_inv x -> alt_inv y) as Hr by (induction 1; eauto using alt_inv_step). eapply Hr; [exact H|apply alt_inv_init]. Qed.

(** C23: Whatever servers announce and however responses, connection attempts and requests
    interleave, the use of alternatives does not panic: only HTTP/3 ones are kept, no index
    is out of range, and every request that waits or is under way can go on. *)
Theorem alternatives_never_panic s : alt_reachable s -> forall r q, requests s !! r = Some q ->
  match us_use q with
  | UWaiting pid => checkAltSvc_lock s pid <> None
  | UPending pid a => is_h3 a /\ forall now (o : outcome unit), is_Some (checkAltSvc_end now s q pid a o)
  | UJar a => is_h3 a /\ forall now (o : outcome unit), is_Some (roundTripAltSvc now s (us_addr q) a o)
  end.
Proof.
  intros Hr r q Hq. pose proof (alt_reachable_inv s Hr) as Hi. destruct (ai_requests s Hi r q Hq) as [Hu _]. destruct (us_use q) as [pid|pid a|a]; cbn in Hu.
  - unfold checkAltSvc_lock. destruct Hu as [p Hp]. rewrite Hp. destruct (p_Transport p); [|done]. destruct (ai_pas s Hi pid p Hp) as [[_ Hlt] _].
    apply lookup_lt_is_Some in Hlt as [a ->]. done.
  - destruct Hu as [[p Hp] Ha]. split; [done|]. intros now o. unfold checkAltSvc_end. destruct (roundTripAltSvc now s (us_addr q) a o) as [[[res used] s1]|] eqn:Er.
    + pose proof (round_same _ _ _ _ _ _ _ _ Er) as (Hpas & _). rewrite Hpas, Hp. destruct (ai_pas s Hi pid p Hp) as [[_ Hlt] _]. apply lookup_lt_is_Some in Hlt as [x Hx]. rewrite Hx.
      destruct res; [destruct used; by eexists|]. destruct (_ <? _)%nat; by eexists.
    + unfold roundTripAltSvc in Er. unfold is_h3 in Ha. by rewrite bool_decide_true in Er.
  - split; [done|]. intros now o. unfold roundTripAltSvc. unfold is_h3 in Hu. rewrite bool_decide_true by done. by eexists.
Qed.

(** ** An alternative that failed once *)
(** The entry pending for [addr] has no transport, and nothing is under way that could
    give it one or take it away. *)
Definition use_elsewhere (addr : bytes) (pid : nat) (q : request) : Prop :=
  match us_use q with UPending pid' _ => us_addr q <> addr /\ pid' <> pid | UWaiting pid' => us_addr q = addr -> pid' = pid | UJar _ => True end.
Record abandoned (addr : bytes) (pid : nat) (s : altState) : Prop := {
  ab_pending : pendingAltSvcs s !! addr = Some pid;
  ab_off : exists p, pas s !! pid = Some p /\ p_Transport p = false;
  ab_jar : altSvcJar s !! addr = None;
  ab_go : map_Forall (fun _ g => g.1.1.1 <> addr /\ g.2 <> pid) (goroutines s);
  ab_requests : map_Forall (fun _ q => use_elsewhere addr pid q) (requests s) }.

Definition keeps_pending (s s' : altState) : Prop := same_but_caches s s' /\ pendingAltSvcs s' = pendingAltSvcs s.
Lemma keeps_abandoned addr pid s s' : keeps_pending s s' -> abandoned addr pid s -> abandoned addr pid s'.
Proof.
  intros [(E1 & E2 & E3 & E4 & Hj & _) E5] []. constructor; rewrite ?E1, ?E2, ?E3, ?E5; try done. by eapply lookup_weaken_None.
Qed.
Lemma cooling_keeps now s addr : keeps_pending s (isHTTP3AltSvcCoolingDown now s addr).2.
Proof. split; [apply cooling_same|]. unfold isHTTP3AltSvcCoolingDown. by repeat case_match. Qed.
Lemma clear_keeps s addr : keeps_pending s (clearHTTP3AltSvcFailure s addr).
Proof. split; [apply clear_same|]. unfold clearHTTP3AltSvcFailure. by case_match. Qed.
Lemma jar_get_keeps now s addr : keeps_pending s (jar_get now s addr).2.
Proof. split; [apply jar_get_same|]. unfold jar_get. by destruct (GetAltSvc now (altSvcJar s) addr). Qed.
Lemma keeps_trans s1 s2 s3 : keeps_pending s1 s2 -> keeps_pending s2 s3 -> keeps_pending s1 s3.
Proof. intros [? ?] [? ?]. split; [by eapply same_trans|congruence]. Qed.
Lemma round_keeps {R} now s addr a (o : outcome R) res used s' : FallbackOnFailure = false -> roundTripAltSvc now s addr a o = Some (res, used, s') -> keeps_pending s s'.
Proof.
  intros Hf. unfold roundTripAltSvc, roundTripHTTP3AltSvc. rewrite Hf. repeat case_match; intros; simplify_eq; try apply clear_keeps; split; auto with alt.
Qed.
Lemma start_keeps now s scheme host : keeps_pending s (checkAltSvc_start now s scheme host).2.
Proof.
  unfold checkAltSvc_start. set (addr := key_of scheme host). pose proof (cooling_keeps now s addr) as Hc. destruct (isHTTP3AltSvcCoolingDown now s addr) as [[] s1]; cbn in Hc; [done|].
  destruct (_ ≫= _); [done|]. pose proof (jar_get_keeps now s1 addr) as Hj. destruct (jar_get now s1 addr) as [[a|] s2]; cbn in *; by eapply keeps_trans.
Qed.
(** No request for the address uses an alternative, and no announcement changes it. *)
Lemma abandoned_start now s scheme host pid : abandoned (key_of scheme host) pid s -> (checkAltSvc_start now s scheme host).1 = None.
Proof.
  intros Ha. unfold checkAltSvc_start. set (addr := key_of scheme host) in *. pose proof (cooling_keeps now s addr) as Hc. destruct (isHTTP3AltSvcCoolingDown now s addr) as [[] s1]; cbn in Hc; [done|].
  destruct (keeps_abandoned _ _ _ _ Hc Ha) as [Hp (p & Hp' & Hoff) Hj _ _]. rewrite Hp. cbn. rewrite Hp'. cbn. rewrite Hoff. unfold jar_get, GetAltSvc. destruct addr; [done|]. by rewrite Hj.
Qed.
Lemma abandoned_announced now s scheme host value pid : abandoned (key_of scheme host) pid s -> keeps_pending s (handleAltSvc now s scheme host value).
Proof.
  intros Ha. unfold handleAltSvc. set (addr := key_of scheme host) in *. pose proof (cooling_keeps now s addr) as Hc. destruct (isHTTP3AltSvcCoolingDown now s addr) as [[] s1]; cbn in Hc; [done|].
  pose proof (jar_get_keeps now s1 addr) as Hj. destruct (jar_get now s1 addr) as [[a|] s2]; cbn in Hj; [by eapply keeps_trans|].
  pose proof (keeps_trans _ _ _ Hc Hj) as Hk. by rewrite (ab_pending _ _ _ (keeps_abandoned _ _ _ _ Hk Ha)).
Qed.

Lemma abandoned_other_response now s scheme host value addr pid : alt_inv s -> abandoned addr pid s -> key_of scheme host <> addr -> abandoned addr pid (handleAltSvc now s scheme host value).
Proof.
  intros Hi Ha Hne. unfold handleAltSvc. set (addr' := key_of scheme host) in *. pose proof (cooling_keeps now s addr') as Hc. destruct (isHTTP3AltSvcCoolingDown now s addr') as [[] s1]; cbn in Hc; [by eapply keeps_abandoned|].
  pose proof (jar_get_keeps now s1 addr') as Hj. pose proof (keeps_trans _ _ _ Hc Hj) as Hk. pose proof (keeps_abandoned _ _ _ _ Hk Ha) as Ha2.
  assert (alt_inv (jar_get now s1 addr').2) as Hi2 by (eapply caches_inv; [apply Hk|done]).
  destruct (jar_get now s1 addr') as [[a|] s2]; cbn in Ha2, Hi2; [done|]. destruct (pendingAltSvcs s2 !! addr'); [done|]. destruct (ParseHeader now value) as [[ass [e|]]|]; [done| |done].
  destruct (filter _ ass) as [|a es]; [done|]. destruct Ha2 as [Hp (p & Hp' & Hoff) Hjar Hgo Hreq]. destruct (ai_pas s2 Hi2 pid p Hp') as [_ Hlt].
  constructor; cbn.
  - rewrite lookup_insert_ne by done. done.
  - exists p. rewrite lookup_insert_ne by lia. done.
  - done.
  - apply map_Forall_insert_2; [|done]. split; [done|]. cbn. lia.
  - done.
Qed.
Lemma abandoned_connect now s AddConn addr addr' scheme host pid pid' : abandoned addr pid s -> addr' <> addr -> pid' <> pid -> abandoned addr pid (handlePendingAltSvc now s AddConn addr' scheme host pid').
Proof.
  intros Ha Hne Hpid. unfold handlePendingAltSvc. destruct (pas s !! pid') as [p'|]; [|done]. destruct (connect _ _ _ _ _) as [i|].
  - eapply keeps_abandoned; [apply clear_keeps|]. destruct Ha. constructor; cbn; try done. destruct ab_off0 as (p & ? & ?). exists p. by rewrite lookup_insert_ne.
  - unfold markHTTP3AltSvcFailure. destruct (_ || _); [done|]. destruct Ha. constructor; cbn; try done. by rewrite lookup_delete_ne.
Qed.
Lemma abandoned_end {R} now s q pid' a (o : outcome R) res s' addr pid : FallbackOnFailure = false -> abandoned addr pid s -> checkAltSvc_end now s q pid' a o = Some (res, s') ->
  us_addr q = key_of (us_scheme q) (us_host q) -> us_addr q <> addr -> pid' <> pid -> abandoned addr pid s'.
Proof.
  intros Hf Ha. unfold checkAltSvc_end. destruct (roundTripAltSvc now s (us_addr q) a o) as [[[res0 used] s1]|] eqn:Er; [|done].
  pose proof (keeps_abandoned _ _ _ _ (round_keeps _ _ _ _ _ _ _ _ Hf Er) Ha) as Ha1. intros He Hkey Hne Hpid. destruct (pas s1 !! pid') as [p'|]; [|done].
  assert (forall t x, abandoned addr pid t -> abandoned addr pid (set_pas t pid' x)) as Hset.
  { intros t x Ht. destruct Ht. constructor; cbn; try done. destruct ab_off0 as (p & ? & ?). exists p. by rewrite lookup_insert_ne. }
  destruct res0 as [r|e].
  - destruct used; [|injection He as <- <-; by apply Hset]. destruct (Entries p' !! CurrentIndex p') as [x|]; [|done]. injection He as <- <-.
    destruct Ha1. constructor; cbn; try done; [by rewrite lookup_delete_ne|]. unfold SetAltSvc. destruct (us_addr q); [done|]. by rewrite lookup_insert_ne.
  - destruct (_ <? _)%nat; injection He as <- <-; [|by apply Hset].
    pose proof (Hset _ (mkPending (S (CurrentIndex p')) (Entries p') false) (Hset _ (mkPending (CurrentIndex p') (Entries p') false) Ha1)) as [].
    constructor; cbn; try done. apply map_Forall_insert_2; [|done]. cbn. by rewrite <- Hkey.
Qed.
Lemma abandoned_step s s' addr pid : FallbackOnFailure = false -> alt_inv s -> abandoned addr pid s -> alt_step s s' -> abandoned addr pid s'.
Proof.
  intros Hf Hi Ha Hst. revert Hi Ha. destruct Hst; intros Hi Ha.
  - destruct (decide (key_of scheme host = addr)) as [<-|Hne]; [|by apply abandoned_other_response]. eapply keeps_abandoned; [by eapply abandoned_announced|done].
  - pose proof (ab_go _ _ _ Ha g _ H) as Hg. cbn in Hg. destruct Hg as [Hne Hpid]. destruct (abandoned_connect now s AddConn addr addr0 scheme host pid pid0 Ha Hne Hpid). constructor; cbn; try done. by apply map_Forall_delete.
  - pose proof (start_keeps now s scheme host) as Hk. rewrite H0 in Hk. cbn in Hk. pose proof (keeps_abandoned _ _ _ _ Hk Ha) as [].
    destruct (decide (key_of scheme host = addr)) as [<-|Hne]; [apply (abandoned_start now) in Ha; rewrite H0 in Ha; done|].
    constructor; cbn; try done. apply map_Forall_insert_2; [|done]. unfold use_elsewhere. cbn. destruct u; [done| |done].
    exfalso. clear -H0. unfold checkAltSvc_start in H0. repeat case_match; simplify_eq.
  - pose proof (start_keeps now s scheme host) as Hk. rewrite H in Hk. by eapply keeps_abandoned.
  - pose proof (ab_requests _ _ _ Ha r q H) as Hu. unfold use_elsewhere in Hu. rewrite H0 in Hu. destruct Ha as [Hp (p & Hp' & Hoff) Hj Hgo Hreq]. constructor; cbn; try done; [by eexists|].
    apply map_Forall_insert_2; [|done]. unfold checkAltSvc_lock in H2. destruct (pas s !! pid0) as [p0|] eqn:Ep; [|done]. destruct (p_Transport p0) eqn:Et; [|done].
    destruct (Entries p0 !! CurrentIndex p0); [|done]. injection H2 as <-. unfold use_elsewhere. cbn. assert (pid0 <> pid) as Hpid by congruence. split; [|done]. intros Hq. by apply Hu in Hq.
  - destruct Ha. constructor; cbn; try done. by apply map_Forall_delete.
  - pose proof (ab_requests _ _ _ Ha r q H) as Hu. unfold use_elsewhere in Hu. rewrite H0 in Hu. destruct Hu as [Hne Hpid]. destruct (ai_requests _ Hi r q H) as [_ Hkey].
    destruct (abandoned_end now s q pid0 a o res s' addr pid Hf Ha H1 Hkey Hne Hpid). constructor; cbn; try done. by apply map_Forall_delete.
  - destruct (keeps_abandoned _ _ _ _ (round_keeps _ _ _ _ _ _ _ _ Hf H1) Ha). constructor; cbn; try done. by apply map_Forall_delete.
Qed.

(** Finding. Without the fall-back, an alternative whose request failed, and that had no
    successor, is never used again: its entry stays pending without a transport, so that
    whatever happens no later request to that authority uses HTTP/3 and no later
    announcement of an alternative has an effect. *)
Theorem failed_alternative_abandoned s s' scheme host pid : FallbackOnFailure = false -> alt_reachable s -> abandoned (key_of scheme host) pid s -> rtc alt_step s s' ->
  (forall now, (checkAltSvc_start now s' scheme host).1 = None /\ forall value, pendingAltSvcs (handleAltSvc now s' scheme host value) = pendingAltSvcs s').
Proof.
  intros Hf Hr Ha Hs. assert (abandoned (key_of scheme host) pid s') as Ha'.
  { pose proof (alt_reachable_inv s Hr) as Hi. clear Hr. induction Hs as [|x y z Hxy _ IH]; [done|]. apply IH; [by eapply abandoned_step|by eapply alt_inv_step]. }
  intros now. split; [by eapply abandoned_start|]. intros value. by eapply abandoned_announced.
Qed.

(** With the fall-back, a request whose HTTP/3 round trip failed gets the answer of the
    ordinary transport when its body could be rewound, and until the cool-down is over no
    request to that authority uses an alternative and no announcement is looked at. *)
Theorem failed_alternative_falls_back {R} now s scheme host (o : outcome R) e : FallbackOnFailure = true -> o_h3 o = Err e -> o_fallback o = true -> o_rewound o = true ->
  (exists s', roundTripHTTP3AltSvc now s (key_of scheme host) o = (o_plain o, false, s') /\
   forall now', now' < now + cooldownDuration -> 0 < cooldownDuration ->
     checkAltSvc_start now' s' scheme host = (None, s') /\ forall value, handleAltSvc now' s' scheme host value = s').
Proof.
  intros Hf He Hfb Hrw. exists (markHTTP3AltSvcFailure now s (key_of scheme host)). unfold roundTripHTTP3AltSvc. rewrite Hf, He, Hfb, Hrw. split; [done|].
  intros now' Hnow Hpos. assert (key_of scheme host <> []) as Hne.
  { unfold key_of, AuthorityKey. intros [_ H]%app_nil. by apply app_nil in H as [? _]. }
  assert (isHTTP3AltSvcCoolingDown now' (markHTTP3AltSvcFailure now s (key_of scheme host)) (key_of scheme host) = (true, markHTTP3AltSvcFailure now s (key_of scheme host))) as Hc.
  { unfold isHTTP3AltSvcCoolingDown, markHTTP3AltSvcFailure. rewrite bool_decide_false by done. destruct (Z.leb_spec cooldownDuration 0); [lia|]. cbn.
    rewrite lookup_insert_eq. by rewrite (proj2 (Z.ltb_lt _ _)). }
  unfold checkAltSvc_start, handleAltSvc. by rewrite Hc.
Qed.
End Use.

(** ** One alternative, one failed request *)
Definition ascii_idna (h : bytes) : option bytes := Some h.
Definition site : bytes := bytes_of_string "example.com".
Definition site_key : bytes := key_of ascii_idna "https" site.
Definition announced : altState := handleAltSvc ascii_idna 0 0 alt_init "https" site (bytes_of_string "h3=" ++ quoted_string ":443" ++ bytes_of_string "; ma=60").
Definition connected : altState :=
  let s := handlePendingAltSvc ascii_idna 0 0 announced (fun _ => true) site_key "https" site 0 in set_goroutines s (delete 1%nat (goroutines s)).
Definition used (u : use) (s : altState) : altState := set_requests s (<[0%nat := mkUse site_key "https" site u]> (requests s)).
Definition h3_entry : AltSvc := mkAltSvc h3 [] (bytes_of_string "443") 60000000000.
Definition refused : outcome unit := mkOutcome unit (Err (errors_New "timeout: no recent network activity")) true true (Ok tt).
Definition after_failure : altState :=
  match checkAltSvc_end ascii_idna 0 false 5 (used (UPending 0 h3_entry) connected) (mkUse site_key "https" site (UPending 0 h3_entry)) 0 h3_entry refused with
  | Some (_, s) => set_requests s (delete 0%nat (requests s)) | None => alt_init end.
Lemma in_use_reachable : alt_reachable ascii_idna 0 false (used (UPending 0 h3_entry) connected).
Proof.
  eapply rtc_l; [apply (SResponse _ _ _ alt_init 0 "https" site (bytes_of_string "h3=" ++ quoted_string ":443" ++ bytes_of_string "; ma=60"))|]. change (handleAltSvc _ _ _ _ _ _ _) with announced.
  eapply rtc_l; [apply (SConnect _ _ _ announced 0 1%nat site_key "https" site 0%nat (fun _ => true)); vm_compute; reflexivity|]. change (let s := _ in set_goroutines s _) with connected.
  eapply rtc_l; [apply (SRequest _ _ _ connected 1 0%nat "https" site (UWaiting 0) connected); [reflexivity|vm_compute; reflexivity]|]. change (set_requests connected _) with (used (UWaiting 0) connected).
  eapply rtc_l; [apply (SLock _ _ _ (used (UWaiting 0) connected) 0%nat (mkUse site_key "https" site (UWaiting 0)) 0%nat (UPending 0 h3_entry)); [reflexivity|done| |vm_compute; reflexivity]|].
  { intros (r & q & a & Hr & Hq). assert (requests (used (UWaiting 0) connected) = {[0%nat := mkUse site_key "https" site (UWaiting 0)]}) as E by (vm_compute; reflexivity).
    rewrite E in Hr. apply lookup_singleton_Some in Hr as [_ <-]. done. }
  apply rtc_refl.
Qed.
Lemma after_failure_reachable : alt_reachable ascii_idna 0 false after_failure.
Proof.
  eapply rtc_r; [apply in_use_reachable|].
  eapply (SEndPending _ _ _ (used (UPending 0 h3_entry) connected) 5 0%nat (mkUse site_key "https" site (UPending 0 h3_entry)) 0%nat h3_entry refused); [reflexivity|done|vm_compute; reflexivity].
Qed.
Lemma after_failure_abandoned : abandoned site_key 0 after_failure.
Proof.
  constructor; [vm_compute; reflexivity|exists (mkPending 0 [h3_entry] false); vm_compute; done|vm_compute; reflexivity| |].
  - assert (goroutines after_failure = ∅) as -> by (vm_compute; reflexivity). apply map_Forall_empty.
  - assert (requests after_failure = ∅) as -> by (vm_compute; reflexivity). apply map_Forall_empty.
Qed.
Lemma alternatives_never_panic_witness : is_h3 h3_entry /\ forall now (o : outcome unit),
  is_Some (checkAltSvc_end ascii_idna 0 false now (used (UPending 0 h3_entry) connected) (mkUse site_key "https" site (UPending 0 h3_entry)) 0 h3_entry o).
Proof. exact (alternatives_never_panic ascii_idna 0 false _ in_use_reachable 0%nat (mkUse site_key "https" site (UPending 0 h3_entry)) eq_refl). Defined.
Lemma failed_alternative_abandoned_witness : (checkAltSvc_start ascii_idna 0 1000 after_failure "https" site).1 = None.
Proof. exact (proj1 (failed_alternative_abandoned ascii_idna 0 false after_failure after_failure "https" site 0 eq_refl after_failure_reachable after_failure_abandoned (rtc_refl _ _) 1000)). Defined.
Lemma failed_alternative_falls_back_witness : exists s', roundTripHTTP3AltSvc 0 true 5 connected site_key refused = (Ok tt, false, s') /\ checkAltSvc_start ascii_idna 0 6 s' "https" site = (None, s').
Proof.
  destruct (failed_alternative_falls_back ascii_idna 0 true 5 connected "https" site refused _ eq_refl eq_refl eq_refl eq_refl) as (s' & H1 & H2).
  exists s'. split; [exact H1|]. apply (H2 6); [vm_compute; reflexivity|vm_compute; reflexivity].
Defined.
