(* ===== verification/H1RoundTrip.v ===== *)
(** * The transport's round trip and its retries ([src/transport.go]: [roundTrip], [rewindBody], [shouldRetryRequest])

    [Transport.roundTrip] as a function of what the connections it uses do: each use of
    a connection reads or closes the request's body and ends with a response or an
    error. The log records these uses and what happens to the bodies, which are
    numbered: 0 is the request's, the others come from [GetBody]. *)

From S2P Require Import Prelude.
From S2P Require Import H2Errors.
From S2P Require Import NetText.
From S2P Require Import H2Transport.
From S2P Require Import Bufio.
From S2P Require Import BufioLine.
From S2P Require Import Chunked.
From S2P Require Import TextProto.
From S2P Require Import Transfer.
From S2P Require Import TransferBody.
From S2P Require Import H1Message.
From S2P Require Import H1ReadLoop.
From S2P Require Import TransferWrite.
From S2P Require Import HeaderSort.
From S2P Require Import H1Request.

(** ** Errors of a round trip: an error value, wrapped in [nothingWrittenError] or
    [transportReadFromServerError]. *)
Inductive rtError := Plain (e : error) | ReadFromServer (e : error) | NothingWritten (e : rtError).
Definition IsNoCachedConnError (e : rtError) : bool := match e with Plain e => bool_decide (e = ErrNoCachedConn) | _ => false end.
Definition h2_canRetry (e : rtError) : bool := match e with Plain e => CanRetryError e | _ => false end.
(** The two unwrappings before an error is returned. *)
Definition unwrap (e : rtError) : rtError :=
  let e := match e with NothingWritten e => e | _ => e end in
  match e with ReadFromServer e => Plain e | _ => e end.
Definition errCannotRewind : error := errors_New "net/http: cannot rewind body after connection loss".
Definition badScheme (scheme : string) : error := badStringError "unsupported protocol scheme" scheme.

(** ** Bodies *)
(** A body being sent: its number and the flags of its [readTrackingBody]. *)
Record tracked := mkTracked { tb_id : nat; didRead : bool; didClose : bool }.
(** [OUse]: a connection used the body with the flags [read] and [closed], [sent] tells
    whether the server may have processed the request; [OClose], [OGet]: a body closed by
    [roundTrip] and one obtained from [GetBody]. *)
Inductive op := OUse (b : option nat) (read closed sent : bool) | OClose (b : nat) | OGet (b : nat).

(** What a use of a connection does. *)
Record conn_use (R : Type) := mkConnUse { cu_read : bool; cu_closed : bool; cu_sent : bool; cu_result : result rtError R }.
Arguments mkConnUse {R}. Arguments cu_read {R}. Arguments cu_closed {R}. Arguments cu_sent {R}. Arguments cu_result {R}.
(** [getConn]'s connection: [isReused], [alt] (HTTP/2), and its use. *)
Record pconn (R : Type) := mkPconn { pc_isReused : bool; pc_hasAlt : bool; pc_use : conn_use R }.
Arguments mkPconn {R}. Arguments pc_isReused {R}. Arguments pc_hasAlt {R}. Arguments pc_use {R}.

Definition use_body {R} (b : option tracked) (u : conn_use R) : option tracked :=
  (fun b => mkTracked (tb_id b) (didRead b || cu_read u) (didClose b || cu_closed u)) <$> b.
Definition use_op {R} (b : option tracked) (u : conn_use R) : op := OUse (tb_id <$> b) (cu_read u) (cu_closed u) (cu_sent u).
Definition closeBody (b : option tracked) : list op := match b with Some b => [OClose (tb_id b)] | None => [] end.

Section RoundTrip.
Context {R : Type}.
(** [httpguts.ValidHeaderFieldName], [ValidHeaderFieldValue], [IsTokenRune] on ASCII, and the order of a map. *)
Context (ValidHeaderFieldName ValidHeaderFieldValue : string -> bool) (IsTokenRune : byte -> bool) (map_range : Header -> list (string * list string)).
Definition validMethod (m : string) : bool := negb (String.eqb m "") && forallb IsTokenRune (bytes_of_string m).

(** The result of the [k]-th call of [GetBody]. *)
Context (GetBody_result : nat -> option error).

Definition rewindBody (hasGetBody : bool) (gets : nat) (b : option tracked) : list op * result rtError (option tracked * nat) :=
  match b with
  | None => ([], Ok (None, gets))
  | Some t =>
      if negb (didRead t) && negb (didClose t) then ([], Ok (b, gets))
      else
        let closes := if negb (didClose t) then closeBody b else [] in
        if negb hasGetBody then (closes, Err (Plain errCannotRewind))
        else match GetBody_result gets with
             | Some e => (closes, Err (Plain e))
             | None => (closes ++ [OGet (S gets)], Ok (Some (mkTracked (S gets) false false), S gets))
             end
  end.

Definition shouldRetryRequest (r : httpRequest) (reused : bool) (e : rtError) : bool :=
  if IsNoCachedConnError e then true
  else if match e with Plain e => bool_decide (e = errMissingHost) | _ => false end then false
  else if negb reused then false
  else match e with
       | NothingWritten _ => (outgoingLength r =? 0) || is_set (rq_GetBody r)
       | _ =>
           if negb (isReplayable r) then false
           else match e with ReadFromServer _ => true | Plain e => bool_decide (e = errServerClosedIdle) | NothingWritten _ => false end
       end.

(** What was done so far and, once the round trip has returned, its result. *)
Definition trace : Type := list op * option (result rtError R).
Definition fail (b : option tracked) (e : error) : trace := (closeBody b, Some (Err (Plain e))).
Definition final (b : option tracked) (u : conn_use R) : trace := ([use_op b u], Some (cu_result u)).
(** Prefixing what was done before. *)
Definition after_ops (ops : list op) (x : trace) : trace := (ops ++ x.1, x.2).

(** The loop: [ctx i], [getConn i] are what [ctx.Done] and [getConn] give in its [i]-th
    pass ([getConn] stands for [connectMethodForRequest] too). With fuel [n] the first [n]
    passes. *)
Context (ctx : nat -> option error) (getConn : nat -> result error (pconn R)).
Fixpoint retry_loop (fuel : nat) (r : httpRequest) (i gets : nat) (b : option tracked) : trace :=
  match fuel with
  | O => ([], None)
  | S fuel =>
      match ctx i with
      | Some e => fail b e
      | None =>
          match getConn i with
          | Err e => fail b e
          | Ok pc =>
              let u := pc_use pc in
              match cu_result u with
              | Ok resp => final b u
              | Err e =>
                  if negb (IsNoCachedConnError e) && negb (shouldRetryRequest r (pc_isReused pc) e) then
                    let closes := match use_body b u with Some t => if didClose t then [] else closeBody (Some t) | None => [] end in
                    (use_op b u :: closes, Some (Err (unwrap e)))
                  else
                    match rewindBody (is_set (rq_GetBody r)) gets (use_body b u) with
                    | (ops, Err e) => (use_op b u :: ops, Some (Err e))
                    | (ops, Ok (b2, gets)) => after_ops (use_op b u :: ops) (retry_loop fuel r (S i) gets b2)
                    end
              end
          end
      end
  end.

(** ** [roundTrip] *)
Inductive forced := NotForced | ForceH1 | ForceH2 | ForceH3.
(** The transport: whether HTTP/3 is enabled and falls back, and the uses of its HTTP/2
    and HTTP/3 transports for a request ([RoundTripOnlyCachedConn] or [RoundTrip]). *)
Record config := mkConfig { forceHttpVersion : forced; t3_enabled : bool; http3FallbackOnFailure : bool }.
Context (h2_cached h3_cached h2_trip h3_trip : conn_use R) (h3_no_cached : error -> bool).
(** [shouldFallbackHTTP3Error] apart from the scheme. *)
Context (fallback_error : rtError -> bool).
Definition h3_ErrNoCachedConn (e : rtError) : bool := match e with Plain e => h3_no_cached e | _ => false end.

(** The scheme and host of the URL, if there is one. *)
Record target := mkTarget { tg_scheme : string; tg_host : string }.
Definition setupRewindBody (b : option tracked) : option tracked := (fun t => mkTracked (tb_id t) false false) <$> b.
Definition body0 (r : httpRequest) : option tracked := match rq_Body r with ReadBody _ => Some (mkTracked 0 false false) | _ => None end.

(** The checks before the loop, and the loop. *)
Definition is_http (tg : target) : bool := String.eqb (tg_scheme tg) "http" || String.eqb (tg_scheme tg) "https".
Definition dial (fuel : nat) (r : httpRequest) (tg : target) (gets : nat) (b : option tracked) : trace :=
  if negb (is_http tg) then fail b (badScheme (tg_scheme tg))
  else if negb (String.eqb (rq_Method r) "") && negb (validMethod (rq_Method r)) then fail b (fmt_Errorf "net/http: invalid method %q" [rq_Method r])
  else if String.eqb (tg_host tg) "" then fail b (errors_New "http: no Host in request URL")
  else retry_loop fuel r 0 gets b.
(** From [origReq := req] on. *)
Definition roundTrip_conns (c : config) (fuel : nat) (r : httpRequest) (tg : target) (gets : nat) (b : option tracked) : trace :=
  let hasGet := is_set (rq_GetBody r) in
  let b := setupRewindBody b in
  if String.eqb (tg_scheme tg) "https" && negb (match forceHttpVersion c with ForceH1 => true | _ => false end) then
    if match cu_result h2_cached with Ok _ => true | Err e => negb (IsNoCachedConnError e) && negb (h2_canRetry e) end then final b h2_cached
    else
      match rewindBody hasGet gets (use_body b h2_cached) with
      | (ops, Err e) => (use_op b h2_cached :: ops, Some (Err e))
      | (ops, Ok (b2, gets)) =>
          after_ops (use_op b h2_cached :: ops)
            (if negb (t3_enabled c) then dial fuel r tg gets b2
             else if match cu_result h3_cached with Ok _ => true | Err e => negb (h3_ErrNoCachedConn e) end then final b2 h3_cached
             else match rewindBody hasGet gets (use_body b2 h3_cached) with
                  | (ops, Err e) => (use_op b2 h3_cached :: ops, Some (Err e))
                  | (ops, Ok (b3, gets)) => after_ops (use_op b2 h3_cached :: ops) (dial fuel r tg gets b3)
                  end)
      end
  else dial fuel r tg gets b.

Definition invalidHeaders (r : httpRequest) : option error :=
  match validateHeaders ValidHeaderFieldName ValidHeaderFieldValue map_range (rq_Header r) with
  | Some e => Some (fmt_Errorf "net/http: invalid header %s" [e])
  | None =>
      match rq_Trailer r with
      | Some tr => match validateHeaders ValidHeaderFieldName ValidHeaderFieldValue map_range tr with
                   | Some e => Some (fmt_Errorf "net/http: invalid trailer %s" [e]) | None => None end
      | None => None
      end
  end.
(** [roundTripWithoutHTTP3]: the round trip of a clone of the transport that forces no
    version and has neither HTTP/3 nor alternatives. *)
Definition roundTripWithoutHTTP3 (c : config) (fuel : nat) (r : httpRequest) (tg : target) (gets : nat) (b : option tracked) : trace :=
  match (if is_http tg then invalidHeaders r else None) with
  | Some e => fail b e
  | None => roundTrip_conns (mkConfig NotForced false (http3FallbackOnFailure c)) fuel r tg gets b
  end.
(** The use [u] of an HTTP/3 transport and its fall-back: with a body that cannot be
    rewound the error of HTTP/3 is returned. *)
Definition http3_or_fallback (c : config) (fuel : nat) (r : httpRequest) (tg : target) (b : option tracked) (u : conn_use R) : trace :=
  if negb (http3FallbackOnFailure c) then final b u
  else
    let b := setupRewindBody b in
    match cu_result u with
    | Ok _ => final b u
    | Err e =>
        if negb (String.eqb (tg_scheme tg) "https" && fallback_error e) then final b u
        else match rewindBody (is_set (rq_GetBody r)) 0 (use_body b u) with
             | (ops, Err _) => (use_op b u :: ops, Some (Err e))
             | (ops, Ok (b2, gets)) => after_ops (use_op b u :: ops) (roundTripWithoutHTTP3 c fuel r tg gets b2)
             end
    end.
Definition errNoHTTP3 : error := errors_New "http: HTTP/3 transport is not enabled".
Definition roundTripForceHTTP3 (c : config) (fuel : nat) (r : httpRequest) (tg : target) (b : option tracked) : trace :=
  if negb (t3_enabled c) then fail b errNoHTTP3 else http3_or_fallback c fuel r tg b h3_trip.

(** The alternative [checkAltSvc] finds for the request's host, and the use of its
    transport: the HTTP/2 one, or the HTTP/3 one if there is one. The scheme of the
    request's URL is kept ([ConvertURL]). *)
Inductive alternative := AltH2 (u : conn_use R) | AltH3 (rt : option (conn_use R)).
Definition roundTripAltSvc (c : config) (fuel : nat) (r : httpRequest) (tg : target) (b : option tracked) (alt : alternative) : trace :=
  match alt with
  | AltH2 u => final b u
  | AltH3 None => ([], Some (Err (Plain errNoHTTP3)))
  | AltH3 (Some u) => http3_or_fallback c fuel r tg b u
  end.

Definition roundTrip (c : config) (fuel : nat) (r : httpRequest) (url : option target) (alt : option alternative) : trace :=
  let b := body0 r in
  match url with
  | None => fail b (errors_New "http: nil Request.URL")
  | Some tg =>
      match alt with
      | Some alt => roundTripAltSvc c fuel r tg b alt
      | None =>
          match (if is_http tg then invalidHeaders r else None) with
          | Some e => fail b e
          | None =>
              match forceHttpVersion c with
              | ForceH3 => roundTripForceHTTP3 c fuel r tg b
              | ForceH2 => final b h2_trip
              | _ => roundTrip_conns c fuel r tg 0 b
              end
          end
      end
  end.

(** ** What a log says *)
(** The bodies read or closed so far; a use of a body finds it untouched. *)
Definition spoil (sp : gset nat) (o : op) : gset nat :=
  match o with
  | OUse (Some id) read closed _ => if read || closed then {[id]} ∪ sp else sp
  | OClose id => {[id]} ∪ sp
  | _ => sp
  end.
Fixpoint whole (sp : gset nat) (log : list op) : Prop :=
  match log with
  | [] => True
  | o :: log => match o with OUse (Some id) _ _ _ | OGet id => id ∉ sp | _ => True end /\ whole (spoil sp o) log
  end.
Definition closed_in (log : list op) (id : nat) : Prop := OClose id ∈ log \/ exists read sent, OUse (Some id) read true sent ∈ log.
(** The bodies of a log that begins with [b]. *)
Definition all_closed (b : option tracked) (log : list op) : Prop :=
  (forall t, b = Some t -> closed_in log (tb_id t)) /\ forall id, OGet id ∈ log -> closed_in log id.
Definition is_sent (o : op) : bool := match o with OUse _ _ _ sent => sent | _ => false end.
Definition sends (log : list op) : nat := length (filter (fun o => is_sent o = true) log).

Lemma whole_app sp l1 l2 : whole sp l1 -> whole (fold_left spoil l1 sp) l2 -> whole sp (l1 ++ l2).
Proof. revert sp. induction l1 as [|o l1 IH]; intros sp; cbn; [done|]. intros [Ho H1] H2. split; [done|by apply IH]. Qed.
Lemma sends_log_app l1 l2 : sends (l1 ++ l2) = (sends l1 + sends l2)%nat.
Proof. unfold sends. by rewrite filter_app, length_app. Qed.
Lemma sends_cons o l : sends (o :: l) = ((if is_sent o then 1 else 0) + sends l)%nat.
Proof. unfold sends. rewrite filter_cons. destruct (is_sent o); cbn; done. Qed.
Lemma sends_nil : sends [] = 0%nat. Proof. done. Qed.
Lemma closed_in_app_l l1 l2 id : closed_in l1 id -> closed_in (l1 ++ l2) id.
Proof. intros [H|(rd & sn & H)]; [left|right; exists rd, sn]; apply elem_of_app; by left. Qed.
Lemma closed_in_app_r l1 l2 id : closed_in l2 id -> closed_in (l1 ++ l2) id.
Proof. intros [H|(rd & sn & H)]; [left|right; exists rd, sn]; apply elem_of_app; by right. Qed.
Lemma closed_in_cons o l id : closed_in l id -> closed_in (o :: l) id.
Proof. apply (closed_in_app_r [o]). Qed.

(** A body at the head of the log, untouched, and numbers still to be given out. *)
Definition fresh_in (sp : gset nat) (gets : nat) (b : option tracked) : Prop :=
  (forall t, b = Some t -> didRead t = false /\ didClose t = false /\ (tb_id t ∉ sp) /\ (tb_id t <= gets)%nat) /\ forall id, (gets < id)%nat -> id ∉ sp.

Definition mentions (id : nat) (o : op) : Prop := match o with OUse (Some id') _ _ _ | OClose id' => id' = id | _ => False end.
Lemma spoil_other log id : forall sp, id ∉ sp -> Forall (fun o => ~ mentions id o) log -> id ∉ fold_left spoil log sp.
Proof.
  induction log as [|o log IH]; intros sp Hid Hl; [done|]. apply Forall_cons in Hl as [Ho Hl]. cbn. apply IH; [|done].
  destruct o as [[id'|] rd cl sn|id'|id']; cbn in *; try done; [destruct (rd || cl); [|done]|]; (intros [H%elem_of_singleton|H]%elem_of_union; [congruence|done]).
Qed.
Lemma rewind_cases hg gets b ops res : rewindBody hg gets b = (ops, res) ->
  (match b with Some t => didRead t = false /\ didClose t = false | None => True end /\ ops = [] /\ res = Ok (b, match b with Some _ => gets | None => gets end)) \/
  exists t, b = Some t /\ (didRead t || didClose t = true) /\
    let closes := if didClose t then [] else [OClose (tb_id t)] in
    ((exists e, res = Err e /\ ops = closes) \/ (res = Ok (Some (mkTracked (S gets) false false), S gets) /\ ops = closes ++ [OGet (S gets)])).
Proof.
  destruct b as [t|]; cbn; [|intros [= <- <-]; by left]. destruct (didRead t) eqn:Er, (didClose t) eqn:Ec; cbn; try (intros [= <- <-]; by left);
    intros H; right; exists t; (split; [done|]); rewrite Er, Ec; (split; [done|]); cbn; destruct hg; cbn in H; try (destruct (GetBody_result gets) as [e|]); injection H as <- <-;
    first [left; by eexists|by right].
Qed.
(** Using the body and rewinding it: the next attempt starts afresh. *)
Definition after_use (b : option tracked) (u : conn_use R) (ops : list op) (sp : gset nat) (res : result rtError (option tracked * nat)) : Prop :=
  match res with
  | Ok (b', gets') => fresh_in (fold_left spoil (use_op b u :: ops) sp) gets' b' /\ forall log, all_closed b' log -> all_closed b (use_op b u :: ops ++ log)
  | Err _ => all_closed b (use_op b u :: ops)
  end.
Lemma use_then_rewind hg sp gets b (u : conn_use R) ops res : fresh_in sp gets b -> rewindBody hg gets (use_body b u) = (ops, res) ->
  whole sp (use_op b u :: ops) /\ sends ops = 0%nat /\ after_use b u ops sp res.
Proof.
  intros [Hb Hg] Hr. apply rewind_cases in Hr as [(Ht & -> & ->)|(t' & Ht' & Htouch & Hr)].
  - destruct b as [t|]; cbn [use_body use_op fmap option_fmap option_map] in *; [|split; [done|]; split; [done|]; split; [split; [done|exact Hg]|]; intros log [_ H]; split; [done|intros id Hid; apply closed_in_cons, H; by apply elem_of_cons in Hid as [?|?]]].
    destruct (Hb t eq_refl) as (Hrd & Hcl & Hid & Hle). destruct Ht as [Ht1 Ht2]. cbn in Ht1, Ht2. rewrite Hrd in Ht1. rewrite Hcl in Ht2. cbn in Ht1, Ht2.
    unfold use_op. cbn. rewrite Ht1, Ht2. cbn. split; [done|]. split; [done|]. split.
    + split; [|exact Hg]. intros x [= <-]. cbn. by rewrite Hrd, Hcl.
    + intros log [H1 H2]. split; [intros x [= <-]; apply closed_in_cons, (H1 _ eq_refl)|]. intros id Hin. apply elem_of_cons in Hin as [?|Hin]; [done|]. by apply closed_in_cons, H2.
  - destruct b as [t|]; [|done]. cbn in Ht'. injection Ht' as <-. destruct (Hb t eq_refl) as (Hrd & Hcl & Hid & Hle). cbn in Htouch, Hr. rewrite Hrd, Hcl in *. cbn in Htouch, Hr.
    set (closes := if cu_closed u then [] else [OClose (tb_id t)]) in *.
    assert (closed_in (use_op (Some t) u :: closes) (tb_id t)) as Hclosed.
    { unfold closes, use_op. cbn. destruct (cu_closed u) eqn:Ec; [right; eexists _, _; left|left; right; left]. }
    assert (whole sp (use_op (Some t) u :: closes)) as Hw by (unfold closes; cbn; by destruct (cu_closed u)).
    assert (forall id, OGet id ∉ use_op (Some t) u :: closes) as Hno.
    { intros id Hin. unfold closes in Hin. apply elem_of_cons in Hin as [?|Hin]; [done|]. destruct (cu_closed u); [by apply not_elem_of_nil in Hin|by apply list_elem_of_singleton in Hin]. }
    assert (forall id, (gets < id)%nat -> id ∉ fold_left spoil (use_op (Some t) u :: closes) sp) as Hfresh.
    { intros id Hlt. apply spoil_other; [by apply Hg|]. unfold closes. constructor; [cbn; lia|]. destruct (cu_closed u); constructor; [cbn; lia|constructor]. }
    destruct Hr as [(e & -> & ->)|[-> ->]].
    + split; [done|]. split; [unfold closes; by destruct (cu_closed u)|]. split; [by intros x [= <-]|]. intros id Hin. by apply Hno in Hin.
    + split; [change (use_op (Some t) u :: closes ++ [OGet (S gets)]) with ((use_op (Some t) u :: closes) ++ [OGet (S gets)]); apply whole_app; [done|]; split; [apply Hfresh; lia|done]
        |split; [rewrite sends_log_app; unfold closes; by destruct (cu_closed u)|]].
      unfold after_use. change (use_op (Some t) u :: closes ++ [OGet (S gets)]) with ((use_op (Some t) u :: closes) ++ [OGet (S gets)]). split.
      * rewrite fold_left_app. cbn [fold_left spoil]. split; [|intros id Hlt; apply Hfresh; lia]. intros x [= <-]. cbn. split; [done|]. split; [done|]. split; [apply Hfresh; lia|done].
      * intros log [H1 H2]. specialize (H1 _ eq_refl). cbn in H1. rewrite <- app_assoc. change (use_op (Some t) u :: closes ++ [OGet (S gets)] ++ log) with ((use_op (Some t) u :: closes) ++ OGet (S gets) :: log).
        split; [intros x [= <-]; by apply closed_in_app_l|]. intros id Hin. apply elem_of_app in Hin as [Hin|Hin]; [by apply Hno in Hin|].
        apply closed_in_app_r, closed_in_cons. apply elem_of_cons in Hin as [[= ->]|Hin]; [done|by apply H2].
Qed.

(** ** The rules a round trip keeps *)
(** A use that ends with one of the errors [p] has not let the server process the request. *)
Definition unsent_on (p : rtError -> bool) (u : conn_use R) : Prop := forall e, cu_result u = Err e -> p e = true -> cu_sent u = false.
(** A use has closed the body when it ends, other than with an error [p]. *)
Definition closes_unless (p : rtError -> bool) (u : conn_use R) : Prop := match cu_result u with Ok _ => True | Err e => p e = false end -> cu_closed u = true.
Definition nothing_sent (e : rtError) : bool := IsNoCachedConnError e || match e with NothingWritten _ => true | _ => false end.
(** What is shown of a log that starts with [b]: at most [n] servers may have processed a
    request that cannot be replayed. *)
Record rules (r : httpRequest) (n : nat) (sp : gset nat) (b : option tracked) (closing sending : Prop) (x : trace) : Prop := {
  ru_whole : whole sp x.1;
  ru_closed : closing -> is_Some x.2 -> all_closed b x.1;
  ru_once : sending -> isReplayable r = false -> (sends x.1 <= n)%nat }.
Lemma rules_weaken r n m sp b (cl cl' sn sn' : Prop) x : rules r n sp b cl sn x -> (n <= m)%nat -> (cl' -> cl) -> (sn' -> sn) -> rules r m sp b cl' sn' x.
Proof. intros [W C S] Hn Hc Hs. constructor; [done|auto|]. intros H1 H2. specialize (S (Hs H1) H2). lia. Qed.

Lemma sends_closeBody b : sends (closeBody b) = 0%nat. Proof. by destruct b. Qed.
Lemma all_closed_closeBody b : all_closed b (closeBody b).
Proof. split; [intros t ->; left; left|]. intros id Hin. destruct b; cbn in Hin; [by apply list_elem_of_singleton in Hin|by apply not_elem_of_nil in Hin]. Qed.
Lemma fail_rules r n sp b cl sn e : rules r n sp b cl sn (fail b e).
Proof. constructor; cbn [fail fst snd]; [by destruct b|intros _ _; apply all_closed_closeBody|intros _ _; rewrite sends_closeBody; lia]. Qed.
Lemma use_op_whole sp gets b (u : conn_use R) : fresh_in sp gets b -> whole sp [use_op b u].
Proof. intros [Hb _]. destruct b as [t|]; [|done]. by destruct (Hb t eq_refl) as (_ & _ & ? & _). Qed.
Lemma sends_one o : (sends [o] <= 1)%nat.
Proof. rewrite sends_cons, sends_nil. destruct (is_sent o); lia. Qed.
(** A use that closes the body or leaves it to [roundTrip]. *)
Lemma used_closed b (u : conn_use R) : cu_closed u = true -> all_closed b [use_op b u].
Proof. intros H. split; [intros t ->; right; unfold use_op; rewrite H; eexists _, _; left|]. intros id Hin. by apply list_elem_of_singleton in Hin. Qed.
Lemma final_rules r sp gets b u (cl sn : Prop) p : fresh_in sp gets b -> (cl -> closes_unless p u) -> match cu_result u with Ok _ => True | Err e => p e = false end ->
  rules r 1 sp b cl sn (final b u).
Proof. intros Hf Hcl Hp. constructor; cbn [final fst snd]; [by eapply use_op_whole| |intros; apply sends_one]. intros Hc _. by apply used_closed, Hcl. Qed.

(** A use, a rewind and what follows. *)
Lemma after_rules hg r n m sp gets b (u : conn_use R) ops b' gets' cl sn x : fresh_in sp gets b -> rewindBody hg gets (use_body b u) = (ops, Ok (b', gets')) ->
  (sn -> isReplayable r = false -> ((if cu_sent u then 1 else 0) + n <= m)%nat) ->
  (forall sp', fresh_in sp' gets' b' -> rules r n sp' b' cl sn x) -> rules r m sp b cl sn (after_ops (use_op b u :: ops) x).
Proof.
  intros Hf Hr Hsn Hlog. destruct (use_then_rewind _ _ _ _ _ _ _ Hf Hr) as (Hw & Hs & Hfr & Hall). specialize (Hlog _ Hfr). destruct Hlog as [W C S]. constructor; cbn [after_ops fst snd].
  - by apply whole_app.
  - intros Hc He. rewrite <- app_comm_cons. by apply Hall, C.
  - intros Hsend Hre. rewrite <- app_comm_cons, sends_cons, sends_log_app, Hs. specialize (Hsn Hsend Hre). specialize (S Hsend Hre). cbn [is_sent use_op]. lia.
Qed.
Lemma rewind_failed_rules hg r n sp gets b (u : conn_use R) ops e e' cl sn : fresh_in sp gets b -> rewindBody hg gets (use_body b u) = (ops, Err e) -> (1 <= n)%nat -> rules r n sp b cl sn (use_op b u :: ops, Some (Err e')).
Proof.
  intros Hf Hr Hn. destruct (use_then_rewind _ _ _ _ _ _ _ Hf Hr) as (Hw & Hs & Hall). constructor; cbn [fst snd]; [done|by intros|]. intros _ _. rewrite sends_cons, Hs. destruct (is_sent _); lia.
Qed.

Lemma retried_unsent r reused e : isReplayable r = false -> shouldRetryRequest r reused e = true -> nothing_sent e = true.
Proof.
  unfold shouldRetryRequest, nothing_sent. intros Hre. destruct (IsNoCachedConnError e); [done|]. destruct e as [e|e|e]; cbn; try done.
  - case_bool_decide; [done|]. destruct reused; [|done]. by rewrite Hre.
  - destruct reused; [|done]. by rewrite Hre.
Qed.
(** The last attempt: its error is returned and the body closed if it is not yet. *)
Lemma given_up_rules r n sp gets b (u : conn_use R) e (cl sn : Prop) : fresh_in sp gets b -> (1 <= n)%nat ->
  rules r n sp b cl sn (use_op b u :: match use_body b u with Some t => if didClose t then [] else closeBody (Some t) | None => [] end, Some (Err e)).
Proof.
  intros Hf Hn. pose proof (use_op_whole _ _ _ u Hf) as Hw. destruct b as [t|]; cbn [use_body fmap option_fmap option_map didClose closeBody tb_id].
  - destruct Hf as [Hb _]. destruct (Hb t eq_refl) as (_ & -> & _ & _). cbn [orb]. destruct (cu_closed u) eqn:Ec.
    + constructor; [done|intros _ _; by apply used_closed|intros; pose proof (sends_one (use_op (Some t) u)); cbn [fst]; lia].
    + constructor; [split; [by destruct Hw|done]| |].
      * intros _ _. split; [intros x [= <-]; left; right; left|]. intros id Hin. apply elem_of_cons in Hin as [?|Hin]; [done|by apply list_elem_of_singleton in Hin].
      * intros _ _. cbn [fst]. rewrite !sends_cons, sends_nil. cbn [is_sent]. destruct (is_sent _); lia.
  - constructor; [done| |intros; pose proof (sends_one (use_op None u)); cbn [fst]; lia]. intros _ _. split; [done|]. intros id Hin. by apply list_elem_of_singleton in Hin.
Qed.

Definition retryable (e : rtError) : bool := IsNoCachedConnError e || h2_canRetry e.
(** The contracts of the cached HTTP/2 and HTTP/3 connections and of [getConn]'s. *)
Definition conns_close : Prop := closes_unless retryable h2_cached /\ closes_unless h3_ErrNoCachedConn h3_cached /\ forall i pc, getConn i = Ok pc -> closes_unless (fun _ => true) (pc_use pc).
Definition conns_unsent : Prop := unsent_on retryable h2_cached /\ unsent_on h3_ErrNoCachedConn h3_cached /\ forall i pc, getConn i = Ok pc -> unsent_on nothing_sent (pc_use pc).

Lemma unsent_room (u : conn_use R) p e n : unsent_on p u -> cu_result u = Err e -> p e = true -> ((if cu_sent u then 1 else 0) + n <= n)%nat.
Proof. intros H He Hp. rewrite (H e He Hp). lia. Qed.
Lemma retry_loop_rules fuel r : forall i gets b sp, fresh_in sp gets b -> rules r 1 sp b conns_close conns_unsent (retry_loop fuel r i gets b).
Proof.
  induction fuel as [|fuel IH]; intros i gets b sp Hf; cbn [retry_loop]; [constructor; cbn [fst snd]; [done|by intros _ [? ?]|intros; rewrite sends_nil; lia]|].
  destruct (ctx i) as [e|]; [apply fail_rules|]. destruct (getConn i) as [pc|e] eqn:Eg; [|apply fail_rules]. destruct (cu_result (pc_use pc)) as [resp|e] eqn:Er.
  - eapply (final_rules _ _ _ _ _ _ _ (fun _ => true)); [exact Hf|intros (_ & _ & H); by eapply H|by rewrite Er].
  - destruct (negb (IsNoCachedConnError e) && negb (shouldRetryRequest r (pc_isReused pc) e)) eqn:Ed; [by eapply given_up_rules|].
    destruct (rewindBody (is_set (rq_GetBody r)) gets (use_body b (pc_use pc))) as [ops [[b' gets']|e']] eqn:Ew; [|by eapply rewind_failed_rules].
    eapply after_rules; [exact Hf|exact Ew| |intros sp' Hf'; by apply IH]. intros (_ & _ & Hsn) Hre. eapply unsent_room; [by eapply Hsn|exact Er|].
    apply andb_false_iff in Ed as [Ed|Ed]; apply negb_false_iff in Ed; [unfold nothing_sent; by rewrite Ed|by eapply retried_unsent].
Qed.
Lemma dial_rules fuel r tg gets b sp : fresh_in sp gets b -> rules r 1 sp b conns_close conns_unsent (dial fuel r tg gets b).
Proof. intros Hf. unfold dial. destruct (negb _); [apply fail_rules|]. destruct (_ && _); [apply fail_rules|]. destruct (String.eqb _ _); [apply fail_rules|]. by apply retry_loop_rules. Qed.

Lemma fresh_body0 r : fresh_in ∅ 0 (body0 r).
Proof. split; [|intros; apply not_elem_of_empty]. intros t. unfold body0. destruct (rq_Body r); [done|done|]. intros [= <-]. cbn. split; [done|]. split; [done|]. split; [apply not_elem_of_empty|lia]. Qed.
(** An untouched body is wrapped without effect. *)
Lemma setup_fresh sp gets b : fresh_in sp gets b -> setupRewindBody b = b.
Proof. intros [Hb _]. destruct b as [[id rd cl]|]; [|done]. destruct (Hb _ eq_refl) as (Hr & Hc & _). cbn in *. by subst. Qed.

Lemma roundTrip_conns_rules c fuel r tg gets b sp : fresh_in sp gets b -> rules r 1 sp b conns_close conns_unsent (roundTrip_conns c fuel r tg gets b).
Proof.
  intros Hf. unfold roundTrip_conns. rewrite (setup_fresh _ _ _ Hf). destruct (_ && _); [|by apply dial_rules].
  destruct (match cu_result h2_cached with Ok _ => true | _ => _ end) eqn:E2.
  { eapply (final_rules _ _ _ _ _ _ _ retryable); [exact Hf|by intros []|]. destruct (cu_result h2_cached) as [|e]; [done|]. unfold retryable.
    apply andb_true_iff in E2 as [H1%negb_true_iff H2%negb_true_iff]. by rewrite H1, H2. }
  destruct (cu_result h2_cached) as [x|e] eqn:Eh2; [done|].
  assert (retryable e = true) as Hre by (unfold retryable; apply andb_false_iff in E2 as [E|E]; apply negb_false_iff in E; rewrite E; [done|apply orb_true_r]).
  destruct (rewindBody _ gets (use_body b h2_cached)) as [ops [[b2 gets2]|e']] eqn:Ew; [|by eapply rewind_failed_rules].
  eapply after_rules; [exact Hf|exact Ew|intros (H & _) _; by eapply unsent_room|]. intros sp2 Hf2. destruct (negb (t3_enabled c)); [by apply dial_rules|].
  destruct (match cu_result h3_cached with Ok _ => true | _ => _ end) eqn:E3.
  { eapply (final_rules _ _ _ _ _ _ _ h3_ErrNoCachedConn); [exact Hf2|by intros (_ & ? & _)|]. destruct (cu_result h3_cached) as [|e3]; [done|by apply negb_true_iff in E3]. }
  destruct (cu_result h3_cached) as [x|e3] eqn:Eh3; [done|]. apply negb_false_iff in E3.
  destruct (rewindBody _ gets2 (use_body b2 h3_cached)) as [ops3 [[b3 gets3]|e']] eqn:Ew3; [|by eapply rewind_failed_rules].
  eapply after_rules; [exact Hf2|exact Ew3|intros (_ & H & _) _; by eapply unsent_room|]. intros sp3 Hf3. by apply dial_rules.
Qed.

(** The servers that may have processed a request that cannot be replayed. *)
Definition attempts (c : config) : nat := if http3FallbackOnFailure c then 2 else 1.
Definition never (e : rtError) : bool := false.
Lemma never_result (u : conn_use R) : match cu_result u with Ok _ => True | Err e => never e = false end. Proof. by destruct (cu_result u). Qed.
Lemma http3_or_fallback_rules c fuel r tg b u sp : fresh_in sp 0 b -> rules r (attempts c) sp b (closes_unless never u /\ conns_close) conns_unsent (http3_or_fallback c fuel r tg b u).
Proof.
  intros Hf. unfold http3_or_fallback, attempts. rewrite (setup_fresh _ _ _ Hf).
  assert (forall n, (1 <= n)%nat -> rules r n sp b (closes_unless never u /\ conns_close) conns_unsent (final b u)) as Hfinal.
  { intros n Hn. eapply rules_weaken; [eapply (final_rules r sp 0 b u _ conns_unsent never Hf); [intros H; exact H|apply never_result]|done|by intros []|done]. }
  destruct (http3FallbackOnFailure c); cbn [negb]; [|by apply Hfinal]. destruct (cu_result u) as [x|e]; [apply Hfinal; lia|]. destruct (negb _); [apply Hfinal; lia|].
  destruct (rewindBody _ 0 (use_body b u)) as [ops [[b2 gets2]|e']] eqn:Ew; [|eapply rewind_failed_rules; [exact Hf|exact Ew|lia]].
  eapply after_rules with (n := 1%nat); [exact Hf|exact Ew|intros _ _; destruct (cu_sent u); lia|]. intros sp2 Hf2. unfold roundTripWithoutHTTP3.
  destruct (if is_http tg then _ else _); [apply fail_rules|]. eapply rules_weaken; [by apply roundTrip_conns_rules|done|by intros []|done].
Qed.

(** What the transports promise of the request's body: they close it, unless they end with
    an error the round trip is retried for; and the alternative is one they can follow. *)
Definition all_close (alt : option alternative) : Prop :=
  conns_close /\ closes_unless never h2_trip /\ closes_unless never h3_trip /\
  match alt with Some (AltH2 u) | Some (AltH3 (Some u)) => closes_unless never u | Some (AltH3 None) => False | None => True end.
Lemma roundTrip_rules c fuel r url alt : rules r (attempts c) ∅ (body0 r) (all_close alt) conns_unsent (roundTrip c fuel r url alt).
Proof.
  assert (1 <= attempts c)%nat as Hn by (unfold attempts; destruct (http3FallbackOnFailure c); lia). pose proof (fresh_body0 r) as Hf.
  assert (forall u, (all_close alt -> closes_unless never u) -> rules r (attempts c) ∅ (body0 r) (all_close alt) conns_unsent (final (body0 r) u)) as Hfinal.
  { intros u Hu. eapply rules_weaken; [eapply (final_rules r ∅ 0 _ u (all_close alt) conns_unsent never Hf Hu); apply never_result|done|done|done]. }
  unfold roundTrip. destruct url as [tg|]; [|apply fail_rules]. destruct alt as [[u|[u|]]|].
  - apply Hfinal. by intros (_ & _ & _ & ?).
  - eapply rules_weaken; [by apply http3_or_fallback_rules|done| |done]. by intros (? & _ & _ & ?).
  - constructor; cbn [roundTripAltSvc fst snd]; [done|by intros (_ & _ & _ & [])|intros; rewrite sends_nil; lia].
  - destruct (if is_http tg then invalidHeaders r else None); [apply fail_rules|].
    assert (rules r (attempts c) ∅ (body0 r) (all_close None) conns_unsent (roundTrip_conns c fuel r tg 0 (body0 r))) as Hconns by (eapply rules_weaken; [by apply roundTrip_conns_rules|done|by intros []|done]).
    destruct (forceHttpVersion c); [done|done|by apply Hfinal; intros (_ & ? & _)|]. unfold roundTripForceHTTP3. destruct (negb (t3_enabled c)); [apply fail_rules|].
    eapply rules_weaken; [by apply http3_or_fallback_rules|done| |done]. by intros (? & _ & ? & _).
Qed.

(** ** Retrying ends *)
(** The [n]-th connection is a new one, and no HTTP/2 connection that refuses the request. *)
Definition new_connection (n : nat) : Prop :=
  exists pc, getConn n = Ok pc /\ pc_isReused pc = false /\ forall e, cu_result (pc_use pc) = Err e -> IsNoCachedConnError e = false.
Lemma retry_loop_returns r n : new_connection n -> forall k i gets b fuel, (i + k = n)%nat -> (k < fuel)%nat -> is_Some (retry_loop fuel r i gets b).2.
Proof.
  intros (pc & Hg & Hre & Hn). induction k as [|k IH]; intros i gets b fu Hi Hfu; (destruct fu as [|fu]; [lia|]); cbn [retry_loop].
  - replace i with n by lia. destruct (ctx n); [by eexists|]. rewrite Hg. destruct (cu_result (pc_use pc)) as [x|e] eqn:Er; [by eexists|]. specialize (Hn e eq_refl). rewrite Hn.
    assert (shouldRetryRequest r (pc_isReused pc) e = false) as ->; [|by eexists]. unfold shouldRetryRequest. rewrite Hn, Hre. by destruct (match e with Plain e => _ | _ => _ end).
  - destruct (ctx i); [by eexists|]. destruct (getConn i) as [pc'|]; [|by eexists]. destruct (cu_result (pc_use pc')); [by eexists|].
    destruct (_ && _); [by eexists|]. destruct (rewindBody _ gets _) as [ops [[b' gets']|e']]; [|by eexists]. apply IH; lia.
Qed.
Lemma roundTrip_conns_returns c fuel r tg gets b n : new_connection n -> (n < fuel)%nat -> is_Some (roundTrip_conns c fuel r tg gets b).2.
Proof.
  intros Hn Hfuel. assert (forall gets b, is_Some (dial fuel r tg gets b).2) as Hdial.
  { intros g b'. unfold dial. destruct (negb _); [by eexists|]. destruct (_ && _); [by eexists|]. destruct (String.eqb _ _); [by eexists|]. by apply (retry_loop_returns r n Hn n). }
  unfold roundTrip_conns. destruct (String.eqb (tg_scheme tg) "https" && _); [|apply Hdial]. destruct (match cu_result h2_cached with Ok _ => true | _ => _ end); [by eexists|].
  destruct (rewindBody _ gets _) as [ops [[b' gets']|e']]; [|by eexists]. cbn [after_ops snd]. destruct (negb (t3_enabled c)); [apply Hdial|].
  destruct (match cu_result h3_cached with Ok _ => true | _ => _ end); [by eexists|]. destruct (rewindBody _ gets' _) as [ops' [[b3 gets3]|e']]; [apply Hdial|by eexists].
Qed.
Lemma roundTrip_returns c fuel r url alt n : new_connection n -> (n < fuel)%nat -> is_Some (roundTrip c fuel r url alt).2.
Proof.
  intros Hn Hfuel. assert (forall c tg gets b, is_Some (roundTrip_conns c fuel r tg gets b).2) as Hconns by (intros; by eapply roundTrip_conns_returns).
  assert (forall tg b u, is_Some (http3_or_fallback c fuel r tg b u).2) as Hfall.
  { intros tg b u. unfold http3_or_fallback, roundTripWithoutHTTP3. destruct (negb _); [by eexists|]. destruct (cu_result u); [by eexists|]. destruct (negb _); [by eexists|].
    destruct (rewindBody _ 0 _) as [ops [[b2 gets2]|e']]; [|by eexists]. cbn [after_ops snd]. destruct (if is_http tg then _ else _); [by eexists|apply Hconns]. }
  unfold roundTrip, roundTripAltSvc, roundTripForceHTTP3. destruct url as [tg|]; [|by eexists]. destruct alt as [[u|[u|]]|]; [by eexists|apply Hfall|by eexists|].
  destruct (if is_http tg then _ else _); [by eexists|]. destruct (forceHttpVersion c); [apply Hconns|apply Hconns|by eexists|]. destruct (negb (t3_enabled c)); [by eexists|apply Hfall].
Qed.

(** C20: What a round trip does to the request's body, whatever the connections do and
    however often it retries, on the alternative services and with the fall-back from
    HTTP/3 too: (1) at every moment, every attempt made so far got a body nobody had read or
    closed; (2) when it returns, with a response or an error, every body it had has been
    closed, the request's and those from [GetBody], if the transports close the body of
    the requests they answer or refuse for good (roundTrip itself closes it everywhere
    else); (3) a request that is not replayable is processed by at most one server, two with
    the fall-back from HTTP/3, if the errors that say nothing was sent are right; (4) it
    returns once the retries come to a new connection. *)
Theorem round_trip_bodies c fuel r url alt :
  let '(log, res) := roundTrip c fuel r url alt in
  whole ∅ log /\
  (all_close alt -> is_Some res -> all_closed (body0 r) log) /\
  (conns_unsent -> isReplayable r = false -> (sends log <= if http3FallbackOnFailure c then 2 else 1)%nat) /\
  (forall n, new_connection n -> (n < fuel)%nat -> is_Some res).
Proof.
  destruct (roundTrip_rules c fuel r url alt) as [W C S]. pose proof (roundTrip_returns c fuel r url alt) as T. destruct (roundTrip c fuel r url alt) as [log res].
  split; [exact W|]. split; [exact C|]. split; [exact S|]. intros n. apply T.
Qed.
End RoundTrip.

(** ** Examples: a POST with a body *)
Definition post (get : option (result error ioReader)) : httpRequest :=
  mkHttpRequest "POST" (ReadBody (mkReader [[104; 105]] io_EOF)) 2 false [] ∅ None get true None.
Definition reset : error := errors_New "read: connection reset by peer".
Definition server_error {R} (read sent : bool) (e : rtError) : conn_use R := mkConnUse read true sent (Err e).
(** Two reused connections that turn out to be closed before anything is written, then a new one. *)
Definition stale_then_new (i : nat) : result error (pconn string) :=
  Ok (if (i <? 2)%nat then mkPconn true false (server_error true false (NothingWritten (ReadFromServer reset)))
      else mkPconn false false (mkConnUse true true true (Ok "200 OK"%string))).
Definition no_cached : conn_use string := mkConnUse false false false (Err (Plain ErrNoCachedConn)).
Definition direct_reset : conn_use string := server_error true true (Plain reset).
Definition any_name (s : string) : bool := true.
Definition any_token (b : byte) : bool := true.
Definition run_post (c : config) (getConn : nat -> result error (pconn string)) (h3_trip : conn_use string) (alt : option (alternative (R := string))) (fuel : nat) (r : httpRequest) :=
  roundTrip any_name any_name any_token map_to_list (fun _ => None) (fun _ => None) getConn no_cached no_cached direct_reset h3_trip (fun _ => true) (fun _ => true)
    c fuel r (Some (mkTarget "https" "example.com")) alt.
Definition rewindable : httpRequest := post (Some (Ok (mkReader [[104; 105]] io_EOF))).
Definition post_log : list op := [OUse (Some 0%nat) false false false; OUse (Some 0%nat) true true false; OGet 1; OUse (Some 1%nat) true true false; OGet 2; OUse (Some 2%nat) true true true].
Definition plain_config : config := mkConfig NotForced false false.
Example post_retried : run_post plain_config stale_then_new direct_reset None 3 rewindable = (post_log, Some (Ok "200 OK"%string)).
Proof. vm_compute. reflexivity. Qed.
Example post_unfinished : run_post plain_config stale_then_new direct_reset None 2 rewindable = (take 5 post_log, None).
Proof. vm_compute. reflexivity. Qed.
(** Without [GetBody] the body cannot be sent again. *)
Example post_not_rewindable : run_post plain_config stale_then_new direct_reset None 3 (post None) = (take 2 post_log, Some (Err (Plain reset))).
Proof. vm_compute. reflexivity. Qed.

(** An alternative over HTTP/3 that fails: the request goes to the host over TCP, or the
    error of HTTP/3 is returned if the body cannot be sent again. *)
Definition h3_broken : conn_use string := server_error true true (Plain (errors_New "H3_INTERNAL_ERROR")).
Definition created (i : nat) : result error (pconn string) := Ok (mkPconn false false (mkConnUse true true true (Ok "201 Created"%string))).
Definition fallback_log : list op := [OUse (Some 0%nat) true true true; OGet 1; OUse (Some 1%nat) false false false; OUse (Some 1%nat) true true true].
Example alternative_falls_back : run_post (mkConfig NotForced true true) created direct_reset (Some (AltH3 (Some h3_broken))) 1 rewindable = (fallback_log, Some (Ok "201 Created"%string)).
Proof. vm_compute. reflexivity. Qed.
Example alternative_not_rewindable : run_post (mkConfig NotForced true true) created direct_reset (Some (AltH3 (Some h3_broken))) 1 (post None) =
  ([OUse (Some 0%nat) true true true], Some (Err (Plain (errors_New "H3_INTERNAL_ERROR")))).
Proof. vm_compute. reflexivity. Qed.
Example forced_not_rewindable : run_post (mkConfig ForceH3 true true) created h3_broken None 1 (post None) =
  ([OUse (Some 0%nat) true true true], Some (Err (Plain (errors_New "H3_INTERNAL_ERROR")))).
Proof. vm_compute. reflexivity. Qed.

Lemma round_trip_bodies_witness : whole ∅ post_log /\ all_closed (body0 rewindable) post_log /\ (sends post_log <= 1)%nat /\ is_Some (run_post plain_config stale_then_new direct_reset None 3 rewindable).2.
Proof.
  pose proof (round_trip_bodies any_name any_name any_token map_to_list (fun _ => None) (fun _ => None) stale_then_new no_cached no_cached direct_reset direct_reset (fun _ => true) (fun _ => true)
    plain_config 3 rewindable (Some (mkTarget "https" "example.com")) None) as H.
  pose proof post_retried as E. unfold run_post in E. rewrite E in H. unfold run_post. rewrite E.
  destruct H as (H1 & H2 & H3 & _). split; [exact H1|]. split; [|split; [apply H3|by eexists]].
  - apply H2; [|by eexists]. repeat split; try (intros Hp; done). intros i pc Hpc Hp. unfold stale_then_new in Hpc. injection Hpc as <-. by destruct (i <? 2)%nat.
  - split; [|split]; [intros e He Hp; reflexivity|intros e He Hp; reflexivity|]. intros i pc Hpc e He Hp. unfold stale_then_new in Hpc. injection Hpc as <-. destruct (i <? 2)%nat; [reflexivity|discriminate He].
  - reflexivity.
Defined.

(** Finding. With HTTP/3 forced and the fall-back enabled, any error of the HTTP/3 round
    trip but a cancellation makes the request be sent again over TCP: a POST the server
    already processed is sent a second time. *)
Theorem fallback_sends_again : exists log, run_post (mkConfig ForceH3 true true) created h3_broken None 1 rewindable = (log, Some (Ok "201 Created"%string)) /\
  isReplayable rewindable = false /\ sends log = 2%nat.
Proof. eexists. split; [vm_compute; reflexivity|]. split; reflexivity. Qed.
