(* ===== verification/H2Pool.v ===== *)
(** * The HTTP/2 connection pool ([src/internal/http2/client_conn_pool.go])

    Requests that look for a connection, the goroutines that dial or adopt one, and
    connections that die, as a system: one event is what one of them does under the
    pool's mutex, or one blocking call. Connections, calls, goroutines and requests are
    numbers. Whether a connection takes a request ([ReserveNewRequest],
    [CanTakeNewRequest]) is part of the event that asks. *)

From S2P Require Import Prelude.
From S2P Require Import H2Errors.

Abbreviation key := string (only parsing).
(** A [dialCall] or [addConnCall]: the context it was made for, and its result once
    [done] is closed. *)
Record call := mkCall { c_ctx : nat; c_result : option (result error nat) }.
Inductive goroutine :=
| GDial (c : nat) (addr : key) | GDialed (c : nat) (addr : key) (r : result error nat)
| GAdd (c : nat) (addr : key) | GAdded (c : nat) (addr : key) (r : result error nat).
(** A request blocked on [<-call.done]. *)
Inductive waiter := WDial (c : nat) (addr : key) (ctx : nat) | WAdd (c : nat) (dup : bool).
(** [ODirect]: [AddConnIfNeeded] found a usable connection. *)
Inductive output := OConn (cc : nat) | OErr (e : error) | OUsed (used : bool).
Record pool := mkPool {
  conns : gmap key (list nat); dialing : gmap key nat; keys : gmap nat (list key); addConnCalls : gmap key nat;
  calls : gmap nat call; goroutines : gmap nat goroutine; waiters : gmap nat waiter; returned : list (nat * output);
  created : gset nat; fresh : nat }.
Definition pool_init : pool := mkPool ∅ ∅ ∅ ∅ ∅ ∅ ∅ [] ∅ 0.

Definition set_conns v p := mkPool v (dialing p) (keys p) (addConnCalls p) (calls p) (goroutines p) (waiters p) (returned p) (created p) (fresh p).
Definition set_dialing v p := mkPool (conns p) v (keys p) (addConnCalls p) (calls p) (goroutines p) (waiters p) (returned p) (created p) (fresh p).
Definition set_keys v p := mkPool (conns p) (dialing p) v (addConnCalls p) (calls p) (goroutines p) (waiters p) (returned p) (created p) (fresh p).
Definition set_addConnCalls v p := mkPool (conns p) (dialing p) (keys p) v (calls p) (goroutines p) (waiters p) (returned p) (created p) (fresh p).
Definition set_call c v p := mkPool (conns p) (dialing p) (keys p) (addConnCalls p) (<[c := v]> (calls p)) (goroutines p) (waiters p) (returned p) (created p) (fresh p).
Definition set_goroutines v p := mkPool (conns p) (dialing p) (keys p) (addConnCalls p) (calls p) v (waiters p) (returned p) (created p) (fresh p).
Definition set_waiters v p := mkPool (conns p) (dialing p) (keys p) (addConnCalls p) (calls p) (goroutines p) v (returned p) (created p) (fresh p).
Definition set_created v p := mkPool (conns p) (dialing p) (keys p) (addConnCalls p) (calls p) (goroutines p) (waiters p) (returned p) v (fresh p).
Definition next p := mkPool (conns p) (dialing p) (keys p) (addConnCalls p) (calls p) (goroutines p) (waiters p) (returned p) (created p) (S (fresh p)).
(** The request [r] returns. *)
Definition return_ r (o : output) p := mkPool (conns p) (dialing p) (keys p) (addConnCalls p) (calls p) (goroutines p) (delete r (waiters p)) (returned p ++ [(r, o)]) (created p) (fresh p).
Definition wait r w p := set_waiters (<[r := w]> (waiters p)) p.
Definition conns_of (p : pool) (k : key) : list nat := default [] (conns p !! k).
Definition keys_of (p : pool) (cc : nat) : list key := default [] (keys p !! cc).

(** ** Under the mutex *)
(** The call in flight for [addr], or a new one with its goroutine. *)
Definition getStartDialLocked (ctx : nat) (addr : key) (p : pool) : nat * pool :=
  match dialing p !! addr with
  | Some c => (c, p)
  | None =>
      let c := fresh p in
      let p := next (set_call c (mkCall ctx None) (set_dialing (<[addr := c]> (dialing p)) p)) in
      (c, next (set_goroutines (<[fresh p := GDial c addr]> (goroutines p)) p))
  end.
Definition addConnLocked (k : key) (cc : nat) (p : pool) : pool :=
  if bool_decide (cc ∈ conns_of p k) then p
  else set_keys (<[cc := keys_of p cc ++ [k]]> (keys p)) (set_conns (<[k := conns_of p k ++ [cc]]> (conns p)) p).
Definition filterOutClientConn (l : list nat) (exclude : nat) : list nat := filter (fun cc => cc <> exclude) l.
Definition removeFrom (cc : nat) (p : pool) (k : key) : pool :=
  match conns p !! k with
  | None => p
  | Some vv => match filterOutClientConn vv cc with [] => set_conns (delete k (conns p)) p | l => set_conns (<[k := l]> (conns p)) p end
  end.
Definition MarkDead (cc : nat) (p : pool) : pool :=
  let p := fold_left (removeFrom cc) (keys_of p cc) p in set_keys (delete cc (keys p)) p.

(** One pass of [GetClientConn]'s loop: a connection that takes the request, an error, or
    a dial to wait for. *)
Definition get_pass (r : nat) (addr : key) (ctx : nat) (dialOnMiss : bool) (takes : nat -> bool) (p : pool) : pool :=
  match filter (fun cc => takes cc = true) (conns_of p addr) with
  | cc :: _ => return_ r (OConn cc) p
  | [] =>
      if negb dialOnMiss then return_ r (OErr ErrNoCachedConn) p
      else let '(c, p) := getStartDialLocked ctx addr p in wait r (WDial c addr ctx) p
  end.
(** [shouldRetryDial]; [ctxDone]: the error of the call's context. *)
Definition shouldRetryDial (c : call) (err : error) (ctx : nat) (ctxDone : bool) : bool :=
  if (c_ctx c =? ctx)%nat then false
  else if negb (bool_decide (err = ctx_Canceled) || bool_decide (err = ctx_DeadlineExceeded)) then false
  else ctxDone.

Inductive event :=
| EGetOwn (r : nat) (res : option error)
| EGet (r : nat) (addr : key) (ctx : nat) (dialOnMiss : bool) (takes : nat -> bool)
| EDialed (g : nat) (res : option error) | EDialEnd (g : nat)
| EWake (r : nat) (ctxDone reserve : bool) (takes : nat -> bool)
| EAdd (r : nat) (addr : key) (takes : nat -> bool) | EAdded (g : nat) (res : option error) | EAddEnd (g : nat) | EAddWake (r : nat)
| EDead (cc : nat).

(** [dialClientConn] and [NewClientConn]: a new connection or an error. *)
Definition new_conn (res : option error) (p : pool) : result error nat * pool :=
  match res with Some e => (Err e, p) | None => (Ok (fresh p), next (set_created ({[fresh p]} ∪ created p) p)) end.
Definition finish_call (c : nat) (r : result error nat) (p : pool) : pool :=
  match calls p !! c with Some x => set_call c (mkCall (c_ctx x) (Some r)) p | None => p end.

Definition exec (e : event) (p : pool) : option pool :=
  match e with
  | EGetOwn r res => (* a request that closes its connection gets one of its own *)
      match waiters p !! r with
      | None => let '(x, p) := new_conn res p in Some (return_ r (match x with Ok cc => OConn cc | Err e => OErr e end) p)
      | Some _ => None
      end
  | EGet r addr ctx miss takes => match waiters p !! r with None => Some (get_pass r addr ctx miss takes p) | Some _ => None end
  | EDialed g res =>
      match goroutines p !! g with
      | Some (GDial c addr) => let '(x, p) := new_conn res p in Some (set_goroutines (<[g := GDialed c addr x]> (goroutines p)) p)
      | _ => None
      end
  | EDialEnd g =>
      match goroutines p !! g with
      | Some (GDialed c addr x) =>
          let p := set_dialing (delete addr (dialing p)) p in
          let p := match x with Ok cc => addConnLocked addr cc p | Err _ => p end in
          Some (finish_call c x (set_goroutines (delete g (goroutines p)) p))
      | _ => None
      end
  | EWake r ctxDone reserve takes =>
      match waiters p !! r with
      | Some (WDial c addr ctx) =>
          match calls p !! c with
          | Some (mkCall ctx' (Some x)) =>
              match x with
              | Err e => if shouldRetryDial (mkCall ctx' (Some x)) e ctx ctxDone then Some (get_pass r addr ctx true takes (set_waiters (delete r (waiters p)) p))
                         else Some (return_ r (OErr e) p)
              | Ok cc => if reserve then Some (return_ r (OConn cc) p) else Some (get_pass r addr ctx true takes (set_waiters (delete r (waiters p)) p))
              end
          | _ => None
          end
      | _ => None
      end
  | EAdd r addr takes =>
      match waiters p !! r with
      | Some _ => None
      | None =>
          match filter (fun cc => takes cc = true) (conns_of p addr) with
          | _ :: _ => Some (return_ r (OUsed false) p)
          | [] =>
              match addConnCalls p !! addr with
              | Some c => Some (wait r (WAdd c true) p)
              | None =>
                  let c := fresh p in
                  let p := next (set_call c (mkCall 0 None) (set_addConnCalls (<[addr := c]> (addConnCalls p)) p)) in
                  let p := next (set_goroutines (<[fresh p := GAdd c addr]> (goroutines p)) p) in
                  Some (wait r (WAdd c false) p)
              end
          end
      end
  | EAdded g res =>
      match goroutines p !! g with
      | Some (GAdd c addr) => let '(x, p) := new_conn res p in Some (set_goroutines (<[g := GAdded c addr x]> (goroutines p)) p)
      | _ => None
      end
  | EAddEnd g =>
      match goroutines p !! g with
      | Some (GAdded c addr x) =>
          let p := match x with Ok cc => addConnLocked addr cc p | Err _ => p end in
          let p := set_addConnCalls (delete addr (addConnCalls p)) p in
          Some (finish_call c x (set_goroutines (delete g (goroutines p)) p))
      | _ => None
      end
  | EAddWake r =>
      match waiters p !! r with
      | Some (WAdd c dup) =>
          match calls p !! c with
          | Some (mkCall _ (Some x)) => Some (return_ r (match x with Err e => OErr e | Ok _ => OUsed (negb dup) end) p)
          | _ => None
          end
      | _ => None
      end
  | EDead cc => if bool_decide (cc ∈ created p) then Some (MarkDead cc p) else None
  end.
Inductive reachable : pool -> Prop :=
| ReachInit : reachable pool_init
| ReachStep p e p' : reachable p -> exec e p = Some p' -> reachable p'.
Fixpoint run (es : list event) (p : pool) : option pool :=
  match es with [] => Some p | e :: es => match exec e p with Some p => run es p | None => None end end.

(** ** The index of connections *)
Record index_ok (p : pool) : Prop := {
  ix_agree : forall k cc, cc ∈ conns_of p k <-> k ∈ keys_of p cc;
  ix_conns : forall k l, conns p !! k = Some l -> l <> [] /\ NoDup l;
  ix_keys : forall cc, NoDup (keys_of p cc) }.

Lemma conns_of_insert k l k' p : conns_of (set_conns (<[k := l]> (conns p)) p) k' = if bool_decide (k' = k) then l else conns_of p k'.
Proof. unfold conns_of. cbn. case_bool_decide as H; [by rewrite H, lookup_insert_eq|by rewrite lookup_insert_ne]. Qed.
Lemma keys_of_insert cc l cc' p : keys_of (set_keys (<[cc := l]> (keys p)) p) cc' = if bool_decide (cc' = cc) then l else keys_of p cc'.
Proof. unfold keys_of. cbn. case_bool_decide as H; [by rewrite H, lookup_insert_eq|by rewrite lookup_insert_ne]. Qed.
Lemma conns_of_nodup p k : index_ok p -> NoDup (conns_of p k).
Proof. intros Hi. unfold conns_of. destruct (conns p !! k) eqn:E; [by apply (ix_conns p Hi) in E as [_ ?]|constructor]. Qed.

Lemma addConnLocked_index k cc p : index_ok p -> index_ok (addConnLocked k cc p).
Proof.
  intros Hi. unfold addConnLocked. case_bool_decide as Hin; [done|]. set (p1 := set_conns _ p).
  assert (k ∉ keys_of p cc) as Hnk by (by rewrite <- (ix_agree p Hi)). assert (forall x, keys_of p1 x = keys_of p x) as Hk by done.
  constructor.
  - intros k' cc'. change (cc' ∈ conns_of p1 k' <-> k' ∈ keys_of (set_keys (<[cc := keys_of p cc ++ [k]]> (keys p1)) p1) cc').
    unfold p1 at 1. rewrite conns_of_insert, keys_of_insert, Hk. do 2 case_bool_decide; subst; rewrite ?elem_of_app, ?list_elem_of_singleton, ?(ix_agree p Hi); tauto.
  - intros k' l. cbn. intros [[<- <-]|[_ Hl]]%lookup_insert_Some; [|by apply (ix_conns p Hi k')]. split; [by destruct (conns_of p k)|].
    apply NoDup_app. split; [by apply conns_of_nodup|]. split; [|apply NoDup_singleton]. intros x Hx ->%list_elem_of_singleton. done.
  - intros cc'. change (keys p) with (keys p1). rewrite keys_of_insert, Hk. case_bool_decide; [|apply (ix_keys p Hi)].
    apply NoDup_app. split; [apply (ix_keys p Hi)|]. split; [|apply NoDup_singleton]. intros x Hx ->%list_elem_of_singleton. done.
Qed.

(** Removing a connection from the lists of some keys. *)
Lemma removeFrom_keys cc p k : keys (removeFrom cc p k) = keys p.
Proof. unfold removeFrom. destruct (conns p !! k); [|done]. by destruct (filterOutClientConn l cc). Qed.
Lemma removeFrom_conns cc p k k' : conns_of (removeFrom cc p k) k' = if bool_decide (k' = k) then filterOutClientConn (conns_of p k) cc else conns_of p k'.
Proof.
  unfold removeFrom, conns_of. case_bool_decide as H.
  - subst k'. destruct (conns p !! k) as [vv|] eqn:E; [|by rewrite E]. cbn [default]. unfold id. destruct (filterOutClientConn vv cc) eqn:Ef; cbn; [by rewrite lookup_delete_eq|by rewrite lookup_insert_eq].
  - destruct (conns p !! k) as [vv|]; [|done]. destruct (filterOutClientConn vv cc); cbn; [by rewrite lookup_delete_ne|by rewrite lookup_insert_ne].
Qed.
Lemma removeFrom_lists cc p k : (forall k l, conns p !! k = Some l -> l <> [] /\ NoDup l) -> forall k' l, conns (removeFrom cc p k) !! k' = Some l -> l <> [] /\ NoDup l.
Proof.
  intros H k' l. unfold removeFrom. destruct (conns p !! k) as [vv|] eqn:E; [|apply H]. destruct (filterOutClientConn vv cc) as [|x l'] eqn:Ef; cbn.
  - intros [_ Hl]%lookup_delete_Some. by apply (H k').
  - intros [[<- <-]|[_ Hl]]%lookup_insert_Some; [|by apply (H k')]. split; [done|]. rewrite <- Ef. apply NoDup_filter. by apply (H k vv).
Qed.
Lemma remove_all_conns cc ks : forall p k, conns_of (fold_left (removeFrom cc) ks p) k = if bool_decide (k ∈ ks) then filterOutClientConn (conns_of p k) cc else conns_of p k.
Proof.
  induction ks as [|k0 ks IH]; intros p k; [done|]. cbn. rewrite IH, removeFrom_conns. destruct (decide (k = k0)) as [->|Hne].
  - rewrite (bool_decide_true (k0 = k0)), (bool_decide_true (k0 ∈ k0 :: ks)) by (done || left). case_bool_decide; [|done]. unfold filterOutClientConn. rewrite list_filter_filter. apply list_filter_iff. tauto.
  - rewrite (bool_decide_false (k = k0)) by done. destruct (decide (k ∈ ks)); [rewrite !bool_decide_true by (done || by right)|rewrite !bool_decide_false by (done || by intros [?|?]%elem_of_cons)]; done.
Qed.
Lemma remove_all_keys cc ks : forall p, keys (fold_left (removeFrom cc) ks p) = keys p.
Proof. induction ks as [|k ks IH]; intros p; [done|]. cbn. by rewrite IH, removeFrom_keys. Qed.
Lemma remove_all_lists cc ks : forall p, (forall k l, conns p !! k = Some l -> l <> [] /\ NoDup l) -> forall k' l, conns (fold_left (removeFrom cc) ks p) !! k' = Some l -> l <> [] /\ NoDup l.
Proof. induction ks as [|k ks IH]; intros p H; [done|]. cbn. apply IH. by apply removeFrom_lists. Qed.
Lemma keys_of_dead cc p x : keys_of (MarkDead cc p) x = if bool_decide (x = cc) then [] else keys_of p x.
Proof.
  unfold MarkDead, keys_of. cbn. rewrite remove_all_keys. case_bool_decide as H; [by rewrite H, lookup_delete_eq|by rewrite lookup_delete_ne].
Qed.
Lemma filterOut_absent l cc : cc ∉ l -> filterOutClientConn l cc = l.
Proof.
  unfold filterOutClientConn. induction l as [|x l IH]; intros H; [done|]. apply not_elem_of_cons in H as [H1 H2].
  rewrite filter_cons_True by done. by rewrite IH.
Qed.
Lemma conns_of_dead cc p k : index_ok p -> conns_of (MarkDead cc p) k = filterOutClientConn (conns_of p k) cc.
Proof.
  intros Hi. unfold MarkDead. change (conns_of (fold_left (removeFrom cc) (keys_of p cc) p) k = filterOutClientConn (conns_of p k) cc). rewrite remove_all_conns.
  case_bool_decide as H; [done|]. rewrite <- (ix_agree p Hi) in H. unfold filterOutClientConn. symmetry. by apply filterOut_absent.
Qed.
Lemma MarkDead_index cc p : index_ok p -> index_ok (MarkDead cc p).
Proof.
  intros Hi. constructor.
  - intros k x. rewrite conns_of_dead, keys_of_dead by done. unfold filterOutClientConn. rewrite list_elem_of_filter, (ix_agree p Hi). case_bool_decide; subst; [|tauto]. split; [tauto|by intros ?%not_elem_of_nil].
  - unfold MarkDead. cbn. apply remove_all_lists. apply (ix_conns p Hi).
  - intros x. rewrite keys_of_dead. case_bool_decide; [constructor|apply (ix_keys p Hi)].
Qed.

(** ** Calls, the goroutines that run them and the requests that wait for them *)
(** Whether the goroutine dials, its call and its address. *)
Definition job (x : goroutine) : bool * nat * key :=
  match x with GDial c k | GDialed c k _ => (true, c, k) | GAdd c k | GAdded c k _ => (false, c, k) end.
Definition call_of (x : goroutine) : nat := (job x).1.2.
Definition waits_for (w : waiter) : nat := match w with WDial c _ _ | WAdd c _ => c end.

(** [d], [a]: the calls in flight; [n]: the next fresh number. *)
Record calls_ok (d a : gmap key nat) (cs : gmap nat call) (gs : gmap nat goroutine) (ws : gmap nat waiter) (n : nat) : Prop := {
  co_table : forall (b : bool) k c, (if b then d else a) !! k = Some c <-> exists g x, gs !! g = Some x /\ job x = (b, c, k);
  co_unique : forall g g' x x', gs !! g = Some x -> gs !! g' = Some x' -> call_of x = call_of x' -> g = g';
  co_open : forall c y, cs !! c = Some y -> (c_result y = None <-> exists g x, gs !! g = Some x /\ call_of x = c);
  co_call : forall g x, gs !! g = Some x -> is_Some (cs !! call_of x);
  co_wait : forall r w, ws !! r = Some w -> is_Some (cs !! waits_for w);
  co_fresh : forall i, (n <= i)%nat -> gs !! i = None /\ cs !! i = None }.
Definition pool_calls_ok (p : pool) : Prop := calls_ok (dialing p) (addConnCalls p) (calls p) (goroutines p) (waiters p) (fresh p).

Section CallsOk.
Context {d a : gmap key nat} {cs : gmap nat call} {gs : gmap nat goroutine} {ws : gmap nat waiter} {n : nat} (H : calls_ok d a cs gs ws n).

Lemma calls_ok_wait r w : is_Some (cs !! waits_for w) -> calls_ok d a cs gs (<[r := w]> ws) n.
Proof. intros Hw. destruct H as [H1 H2 H3 H4 H5 H6]. constructor; try done. intros r' w' [[_ <-]|[_ ?]]%lookup_insert_Some; [done|by apply (H5 r')]. Qed.
Lemma calls_ok_leave r : calls_ok d a cs gs (delete r ws) n.
Proof. destruct H as [H1 H2 H3 H4 H5 H6]. constructor; try done. intros r' w' [_ ?]%lookup_delete_Some. by apply (H5 r'). Qed.
Lemma calls_ok_fresh n' : (n <= n')%nat -> calls_ok d a cs gs ws n'.
Proof. intros Hn. destruct H as [H1 H2 H3 H4 H5 H6]. constructor; try done. intros i Hi. apply H6. lia. Qed.

(** The goroutine goes on with its call. *)
Lemma calls_ok_go g x x' : gs !! g = Some x -> job x' = job x -> calls_ok d a cs (<[g := x']> gs) ws n.
Proof.
  intros Hg Hj. assert (call_of x' = call_of x) as Hc by (unfold call_of; by rewrite Hj).
  assert (forall P : goroutine -> Prop, (forall y, job y = job x -> P y <-> P x) -> (exists i y, <[g := x']> gs !! i = Some y /\ P y) <-> exists i y, gs !! i = Some y /\ P y) as Hex.
  { intros P HP. split.
    - intros (i & y & [[<- <-]|[_ Hy]]%lookup_insert_Some & Hp); [|by eauto]. exists g, x. split; [done|by apply (HP x')].
    - intros (i & y & Hy & Hp). destruct (decide (i = g)) as [->|Hne].
      + exists g, x'. rewrite lookup_insert_eq. split; [done|]. rewrite Hg in Hy. injection Hy as ->. by apply (HP x').
      + exists i, y. by rewrite lookup_insert_ne. }
  destruct H as [H1 H2 H3 H4 H5 H6]. constructor.
  - intros b k c. rewrite H1. symmetry. apply Hex. intros y ->. done.
  - intros i j y z Hi Hj' Heq.
    assert (forall i y, <[g := x']> gs !! i = Some y -> exists y0, gs !! i = Some y0 /\ call_of y0 = call_of y) as Hb.
    { intros i0 y0 [[<- <-]|[_ Hy]]%lookup_insert_Some; [by exists x|by exists y0]. }
    destruct (Hb i y Hi) as (y0 & Hy & E1), (Hb j z Hj') as (z0 & Hz & E2). apply (H2 i j y0 z0); try done. congruence.
  - intros c y Hy. rewrite (H3 c y Hy). symmetry. apply (Hex (fun z => call_of z = c)). intros z Hz. unfold call_of. by rewrite Hz.
  - intros i y [[_ <-]|[_ Hy]]%lookup_insert_Some; [rewrite Hc; by apply (H4 g)|by apply (H4 i)].
  - done.
  - intros i Hi. destruct (H6 i Hi) as [E1 E2]. split; [|done]. rewrite lookup_insert_ne by (intros <-; congruence). done.
Qed.
Lemma calls_ok_lt g x : gs !! g = Some x -> (g < n)%nat /\ (call_of x < n)%nat.
Proof.
  intros Hg. destruct (co_call _ _ _ _ _ _ H g x Hg) as [y Hy].
  split; apply Nat.nle_gt; intros Hle; destruct (co_fresh _ _ _ _ _ _ H _ Hle); congruence.
Qed.

(** A new call and its goroutine. *)
Lemma calls_ok_start (b : bool) k ctx : (if b then d else a) !! k = None ->
  calls_ok (if b then <[k := n]> d else d) (if b then a else <[k := n]> a) (<[n := mkCall ctx None]> cs)
           (<[S n := if b then GDial n k else GAdd n k]> gs) ws (S (S n)).
Proof.
  intros Hk. pose proof calls_ok_lt as Hlt. destruct H as [H1 H2 H3 H4 H5 H6]. destruct (H6 n) as [Gn Cn]; [lia|]. destruct (H6 (S n)) as [Gs Cs]; [lia|].
  set (x0 := if b then GDial n k else GAdd n k). assert (job x0 = (b, n, k)) as J0 by by destruct b.
  assert (call_of x0 = n) as C0 by (unfold call_of; by rewrite J0).
  assert (forall P : goroutine -> Prop, (exists i y, <[S n := x0]> gs !! i = Some y /\ P y) <-> P x0 \/ exists i y, gs !! i = Some y /\ P y) as Hex.
  { intros P. split.
    - intros (i & y & [[<- <-]|[_ Hy]]%lookup_insert_Some & Hp); [by left|right; eauto].
    - intros [Hp|(i & y & Hy & Hp)]; [exists (S n), x0; by rewrite lookup_insert_eq|]. exists i, y. rewrite lookup_insert_ne; [done|]. intros <-. congruence. }
  constructor.
  - intros b' k' c. rewrite (Hex (fun y => job y = (b', c, k'))), J0, <- H1.
    clear - Hk. destruct b, b'; rewrite ?lookup_insert_Some; destruct (decide (k' = k)) as [->|Hne]; rewrite ?Hk; naive_solver.
  - intros i j y z Hi Hj Heq. apply lookup_insert_Some in Hi as [[<- <-]|[_ Hi]], Hj as [[<- <-]|[_ Hj]]; [done| | |by apply (H2 i j y z)].
    + pose proof (Hlt j z Hj). lia.
    + pose proof (Hlt i y Hi). lia.
  - intros c y Hy. rewrite (Hex (fun z => call_of z = c)), C0. apply lookup_insert_Some in Hy as [[<- <-]|[Hne Hy]]; [cbn; tauto|].
    rewrite (H3 c y Hy). split; [by right|]. intros [?|?]; done.
  - intros i y [[_ <-]|[_ Hy]]%lookup_insert_Some; [rewrite C0, lookup_insert_eq; done|]. pose proof (Hlt i y Hy). rewrite lookup_insert_ne by lia. by apply (H4 i).
  - intros r w Hw. destruct (H5 r w Hw) as [y Hy]. rewrite lookup_insert_ne by (intros E; rewrite <- E in Hy; congruence). by exists y.
  - intros i Hi. rewrite !lookup_insert_ne by lia. apply H6. lia.
Qed.

(** The goroutine ends and its call with it. *)
Lemma calls_ok_finish (b : bool) g x c k ctx r : gs !! g = Some x -> job x = (b, c, k) ->
  calls_ok (if b then delete k d else d) (if b then a else delete k a) (<[c := mkCall ctx (Some r)]> cs) (delete g gs) ws n.
Proof.
  intros Hg Hj. pose proof (calls_ok_lt g x Hg) as [_ Hlt]. destruct H as [H1 H2 H3 H4 H5 H6]. assert (call_of x = c) as Hc by (unfold call_of; by rewrite Hj). rewrite Hc in Hlt.
  assert (forall i y, gs !! i = Some y -> i <> g -> call_of y <> c) as Hne. { intros i y Hi Hig E. apply Hig. apply (H2 i g y x); try done. congruence. }
  constructor.
  - intros b' k' c'.
    assert ((exists i y, delete g gs !! i = Some y /\ job y = (b', c', k')) <-> (if b' then d else a) !! k' = Some c' /\ c' <> c) as ->.
    { rewrite H1. split.
      - intros (i & y & [Hi Hy]%lookup_delete_Some & E). split; [by exists i, y|]. intros ->. apply (Hne i y); try done. unfold call_of. by rewrite E.
      - intros [(i & y & Hy & E) Hcc]. exists i, y. rewrite lookup_delete_ne; [done|]. intros <-. rewrite Hg in Hy. injection Hy as <-. congruence. }
    assert ((if b then d else a) !! k = Some c) as Hk by (apply H1; eauto).
    assert (b' = b -> (if b' then d else a) !! k' = Some c' -> c' <> c <-> k' <> k) as Hsame.
    { intros -> Hk'. split; [intros Hn ->; congruence|]. intros Hn ->. apply H1 in Hk' as (i & y & Hy & E). apply Hn.
      assert (i = g) as -> by (apply (H2 i g y x); try done; unfold call_of; by rewrite E, Hj). rewrite Hg in Hy. injection Hy as <-. congruence. }
    assert (b' <> b -> (if b' then d else a) !! k' = Some c' -> c' <> c) as Hother.
    { intros Hb (i & y & Hy & E)%H1 ->. apply Hb. assert (i = g) as -> by (apply (H2 i g y x); try done; unfold call_of; by rewrite E, Hj).
      rewrite Hg in Hy. injection Hy as <-. congruence. }
    clear - Hk Hsame Hother. destruct b, b'; rewrite ?lookup_delete_Some; naive_solver.
  - intros i j y z [_ Hi]%lookup_delete_Some [_ Hj']%lookup_delete_Some. by apply H2.
  - intros c' y [[<- <-]|[Hcc Hy]]%lookup_insert_Some; cbn.
    + split; [done|]. intros (i & y & [Hi Hy]%lookup_delete_Some & E). by destruct (Hne i y Hy).
    + rewrite (H3 c' y Hy). split; intros (i & z & Hz & E).
      * exists i, z. rewrite lookup_delete_ne; [done|]. intros <-. congruence.
      * apply lookup_delete_Some in Hz as [_ Hz]. by exists i, z.
  - intros i y [Hi Hy]%lookup_delete_Some. rewrite lookup_insert_ne by (by apply not_eq_sym, (Hne i)). by apply (H4 i).
  - intros r' w Hw. destruct (decide (waits_for w = c)) as [->|]; [rewrite lookup_insert_eq; done|]. rewrite lookup_insert_ne by done. by apply (H5 r').
  - intros i Hi. destruct (H6 i Hi) as [E1 E2]. rewrite lookup_insert_ne by lia. split; [|done]. by apply lookup_delete_None; right.
Qed.
End CallsOk.

(** ** Every event preserves both *)
Definition pool_ok (p : pool) : Prop := index_ok p /\ pool_calls_ok p.
Lemma index_same p p' : conns p' = conns p -> keys p' = keys p -> index_ok p -> index_ok p'.
Proof.
  intros Hc Hk [H1 H2 H3]. assert (forall k, conns_of p' k = conns_of p k) as E1 by (intros k; unfold conns_of; by rewrite Hc).
  assert (forall cc, keys_of p' cc = keys_of p cc) as E2 by (intros k; unfold keys_of; by rewrite Hk).
  constructor; [intros k cc; rewrite E1, E2; apply H1|by rewrite Hc|intros cc; rewrite E2; apply H3].
Qed.
Lemma pool_init_ok : pool_ok pool_init.
Proof.
  split; constructor; try done.
  - intros k cc. cbn. split; by intros ?%not_elem_of_nil.
  - intros cc. constructor.
  - intros b k c. cbn. destruct b; split; try done; intros (g & x & Hg & _); done.
Qed.
(** Steps that only change who waits and what was returned. *)
Lemma return_ok r o p : pool_ok p -> pool_ok (return_ r o p).
Proof. intros [Hi Hc]. split; [by apply (index_same p)|]. apply (calls_ok_leave Hc). Qed.
Lemma leave_ok r p : pool_ok p -> pool_ok (set_waiters (delete r (waiters p)) p).
Proof. intros [Hi Hc]. split; [by apply (index_same p)|]. apply (calls_ok_leave Hc). Qed.
Lemma wait_ok r w p : pool_ok p -> is_Some (calls p !! waits_for w) -> pool_ok (wait r w p).
Proof. intros [Hi Hc] Hw. split; [by apply (index_same p)|]. by apply (calls_ok_wait Hc). Qed.
Lemma getStartDialLocked_ok ctx addr p c p' : pool_ok p -> getStartDialLocked ctx addr p = (c, p') -> pool_ok p' /\ is_Some (calls p' !! c).
Proof.
  intros [Hi Hc]. unfold getStartDialLocked. destruct (dialing p !! addr) as [c0|] eqn:E; intros [= <- <-].
  - split; [done|]. apply (co_table _ _ _ _ _ _ Hc true) in E as (g & x & Hg & Hj). destruct (co_call _ _ _ _ _ _ Hc g x Hg) as [y Hy].
    exists y. unfold call_of in Hy. by rewrite Hj in Hy.
  - split; [|cbn; rewrite lookup_insert_eq; done]. split; [by apply (index_same p)|]. apply (calls_ok_start Hc true addr ctx E).
Qed.
Lemma get_pass_ok r addr ctx miss takes p : pool_ok p -> pool_ok (get_pass r addr ctx miss takes p).
Proof.
  intros Hp. unfold get_pass. destruct (filter _ _); [|by apply return_ok]. destruct miss; [|by apply return_ok]. cbn [negb].
  destruct (getStartDialLocked ctx addr p) as [c p'] eqn:E. destruct (getStartDialLocked_ok _ _ _ _ _ Hp E). by apply wait_ok.
Qed.
Lemma new_conn_ok res p x p' : pool_ok p -> new_conn res p = (x, p') -> pool_ok p' /\ goroutines p' = goroutines p.
Proof.
  intros [Hi Hc]. destruct res as [e|]; intros [= <- <-]; [done|]. split; [|done]. split; [by apply (index_same p)|]. apply (calls_ok_fresh Hc). cbn. lia.
Qed.
Lemma go_ok g x x' p : pool_ok p -> goroutines p !! g = Some x -> job x' = job x -> pool_ok (set_goroutines (<[g := x']> (goroutines p)) p).
Proof. intros [Hi Hc] Hg Hj. split; [by apply (index_same p)|]. by apply (calls_ok_go Hc g x). Qed.
(** [addConnLocked] and [MarkDead] only change the index. *)
Definition calls_part p := (dialing p, addConnCalls p, calls p, goroutines p, waiters p, fresh p).
Lemma addConnLocked_calls k cc p : calls_part (addConnLocked k cc p) = calls_part p.
Proof. unfold addConnLocked. by case_bool_decide. Qed.
Lemma MarkDead_calls cc p : calls_part (MarkDead cc p) = calls_part p.
Proof.
  unfold MarkDead. change (calls_part (fold_left (removeFrom cc) (keys_of p cc) p) = calls_part p). generalize (keys_of p cc). intros ks. revert p.
  induction ks as [|k ks IH]; intros p; [done|]. cbn. rewrite IH. unfold removeFrom. destruct (conns p !! k); [|done]. by destruct (filterOutClientConn l cc).
Qed.
Lemma calls_part_ok p p' : calls_part p' = calls_part p -> pool_calls_ok p -> pool_calls_ok p'.
Proof. unfold calls_part, pool_calls_ok. by intros [= -> -> -> -> -> ->]. Qed.
(** What a goroutine adds to the index when it ends. *)
Definition adopt (addr : key) (x : result error nat) (p : pool) : pool := match x with Ok cc => addConnLocked addr cc p | Err _ => p end.
Lemma adopt_ok addr x p : index_ok p -> index_ok (adopt addr x p) /\ calls_part (adopt addr x p) = calls_part p.
Proof. intros Hi. destruct x; [|done]. split; [by apply addConnLocked_index|apply addConnLocked_calls]. Qed.
(** The end of a goroutine, with [q] the pool in which its result was recorded. *)
Lemma finish_ok b g x c k r p q : pool_ok p -> goroutines p !! g = Some x -> job x = (b, c, k) ->
  index_ok q -> calls_part q = (if b then delete k (dialing p) else dialing p, if b then addConnCalls p else delete k (addConnCalls p), calls p, goroutines p, waiters p, fresh p) ->
  pool_ok (finish_call c r (set_goroutines (delete g (goroutines q)) q)).
Proof.
  intros [Hi Hc] Hg Hj Hq E. unfold calls_part in E. injection E as E1 E2 E3 E4 E5 E6.
  destruct (co_call _ _ _ _ _ _ Hc g x Hg) as [y Hy]. unfold call_of in Hy. rewrite Hj in Hy. unfold finish_call. cbn. rewrite E3. cbn in Hy. rewrite Hy.
  split; [by apply (index_same q)|]. unfold pool_calls_ok. cbn. rewrite E1, E2, E3, E4, E5, E6. by apply (calls_ok_finish Hc b g x).
Qed.
Lemma pool_event_ok e p p' : pool_ok p -> exec e p = Some p' -> pool_ok p'.
Proof.
  intros Hp. pose proof Hp as [Hi Hc]. destruct e as [r res|r addr ctx miss takes|g res|g|r ctxDone reserve takes|r addr takes|g res|g|r|cc]; cbn [exec].
  - destruct (waiters p !! r); [done|]. destruct (new_conn res p) as [x q] eqn:E. intros [= <-]. apply return_ok. by apply (new_conn_ok res p x q).
  - destruct (waiters p !! r); [done|]. intros [= <-]. by apply get_pass_ok.
  - destruct (goroutines p !! g) as [[c addr| | |]|] eqn:Hg; try done. destruct (new_conn res p) as [x q] eqn:E. intros [= <-].
    destruct (new_conn_ok res p x q Hp E) as [Hq Eg]. apply (go_ok g (GDial c addr)); [done|by rewrite Eg|done].
  - destruct (goroutines p !! g) as [[|c addr x| |]|] eqn:Hg; try done. intros [= <-]. set (p1 := set_dialing _ p).
    destruct (adopt_ok addr x p1) as [H1 H2]; [by apply (index_same p)|]. by apply (finish_ok true g (GDialed c addr x) c addr x p (adopt addr x p1)).
  - destruct (waiters p !! r) as [[c addr ctx|]|]; try done. destruct (calls p !! c) as [[ctx' [[cc|e]|]]|]; try done.
    + destruct reserve; intros [= <-]; [by apply return_ok|]. by apply get_pass_ok, leave_ok.
    + destruct (shouldRetryDial _ _ _ _); intros [= <-]; [|by apply return_ok]. by apply get_pass_ok, leave_ok.
  - destruct (waiters p !! r) eqn:Ew; [done|]. destruct (filter _ _); [|intros [= <-]; by apply return_ok]. destruct (addConnCalls p !! addr) as [c|] eqn:E; intros [= <-].
    + apply wait_ok; [done|]. apply (co_table _ _ _ _ _ _ Hc false) in E as (g & x & Hg & Hj). destruct (co_call _ _ _ _ _ _ Hc g x Hg) as [y Hy]. exists y. unfold call_of in Hy. by rewrite Hj in Hy.
    + apply wait_ok; [|cbn; rewrite lookup_insert_eq; done]. split; [by apply (index_same p)|]. apply (calls_ok_start Hc false addr 0 E).
  - destruct (goroutines p !! g) as [[| |c addr|]|] eqn:Hg; try done. destruct (new_conn res p) as [x q] eqn:E. intros [= <-].
    destruct (new_conn_ok res p x q Hp E) as [Hq Eg]. apply (go_ok g (GAdd c addr)); [done|by rewrite Eg|done].
  - destruct (goroutines p !! g) as [[| | |c addr x]|] eqn:Hg; try done. intros [= <-].
    destruct (adopt_ok addr x p Hi) as [H1 H2]. unfold calls_part in H2. injection H2 as E1 E2 E3 E4 E5 E6.
    apply (finish_ok false g (GAdded c addr x) c addr x p (set_addConnCalls (delete addr (addConnCalls (adopt addr x p))) (adopt addr x p))); try done.
    + by apply (index_same (adopt addr x p)).
    + unfold calls_part. cbn. by rewrite E1, E2, E3, E4, E5, E6.
  - destruct (waiters p !! r) as [[|c dup]|]; try done. destruct (calls p !! c) as [[ctx' [x|]]|]; try done. intros [= <-]. by apply return_ok.
  - case_bool_decide; [|done]. intros [= <-]. split; [by apply MarkDead_index|]. by apply (calls_part_ok p); [apply MarkDead_calls|].
Qed.
Lemma reachable_ok p : reachable p -> pool_ok p.
Proof. induction 1; [apply pool_init_ok|by eapply pool_event_ok]. Qed.

(** ** Where a connection can be listed from *)
(** The connection a goroutine holds, until it lists it. *)
Definition holds (x : goroutine) (cc : nat) : Prop := match x with GDialed _ _ (Ok c) | GAdded _ _ (Ok c) => c = cc | _ => False end.
Definition held (p : pool) (cc : nat) : Prop := exists g x, goroutines p !! g = Some x /\ holds x cc.
Definition listed (p : pool) (cc : nat) : Prop := exists k, cc ∈ conns_of p k.
Record owned_ok (p : pool) : Prop := {
  ow_listed : forall cc, listed p cc -> ~ held p cc /\ (cc < fresh p)%nat;
  ow_held : forall g g' x x' cc, goroutines p !! g = Some x -> goroutines p !! g' = Some x' -> holds x cc -> holds x' cc -> g = g';
  ow_fresh : forall cc, held p cc -> (cc < fresh p)%nat }.
(** Neither listed nor about to be. *)
Definition gone (p : pool) (cc : nat) : Prop := ~ held p cc /\ ~ listed p cc /\ (cc < fresh p)%nat.

(** Steps that list nothing and give no goroutine a connection. *)
Definition no_more (p p' : pool) : Prop := (forall cc, listed p' cc -> listed p cc) /\ (fresh p <= fresh p')%nat /\
  forall g x cc, goroutines p' !! g = Some x -> holds x cc -> goroutines p !! g = Some x.
#[export] Instance no_more_preorder : PreOrder no_more.
Proof. split; [by intros p|]. intros p q r (H1 & H2 & H3) (G1 & G2 & G3). split; [auto|]. split; [lia|eauto]. Qed.
Lemma no_more_held p p' cc : no_more p p' -> held p' cc -> held p cc.
Proof. intros (_ & _ & H) (g & x & Hg & Hx). exists g, x. eauto. Qed.
Lemma no_more_owned p p' : no_more p p' -> owned_ok p -> owned_ok p'.
Proof.
  intros Hn [H1 H2 H3]. pose proof (no_more_held p p') as Hh. pose proof Hn as (N1 & N2 & N3). constructor.
  - intros cc Hl. destruct (H1 cc (N1 _ Hl)). split; [auto|lia].
  - intros g g' x x' cc Hg Hg' Hx Hx'. apply (H2 g g' x x' cc); eauto.
  - intros cc Hc. specialize (H3 cc (Hh cc Hn Hc)). lia.
Qed.
Lemma no_more_gone p p' cc : no_more p p' -> gone p cc -> gone p' cc.
Proof. intros Hn (H1 & H2 & H3). pose proof (no_more_held p p' cc Hn). destruct Hn as (N1 & N2 & _). split; [auto|]. split; [auto|lia]. Qed.
Lemma no_more_same p p' : conns p' = conns p -> (fresh p <= fresh p')%nat -> goroutines p' = goroutines p -> no_more p p'.
Proof. intros Hc Hf Hg. split; [|split; [done|intros g x cc; by rewrite Hg]]. intros cc [k Hk]. exists k. unfold conns_of in *. by rewrite <- Hc. Qed.
Lemma no_more_go p p' g x : conns p' = conns p -> (fresh p <= fresh p')%nat -> goroutines p' = <[g := x]> (goroutines p) -> (forall cc, ~ holds x cc) -> no_more p p'.
Proof.
  intros Hc Hf Hg Hx. split; [intros cc [k Hk]; exists k; unfold conns_of in *; by rewrite <- Hc|]. split; [done|]. intros g' x' cc H Hh. rewrite Hg in H.
  apply lookup_insert_Some in H as [[<- <-]|[_ ?]]; [by destruct (Hx cc)|done].
Qed.
Lemma no_more_finish c r p : no_more p (finish_call c r p).
Proof. unfold finish_call. destruct (calls p !! c); [by apply no_more_same|done]. Qed.
Lemma no_more_start ctx addr p : no_more p (getStartDialLocked ctx addr p).2.
Proof.
  unfold getStartDialLocked. destruct (dialing p !! addr); [done|]. apply (no_more_go _ _ (S (fresh p)) (GDial (fresh p) addr)); cbn; auto with lia.
Qed.
Lemma no_more_get r addr ctx miss takes p : no_more p (get_pass r addr ctx miss takes p).
Proof.
  unfold get_pass. destruct (filter _ _); [|by apply no_more_same]. destruct miss; [|by apply no_more_same]. cbn [negb].
  pose proof (no_more_start ctx addr p) as H. destruct (getStartDialLocked ctx addr p) as [c q]. etrans; [exact H|]. by apply no_more_same.
Qed.
Lemma no_more_dead cc p : index_ok p -> no_more p (MarkDead cc p).
Proof.
  intros Hi. pose proof (MarkDead_calls cc p) as E. unfold calls_part in E. injection E as _ _ _ E4 _ E6. split; [|split; [cbn; by rewrite E6|intros g x c; cbn; by rewrite E4]].
  intros c [k Hk]. exists k. rewrite conns_of_dead in Hk by done. by apply list_elem_of_filter in Hk as [_ Hk].
Qed.
Lemma adopt_same addr x p : goroutines (adopt addr x p) = goroutines p /\ fresh (adopt addr x p) = fresh p.
Proof. destruct x as [c|]; [|done]. cbn. unfold addConnLocked. by case_bool_decide. Qed.
Lemma listed_adopt addr x p cc : listed (adopt addr x p) cc -> listed p cc \/ x = Ok cc.
Proof.
  destruct x as [c|]; [|by left]. cbn. unfold addConnLocked. case_bool_decide; [by left|]. intros [k Hk].
  change (cc ∈ conns_of (set_conns (<[addr := conns_of p addr ++ [c]]> (conns p)) p) k) in Hk. rewrite conns_of_insert in Hk. case_bool_decide; [|left; by exists k].
  apply elem_of_app in Hk as [Hk|Hk%list_elem_of_singleton]; [left; by exists addr|right; by rewrite Hk].
Qed.
(** A goroutine gets its connection, which is new. *)
Lemma owned_new g x0 x res p q : owned_ok p -> goroutines p !! g = Some x0 -> new_conn res p = (x, q) -> forall y, (forall cc, holds y cc -> x = Ok cc) ->
  owned_ok (set_goroutines (<[g := y]> (goroutines q)) q) /\ forall cc, gone p cc -> gone (set_goroutines (<[g := y]> (goroutines q)) q) cc.
Proof.
  intros Ho Hg Hn y Hy. destruct res as [e|]; cbn in Hn; injection Hn as <- <-.
  { assert (no_more p (set_goroutines (<[g := y]> (goroutines p)) p)) as N by (apply (no_more_go _ _ g y); [done|done|done|]; intros cc Hc; by specialize (Hy cc Hc)).
    split; [by apply (no_more_owned p)|]. intros cc. by apply no_more_gone. }
  set (q := next _). assert (forall cc, held (set_goroutines (<[g := y]> (goroutines q)) q) cc -> cc = fresh p \/ held p cc) as Hh.
  { intros cc (g' & x' & Hx & Hc). cbn in Hx. apply lookup_insert_Some in Hx as [[_ <-]|[_ Hx]]; [left; specialize (Hy cc Hc); congruence|right; by exists g', x']. }
  assert (forall cc, listed (set_goroutines (<[g := y]> (goroutines q)) q) cc -> listed p cc) as Hl by done.
  destruct Ho as [H1 H2 H3]. split; [constructor|].
  - intros cc Hc. destruct (H1 cc (Hl cc Hc)) as [Hn Hlt]. cbn. split; [|lia]. intros [->|?]%Hh; [lia|done].
  - intros g1 g2 x1 x2 cc E1 E2 C1 C2. cbn in E1, E2. apply lookup_insert_Some in E1 as [[<- <-]|[N1 E1]], E2 as [[<- <-]|[N2 E2]]; [done| | |by apply (H2 g1 g2 x1 x2 cc)].
    + specialize (Hy cc C1). injection Hy as <-. assert (held p (fresh p)) as Hc by (by exists g2, x2). specialize (H3 _ Hc). lia.
    + specialize (Hy cc C2). injection Hy as <-. assert (held p (fresh p)) as Hc by (by exists g1, x1). specialize (H3 _ Hc). lia.
  - intros cc [->|Hc]%Hh; cbn; [lia|]. specialize (H3 cc Hc). lia.
  - intros cc (G1 & G2 & G3). split; [intros [->|?]%Hh; [lia|done]|]. split; [auto|cbn; lia].
Qed.
(** A goroutine lists its connection and ends. *)
Lemma owned_end g x c r p q : owned_ok p -> goroutines p !! g = Some x -> (forall cc, r = Ok cc -> holds x cc) ->
  goroutines q = goroutines p -> fresh q = fresh p -> (forall cc, listed q cc -> listed p cc \/ r = Ok cc) ->
  let p' := finish_call c r (set_goroutines (delete g (goroutines q)) q) in owned_ok p' /\ forall cc, gone p cc -> gone p' cc.
Proof.
  intros [H1 H2 H3] Hg Hr Eg Ef Hl p'. set (p1 := set_goroutines (delete g (goroutines q)) q).
  assert (forall cc, held p1 cc -> held p cc /\ r <> Ok cc) as Hh.
  { intros cc (g' & x' & Hx & Hc). cbn in Hx. apply lookup_delete_Some in Hx as [Hne Hx]. rewrite Eg in Hx. split; [by exists g', x'|]. intros E. apply Hne. by apply (H2 g g' x x' cc); auto. }
  assert (no_more p1 p') as N by apply no_more_finish.
  split; [apply (no_more_owned p1 p' N); constructor|intros cc (G1 & G2 & G3); apply (no_more_gone p1 p' cc N)].
  - intros cc Hc. cbn. rewrite Ef. destruct (Hl cc Hc) as [Hc'|E].
    + destruct (H1 cc Hc'). split; [intros [? _]%Hh; done|done].
    + split; [by intros [_ ?]%Hh|]. apply H3. exists g, x. auto.
  - intros g1 g2 x1 x2 cc E1 E2. cbn in E1, E2. apply lookup_delete_Some in E1 as [_ E1], E2 as [_ E2]. rewrite Eg in E1, E2. by apply (H2 g1 g2 x1 x2 cc).
  - intros cc [Hc _]%Hh. cbn. rewrite Ef. by apply H3.
  - split; [by intros [? _]%Hh|]. split; [|cbn; by rewrite Ef]. intros [?|E]%Hl; [done|]. apply G1. exists g, x. auto.
Qed.
Lemma owned_event e p p' : index_ok p -> owned_ok p -> exec e p = Some p' -> owned_ok p' /\ forall cc, gone p cc -> gone p' cc.
Proof.
  intros Hi Ho He. assert (no_more p p' -> owned_ok p' /\ forall cc, gone p cc -> gone p' cc) as HN by (intros N; split; [by apply (no_more_owned p)|intros cc; by apply no_more_gone]).
  destruct e as [r res|r addr ctx miss takes|g res|g|r ctxDone reserve takes|r addr takes|g res|g|r|cc]; cbn [exec] in He.
  - apply HN. destruct (waiters p !! r), res; try done; injection He as <-; apply no_more_same; cbn; auto with lia.
  - apply HN. destruct (waiters p !! r); [done|]. injection He as <-. apply no_more_get.
  - destruct (goroutines p !! g) as [[c addr| | |]|] eqn:Hg; try done. destruct (new_conn res p) as [x q] eqn:E. injection He as <-.
    apply (owned_new g (GDial c addr) x res p q Ho Hg E). intros cc Hc. destruct x; cbn in Hc; [by subst|done].
  - destruct (goroutines p !! g) as [[|c addr x| |]|] eqn:Hg; try done. injection He as <-.
    set (p1 := set_dialing _ p). apply (owned_end g _ c x p (adopt addr x p1) Ho Hg); [by intros cc ->|apply (adopt_same addr x p1)..|].
    intros cc Hl. by apply (listed_adopt addr x p1).
  - apply HN. destruct (waiters p !! r) as [[c addr ctx|]|]; try done. destruct (calls p !! c) as [[ctx' [[?|?]|]]|]; try done.
    + destruct reserve; injection He as <-; [by apply no_more_same|]. etrans; [|apply no_more_get]. by apply no_more_same.
    + destruct (shouldRetryDial _ _ _ _); injection He as <-; [|by apply no_more_same]. etrans; [|apply no_more_get]. by apply no_more_same.
  - apply HN. destruct (waiters p !! r); [done|]. destruct (filter _ _); [|by injection He as <-; apply no_more_same].
    destruct (addConnCalls p !! addr); injection He as <-; [by apply no_more_same|].
    apply (no_more_go _ _ (S (fresh p)) (GAdd (fresh p) addr)); cbn; auto with lia.
  - destruct (goroutines p !! g) as [[| |c addr|]|] eqn:Hg; try done. destruct (new_conn res p) as [x q] eqn:E. injection He as <-.
    apply (owned_new g (GAdd c addr) x res p q Ho Hg E). intros cc Hc. destruct x; cbn in Hc; [by subst|done].
  - destruct (goroutines p !! g) as [[| | |c addr x]|] eqn:Hg; try done. injection He as <-.
    apply (owned_end g _ c x p (set_addConnCalls (delete addr (addConnCalls (adopt addr x p))) (adopt addr x p)) Ho Hg); [by intros cc ->|apply (adopt_same addr x p)..|].
    intros cc Hl. by apply (listed_adopt addr x p).
  - apply HN. destruct (waiters p !! r) as [[|c dup]|]; try done. destruct (calls p !! c) as [[ctx' [x|]]|]; try done. injection He as <-. by apply no_more_same.
  - apply HN. case_bool_decide; [|done]. injection He as <-. by apply no_more_dead.
Qed.
Lemma reachable_owned p : reachable p -> owned_ok p.
Proof.
  induction 1 as [|p e p' Hp IH He]; [|by apply (owned_event e p p' (proj1 (reachable_ok p Hp)) IH)].
  constructor; [intros cc [k Hk]; by apply not_elem_of_nil in Hk|done|]. by intros cc (g & x & Hg & _).
Qed.
Lemma gone_forever es cc : forall p p', reachable p -> gone p cc -> run es p = Some p' -> gone p' cc.
Proof.
  induction es as [|e es IH]; intros p p' Hp Hg; cbn [run]; [by intros [= <-]|]. destruct (exec e p) as [q|] eqn:E; [|done]. apply IH; [by eapply ReachStep|].
  by apply (owned_event e p q (proj1 (reachable_ok p Hp)) (reachable_owned p Hp) E).
Qed.

(** ** What the pool guarantees *)
(** C21: in every reachable state a connection is listed under an address exactly when the
    address is among its keys, no list is empty and none has a connection twice. When a
    connection dies it is taken out of every list and the other connections keep their
    places; one that was listed when it died is never listed again, whatever happens next. *)
Theorem pool_index_consistent p : reachable p ->
  (forall k cc, cc ∈ conns_of p k <-> k ∈ keys_of p cc) /\
  (forall k l, conns p !! k = Some l -> l <> [] /\ NoDup l) /\
  (forall cc p', exec (EDead cc) p = Some p' ->
     (keys_of p' cc = [] /\ forall k, cc ∉ conns_of p' k /\ conns_of p' k = filterOutClientConn (conns_of p k) cc) /\
     forall k, cc ∈ conns_of p k -> forall es p'', run es p' = Some p'' -> forall k', cc ∉ conns_of p'' k').
Proof.
  intros Hr. pose proof (reachable_ok p Hr) as [Hi _]. split; [apply (ix_agree p Hi)|]. split; [apply (ix_conns p Hi)|]. intros cc p' He.
  pose proof (ReachStep p _ p' Hr He) as Hr'. cbn in He. case_bool_decide; [|done]. injection He as <-. assert (forall k, cc ∉ conns_of (MarkDead cc p) k) as Hout.
  { intros k. rewrite conns_of_dead by done. unfold filterOutClientConn. rewrite list_elem_of_filter. tauto. }
  split; [split; [rewrite keys_of_dead; by rewrite bool_decide_true|]; intros k; split; [done|by apply conns_of_dead]|].
  intros k Hk es p'' Hes k' Hk'. destruct (ow_listed p (reachable_owned p Hr) cc) as [Hn Hf]; [by exists k|].
  destruct (no_more_dead cc p Hi) as (_ & N2 & _). pose proof (no_more_held p _ cc (no_more_dead cc p Hi)) as N3.
  destruct (gone_forever es cc (MarkDead cc p) p'' Hr') as (_ & Hl & _); [|done|apply Hl; by exists k'].
  split; [auto|]. split; [|lia]. intros [k0 Hk0]. by apply (Hout k0).
Qed.

(** From a goroutine to the result of its call. *)
Lemma finish_call_result c r p y : calls p !! c = Some y -> calls (finish_call c r p) !! c = Some (mkCall (c_ctx y) (Some r)).
Proof. intros H. unfold finish_call. rewrite H. cbn. by rewrite lookup_insert_eq. Qed.
Lemma finish_call_waiters c r p : waiters (finish_call c r p) = waiters p.
Proof. unfold finish_call. by destruct (calls p !! c). Qed.
Lemma ended_finishes p g b c k (r : result error nat) y : calls p !! c = Some y -> goroutines p !! g = Some (if b : bool then GDialed c k r else GAdded c k r) ->
  exists p', exec (if b then EDialEnd g else EAddEnd g) p = Some p' /\ waiters p' = waiters p /\ calls p' !! c = Some (mkCall (c_ctx y) (Some r)).
Proof.
  intros Hy Hg. assert (forall k0 q, calls_part (adopt k0 r q) = calls_part q) as Ha.
  { intros k' q. destruct r; [apply addConnLocked_calls|done]. }
  unfold calls_part in Ha. destruct b; cbn [exec]; rewrite Hg; eexists; (split; [done|]); rewrite finish_call_waiters.
  - specialize (Ha k (set_dialing (delete k (dialing p)) p)). injection Ha as E1 E2 E3 E4 E5 E6. split; [done|]. apply finish_call_result. cbn. unfold adopt in E3. rewrite E3. done.
  - specialize (Ha k p). injection Ha as E1 E2 E3 E4 E5 E6. split; [done|]. apply finish_call_result. cbn. unfold adopt in E3. rewrite E3. done.
Qed.
Lemma run_two e1 e2 p p1 p2 : exec e1 p = Some p1 -> exec e2 p1 = Some p2 -> run [e1; e2] p = Some p2.
Proof. intros H1 H2. cbn [run]. by rewrite H1, H2. Qed.
Lemma goroutine_finishes p g x y : goroutines p !! g = Some x -> calls p !! call_of x = Some y ->
  exists es p' r, (length es <= 2)%nat /\ run es p = Some p' /\ waiters p' = waiters p /\ calls p' !! call_of x = Some (mkCall (c_ctx y) (Some r)).
Proof.
  intros Hg Hy. destruct x as [c k|c k r|c k|c k r]; cbn in Hy |- *.
  - destruct (ended_finishes (set_goroutines (<[g := GDialed c k (Err ctx_Canceled)]> (goroutines p)) p) g true c k (Err ctx_Canceled) y) as (p' & He & Hw & Hc); [done|cbn; by rewrite lookup_insert_eq|].
    exists [EDialed g (Some ctx_Canceled); EDialEnd g], p', (Err ctx_Canceled). split; [cbn; lia|]. split; [|by split]. eapply run_two; [|exact He]. cbn [exec new_conn]. by rewrite Hg.
  - destruct (ended_finishes p g true c k r y Hy Hg) as (p' & He & Hw & Hc). exists [EDialEnd g], p', r. split; [cbn; lia|]. split; [|by split]. cbn [run]. by rewrite He.
  - destruct (ended_finishes (set_goroutines (<[g := GAdded c k (Err ctx_Canceled)]> (goroutines p)) p) g false c k (Err ctx_Canceled) y) as (p' & He & Hw & Hc); [done|cbn; by rewrite lookup_insert_eq|].
    exists [EAdded g (Some ctx_Canceled); EAddEnd g], p', (Err ctx_Canceled). split; [cbn; lia|]. split; [|by split]. eapply run_two; [|exact He]. cbn [exec new_conn]. by rewrite Hg.
  - destruct (ended_finishes p g false c k r y Hy Hg) as (p' & He & Hw & Hc). exists [EAddEnd g], p', r. split; [cbn; lia|]. split; [|by split]. cbn [run]. by rewrite He.
Qed.

(** In every reachable state at most one goroutine dials an address and at most one
    adopts a connection for it, however many requests ask; and no request waits in vain:
    the call it waits for has its result already, or the goroutine that runs it gets
    there in at most two steps of its own. *)
Theorem waiting_request_woken p : reachable p ->
  (forall g g' x x', goroutines p !! g = Some x -> goroutines p !! g' = Some x' -> (job x).1.1 = (job x').1.1 -> (job x).2 = (job x').2 -> g = g') /\
  (forall r w, waiters p !! r = Some w -> exists es p' y res, (length es <= 2)%nat /\ run es p = Some p' /\
     waiters p' = waiters p /\ calls p' !! waits_for w = Some y /\ c_result y = Some res).
Proof.
  intros [_ Hc]%reachable_ok. split.
  - intros g g' x x' Hg Hg' Hb Hk. destruct (job x) as [[b c] k] eqn:E, (job x') as [[b' c'] k'] eqn:E'. cbn in Hb, Hk. subst b' k'.
    assert ((if b then dialing p else addConnCalls p) !! k = Some c) as T by (apply (co_table _ _ _ _ _ _ Hc); eauto).
    assert ((if b then dialing p else addConnCalls p) !! k = Some c') as T' by (apply (co_table _ _ _ _ _ _ Hc); eauto).
    apply (co_unique _ _ _ _ _ _ Hc g g' x x'); try done. unfold call_of. rewrite E, E'. cbn. congruence.
  - intros r w Hw. destruct (co_wait _ _ _ _ _ _ Hc r w Hw) as [y Hy]. destruct (c_result y) as [res|] eqn:Er.
    + exists [], p, y, res. split; [cbn; lia|]. done.
    + apply (co_open _ _ _ _ _ _ Hc _ y Hy) in Er as (g & x & Hg & E). rewrite <- E in Hy. destruct (goroutine_finishes p g x y Hg Hy) as (es & p' & res & Hl & Hr & Hw' & Hres).
      exists es, p', (mkCall (c_ctx y) (Some res)), res. rewrite E in Hres. done.
Qed.

(** Only [MarkDead] takes a connection out of the index. *)
Lemma conns_same p p' k : conns p' = conns p -> conns_of p' k = conns_of p k.
Proof. unfold conns_of. by intros ->. Qed.
Lemma addConnLocked_keeps addr x p k cc : cc ∈ conns_of p k -> cc ∈ conns_of (adopt addr x p) k.
Proof.
  intros H. destruct x as [c|]; [|done]. cbn. unfold addConnLocked. case_bool_decide; [done|].
  change (cc ∈ conns_of (set_conns (<[addr := conns_of p addr ++ [c]]> (conns p)) p) k). rewrite conns_of_insert. case_bool_decide; subst; [|done]. apply elem_of_app. by left.
Qed.
Lemma finish_call_conns c r p : conns (finish_call c r p) = conns p.
Proof. unfold finish_call. by destruct (calls p !! c). Qed.
Lemma get_pass_conns r addr ctx miss takes p : conns (get_pass r addr ctx miss takes p) = conns p.
Proof. unfold get_pass, getStartDialLocked. destruct (filter _ _); [|done]. destruct miss; [|done]. cbn. by destruct (dialing p !! addr). Qed.
Lemma exec_keeps e p p' k cc : index_ok p -> exec e p = Some p' -> e <> EDead cc -> cc ∈ conns_of p k -> cc ∈ conns_of p' k.
Proof.
  intros Hi He Hne Hin. destruct e as [r res|r addr ctx miss takes|g res|g|r ctxDone reserve takes|r addr takes|g res|g|r|c]; cbn [exec] in He.
  - destruct (waiters p !! r), res; try done; injection He as <-; done.
  - destruct (waiters p !! r); [done|]. injection He as <-. by rewrite (conns_same p) by apply get_pass_conns.
  - destruct (goroutines p !! g) as [[]|], res; try done; injection He as <-; done.
  - destruct (goroutines p !! g) as [[|c addr x| |]|]; try done. injection He as <-.
    rewrite (conns_same (adopt addr x (set_dialing (delete addr (dialing p)) p))) by by rewrite finish_call_conns. by apply addConnLocked_keeps.
  - destruct (waiters p !! r) as [[c addr ctx|]|]; try done. destruct (calls p !! c) as [[ctx' [[?|?]|]]|]; try done.
    + destruct reserve; injection He as <-; [done|]. by rewrite (conns_same p) by by rewrite get_pass_conns.
    + destruct (shouldRetryDial _ _ _ _); injection He as <-; [|done]. by rewrite (conns_same p) by by rewrite get_pass_conns.
  - destruct (waiters p !! r); [done|]. destruct (filter _ _); [|by injection He as <-]. by destruct (addConnCalls p !! addr); injection He as <-.
  - destruct (goroutines p !! g) as [[]|], res; try done; injection He as <-; done.
  - destruct (goroutines p !! g) as [[| | |c addr x]|]; try done. injection He as <-.
    rewrite (conns_same (adopt addr x p)) by by rewrite finish_call_conns. by apply addConnLocked_keeps.
  - destruct (waiters p !! r) as [[|c dup]|]; try done. destruct (calls p !! c) as [[ctx' [x|]]|]; try done. by injection He as <-.
  - case_bool_decide; [|done]. injection He as <-. rewrite conns_of_dead by done. apply list_elem_of_filter. split; [congruence|done].
Qed.
Lemma run_keeps es k cc : forall p p', pool_ok p -> run es p = Some p' -> EDead cc ∉ es -> cc ∈ conns_of p k -> cc ∈ conns_of p' k.
Proof.
  induction es as [|e es IH]; intros p p' Hp; cbn [run]; [by intros [= <-]|]. destruct (exec e p) as [q|] eqn:E; [|done].
  intros Hr [Hn Hns]%not_elem_of_cons Hin. apply (IH q); try done; [by apply (pool_event_ok e p)|]. by apply (exec_keeps e p); [apply Hp| |congruence|].
Qed.
Lemma pool_run_reachable es : forall p p', reachable p -> run es p = Some p' -> reachable p'.
Proof. induction es as [|e es IH]; intros p p' Hp; cbn; [by intros [= <-]|]. destruct (exec e p) as [q|] eqn:E; [|done]. apply IH. by eapply ReachStep. Qed.

Definition early_death := [EGet 1 "a" 7 true (fun _ => true); EDialed 1 None; EDead 2; EDialEnd 1].
Definition early_death_pool := default pool_init (run early_death pool_init).
Lemma early_death_run : run early_death pool_init = Some early_death_pool.
Proof. vm_compute. reflexivity. Qed.
(** A connection that dies between the end of its dial and the moment the dialling
    goroutine takes the pool's mutex is not yet in the index: [MarkDead] does nothing, the
    dead connection is listed afterwards and stays listed whatever happens next, since a
    connection dies only once. *)
Theorem dead_connection_stays : 2%nat ∈ conns_of early_death_pool "a" /\ run early_death pool_init = Some early_death_pool /\ forall es p, run es early_death_pool = Some p -> EDead 2 ∉ es -> 2%nat ∈ conns_of p "a".
Proof.
  assert (conns_of early_death_pool "a" = [2%nat]) as E by (vm_compute; reflexivity).
  split; [rewrite E; by left|]. split; [exact early_death_run|]. intros es p Hr Hn. apply (run_keeps es "a" 2 early_death_pool p); try done; [|rewrite E; by left].
  apply reachable_ok, (pool_run_reachable early_death pool_init); [apply ReachInit|exact early_death_run].
Qed.

Definition ex_events := [EGet 1 "a" 7 true (fun _ => true); EGet 2 "a" 8 true (fun _ => true); EAdd 3 "a" (fun _ => true); EDialed 1 None].
Definition ex_pool := default pool_init (run ex_events pool_init).
Lemma ex_run : run ex_events pool_init = Some ex_pool.
Proof. vm_compute. reflexivity. Qed.
Lemma ex_reachable : reachable ex_pool.
Proof. apply (pool_run_reachable ex_events pool_init); [apply ReachInit|apply ex_run]. Qed.
Lemma pool_index_consistent_witness : reachable ex_pool /\ forall k cc, cc ∈ conns_of ex_pool k <-> k ∈ keys_of ex_pool cc.
Proof. split; [apply ex_reachable|]. apply (pool_index_consistent ex_pool ex_reachable). Defined.
Lemma waiting_request_woken_witness : exists es p' y res, reachable ex_pool /\ waiters ex_pool !! 2%nat = Some (WDial 0 "a" 8) /\
  run es ex_pool = Some p' /\ calls p' !! 0%nat = Some y /\ c_result y = Some res.
Proof.
  assert (waiters ex_pool !! 2%nat = Some (WDial 0 "a" 8)) as H2 by (vm_compute; reflexivity).
  destruct (waiting_request_woken ex_pool ex_reachable) as [_ Hw]. destruct (Hw 2%nat _ H2) as (es & p' & y & res & _ & Hr & _ & Hy & Hres).
  exists es, p', y, res. split; [apply ex_reachable|]. split; [exact H2|]. split; [exact Hr|]. split; [exact Hy|exact Hres].
Defined.
