(* ===== verification/NetIP.v ===== *)
(** * IP addresses in text ([net.ParseIP], [IP.To4], [IP.To16])

    The parsers of [net/netip] on bytes. An address is its 16 bytes, an IPv4 one in the
    form [::ffff:a.b.c.d]. *)

From S2P Require Import Prelude.
From S2P Require Import H2Errors.
From S2P Require Import NetText.
From S2P Require Import Bufio.
From S2P Require Import BufioLine.
From S2P Require Import Chunked.
From S2P Require Import TextProto.
From S2P Require Import NetAddr.

Definition is_digit (b : byte) : bool := (48 <=? b) && (b <=? 57).
(** [parseIPv4Fields]: [val] and [digLen] of the current octet, the octets read so far. *)
Fixpoint parseIPv4Fields (p : bytes) (val : Z) (digLen : nat) (fields : list Z) : option (list Z) :=
  match p with
  | [] => if (length fields <? 3)%nat then None else Some (fields ++ [val])
  | b :: p =>
      if is_digit b then
        if (digLen =? 1)%nat && (val =? 0) then None
        else let val := val * 10 + (b - 48) in if 255 <? val then None else parseIPv4Fields p val (S digLen) fields
      else if b =? 46 then
        if (digLen =? 0)%nat || bool_decide (p = []) then None
        else if (length fields =? 3)%nat then None
        else parseIPv4Fields p 0 0 (fields ++ [val])
      else None
  end.
Definition v4prefix : bytes := replicate 10 0 ++ [255; 255].
Definition parseIPv4 (p : bytes) : option bytes := match parseIPv4Fields p 0 0 [] with Some f => Some (v4prefix ++ f) | None => None end.

Definition hex_value (b : byte) : option Z :=
  if is_digit b then Some (b - 48) else if (97 <=? b) && (b <=? 102) then Some (b - 87) else if (65 <=? b) && (b <=? 70) then Some (b - 55) else None.
(** The digits of a group: their number and value, and what follows. *)
Fixpoint hex_group (p : bytes) (off : nat) (acc : Z) : option (nat * Z * bytes) :=
  match p with
  | [] => Some (off, acc, [])
  | b :: q =>
      match hex_value b with
      | None => Some (off, acc, p)
      | Some v => if (3 <? off)%nat then None else hex_group q (S off) (acc * 16 + v)
      end
  end.
(** The loop of [parseIPv6]: the bytes so far and the place of the ellipsis; the result
    has what is left of the text. *)
Fixpoint groups (fuel : nat) (p : bytes) (ip : bytes) (ellipsis : option nat) : option (bytes * bytes * option nat) :=
  if (16 <=? length ip)%nat then Some (ip, p, ellipsis) else
  match fuel with
  | O => None
  | S fuel =>
      match hex_group p 0 0 with
      | None => None
      | Some (off, acc, rest) =>
          if (off =? 0)%nat then None else
          match rest with
          | [] => Some (ip ++ [Z.shiftr acc 8; Z.land acc 255], [], ellipsis)
          | c :: after =>
              if c =? 46 then
                if negb (is_set ellipsis) && negb (length ip =? 12)%nat then None
                else if (16 <? length ip + 4)%nat then None
                else match parseIPv4Fields p 0 0 [] with Some f => Some (ip ++ f, [], ellipsis) | None => None end
              else
                let ip := ip ++ [Z.shiftr acc 8; Z.land acc 255] in
                if negb (c =? 58) then None else
                match after with
                | [] => None
                | d :: after' =>
                    if d =? 58 then
                      if is_set ellipsis then None
                      else match after' with [] => Some (ip, [], Some (length ip)) | _ => groups fuel after' ip (Some (length ip)) end
                    else groups fuel after ip ellipsis
                end
          end
      end
  end.
(** A leading ellipsis is cut off. *)
Definition leading_ellipsis (p : bytes) : bytes * option nat :=
  match p with a :: b :: q => if (a =? 58) && (b =? 58) then (q, Some 0%nat) else (p, None) | _ => (p, None) end.
Definition parseIPv6 (p : bytes) : option bytes :=
  let '(p, ellipsis) := leading_ellipsis p in
  if bool_decide (p = []) && is_set ellipsis then Some (replicate 16 0) else
  match groups (S (length p)) p [] ellipsis with
  | Some (ip, [], ellipsis) =>
      if (length ip <? 16)%nat then
        match ellipsis with None => None | Some e => Some (take e ip ++ replicate (16 - length ip) 0 ++ drop e ip) end
      else if is_set ellipsis then None else Some ip
  | _ => None
  end.
(** [netip.ParseAddr] looks for the first dot, colon or percent sign; [net.ParseIP]
    refuses zones. *)
Fixpoint ParseIP_kind (p : bytes) : option byte :=
  match p with
  | [] => None
  | b :: p => if (b =? 46) || (b =? 58) || (b =? 37) then Some b else ParseIP_kind p
  end.
Definition ParseIP (p : bytes) : option bytes :=
  match ParseIP_kind p with
  | Some c => if c =? 46 then parseIPv4 p else if (c =? 58) && negb (has_byte 37 p) then parseIPv6 p else None
  | None => None
  end.
Definition To4 (ip : bytes) : option bytes :=
  if (length ip =? 4)%nat then Some ip
  else if (length ip =? 16)%nat && bool_decide (take 12 ip = v4prefix) then Some (drop 12 ip) else None.
Definition To16 (ip : bytes) : option bytes :=
  if (length ip =? 4)%nat then Some (v4prefix ++ ip) else if (length ip =? 16)%nat then Some ip else None.

Example parse_v4 : ParseIP (bytes_of_string "192.0.2.1") = Some (v4prefix ++ [192; 0; 2; 1]). Proof. vm_compute. reflexivity. Qed.
Example parse_v6 : ParseIP (bytes_of_string "2001:db8::1") = Some ([32; 1; 13; 184] ++ replicate 11 0 ++ [1]). Proof. vm_compute. reflexivity. Qed.
Example parse_mapped : ParseIP (bytes_of_string "::FFFF:10.0.0.1") = Some (v4prefix ++ [10; 0; 0; 1]). Proof. vm_compute. reflexivity. Qed.
Example parse_no_ip : map ParseIP [bytes_of_string "example.com"; bytes_of_string "1.2.3.04"; bytes_of_string "fe80::1%eth0"; bytes_of_string ":::1"; bytes_of_string "1:2:3:4:5:6:7:8:"; []] = replicate 6 None.
Proof. vm_compute. reflexivity. Qed.

(** An address has sixteen bytes. *)
Lemma parseIPv4Fields_ok p : forall val n f r, 0 <= val <= 255 -> bytes_ok f -> (length f <= 3)%nat -> parseIPv4Fields p val n f = Some r -> length r = 4%nat /\ bytes_ok r.
Proof.
  induction p as [|b p IH]; intros val n f r Hv Hf Hl; cbn [parseIPv4Fields].
  - destruct (Nat.ltb_spec (length f) 3); [done|]. intros [= <-]. rewrite length_app. cbn. split; [lia|]. apply bytes_ok_app. split; [done|]. constructor; [unfold is_u8; lia|constructor].
  - unfold is_digit. destruct ((48 <=? b) && (b <=? 57)) eqn:Hd.
    + apply andb_prop in Hd as [?%Z.leb_le ?%Z.leb_le]. destruct (_ && _); [done|]. destruct (Z.ltb_spec 255 (val * 10 + (b - 48))); [done|]. apply IH; try done. lia.
    + destruct (b =? 46); [|done]. destruct (_ || _); [done|]. destruct (Nat.eqb_spec (length f) 3); [done|]. apply IH; [lia| |rewrite length_app; cbn; lia].
      apply bytes_ok_app. split; [done|]. constructor; [unfold is_u8; lia|constructor].
Qed.
Lemma hex_value_range b v : hex_value b = Some v -> 0 <= v < 16.
Proof. unfold hex_value, is_digit. repeat case_match; intros [= <-]; lia. Qed.
Lemma hex_group_range p : forall off acc off' acc' rest, (off <= 4)%nat -> 0 <= acc < 16 ^ Z.of_nat off -> hex_group p off acc = Some (off', acc', rest) -> 0 <= acc' < 65536.
Proof.
  assert (forall off acc, (off <= 4)%nat -> 0 <= acc < 16 ^ Z.of_nat off -> 0 <= acc < 65536) as Hb.
  { intros off acc Ho Ha. pose proof (Z.pow_le_mono_r 16 (Z.of_nat off) 4 ltac:(lia) ltac:(lia)). lia. }
  induction p as [|b p IH]; intros off acc off' acc' rest Ho Ha; cbn [hex_group]; [intros [= <- <- <-]; by eapply Hb|].
  destruct (hex_value b) as [v|] eqn:Ev; [|intros [= <- <- <-]; by eapply Hb]. destruct (Nat.ltb_spec 3 off); [done|]. apply IH; [lia|].
  apply hex_value_range in Ev. rewrite Nat2Z.inj_succ, Z.pow_succ_r by lia. lia.
Qed.
(** [groups] appends to [ip], two or four bytes at a time, and never past sixteen; the
    ellipsis is at a place it has passed. *)
Record groups_ok (ip : bytes) (e : option nat) : Prop := {
  go_bytes : bytes_ok ip; go_even : Nat.Even (length ip); go_length : (length ip <= 16)%nat;
  go_ellipsis : match e with Some i => (i <= length ip)%nat | None => True end }.
Lemma groups_snoc ip e acc : groups_ok ip e -> (length ip < 16)%nat -> 0 <= acc < 65536 -> groups_ok (ip ++ [Z.shiftr acc 8; Z.land acc 255]) e.
Proof.
  intros [Hb [k Hk] Hl He] Hlt Ha. rewrite Z.shiftr_div_pow2 by lia. change 255 with (2 ^ 8 - 1). rewrite land_mask by lia. constructor; rewrite ?length_app; cbn [length].
  - apply bytes_ok_app. split; [done|]. change (2 ^ 8) with 256. constructor; [|constructor; [by apply Z.mod_pos_bound|constructor]]. split; [apply Z.div_pos; lia|apply Z.div_lt_upper_bound; lia].
  - exists (S k). lia.
  - lia.
  - destruct e; lia.
Qed.
Lemma groups_spec fuel : forall p ip e ip' q e', groups_ok ip e -> groups fuel p ip e = Some (ip', q, e') -> groups_ok ip' e'.
Proof.
  induction fuel as [|fuel IH]; intros p ip e ip' q e' Hg; cbn [groups]; [destruct (Nat.leb_spec 16 (length ip)); [by intros [= <- <- <-]|done]|].
  destruct (Nat.leb_spec 16 (length ip)) as [|Hlt]; [by intros [= <- <- <-]|]. destruct (hex_group p 0 0) as [[[off acc] rest]|] eqn:Eg; [|done].
  apply hex_group_range in Eg; [|lia|cbn; lia]. destruct (off =? 0)%nat; [done|]. pose proof (groups_snoc ip e acc Hg Hlt Eg) as Hs.
  assert (groups_ok (ip ++ [Z.shiftr acc 8; Z.land acc 255]) (Some (length (ip ++ [Z.shiftr acc 8; Z.land acc 255])))) as He by (destruct Hs; by constructor).
  destruct rest as [|c after]; [by intros [= <- <- <-]|]. destruct (c =? 46).
  - destruct (_ && _); [done|]. destruct (Nat.ltb_spec 16 (length ip + 4)); [done|]. destruct (parseIPv4Fields p 0 0 []) as [f|] eqn:E4; [|done]. intros [= <- <- <-].
    apply parseIPv4Fields_ok in E4 as [Hf Hfb]; [|lia|constructor|cbn; lia]. destruct Hg as [Hb [k Hk] Hl He']. constructor; rewrite ?length_app, ?Hf; [by apply bytes_ok_app|exists (S (S k)); lia|lia|destruct e; lia].
  - destruct (negb _); [done|]. destruct after as [|d after']; [done|]. destruct (d =? 58); [|by apply IH]. destruct (is_set e); [done|].
    destruct after'; [by intros [= <- <- <-]|by apply IH].
Qed.
Lemma ParseIP_ok p ip : ParseIP p = Some ip -> length ip = 16%nat /\ bytes_ok ip.
Proof.
  unfold ParseIP. destruct (ParseIP_kind p) as [c|]; [|done]. destruct (c =? 46).
  - unfold parseIPv4. destruct (parseIPv4Fields p 0 0 []) as [f|] eqn:E; [|done]. intros [= <-]. apply parseIPv4Fields_ok in E as [Hf Hb]; [|lia|constructor|cbn; lia].
    split; [cbn; by rewrite Hf|]. repeat (constructor; [done|]). done.
  - destruct (_ && _); [|done]. unfold parseIPv6. destruct (leading_ellipsis p) as [q e] eqn:El. destruct (_ && _); [intros [= <-]; split; [done|]; apply (bytes_ok_zeros 16)|].
    destruct (groups (S (length q)) q [] e) as [[[ip0 rest] e']|] eqn:Eg; [|done]. destruct rest; [|done]. apply groups_spec in Eg.
    + destruct Eg as [Hb _ Hl He]. destruct (Nat.ltb_spec (length ip0) 16).
      * destruct e' as [i|]; [|done]. intros [= <-]. rewrite !length_app, length_take, length_drop, length_replicate. split; [lia|].
        rewrite !bytes_ok_app. split; [by apply Forall_take|]. split; [by apply Forall_replicate|by apply Forall_drop].
      * destruct (is_set e'); [done|]. intros [= <-]. split; [lia|done].
    + constructor; [constructor|exists 0%nat; done|cbn; lia|]. unfold leading_ellipsis in El. destruct p as [|a [|b p]]; try (injection El as <- <-; done). destruct (_ && _); injection El as <- <-; cbn; lia || done.
Qed.
Lemma To4_ok ip ip4 : bytes_ok ip -> To4 ip = Some ip4 -> length ip4 = 4%nat /\ bytes_ok ip4.
Proof.
  unfold To4. intros Hb. destruct (Nat.eqb_spec (length ip) 4); [by intros [= <-]|]. destruct (Nat.eqb_spec (length ip) 16); [|done].
  case_bool_decide; [|done]. intros [= <-]. rewrite length_drop. split; [lia|by apply Forall_drop].
Qed.
