(* ===== verification/Socks.v ===== *)
(** * The SOCKS client ([src/internal/socks])

    The SOCKS 4, 4a and 5 handshakes on a connection: what has been written to it, the
    segments still to come, and where writing fails, if it does. *)

From S2P Require Import Prelude.
From S2P Require Import H2Errors.
From S2P Require Import NetText.
From S2P Require Import Bufio.
From S2P Require Import BufioLine.
From S2P Require Import Chunked.
From S2P Require Import TextProto.
From S2P Require Import NetAddr.
From S2P Require Import NetIP.

(** ** The connection *)
(** [c_room]: how many more bytes can be written, and the error after them. *)
Record conn := mkConn { c_in : list bytes; c_end : error; c_out : bytes; c_room : option (Z * error) }.
Definition io (A : Type) : Type := conn -> result error A * conn.
Definition io_ret {A} (a : A) : io A := fun c => (Ok a, c).
Definition io_fail {A} (e : error) : io A := fun c => (Err e, c).
Definition io_bind {A B} (m : io A) (k : A -> io B) : io B := fun c => match m c with (Ok a, c) => k a c | (Err e, c) => (Err e, c) end.
Notation "'let*' x := m 'in' k" := (io_bind m (fun x => k)) (at level 10, x pattern, m at level 100, k at level 200).

Definition conn_Write (p : bytes) : io unit := fun c =>
  match c_room c with
  | None => (Ok tt, mkConn (c_in c) (c_end c) (c_out c ++ p) None)
  | Some (n, e) =>
      if len p <=? n then (Ok tt, mkConn (c_in c) (c_end c) (c_out c ++ p) (Some (n - len p, e)))
      else (Err e, mkConn (c_in c) (c_end c) (c_out c ++ slice_to p n) (Some (0, e)))
  end.
(** [io.ReadFull]: each [Read] gives at most a segment. *)
Fixpoint read_full (k : Z) (src : list bytes) (e : error) (got : bytes) : result error bytes * list bytes :=
  if k <=? len got then (Ok got, src) else
  match src with
  | [] => (Err (if (0 <? len got) && bool_decide (e = io_EOF) then io_ErrUnexpectedEOF else e), [])
  | seg :: src =>
      let want := k - len got in
      if len seg <=? want then read_full k src e (got ++ seg)
      else (Ok (got ++ slice_to seg want), slice_from seg want :: src)
  end.
Definition io_ReadFull (k : Z) : io bytes := fun c =>
  let '(r, src) := read_full k (c_in c) (c_end c) [] in (r, mkConn src (c_end c) (c_out c) (c_room c)).

(** ** [socks.go] *)
Definition Version4 : Z := 4.
Definition Version5 : Z := 5.
Definition AddrTypeIPv4 : Z := 1.
Definition AddrTypeFQDN : Z := 3.
Definition AddrTypeIPv6 : Z := 4.
Definition CmdConnect : Z := 1.
Definition cmdBind : Z := 2.
Definition AuthMethodNotRequired : Z := 0.
Definition AuthMethodUsernamePassword : Z := 2.
Definition AuthMethodNoAcceptableMethods : Z := 255.
Definition StatusSucceeded : Z := 0.
Definition Status4Granted : Z := 90.
Definition Command_String (cmd : Z) : string :=
  if cmd =? CmdConnect then "socks connect" else if cmd =? cmdBind then "socks bind" else "socks " +:+ format_dec cmd.
Definition Reply_String (code : Z) : string :=
  match code with
  | 0 => "succeeded" | 1 => "general SOCKS server failure" | 2 => "connection not allowed by ruleset" | 3 => "network unreachable"
  | 4 => "host unreachable" | 5 => "connection refused" | 6 => "TTL expired" | 7 => "command not supported" | 8 => "address type not supported"
  | 90 => "request granted" | 91 => "request rejected or failed"
  | 92 => "request rejected because SOCKS server cannot connect to identd on the client"
  | 93 => "request rejected because the client program and identd report different user-ids"
  | _ => "unknown code: " +:+ format_dec code
  end.
(** [a_IP] is [None] for a nil [IP]. *)
Record Addr := mkAddr { a_Name : bytes; a_IP : option bytes; a_Port : Z }.

Record Dialer := mkDialer {
  cmd : Z; proxyNetwork : string; proxyAddress : bytes; Version : Z; Socks4A : bool; UserID : bytes;
  AuthMethods : list Z; Authenticate : option (Z -> io unit) }.
Definition NewDialer (network : string) (address : bytes) : Dialer := mkDialer CmdConnect network address Version5 false [] [] None.
Definition version (d : Dialer) : Z := if Version d =? 0 then Version5 else Version d.

Record UsernamePassword := mkUserPass { up_Username : bytes; up_Password : bytes }.
Definition UsernamePassword_Authenticate (up : UsernamePassword) (auth : Z) : io unit :=
  if auth =? AuthMethodNotRequired then io_ret tt
  else if auth =? AuthMethodUsernamePassword then
    if (len (up_Username up) =? 0) || (255 <? len (up_Username up)) || (len (up_Password up) =? 0) || (255 <? len (up_Password up))
    then io_fail (errors_New "invalid username/password") else
    let* _ := conn_Write ([1; u8 (len (up_Username up))] ++ up_Username up ++ [u8 (len (up_Password up))] ++ up_Password up) in
    let* b := io_ReadFull 2 in
    if negb (b !!! 0%nat =? 1) then io_fail (errors_New "invalid username/password version")
    else if negb (b !!! 1%nat =? 0) then io_fail (errors_New "username/password authentication failed")
    else io_ret tt
  else io_fail (errors_New ("unsupported authentication method " +:+ format_dec auth)).

(** ** [client.go] *)
Definition splitHostPort (address : bytes) : result error (bytes * Z) :=
  match SplitHostPort address with
  | Err e => Err (errors_New e)
  | Ok (host, port) =>
      match Atoi (string_of_bytes port) with
      | None => Err (errors_New "strconv.Atoi: parsing port")
      | Some portnum =>
          if (portnum <? 1) || (65535 <? portnum) then Err (errors_New ("port number out of range " +:+ string_of_bytes port))
          else Ok (host, portnum)
      end
  end.
Definition unexpectedVersion (b : byte) : error := errors_New ("unexpected protocol version " +:+ format_dec b).

(** The greeting: [None] if there are too many methods. *)
Definition greeting (d : Dialer) : option bytes :=
  if bool_decide (AuthMethods d = []) || negb (is_set (Authenticate d)) then Some [Version5; 1; AuthMethodNotRequired]
  else if 255 <? len (AuthMethods d) then None
  else Some ([Version5; u8 (len (AuthMethods d))] ++ (u8 <$> AuthMethods d)).
(** The address of the request. *)
Definition request_address (host : bytes) : result error bytes :=
  match ParseIP host with
  | Some ip =>
      match To4 ip with
      | Some ip4 => Ok (AddrTypeIPv4 :: ip4)
      | None => match To16 ip with Some ip6 => Ok (AddrTypeIPv6 :: ip6) | None => Err (errors_New "unknown address type") end
      end
  | None => if 255 <? len host then Err (errors_New "FQDN too long") else Ok ([AddrTypeFQDN; u8 (len host)] ++ host)
  end.
(** The rest of the reply: [l] bytes, of which the last two are the port. *)
Definition read_bound (isIP : bool) (l : Z) : io Addr :=
  let* b := io_ReadFull l in
  let name := slice_to b (len b - 2) in
  let port := Z.lor (Z.shiftl (b !!! Z.to_nat (len b - 2)) 8) (b !!! Z.to_nat (len b - 1)) in
  io_ret (if isIP then mkAddr [] (Some name) port else mkAddr name None port).
(** The reply to the request. *)
Definition read_reply5 : io Addr :=
  let* b := io_ReadFull 4 in
  if negb (b !!! 0%nat =? Version5) then io_fail (unexpectedVersion (b !!! 0%nat))
  else if negb (b !!! 1%nat =? StatusSucceeded) then io_fail (errors_New ("unknown error " +:+ Reply_String (b !!! 1%nat)))
  else if negb (b !!! 2%nat =? 0) then io_fail (errors_New "non-zero reserved field")
  else if b !!! 3%nat =? AddrTypeIPv4 then read_bound true 6
  else if b !!! 3%nat =? AddrTypeIPv6 then read_bound true 18
  else if b !!! 3%nat =? AddrTypeFQDN then let* n := io_ReadFull 1 in read_bound false (2 + n !!! 0%nat)
  else io_fail (errors_New ("unknown address type " +:+ format_dec (b !!! 3%nat))).
Definition connect5 (d : Dialer) (host : bytes) (port : Z) : io Addr :=
  match greeting d with
  | None => io_fail (errors_New "too many authentication methods")
  | Some g =>
      let* _ := conn_Write g in
      let* b := io_ReadFull 2 in
      if negb (b !!! 0%nat =? Version5) then io_fail (unexpectedVersion (b !!! 0%nat)) else
      let am := b !!! 1%nat in
      if am =? AuthMethodNoAcceptableMethods then io_fail (errors_New "no acceptable authentication methods") else
      let* _ := match Authenticate d with Some auth => auth am | None => io_ret tt end in
      match request_address host with
      | Err e => io_fail e
      | Ok addr =>
          let* _ := conn_Write ([Version5; u8 (cmd d); 0] ++ addr ++ put_u16 port) in read_reply5
      end
  end.

Definition validateSocks4CString (s : bytes) (field : string) : option error :=
  if has_byte 0 s then Some (errors_New ("invalid SOCKS4 " +:+ field +:+ ": contains NUL")) else None.
Section Connect4.
(** [net.DefaultResolver.LookupIP] for [ip4]. *)
Context (LookupIP : bytes -> result error (list bytes)).
Definition maxSocks4aDomainLen : Z := 255.
(** The address and domain of the request. *)
Definition target4 (d : Dialer) (host : bytes) : result error (bytes * bytes) :=
  match ParseIP host with
  | Some parsed => match To4 parsed with Some ip4 => Ok (ip4, []) | None => Err (errors_New "SOCKS4 does not support IPv6 addresses") end
  | None =>
      if Socks4A d then
        if bool_decide (host = []) then Err (errors_New "SOCKS4a domain name is empty")
        else if maxSocks4aDomainLen <? len host then Err (errors_New "SOCKS4a domain name too long")
        else match validateSocks4CString host "domain name" with Some e => Err e | None => Ok ([0; 0; 0; 1], host) end
      else
        match LookupIP host with
        | Err e => Err e
        | Ok [] => Err (errors_New "no IPv4 address found for host")
        | Ok (ip :: _) => match To4 ip with Some ip4 => Ok (ip4, []) | None => Err (errors_New "no IPv4 address found for host") end
        end
  end.
Definition connect4 (d : Dialer) (host : bytes) (port : Z) : io Addr :=
  match validateSocks4CString (UserID d) "user ID" with
  | Some e => io_fail e
  | None =>
      match target4 d host with
      | Err e => io_fail e
      | Ok (ip, domain) =>
          let* _ := conn_Write ([Version4; u8 (cmd d)] ++ put_u16 port ++ ip ++ UserID d ++ [0] ++ (if bool_decide (domain = []) then [] else domain ++ [0])) in
          let* resp := io_ReadFull 8 in
          if negb (resp !!! 0%nat =? 0) && negb (resp !!! 0%nat =? Version4) then io_fail (unexpectedVersion (resp !!! 0%nat))
          else if negb (resp !!! 1%nat =? Status4Granted) then io_fail (errors_New (Reply_String (resp !!! 1%nat)))
          else io_ret (mkAddr [] (Some (v4prefix ++ slice_from resp 4)) (Z.lor (Z.shiftl (resp !!! 2%nat) 8) (resp !!! 3%nat)))
      end
  end.

(** [ctxErr]: what the goroutine that waits for the context sends once the handshake has
    succeeded. *)
Definition connect (d : Dialer) (ctxErr : option error) (address : bytes) : io Addr :=
  match splitHostPort address with
  | Err e => io_fail e
  | Ok (host, port) =>
      let* a := if version d =? Version4 then connect4 d host port else connect5 d host port in
      match ctxErr with Some e => io_fail e | None => io_ret a end
  end.

(** ** [DialContext] and [DialWithConn] *)
Record OpError := mkOpError { op_Op : string; op_Net : string; op_Source : option Addr; op_Addr : option Addr; op_Err : error }.
Definition validateTarget (d : Dialer) (network : string) : option error :=
  if negb (bool_decide (network ∈ ["tcp"; "tcp6"; "tcp4"]%string)) then Some (errors_New "network not implemented")
  else if negb ((cmd d =? CmdConnect) || (cmd d =? cmdBind)) then Some (errors_New "command not implemented")
  else None.
Definition pathAddr (s : bytes) : option Addr :=
  match splitHostPort s with
  | Err _ => None
  | Ok (host, port) => match ParseIP host with Some ip => Some (mkAddr [] (Some ip) port) | None => Some (mkAddr host None port) end
  end.
Definition pathAddrs (d : Dialer) (address : bytes) : option Addr * option Addr :=
  match pathAddr (proxyAddress d), pathAddr address with Some proxy, Some dst => (Some proxy, Some dst) | _, _ => (None, None) end.
Definition opError (d : Dialer) (network : string) (address : bytes) (e : error) : OpError :=
  let '(proxy, dst) := pathAddrs d address in mkOpError (Command_String (cmd d)) network proxy dst e.
(** [hasCtx]: the context is not nil. *)
Definition DialWithConn (d : Dialer) (hasCtx : bool) (ctxErr : option error) (c : conn) (network : string) (address : bytes) : result OpError Addr * conn :=
  match validateTarget d network with
  | Some e => (Err (opError d network address e), c)
  | None =>
      if negb hasCtx then (Err (opError d network address (errors_New "nil context")), c) else
      match connect d ctxErr address c with
      | (Ok a, c) => (Ok a, c)
      | (Err e, c) => (Err (opError d network address e), c)
      end
  end.
(** [dialed]: the result of dialling the proxy. The connection that comes back, if any, is
    closed when there is no result. *)
Definition DialContext (d : Dialer) (hasCtx : bool) (ctxErr : option error) (dialed : result error conn) (network : string) (address : bytes) : result OpError (conn * Addr) * option conn :=
  match validateTarget d network with
  | Some e => (Err (opError d network address e), None)
  | None =>
      if negb hasCtx then (Err (opError d network address (errors_New "nil context")), None) else
      match dialed with
      | Err e => (Err (opError d network address e), None)
      | Ok c =>
          match connect d ctxErr address c with
          | (Ok a, c) => (Ok (c, a), None)
          | (Err e, c) => (Err (opError d network address e), Some c)
          end
      end
  end.

(** The dialer that [dialConn] makes for a proxy URL with this scheme and these user name
    and password. *)
Definition proxy_dialer (scheme : string) (user : option (bytes * bytes)) (remote : bytes) : option Dialer :=
  let d := NewDialer "tcp" remote in
  if String.eqb scheme "socks5" || String.eqb scheme "socks5h" then
    Some match user with
         | Some (u, p) => mkDialer (cmd d) (proxyNetwork d) (proxyAddress d) (Version d) (Socks4A d) (UserID d)
                            [AuthMethodNotRequired; AuthMethodUsernamePassword] (Some (UsernamePassword_Authenticate (mkUserPass u p)))
         | None => d
         end
  else if String.eqb scheme "socks4" || String.eqb scheme "socks4a" then
    Some (mkDialer (cmd d) (proxyNetwork d) (proxyAddress d) Version4 (String.eqb scheme "socks4a")
            (match user with Some (u, _) => u | None => UserID d end) (AuthMethods d) (Authenticate d))
  else None.
End Connect4.

(** ** What a handshake reads and writes
    [does m P]: on a connection that can be written to, [m] returns [a], having written [o]
    and left [r] of the incoming bytes [p], exactly when [P p a o r], however the bytes are
    cut into segments. *)
Definition incoming (c : conn) : bytes := concat (c_in c).
Definition writable (c : conn) : Prop := c_room c = None /\ bytes_ok (incoming c).
Definition after (c : conn) (o r : bytes) (c' : conn) : Prop := writable c' /\ c_out c' = c_out c ++ o /\ incoming c' = r.
Definition does {A} (m : io A) (P : bytes -> A -> bytes -> bytes -> Prop) : Prop := forall c, writable c ->
  (forall a c', m c = (Ok a, c') -> exists o r, P (incoming c) a o r /\ after c o r c') /\
  (forall a o r, P (incoming c) a o r -> exists c', m c = (Ok a, c') /\ after c o r c').

Lemma read_full_got src e : forall k got, len got <= k ->
  (k <= len got + len (concat src) /\ exists src', read_full k src e got = (Ok (got ++ slice_to (concat src) (k - len got)), src') /\ concat src' = slice_from (concat src) (k - len got)) \/
  (len got + len (concat src) < k /\ exists e', read_full k src e got = (Err e', [])).
Proof.
  induction src as [|seg src IH]; intros k got Hk; cbn [read_full concat]; destruct (Z.leb_spec k (len got)) as [Hle|Hlt].
  - left. rewrite len_nil. split; [lia|]. exists []. replace (k - len got) with 0 by lia. split; [by rewrite app_nil_r|done].
  - right. rewrite len_nil. split; [lia|]. by eexists.
  - left. pose proof (len_nonneg (seg ++ concat src)). split; [lia|]. exists (seg :: src). replace (k - len got) with 0 by lia. split; [by rewrite app_nil_r|done].
  - cbv zeta. destruct (Z.leb_spec (len seg) (k - len got)) as [Hs|Hs].
    + destruct (IH k (got ++ seg)) as [(H1 & src' & H2 & H3)|(H1 & e' & H2)]; [rewrite len_app; lia| |].
      * left. rewrite len_app in H1 |- *. split; [lia|]. exists src'. rewrite H2, H3. unfold slice_to, slice_from, len in *.
        replace (Z.to_nat (k - Z.of_nat (length got))) with (length seg + Z.to_nat (k - Z.of_nat (length got) - Z.of_nat (length seg)))%nat by lia.
        rewrite take_app_add, drop_app_add, length_app, <- app_assoc. replace (Z.to_nat (k - Z.of_nat (length got + length seg))) with (Z.to_nat (k - Z.of_nat (length got) - Z.of_nat (length seg))) by lia. done.
      * right. rewrite !len_app in *. split; [lia|]. by exists e'.
    + left. rewrite len_app. pose proof (len_nonneg (concat src)). split; [lia|]. eexists. split; [do 2 f_equal|].
      * unfold slice_to, len in *. rewrite take_app_le by lia. done.
      * cbn. unfold slice_from, len in *. by rewrite drop_app_le by lia.
Qed.

Lemma does_ret {A} (x : A) : does (io_ret x) (fun p a o r => a = x /\ o = [] /\ r = p).
Proof.
  intros c Hc. split.
  - intros a c' [= <- <-]. exists [], (incoming c). split; [done|]. split; [done|]. by rewrite app_nil_r.
  - intros a o r (-> & -> & ->). exists c. split; [done|]. split; [done|]. by rewrite app_nil_r.
Qed.
Lemma does_fail {A} e : does (@io_fail A e) (fun _ _ _ _ => False).
Proof. intros c Hc. split; [done|by intros]. Qed.
Lemma does_write p : does (conn_Write p) (fun q _ o r => o = p /\ r = q).
Proof.
  intros c [Hr Hb]. unfold conn_Write. rewrite Hr. split.
  - intros a c' [= <- <-]. exists p, (incoming c). done.
  - intros [] o r [-> ->]. eexists. split; [done|]. done.
Qed.
Lemma does_read k : 0 <= k -> does (io_ReadFull k) (fun p b o r => len b = k /\ p = b ++ r /\ o = []).
Proof.
  intros Hk c [Hr Hb]. unfold io_ReadFull. destruct (read_full_got (c_in c) (c_end c) k []) as [(H1 & src & -> & Hs)|(H1 & e & ->)]; [by rewrite len_nil| |]; fold (incoming c) in *.
  - rewrite len_nil in H1. rewrite len_nil, Z.sub_0_r in *. cbn [app] in *.
    assert (bytes_ok (slice_from (incoming c) k)) as Hb' by by apply Forall_drop. split.
    + intros a c' [= <- <-]. exists [], (slice_from (incoming c) k). rewrite slice_to_from. rewrite len_slice_to by lia. unfold after, writable, incoming. cbn. by rewrite Hs, app_nil_r.
    + intros b o r (Hl & Hp & ->). eexists. split; [by rewrite Hp, slice_to_app by done|].
      unfold after, writable. change (incoming (mkConn src (c_end c) (c_out c) (c_room c))) with (concat src). cbn. rewrite Hs, app_nil_r, Hp, slice_from_app by done.
      rewrite Hp in Hb. apply bytes_ok_app in Hb. tauto.
  - rewrite len_nil in H1. split; [done|]. intros b o r (Hl & Hp & ->). rewrite Hp, len_app in H1. pose proof (len_nonneg r). lia.
Qed.
Lemma does_bind {A B} (m : io A) (k : A -> io B) P Q : does m P -> (forall a p o q, bytes_ok p -> P p a o q -> does (k a) (Q a)) ->
  does (io_bind m k) (fun p b o r => exists a o1 o2 q, P p a o1 q /\ Q a q b o2 r /\ o = o1 ++ o2).
Proof.
  intros Hm Hk c Hc. unfold io_bind. destruct (Hm c Hc) as [S C]. split.
  - intros b c' H. destruct (m c) as [[a|e] c1] eqn:E; [|done]. destruct (S a c1 eq_refl) as (o1 & q & HP & Hw & Ho & Hq). destruct (Hk a _ _ _ (proj2 Hc) HP c1 Hw) as [S2 _].
    destruct (S2 b c' H) as (o2 & r & HQ & Hw2 & Ho2 & Hr). exists (o1 ++ o2), r. split; [exists a, o1, o2, q; rewrite Hq in HQ; done|]. split; [done|]. by rewrite Ho2, Ho, app_assoc.
  - intros b o r (a & o1 & o2 & q & HP & HQ & ->). destruct (C a o1 q HP) as (c1 & -> & Hw & Ho & Hq). rewrite <- Hq in HQ.
    destruct (Hk a _ _ _ (proj2 Hc) HP c1 Hw) as [_ C2]. destruct (C2 b o2 r HQ) as (c' & E & Hw2 & Ho2 & Hr). exists c'. split; [done|]. split; [done|]. by rewrite Ho2, Ho, app_assoc.
Qed.
Lemma does_iff {A} (m : io A) (P Q : bytes -> A -> bytes -> bytes -> Prop) : (forall p a o r, bytes_ok p -> P p a o r <-> Q p a o r) -> does m P -> does m Q.
Proof.
  intros H Hm c Hc. destruct (Hm c Hc) as [S C]. destruct Hc as [_ Hb]. split.
  - intros a c' E. destruct (S a c' E) as (o & r & HP & Ha). exists o, r. split; [by apply H|done].
  - intros a o r HQ. apply C. by apply H.
Qed.
(** Branches that fail. *)
Lemma does_guard {A} (b : bool) e (m : io A) P : does m P -> does (if b then io_fail e else m) (fun p a o r => b = false /\ P p a o r).
Proof. intros Hm. destruct b; [eapply does_iff; [|apply does_fail]; intros; split; [done|by intros [? _]]|eapply does_iff; [|exact Hm]; tauto]. Qed.
Lemma does_if {A} (b : bool) (m m' : io A) P P' : does m P -> does m' P' -> does (if b then m else m') (fun p a o r => if b then P p a o r else P' p a o r).
Proof. intros. by destruct b. Qed.

(** ** RFC 1928 and 1929 on the wire *)
Inductive target := TIPv4 (a : bytes) | TIPv6 (a : bytes) | TName (n : bytes).
Definition target_wire (t : target) : bytes := match t with TIPv4 a => 1 :: a | TIPv6 a => 4 :: a | TName n => 3 :: len n :: n end.
Definition target_ok (t : target) : Prop := match t with TIPv4 a => len a = 4 | TIPv6 a => len a = 16 | TName n => len n <= 255 end.
Definition target_of (host : bytes) : target :=
  match ParseIP host with Some ip => match To4 ip with Some a => TIPv4 a | None => TIPv6 ip end | None => TName host end.
Definition request5 (cmd : Z) (t : target) (port : Z) : bytes := [5; cmd; 0] ++ target_wire t ++ put_u16 port.
Definition reply5 (t : target) (port : Z) : bytes := [5; 0; 0] ++ target_wire t ++ put_u16 port.
Definition addr_of (t : target) (port : Z) : Addr := match t with TIPv4 a | TIPv6 a => mkAddr [] (Some a) port | TName n => mkAddr n None port end.
Definition greeting5 (user : option UsernamePassword) : bytes := match user with Some _ => [5; 2; 0; 2] | None => [5; 1; 0] end.
Definition credentials_ok (u : UsernamePassword) : Prop := 1 <= len (up_Username u) <= 255 /\ 1 <= len (up_Password u) <= 255.
Definition credentials (u : UsernamePassword) : bytes := [1; len (up_Username u)] ++ up_Username u ++ [len (up_Password u)] ++ up_Password u.
(** The authentication after the server chose method [am]: what the server and the client send. *)
Definition authenticated (user : option UsernamePassword) (am : Z) (i o : bytes) : Prop :=
  match user with
  | None => i = [] /\ o = []
  | Some u => (am = 0 /\ i = [] /\ o = []) \/ (am = 2 /\ credentials_ok u /\ i = [1; 0] /\ o = credentials u)
  end.

Lemma two_bytes (b : bytes) : len b = 2 -> exists x y, b = [x; y].
Proof. destruct b as [|x [|y [|]]]; unfold len; cbn; intros; try lia. by exists x, y. Qed.
Lemma four_bytes (b : bytes) : len b = 4 -> exists x y z w, b = [x; y; z; w].
Proof. destruct b as [|x [|y [|z [|w [|]]]]]; unfold len; cbn; intros; try lia. by exists x, y, z, w. Qed.
Lemma port_end b : bytes_ok b -> 2 <= len b -> exists name port, b = name ++ put_u16 port /\ is_u16 port.
Proof.
  intros Hb Hl. destruct (two_bytes (slice_from b (len b - 2))) as (hi & lo & E); [rewrite len_slice_from; lia|].
  exists (slice_to b (len b - 2)), (hi * 256 + lo). rewrite <- (slice_to_from b (len b - 2)), E in Hb. apply bytes_ok_app in Hb as [_ Hb].
  inversion Hb as [|? ? H1 Hb']. inversion Hb' as [|? ? H2 _]. subst. split; [|unfold is_u8, is_u16 in *; lia].
  rewrite <- (slice_to_from b (len b - 2)) at 1. rewrite E. f_equal. unfold put_u16, is_u8 in *. rewrite Z.shiftr_div_pow2 by lia. change (2 ^ 8) with 256. f_equal; [|f_equal]; word.
Qed.
Lemma port_end_value name port : is_u16 port -> let b := name ++ put_u16 port in
  slice_to b (len b - 2) = name /\ Z.lor (Z.shiftl (b !!! Z.to_nat (len b - 2)) 8) (b !!! Z.to_nat (len b - 1)) = port.
Proof.
  intros Hp b. assert (len b - 2 = len name) as -> by (unfold b; rewrite len_app, len_put_u16; lia). assert (len b - 1 = len name + 1) as -> by (unfold b; rewrite len_app, len_put_u16; lia).
  split; [unfold b; by rewrite slice_to_app|]. unfold len. rewrite Z2Nat.inj_add, !Nat2Z.id by lia. change (Z.to_nat 1) with 1%nat. unfold b.
  rewrite (lookup_total_app_r name _ (length name)), (lookup_total_app_r name _ (length name + 1)) by lia. replace (length name - length name)%nat with 0%nat by lia.
  replace (length name + 1 - length name)%nat with 1%nat by lia. pose proof (get_put_u16 port [] Hp) as H. rewrite app_nil_r in H. exact H.
Qed.

Lemma does_read_bound isIP l : 2 <= l -> does (read_bound isIP l) (fun p a o r => exists name port, len name = l - 2 /\ is_u16 port /\
  p = name ++ put_u16 port ++ r /\ o = [] /\ a = if isIP then mkAddr [] (Some name) port else mkAddr name None port).
Proof.
  intros Hl. unfold read_bound. eapply does_iff; [|eapply does_bind; [apply does_read; lia|intros b ? ? ? _ _; apply does_ret]]. cbv beta. intros p a o r Hp. split.
  - intros (b & o1 & o2 & q & (Hb & -> & ->) & (-> & -> & ->) & ->). apply bytes_ok_app in Hp as [Hbo _]. destruct (port_end b Hbo) as (name & port & E & Hport); [lia|].
    exists name, port. destruct (port_end_value name port Hport) as [E1 E2]. rewrite <- E in E1, E2. rewrite E1, E2. rewrite E in Hb. rewrite len_app, len_put_u16 in Hb.
    split; [lia|]. split; [done|]. split; [by rewrite E, <- app_assoc|done].
  - intros (name & port & Hn & Hport & -> & -> & ->). exists (name ++ put_u16 port), [], [], r. split; [rewrite len_app, len_put_u16, <- app_assoc; split; [lia|done]|]. split; [|done].
    destruct (port_end_value name port Hport) as [E1 E2]. by rewrite E1, E2.
Qed.
Lemma len_nonneg_byte (p q : bytes) x : bytes_ok (p ++ x :: q) -> 0 <= x < 256.
Proof. intros [_ H]%bytes_ok_app. by inversion H. Qed.

Lemma does_read_reply5 : does read_reply5 (fun p a o r => exists t port, target_ok t /\ is_u16 port /\ p = reply5 t port ++ r /\ o = [] /\ a = addr_of t port).
Proof.
  unfold read_reply5. eapply does_iff; [|eapply does_bind; [apply does_read; lia|]].
  2:{ intros b ? ? ? _ _. repeat apply does_guard. apply does_if; [apply does_read_bound; lia|]. apply does_if; [apply does_read_bound; lia|]. apply does_if; [|apply does_fail].
      eapply does_bind; [apply does_read; lia|]. intros n p1 o1 q1 Hp (Hn & -> & _). apply does_read_bound. destruct n as [|x [|]]; try (unfold len in Hn; cbn in Hn; lia). apply (len_nonneg_byte []) in Hp. cbn. lia. }
  cbv beta. intros p a o r Hp. split.
  - intros (b & o1 & o2 & q & (Hb & -> & ->) & (H0 & H1 & H2 & H3) & ->). apply four_bytes in Hb as (b0 & b1 & b2 & b3 & ->). cbn in H0, H1, H2, H3.
    apply negb_false_iff, Z.eqb_eq in H0, H1, H2. subst b0 b1 b2. unfold AddrTypeIPv4, AddrTypeIPv6, AddrTypeFQDN in H3.
    destruct (Z.eqb_spec b3 1) as [->|]; [|destruct (Z.eqb_spec b3 4) as [->|]; [|destruct (Z.eqb_spec b3 3) as [->|]; [|done]]].
    + destruct H3 as (name & port & Hn & Hport & -> & -> & ->). exists (TIPv4 name), port. split; [cbn; lia|]. split; [done|]. split; [|done]. unfold reply5. by rewrite <- !app_assoc.
    + destruct H3 as (name & port & Hn & Hport & -> & -> & ->). exists (TIPv6 name), port. split; [cbn; lia|]. split; [done|]. split; [|done]. unfold reply5. by rewrite <- !app_assoc.
    + destruct H3 as (nb & o1 & o3 & q1 & (Hn & -> & ->) & (name & port & Hl & Hport & -> & -> & ->) & ->). destruct nb as [|x [|]]; try (unfold len in Hn; cbn in Hn; lia).
      apply (len_nonneg_byte [5; 0; 0; 3]) in Hp. cbn in Hl. exists (TName name), port. assert (len name = x) as <- by lia. split; [cbn; lia|]. split; [done|]. split; [|done]. unfold reply5. cbn. by rewrite <- !app_assoc.
  - intros (t & port & Ht & Hport & -> & -> & ->).
    exists ([5; 0; 0] ++ take 1 (target_wire t)), [], [], (drop 1 (target_wire t) ++ put_u16 port ++ r). split; [by destruct t; unfold reply5; cbn; rewrite <- ?app_assoc|]. split; [|done].
    split; [done|]. split; [done|]. split; [done|]. destruct t as [x|x|x]; cbn in Ht |- *.
    + exists x, port. by rewrite Ht.
    + exists x, port. by rewrite Ht.
    + exists [len x], [], [], (x ++ put_u16 port ++ r). split; [done|]. split; [|done]. exists x, port. cbn. split; [lia|done].
Qed.
Lemma request_address_ok host addr : request_address host = Ok addr <-> addr = target_wire (target_of host) /\ target_ok (target_of host).
Proof.
  unfold request_address, target_of. destruct (ParseIP host) as [ip|] eqn:E.
  - apply ParseIP_ok in E as [Hl Hb]. destruct (To4 ip) as [ip4|] eqn:E4.
    + apply To4_ok in E4 as [H4 _]; [|done]. cbn. unfold len. split; [intros [= <-]; split; [done|lia]|by intros [-> _]].
    + unfold To16. destruct (Nat.eqb_spec (length ip) 4); [lia|]. destruct (Nat.eqb_spec (length ip) 16); [|lia]. cbn. unfold len. split; [intros [= <-]; split; [done|lia]|by intros [-> _]].
  - cbn. pose proof (len_nonneg host). destruct (Z.ltb_spec 255 (len host)); [split; [done|intros [_ ?]; lia]|]. rewrite u8_small by (unfold is_u8; lia). split; [by intros [= <-]|by intros [-> _]].
Qed.
Lemma does_Authenticate u am : does (UsernamePassword_Authenticate u am) (fun p _ o r => exists i, authenticated (Some u) am i o /\ p = i ++ r).
Proof.
  unfold UsernamePassword_Authenticate, AuthMethodNotRequired, AuthMethodUsernamePassword. destruct (Z.eqb_spec am 0) as [->|H0].
  { eapply does_iff; [|apply does_ret]. intros p a o r _. split; [intros (-> & -> & ->); exists []; split; [by left|done]|]. intros (i & [(_ & -> & ->)|(? & _)] & ->); [|lia]. by destruct a. }
  destruct (Z.eqb_spec am 2) as [->|H2]; [|eapply does_iff; [|apply does_fail]; intros p a o r _; split; [done|]; by intros (i & [(? & _)|(? & _)] & _)].
  destruct ((len (up_Username u) =? 0) || _ || _ || _) eqn:Ec.
  { eapply does_iff; [|apply does_fail]. intros p a o r _. split; [done|]. intros (i & [(? & _)|(_ & [H1 H3] & _)] & _); [lia|]. lia. }
  assert (credentials_ok u) as Hok. { unfold credentials_ok. pose proof (len_nonneg (up_Username u)). pose proof (len_nonneg (up_Password u)). lia. }
  rewrite !u8_small by (unfold is_u8, credentials_ok in *; lia). fold (credentials u).
  eapply does_iff; [|eapply does_bind; [apply does_write|]; intros; eapply does_bind; [apply does_read; lia|]; intros; do 2 apply does_guard; apply does_ret].
  cbv beta. intros p a o r _. split.
  - intros (_ & o1 & o2 & q & (-> & ->) & (b & o3 & o4 & q1 & (Hb & -> & ->) & (H1 & H3 & -> & -> & ->) & ->) & ->). apply two_bytes in Hb as (x & y & ->).
    cbn in H1, H3. apply negb_false_iff, Z.eqb_eq in H1, H3. subst. exists [1; 0]. split; [right; by rewrite app_nil_r|done].
  - intros (i & [(? & _)|(_ & _ & -> & ->)] & ->); [lia|]. exists tt, (credentials u), [], ([1; 0] ++ r). split; [done|]. split; [|by rewrite app_nil_r].
    exists [1; 0], [], [], r. destruct a. done.
Qed.

(** The dialers for SOCKS 5, with credentials or without. *)
Definition dialer5 (user : option UsernamePassword) (d : Dialer) : Prop :=
  cmd d = CmdConnect /\ Authenticate d = UsernamePassword_Authenticate <$> user /\
  AuthMethods d = match user with Some _ => [AuthMethodNotRequired; AuthMethodUsernamePassword] | None => [] end.
(** The methods a greeting offers. *)
Definition offered (user : option UsernamePassword) : list Z := drop 2 (greeting5 user).
(** RFC 1928 once the proxy has chosen [am]: version and method, the authentication of RFC 1929 for method 2 and none for method 0,
    and the reply to the request; the proxy's bytes [p] without what follows the reply, [r], and the client's, [o]. *)
Definition dialogue5 (user : option UsernamePassword) (host : bytes) (port am : Z) (p : bytes) (a : Addr) (o r : bytes) : Prop :=
  exists i au t bport, authenticated user am i au /\ target_ok (target_of host) /\ target_ok t /\ is_u16 bport /\
    p = [5; am] ++ i ++ reply5 t bport ++ r /\ o = greeting5 user ++ au ++ request5 CmdConnect (target_of host) port /\ a = addr_of t bport.
(** The handshake of the RFC: the method is one of those that were offered. *)
Definition rfc1928 (user : option UsernamePassword) (host : bytes) (port : Z) (p : bytes) (a : Addr) (o r : bytes) : Prop :=
  exists am, am ∈ offered user /\ dialogue5 user host port am p a o r.
(** What the client lets pass besides: without credentials, a method that was not offered, as if it were 0. *)
Definition unoffered_method (user : option UsernamePassword) (host : bytes) (port : Z) (p : bytes) (a : Addr) (o r : bytes) : Prop :=
  exists am, user = None /\ am ∉ offered user /\ am <> AuthMethodNoAcceptableMethods /\ dialogue5 user host port am p a o r.
(** What [connect5] accepts; [handshake5_split] says how much of it is the RFC. *)
Definition handshake5 (user : option UsernamePassword) (host : bytes) (port : Z) (p : bytes) (a : Addr) (o r : bytes) : Prop :=
  exists am i au t bport, am <> AuthMethodNoAcceptableMethods /\ authenticated user am i au /\ target_ok (target_of host) /\ target_ok t /\ is_u16 bport /\
    p = [5; am] ++ i ++ reply5 t bport ++ r /\ o = greeting5 user ++ au ++ request5 CmdConnect (target_of host) port /\ a = addr_of t bport.
Lemma handshake5_split user host port p a o r : handshake5 user host port p a o r <-> rfc1928 user host port p a o r \/ unoffered_method user host port p a o r.
Proof.
  unfold handshake5, rfc1928, unoffered_method, dialogue5, AuthMethodNoAcceptableMethods. split.
  - intros (am & i & au & t & bport & Hm & Hau & H). destruct (decide (am ∈ offered user)) as [Hin|Hout]; [left; exists am; split; [done|]; by exists i, au, t, bport|right].
    exists am. split; [|by split; [|split; [|exists i, au, t, bport]]]. destruct user as [u|]; [|done]. destruct Hout. destruct Hau as [(-> & _)|(-> & _)]; by cbn; set_solver.
  - intros [(am & Hin & i & au & t & bport & H)|(am & _ & _ & Hm & i & au & t & bport & H)]; exists am, i, au, t, bport; (split; [|exact H]); [|done].
    intros ->. destruct user as [u|]; cbn in Hin; set_solver.
Qed.
Lemma does_connect5 user d host port : dialer5 user d -> does (connect5 d host port) (handshake5 user host port).
Proof.
  intros (Hc & Ha & Hm). unfold connect5. assert (greeting d = Some (greeting5 user)) as ->. { unfold greeting. rewrite Ha, Hm. by destruct user. }
  rewrite Hc, Ha. change (u8 CmdConnect) with CmdConnect.
  assert (forall am, does (match UsernamePassword_Authenticate <$> user with Some auth => auth am | None => io_ret tt end) (fun p _ o r => exists i, authenticated user am i o /\ p = i ++ r)) as Hauth.
  { intros am. destruct user as [u|]; cbn; [apply does_Authenticate|]. eapply does_iff; [|apply does_ret]. intros p a o r _. cbn.
    split; [intros (-> & -> & ->); by exists []|]. intros (i & (-> & ->) & ->). by destruct a. }
  destruct (request_address host) as [addr|e] eqn:Ea.
  - apply request_address_ok in Ea as [-> Hok].
    eapply does_iff; [|eapply does_bind; [apply does_write|]; intros; eapply does_bind; [apply does_read; lia|]; intros; do 2 apply does_guard; eapply does_bind; [apply Hauth|]; intros; eapply does_bind; [apply does_write|]; intros; apply does_read_reply5].
    cbv beta. intros p a o r _. split.
    + intros (_ & o1 & o2 & q & (-> & ->) & (b & o3 & o4 & q1 & (Hb & -> & ->) & (H1 & H2 & (_ & o5 & o6 & q2 & (i & Hi & ->) & (_ & o7 & o8 & q3 & (-> & ->) & (t & bport & Ht & Hp & -> & -> & ->) & ->) & ->)) & ->) & ->).
      apply two_bytes in Hb as (x & y & ->). cbn in H1, H2. apply negb_false_iff, Z.eqb_eq in H1. apply Z.eqb_neq in H2. subst x.
      exists y, i, o5, t, bport. rewrite app_nil_r. split; [done|]. split; [done|]. split; [done|]. split; [done|]. split; [done|]. split; [done|]. by split.
    + intros (am & i & au & t & bport & Ham & Hi & _ & Ht & Hp & -> & -> & ->).
      exists tt, (greeting5 user), (au ++ request5 CmdConnect (target_of host) port), ([5; am] ++ i ++ reply5 t bport ++ r). split; [done|]. split; [|done].
      exists [5; am], [], (au ++ request5 CmdConnect (target_of host) port), (i ++ reply5 t bport ++ r). split; [done|]. split; [|done]. split; [done|]. split; [by apply Z.eqb_neq|].
      exists tt, au, (request5 CmdConnect (target_of host) port), (reply5 t bport ++ r). split; [by exists i|]. split; [|done].
      exists tt, (request5 CmdConnect (target_of host) port), [], (reply5 t bport ++ r). split; [done|]. split; [|by rewrite app_nil_r]. by exists t, bport.
  - eapply does_iff; [|eapply does_bind; [apply does_write|]; intros; eapply does_bind; [apply does_read; lia|]; intros; do 2 apply does_guard; eapply does_bind; [apply Hauth|]; intros; apply does_fail].
    cbv beta. intros p a o r _. split.
    + intros (_ & o1 & o2 & q & (-> & ->) & (b & o3 & o4 & q1 & (Hb & -> & ->) & (H1 & H2 & (_ & o5 & o6 & q2 & _ & [] & _)) & _) & _).
    + intros (am & i & au & t & bport & _ & _ & Hok & _). assert (request_address host = Ok (target_wire (target_of host))) by by apply request_address_ok. congruence.
Qed.

(** ** SOCKS 4 and 4a on the wire *)
Definition request4 (cmd port : Z) (ip user domain : bytes) : bytes :=
  [4; cmd] ++ put_u16 port ++ ip ++ user ++ [0] ++ (if bool_decide (domain = []) then [] else domain ++ [0]).
Definition handshake4 (LookupIP : bytes -> result error (list bytes)) (d : Dialer) (host : bytes) (port : Z) (p : bytes) (a : Addr) (o r : bytes) : Prop :=
  exists v ip domain bport bip, (v = 0 \/ v = 4) /\ has_byte 0 (UserID d) = false /\ target4 LookupIP d host = Ok (ip, domain) /\ is_u16 bport /\ len bip = 4 /\
    p = [v; 90] ++ put_u16 bport ++ bip ++ r /\ o = request4 CmdConnect port ip (UserID d) domain /\ a = mkAddr [] (Some (v4prefix ++ bip)) bport.
Lemma does_connect4 LookupIP d host port : cmd d = CmdConnect -> does (connect4 LookupIP d host port) (handshake4 LookupIP d host port).
Proof.
  intros Hc. unfold connect4, validateSocks4CString. rewrite Hc. change (u8 CmdConnect) with CmdConnect. destruct (has_byte 0 (UserID d)) eqn:Hu.
  { eapply does_iff; [|apply does_fail]. intros p a o r _. split; [done|]. intros (v & ip & dom & bp & bip & _ & ? & _). congruence. }
  destruct (target4 LookupIP d host) as [[ip domain]|e] eqn:Et.
  2:{ eapply does_iff; [|apply does_fail]. intros p a o r _. split; [done|]. intros (v & ip & dom & bp & bip & _ & _ & ? & _). congruence. }
  eapply does_iff; [|eapply does_bind; [apply does_write|]; intros; eapply does_bind; [apply does_read; lia|]; intros; do 2 apply does_guard; apply does_ret].
  cbv beta. intros p a o r Hp. split.
  - intros (_ & o1 & o2 & q & (-> & ->) & (b & o3 & o4 & q1 & (Hb & -> & ->) & (H1 & H2 & -> & -> & ->) & ->) & ->).
    apply bytes_ok_app in Hp as [Hp _]. rewrite <- (slice_to_from b 4) in Hb, Hp, H1, H2 |- *. destruct (four_bytes (slice_to b 4)) as (v & x & y & z & E).
    { rewrite slice_to_from in Hb. rewrite len_slice_to by lia. done. }
    rewrite E in *. set (bip := slice_from b 4) in *. rewrite len_app in Hb. cbn in H1, H2. apply negb_false_iff, Z.eqb_eq in H2. subst x.
    assert (bytes_ok [y; z]) as Hyz by (inversion Hp as [|? ? _ Hp1]; inversion Hp1 as [|? ? _ Hp2]; inversion Hp2 as [|? ? Hy Hp3]; inversion Hp3; constructor; [done|constructor; [done|constructor]]).
    destruct (port_end [y; z] Hyz) as (name & bport & E2 & Hport); [done|]. assert (name = []) as -> by (apply len_zero; apply (f_equal len) in E2; rewrite len_app, len_put_u16 in E2; unfold len in *; cbn in E2; lia).
    cbn [app] in E2. destruct (port_end_value [] bport Hport) as [_ E3]. rewrite <- E2 in E3.
    exists v, ip, domain, bport, bip. split. { apply andb_false_iff in H1 as [H1|H1]; apply negb_false_iff, Z.eqb_eq in H1; auto. }
    split; [done|]. split; [done|]. split; [done|]. split; [unfold len in *; cbn in *; lia|]. split; [rewrite <- E2; cbn; done|]. split; [by rewrite app_nil_r|].
    assert (Z.lor (Z.shiftl y 8) z = bport) as <- by exact E3. reflexivity.
  - intros (v & ip' & dom' & bport & bip & Hv & _ & Ht & Hport & Hbip & -> & -> & ->). rewrite Et in Ht. injection Ht as <- <-.
    exists tt, (request4 CmdConnect port ip (UserID d) domain), [], ([v; 90] ++ put_u16 bport ++ bip ++ r). split; [done|]. split; [|by rewrite app_nil_r].
    exists ([v; 90] ++ put_u16 bport ++ bip), [], [], r. split; [split; [rewrite !len_app, len_put_u16, Hbip; done|]; by rewrite <- !app_assoc|]. split; [|done].
    split; [destruct Hv as [-> | ->]; done|]. split; [done|]. split; [|done]. destruct (port_end_value [] bport Hport) as [_ E3]. rewrite <- E3 at 1. reflexivity.
Qed.

(** ** The tunnel *)
Definition proxy_user (user : option (bytes * bytes)) : option UsernamePassword := (fun u => mkUserPass u.1 u.2) <$> user.
Lemma proxy_dialer5 user remote d : proxy_dialer "socks5" user remote = Some d -> dialer5 (proxy_user user) d /\ version d = Version5 /\ validateTarget d "tcp" = None.
Proof. intros [= <-]. by destruct user as [[u p]|]. Qed.
Lemma does_connect LookupIP d address host port P : splitHostPort address = Ok (host, port) ->
  does (if version d =? Version4 then connect4 LookupIP d host port else connect5 d host port) P -> does (connect LookupIP d None address) P.
Proof.
  intros E H. unfold connect. rewrite E. eapply does_iff; [|eapply does_bind; [exact H|]; intros; apply does_ret]. cbv beta. intros p a o r _. split.
  - intros (a1 & o1 & o2 & q & HP & (-> & -> & ->) & ->). by rewrite app_nil_r.
  - intros HP. exists a, o, [], r. rewrite app_nil_r. done.
Qed.
Lemma DialWithConn_ok LookupIP d ctxErr c address a c' : validateTarget d "tcp" = None ->
  DialWithConn LookupIP d true ctxErr c "tcp" address = (Ok a, c') <-> connect LookupIP d ctxErr address c = (Ok a, c').
Proof. intros E. unfold DialWithConn. rewrite E. cbn [negb]. destruct (connect LookupIP d ctxErr address c) as [[x|e] c1]; split; intros [=]; by subst. Qed.

(** C31: a tunnel through a SOCKS 5 proxy is established exactly when the proxy grants it as RFC 1928 and 1929 say, with or without
    credentials, or, when there are no credentials, grants it after it chose a method that was not offered (a finding: the client goes
    on as if no authentication had been chosen). The client has then sent its greeting, the credentials if the proxy chose that
    method, and a request for exactly the host and port it was asked for; it has read exactly the proxy's messages, so what follows
    in the connection is the tunnel's first byte, however the network cut the messages. *)
Theorem socks5_tunnel LookupIP user remote d c address host port : proxy_dialer "socks5" user remote = Some d -> writable c -> splitHostPort address = Ok (host, port) ->
  (forall a c', DialWithConn LookupIP d true None c "tcp" address = (Ok a, c') -> exists o r,
    (rfc1928 (proxy_user user) host port (incoming c) a o r \/ unoffered_method (proxy_user user) host port (incoming c) a o r) /\ after c o r c') /\
  (forall a o r, rfc1928 (proxy_user user) host port (incoming c) a o r \/ unoffered_method (proxy_user user) host port (incoming c) a o r ->
    exists c', DialWithConn LookupIP d true None c "tcp" address = (Ok a, c') /\ after c o r c').
Proof.
  intros (Hd & Hv & Ht)%proxy_dialer5 Hc Hs. destruct (does_connect LookupIP d address host port _ Hs ltac:(rewrite Hv; apply (does_connect5 _ d host port Hd)) c Hc) as [S C]. split.
  - intros a c' (o & r & H & Ha)%DialWithConn_ok%S; [|done]. exists o, r. by rewrite <- handshake5_split.
  - intros a o r H%handshake5_split. destruct (C a o r H) as (c' & E & Ha). exists c'. split; [by apply DialWithConn_ok|done].
Qed.

(** The same for SOCKS 4 and 4a: the request has the port, the address the host stands for
    (for 4a the host itself), and the user's name. *)
Theorem socks4_tunnel LookupIP scheme user remote d c address host port : (scheme = "socks4" \/ scheme = "socks4a")%string -> proxy_dialer scheme user remote = Some d -> writable c -> splitHostPort address = Ok (host, port) ->
  (forall a c', DialWithConn LookupIP d true None c "tcp" address = (Ok a, c') -> exists o r, handshake4 LookupIP d host port (incoming c) a o r /\ after c o r c') /\
  (forall a o r, handshake4 LookupIP d host port (incoming c) a o r -> exists c', DialWithConn LookupIP d true None c "tcp" address = (Ok a, c') /\ after c o r c').
Proof.
  intros Hsch Hp Hc Hs. assert (version d = Version4 /\ cmd d = CmdConnect /\ validateTarget d "tcp" = None) as (Hv & Hcmd & Ht) by by destruct Hsch as [-> | ->]; injection Hp as <-.
  destruct (does_connect LookupIP d address host port _ Hs ltac:(rewrite Hv; apply (does_connect4 LookupIP d host port Hcmd)) c Hc) as [S C]. split.
  - intros a c' H%DialWithConn_ok; [by apply S|done].
  - intros a o r H. destruct (C a o r H) as (c' & E & Ha). exists c'. split; [by apply DialWithConn_ok|done].
Qed.

(** ** What a proxy reads in the requests *)
(** RFC 1928: the command, the target and its port, and what follows the request. *)
Definition split_target (p : bytes) : option (target * bytes) :=
  match p with
  | t :: p =>
      if t =? 1 then if 4 <=? len p then Some (TIPv4 (slice_to p 4), slice_from p 4) else None
      else if t =? 4 then if 16 <=? len p then Some (TIPv6 (slice_to p 16), slice_from p 16) else None
      else if t =? 3 then match p with n :: p => if n <=? len p then Some (TName (slice_to p n), slice_from p n) else None | [] => None end
      else None
  | [] => None
  end.
Definition server_request5 (p : bytes) : option (Z * target * Z * bytes) :=
  match p with
  | v :: c :: z :: p =>
      if (v =? 5) && (z =? 0) then
        match split_target p with
        | Some (t, hi :: lo :: rest) => Some (c, t, get_u16 [hi; lo], rest)
        | _ => None
        end
      else None
  | _ => None
  end.
(** SOCKS 4 and 4a: the command, port, address, user and domain; the domain is read when
    the address is 0.0.0.x. *)
Definition zero_net (ip : bytes) : bool := match ip with [a; b; c; x] => (a =? 0) && (b =? 0) && (c =? 0) && negb (x =? 0) | _ => false end.
Definition server_request4 (p : bytes) : option (Z * Z * bytes * bytes * bytes * bytes) :=
  match p with
  | v :: c :: hi :: lo :: a :: b :: x :: y :: p =>
      if v =? 4 then
        match cut 0 p with
        | None => None
        | Some (user, rest) =>
            if zero_net [a; b; x; y] then match cut 0 rest with Some (domain, rest) => Some (c, get_u16 [hi; lo], [a; b; x; y], user, domain, rest) | None => None end
            else Some (c, get_u16 [hi; lo], [a; b; x; y], user, [], rest)
        end
      else None
  | _ => None
  end.
Lemma target4_spec LookupIP d host ip domain : target4 LookupIP d host = Ok (ip, domain) ->
  has_byte 0 domain = false /\ ((domain = [] /\ (To4 ip = Some ip)) \/ (domain = host /\ domain <> [] /\ zero_net ip = true)).
Proof.
  unfold target4. assert (forall q ip4, To4 q = Some ip4 -> To4 ip4 = Some ip4) as H4.
  { intros q ip4. unfold To4. destruct (Nat.eqb_spec (length q) 4); [by intros [= <-]; destruct (Nat.eqb_spec (length q) 4)|]. destruct (Nat.eqb_spec (length q) 16); [|done].
    case_bool_decide; [|done]. intros [= <-]. rewrite length_drop. by replace (length q - 12)%nat with 4%nat by lia. }
  destruct (ParseIP host) as [q|]; [destruct (To4 q) eqn:E; [|done]; intros [= <- <-]; split; [done|left; split; [done|by eapply H4]]|].
  destruct (Socks4A d).
  - case_bool_decide; [done|]. destruct (_ <? _); [done|]. unfold validateSocks4CString. destruct (has_byte 0 host) eqn:Eh; [done|]. intros [= <- <-]. split; [done|]. right. done.
  - destruct (LookupIP host) as [[|q ips]|]; try done. destruct (To4 q) eqn:E; [|done]. intros [= <- <-]. split; [done|left; split; [done|by eapply H4]].
Qed.
Lemma split_target_wire t r : target_ok t -> split_target (target_wire t ++ r) = Some (t, r).
Proof.
  destruct t as [a|a|n]; cbn; intros H; pose proof (len_nonneg r).
  - rewrite len_app, H. rewrite (proj2 (Z.leb_le 4 (4 + len r))) by lia. by rewrite slice_to_app, slice_from_app.
  - rewrite len_app, H. rewrite (proj2 (Z.leb_le 16 (16 + len r))) by lia. by rewrite slice_to_app, slice_from_app.
  - rewrite len_app. rewrite (proj2 (Z.leb_le (len n) (len n + len r))) by lia. by rewrite slice_to_app, slice_from_app.
Qed.

Lemma request5_read_back host port : target_ok (target_of host) -> is_u16 port ->
  server_request5 (request5 CmdConnect (target_of host) port) = Some (CmdConnect, target_of host, port, []).
Proof.
  intros Ht Hp. unfold request5, server_request5. cbn [app]. rewrite split_target_wire by done. cbn [andb Z.eqb]. unfold put_u16 at 1. do 2 f_equal.
  pose proof (get_put_u16 port [] Hp) as H. rewrite app_nil_r in H. f_equal. exact H.
Qed.
Lemma request4_read_back LookupIP d host port ip domain : target4 LookupIP d host = Ok (ip, domain) -> has_byte 0 (UserID d) = false -> is_u16 port -> (domain = [] -> zero_net ip = false) ->
  server_request4 (request4 CmdConnect port ip (UserID d) domain) = Some (CmdConnect, port, ip, UserID d, domain, []).
Proof.
  intros Ht Eu Hp Hz. apply target4_spec in Ht as [Hd Hc].
  assert (exists a b x y, ip = [a; b; x; y]) as (a & b & x & y & ->).
  { destruct Hc as [[_ H]|(_ & _ & H)]; [|destruct ip as [|? [|? [|? [|? [|]]]]]; try done; by do 4 eexists]. unfold To4 in H.
    destruct (Nat.eqb_spec (length ip) 4) as [E|]; [apply four_bytes; unfold len; lia|]. destruct (Nat.eqb_spec (length ip) 16); [|done]. case_bool_decide; [|done]. injection H as H. apply (f_equal length) in H. rewrite length_drop in H. lia. }
  pose proof (get_put_u16 port [] Hp) as H. rewrite app_nil_r in H. unfold request4, server_request4, put_u16. cbn [app]. change (4 =? 4) with true. cbv iota.
  rewrite cut_app by done. destruct Hc as [[-> _]|(-> & Hne & Hzn)].
  - rewrite Hz by done. rewrite bool_decide_true by done. by replace (get_u16 [u8 (Z.shiftr port 8); u8 port]) with port.
  - rewrite Hzn, bool_decide_false by done. rewrite cut_app by done. by replace (get_u16 [u8 (Z.shiftr port 8); u8 port]) with port.
Qed.
Lemma splitHostPort_port address host port : splitHostPort address = Ok (host, port) -> is_u16 port.
Proof. unfold splitHostPort, is_u16. destruct (SplitHostPort address) as [[h p]|]; [|done]. destruct (Atoi _); [|done]. destruct (_ || _) eqn:E; [done|]. intros [= <- <-]. lia. Qed.
Lemma proxy_dialer_versions scheme user remote d : proxy_dialer scheme user remote = Some d ->
  cmd d = CmdConnect /\ validateTarget d "tcp" = None /\ ((version d = Version5 /\ dialer5 (proxy_user user) d) \/ version d = Version4).
Proof. unfold proxy_dialer. destruct (_ || _); [|destruct (_ || _); [|done]]; intros [= <-]; [|by destruct user as [[u q]|]; auto]. split; [by destruct user as [[u q]|]|]. split; [by destruct user as [[u q]|]|]. left. by destruct user as [[u q]|]. Qed.

(** When a dial through a proxy succeeds, what the proxy has read is what was meant:
    after the greeting and, if it asked for them, the credentials, a SOCKS 5 request that
    RFC 1928 reads as the host and port of the dial; or only a SOCKS 4 request that the
    original protocol and its 4a extension read as the port, the address or domain of the
    host and the user's name. Nothing is left over, and no field can be cut short or run
    into the next. The only exception is a SOCKS 4 target 0.0.0.x other than 0.0.0.0, which
    4a takes for the sign of a domain. *)
Theorem socks_requests_read_back LookupIP scheme user remote d c address host port a c' : proxy_dialer scheme user remote = Some d -> writable c -> splitHostPort address = Ok (host, port) ->
  DialWithConn LookupIP d true None c "tcp" address = (Ok a, c') ->
  exists pre req, c_out c' = c_out c ++ pre ++ req /\
    ((version d = Version5 /\ (pre = greeting5 (proxy_user user) \/ exists u, proxy_user user = Some u /\ pre = greeting5 (proxy_user user) ++ credentials u) /\
      server_request5 req = Some (CmdConnect, target_of host, port, [])) \/
     (version d = Version4 /\ pre = [] /\ exists ip domain, target4 LookupIP d host = Ok (ip, domain) /\
      ((domain = [] -> zero_net ip = false) -> server_request4 req = Some (CmdConnect, port, ip, UserID d, domain, [])))).
Proof.
  intros (Hcmd & Ht & Hv)%proxy_dialer_versions Hc Hs H%DialWithConn_ok; [|done]. pose proof (splitHostPort_port _ _ _ Hs) as Hport. destruct Hv as [[Hv Hd]|Hv].
  - destruct (does_connect LookupIP d address host port _ Hs ltac:(rewrite Hv; apply (does_connect5 _ d host port Hd)) c Hc) as [S _].
    destruct (S _ _ H) as (o & r & (am & i & au & t & bport & _ & Hau & Hok & _ & _ & _ & -> & _) & _ & Ho & _).
    exists (greeting5 (proxy_user user) ++ au), (request5 CmdConnect (target_of host) port). split; [by rewrite Ho, <- !app_assoc|]. left. split; [done|]. split; [|by apply request5_read_back].
    destruct (proxy_user user) as [u|]; cbn in Hau; [|left; destruct Hau as [_ ->]; by rewrite app_nil_r]. destruct Hau as [(_ & _ & ->)|(_ & _ & _ & ->)]; [left; by rewrite app_nil_r|right; by exists u].
  - destruct (does_connect LookupIP d address host port _ Hs ltac:(rewrite Hv; apply (does_connect4 LookupIP d host port Hcmd)) c Hc) as [S _].
    destruct (S _ _ H) as (o & r & (v & ip & domain & bport & bip & _ & Hu & Ht4 & _ & _ & _ & -> & _) & _ & Ho & _).
    exists [], (request4 CmdConnect port ip (UserID d) domain). split; [done|]. right. split; [done|]. split; [done|]. exists ip, domain. split; [done|]. by apply (request4_read_back LookupIP _ host).
Qed.

(** A connection to the proxy that [DialContext] opened is closed when there is no tunnel. *)
Lemma DialContext_closes LookupIP d hasCtx ctxErr c network address e x : DialContext LookupIP d hasCtx ctxErr (Ok c) network address = (Err e, x) ->
  (exists c', x = Some c') \/ validateTarget d network <> None \/ hasCtx = false.
Proof.
  unfold DialContext. destruct (validateTarget d network); [by right; left|]. destruct hasCtx; [|by right; right]. cbn. destruct (connect LookupIP d ctxErr address c) as [[a|e'] c1]; intros [= <- <-]. left. by exists c1.
Qed.

(** ** Examples *)
Definition no_lookup (h : bytes) : result error (list bytes) := Err (errors_New "no such host").
Definition stream (segs : list bytes) : conn := mkConn segs io_EOF [] None.
Definition ex_user := (bytes_of_string "u", bytes_of_string "pw").
Definition granted5 : conn := stream [[5]; [2; 1]; [0; 5; 0; 0]; [1; 127; 0; 0; 1; 0]; 80 :: bytes_of_string "HTTP"].
Definition ex_dialer (scheme : string) : Dialer := default (NewDialer "tcp" []) (proxy_dialer scheme (Some ex_user) (bytes_of_string "127.0.0.1:1080")).
Definition ex_address : bytes := bytes_of_string "example.com:443".
Example dial5 : (DialWithConn no_lookup (ex_dialer "socks5") true None granted5 "tcp" ex_address).1 = Ok (mkAddr [] (Some [127; 0; 0; 1]) 80)
  /\ incoming (DialWithConn no_lookup (ex_dialer "socks5") true None granted5 "tcp" ex_address).2 = bytes_of_string "HTTP".
Proof. vm_compute. split; reflexivity. Qed.
Lemma bytes_ok_b p : forallb (fun b => (0 <=? b) && (b <? 256)) p = true -> bytes_ok p.
Proof. intros H%forallb_Forall. eapply Forall_impl; [exact H|]. cbv beta. intros x. unfold is_u8. lia. Qed.

Lemma socks5_tunnel_witness : exists a c', DialWithConn no_lookup (ex_dialer "socks5") true None granted5 "tcp" ex_address = (Ok a, c') /\ incoming c' = bytes_of_string "HTTP".
Proof.
  assert (proxy_dialer "socks5" (Some ex_user) (bytes_of_string "127.0.0.1:1080") = Some (ex_dialer "socks5")) as Hd by reflexivity.
  assert (writable granted5) as Hw by (split; [reflexivity|apply bytes_ok_b; vm_compute; reflexivity]).
  assert (splitHostPort ex_address = Ok (bytes_of_string "example.com", 443)) as Hs by (vm_compute; reflexivity).
  destruct (socks5_tunnel no_lookup (Some ex_user) _ _ granted5 ex_address _ _ Hd Hw Hs) as [_ C].
  destruct (C (addr_of (TIPv4 [127; 0; 0; 1]) 80) (greeting5 (proxy_user (Some ex_user)) ++ credentials (mkUserPass ex_user.1 ex_user.2) ++ request5 CmdConnect (target_of (bytes_of_string "example.com")) 443) (bytes_of_string "HTTP")) as (c' & E & _ & _ & Hi).
  - left. exists 2. split; [apply list_elem_of_In; vm_compute; auto|]. exists [1; 0], (credentials (mkUserPass ex_user.1 ex_user.2)), (TIPv4 [127; 0; 0; 1]), 80. split; [right; split; [reflexivity|split; [split; vm_compute; split; discriminate|split; reflexivity]]|].
    split; [vm_compute; discriminate|]. split; [reflexivity|]. split; [unfold is_u16; lia|]. split; [vm_compute; reflexivity|]. split; reflexivity.
  - eexists. exists c'. split; [exact E|exact Hi].
Defined.
Definition granted4 : conn := stream [[0; 90; 0]; [80; 127; 0; 0; 1; 88]; [89]].
Lemma socks4_tunnel_witness : exists a c', DialWithConn no_lookup (ex_dialer "socks4a") true None granted4 "tcp" ex_address = (Ok a, c') /\ incoming c' = [88; 89].
Proof.
  assert (proxy_dialer "socks4a" (Some ex_user) (bytes_of_string "127.0.0.1:1080") = Some (ex_dialer "socks4a")) as Hd by reflexivity.
  assert (writable granted4) as Hw by (split; [reflexivity|apply bytes_ok_b; vm_compute; reflexivity]).
  assert (splitHostPort ex_address = Ok (bytes_of_string "example.com", 443)) as Hs by (vm_compute; reflexivity).
  destruct (socks4_tunnel no_lookup "socks4a" (Some ex_user) _ _ granted4 ex_address _ _ (or_intror eq_refl) Hd Hw Hs) as [_ C].
  destruct (C (mkAddr [] (Some (v4prefix ++ [127; 0; 0; 1])) 80) (request4 CmdConnect 443 [0; 0; 0; 1] (bytes_of_string "u") (bytes_of_string "example.com")) [88; 89]) as (c' & E & _ & _ & Hi).
  - exists 0, [0; 0; 0; 1], (bytes_of_string "example.com"), 80, [127; 0; 0; 1]. split; [left; reflexivity|]. split; [vm_compute; reflexivity|]. split; [vm_compute; reflexivity|]. split; [unfold is_u16; lia|].
    split; [reflexivity|]. split; [vm_compute; reflexivity|]. split; reflexivity.
  - eexists. exists c'. split; [exact E|exact Hi].
Defined.
Lemma socks_requests_read_back_witness : exists a c' req, DialWithConn no_lookup (ex_dialer "socks4a") true None granted4 "tcp" ex_address = (Ok a, c') /\ c_out c' = req /\
  server_request4 req = Some (CmdConnect, 443, [0; 0; 0; 1], bytes_of_string "u", bytes_of_string "example.com", []).
Proof.
  assert (proxy_dialer "socks4a" (Some ex_user) (bytes_of_string "127.0.0.1:1080") = Some (ex_dialer "socks4a")) as Hd by reflexivity.
  assert (writable granted4) as Hw by (split; [reflexivity|apply bytes_ok_b; vm_compute; reflexivity]).
  assert (splitHostPort ex_address = Ok (bytes_of_string "example.com", 443)) as Hs by (vm_compute; reflexivity).
  destruct (DialWithConn no_lookup (ex_dialer "socks4a") true None granted4 "tcp" ex_address) as [[a|e] c'] eqn:E; [|vm_compute in E; discriminate].
  destruct (socks_requests_read_back no_lookup "socks4a" (Some ex_user) _ _ granted4 ex_address _ _ a c' Hd Hw Hs E) as (pre & req & Ho & [(Hv & _)|(_ & -> & ip & domain & Ht & Hr)]); [vm_compute in Hv; discriminate|].
  exists a, c', req. split; [reflexivity|]. split; [exact Ho|]. vm_compute in Ht. injection Ht as <- <-. apply Hr. discriminate.
Defined.
Example zero_net_confused : server_request4 (request4 CmdConnect 80 [0; 0; 0; 7] [] []) = None /\ (target4 no_lookup (ex_dialer "socks4") (bytes_of_string "0.0.0.7")) = Ok ([0; 0; 0; 7], []).
Proof. vm_compute. split; reflexivity. Qed.
(** A method that was not offered is accepted when there are no credentials. *)
Example unoffered_method_accepted : (connect5 (NewDialer "tcp" []) (bytes_of_string "example.com") 443 (stream [[5; 1; 5; 0; 0; 1; 127; 0; 0; 1; 0; 80]])).1 = Ok (mkAddr [] (Some [127; 0; 0; 1]) 80).
Proof. vm_compute. reflexivity. Qed.
