(* ===== verification/Digest.v ===== *)
(** * Digest authentication ([src/digest.go])

    Requests that share the cache of challenges, as a system of steps. The digest library
    ([icholy/digest]) is a parameter: its challenges, their parser and the credentials it
    computes. *)

From S2P Require Import Prelude.
From S2P Require Import H2Errors.
From S2P Require Import NetText.
From S2P Require Import Bufio.
From S2P Require Import BufioLine.
From S2P Require Import Chunked.
From S2P Require Import TextProto.
From S2P Require Import NetAddr.
From S2P Require Import AltSvc.

Section Digest.
Context {Challenge : Type}.
Context (IsDigest : string -> bool) (ParseChallenge : string -> result error Challenge) (CanDigest : Challenge -> bool)
        (ch_Nonce : Challenge -> string) (ch_QOP : Challenge -> list string) (set_QOP : Challenge -> list string -> Challenge)
        (ErrNoChallenge : error).
(** [digest.Digest(chal, opt)] of a request (its method, URI and body) with a count. *)
Context {Target : Type} (digest_Digest : Challenge -> Target -> Z -> result error (option string)).

(** ** Choosing a challenge *)
Definition missingNonce : error := fmt_Errorf "req: digest challenge is missing nonce" [].
Definition trim_qop (s : string) : string := string_of_bytes (TrimSpace (bytes_of_string s)).
(** What is made of one header: [None] if it is not a digest challenge, or not one that is supported. *)
Definition usable (header : string) : option (result error Challenge) :=
  if negb (IsDigest header) then None
  else match ParseChallenge header with
       | Err e => Some (Err e)
       | Ok c =>
           if String.eqb (ch_Nonce c) "" then Some (Err missingNonce)
           else let c := set_QOP c (trim_qop <$> ch_QOP c) in if CanDigest c then Some (Ok c) else None
       end.
Fixpoint findDigestChallenge (headers : list string) (lastErr : error) : result error Challenge :=
  match headers with
  | [] => Err lastErr
  | h :: headers => match usable h with Some (Ok c) => Ok c | Some (Err e) => findDigestChallenge headers e | None => findDigestChallenge headers lastErr end
  end.

(** ** The shared cache *)
Record cchal := mkCchal { cc_c : Challenge; cc_n : Z }.
(** The response to a round trip: an error, or a status and the WWW-Authenticate values. *)
Inductive reply := RErr (e : error) | RStatus (code : Z) (auth : list string).
(** What a request returns; [closed]: the body of the response was drained and closed. *)
Inductive outcome := OErr (e : error) | OResp (code : Z) (closed : bool).
(** [PFirst], [PSecond]: a round trip is under way; [PRetry]: the new challenge is cached. *)
Inductive phase := PFirst | PRetry | PSecond | PDone (o : outcome).
(** [dr_getBody k]: the body of the [k]-th clone. *)
Record request := mkReq { dr_host : string; dr_target : Target; dr_getBody : nat -> result error bytes; dr_phase : phase }.
(** A round trip: the cookies that were added, the credentials with the cached challenge and
    count they were made from, and the body. *)
Record sent := mkSent { s_req : nat; s_cookies : list string; s_auth : option (nat * Z * option string); s_body : bytes }.
Record system := mkSys { cache : gmap string nat; cells : gmap nat cchal; reqs : gmap nat request; log : list sent; fresh : nat }.
Definition sys_init : system := mkSys ∅ ∅ ∅ [] 0.
Definition set_req r q s := mkSys (cache s) (cells s) (<[r := q]> (reqs s)) (log s) (fresh s).
Definition at_phase (q : request) (p : phase) : request := mkReq (dr_host q) (dr_target q) (dr_getBody q) p.
Definition send x s := mkSys (cache s) (cells s) (reqs s) (log s ++ [x]) (fresh s).

(** [challenge]: the cell, with its count increased. *)
Definition challenge (host : string) (s : system) : option (nat * cchal) * system :=
  match cache s !! host with
  | None => (None, s)
  | Some i =>
      match cells s !! i with
      | None => (None, s)
      | Some cc => let cc := mkCchal (cc_c cc) (cc_n cc + 1) in (Some (i, cc), mkSys (cache s) (<[i := cc]> (cells s)) (reqs s) (log s) (fresh s))
      end
  end.
(** [clone] and [prepare], up to the round trip: [k] is the number of the clone, [jar] the
    cookies of the client's jar for the URL. *)
Definition start (r : nat) (q : request) (k : nat) (jar : list string) (next : phase) (s : system) : system :=
  match dr_getBody q k with
  | Err e => set_req r (at_phase q (PDone (OErr e))) s
  | Ok body =>
      match challenge (dr_host q) s with
      | (None, s) => set_req r (at_phase q next) (send (mkSent r jar None body) s)
      | (Some (i, cc), s) =>
          match digest_Digest (cc_c cc) (dr_target q) (cc_n cc) with
          | Err e => set_req r (at_phase q (PDone (OErr e))) s
          | Ok cred => set_req r (at_phase q next) (send (mkSent r jar (Some (i, cc_n cc, cred)) body) s)
          end
      end
  end.
(** [cloner]: the bodies of the clones, from the request's own [GetBody], or from its body
    read into memory, which may fail. *)
Inductive body := BGetBody (f : nat -> result error bytes) | BNone | BRead (data : result error bytes) (closeErr : option error).
Definition cloner (b : body) : result error (nat -> result error bytes) :=
  match b with
  | BGetBody f => Ok f
  | BNone => Ok (fun _ => Ok [])
  | BRead (Err e) _ => Err e
  | BRead (Ok data) (Some e) => Err e
  | BRead (Ok data) None => Ok (fun _ => Ok data)
  end.

Inductive event :=
| EStart (r : nat) (host : string) (t : Target) (b : body) (jar : list string)
| EReply (r : nat) (x : reply)
| ESecond (r : nat) (jar : list string).
Definition exec (e : event) (s : system) : option system :=
  match e with
  | EStart r host t b jar =>
      match reqs s !! r with
      | Some _ => None
      | None =>
          match cloner b with
          | Err e => Some (set_req r (mkReq host t (fun _ => Err e) (PDone (OErr e))) s)
          | Ok getBody => Some (start r (mkReq host t getBody PFirst) 0 jar PFirst s)
          end
      end
  | EReply r x =>
      match reqs s !! r with
      | None => None
      | Some q =>
          match dr_phase q, x with
          | (PFirst | PSecond), RErr e => Some (set_req r (at_phase q (PDone (OErr e))) s)
          | PSecond, RStatus code _ => Some (set_req r (at_phase q (PDone (OResp code false))) s)
          | PFirst, RStatus code auth =>
              if negb (code =? 401) then Some (set_req r (at_phase q (PDone (OResp code false))) s)
              else match findDigestChallenge auth ErrNoChallenge with
                   | Err e =>
                       let s := mkSys (delete (dr_host q) (cache s)) (cells s) (reqs s) (log s) (fresh s) in
                       Some (set_req r (at_phase q (PDone (if bool_decide (e = ErrNoChallenge) then OResp code true else OErr e))) s)
                   | Ok c =>
                       let s := mkSys (<[dr_host q := fresh s]> (cache s)) (<[fresh s := mkCchal c 0]> (cells s)) (reqs s) (log s) (S (fresh s)) in
                       Some (set_req r (at_phase q PRetry) s)
                   end
          | _, _ => None
          end
      end
  | ESecond r jar =>
      match reqs s !! r with
      | Some q => match dr_phase q with PRetry => Some (start r q 1 jar PSecond s) | _ => None end
      | None => None
      end
  end.
Inductive reachable : system -> Prop :=
| ReachInit : reachable sys_init
| ReachStep s e s' : reachable s -> exec e s = Some s' -> reachable s'.
Fixpoint run (es : list event) (s : system) : option system :=
  match es with [] => Some s | e :: es => match exec e s with Some s => run es s | None => None end end.

(** ** The challenge that is used *)
(** What [findDigestChallenge] is for: the first header that can be answered, whatever the
    others are; without one, the error of the last digest challenge that could not be read. *)
Lemma find_first headers lastErr c : findDigestChallenge headers lastErr = Ok c <->
  exists pre h post, headers = pre ++ h :: post /\ usable h = Some (Ok c) /\ Forall (fun h => forall c, usable h <> Some (Ok c)) pre.
Proof.
  revert lastErr. induction headers as [|h headers IH]; intros lastErr; cbn; [split; [done|by intros ([|] & ? & ? & ? & _)]|].
  assert (forall e, (forall c, usable h <> Some (Ok c)) -> findDigestChallenge headers e = Ok c <->
    exists pre x post, h :: headers = pre ++ x :: post /\ usable x = Some (Ok c) /\ Forall (fun h => forall c, usable h <> Some (Ok c)) pre) as Hskip.
  { intros e Hh. rewrite IH. split.
    - intros (pre & x & post & -> & Hx & Hf). exists (h :: pre), x, post. split; [done|]. split; [done|]. by constructor.
    - intros ([|y pre] & x & post & [= <- Heq] & Hx & Hf); [by destruct (Hh c)|]. exists pre, x, post. split; [done|]. split; [done|]. by inversion Hf. }
  destruct (usable h) as [[c0|e]|] eqn:Eu; [|by apply Hskip|by apply Hskip]. split.
  - intros [= ->]. exists [], h, headers. split; [done|]. split; [done|constructor].
  - intros ([|y pre] & x & post & [= <- Heq] & Hx & Hf); [congruence|]. inversion Hf as [|? ? Hy _]. by destruct (Hy c0).
Qed.

(** ** Invariants *)
(** The challenge and count of a round trip with credentials. *)
Definition auth_key (x : sent) : option (nat * Z) := match s_auth x with Some (i, n, _) => Some (i, n) | None => None end.
Definition mine (r : nat) (l : list sent) : list sent := filter (fun x => s_req x = r) l.
Arguments mine : simpl never.
(** How many round trips a request has made. *)
Definition made (p : phase) (n : nat) : Prop := match p with PFirst | PRetry => n = 1%nat | PSecond => n = 2%nat | PDone _ => (n <= 2)%nat end.
Record sys_ok (s : system) : Prop := {
  so_cache : forall h i, cache s !! h = Some i -> is_Some (cells s !! i);
  so_fresh : forall i, (fresh s <= i)%nat -> cells s !! i = None;
  so_pos : forall i c, cells s !! i = Some c -> 0 <= cc_n c;
  so_counts : forall x i n, x ∈ log s -> auth_key x = Some (i, n) -> 1 <= n /\ exists c, cells s !! i = Some c /\ n <= cc_n c;
  so_nodup : NoDup (omap auth_key (log s));
  so_none : forall r, reqs s !! r = None -> mine r (log s) = [];
  so_made : forall r q, reqs s !! r = Some q -> made (dr_phase q) (length (mine r (log s)));
  so_body : forall r q k x, reqs s !! r = Some q -> mine r (log s) !! k = Some x -> dr_getBody q k = Ok (s_body x) }.

Lemma sys_init_ok : sys_ok sys_init.
Proof. constructor; try done; [by intros x i n Hx%not_elem_of_nil|constructor]. Qed.
Lemma mine_snoc r l x : mine r (l ++ [x]) = mine r l ++ (if bool_decide (s_req x = r) then [x] else []).
Proof. unfold mine. rewrite filter_app. f_equal. case_bool_decide as H; [by rewrite filter_cons_True, filter_nil|by rewrite filter_cons_False, filter_nil]. Qed.

(** A request moves on without a round trip. *)
Lemma set_req_ok r q q' s : sys_ok s -> reqs s !! r = Some q -> dr_getBody q' = dr_getBody q ->
  made (dr_phase q') (length (mine r (log s))) -> sys_ok (set_req r q' s).
Proof.
  intros H Hr Hg Hm. destruct H as [H1 H2 H3 H4 H5 H6 H7 H8]. constructor; try done; cbn.
  - intros r' [? ?]%lookup_insert_None. by apply H6.
  - intros r' q0 [[<- <-]|[_ ?]]%lookup_insert_Some; [done|by apply H7].
  - intros r' q0 k x [[<- <-]|[_ ?]]%lookup_insert_Some; [rewrite Hg; by apply (H8 r q)|by apply H8].
Qed.
Lemma new_req_ok r q s : sys_ok s -> reqs s !! r = None -> (exists o, dr_phase q = PDone o) -> sys_ok (set_req r q s).
Proof.
  intros H Hr [o Hq]. destruct H as [H1 H2 H3 H4 H5 H6 H7 H8]. constructor; try done; cbn.
  - intros r' [? ?]%lookup_insert_None. by apply H6.
  - intros r' q0 [[<- <-]|[_ ?]]%lookup_insert_Some; [rewrite H6, Hq by done; cbn; lia|by apply H7].
  - intros r' q0 k x [[<- <-]|[_ ?]]%lookup_insert_Some; [by rewrite H6|by apply H8].
Qed.
(** Taking a challenge from the cache. *)
Lemma challenge_ok host s x s' : sys_ok s -> challenge host s = (x, s') -> sys_ok s' /\ log s' = log s /\ reqs s' = reqs s /\
  match x with
  | None => True
  | Some (i, cc) => cells s' !! i = Some cc /\ 1 <= cc_n cc /\ forall y n, y ∈ log s -> auth_key y = Some (i, n) -> n < cc_n cc
  end.
Proof.
  intros H. unfold challenge. destruct (cache s !! host) as [i|]; [|by intros [= <- <-]]. destruct (cells s !! i) as [cc|] eqn:Ei; [|by intros [= <- <-]]. intros [= <- <-]. cbn.
  assert (forall y n, y ∈ log s -> auth_key y = Some (i, n) -> n < cc_n cc + 1) as Hlt.
  { intros y n Hy Hn. destruct (so_counts s H y i n Hy Hn) as (_ & c & Hc & Hle). rewrite Ei in Hc. injection Hc as <-. lia. }
  pose proof (so_pos s H i cc Ei) as Hpos. destruct H as [H1 H2 H3 H4 H5 H6 H7 H8].
  split; [|split; [done|]; split; [done|]; split; [by rewrite lookup_insert_eq|]; split; [lia|done]].
  constructor; try done; cbn.
  - intros h j Hj. destruct (decide (j = i)) as [->|]; [rewrite lookup_insert_eq; done|]. rewrite lookup_insert_ne by done. by apply (H1 h).
  - intros j Hj. rewrite lookup_insert_ne; [by apply H2|]. intros <-. rewrite (H2 i Hj) in Ei. done.
  - intros j c [[<- <-]|[_ ?]]%lookup_insert_Some; [cbn; lia|by apply (H3 j)].
  - intros y j n Hy Hn. destruct (H4 y j n Hy Hn) as (Hn1 & c & Hc & Hle). split; [done|]. destruct (decide (j = i)) as [->|].
    + eexists. rewrite lookup_insert_eq. split; [done|]. cbn. rewrite Ei in Hc. injection Hc as <-. lia.
    + exists c. by rewrite lookup_insert_ne.
Qed.
(** A round trip of a request that is allowed one more. *)
Definition may_send (r : nat) (q : request) (k : nat) (s : system) : Prop :=
  length (mine r (log s)) = k /\ (k < 2)%nat /\ forall j x, mine r (log s) !! j = Some x -> dr_getBody q j = Ok (s_body x).
Lemma send_ok r q k next x s : sys_ok s -> may_send r q k s -> s_req x = r -> dr_getBody q k = Ok (s_body x) -> made next (S k) ->
  (forall i n, auth_key x = Some (i, n) -> 1 <= n /\ (exists c, cells s !! i = Some c /\ n <= cc_n c) /\ forall y m, y ∈ log s -> auth_key y = Some (i, m) -> m < n) ->
  sys_ok (set_req r (at_phase q next) (send x s)).
Proof.
  intros H (Hk & _ & Hbody) Hx Hb Hmade Hauth. destruct H as [H1 H2 H3 H4 H5 H6 H7 H8]. constructor; try done; cbn.
  - intros y i n [Hy| ->%list_elem_of_singleton]%elem_of_app Hn; [by apply (H4 y)|]. destruct (Hauth i n Hn) as (? & ? & _). done.
  - rewrite omap_app. apply NoDup_app. split; [done|]. cbn. destruct (auth_key x) as [[i n]|] eqn:E; [|split; [by intros ? ? ?%not_elem_of_nil|constructor]].
    split; [|apply NoDup_singleton]. intros p (y & Hy & Hp)%list_elem_of_omap ->%list_elem_of_singleton. destruct (Hauth i n eq_refl) as (_ & _ & Hlt). specialize (Hlt y n Hy Hp). lia.
  - intros r' [Hr' Hne]%lookup_insert_None. rewrite mine_snoc, bool_decide_false, app_nil_r by congruence. by apply H6.
  - intros r' q0 [[<- <-]|[Hne Hq]]%lookup_insert_Some.
    + rewrite mine_snoc, bool_decide_true, length_app by done. cbn. rewrite Hk. by replace (k + 1)%nat with (S k) by lia.
    + rewrite mine_snoc, bool_decide_false, app_nil_r by congruence. by apply H7.
  - intros r' q0 j y [[<- <-]|[Hne Hq]]%lookup_insert_Some Hy.
    + rewrite mine_snoc, bool_decide_true in Hy by done. cbn. apply lookup_app_Some in Hy as [Hy|[Hj Hy]]; [by apply (Hbody j)|].
      apply list_lookup_singleton_Some in Hy as [Hj0 <-]. by replace j with k by lia.
    + rewrite mine_snoc, bool_decide_false, app_nil_r in Hy by congruence. by apply (H8 r' q0).
Qed.
Lemma done_ok r q o s : sys_ok s -> (reqs s !! r = None \/ exists q0, reqs s !! r = Some q0 /\ dr_getBody q0 = dr_getBody q) ->
  (length (mine r (log s)) <= 2)%nat -> sys_ok (set_req r (at_phase q (PDone o)) s).
Proof.
  intros H [Hr|(q0 & Hr & Hg)] Hl; [apply new_req_ok; [done|done|by exists o]|]. by apply (set_req_ok r q0).
Qed.
Lemma start_ok r q k jar next s : sys_ok s -> may_send r q k s -> (reqs s !! r = None \/ exists q0, reqs s !! r = Some q0 /\ dr_getBody q0 = dr_getBody q) ->
  made next (S k) -> sys_ok (start r q k jar next s).
Proof.
  intros H Hm Hr Hn. pose proof Hm as (Hk & Hk2 & Hbody). unfold start. destruct (dr_getBody q k) as [b|e] eqn:Eb; [|apply done_ok; [done|done|lia]].
  destruct (challenge (dr_host q) s) as [[[i cc]|] s'] eqn:Ec; destruct (challenge_ok _ _ _ _ H Ec) as (H' & El & Er & Hx).
  - destruct Hx as (Hi & Hpos & Hlt). destruct (digest_Digest (cc_c cc) (dr_target q) (cc_n cc)) as [cred|e].
    + apply (send_ok r q k); try done; [unfold may_send; by rewrite El|]. cbn. intros j n [= <- <-]. split; [done|]. split; [by exists cc|]. by rewrite El.
    + apply done_ok; [done|by rewrite Er|rewrite El; lia].
  - apply (send_ok r q k); try done. unfold may_send. by rewrite El.
Qed.
Lemma event_ok e s s' : sys_ok s -> exec e s = Some s' -> sys_ok s'.
Proof.
  intros H. destruct e as [r host t b jar|r x|r jar]; cbn [exec].
  - destruct (reqs s !! r) eqn:Er; [done|]. pose proof (so_none s H r Er) as Hm. destruct (cloner b) as [f|e]; intros [= <-]; [|by apply new_req_ok; [| |eexists]].
    apply start_ok; [done| |by left|done]. unfold may_send. rewrite Hm. split; [done|]. split; [lia|done].
  - destruct (reqs s !! r) as [q|] eqn:Er; [|done]. pose proof (so_made s H r q Er) as Hm.
    assert (forall o, (length (mine r (log s)) <= 2)%nat -> sys_ok (set_req r (at_phase q (PDone o)) s)) as Hdone by (intros o Hl; apply done_ok; eauto).
    destruct (dr_phase q), x as [e|code auth]; try done; cbn in Hm; try (intros [= <-]; apply Hdone; lia).
    destruct (negb (code =? 401)); [intros [= <-]; apply Hdone; lia|]. destruct (findDigestChallenge auth ErrNoChallenge) as [c|e]; intros [= <-].
    + apply (set_req_ok r q); try done. destruct H as [H1 H2 H3 H4 H5 H6 H7 H8]. constructor; try done; cbn.
      * intros h i [[<- <-]|[_ Hi]]%lookup_insert_Some; [by rewrite lookup_insert_eq|]. destruct (H1 h i Hi) as [c0 Hc]. rewrite lookup_insert_ne; [by exists c0|]. intros <-. rewrite H2 in Hc by lia. done.
      * intros i Hi. rewrite lookup_insert_ne by lia. apply H2. lia.
      * intros i c0 [[<- <-]|[_ ?]]%lookup_insert_Some; [done|by apply (H3 i)].
      * intros x i n Hx Hn. destruct (H4 x i n Hx Hn) as (Hn1 & c0 & Hc & Hle). split; [done|]. exists c0. rewrite lookup_insert_ne; [done|]. intros <-. rewrite H2 in Hc by lia. done.
    + apply done_ok; cbn; [|right; by exists q|lia]. destruct H as [H1 H2 H3 H4 H5 H6 H7 H8]. constructor; try done; cbn. intros h i [_ ?]%lookup_delete_Some. by apply (H1 h).
  - destruct (reqs s !! r) as [q|] eqn:Er; [|done]. destruct (dr_phase q) eqn:Ep; try done. intros [= <-]. pose proof (so_made s H r q Er) as Hm. rewrite Ep in Hm. cbn in Hm.
    apply start_ok; [done| |right; by exists q|done]. unfold may_send. split; [done|]. split; [lia|]. intros j x Hx. by apply (so_body s H r q).
Qed.
Lemma reachable_sys_ok s : reachable s -> sys_ok s.
Proof. induction 1; [apply sys_init_ok|by eapply event_ok]. Qed.

(** ** What requests may rely on *)
(** C30: however many requests share the cache and however they interleave, no two round
    trips answer the same cached challenge with the same count, and the counts of a challenge
    start at 1. A challenge here is a cell of the cache: two cells may hold the same nonce
    ([same_nonce_twice]), and then the same count is sent for it twice. *)
Theorem nonce_counts_unique s : reachable s ->
  NoDup (omap auth_key (log s)) /\ (forall x i n, x ∈ log s -> auth_key x = Some (i, n) -> 1 <= n).
Proof. intros H%reachable_sys_ok. split; [apply (so_nodup s H)|]. intros x i n Hx Hn. by destruct (so_counts s H x i n Hx Hn). Qed.

(** A request makes at most two round trips, each with the body its clone was given,
    whole: the [k]-th round trip carries what the [k]-th [GetBody] returned, so a body that
    had to be read into memory is the same both times; the second is made only after a
    401 with a challenge that can be answered. *)
Theorem digest_round_trips s r q : reachable s -> reqs s !! r = Some q ->
  (length (mine r (log s)) <= 2)%nat /\
  (forall k x, mine r (log s) !! k = Some x -> dr_getBody q k = Ok (s_body x)) /\
  (forall jar s', exec (ESecond r jar) s = Some s' -> dr_phase q = PRetry) /\
  (forall x s', exec (EReply r x) s = Some s' -> forall q', reqs s' !! r = Some q' -> dr_phase q' = PRetry ->
     dr_phase q = PFirst /\ exists auth c pre h post, x = RStatus 401 auth /\ auth = pre ++ h :: post /\ usable h = Some (Ok c) /\ cache s' !! dr_host q = Some (fresh s) /\ cells s' !! fresh s = Some (mkCchal c 0)).
Proof.
  intros H%reachable_sys_ok Hr. split; [|split; [|split]].
  - pose proof (so_made s H r q Hr) as Hm. destruct (dr_phase q); cbn in Hm; lia.
  - intros k x. by apply (so_body s H r q).
  - intros jar s'. cbn. rewrite Hr. by destruct (dr_phase q).
  - intros x s'. cbn. rewrite Hr. destruct (dr_phase q) eqn:Ep, x as [e|code auth]; try done; try (intros [= <-] q'; cbn; rewrite lookup_insert_eq; by intros [= <-]).
    destruct (Z.eqb_spec code 401) as [->|]; cbn [negb]; [|intros [= <-] q'; cbn; rewrite lookup_insert_eq; by intros [= <-]].
    destruct (findDigestChallenge auth ErrNoChallenge) as [c|e] eqn:Ef; intros [= <-] q'; cbn; rewrite lookup_insert_eq; intros [= <-] Hq; [|done].
    apply find_first in Ef as (pre & h & post & Ha & Hu & _). split; [done|]. exists auth, c, pre, h, post. rewrite !lookup_insert_eq. done.
Qed.
End Digest.

(** ** Examples, with a library whose challenges are their nonces *)
Definition ex_find := (fun (_ : string) => true, fun (h : string) => @Ok error string h).
Definition ex_exec : event (Target := unit) -> system (Challenge := string) -> option system :=
  exec ex_find.1 ex_find.2 (fun _ => true) (fun c => c) (fun _ => []) (fun c _ => c) (errors_New "no challenge") (fun c _ n => Ok (Some (c +:+ format_dec n))).
Fixpoint ex_run (es : list event) (s : system) : option system :=
  match es with [] => Some s | e :: es => match ex_exec e s with Some s => ex_run es s | None => None end end.
Abbreviation ex_reachable := (reachable ex_find.1 ex_find.2 (fun _ => true) (fun c => c) (fun _ => []) (fun c _ => c) (errors_New "no challenge") (fun c (_ : unit) n => Ok (Some (c +:+ format_dec n)))) (only parsing).
Lemma ex_run_reachable es : forall s s', ex_reachable s -> ex_run es s = Some s' -> ex_reachable s'.
Proof.
  induction es as [|e es IH]; intros s s' Hs; cbn; [by intros [= <-]|]. destruct (ex_exec e s) as [s1|] eqn:E; [|done]. apply IH. eapply ReachStep; [exact Hs|exact E].
Qed.
Definition post (data : bytes) : body := BRead (Ok data) None.
Definition ex_events : list (event (Target := unit)) :=
  [EStart 0 "a" tt (post [1; 2]) []; EReply 0 (RStatus 401 ["nonce"%string]); ESecond 0 []; EReply 0 (RStatus 200 []); EStart 1 "a" tt (post [3]) ["k=v"%string]].
Definition ex_state : system := default sys_init (ex_run ex_events sys_init).
Lemma ex_state_reachable : ex_reachable ex_state.
Proof. apply (ex_run_reachable ex_events sys_init); [apply ReachInit|vm_compute; reflexivity]. Qed.
Example ex_log : log ex_state = [mkSent 0 [] None [1; 2]; mkSent 0 [] (Some (0%nat, 1, Some "nonce1"%string)) [1; 2]; mkSent 1 ["k=v"%string] (Some (0%nat, 2, Some "nonce2"%string)) [3]].
Proof. vm_compute. reflexivity. Qed.
Lemma nonce_counts_unique_witness : ex_reachable ex_state /\ NoDup (omap auth_key (log ex_state)).
Proof. split; [apply ex_state_reachable|]. apply (nonce_counts_unique _ _ _ _ _ _ _ _ ex_state ex_state_reachable). Defined.
Lemma digest_round_trips_witness : ex_reachable ex_state /\ exists q, reqs ex_state !! 0%nat = Some q /\ (length (mine 0 (log ex_state)) <= 2)%nat /\ dr_getBody q 1 = Ok [1; 2].
Proof.
  split; [apply ex_state_reachable|]. destruct (reqs ex_state !! 0%nat) as [q|] eqn:E; [|by vm_compute in E]. exists q. split; [reflexivity|].
  destruct (digest_round_trips _ _ _ _ _ _ _ _ ex_state 0%nat q ex_state_reachable E) as (H1 & H2 & _). split; [exact H1|].
  apply (H2 1%nat (mkSent 0 [] (Some (0%nat, 1, Some "nonce1"%string)) [1; 2])). vm_compute. reflexivity.
Defined.
(** Another request's 401 without a challenge drops the challenge that the first one has just
    cached: its second round trip goes without credentials. *)
Example second_without_credentials : exists s, ex_run [EStart 0 "a" tt (post [1]) []; EStart 1 "a" tt (post [2]) []; EReply 0 (RStatus 401 ["nonce"%string]); EReply 1 (RStatus 401 []); ESecond 0 []] sys_init = Some s
  /\ log s = [mkSent 0 [] None [1]; mkSent 1 [] None [2]; mkSent 0 [] None [1]] /\ (dr_phase <$> reqs s !! 1%nat) = Some (PDone (OResp 401 true)).
Proof. eexists. split; [vm_compute; reflexivity|]. vm_compute. split; reflexivity. Qed.
(** Two requests that get the same nonce from the server both use count 1 with it. *)
Example same_nonce_twice : exists s, ex_run [EStart 0 "a" tt (post [1]) []; EStart 1 "a" tt (post [2]) []; EReply 0 (RStatus 401 ["nonce"%string]); ESecond 0 []; EReply 1 (RStatus 401 ["nonce"%string]); ESecond 1 []] sys_init = Some s
  /\ omap (fun x => match s_auth x with Some (_, _, c) => Some c | None => None end) (log s) = [Some "nonce1"%string; Some "nonce1"%string].
Proof. eexists. split; [vm_compute; reflexivity|]. vm_compute. reflexivity. Qed.
