(* ===== verification/H1Conn.v ===== *)
(** * The goroutines of an HTTP/1 connection ([src/transport.go]: [persistConn.roundTrip], [writeLoop], [readLoop], [mapRoundTripError])

    The callers of a connection, its write loop and its read loop with the channels
    between them, as a system of steps. What goes over the wire is the subject of
    [H1Request] and [H1ReadLoop]; here reads and writes are events that say how they
    ended. The pool ([H1PoolProps.connection_has_one_owner]) lends a connection to one
    caller at a time: a request starts when the connection is [lent]. *)

From S2P Require Import Prelude.
From S2P Require Import H2Errors.
From S2P Require Import NetText.
From S2P Require Import H2Transport.
From S2P Require Import Bufio.
From S2P Require Import BufioLine.
From S2P Require Import Chunked.
From S2P Require Import TextProto.
From S2P Require Import Transfer.
From S2P Require Import TransferBody.
From S2P Require Import H1Message.
From S2P Require Import H1ReadLoop.
From S2P Require Import TransferWrite.
From S2P Require Import HeaderSort.
From S2P Require Import H1Request.
From S2P Require Import H1RoundTrip.

Definition errReadLoopExiting : error := errors_New "http: persistConn.readLoop exiting".
Definition errCallerOwnsConn : error := errors_New "read loop ending; caller owns writable underlying conn".
Definition errTimeout : error := errors_New "net/http: timeout awaiting response headers".
Definition connectionBroken : error := fmt_Errorf "net/http: HTTP/1.x transport connection broken: %w" [].

#[export] Instance rtError_eq_dec : EqDecision rtError.
Proof. intros x y. unfold Decision. decide equality; apply error_eq_dec. Defined.

(** ** The state *)
(** A call of [roundTrip]: before its two sends, in its select ([armed]: the timer for the
    response headers runs), in [mapRoundTripError], returned (with a response or an error). *)
Inductive caller := CEnter | CSent | CSelect (armed : bool) | CMap (e : rtError) | CRet (r : option rtError).
(** [q_start]: [startBytesWritten]; [q_ch]: the channel for the result of the write;
    [q_err]: [setError]. [q_wrote]: the bytes of this request that were written. *)
Record call := mkCall { q_phase : caller; q_start : Z; q_ch : option (option rtError); q_err : option error; q_wrote : Z }.
Inductive writer := WIdle | WWriting (id : nat) (start : Z) | WPush (id : nat) (e : option rtError) | WReply (id : nat) (e : option rtError) | WClose (e : rtError) | WDone.
(** [RWrote], [RPut]: in [wroteRequest] and [tryPutIdleConn], before the response is
    delivered ([body] false) or after its body. [closeErr] is the error the loop ends with. *)
Inductive reader :=
| RPeek | RTake (perr : option error) | RRead (id : nat) | RFail (id : nat) (e : rtError) (closeErr : rtError)
| RWrote (id : nat) (body : bool) (closeErr : rtError) | RPut (id : nat) (body : bool) (closeErr : rtError)
| RDeliver (id : nat) (alive : bool) (closeErr : rtError) | RDeliverBody (id : nat) (alive : bool) (closeErr : rtError)
| RBody (id : nat) (alive : bool) (closeErr : rtError) | RExit (closeErr : rtError) | RDead.
(** [lent]: the pool may give the connection to a caller; [cur]: the last call it was given to
    (for the proofs only); [werr] is [pc.writeErrCh]. *)
Record pconn_state := mkPc {
  closed : option rtError; canceledErr : option error; nwrite : Z; expected : Z; lent : bool; cur : option nat;
  writech : option nat; reqch : option nat; werr : option (option rtError);
  w : writer; r : reader; calls : gmap nat call }.
Definition pc_init : pconn_state := mkPc None None 0 0 true None None None None WIdle RPeek ∅.

Definition set_closed v s := mkPc v (canceledErr s) (nwrite s) (expected s) (lent s) (cur s) (writech s) (reqch s) (werr s) (w s) (r s) (calls s).
Definition set_canceled v s := mkPc (closed s) v (nwrite s) (expected s) (lent s) (cur s) (writech s) (reqch s) (werr s) (w s) (r s) (calls s).
Definition set_nwrite v s := mkPc (closed s) (canceledErr s) v (expected s) (lent s) (cur s) (writech s) (reqch s) (werr s) (w s) (r s) (calls s).
Definition set_expected v s := mkPc (closed s) (canceledErr s) (nwrite s) v (lent s) (cur s) (writech s) (reqch s) (werr s) (w s) (r s) (calls s).
Definition set_lent v s := mkPc (closed s) (canceledErr s) (nwrite s) (expected s) v (cur s) (writech s) (reqch s) (werr s) (w s) (r s) (calls s).
Definition set_cur v s := mkPc (closed s) (canceledErr s) (nwrite s) (expected s) (lent s) v (writech s) (reqch s) (werr s) (w s) (r s) (calls s).
Definition set_writech v s := mkPc (closed s) (canceledErr s) (nwrite s) (expected s) (lent s) (cur s) v (reqch s) (werr s) (w s) (r s) (calls s).
Definition set_reqch v s := mkPc (closed s) (canceledErr s) (nwrite s) (expected s) (lent s) (cur s) (writech s) v (werr s) (w s) (r s) (calls s).
Definition set_werr v s := mkPc (closed s) (canceledErr s) (nwrite s) (expected s) (lent s) (cur s) (writech s) (reqch s) v (w s) (r s) (calls s).
Definition set_w v s := mkPc (closed s) (canceledErr s) (nwrite s) (expected s) (lent s) (cur s) (writech s) (reqch s) (werr s) v (r s) (calls s).
Definition set_r v s := mkPc (closed s) (canceledErr s) (nwrite s) (expected s) (lent s) (cur s) (writech s) (reqch s) (werr s) (w s) v (calls s).
Definition set_call id c s := mkPc (closed s) (canceledErr s) (nwrite s) (expected s) (lent s) (cur s) (writech s) (reqch s) (werr s) (w s) (r s) (<[id := c]> (calls s)).
Definition at_phase (c : call) (p : caller) : call := mkCall p (q_start c) (q_ch c) (q_err c) (q_wrote c).

(** [closeLocked] *)
Definition close (e : rtError) (s : pconn_state) : pconn_state := match closed s with None => set_closed (Some e) s | Some _ => s end.
Definition cancelRequest (cause : error) (s : pconn_state) : pconn_state := close (Plain ErrRequestCanceled) (set_canceled (Some cause) s).
Definition readLoopPeekFail (perr : option error) (is408 : bool) : rtError :=
  if is408 || bool_decide (perr = Some io_EOF) then Plain errServerClosedIdle else Plain (fmt_Errorf "readLoopPeekFailLocked: %w" []).
(** [mapRoundTripError], once the write loop has ended. *)
Definition mapRoundTripError (s : pconn_state) (c : call) (e : rtError) : rtError :=
  match canceledErr s with
  | Some cerr => Plain cerr
  | None =>
      match q_err c with
      | Some e => Plain e
      | None =>
          if bool_decide (e = Plain errServerClosedIdle) then e
          else match e with
               | ReadFromServer _ => if nwrite s =? q_start c then NothingWritten e else e
               | _ => if is_set (closed s) then if nwrite s =? q_start c then NothingWritten e else Plain connectionBroken else e
               end
      end
  end.

Inductive event :=
(* roundTrip *)
| ENew (id : nat) | EWriteSend (id : nat) | EReqSend (id : nat) | ECWrite (id : nat) (timeout : bool) | ECClosed (id : nat) | ECTimeout (id : nat)
| ECCtx (id : nat) (cause : error) | ECMapped (id : nat)
(* writeLoop *)
| EWTake | EWStop | EWBytes (n : Z) | EWEnd (e : option error) (bodyRead : bool) | EWPush | EWReply | EWFinish
(* readLoop *)
| EPeek (perr : option error) (is408 : bool) | ETake | ERead (e : option error) (alive hasBody owns : bool) | EWrote (timeout : bool) | EPut (e : option error)
| EDeliver | EGone | EBodyEnd (reuse : bool) | EBodyCtx (cause : error) | EBodyClosed | EExit
(* others *)
| EClose (e : error).

(** Whether the read loop is sending on the call's channel. *)
Definition offers (s : pconn_state) (id : nat) : bool :=
  match r s with RFail i _ _ | RDeliver i _ _ | RDeliverBody i _ _ => bool_decide (i = id) | _ => false end.
(** The loop goes on if the connection lives. *)
Definition again (alive : bool) (closeErr : rtError) : reader := if alive then RPeek else RExit closeErr.

(** [roundTrip]: its two sends, its select and what follows. *)
Definition caller_step (e : event) (s : pconn_state) : option pconn_state :=
  match e with
  | ENew id =>
      match calls s !! id with
      | Some _ => None
      | None => if lent s then Some (set_call id (mkCall CEnter 0 None None 0) (set_expected (expected s + 1) (set_cur (Some id) (set_lent false s)))) else None
      end
  | EWriteSend id =>
      match calls s !! id, writech s with
      | Some (mkCall CEnter _ ch err wrote), None => Some (set_call id (mkCall CSent (nwrite s) ch err wrote) (set_writech (Some id) s))
      | _, _ => None
      end
  | EReqSend id =>
      match calls s !! id, reqch s with
      | Some (mkCall CSent start ch err wrote), None => Some (set_call id (mkCall (CSelect false) start ch err wrote) (set_reqch (Some id) s))
      | _, _ => None
      end
  | ECWrite id timeout =>
      match calls s !! id with
      | Some (mkCall (CSelect armed) start (Some res) err wrote) =>
          match res with
          | Some e => Some (set_call id (mkCall (CMap e) start None err wrote) (close (Plain (fmt_Errorf "write error: %w" [])) s))
          | None => Some (set_call id (mkCall (CSelect (armed || timeout)) start None err wrote) s)
          end
      | _ => None
      end
  | ECClosed id =>
      match calls s !! id, closed s with
      | Some c, Some e => match q_phase c with CSelect _ => if offers s id then None else Some (set_call id (at_phase c (CMap e)) s) | _ => None end
      | _, _ => None
      end
  | ECTimeout id =>
      match calls s !! id with
      | Some c => match q_phase c with CSelect true => Some (set_call id (at_phase c (CRet (Some (Plain errTimeout)))) (close (Plain errTimeout) s)) | _ => None end
      | None => None
      end
  | ECCtx id cause =>
      match calls s !! id with
      | Some c => match q_phase c with CSelect _ => if offers s id then None else Some (cancelRequest cause s) | _ => None end
      | None => None
      end
  | ECMapped id =>
      match calls s !! id, w s with
      | Some c, WDone => match q_phase c with CMap e => Some (set_call id (at_phase c (CRet (Some (mapRoundTripError s c e)))) s) | _ => None end
      | _, _ => None
      end
  | _ => None
  end.
(** [writeLoop] *)
Definition writer_step (e : event) (s : pconn_state) : option pconn_state :=
  match e with
  | EWTake => match w s, writech s with WIdle, Some id => Some (set_w (WWriting id (nwrite s)) (set_writech None s)) | _, _ => None end
  | EWStop => match w s, closed s with WIdle, Some _ => Some (set_w WDone s) | _, _ => None end
  | EWBytes n =>
      match w s with
      | WWriting id _ =>
          match calls s !! id with
          | Some c => if 0 <? n then Some (set_call id (mkCall (q_phase c) (q_start c) (q_ch c) (q_err c) (q_wrote c + n)) (set_nwrite (nwrite s + n) s)) else None
          | None => None
          end
      | _ => None
      end
  | EWEnd e bodyRead =>
      match w s with
      | WWriting id start =>
          match calls s !! id with
          | Some c =>
              let c := match e with Some err => if bodyRead then mkCall (q_phase c) (q_start c) (q_ch c) (match q_err c with None => Some err | x => x end) (q_wrote c) else c | None => c end in
              let e := (fun e => if nwrite s =? start then NothingWritten (Plain e) else Plain e) <$> e in
              Some (set_w (WPush id e) (set_call id c s))
          | None => None
          end
      | _ => None
      end
  | EWPush => match w s, werr s with WPush id e, None => Some (set_w (WReply id e) (set_werr (Some e) s)) | _, _ => None end
  | EWReply =>
      match w s with
      | WReply id e =>
          match calls s !! id with
          | Some (mkCall p start None err wrote) => Some (set_w (match e with Some e => WClose e | None => WIdle end) (set_call id (mkCall p start (Some e) err wrote) s))
          | _ => None
          end
      | _ => None
      end
  | EWFinish => match w s with WClose e => Some (set_w WDone (close e s)) | _ => None end
  | _ => None
  end.
(** [readLoop], with [wroteRequest] and the call of [tryPutIdleConn] *)
Definition reader_step (e : event) (s : pconn_state) : option pconn_state :=
  match e with
  | EPeek perr is408 =>
      match r s with
      | RPeek => if expected s =? 0 then Some (set_r (RExit (Plain errReadLoopExiting)) (close (readLoopPeekFail perr is408) s)) else Some (set_r (RTake perr) s)
      | _ => None
      end
  | ETake =>
      match r s, reqch s with
      | RTake perr, Some id => Some (set_r (match perr with Some e => RFail id (ReadFromServer e) (ReadFromServer e) | None => RRead id end) (set_reqch None s))
      | _, _ => None
      end
  | ERead e alive hasBody owns =>
      match r s with
      | RRead id =>
          match e with
          | Some e => Some (set_r (RFail id (Plain e) (Plain errReadLoopExiting)) s)
          | None =>
              (* [alive] includes [!pc.sawEOF]; a writable body ends the loop *)
              let closeErr := Plain (if owns then errCallerOwnsConn else errReadLoopExiting) in
              let s := set_expected (expected s - 1) s in
              Some (set_r (if negb hasBody || owns then if alive && negb owns then RWrote id false closeErr else RDeliver id false closeErr
                           else RDeliverBody id alive closeErr) s)
          end
      | _ => None
      end
  | EWrote timeout =>
      match r s with
      | RWrote id body closeErr =>
          let no := if body then RExit closeErr else RDeliver id false closeErr in
          match werr s with
          | Some e => Some (set_r (if is_set e then no else RPut id body closeErr) (set_werr None s))
          | None => if timeout then Some (set_r no s) else None
          end
      | _ => None
      end
  | EPut e =>
      match r s with
      | RPut id body closeErr =>
          match e with
          | Some e => Some (set_r (if body then RExit (Plain e) else RDeliver id false (Plain e)) s)
          | None => (* it looks whether the connection is broken first, but not under its lock *)
              Some (set_r (if body then RPeek else RDeliver id true closeErr) (set_lent true s))
          end
      | _ => None
      end
  | EDeliver =>
      let take id p next := match calls s !! id with Some c => match q_phase c with CSelect _ => Some (set_r next (set_call id (at_phase c p) s)) | _ => None end | None => None end in
      match r s with
      | RFail id e closeErr => take id (CMap e) (RExit closeErr)
      | RDeliver id alive closeErr => take id (CRet None) (again alive closeErr)
      | RDeliverBody id alive closeErr => take id (CRet None) (RBody id alive closeErr)
      | _ => None
      end
  | EGone =>
      match r s with
      | RFail id _ closeErr | RDeliver id _ closeErr | RDeliverBody id _ closeErr =>
          match calls s !! id with Some c => match q_phase c with CRet _ => Some (set_r (RExit closeErr) s) | _ => None end | None => None end
      | _ => None
      end
  | EBodyEnd reuse => match r s with RBody id alive closeErr => Some (set_r (if alive && reuse then RWrote id true closeErr else RExit closeErr) s) | _ => None end
  | EBodyCtx cause => match r s with RBody id _ closeErr => Some (set_r (RExit closeErr) (cancelRequest cause s)) | _ => None end
  | EBodyClosed => match r s, closed s with RBody id _ closeErr, Some _ => Some (set_r (RExit closeErr) s) | _, _ => None end
  | EExit => match r s with RExit closeErr => Some (set_r RDead (close closeErr s)) | _ => None end
  | _ => None
  end.
Definition exec (e : event) (s : pconn_state) : option pconn_state :=
  match e with
  | ENew _ | EWriteSend _ | EReqSend _ | ECWrite _ _ | ECClosed _ | ECTimeout _ | ECCtx _ _ | ECMapped _ => caller_step e s
  | EWTake | EWStop | EWBytes _ | EWEnd _ _ | EWPush | EWReply | EWFinish => writer_step e s
  | EPeek _ _ | ETake | ERead _ _ _ _ | EWrote _ | EPut _ | EDeliver | EGone | EBodyEnd _ | EBodyCtx _ | EBodyClosed | EExit => reader_step e s
  | EClose e => Some (close (Plain e) s)
  end.
Inductive reachable : pconn_state -> Prop :=
| ReachInit : reachable pc_init
| ReachStep s e s' : reachable s -> exec e s = Some s' -> reachable s'.
Fixpoint run (es : list event) (s : pconn_state) : option pconn_state :=
  match es with [] => Some s | e :: es => match exec e s with Some s => run es s | None => None end end.

(** ** The invariant *)
Definition entering (c : call) : Prop := q_phase c = CEnter \/ q_phase c = CSent.
(** The write loop is done with the calls before [id]. *)
Definition clean (s : pconn_state) (id : nat) : Prop :=
  w s = WIdle \/ w s = WDone \/ exists j cj, j <> id /\ w s = WReply j None /\ calls s !! j = Some cj /\ q_ch cj = None.
(** How far the request of the current call has got in the write loop. *)
Inductive wstage (s : pconn_state) (id : nat) (c : call) : Prop :=
| WSUnsent : q_phase c = CEnter -> writech s = None -> werr s = None -> clean s id -> q_ch c = None -> wstage s id c
| WSQueued : q_phase c <> CEnter -> writech s = Some id -> werr s = None -> clean s id -> q_ch c = None -> wstage s id c
| WSWriting : q_phase c <> CEnter -> writech s = None -> werr s = None -> (exists st, w s = WWriting id st) \/ (exists e, w s = WPush id e) -> q_ch c = None -> wstage s id c
| WSWritten : q_phase c <> CEnter -> writech s = None -> werr s = None \/ werr s = Some None -> (w s = WReply id None /\ q_ch c = None) \/ w s = WIdle \/ w s = WDone -> wstage s id c
| WSFailed : q_phase c <> CEnter -> writech s = None -> werr s <> Some None -> (exists e, w s = WReply id (Some e) /\ q_ch c = None) \/ (exists e, w s = WClose e) \/ w s = WDone -> wstage s id c.
(** The read loop is not busy with the current call. *)
Definition free (x : reader) : Prop := match x with RPeek | RTake _ | RExit _ | RDead | RDeliver _ true _ => True | _ => False end.
Definition busy (x : reader) (id : nat) : Prop :=
  match x with
  | RRead i | RFail i _ _ | RWrote i _ _ | RPut i _ _ | RDeliver i false _ | RDeliverBody i _ _ | RBody i _ _ => i = id
  | RExit _ | RDead => True
  | _ => False
  end.
Inductive rstage (s : pconn_state) (id : nat) (c : call) : Prop :=
| RSLent : lent s = true -> ~ entering c -> reqch s = None -> free (r s) -> rstage s id c
| RSEntering : lent s = false -> entering c -> reqch s = None -> free (r s) -> rstage s id c
| RSQueued : lent s = false -> ~ entering c -> reqch s = Some id -> free (r s) -> rstage s id c
| RSBusy : lent s = false -> ~ entering c -> reqch s = None -> busy (r s) id -> rstage s id c.
(** What may be lent, or is about to be. *)
Definition written (s : pconn_state) (id : nat) (c : call) : Prop :=
  writech s = None /\ werr s = None /\ ((w s = WReply id None /\ q_ch c = None) \/ w s = WIdle \/ w s = WDone).
Definition returning (s : pconn_state) : Prop := lent s = true \/ exists i body e, r s = RPut i body e.
Definition current (s : pconn_state) : Prop :=
  match cur s with
  | None => calls s = ∅ /\ lent s = true /\ writech s = None /\ reqch s = None /\ werr s = None /\ (w s = WIdle \/ w s = WDone) /\ free (r s)
  | Some id => exists c, calls s !! id = Some c /\ wstage s id c /\ rstage s id c /\ (returning s -> written s id c)
  end.
Definition unwritten (e : rtError) : bool := match e with NothingWritten _ => true | _ => false end.
(** Each call: its bytes are part of those written since it started, and its errors. *)
Record call_ok (s : pconn_state) (id : nat) (c : call) : Prop := {
  ck_cur : entering c -> cur s = Some id;
  ck_wrote : 0 <= q_wrote c /\ (q_phase c = CEnter -> q_wrote c = 0) /\ (q_phase c <> CEnter -> q_start c + q_wrote c <= nwrite s);
  ck_map : forall e, q_phase c = CMap e -> is_Some (closed s) \/ (unwritten e = false /\ exists ce, r s = RExit ce);
  ck_ret : forall e, q_phase c = CRet (Some e) -> unwritten e = true -> q_wrote c = 0 /\ w s = WDone }.
Record conn_ok (s : pconn_state) : Prop := {
  ok_current : current s;
  ok_calls : forall id c, calls s !! id = Some c -> call_ok s id c;
  ok_fail : forall id e ce, r s = RFail id e ce -> unwritten e = false;
  ok_dead : r s = RDead -> is_Some (closed s) }.

Lemma pc_init_ok : conn_ok pc_init.
Proof. constructor; try done. cbn. tauto. Qed.

(** ** Steps *)
Ltac split_hyps := repeat match goal with H : _ \/ _ |- _ => destruct H | H : exists _, _ |- _ => destruct H | H : _ /\ _ |- _ => destruct H end.

(** A step that changes one call's result or phase, but not where its request is. *)
Definition same_place (c c' : call) : Prop := (q_phase c' = CEnter <-> q_phase c = CEnter) /\ (entering c' <-> entering c) /\ (q_ch c' = q_ch c \/ q_ch c' = None).
Definition same_frame (s s' : pconn_state) : Prop := lent s' = lent s /\ cur s' = cur s /\ writech s' = writech s /\ reqch s' = reqch s /\ werr s' = werr s /\ w s' = w s /\ r s' = r s.
Lemma current_call s s' j c c' : current s -> calls s !! j = Some c -> same_place c c' -> same_frame s s' -> calls s' = <[j := c']> (calls s) -> current s'.
Proof.
  intros H Hj (P1 & P2 & P3) (F1 & F2 & F3 & F4 & F5 & F6 & F7) Ec. unfold current in *. rewrite F2. destruct (cur s) as [id|]; [|destruct H as (E & _); rewrite E in Hj; done].
  destruct H as (ci & Hi & Hw & Hr & Hl).
  assert (exists ci', calls s' !! id = Some ci' /\ same_place ci ci') as (ci' & Hi' & Q1 & Q2 & Q3).
  { rewrite Ec. destruct (decide (id = j)) as [->|]; [rewrite lookup_insert_eq; exists c'; rewrite Hj in Hi; injection Hi as <-; done|]. rewrite lookup_insert_ne by done. exists ci. split; [done|]. split; [done|]. split; [done|by left]. }
  assert (forall x, q_ch x = None -> x = ci -> q_ch ci' = None) as Hch by (intros x Hx ->; destruct Q3 as [-> | ->]; done).
  assert (clean s id -> clean s' id) as Hclean.
  { unfold clean. rewrite F6, Ec. intros [?|[?|(k & ck & Hk & Hwk & Hck & Hq)]]; [by left|by right; left|right; right].
    destruct (decide (k = j)) as [->|]; [|exists k, ck; by rewrite lookup_insert_ne]. exists j, c'. rewrite lookup_insert_eq. rewrite Hj in Hck. injection Hck as <-. destruct P3 as [E|E]; rewrite E; done. }
  exists ci'. split; [done|]. split; [|split].
  - destruct Hw; [eapply WSUnsent|eapply WSQueued|eapply WSWriting|eapply WSWritten|eapply WSFailed]; rewrite ?F3, ?F5, ?F6; rewrite ?Q1; eauto; split_hyps; eauto 6.
  - destruct Hr; [eapply RSLent|eapply RSEntering|eapply RSQueued|eapply RSBusy]; rewrite ?F1, ?F4, ?F7, ?Q2; eauto.
  - unfold returning, written in *. rewrite F1, F3, F5, F6, F7. intros Hx. destruct (Hl Hx) as (? & ? & Hd). split; [done|]. split; [done|]. destruct Hd as [[? ?]|?]; [left; eauto|by right].
Qed.

Lemma current_same s s' : current s -> same_frame s s' -> calls s' = calls s -> current s'.
Proof.
  intros H F Ec. pose proof F as (F1 & F2 & F3 & F4 & F5 & F6 & F7). destruct (cur s) as [id|] eqn:Eid.
  - pose proof H as H'. unfold current in H'. rewrite Eid in H'. destruct H' as (c & Hc & _). apply (current_call s s' id c c H Hc); [split; [done|split; [done|by left]]|done|by rewrite Ec, insert_id].
  - unfold current in *. rewrite F2. rewrite Eid in H. by rewrite F1, F3, F4, F5, F6, F7, Ec.
Qed.
(** What the facts about a call need of a step. *)
Definition call_frame (s s' : pconn_state) : Prop := cur s' = cur s /\ nwrite s <= nwrite s' /\ (is_Some (closed s) -> is_Some (closed s')) /\
  (forall ce, r s = RExit ce -> r s' = RExit ce \/ is_Some (closed s')) /\ (w s = WDone -> w s' = WDone).
Lemma call_ok_frame s s' id c : call_frame s s' -> call_ok s id c -> call_ok s' id c.
Proof.
  intros (F1 & F2 & F3 & F4 & F5) [H1 (H2 & H3 & H4) H5 H6]. constructor.
  - by rewrite F1.
  - split; [done|]. split; [done|]. intros Hp. specialize (H4 Hp). lia.
  - intros e He. destruct (H5 e He) as [?|(Hu & ce & Hr)]; [by left; apply F3|]. destruct (F4 ce Hr); [right; split; [done|by exists ce]|by left].
  - intros e He Hu. destruct (H6 e He Hu). auto.
Qed.
Lemma calls_ok_frame s s' : conn_ok s -> call_frame s s' -> calls s' = calls s -> forall id c, calls s' !! id = Some c -> call_ok s' id c.
Proof. intros H F -> id c Hc. eapply call_ok_frame; [exact F|]. by apply (ok_calls s H). Qed.
Lemma calls_ok_update s s' j c' : conn_ok s -> call_frame s s' -> calls s' = <[j := c']> (calls s) -> call_ok s' j c' -> forall id c, calls s' !! id = Some c -> call_ok s' id c.
Proof. intros H F -> Hj id c [[<- <-]|[_ Hc]]%lookup_insert_Some; [done|]. eapply call_ok_frame; [exact F|]. by apply (ok_calls s H). Qed.
Lemma frame_refl s s' : cur s' = cur s -> nwrite s' = nwrite s -> closed s' = closed s -> r s' = r s -> w s' = w s -> call_frame s s'.
Proof. intros E1 E2 E3 E4 E5. unfold call_frame. rewrite E1, E2, E3, E4, E5. split; [done|]. split; [lia|]. split; [done|]. split; [by left|done]. Qed.

(** [close] only sets [closed]. *)
Lemma close_closed e s : is_Some (closed (close e s)).
Proof. unfold close. destruct (closed s) eqn:E; [by rewrite E|done]. Qed.
Lemma close_frame e s : same_frame s (close e s) /\ calls (close e s) = calls s /\ nwrite (close e s) = nwrite s.
Proof. unfold close. by destruct (closed s). Qed.
Lemma close_ok e s : conn_ok s -> conn_ok (close e s).
Proof.
  intros [H1 H2 H3 H4]. unfold close. destruct (closed s) as [ce|] eqn:Ec; [by constructor|]. constructor; [by apply (current_same s)| |exact H3|by eexists].
  intros id c Hc. eapply call_ok_frame; [|by apply H2]. split; [done|]. split; [cbn; lia|]. split; [by eexists|]. split; [by left|done].
Qed.
Lemma cancel_ok cause s : conn_ok s -> conn_ok (cancelRequest cause s).
Proof.
  intros [H1 H2 H3 H4]. unfold cancelRequest. apply close_ok. constructor; [by apply (current_same s)| |exact H3|exact H4].
  intros id c Hc. eapply call_ok_frame; [|by apply H2]. by apply frame_refl.
Qed.

(** A call moves on in its select or after it, and the connection is perhaps closed. *)
Lemma call_moves s s' j c c' : conn_ok s -> calls s !! j = Some c -> same_place c c' -> q_start c' = q_start c -> q_wrote c' = q_wrote c ->
  same_frame s s' -> nwrite s' = nwrite s -> (is_Some (closed s) -> is_Some (closed s')) -> calls s' = <[j := c']> (calls s) ->
  (forall e, q_phase c' = CMap e -> is_Some (closed s')) -> (forall e, q_phase c' = CRet (Some e) -> unwritten e = true -> q_wrote c' = 0 /\ w s' = WDone) -> conn_ok s'.
Proof.
  intros H Hj Hp Hs Hw F En Ecl Ec Hmap Hret. pose proof F as (F1 & F2 & F3 & F4 & F5 & F6 & F7). pose proof Hp as (P1 & P2 & _).
  constructor.
  - eapply current_call; [apply (ok_current s H)|exact Hj|exact Hp|exact F|exact Ec].
  - eapply calls_ok_update; [exact H| |exact Ec|].
    + split; [done|]. split; [lia|]. split; [done|]. rewrite F6, F7. split; [by left|done].
    + destruct (ok_calls s H j c Hj) as [K1 (K2 & K3 & K4) _ _]. constructor; [rewrite F2, P2; done| |by intros e He; left; apply (Hmap e)|done].
      rewrite Hs, Hw, En. split; [done|]. rewrite P1. done.
  - rewrite F7. apply (ok_fail s H).
  - rewrite F7. intros Hd. by apply Ecl, (ok_dead s H).
Qed.
Lemma same_place_after c p ch : q_phase c <> CEnter -> ~ entering c -> p <> CEnter -> p <> CSent -> ch = q_ch c \/ ch = None ->
  forall start err wrote, same_place c (mkCall p start ch err wrote).
Proof. intros H1 H2 H3 H4 Hch start err wrote. unfold same_place, entering in *. cbn. repeat split; try tauto. Qed.
(** The read loop moves on by itself. *)
Lemma reader_moves s x s' : conn_ok s -> (forall id, busy (r s) id -> busy x id) -> (free (r s) -> free x) -> (forall i b e, x <> RPut i b e) ->
  (forall id e ce, x = RFail id e ce -> unwritten e = false) -> (x = RDead -> is_Some (closed s')) -> ((exists ce, r s = RExit ce) -> is_Some (closed s')) ->
  lent s' = lent s -> cur s' = cur s -> writech s' = writech s -> reqch s' = reqch s -> werr s' = werr s -> w s' = w s -> r s' = x ->
  calls s' = calls s -> nwrite s' = nwrite s -> (is_Some (closed s) -> is_Some (closed s')) -> conn_ok s'.
Proof.
  intros [H1 H2 H3 H4] Hb Hf Hp Hfail Hdead Hexit F1 F2 F3 F4 F5 F6 F7 Ec En Ecl. constructor.
  - unfold current in *. rewrite F2. destruct (cur s) as [id|].
    + destruct H1 as (c & Hc & Hw & Hr & Hl). exists c. rewrite Ec. split; [done|]. assert (clean s id -> clean s' id) as Hclean by (unfold clean; by rewrite F6, Ec).
      split; [|split].
      * destruct Hw; [eapply WSUnsent|eapply WSQueued|eapply WSWriting|eapply WSWritten|eapply WSFailed]; rewrite ?F3, ?F5, ?F6; eauto.
      * destruct Hr; [eapply RSLent|eapply RSEntering|eapply RSQueued|eapply RSBusy]; rewrite ?F1, ?F4, ?F7; eauto.
      * unfold returning, written in *. rewrite F1, F3, F5, F6, F7. intros [Hx|(i & b & e & Hx)]; [apply Hl; by left|by destruct (Hp i b e)].
    + destruct H1 as (E1 & E2 & E3 & E4 & E5 & E6 & E7). rewrite F1, F3, F4, F5, F6, F7, Ec. tauto.
  - intros id c. rewrite Ec. intros Hc. eapply call_ok_frame; [|by apply H2]. split; [done|]. split; [lia|]. split; [done|]. rewrite F6. split; [|done]. intros ce Hce. right. apply Hexit. eauto.
  - rewrite F7. intros id e ce. apply Hfail.
  - rewrite F7. done.
Qed.
Lemma close_fields e s : lent (close e s) = lent s /\ cur (close e s) = cur s /\ writech (close e s) = writech s /\ reqch (close e s) = reqch s /\ werr (close e s) = werr s /\ w (close e s) = w s /\ calls (close e s) = calls s /\ nwrite (close e s) = nwrite s /\ r (close e s) = r s.
Proof. unfold close. by destruct (closed s). Qed.

Lemma caller_event_ok e s s' : conn_ok s -> exec e s = Some s' ->
  match e with ECWrite _ _ | ECClosed _ | ECTimeout _ | ECCtx _ _ | ECMapped _ => conn_ok s' | _ => True end.
Proof.
  intros H. destruct e as [id|id|id|id timeout|id|id|id cause|id| | |n|e bodyRead| | | |perr is408| |e alive hasBody owns|timeout|e| | |reuse|cause| | |e]; try done; cbn [exec caller_step writer_step reader_step].
  - destruct (calls s !! id) as [[p start ch err wrote]|] eqn:Hc; [|done]. destruct p as [| |armed| |]; try done. destruct ch as [[e|]|]; [| |done]; intros [= <-].
    + pose proof (close_fields (Plain (fmt_Errorf "write error: %w" [])) s) as (F1 & F2 & F3 & F4 & F5 & F6 & F7 & F8 & F9).
      eapply (call_moves s _ id _ _ H Hc); cycle 6; [cbn; by rewrite F7|intros ? _; apply close_closed|done| |done|done|unfold same_frame; cbn; tauto|exact F8|intros _; apply close_closed].
      apply same_place_after; unfold entering; cbn; intuition congruence.
    + eapply (call_moves s _ id _ _ H Hc); cycle 6; [reflexivity|done|done| |done|done|done|done|done].
      apply same_place_after; unfold entering; cbn; intuition congruence.
  - destruct (calls s !! id) as [c|] eqn:Hc; [|done]. destruct (closed s) as [ce|] eqn:Ecl; [|done]. destruct (q_phase c) as [| |armed| |] eqn:Ep; try done. destruct (offers s id); [done|]. intros [= <-].
    eapply (call_moves s _ id _ _ H Hc); cycle 6; [reflexivity|intros _ _; cbn; rewrite Ecl; by eexists|done| |done|done|done|done|done].
    apply same_place_after; unfold entering; rewrite ?Ep; cbn; intuition congruence.
  - destruct (calls s !! id) as [c|] eqn:Hc; [|done]. destruct (q_phase c) as [| |[]| |] eqn:Ep; try done. intros [= <-].
    pose proof (close_fields (Plain errTimeout) s) as (F1 & F2 & F3 & F4 & F5 & F6 & F7 & F8 & F9).
    eapply (call_moves s _ id _ _ H Hc); cycle 6; [cbn; by rewrite F7|done|by intros ? [= <-]| |done|done|unfold same_frame; cbn; tauto|exact F8|intros _; apply close_closed].
    apply same_place_after; unfold entering; rewrite ?Ep; cbn; intuition congruence.
  - destruct (calls s !! id) as [c|] eqn:Hc; [|done]. destruct (q_phase c); try done. destruct (offers s id); [done|]. intros [= <-]. by apply cancel_ok.
  - destruct (calls s !! id) as [c|] eqn:Hc; [|done]. destruct (w s) eqn:Ew; try done. destruct (q_phase c) as [| | |e|] eqn:Ep; try done. intros [= <-].
    destruct (ok_calls s H id c Hc) as [_ (K1 & _ & K2) K3 _].
    eapply (call_moves s _ id _ _ H Hc); cycle 6; [reflexivity|done| | |done|done|done|done|done].
    + intros e0 [= <-] Hu. split; [cbn|done]. specialize (K2 ltac:(congruence)). enough (nwrite s = q_start c) by lia. unfold mapRoundTripError in Hu.
      destruct (canceledErr s); [done|]. destruct (q_err c); [done|]. case_bool_decide; [by subst e|].
      destruct e as [e|e|e]; cbn in Hu; [destruct (closed s); cbn in Hu; [|done]| |destruct (closed s) eqn:Ecl; cbn in Hu]; try (destruct (Z.eqb_spec (nwrite s) (q_start c)); [done|by cbn in Hu]).
      destruct (K3 _ Ep) as [[? ?]|[? _]]; done.
    + apply same_place_after; unfold entering; rewrite ?Ep; cbn; intuition congruence.
Qed.
(** The write loop moves on. *)
Lemma writer_moves s s' : conn_ok s -> current s' -> cur s' = cur s -> nwrite s' = nwrite s -> (is_Some (closed s) -> is_Some (closed s')) -> r s' = r s -> w s <> WDone ->
  (calls s' = calls s \/ exists j c c', calls s !! j = Some c /\ calls s' = <[j := c']> (calls s) /\ q_phase c' = q_phase c /\ q_start c' = q_start c /\ q_wrote c' = q_wrote c) -> conn_ok s'.
Proof.
  intros H Hcur F1 F2 F3 F4 F5 Hcalls. assert (call_frame s s') as Fr. { split; [done|]. split; [lia|]. split; [done|]. rewrite F4. split; [by left|done]. }
  constructor; [done| |rewrite F4; apply (ok_fail s H)|rewrite F4; intros Hd; by apply F3, (ok_dead s H)].
  destruct Hcalls as [Ec|(j & c & c' & Hc & Ec & P1 & P2 & P3)]; [by apply (calls_ok_frame s)|].
  apply (calls_ok_update s s' j c'); try done. eapply call_ok_frame; [exact Fr|]. destruct (ok_calls s H j c Hc) as [K1 K2 K3 K4]. unfold entering in *. constructor; unfold entering; rewrite ?P1, ?P2, ?P3; done.
Qed.
Lemma current_some s id : current s -> cur s = Some id -> exists c, calls s !! id = Some c /\ wstage s id c /\ rstage s id c /\ (returning s -> written s id c).
Proof. unfold current. intros H E. by rewrite E in H. Qed.
Lemma busy_cur s : current s -> w s <> WIdle -> w s <> WDone -> is_Some (cur s).
Proof. unfold current. destruct (cur s); [done|]. by intros (_ & _ & _ & _ & _ & [?|?] & _). Qed.
(** A write loop that is at a request is at the current one, or about to answer an earlier one. *)
Lemma writing_cur s id : current s -> (exists st, w s = WWriting id st) \/ (exists e, w s = WPush id e) ->
  cur s = Some id /\ exists c, calls s !! id = Some c /\ wstage s id c /\ rstage s id c /\ (returning s -> written s id c) /\ writech s = None /\ werr s = None /\ q_phase c <> CEnter /\ q_ch c = None.
Proof.
  intros H Hw. destruct (busy_cur s H) as [i Hi]; [by destruct Hw as [[? ->]|[? ->]]|by destruct Hw as [[? ->]|[? ->]]|].
  destruct (current_some s i H Hi) as (c & Hc & Hs & Hr & Hl).
  assert (i = id /\ writech s = None /\ werr s = None /\ q_phase c <> CEnter /\ q_ch c = None) as (-> & ? & ? & ? & ?); [|split; [done|by exists c]].
  destruct Hs as [? ? ? Hcl ?|? ? ? Hcl ?|? ? ? Hx ?|? ? ? Hx|? ? ? Hx].
  - unfold clean in Hcl. split_hyps; congruence.
  - unfold clean in Hcl. split_hyps; congruence.
  - split_hyps; split; congruence || done.
  - split_hyps; congruence.
  - split_hyps; congruence.
Qed.
Lemma not_returning s id c : writech s <> None \/ (exists st, w s = WWriting id st) \/ (exists e, w s = WPush id e) -> (returning s -> written s id c) -> ~ returning s.
Proof. intros Hw Hl Hr. destruct (Hl Hr) as (? & ? & Hd). split_hyps; congruence. Qed.
(** The stage of the current call after a step of the write loop; what it leaves alone. *)
Lemma writer_current s s' id c c' : cur s' = Some id -> calls s' !! id = Some c' -> wstage s' id c' -> rstage s id c -> (entering c' <-> entering c) ->
  lent s' = lent s -> reqch s' = reqch s -> r s' = r s -> (returning s -> written s' id c') -> current s'.
Proof.
  intros E1 E2 Hw Hr He F1 F2 F3 Hl. unfold current. rewrite E1. exists c'. split; [done|]. split; [done|]. split.
  - destruct Hr; [eapply RSLent|eapply RSEntering|eapply RSQueued|eapply RSBusy]; rewrite ?F1, ?F2, ?F3, ?He; eauto.
  - unfold returning in *. by rewrite F1, F3.
Qed.
Lemma EWTake_ok s s' : conn_ok s -> exec EWTake s = Some s' -> conn_ok s'.
Proof.
  intros H. cbn. destruct (w s) eqn:Ew; try done. destruct (writech s) as [id|] eqn:Ech; [|done]. intros [= <-]. pose proof (ok_current s H) as Hcur.
  assert (cur s = Some id /\ exists c, calls s !! id = Some c /\ rstage s id c /\ (returning s -> written s id c) /\ q_phase c <> CEnter /\ werr s = None /\ q_ch c = None) as (Eid & c & Hc & Hr & Hl & Hp & He & Hq).
  { unfold current in Hcur. destruct (cur s) as [i|]; [|by destruct Hcur as (_ & _ & ? & _); congruence]. destruct Hcur as (c & Hc & Hs & Hr & Hl).
    destruct Hs; try congruence. assert (i = id) as -> by congruence. split; [done|]. by exists c. }
  apply (writer_moves s); try done; [|by rewrite Ew|by left].
  apply (writer_current s _ id c c); try done; [eapply WSWriting; cbn; eauto|]. intros Hx. destruct (Hl Hx). congruence.
Qed.
Lemma EWStop_ok s s' : conn_ok s -> exec EWStop s = Some s' -> conn_ok s'.
Proof.
  intros H. cbn. destruct (w s) eqn:Ew; try done. destruct (closed s) as [e|] eqn:Ecl; [|done]. intros [= <-]. pose proof (ok_current s H) as Hcur.
  apply (writer_moves s); try done; [|by rewrite Ew|by left]. unfold current in *. cbn. destruct (cur s) as [id|] eqn:Eid.
  - destruct Hcur as (c & Hc & Hs & Hr & Hl). assert (clean (set_w WDone s) id) as Hcl by by right; left. exists c. split; [done|]. split; [|split].
    + destruct Hs; [eapply WSUnsent|eapply WSQueued|exfalso; split_hyps; congruence|eapply WSWritten|exfalso; split_hyps; congruence]; eauto.
    + destruct Hr; [eapply RSLent|eapply RSEntering|eapply RSQueued|eapply RSBusy]; eauto.
    + intros Hx. destruct (Hl Hx) as (? & ? & _). split; [done|]. split; [done|]. by right; right.
  - destruct Hcur as (? & ? & ? & ? & ? & _ & ?). cbn. repeat split; auto.
Qed.
Lemma EWBytes_ok n s s' : conn_ok s -> exec (EWBytes n) s = Some s' -> conn_ok s'.
Proof.
  intros H. cbn. destruct (w s) as [|id st| | | |] eqn:Ew; try done. destruct (calls s !! id) as [c|] eqn:Hc; [|done]. destruct (Z.ltb_spec 0 n); [|done]. intros [= <-].
  destruct (writing_cur s id (ok_current s H)) as (_ & c0 & Hc0 & _ & _ & _ & _ & _ & Hp & _); [left; eauto|]. rewrite Hc in Hc0. injection Hc0 as <-.
  constructor; [|..|apply (ok_fail s H)|apply (ok_dead s H)].
  - eapply (current_call s _ id c _ (ok_current s H) Hc); [|done|reflexivity]. split; [done|]. split; [done|]. by left.
  - destruct (ok_calls s H id c Hc) as [K1 (K2 & K3 & K4) K5 K6]. eapply (calls_ok_update s); [done| |reflexivity|].
    + split; [done|]. split; [cbn; lia|]. split; [done|]. split; [by left|done].
    + constructor; cbn; [exact K1| |exact K5|].
      * split; [lia|]. split; [done|]. intros _. specialize (K4 Hp). lia.
      * intros e He Hu. destruct (K6 e He Hu). congruence.
Qed.
Lemma EWEnd_ok e bodyRead s s' : conn_ok s -> exec (EWEnd e bodyRead) s = Some s' -> conn_ok s'.
Proof.
  intros H. cbn. destruct (w s) as [|id st| | | |] eqn:Ew; try done. destruct (calls s !! id) as [c|] eqn:Hc; [|done].
  set (c' := match e with Some _ => _ | None => c end). assert (q_phase c' = q_phase c /\ q_start c' = q_start c /\ q_ch c' = q_ch c /\ q_wrote c' = q_wrote c) as (P1 & P2 & P3 & P4). { unfold c'. destruct e; [|done]. by destruct bodyRead. }
  clearbody c'. intros [= <-].
  destruct (writing_cur s id (ok_current s H)) as (Eid & c0 & Hc0 & Hw & Hr & Hl & E1 & E2 & Hp & Hq); [left; eauto|]. rewrite Hc in Hc0. injection Hc0 as <-.
  apply (writer_moves s); try done; [|by rewrite Ew|right; exists id, c, c'; done].
  eapply (writer_current s _ id c c'); try done; cbn; [by rewrite lookup_insert_eq|eapply WSWriting; cbn; rewrite ?P1, ?P3; eauto|unfold entering; by rewrite P1|].
  intros Hx. exfalso. eapply not_returning; [|exact Hl|exact Hx]. right; left; eauto.
Qed.
Lemma EWPush_ok s s' : conn_ok s -> exec EWPush s = Some s' -> conn_ok s'.
Proof.
  intros H. cbn. destruct (w s) as [| |id e| | |] eqn:Ew; try done. destruct (werr s) eqn:Ee; [done|]. intros [= <-].
  destruct (writing_cur s id (ok_current s H)) as (Eid & c & Hc & Hw & Hr & Hl & E1 & E2 & Hp & Hq); [right; eauto|].
  apply (writer_moves s); try done; [|by rewrite Ew|by left].
  eapply (writer_current s _ id c c); try done.
  - destruct e as [e|]; [eapply WSFailed; cbn; eauto; congruence|eapply WSWritten; cbn; eauto].
  - intros Hx. exfalso. eapply not_returning; [|exact Hl|exact Hx]. right; right; eauto.
Qed.
Lemma EWFinish_ok s s' : conn_ok s -> exec EWFinish s = Some s' -> conn_ok s'.
Proof.
  intros H. cbn. destruct (w s) as [| | | |e|] eqn:Ew; try done. intros [= <-]. pose proof (ok_current s H) as Hcur.
  pose proof (close_fields e s) as (F1 & F2 & F3 & F4 & F5 & F6 & F7 & F8 & F9). destruct (busy_cur s Hcur) as [id Eid]; [by rewrite Ew|by rewrite Ew|].
  destruct (current_some s id Hcur Eid) as (c & Hc & Hs & Hr & Hl).
  apply (writer_moves s); try done; [|intros _; apply close_closed|by rewrite Ew|left; exact F7].
  eapply (writer_current s _ id c c); try done; cbn; [by rewrite F2|by rewrite F7| |].
  - destruct Hs as [? ? ? Hcl ?|? ? ? Hcl ?|? ? ? Hx ?|? ? ? Hx|]; [unfold clean in Hcl; split_hyps; congruence|unfold clean in Hcl; split_hyps; congruence|split_hyps; congruence|split_hyps; congruence|].
    eapply WSFailed; cbn; rewrite ?F3, ?F5; auto.
  - intros Hx. destruct (Hl Hx) as (_ & _ & Hd). split_hyps; congruence.
Qed.
Lemma EWReply_ok s s' : conn_ok s -> exec EWReply s = Some s' -> conn_ok s'.
Proof.
  intros H. cbn. destruct (w s) as [| | |j e| |] eqn:Ew; try done. destruct (calls s !! j) as [[p start ch err wrote]|] eqn:Hj; [|done]. destruct ch; [done|]. intros [= <-].
  pose proof (ok_current s H) as Hcur. destruct (busy_cur s Hcur) as [id Eid]; [by rewrite Ew|by rewrite Ew|]. destruct (current_some s id Hcur Eid) as (c & Hc & Hs & Hr & Hl).
  set (cj := mkCall p start (Some e) err wrote). set (s1 := set_w _ _).
  assert (exists c', calls s1 !! id = Some c' /\ q_phase c' = q_phase c /\ (j <> id -> c' = c)) as (c' & Hc' & P1 & P2).
  { cbn. destruct (decide (j = id)) as [->|]; [rewrite lookup_insert_eq; exists cj; rewrite Hj in Hc; injection Hc as <-; done|rewrite lookup_insert_ne by done; by exists c]. }
  apply (writer_moves s); try done; [|by rewrite Ew|right; eexists j, _, cj; done].
  eapply (writer_current s _ id c c'); try done; [|unfold entering; by rewrite P1|].
  - destruct Hs as [? ? ? Hcl Hq|? ? ? Hcl Hq|? ? ? Hx ?|? ? ? Hx|? ? ? Hx].
    + assert (j <> id /\ e = None) as [Hne ->] by (unfold clean in Hcl; split_hyps; split; congruence). rewrite (P2 Hne). eapply WSUnsent; cbn; auto. by left.
    + assert (j <> id /\ e = None) as [Hne ->] by (unfold clean in Hcl; split_hyps; split; congruence). rewrite (P2 Hne). eapply WSQueued; cbn; auto. by left.
    + split_hyps; congruence.
    + assert (e = None) as -> by (split_hyps; congruence). eapply WSWritten; cbn; rewrite ?P1; auto.
    + destruct e as [e|]; [|split_hyps; congruence]. eapply WSFailed; cbn; rewrite ?P1; eauto.
  - intros Hx. destruct (Hl Hx) as (? & ? & Hd). assert (e = None) as -> by (split_hyps; congruence). split; [done|]. split; [done|]. by right; left.
Qed.
Lemma writer_event_ok e s s' : conn_ok s -> exec e s = Some s' ->
  match e with EWTake | EWStop | EWBytes _ | EWEnd _ _ | EWPush | EWReply | EWFinish => conn_ok s' | _ => True end.
Proof.
  intros H He. destruct e; try done; [by eapply EWTake_ok|by eapply EWStop_ok|by eapply EWBytes_ok|by eapply EWEnd_ok|by eapply EWPush_ok|by eapply EWReply_ok|by eapply EWFinish_ok].
Qed.
Lemma ENew_ok id s s' : conn_ok s -> exec (ENew id) s = Some s' -> conn_ok s'.
Proof.
  intros H. cbn. destruct (calls s !! id) eqn:Hid; [done|]. destruct (lent s) eqn:El; [|done]. intros [= <-]. pose proof (ok_current s H) as Hcur.
  set (c' := mkCall CEnter 0 None None 0). set (s1 := set_call _ _ _).
  assert (reqch s = None /\ free (r s) /\ writech s = None /\ werr s = None /\ (w s = WIdle \/ w s = WDone \/ exists j cj, w s = WReply j None /\ calls s !! j = Some cj /\ q_ch cj = None) /\
    forall i c, calls s !! i = Some c -> ~ entering c) as (E1 & E2 & E3 & E4 & E5 & E6).
  { pose proof (ok_calls s H) as Hk. unfold current in Hcur. destruct (cur s) as [i|] eqn:Ei.
    - destruct Hcur as (c & Hc & Hs & Hr & Hl). destruct (Hl (or_introl El)) as (? & ? & Hd). destruct Hr; try congruence. split; [done|]. split; [done|]. split; [done|]. split; [done|]. split.
      + destruct Hd as [[? ?]|[?|?]]; [right; right; by exists i, c|by left|by right; left].
      + intros k ck Hck Hen. pose proof (ck_cur s k ck (Hk k ck Hck) Hen) as Ek. assert (k = i) as -> by congruence. congruence.
    - destruct Hcur as (-> & _ & ? & ? & ? & Hd & ?). split; [done|]. split; [done|]. split; [done|]. split; [done|]. split; [destruct Hd as [?|?]; [by left|by right; left]|]. intros i c. by rewrite lookup_empty. }
  constructor; [| |intros i e ce Hr; cbn in Hr; rewrite Hr in E2; done|intros Hd; by apply (ok_dead s H)].
  - exists c'. split; [cbn; by rewrite lookup_insert_eq|]. split; [|split].
    + eapply WSUnsent; try done. unfold clean. cbn. destruct E5 as [?|[?|(j & cj & ? & Hj & ?)]]; [by left|by right; left|right; right]. exists j, cj.
      assert (j <> id) as Hne by (intros ->; congruence). by rewrite lookup_insert_ne.
    + eapply RSEntering; try done. by left.
    + intros [Hx|(i & b & e & Hx)]; [done|]. cbn in Hx. rewrite Hx in E2. done.
  - intros i c. cbn. intros [[<- <-]|[Hne Hc]]%lookup_insert_Some; [constructor; cbn; try done|].
    destruct (ok_calls s H i c Hc) as [K1 K2 K3 K4]. constructor; try done. intros Hen. by destruct (E6 i c Hc).
Qed.
Lemma ESend_ok e s s' : conn_ok s -> exec e s = Some s' -> match e with EWriteSend _ | EReqSend _ => conn_ok s' | _ => True end.
Proof.
  intros H He. pose proof (ok_current s H) as Hcur. destruct e as [|id|id| | | | | | | | | | | | | | | | | | | | | | | |]; try done; cbn in He; (destruct (calls s !! id) as [[p start ch err wrote]|] eqn:Hc; [|done]; destruct p; try done).
  - destruct (writech s) eqn:Ech; [done|]. injection He as <-. set (c := mkCall CEnter start ch err wrote) in *. set (c' := mkCall CSent (nwrite s) ch err wrote).
    destruct (ok_calls s H id c Hc) as [K1 (K2 & K3 & K4) K5 K6]. pose proof (K1 (or_introl eq_refl)) as Eid. destruct (current_some s id Hcur Eid) as (c0 & Hc0 & Hs & Hr & Hl). assert (c0 = c) as -> by congruence.
    assert (werr s = None /\ clean s id /\ ch = None) as (Ee & Hcl & ->) by by destruct Hs. assert (lent s = false /\ reqch s = None /\ free (r s)) as (El & Er & Hf) by (destruct Hr as [? Hx| | ? Hx|? Hx]; try done; by destruct Hx; left).
    constructor; [|..|apply (ok_fail s H)|apply (ok_dead s H)].
    + unfold current. cbn. rewrite Eid. exists c'. rewrite lookup_insert_eq. split; [done|]. split; [|split].
      * eapply WSQueued; try done. unfold clean in *. cbn. destruct Hcl as [?|[?|(j & cj & Hj & ? & Hcj & ?)]]; [by left|by right; left|right; right]. exists j, cj. by rewrite lookup_insert_ne.
      * eapply RSEntering; try done. by right.
      * intros [Hx|(i & b & e & Hx)]; [cbn in Hx; congruence|]. cbn in Hx. rewrite Hx in Hf. done.
    + eapply (calls_ok_update s _ id c'); [done|by apply frame_refl|reflexivity|]. constructor; cbn; try done. specialize (K3 eq_refl). cbn in K3. split; [lia|]. split; [done|]. intros _. lia.
  - destruct (reqch s) eqn:Erq; [done|]. injection He as <-. set (c := mkCall CSent start ch err wrote) in *. set (c' := mkCall (CSelect false) start ch err wrote).
    destruct (ok_calls s H id c Hc) as [K1 (K2 & K3 & K4) K5 K6]. pose proof (K1 (or_intror eq_refl)) as Eid. destruct (current_some s id Hcur Eid) as (c0 & Hc0 & Hs & Hr & Hl). assert (c0 = c) as -> by congruence.
    assert (lent s = false /\ free (r s)) as (El & Hf) by (destruct Hr as [? Hx| | ? Hx|? Hx]; try done; by destruct Hx; right).
    assert (~ returning s) as Hnr. { intros [?|(i & b & e & Hx)]; [congruence|]. rewrite Hx in Hf. done. }
    constructor; [|..|apply (ok_fail s H)|apply (ok_dead s H)].
    + unfold current. cbn. rewrite Eid. exists c'. rewrite lookup_insert_eq. split; [done|].
      assert (clean s id -> clean (set_call id c' (set_reqch (Some id) s)) id) as Hclean.
      { unfold clean. cbn. intros [?|[?|(j & cj & Hj & ? & Hcj & ?)]]; [by left|by right; left|right; right]. exists j, cj. by rewrite lookup_insert_ne. }
      split; [|split].
      * destruct Hs; [done|eapply WSQueued|eapply WSWriting|eapply WSWritten|eapply WSFailed]; eauto.
      * eapply RSQueued; try done. by intros [?|?].
      * done.
    + eapply (calls_ok_update s _ id c'); [done|by apply frame_refl|reflexivity|]. constructor; cbn; [by intros [?|?]|..]; try done. split; [done|]. split; [done|]. intros _. by apply K4.
Qed.
(** A read loop that is busy is busy with the current call. *)
Lemma busy_with_cur s id : current s -> busy (r s) id -> ~ free (r s) -> cur s = Some id /\ exists c, calls s !! id = Some c /\ wstage s id c /\ (returning s -> written s id c) /\ lent s = false /\ ~ entering c /\ reqch s = None.
Proof.
  intros H Hb Hf. unfold current in H. destruct (cur s) as [i|]; [|by destruct H as (_ & _ & _ & _ & _ & _ & ?)]. destruct H as (c & Hc & Hw & Hr & Hl). destruct Hr as [| | |? ? ? Hbi]; try done.
  assert (i = id) as -> by (destruct (r s) as [| | | | | |? []| | | |]; cbn in *; first [tauto|congruence]). split; [done|]. by exists c.
Qed.
Lemma ETake_ok s s' : conn_ok s -> exec ETake s = Some s' -> conn_ok s'.
Proof.
  intros H. cbn. destruct (r s) as [|perr| | | | | | | | |] eqn:Er; try done. destruct (reqch s) as [id|] eqn:Eq; [|done]. intros [= <-]. pose proof (ok_current s H) as Hcur.
  set (x := match perr with Some e => _ | None => _ end). assert (busy x id /\ (forall i b e, x <> RPut i b e) /\ (forall i e ce, x = RFail i e ce -> unwritten e = false) /\ x <> RDead) as (Hb & Hp & Hf & Hd).
  { unfold x. destruct perr; split_and!; try done. by intros i e0 ce [= <- <- <-]. }
  clearbody x. constructor; [|apply (calls_ok_frame s); [done| |done]|exact Hf|done].
  - unfold current in *. cbn. destruct (cur s) as [i|] eqn:Ei; [|by destruct Hcur as (_ & _ & _ & ? & _); congruence]. destruct Hcur as (c & Hc & Hw & Hr & Hl). exists c. split; [done|].
    assert (i = id /\ lent s = false /\ ~ entering c) as (-> & El & Hen) by (destruct Hr; try congruence; split; [congruence|done]).
    split; [|split].
    + destruct Hw; [eapply WSUnsent|eapply WSQueued|eapply WSWriting|eapply WSWritten|eapply WSFailed]; eauto.
    + by eapply RSBusy.
    + intros [Hx|(i & b & e & Hx)]; [cbn in Hx; congruence|by destruct (Hp i b e)].
  - split; [done|]. split; [cbn; lia|]. split; [done|]. split; [|done]. intros ce Hce. congruence.
Qed.
Lemma EWrote_ok timeout s s' : conn_ok s -> exec (EWrote timeout) s = Some s' -> conn_ok s'.
Proof.
  intros H. cbn. destruct (r s) as [| | | |id body ce| | | | | |] eqn:Er; try done. destruct (busy_with_cur s id (ok_current s H)) as (Eid & c & Hc & Hw & _ & El & Hen & Eq); [by rewrite Er|rewrite Er; by intros []|].
  set (no := if body then RExit ce else RDeliver id false ce). assert (busy no id /\ (forall i b e, no <> RPut i b e) /\ (forall i e ce, no <> RFail i e ce) /\ no <> RDead) as (Hb & Hp & Hf & Hd) by (unfold no; by destruct body).
  clearbody no. destruct (werr s) as [e|] eqn:Ee.
  - intros [= <-]. assert (forall x, busy x id -> (forall i e ce, x <> RFail i e ce) -> x <> RDead -> (e = None \/ forall i b e, x <> RPut i b e) -> conn_ok (set_r x (set_werr None s))) as Hgo; [|destruct e; cbn [is_set]; apply Hgo; try done; auto].
    intros x Hbx Hfx Hdx Hpx. assert (call_frame s (set_r x (set_werr None s))) as Fr. { split; [done|]. split; [cbn; lia|]. split; [done|]. split; [|done]. intros ? ?. congruence. }
    constructor; [|by apply (calls_ok_frame s)|by intros i e0 ce0 Hx; destruct (Hfx i e0 ce0)|done].
    unfold current. cbn. rewrite Eid. exists c. split; [done|]. split; [|split].
    + destruct Hw; try congruence; [eapply WSWritten|eapply WSFailed]; eauto.
    + by eapply RSBusy.
    + intros [Hx|(i & b & e0 & Hx)]; [cbn in Hx; congruence|]. destruct Hpx as [->|Hpx]; [|by destruct (Hpx i b e0)]. split; [|split; [done|]]; destruct Hw; cbn; try congruence.
  - destruct timeout; [|done]. intros [= <-]. apply (reader_moves s no); [exact H|rewrite Er; by intros ? <-|rewrite Er; by intros []|exact Hp|intros i e0 ce0 Hx; by destruct (Hf i e0 ce0)|done|intros [? ?]; congruence|done..].
Qed.
(** The read loop's moves that touch nothing else, the connection being closed at most. *)
Ltac reader_step H Er :=
  lazymatch goal with |- conn_ok (set_r ?x _) => apply (reader_moves _ x _ H) end; rewrite ?Er; cbn;
  first [done|by intros ? <-|by intros []|by intros ? ? ? [=]|intros [? ?]; congruence].
Lemma EPut_ok e s s' : conn_ok s -> exec (EPut e) s = Some s' -> conn_ok s'.
Proof.
  intros H. cbn. destruct (r s) as [| | | | |id body ce| | | | |] eqn:Er; try done. destruct (busy_with_cur s id (ok_current s H)) as (Eid & c & Hc & Hw & Hl & El & Hen & Eq); [by rewrite Er|rewrite Er; by intros []|].
  destruct e as [e|]; intros [= <-].
  - destruct body; reader_step H Er.
  - set (x := if body then RPeek else RDeliver id true ce). assert (free x /\ (forall i b e, x <> RPut i b e) /\ (forall i e ce, x <> RFail i e ce) /\ x <> RDead) as (Hf & Hp & Hfl & Hd) by (unfold x; by destruct body).
    clearbody x. destruct Hl as (E1 & E2 & Hd'); [right; eauto|].
    constructor; [|apply (calls_ok_frame s); [done| |done]|intros i e0 ce0 Hx; by destruct (Hfl i e0 ce0)|done].
    + unfold current. cbn. rewrite Eid. exists c. split; [done|]. split; [|split; [by eapply RSLent|done]].
      destruct Hw; try congruence; [by destruct Hen; left|eapply WSWriting|eapply WSWritten|eapply WSFailed]; eauto.
    + split; [done|]. split; [cbn; lia|]. split; [done|]. split; [|done]. intros ? ?. congruence.
Qed.
Lemma EDeliver_ok s s' : conn_ok s -> exec EDeliver s = Some s' -> conn_ok s'.
Proof.
  intros H. cbn.
  assert (forall id p next c, calls s !! id = Some c -> (exists armed, q_phase c = CSelect armed) -> (p = CRet None \/ exists e, p = CMap e /\ unwritten e = false /\ exists ce, next = RExit ce) ->
    (forall id, busy (r s) id -> busy next id) -> (free (r s) -> free next) -> (forall i b e, next <> RPut i b e) -> (forall i e ce, next <> RFail i e ce) -> next <> RDead -> (forall ce, r s <> RExit ce) ->
    conn_ok (set_r next (set_call id (at_phase c p) s))) as Hgo.
  { intros id p next c Hc [armed Hp] Hpp Hb Hf Hn1 Hn2 Hn3 Hx. assert (same_place c (at_phase c p)) as Hsp.
    { apply same_place_after; unfold entering; rewrite ?Hp; split_hyps; subst; try done; intuition congruence. }
    assert (conn_ok (set_r next s)) as H1 by (apply (reader_moves s next); try done; [intros i e ce ->; by destruct (Hn2 i e ce)|intros [ce ?]; by destruct (Hx ce)]).
    constructor; [|..|intros i e ce Hr; by destruct (Hn2 i e ce)|done].
    - by apply (current_call (set_r next s) _ id c (at_phase c p) (ok_current _ H1) Hc).
    - eapply (calls_ok_update (set_r next s) _ id (at_phase c p)); [done|by apply frame_refl|done|]. destruct (ok_calls _ H1 id c Hc) as [K1 (K2 & K3 & K4) K5 K6]. destruct Hsp as (P1 & P2 & _).
      constructor; [by rewrite P2| |..]; cbn.
      + split; [done|]. split; [by rewrite <- P1 in K3|]. intros _. apply K4. congruence.
      + intros e He. destruct Hpp as [->|(e0 & -> & Hu & Hce)]; [done|]. injection He as <-. by right.
      + intros e He. destruct Hpp as [->|(e0 & -> & Hu & Hce)]; done. }
  destruct (r s) as [| | |id e ce| | |id alive ce|id alive ce| | |] eqn:Er; try done; (destruct (calls s !! id) as [c|] eqn:Hc; [|done]); (destruct (q_phase c) as [| |armed| |] eqn:Ep; try done); intros [= <-].
  - apply Hgo; eauto 8; try done. right. exists e. split; [done|]. split; [by apply (ok_fail s H id e ce)|by exists ce].
  - apply Hgo; eauto; destruct alive; cbn; try done.
  - apply Hgo; eauto; try done.
Qed.
Lemma reader_event_ok e s s' : conn_ok s -> exec e s = Some s' ->
  match e with EPeek _ _ | ETake | ERead _ _ _ _ | EWrote _ | EPut _ | EDeliver | EGone | EBodyEnd _ | EBodyCtx _ | EBodyClosed | EExit => conn_ok s' | _ => True end.
Proof.
  intros H He. destruct e as [| | | | | | | | | | | | | | |perr is408| |e alive hasBody owns|timeout|e| | |reuse|cause| | |e]; try done;
    [|by eapply ETake_ok| |by eapply EWrote_ok|by eapply EPut_ok|by eapply EDeliver_ok|..]; cbn in He.
  - destruct (r s) eqn:Er; try done. destruct (expected s =? 0); injection He as <-; [|reader_step H Er].
    pose proof (close_fields (readLoopPeekFail perr is408) s) as (F1 & F2 & F3 & F4 & F5 & F6 & F7 & F8 & F9).
    apply (reader_moves s (RExit (Plain errReadLoopExiting))); rewrite ?Er; try done; intros _; apply close_closed.
  - destruct (r s) as [| |id| | | | | | | |] eqn:Er; try done. destruct e as [e|]; injection He as <-.
    + apply (reader_moves s (RFail id (Plain e) (Plain errReadLoopExiting))); rewrite ?Er; try done; [by intros i ? ? [= <- <- <-]|intros [? ?]; congruence].
    + destruct (negb hasBody || owns); [destruct (alive && negb owns)|]; reader_step H Er.
  - destruct (r s) as [| | |id e ce| | |id alive ce|id alive ce| | |] eqn:Er; try done; (destruct (calls s !! id) as [c|] eqn:Hc; [|done]); (destruct (q_phase c) as [| |armed| |] eqn:Ep; try done); injection He as <-; reader_step H Er.
  - destruct (r s) as [| | | | | | | |id alive ce| |] eqn:Er; try done. injection He as <-. destruct (alive && reuse); reader_step H Er.
  - destruct (r s) as [| | | | | | | |id alive ce| |] eqn:Er; try done. injection He as <-. pose proof (cancel_ok cause s H) as H1.
    assert (r (cancelRequest cause s) = RBody id alive ce) as Er1. { unfold cancelRequest. by destruct (close_fields (Plain ErrRequestCanceled) (set_canceled (Some cause) s)) as (_ & _ & _ & _ & _ & _ & _ & _ & ->). }
    reader_step H1 Er1.
  - destruct (r s) as [| | | | | | | |id alive ce| |] eqn:Er; try done. destruct (closed s) eqn:Ecl; [|done]. injection He as <-. reader_step H Er.
  - destruct (r s) as [| | | | | | | | |ce|] eqn:Er; try done. injection He as <-.
    pose proof (close_fields ce s) as (F1 & F2 & F3 & F4 & F5 & F6 & F7 & F8 & F9).
    apply (reader_moves s RDead); rewrite ?Er; try done; intros _; apply close_closed.
Qed.
Lemma conn_event_ok e s s' : conn_ok s -> exec e s = Some s' -> conn_ok s'.
Proof.
  intros H He. pose proof (caller_event_ok e s s' H He) as H1. pose proof (writer_event_ok e s s' H He) as H2. pose proof (reader_event_ok e s s' H He) as H3. pose proof (ESend_ok e s s' H He) as H4.
  destruct e; try done; [by eapply ENew_ok|]. injection He as <-. by apply close_ok.
Qed.
Lemma reachable_conn_ok s : reachable s -> conn_ok s.
Proof. induction 1; [apply pc_init_ok|by eapply conn_event_ok]. Qed.

(** ** Getting out *)
(** The steps that remain of the write loop, and those of a call after it, on a connection that is closed: each takes
    one off, and a request that waits in [writech] counts with the writing of it. *)
Definition writer_rank (s : pconn_state) : nat :=
  match w s with WDone => 0 | WIdle | WClose _ => 1 | WReply _ _ => 2 | WPush _ _ => 3 | WWriting _ _ => 4 end
  + match w s, writech s with WDone, _ | _, None => 0 | _, Some _ => 4 end.
Definition phase_rank (p : caller) : nat := match p with CRet _ => 0 | CMap _ => 1 | CSelect _ => 2 | CSent => 3 | CEnter => 8 end.
Definition open_rank (s : pconn_state) : nat := if is_set (closed s) then 0 else 1.
Definition rank (id : nat) (s : pconn_state) : nat :=
  match calls s !! id with
  | Some c => match q_phase c with CRet _ => 0 | p => phase_rank p + writer_rank s + open_rank s end
  | None => 0
  end.
Definition returned (id : nat) (s : pconn_state) : Prop := exists c x, calls s !! id = Some c /\ q_phase c = CRet x.
(** The steps the three goroutines take by themselves: no new call, cancellation or time-out, and nothing that waits for the network or a body. *)
Definition own_step (e : event) : bool :=
  match e with EWriteSend _ | EReqSend _ | ECClosed _ | ECMapped _ | EWStop | EWPush | EWReply | EWFinish | EDeliver | EExit => true | _ => false end.
Lemma rank_bound id s : (rank id s <= 17)%nat.
Proof. unfold rank, writer_rank, open_rank. destruct (calls s !! id) as [c|]; [|lia]. destruct (q_phase c); cbn [phase_rank]; destruct (closed s); cbn [is_set]; destruct (w s), (writech s); lia. Qed.
Lemma open_rank_le s s' : (is_Some (closed s) -> is_Some (closed s')) -> (open_rank s' <= open_rank s)%nat.
Proof. unfold open_rank. intros H. destruct (closed s) as [x|]; [destruct H as [y ->]; [by exists x|]; cbn; lia|cbn; destruct (is_set _); lia]. Qed.
Lemma rank_same id s s' : calls s' = calls s -> (writer_rank s' <= writer_rank s)%nat -> (is_Some (closed s) -> is_Some (closed s')) -> (rank id s' <= rank id s)%nat.
Proof. intros E Hw Hc%open_rank_le. unfold rank. rewrite E. destruct (calls s !! id) as [c|]; [|lia]. destruct (q_phase c); lia. Qed.
(** A step that changes one call. *)
Lemma rank_call id s s' j c c' : calls s !! j = Some c -> calls s' = <[j := c']> (calls s) -> (writer_rank s' <= writer_rank s)%nat -> (is_Some (closed s) -> is_Some (closed s')) ->
  (phase_rank (q_phase c') <= phase_rank (q_phase c))%nat -> (rank id s' <= rank id s)%nat.
Proof.
  intros Hj E Hw Hc%open_rank_le Hp. unfold rank. rewrite E. destruct (decide (id = j)) as [->|Hne].
  - rewrite lookup_insert_eq, Hj. destruct (q_phase c), (q_phase c'); cbn [phase_rank] in *; lia.
  - rewrite lookup_insert_ne by done. destruct (calls s !! id) as [x|]; [destruct (q_phase x); lia|lia].
Qed.
(** The same for the call itself, when it comes closer to its end. *)
Lemma rank_call_lt id s s' c c' : calls s !! id = Some c -> calls s' !! id = Some c' -> (writer_rank s' + phase_rank (q_phase c') < writer_rank s + phase_rank (q_phase c))%nat -> (is_Some (closed s) -> is_Some (closed s')) ->
  (phase_rank (q_phase c') <= phase_rank (q_phase c))%nat -> (0 < phase_rank (q_phase c))%nat -> (rank id s' < rank id s)%nat.
Proof. intros Hj E Hw Hc%open_rank_le Hp Hpos. unfold rank. rewrite E, Hj. destruct (q_phase c), (q_phase c'); cbn [phase_rank] in *; lia. Qed.
Lemma close_kept e s : calls (close e s) = calls s /\ w (close e s) = w s /\ writech (close e s) = writech s /\ is_Some (closed (close e s)).
Proof. destruct (close_fields e s) as (_ & _ & E1 & _ & _ & E2 & E3 & _). rewrite E1, E2, E3. split; [done|]. split; [done|]. split; [done|]. apply close_closed. Qed.
Lemma writer_rank_eq s s' : w s' = w s -> writech s' = writech s -> (writer_rank s' <= writer_rank s)%nat.
Proof. unfold writer_rank. by intros -> ->. Qed.
(** No step of any goroutine, no time-out and no cancellation takes a call further from its end; only another call that starts its
    write can come before it. *)
Lemma rank_step id e s s' : is_Some (calls s !! id) -> exec e s = Some s' -> (forall j, e = EWriteSend j -> j = id) -> (rank id s' <= rank id s)%nat.
Proof.
  intros [c0 Hid] He Hother.
  assert (forall err, calls (close err s) = calls s /\ w (close err s) = w s /\ writech (close err s) = writech s /\ is_Some (closed (close err s))) as Hcl by (intros; apply close_kept).
  assert (forall (err : error) cause x, let s1 := set_r x (cancelRequest cause s) in calls s1 = calls s /\ w s1 = w s /\ writech s1 = writech s /\ is_Some (closed s1)) as Hcan by (intros; apply (close_kept (Plain ErrRequestCanceled) (set_canceled (Some cause) s))).
  destruct e as [j|j|j|j timeout|j|j|j cause|j| | |n|err bodyRead| | | |perr is408| |err alive hasBody owns|timeout|err| | |reuse|cause| | |err]; cbn in He.
  - destruct (calls s !! j) eqn:Hj; [done|]. destruct (lent s); [|done]. injection He as <-. unfold rank. cbn. rewrite lookup_insert_ne by congruence. done.
  - specialize (Hother j eq_refl) as ->. rewrite Hid in He. destruct c0 as [[] start ch err wrote]; try done. destruct (writech s) eqn:Ew; [done|]. injection He as <-.
    unfold rank. cbn. rewrite lookup_insert_eq, Hid. cbn [q_phase phase_rank]. unfold writer_rank, open_rank. cbn. rewrite Ew. destruct (w s); lia.
  - destruct (calls s !! j) as [[[] start ch err wrote]|] eqn:Hj; try done. destruct (reqch s); [done|]. injection He as <-. eapply (rank_call id s _ j); [exact Hj|done|by apply writer_rank_eq|done|cbn; lia].
  - destruct (calls s !! j) as [[[] start [[e|]|] err wrote]|] eqn:Hj; try done; injection He as <-.
    + destruct (Hcl (Plain (fmt_Errorf "write error: %w" []))) as (E1 & E2 & E3 & E4). eapply (rank_call id s _ j); [exact Hj|cbn; by rewrite E1|by apply writer_rank_eq|done|cbn; lia].
    + eapply (rank_call id s _ j); [exact Hj|done|by apply writer_rank_eq|done|cbn; lia].
  - destruct (calls s !! j) as [c|] eqn:Hj; [|done]. destruct (closed s) eqn:Ec; [|done]. destruct (q_phase c) eqn:Ep; try done. destruct (offers s j); [done|]. injection He as <-.
    eapply (rank_call id s _ j); [exact Hj|done|by apply writer_rank_eq|done|rewrite Ep; cbn; lia].
  - destruct (calls s !! j) as [c|] eqn:Hj; [|done]. destruct (q_phase c) as [| |[]| |] eqn:Ep; try done. injection He as <-. destruct (Hcl (Plain errTimeout)) as (E1 & E2 & E3 & E4).
    eapply (rank_call id s _ j); [exact Hj|cbn; by rewrite E1|by apply writer_rank_eq|done|rewrite Ep; cbn; lia].
  - destruct (calls s !! j) as [c|] eqn:Hj; [|done]. destruct (q_phase c); try done. destruct (offers s j); [done|]. injection He as <-. destruct (Hcan ErrRequestCanceled cause RPeek) as (E1 & E2 & E3 & E4).
    apply rank_same; [exact E1|by apply writer_rank_eq|done].
  - destruct (calls s !! j) as [c|] eqn:Hj; [|done]. destruct (w s) eqn:Ew; try done. destruct (q_phase c) eqn:Ep; try done. injection He as <-. eapply (rank_call id s _ j); [exact Hj|done|by apply writer_rank_eq|done|rewrite Ep; cbn; lia].
  - destruct (w s) eqn:Ew; try done. destruct (writech s) eqn:Ech; [|done]. injection He as <-. apply rank_same; [done|unfold writer_rank; cbn; rewrite Ew, Ech; lia|done].
  - destruct (w s) eqn:Ew; try done. destruct (closed s) eqn:Ec; [|done]. injection He as <-. apply rank_same; [done|unfold writer_rank; cbn; lia|done].
  - destruct (w s) as [|i st| | | |] eqn:Ew; try done. destruct (calls s !! i) as [c|] eqn:Hi; [|done]. destruct (0 <? n); [|done]. injection He as <-. eapply (rank_call id s _ i); [exact Hi|done|by apply writer_rank_eq|done|done].
  - destruct (w s) as [|i st| | | |] eqn:Ew; try done. destruct (calls s !! i) as [c|] eqn:Hi; [|done]. injection He as <-. eapply (rank_call id s _ i); [exact Hi|done|unfold writer_rank; cbn; rewrite Ew; destruct (writech s); lia|done|destruct err; [by destruct bodyRead|done]].
  - destruct (w s) as [| |i err| | |] eqn:Ew; try done. destruct (werr s); [done|]. injection He as <-. apply rank_same; [done|unfold writer_rank; cbn; rewrite Ew; destruct (writech s); lia|done].
  - destruct (w s) as [| | |i err| |] eqn:Ew; try done. destruct (calls s !! i) as [[p start [|] e0 wrote]|] eqn:Hi; try done. injection He as <-. eapply (rank_call id s _ i); [exact Hi|done|unfold writer_rank; cbn; rewrite Ew; destruct err, (writech s); lia|done|done].
  - destruct (w s) as [| | | |err|] eqn:Ew; try done. injection He as <-. destruct (Hcl err) as (E1 & E2 & E3 & E4). apply rank_same; [exact E1|unfold writer_rank; cbn; lia|done].
  - destruct (r s); try done. destruct (expected s =? 0); injection He as <-; [destruct (Hcl (readLoopPeekFail perr is408)) as (E1 & E2 & E3 & E4); apply rank_same; [exact E1|by apply writer_rank_eq|done]|by apply rank_same].
  - destruct (r s); try done. destruct (reqch s); [|done]. injection He as <-. by apply rank_same.
  - destruct (r s); try done. destruct err; injection He as <-; by apply rank_same.
  - destruct (r s); try done. destruct (werr s); [injection He as <-; by apply rank_same|]. destruct timeout; [|done]. injection He as <-. by apply rank_same.
  - destruct (r s); try done. destruct err; injection He as <-; by apply rank_same.
  - destruct (r s) as [| | |i e ce| | |i alive ce|i alive ce| | |]; try done; (destruct (calls s !! i) as [c|] eqn:Hi; [|done]); (destruct (q_phase c) eqn:Ep; try done); injection He as <-;
      (eapply (rank_call id s _ i); [exact Hi|done|by apply writer_rank_eq|done|rewrite Ep; cbn; lia]).
  - destruct (r s) as [| | |i e ce| | |i alive ce|i alive ce| | |]; try done; (destruct (calls s !! i) as [c|] eqn:Hi; [|done]); (destruct (q_phase c) eqn:Ep; try done); injection He as <-; by apply rank_same.
  - destruct (r s); try done. injection He as <-. by apply rank_same.
  - destruct (r s) as [| | | | | | | |i alive ce| |]; try done. injection He as <-. destruct (Hcan ErrRequestCanceled cause (RExit ce)) as (E1 & E2 & E3 & E4). apply rank_same; [exact E1|by apply writer_rank_eq|done].
  - destruct (r s); try done. destruct (closed s) eqn:Ec; [|done]. injection He as <-. by apply rank_same.
  - destruct (r s) as [| | | | | | | | |ce|]; try done. injection He as <-. destruct (Hcl ce) as (E1 & E2 & E3 & E4). apply rank_same; [exact E1|by apply writer_rank_eq|done].
  - injection He as <-. destruct (Hcl (Plain err)) as (E1 & E2 & E3 & E4). apply rank_same; [exact E1|by apply writer_rank_eq|done].
Qed.
(** What the write loop is about to answer is a call that has not been answered. *)
Lemma replying s j e : current s -> w s = WReply j e -> exists c, calls s !! j = Some c /\ q_ch c = None.
Proof.
  intros H Ew. destruct (busy_cur s H) as [id Eid]; [by rewrite Ew|by rewrite Ew|]. destruct (current_some s id H Eid) as (c & Hc & Hs & _).
  destruct Hs as [? ? ? Hcl Hq|? ? ? Hcl Hq|? ? ? Hx ?|? ? ? Hx|? ? ? Hx]; [unfold clean in Hcl| unfold clean in Hcl| | |]; split_hyps; try congruence.
  all: match goal with H1 : w _ = WReply _ _, H2 : w _ = WReply _ _ |- _ => rewrite H1 in H2; injection H2 as -> _ end; eauto.
Qed.
(** The write loop of a closed connection has a step to take, or waits for the end of a write. *)
Definition lowers (id : nat) (s : pconn_state) : Prop :=
  exists e s', exec e s = Some s' /\ (rank id s' < rank id s)%nat /\ (own_step e = true \/ exists j st err, w s = WWriting j st /\ e = EWEnd err false).
Lemma rank_writer id s s' c : calls s !! id = Some c -> (exists c', calls s' !! id = Some c' /\ q_phase c' = q_phase c) -> phase_rank (q_phase c) <> 0%nat -> (writer_rank s' < writer_rank s)%nat ->
  (is_Some (closed s) -> is_Some (closed s')) -> (rank id s' < rank id s)%nat.
Proof. intros Hc (c' & Hc' & Hp) Hne Hw Hcl. apply (rank_call_lt id s s' c c' Hc Hc'); [rewrite Hp; lia|done|by rewrite Hp|lia]. Qed.
Lemma insert_phase (m : gmap nat call) id j c cj cj' : m !! id = Some c -> m !! j = Some cj -> q_phase cj' = q_phase cj -> exists c', <[j := cj']> m !! id = Some c' /\ q_phase c' = q_phase c.
Proof. intros Hc Hj Hp. destruct (decide (id = j)) as [->|]; [exists cj'; rewrite lookup_insert_eq; split; [done|congruence]|exists c; by rewrite lookup_insert_ne]. Qed.
Lemma writer_lowers id s c : conn_ok s -> is_Some (closed s) -> calls s !! id = Some c -> phase_rank (q_phase c) <> 0%nat -> w s <> WDone -> lowers id s.
Proof.
  intros Hok [ce Hcl] Hc Hne Hw. unfold lowers. destruct (w s) as [|j st|j e|j e|e|] eqn:Ew; try done.
  - exists EWStop. eexists. cbn. rewrite Ew, Hcl. split; [done|]. split; [|by left]. apply (rank_writer id s _ c Hc); [by exists c|done|unfold writer_rank; cbn; rewrite Ew; lia|done].
  - destruct (writing_cur s j (ok_current s Hok)) as (_ & cj & Hj & _); [left; eauto|]. exists (EWEnd (Some io_ErrUnexpectedEOF) false). eexists. cbn. rewrite Ew, Hj. split; [done|]. split; [|right; eauto 6].
    apply (rank_writer id s _ c Hc); [by eapply insert_phase|done|unfold writer_rank; cbn; rewrite Ew; destruct (writech s); lia|done].
  - destruct (writing_cur s j (ok_current s Hok)) as (_ & cj & _ & _ & _ & _ & _ & Ee & _); [right; eauto|]. exists EWPush. eexists. cbn. rewrite Ew, Ee. split; [done|]. split; [|by left].
    apply (rank_writer id s _ c Hc); [by exists c|done|unfold writer_rank; cbn; rewrite Ew; destruct (writech s); lia|done].
  - destruct (replying s j e (ok_current s Hok) Ew) as ([p start ch err wrote] & Hj & Hq). cbn in Hq. subst ch. exists EWReply. eexists. cbn. rewrite Ew, Hj. split; [done|]. split; [|by left].
    apply (rank_writer id s _ c Hc); [by eapply insert_phase|done|unfold writer_rank; cbn; rewrite Ew; destruct e, (writech s); lia|done].
  - exists EWFinish. eexists. cbn. rewrite Ew. split; [done|]. split; [|by left]. destruct (close_kept e s) as (E1 & _ & _ & E4). apply (rank_writer id s _ c Hc); [exists c; cbn; by rewrite E1|done|unfold writer_rank; cbn; rewrite Ew; destruct (writech s); lia|done].
Qed.
Lemma call_lowers id s c : conn_ok s -> calls s !! id = Some c -> is_Some (closed s) \/ (exists e, q_phase c = CMap e) -> returned id s \/ lowers id s.
Proof.
  intros Hok Hc Hd. pose proof (ok_current s Hok) as Hcur. destruct (q_phase c) as [| |armed|e|x] eqn:Hp; [right..|left; by exists c, x].
  - destruct (current_some s id Hcur) as (c' & Hc' & Hs & _); [apply (ck_cur s id c (ok_calls s Hok id c Hc)); by left|]. assert (c' = c) as -> by congruence. assert (writech s = None) as Ew by by destruct Hs.
    destruct c as [p start ch err wrote]. cbn in Hp. subst p. exists (EWriteSend id). eexists. cbn. rewrite Hc, Ew. split; [done|]. split; [|by left].
    eapply rank_call_lt; [exact Hc|cbn; by rewrite lookup_insert_eq|unfold writer_rank; cbn; rewrite Ew; destruct (w s); lia|done|cbn; lia|cbn; lia].
  - destruct (current_some s id Hcur) as (c' & Hc' & _ & Hr & _); [apply (ck_cur s id c (ok_calls s Hok id c Hc)); by right|]. assert (c' = c) as -> by congruence.
    assert (reqch s = None) as Eq by (destruct Hr as [? Hen|? Hen|? Hen|? Hen]; try done; by destruct Hen; right). destruct c as [p start ch err wrote]. cbn in Hp. subst p.
    exists (EReqSend id). eexists. cbn. rewrite Hc, Eq. split; [done|]. split; [|by left]. eapply rank_call_lt; [exact Hc|cbn; by rewrite lookup_insert_eq|unfold writer_rank; cbn; lia|done|cbn; lia|cbn; lia].
  - destruct Hd as [[ce Hcl]|[? ?]]; [|done]. destruct (offers s id) eqn:Ho.
    + assert (exists s1 p, exec EDeliver s = Some s1 /\ calls s1 !! id = Some (at_phase c p) /\ (phase_rank p <= 1)%nat /\ w s1 = w s /\ writech s1 = writech s /\ closed s1 = closed s) as (s1 & p & Ex & Hc1 & Hpp & E1 & E2 & E3).
      { unfold offers in Ho. destruct (r s) as [| | |i e ce'| | |i alive ce'|i alive ce'| | |] eqn:Er; try done; apply bool_decide_eq_true in Ho as ->; cbn; rewrite Er, Hc, Hp; eexists _, _;
          (split; [done|]); cbn; rewrite lookup_insert_eq; (split; [done|]); cbn; (split; [lia|done]). }
      exists EDeliver, s1. split; [done|]. split; [|by left]. eapply rank_call_lt; [exact Hc|exact Hc1|pose proof (writer_rank_eq s s1 E1 E2); cbn; rewrite Hp; cbn; lia|by rewrite E3|rewrite Hp; cbn; lia|rewrite Hp; cbn; lia].
    + exists (ECClosed id). eexists. cbn. rewrite Hc, Hcl, Hp, Ho. split; [done|]. split; [|by left]. eapply rank_call_lt; [exact Hc|cbn; by rewrite lookup_insert_eq|unfold writer_rank; cbn; rewrite Hp; cbn; lia|done|rewrite Hp; cbn; lia|rewrite Hp; cbn; lia].
  - assert (w s = WDone \/ w s <> WDone) as [Ew|Ew] by (destruct (w s); auto).
    + exists (ECMapped id). eexists. cbn. rewrite Hc, Ew, Hp. split; [done|]. split; [|by left]. eapply rank_call_lt; [exact Hc|cbn; by rewrite lookup_insert_eq|unfold writer_rank; cbn; rewrite Hp, Ew; cbn; lia|done|rewrite Hp; cbn; lia|rewrite Hp; cbn; lia].
    + destruct (ck_map s id c (ok_calls s Hok id c Hc) e Hp) as [Hcl|(_ & ce & Hr)]; [eapply writer_lowers; try done; by rewrite Hp|]. destruct (closed s) as [x|] eqn:Ecl; [eapply writer_lowers; [done|by rewrite Ecl|exact Hc|by rewrite Hp|done]|].
      exists EExit. eexists. cbn. rewrite Hr. split; [done|]. split; [|by left]. destruct (close_kept ce s) as (E1 & E2 & E3 & [y E4]). unfold rank, writer_rank, open_rank. cbn. rewrite E1, E2, E3, E4, Hc, Hp, Ecl. cbn. lia.
Qed.

(** ** What callers rely on *)
(** C13: the error that says that nothing was written is true: when [roundTrip] returns it,
    not one byte of the request has reached the connection, and the write loop has ended,
    so none ever will; sending the request again on another connection cannot make the
    server see it twice. *)
Theorem nothing_written_is_true s id c e : reachable s -> calls s !! id = Some c -> q_phase c = CRet (Some (NothingWritten e)) -> q_wrote c = 0 /\ w s = WDone.
Proof. intros H%reachable_conn_ok Hc Hp. by apply (ck_ret s id c (ok_calls s H id c Hc) _ Hp). Qed.

(** *** What has happened on the connection
    Something that a step of the past did, and what the two loops did for a request: its write came to its end without an error; its response
    was read and has no body, or its body was read to the end, while the connection could be kept. *)
Definition happened (es : list event) (P : pconn_state -> event -> Prop) : Prop := exists es1 e es2 s1, es = es1 ++ e :: es2 /\ run es1 pc_init = Some s1 /\ P s1 e.
Definition write_whole (id : nat) (s : pconn_state) (e : event) : Prop := exists st b, w s = WWriting id st /\ e = EWEnd None b.
Definition answer_whole (id : nat) (s : pconn_state) (e : event) : Prop :=
  (r s = RRead id /\ e = ERead None true false false) \/ (exists ce, r s = RBody id true ce /\ e = EBodyEnd true).
Lemma happened_more es es' P : happened es P -> happened (es ++ es') P.
Proof. intros (es1 & e & es2 & s1 & -> & H). exists es1, e, (es2 ++ es'), s1. by rewrite <- app_assoc. Qed.
Lemma happened_now es s e (P : pconn_state -> event -> Prop) : run es pc_init = Some s -> P s e -> happened (es ++ [e]) P.
Proof. intros H HP. by exists es, e, [], s. Qed.
Record past_ok (es : list event) (s : pconn_state) : Prop := {
  pa_writer : forall id, w s = WPush id None \/ w s = WReply id None -> happened es (write_whole id);
  pa_werr : forall id, werr s = Some None -> cur s = Some id -> happened es (write_whole id);
  pa_read : forall id body ce, r s = RWrote id body ce -> happened es (answer_whole id);
  pa_put : forall id body ce, r s = RPut id body ce -> happened es (write_whole id) /\ happened es (answer_whole id);
  pa_lent : forall id, lent s = true -> cur s = Some id -> happened es (write_whole id) /\ happened es (answer_whole id) }.
(** Steps that leave the loops where they are, or only the one of them that matters. *)
Lemma past_frame es e s s' : past_ok es s -> (forall id, w s' = WPush id None \/ w s' = WReply id None -> w s = WPush id None \/ w s = WReply id None) ->
  (werr s' = Some None -> werr s = Some None) -> (forall id body ce, r s' = RWrote id body ce -> r s = RWrote id body ce) -> (forall id body ce, r s' = RPut id body ce -> r s = RPut id body ce) ->
  (lent s' = true -> lent s = true) -> cur s' = cur s -> past_ok (es ++ [e]) s'.
Proof.
  intros [H1 H2 H3 H4 H5] F1 F2 F3 F4 F5 F6. constructor.
  - intros id H. by apply happened_more, H1, F1.
  - intros id He. rewrite F6. intros Hc. by apply happened_more, H2; [apply F2|].
  - intros id b ce H. by eapply happened_more, H3, F3.
  - intros id b ce H%F4. destruct (H4 _ _ _ H). split; by apply happened_more.
  - intros id Hl. rewrite F6. intros Hc. destruct (H5 id (F5 Hl) Hc). split; by apply happened_more.
Qed.
Lemma past_same es e s s' : past_ok es s -> same_frame s s' -> past_ok (es ++ [e]) s'.
Proof. intros H (E1 & E2 & E3 & E4 & E5 & E6 & E7). apply (past_frame es e s); rewrite ?E1, ?E2, ?E5, ?E6, ?E7; done. Qed.
Lemma past_caller es e s s' : conn_ok s -> past_ok es s -> caller_step e s = Some s' -> past_ok (es ++ [e]) s'.
Proof.
  intros Hok H He. assert (forall x c id, same_frame s (set_call id c (close x s))) as Hcl by (intros x c id; destruct (close_frame x s) as ((?&?&?&?&?&?&?) & _); by split_and!).
  destruct e as [j|j|j|j timeout|j|j|j cause|j| | | | | | | | | | | | | | | | | | |]; try done; cbn in He.
  - destruct (calls s !! j) eqn:Hj; [done|]. destruct (lent s) eqn:El; [|done]. injection He as <-. assert (werr s = None) as Ew.
    { pose proof (ok_current s Hok) as Hcur. unfold current in Hcur. destruct (cur s); [|by destruct Hcur as (_ & _ & _ & _ & ? & _)]. destruct Hcur as (c & _ & _ & _ & Hl). by destruct (Hl (or_introl El)) as (_ & ? & _). }
    destruct H as [H1 H2 H3 H4 H5]. constructor; cbn; [intros; by apply happened_more, H1|congruence|intros; by eapply happened_more, H3| |done]. intros id b ce Hp. destruct (H4 id b ce Hp). split; by apply happened_more.
  - destruct (calls s !! j) as [[[] start ch err wrote]|] eqn:Hj; try done. destruct (writech s); [done|]. injection He as <-. by apply (past_frame es _ s).
  - destruct (calls s !! j) as [[[] start ch err wrote]|] eqn:Hj; try done. destruct (reqch s); [done|]. injection He as <-. by apply (past_frame es _ s).
  - destruct (calls s !! j) as [[[] start [[e|]|] err wrote]|] eqn:Hj; try done; injection He as <-; apply (past_same es _ s); try done.
  - destruct (calls s !! j) as [c|]; [|done]. destruct (closed s); [|done]. destruct (q_phase c); try done. destruct (offers s j); [done|]. injection He as <-. by apply (past_same es _ s).
  - destruct (calls s !! j) as [c|]; [|done]. destruct (q_phase c) as [| |[]| |]; try done. injection He as <-. by apply (past_same es _ s).
  - destruct (calls s !! j) as [c|]; [|done]. destruct (q_phase c); try done. destruct (offers s j); [done|]. injection He as <-. apply (past_same es _ s); [done|]. unfold cancelRequest.
    destruct (close_frame (Plain ErrRequestCanceled) (set_canceled (Some cause) s)) as ((?&?&?&?&?&?&?) & _). by split_and!.
  - destruct (calls s !! j) as [c|]; [|done]. destruct (w s) eqn:Ew; try done. destruct (q_phase c); try done. injection He as <-. by apply (past_same es _ s).
Qed.
Lemma past_writer es e s s' : run es pc_init = Some s -> conn_ok s -> past_ok es s -> writer_step e s = Some s' -> past_ok (es ++ [e]) s'.
Proof.
  intros Hrun Hok H He. destruct e as [| | | | | | | | | |n|err bodyRead| | | | | | | | | | | | | | |]; try done; cbn in He.
  - destruct (w s) eqn:Ew; try done. destruct (writech s); [|done]. injection He as <-. apply (past_frame es _ s); try done. by intros id [?|?].
  - destruct (w s) eqn:Ew; try done. destruct (closed s); [|done]. injection He as <-. apply (past_frame es _ s); try done. by intros id [?|?].
  - destruct (w s) as [|i st| | | |] eqn:Ew; try done. destruct (calls s !! i); [|done]. destruct (0 <? n); [|done]. injection He as <-. by apply (past_same es _ s).
  - destruct (w s) as [|i st| | | |] eqn:Ew; try done. destruct (calls s !! i); [|done]. injection He as <-. destruct H as [H1 H2 H3 H4 H5]. constructor; cbn.
    + intros id [Hp|Hp]; [|done]. injection Hp as -> Hp. destruct err; [done|]. apply (happened_now es s); [done|]. by exists st, bodyRead.
    + intros id E Hc. by apply happened_more, H2.
    + intros id b ce Hr. by eapply happened_more, H3.
    + intros id b ce Hp. destruct (H4 id b ce Hp). split; by apply happened_more.
    + intros id Hl Hc. destruct (H5 id Hl Hc). split; by apply happened_more.
  - destruct (w s) as [| |i err| | |] eqn:Ew; try done. destruct (werr s) eqn:Ee; [done|]. injection He as <-. destruct (writing_cur s i (ok_current s Hok)) as (Ec & _); [right; eauto|]. destruct H as [H1 H2 H3 H4 H5]. constructor; cbn.
    + intros id [Hp|Hp]; [done|]. injection Hp as -> ->. apply happened_more, H1. by left.
    + intros id E Hc. injection E as ->. assert (i = id) as -> by congruence. apply happened_more, H1. by left.
    + intros id b ce Hr. by eapply happened_more, H3.
    + intros id b ce Hp. destruct (H4 id b ce Hp). split; by apply happened_more.
    + intros id Hl Hc. destruct (H5 id Hl Hc). split; by apply happened_more.
  - destruct (w s) as [| | |i err| |] eqn:Ew; try done. destruct (calls s !! i) as [[p start [|] e0 wrote]|] eqn:Hi; try done. injection He as <-. apply (past_frame es _ s); try done. cbn. destruct err; by intros id [?|?].
  - destruct (w s) as [| | | |err|] eqn:Ew; try done. injection He as <-. destruct (close_frame err s) as ((E1&E2&E3&E4&E5&E6&E7) & _). apply (past_frame es _ s); cbn; rewrite ?E1, ?E2, ?E5, ?E7; try done. by intros id [?|?].
Qed.
Lemma past_reader es e s s' : run es pc_init = Some s -> conn_ok s -> past_ok es s -> reader_step e s = Some s' -> past_ok (es ++ [e]) s'.
Proof.
  intros Hrun Hok H He. pose proof (ok_current s Hok) as Hcur.
  destruct e as [| | | | | | | | | | | | | | |perr is408| |err alive hasBody owns|timeout|err| | |reuse|cause| | |]; try done; cbn in He.
  - destruct (r s) eqn:Er; try done. destruct (expected s =? 0); injection He as <-; [|by apply (past_frame es _ s)].
    destruct (close_frame (readLoopPeekFail perr is408) s) as ((E1&E2&E3&E4&E5&E6&E7) & _). apply (past_frame es _ s); cbn; rewrite ?E1, ?E2, ?E5, ?E6; done.
  - destruct (r s) eqn:Er; try done. destruct (reqch s); [|done]. injection He as <-. apply (past_frame es _ s); try done; cbn; by destruct perr.
  - destruct (r s) as [| |i| | | | | | | |] eqn:Er; try done. destruct err; injection He as <-; [by apply (past_frame es _ s)|]. destruct H as [H1 H2 H3 H4 H5]. constructor; cbn.
    + intros id Hp. by apply happened_more, H1.
    + intros id E Hc. by apply happened_more, H2.
    + intros id b ce Hr. destruct (negb hasBody || owns) eqn:Eb; [|done]. destruct alive; [|done]. destruct owns; [done|]. destruct hasBody; [done|]. injection Hr as -> _ _. apply (happened_now es s); [done|]. by left.
    + intros id b ce Hr. destruct (negb hasBody || owns); [|done]. by destruct (alive && negb owns).
    + intros id Hl Hc. destruct (H5 id Hl Hc). split; by apply happened_more.
  - destruct (r s) as [| | | |i body ce| | | | | |] eqn:Er; try done. destruct (busy_with_cur s i Hcur) as (Ec & _); [by rewrite Er|rewrite Er; by intros []|].
    pose proof H as [H1 H2 H3 H4 H5]. destruct (werr s) as [x|] eqn:Ew.
    + injection He as <-. constructor; cbn; [intros id Hp; by apply happened_more, H1|done| | |intros id Hl Hc; destruct (H5 id Hl Hc); split; by apply happened_more].
      * intros id b ce' Hr. destruct x; cbn in Hr; [by destruct body|done].
      * intros id b ce' Hr. destruct x as [x|]; cbn in Hr; [by destruct body|]. injection Hr as -> -> ->. split; apply happened_more; [by apply H2|by eapply H3].
    + destruct timeout; [|done]. injection He as <-. apply (past_frame es _ s); try done; cbn; by destruct body.
  - destruct (r s) as [| | | | |i body ce| | | | |] eqn:Er; try done. destruct (busy_with_cur s i Hcur) as (Ec & _); [by rewrite Er|rewrite Er; by intros []|]. destruct err; injection He as <-.
    + apply (past_frame es _ s); try done; cbn; by destruct body.
    + destruct H as [H1 H2 H3 H4 H5]. constructor; cbn; [intros id Hp; by apply happened_more, H1|intros id E Hc; by apply happened_more, H2|by destruct body|by destruct body|].
      intros id _ Hc. assert (i = id) as -> by congruence. destruct (H4 id body ce Er). split; by apply happened_more.
  - destruct (r s) as [| | |i e ce| | |i alive ce|i alive ce| | |] eqn:Er; try done; (destruct (calls s !! i) as [c|]; [|done]); (destruct (q_phase c); try done); injection He as <-; apply (past_frame es _ s); try done; cbn; by destruct alive.
  - destruct (r s) as [| | |i e ce| | |i alive ce|i alive ce| | |] eqn:Er; try done; (destruct (calls s !! i) as [c|]; [|done]); (destruct (q_phase c); try done); injection He as <-; by apply (past_frame es _ s).
  - destruct (r s) as [| | | | | | | |i alive ce| |] eqn:Er; try done. injection He as <-. destruct H as [H1 H2 H3 H4 H5]. constructor; cbn.
    + intros id Hp. by apply happened_more, H1.
    + intros id E Hc. by apply happened_more, H2.
    + intros id b ce' Hr. destruct alive; [|done]. destruct reuse; [|done]. injection Hr as -> _ _. apply (happened_now es s); [done|]. right. by exists ce.
    + intros id b ce' Hr. by destruct (alive && reuse).
    + intros id Hl Hc. destruct (H5 id Hl Hc). split; by apply happened_more.
  - destruct (r s) as [| | | | | | | |i alive ce| |] eqn:Er; try done. injection He as <-. unfold cancelRequest. destruct (close_frame (Plain ErrRequestCanceled) (set_canceled (Some cause) s)) as ((E1&E2&E3&E4&E5&E6&E7) & _).
    apply (past_frame es _ s); cbn; rewrite ?E1, ?E2, ?E5, ?E6; done.
  - destruct (r s) as [| | | | | | | |i alive ce| |] eqn:Er; try done. destruct (closed s); [|done]. injection He as <-. by apply (past_frame es _ s).
  - destruct (r s) as [| | | | | | | | |ce|] eqn:Er; try done. injection He as <-. destruct (close_frame ce s) as ((E1&E2&E3&E4&E5&E6&E7) & _). apply (past_frame es _ s); cbn; rewrite ?E1, ?E2, ?E5, ?E6; done.
Qed.
Lemma run_snoc es e s0 s : run (es ++ [e]) s0 = Some s -> exists s1, run es s0 = Some s1 /\ exec e s1 = Some s.
Proof. revert s0. induction es as [|x es IH]; intros s0; cbn; [destruct (exec e s0) as [s1|] eqn:E; [intros [= <-]; by exists s0|done]|]. destruct (exec x s0); [apply IH|done]. Qed.
Lemma run_past es s : run es pc_init = Some s -> conn_ok s /\ past_ok es s.
Proof.
  revert s. induction es as [|e es IH] using rev_ind; intros s Hr; [injection Hr as <-; split; [apply pc_init_ok|constructor; try done; by intros id [?|?]]|].
  destruct (run_snoc _ _ _ _ Hr) as (s1 & H1 & He). destruct (IH s1 H1) as [Hok Hp]. split; [by eapply conn_event_ok|].
  destruct e; try (by eapply past_caller); try (by eapply past_writer); try (by eapply past_reader). cbn in He. injection He as <-. eapply past_same; [done|apply close_frame].
Qed.

(** C14: the requests of a connection do not mix. After every history of its goroutines: when the connection is lent, nothing waits
    in its channels, the write loop is not at any request, and the request of the last call was written whole, without an error, and answered
    whole: its response was read, and it has no body or its body was read to the end. While bytes of a request are written, and while a
    response is read, that request is the one of the call the connection was given to last, and the connection is not lent. And the sends
    of a new call, and the write loop's report of how a write ended, never block. *)
Theorem requests_do_not_mix es s : run es pc_init = Some s ->
  (lent s = true -> writech s = None /\ reqch s = None /\ werr s = None /\ (w s = WIdle \/ w s = WDone \/ exists j, w s = WReply j None) /\
    forall id, cur s = Some id -> happened es (write_whole id) /\ happened es (answer_whole id)) /\
  (forall id st, w s = WWriting id st -> cur s = Some id /\ lent s = false) /\
  (forall id, r s = RRead id -> cur s = Some id /\ lent s = false) /\
  (forall id c, calls s !! id = Some c -> (q_phase c = CEnter -> writech s = None) /\ (q_phase c = CSent -> reqch s = None)) /\
  (forall id e, w s = WPush id e -> werr s = None).
Proof.
  intros [H Hpast]%run_past. pose proof (ok_current s H) as Hcur. split; [|split; [|split; [|split]]].
  - intros El. assert (forall id, cur s = Some id -> happened es (write_whole id) /\ happened es (answer_whole id)) as Hlast by (intros id; by apply (pa_lent es s Hpast)).
    unfold current in Hcur. destruct (cur s) as [id|]; [|destruct Hcur as (_ & _ & ? & ? & ? & [?|?] & _); auto 8].
    destruct Hcur as (c & _ & _ & Hr & Hl). destruct (Hl (or_introl El)) as (? & ? & Hd). destruct Hr; try congruence. split; [done|]. split; [done|]. split; [done|]. split; [|done].
    destruct Hd as [[? _]|[?|?]]; [right; right; eauto|by left|by right; left].
  - intros id st Ew. destruct (writing_cur s id Hcur) as (? & c & _ & _ & _ & Hl & _); [left; eauto|]. split; [done|]. destruct (lent s) eqn:El; [|done]. exfalso. eapply not_returning; [|exact Hl|by left]. right; left. eauto.
  - intros id Er. destruct (busy_with_cur s id Hcur) as (? & c & _ & _ & _ & ? & _); [by rewrite Er|rewrite Er; by intros []|]. done.
  - intros id c Hc. split; intros Hp; (destruct (current_some s id Hcur) as (c' & Hc' & Hs & Hr & _); [apply (ck_cur s id c (ok_calls s H id c Hc)); unfold entering; auto|]); assert (c' = c) as -> by congruence.
    + by destruct Hs.
    + destruct Hr as [? Hen|? Hen|? Hen|? Hen]; try done; by destruct Hen; right.
  - intros id e Ew. destruct (writing_cur s id Hcur) as (_ & c & _ & _ & _ & _ & _ & Ee & _); [right; eauto|done].
Qed.

(** C38: no call hangs on a connection that was closed, whoever closed it (the server, a
    time-out, a cancelled request, the pool), nor one that already has its error. It has a rank, at most 17 and 0 only when it has
    returned, such that in every reachable state in which it has not returned one of the connection's own goroutines can take a step
    that lowers the rank, where that goroutine may be the write loop in the middle of a write, which has to come to its end
    (it is held up by a body whose [Read] blocks); and no step of anyone, whatever the interleaving, raises it, but for
    another call that starts to write its own request. *)
Theorem callers_come_back s id c : reachable s -> calls s !! id = Some c -> is_Some (closed s) \/ (exists e, q_phase c = CMap e) ->
  (rank id s <= 17)%nat /\ (rank id s = 0%nat <-> returned id s) /\
  (returned id s \/ exists e s', exec e s = Some s' /\ (rank id s' < rank id s)%nat /\ (own_step e = true \/ exists j st err, w s = WWriting j st /\ e = EWEnd err false)) /\
  (forall e s', exec e s = Some s' -> (forall j, e = EWriteSend j -> j = id) -> (rank id s' <= rank id s)%nat).
Proof.
  intros H%reachable_conn_ok Hc Hd. split; [apply rank_bound|]. split; [|split].
  - unfold rank, returned. rewrite Hc. destruct (q_phase c) as [| | | |x] eqn:Hp; cbn; (split; [|intros (c' & y & [= <-] & Hy); congruence]); try lia. intros _. by exists c, x.
  - by apply (call_lowers id s c).
  - intros e s' He Hother. eapply rank_step; [by exists c|exact He|done].
Qed.

(** ** Examples *)
Lemma conn_run_reachable es : forall s s', reachable s -> run es s = Some s' -> reachable s'.
Proof. induction es as [|e es IH]; intros s s' Hs; cbn; [by intros [= <-]|]. destruct (exec e s) as [s1|] eqn:E; [|done]. apply IH. by eapply ReachStep. Qed.
Definition ex_state (es : list event) : pconn_state := default pc_init (run es pc_init).
(** The server closes the idle connection while the request is being sent. *)
Definition ex_stale := [ENew 0; EWriteSend 0; EReqSend 0; EPeek (Some (fmt_Errorf "connection reset" [])) false; ETake; EDeliver; EExit; EWStop; ECMapped 0].
Definition ex_reuse := [ENew 0; EWriteSend 0; EReqSend 0; EWTake; EWBytes 10; EWEnd None false; EWPush; EPeek None false; ETake; ERead None true false false; EWrote false; EPut None].
Definition ex_wait := ex_reuse ++ [ENew 1; EWriteSend 1; EClose errTimeout].
Lemma ex_state_reached es : is_Some (run es pc_init) -> reachable (ex_state es).
Proof. intros [s Hs]. unfold ex_state. rewrite Hs. eapply conn_run_reachable; [apply ReachInit|exact Hs]. Qed.
Lemma nothing_written_is_true_witness : exists c e, reachable (ex_state ex_stale) /\ calls (ex_state ex_stale) !! 0%nat = Some c /\ q_phase c = CRet (Some (NothingWritten e)) /\ q_wrote c = 0.
Proof.
  assert (reachable (ex_state ex_stale)) as H by (apply ex_state_reached; vm_compute; eexists; reflexivity).
  destruct (calls (ex_state ex_stale) !! 0%nat) as [c|] eqn:Hc; [|vm_compute in Hc; discriminate Hc]. pose proof Hc as Hc'. vm_compute in Hc'. injection Hc' as <-.
  eexists _, _. split; [exact H|]. split; [reflexivity|]. split; [reflexivity|]. apply (nothing_written_is_true _ _ _ _ H Hc eq_refl).
Defined.
Lemma requests_do_not_mix_witness : exists s, run ex_reuse pc_init = Some s /\ lent s = true /\ writech s = None /\ happened ex_reuse (write_whole 0) /\ happened ex_reuse (answer_whole 0).
Proof.
  destruct (run ex_reuse pc_init) as [s|] eqn:E; [|vm_compute in E; discriminate E]. exists s. split; [reflexivity|]. pose proof E as E'. vm_compute in E'. injection E' as <-. split; [reflexivity|].
  destruct (requests_do_not_mix _ _ E) as [Hl _]. destruct (Hl eq_refl) as (H1 & _ & _ & _ & H2). split; [exact H1|]. exact (H2 0%nat eq_refl).
Defined.
Lemma callers_come_back_witness : reachable (ex_state ex_wait) /\ (rank 1 (ex_state ex_wait) = 9)%nat /\ exists e s', exec e (ex_state ex_wait) = Some s' /\ (rank 1 s' < 9)%nat.
Proof.
  assert (reachable (ex_state ex_wait)) as H by (apply ex_state_reached; vm_compute; eexists; reflexivity). split; [exact H|]. split; [vm_compute; reflexivity|].
  destruct (calls (ex_state ex_wait) !! 1%nat) as [c|] eqn:Hc; [|vm_compute in Hc; discriminate Hc].
  destruct (callers_come_back _ _ c H Hc) as (_ & [_ H0] & [Hr|(e & s' & He & Hlt & _)] & _); [left; vm_compute; eexists; reflexivity| |].
  - specialize (H0 Hr). vm_compute in H0. discriminate H0.
  - exists e, s'. split; [exact He|exact Hlt].
Defined.
