(* ===== verification/H3Frame.v ===== *)
(** * HTTP/3 frames ([src/internal/http3/frames.go])

    The receive side of a QUIC stream, the frame parser over it and the frames that are
    written. QUIC's variable-length integers ([quicvarint]) are a parameter with laws; an
    instance written from RFC 9000 shows that the laws can hold. *)

From S2P Require Import Prelude.
From S2P Require Import H2Errors.
From S2P Require Import NetText.

(** ** Variable-length integers *)
Definition varint_max : Z := 2 ^ 62.
(** [qv_Read p e]: reading from a stream with the bytes [p] and then the error [e]. *)
Class QuicVarint := {
  qv_Append : Z -> bytes;
  qv_Len : Z -> Z;
  qv_Read : bytes -> error -> result error (Z * bytes) }.
Class QuicVarintOk `{QuicVarint} := {
  qv_length v : 0 <= v < varint_max -> len (qv_Append v) = qv_Len v /\ 1 <= qv_Len v <= 8;
  qv_read_append v r e : 0 <= v < varint_max -> qv_Read (qv_Append v ++ r) e = Ok (v, r);
  qv_read_prefix p e v r : qv_Read p e = Ok (v, r) -> 0 <= v < varint_max /\ exists q, p = q ++ r /\ 1 <= len q <= 8;
  qv_read_error p e x : qv_Read p e = Err x -> x = e \/ (e = io_EOF /\ x = io_ErrUnexpectedEOF);
  qv_read_nil e : qv_Read [] e = Err e }.

(** RFC 9000, section 16: the two most significant bits of the first byte are the logarithm
    of the length. *)
Definition rfc_class (v : Z) : Z := if v <? 64 then 0 else if v <? 16384 then 1 else if v <? 1073741824 then 2 else 3.
Fixpoint be_bytes (n : nat) (v : Z) : bytes := match n with O => [] | S n => be_bytes n (v / 256) ++ [v mod 256] end.
Definition be_value (p : bytes) : Z := fold_left (fun acc b => acc * 256 + b) p 0.
Definition rfc_len (v : Z) : Z := 2 ^ rfc_class v.
Definition rfc_Append (v : Z) : bytes := be_bytes (Z.to_nat (rfc_len v)) (rfc_class v * 2 ^ (8 * rfc_len v - 2) + v).
Definition rfc_Read (p : bytes) (e : error) : result error (Z * bytes) :=
  match p with
  | [] => Err e
  | b :: _ =>
      let n := 2 ^ (b / 64) in
      if negb ((0 <=? b) && (b <? 256)) then Err e
      else if n <=? len p then Ok (be_value (slice_to p n) mod 2 ^ (8 * n - 2), slice_from p n) else Err e
  end.
#[export] Instance rfc_varint : QuicVarint := { qv_Append := rfc_Append; qv_Len := rfc_len; qv_Read := rfc_Read }.

(** ** The receive side of a stream *)
(** The segments a reader gets, the error after them, and whether the last bytes come
    together with that error. *)
Record qstream := mkQ { q_in : list bytes; q_end : error; q_eager : bool }.
Definition q_content (s : qstream) : bytes := concat (q_in s).
Definition q_set (s : qstream) (l : list bytes) : qstream := mkQ l (q_end s) (q_eager s).
Definition q_Read (s : qstream) (k : Z) : bytes * option error * qstream :=
  match q_in s with
  | [] => ([], Some (q_end s), s)
  | seg :: rest =>
      let rest := if len seg <=? k then rest else slice_from seg k :: rest in
      (slice_to seg k, if q_eager s && bool_decide (rest = []) then Some (q_end s) else None, q_set s rest)
  end.
Fixpoint drop_segs (n : Z) (l : list bytes) : list bytes :=
  match l with [] => [] | seg :: l => if len seg <=? n then drop_segs (n - len seg) l else slice_from seg n :: l end.
Definition q_drop (s : qstream) (n : Z) : qstream := q_set s (drop_segs n (q_in s)).
(** [io.ReadFull] and [io.CopyN(io.Discard, ...)] *)
Definition q_ReadFull (s : qstream) (n : Z) : result error bytes * qstream :=
  if n <=? len (q_content s) then (Ok (slice_to (q_content s) n), q_drop s n)
  else (Err (if (0 <? len (q_content s)) && bool_decide (q_end s = io_EOF) then io_ErrUnexpectedEOF else q_end s), q_set s []).
Definition q_Discard (s : qstream) (n : Z) : option error * qstream :=
  if n <=? len (q_content s) then (None, q_drop s n) else (Some (q_end s), q_set s []).

(** ** Frames *)
Definition settingMaxFieldSectionSize : Z := 6.
Definition settingExtendedConnect : Z := 8.
Definition settingDatagram : Z := 51.
(** A nil [Other] is the empty map. *)
Record settingsFrame := mkSettings { MaxFieldSectionSize : Z; Datagram : bool; ExtendedConnect : bool; Other : gmap Z Z }.
Inductive frame := dataFrame (Length : Z) | headersFrame (Length headerLen : Z) | settings (f : settingsFrame) | goAwayFrame (StreamID : Z).
Definition errHijacked : error := errors_New "hijacked".
Definition duplicate_setting (id : Z) : error := fmt_Errorf "duplicate setting: %d" [format_dec id].
Definition ErrCodeFrameUnexpected : Z := 261.

Section Frames.
Context `{QuicVarint}.
(** [quicvarint.Read] on the stream; the number of bytes read. *)
Definition q_varint (s : qstream) : result error (Z * Z) * qstream :=
  match qv_Read (q_content s) (q_end s) with
  | Ok (v, r) => let n := len (q_content s) - len r in (Ok (v, n), q_drop s n)
  | Err e => (Err e, q_set s [])
  end.

(** The settings read so far, and which of the known ones were among them. *)
Record settings_state := mkSt { st_f : settingsFrame; st_max : bool; st_ext : bool; st_dg : bool }.
Definition settings_start : settings_state := mkSt (mkSettings (-1) false false ∅) false false false.
Definition add_setting (st : settings_state) (id val : Z) : result error settings_state :=
  let f := st_f st in
  if id =? settingMaxFieldSectionSize then
    if st_max st then Err (duplicate_setting id)
    else Ok (mkSt (mkSettings val (Datagram f) (ExtendedConnect f) (Other f)) true (st_ext st) (st_dg st))
  else if id =? settingExtendedConnect then
    if st_ext st then Err (duplicate_setting id)
    else if negb (val =? 0) && negb (val =? 1) then Err (fmt_Errorf "invalid value for SETTINGS_ENABLE_CONNECT_PROTOCOL: %d" [format_dec val])
    else Ok (mkSt (mkSettings (MaxFieldSectionSize f) (Datagram f) (val =? 1) (Other f)) (st_max st) true (st_dg st))
  else if id =? settingDatagram then
    if st_dg st then Err (duplicate_setting id)
    else if negb (val =? 0) && negb (val =? 1) then Err (fmt_Errorf "invalid value for SETTINGS_H3_DATAGRAM: %d" [format_dec val])
    else Ok (mkSt (mkSettings (MaxFieldSectionSize f) (val =? 1) (ExtendedConnect f) (Other f)) (st_max st) (st_ext st) true)
  else match Other f !! id with
       | Some _ => Err (duplicate_setting id)
       | None => Ok (mkSt (mkSettings (MaxFieldSectionSize f) (Datagram f) (ExtendedConnect f) (<[id := val]> (Other f))) (st_max st) (st_ext st) (st_dg st))
       end.
Fixpoint settings_loop (fuel : nat) (b : bytes) (st : settings_state) : option (result error settingsFrame) :=
  match fuel with
  | O => None
  | S fuel =>
      if bool_decide (b = []) then Some (Ok (st_f st)) else
      match qv_Read b io_EOF with
      | Err e => Some (Err e)
      | Ok (id, b) =>
          match qv_Read b io_EOF with
          | Err e => Some (Err e)
          | Ok (val, b) => match add_setting st id val with Err e => Some (Err e) | Ok st => settings_loop fuel b st end
          end
      end
  end.
Definition parseSettingsFrame (s : qstream) (l : Z) : option (result error settingsFrame * qstream) :=
  if 8 * 1024 <? l then Some (Err (fmt_Errorf "unexpected size for SETTINGS frame: %d" [format_dec l]), s) else
  match q_ReadFull s l with
  | (Err e, s) => Some (Err (if bool_decide (e = io_ErrUnexpectedEOF) then io_EOF else e), s)
  | (Ok buf, s) => match settings_loop (S (length buf)) buf settings_start with Some r => Some (r, s) | None => None end
  end.
Definition parseGoAwayFrame (s : qstream) (l : Z) : result error Z * qstream :=
  match q_varint s with
  | (Err e, s) => (Err e, s)
  | (Ok (id, n), s) => (if negb (n =? l) then Err (errors_New "GOAWAY frame: inconsistent length") else Ok id, s)
  end.

(** [ParseNext]: the frame or the error, the rest of the stream, and the code the connection
    is closed with, if it is. [handler] is [unknownFrameHandler]. *)
Record parse_result := mkParsed { pr_frame : result error frame; pr_rest : qstream; pr_close : option Z }.
Definition handled (handler : option (Z -> option error -> bool * option error)) (t : Z) (e : option error) : option error :=
  match handler with
  | None => None
  | Some f => match f t e with (_, Some e) => Some e | (true, None) => Some errHijacked | (false, None) => None end
  end.
Fixpoint ParseNext_loop (handler : option (Z -> option error -> bool * option error)) (fuel : nat) (s : qstream) : option parse_result :=
  match fuel with
  | O => None
  | S fuel =>
      match q_varint s with
      | (Err e, s) => Some (mkParsed (Err (default e (handled handler 0 (Some e)))) s None)
      | (Ok (t, n1), s) =>
          match (if 13 <? t then handled handler t None else None) with
          | Some e => Some (mkParsed (Err e) s None)
          | None =>
              match q_varint s with
              | (Err e, s) => Some (mkParsed (Err e) s None)
              | (Ok (l, n2), s) =>
                  if t =? 0 then Some (mkParsed (Ok (dataFrame l)) s None)
                  else if t =? 1 then Some (mkParsed (Ok (headersFrame l (n1 + n2))) s None)
                  else if t =? 4 then
                    match parseSettingsFrame s l with
                    | None => None
                    | Some (Ok f, s) => Some (mkParsed (Ok (settings f)) s None)
                    | Some (Err e, s) => Some (mkParsed (Err e) s None)
                    end
                  else if t =? 7 then
                    match parseGoAwayFrame s l with
                    | (Ok id, s) => Some (mkParsed (Ok (goAwayFrame id)) s None)
                    | (Err e, s) => Some (mkParsed (Err e) s None)
                    end
                  else if (t =? 2) || (t =? 6) || (t =? 8) || (t =? 9) then
                    Some (mkParsed (Err (fmt_Errorf "http3: reserved frame type: %d" [format_dec t])) s (Some ErrCodeFrameUnexpected))
                  else
                    match q_Discard s l with
                    | (Some e, s) => Some (mkParsed (Err e) s None)
                    | (None, s) => ParseNext_loop handler fuel s
                    end
              end
          end
      end
  end.
Definition ParseNext (handler : option (Z -> option error -> bool * option error)) (s : qstream) : option parse_result :=
  ParseNext_loop handler (S (length (q_content s))) s.

(** ** Writing *)
Definition dataFrame_Append (l : Z) : bytes := qv_Append 0 ++ qv_Append l.
Definition headersFrame_Append (l : Z) : bytes := qv_Append 1 ++ qv_Append l.
Definition pair_len (kv : Z * Z) : Z := qv_Len kv.1 + qv_Len kv.2.
Definition append_pair (kv : Z * Z) : bytes := qv_Append kv.1 ++ qv_Append kv.2.
(** [others]: the entries of [Other] in the order in which they are visited. *)
Definition settingsFrame_Append (f : settingsFrame) (others : list (Z * Z)) : bytes :=
  let l := (if 0 <=? MaxFieldSectionSize f then pair_len (settingMaxFieldSectionSize, MaxFieldSectionSize f) else 0)
           + fold_right (fun kv n => pair_len kv + n) 0 (map_to_list (Other f))
           + (if Datagram f then pair_len (settingDatagram, 1) else 0)
           + (if ExtendedConnect f then pair_len (settingExtendedConnect, 1) else 0) in
  qv_Append 4 ++ qv_Append l
  ++ (if 0 <=? MaxFieldSectionSize f then append_pair (settingMaxFieldSectionSize, MaxFieldSectionSize f) else [])
  ++ (if Datagram f then append_pair (settingDatagram, 1) else [])
  ++ (if ExtendedConnect f then append_pair (settingExtendedConnect, 1) else [])
  ++ concat (append_pair <$> others).
Definition goAwayFrame_Append (id : Z) : bytes := qv_Append 7 ++ qv_Append (qv_Len id) ++ qv_Append id.
End Frames.

(** ** The stream *)
(** [s'] is what is left of [s] after the bytes [p]. *)
Definition segs_ok (s : qstream) : Prop := Forall (fun seg => seg <> []) (q_in s).
Definition left_after (p : bytes) (s s' : qstream) : Prop := q_content s = p ++ q_content s' /\ q_end s' = q_end s /\ q_eager s' = q_eager s /\ (segs_ok s -> segs_ok s').
Lemma left_refl s : left_after [] s s. Proof. done. Qed.
Lemma left_trans p q s1 s2 s3 : left_after p s1 s2 -> left_after q s2 s3 -> left_after (p ++ q) s1 s3.
Proof. intros (C1 & E1 & F1 & O1) (C2 & E2 & F2 & O2). split; [by rewrite C1, C2, app_assoc|]. split; [congruence|]. split; [congruence|auto]. Qed.
Lemma drop_segs_spec l : forall n, 0 <= n -> concat (drop_segs n l) = slice_from (concat l) n /\ (Forall (fun seg => seg <> []) l -> Forall (fun seg => seg <> []) (drop_segs n l)).
Proof.
  induction l as [|seg l IH]; intros n Hn; cbn [drop_segs concat]; [unfold slice_from; rewrite drop_nil; by split|]. unfold slice_from, len in *. destruct (Z.leb_spec (Z.of_nat (length seg)) n).
  - destruct (IH (n - Z.of_nat (length seg)) ltac:(lia)) as [E O]. split; [|intros [_ H1]%Forall_cons; auto].
    rewrite E, drop_app_ge by lia. f_equal. lia.
  - split; [cbn; rewrite drop_app_le by lia; done|]. intros [_ H1]%Forall_cons. constructor; [|done]. intros E%(f_equal length). rewrite length_drop in E. cbn in E. lia.
Qed.
Lemma left_drop p s r : q_content s = p ++ r -> left_after p s (q_drop s (len p)) /\ q_content (q_drop s (len p)) = r.
Proof.
  intros E. destruct (drop_segs_spec (q_in s) (len p) (len_nonneg p)) as [C O]. unfold q_content in *. cbn. rewrite C, E, slice_from_app by done. split; [|done].
  split; [|split; [done|split; [done|exact O]]]. unfold q_content. cbn. by rewrite C, E, slice_from_app.
Qed.
Lemma q_ReadFull_ok p s r : q_content s = p ++ r -> exists s', q_ReadFull s (len p) = (Ok p, s') /\ left_after p s s' /\ q_content s' = r.
Proof.
  intros E. unfold q_ReadFull. pose proof (len_nonneg r). rewrite E, len_app, (proj2 (Z.leb_le (len p) (len p + len r))) by lia. rewrite slice_to_app by done.
  eexists. split; [reflexivity|]. by apply left_drop.
Qed.
Lemma q_Discard_ok p s r : q_content s = p ++ r -> exists s', q_Discard s (len p) = (None, s') /\ left_after p s s' /\ q_content s' = r.
Proof.
  intros E. unfold q_Discard. pose proof (len_nonneg r). rewrite E, len_app, (proj2 (Z.leb_le (len p) (len p + len r))) by lia.
  eexists. split; [reflexivity|]. by apply left_drop.
Qed.
(** What is left of a stream. *)
Definition suffix_of (s s' : qstream) : Prop := exists p, left_after p s s'.
Lemma suffix_refl s : suffix_of s s. Proof. exists []. apply left_refl. Qed.
Lemma suffix_trans s1 s2 s3 : suffix_of s1 s2 -> suffix_of s2 s3 -> suffix_of s1 s3.
Proof. intros [p H1] [q H2]. exists (p ++ q). by eapply left_trans. Qed.
Lemma suffix_empty s : suffix_of s (q_set s []).
Proof. exists (q_content s). split; [by rewrite app_nil_r|]. split; [done|]. split; [done|]. intros _. constructor. Qed.
Lemma suffix_drop s n : 0 <= n <= len (q_content s) -> suffix_of s (q_drop s n).
Proof. intros Hn. exists (slice_to (q_content s) n). rewrite <- (len_slice_to (q_content s) n Hn) at 2. eapply left_drop. symmetry. apply slice_to_from. Qed.
Lemma suffix_length s s' : suffix_of s s' -> (length (q_content s') <= length (q_content s))%nat.
Proof. intros [p (E & _)]. rewrite E, length_app. lia. Qed.
Lemma q_ReadFull_suffix s n : 0 <= n -> suffix_of s (q_ReadFull s n).2.
Proof. intros Hn. unfold q_ReadFull. destruct (Z.leb_spec n (len (q_content s))); cbn; [by apply suffix_drop|apply suffix_empty]. Qed.
Lemma q_Discard_suffix s n : 0 <= n -> suffix_of s (q_Discard s n).2.
Proof. intros Hn. unfold q_Discard. destruct (Z.leb_spec n (len (q_content s))); cbn; [by apply suffix_drop|apply suffix_empty]. Qed.

(** ** Reading frames *)
Section FrameProofs.
Context `{QuicVarintOk}.
Lemma q_varint_ok v s r : 0 <= v < varint_max -> q_content s = qv_Append v ++ r -> exists s', q_varint s = (Ok (v, qv_Len v), s') /\ left_after (qv_Append v) s s' /\ q_content s' = r.
Proof.
  intros Hv E. unfold q_varint. rewrite E, qv_read_append by done. destruct (qv_length v Hv) as [El _]. rewrite len_app, Z.add_simpl_r, El. eexists. split; [reflexivity|]. rewrite <- El. by apply left_drop.
Qed.
Lemma q_varint_suffix s : suffix_of s (q_varint s).2 /\ match (q_varint s).1 with Ok (v, n) => 0 <= v < varint_max /\ (length (q_content (q_varint s).2) < length (q_content s))%nat | Err _ => True end.
Proof.
  unfold q_varint. destruct (qv_Read (q_content s) (q_end s)) as [[v r]|e] eqn:E; cbn [fst snd]; [|split; [apply suffix_empty|done]].
  apply qv_read_prefix in E as [Hv (q & E & Hq)]. assert (len (q_content s) - len r = len q) as -> by (rewrite E, len_app; lia).
  destruct (left_drop q s r E) as [L C]. split; [by exists q|]. split; [done|]. rewrite C, E, length_app. unfold len in Hq. lia.
Qed.

(** *** Settings *)
Fixpoint add_settings (kvs : list (Z * Z)) (st : settings_state) : result error settings_state :=
  match kvs with [] => Ok st | kv :: kvs => match add_setting st kv.1 kv.2 with Err e => Err e | Ok st => add_settings kvs st end end.
Definition varint_ok (v : Z) : Prop := 0 <= v < varint_max.
Definition pair_ok (kv : Z * Z) : Prop := varint_ok kv.1 /\ varint_ok kv.2.
Lemma len_append_pair kv : pair_ok kv -> len (append_pair kv) = pair_len kv /\ 2 <= pair_len kv.
Proof. intros [H1 H2]. unfold append_pair, pair_len. rewrite len_app. destruct (qv_length _ H1), (qv_length _ H2). lia. Qed.
Lemma settings_loop_pairs kvs : Forall pair_ok kvs -> forall fuel st, (length (concat (append_pair <$> kvs)) < fuel)%nat ->
  settings_loop fuel (concat (append_pair <$> kvs)) st = Some (match add_settings kvs st with Ok st => Ok (st_f st) | Err e => Err e end).
Proof.
  induction 1 as [|kv kvs Hkv _ IH]; intros [|fuel] st Hf; cbn in *; try lia; [done|]. destruct (len_append_pair kv Hkv) as [E E2]. rewrite length_app in Hf. unfold len in E.
  rewrite bool_decide_false. 2:{ intros [E0 _]%app_nil. rewrite E0 in E. cbn in E. lia. }
  unfold append_pair at 1. destruct Hkv. rewrite <- app_assoc, qv_read_append, qv_read_append by done. destruct (add_setting st kv.1 kv.2); [|done]. apply IH. lia.
Qed.
Lemma add_settings_app kvs1 kvs2 st : add_settings (kvs1 ++ kvs2) st = match add_settings kvs1 st with Ok st => add_settings kvs2 st | Err e => Err e end.
Proof. revert st. induction kvs1 as [|kv kvs1 IH]; intros st; cbn; [done|]. destruct (add_setting st kv.1 kv.2); [apply IH|done]. Qed.
Definition known_setting (id : Z) : Prop := id = settingMaxFieldSectionSize \/ id = settingExtendedConnect \/ id = settingDatagram.
Lemma add_settings_others others : NoDup others.*1 -> Forall (fun kv => ~ known_setting kv.1) others ->
  forall st, Forall (fun kv => Other (st_f st) !! kv.1 = None) others ->
  add_settings others st = Ok (mkSt (mkSettings (MaxFieldSectionSize (st_f st)) (Datagram (st_f st)) (ExtendedConnect (st_f st)) (list_to_map others ∪ Other (st_f st))) (st_max st) (st_ext st) (st_dg st)).
Proof.
  induction others as [|[k v] others IH]; intros Hnd Hk st Hf; [cbn; rewrite map_empty_union; by destruct st as [[] ? ? ?]|].
  apply NoDup_cons in Hnd as [Hn Hnd]. apply Forall_cons in Hk as [Hk1 Hk]. apply Forall_cons in Hf as [Hf1 Hf]. cbn [add_settings fst snd] in Hk1, Hf1 |- *. change (NoDup others.*1) in Hnd. change (k ∉ others.*1) in Hn.
  assert (add_setting st k v = Ok (mkSt (mkSettings (MaxFieldSectionSize (st_f st)) (Datagram (st_f st)) (ExtendedConnect (st_f st)) (<[k := v]> (Other (st_f st)))) (st_max st) (st_ext st) (st_dg st))) as ->.
  { unfold known_setting in Hk1. unfold add_setting. destruct (Z.eqb_spec k settingMaxFieldSectionSize); [tauto|]. destruct (Z.eqb_spec k settingExtendedConnect); [tauto|]. destruct (Z.eqb_spec k settingDatagram); [tauto|]. by rewrite Hf1. }
  rewrite IH; [|done|done|].
  - cbn. do 3 f_equal. apply map_eq. intros i. destruct (decide (i = k)) as [->|Hi].
    + assert (list_to_map others !! k = @None Z) as E by by apply not_elem_of_list_to_map. rewrite lookup_union, E, lookup_union, lookup_insert_eq, lookup_insert_eq. rewrite Hf1. done.
    + rewrite !lookup_union, !lookup_insert_ne by done. done.
  - rewrite Forall_forall in Hf |- *. intros [k' v'] Hin. cbn. rewrite lookup_insert_ne; [by apply (Hf (k', v'))|]. intros <-. apply Hn. apply list_elem_of_fmap. by exists (k, v').
Qed.
Record settings_ok (f : settingsFrame) : Prop := {
  sok_max : MaxFieldSectionSize f = -1 \/ varint_ok (MaxFieldSectionSize f);
  sok_other : map_Forall (fun k v => pair_ok (k, v) /\ ~ known_setting k) (Other f) }.
Definition settings_pairs (f : settingsFrame) (others : list (Z * Z)) : list (Z * Z) :=
  (if 0 <=? MaxFieldSectionSize f then [(settingMaxFieldSectionSize, MaxFieldSectionSize f)] else [])
  ++ (if Datagram f then [(settingDatagram, 1)] else []) ++ (if ExtendedConnect f then [(settingExtendedConnect, 1)] else []) ++ others.
Definition pairs_len (kvs : list (Z * Z)) : Z := fold_right (fun kv n => pair_len kv + n) 0 kvs.
Lemma pairs_len_app kvs1 kvs2 : pairs_len (kvs1 ++ kvs2) = pairs_len kvs1 + pairs_len kvs2.
Proof. unfold pairs_len. induction kvs1; cbn; lia. Qed.
Lemma pairs_len_perm kvs1 kvs2 : kvs1 ≡ₚ kvs2 -> pairs_len kvs1 = pairs_len kvs2.
Proof. unfold pairs_len. induction 1; cbn; lia. Qed.
Lemma len_pairs kvs : Forall pair_ok kvs -> len (concat (append_pair <$> kvs)) = pairs_len kvs.
Proof. induction 1 as [|kv kvs Hkv _ IH]; [done|]. cbn. rewrite len_app, IH. by destruct (len_append_pair kv Hkv) as [-> _]. Qed.
Lemma settings_Append_pairs f others : others ≡ₚ map_to_list (Other f) ->
  settingsFrame_Append f others = qv_Append 4 ++ qv_Append (pairs_len (settings_pairs f others)) ++ concat (append_pair <$> settings_pairs f others).
Proof.
  intros Hp. unfold settingsFrame_Append, settings_pairs. f_equal. f_equal.
  - f_equal. rewrite !pairs_len_app. rewrite (pairs_len_perm others _ Hp). unfold pairs_len. destruct (0 <=? _), (Datagram f), (ExtendedConnect f); cbn; lia.
  - rewrite !fmap_app, !concat_app. f_equal; [destruct (0 <=? _); cbn; by rewrite ?app_nil_r|]. f_equal; [destruct (Datagram f); cbn; by rewrite ?app_nil_r|]. f_equal. destruct (ExtendedConnect f); cbn; by rewrite ?app_nil_r.
Qed.
Lemma settings_pairs_ok f others : settings_ok f -> others ≡ₚ map_to_list (Other f) -> Forall pair_ok (settings_pairs f others).
Proof.
  intros [Hm Ho] Hp. assert (forall k v, known_setting k -> varint_ok v -> pair_ok (k, v)) as K. { intros k v Hk Hv. split; [|done]. destruct Hk as [-> |[-> | ->]]; split; vm_compute; congruence. }
  unfold settings_pairs. rewrite !Forall_app. split; [destruct (Z.leb_spec 0 (MaxFieldSectionSize f)); [|done]; constructor; [|done]; apply K; [by left|]; destruct Hm; [lia|done]|].
  split; [destruct (Datagram f); [|done]; constructor; [|done]; apply K; [by right; right|done]|]. split; [destruct (ExtendedConnect f); [|done]; constructor; [|done]; apply K; [by right; left|done]|].
  apply Forall_forall. intros [k v] Hin. rewrite Hp in Hin. apply elem_of_map_to_list in Hin. by destruct (Ho k v Hin).
Qed.
Lemma settings_pairs_read f others : settings_ok f -> others ≡ₚ map_to_list (Other f) -> exists st, add_settings (settings_pairs f others) settings_start = Ok st /\ st_f st = f.
Proof.
  intros [Hm Ho] Hp. unfold settings_pairs.
  assert (NoDup others.*1) as Hnd by (rewrite Hp; apply NoDup_fst_map_to_list).
  assert (list_to_map others = Other f) as Hmap by (rewrite <- (list_to_map_to_list (Other f)); by apply list_to_map_proper).
  assert (Forall (fun kv => ~ known_setting kv.1) others) as Hk. { apply Forall_forall. intros [k v] Hin. rewrite Hp in Hin. apply elem_of_map_to_list in Hin. by destruct (Ho k v Hin). }
  assert (forall st, Other (st_f st) = ∅ -> Forall (fun kv => Other (st_f st) !! kv.1 = None) others) as Hf. { intros st ->. apply Forall_forall. intros kv _. apply lookup_empty. }
  destruct f as [m d x o]. cbn [MaxFieldSectionSize Datagram ExtendedConnect Other] in *.
  eassert (add_settings (if 0 <=? m then [(settingMaxFieldSectionSize, m)] else []) settings_start = Ok (mkSt (mkSettings m false false ∅) _ false false)) as E1.
  { instantiate (1 := (0 <=? m)). destruct (Z.leb_spec 0 m); [reflexivity|]. destruct Hm as [-> |[? _]]; [reflexivity|lia]. }
  assert (add_settings (if d then [(settingDatagram, 1)] else []) (mkSt (mkSettings m false false ∅) (0 <=? m) false false) = Ok (mkSt (mkSettings m d false ∅) (0 <=? m) false d)) as E2 by (destruct d; reflexivity).
  assert (add_settings (if x then [(settingExtendedConnect, 1)] else []) (mkSt (mkSettings m d false ∅) (0 <=? m) false d) = Ok (mkSt (mkSettings m d x ∅) (0 <=? m) x d)) as E3 by (destruct x; reflexivity).
  rewrite add_settings_app, E1; cbv iota; rewrite add_settings_app, E2; cbv iota; rewrite add_settings_app, E3; cbv iota; rewrite add_settings_others by first [done|by apply Hf]. eexists. split; [reflexivity|]. cbn. by rewrite map_union_empty, Hmap.
Qed.

(** *** What is written is read back *)
(** The bytes of a frame, up to its payload where the parser leaves that to its caller. *)
Inductive frame_wire : frame -> bytes -> Prop :=
| wire_data l : varint_ok l -> frame_wire (dataFrame l) (dataFrame_Append l)
| wire_headers l : varint_ok l -> frame_wire (headersFrame l (qv_Len 1 + qv_Len l)) (headersFrame_Append l)
| wire_settings f others : settings_ok f -> others ≡ₚ map_to_list (Other f) -> pairs_len (settings_pairs f others) <= 8192 -> frame_wire (settings f) (settingsFrame_Append f others)
| wire_goaway id : varint_ok id -> frame_wire (goAwayFrame id) (goAwayFrame_Append id).
(** Frames that are skipped: those that are not supported and those that are not known. *)
Definition skipped_type (t : Z) : Prop := varint_ok t /\ t ∉ [0; 1; 2; 4; 6; 7; 8; 9].
Definition skipped_wire (f : Z * bytes) : bytes := qv_Append f.1 ++ qv_Append (len f.2) ++ f.2.
Definition skipped_ok (f : Z * bytes) : Prop := skipped_type f.1 /\ len f.2 < varint_max.
Lemma small_varint v : 0 <= v <= 8192 -> varint_ok v. Proof. unfold varint_ok, varint_max. lia. Qed.
Lemma ParseNext_skips l : Forall skipped_ok l -> forall fuel s r, (length (q_content s) < fuel)%nat -> q_content s = concat (skipped_wire <$> l) ++ r ->
  exists fuel' s', ParseNext_loop None fuel s = ParseNext_loop None fuel' s' /\ (length (q_content s') < fuel')%nat /\ q_content s' = r /\ left_after (concat (skipped_wire <$> l)) s s'.
Proof.
  induction 1 as [|[t p] l [[Ht Hn] Hp] _ IH]; intros fuel s r Hf E; [exists fuel, s; do 3 (split; [done|]); apply left_refl|].
  destruct fuel as [|fuel]; [lia|]. cbn [fmap list_fmap concat] in *. unfold skipped_wire at 1 in E. cbn [fst snd] in *. rewrite <- !app_assoc in E.
  destruct (q_varint_ok t s _ Ht E) as (s1 & E1 & L1 & C1). destruct (q_varint_ok (len p) s1 _ (conj (len_nonneg p) Hp) C1) as (s2 & E2 & L2 & C2).
  destruct (q_Discard_ok p s2 _ C2) as (s3 & E3 & L3 & C3).
  pose proof (left_trans _ _ _ _ _ L1 (left_trans _ _ _ _ _ L2 L3)) as L.
  destruct (IH fuel s3 r) as (fuel' & s' & E4 & Hf' & C4 & L4); [|done|].
  { destruct L as (EL & _). apply (f_equal length) in EL. rewrite !length_app in EL. destruct (qv_length t Ht) as [El1 El2]. unfold len in El1. lia. }
  exists fuel', s'. split; [|split; [done|split; [done|]]].
  - cbn [ParseNext_loop]. rewrite E1. cbn [handled]. rewrite E2, E3. rewrite !not_elem_of_cons in Hn. destruct Hn as (? & ? & ? & ? & ? & ? & ? & ? & _).
    rewrite (proj2 (Z.eqb_neq t 0)), (proj2 (Z.eqb_neq t 1)), (proj2 (Z.eqb_neq t 4)), (proj2 (Z.eqb_neq t 7)), (proj2 (Z.eqb_neq t 2)), (proj2 (Z.eqb_neq t 6)), (proj2 (Z.eqb_neq t 8)), (proj2 (Z.eqb_neq t 9)) by done. cbn [orb]. destruct (13 <? t); exact E4.
  - eapply left_trans; [exact L|exact L4].
Qed.
Lemma parseSettingsFrame_ok f others s r : settings_ok f -> others ≡ₚ map_to_list (Other f) -> pairs_len (settings_pairs f others) <= 8192 ->
  q_content s = concat (append_pair <$> settings_pairs f others) ++ r -> exists s', parseSettingsFrame s (pairs_len (settings_pairs f others)) = Some (Ok f, s') /\ left_after (concat (append_pair <$> settings_pairs f others)) s s' /\ q_content s' = r.
Proof.
  intros Hf Hp Hl E. pose proof (settings_pairs_ok f others Hf Hp) as Hok. destruct (settings_pairs_read f others Hf Hp) as (st & Est & Ef).
  unfold parseSettingsFrame. rewrite (proj2 (Z.ltb_ge _ _)) by lia. rewrite <- (len_pairs _ Hok). destruct (q_ReadFull_ok _ s r E) as (s' & -> & L & C).
  exists s'. rewrite settings_loop_pairs by (done || lia). rewrite Est, Ef. by split.
Qed.
Lemma ParseNext_frame fr p s r fuel : frame_wire fr p -> (length (q_content s) < fuel)%nat -> q_content s = p ++ r ->
  exists s', ParseNext_loop None fuel s = Some (mkParsed (Ok fr) s' None) /\ left_after p s s' /\ q_content s' = r.
Proof.
  intros Hw Hf E. destruct fuel as [|fuel]; [lia|]. cbn [ParseNext_loop handled].
  assert (forall t, 0 <= t < 10 -> varint_ok t) as Ht by (unfold varint_ok, varint_max; lia).
  destruct Hw as [l Hl|l Hl|f others Hok Hp Hlen|id Hid].
  - unfold dataFrame_Append in *. rewrite <- app_assoc in E. destruct (q_varint_ok 0 s _ (Ht 0 ltac:(lia)) E) as (s1 & -> & L1 & C1). destruct (q_varint_ok l s1 _ Hl C1) as (s2 & E2 & L2 & C2).
    cbn. rewrite E2. exists s2. split; [done|]. split; [by eapply left_trans|done].
  - unfold headersFrame_Append in *. rewrite <- app_assoc in E. destruct (q_varint_ok 1 s _ (Ht 1 ltac:(lia)) E) as (s1 & -> & L1 & C1). destruct (q_varint_ok l s1 _ Hl C1) as (s2 & E2 & L2 & C2).
    cbn. rewrite E2. exists s2. split; [done|]. split; [by eapply left_trans|done].
  - rewrite settings_Append_pairs in * by done. rewrite <- !app_assoc in E. destruct (q_varint_ok 4 s _ (Ht 4 ltac:(lia)) E) as (s1 & -> & L1 & C1).
    pose proof (settings_pairs_ok f others Hok Hp) as Hpo. assert (varint_ok (pairs_len (settings_pairs f others))) as Hv. { apply small_varint. split; [|done]. rewrite <- len_pairs by done. apply len_nonneg. }
    destruct (q_varint_ok _ s1 _ Hv C1) as (s2 & E2 & L2 & C2). destruct (parseSettingsFrame_ok f others s2 r Hok Hp Hlen C2) as (s3 & E3 & L3 & C3).
    cbn. rewrite E2. cbn. rewrite E3. exists s3. split; [done|]. split; [|done]. eapply left_trans; [exact L1|]. by eapply left_trans.
  - unfold goAwayFrame_Append in *. rewrite <- !app_assoc in E. destruct (q_varint_ok 7 s _ (Ht 7 ltac:(lia)) E) as (s1 & -> & L1 & C1). destruct (qv_length id Hid) as [_ Hl].
    assert (varint_ok (qv_Len id)) as Hv by (apply small_varint; lia). destruct (q_varint_ok (qv_Len id) s1 _ Hv C1) as (s2 & E2 & L2 & C2). destruct (q_varint_ok id s2 _ Hid C2) as (s3 & E3 & L3 & C3).
    cbn. rewrite E2. cbn. unfold parseGoAwayFrame. rewrite E3, Z.eqb_refl. exists s3. split; [done|]. split; [|done]. eapply left_trans; [exact L1|]. by eapply left_trans.
Qed.

(** The frames that are written are read back: whatever frames of other types the peer puts
    before it, and however the network cuts the stream, the parser returns the next DATA,
    HEADERS, SETTINGS or GOAWAY frame with the fields it was written from, has read
    exactly its bytes (its header, where the payload is left to the caller), and neither
    fails nor closes the connection. *)
Theorem h3_frame_roundtrip l fr p s r : Forall skipped_ok l -> frame_wire fr p -> q_content s = concat (skipped_wire <$> l) ++ p ++ r ->
  exists s', ParseNext None s = Some (mkParsed (Ok fr) s' None) /\ q_content s' = r /\ q_end s' = q_end s.
Proof.
  intros Hl Hw E. destruct (ParseNext_skips l Hl (S (length (q_content s))) s _ ltac:(lia) E) as (fuel & s1 & E1 & Hf & C1 & L1).
  destruct (ParseNext_frame fr p s1 r fuel Hw Hf C1) as (s2 & E2 & L2 & C2). exists s2. unfold ParseNext. rewrite E1, E2. split; [done|]. split; [done|].
  destruct L1 as (_ & En1 & _), L2 as (_ & En2 & _). congruence.
Qed.

(** *** The parser always returns *)
Lemma settings_loop_total fuel : forall b st, (length b < fuel)%nat -> is_Some (settings_loop fuel b st).
Proof.
  induction fuel as [|fuel IH]; intros b st Hf; [lia|]. cbn. case_bool_decide; [done|]. destruct (qv_Read b io_EOF) as [[id b1]|] eqn:E1; [|done]. destruct (qv_Read b1 io_EOF) as [[v b2]|] eqn:E2; [|done].
  destruct (add_setting st id v); [|done]. apply qv_read_prefix in E1 as [_ (q1 & -> & Hq1)], E2 as [_ (q2 & -> & Hq2)]. apply IH. rewrite !length_app in Hf. unfold len in *. lia.
Qed.
Lemma q_varint_shorter s v n s' : q_varint s = (Ok (v, n), s') -> 0 <= v /\ (length (q_content s') < length (q_content s))%nat.
Proof. intros E. destruct (q_varint_suffix s) as [_ H2]. rewrite E in H2. cbn in H2. destruct H2 as [[? _] ?]. by split. Qed.
Lemma ParseNext_total s handler : exists pr, ParseNext handler s = Some pr /\ suffix_of s (pr_rest pr).
Proof.
  unfold ParseNext. generalize (Nat.lt_succ_diag_r (length (q_content s))). generalize (S (length (q_content s))). intros fuel. revert s.
  induction fuel as [|fuel IH]; intros s Hf; [lia|]. cbn [ParseNext_loop].
  pose proof (q_varint_suffix s) as [S1 _]. destruct (q_varint s) as [[[t n1]|e] s1] eqn:E1; cbn [fst snd] in S1; [|by eexists]. apply q_varint_shorter in E1 as [_ L1].
  destruct (if 13 <? t then _ else _); [by eexists|].
  pose proof (q_varint_suffix s1) as [S2 _]. destruct (q_varint s1) as [[[l n2]|e] s2] eqn:E2; cbn [fst snd] in S2; [|eexists; split; [reflexivity|by eapply suffix_trans]]. apply q_varint_shorter in E2 as [Hl L2].
  pose proof (suffix_trans _ _ _ S1 S2) as S3.
  destruct (t =? 0); [by eexists|]. destruct (t =? 1); [by eexists|]. destruct (t =? 4).
  { unfold parseSettingsFrame. destruct (_ <? l); [by eexists|]. pose proof (q_ReadFull_suffix s2 l Hl) as S4. destruct (q_ReadFull s2 l) as [[buf|e] s3]; cbn [snd] in S4; [|eexists; split; [reflexivity|by eapply suffix_trans]].
    destruct (settings_loop_total (S (length buf)) buf settings_start ltac:(lia)) as [[f|e] ->]; eexists; (split; [reflexivity|by eapply suffix_trans]). }
  destruct (t =? 7).
  { unfold parseGoAwayFrame. pose proof (q_varint_suffix s2) as [S4 _]. destruct (q_varint s2) as [[[id n3]|e] s3]; cbn [fst snd] in S4; [destruct (negb _)|]; eexists; (split; [reflexivity|by eapply suffix_trans]). }
  destruct (_ || _); [by eexists|]. pose proof (q_Discard_suffix s2 l Hl) as S4. destruct (q_Discard s2 l) as [[e|] s3]; cbn [snd] in S4; [eexists; split; [reflexivity|by eapply suffix_trans]|].
  destruct (IH s3) as (pr & E & S5); [apply suffix_length in S4; lia|]. exists pr. split; [done|]. eapply suffix_trans; [exact S3|]. by eapply suffix_trans.
Qed.
End FrameProofs.

(** ** RFC 9000's integers satisfy the laws *)
Lemma be_value_app p b : be_value (p ++ [b]) = be_value p * 256 + b.
Proof. unfold be_value. by rewrite fold_left_app. Qed.
Lemma be_bytes_ok n : forall v, 0 <= v < 256 ^ Z.of_nat n -> be_value (be_bytes n v) = v /\ len (be_bytes n v) = Z.of_nat n.
Proof.
  induction n as [|n IH]; intros v Hv; [cbn in *; split; [lia|done]|]. cbn [be_bytes]. rewrite Nat2Z.inj_succ, Z.pow_succ_r in Hv by lia.
  destruct (IH (v / 256)) as [E1 E2]. { split; [apply Z.div_pos; lia|]. apply Z.div_lt_upper_bound; lia. }
  rewrite be_value_app, len_app, E1, E2. split; [|rewrite len_cons, len_nil; lia]. pose proof (Z.div_mod v 256). lia.
Qed.
Lemma be_bytes_head n v : 0 <= v < 256 ^ Z.of_nat (S n) -> exists r, be_bytes (S n) v = v / 256 ^ Z.of_nat n :: r.
Proof.
  revert v. induction n as [|n IH]; intros v Hv; [exists []; cbn in *; f_equal; rewrite Z.div_1_r; apply Z.mod_small; lia|].
  assert (0 <= v / 256 < 256 ^ Z.of_nat (S n)) as Hq. { rewrite (Nat2Z.inj_succ (S n)), Z.pow_succ_r in Hv by lia. split; [apply Z.div_pos; lia|]. apply Z.div_lt_upper_bound; lia. }
  destruct (IH _ Hq) as [r E]. change (be_bytes (S (S n)) v) with (be_bytes (S n) (v / 256) ++ [v mod 256]). rewrite E. exists (r ++ [v mod 256]). cbn [app]. f_equal.
  rewrite Zdiv.Zdiv_Zdiv by lia. f_equal. rewrite (Nat2Z.inj_succ n), Z.pow_succ_r by lia. lia.
Qed.
Lemma rfc_class_cases v : 0 <= v < varint_max -> (rfc_class v = 0 /\ v < 2 ^ 6) \/ (rfc_class v = 1 /\ v < 2 ^ 14) \/ (rfc_class v = 2 /\ v < 2 ^ 30) \/ (rfc_class v = 3 /\ v < 2 ^ 62).
Proof. unfold rfc_class, varint_max. intros Hv. destruct (Z.ltb_spec v 64); [by left|]. destruct (Z.ltb_spec v 16384); [right; by left|]. destruct (Z.ltb_spec v 1073741824); [right; right; by left|]. right; right; right. split; [done|]. apply Hv. Qed.
Lemma rfc_Append_spec v : 0 <= v < varint_max -> exists b q, rfc_Append v = b :: q /\ 0 <= b < 256 /\ 2 ^ (b / 64) = rfc_len v /\ len (b :: q) = rfc_len v /\ be_value (b :: q) mod 2 ^ (8 * rfc_len v - 2) = v /\ 1 <= rfc_len v <= 8.
Proof.
  intros Hv. unfold rfc_Append.
  assert (exists n c, rfc_class v = c /\ rfc_len v = Z.of_nat (S n) /\ 0 <= c <= 3 /\ 2 ^ c = Z.of_nat (S n) /\ v < 2 ^ (8 * Z.of_nat (S n) - 2) /\ (n <= 7)%nat) as (n & c & Ec & El & Hc & Hn & Hlt & Hn7).
  { unfold rfc_len. destruct (rfc_class_cases v Hv) as [[-> H]|[[-> H]|[[-> H]|[-> H]]]]; [exists 0%nat, 0|exists 1%nat, 1|exists 3%nat, 2|exists 7%nat, 3]; repeat split; cbn; try lia; done. }
  rewrite El, Ec, Nat2Z.id. set (x := c * 2 ^ (8 * Z.of_nat (S n) - 2) + v). set (m := 8 * Z.of_nat (S n) - 2) in *.
  assert (2 ^ m = 64 * 256 ^ Z.of_nat n) as Em. { unfold m. change 256 with (2 ^ 8). rewrite <- Z.pow_mul_r by lia. change 64 with (2 ^ 6). rewrite <- Z.pow_add_r by lia. f_equal. lia. }
  assert (0 < 256 ^ Z.of_nat n) as Hp by (apply Z.pow_pos_nonneg; lia).
  assert (0 <= x < 256 ^ Z.of_nat (S n)) as Hx. { rewrite Nat2Z.inj_succ, Z.pow_succ_r by lia. unfold x. split; [nia|]. nia. }
  destruct (be_bytes_head n x Hx) as [q E]. destruct (be_bytes_ok (S n) x Hx) as [V L]. exists (x / 256 ^ Z.of_nat n), q. split; [exact E|]. rewrite E in V, L.
  assert (0 <= x / 256 ^ Z.of_nat n < 256) as Hb. { split; [apply Z.div_pos; lia|]. apply Z.div_lt_upper_bound; [done|]. rewrite Nat2Z.inj_succ, Z.pow_succ_r in Hx by lia. lia. }
  split; [done|]. split; [|split; [done|split; [|lia]]].
  - rewrite Zdiv.Zdiv_Zdiv by lia. rewrite (Z.mul_comm _ 64), <- Em. unfold x. rewrite Z.div_add_l by lia. rewrite Z.div_small by lia. by rewrite Z.add_0_r.
  - rewrite V. unfold x. rewrite Z.add_comm, Z_mod_plus_full. apply Z.mod_small. lia.
Qed.
#[export] Instance rfc_varint_ok : QuicVarintOk.
Proof.
  split; cbn.
  - intros v Hv. destruct (rfc_Append_spec v Hv) as (b & q & -> & _ & _ & L & _ & H). by split.
  - intros v r e Hv. destruct (rfc_Append_spec v Hv) as (b & q & -> & Hb & Hn & L & V & H). unfold rfc_Read. cbn [app]. rewrite (proj2 (Z.leb_le 0 b)), (proj2 (Z.ltb_lt b 256)) by lia. cbn [andb negb]. rewrite Hn.
    change (b :: q ++ r) with ((b :: q) ++ r). pose proof (len_nonneg r). rewrite len_app, L, (proj2 (Z.leb_le _ _)) by lia. rewrite slice_to_app, slice_from_app by done. by rewrite V.
  - intros p e v r. unfold rfc_Read. destruct p as [|b p]; [done|]. destruct (_ && _) eqn:Hb; [cbn [negb]|done]. destruct (Z.leb_spec (2 ^ (b / 64)) (len (b :: p))) as [Hl|]; [|done]. intros [= <- <-].
    assert (0 <= b / 64 < 4) as Hc by (apply andb_true_iff in Hb as [?%Z.leb_le ?%Z.ltb_lt]; split; [apply Z.div_pos; lia|apply Z.div_lt_upper_bound; lia]).
    assert (1 <= 2 ^ (b / 64) <= 8) as Hn. { assert (b / 64 = 0 \/ b / 64 = 1 \/ b / 64 = 2 \/ b / 64 = 3) as [-> |[-> |[-> | ->]]] by lia; cbn; lia. }
    split. { pose proof (Z.mod_pos_bound (be_value (slice_to (b :: p) (2 ^ (b / 64)))) (2 ^ (8 * 2 ^ (b / 64) - 2)) ltac:(apply Z.pow_pos_nonneg; lia)) as [H1 H2]. split; [done|]. eapply Z.lt_le_trans; [exact H2|]. unfold varint_max. apply Z.pow_le_mono_r; lia. }
    exists (slice_to (b :: p) (2 ^ (b / 64))). split; [by rewrite slice_to_from|]. rewrite len_slice_to by lia. lia.
  - intros p e x. unfold rfc_Read. destruct p as [|b p]; [intros [= ->]; by left|]. destruct (negb _); [intros [= ->]; by left|]. destruct (_ <=? _); [done|]. intros [= ->]. by left.
  - done.
Qed.

(** ** Examples *)
Definition ex_settings : settingsFrame := mkSettings 16384 true false {[ 7 := 99 ]}.
Definition ex_stream : qstream := mkQ [[33; 2; 1]; [1; 4; 10; 6; 128]; [0; 64; 0; 51; 1; 7; 64; 99]; [0; 5]] io_EOF true.
Lemma h3_frame_roundtrip_witness : exists s', ParseNext None ex_stream = Some (mkParsed (Ok (settings ex_settings)) s' None) /\ q_content s' = [0; 5].
Proof.
  assert (settings_ok ex_settings) as Hok. { split; [right; unfold varint_ok, varint_max; cbn; lia|]. apply map_Forall_singleton. unfold pair_ok, varint_ok, varint_max, known_setting, settingMaxFieldSectionSize, settingExtendedConnect, settingDatagram. cbn. lia. }
  destruct (h3_frame_roundtrip [(33, [1; 1])] (settings ex_settings) (settingsFrame_Append ex_settings [(7, 99)]) ex_stream [0; 5]) as (s' & E & C & _).
  - constructor; [|constructor]. split; [split; [unfold varint_ok, varint_max; cbn; lia|]|unfold varint_max; vm_compute; reflexivity]. cbn. rewrite !not_elem_of_cons. repeat split; try discriminate. apply not_elem_of_nil.
  - apply wire_settings; [exact Hok|reflexivity|vm_compute; discriminate].
  - vm_compute. reflexivity.
  - exists s'. split; [exact E|exact C].
Defined.
(** An empty block of a reserved type closes the connection. *)
Example reserved_frame : (pr_close <$> ParseNext None (mkQ [[6; 0]] io_EOF false)) = Some (Some ErrCodeFrameUnexpected).
Proof. vm_compute. reflexivity. Qed.
