(* ===== verification/H3Headers.v ===== *)
(** * HTTP/3 header fields ([src/internal/http3/headers.go])

    Reading the field list of a HEADERS frame. The QPACK decoder and the checks of
    [httpguts] are parameters. *)

From S2P Require Import Prelude.
From S2P Require Import H2Errors.
From S2P Require Import NetText.
From S2P Require Import Bufio.
From S2P Require Import BufioLine.
From S2P Require Import Chunked.
From S2P Require Import TextProto.
From S2P Require Import Transfer.

(** ** The decoder
    A field list is a list of names and values. [qp_Decode]: the fields the decode function
    returns one after the other, and the error after them ([None] for [io.EOF]). *)
Class Qpack := {
  qp_Decode : bytes -> list (string * string) * option error;
  qp_Encode : list (string * string) -> bytes;
  qp_IsPseudo : string -> bool }.
Definition colon_name (s : string) : bool := match bytes_of_string s with b :: _ => b =? 58 | [] => false end.
Class QpackOk `{Qpack} := {
  qp_roundtrip fs : qp_Decode (qp_Encode fs) = (fs, None);
  qp_pseudo name : qp_IsPseudo name = colon_name name }.

(** [qpackError], and any other error. *)
Inductive parseError := qpackError (e : error) | otherError (e : error).
Definition err_text (e : parseError) : error := match e with qpackError e => fmt_Errorf "qpack: %v" [] | otherError e => e end.
Definition errHeaderTooLarge : error := errors_New "http3: headers too large".

Record header := mkHeader {
  Path : string; Method : string; Authority : string; Scheme : string; Status : string; Protocol : string;
  ContentLength : Z; Headers : Header }.
Definition invalidHeaderFields : list string := ["connection"; "keep-alive"; "proxy-connection"; "transfer-encoding"; "upgrade"].

(** The pseudo header of a name: [None] for a name that is not one of them. *)
Definition get_pseudo (h : header) (name : string) : option string :=
  if String.eqb name ":path" then Some (Path h) else if String.eqb name ":method" then Some (Method h)
  else if String.eqb name ":authority" then Some (Authority h) else if String.eqb name ":protocol" then Some (Protocol h)
  else if String.eqb name ":scheme" then Some (Scheme h) else if String.eqb name ":status" then Some (Status h) else None.
Definition set_pseudo (h : header) (name v : string) : header :=
  mkHeader (if String.eqb name ":path" then v else Path h) (if String.eqb name ":method" then v else Method h)
    (if String.eqb name ":authority" then v else Authority h) (if String.eqb name ":scheme" then v else Scheme h)
    (if String.eqb name ":status" then v else Status h) (if String.eqb name ":protocol" then v else Protocol h) (ContentLength h) (Headers h).
Definition set_Headers (h : header) (m : Header) : header :=
  mkHeader (Path h) (Method h) (Authority h) (Scheme h) (Status h) (Protocol h) (ContentLength h) m.
Definition set_ContentLength (h : header) (n : Z) : header :=
  mkHeader (Path h) (Method h) (Authority h) (Scheme h) (Status h) (Protocol h) n (Headers h).

Section Headers.
Context `{Qpack} (strings_ToLower : string -> string) (ValidHeaderFieldName ValidHeaderFieldValue : string -> bool).

(** The variables of the loop: [p_cl] is [contentLengthStr], with [readContentLength]. *)
Record parse_state := mkParse { p_hdr : header; p_regular : bool; p_cl : option string; p_limit : Z }.
Definition empty_header : header := mkHeader "" "" "" "" "" "" 0 ∅.
Definition parse_start (limit : Z) : parse_state := mkParse empty_header false None limit.
Definition invalidName (name : string) : error := fmt_Errorf "invalid header field name: %q" [name].
(** One turn of the loop of [parseHeaders]. *)
Definition parse_field (isRequest : bool) (st : parse_state) (f : string * string) : result error parse_state :=
  let '(name, value) := f in
  let limit := p_limit st - (len (bytes_of_string name) + len (bytes_of_string value) + 32) in
  if limit <? 0 then Err errHeaderTooLarge
  else if negb (String.eqb (strings_ToLower name) name) then Err (fmt_Errorf "header field is not lower-case: %s" [name])
  else if negb (ValidHeaderFieldValue value) then Err (fmt_Errorf "invalid header field value for %s: %q" [name; value])
  else if qp_IsPseudo name then
    if p_regular st then Err (fmt_Errorf "received pseudo header %s after a regular header field" [name]) else
    let isResponsePseudoHeader := String.eqb name ":status" in
    match get_pseudo (p_hdr st) name with
    | None => Err (fmt_Errorf "unknown pseudo header: %s" [name])
    | Some old =>
        if negb (String.eqb old "") then Err (fmt_Errorf "duplicate pseudo header: %s" [name])
        else if isRequest && isResponsePseudoHeader then Err (fmt_Errorf "invalid request pseudo header: %s" [name])
        else if negb isRequest && negb isResponsePseudoHeader then Err (fmt_Errorf "invalid response pseudo header: %s" [name])
        else Ok (mkParse (set_pseudo (p_hdr st) name value) (p_regular st) (p_cl st) limit)
    end
  else if negb (ValidHeaderFieldName name) then Err (invalidName name)
  else if bool_decide (name ∈ invalidHeaderFields) then Err (invalidName name)
  else if String.eqb name "te" && negb (String.eqb value "trailers") then Err (fmt_Errorf "invalid TE header field value: %q" [value])
  else if String.eqb name "content-length" then
    match p_cl st with
    | None => Ok (mkParse (p_hdr st) true (Some value) limit)
    | Some cl => if String.eqb cl value then Ok (mkParse (p_hdr st) true (Some cl) limit)
                 else Err (fmt_Errorf "contradicting content lengths (%s and %s)" [cl; value])
    end
  else Ok (mkParse (set_Headers (p_hdr st) (Header_Add (Headers (p_hdr st)) name value)) true (p_cl st) limit).
Fixpoint parse_fields (isRequest : bool) (fs : list (string * string)) (st : parse_state) : result error parse_state :=
  match fs with [] => Ok st | f :: fs => match parse_field isRequest st f with Err e => Err e | Ok st => parse_fields isRequest fs st end end.
(** What follows the loop. *)
Definition parse_end (st : parse_state) : result error header :=
  let h := set_ContentLength (p_hdr st) (-1) in
  match p_cl st with
  | Some cl =>
      if String.eqb cl "" then Ok h else
      match ParseUint cl 63 with
      | None => Err (fmt_Errorf "invalid content length: %w" [])
      | Some n => Ok (set_ContentLength (set_Headers h (Header_Set (Headers h) "Content-Length" cl)) n)
      end
  | None => Ok h
  end.
Definition parseHeaders (decoded : list (string * string) * option error) (isRequest : bool) (sizeLimit : Z) : result parseError header :=
  match parse_fields isRequest decoded.1 (parse_start sizeLimit) with
  | Err e => Err (otherError e)
  | Ok st =>
      match decoded.2 with
      | Some e => Err (qpackError e)
      | None => match parse_end st with Err e => Err (otherError e) | Ok h => Ok h end
      end
  end.
Fixpoint trailer_fields (fs : list (string * string)) (h : Header) : result error Header :=
  match fs with
  | [] => Ok h
  | (name, value) :: fs => if qp_IsPseudo name then Err (fmt_Errorf "http3: received pseudo header in trailer: %s" [name]) else trailer_fields fs (Header_Add h name value)
  end.
Definition parseTrailers (decoded : list (string * string) * option error) : result parseError Header :=
  match trailer_fields decoded.1 ∅ with
  | Err e => Err (otherError e)
  | Ok h => match decoded.2 with Some e => Err (qpackError e) | None => Ok h end
  end.

(** [processTrailers]: the header without its Trailer field, and the announced trailer. *)
Definition processTrailers (h : Header) (old : option Header) : Header * option Header :=
  match h !! "Trailer" with
  | None => (h, old)
  | Some raw =>
      let keys := concat ((fun v => (fun x => CanonicalHeaderKey (TrimString x)) <$> split 44 v) <$> raw) in
      (delete "Trailer"%string h, Some (fold_left (fun m k => <[k := []]> m) keys ∅))
  end.
Definition updateResponseFromHeaders (rsp : Response) (decoded : list (string * string) * option error) (sizeLimit : Z) : result parseError Response :=
  match parseHeaders decoded false sizeLimit with
  | Err e => Err e
  | Ok hdr =>
      if String.eqb (Status hdr) "" then Err (otherError (errors_New "missing :status field")) else
      let '(h, tr) := processTrailers (Headers hdr) (rs_Trailer rsp) in
      match Atoi (Status hdr) with
      | None => Err (otherError (fmt_Errorf "invalid status code: %w" []))
      | Some status =>
          Ok (mkResponse1 "HTTP/3.0" (Status hdr +:+ " " +:+ StatusText status) status 3 (rs_ProtoMinor rsp)
                h (ContentLength hdr) (rs_TransferEncoding rsp) (rs_Close rsp) tr (rs_RequestMethod rsp))
      end
  end.

(** ** What is accepted, and what it means *)
Definition is_pseudo (f : string * string) : bool := qp_IsPseudo f.1.
Definition field_size (f : string * string) : Z := len (bytes_of_string f.1) + len (bytes_of_string f.2) + 32.
Definition list_size (fs : list (string * string)) : Z := fold_right (fun f n => field_size f + n) 0 fs.
Definition values_named (name : string) (fs : list (string * string)) : list string := (filter (fun f => f.1 = name) fs).*2.
Definition pseudo_names (isRequest : bool) : list string := if isRequest then [":path"; ":method"; ":authority"; ":protocol"; ":scheme"] else [":status"].
(** All but the last of the values are empty. *)
Definition last_only (vs : list string) : Prop := forall pre v post, vs = pre ++ v :: post -> post <> [] -> v = ""%string.
Definition last_value (name : string) (fs : list (string * string)) : string := default ""%string (last (values_named name fs)).
Definition regular_ok (f : string * string) : Prop :=
  ValidHeaderFieldName f.1 = true /\ (f.1 ∉ invalidHeaderFields) /\ (f.1 = "te"%string -> f.2 = "trailers"%string).
Record accepted (isRequest : bool) (limit : Z) (ps rs : list (string * string)) : Prop := {
  acc_pseudo : Forall (fun f => qp_IsPseudo f.1 = true /\ f.1 ∈ pseudo_names isRequest) ps;
  acc_regular : Forall (fun f => qp_IsPseudo f.1 = false /\ regular_ok f) rs;
  acc_all : Forall (fun f => strings_ToLower f.1 = f.1 /\ ValidHeaderFieldValue f.2 = true) (ps ++ rs);
  acc_size : list_size (ps ++ rs) <= limit;
  acc_once : forall name, last_only (values_named name ps);
  acc_length : forall v w, v ∈ values_named "content-length" rs -> w ∈ values_named "content-length" rs -> v = w;
  acc_number : forall v, v ∈ values_named "content-length" rs -> v <> ""%string -> is_Some (ParseUint v 63) }.
Definition field_list (rs : list (string * string)) : Header :=
  fold_left (fun m f => Header_Add m f.1 f.2) (filter (fun f => f.1 <> "content-length"%string) rs) ∅.
Definition header_of (ps rs : list (string * string)) : header :=
  let cl := default ""%string (head (values_named "content-length" rs)) in
  mkHeader (last_value ":path" ps) (last_value ":method" ps) (last_value ":authority" ps) (last_value ":scheme" ps) (last_value ":status" ps) (last_value ":protocol" ps)
    (if String.eqb cl "" then -1 else default (-1) (ParseUint cl 63))
    (if String.eqb cl "" then field_list rs else Header_Set (field_list rs) "Content-Length" cl).

(** ** One field *)
Lemma field_size_pos f : 32 <= field_size f. Proof. unfold field_size. pose proof (len_nonneg (bytes_of_string f.1)). pose proof (len_nonneg (bytes_of_string f.2)). lia. Qed.
Lemma list_size_nonneg fs : 0 <= list_size fs. Proof. induction fs as [|f fs IH]; [done|]. cbn. pose proof (field_size_pos f). unfold list_size in IH. lia. Qed.
Lemma list_size_app fs gs : list_size (fs ++ gs) = list_size fs + list_size gs.
Proof. unfold list_size. induction fs; cbn; lia. Qed.
Lemma values_named_cons name f fs : values_named name (f :: fs) = (if decide (f.1 = name) then [f.2] else []) ++ values_named name fs.
Proof. unfold values_named. rewrite filter_cons. by destruct (decide (f.1 = name)). Qed.
Lemma values_named_elem name v fs : v ∈ values_named name fs -> (name, v) ∈ fs.
Proof. unfold values_named. intros [[n w] [-> Hin]]%list_elem_of_fmap. cbn. apply list_elem_of_filter in Hin as [Hn Hin]. cbn in Hn. by subst n. Qed.
Definition add_regulars (rs : list (string * string)) (m : Header) : Header :=
  fold_left (fun m f => Header_Add m f.1 f.2) (filter (fun f => f.1 <> "content-length"%string) rs) m.
Definition reg_state (st : parse_state) (rs : list (string * string)) : parse_state :=
  mkParse (set_Headers (p_hdr st) (add_regulars rs (Headers (p_hdr st)))) (p_regular st || negb (bool_decide (rs = [])))
    (match p_cl st with Some c => Some c | None => head (values_named "content-length" rs) end) (p_limit st - list_size rs).
Lemma reg_state_cons st f rs : reg_state (reg_state st [f]) rs = reg_state st (f :: rs).
Proof.
  unfold reg_state. f_equal; cbn [p_hdr p_regular p_cl p_limit set_Headers Headers].
  - unfold add_regulars. rewrite !filter_cons. destruct (decide _); reflexivity.
  - by destruct (p_regular st).
  - destruct (p_cl st); [done|]. rewrite (values_named_cons _ f rs), (values_named_cons _ f []). destruct (decide _); reflexivity.
  - unfold list_size. cbn. lia.
Qed.
Lemma set_Headers_same h : set_Headers h (Headers h) = h. Proof. by destruct h. Qed.
Lemma parse_regular isRequest st f st1 : qp_IsPseudo f.1 = false -> parse_field isRequest st f = Ok st1 <->
  field_size f <= p_limit st /\ strings_ToLower f.1 = f.1 /\ ValidHeaderFieldValue f.2 = true /\ regular_ok f /\ (f.1 = "content-length"%string -> forall c, p_cl st = Some c -> c = f.2) /\ st1 = reg_state st [f].
Proof.
  destruct f as [n v]. unfold parse_field, regular_ok, field_size, reg_state, add_regulars. cbn [fst snd]. intros ->. rewrite (values_named_cons _ (n, v)), filter_cons. cbn [fst snd list_size fold_right]. unfold field_size. cbn [fst snd].
  generalize (len (bytes_of_string n) + len (bytes_of_string v) + 32). intros sz. destruct (Z.ltb_spec (p_limit st - sz) 0); [split; [done|intros (? & _); lia]|].
  destruct (String.eqb_spec (strings_ToLower n) n); [cbn [negb]|split; [done|tauto]].
  destruct (ValidHeaderFieldValue v); [cbn [negb]|split; [done|intros (_ & _ & ? & _); done]]. destruct (ValidHeaderFieldName n); [cbn [negb]|split; [done|intros (_ & _ & _ & (? & _) & _); done]].
  case_bool_decide; [split; [done|tauto]|].
  destruct (String.eqb_spec n "te") as [->|Ht]; cbn [andb negb].
  - destruct (String.eqb_spec v "trailers") as [->|]; cbn [negb]; [|split; [done|intros (_ & _ & _ & (_ & _ & H') & _); by destruct (H' eq_refl)]].
    cbn. split; [intros [= <-]|intros (_ & _ & _ & _ & _ & ->)]; rewrite ?orb_true_r, ?Z.add_0_r; destruct (p_cl st); try done; repeat split; try done; lia.
  - destruct (String.eqb_spec n "content-length") as [->|Hc].
    + repeat (case_decide; try done). cbn. rewrite set_Headers_same, orb_true_r, Z.add_0_r. destruct (p_cl st) as [c|].
      * destruct (String.eqb_spec c v) as [->|Hcv]; split; [intros [= <-]|intros (_ & _ & _ & _ & _ & ->); done|done|intros (_ & _ & _ & _ & H' & _); by destruct Hcv; apply H'].
        repeat split; try done; try lia. by intros _ c [= ->].
      * split; [intros [= <-]|intros (_ & _ & _ & _ & _ & ->); done]. repeat split; try done; lia.
    + repeat (case_decide; try done). cbn. rewrite orb_true_r, Z.add_0_r.
      split; [intros [= <-]|intros (_ & _ & _ & _ & _ & ->)]; destruct (p_cl st); try done; repeat split; try done; lia.
Qed.
Definition reg_ok (st : parse_state) (rs : list (string * string)) : Prop :=
  Forall (fun f => qp_IsPseudo f.1 = false /\ regular_ok f) rs /\ Forall (fun f => strings_ToLower f.1 = f.1 /\ ValidHeaderFieldValue f.2 = true) rs /\
  list_size rs <= p_limit st /\ (forall v w, v ∈ values_named "content-length" rs -> p_cl st = Some w \/ w ∈ values_named "content-length" rs -> v = w).
Lemma parse_regulars isRequest rs : Forall (fun f => qp_IsPseudo f.1 = false) rs -> forall st st', 0 <= p_limit st -> parse_fields isRequest rs st = Ok st' <-> reg_ok st rs /\ st' = reg_state st rs.
Proof.
  induction 1 as [|f rs Hf _ IH]; intros st st' Hl.
  - cbn. unfold reg_state, reg_ok, add_regulars. cbn. rewrite set_Headers_same, orb_false_r, Z.sub_0_r. assert (mkParse (p_hdr st) (p_regular st) (match p_cl st with Some c => Some c | None => None end) (p_limit st) = st) as -> by (destruct st as [? ? [] ?]; done).
    split; [intros [= <-]|intros [_ ->]; done]. split; [|done]. split; [done|]. split; [done|]. split; [done|]. intros v w Hv. by apply not_elem_of_nil in Hv.
  - cbn [parse_fields]. pose proof (list_size_nonneg rs) as Hn. destruct (parse_field isRequest st f) as [st1|e] eqn:E.
    + apply (parse_regular isRequest st f st1 Hf) in E as (E1 & E2 & E3 & E4 & E5 & ->). rewrite IH by (cbn; lia). rewrite reg_state_cons. unfold reg_ok. cbn [p_limit p_cl reg_state]. rewrite !Forall_cons. cbn [list_size fold_right]. unfold list_size in *. rewrite (values_named_cons _ f rs), (values_named_cons _ f []), app_nil_r. cbn [fold_right].
      assert ((forall v w, v ∈ values_named "content-length" rs -> (match p_cl st with Some c => Some c | None => head (if decide (f.1 = "content-length"%string) then [f.2] else []) end) = Some w \/ w ∈ values_named "content-length" rs -> v = w) <->
              (forall v w, v ∈ (if decide (f.1 = "content-length"%string) then [f.2] else []) ++ values_named "content-length" rs -> p_cl st = Some w \/ w ∈ (if decide (f.1 = "content-length"%string) then [f.2] else []) ++ values_named "content-length" rs -> v = w)) as Hcl.
      { destruct (decide _) as [Ec|]; [|cbn [app head]; destruct (p_cl st); done]. specialize (E5 Ec). cbn [app head]. split; intros HH v w Hv Hw.
        - assert (forall x, x ∈ f.2 :: values_named "content-length" rs -> x = f.2) as K. { intros x [->|Hx]%elem_of_cons; [done|]. apply HH; [done|]. left. destruct (p_cl st) as [c|]; [|done]. f_equal. by apply E5. }
          rewrite (K v Hv). destruct Hw as [Hw|Hw]; [symmetry; by apply E5|symmetry; by apply K].
        - apply HH; [by apply elem_of_cons; right|]. destruct Hw as [Hw|Hw]; [|right; by apply elem_of_cons; right]. destruct (p_cl st); [by left|]. injection Hw as <-. right. apply elem_of_cons. by left. }
      rewrite Hcl. split; [intros [(K1 & K2 & K3 & K4) ->]|intros [(K1 & K2 & K3 & K4) ->]]; (split; [|done]); (split; [tauto|]); (split; [tauto|]); (split; [lia|done]).
    + split; [done|]. intros [(K1 & K2 & K3 & K4) ->]. assert (parse_field isRequest st f = Ok (reg_state st [f])); [|congruence]. rewrite !Forall_cons in *. apply (parse_regular _ _ _ _ Hf). cbn in K3. unfold list_size in Hn. split; [lia|]. split; [tauto|]. split; [tauto|]. split; [tauto|].
      split; [|done]. intros Ec c Hc. symmetry. apply K4; [|by left]. rewrite values_named_cons. destruct (decide _); [|done]. apply elem_of_cons. by left.
Qed.

(** ** Pseudo headers *)
Lemma get_pseudo_names h name : is_Some (get_pseudo h name) <-> name ∈ pseudo_names true \/ name = ":status"%string.
Proof.
  unfold get_pseudo, pseudo_names. rewrite !elem_of_cons. repeat match goal with |- context [String.eqb name ?x] => destruct (String.eqb_spec name x) as [->|]; [split; [intros _; tauto|by eexists]|] end.
  split; [by intros [? ?]|]. intros [[?|[?|[?|[?|[?|Hin]]]]]|?]; try done. by apply not_elem_of_nil in Hin.
Qed.
Lemma status_not_request : ":status"%string ∉ pseudo_names true.
Proof. unfold pseudo_names. rewrite !not_elem_of_cons. repeat split; try discriminate. apply not_elem_of_nil. Qed.
Lemma pseudo_names_get isRequest h name : name ∈ pseudo_names isRequest -> is_Some (get_pseudo h name).
Proof. intros Hn. apply get_pseudo_names. destruct isRequest; [by left|]. right. by apply list_elem_of_singleton in Hn. Qed.
Definition pseudo_get (h : header) (name : string) : string := default ""%string (get_pseudo h name).
Lemma get_set_pseudo h name n v : is_Some (get_pseudo h name) -> pseudo_get (set_pseudo h n v) name = if String.eqb n name then v else pseudo_get h name.
Proof.
  intros Hs. unfold pseudo_get, set_pseudo, get_pseudo in *. destruct (String.eqb_spec n name) as [->|Hn].
  - cbn [Path Method Authority Scheme Status Protocol]. destruct (String.eqb name ":path"); [done|]. destruct (String.eqb name ":method"); [done|]. destruct (String.eqb name ":authority"); [done|]. destruct (String.eqb name ":protocol"); [done|].
    destruct (String.eqb name ":scheme"); [done|]. destruct (String.eqb name ":status"); [done|]. by destruct Hs.
  - cbn [Path Method Authority Scheme Status Protocol]. repeat match goal with |- context [String.eqb name ?x] => destruct (String.eqb_spec name x) as [->|]; [by rewrite (proj2 (String.eqb_neq n x))|] end. done.
Qed.
Lemma set_pseudo_keeps h n v name : is_Some (get_pseudo h name) -> is_Some (get_pseudo (set_pseudo h n v) name).
Proof. by rewrite !get_pseudo_names. Qed.
Definition set_pseudos (ps : list (string * string)) (h : header) : header := fold_left (fun h f => set_pseudo h f.1 f.2) ps h.
Definition ps_state (st : parse_state) (ps : list (string * string)) : parse_state :=
  mkParse (set_pseudos ps (p_hdr st)) (p_regular st) (p_cl st) (p_limit st - list_size ps).
Lemma parse_pseudo isRequest st f st1 : qp_IsPseudo f.1 = true -> parse_field isRequest st f = Ok st1 <->
  p_regular st = false /\ field_size f <= p_limit st /\ (strings_ToLower f.1 = f.1 /\ ValidHeaderFieldValue f.2 = true) /\ f.1 ∈ pseudo_names isRequest /\ pseudo_get (p_hdr st) f.1 = ""%string /\ st1 = ps_state st [f].
Proof.
  destruct f as [n v]. unfold parse_field, field_size, ps_state, set_pseudos, pseudo_get. cbn [fst snd list_size fold_right fold_left]. unfold field_size. cbn [fst snd]. intros ->.
  generalize (len (bytes_of_string n) + len (bytes_of_string v) + 32). intros sz. destruct (Z.ltb_spec (p_limit st - sz) 0); [split; [done|intros (_ & ? & _); lia]|].
  destruct (String.eqb_spec (strings_ToLower n) n); [cbn [negb]|split; [done|tauto]]. destruct (ValidHeaderFieldValue v); [cbn [negb]|split; [done|intros (_ & _ & [_ ?] & _); done]].
  destruct (p_regular st); [split; [done|by intros [? _]]|]. pose proof (get_pseudo_names (p_hdr st) n) as Hn. destruct (get_pseudo (p_hdr st) n) as [old|].
  2:{ split; [done|]. intros (_ & _ & _ & Hin & _). assert (is_Some (@None string)) as [? ?]; [|done]. apply Hn. destruct isRequest; [by left|right; by apply list_elem_of_singleton in Hin]. }
  cbn [default]. destruct (String.eqb_spec old "") as [->|]; [cbn [negb]|split; [done|tauto]]. destruct (proj1 Hn ltac:(by eexists)) as [Hin|Hst].
  - assert (n <> ":status"%string) as Hne by (intros ->; by apply status_not_request in Hin). rewrite (proj2 (String.eqb_neq _ _) Hne), andb_false_r, andb_true_r, Z.add_0_r. destruct isRequest; cbn [negb].
    + split; [intros [= <-]|intros (_ & _ & _ & _ & _ & ->); done]. repeat split; try done; lia.
    + split; [done|]. intros (_ & _ & _ & Hs & _). apply list_elem_of_singleton in Hs. done.
  - subst n. rewrite String.eqb_refl, andb_true_r, andb_false_r, Z.add_0_r. destruct isRequest.
    + split; [done|]. intros (_ & _ & _ & Hs & _). by apply status_not_request in Hs.
    + split; [intros [= <-]|intros (_ & _ & _ & _ & _ & ->); done]. repeat split; try done; [lia|]. by apply list_elem_of_singleton.
Qed.
Fixpoint once (ps : list (string * string)) (h : header) : Prop :=
  match ps with [] => True | f :: ps => pseudo_get h f.1 = ""%string /\ once ps (set_pseudo h f.1 f.2) end.
Lemma ps_state_cons st f ps : ps_state (ps_state st [f]) ps = ps_state st (f :: ps).
Proof. unfold ps_state, set_pseudos, list_size. cbn [p_hdr p_regular p_cl p_limit fold_left fold_right]. f_equal. lia. Qed.
Definition common_ok (f : string * string) : Prop := strings_ToLower f.1 = f.1 /\ ValidHeaderFieldValue f.2 = true.
Lemma parse_pseudos isRequest ps : Forall (fun f => qp_IsPseudo f.1 = true) ps -> forall st st', p_regular st = false -> 0 <= p_limit st -> parse_fields isRequest ps st = Ok st' <->
  (Forall (fun f => f.1 ∈ pseudo_names isRequest) ps /\ Forall common_ok ps /\ list_size ps <= p_limit st /\ once ps (p_hdr st)) /\ st' = ps_state st ps.
Proof.
  induction 1 as [|f ps Hf _ IH]; intros st st' Hr Hl.
  - cbn. unfold ps_state. cbn. rewrite Z.sub_0_r. assert (mkParse (p_hdr st) (p_regular st) (p_cl st) (p_limit st) = st) as -> by by destruct st. split; [by intros [= <-]|by intros [_ ->]].
  - cbn [parse_fields once]. pose proof (list_size_nonneg ps) as Hn. rewrite !Forall_cons. unfold list_size in *. cbn [fold_right]. destruct (parse_field isRequest st f) as [st1|e] eqn:E.
    + apply (parse_pseudo isRequest st f st1 Hf) in E as (E1 & E2 & E3 & E4 & E5 & ->). rewrite IH by (cbn; first [done|lia]). rewrite ps_state_cons. cbn [ps_state p_limit p_hdr set_pseudos fold_left]. unfold list_size. cbn [fold_right].
      split; intros [(K1 & K2 & K3 & K4) ->]; (split; [|done]); [repeat split; try done; try apply E3; lia|]. destruct K4. repeat split; try tauto; lia.
    + split; [done|]. intros [([K1 _] & [K2 _] & K3 & [K4 _]) _]. assert (parse_field isRequest st f = Ok (ps_state st [f])); [|congruence]. apply (parse_pseudo _ _ _ _ Hf). repeat split; try done; try apply K2. lia.
Qed.
Lemma last_only_cons x vs : last_only (x :: vs) <-> (vs = [] \/ x = ""%string) /\ last_only vs.
Proof.
  unfold last_only. split.
  - intros H1. split; [destruct vs; [by left|right; by apply (H1 [] x (s :: vs))]|]. intros pre v post ->. by apply (H1 (x :: pre)).
  - intros [H1 H2] [|y pre] v post [= -> ->] Hp; [by destruct H1|by eapply H2].
Qed.
Lemma last_only_nil : last_only []. Proof. intros [|] ? ? [=]. Qed.
Lemma once_spec isRequest ps : Forall (fun f => f.1 ∈ pseudo_names isRequest) ps -> forall h,
  once ps h <-> forall name, name ∈ pseudo_names isRequest -> last_only (pseudo_get h name :: values_named name ps).
Proof.
  induction 1 as [|f ps Hf _ IH]; intros h; cbn [once].
  - split; [|done]. intros _ name _. apply last_only_cons. split; [by left|apply last_only_nil].
  - rewrite IH. split.
    + intros [H1 H2] name Hn. specialize (H2 name Hn). rewrite get_set_pseudo in H2 by by eapply pseudo_names_get. rewrite values_named_cons. revert H2. destruct (String.eqb_spec f.1 name) as [<-|Hne]; intros H2.
      * rewrite decide_True by done. apply last_only_cons. split; [by right|done].
      * by rewrite decide_False by done.
    + intros H1. split.
      * specialize (H1 _ Hf). rewrite values_named_cons, decide_True in H1 by done. apply last_only_cons in H1 as [[?|?] _]; done.
      * intros name Hn. specialize (H1 name Hn). rewrite get_set_pseudo by by eapply pseudo_names_get. rewrite values_named_cons in H1. destruct (String.eqb_spec f.1 name) as [<-|Hne].
        -- rewrite decide_True in H1 by done. by apply last_only_cons in H1 as [_ H1].
        -- by rewrite decide_False in H1 by done.
Qed.
Lemma pseudo_get_set_pseudos name ps : forall h, is_Some (get_pseudo h name) -> pseudo_get (set_pseudos ps h) name = default (pseudo_get h name) (last (values_named name ps)).
Proof.
  induction ps as [|f ps IH]; intros h Hs; [done|]. cbn [set_pseudos fold_left]. fold (set_pseudos ps (set_pseudo h f.1 f.2)). rewrite IH by by apply set_pseudo_keeps. rewrite get_set_pseudo by done. rewrite values_named_cons.
  destruct (String.eqb_spec f.1 name) as [<-|Hne]; [rewrite decide_True by done|by rewrite decide_False by done]. cbn [app]. rewrite last_cons. by destruct (last (values_named f.1 ps)).
Qed.

(** ** The whole list *)
Lemma parse_fields_app isRequest fs gs st : parse_fields isRequest (fs ++ gs) st = match parse_fields isRequest fs st with Ok st => parse_fields isRequest gs st | Err e => Err e end.
Proof. revert st. induction fs as [|f fs IH]; intros st; cbn; [done|]. destruct (parse_field isRequest st f); [apply IH|done]. Qed.
Lemma parse_fields_split isRequest fs : forall st st', parse_fields isRequest fs st = Ok st' ->
  exists ps rs, fs = ps ++ rs /\ Forall (fun f => qp_IsPseudo f.1 = true) ps /\ Forall (fun f => qp_IsPseudo f.1 = false) rs /\ (p_regular st = true -> ps = []).
Proof.
  induction fs as [|f fs IH]; intros st st'; cbn; [intros _; by exists [], []|]. destruct (parse_field isRequest st f) as [st1|] eqn:E; [|done]. intros Hf. destruct (IH _ _ Hf) as (ps & rs & -> & Hp & Hr & Hs).
  destruct (qp_IsPseudo f.1) eqn:Ep.
  - apply (parse_pseudo isRequest st f st1 Ep) in E as (E1 & _). exists (f :: ps), rs. split; [done|]. split; [by constructor|]. split; [done|]. congruence.
  - apply (parse_regular isRequest st f st1 Ep) in E as (_ & _ & _ & _ & _ & ->). rewrite Hs by (cbn; apply orb_true_r). exists [], (f :: rs). split; [done|]. split; [done|]. split; [by constructor|done].
Qed.
Lemma header_eq h1 h2 : (forall name, is_Some (get_pseudo h1 name) -> pseudo_get h1 name = pseudo_get h2 name) -> ContentLength h1 = ContentLength h2 -> Headers h1 = Headers h2 -> h1 = h2.
Proof.
  intros Hp Hc Hh. destruct h1, h2. pose proof (Hp ":path"%string ltac:(by eexists)). pose proof (Hp ":method"%string ltac:(by eexists)). pose proof (Hp ":authority"%string ltac:(by eexists)).
  pose proof (Hp ":scheme"%string ltac:(by eexists)). pose proof (Hp ":status"%string ltac:(by eexists)). pose proof (Hp ":protocol"%string ltac:(by eexists)). cbn in *. congruence.
Qed.
Lemma set_pseudos_other ps h : ContentLength (set_pseudos ps h) = ContentLength h /\ Headers (set_pseudos ps h) = Headers h.
Proof. revert h. induction ps as [|f ps IH]; intros h; [done|]. apply (IH (set_pseudo h f.1 f.2)). Qed.

Lemma parsed_accepted isRequest limit ps rs st' : 0 <= limit -> Forall (fun f => qp_IsPseudo f.1 = true) ps -> Forall (fun f => qp_IsPseudo f.1 = false) rs ->
  (exists h, parse_fields isRequest (ps ++ rs) (parse_start limit) = Ok st' /\ parse_end st' = Ok h) -> accepted isRequest limit ps rs /\ st' = reg_state (ps_state (parse_start limit) ps) rs.
Proof.
  intros Hl Hp Hr. rewrite parse_fields_app. pose proof (list_size_nonneg rs) as Hn. set (st0 := parse_start limit).
  intros (h0 & E & Eh). destruct (parse_fields isRequest ps st0) as [st1|] eqn:E1; [|done]. apply (parse_pseudos isRequest ps Hp st0 st1 eq_refl Hl) in E1 as [(K1 & K2 & K3 & K4) ->].
  apply (parse_regulars isRequest rs Hr) in E as [(R1 & R2 & R3 & R4) ->]; [|cbn; cbn in K3; lia]. cbn in R3, K3. split; [|done]. constructor.
  + apply Forall_and. by split.
  + done.
  + by apply Forall_app.
  + rewrite list_size_app. lia.
  + intros name. destruct (decide (name ∈ pseudo_names isRequest)) as [Hin|Hin].
    * pose proof (proj1 (once_spec isRequest ps K1 _) K4 name Hin) as K5. by apply last_only_cons in K5 as [_ K5].
    * assert (values_named name ps = []) as ->; [|apply last_only_nil]. apply elem_of_nil_inv. intros v Hv. apply values_named_elem in Hv. rewrite Forall_forall in K1. apply Hin. by apply (K1 _ Hv).
  + intros v w Hv Hw. apply R4; [done|by right].
  + intros v Hv Hne. unfold parse_end, reg_state in Eh. cbn in Eh. destruct (head (values_named "content-length" rs)) as [cl|] eqn:Ecl; [|destruct (values_named "content-length" rs); [by apply not_elem_of_nil in Hv|done]].
    assert (v = cl) as ->. { apply R4; [done|]. right. destruct (values_named "content-length" rs); [done|]. injection Ecl as ->. by left. }
    destruct (String.eqb_spec cl ""); [done|]. by destruct (ParseUint cl 63).
Qed.
Lemma accepted_parsed isRequest limit ps rs st' : 0 <= limit -> Forall (fun f => qp_IsPseudo f.1 = true) ps -> Forall (fun f => qp_IsPseudo f.1 = false) rs ->
  accepted isRequest limit ps rs /\ st' = reg_state (ps_state (parse_start limit) ps) rs -> (exists h, parse_fields isRequest (ps ++ rs) (parse_start limit) = Ok st' /\ parse_end st' = Ok h).
Proof.
  intros Hl Hp Hr. rewrite parse_fields_app. pose proof (list_size_nonneg rs) as Hn. set (st0 := parse_start limit).
  intros [Ha ->]. destruct Ha as [A1 A2 A3 A4 A5 A6 A7]. apply Forall_and in A1 as [_ A1]. apply Forall_app in A3 as [A3 A3']. rewrite list_size_app in A4.
  assert (parse_fields isRequest ps st0 = Ok (ps_state st0 ps)) as ->.
  { apply (parse_pseudos isRequest ps Hp); [done|done|]. split; [|done]. split; [done|]. split; [done|]. split; [cbn; lia|]. apply (once_spec isRequest); [done|]. intros name Hname. apply last_only_cons. split; [|apply A5].
    right. unfold pseudo_get, get_pseudo. cbn. by repeat (destruct (String.eqb name _); [done|]). }
  assert (parse_fields isRequest rs (ps_state st0 ps) = Ok (reg_state (ps_state st0 ps) rs)) as ->.
  { pose proof (list_size_nonneg ps). apply (parse_regulars isRequest rs Hr); [cbn; lia|]. split; [|done]. split; [done|]. split; [done|]. split; [cbn; lia|]. intros v w Hv [Hw|Hw]; [done|by apply A6]. }
  unfold parse_end. cbn. destruct (head (values_named "content-length" rs)) as [cl|] eqn:Ecl; [|by eexists]. destruct (String.eqb_spec cl ""); [by eexists|]. destruct (A7 cl) as [num ->]; [|done|by eexists].
  destruct (values_named "content-length" rs); [done|]. injection Ecl as ->. by left.
Qed.
Lemma accepted_end isRequest limit ps rs : 0 <= limit -> accepted isRequest limit ps rs -> parse_end (reg_state (ps_state (parse_start limit) ps) rs) = Ok (header_of ps rs).
Proof.
  intros Hl Ha. assert (Forall (fun f => qp_IsPseudo f.1 = true) ps) as Hp by (eapply Forall_impl; [apply Ha|]; by intros ? [? _]). assert (Forall (fun f => qp_IsPseudo f.1 = false) rs) as Hr by (eapply Forall_impl; [apply Ha|]; by intros ? [? _]).
  destruct (accepted_parsed isRequest limit ps rs _ Hl Hp Hr (conj Ha eq_refl)) as (h0 & _ & E). rewrite E. f_equal. unfold parse_end in E. destruct (set_pseudos_other ps (p_hdr (parse_start limit))) as [Ec Eh].
  assert (forall name, is_Some (get_pseudo (set_pseudos ps (p_hdr (parse_start limit))) name) -> pseudo_get (set_pseudos ps (p_hdr (parse_start limit))) name = pseudo_get (header_of ps rs) name) as Hps.
  { intros name Hs. assert (is_Some (get_pseudo (p_hdr (parse_start limit)) name)) as Hs0 by (apply get_pseudo_names; by apply get_pseudo_names in Hs). rewrite pseudo_get_set_pseudos by done.
    assert (pseudo_get (p_hdr (parse_start limit)) name = ""%string) as -> by (unfold pseudo_get, get_pseudo; cbn; by repeat (destruct (String.eqb name _); [done|])).
    apply get_pseudo_names in Hs. unfold pseudo_names in Hs. rewrite !elem_of_cons in Hs. destruct Hs as [[-> |[-> |[-> |[-> |[-> |Hs]]]]]| ->]; try done. by apply not_elem_of_nil in Hs. }
  change (p_hdr (parse_start limit)) with empty_header in *. unfold reg_state, ps_state in E. cbn [p_hdr p_cl p_regular p_limit] in E. change (p_cl (parse_start limit)) with (@None string) in E. change (p_hdr (parse_start limit)) with empty_header in E. cbn iota beta in E. rewrite Eh in E. unfold header_of in *. destruct (head (values_named "content-length" rs)) as [cl|]; cbn [default from_option]; unfold id.
  - destruct (String.eqb cl "") eqn:Ecl; [injection E as <-; apply header_eq; [exact Hps|reflexivity|reflexivity]|]. destruct (ParseUint cl 63) as [n|]; [|done]. injection E as <-. apply header_eq; [exact Hps|reflexivity|reflexivity].
  - injection E as <-. apply header_eq; [exact Hps|reflexivity|reflexivity].
Qed.
Lemma accepted_kinds isRequest limit ps rs : accepted isRequest limit ps rs -> Forall (fun f => qp_IsPseudo f.1 = true) ps /\ Forall (fun f => qp_IsPseudo f.1 = false) rs.
Proof. intros Ha. split; (eapply Forall_impl; [apply Ha|]); by intros ? [? _]. Qed.
(** What satisfies the rules is read as it says. *)
Lemma accepted_read isRequest limit ps rs : 0 <= limit -> accepted isRequest limit ps rs -> parseHeaders (ps ++ rs, None) isRequest limit = Ok (header_of ps rs).
Proof.
  intros Hl Ha. destruct (accepted_kinds _ _ _ _ Ha) as [Hp Hr]. unfold parseHeaders. cbn [fst snd]. destruct (accepted_parsed isRequest limit ps rs _ Hl Hp Hr (conj Ha eq_refl)) as (h0 & -> & _). by rewrite (accepted_end isRequest limit).
Qed.

(** C24: a field list is read exactly as RFC 9114 defines it. It is accepted if and only if it is
    a list of pseudo headers of the message's kind, of which all values but the last are
    empty, followed by a list of fields with valid names, none of them specific to a
    connection, with at most one content length, which is a number; names are in lower
    case, values are valid, and the size of the list is within the limit. The result has
    the value of each pseudo header, the other fields under their canonical names in the
    order of their values, and the content length. *)
Theorem header_list_accepted isRequest limit fs h : 0 <= limit ->
  parseHeaders (fs, None) isRequest limit = Ok h <-> exists ps rs, fs = ps ++ rs /\ accepted isRequest limit ps rs /\ h = header_of ps rs.
Proof.
  intros Hl. split; [|intros (ps & rs & -> & Ha & ->); by apply accepted_read]. unfold parseHeaders. cbn [fst snd].
  intros E. destruct (parse_fields isRequest fs (parse_start limit)) as [st'|] eqn:E1; [|done]. destruct (parse_end st') as [h'|] eqn:E2; [|done]. injection E as <-. pose proof E1 as E3. apply parse_fields_split in E3 as (ps & rs & -> & Hp & Hr & _).
  destruct (parsed_accepted isRequest limit ps rs st' Hl Hp Hr ltac:(by exists h')) as [Ha ->]. exists ps, rs. split; [done|]. split; [done|]. rewrite (accepted_end isRequest limit) in E2 by done. by injection E2.
Qed.
End Headers.

(** ** An encoding that satisfies the laws, and examples
    Each name and value with its length before it. *)
Definition plain_string (s : string) : bytes := len (bytes_of_string s) :: bytes_of_string s.
Definition plain_encode (fs : list (string * string)) : bytes := concat ((fun f => plain_string f.1 ++ plain_string f.2) <$> fs).
Definition plain_read (p : bytes) : option (string * bytes) :=
  match p with [] => None | n :: p => if n <=? len p then Some (string_of_bytes (slice_to p n), slice_from p n) else None end.
Fixpoint plain_decode (fuel : nat) (p : bytes) : list (string * string) * option error :=
  match fuel, p with
  | _, [] => ([], None)
  | O, _ => ([], Some io_ErrUnexpectedEOF)
  | S fuel, _ =>
      match plain_read p with
      | None => ([], Some io_ErrUnexpectedEOF)
      | Some (name, p) =>
          match plain_read p with
          | None => ([], Some io_ErrUnexpectedEOF)
          | Some (value, p) => let '(fs, e) := plain_decode fuel p in ((name, value) :: fs, e)
          end
      end
  end.
#[export] Instance plain_qpack : Qpack := { qp_Decode p := plain_decode (length p) p; qp_Encode := plain_encode; qp_IsPseudo := colon_name }.
Lemma plain_read_string s r : plain_read (plain_string s ++ r) = Some (s, r).
Proof.
  unfold plain_read, plain_string. cbn [app]. pose proof (len_nonneg r). rewrite len_app, (proj2 (Z.leb_le _ _)) by (unfold len in *; lia). by rewrite slice_to_app, slice_from_app, string_of_bytes_of_string by done.
Qed.
Lemma plain_decode_encode fs : forall fuel, (length (plain_encode fs) <= fuel)%nat -> plain_decode fuel (plain_encode fs) = (fs, None).
Proof.
  induction fs as [|[n v] fs IH]; intros fuel Hf; [by destruct fuel|]. unfold plain_encode in *. cbn [fmap list_fmap concat fst snd] in *. rewrite <- app_assoc in *. rewrite !length_app in Hf. unfold plain_string at 1 in Hf. cbn [length] in Hf. destruct fuel as [|fuel]; [lia|].
  cbn [plain_decode]. unfold plain_string at 1. cbn [app]. change (len (bytes_of_string n) :: bytes_of_string n ++ ?x) with (plain_string n ++ x).
  rewrite plain_read_string, plain_read_string, IH by lia. done.
Qed.
#[export] Instance plain_qpack_ok : QpackOk.
Proof. split; [|done]. intros fs. exact (plain_decode_encode fs _ (le_n _)). Qed.

Definition any_valid (_ : string) : bool := true.
Definition ascii_lower (s : string) : string := map_string lower s.
Definition ex_fields : list (string * string) := [(":status", "200"); ("content-type", "text/plain"); ("content-length", "5"); ("x-a", "1"); ("x-a", "2")]%string.
Definition ex_header : header := header_of [(":status", "200")]%string (drop 1 ex_fields).
Lemma ex_accepted : accepted ascii_lower any_valid any_valid false 1000 [(":status", "200")]%string (drop 1 ex_fields).
Proof.
  constructor.
  - constructor; [|constructor]. split; [reflexivity|]. apply list_elem_of_singleton. reflexivity.
  - repeat (constructor; [split; [reflexivity|]; split; [reflexivity|]; split; [unfold invalidHeaderFields; cbn; rewrite !not_elem_of_cons; repeat split; try discriminate; apply not_elem_of_nil|discriminate]|]). constructor.
  - repeat (constructor; [split; vm_compute; reflexivity|]). constructor.
  - vm_compute. discriminate.
  - intros name pre v post E Hp. unfold values_named in E. rewrite filter_cons, filter_nil in E. case_decide; cbn in E; [|by destruct pre]. destruct pre as [|? [|]]; cbn in E; [|discriminate..]. injection E as <- <-. by destruct Hp.
  - intros v w. vm_compute. intros Hv Hw. apply list_elem_of_singleton in Hv, Hw. congruence.
  - intros v Hv _. vm_compute in Hv. apply list_elem_of_singleton in Hv. subst v. by eexists.
Qed.
Lemma header_list_accepted_witness : 0 <= 1000 /\ parseHeaders ascii_lower any_valid any_valid (ex_fields, None) false 1000 = Ok ex_header /\ ContentLength ex_header = 5.
Proof.
  split; [discriminate|]. split; [|vm_compute; reflexivity]. apply (header_list_accepted ascii_lower any_valid any_valid false 1000 ex_fields ex_header ltac:(discriminate)).
  exists [(":status", "200")]%string, (drop 1 ex_fields). split; [reflexivity|]. split; [exact ex_accepted|reflexivity].
Defined.
(** A pseudo header may come twice when the first value is empty. *)
Example empty_pseudo_twice : Status <$> (match parseHeaders ascii_lower any_valid any_valid ([(":status", ""); (":status", "200")]%string, None) false 1000 with Ok h => Some h | Err _ => None end) = Some "200"%string.
Proof. vm_compute. reflexivity. Qed.
