(* ===== verification/H3Stream.v ===== *)
(** * HTTP/3 request streams: reading a response ([src/internal/http3/stream.go], [body.go], [error.go], [client.go])

    The DATA frames of a stream, the body with its content length, the response and the loop
    over informational responses. QUIC's errors are recognized by a parameter; what is called
    on the stream or the connection is kept in a log. *)

From S2P Require Import Prelude.
From S2P Require Import H2Errors.
From S2P Require Import NetText.
From S2P Require Import Bufio.
From S2P Require Import BufioLine.
From S2P Require Import Chunked.
From S2P Require Import TextProto.
From S2P Require Import Transfer.
From S2P Require Import H3Frame.
From S2P Require Import H3Headers.

Definition ErrCodeExcessiveLoad : Z := 263.
Definition ErrCodeFrameError : Z := 262.
Definition ErrCodeRequestCanceled : Z := 268.
Definition ErrCodeRequestIncomplete : Z := 269.
Definition ErrCodeMessageError : Z := 270.
Definition ErrCodeQPACKDecompressionFailed : Z := 512.
Definition max1xxResponses : Z := 5.
Definition errTooMuchData : error := errors_New "peer sent too much data".

Inductive action := CancelRead (code : Z) | CancelWrite (code : Z) | CloseConn (code : Z).
(** [s_q]: what is to be read; [s_trailer]: the trailer of the response, which [parseTrailer] sets. *)
Record Stream := mkStream {
  s_q : qstream; bytesRemainingInFrame : Z; parsedTrailer : bool; s_trailer : option Header; s_log : list action }.
Definition set_q (s : Stream) (q : qstream) : Stream := mkStream q (bytesRemainingInFrame s) (parsedTrailer s) (s_trailer s) (s_log s).
Definition set_remaining (s : Stream) (n : Z) : Stream := mkStream (s_q s) n (parsedTrailer s) (s_trailer s) (s_log s).
Definition set_trailer (s : Stream) (t : option Header) : Stream := mkStream (s_q s) (bytesRemainingInFrame s) true t (s_log s).
Definition act (a : list action) (s : Stream) : Stream := mkStream (s_q s) (bytesRemainingInFrame s) (parsedTrailer s) (s_trailer s) (s_log s ++ a).
Definition hasMoreData (s : Stream) : bool := 0 <? bytesRemainingInFrame s.

(** [Error] *)
Definition h3_Error (remote : bool) (code : Z) (msg : string) : error := fmt_Errorf "H3 error" [if remote then "remote"%string else "local"%string; format_dec code; msg].

Section Reading.
Context `{QuicVarint} `{Qpack} (strings_ToLower : string -> string) (ValidHeaderFieldName ValidHeaderFieldValue : string -> bool).
(** What [errors.As] finds of QUIC's stream and application errors: whether the peer caused it,
    the code and the message. [stream_canceled]: the error of reading a stream after [CancelRead]. *)
Context (as_quic : error -> option (bool * Z * string)) (stream_canceled : Z -> error).

Definition maybeReplaceError (e : option error) : option error :=
  match e with
  | None => None
  | Some e => Some (match as_quic e with Some (remote, code, msg) => h3_Error remote code msg | None => e end)
  end.
(** [CancelRead] has no effect once the end of the stream was read. *)
Definition cancel_read (code : Z) (s : Stream) : Stream :=
  let q := s_q s in
  act [CancelRead code] (set_q s (if bool_decide (q_in q = []) && bool_decide (q_end q = io_EOF) then q else mkQ [] (stream_canceled code) false)).
Definition cancel_both (code : Z) (s : Stream) : Stream := act [CancelWrite code] (cancel_read code s).

(** [decodeTrailers] *)
Definition decodeTrailers (maxHeaderBytes : Z) (q : qstream) (l : Z) : result error Header * qstream :=
  if maxHeaderBytes <? l then (Err (fmt_Errorf "http3: HEADERS frame too large: %d bytes (max: %d)" [format_dec l; format_dec maxHeaderBytes]), q) else
  match q_ReadFull q l with
  | (Err e, q) => (Err e, q)
  | (Ok b, q) => (match parseTrailers (qp_Decode b) with Ok h => Ok h | Err e => Err (err_text e) end, q)
  end.
Definition read_data (s : Stream) (k : Z) : bytes * option error * Stream :=
  let '(d, err, q) := q_Read (s_q s) (if bytesRemainingInFrame s <? k then bytesRemainingInFrame s else k) in
  (d, err, set_remaining (set_q s q) (bytesRemainingInFrame s - len d)).
(** [Stream.Read] of a client's stream. *)
Definition Stream_Read (maxHeaderBytes : Z) (s : Stream) (k : Z) : option (bytes * option error * Stream) :=
  if negb (bytesRemainingInFrame s =? 0) then Some (read_data s k) else
  match ParseNext None (s_q s) with
  | None => None
  | Some pr =>
      let s := set_q (act (match pr_close pr with Some c => [CloseConn c] | None => [] end) s) (pr_rest pr) in
      match pr_frame pr with
      | Err e => Some ([], Some e, s)
      | Ok (dataFrame l) => if parsedTrailer s then Some ([], Some (errors_New "DATA frame received after trailers"), s) else Some (read_data (set_remaining s l) k)
      | Ok (headersFrame l _) =>
          if parsedTrailer s then Some ([], Some (errors_New "additional HEADERS frame received after trailers"), s) else
          match decodeTrailers maxHeaderBytes (s_q s) l with
          | (Err e, q) => Some ([], Some e, set_trailer (set_q s q) (s_trailer s))
          | (Ok h, q) => Some ([], None, set_trailer (set_q s q) (Some h))
          end
      | Ok _ => Some ([], Some (errors_New "peer sent an unexpected frame"), act [CloseConn ErrCodeFrameUnexpected] s)
      end
  end.

(** [body], and whether the channel [reqDone] is closed. *)
Record body := mkBody { remainingContentLength : Z; violatedContentLength : bool; hasContentLength : bool; reqDone : bool }.
Definition newBody (contentLength : Z) : body := mkBody (if 0 <=? contentLength then contentLength else 0) false (0 <=? contentLength) false.
Definition checkContentLengthViolation (b : body) (s : Stream) : option error * body * Stream :=
  if negb (hasContentLength b) then (None, b, s)
  else if (remainingContentLength b <? 0) || ((remainingContentLength b =? 0) && hasMoreData s) then
    (Some errTooMuchData, mkBody (remainingContentLength b) true true (reqDone b), if violatedContentLength b then s else cancel_both ErrCodeMessageError s)
  else (None, b, s).
Definition body_Read (max : Z) (b : body) (s : Stream) (k : Z) : option (bytes * option error * body * Stream) :=
  match checkContentLengthViolation b s with
  | (Some e, b, s) => Some ([], Some e, b, s)
  | (None, b, s) =>
      match Stream_Read max s (if hasContentLength b then Z.min k (remainingContentLength b) else k) with
      | None => None
      | Some (d, err, s) =>
          let b := mkBody (remainingContentLength b - len d) (violatedContentLength b) (hasContentLength b) (reqDone b) in
          match checkContentLengthViolation b s with
          | (Some e, b, s) => Some (d, Some e, b, s)
          | (None, b, s) => Some (d, maybeReplaceError err, b, s)
          end
      end
  end.
Definition requestDone (b : body) : body := mkBody (remainingContentLength b) (violatedContentLength b) (hasContentLength b) true.
(** [hijackableBody] *)
Definition hb_Read (max : Z) (b : body) (s : Stream) (k : Z) : option (bytes * option error * body * Stream) :=
  match body_Read max b s k with
  | None => None
  | Some (d, err, b, s) => Some (d, maybeReplaceError err, if is_set err then requestDone b else b, s)
  end.
Definition hb_Close (b : body) (s : Stream) : body * Stream := (requestDone b, cancel_read ErrCodeRequestCanceled s).

(** ** The response
    [BodyGzip]: the body inside a gzip reader. The field [responseBody] keeps what it was set to. *)
Inductive responseBody := BodyPlain | BodyGzip.
Record options := mkOptions { o_max : Z; o_requestedGzip : bool; o_AutoDecompression : bool; o_isConnect : bool }.
Record answer := mkAnswer { a_res : Response; a_Uncompressed : bool; a_body : option responseBody; a_state : body }.
Definition set_res (r : Response) (h : Header) (cl : Z) : Response :=
  mkResponse1 (rs_Proto r) (rs_Status r) (rs_StatusCode r) (rs_ProtoMajor r) (rs_ProtoMinor r) h cl (rs_TransferEncoding r) (rs_Close r) (rs_Trailer r) (rs_RequestMethod r).
Definition without_encoding (r : Response) : Response := set_res r (Header_Del (Header_Del (rs_Header r) "Content-Encoding") "Content-Length") (-1).
(** The end of [ReadResponse]: the compressed body of [AutoDecompression] is put into [res.Body],
    which the last line overwrites with [responseBody]. *)
Definition finish_response (o : options) (res : Response) (uncompressed : bool) (old : option responseBody) : answer :=
  let b := newBody (rs_ContentLength res) in
  let code := rs_StatusCode res in
  let noBody := ((100 <=? code) && (code <? 200)) || (code =? 204) || (o_isConnect o && (200 <=? code) && (code <? 300)) in
  let res := if noBody && (rs_ContentLength res =? -1) then set_res res (rs_Header res) 0 else res in
  let encoding := Header_Get (rs_Header res) "Content-Encoding" in
  if o_requestedGzip o && String.eqb encoding "gzip" then mkAnswer (without_encoding res) true (Some BodyGzip) b
  else if o_AutoDecompression o then
    if negb (String.eqb encoding "") then mkAnswer (without_encoding res) true old b else mkAnswer res uncompressed old b
  else mkAnswer res uncompressed (Some BodyPlain) b.
(** [ReadResponse], once the request is sent; [res] is [s.response], [old] is [s.responseBody]. *)
Definition ReadResponse (o : options) (res : Response) (uncompressed : bool) (old : option responseBody) (s : Stream) : option (result error answer * Stream) :=
  match ParseNext None (s_q s) with
  | None => None
  | Some pr =>
      let s := set_q (act (match pr_close pr with Some c => [CloseConn c] | None => [] end) s) (pr_rest pr) in
      match pr_frame pr with
      | Err e => Some (Err (fmt_Errorf "http3: parsing frame failed: %w" []), cancel_both ErrCodeFrameError s)
      | Ok (headersFrame l _) =>
          if o_max o <? l then Some (Err (fmt_Errorf "http3: HEADERS frame too large: %d bytes (max: %d)" [format_dec l; format_dec (o_max o)]), cancel_both ErrCodeFrameError s) else
          match q_ReadFull (s_q s) l with
          | (Err e, q) => Some (Err (fmt_Errorf "http3: failed to read response headers: %w" []), cancel_both ErrCodeRequestIncomplete (set_q s q))
          | (Ok headerBlock, q) =>
              let s := set_q s q in
              match updateResponseFromHeaders strings_ToLower ValidHeaderFieldName ValidHeaderFieldValue res (qp_Decode headerBlock) (o_max o) with
              | Err e => Some (Err (fmt_Errorf "http3: invalid response: %w" []), cancel_both (match e with qpackError _ => ErrCodeQPACKDecompressionFailed | otherError _ => ErrCodeMessageError end) s)
              | Ok res => Some (Ok (finish_response o res uncompressed old), s)
              end
          end
      | Ok _ => Some (Err (errors_New "http3: expected first frame to be a HEADERS frame"), act [CloseConn ErrCodeFrameUnexpected] s)
      end
  end.
Definition zero_response : Response := mkResponse1 "" "" 0 0 0 ∅ 0 [] false None "".
(** The loop of [doRequest] over informational responses; the second result is what was
    reported of them. *)
Fixpoint read_final (n : nat) (o : options) (num1xx : Z) (res : Response) (uncompressed : bool) (old : option responseBody) (s : Stream) : option (result error answer * list (Z * Header) * Stream) :=
  match n with
  | O => None
  | S n =>
      match ReadResponse o res uncompressed old s with
      | None => None
      | Some (Err e, s) => Some (Err e, [], s)
      | Some (Ok a, s) =>
          let code := rs_StatusCode (a_res a) in
          if (100 <=? code) && (code <=? 199) && negb (code =? 101) then
            if max1xxResponses <? num1xx + 1 then Some (Err (errors_New "http3: too many 1xx informational responses"), [], cancel_both ErrCodeExcessiveLoad s)
            else match read_final n o (num1xx + 1) (a_res a) (a_Uncompressed a) (a_body a) s with
                 | Some (r, told, s) => Some (r, (code, rs_Header (a_res a)) :: told, s)
                 | None => None
                 end
          else Some (Ok a, [], s)
      end
  end.
Definition read_answer (o : options) (s : Stream) : option (result error answer * list (Z * Header) * Stream) :=
  read_final 7 o 0 zero_response false None s.

(** ** What the peer sends
    DATA frames with other frames before each of them, the trailers, and more such frames. *)
Definition skips : Type := list (Z * bytes).
Definition skips_wire (l : skips) : bytes := concat (skipped_wire <$> l).
Definition chunk_wire (c : skips * bytes) : bytes := skips_wire c.1 ++ dataFrame_Append (len c.2) ++ c.2.
Definition trailers_wire (t : option (skips * list (string * string))) : bytes :=
  match t with None => [] | Some (l, fs) => skips_wire l ++ headersFrame_Append (len (qp_Encode fs)) ++ qp_Encode fs end.
Definition chunk_ok (c : skips * bytes) : Prop := Forall skipped_ok c.1 /\ len c.2 < varint_max.
Definition trailers_ok (max : Z) (t : option (skips * list (string * string))) : Prop :=
  match t with None => True | Some (l, fs) => Forall skipped_ok l /\ Forall (fun f => qp_IsPseudo f.1 = false) fs /\ len (qp_Encode fs) <= max end.
Definition trailer_header (fs : list (string * string)) : Header := fold_left (fun h f => Header_Add h f.1 f.2) fs ∅.
(** The stream is in the middle of this, [d] being what is left of the current frame, [p] what is left of
    the content, and [tr] the trailer at the end. *)
Record at_body (max : Z) (s : Stream) (p : bytes) (tr : option Header) : Prop := {
  ab_ok : segs_ok (s_q s) /\ q_end (s_q s) = io_EOF;
  ab_wire : exists d cs t post, bytesRemainingInFrame s = len d /\ p = d ++ concat cs.*2 /\ Forall chunk_ok cs /\ trailers_ok max t /\ Forall skipped_ok post /\
    q_content (s_q s) = d ++ concat (chunk_wire <$> cs) ++ trailers_wire t ++ skips_wire post /\
    tr = (match t with Some (_, fs) => Some (trailer_header fs) | None => s_trailer s end) /\ (parsedTrailer s = true -> cs = [] /\ t = None /\ d = []) }.
End Reading.

Section Proofs.
Context `{QuicVarintOk} `{QpackOk} (strings_ToLower : string -> string) (ValidHeaderFieldName ValidHeaderFieldValue : string -> bool).
Context (as_quic : error -> option (bool * Z * string)) (stream_canceled : Z -> error).

(** *** The parser *)
Lemma ParseNext_wire l fr p s r : Forall skipped_ok l -> frame_wire fr p -> q_content s = skips_wire l ++ p ++ r ->
  exists s', ParseNext None s = Some (mkParsed (Ok fr) s' None) /\ left_after (skips_wire l ++ p) s s' /\ q_content s' = r.
Proof.
  intros Hl Hw E. destruct (ParseNext_skips l Hl (S (length (q_content s))) s _ ltac:(lia) E) as (fuel & s1 & E1 & Hf & C1 & L1).
  destruct (ParseNext_frame fr p s1 r fuel Hw Hf C1) as (s2 & E2 & L2 & C2). exists s2. unfold ParseNext. rewrite E1, E2. split; [done|]. split; [by eapply left_trans|done].
Qed.
Lemma ParseNext_end l s : Forall skipped_ok l -> q_content s = skips_wire l -> exists s', ParseNext None s = Some (mkParsed (Err (q_end s)) s' None) /\ q_end s' = q_end s.
Proof.
  intros Hl E. destruct (ParseNext_skips l Hl (S (length (q_content s))) s [] ltac:(lia)) as (fuel & s1 & E1 & Hf & C1 & L1); [by rewrite app_nil_r|].
  exists (q_set s1 []). unfold ParseNext. rewrite E1. destruct fuel as [|fuel]; [lia|]. cbn [ParseNext_loop]. unfold q_varint. rewrite C1, qv_read_nil. destruct L1 as (_ & En & _). cbn. rewrite En. by split.
Qed.
Lemma Append_nonempty v r : 0 <= v < varint_max -> qv_Append v ++ r <> [].
Proof. intros Hv [E _]%app_nil. destruct (qv_length v Hv) as [El Hl]. rewrite E in El. rewrite len_nil in El. lia. Qed.

(** *** Reading the data of a frame *)
Lemma concat_nonempty (l : list bytes) : Forall (fun seg => seg <> []) l -> concat l = [] -> l = [].
Proof. destruct 1 as [|seg l Hs]; [done|]. cbn. by intros [? _]%app_nil. Qed.
Lemma q_Read_spec s k d err s' : segs_ok s -> 0 <= k -> q_Read s k = (d, err, s') ->
  segs_ok s' /\ q_end s' = q_end s /\ q_content s = d ++ q_content s' /\ len d <= k /\
  ((err = None /\ (0 < k -> q_content s <> [] -> d <> [])) \/ (err = Some (q_end s) /\ q_content s' = [])).
Proof.
  intros Hs Hk. unfold q_Read, segs_ok, q_content in *. destruct (q_in s) as [|seg rest] eqn:Eq.
  - intros [= <- <- <-]. rewrite Eq. do 3 (split; [done|]). split; [unfold len; cbn; lia|]. right. by split.
  - apply Forall_cons in Hs as [Hne Hs]. pose proof (len_nonneg seg). destruct (Z.leb_spec (len seg) k) as [Hle|Hlt]; intros [= <- <- <-]; cbn [q_in q_set q_end].
    + assert (slice_to seg k = seg) as -> by (unfold slice_to, len in *; apply take_ge; lia). split; [done|]. split; [done|]. split; [done|]. split; [done|].
      case_bool_decide as Er; rewrite ?andb_true_r, ?andb_false_r; [|by left]. destruct (q_eager s); [right|by left]. split; [done|]. by rewrite Er.
    + assert (slice_from seg k <> []) as Hn. { intros E%(f_equal len). rewrite len_slice_from in E by lia. change (len (@nil byte)) with 0 in E. lia. }
      split; [by constructor|]. split; [done|]. split; [cbn; by rewrite app_assoc, slice_to_from|]. split; [rewrite len_slice_to by lia; lia|]. rewrite andb_false_r. left. split; [done|].
      intros Hp _ E%(f_equal len). rewrite len_slice_to in E by lia. change (len (@nil byte)) with 0 in E. lia.
Qed.
Lemma read_data_spec s k d rest : segs_ok (s_q s) -> 0 <= k -> bytesRemainingInFrame s = len d -> q_content (s_q s) = d ++ rest ->
  exists d1 d2 err q, read_data s k = (d1, err, set_remaining (set_q s q) (len d2)) /\ d = d1 ++ d2 /\ len d1 <= k /\ segs_ok q /\ q_end q = q_end (s_q s) /\ q_content q = d2 ++ rest /\
  ((err = None /\ (0 < k -> d <> [] -> d1 <> [])) \/ (err = Some (q_end (s_q s)) /\ d2 = [] /\ rest = [])).
Proof.
  intros Hs Hk Hd Hc. unfold read_data. pose proof (len_nonneg d). set (k' := if bytesRemainingInFrame s <? k then bytesRemainingInFrame s else k).
  assert (0 <= k' <= k /\ k' <= len d /\ (0 < k -> d <> [] -> 0 < k')) as (Hk' & Hk2 & Hk3).
  { unfold k'. rewrite Hd. destruct (Z.ltb_spec (len d) k); (split; [lia|split; [lia|]]); intros; [|lia]. destruct d; [done|]. rewrite len_cons. pose proof (len_nonneg d). lia. }
  destruct (q_Read (s_q s) k') as [[d1 err] q] eqn:E. destruct (q_Read_spec _ _ _ _ _ Hs (proj1 Hk') E) as (S1 & S2 & S3 & S4 & S5).
  rewrite Hc in S3. assert (exists d2, d = d1 ++ d2 /\ q_content q = d2 ++ rest) as (d2 & -> & C).
  { apply app_eq_app in S3 as (l & [[-> E2]|[-> E2]]); [by exists l|]. assert (l = []) as -> by (apply len_zero; rewrite len_app in S4; pose proof (len_nonneg l); lia). exists []. rewrite !app_nil_r in *. by split. }
  exists d1, d2, err, q. rewrite Hd, len_app. replace (len d1 + len d2 - len d1) with (len d2) by lia. split; [done|]. split; [done|]. split; [lia|]. split; [done|]. split; [done|]. split; [done|].
  destruct S5 as [[-> S5]|[-> S5]]; [left|right]; (split; [done|]).
  - intros Hp Hne. apply S5; [by apply Hk3|]. rewrite Hc. by intros [? _]%app_nil.
  - rewrite C in S5. by apply app_nil in S5.
Qed.

(** *** Reading the content *)
Lemma trailer_fields_ok fs : Forall (fun f => qp_IsPseudo f.1 = false) fs -> forall h, trailer_fields fs h = Ok (fold_left (fun h f => Header_Add h f.1 f.2) fs h).
Proof. induction 1 as [|[n v] fs Hf _ IH]; intros h; cbn in *; [done|]. by rewrite Hf. Qed.
Lemma decodeTrailers_ok max q fs r : Forall (fun f => qp_IsPseudo f.1 = false) fs -> len (qp_Encode fs) <= max -> q_content q = qp_Encode fs ++ r ->
  exists q', decodeTrailers max q (len (qp_Encode fs)) = (Ok (trailer_header fs), q') /\ left_after (qp_Encode fs) q q' /\ q_content q' = r.
Proof.
  intros Hf Hm E. unfold decodeTrailers. rewrite (proj2 (Z.ltb_ge _ _)) by lia. destruct (q_ReadFull_ok _ q r E) as (q' & -> & L & C). exists q'.
  unfold parseTrailers. rewrite qp_roundtrip. cbn [fst snd]. rewrite trailer_fields_ok by done. by split.
Qed.
Lemma chunks_wire_nil cs t post : Forall chunk_ok cs -> concat (chunk_wire <$> cs) ++ trailers_wire t ++ skips_wire post = [] -> cs = [] /\ t = None.
Proof.
  intros Hc E. apply app_nil in E as [E1 E2]. apply app_nil in E2 as [E2 _]. split.
  - destruct Hc as [|c cs Hc]; [done|]. cbn in E1. apply app_nil in E1 as [E1 _]. unfold chunk_wire in E1. apply app_nil in E1 as [_ E1]. unfold dataFrame_Append in E1. rewrite <- app_assoc in E1. exfalso. by eapply Append_nonempty, E1.
  - destruct t as [[l fs]|]; [|done]. cbn in E2. apply app_nil in E2 as [_ E2]. unfold headersFrame_Append in E2. rewrite <- app_assoc in E2. exfalso. by eapply Append_nonempty, E2.
Qed.
Definition same_stream (s s' : Stream) : Prop := s_log s' = s_log s.
Lemma Stream_Read_step max s p tr k : max < varint_max -> at_body max s p tr -> 0 <= k ->
  exists d err s' p', Stream_Read max s k = Some (d, err, s') /\ p = d ++ p' /\ len d <= k /\ same_stream s s' /\
    ((err = None /\ at_body max s' p' tr /\ (0 < k \/ bytesRemainingInFrame s = 0 -> (length (q_content (s_q s')) < length (q_content (s_q s)))%nat)) \/ (err = Some io_EOF /\ p' = [] /\ s_trailer s' = tr /\ bytesRemainingInFrame s' = 0)).
Proof.
  intros Hmax [[Hs He] (d & cs & t & post & Hr & -> & Hcs & Ht & Hpost & Hc & Htr & Hpt)] Hk. unfold Stream_Read.
  assert (forall s0 d0 cs0, segs_ok (s_q s0) -> q_end (s_q s0) = io_EOF -> bytesRemainingInFrame s0 = len d0 -> Forall chunk_ok cs0 -> q_content (s_q s0) = d0 ++ concat (chunk_wire <$> cs0) ++ trailers_wire t ++ skips_wire post ->
    s_trailer s0 = s_trailer s -> (parsedTrailer s0 = true -> cs0 = [] /\ t = None /\ d0 = []) -> s_log s0 = s_log s ->
    (length (q_content (s_q s0)) < length (q_content (s_q s)))%nat \/ (length (q_content (s_q s0)) <= length (q_content (s_q s)))%nat /\ d0 <> [] /\ bytesRemainingInFrame s <> 0 ->
    exists d1 err s' p', Some (read_data s0 k) = Some (d1, err, s') /\ d0 ++ concat cs0.*2 = d1 ++ p' /\ len d1 <= k /\ same_stream s s' /\
    ((err = None /\ at_body max s' p' tr /\ (0 < k \/ bytesRemainingInFrame s = 0 -> (length (q_content (s_q s')) < length (q_content (s_q s)))%nat)) \/ (err = Some io_EOF /\ p' = [] /\ s_trailer s' = tr /\ bytesRemainingInFrame s' = 0))) as Hread.
  { intros s0 d0 cs0 Hs0 He0 Hr0 Hcs0 Hc0 Htr0 Hpt0 Hlog Hlen. destruct (read_data_spec s0 k d0 _ Hs0 Hk Hr0 Hc0) as (d1 & d2 & err & q & -> & -> & Hd1 & Hq & Eq & Cq & Herr).
    eexists d1, err, _, (d2 ++ concat cs0.*2). split; [reflexivity|]. split; [symmetry; apply app_assoc|]. split; [done|]. split; [done|]. destruct Herr as [[-> Hp]|(-> & -> & Hn)].
    - left. split; [done|]. split.
      + constructor; [by rewrite <- He0|]. exists d2, cs0, t, post. cbn. split; [done|]. split; [done|]. split; [done|]. split; [done|]. split; [done|]. split; [done|]. split; [by rewrite Htr0|]. intros Hpp. destruct (Hpt0 Hpp) as (-> & -> & [_ ->]%app_nil). done.
      + intros Hkp. cbn. assert ((length (q_content (s_q s0)) = length d1 + length (q_content q))%nat) as El by (rewrite Hc0, Cq, <- app_assoc, !length_app; lia).
        destruct Hlen as [?|(? & Hne & Hr1)]; [lia|]. assert (d1 <> []) as Hd. { apply Hp; [|done]. by destruct Hkp. } destruct d1; [done|]. cbn in El. lia.
    - right. rewrite He0. apply chunks_wire_nil in Hn as [-> ->]; [|done]. split; [done|]. split; [done|]. split; [by rewrite Htr|done]. }
  destruct (Z.eqb_spec (bytesRemainingInFrame s) 0) as [Hd|Hd]; cbn [negb].
  2:{ apply (Hread s d cs); try done. right. split; [done|]. split; [|done]. intros ->. by rewrite Hr in Hd. }
  rewrite Hr in Hd. apply len_zero in Hd. subst d. cbn [app] in *. destruct cs as [|c cs].
  - destruct t as [[l fs]|].
    + destruct Ht as (Hl & Hf & Hm). cbn [fmap list_fmap concat app] in *. cbn in Hc. rewrite <- !app_assoc in Hc. assert (parsedTrailer s = false) as Hps by (destruct (parsedTrailer s); [by destruct (Hpt eq_refl) as (_ & ? & _)|done]).
      destruct (ParseNext_wire l _ _ (s_q s) _ Hl (wire_headers (len (qp_Encode fs)) ltac:(split; [apply len_nonneg|lia])) Hc) as (q1 & E1 & L1 & C1). rewrite E1. cbn [pr_frame pr_rest pr_close s_q set_q act parsedTrailer]. rewrite Hps.
      destruct (decodeTrailers_ok max q1 fs _ Hf Hm C1) as (q2 & -> & L2 & C2). eexists _, _, _, []. split; [reflexivity|]. split; [done|]. split; [done|]. split; [apply app_nil_r|]. left. split; [done|].
      pose proof (left_trans _ _ _ _ _ L1 L2) as (L & Le & _ & Ls). split.
      * constructor; [split; [by apply Ls|cbn; by rewrite Le]|]. exists [], [], None, post. cbn. split; [done|]. split; [done|]. split; [done|]. split; [done|]. split; [done|]. split; [done|]. split; [done|]. done.
      * intros _. cbn. rewrite L, length_app. unfold headersFrame_Append. destruct (qv_length 1 ltac:(unfold varint_max; lia)) as [Ev Hv]. unfold len in Ev. rewrite !length_app. lia.
    + cbn in Hc. destruct (ParseNext_end post (s_q s) Hpost Hc) as (q1 & -> & Eq1). cbn. rewrite He. eexists _, _, _, []. split; [reflexivity|]. split; [done|]. split; [done|]. split; [apply app_nil_r|]. right. split; [done|]. split; [done|]. split; [by rewrite Htr|done].
  - destruct (parsedTrailer s) eqn:Hps; [by destruct (Hpt eq_refl)|]. apply Forall_cons in Hcs as [[Hl Hm] Hcs]. cbn [fmap list_fmap concat] in *. unfold chunk_wire at 1 in Hc. rewrite <- !app_assoc in Hc.
    destruct (ParseNext_wire _ _ _ (s_q s) _ Hl (wire_data (len c.2) ltac:(split; [apply len_nonneg|done])) Hc) as (q1 & E1 & L1 & C1). rewrite E1. cbn [pr_frame pr_rest pr_close s_q set_q act parsedTrailer]. rewrite Hps.
    destruct L1 as (L & Le & _ & Ls). apply (Hread _ c.2 cs); cbn; try done; [by apply Ls|by rewrite Le|by rewrite Hps|by rewrite app_nil_r|].
    left. rewrite L, length_app. unfold dataFrame_Append. destruct (qv_length 0 ltac:(unfold varint_max; lia)) as [Ev Hv]. unfold len in Ev. rewrite !length_app. lia.
Qed.

(** *** The body *)
Context (eof_kept : as_quic io_EOF = None) (too_much_kept : as_quic errTooMuchData = None).
Abbreviation Read := (hb_Read as_quic stream_canceled).
(** Reading with one buffer after the other, up to an error. *)
Fixpoint read_all (max : Z) (rooms : list Z) (b : body) (s : Stream) : option (bytes * option error * body * Stream) :=
  match rooms with
  | [] => Some ([], None, b, s)
  | k :: rooms =>
      match Read max b s k with
      | None => None
      | Some (d, Some e, b, s) => Some (d, Some e, b, s)
      | Some (d, None, b, s) => match read_all max rooms b s with Some (d', e, b, s) => Some (d ++ d', e, b, s) | None => None end
      end
  end.
Definition violation : list action := [CancelRead ErrCodeMessageError; CancelWrite ErrCodeMessageError].
(** How reading ends, [p] being left of the content and [b] allowing so much of it. *)
Definition body_end (b : body) (s : Stream) (p : bytes) (tr : option Header) (d : bytes) (e : error) (s' : Stream) : Prop :=
  if hasContentLength b && (remainingContentLength b <? len p) then d = slice_to p (remainingContentLength b) /\ e = errTooMuchData /\ s_log s' = s_log s ++ violation
  else d = p /\ e = io_EOF /\ s_trailer s' = tr /\ s_log s' = s_log s.
Definition body_ok (b : body) : Prop := (hasContentLength b = true -> 0 <= remainingContentLength b) /\ violatedContentLength b = false.
Lemma at_body_data max s p tr : at_body max s p tr -> 0 <= bytesRemainingInFrame s <= len p.
Proof. intros [_ (d & cs & t & post & -> & -> & _)]. rewrite len_app. pose proof (len_nonneg d). pose proof (len_nonneg (concat cs.*2)). lia. Qed.
Lemma hb_Read_step max b s p tr k : max < varint_max -> at_body max s p tr -> body_ok b -> 0 < k ->
  exists d err b' s', Read max b s k = Some (d, err, b', s') /\
    ((exists p', err = None /\ p = d ++ p' /\ at_body max s' p' tr /\ body_ok b' /\ hasContentLength b' = hasContentLength b /\ (hasContentLength b = true -> remainingContentLength b' = remainingContentLength b - len d) /\
       s_log s' = s_log s /\ (length (q_content (s_q s')) < length (q_content (s_q s)))%nat) \/
     (exists e, err = Some e /\ reqDone b' = true /\ body_end b s p tr d e s')).
Proof.
  intros Hmax Hb [Hr Hv] Hk. pose proof (at_body_data _ _ _ _ Hb) as Hd. unfold hb_Read, body_Read, checkContentLengthViolation at 1, body_end, hasMoreData at 1.
  destruct (hasContentLength b) eqn:Ehas; cbn [negb andb]; cbv beta iota; rewrite ?Ehas.
  - specialize (Hr eq_refl). rewrite (proj2 (Z.ltb_ge (remainingContentLength b) 0)) by lia. cbn [orb]. rewrite Hv. destruct (Z.eqb_spec (remainingContentLength b) 0) as [E0|E0]; cbn [andb].
    + destruct (Z.ltb_spec 0 (bytesRemainingInFrame s)) as [Hm|Hm].
      { cbn [maybeReplaceError]. rewrite too_much_kept. cbn. eexists _, _, _, _. split; [reflexivity|]. right. eexists. split; [reflexivity|]. split; [reflexivity|]. rewrite (proj2 (Z.ltb_lt _ _)) by lia. rewrite E0. split; [done|]. split; [done|]. cbn. by rewrite <- app_assoc. }
      cbv beta iota. rewrite Ehas, E0, Z.min_r by lia. destruct (Stream_Read_step max s p tr 0 Hmax Hb ltac:(lia)) as (d & err & s' & p' & -> & -> & Hld & Hlog & Herr). assert (d = []) as -> by (apply len_zero; pose proof (len_nonneg d); lia). cbv beta iota. change (len (@nil Z)) with 0. rewrite Z.sub_0_r. cbn [app].
      unfold checkContentLengthViolation. cbn [hasContentLength remainingContentLength violatedContentLength negb Z.ltb orb]. change (0 <? 0) with false. change (0 =? 0) with true. cbn [orb andb]. unfold hasMoreData.
      destruct Herr as [(-> & Hb' & Hlt)|(-> & -> & Htr & Hz)].
      * pose proof (at_body_data _ _ _ _ Hb') as Hd'. destruct (Z.ltb_spec 0 (bytesRemainingInFrame s')) as [Hm'|Hm'].
        { cbn [maybeReplaceError]. rewrite too_much_kept. cbn. eexists _, _, _, _. split; [reflexivity|]. right. eexists. split; [reflexivity|]. split; [reflexivity|]. rewrite (proj2 (Z.ltb_lt _ _)) by lia. split; [done|]. split; [done|]. rewrite Hv. cbn. by rewrite <- app_assoc, Hlog. }
        cbn. eexists _, _, _, _. split; [reflexivity|]. left. exists p'. split; [done|]. split; [done|]. split; [done|]. split; [by split|]. split; [done|]. split; [done|]. split; [done|]. apply Hlt. right. lia.
      * rewrite Hz. cbn. rewrite eof_kept. cbn. rewrite eof_kept. eexists _, _, _, _. split; [reflexivity|]. right. eexists. split; [reflexivity|]. done.
    + cbv beta iota. rewrite Ehas. destruct (Stream_Read_step max s p tr (Z.min k (remainingContentLength b)) Hmax Hb ltac:(lia)) as (d & err & s' & p' & -> & -> & Hld & Hlog & Herr).
      unfold checkContentLengthViolation. cbn [hasContentLength remainingContentLength violatedContentLength negb]. rewrite (proj2 (Z.ltb_ge _ 0)) by lia. cbn [orb]. rewrite len_app. pose proof (len_nonneg p') as Hp'. unfold hasMoreData.
      destruct Herr as [(-> & Hb' & Hlt)|(-> & -> & Htr & Hz)].
      * pose proof (at_body_data _ _ _ _ Hb') as Hd'. destruct (_ && _) eqn:Ev.
        { apply andb_true_iff in Ev as [Ev1%Z.eqb_eq Ev2%Z.ltb_lt]. cbn [maybeReplaceError]. rewrite too_much_kept. cbn. eexists _, _, _, _. split; [reflexivity|]. right. eexists. split; [reflexivity|]. split; [reflexivity|]. rewrite (proj2 (Z.ltb_lt _ _)) by lia.
          split; [symmetry; apply slice_to_app; lia|]. split; [done|]. rewrite Hv. cbn. by rewrite <- app_assoc, Hlog. }
        cbn. eexists _, _, _, _. split; [reflexivity|]. left. exists p'. split; [done|]. split; [done|]. split; [done|]. split; [split; [cbn; lia|done]|]. split; [done|]. split; [done|]. split; [done|]. apply Hlt. left. lia.
      * rewrite Hz, andb_false_r. cbn. rewrite eof_kept. cbn. rewrite eof_kept. eexists _, _, _, _. split; [reflexivity|]. right. eexists. split; [reflexivity|]. split; [reflexivity|]. rewrite len_nil, (proj2 (Z.ltb_ge _ _)) by lia. by rewrite app_nil_r.
  - destruct (Stream_Read_step max s p tr k Hmax Hb ltac:(lia)) as (d & err & s' & p' & -> & -> & Hld & Hlog & Herr). unfold checkContentLengthViolation. cbn [hasContentLength negb].
    destruct Herr as [(-> & Hb' & Hlt)|(-> & -> & Htr & Hz)].
    + eexists _, _, _, _. split; [reflexivity|]. left. exists p'. split; [done|]. split; [done|]. split; [done|].
      split; [by split|]. split; [done|]. split; [done|]. split; [done|]. apply Hlt. by left.
    + cbn. rewrite eof_kept. cbn. rewrite eof_kept. eexists _, _, _, _. split; [reflexivity|]. right. eexists. split; [reflexivity|]. split; [reflexivity|]. by rewrite app_nil_r.
Qed.
Lemma body_end_cons b s d p' tr b' s' d' e s'' : hasContentLength b' = hasContentLength b -> (hasContentLength b = true -> remainingContentLength b' = remainingContentLength b - len d) -> body_ok b' ->
  s_log s' = s_log s -> body_end b' s' p' tr d' e s'' -> body_end b s (d ++ p') tr (d ++ d') e s''.
Proof.
  intros Eh Er [Hr _] El. unfold body_end. rewrite Eh in *. destruct (hasContentLength b); cbn [andb]; [|intros (-> & -> & -> & ->); by rewrite El].
  specialize (Er eq_refl). specialize (Hr eq_refl). rewrite Er in *. rewrite len_app. destruct (Z.ltb_spec (remainingContentLength b - len d) (len p')).
  - rewrite (proj2 (Z.ltb_lt _ _)) by lia. intros (-> & -> & ->). rewrite El. split; [|done]. unfold slice_to, len in *. rewrite take_app. f_equal; [symmetry; apply take_ge; lia|]. f_equal. lia.
  - rewrite (proj2 (Z.ltb_ge _ _)) by lia. intros (-> & -> & -> & ->). by rewrite El.
Qed.
Lemma read_all_ends max tr rooms : max < varint_max -> Forall (fun k => 0 < k) rooms -> forall b s p, at_body max s p tr -> body_ok b -> (length (q_content (s_q s)) < length rooms)%nat ->
  exists d e b' s', read_all max rooms b s = Some (d, Some e, b', s') /\ reqDone b' = true /\ body_end b s p tr d e s'.
Proof.
  intros Hmax. induction 1 as [|k rooms Hk _ IH]; intros b s p Hb Ho Hl; cbn in Hl; [lia|]. cbn [read_all].
  destruct (hb_Read_step max b s p tr k Hmax Hb Ho Hk) as (d & err & b' & s' & -> & [(p' & -> & -> & Hb' & Ho' & Eh & Er & El & Hlt)|(e & -> & Hdone & He)]).
  - destruct (IH b' s' p' Hb' Ho' ltac:(lia)) as (d' & e & b2 & s2 & -> & Hdone & He). eexists _, _, _, _. split; [reflexivity|]. split; [done|]. by eapply body_end_cons.
  - eexists _, _, _, _. by split.
Qed.

(** A body that is whole, with its length or without one, and no more. *)
Lemma whole_body_read max tr rooms s p cl : max < varint_max -> Forall (fun k => 0 < k) rooms -> at_body max s p tr -> cl = -1 \/ cl = len p -> (length (q_content (s_q s)) < length rooms)%nat ->
  exists b s', read_all max rooms (newBody cl) s = Some (p, Some io_EOF, b, s') /\ reqDone b = true /\ s_trailer s' = tr /\ s_log s' = s_log s.
Proof.
  intros Hmax Hk Hb Hcl Hl. pose proof (len_nonneg p). destruct (read_all_ends max tr rooms Hmax Hk (newBody cl) s p Hb) as (d & e & b & s' & E & Hdone & He); [|done|].
  - split; [|done]. unfold newBody. cbn. intros _. destruct (Z.leb_spec 0 cl); lia.
  - exists b, s'. unfold body_end, newBody in He. cbn in He. destruct (Z.leb_spec 0 cl); cbn in He; [rewrite (proj2 (Z.ltb_ge cl (len p))) in He by lia|]; by destruct He as (-> & -> & ? & ?).
Qed.

(** The content of a response is read exactly. Whatever frames of other types are between the
    DATA frames, however the stream is cut, and whatever buffers the caller reads with:
    without a Content-Length, or with one that is not less than the content, the caller gets the
    content, then the end, and the trailers; with a smaller one it gets so many bytes
    and an error, and the stream is cancelled with H3_MESSAGE_ERROR. Reading ends, and
    then the goroutine that waits for the end of the request is told. *)
Theorem h3_body_read max tr rooms s p cl : max < varint_max -> Forall (fun k => 0 < k) rooms -> at_body max s p tr -> -1 <= cl -> (length (q_content (s_q s)) < length rooms)%nat ->
  exists d e b s', read_all max rooms (newBody cl) s = Some (d, Some e, b, s') /\ reqDone b = true /\
    if (0 <=? cl) && (cl <? len p) then d = slice_to p cl /\ e = errTooMuchData /\ s_log s' = s_log s ++ violation
    else d = p /\ e = io_EOF /\ s_trailer s' = tr /\ s_log s' = s_log s.
Proof.
  intros Hmax Hk Hb Hcl Hl. destruct (read_all_ends max tr rooms Hmax Hk (newBody cl) s p Hb) as (d & e & b & s' & E & Hdone & He); [|done|].
  - split; [|done]. unfold newBody. cbn. intros _. destruct (Z.leb_spec 0 cl); lia.
  - exists d, e, b, s'. split; [done|]. split; [done|]. unfold body_end, newBody in He. cbn in He. destruct (Z.leb_spec 0 cl); [done|]. done.
Qed.

(** ** The response *)
Abbreviation update := (updateResponseFromHeaders strings_ToLower ValidHeaderFieldName ValidHeaderFieldValue).
Abbreviation read_response := (ReadResponse strings_ToLower ValidHeaderFieldName ValidHeaderFieldValue stream_canceled).
Abbreviation answer_of := (read_answer strings_ToLower ValidHeaderFieldName ValidHeaderFieldValue stream_canceled).
Definition head_wire (h : skips * list (string * string)) : bytes := skips_wire h.1 ++ headersFrame_Append (len (qp_Encode h.2)) ++ qp_Encode h.2.
Definition head_ok (max : Z) (h : skips * list (string * string)) : Prop := Forall skipped_ok h.1 /\ len (qp_Encode h.2) <= max.
(** A field list that is a response with this status, header and content length (-1 if none). *)
Definition response_head (max : Z) (fs : list (string * string)) (code : Z) (h : Header) (cl : Z) : Prop :=
  exists ps rs, fs = ps ++ rs /\ accepted strings_ToLower ValidHeaderFieldName ValidHeaderFieldValue false max ps rs /\
    Atoi (Status (header_of ps rs)) = Some code /\ h = (processTrailers (Headers (header_of ps rs)) None).1 /\ cl = ContentLength (header_of ps rs).
Lemma update_ok max fs code h cl res : 0 <= max -> response_head max fs code h cl ->
  exists r, update res (fs, None) max = Ok r /\ rs_StatusCode r = code /\ rs_Header r = h /\ rs_ContentLength r = cl.
Proof.
  intros Hm (ps & rs & -> & Ha & Hs & -> & ->). unfold updateResponseFromHeaders. rewrite (accepted_read _ _ _ false max ps rs Hm Ha).
  destruct (String.eqb_spec (Status (header_of ps rs)) "") as [E|]; [by rewrite E in Hs|]. unfold processTrailers. destruct (_ !! "Trailer"%string); rewrite Hs; eexists; (split; [reflexivity|done]).
Qed.
Lemma act_nil s : act [] s = s. Proof. destruct s. unfold act. cbn. by rewrite app_nil_r. Qed.
Lemma ReadResponse_ok o res u old s h rest code hd cl : 0 <= o_max o < varint_max -> head_ok (o_max o) h -> response_head (o_max o) h.2 code hd cl -> q_content (s_q s) = head_wire h ++ rest ->
  exists r q, read_response o res u old s = Some (Ok (finish_response o r u old), set_q s q) /\ left_after (head_wire h) (s_q s) q /\ q_content q = rest /\ rs_StatusCode r = code /\ rs_Header r = hd /\ rs_ContentLength r = cl.
Proof.
  intros Hm [Hl Hlen] Hh E. unfold head_wire in E. rewrite <- !app_assoc in E. destruct (ParseNext_wire h.1 _ _ (s_q s) _ Hl (wire_headers (len (qp_Encode h.2)) ltac:(split; [apply len_nonneg|lia])) E) as (q1 & E1 & L1 & C1).
  destruct (q_ReadFull_ok _ q1 rest C1) as (q2 & E2 & L2 & C2). destruct (update_ok (o_max o) h.2 code hd cl res ltac:(lia) Hh) as (r & Er & R1 & R2 & R3).
  exists r, q2. unfold ReadResponse. rewrite E1. cbn [pr_frame pr_rest pr_close]. rewrite act_nil, (proj2 (Z.ltb_ge _ _)) by lia. cbn [s_q set_q]. rewrite E2, qp_roundtrip, Er. split; [done|]. split; [|done].
  unfold head_wire. rewrite app_assoc. by eapply left_trans.
Qed.
Definition informational (code : Z) : bool := (100 <=? code) && (code <=? 199) && negb (code =? 101).
Lemma finish_code o r u old : rs_StatusCode (a_res (finish_response o r u old)) = rs_StatusCode r.
Proof. unfold finish_response. by repeat (case_match; try done). Qed.
Lemma finish_state o r u old : a_state (finish_response o r u old) = newBody (rs_ContentLength r).
Proof. unfold finish_response. by repeat (case_match; try done). Qed.
Lemma set_q_twice s q q' : set_q (set_q s q) q' = set_q s q'. Proof. done. Qed.
(** What the caller is shown of a head: when the transport asked for gzip itself and got it, the body is decoded, without the fields that speak of
    the encoding and without a length; a response that cannot have a body has length 0. *)
Definition gunzips (o : options) (h : Header) : bool := o_requestedGzip o && String.eqb (Header_Get h "Content-Encoding") "gzip".
Definition shown (o : options) (h : Header) : Header := if gunzips o h then Header_Del (Header_Del h "Content-Encoding") "Content-Length" else h.
Definition bodyless (o : options) (code : Z) : bool := ((100 <=? code) && (code <? 200)) || (code =? 204) || (o_isConnect o && (200 <=? code) && (code <? 300)).
Definition shown_length (o : options) (code : Z) (h : Header) (cl : Z) : Z := if gunzips o h then -1 else if bodyless o code && (cl =? -1) then 0 else cl.
Lemma finish_shown o r u old : o_AutoDecompression o = false -> let a := finish_response o r u old in
  rs_Header (a_res a) = shown o (rs_Header r) /\ rs_ContentLength (a_res a) = shown_length o (rs_StatusCode r) (rs_Header r) (rs_ContentLength r) /\
  a_body a = Some (if gunzips o (rs_Header r) then BodyGzip else BodyPlain).
Proof.
  intros Ha. unfold finish_response, shown, shown_length, gunzips. fold (bodyless o (rs_StatusCode r)). set (r2 := if bodyless o _ && _ then _ else r).
  assert (rs_Header r2 = rs_Header r /\ rs_ContentLength r2 = if bodyless o (rs_StatusCode r) && (rs_ContentLength r =? -1) then 0 else rs_ContentLength r) as [E1 E2] by (unfold r2; by destruct (_ && _)).
  rewrite <- E1, <- E2, Ha. by destruct (o_requestedGzip o && _).
Qed.
Lemma read_final_ok o fin code hd cl rest : 0 <= o_max o < varint_max -> o_AutoDecompression o = false -> head_ok (o_max o) fin -> response_head (o_max o) fin.2 code hd cl -> informational code = false ->
  forall infos heads, Forall2 (fun h ch => head_ok (o_max o) h /\ informational ch.1 = true /\ exists cl, response_head (o_max o) h.2 ch.1 ch.2 cl) infos heads ->
  forall n num res u old s, (length infos < n)%nat -> num + Z.of_nat (length infos) <= 5 -> q_content (s_q s) = concat (head_wire <$> infos) ++ head_wire fin ++ rest ->
  exists r u' old' told q, read_final strings_ToLower ValidHeaderFieldName ValidHeaderFieldValue stream_canceled n o num res u old s = Some (Ok (finish_response o r u' old'), told, set_q s q) /\
    told = prod_map id (shown o) <$> heads /\ left_after (concat (head_wire <$> infos) ++ head_wire fin) (s_q s) q /\ q_content q = rest /\ rs_StatusCode r = code /\ rs_Header r = hd /\ rs_ContentLength r = cl.
Proof.
  intros Hm Hauto Hf Hh Hc infos heads. induction 1 as [|h [c hd'] infos heads (Hi1 & Hi2 & cl' & Hi3) _ IH]; intros n num res u old s Hn Hnum E; (destruct n as [|n]; [cbn in Hn; lia|]); cbn [read_final].
  - destruct (ReadResponse_ok o res u old s fin rest code hd cl Hm Hf Hh E) as (r & q & -> & L & C & R1 & R2 & R3). rewrite finish_code, R1. fold (informational code). rewrite Hc. eexists r, _, _, _, q. split; [reflexivity|]. done.
  - cbn [fmap list_fmap concat fst snd] in *. rewrite <- app_assoc in E. destruct (ReadResponse_ok o res u old s h _ c hd' cl' Hm Hi1 Hi3 E) as (r & q & -> & L & C & R1 & R2 & R3). rewrite finish_code, R1. fold (informational c). rewrite Hi2.
    cbn [length] in Hn, Hnum. rewrite (proj2 (Z.ltb_ge max1xxResponses _)) by (unfold max1xxResponses; lia).
    destruct (IH n (num + 1) (a_res (finish_response o r u old)) (a_Uncompressed (finish_response o r u old)) (a_body (finish_response o r u old)) (set_q s q) ltac:(lia) ltac:(lia) C) as (r2 & u2 & old2 & told & q2 & -> & T & L2 & C2 & R).
    destruct (finish_shown o r u old Hauto) as (E1 & _). rewrite E1, R2, T. eexists r2, _, _, _, q2. split; [reflexivity|]. split; [done|]. split; [|done]. rewrite <- app_assoc. by eapply left_trans.
Qed.
(** A stream on which nothing was read. *)
Definition fresh (s : Stream) : Prop := segs_ok (s_q s) /\ q_end (s_q s) = io_EOF /\ bytesRemainingInFrame s = 0 /\ parsedTrailer s = false /\ s_trailer s = None /\ s_log s = [].

(** C11: what a server sends as a response is what the caller gets, with [AutoDecompression] off: after at most five informational
    responses, which are reported in their order with their headers, the status, the header and the content
    length of the final one (those of the decoded content when the transport asked for gzip and got it), and from its body the content of the DATA frames and then the
    trailers; nothing is cancelled and the connection is not closed. This holds for every
    segmentation, and with frames of other types before and between those frames. *)
Theorem h3_response_roundtrip o s infos heads fin code hd cl cs t post p : 0 <= o_max o < varint_max -> o_AutoDecompression o = false -> fresh s ->
  Forall2 (fun h ch => head_ok (o_max o) h /\ informational ch.1 = true /\ exists cl, response_head (o_max o) h.2 ch.1 ch.2 cl) infos heads -> (length infos <= 5)%nat ->
  head_ok (o_max o) fin -> response_head (o_max o) fin.2 code hd cl -> informational code = false ->
  Forall chunk_ok cs -> trailers_ok (o_max o) t -> Forall skipped_ok post -> p = concat cs.*2 -> (cl = -1 \/ cl = len p) ->
  q_content (s_q s) = concat (head_wire <$> infos) ++ head_wire fin ++ concat (chunk_wire <$> cs) ++ trailers_wire t ++ skips_wire post ->
  exists a told s1, answer_of o s = Some (Ok a, told, s1) /\ told = prod_map id (shown o) <$> heads /\
    rs_StatusCode (a_res a) = code /\ rs_Header (a_res a) = shown o hd /\ rs_ContentLength (a_res a) = shown_length o code hd cl /\
    a_body a = Some (if gunzips o hd then BodyGzip else BodyPlain) /\
    forall rooms, Forall (fun k => 0 < k) rooms -> (length (q_content (s_q s1)) < length rooms)%nat ->
      exists b s2, read_all (o_max o) rooms (a_state a) s1 = Some (p, Some io_EOF, b, s2) /\ reqDone b = true /\ s_trailer s2 = (trailer_header ∘ snd) <$> t /\ s_log s2 = [].
Proof.
  intros Hm Hauto (F1 & F2 & F3 & F4 & F5 & F6) Hi Hn Hf Hh Hc Hcs Ht Hpost Hp Hcl E. unfold read_answer.
  destruct (read_final_ok o fin code hd cl _ Hm Hauto Hf Hh Hc infos heads Hi 7 0 zero_response false None s ltac:(lia) ltac:(lia) E) as (r & u & old & told & q & -> & T & (L1 & L2 & _ & L3) & C & R1 & R2 & R3).
  assert (at_body (o_max o) (set_q s q) p ((trailer_header ∘ snd) <$> t)) as Hb.
  { constructor; [split; [by apply L3|cbn; by rewrite L2]|]. exists [], cs, t, post. cbn. split; [by rewrite F3|]. split; [done|]. split; [done|]. split; [done|]. split; [done|]. split; [done|]. split; [by destruct t as [[]|]|]. by rewrite F4. }
  destruct (finish_shown o r u old Hauto) as (S1 & S2 & S3). rewrite R1, R2, R3 in *. eexists _, _, _. split; [reflexivity|]. split; [done|]. rewrite finish_code, finish_state, R1, R3. split; [done|]. split; [done|]. split; [done|]. split; [done|].
  intros rooms Hk Hl. destruct (whole_body_read (o_max o) _ rooms _ p cl ltac:(lia) Hk Hb Hcl Hl) as (b & s2 & E2 & Hd & He1 & He2). exists b, s2. split; [done|]. split; [done|]. split; [done|]. by rewrite He2.
Qed.

(** With [AutoDecompression] and without a gzip request of the transport's own, every response
    over HTTP/3 comes with a nil body, its content is lost. *)
Theorem h3_auto_decompression_loses_body o s a told s' : o_AutoDecompression o = true -> o_requestedGzip o = false -> read_answer strings_ToLower ValidHeaderFieldName ValidHeaderFieldValue stream_canceled o s = Some (Ok a, told, s') -> a_body a = None.
Proof.
  intros Hauto Hgz. unfold read_answer. generalize zero_response, 0, false. generalize (eq_refl (@None responseBody)). generalize (@None responseBody) at 2 3. revert s told. generalize 7%nat. intros n.
  induction n as [|n IH]; intros s told old Hold res num u; cbn [read_final]; [done|]. destruct (read_response o res u old s) as [[[a1|e] s1]|] eqn:E; try done.
  assert (a_body a1 = None) as Hb.
  { unfold ReadResponse in E. destruct (ParseNext None (s_q s)) as [pr|]; [|done]. destruct (pr_frame pr) as [[l|l hl|f|id]|]; try done. destruct (_ <? l); [done|]. destruct (q_ReadFull _ l) as [[blk|] q]; [|done].
    destruct (update res (qp_Decode blk) (o_max o)) as [r|]; [|done]. injection E as <- _. unfold finish_response. rewrite Hgz, Hauto. cbn [andb]. destruct (negb _); by rewrite <- Hold. }
  destruct (_ && _); [|by intros [= <- _ _]]. destruct (_ <? _); [done|]. destruct (read_final _ _ _ _ n _ _ _ _ _ s1) as [[[r told1] s2]|] eqn:E2; [|done]. intros [= -> _ ->]. eapply IH; [|exact E2]. by rewrite Hb.
Qed.
End Proofs.

(** ** Examples *)
Definition no_quic (_ : error) : option (bool * Z * string) := None.
Definition canceled_with (code : Z) : error := fmt_Errorf "stream canceled" [format_dec code].
Definition ex_read (s : Stream) (cl : Z) (rooms : list Z) : option (bytes * option error) :=
  match read_all no_quic canceled_with 1000 rooms (newBody cl) s with Some (d, e, _, _) => Some (d, e) | None => None end.
Definition ex_bytes : bytes := bytes_of_string "hello".
(** Two DATA frames, with an unknown frame before the second, and a trailer. *)
Definition ex_chunks : list (skips * bytes) := [([], slice_to ex_bytes 2); ([(33, [7])], slice_from ex_bytes 2)].
Definition ex_trailers : option (skips * list (string * string)) := Some ([], [("x-checksum", "42")]%string).
Definition body_content : bytes := concat (chunk_wire <$> ex_chunks) ++ trailers_wire ex_trailers ++ skips_wire [].
Definition cut_at (n : Z) (p : bytes) : list bytes := [slice_to p n; slice_from p n].
Definition stream_on (p : bytes) : Stream := mkStream (mkQ (cut_at 3 p) io_EOF false) 0 false None [].
Lemma ex_chunks_ok : Forall chunk_ok ex_chunks.
Proof.
  constructor; [split; [constructor|reflexivity]|]. constructor; [|constructor]. split; [|reflexivity]. constructor; [|constructor]. split; [|reflexivity]. split; [split; [discriminate|reflexivity]|].
  cbn. rewrite !not_elem_of_cons. repeat split; try discriminate. apply not_elem_of_nil.
Qed.
Lemma ex_trailers_ok : trailers_ok 1000 ex_trailers.
Proof. split; [constructor|]. split; [constructor; [reflexivity|constructor]|]. vm_compute. discriminate. Qed.
Lemma ex_at_body : at_body 1000 (stream_on body_content) ex_bytes (Some (trailer_header [("x-checksum", "42")]%string)).
Proof.
  constructor; [split; [repeat constructor; vm_compute; discriminate|reflexivity]|]. exists [], ex_chunks, ex_trailers, []. split; [reflexivity|]. split; [reflexivity|]. split; [exact ex_chunks_ok|]. split; [exact ex_trailers_ok|]. split; [constructor|].
  split; [vm_compute; reflexivity|]. split; [reflexivity|discriminate].
Qed.
Lemma h3_body_read_witness : exists d e b s', read_all no_quic canceled_with 1000 (replicate 60 3) (newBody 4) (stream_on body_content) = Some (d, Some e, b, s') /\ d = slice_to ex_bytes 4 /\ e = errTooMuchData /\ s_log s' = violation.
Proof.
  destruct (h3_body_read no_quic canceled_with eq_refl eq_refl 1000 _ (replicate 60 3) (stream_on body_content) ex_bytes 4 ltac:(reflexivity) ltac:(apply Forall_replicate; reflexivity) ex_at_body ltac:(discriminate) ltac:(apply Nat.ltb_lt; vm_compute; reflexivity)) as (d & e & b & s' & E & _ & H).
  exists d, e, b, s'. split; [exact E|]. vm_compute (_ && _) in H. destruct H as (Hd & He & Hl). split; [exact Hd|]. split; [exact He|]. rewrite Hl. reflexivity.
Defined.
(** A response whose content is shorter than its Content-Length is complete for the caller. *)
Example short_body_accepted : ex_read (stream_on body_content) 100 (replicate 60 3) = Some (ex_bytes, Some io_EOF).
Proof. vm_compute. reflexivity. Qed.

Definition ex_fin : skips * list (string * string) := ([], ex_fields).
Definition ex_info : skips * list (string * string) := ([], [(":status", "103")]%string).
Definition ex_options : options := mkOptions 1000 false false false.
Definition ex_response : bytes := concat (head_wire <$> [ex_info]) ++ head_wire ex_fin ++ body_content.
Lemma ex_info_accepted : accepted ascii_lower any_valid any_valid false 1000 [(":status", "103")]%string [].
Proof.
  constructor.
  - constructor; [|constructor]. split; [reflexivity|]. apply list_elem_of_singleton. reflexivity.
  - constructor.
  - constructor; [split; vm_compute; reflexivity|constructor].
  - vm_compute. discriminate.
  - intros name pre v post E Hp. unfold values_named in E. rewrite filter_cons, filter_nil in E. case_decide; cbn in E; [|by destruct pre]. destruct pre as [|? [|]]; cbn in E; [|discriminate..]. injection E as <- <-. by destruct Hp.
  - intros v w Hv. by apply not_elem_of_nil in Hv.
  - intros v Hv. by apply not_elem_of_nil in Hv.
Qed.
Lemma h3_response_roundtrip_witness : exists a told s1, read_answer ascii_lower any_valid any_valid canceled_with ex_options (stream_on ex_response) = Some (Ok a, told, s1) /\ told = [(103, ∅)] /\ rs_StatusCode (a_res a) = 200 /\ rs_ContentLength (a_res a) = 5.
Proof.
  destruct (h3_response_roundtrip ascii_lower any_valid any_valid no_quic canceled_with eq_refl eq_refl ex_options (stream_on ex_response) [ex_info] [(103, ∅)] ex_fin 200 (processTrailers (Headers ex_header) None).1 5 ex_chunks ex_trailers [] ex_bytes) as (a & told & s1 & E & T & C & _ & L & _).
  - split; [discriminate|reflexivity].
  - reflexivity.
  - split; [repeat constructor; vm_compute; discriminate|]. repeat split.
  - constructor; [|constructor]. split; [split; [constructor|vm_compute; discriminate]|]. split; [reflexivity|]. eexists _, [(":status", "103")]%string, []. split; [reflexivity|]. split; [exact ex_info_accepted|]. split; [vm_compute; reflexivity|]. split; reflexivity.
  - cbn. lia.
  - split; [constructor|vm_compute; discriminate].
  - exists [(":status", "200")]%string, (drop 1 ex_fields). split; [reflexivity|]. split; [exact ex_accepted|]. split; [vm_compute; reflexivity|]. split; [reflexivity|vm_compute; reflexivity].
  - reflexivity.
  - exact ex_chunks_ok.
  - exact ex_trailers_ok.
  - constructor.
  - reflexivity.
  - right. reflexivity.
  - vm_compute. reflexivity.
  - exists a, told, s1. split; [exact E|]. split; [exact T|]. split; [exact C|]. rewrite L. vm_compute. reflexivity.
Defined.
Lemma h3_auto_decompression_loses_body_witness : exists a told s', read_answer ascii_lower any_valid any_valid canceled_with (mkOptions 1000 false true false) (stream_on ex_response) = Some (Ok a, told, s') /\ a_body a = None.
Proof.
  destruct (read_answer ascii_lower any_valid any_valid canceled_with (mkOptions 1000 false true false) (stream_on ex_response)) as [[[[a|e] told] s']|] eqn:E; [|vm_compute in E; discriminate..].
  exists a, told, s'. split; [reflexivity|]. exact (h3_auto_decompression_loses_body ascii_lower any_valid any_valid canceled_with (mkOptions 1000 false true false) _ a told s' eq_refl eq_refl E).
Defined.
