(* ===== verification/H3Request.v ===== *)
(** * HTTP/3 requests ([src/internal/http3/request_writer.go], [client.go], [stream.go])

    The field list of a request, its HEADERS frame, and its body in DATA frames. A failing
    stream is modelled by the number of frames it still takes. *)

From S2P Require Import Prelude.
From S2P Require Import H2Errors.
From S2P Require Import NetText.
From S2P Require Import Bufio.
From S2P Require Import BufioLine.
From S2P Require Import Chunked.
From S2P Require Import TextProto.
From S2P Require Import Transfer.
From S2P Require Import TransferWrite.
From S2P Require Import HeaderSort.
From S2P Require Import NetAddr.
From S2P Require Import H1Request.
From S2P Require Import H3Frame.
From S2P Require Import H3Headers.
From S2P Require Import H3Stream.

(** The fields of a [http.Request] used here; [r_Body] is [None] for a nil body, and may be [http.NoBody]. *)
Record Request := mkRequest {
  r_Method : string; r_URL : URL; r_Proto : string; r_Header : Header; r_Host : string;
  r_Body : option ioReader; r_ContentLength : Z }.
(** [internal/header]: the fields that are written otherwise, or not at all. *)
Definition excluded_names : list string :=
  ["host"; "content-length"; "connection"; "proxy-connection"; "transfer-encoding"; "upgrade"; "keep-alive"; HeaderOderKey; PseudoHeaderOderKey]%string.

Definition isExtendedConnectRequest (r : Request) : bool :=
  String.eqb (r_Method r) "CONNECT" && negb (String.eqb (r_Proto r) "") && negb (String.eqb (r_Proto r) "HTTP/1.1").
Definition validPseudoPath (v : string) : bool := has_prefix "/" v || String.eqb v "*".
Definition actualContentLength (r : Request) : Z :=
  match r_Body r with None => 0 | Some _ => if negb (r_ContentLength r =? 0) then r_ContentLength r else -1 end.
Definition shouldSendReqContentLength (method : string) (contentLength : Z) : bool :=
  if 0 <? contentLength then true else if contentLength <? 0 then false else bool_decide (method ∈ ["POST"; "PUT"; "PATCH"]%string).
(** [strings.TrimPrefix] *)
Definition TrimPrefix (s prefix : string) : string :=
  if has_prefix prefix s then String.substring (String.length prefix) (String.length s - String.length prefix) s else s.

Section Encode.
Context `{QuicVarint} `{Qpack} (strings_ToLower : string -> string) (ValidHeaderFieldName ValidHeaderFieldValue ValidHostHeader : string -> bool)
  (PunycodeHostPort : string -> result error string) (map_range : Header -> list (string * list string)).

Definition IsExcluded (key : string) : bool := bool_decide (strings_ToLower key ∈ excluded_names).
Definition request_path (r : Request) (host : string) : result error string :=
  if negb (String.eqb (r_Method r) "CONNECT") || isExtendedConnectRequest r then
    let path := u_RequestURI (r_URL r) in
    if validPseudoPath path then Ok path else
    let path := TrimPrefix path (u_Scheme (r_URL r) +:+ "://" +:+ host) in
    if validPseudoPath path then Ok path
    else if negb (String.eqb (u_Opaque (r_URL r)) "") then Err (fmt_Errorf "invalid request :path %q from URL.Opaque = %q" [u_RequestURI (r_URL r); u_Opaque (r_URL r)])
    else Err (fmt_Errorf "invalid request :path %q" [u_RequestURI (r_URL r)])
  else Ok ""%string.
(** The checks of the header: the first invalid name or value. *)
Definition header_error (h : Header) : option error :=
  match list_find (fun kv : string * list string => negb (ValidHeaderFieldName kv.1) || existsb (fun v => negb (ValidHeaderFieldValue v)) kv.2 = true) (map_range h) with
  | None => None
  | Some (_, (k, vv)) =>
      if negb (ValidHeaderFieldName k) then Some (fmt_Errorf "invalid HTTP header name %q" [k])
      else (fun p : nat * string => fmt_Errorf "invalid HTTP header value %q for header %q" [p.2; k]) <$> list_find (fun v => negb (ValidHeaderFieldValue v) = true) vv
  end.
(** Fields, sorted when an order is given under the key. *)
Definition in_order (r : Request) (key : string) (fs : list (string * string)) : list (string * string) :=
  match Header_values (r_Header r) key with
  | [] => fs
  | order => flat_map (fun kv => (fun v => (kv_Key kv, v)) <$> kv_Values kv) (SortKeyValues ValidHeaderFieldName ((fun f : string * string => mkKeyValues f.1 [f.2]) <$> fs) order)
  end.
Definition pseudo_fields (r : Request) (host path : string) : list (string * string) :=
  [(":authority", host); (":method", r_Method r)]%string
  ++ (if negb (String.eqb (r_Method r) "CONNECT") || isExtendedConnectRequest r then [(":path", path); (":scheme", u_Scheme (r_URL r))]%string else [])
  ++ (if isExtendedConnectRequest r then [(":protocol", r_Proto r)]%string else []).
(** The values of a field of the header that are written. *)
Definition kept_values (kv : string * list string) : list string :=
  if IsExcluded kv.1 then []
  else if EqualFold kv.1 "user-agent" then match kv.2 with [] => [] | v :: _ => if String.eqb v "" then [] else [v] end
  else kv.2.
Definition didUA (h : Header) : bool := existsb (fun kv : string * list string => negb (IsExcluded kv.1) && EqualFold kv.1 "user-agent") (map_range h).
Definition regular_fields (r : Request) (addGzipHeader : bool) (trailers : string) (contentLength : Z) : list (string * string) :=
  (if negb (String.eqb trailers "") then [("trailer", trailers)]%string else [])
  ++ flat_map (fun kv => (fun v => (kv.1, v)) <$> kept_values kv) (map_range (r_Header r))
  ++ (if shouldSendReqContentLength (r_Method r) contentLength then [("content-length"%string, format_dec contentLength)] else [])
  ++ (if addGzipHeader then [("accept-encoding", "gzip")]%string else [])
  ++ (if didUA (r_Header r) then [] else [("user-agent"%string, DefaultUserAgent)]).
Definition request_host (r : Request) : result error string :=
  match PunycodeHostPort (if String.eqb (r_Host r) "" then u_Host (r_URL r) else r_Host r) with
  | Err e => Err e
  | Ok host => if ValidHostHeader host then Ok host else Err (errors_New "http3: invalid Host header")
  end.
(** [encodeHeaders]: the fields given to the encoder. *)
Definition encodeHeaders (r : Request) (addGzipHeader : bool) (trailers : string) (contentLength : Z) : result error (list (string * string)) :=
  match request_host r with
  | Err e => Err e
  | Ok host =>
      match request_path r host with
      | Err e => Err e
      | Ok path =>
          match header_error (r_Header r) with
          | Some e => Err e
          | None =>
              Ok ((fun f => (strings_ToLower f.1, f.2)) <$>
                  (in_order r PseudoHeaderOderKey (pseudo_fields r host path) ++ in_order r HeaderOderKey (regular_fields r addGzipHeader trailers contentLength)))
          end
      end
  end.
(** [sendRequestHeader], [WriteRequestHeader]: the bytes written, and whether gzip was asked for. *)
Definition requestsGzip (disableCompression : bool) (r : Request) : bool :=
  negb disableCompression && negb (String.eqb (r_Method r) "HEAD") && String.eqb (Header_Get (r_Header r) "Accept-Encoding") "" && String.eqb (Header_Get (r_Header r) "Range") "".
Definition sendRequestHeader (disableCompression : bool) (r : Request) : result error bytes :=
  match encodeHeaders r (requestsGzip disableCompression r) "" (actualContentLength r) with
  | Err e => Err e
  | Ok fs => let block := qp_Encode fs in Ok (headersFrame_Append (len block) ++ block)
  end.
End Encode.

(** ** The body *)
Definition bodyCopyBufferSize : Z := 8 * 1024.
(** The send side of a stream: the payloads of the DATA frames written, the calls, and when writing fails. *)
Record sendSide := mkSend { w_out : list bytes; w_fail : option (nat * error); w_log : list action }.
(** [Stream.Write] *)
Definition send_Write (w : sendSide) (d : bytes) : option error * sendSide :=
  match w_fail w with
  | Some (O, e) => (Some e, w)
  | Some (S n, e) => (None, mkSend (w_out w ++ [d]) (Some (n, e)) (w_log w))
  | None => (None, mkSend (w_out w ++ [d]) None (w_log w))
  end.
Definition send_CancelWrite (w : sendSide) : sendSide := mkSend (w_out w) (w_fail w) (w_log w ++ [CancelWrite ErrCodeRequestCanceled]).
(** [io.CopyBuffer] to the stream, or with [discard] to [io.Discard], from a [cancelingReader]. *)
Fixpoint copy_body (discard : bool) (fuel : nat) (lim : option Z) (b : ioReader) (w : sendSide) (n : Z) : option (Z * option error * ioReader * sendSide) :=
  match fuel with
  | O => None
  | S fuel =>
      let '((d, er), b) := limited_Read lim b bodyCopyBufferSize in
      let lim := (fun l => l - len d) <$> lim in
      match er with
      | Some e => Some (n, copy_error e, b, if bool_decide (e = io_EOF) then w else send_CancelWrite w)
      | None =>
          match (if discard then (None, w) else send_Write w d) with
          | (Some e, w) => Some (n, Some e, b, w)
          | (None, w) => copy_body discard fuel lim b w (n + len d)
          end
      end
  end.
Definition body_fuel (b : ioReader) : nat := S (length (TransferWrite.content b)).
Definition sendRequestBody (w : sendSide) (b : ioReader) (contentLength : Z) : option (option error * sendSide) :=
  if contentLength =? -1 then
    match copy_body false (body_fuel b) None b w 0 with Some (_, err, _, w) => Some (err, w) | None => None end
  else
    match copy_body false (body_fuel b) (Some contentLength) b w 0 with
    | None => None
    | Some (_, Some e, _, w) => Some (Some e, w)
    | Some (n, None, b, w) =>
        match copy_body true (body_fuel b) None b w 0 with
        | None => None
        | Some (extra, err, _, w) =>
            if contentLength <? n + extra then
              Some (Some (fmt_Errorf "http: ContentLength=%d with Body length %d" [format_dec contentLength; format_dec (n + extra)]), send_CancelWrite w)
            else Some (err, w)
        end
    end.
(** The length [doRequest] sends the body with. *)
Definition body_length (r : Request) : Z := if 0 <? r_ContentLength r then r_ContentLength r else -1.

(** ** What is sent *)
(** How a stream looks after the error that reading the body ends with. *)
Definition after_read (e : error) (w : sendSide) : sendSide := if bool_decide (e = io_EOF) then w else send_CancelWrite w.
Lemma copy_body_spec discard fuel : forall lim b w n, reader_ok b -> (length (TransferWrite.content b) < fuel)%nat -> match lim with Some l => 0 <= l | None => True end ->
  exists (ds : list bytes) err b' w', copy_body discard fuel lim b w n = Some (n + len (concat ds), err, b', w') /\ w_out w' = w_out w ++ (if discard then [] else ds) /\
    ((exists e rest, discard = false /\ w_fail w' = Some (O, e) /\ err = Some e /\ w_log w' = w_log w /\ TransferWrite.content b = concat ds ++ rest /\ match lim with Some l => len (concat ds) <= l | None => True end) \/
     (TransferWrite.content b = concat ds ++ TransferWrite.content b' /\ reader_ok b' /\ rd_end b' = rd_end b /\ (discard = true -> w_fail w' = w_fail w) /\ (w_fail w = None -> w_fail w' = None) /\
      (match lim with Some l => len (concat ds) = l /\ err = None /\ w_log w' = w_log w | None => False end \/
       match lim with Some l => len (concat ds) < l | None => True end /\ TransferWrite.content b' = [] /\ err = copy_error (rd_end b) /\ w_log w' = w_log (after_read (rd_end b) w)))).
Proof.
  induction fuel as [|fuel IH]; intros lim b w n Hok Hf Hlim; [lia|]. cbn [copy_body]. pose proof (limited_Read_spec lim b bodyCopyBufferSize Hok ltac:(done) Hlim) as Hr.
  destruct (limited_Read lim b bodyCopyBufferSize) as [[d er] b1]. destruct Hr as (Hok1 & He1 & Hc1 & Hd1 & Her). destruct er as [e|].
  - destruct Her as (-> & -> & Hcase). exists [], (copy_error e), b. eexists. split; [cbn; rewrite Z.add_0_r; reflexivity|].
    split; [by destruct discard, (bool_decide _); cbn; rewrite app_nil_r|]. right. split; [done|]. split; [done|]. split; [done|]. split; [by case_bool_decide|]. split; [by case_bool_decide|].
    destruct Hcase as [(-> & ->)|(Hz & Hnil & ->)]; [left; by rewrite bool_decide_true by done|]. right. split; [destruct lim as [l|]; [|done]; cbn; rewrite len_nil; assert (l <> 0) by congruence; lia|]. split; [done|]. split; [done|]. unfold after_read. by case_bool_decide.
  - destruct Her as [Hd Hl]. assert (length (TransferWrite.content b1) < fuel)%nat as Hf1 by (rewrite Hc1, length_app in Hf; destruct d; [done|]; cbn in Hf; lia).
    assert (match (fun l => l - len d) <$> lim with Some l => 0 <= l | None => True end) as Hlim1 by (destruct lim as [l|]; cbn; [lia|done]).
    destruct (if discard then (None, w) else send_Write w d) as [[e|] w1] eqn:Ew.
    + destruct discard; [done|]. unfold send_Write in Ew. destruct (w_fail w) as [[[|m] e']|] eqn:Efail; [|done|done]. injection Ew as -> <-. exists [], (Some e), b1, w. change (len (concat (@nil bytes))) with 0. rewrite Z.add_0_r. split; [done|]. split; [by rewrite app_nil_r|].
      left. exists e, (d ++ TransferWrite.content b1). repeat (split; [done|]). destruct lim as [l|]; [|done]. change (len (concat (@nil bytes))) with 0. pose proof (len_nonneg d). lia.
    + destruct (IH ((fun l => l - len d) <$> lim) b1 w1 (n + len d) Hok1 Hf1 Hlim1) as (ds & err & b2 & w2 & -> & Hout & Hcase). exists (d :: ds), err, b2, w2. cbn [concat]. rewrite len_app, Z.add_assoc. split; [done|].
      assert (w_log w1 = w_log w /\ (w_fail w = None -> w_fail w1 = None) /\ (discard = true -> w1 = w) /\ w_out w1 = w_out w ++ if discard then [] else [d]) as (Hw1 & Hw2 & Hw3 & Hw4).
      { destruct discard; [injection Ew as <-; by rewrite app_nil_r|]. unfold send_Write in Ew. destruct (w_fail w) as [[[|m] e']|] eqn:Efail; [done|injection Ew as <-..]; done. }
      split; [rewrite Hout, Hw4, <- app_assoc; by destruct discard|].
      destruct Hcase as [(e & rest & -> & ? & -> & -> & Hc & Hle)|(Hc & ? & He2 & Hfd & Hfn & Hcase)].
      * left. exists e, rest. split; [done|]. split; [done|]. split; [done|]. split; [done|]. split; [by rewrite Hc1, Hc, app_assoc|]. destruct lim as [l|]; cbn in *; lia.
      * right. split; [by rewrite Hc1, Hc, app_assoc|]. split; [done|]. split; [congruence|]. split; [intros Ht; rewrite Hfd, Hw3 by done; done|]. split; [auto|].
        destruct Hcase as [Hcase|(Hlt & ? & -> & Hlog)]; [left|right]; (destruct lim as [l|]; cbn in *; [|done || (split; [done|]; split; [done|]; unfold after_read in *; rewrite He1 in *; split; [done|]; rewrite Hlog; case_bool_decide; cbn; congruence)]).
        -- destruct Hcase as (? & -> & ->). split; [lia|done].
        -- split; [lia|]. split; [done|]. unfold after_read in *. rewrite He1 in *. split; [done|]. rewrite Hlog. case_bool_decide; cbn; congruence.
Qed.

Lemma copy_body_discard b w : reader_ok b -> exists b', copy_body true (body_fuel b) None b w 0 = Some (len (TransferWrite.content b), copy_error (rd_end b), b', after_read (rd_end b) w).
Proof.
  intros Hok. destruct (copy_body_spec true (body_fuel b) None b w 0 Hok ltac:(unfold body_fuel; lia) I) as (ds & err & b1 & w1 & -> & Hout & [(e & rest & ? & _)|(Hc & _ & _ & Hfd & _ & [[]|(_ & Hnil & -> & Hlog)])]); [done|].
  exists b1. rewrite Hc, Hnil, app_nil_r, Z.add_0_l. rewrite app_nil_r in Hout. specialize (Hfd eq_refl).
  assert (w1 = after_read (rd_end b) w) as ->; [|done]. destruct w1. cbn in *. subst. unfold after_read. destruct w. by case_bool_decide.
Qed.

(** The body of a request, of content [p], is sent exactly. If the stream fails, its error is returned and
    what was written is the beginning of the content. Otherwise, without an announced
    length or with one that is not less than the content, the content is written and the
    error is the one reading the body ends with; with a smaller one, only so many
    bytes are written, the caller gets an error, and the stream is reset. Whenever the body
    fails, the stream is reset. *)
Theorem h3_request_body w b cl : reader_ok b -> -1 <= cl ->
  exists err w' (ds : list bytes), sendRequestBody w b cl = Some (err, w') /\ w_out w' = w_out w ++ ds /\
    ((exists e, w_fail w' = Some (O, e) /\ err = Some e /\ w_log w' = w_log w /\ (exists rest, TransferWrite.content b = concat ds ++ rest) /\ (cl <> -1 -> len (concat ds) <= cl)) \/
     if (0 <=? cl) && (cl <? len (TransferWrite.content b)) then
       concat ds = slice_to (TransferWrite.content b) cl /\ w_log w' = w_log (send_CancelWrite (after_read (rd_end b) w)) /\
       err = Some (fmt_Errorf "http: ContentLength=%d with Body length %d" [format_dec cl; format_dec (len (TransferWrite.content b))])
     else concat ds = TransferWrite.content b /\ err = copy_error (rd_end b) /\ w_log w' = w_log (after_read (rd_end b) w)).
Proof.
  intros Hok Hcl. unfold sendRequestBody, body_fuel. destruct (Z.eqb_spec cl (-1)) as [->|Hne].
  - destruct (copy_body_spec false (S (length (TransferWrite.content b))) None b w 0 Hok ltac:(lia) I) as (ds & err & b1 & w1 & -> & Hout & [(e & rest & _ & ? & -> & ? & Hc & _)|(Hc & _ & _ & _ & _ & [[]|(_ & Hnil & -> & Hlog)])]).
    + eexists _, w1, ds. split; [reflexivity|]. split; [done|]. left. exists e. repeat (split; [done|]). by split; [exists rest|].
    + eexists _, w1, ds. split; [reflexivity|]. split; [done|]. right. by rewrite Hc, Hnil, app_nil_r.
  - destruct (copy_body_spec false (S (length (TransferWrite.content b))) (Some cl) b w 0 Hok ltac:(lia) ltac:(cbn; lia)) as (ds & err & b1 & w1 & -> & Hout & [(e & rest & _ & ? & -> & ? & Hc & ?)|(Hc & Hok1 & He1 & _ & _ & [(Hl & -> & Hlog)|(Hl & Hnil & -> & Hlog)])]).
    + eexists _, w1, ds. split; [reflexivity|]. split; [done|]. left. exists e. repeat (split; [done|]). by split; [exists rest|].
    + destruct (copy_body_discard b1 w1 Hok1) as [b2 E]. unfold body_fuel in E. rewrite E. clear E. rewrite (proj2 (Z.leb_le 0 cl)), Z.add_0_l by lia. cbn [andb]. rewrite Hc, len_app, He1.
      destruct (Z.ltb_spec cl (len (concat ds) + len (TransferWrite.content b1))) as [Hlt|Hge]; eexists _, _, ds; (split; [reflexivity|]).
      * split; [cbn; unfold after_read; by case_bool_decide|]. right. rewrite slice_to_app by done. split; [done|]. split; [|done]. unfold after_read. case_bool_decide; cbn; by rewrite Hlog.
      * split; [unfold after_read; by case_bool_decide|]. right. pose proof (len_nonneg (TransferWrite.content b1)). assert (TransferWrite.content b1 = []) as -> by (apply len_zero; lia). rewrite app_nil_r. split; [done|]. split; [done|]. unfold after_read. case_bool_decide; cbn; by rewrite Hlog.
    + rewrite Hc, Hnil, app_nil_r in *. rewrite (proj2 (Z.leb_le 0 cl)), (proj2 (Z.ltb_ge cl _)), Z.add_0_l by lia. cbn [andb]. destruct (copy_body_discard b1 w1 Hok1) as [b2 E]. unfold body_fuel in E. rewrite Hnil, He1 in E.
      unfold copy_error, after_read in *. destruct (bool_decide_reflect (rd_end b = io_EOF)) as [He|He].
      * cbv beta iota. rewrite E, len_nil, Z.add_0_r, (proj2 (Z.ltb_ge cl _)) by lia. eexists _, _, ds. split; [reflexivity|]. split; [done|]. by right.
      * eexists _, _, ds. split; [reflexivity|]. split; [done|]. by right.
Qed.
Lemma h3_request_body_witness : reader_ok (mkReader [[1; 2]; [3]] io_EOF) /\ sendRequestBody (mkSend [] None []) (mkReader [[1; 2]; [3]] io_EOF) 2
    = Some (Some (fmt_Errorf "http: ContentLength=%d with Body length %d" ["2"; "3"]%string), mkSend [[1; 2]] None [CancelWrite ErrCodeRequestCanceled]) /\
  exists err w' (ds : list bytes), sendRequestBody (mkSend [] None []) (mkReader [[1; 2]; [3]] io_EOF) 2 = Some (err, w') /\ w_out w' = ds /\ concat ds = [1; 2].
Proof.
  assert (reader_ok (mkReader [[1; 2]; [3]] io_EOF)) as Hok by (by repeat constructor). split; [exact Hok|]. split; [reflexivity|].
  destruct (h3_request_body (mkSend [] None []) (mkReader [[1; 2]; [3]] io_EOF) 2 Hok ltac:(done)) as (err & w' & ds & E & Ho & Hcase). exists err, w', ds. split; [exact E|]. split; [exact Ho|].
  destruct Hcase as [(e & Hf & _)|Hcase]; [exfalso; vm_compute in E; injection E as <- <-; discriminate|]. exact (proj1 Hcase).
Defined.
(** A body that is shorter than announced is sent, and no error is reported. *)
Example short_request_body : sendRequestBody (mkSend [] None []) (mkReader [[1; 2]] io_EOF) 5 = Some (None, mkSend [[1; 2]] None []). Proof. reflexivity. Qed.

(** ** Reading a request back *)
Section ReadBack.
(** The checks of names and values, [strings.ToLower] of an ASCII string, and the order a map is ranged over. *)
Context `{QuicVarintOk} `{QpackOk} (strings_ToLower : string -> string) (ValidHeaderFieldName ValidHeaderFieldValue ValidHostHeader : string -> bool)
  (PunycodeHostPort : string -> result error string) (map_range : Header -> list (string * list string))
  (valid_token : forall k, ValidHeaderFieldName k = token_name k) (lower_ascii : forall s, Is s = true -> strings_ToLower s = map_string lower s)
  (valid_print : forall v, IsPrint v = true -> ValidHeaderFieldValue v = true) (range_all : forall h, map_range h ≡ₚ map_to_list h).
Abbreviation excluded := (IsExcluded strings_ToLower).
Abbreviation fields_of := (encodeHeaders strings_ToLower ValidHeaderFieldName ValidHeaderFieldValue ValidHostHeader PunycodeHostPort map_range).
Abbreviation values_ok := (forallb ValidHeaderFieldValue).

Lemma token_byte b : validHeaderFieldByte b = true -> 33 <= b <= 126 /\ b <> 58.
Proof.
  unfold validHeaderFieldByte, is_upper, is_lower, is_digit. cbn [existsb]. rewrite !orb_true_iff, !andb_true_iff, !Z.leb_le, !Z.eqb_eq. lia.
Qed.
Lemma map_string_bytes s : bytes_of_string (map_string lower s) = lower <$> bytes_of_string s.
Proof.
  unfold map_string. apply bytes_of_string_of_bytes, Forall_fmap, (Forall_impl _ _ _ (string_bytes_range s)). intros b Hb. cbn in *. unfold is_u8, lower, is_upper in *. destruct ((65 <=? b) && (b <=? 90)) eqn:E; lia.
Qed.
Lemma token_lower k : token_name k = true ->
  strings_ToLower k = map_string lower k /\ token_name (map_string lower k) = true /\ strings_ToLower (map_string lower k) = map_string lower k
  /\ CanonicalHeaderKey (map_string lower k) = CanonicalHeaderKey k /\ colon_name (map_string lower k) = false.
Proof.
  intros Ht. pose proof Ht as [Hne Hb]%andb_prop. pose proof (string_bytes_range k) as Hr. assert (Forall (fun b => 0 <= b < 256) (bytes_of_string (map_string lower k))) as Hr' by apply string_bytes_range.
  assert (lower <$> bytes_of_string (map_string lower k) = lower <$> bytes_of_string k) as Hl.
  { rewrite map_string_bytes, <- list_fmap_compose. apply list_fmap_ext. intros _ b _. cbn. unfold lower, is_upper. destruct ((65 <=? b) && (b <=? 90)) eqn:E; repeat case_match; lia. }
  pose proof (valid_lower _ _ Hr' Hr Hl) as Hv. rewrite Hb in Hv.
  assert (forall s, forallb validHeaderFieldByte (bytes_of_string s) = true -> Is s = true) as His.
  { intros s Hs. unfold Is. apply forallb_Forall. apply forallb_Forall in Hs. apply (Forall_impl _ _ _ Hs). intros b [? _]%token_byte. by rewrite (proj2 (Z.ltb_ge _ _)) by lia. }
  split; [by apply lower_ascii, His|]. split; [unfold token_name; rewrite Hv; by destruct k|]. split.
  - rewrite lower_ascii by by apply His. unfold map_string at 1. by rewrite Hl, <- map_string_bytes, string_of_bytes_of_string.
  - split; [unfold CanonicalHeaderKey; rewrite Hv, Hb; f_equal; by apply canonical_bytes_lower|]. unfold colon_name. rewrite map_string_bytes. destruct (bytes_of_string k) as [|b p]; [done|]. cbn in Hb. apply andb_prop in Hb as [Hb%token_byte _]. cbn. unfold lower, is_upper. destruct (_ && _) eqn:E; lia.
Qed.
Lemma kept_order_perm valid r key fs : in_order valid r key fs ≡ₚ fs.
Proof.
  unfold in_order. destruct (Header_values (r_Header r) key) as [|o os]; [done|]. rewrite SortKeyValues_perm. by induction fs as [|[k v] fs IH]; cbn in *; [|constructor].
Qed.

(** What the request must satisfy: its method, scheme, protocol, host and path are valid values, and no field TE,
    however its name is spelt, says anything but "trailers". *)
Record request_ok (r : Request) (host path : string) : Prop := {
  ro_values : values_ok [r_Method r; u_Scheme (r_URL r); r_Proto r; host; path] = true;
  ro_te : forall k vs v, r_Header r !! k = Some vs -> CanonicalHeaderKey k = "Te"%string -> v ∈ vs -> v = "trailers"%string }.
(** The values of the header that a server finds under a key: those of all the keys that only differ in their spelling. *)
Definition header_sent (r : Request) (key : string) : list string :=
  flat_map (fun kv => if decide (CanonicalHeaderKey kv.1 = key) then kept_values strings_ToLower kv else []) (map_to_list (r_Header r)).
(** All it finds, with the trailer that was announced. *)
Definition values_sent (r : Request) (gzip : bool) (trailers : string) (cl : Z) (key : string) : list string :=
  (if negb (String.eqb trailers "") && String.eqb key "Trailer" then [trailers] else [])
  ++ header_sent r key
  ++ (if shouldSendReqContentLength (r_Method r) cl && String.eqb key "Content-Length" then [format_dec cl] else [])
  ++ (if gzip && String.eqb key "Accept-Encoding" then ["gzip"%string] else [])
  ++ (if negb (didUA strings_ToLower map_to_list (r_Header r)) && String.eqb key "User-Agent" then [DefaultUserAgent] else []).

Lemma header_valid h k vs : header_error ValidHeaderFieldName ValidHeaderFieldValue map_range h = None -> h !! k = Some vs -> token_name k = true /\ values_ok vs = true.
Proof.
  unfold header_error. destruct (list_find _ _) as [[i [k' vv]]|] eqn:E.
  - apply list_find_Some in E as (_ & Hb & _). cbn in Hb. destruct (ValidHeaderFieldName k'); cbn in *; [|done]. apply existsb_exists in Hb as (v & Hv & Hbad). destruct (list_find _ vv) as [[]|] eqn:E2; [done|]. apply list_find_None in E2. rewrite Forall_forall in E2. destruct (E2 v); [by apply list_elem_of_In|done].
  - intros _ Hk. apply list_find_None in E. rewrite Forall_forall in E. specialize (E (k, vs)). rewrite range_all in E. specialize (E (proj2 (elem_of_map_to_list _ _ _) Hk)). cbn in E. rewrite <- valid_token.
    destruct (ValidHeaderFieldName k); cbn in E; [|by destruct E]. split; [done|]. apply forallb_forall. intros v Hv. destruct (ValidHeaderFieldValue v) eqn:Ev; [done|]. destruct E. apply existsb_exists. exists v. by rewrite Ev.
Qed.
Lemma kept_sub kv v : v ∈ kept_values strings_ToLower kv -> excluded kv.1 = false /\ v ∈ kv.2.
Proof.
  unfold kept_values. destruct (excluded kv.1); [by intros ?%not_elem_of_nil|]. destruct (EqualFold kv.1 "user-agent"); [|done]. destruct kv.2 as [|w vs]; [by intros ?%not_elem_of_nil|].
  destruct (String.eqb w ""); [by intros ?%not_elem_of_nil|]. intros ->%list_elem_of_singleton. split; [done|left].
Qed.
Lemma excluded_lower k : token_name k = true -> excluded k = bool_decide (map_string lower k ∈ excluded_names).
Proof. intros Ht. unfold IsExcluded. by destruct (token_lower k Ht) as (-> & _). Qed.
Lemma lower_of_key k : token_name k = true -> map_string lower (CanonicalHeaderKey k) = map_string lower k.
Proof. intros [_ Ht]%andb_prop. unfold map_string. rewrite CanonicalHeaderKey_bytes by done. rewrite lower_canonical by apply string_bytes_range. done. Qed.
(** No length comes from the header. *)
Lemma header_sent_length r : header_error ValidHeaderFieldName ValidHeaderFieldValue map_range (r_Header r) = None -> header_sent r "Content-Length" = [].
Proof.
  intros He. unfold header_sent. assert (Forall (fun kv : string * list string => r_Header r !! kv.1 = Some kv.2) (map_to_list (r_Header r))) as Hf by (apply Forall_forall; by intros [k vs] ?%elem_of_map_to_list).
  induction Hf as [|[k vs] l Hl _ IH]; [done|]. cbn [flat_map fst snd] in *. rewrite IH, app_nil_r. case_decide as E; [|done]. destruct (header_valid _ _ _ He Hl) as [Ht _].
  unfold kept_values. cbn [fst]. rewrite excluded_lower, <- (lower_of_key k Ht), E by done. by rewrite bool_decide_true by (apply (bool_decide_eq_true _); reflexivity).
Qed.
(** For a header whose keys are canonical, as most are, the values of the key itself. *)
Lemma header_sent_canonical r key : map_Forall (fun k _ => CanonicalHeaderKey k = k) (r_Header r) -> header_sent r key = match r_Header r !! key with Some vs => kept_values strings_ToLower (key, vs) | None => [] end.
Proof.
  intros Hc. unfold header_sent. assert (forall l : list (string * list string), NoDup l.*1 -> Forall (fun kv => CanonicalHeaderKey kv.1 = kv.1) l ->
    flat_map (fun kv => if decide (CanonicalHeaderKey kv.1 = key) then kept_values strings_ToLower kv else []) l = match (list_to_map l : Header) !! key with Some vs => kept_values strings_ToLower (key, vs) | None => [] end) as Hl.
  { induction l as [|[k vs] l IH]; intros Hn Hf; [done|]. cbn [fmap list_fmap fst] in Hn. apply NoDup_cons in Hn as [Hk Hn]. apply Forall_cons in Hf as [Ek Hf]. cbn [flat_map fst] in *. rewrite Ek, IH by done. cbn [list_to_map foldr fst snd].
    case_decide as E; [|by rewrite lookup_insert_ne]. subst k. rewrite lookup_insert_eq. rewrite not_elem_of_list_to_map_1 by done. apply app_nil_r. }
  rewrite Hl, list_to_map_to_list; [done|apply NoDup_fst_map_to_list|]. apply Forall_forall. intros [k vs] Hk%elem_of_map_to_list. by apply (Hc k vs).
Qed.
Section Fields.
(** The announcement of a trailer, empty for none. *)
Context (trailers : string) (trailers_valid : ValidHeaderFieldValue trailers = true).
Abbreviation regular := (fun r gzip cl => regular_fields strings_ToLower map_range r gzip trailers cl).

Lemma digits_print n : IsPrint (format_dec n) = true.
Proof.
  pose proof (format_dec_visible n) as Hv. unfold IsPrint. rewrite forallb_forall in *. intros b Hb. specialize (Hv b Hb). unfold visible in Hv. lia.
Qed.

Definition regular_field (cl : Z) (f : string * string) : Prop :=
  token_name f.1 = true /\ ValidHeaderFieldValue f.2 = true /\ (map_string lower f.1 ∉ invalidHeaderFields) /\ (map_string lower f.1 = "te"%string -> f.2 = "trailers"%string) /\
  (map_string lower f.1 = "content-length"%string -> f.2 = format_dec cl /\ 0 <= cl).
Lemma shouldSend_nonneg m cl : shouldSendReqContentLength m cl = true -> 0 <= cl.
Proof. unfold shouldSendReqContentLength. destruct (Z.ltb_spec 0 cl); [lia|]. destruct (Z.ltb_spec cl 0); [done|lia]. Qed.
Lemma header_field r host path cl f : request_ok r host path -> header_error ValidHeaderFieldName ValidHeaderFieldValue map_range (r_Header r) = None ->
  f ∈ flat_map (fun kv => (fun v => (kv.1, v)) <$> kept_values strings_ToLower kv) (map_range (r_Header r)) -> regular_field cl f /\ map_string lower f.1 <> "content-length"%string.
Proof.
  intros [_ Hte] He Hf. apply list_elem_of_In, in_flat_map in Hf as ([k vs] & Hkv & Hv). apply list_elem_of_In in Hkv, Hv. rewrite range_all in Hkv. apply elem_of_map_to_list in Hkv. apply list_elem_of_fmap in Hv as (v & -> & [Hx Hv]%kept_sub). cbn [fst snd] in *.
  destruct (header_valid _ _ _ He Hkv) as [Ht Hvs]. rewrite excluded_lower in Hx by done. apply bool_decide_eq_false in Hx. assert (ValidHeaderFieldValue v = true) as Hvv by (rewrite forallb_forall in Hvs; apply Hvs; by apply list_elem_of_In).
  assert (map_string lower k <> "content-length"%string) as Hncl by (intros E; apply Hx; rewrite E; apply (bool_decide_eq_true _); reflexivity).
  split; [|done]. split; [done|]. split; [done|]. split; [|split; [|done]].
  - intros Hin. apply Hx. revert Hin. unfold invalidHeaderFields, excluded_names. rewrite !elem_of_cons. tauto.
  - cbn [fst snd]. intros Hl. apply (Hte k vs); [done| |done]. destruct (token_lower k Ht) as (_ & _ & _ & <- & _). by rewrite Hl.
Qed.
Lemma regular_ok_all r host path gzip cl : request_ok r host path -> header_error ValidHeaderFieldName ValidHeaderFieldValue map_range (r_Header r) = None -> Forall (regular_field cl) (regular r gzip cl).
Proof.
  intros Hr He. unfold regular_fields. rewrite !Forall_app. split; [|split; [|split; [|split]]].
  - destruct (String.eqb trailers ""); [constructor|]. constructor; [|constructor]. split; [reflexivity|]. split; [done|]. split; [|done]. apply (bool_decide_eq_false _). reflexivity.
  - apply Forall_forall. intros f Hf. by apply (header_field r host path cl f Hr He).
  - destruct (shouldSendReqContentLength (r_Method r) cl) eqn:E; [|constructor]. apply shouldSend_nonneg in E. constructor; [|constructor]. split; [reflexivity|]. split; [apply valid_print, digits_print|]. split; [|by split].
    apply (bool_decide_eq_false _). reflexivity.
  - destruct gzip; [|constructor]. constructor; [|constructor]. split; [reflexivity|]. split; [by apply valid_print|]. split; [|done]. apply (bool_decide_eq_false _). reflexivity.
  - destruct (didUA _ _ _); [constructor|]. constructor; [|constructor]. split; [reflexivity|]. split; [by apply valid_print|]. split; [|done]. apply (bool_decide_eq_false _). reflexivity.
Qed.

(** ** Where the values end up *)
#[local] Instance values_at_perm key : Proper (Permutation ==> Permutation) (values_at key).
Proof. intros l1 l2 Hl. unfold values_at. by rewrite Hl. Qed.
Definition lowered (fs : list (string * string)) : list (string * string) := (fun f => (strings_ToLower f.1, f.2)) <$> fs.
Lemma values_at_lowered cl key fs : Forall (regular_field cl) fs -> values_at key (lowered fs) = values_at key fs.
Proof.
  unfold values_at, lowered. induction 1 as [|[k v] fs [Hf _] _ IH]; [done|]. cbn [fmap list_fmap fst snd] in *. destruct (token_lower k Hf) as (E & _ & _ & Hc & _). rewrite !filter_cons. cbn [fst]. rewrite E, Hc. case_decide; cbn; by rewrite IH.
Qed.
Lemma values_at_key key k vs : values_at key ((fun v => (k, v)) <$> vs) = if decide (CanonicalHeaderKey k = key) then vs else [].
Proof.
  unfold values_at. induction vs as [|v vs IH]; [by case_decide|]. cbn [fmap list_fmap]. rewrite filter_cons. cbn [fst]. case_decide; cbn; by rewrite IH.
Qed.
Lemma header_values r key : values_at key (flat_map (fun kv => (fun v => (kv.1, v)) <$> kept_values strings_ToLower kv) (map_range (r_Header r))) ≡ₚ header_sent r key.
Proof.
  unfold header_sent. rewrite range_all. generalize (map_to_list (r_Header r)). intros l. induction l as [|[k vs] l IH]; [done|].
  cbn [flat_map]. rewrite values_at_app, IH, values_at_key. done.
Qed.
Lemma didUA_range h : didUA strings_ToLower map_range h = didUA strings_ToLower map_to_list h.
Proof. unfold didUA. apply eq_true_iff_eq. rewrite !existsb_exists. setoid_rewrite <- list_elem_of_In. by setoid_rewrite range_all. Qed.
Lemma values_at_one key k v : values_at key [(k, v)] = if decide (CanonicalHeaderKey k = key) then [v] else [].
Proof. unfold values_at. rewrite filter_cons. cbn [fst]. by case_decide. Qed.
Lemma values_at_if (b : bool) key k v c : CanonicalHeaderKey k = c -> values_at key (if b then [(k, v)] else []) = if b && String.eqb key c then [v] else [].
Proof. intros <-. destruct b; [|done]. rewrite values_at_one. cbn. destruct (String.eqb_spec key (CanonicalHeaderKey k)); case_decide; congruence. Qed.
Lemma values_at_unless (b : bool) key k v c : CanonicalHeaderKey k = c -> values_at key (if b then [] else [(k, v)]) = if negb b && String.eqb key c then [v] else [].
Proof. intros Hc. rewrite <- (values_at_if (negb b) key k v c Hc). by destruct b. Qed.
Lemma values_sent_at r gzip cl key : values_at key (regular r gzip cl) ≡ₚ values_sent r gzip trailers cl key.
Proof.
  unfold regular_fields, values_sent. rewrite !values_at_app, header_values, didUA_range.
  rewrite (values_at_if _ key "trailer" trailers "Trailer"), (values_at_if _ key "content-length" _ "Content-Length"), (values_at_if _ key "accept-encoding" _ "Accept-Encoding"), (values_at_unless _ key "user-agent" _ "User-Agent") by reflexivity.
  done.
Qed.
Lemma values_named_app name fs gs : values_named name (fs ++ gs) = values_named name fs ++ values_named name gs.
Proof. unfold values_named. by rewrite filter_app, fmap_app. Qed.
Lemma named_none fs : Forall (fun f => token_name f.1 = true /\ map_string lower f.1 <> "content-length"%string) fs -> values_named "content-length" (lowered fs) = [].
Proof.
  unfold lowered. induction 1 as [|f fs [Ht Hf] _ IH]; [done|]. cbn [fmap list_fmap]. rewrite values_named_cons. cbn [fst]. destruct (token_lower f.1 Ht) as (-> & _). by rewrite decide_False.
Qed.
Lemma content_length_named r host path gzip cl : request_ok r host path -> header_error ValidHeaderFieldName ValidHeaderFieldValue map_range (r_Header r) = None ->
  values_named "content-length" (lowered (regular r gzip cl)) = if shouldSendReqContentLength (r_Method r) cl then [format_dec cl] else [].
Proof.
  intros Hr He. unfold regular_fields, lowered. rewrite !fmap_app, !values_named_app.
  assert (values_named "content-length" ((fun f => (strings_ToLower f.1, f.2)) <$> (if negb (String.eqb trailers "") then [("trailer"%string, trailers)] else [])) = []) as -> by (destruct (String.eqb trailers ""); [done|apply (named_none [("trailer"%string, trailers)]); by repeat constructor]).
  fold (lowered (flat_map (fun kv => (fun v => (kv.1, v)) <$> kept_values strings_ToLower kv) (map_range (r_Header r)))).
  rewrite named_none by (apply Forall_forall; intros f Hf; destruct (header_field r host path cl f Hr He Hf) as [[? _] ?]; done).
  assert (values_named "content-length" ((fun f => (strings_ToLower f.1, f.2)) <$> (if gzip then [("accept-encoding", "gzip")]%string else [])) = []) as -> by (destruct gzip; [apply (named_none [("accept-encoding", "gzip")]%string); by repeat constructor|done]).
  assert (values_named "content-length" ((fun f => (strings_ToLower f.1, f.2)) <$> (if didUA strings_ToLower map_range (r_Header r) then [] else [("user-agent"%string, DefaultUserAgent)])) = []) as -> by (destruct (didUA _ _ _); [done|apply (named_none [("user-agent"%string, DefaultUserAgent)]); by repeat constructor]).
  rewrite app_nil_r, app_nil_l. destruct (shouldSendReqContentLength _ _); [|done]. cbn [fmap list_fmap fst snd]. rewrite values_named_cons. cbn [fst snd]. rewrite (lower_ascii "content-length") by reflexivity. reflexivity.
Qed.

(** ** The pseudo headers *)
Lemma perm_short {A} (l k : list A) : l ≡ₚ k -> (length k <= 1)%nat -> l = k.
Proof. intros Hp Hl. destruct k as [|x [|y k]]; [by apply Permutation_nil_r|by apply Permutation_singleton_r|cbn in Hl; lia]. Qed.
Lemma last_only_short vs : (length vs <= 1)%nat -> last_only vs.
Proof. intros Hl pre v post -> Hp. rewrite length_app in Hl. cbn in Hl. destruct post; [done|cbn in Hl; lia]. Qed.
#[local] Instance values_named_perm name : Proper (Permutation ==> Permutation) (values_named name).
Proof. intros l1 l2 Hl. unfold values_named. by rewrite Hl. Qed.
Lemma pseudo_short name r host path : (length (values_named name (pseudo_fields r host path)) <= 1)%nat.
Proof.
  unfold pseudo_fields. destruct (negb _ || _), (isExtendedConnectRequest r); cbn [app]; rewrite !values_named_cons; cbn [fst snd]; change (values_named name []) with (@nil string); repeat case_decide; subst; try discriminate; cbn; lia.
Qed.
Lemma lowered_pseudo r host path : lowered (pseudo_fields r host path) = pseudo_fields r host path.
Proof. unfold lowered, pseudo_fields. destruct (negb _ || _), (isExtendedConnectRequest r); cbn [app fmap list_fmap fst snd]; by rewrite !lower_ascii by reflexivity. Qed.
Lemma pseudo_ok r host path : request_ok r host path -> Forall (fun f => (qp_IsPseudo f.1 = true /\ f.1 ∈ pseudo_names true) /\ strings_ToLower f.1 = f.1 /\ ValidHeaderFieldValue f.2 = true) (pseudo_fields r host path).
Proof.
  intros [Hv _]. cbn in Hv. rewrite !andb_true_iff in Hv. destruct Hv as (V1 & V2 & V3 & V4 & V5 & _).
  assert (forall n v, n ∈ pseudo_names true -> ValidHeaderFieldValue v = true -> (qp_IsPseudo n = true /\ n ∈ pseudo_names true) /\ strings_ToLower n = n /\ ValidHeaderFieldValue v = true) as Hone.
  { intros n v Hn Hvv. rewrite qp_pseudo. assert (colon_name n = true /\ Is n = true /\ map_string lower n = n) as (A & B & C); [|split; [by split|]; split; [by rewrite lower_ascii|done]].
    unfold pseudo_names in Hn. rewrite !elem_of_cons in Hn. destruct Hn as [-> |[-> |[-> |[-> |[-> |Hn]]]]]; try done. by apply not_elem_of_nil in Hn. }
  unfold pseudo_fields. destruct (negb _ || _), (isExtendedConnectRequest r); cbn [app]; repeat (constructor; [apply Hone; [apply (bool_decide_eq_true _); reflexivity|done]|]); constructor.
Qed.

(** ** The field list *)
#[local] Instance lowered_perm : Proper (Permutation ==> Permutation) lowered.
Proof. intros l1 l2 Hl. unfold lowered. by rewrite Hl. Qed.
#[local] Instance list_size_perm : Proper (Permutation ==> eq) list_size.
Proof. induction 1; cbn in *; unfold list_size in *; lia. Qed.
Definition has_path (r : Request) : bool := negb (String.eqb (r_Method r) "CONNECT") || isExtendedConnectRequest r.
Definition request_read (r : Request) (host path : string) (gzip : bool) (trailers : string) (cl : Z) (h : header) : Prop :=
  Method h = r_Method r /\ Authority h = host /\ Path h = path /\ Scheme h = (if has_path r then u_Scheme (r_URL r) else ""%string)
  /\ Protocol h = (if isExtendedConnectRequest r then r_Proto r else ""%string) /\ Status h = ""%string
  /\ ContentLength h = (if shouldSendReqContentLength (r_Method r) cl then cl else -1) /\ forall key, Header_values (Headers h) key ≡ₚ values_sent r gzip trailers cl key.
Lemma regular_read f cl : regular_field cl f -> qp_IsPseudo (strings_ToLower f.1) = false /\ regular_ok ValidHeaderFieldName (strings_ToLower f.1, f.2) /\ strings_ToLower (strings_ToLower f.1) = strings_ToLower f.1 /\ ValidHeaderFieldValue f.2 = true.
Proof.
  intros (Ht & Hv & Hi & Hte & _). destruct (token_lower f.1 Ht) as (E & Hl & El & _ & Hc). rewrite E, qp_pseudo. split; [done|]. split; [|by rewrite El]. unfold regular_ok. cbn [fst snd]. by rewrite valid_token.
Qed.
Lemma fields_accepted r host path gzip cl limit ps rs : request_ok r host path -> header_error ValidHeaderFieldName ValidHeaderFieldValue map_range (r_Header r) = None -> cl < 2 ^ 63 ->
  ps ≡ₚ pseudo_fields r host path -> rs ≡ₚ lowered (regular r gzip cl) -> list_size (ps ++ rs) <= limit -> accepted strings_ToLower ValidHeaderFieldName ValidHeaderFieldValue true limit ps rs.
Proof.
  intros Hr He Hcl Hps Hrs Hs. pose proof (pseudo_ok r host path Hr) as Hpk. rewrite <- Hps in Hpk. apply Forall_and in Hpk as [Hpk1 Hpk2].
  assert (Forall (fun f => (qp_IsPseudo f.1 = false /\ regular_ok ValidHeaderFieldName f) /\ strings_ToLower f.1 = f.1 /\ ValidHeaderFieldValue f.2 = true) rs) as [Hrk1 Hrk2]%Forall_and.
  { rewrite Hrs. unfold lowered. apply Forall_fmap. eapply Forall_impl; [by apply (regular_ok_all r host path gzip cl)|]. intros f Hf%regular_read. cbn. tauto. }
  assert (forall v, v ∈ values_named "content-length" rs -> shouldSendReqContentLength (r_Method r) cl = true /\ v = format_dec cl) as Hlen.
  { intros v Hv. rewrite Hrs, (content_length_named r host path) in Hv by done. destruct (shouldSendReqContentLength _ _); [by apply list_elem_of_singleton in Hv|by apply not_elem_of_nil in Hv]. }
  constructor; try done.
  - apply Forall_app. by split.
  - intros name. apply last_only_short. rewrite Hps. apply pseudo_short.
  - intros v w Hv%Hlen Hw%Hlen. destruct Hv, Hw. congruence.
  - intros v Hv _. apply Hlen in Hv as [Hss%shouldSend_nonneg ->]. rewrite ParseUint_format_dec by lia. by eexists.
Qed.
Lemma last_named name ps r host path : ps ≡ₚ pseudo_fields r host path -> last_value name ps = last_value name (pseudo_fields r host path).
Proof. intros Hp. unfold last_value. by rewrite (perm_short (values_named name ps) _ ltac:(by rewrite Hp) (pseudo_short name r host path)). Qed.
Lemma field_list_values key rs : key <> "Content-Length"%string \/ values_named "content-length" rs = [] -> Header_values (field_list rs) key = values_at key rs.
Proof.
  intros Hk. unfold field_list. change (fun m f => Header_Add m f.1 f.2) with add_field. rewrite add_fields_values. unfold Header_values. rewrite lookup_empty. cbn. unfold values_at. f_equal. rewrite list_filter_filter.
  induction rs as [|f rs IH]; [done|]. rewrite values_named_cons in Hk. rewrite !filter_cons, IH by (destruct Hk as [?|[_ ?]%app_nil]; tauto).
  destruct (decide (CanonicalHeaderKey f.1 = key)) as [E|]; [|by rewrite decide_False by tauto]. destruct (decide (_ /\ _)) as [|Hn]; [done|]. destruct Hn. split; [done|]. intros E'. rewrite E' in E. destruct Hk as [Hk|Hk]; [by apply Hk|].
  by rewrite decide_True in Hk.
Qed.
Lemma fields_read r host path gzip cl ps rs : request_ok r host path -> request_path r host = Ok path -> header_error ValidHeaderFieldName ValidHeaderFieldValue map_range (r_Header r) = None -> cl < 2 ^ 63 ->
  ps ≡ₚ pseudo_fields r host path -> rs ≡ₚ lowered (regular r gzip cl) -> request_read r host path gzip trailers cl (header_of ps rs).
Proof.
  intros Hr Hpath He Hcl Hps Hrs. unfold request_read, header_of. cbn [Method Authority Path Scheme Protocol Status ContentLength Headers]. rewrite !(last_named _ ps r host path Hps).
  assert (has_path r = false -> path = ""%string) as Hnp by (unfold request_path, has_path in *; intros Hn; rewrite Hn in Hpath; congruence).
  assert (isExtendedConnectRequest r = true -> has_path r = true) as Hep by (unfold has_path; intros ->; apply orb_true_r).
  assert (values_named "content-length" rs = if shouldSendReqContentLength (r_Method r) cl then [format_dec cl] else []) as Ecl.
  { apply perm_short; [by rewrite Hrs, (content_length_named r host path)|destruct (shouldSendReqContentLength _ _); cbn; lia]. }
  assert (forall key, key <> "Content-Length"%string \/ values_named "content-length" rs = [] -> Header_values (field_list rs) key ≡ₚ values_sent r gzip trailers cl key) as Hother.
  { intros key Hk. rewrite field_list_values by done. rewrite Hrs, (values_at_lowered cl) by by apply (regular_ok_all r host path). by apply values_sent_at. }
  rewrite Ecl. split; [unfold last_value, pseudo_fields; by destruct (negb _ || _), (isExtendedConnectRequest r)|]. split; [unfold last_value, pseudo_fields; by destruct (negb _ || _), (isExtendedConnectRequest r)|].
  split; [unfold last_value, pseudo_fields; fold (has_path r); destruct (has_path r); [by destruct (isExtendedConnectRequest r)|rewrite Hnp by done; by destruct (isExtendedConnectRequest r)]|].
  split; [unfold last_value, pseudo_fields; fold (has_path r); by destruct (has_path r), (isExtendedConnectRequest r)|]. split; [unfold last_value, pseudo_fields; by destruct (negb _ || _), (isExtendedConnectRequest r)|].
  split; [unfold last_value, pseudo_fields; by destruct (negb _ || _), (isExtendedConnectRequest r)|].
  destruct (shouldSendReqContentLength (r_Method r) cl) eqn:Es; cbn [head default from_option id].
  - pose proof (shouldSend_nonneg _ _ Es) as Hnn. assert (ParseUint (format_dec cl) 63 = Some cl) as Ep by (apply ParseUint_format_dec; lia). destruct (String.eqb_spec (format_dec cl) "") as [E|_]; [by rewrite E in Ep|]. rewrite Ep. split; [done|].
    intros key. unfold Header_Set. change (CanonicalHeaderKey "Content-Length") with "Content-Length"%string. destruct (decide (key = "Content-Length"%string)) as [->|Hk].
    + unfold Header_values, values_sent. by rewrite lookup_insert_eq, Es, header_sent_length, !andb_false_r.
    + unfold Header_values. rewrite lookup_insert_ne by done. apply Hother. by left.
  - split; [done|]. intros key. apply Hother. by right.
Qed.

End Fields.
#[local] Existing Instance lowered_perm.
#[local] Existing Instance list_size_perm.

(** C8: a request that is sent is the request a server reads, if its method, scheme, protocol, host and path are valid
    values and no field TE, which is sent as it is, says anything but "trailers" (a server refuses the others:
    [te_refused]). A server that reads the HEADERS
    frame, however the network cuts it, and then its field list, gets the method, the host, the path, the scheme
    and the protocol of the request; under each key it finds the values of the request's
    header, however its names are spelt, without the names that are left out ([excluded_names]), the announced length, the user agent and the encoding
    asked for, in whatever order the caller wanted them sent, and nothing else. *)
Theorem h3_request_read_back disableCompression r host path w q rest limit :
  request_host ValidHostHeader PunycodeHostPort r = Ok host -> request_path r host = Ok path -> request_ok r host path -> actualContentLength r < 2 ^ 63 ->
  sendRequestHeader strings_ToLower ValidHeaderFieldName ValidHeaderFieldValue ValidHostHeader PunycodeHostPort map_range disableCompression r = Ok w ->
  (forall fs, fields_of r (requestsGzip disableCompression r) "" (actualContentLength r) = Ok fs -> list_size fs <= limit /\ len (qp_Encode fs) < varint_max) ->
  q_content q = w ++ rest ->
  exists block n q1 q2 h, ParseNext None q = Some (mkParsed (Ok (headersFrame (len block) n)) q1 None) /\ q_ReadFull q1 (len block) = (Ok block, q2) /\ q_content q2 = rest /\
    parseHeaders strings_ToLower ValidHeaderFieldName ValidHeaderFieldValue (qp_Decode block) true limit = Ok h /\
    request_read r host path (requestsGzip disableCompression r) "" (actualContentLength r) h.
Proof.
  intros Hh Hp Hr Hcl Hw Hs Hq. unfold sendRequestHeader, encodeHeaders in *. rewrite Hh, Hp in *. set (gzip := requestsGzip disableCompression r) in *. set (cl := actualContentLength r) in *.
  destruct (header_error _ _ _ _) eqn:He; [done|]. destruct (Hs _ eq_refl) as [Hsize Hlen]. clear Hs. set (fs := _ <$> _) in *. injection Hw as <-.
  assert (exists ps rs, fs = ps ++ rs /\ ps ≡ₚ pseudo_fields r host path /\ rs ≡ₚ lowered (regular_fields strings_ToLower map_range r gzip "" cl)) as (ps & rs & Efs & Hps & Hrs).
  { unfold fs. rewrite fmap_app. eexists _, _. split; [reflexivity|]. fold (lowered (in_order ValidHeaderFieldName r PseudoHeaderOderKey (pseudo_fields r host path))) (lowered (in_order ValidHeaderFieldName r HeaderOderKey (regular_fields strings_ToLower map_range r gzip "" cl))). rewrite !kept_order_perm, lowered_pseudo. done. }
  rewrite <- app_assoc in Hq. destruct (ParseNext_wire [] _ _ q _ (Forall_nil_2 _) (wire_headers (len (qp_Encode fs)) ltac:(split; [apply len_nonneg|done])) Hq) as (q1 & E1 & _ & C1).
  destruct (q_ReadFull_ok _ q1 rest C1) as (q2 & E2 & _ & C2). exists (qp_Encode fs). eexists. exists q1, q2, (header_of ps rs). split; [exact E1|]. split; [exact E2|]. split; [exact C2|]. rewrite qp_roundtrip.
  rewrite Efs in Hsize. pose proof (list_size_nonneg (ps ++ rs)). split; [|apply (fields_read ""); try done; by apply valid_print].
  rewrite Efs. apply accepted_read; [lia|]. apply (fields_accepted "" ltac:(by apply valid_print) r host path gzip cl); done.
Qed.
End ReadBack.

(** A PUT, its fields in the order the caller asked for. *)
Definition ex_request : Request :=
  mkRequest "PUT" (mkURL "https" "" "example.org" "/x" "/x?q=1") "HTTP/1.1"
    {["X-A"%string := ["1"; "2"]%string; "Connection"%string := ["close"]%string; HeaderOderKey := ["content-length"; "x-a"]%string; PseudoHeaderOderKey := [":method"; ":path"]%string]}
    "" (Some (mkReader [[104; 105]; [33]] io_EOF)) 3.
Definition ex_header_bytes : bytes :=
  Eval vm_compute in match sendRequestHeader ascii_lower token_name IsPrint any_host Ok order_all false ex_request with Ok w => w | Err _ => [] end.
Definition ex_fields_sent : list (string * string) :=
  Eval vm_compute in match encodeHeaders ascii_lower token_name IsPrint any_host Ok order_all ex_request true "" 3 with Ok fs => fs | Err _ => [] end.
Lemma ex_request_ok : request_ok IsPrint ex_request "example.org" "/x?q=1".
Proof.
  constructor.
  - reflexivity.
  - intros k vs v. cbn [ex_request r_Header]. intros [[<- _]|[_ [[<- _]|[_ [[<- _]|[_ [<- _]%lookup_singleton_Some]]%lookup_insert_Some]]%lookup_insert_Some]]%lookup_insert_Some; discriminate.
Qed.
Lemma h3_request_read_back_witness :
  let q := mkQ [slice_to ex_header_bytes 7; slice_from ex_header_bytes 7 ++ [0; 3]] io_EOF false in
  exists block q2 h, q_content q2 = [0; 3] /\ parseHeaders ascii_lower token_name IsPrint (qp_Decode block) true 1000 = Ok h /\ Method h = "PUT"%string /\ Path h = "/x?q=1"%string /\ ContentLength h = 3
    /\ Header_values (Headers h) "X-A" ≡ₚ ["1"; "2"]%string /\ Header_values (Headers h) "Connection" ≡ₚ [].
Proof.
  intros q. destruct (h3_request_read_back ascii_lower token_name IsPrint any_host Ok order_all ltac:(reflexivity) ltac:(reflexivity) ltac:(intros v Hv; exact Hv) ltac:(reflexivity)
    false ex_request "example.org" "/x?q=1" ex_header_bytes q [0; 3] 1000) as (block & n & q1 & q2 & h & _ & _ & C & E & R1 & _ & R2 & _ & _ & _ & R3 & R4).
  - vm_compute. reflexivity.
  - vm_compute. reflexivity.
  - exact ex_request_ok.
  - vm_compute. reflexivity.
  - vm_compute. reflexivity.
  - assert (encodeHeaders ascii_lower token_name IsPrint any_host Ok order_all ex_request (requestsGzip false ex_request) "" (actualContentLength ex_request) = Ok ex_fields_sent) as -> by (vm_compute; reflexivity).
    intros fs [= <-]. unfold varint_max. vm_compute. split; [discriminate|reflexivity].
  - vm_compute. reflexivity.
  - exists block, q2, h. split; [exact C|]. split; [exact E|]. split; [exact R1|]. split; [exact R2|]. split; [exact R3|]. split; [etransitivity; [apply R4|]|etransitivity; [apply R4|]]; vm_compute; reflexivity.
Defined.

(** [encodeHeaders] sends a TE field as it is; a server that follows RFC 9114 refuses the request. *)
Definition ex_te_request : Request :=
  mkRequest "GET" (mkURL "https" "" "example.org" "/" "/") "HTTP/1.1" {["Te"%string := ["gzip"]%string]} "" None 0.
Example te_refused :
  match sendRequestHeader ascii_lower token_name IsPrint any_host Ok order_all true ex_te_request, encodeHeaders ascii_lower token_name IsPrint any_host Ok order_all ex_te_request false "" 0 with
  | Ok _, Ok fs => parseHeaders ascii_lower token_name IsPrint (qp_Decode (qp_Encode fs)) true 1000 = Err (otherError (fmt_Errorf "invalid TE header field value: %q" ["gzip"%string]))
  | _, _ => False
  end.
Proof. vm_compute. reflexivity. Qed.
