(* ===== verification/H3Conn.v ===== *)
(** * HTTP/3 connections ([src/internal/http3/conn.go], [state_tracking_stream.go], [client.go])

    The request streams of a client's connection, its control stream and its datagrams, as a
    system of the goroutines that share it: those that open streams, those that end them,
    the one that reads the control stream, the one that receives datagrams and those that
    wait for them. A step is what happens under a lock, or one call of QUIC. *)

From S2P Require Import Prelude.
From S2P Require Import H2Errors.
From S2P Require Import NetText.
From S2P Require Import H3Frame.
From S2P Require Import H3Stream.

Definition invalidStreamID : Z := -1.
Definition maxQuarterStreamID : Z := 2 ^ 60 - 1.
Definition streamDatagramQueueLen : nat := 32.
Definition errGoAway : error := errors_New "connection in graceful shutdown".
Definition ErrCodeNoError : Z := 256.
Definition ErrCodeStreamCreationError : Z := 259.
Definition ErrCodeClosedCriticalStream : Z := 260.
Definition ErrCodeIDError : Z := 264.
Definition ErrCodeSettingsError : Z := 265.
Definition ErrCodeMissingSettings : Z := 266.
Definition ErrCodeDatagramError : Z := 51.
Definition defaultMaxResponseHeaderBytes : Z := 10 * 1 * 2 ^ 20.
Definition streamTypeControlStream : Z := 0.
Definition streamTypePushStream : Z := 1.
Definition streamTypeQPACKEncoderStream : Z := 2.
Definition streamTypeQPACKDecoderStream : Z := 3.

(** A [stateTrackingStream]; [tr_given]: [openRequestStream] has returned it. *)
Record tracked := mkTracked { sendErr : option error; recvErr : option error; tr_queue : list bytes; hasData : bool; tr_given : bool }.
(** A call of [openRequestStream]: past the check, with a stream from QUIC, returned. *)
Inductive opener := OChecked | OOpened (id : Z) | ODone (r : result error Z).
(** A call of [ReceiveDatagram]: about to look at the queue, waiting for the signal, returned. *)
Inductive receiver := RCheck (id : Z) | RWait (id : Z) | RDone (id : Z) (r : result error bytes).
(** The goroutine of the control stream: what it reads next, and from what. [CClosing]: it has
    seen that there are no streams. *)
Inductive control := CNone | CSettings (q : qstream) | CFrames (q : qstream) | CClosing | CEnd.
(** The goroutine that receives datagrams; [DgHave]: it has one for a stream. *)
Inductive dgrams := DgOff | DgIdle | DgHave (id : Z) (b : bytes) | DgEnd.
(** [streams]: the keys of the map. [closed]: the code of the first [CloseWithError].
    [nextID]: the stream ID that QUIC gives next. *)
Record conn := mkConn {
  streams : gset Z; lastStreamID : Z; maxStreamID : Z; nextID : Z; tr : gmap Z tracked; closed : option Z;
  c_settings : option settingsFrame; rcvdControlStr : bool; rcvdQPACKEncoderStr : bool; rcvdQPACKDecoderStr : bool;
  ctl : control; dg : dgrams; openers : gmap nat opener; receivers : gmap nat receiver }.
Definition newConnection : conn := mkConn ∅ invalidStreamID invalidStreamID 0 ∅ None None false false false CNone DgOff ∅ ∅.

Definition CloseWithError (code : Z) (s : conn) : conn :=
  mkConn (streams s) (lastStreamID s) (maxStreamID s) (nextID s) (tr s) (match closed s with Some c => Some c | None => Some code end)
    (c_settings s) (rcvdControlStr s) (rcvdQPACKEncoderStr s) (rcvdQPACKDecoderStr s) (ctl s) (dg s) (openers s) (receivers s).
Definition set_streams (x : gset Z) (s : conn) : conn :=
  mkConn x (lastStreamID s) (maxStreamID s) (nextID s) (tr s) (closed s) (c_settings s) (rcvdControlStr s) (rcvdQPACKEncoderStr s) (rcvdQPACKDecoderStr s) (ctl s) (dg s) (openers s) (receivers s).
Definition set_last (x : Z) (s : conn) : conn :=
  mkConn (streams s) x (maxStreamID s) (nextID s) (tr s) (closed s) (c_settings s) (rcvdControlStr s) (rcvdQPACKEncoderStr s) (rcvdQPACKDecoderStr s) (ctl s) (dg s) (openers s) (receivers s).
Definition set_maxID (x : Z) (s : conn) : conn :=
  mkConn (streams s) (lastStreamID s) x (nextID s) (tr s) (closed s) (c_settings s) (rcvdControlStr s) (rcvdQPACKEncoderStr s) (rcvdQPACKDecoderStr s) (ctl s) (dg s) (openers s) (receivers s).
Definition set_next (x : Z) (s : conn) : conn :=
  mkConn (streams s) (lastStreamID s) (maxStreamID s) x (tr s) (closed s) (c_settings s) (rcvdControlStr s) (rcvdQPACKEncoderStr s) (rcvdQPACKDecoderStr s) (ctl s) (dg s) (openers s) (receivers s).
Definition set_tr (id : Z) (t : tracked) (s : conn) : conn :=
  mkConn (streams s) (lastStreamID s) (maxStreamID s) (nextID s) (<[id := t]> (tr s)) (closed s) (c_settings s) (rcvdControlStr s) (rcvdQPACKEncoderStr s) (rcvdQPACKDecoderStr s) (ctl s) (dg s) (openers s) (receivers s).
Definition set_settings (f : settingsFrame) (s : conn) : conn :=
  mkConn (streams s) (lastStreamID s) (maxStreamID s) (nextID s) (tr s) (closed s) (Some f) (rcvdControlStr s) (rcvdQPACKEncoderStr s) (rcvdQPACKDecoderStr s) (ctl s) (dg s) (openers s) (receivers s).
Definition set_rcvd (c e d : bool) (s : conn) : conn :=
  mkConn (streams s) (lastStreamID s) (maxStreamID s) (nextID s) (tr s) (closed s) (c_settings s) c e d (ctl s) (dg s) (openers s) (receivers s).
Definition set_ctl (x : control) (s : conn) : conn :=
  mkConn (streams s) (lastStreamID s) (maxStreamID s) (nextID s) (tr s) (closed s) (c_settings s) (rcvdControlStr s) (rcvdQPACKEncoderStr s) (rcvdQPACKDecoderStr s) x (dg s) (openers s) (receivers s).
Definition set_dg (x : dgrams) (s : conn) : conn :=
  mkConn (streams s) (lastStreamID s) (maxStreamID s) (nextID s) (tr s) (closed s) (c_settings s) (rcvdControlStr s) (rcvdQPACKEncoderStr s) (rcvdQPACKDecoderStr s) (ctl s) x (openers s) (receivers s).
Definition set_opener (g : nat) (x : opener) (s : conn) : conn :=
  mkConn (streams s) (lastStreamID s) (maxStreamID s) (nextID s) (tr s) (closed s) (c_settings s) (rcvdControlStr s) (rcvdQPACKEncoderStr s) (rcvdQPACKDecoderStr s) (ctl s) (dg s) (<[g := x]> (openers s)) (receivers s).
Definition set_receiver (g : nat) (x : receiver) (s : conn) : conn :=
  mkConn (streams s) (lastStreamID s) (maxStreamID s) (nextID s) (tr s) (closed s) (c_settings s) (rcvdControlStr s) (rcvdQPACKEncoderStr s) (rcvdQPACKDecoderStr s) (ctl s) (dg s) (openers s) (<[g := x]> (receivers s)).

(** ** Request streams *)
Definition clearStream (id : Z) (s : conn) : conn :=
  let s := set_streams (streams s ∖ {[id]}) s in
  if negb (maxStreamID s =? invalidStreamID) && bool_decide (streams s = ∅) then CloseWithError ErrCodeNoError s else s.
(** [signalHasDatagram] *)
Definition signaled (t : tracked) : tracked := mkTracked (sendErr t) (recvErr t) (tr_queue t) true (tr_given t).
Definition closeSend (id : Z) (t : tracked) (e : error) (s : conn) : conn :=
  match sendErr t with
  | Some _ => s
  | None => set_tr id (mkTracked (Some e) (recvErr t) (tr_queue t) (hasData t) (tr_given t)) (if is_set (recvErr t) then clearStream id s else s)
  end.
Definition closeReceive (id : Z) (t : tracked) (e : error) (s : conn) : conn :=
  match recvErr t with
  | Some _ => s
  | None => set_tr id (signaled (mkTracked (sendErr t) (Some e) (tr_queue t) (hasData t) (tr_given t))) (if is_set (sendErr t) then clearStream id s else s)
  end.
(** [openRequestStream]: the check, under the lock; a new stream; and its registration. *)
Definition nextStreamID (s : conn) : Z := if lastStreamID s =? invalidStreamID then 0 else lastStreamID s + 4.
Definition open_check (g : nat) (s : conn) : conn :=
  set_opener g (if negb (maxStreamID s =? invalidStreamID) && (maxStreamID s <=? nextStreamID s) then ODone (Err errGoAway) else OChecked) s.
Definition open_stream (g : nat) (s : conn) : conn :=
  set_opener g (OOpened (nextID s)) (set_tr (nextID s) (mkTracked None None [] false false) (set_next (nextID s + 4) s)).
Definition open_insert (g : nat) (id : Z) (t : tracked) (s : conn) : conn :=
  set_opener g (ODone (Ok id)) (set_tr id (mkTracked (sendErr t) (recvErr t) (tr_queue t) (hasData t) true) (set_last id (set_streams ({[id]} ∪ streams s) s))).

(** ** Datagrams *)
Definition enqueueDatagram (data : bytes) (t : tracked) : tracked :=
  if is_set (recvErr t) then t
  else if bool_decide (streamDatagramQueueLen <= length (tr_queue t))%nat then t
  else signaled (mkTracked (sendErr t) (recvErr t) (tr_queue t ++ [data]) (hasData t) (tr_given t)).
(** [ReceiveDatagram] with the lock held. *)
Definition receive_check (g : nat) (id : Z) (t : tracked) (s : conn) : conn :=
  match tr_queue t with
  | data :: queue => set_receiver g (RDone id (Ok data)) (set_tr id (mkTracked (sendErr t) (recvErr t) queue (hasData t) (tr_given t)) s)
  | [] => match recvErr t with Some e => set_receiver g (RDone id (Err e)) s | None => set_receiver g (RWait id) s end
  end.

Section Conn.
Context `{QuicVarint} (is_stream_error : error -> bool) (enableDatagrams remoteDatagrams : bool).

(** [sendDatagram], and [SendDatagram] of a stream. *)
Definition sendDatagram (streamID : Z) (b : bytes) : bytes := qv_Append (streamID / 4) ++ b.
Definition SendDatagram (id : Z) (t : tracked) (b : bytes) : result error bytes :=
  match sendErr t with Some e => Err e | None => Ok (sendDatagram id b) end.
(** [receiveDatagrams]: one that has arrived. *)
Definition receive_datagram (b : bytes) (s : conn) : conn :=
  match qv_Read b io_EOF with
  | Err _ => set_dg DgEnd (CloseWithError ErrCodeDatagramError s)
  | Ok (quarterStreamID, data) =>
      if maxQuarterStreamID <? quarterStreamID then set_dg DgEnd (CloseWithError ErrCodeDatagramError s)
      else let streamID := 4 * quarterStreamID in if bool_decide (streamID ∈ streams s) then set_dg (DgHave streamID data) s else s
  end.

(** ** The control streams *)
(** [setupConn]: what is written to the own control stream; [others]: the additional settings in
    the order in which they are visited. [response_limit]: the limit that [newClientConn] sets. *)
Definition response_limit (maxResponseHeaderBytes : Z) : Z := if maxResponseHeaderBytes <=? 0 then defaultMaxResponseHeaderBytes else maxResponseHeaderBytes.
Definition setupConn (enableExtendedConnect : bool) (additionalSettings : gmap Z Z) (others : list (Z * Z)) (maxResponseHeaderBytes : Z) : bytes :=
  qv_Append streamTypeControlStream ++ settingsFrame_Append (mkSettings maxResponseHeaderBytes enableDatagrams enableExtendedConnect additionalSettings) others.
Definition handleUnidirectionalStream (q : qstream) (s : conn) : conn :=
  match q_varint q with
  | (Err _, _) => s
  | (Ok (t, _), q) =>
      if t =? streamTypeControlStream then
        if rcvdControlStr s then CloseWithError ErrCodeStreamCreationError s
        else set_ctl (CSettings q) (set_rcvd true (rcvdQPACKEncoderStr s) (rcvdQPACKDecoderStr s) s)
      else if t =? streamTypeQPACKEncoderStream then
        if rcvdQPACKEncoderStr s then CloseWithError ErrCodeStreamCreationError s else set_rcvd (rcvdControlStr s) true (rcvdQPACKDecoderStr s) s
      else if t =? streamTypeQPACKDecoderStream then
        if rcvdQPACKDecoderStr s then CloseWithError ErrCodeStreamCreationError s else set_rcvd (rcvdControlStr s) (rcvdQPACKEncoderStr s) true s
      else if t =? streamTypePushStream then CloseWithError ErrCodeIDError s
      else s
  end.
(** [handleControlStream], one frame at a time. *)
Definition control_error (e : error) (s : conn) : conn :=
  set_ctl CEnd (CloseWithError (if bool_decide (e = io_EOF) || is_stream_error e then ErrCodeClosedCriticalStream else ErrCodeFrameError) s).
Definition control_stop (code : Z) (s : conn) : conn := set_ctl CEnd (CloseWithError code s).
Definition closed_by_parser (pr : parse_result) (s : conn) : conn := match pr_close pr with Some code => CloseWithError code s | None => s end.
Definition first_frame (pr : parse_result) (s : conn) : conn :=
  let s := closed_by_parser pr s in
  match pr_frame pr with
  | Err e => control_error e s
  | Ok (settings f) =>
      let s := set_settings f s in
      if Datagram f then
        if enableDatagrams && negb remoteDatagrams then control_stop ErrCodeSettingsError s else set_ctl (CFrames (pr_rest pr)) (set_dg DgIdle s)
      else set_ctl (CFrames (pr_rest pr)) s
  | Ok _ => control_stop ErrCodeMissingSettings s
  end.
Definition next_frame (pr : parse_result) (s : conn) : conn :=
  let s := closed_by_parser pr s in
  match pr_frame pr with
  | Err e => control_error e s
  | Ok (goAwayFrame id) =>
      if negb (id mod 4 =? 0) then control_stop ErrCodeIDError s
      else if negb (maxStreamID s =? invalidStreamID) && (maxStreamID s <? id) then control_stop ErrCodeIDError s
      else set_ctl (if bool_decide (streams s = ∅) then CClosing else CFrames (pr_rest pr)) (set_maxID id s)
  | Ok _ => control_stop ErrCodeFrameUnexpected s
  end.
(** [fail]: reading fails, because the stream or the connection has ended. *)
Definition control_step (fail : option error) (s : conn) : option conn :=
  match ctl s with
  | CNone | CEnd => None
  | CClosing => Some (control_stop ErrCodeNoError s)
  | CSettings q => match fail with Some e => Some (control_error e s) | None => (fun pr => first_frame pr s) <$> ParseNext None q end
  | CFrames q => match fail with Some e => Some (control_error e s) | None => (fun pr => next_frame pr s) <$> ParseNext None q end
  end.

(** ** The system *)
Inductive event :=
| EOpen (g : nat) | EStream (g : nat) (fail : option error) | EInsert (g : nat)
| ECloseSend (id : Z) (e : error) | ECloseReceive (id : Z) (e : error)
| EUni (q : qstream) | EControl (fail : option error) | EClose (code : Z)
| EDatagram (b : bytes) | EEnqueue | EDatagramsEnd
| EReceive (g : nat) (id : Z) | ELook (g : nat) | EWake (g : nat) | EGiveUp (g : nat) (e : error).
Definition exec (e : event) (s : conn) : option conn :=
  match e with
  | EOpen g => match openers s !! g with None => Some (open_check g s) | Some _ => None end
  | EStream g fail =>
      match openers s !! g, fail, closed s with
      | Some OChecked, Some e, _ => Some (set_opener g (ODone (Err e)) s)
      | Some OChecked, None, None => Some (open_stream g s)
      | _, _, _ => None
      end
  | EInsert g =>
      match openers s !! g with
      | Some (OOpened id) => match tr s !! id with Some t => Some (open_insert g id t s) | None => None end
      | _ => None
      end
  | ECloseSend id e => match tr s !! id with Some t => Some (closeSend id t e s) | None => None end
  | ECloseReceive id e => match tr s !! id with Some t => if tr_given t then Some (closeReceive id t e s) else None | None => None end
  | EUni q => Some (handleUnidirectionalStream q s)
  | EControl fail => control_step fail s
  | EClose code => Some (CloseWithError code s)
  | EDatagram b => match dg s with DgIdle => Some (receive_datagram b s) | _ => None end
  | EEnqueue =>
      match dg s with
      | DgHave id b => match tr s !! id with Some t => Some (set_dg DgIdle (set_tr id (enqueueDatagram b t) s)) | None => None end
      | _ => None
      end
  | EDatagramsEnd => match dg s with DgIdle => Some (set_dg DgEnd s) | _ => None end
  | EReceive g id => match receivers s !! g, tr s !! id with None, Some t => if tr_given t then Some (set_receiver g (RCheck id) s) else None | _, _ => None end
  | ELook g => match receivers s !! g with Some (RCheck id) => match tr s !! id with Some t => Some (receive_check g id t s) | None => None end | _ => None end
  | EWake g =>
      match receivers s !! g with
      | Some (RWait id) =>
          match tr s !! id with
          | Some t => if hasData t then Some (set_receiver g (RCheck id) (set_tr id (mkTracked (sendErr t) (recvErr t) (tr_queue t) false (tr_given t)) s)) else None
          | None => None
          end
      | _ => None
      end
  | EGiveUp g e => match receivers s !! g with Some (RWait id) => Some (set_receiver g (RDone id (Err e)) s) | _ => None end
  end.
Inductive reachable : conn -> Prop :=
| ReachInit : reachable newConnection
| ReachStep s e s' : reachable s -> exec e s = Some s' -> reachable s'.
Fixpoint run (es : list event) (s : conn) : option conn :=
  match es with [] => Some s | e :: es => match exec e s with Some s => run es s | None => None end end.
End Conn.

(** ** Invariants *)
Definition unfinished (t : tracked) : Prop := tr_given t = true /\ (sendErr t = None \/ recvErr t = None).
Record tracked_ok (t : tracked) : Prop := {
  tk_recv : tr_given t = false -> recvErr t = None;
  tk_queue : (length (tr_queue t) <= streamDatagramQueueLen)%nat }.
(** The call got this stream from QUIC. *)
Definition holds (x : opener) (id : Z) : Prop := x = OOpened id \/ x = ODone (Ok id).
(** What concerns the request streams. *)
Record core_ok (st : gset Z) (last max next : Z) (m : gmap Z tracked) (os : gmap nat opener) : Prop := {
  ok_next : 0 <= next /\ next mod 4 = 0;
  ok_last : last = invalidStreamID \/ (0 <= last /\ last mod 4 = 0 /\ last + 4 <= next);
  ok_id : forall id t, m !! id = Some t -> (0 <= id < next /\ id mod 4 = 0) /\ tracked_ok t;
  ok_streams : forall id, id ∈ st <-> exists t, m !! id = Some t /\ unfinished t;
  ok_opened : forall g id, os !! g = Some (OOpened id) -> exists t, m !! id = Some t /\ tr_given t = false;
  ok_returned : forall g id, os !! g = Some (ODone (Ok id)) -> is_Some (m !! id);
  ok_unique : forall g g' x x' id, os !! g = Some x -> os !! g' = Some x' -> holds x id -> holds x' id -> g = g';
  ok_max : max = invalidStreamID \/ max mod 4 = 0 }.
Record conn_ok (s : conn) : Prop := {
  ok_core : core_ok (streams s) (lastStreamID s) (maxStreamID s) (nextID s) (tr s) (openers s);
  ok_ctl : rcvdControlStr s = false -> ctl s = CNone;
  ok_close : maxStreamID s <> invalidStreamID -> streams s = ∅ -> is_Some (closed s) \/ ctl s = CClosing }.
Lemma newConnection_ok : conn_ok newConnection.
Proof.
  constructor; [|done|done]. constructor; cbn; try done; [by left| |by left]. intros id. split; [by intros ?%not_elem_of_empty|]. by intros (t & ? & _).
Qed.
Lemma div4_lt a b : a mod 4 = 0 -> b mod 4 = 0 -> a < b -> a + 4 <= b. Proof. intros. pose proof (Z.div_mod a 4). pose proof (Z.div_mod b 4). lia. Qed.

(** One stream changes. *)
Lemma tracked_change st last max next m os id t t' : core_ok st last max next m os -> m !! id = Some t -> tracked_ok t' -> tr_given t' = tr_given t ->
  (unfinished t' <-> unfinished t) -> core_ok st last max next (<[id := t']> m) os.
Proof.
  intros [H1 H2 H3 H4 H5 HR H6 H7] Hid Hok Hg Hu. constructor; try done.
  - intros i u [[<- <-]|[_ Hi]]%lookup_insert_Some; [split; [by apply (H3 id t)|done]|by apply (H3 i u)].
  - intros i. rewrite H4. split.
    + intros (u & Hi & Hun). destruct (decide (i = id)) as [->|Hne]; [|exists u; by rewrite lookup_insert_ne]. exists t'. rewrite lookup_insert_eq. split; [done|]. apply Hu. congruence.
    + intros (u & [[<- <-]|[_ Hi]]%lookup_insert_Some & Hun); [exists t; split; [done|by apply Hu]|by exists u].
  - intros g i Hg'. destruct (H5 g i Hg') as (u & Hi & Hgu). destruct (decide (i = id)) as [->|Hne]; [|exists u; by rewrite lookup_insert_ne]. exists t'. rewrite lookup_insert_eq. split; [done|congruence].
  - intros g i Hg'. apply lookup_insert_is_Some'. right. by apply (HR g).
Qed.
Lemma tracked_finish st last max next m os id t t' : core_ok st last max next m os -> m !! id = Some t -> tracked_ok t' -> tr_given t' = tr_given t ->
  ~ unfinished t' -> core_ok (st ∖ {[id]}) last max next (<[id := t']> m) os.
Proof.
  intros [H1 H2 H3 H4 H5 HR H6 H7] Hid Hok Hg Hu. constructor; try done.
  - intros i u [[<- <-]|[_ Hi]]%lookup_insert_Some; [split; [by apply (H3 id t)|done]|by apply (H3 i u)].
  - intros i. rewrite elem_of_difference, elem_of_singleton, H4. split.
    + intros [(u & Hi & Hun) Hne]. exists u. by rewrite lookup_insert_ne.
    + intros (u & [[<- <-]|[Hne Hi]]%lookup_insert_Some & Hun); [done|]. split; [by exists u|done].
  - intros g i Hg'. destruct (H5 g i Hg') as (u & Hi & Hgu). destruct (decide (i = id)) as [->|Hne]; [|exists u; by rewrite lookup_insert_ne]. exists t'. rewrite lookup_insert_eq. split; [done|congruence].
  - intros g i Hg'. apply lookup_insert_is_Some'. right. by apply (HR g).
Qed.
Lemma CloseWithError_ok code s : conn_ok s -> conn_ok (CloseWithError code s).
Proof. intros [H1 H2 H3]. constructor; [exact H1|exact H2|]. intros _ _. left. cbn. by destruct (closed s). Qed.
Lemma set_ctl_ok x s : conn_ok s -> rcvdControlStr s = true -> ctl s <> CClosing \/ is_Some (closed s) -> conn_ok (set_ctl x s).
Proof. intros [H1 H2 H3] Hr Hc. constructor; [exact H1|cbn; congruence|]. cbn. intros Hm He. left. by destruct (H3 Hm He) as [?|?], Hc. Qed.
Lemma set_dg_ok x s : conn_ok s -> conn_ok (set_dg x s). Proof. intros [H1 H2 H3]. by constructor. Qed.
Lemma set_settings_ok x s : conn_ok s -> conn_ok (set_settings x s). Proof. intros [H1 H2 H3]. by constructor. Qed.
Lemma set_receiver_ok g x s : conn_ok s -> conn_ok (set_receiver g x s). Proof. intros [H1 H2 H3]. by constructor. Qed.
Lemma set_tr_ok id t t' s : conn_ok s -> tr s !! id = Some t -> tracked_ok t' -> tr_given t' = tr_given t -> (unfinished t' <-> unfinished t) -> conn_ok (set_tr id t' s).
Proof. intros [H1 H2 H3] Ht Hok Hg Hu. constructor; [by apply (tracked_change _ _ _ _ _ _ id t)|exact H2|exact H3]. Qed.
(** A stream is over. *)
Lemma clear_ok id t t' s : conn_ok s -> tr s !! id = Some t -> tracked_ok t' -> tr_given t' = tr_given t -> ~ unfinished t' -> conn_ok (set_tr id t' (clearStream id s)).
Proof.
  intros [H1 H2 H3] Ht Hok Hg Hu. pose proof (tracked_finish _ _ _ _ _ _ id t t' H1 Ht Hok Hg Hu) as Hcore. unfold clearStream. cbn [streams set_streams maxStreamID].
  destruct (Z.eqb_spec (maxStreamID s) invalidStreamID) as [Em|Em]; cbn [negb andb]; [constructor; [exact Hcore|exact H2|by intros ?]|].
  case_bool_decide as Hst; constructor; cbn; [exact Hcore|exact H2| |exact Hcore|exact H2|done]. intros _ _. left. by destruct (closed s).
Qed.
Lemma closeSend_ok id t e s : conn_ok s -> tr s !! id = Some t -> conn_ok (closeSend id t e s).
Proof.
  intros H Ht. destruct (ok_id _ _ _ _ _ _ (ok_core _ H) id t Ht) as [_ [K1 K2]]. unfold closeSend. destruct (sendErr t) eqn:Es; [done|]. destruct (recvErr t) eqn:Er; cbn [is_set].
  - apply (clear_ok id t); [done|done|by constructor; cbn|done|]. unfold unfinished. cbn. by intros (_ & [?|?]).
  - apply (set_tr_ok id t); [done|done|by constructor|done|]. unfold unfinished. cbn. tauto.
Qed.
Lemma closeReceive_ok id t e s : conn_ok s -> tr s !! id = Some t -> tr_given t = true -> conn_ok (closeReceive id t e s).
Proof.
  intros H Ht Hg. destruct (ok_id _ _ _ _ _ _ (ok_core _ H) id t Ht) as [_ [K1 K2]]. unfold closeReceive, signaled. destruct (recvErr t) eqn:Er; [done|]. cbn [sendErr recvErr tr_queue tr_given]. destruct (sendErr t) eqn:Es; cbn [is_set].
  - apply (clear_ok id t); [done|done|by constructor; cbn; [rewrite Hg|]|done|]. unfold unfinished. cbn. by intros (_ & [?|?]).
  - apply (set_tr_ok id t); [done|done|by constructor; cbn; [rewrite Hg|]|done|]. unfold unfinished. cbn. rewrite Es. tauto.
Qed.
Lemma set_opener_ok g x s : conn_ok s -> (forall id, ~ holds x id) -> conn_ok (set_opener g x s).
Proof.
  intros [[H1 H2 H3 H4 H5 HR H6 H7] K2 K3] Hx. constructor; [|exact K2|exact K3]. constructor; try done; cbn.
  - intros g' id [[<- E]|[_ E]]%lookup_insert_Some; [by destruct (Hx id); left|by apply (H5 g')].
  - intros g' id [[<- E]|[_ E]]%lookup_insert_Some; [by destruct (Hx id); right|by apply (HR g')].
  - intros g1 g2 x1 x2 id [[<- <-]|[_ E1]]%lookup_insert_Some; [intros _ Hh; by destruct (Hx id)|]. intros [[<- <-]|[_ E2]]%lookup_insert_Some; [intros _ Hh; by destruct (Hx id)|]. by apply (H6 g1 g2 x1 x2 id).
Qed.
Lemma open_stream_ok g s : conn_ok s -> openers s !! g = Some OChecked -> conn_ok (open_stream g s).
Proof.
  intros [[H1 H2 H3 H4 H5 HR H6 H7] K2 K3] Hg. assert (tr s !! nextID s = None) as Hnew. { destruct (tr s !! nextID s) as [t|] eqn:E; [|done]. destruct (H3 _ t E) as [[? _] _]. lia. }
  assert (forall g x, openers s !! g = Some x -> holds x (nextID s) -> False) as Hno. { intros g' x Hx [-> | ->]; [destruct (H5 _ _ Hx) as (t & Hi & _); congruence|destruct (HR _ _ Hx) as [t Hi]; congruence]. }
  constructor; [|exact K2|exact K3]. constructor; cbn.
  - split; [lia|]. rewrite <- Z.add_mod_idemp_l by lia. by destruct H1 as [_ ->].
  - destruct H2 as [?|?]; [by left|right; lia].
  - intros id t [[<- <-]|[_ Hi]]%lookup_insert_Some; [split; [lia|by constructor; cbn; [|unfold streamDatagramQueueLen; lia]]|]. destruct (H3 id t Hi) as [? ?]. split; [lia|done].
  - intros id. rewrite H4. split; intros (t & Hi & Hu).
    + exists t. split; [|done]. rewrite lookup_insert_ne; [done|]. intros <-. congruence.
    + apply lookup_insert_Some in Hi as [[<- <-]|[_ Hi]]; [by destruct Hu|by exists t].
  - intros g' id [[<- [= <-]]|[Hne Ho]]%lookup_insert_Some; [eexists; by rewrite lookup_insert_eq|]. destruct (H5 g' id Ho) as (t & Hi & Hgt). exists t. split; [|done]. rewrite lookup_insert_ne; [done|]. intros <-. congruence.
  - intros g' id [[<- [=]]|[Hne Ho]]%lookup_insert_Some. apply lookup_insert_is_Some'. right. by apply (HR g').
  - intros g1 g2 x1 x2 id [[<- <-]|[N1 E1]]%lookup_insert_Some [[<- <-]|[N2 E2]]%lookup_insert_Some; try done.
    + intros [[= <-]|[=]] Hh. by destruct (Hno g2 x2).
    + intros Hh [[= <-]|[=]]. by destruct (Hno g1 x1).
    + by apply (H6 g1 g2 x1 x2 id).
  - done.
Qed.
Lemma open_insert_ok g id t s : conn_ok s -> openers s !! g = Some (OOpened id) -> tr s !! id = Some t -> conn_ok (open_insert g id t s).
Proof.
  intros [[H1 H2 H3 H4 H5 HR H6 H7] K2 K3] Hg Ht. destruct (H5 g id Hg) as (t0 & Ht0 & Hgt). assert (t0 = t) as -> by congruence. clear Ht0. destruct (H3 id t Ht) as [Hid [Q1 Q2]]. specialize (Q1 Hgt).
  constructor; [|exact K2|cbn; intros _ E; exfalso; apply (not_elem_of_empty (C := gset Z) id); rewrite <- E; by apply elem_of_union_l, elem_of_singleton]. constructor; cbn.
  - done.
  - right. pose proof (div4_lt id (nextID s)). lia.
  - intros i u [[<- <-]|[_ Hi]]%lookup_insert_Some; [by split; [|constructor]|by apply (H3 i u)].
  - intros i. rewrite elem_of_union, elem_of_singleton, H4. split.
    + intros [->|(u & Hi & Hu)]; [eexists; rewrite lookup_insert_eq; split; [done|]; split; [done|by right]|]. exists u. rewrite lookup_insert_ne; [done|]. intros <-. destruct Hu. congruence.
    + intros (u & [[<- <-]|[Hne Hi]]%lookup_insert_Some & Hu); [by left|right; by exists u].
  - intros g' i [[<- E]|[Hne Ho]]%lookup_insert_Some; [done|]. destruct (H5 g' i Ho) as (u & Hi & Hgu). exists u. rewrite lookup_insert_ne; [done|]. intros <-. apply Hne. by apply (H6 g g' _ _ id Hg Ho); left.
  - intros g' i [[<- [= <-]]|[Hne Ho]]%lookup_insert_Some; apply lookup_insert_is_Some'; [by left|right; by apply (HR g')].
  - assert (forall g2 x2, openers s !! g2 = Some x2 -> holds x2 id -> g = g2) as Huni by (intros g2 x2 E2 Hh; by apply (H6 g g2 _ x2 id Hg E2); [left|]).
    intros g1 g2 x1 x2 i [[<- <-]|[N1 E1]]%lookup_insert_Some [[<- <-]|[N2 E2]]%lookup_insert_Some; try done.
    + intros [[=]|[= <-]] Hh. by apply (Huni g2 x2).
    + intros Hh [[=]|[= <-]]. symmetry. by apply (Huni g1 x1).
    + by apply (H6 g1 g2 x1 x2 i).
  - done.
Qed.

Section Steps.
Context `{QuicVarintOk} (is_stream_error : error -> bool) (enableDatagrams remoteDatagrams : bool).
Abbreviation step := (exec is_stream_error enableDatagrams remoteDatagrams).
Abbreviation reached := (reachable is_stream_error enableDatagrams remoteDatagrams).
Lemma control_stop_ok code s : conn_ok s -> rcvdControlStr s = true -> conn_ok (control_stop code s).
Proof. intros Hs Hr. apply set_ctl_ok; [by apply CloseWithError_ok|done|]. right. cbn. by destruct (closed s). Qed.
Lemma closed_by_parser_ok pr s : conn_ok s -> conn_ok (closed_by_parser pr s).
Proof. intros Hs. unfold closed_by_parser. destruct (pr_close pr); [by apply CloseWithError_ok|done]. Qed.
Lemma closed_by_parser_same pr s : ctl (closed_by_parser pr s) = ctl s /\ rcvdControlStr (closed_by_parser pr s) = rcvdControlStr s.
Proof. unfold closed_by_parser. by destruct (pr_close pr). Qed.
Lemma first_frame_ok pr s : conn_ok s -> rcvdControlStr s = true -> ctl s <> CClosing -> conn_ok (first_frame is_stream_error enableDatagrams remoteDatagrams pr s).
Proof.
  intros Hs Hr Hc. unfold first_frame. apply (closed_by_parser_ok pr) in Hs. destruct (closed_by_parser_same pr s) as [E1 E2]. rewrite <- E1 in Hc. rewrite <- E2 in Hr. clear E1 E2. revert Hs Hr Hc. generalize (closed_by_parser pr s). clear s. intros s Hs Hr Hc.
  destruct (pr_frame pr) as [[| |f|]|e]; try by apply control_stop_ok. destruct (Datagram f); [destruct (enableDatagrams && _)|].
  - by apply control_stop_ok; [apply set_settings_ok|].
  - apply set_ctl_ok; [by apply set_dg_ok, set_settings_ok|done|by left].
  - apply set_ctl_ok; [by apply set_settings_ok|done|by left].
Qed.
Lemma set_maxID_ok id s q : conn_ok s -> id mod 4 = 0 -> rcvdControlStr s = true -> conn_ok (set_ctl (if bool_decide (streams s = ∅) then CClosing else CFrames q) (set_maxID id s)).
Proof.
  intros [[H1 H2 H3 H4 H5 HR H6 H7] K2 K3] Hid Hr. constructor; [constructor; try done; by right|cbn; congruence|]. cbn. intros _ Hst. right. by rewrite bool_decide_true.
Qed.
Lemma next_frame_ok pr s : conn_ok s -> rcvdControlStr s = true -> conn_ok (next_frame is_stream_error pr s).
Proof.
  intros Hs Hr. unfold next_frame. apply (closed_by_parser_ok pr) in Hs. destruct (closed_by_parser_same pr s) as [_ E2]. rewrite <- E2 in Hr. clear E2. revert Hs Hr. generalize (closed_by_parser pr s). clear s. intros s Hs Hr.
  destruct (pr_frame pr) as [[| | |id]|e]; try by apply control_stop_ok. destruct (Z.eqb_spec (id mod 4) 0) as [Hid|]; cbn [negb]; [|by apply control_stop_ok].
  destruct (_ && _); [by apply control_stop_ok|by apply set_maxID_ok].
Qed.
Lemma control_step_ok fail s s' : conn_ok s -> control_step is_stream_error enableDatagrams remoteDatagrams fail s = Some s' -> conn_ok s'.
Proof.
  intros Hs. unfold control_step. assert (ctl s <> CNone -> rcvdControlStr s = true) as Hr. { intros Hn. destruct (rcvdControlStr s) eqn:E; [done|]. by destruct Hn; apply (ok_ctl _ Hs). }
  destruct (ctl s) as [|q|q| |] eqn:Ec; try done.
  - destruct fail as [e|]; [intros [= <-]; apply control_stop_ok; auto|]. destruct (ParseNext None q) as [pr|]; [|done]. intros [= <-]. apply first_frame_ok; [done|by apply Hr|congruence].
  - destruct fail as [e|]; [intros [= <-]; apply control_stop_ok; auto|]. destruct (ParseNext None q) as [pr|]; [|done]. intros [= <-]. by apply next_frame_ok; auto.
  - intros [= <-]. by apply control_stop_ok; auto.
Qed.
Lemma uni_ok q s : conn_ok s -> conn_ok (handleUnidirectionalStream q s).
Proof.
  intros Hs. unfold handleUnidirectionalStream. destruct (q_varint q) as [[[t n]|e] q1]; [|done].
  destruct (t =? streamTypeControlStream).
  { destruct (rcvdControlStr s) eqn:Er; [by apply CloseWithError_ok|]. pose proof (ok_ctl _ Hs Er) as Ec. destruct Hs as [K1 K2 K3]. constructor; [exact K1|done|]. cbn. intros Hm He. left. destruct (K3 Hm He); [done|congruence]. }
  destruct (t =? streamTypeQPACKEncoderStream); [destruct (rcvdQPACKEncoderStr s); [by apply CloseWithError_ok|by destruct Hs]|].
  destruct (t =? streamTypeQPACKDecoderStream); [destruct (rcvdQPACKDecoderStr s); [by apply CloseWithError_ok|by destruct Hs]|].
  destruct (t =? streamTypePushStream); [by apply CloseWithError_ok|done].
Qed.
Lemma enqueue_ok b t : tracked_ok t -> tracked_ok (enqueueDatagram b t) /\ tr_given (enqueueDatagram b t) = tr_given t /\ sendErr (enqueueDatagram b t) = sendErr t /\ recvErr (enqueueDatagram b t) = recvErr t.
Proof.
  intros Ht. unfold enqueueDatagram. destruct (is_set (recvErr t)) eqn:Er; [done|]. case_bool_decide as Hl; [done|]. split; [|done]. destruct Ht as [K1 K2]. constructor; cbn; [done|]. rewrite length_app. cbn. lia.
Qed.
Lemma h3c_exec_ok e s s' : conn_ok s -> step e s = Some s' -> conn_ok s'.
Proof.
  intros Hs. pose proof (ok_id _ _ _ _ _ _ (ok_core _ Hs)) as Hid. destruct e as [g|g fail|g|id e|id e|q|fail|code|b| | |g id|g|g|g e]; cbn [exec].
  - destruct (openers s !! g); [done|]. intros [= <-]. unfold open_check. apply set_opener_ok; [done|]. intros id. destruct (_ && _); by intros [[=]|[=]].
  - destruct (openers s !! g) as [[]|] eqn:Eg; try done. destruct fail as [e|]; [intros [= <-]; apply set_opener_ok; [done|]; by intros id [[=]|[=]]|]. destruct (closed s); [done|]. intros [= <-]. by apply open_stream_ok.
  - destruct (openers s !! g) as [[|id|]|] eqn:Eg; try done. destruct (tr s !! id) as [t|] eqn:Et; [|done]. intros [= <-]. by apply open_insert_ok.
  - destruct (tr s !! id) as [t|] eqn:Et; [|done]. intros [= <-]. by apply closeSend_ok.
  - destruct (tr s !! id) as [t|] eqn:Et; [|done]. destruct (tr_given t) eqn:Eg; [|done]. intros [= <-]. by apply closeReceive_ok.
  - intros [= <-]. by apply uni_ok.
  - by apply control_step_ok.
  - intros [= <-]. by apply CloseWithError_ok.
  - destruct (dg s); try done. intros [= <-]. unfold receive_datagram. destruct (qv_Read b io_EOF) as [[v d]|e]; [|by apply set_dg_ok, CloseWithError_ok]. destruct (_ <? v); [by apply set_dg_ok, CloseWithError_ok|]. case_bool_decide; [by apply set_dg_ok|done].
  - destruct (dg s) as [| |id b|]; try done. destruct (tr s !! id) as [t|] eqn:Et; [|done]. intros [= <-]. apply set_dg_ok. destruct (enqueue_ok b t ltac:(by apply (Hid id t))) as (E1 & E2 & E3 & E4). apply (set_tr_ok id t); try done. unfold unfinished. by rewrite E2, E3, E4.
  - destruct (dg s); try done. intros [= <-]. by apply set_dg_ok.
  - destruct (receivers s !! g); [done|]. destruct (tr s !! id) as [t|]; [|done]. destruct (tr_given t); [|done]. intros [= <-]. by apply set_receiver_ok.
  - destruct (receivers s !! g) as [[id| |]|]; try done. destruct (tr s !! id) as [t|] eqn:Et; [|done]. intros [= <-]. unfold receive_check. destruct (tr_queue t) as [|b queue] eqn:Eq; [destruct (recvErr t); by apply set_receiver_ok|].
    apply set_receiver_ok, (set_tr_ok id t); try done. destruct (Hid id t Et) as [_ [K1 K2]]. constructor; cbn; [done|]. rewrite Eq in K2. cbn in K2. lia.
  - destruct (receivers s !! g) as [[|id|]|]; try done. destruct (tr s !! id) as [t|] eqn:Et; [|done]. destruct (hasData t); [|done]. intros [= <-]. apply set_receiver_ok, (set_tr_ok id t); try done. destruct (Hid id t Et) as [_ [K1 K2]]. by constructor.
  - destruct (receivers s !! g) as [[|id|]|]; try done. intros [= <-]. by apply set_receiver_ok.
Qed.
Lemma h3c_reachable_conn_ok s : reached s -> conn_ok s.
Proof. induction 1 as [|s e s' _ IH Hx]; [apply newConnection_ok|by eapply h3c_exec_ok]. Qed.

(** C18: the map of streams holds exactly the requests that are not over. In every reachable state a
    stream is in it if and only if it was returned to a request and its two sides are not
    both closed; streams are numbered by four, and no two calls get the same one. After a
    GOAWAY, once no stream is left, the connection is closed or the goroutine of the
    control stream closes it in its next step. *)
Theorem h3_streams_tracked s : reached s ->
  (forall id, id ∈ streams s <-> exists t, tr s !! id = Some t /\ unfinished t) /\
  (forall id, id ∈ streams s -> 0 <= id < nextID s /\ id mod 4 = 0) /\
  (forall g g' id, openers s !! g = Some (ODone (Ok id)) -> openers s !! g' = Some (ODone (Ok id)) -> g = g') /\
  (maxStreamID s <> invalidStreamID -> streams s = ∅ -> is_Some (closed s) \/ exists s', step (EControl None) s = Some s' /\ is_Some (closed s')).
Proof.
  intros [[H1 H2 H3 H4 H5 HR H6 H7] K2 K3]%h3c_reachable_conn_ok. split; [done|]. split; [intros id (t & Ht & _)%H4; by apply (H3 id t)|]. split; [intros g g' id E1 E2; apply (H6 g g' _ _ id E1 E2); by right|].
  intros Hm Hst. destruct (K3 Hm Hst) as [?|Hc]; [by left|right]. eexists. cbn. unfold control_step. rewrite Hc. split; [reflexivity|]. cbn. by destruct (closed s).
Qed.

(** *** GOAWAY *)
(** What a step leaves alone. *)
Definition opens (e : event) : bool := match e with EOpen _ | EStream _ _ | EInsert _ => true | _ => false end.
Definition same_opening (s s' : conn) : Prop := openers s' = openers s /\ lastStreamID s' = lastStreamID s /\ nextID s' = nextID s.
Lemma clearStream_opening id t s : same_opening s (set_tr id t (clearStream id s)) /\ maxStreamID (set_tr id t (clearStream id s)) = maxStreamID s.
Proof. unfold clearStream. by destruct (_ && _). Qed.
Lemma next_frame_opening pr s : same_opening s (next_frame is_stream_error pr s) /\
  (maxStreamID s <> invalidStreamID -> maxStreamID (next_frame is_stream_error pr s) <> invalidStreamID /\ maxStreamID (next_frame is_stream_error pr s) <= maxStreamID s).
Proof.
  unfold next_frame. assert (same_opening s (closed_by_parser pr s) /\ maxStreamID (closed_by_parser pr s) = maxStreamID s) as [Ho Hm] by (unfold closed_by_parser; by destruct (pr_close pr)). rewrite <- Hm. generalize dependent (closed_by_parser pr s). intros s1 Ho _.
  destruct (pr_frame pr) as [[| | |id]|e]; try by split. destruct (Z.eqb_spec (id mod 4) 0) as [Hid|]; cbn [negb]; [|by split]. destruct (Z.eqb_spec (maxStreamID s1) invalidStreamID) as [Em|Em]; cbn [negb andb].
  - split; [exact Ho|]. by intros ?.
  - destruct (Z.ltb_spec (maxStreamID s1) id); [by split|]. split; [exact Ho|]. intros _. cbn. split; [|lia]. intros ->. unfold invalidStreamID in Hid. by vm_compute in Hid.
Qed.
Lemma step_opening e s s' : step e s = Some s' -> (opens e = false -> same_opening s s') /\
  (maxStreamID s <> invalidStreamID -> maxStreamID s' <> invalidStreamID /\ maxStreamID s' <= maxStreamID s).
Proof.
  assert (forall s', same_opening s s' -> maxStreamID s' = maxStreamID s -> (opens e = false -> same_opening s s') /\ (maxStreamID s <> invalidStreamID -> maxStreamID s' <> invalidStreamID /\ maxStreamID s' <= maxStreamID s)) as Hsame by (intros s1 ? ->; split; [done|]; by intros ?).
  destruct e as [g|g fail|g|id e|id e|q|fail|code|b| | |g id|g|g|g e]; cbn [exec opens] in *.
  - destruct (openers s !! g); [done|]. intros [= <-]. split; [done|]. by intros ?.
  - destruct (openers s !! g) as [[]|]; try done. destruct fail as [e|]; [|destruct (closed s); [done|]]; intros [= <-]; (split; [done|]; by intros ?).
  - destruct (openers s !! g) as [[|id|]|]; try done. destruct (tr s !! id); [|done]. intros [= <-]. split; [done|]. by intros ?.
  - destruct (tr s !! id) as [t|]; [|done]. intros [= <-]. unfold closeSend. destruct (sendErr t); [by apply Hsame|]. destruct (recvErr t); cbn [is_set]; apply Hsame; try done; by apply clearStream_opening.
  - destruct (tr s !! id) as [t|]; [|done]. destruct (tr_given t); [|done]. intros [= <-]. unfold closeReceive. destruct (recvErr t); [by apply Hsame|]. destruct (sendErr t); cbn [is_set]; apply Hsame; try done; by apply clearStream_opening.
  - intros [= <-]. unfold handleUnidirectionalStream. destruct (q_varint q) as [[[t n]|] q1]; [|by apply Hsame]. destruct (t =? _); [destruct (rcvdControlStr s); by apply Hsame|]. destruct (t =? _); [destruct (rcvdQPACKEncoderStr s); by apply Hsame|].
    destruct (t =? _); [destruct (rcvdQPACKDecoderStr s); by apply Hsame|]. destruct (t =? _); by apply Hsame.
  - unfold control_step. destruct (ctl s) as [|q|q| |]; try done.
    + destruct fail as [e|]; [intros [= <-]; by apply Hsame|]. destruct (ParseNext None q) as [pr|]; [|done]. intros [= <-]. unfold first_frame. assert (same_opening s (closed_by_parser pr s) /\ maxStreamID (closed_by_parser pr s) = maxStreamID s) as [Ho Hm] by (unfold closed_by_parser; by destruct (pr_close pr)).
      generalize dependent (closed_by_parser pr s). intros s1 Ho Hm. destruct (pr_frame pr) as [[| |f|]|]; try by apply Hsame. destruct (Datagram f); [destruct (_ && _)|]; by apply Hsame.
    + destruct fail as [e|]; [intros [= <-]; by apply Hsame|]. destruct (ParseNext None q) as [pr|]; [|done]. intros [= <-]. destruct (next_frame_opening pr s). by split.
    + intros [= <-]. by apply Hsame.
  - intros [= <-]. by apply Hsame.
  - destruct (dg s); try done. intros [= <-]. unfold receive_datagram. destruct (qv_Read b io_EOF) as [[v d]|]; [|by apply Hsame]. destruct (_ <? v); [by apply Hsame|]. case_bool_decide; by apply Hsame.
  - destruct (dg s) as [| |id b|]; try done. destruct (tr s !! id); [|done]. intros [= <-]. by apply Hsame.
  - destruct (dg s); try done. intros [= <-]. by apply Hsame.
  - destruct (receivers s !! g); [done|]. destruct (tr s !! id) as [t|]; [|done]. destruct (tr_given t); [|done]. intros [= <-]. by apply Hsame.
  - destruct (receivers s !! g) as [[id| |]|]; try done. destruct (tr s !! id) as [t|]; [|done]. intros [= <-]. unfold receive_check. destruct (tr_queue t); [destruct (recvErr t); by apply Hsame|by apply Hsame].
  - destruct (receivers s !! g) as [[|id|]|]; try done. destruct (tr s !! id) as [t|]; [|done]. destruct (hasData t); [|done]. intros [= <-]. by apply Hsame.
  - destruct (receivers s !! g) as [[|id|]|]; try done. intros [= <-]. by apply Hsame.
Qed.

(** Steps that respect a condition. *)
Inductive reach_if (allowed : event -> conn -> Prop) : conn -> Prop :=
| IfInit : reach_if allowed newConnection
| IfStep s e s' : reach_if allowed s -> allowed e s -> step e s = Some s' -> reach_if allowed s'.
Lemma reach_if_reachable allowed s : reach_if allowed s -> reached s.
Proof. induction 1; [constructor|by econstructor]. Qed.
(** No request is being opened; requests are opened one after the other. *)
Definition quiet (s : conn) : Prop := forall g x, openers s !! g = Some x -> exists r, x = ODone r.
Definition one_by_one (e : event) (s : conn) : Prop := match e with EOpen _ => quiet s | _ => True end.
Definition numbers_match (s : conn) : Prop := nextStreamID s = nextID s.
Definition one_opener (s : conn) : Prop := exists g x, openers s !! g = Some x /\ (forall g' y, openers s !! g' = Some y -> g' <> g -> exists r, y = ODone r) /\
  (x = OChecked /\ numbers_match s \/ x = OOpened (nextID s - 4)).
Definition seq_ok (s : conn) : Prop := quiet s /\ numbers_match s \/ one_opener s.
Lemma same_opening_seq s s' : same_opening s s' -> seq_ok s -> seq_ok s'.
Proof. intros (E1 & E2 & E3). unfold seq_ok, one_opener, quiet, numbers_match, nextStreamID. by rewrite E1, E2, E3. Qed.
Lemma one_opener_only s g x : one_opener s -> openers s !! g = Some x -> (forall r, x <> ODone r) ->
  (forall g' y, openers s !! g' = Some y -> g' <> g -> exists r, y = ODone r) /\ (x = OChecked /\ numbers_match s \/ x = OOpened (nextID s - 4)).
Proof.
  intros (g0 & x0 & E0 & Hrest & Hx) Eg Hn. destruct (decide (g = g0)) as [->|Hne]; [|destruct (Hrest g x Eg Hne) as [r ->]; by destruct (Hn r)]. assert (x = x0) as -> by congruence. done.
Qed.
Lemma seq_active s g x : seq_ok s -> openers s !! g = Some x -> (forall r, x <> ODone r) -> one_opener s.
Proof. intros [[Hq _]|H'] Eg Hn; [|done]. destruct (Hq g x Eg) as [r ->]. by destruct (Hn r). Qed.
Lemma finish_quiet s g r s1 : openers s1 = <[g := ODone r]> (openers s) -> (forall g' y, openers s !! g' = Some y -> g' <> g -> exists r, y = ODone r) -> quiet s1.
Proof. intros E Hrest g' y. rewrite E. intros [[<- <-]|[Hne Hy]]%lookup_insert_Some; [by eexists|]. by apply (Hrest g'). Qed.
Lemma exec_seq e s s' : reached s -> seq_ok s -> one_by_one e s -> step e s = Some s' -> seq_ok s'.
Proof.
  intros Hreach Hs Ha Hx. destruct (opens e) eqn:Eo; [|eapply same_opening_seq; [by eapply (proj1 (step_opening e s s' Hx))|done]]. pose proof (h3c_reachable_conn_ok s Hreach) as [Hc _ _].
  destruct e as [g|g fail|g| | | | | | | | | | | |]; try done; cbn [exec one_by_one] in *.
  - destruct (openers s !! g) eqn:Eg; [done|]. injection Hx as <-. assert (numbers_match s) as Hm. { destruct Hs as [[_ ?]|(g0 & x0 & E0 & Hrest & Hcase)]; [done|]. destruct (Ha g0 x0 E0) as [r ->]. by destruct Hcase as [[[=] _]|[=]]. }
    unfold open_check. destruct (_ && _).
    + left. split; [|done]. eapply finish_quiet; [reflexivity|]. intros g' y Hy _. by apply (Ha g').
    + right. exists g, OChecked. cbn. rewrite lookup_insert_eq. split; [done|]. split; [|by left]. intros g' y Hy Hne. rewrite lookup_insert_ne in Hy by done. by apply (Ha g').
  - destruct (openers s !! g) as [[]|] eqn:Eg; try done. destruct (one_opener_only s g _ (seq_active _ _ _ Hs Eg ltac:(done)) Eg ltac:(done)) as [Hrest [[_ Hm]|[=]]]. destruct fail as [e|].
    + injection Hx as <-. left. split; [|done]. by eapply finish_quiet.
    + destruct (closed s); [done|]. injection Hx as <-. right. exists g, (OOpened (nextID s)). cbn. rewrite lookup_insert_eq. split; [done|]. split; [|right; f_equal; lia]. intros g' y Hy Hne. rewrite lookup_insert_ne in Hy by done. by apply (Hrest g').
  - destruct (openers s !! g) as [[|id|]|] eqn:Eg; try done. destruct (one_opener_only s g _ (seq_active _ _ _ Hs Eg ltac:(done)) Eg ltac:(done)) as [Hrest [[[=] _]|[= ->]]]. destruct (tr s !! (nextID s - 4)) as [t|] eqn:Et; [|done]. injection Hx as <-.
    left. split; [by eapply finish_quiet|]. unfold numbers_match, nextStreamID, open_insert. cbn. destruct (ok_id _ _ _ _ _ _ Hc _ t Et) as [[[Hid _] _] _]. unfold invalidStreamID. destruct (Z.eqb_spec (nextID s - 4) (-1)); lia.
Qed.
Lemma one_by_one_seq s : reach_if one_by_one s -> seq_ok s.
Proof.
  induction 1 as [|s e s' Hr IH Ha Hx]; [|eapply exec_seq; [by eapply reach_if_reachable|done|done|done]]. left. split; [intros g x Hg; cbn in Hg; by rewrite lookup_empty in Hg|reflexivity].
Qed.

(** GOAWAY is respected. The largest identifier a server accepts never grows; a request is
    refused only if its stream would be at or above it, whatever other requests are being
    opened; and when requests are opened one after the other, those that are not refused
    get a stream below it. *)
Theorem h3_goaway_respected s g s' : reached s -> step (EOpen g) s = Some s' ->
  (openers s' !! g = Some (ODone (Err errGoAway)) -> maxStreamID s <> invalidStreamID /\ maxStreamID s <= nextID s) /\
  (reach_if one_by_one s -> quiet s -> openers s' !! g = Some OChecked -> maxStreamID s = invalidStreamID \/ nextID s < maxStreamID s) /\
  (forall e s2, maxStreamID s <> invalidStreamID -> step e s = Some s2 -> maxStreamID s2 <> invalidStreamID /\ maxStreamID s2 <= maxStreamID s).
Proof.
  intros Hr Hx. pose proof (h3c_reachable_conn_ok s Hr) as [[H1 H2 _ _ _ _ _ _] _ _]. cbn [exec] in Hx. destruct (openers s !! g) eqn:Eg; [done|]. injection Hx as <-. unfold open_check. cbn. rewrite lookup_insert_eq.
  assert (nextStreamID s <= nextID s) as Hle. { unfold nextStreamID. destruct (Z.eqb_spec (lastStreamID s) invalidStreamID); [lia|]. destruct H2; lia. }
  split; [|split; [|intros e s2 Hm Hx; by eapply step_opening]].
  - destruct (Z.eqb_spec (maxStreamID s) invalidStreamID); cbn [negb andb]; [done|]. destruct (Z.leb_spec (maxStreamID s) (nextStreamID s)); [|done]. intros _. split; [done|lia].
  - intros Hseq%one_by_one_seq Hq. assert (nextStreamID s = nextID s) as ->. { destruct Hseq as [[_ ?]|(g0 & x0 & E0 & _ & Hcase)]; [done|]. destruct (Hq g0 x0 E0) as [r ->]. by destruct Hcase as [[[=] _]|[=]]. }
    destruct (Z.eqb_spec (maxStreamID s) invalidStreamID); cbn [negb andb]; [by left|]. destruct (Z.leb_spec (maxStreamID s) (nextID s)); [done|]. by right.
Qed.

(** *** Datagrams *)
Definition waits_on (id : Z) (x : receiver) : Prop := x = RCheck id \/ x = RWait id.
Definition one_receiver (e : event) (s : conn) : Prop := match e with EReceive _ id => forall g x, receivers s !! g = Some x -> ~ waits_on id x | _ => True end.
Record dgram_ok (s : conn) : Prop := {
  dk_one : forall g g' x x' id, receivers s !! g = Some x -> receivers s !! g' = Some x' -> waits_on id x -> waits_on id x' -> g = g';
  dk_wait : forall g id t, receivers s !! g = Some (RWait id) -> tr s !! id = Some t -> hasData t = true \/ (tr_queue t = [] /\ recvErr t = None) }.
Definition told (t : tracked) : Prop := hasData t = true \/ (tr_queue t = [] /\ recvErr t = None).
Lemma set_tr_dgram id t t' s : dgram_ok s -> tr s !! id = Some t -> (told t -> told t') \/ (forall g, receivers s !! g <> Some (RWait id)) -> dgram_ok (set_tr id t' s).
Proof.
  intros [D1 D2] Ht Hi. constructor; cbn; [done|]. intros g i u Hg [[<- <-]|[_ Hu]]%lookup_insert_Some; [|by apply (D2 g i)]. destruct Hi as [Hi|Hno]; [|by destruct (Hno g)]. by apply Hi, (D2 g id).
Qed.
Lemma set_receiver_dgram g x s : dgram_ok s -> (forall id, waits_on id x -> exists x0, receivers s !! g = Some x0 /\ waits_on id x0) ->
  (forall id t, x = RWait id -> tr s !! id = Some t -> told t) -> dgram_ok (set_receiver g x s).
Proof.
  intros [D1 D2] Hw Ht. constructor; cbn.
  - intros g1 g2 x1 x2 id [[<- <-]|[N1 E1]]%lookup_insert_Some [[<- <-]|[N2 E2]]%lookup_insert_Some; try done.
    + intros Hx W2. destruct (Hw id Hx) as (x0 & E0 & W0). by apply (D1 g g2 x0 x2 id).
    + intros W1 Hx. destruct (Hw id Hx) as (x0 & E0 & W0). by apply (D1 g1 g x1 x0 id).
    + by apply (D1 g1 g2 x1 x2 id).
  - intros g' id t [[<- ->]|[Hne Hg]]%lookup_insert_Some Hi; [by apply (Ht id)|by apply (D2 g' id)].
Qed.
Lemma no_other_waits g x id s : dgram_ok s -> receivers s !! g = Some x -> waits_on id x -> forall y, (y <> RWait id) -> forall g', receivers (set_receiver g y s) !! g' <> Some (RWait id).
Proof.
  intros [D1 _] Hg Hx y Hy g'. cbn. intros [[<- E]|[Hne E]]%lookup_insert_Some; [done|]. apply Hne. apply (D1 g g' x (RWait id) id); [done|done|done|by right].
Qed.
Lemma same_dgram s s' : receivers s' = receivers s -> tr s' = tr s -> dgram_ok s -> dgram_ok s'.
Proof. intros E1 E2 [D1 D2]. constructor; by rewrite ?E1, ?E2. Qed.
Lemma clearStream_same id s : receivers (clearStream id s) = receivers s /\ tr (clearStream id s) = tr s.
Proof. unfold clearStream. by destruct (_ && _). Qed.
Lemma exec_dgram e s s' : dgram_ok s -> one_receiver e s -> step e s = Some s' -> dgram_ok s'.
Proof.
  intros Hd Ha. destruct e as [g|g fail|g|id e|id e|q|fail|code|b| | |g id|g|g|g e]; cbn [exec one_receiver] in *.
  - destruct (openers s !! g); [done|]. intros [= <-]. by apply (same_dgram s).
  - destruct (openers s !! g) as [[]|]; try done. destruct fail as [e|]; [intros [= <-]; by apply (same_dgram s)|]. destruct (closed s); [done|]. intros [= <-]. destruct Hd as [D1 D2]. constructor; cbn; [done|].
    intros g' i u Hg [[<- <-]|[_ Hu]]%lookup_insert_Some; [by right|by apply (D2 g' i)].
  - destruct (openers s !! g) as [[|id|]|]; try done. destruct (tr s !! id) as [t|] eqn:Et; [|done]. intros [= <-]. unfold open_insert. eapply (same_dgram (set_tr id _ s)); [reflexivity|reflexivity|]. by apply (set_tr_dgram id t); [| |left].
  - destruct (tr s !! id) as [t|] eqn:Et; [|done]. intros [= <-]. unfold closeSend. destruct (sendErr t); [done|]. destruct (clearStream_same id s) as [C1 C2]. destruct (recvErr t) eqn:Er; cbn [is_set].
    + eapply (same_dgram (set_tr id _ s)); [exact C1|cbn; rewrite C2; reflexivity|]. apply (set_tr_dgram id t); [done|done|left]. unfold told. cbn. by rewrite Er.
    + apply (set_tr_dgram id t); [done|done|left]. unfold told. cbn. by rewrite Er.
  - destruct (tr s !! id) as [t|] eqn:Et; [|done]. destruct (tr_given t); [|done]. intros [= <-]. unfold closeReceive. destruct (recvErr t) eqn:Er; [done|]. destruct (clearStream_same id s) as [C1 C2]. destruct (sendErr t); cbn [is_set].
    + eapply (same_dgram (set_tr id _ s)); [exact C1|cbn; rewrite C2; reflexivity|]. apply (set_tr_dgram id t); [done|done|left]. by left.
    + apply (set_tr_dgram id t); [done|done|left]. by left.
  - intros [= <-]. unfold handleUnidirectionalStream. destruct (q_varint q) as [[[t n]|] q1]; [|done]. destruct (t =? _); [destruct (rcvdControlStr s); by apply (same_dgram s)|]. destruct (t =? _); [destruct (rcvdQPACKEncoderStr s); by apply (same_dgram s)|].
    destruct (t =? _); [destruct (rcvdQPACKDecoderStr s); by apply (same_dgram s)|]. destruct (t =? _); by apply (same_dgram s).
  - assert (forall pr, dgram_ok (closed_by_parser pr s)) as Hcl by (intros pr; unfold closed_by_parser; destruct (pr_close pr); by apply (same_dgram s)). unfold control_step. destruct (ctl s) as [|q|q| |]; try done.
    + destruct fail as [e|]; [intros [= <-]; by apply (same_dgram s)|]. destruct (ParseNext None q) as [pr|]; [|done]. intros [= <-]. specialize (Hcl pr). unfold first_frame. generalize dependent (closed_by_parser pr s). intros s1 Hcl. destruct (pr_frame pr) as [[| |f|]|]; try by apply (same_dgram s1).
      destruct (Datagram f); [destruct (_ && _)|]; by apply (same_dgram s1).
    + destruct fail as [e|]; [intros [= <-]; by apply (same_dgram s)|]. destruct (ParseNext None q) as [pr|]; [|done]. intros [= <-]. specialize (Hcl pr). unfold next_frame. generalize dependent (closed_by_parser pr s). intros s1 Hcl. destruct (pr_frame pr) as [[| | |id]|]; try by apply (same_dgram s1).
      destruct (negb _); [by apply (same_dgram s1)|]. destruct (_ && _); by apply (same_dgram s1).
    + intros [= <-]. by apply (same_dgram s).
  - intros [= <-]. by apply (same_dgram s).
  - destruct (dg s); try done. intros [= <-]. unfold receive_datagram. destruct (qv_Read b io_EOF) as [[v d]|]; [|by apply (same_dgram s)]. destruct (_ <? v); [by apply (same_dgram s)|]. case_bool_decide; by apply (same_dgram s).
  - destruct (dg s) as [| |id b|]; try done. destruct (tr s !! id) as [t|] eqn:Et; [|done]. intros [= <-]. eapply (same_dgram (set_tr id _ s)); [reflexivity|reflexivity|]. apply (set_tr_dgram id t); [done|done|left]. unfold enqueueDatagram. destruct (is_set (recvErr t)); [done|]. case_bool_decide; [done|]. by left.
  - destruct (dg s); try done. intros [= <-]. by apply (same_dgram s).
  - destruct (receivers s !! g) eqn:Eg; [done|]. destruct (tr s !! id) as [t|]; [|done]. destruct (tr_given t); [|done]. intros [= <-]. destruct Hd as [D1 D2]. constructor; cbn.
    + assert (forall i, waits_on i (RCheck id) -> i = id) as Hi by (intros i [[=]|[=]]; done). intros g1 g2 x1 x2 i [[<- <-]|[N1 E1]]%lookup_insert_Some [[<- <-]|[N2 E2]]%lookup_insert_Some; try done.
      * intros ->%Hi H2. by destruct (Ha g2 x2 E2).
      * intros H1 ->%Hi. by destruct (Ha g1 x1 E1).
      * by apply (D1 g1 g2 x1 x2 i).
    + intros g' i u [[<- [=]]|[Hne Hg]]%lookup_insert_Some Hu. by apply (D2 g' i).
  - destruct (receivers s !! g) as [[id| |]|] eqn:Eg; try done. destruct (tr s !! id) as [t|] eqn:Et; [|done]. intros [= <-]. unfold receive_check. destruct (tr_queue t) as [|b queue] eqn:Eq; [destruct (recvErr t) eqn:Er|].
    + apply set_receiver_dgram; [done|by intros i [[=]|[=]]|done].
    + apply set_receiver_dgram; [done| |]. { intros i [[=]|[= <-]]. exists (RCheck id). split; [done|by left]. } intros i u [= <-] Hu. assert (u = t) as -> by congruence. by right.
    + change (dgram_ok (set_tr id (mkTracked (sendErr t) (recvErr t) queue (hasData t) (tr_given t)) (set_receiver g (RDone id (Ok b)) s))). apply (set_tr_dgram id t); [|done|right; apply (no_other_waits g (RCheck id)); [done|done|by left|done]].
      apply set_receiver_dgram; [done|by intros i [[=]|[=]]|done].
  - destruct (receivers s !! g) as [[|id|]|] eqn:Eg; try done. destruct (tr s !! id) as [t|] eqn:Et; [|done]. destruct (hasData t); [|done]. intros [= <-].
    change (dgram_ok (set_tr id (mkTracked (sendErr t) (recvErr t) (tr_queue t) false (tr_given t)) (set_receiver g (RCheck id) s))). apply (set_tr_dgram id t); [|done|right; apply (no_other_waits g (RWait id)); [done|done|by right|done]].
    apply set_receiver_dgram; [done| |done]. intros i [[= <-]|[=]]. exists (RWait id). split; [done|by right].
  - destruct (receivers s !! g) as [[|id|]|] eqn:Eg; try done. intros [= <-]. apply set_receiver_dgram; [done|by intros i [[=]|[=]]|done].
Qed.
Lemma one_receiver_ok s : reach_if one_receiver s -> dgram_ok s.
Proof. induction 1 as [|s e s' Hr IH Ha Hx]; [|by eapply exec_dgram]. constructor; cbn; [intros g g' x x' id Hg; by rewrite lookup_empty in Hg|intros g id t Hg; by rewrite lookup_empty in Hg]. Qed.

(** No datagram is forgotten. If no two calls of [ReceiveDatagram] wait for the same stream, then
    one that waits while a datagram is queued or the stream has ended is woken, and its next
    look at the queue returns the oldest datagram, or the error of the stream when there is
    none left. No queue ever holds more than 32 datagrams. *)
Theorem h3_datagram_wakeup s g id t : reach_if one_receiver s -> receivers s !! g = Some (RWait id) -> tr s !! id = Some t ->
  (length (tr_queue t) <= streamDatagramQueueLen)%nat /\
  (tr_queue t <> [] \/ recvErr t <> None -> exists s1 s2 r, step (EWake g) s = Some s1 /\ step (ELook g) s1 = Some s2 /\ receivers s2 !! g = Some (RDone id r) /\
    match tr_queue t with b :: _ => r = Ok b | [] => exists e, recvErr t = Some e /\ r = Err e end).
Proof.
  intros Hr Hg Ht. pose proof (h3c_reachable_conn_ok s (reach_if_reachable _ _ Hr)) as [[_ _ H3 _ _ _ _ _] _ _]. split; [by apply (H3 id t)|]. intros Hwhy.
  destruct (dk_wait _ (one_receiver_ok s Hr) g id t Hg Ht) as [Hh|[Hq He]]; [|by destruct Hwhy]. set (t1 := mkTracked (sendErr t) (recvErr t) (tr_queue t) false (tr_given t)). set (s1 := set_receiver g (RCheck id) (set_tr id t1 s)).
  assert (receivers s1 !! g = Some (RCheck id)) as Hg1 by apply lookup_insert_eq. assert (tr s1 !! id = Some t1) as Ht1 by apply lookup_insert_eq.
  exists s1, (receive_check g id t1 s1). cbn [exec]. rewrite Hg, Ht, Hh, Hg1, Ht1. unfold receive_check. cbn [t1 tr_queue recvErr].
  destruct (tr_queue t) as [|b queue]; [destruct (recvErr t) as [e|]; [|by destruct Hwhy]|]; eexists; (split; [reflexivity|]; split; [reflexivity|]; split; [apply lookup_insert_eq|]); [by exists e|done].
Qed.

(** *** The control stream *)
Fixpoint falls (max : Z) (ids : list Z) : Prop :=
  match ids with [] => True | id :: ids => varint_ok id /\ id mod 4 = 0 /\ (max = invalidStreamID \/ id <= max) /\ falls id ids end.
(** The last identifier. *)
Definition final (max : Z) (ids : list Z) : Z := fold_left (fun _ id => id) ids max.
Definition goaways (ids : list Z) : bytes := concat (goAwayFrame_Append <$> ids).
Lemma run_goaways ids : forall s q, ctl s = CFrames q -> streams s <> ∅ -> falls (maxStreamID s) ids -> (exists rest, q_content q = goaways ids ++ rest) ->
  exists s', run is_stream_error enableDatagrams remoteDatagrams (replicate (length ids) (EControl None)) s = Some s' /\ maxStreamID s' = final (maxStreamID s) ids /\ closed s' = closed s /\ c_settings s' = c_settings s /\ openers s' = openers s /\ streams s' = streams s.
Proof.
  induction ids as [|id ids IH]; intros s q Hc Hst Hf [rest Hq]; [by exists s|]. destruct Hf as (Hv & H4 & Hle & Hf). cbn [length replicate run exec]. unfold control_step. rewrite Hc.
  unfold goaways in Hq. cbn [fmap list_fmap concat] in Hq. rewrite <- app_assoc in Hq. destruct (ParseNext_wire [] _ _ q _ (Forall_nil_2 _) (wire_goaway id Hv) Hq) as (q1 & -> & _ & C1). cbn [option_fmap option_map fmap].
  unfold next_frame, closed_by_parser. cbn [pr_close pr_frame pr_rest]. rewrite H4. cbn [Z.eqb negb]. assert (negb (maxStreamID s =? invalidStreamID) && (maxStreamID s <? id) = false) as ->.
  { destruct Hle as [->|Hle]; [done|]. rewrite (proj2 (Z.ltb_ge _ _)) by done. apply andb_false_r. }
  rewrite bool_decide_false by done. destruct (IH (set_ctl (CFrames q1) (set_maxID id s)) q1) as (s' & E & E1 & E2 & E3 & E4 & E5); [done|done|done|by exists rest|]. exists s'. split; [exact E|]. split; [|done]. rewrite E1. cbn [maxStreamID set_ctl set_maxID]. done.
Qed.
Lemma setupConn_read f others s q rest : f = mkSettings (MaxFieldSectionSize f) enableDatagrams (ExtendedConnect f) (Other f) -> settings_ok f -> others ≡ₚ map_to_list (Other f) -> pairs_len (settings_pairs f others) <= 8192 ->
  q_content q = setupConn enableDatagrams (ExtendedConnect f) (Other f) others (MaxFieldSectionSize f) ++ rest -> rcvdControlStr s = false ->
  exists q1 q2, handleUnidirectionalStream q s = set_ctl (CSettings q1) (set_rcvd true (rcvdQPACKEncoderStr s) (rcvdQPACKDecoderStr s) s) /\
    ParseNext None q1 = Some (mkParsed (Ok (settings f)) q2 None) /\ q_content q2 = rest.
Proof.
  intros Ef Hok Hp Hl Hq Hr. unfold setupConn in Hq. rewrite <- Ef, <- app_assoc in Hq. unfold handleUnidirectionalStream.
  destruct (q_varint_ok streamTypeControlStream q _ ltac:(unfold streamTypeControlStream, varint_max; lia) Hq) as (q1 & -> & _ & C1). cbn [Z.eqb streamTypeControlStream]. rewrite Hr.
  destruct (ParseNext_wire [] _ _ q1 _ (Forall_nil_2 _) (wire_settings f others Hok Hp Hl) C1) as (q2 & E2 & _ & C2). by exists q1, q2.
Qed.
(** The settings reach the peer, and so do the GOAWAYs. From the control stream that
    [setupConn] writes, however it is cut, and the GOAWAY frames that follow it, the other side
    reads exactly the settings and then the identifiers; as long as it has requests in
    progress it keeps the connection open. *)
Theorem h3_settings_exchanged f others ids s q : f = mkSettings (MaxFieldSectionSize f) enableDatagrams (ExtendedConnect f) (Other f) -> settings_ok f -> others ≡ₚ map_to_list (Other f) -> pairs_len (settings_pairs f others) <= 8192 ->
  q_content q = setupConn enableDatagrams (ExtendedConnect f) (Other f) others (MaxFieldSectionSize f) ++ goaways ids -> rcvdControlStr s = false -> (Datagram f = true -> remoteDatagrams = true) ->
  streams s <> ∅ -> falls (maxStreamID s) ids ->
  exists s', run is_stream_error enableDatagrams remoteDatagrams (EUni q :: EControl None :: replicate (length ids) (EControl None)) s = Some s' /\
    c_settings s' = Some f /\ maxStreamID s' = final (maxStreamID s) ids /\ closed s' = closed s.
Proof.
  intros Ef Hok Hp Hl Hq Hr Hd Hst Hf. destruct (setupConn_read f others s q (goaways ids) Ef Hok Hp Hl Hq Hr) as (q1 & q2 & E1 & E2 & C2). cbn [run exec]. rewrite E1. unfold control_step at 1. cbn [ctl set_ctl]. rewrite E2. cbn [fmap option_fmap option_map].
  set (s1 := first_frame _ _ _ _ _). assert (ctl s1 = CFrames q2 /\ streams s1 = streams s /\ maxStreamID s1 = maxStreamID s /\ closed s1 = closed s /\ c_settings s1 = Some f) as (F1 & F2 & F3 & F4 & F5).
  { unfold s1, first_frame, closed_by_parser. cbn [pr_close pr_frame pr_rest]. destruct (Datagram f) eqn:Edg; [|done]. rewrite Hd by done. rewrite andb_false_r. done. }
  rewrite <- F2 in Hst. rewrite <- F3 in Hf. destruct (run_goaways ids s1 q2 F1 Hst Hf) as (s' & E & G1 & G2 & G3 & _); [exists []; by rewrite app_nil_r|]. exists s'. split; [exact E|]. rewrite G3, G1, G2, F3, F4. done.
Qed.
End Steps.

(** ** Examples *)
Abbreviation ex_run := (run (fun _ => false) true true).
Abbreviation ex_reached := (reachable (fun _ => false) true true).
Lemma h3c_run_reachable es : forall s s', ex_reached s -> ex_run es s = Some s' -> ex_reached s'.
Proof. induction es as [|e es IH]; intros s s' Hs; cbn; [by intros [= <-]|]. destruct (exec _ _ _ e s) as [s1|] eqn:E; [|done]. apply IH. by eapply ReachStep. Qed.
Lemma run_reach_if allowed es : Forall (fun e => forall s, allowed e s) es -> forall s s', reach_if (fun _ => false) true true allowed s -> ex_run es s = Some s' -> reach_if (fun _ => false) true true allowed s'.
Proof. induction 1 as [|e es He _ IH]; intros s s' Hs; cbn; [by intros [= <-]|]. destruct (exec _ _ _ e s) as [s1|] eqn:E; [|done]. apply IH. by eapply IfStep. Qed.
Definition opening (g : nat) : list event := [EOpen g; EStream g None; EInsert g].
Definition ex_goaways (ids : list Z) : qstream :=
  let p := setupConn true false {[7 := 99]} [(7, 99)] 16384 ++ goaways ids in mkQ [slice_to p 5; slice_from p 5] io_EOF false.
(** Two requests, then GOAWAY 8; the first one is over. *)
Definition ex_events : list event :=
  opening 0 ++ opening 1 ++ [EUni (ex_goaways [8]); EControl None; EControl None; ECloseSend 0 io_EOF; ECloseReceive 0 io_EOF].
Definition ex_state : conn := Eval vm_compute in match ex_run ex_events newConnection with Some s => s | None => newConnection end.
Lemma ex_state_ok : ex_reached ex_state. Proof. apply (h3c_run_reachable ex_events newConnection); [constructor|vm_compute; reflexivity]. Qed.
Lemma h3_streams_tracked_witness : ex_reached ex_state /\ 4 ∈ streams ex_state /\ 0 ∉ streams ex_state.
Proof.
  split; [exact ex_state_ok|]. destruct (h3_streams_tracked _ _ _ ex_state ex_state_ok) as (Hst & _). split.
  - apply Hst. eexists. split; [vm_compute; reflexivity|]. split; [reflexivity|by left].
  - intros (t & Ht & _ & Hu)%Hst. vm_compute in Ht. injection Ht as <-. by destruct Hu.
Defined.
Definition ex_refused : conn := Eval vm_compute in match ex_run [EOpen 2] ex_state with Some s => s | None => newConnection end.
Lemma h3_goaway_respected_witness : exec (fun _ => false) true true (EOpen 2) ex_state = Some ex_refused /\ openers ex_refused !! 2%nat = Some (ODone (Err errGoAway)) /\ maxStreamID ex_state <= nextID ex_state.
Proof.
  assert (exec (fun _ => false) true true (EOpen 2) ex_state = Some ex_refused) as E by (vm_compute; reflexivity). split; [exact E|]. assert (openers ex_refused !! 2%nat = Some (ODone (Err errGoAway))) as Ho by (vm_compute; reflexivity). split; [exact Ho|].
  exact (proj2 (proj1 (h3_goaway_respected (fun _ => false) true true ex_state 2%nat ex_refused ex_state_ok E) Ho)).
Defined.
Definition ex_two : conn := Eval vm_compute in match ex_run (opening 0 ++ opening 1) newConnection with Some s => s | None => newConnection end.
Lemma h3_settings_exchanged_witness : exists s', ex_run [EUni (ex_goaways [8; 4]); EControl None; EControl None; EControl None] ex_two = Some s' /\ c_settings s' = Some ex_settings /\ maxStreamID s' = 4.
Proof.
  assert (settings_ok ex_settings) as Hok. { split; [right; unfold varint_ok, varint_max; cbn; lia|]. apply map_Forall_singleton. unfold pair_ok, varint_ok, varint_max, known_setting, settingMaxFieldSectionSize, settingExtendedConnect, settingDatagram. cbn. lia. }
  destruct (h3_settings_exchanged (fun _ => false) true true ex_settings [(7, 99)] [8; 4] ex_two (ex_goaways [8; 4]) eq_refl Hok) as (s' & E & E1 & E2 & _).
  - vm_compute. reflexivity.
  - vm_compute. discriminate.
  - vm_compute. reflexivity.
  - reflexivity.
  - done.
  - intros E%(f_equal (fun x => bool_decide (x = ∅))). vm_compute in E. discriminate.
  - cbn. unfold varint_ok, varint_max, invalidStreamID. repeat split; try lia.
  - exists s'. split; [exact E|]. split; [exact E1|exact E2].
Defined.
(** A call waits for a datagram of stream 0, and one arrives. *)
Definition ex_waiting : list event := opening 0 ++ [EUni (ex_goaways []); EControl None].
Definition ex_arrival : list event := [ELook 0; EDatagram (sendDatagram 0 [104; 105]); EEnqueue].
Definition ex_before : conn := Eval vm_compute in match ex_run ex_waiting newConnection with Some s => s | None => newConnection end.
Definition ex_asked : conn := Eval vm_compute in match ex_run [EReceive 0 0] ex_before with Some s => s | None => newConnection end.
Definition ex_arrived : conn := Eval vm_compute in match ex_run ex_arrival ex_asked with Some s => s | None => newConnection end.
Lemma ex_arrived_ok : reach_if (fun _ => false) true true one_receiver ex_arrived.
Proof.
  apply (run_reach_if one_receiver ex_arrival ltac:(by repeat constructor) ex_asked); [|vm_compute; reflexivity].
  apply (IfStep _ _ _ _ ex_before (EReceive 0 0)); [|intros g x Hg; by vm_compute in Hg|vm_compute; reflexivity].
  apply (run_reach_if one_receiver ex_waiting ltac:(by repeat constructor) newConnection); [constructor|vm_compute; reflexivity].
Qed.
Lemma h3_datagram_wakeup_witness : reach_if (fun _ => false) true true one_receiver ex_arrived /\
  exists s', ex_run [EWake 0; ELook 0] ex_arrived = Some s' /\ receivers s' !! 0%nat = Some (RDone 0 (Ok [104; 105])).
Proof.
  split; [exact ex_arrived_ok|]. destruct (tr ex_arrived !! 0) as [t|] eqn:Et; [|by vm_compute in Et]. assert (tr_queue t = [[104; 105]]) as Hq by (vm_compute in Et; by injection Et as <-).
  destruct (h3_datagram_wakeup (fun _ => false) true true ex_arrived 0%nat 0 t ex_arrived_ok eq_refl Et) as (_ & Hw). destruct Hw as (s1 & s2 & r & E1 & E2 & E3 & Hr); [left; by rewrite Hq|]. rewrite Hq in Hr. subst r.
  exists s2. cbn [run]. rewrite E1. cbn [run]. rewrite E2. by split.
Defined.

(** What happens when several goroutines are at work. Two requests that are opened at the same
    time leave the last stream ID too small, and a third one gets a stream that the server
    has said it rejects. *)
Example stream_over_goaway : (fun s => (maxStreamID s, openers s !! 2%nat)) <$>
  ex_run ([EOpen 0; EOpen 1; EStream 0 None; EStream 1 None; EInsert 1; EInsert 0; EUni (ex_goaways [8]); EControl None; EControl None] ++ opening 2) newConnection
    = Some (8, Some (ODone (Ok 8))).
Proof. vm_compute. reflexivity. Qed.
(** A GOAWAY that comes while a request is being opened closes the connection under it. *)
Example closed_under_request : (fun s => (closed s, bool_decide (0 ∈ streams s))) <$>
  ex_run [EUni (ex_goaways [8]); EControl None; EOpen 0; EStream 0 None; EControl None; EControl None; EInsert 0] newConnection = Some (Some ErrCodeNoError, true).
Proof. vm_compute. reflexivity. Qed.
(** Two calls of [ReceiveDatagram] for one stream: two datagrams arrive before either waits on the
    channel; one call takes one, and the other waits although the second is queued. *)
Example datagram_forgotten : (fun s => (receivers s !! 1%nat, (fun t => (tr_queue t, hasData t)) <$> tr s !! 0)) <$>
  ex_run (ex_waiting ++ [EReceive 0 0; EReceive 1 0; ELook 0; ELook 1; EDatagram [0; 1]; EEnqueue; EDatagram [0; 2]; EEnqueue; EWake 0; ELook 0]) newConnection
    = Some (Some (RWait 0), Some ([[2]], false)).
Proof. vm_compute. reflexivity. Qed.
