(* ===== verification/H3Transport.v ===== *)
(** * The HTTP/3 transport ([src/internal/http3/transport.go], [client.go], [ip_addr.go])

    The cache of connections and the round trips over them, as a system of the goroutines
    that share it: requests, the goroutines that dial, and those that close idle
    connections. A step is what happens with the mutex held, or one call of a connection.
    What a connection answers, what dialing gives and when contexts end are events. *)

From S2P Require Import Prelude.
From S2P Require Import H2Errors.
From S2P Require Import NetText.
From S2P Require Import NetAddr.

(** ** Addresses *)
(** [authorityAddr], [idna.ToASCII] being a parameter. *)
Definition authorityAddr (idna_ToASCII : bytes -> option bytes) (authority : bytes) : bytes :=
  let '(host, port) := match SplitHostPort authority with Ok (host, port) => (host, port) | Err _ => (authority, bytes_of_string "443") end in
  let host := default host (idna_ToASCII host) in
  if bracketed host then host ++ 58 :: port else JoinHostPort host port.
(** It is the address under which the alternatives of an https authority are kept. *)
Lemma authorityAddr_https idna_ToASCII authority : authorityAddr idna_ToASCII authority = AuthorityAddr idna_ToASCII "https" authority.
Proof. unfold authorityAddr, AuthorityAddr, AuthorityHostPort. cbn [String.eqb Ascii.eqb]. by destruct (SplitHostPort authority) as [[host port]|e]. Qed.
(** [forResolve] for "udp"; [is4]: what [isIPv4] says of an address. *)
Definition first_addr {A} (strategy : A -> bool) (addrs : list A) : option A := match find strategy addrs with Some a => Some a | None => head addrs end.
Definition forResolve {A} (is4 : A -> bool) (addrs : list A) (addr : bytes) : option A :=
  if has_byte 91 addr then first_addr (fun a => negb (is4 a)) addrs else first_addr is4 addrs.

(** ** Errors of a round trip *)
(** [errConnUnusable]; an [Error] of HTTP/3 with its code; any other. *)
Inductive rt_error := connUnusable (e : error) | h3Error (remote : bool) (code : Z) (msg : string) | otherError (e : error).
Definition ErrCodeRequestRejected : Z := 267.
Definition ErrNoCachedConn : rt_error := otherError (errors_New "http3: no cached connection was available").
Definition ErrTransportClosed : rt_error := otherError (errors_New "http3: transport is closed").

(** *** One round trip of a connection
    What happens while [ClientConn.roundTrip] waits: whether the context ends before the
    handshake, what the server's settings are, whether a stream can be opened, and what
    [doRequest] returns; [env_ctx]: the error of the context at the end. *)
Record rt_env := mkEnv {
  env_handshake : option error; env_settings : result error bool; env_open : option error; env_do : result rt_error unit; env_ctx : option error }.
Definition MethodGet0RTT : string := "GET_0RTT".
Definition MethodHead0RTT : string := "HEAD_0RTT".
(** The method that is sent, and whether the handshake is waited for. *)
Definition method_sent (method : string) : string * bool :=
  if String.eqb method MethodGet0RTT then ("GET"%string, false) else if String.eqb method MethodHead0RTT then ("HEAD"%string, false) else (method, true).
Definition conn_roundTrip (isExtendedConnect : bool) (method : string) (env : rt_env) : result rt_error string :=
  let '(method, wait) := method_sent method in
  match (if wait then env_handshake env else None) with
  | Some e => Err (otherError e)
  | None =>
      match (if isExtendedConnect then match env_settings env with Err e => Some e | Ok true => None | Ok false => Some (errors_New "http3: server didn't enable Extended CONNECT") end else None) with
      | Some e => Err (otherError e)
      | None =>
          match env_open env with
          | Some e => Err (connUnusable e)
          | None => match env_do env with Err e => Err e | Ok _ => Ok method end
          end
      end
  end.
Definition conn_RoundTrip (isExtendedConnect : bool) (method : string) (env : rt_env) : result rt_error string :=
  match conn_roundTrip isExtendedConnect method env, env_ctx env with Err _, Some e => Err (otherError e) | r, _ => r end.

(** *** Trying again
    [rb_content] is [None] for a nil body or [http.NoBody]; [rb_GetBody]: what [GetBody] gives, if there is one;
    [rb_unread]: nothing was read from the body. *)
Record reqBody := mkBody { rb_content : option bytes; rb_GetBody : option (result error bytes); rb_unread : bool }.
Definition canRetryRequest (err : rt_error) (b : reqBody) : result rt_error reqBody :=
  match err with
  | connUnusable _ => Ok b
  | otherError _ => Err err
  | h3Error _ code _ =>
      if negb (code =? ErrCodeRequestRejected) then Err err else
      match rb_content b with
      | None => Ok b
      | Some _ =>
          match rb_GetBody b with
          | Some (Err e) => Err (otherError e)
          | Some (Ok content) => Ok (mkBody (Some content) (rb_GetBody b) true)
          | None => Err (otherError (fmt_Errorf "http3: Transport: cannot retry err [%w] after Request.Body was written; define Request.GetBody to avoid this error" []))
          end
      end
  end.
(** What a round trip that ends with [err] does to the body: none of it was read if no stream
    was opened. *)
Definition after_round_trip (err : rt_error) (b : reqBody) : reqBody :=
  match err, rb_content b with connUnusable _, _ => b | _, None => b | _, Some _ => mkBody (rb_content b) (rb_GetBody b) false end.

(** ** The system *)
(** A [roundTripperWithCount]; [cl_dial] is [None] while dialing, then the error. *)
Record client := mkClient { cl_host : bytes; cl_dial : option (option rt_error); cl_closed : bool; useCount : Z }.
(** Where a request is in [doRoundTripOpt]: waiting for the dial, in the round trip, past it with
    an error, about to start again; or a call of [AddConn] that has the connection. *)
Inductive phase := QWait (c : nat) | QUse (c : nat) | QRemove (c : nat) (e : rt_error) | QRetry | QAdded (c : nat) | QDone (o : option rt_error).
(** [q_held]: the connections whose count the deferred calls take down when the request
    returns. [q_lost]: those whose count was taken up for it and is not taken down. *)
Record request := mkReq { q_host : bytes; q_only : bool; q_body : reqBody; q_retried : bool; q_phase : phase; q_held : list nat; q_lost : list nat }.
(** [calls]: the round trips that were started: the request, the connection and the body. *)
Record system := mkSys { clients : gmap bytes nat; cells : gmap nat client; reqs : gmap nat request; calls : list (nat * nat * reqBody); t_closed : bool; fresh : nat }.
Definition sys_init : system := mkSys ∅ ∅ ∅ [] false 0.
Definition set_clients (x : gmap bytes nat) (s : system) : system := mkSys x (cells s) (reqs s) (calls s) (t_closed s) (fresh s).
Definition set_cell (c : nat) (x : client) (s : system) : system := mkSys (clients s) (<[c := x]> (cells s)) (reqs s) (calls s) (t_closed s) (fresh s).
Definition set_req (r : nat) (q : request) (s : system) : system := mkSys (clients s) (cells s) (<[r := q]> (reqs s)) (calls s) (t_closed s) (fresh s).
Definition log_call (x : nat * nat * reqBody) (s : system) : system := mkSys (clients s) (cells s) (reqs s) (calls s ++ [x]) (t_closed s) (fresh s).
Definition add_use (n : Z) (cl : client) : client := mkClient (cl_host cl) (cl_dial cl) (cl_closed cl) (useCount cl + n).
Definition use (n : Z) (c : nat) (s : system) : system := match cells s !! c with Some cl => set_cell c (add_use n cl) s | None => s end.
Definition at_phase (q : request) (p : phase) : request := mkReq (q_host q) (q_only q) (q_body q) (q_retried q) p (q_held q) (q_lost q).
Definition removeClient (hostname : bytes) (s : system) : system := set_clients (delete hostname (clients s)) s.

(** [getClient]; [quick]: what dialing has given by the time a new connection is looked at. *)
Definition new_client (hostname : bytes) (quick : option (option rt_error)) (s : system) : system :=
  mkSys (<[hostname := fresh s]> (clients s)) (<[fresh s := mkClient hostname quick false 0]> (cells s)) (reqs s) (calls s) (t_closed s) (S (fresh s)).
Definition take_client (hostname : bytes) (c : nat) (s : system) : result rt_error nat * system :=
  match cl_dial <$> cells s !! c with
  | Some (Some (Some e)) => (Err e, removeClient hostname s)
  | _ => (Ok c, use 1 c s)
  end.
Definition getClient (hostname : bytes) (onlyCached : bool) (quick : option (option rt_error)) (s : system) : result rt_error nat * system :=
  if t_closed s then (Err ErrTransportClosed, s) else
  match clients s !! hostname with
  | Some c => take_client hostname c s
  | None => if onlyCached then (Err ErrNoCachedConn, s) else take_client hostname (fresh s) (new_client hostname quick s)
  end.

(** The request returns: the deferred calls take down the counts. *)
Definition release (l : list nat) (s : system) : system := foldr (use (-1)) s l.
Definition finish (r : nat) (q : request) (lost : list nat) (o : option rt_error) (s : system) : system :=
  set_req r (mkReq (q_host q) (q_only q) (q_body q) (q_retried q) (QDone o) [] (lost ++ q_lost q)) (release (q_held q) s).
(** [doRoundTripOpt] up to the wait for the dial. *)
Definition begin (r : nat) (q : request) (quick : option (option rt_error)) (s : system) : system :=
  match getClient (q_host q) (q_only q) quick s with
  | (Err e, s) => finish r q [] (Some e) s
  | (Ok c, s) => set_req r (at_phase q (QWait c)) s
  end.
(** [roundTripperWithCount.Close], which waits for the dial: [late] is what it gives. *)
Definition close_client (late : option rt_error) (cl : client) : client :=
  let d := match cl_dial cl with Some d => d | None => late end in
  mkClient (cl_host cl) (Some d) (match d with None => true | Some _ => cl_closed cl end) (useCount cl).

(** [TCloseIdle]: one turn of the loop of [CloseIdleConnections]. *)
Inductive event :=
| TStart (r : nat) (host : bytes) (onlyCached : bool) (content : option bytes) (getBody : option (result error bytes)) (quick : option (option rt_error))
| TDial (c : nat) (e : option rt_error) | TDialed (r : nat) | TCancel (r : nat) (e : rt_error)
| TReply (r : nat) (res : option rt_error) (ctxDone : bool) | TRemove (r : nat) | TAgain (r : nat) (quick : option (option rt_error))
| TAdd (r : nat) (host : bytes) (quick : option (option rt_error)) | TAdded (r : nat)
| TCloseIdle (hostname : bytes) (late : option rt_error) | TClose (late : nat -> option rt_error).
(** The waits of [doRoundTripOpt]: the dial has ended; the context has. *)
Definition dialed (r : nat) (q : request) (s : system) : option system :=
  match q_phase q with
  | QWait c =>
      match cl_dial <$> cells s !! c with
      | Some (Some (Some e)) => Some (finish r q [c] (Some e) (removeClient (q_host q) s))
      | Some (Some None) => Some (set_req r (mkReq (q_host q) (q_only q) (q_body q) (q_retried q) (QUse c) (c :: q_held q) (q_lost q)) (log_call (r, c, q_body q) s))
      | _ => None
      end
  | _ => None
  end.
Definition cancelled (r : nat) (q : request) (e : rt_error) (s : system) : option system :=
  match q_phase q with QWait c => Some (finish r q [c] (Some e) s) | _ => None end.
(** The round trip returns; [ctxDone]: the context of the request has ended. *)
Definition replied (r : nat) (q : request) (res : option rt_error) (ctxDone : bool) (s : system) : option system :=
  match q_phase q, res with
  | QUse c, None => Some (finish r q [] None s)
  | QUse c, Some e =>
      let q := mkReq (q_host q) (q_only q) (after_round_trip e (q_body q)) (q_retried q) (q_phase q) (q_held q) (q_lost q) in
      if ctxDone || q_retried q then Some (finish r q [] (Some e) s) else Some (set_req r (at_phase q (QRemove c e)) s)
  | _, _ => None
  end.
Definition after_failure (r : nat) (q : request) (s : system) : option system :=
  match q_phase q with
  | QRemove c e =>
      let s := removeClient (q_host q) s in
      match canRetryRequest e (q_body q) with
      | Err e => Some (finish r q [] (Some e) s)
      | Ok b => Some (set_req r (mkReq (q_host q) (q_only q) b true QRetry (q_held q) (q_lost q)) s)
      end
  | _ => None
  end.
(** [AddConn], in two steps. *)
Definition AddConn (r : nat) (host : bytes) (quick : option (option rt_error)) (s : system) : system :=
  let q := mkReq host false (mkBody None None true) false QRetry [] [] in
  match getClient host false quick s with
  | (Err e, s) => finish r q [] (Some e) s
  | (Ok c, s) => set_req r (at_phase q (QAdded c)) s
  end.
Definition added (r : nat) (q : request) (s : system) : option system :=
  match q_phase q with QAdded c => Some (set_req r (at_phase q (QDone None)) (use (-1) c s)) | _ => None end.
(** One turn of the loop of [CloseIdleConnections] that closes a connection; [Close], where
    closing QUIC connections and sockets does not fail. *)
Definition close_idle (hostname : bytes) (late : option rt_error) (s : system) : option system :=
  match clients s !! hostname with
  | Some c =>
      match cells s !! c with
      | Some cl => if useCount cl =? 0 then Some (removeClient hostname (set_cell c (close_client late cl) s)) else None
      | None => None
      end
  | None => None
  end.
Definition Close (late : nat -> option rt_error) (s : system) : system :=
  mkSys ∅ (map_imap (fun c cl => Some (if bool_decide (map_Exists (fun _ c' => c' = c) (clients s)) then close_client (late c) cl else cl)) (cells s)) (reqs s) (calls s) true (fresh s).
Definition exec (e : event) (s : system) : option system :=
  match e with
  | TStart r host onlyCached content getBody quick =>
      match reqs s !! r with
      | Some _ => None
      | None => Some (begin r (mkReq host onlyCached (mkBody content getBody true) false QRetry [] []) quick s)
      end
  | TDial c e => match cells s !! c with Some cl => match cl_dial cl with None => Some (set_cell c (mkClient (cl_host cl) (Some e) (cl_closed cl) (useCount cl)) s) | Some _ => None end | None => None end
  | TDialed r => match reqs s !! r with Some q => dialed r q s | None => None end
  | TCancel r e => match reqs s !! r with Some q => cancelled r q e s | None => None end
  | TReply r res ctxDone => match reqs s !! r with Some q => replied r q res ctxDone s | None => None end
  | TRemove r => match reqs s !! r with Some q => after_failure r q s | None => None end
  | TAgain r quick => match reqs s !! r with Some q => match q_phase q with QRetry => Some (begin r q quick s) | _ => None end | None => None end
  | TAdd r host quick => match reqs s !! r with Some _ => None | None => Some (AddConn r host quick s) end
  | TAdded r => match reqs s !! r with Some q => added r q s | None => None end
  | TCloseIdle hostname late => close_idle hostname late s
  | TClose late => Some (Close late s)
  end.
Tactic Notation "step" := cbn [exec]; unfold dialed, cancelled, replied, after_failure, AddConn, added, close_idle, Close.
Tactic Notation "step" "in" hyp(H) := cbn [exec] in H; unfold dialed, cancelled, replied, after_failure, AddConn, added, close_idle, Close in H.
Inductive reachable : system -> Prop :=
| ReachInit : reachable sys_init
| ReachStep s e s' : reachable s -> exec e s = Some s' -> reachable s'.
Fixpoint run (es : list event) (s : system) : option system :=
  match es with [] => Some s | e :: es => match exec e s with Some s => run es s | None => None end end.

(** ** The counts *)
Definition count (c : nat) (l : list nat) : Z := len (filter (fun x => x = c) l).
Arguments count : simpl never.
(** What a request has taken up of the count of a connection and not taken down. *)
Definition in_hand (p : phase) : list nat := match p with QWait c | QAdded c => [c] | _ => [] end.
Definition takes (c : nat) (q : request) : Z := count c (in_hand (q_phase q) ++ q_held q ++ q_lost q).
Definition total (c : nat) (m : gmap nat request) : Z := map_fold (fun _ q n => takes c q + n) 0 m.
Lemma count_app c l k : count c (l ++ k) = count c l + count c k. Proof. unfold count. by rewrite filter_app, len_app. Qed.
Lemma count_cons c x l : count c (x :: l) = (if decide (x = c) then 1 else 0) + count c l.
Proof. unfold count. rewrite filter_cons. destruct (decide (x = c)); unfold len; cbn [length]; lia. Qed.
#[local] Instance count_perm c : Proper (Permutation ==> eq) (count c).
Proof. intros l1 l2 Hl. unfold count, len. by rewrite Hl. Qed.
Lemma h3t_count_nonneg c l : 0 <= count c l. Proof. apply len_nonneg. Qed.
Lemma takes_nonneg c q : 0 <= takes c q. Proof. apply h3t_count_nonneg. Qed.
Lemma total_new c r q m : m !! r = None -> total c (<[r := q]> m) = takes c q + total c m.
Proof. intros Hr. unfold total. rewrite map_fold_insert_L; [done|intros; lia|done]. Qed.
Lemma total_change c r q q' m : m !! r = Some q -> total c (<[r := q']> m) = total c m - takes c q + takes c q'.
Proof.
  intros Hr. rewrite <- (insert_delete_id m r q Hr) at 2. rewrite <- (insert_delete_eq m r q'). rewrite !total_new by apply lookup_delete_eq. lia.
Qed.
Lemma total_nonneg c m : 0 <= total c m.
Proof. induction m as [|r q m Hr IH] using map_ind; [done|]. rewrite total_new by done. pose proof (takes_nonneg c q). lia. Qed.
Lemma total_at_least c r q m : m !! r = Some q -> takes c q <= total c m.
Proof. intros Hr. pose proof (total_change c r q (mkReq (q_host q) (q_only q) (q_body q) (q_retried q) (QDone None) [] []) m Hr) as E. change (takes c (mkReq _ _ _ _ (QDone None) [] [])) with 0 in E. pose proof (total_nonneg c (<[r := mkReq (q_host q) (q_only q) (q_body q) (q_retried q) (QDone None) [] []]> m)). lia. Qed.

Record sys_ok (s : system) : Prop := {
  so_clients : forall h c, clients s !! h = Some c -> is_Some (cells s !! c);
  so_fresh : forall c, (fresh s <= c)%nat -> cells s !! c = None;
  so_known : forall r q c, reqs s !! r = Some q -> 0 < takes c q -> is_Some (cells s !! c);
  so_count : forall c cl, cells s !! c = Some cl -> useCount cl = total c (reqs s) }.
Lemma h3t_sys_init_ok : sys_ok sys_init. Proof. by constructor. Qed.
(** The counts are right but for a request that is being changed: it takes up [d] instead. *)
Record but_for (r : nat) (d : list nat) (s : system) : Prop := {
  bf_clients : forall h c, clients s !! h = Some c -> is_Some (cells s !! c);
  bf_fresh : forall c, (fresh s <= c)%nat -> cells s !! c = None;
  bf_known : forall r' q c, reqs s !! r' = Some q -> r' <> r -> 0 < takes c q -> is_Some (cells s !! c);
  bf_mine : forall c, c ∈ d -> is_Some (cells s !! c);
  bf_count : forall c cl, cells s !! c = Some cl -> useCount cl = total c (delete r (reqs s)) + count c d }.
Lemma total_delete c r q m : m !! r = Some q -> total c m = takes c q + total c (delete r m).
Proof. intros Hr. rewrite <- (insert_delete_id m r q Hr) at 1. by rewrite total_new by apply lookup_delete_eq. Qed.
Definition hand (q : request) : list nat := in_hand (q_phase q) ++ q_held q ++ q_lost q.
Lemma count_elem c l : 0 < count c l <-> c ∈ l.
Proof.
  unfold count. induction l as [|x l IH]; [split; [done|by intros ?%not_elem_of_nil]|]. rewrite filter_cons, elem_of_cons. destruct (decide (x = c)) as [->|Hne]; [split; [by left|intros _; unfold len; cbn; lia]|]. rewrite IH. split; [by right|]. by intros [->|?].
Qed.
Lemma open_up r q s : sys_ok s -> reqs s !! r = Some q -> but_for r (hand q) s.
Proof.
  intros [S1 S2 S3 S4] Hr. constructor; [done|done|intros r' q' c Hq _; by apply (S3 r' q')|intros c Hc; apply (S3 r q); [done|by apply count_elem]|]. intros c cl Hc. rewrite (S4 c cl Hc), (total_delete c r q) by done. unfold takes, hand. lia.
Qed.
Lemma open_new r s : sys_ok s -> reqs s !! r = None -> but_for r [] s.
Proof. intros [S1 S2 S3 S4] Hr. constructor; [done|done|intros r' q' c Hq _; by apply (S3 r' q')|by intros c ?%not_elem_of_nil|]. intros c cl Hc. rewrite (S4 c cl Hc), delete_id by done. change (count c []) with 0. lia. Qed.
Lemma close_up r q d s : but_for r d s -> hand q ≡ₚ d -> sys_ok (set_req r q s).
Proof.
  intros [B1 B2 B3 B4 B5] Hd. assert (forall c, takes c q = count c d) as Ht by (intros c; unfold takes; fold (hand q); by rewrite Hd). constructor; cbn; [done|done| |].
  - intros r' q' c [[<- <-]|[Hne Hq]]%lookup_insert_Some Hc; [apply B4, count_elem; by rewrite <- Ht|by apply (B3 r' q')].
  - intros c cl Hc. rewrite (B5 c cl Hc), <- insert_delete_eq, total_new by apply lookup_delete_eq. rewrite Ht. lia.
Qed.
Lemma but_for_remove r d h s : but_for r d s -> but_for r d (removeClient h s).
Proof. intros [B1 B2 B3 B4 B5]. constructor; try done. cbn. intros h' c [_ Hc]%lookup_delete_Some. by apply (B1 h'). Qed.
Lemma but_for_log r d x s : but_for r d s -> but_for r d (log_call x s). Proof. by intros [B1 B2 B3 B4 B5]. Qed.
Lemma but_for_perm r d d' s : but_for r d s -> d ≡ₚ d' -> but_for r d' s.
Proof. intros [B1 B2 B3 B4 B5] Hd. constructor; try done; [intros c Hc; apply B4; by rewrite Hd|]. intros c cl Hc. rewrite (B5 c cl Hc). by rewrite Hd. Qed.
Lemma use_up r d c s : but_for r d s -> is_Some (cells s !! c) -> but_for r (c :: d) (use 1 c s).
Proof.
  intros [B1 B2 B3 B4 B5] [cl Hc]. unfold use. rewrite Hc. constructor; cbn.
  - intros h c' Hh. apply lookup_insert_is_Some'. right. by apply (B1 h).
  - intros c' Hf. rewrite lookup_insert_ne; [by apply B2|]. intros <-. rewrite B2 in Hc; done.
  - intros r' q c' Hq Hne Ht. apply lookup_insert_is_Some'. right. by apply (B3 r' q).
  - intros c' [->|Hin]%elem_of_cons; apply lookup_insert_is_Some'; [by left|right; by apply B4].
  - intros c' cl' [[<- <-]|[Hne Hc']]%lookup_insert_Some; rewrite count_cons; [rewrite decide_True by done; cbn; rewrite (B5 c cl Hc); lia|rewrite decide_False by done; rewrite (B5 c' cl' Hc'); lia].
Qed.
Lemma use_down r d c s : but_for r (c :: d) s -> but_for r d (use (-1) c s).
Proof.
  intros [B1 B2 B3 B4 B5]. destruct (B4 c ltac:(by left)) as [cl Hc]. unfold use. rewrite Hc. constructor; cbn.
  - intros h c' Hh. apply lookup_insert_is_Some'. right. by apply (B1 h).
  - intros c' Hf. rewrite lookup_insert_ne; [by apply B2|]. intros <-. rewrite B2 in Hc; done.
  - intros r' q c' Hq Hne Ht. apply lookup_insert_is_Some'. right. by apply (B3 r' q).
  - intros c' Hin. apply lookup_insert_is_Some'. right. apply B4. by right.
  - intros c' cl' [[<- <-]|[Hne Hc']]%lookup_insert_Some; [pose proof (B5 c cl Hc) as E|pose proof (B5 c' cl' Hc') as E]; rewrite count_cons in E; [rewrite decide_True in E by done; cbn; lia|rewrite decide_False in E by done; lia].
Qed.
Lemma release_ok r l : forall d s, but_for r (l ++ d) s -> but_for r d (release l s).
Proof.
  induction l as [|c l IH]; intros d s Hb; [done|]. cbn [release foldr]. fold (release l s). apply use_down. apply IH. eapply but_for_perm; [exact Hb|]. cbn. apply Permutation_middle.
Qed.
Lemma total_zero c m : (forall r q, m !! r = Some q -> takes c q = 0) -> total c m = 0.
Proof.
  induction m as [|r q m Hr IH] using map_ind; [done|]. intros Hz. rewrite total_new, (Hz r q) by (done || apply lookup_insert_eq). rewrite IH; [done|]. intros r' q' Hq. apply (Hz r'). rewrite lookup_insert_ne; [done|]. intros <-. congruence.
Qed.
Lemma new_client_ok r d h quick s : but_for r d s -> but_for r d (new_client h quick s).
Proof.
  intros [B1 B2 B3 B4 B5]. assert (cells s !! fresh s = None) as Hf by by apply B2. constructor; cbn.
  - intros h' c [[<- <-]|[_ Hh]]%lookup_insert_Some; apply lookup_insert_is_Some'; [by left|right; by apply (B1 h')].
  - intros c Hc. rewrite lookup_insert_ne by lia. apply B2. lia.
  - intros r' q c Hq Hne Ht. apply lookup_insert_is_Some'. right. by apply (B3 r' q).
  - intros c Hc. apply lookup_insert_is_Some'. right. by apply B4.
  - intros c cl [[<- <-]|[_ Hc]]%lookup_insert_Some; [|by apply B5]. cbn. rewrite total_zero.
    + destruct (decide (fresh s ∈ d)) as [Hin|Hin]; [destruct (B4 _ Hin); congruence|]. rewrite <- count_elem in Hin. pose proof (h3t_count_nonneg (fresh s) d). lia.
    + intros r' q [Hne Hq]%lookup_delete_Some. pose proof (takes_nonneg (fresh s) q). destruct (decide (0 < takes (fresh s) q)) as [Ht|]; [|lia]. destruct (B3 r' q (fresh s) Hq ltac:(done) Ht). congruence.
Qed.
Lemma use_reqs n c s : reqs (use n c s) = reqs s /\ calls (use n c s) = calls s /\ clients (use n c s) = clients s. Proof. unfold use. by destruct (cells s !! c). Qed.
Lemma release_reqs l s : reqs (release l s) = reqs s /\ calls (release l s) = calls s.
Proof. induction l as [|c l [IH1 IH2]]; [done|]. cbn [release foldr]. fold (release l s). destruct (use_reqs (-1) c (release l s)) as (-> & -> & _). done. Qed.
Lemma take_client_ok r d h c s : but_for r d s -> is_Some (cells s !! c) ->
  match take_client h c s with (Err _, s') => but_for r d s' | (Ok c', s') => but_for r (c' :: d) s' end /\ reqs (take_client h c s).2 = reqs s /\ calls (take_client h c s).2 = calls s.
Proof.
  intros Hb Hc. unfold take_client. assert (but_for r (c :: d) (use 1 c s) /\ reqs (use 1 c s) = reqs s /\ calls (use 1 c s) = calls s) as Hup by (split; [by apply use_up|]; destruct (use_reqs 1 c s) as (? & ? & _); done).
  destruct (cl_dial <$> cells s !! c) as [[[e|]|]|]; cbn [fst snd]; [|exact Hup..]. split; [by apply but_for_remove|done].
Qed.
Lemma getClient_ok r d h only quick s : but_for r d s ->
  match getClient h only quick s with (Err _, s') => but_for r d s' | (Ok c, s') => but_for r (c :: d) s' end /\ reqs (getClient h only quick s).2 = reqs s /\ calls (getClient h only quick s).2 = calls s.
Proof.
  intros Hb. unfold getClient. destruct (t_closed s); [done|]. destruct (clients s !! h) as [c|] eqn:Eh; [apply take_client_ok; [done|by eapply bf_clients]|]. destruct only; [done|].
  apply (take_client_ok r d h (fresh s) (new_client h quick s)); [by apply new_client_ok|]. cbn. rewrite lookup_insert_eq. by eexists.
Qed.
Lemma h3t_finish_ok r q lost o s : but_for r (q_held q ++ lost ++ q_lost q) s -> sys_ok (finish r q lost o s).
Proof. intros Hb. unfold finish. apply (close_up _ _ (lost ++ q_lost q)); [by apply release_ok|done]. Qed.
Lemma begin_ok r q quick s : but_for r (q_held q ++ q_lost q) s -> sys_ok (begin r q quick s).
Proof.
  intros Hb. unfold begin. destruct (getClient_ok r _ (q_host q) (q_only q) quick s Hb) as [Hg _]. destruct (getClient _ _ _ s) as [[c|e] s']; [|by apply h3t_finish_ok]. by apply (close_up _ _ (c :: q_held q ++ q_lost q)).
Qed.
Lemma set_cell_ok c cl cl' s : sys_ok s -> cells s !! c = Some cl -> useCount cl' = useCount cl -> sys_ok (set_cell c cl' s).
Proof.
  intros [S1 S2 S3 S4] Hc Hu. constructor; cbn.
  - intros h c' Hh. apply lookup_insert_is_Some'. right. by apply (S1 h).
  - intros c' Hf. rewrite lookup_insert_ne; [by apply S2|]. intros <-. rewrite S2 in Hc; done.
  - intros r q c' Hq Ht. apply lookup_insert_is_Some'. right. by apply (S3 r q).
  - intros c' cl0 [[<- <-]|[_ Hc']]%lookup_insert_Some; [rewrite Hu|]; by apply S4.
Qed.
Lemma remove_ok h s : sys_ok s -> sys_ok (removeClient h s).
Proof. intros [S1 S2 S3 S4]. constructor; try done. cbn. intros h' c [_ Hc]%lookup_delete_Some. by apply (S1 h'). Qed.
Lemma h3t_exec_ok e s s' : sys_ok s -> exec e s = Some s' -> sys_ok s'.
Proof.
  intros Hs. destruct e as [r host only content getBody quick|c e|r|r e|r res cd|r|r quick|r host quick|r|host late|late]; step.
  - destruct (reqs s !! r) eqn:Er; [done|]. intros [= <-]. apply begin_ok. by apply open_new.
  - destruct (cells s !! c) as [cl|] eqn:Ec; [|done]. destruct (cl_dial cl); [done|]. intros [= <-]. by apply (set_cell_ok c cl).
  - destruct (reqs s !! r) as [q|] eqn:Er; [|done]. pose proof (open_up r q s Hs Er) as Hb. unfold hand in Hb. destruct (q_phase q) as [c| | | | |]; try done. cbn [in_hand app] in Hb. destruct (cl_dial <$> cells s !! c) as [[[e|]|]|]; try done; intros [= <-].
    + apply h3t_finish_ok, but_for_remove. eapply but_for_perm; [exact Hb|]. cbn. apply Permutation_middle.
    + apply (close_up _ _ (c :: q_held q ++ q_lost q)); [by apply but_for_log|done].
  - destruct (reqs s !! r) as [q|] eqn:Er; [|done]. pose proof (open_up r q s Hs Er) as Hb. unfold hand in Hb. destruct (q_phase q) as [c| | | | |]; try done. intros [= <-]. apply h3t_finish_ok. eapply but_for_perm; [exact Hb|]. cbn. apply Permutation_middle.
  - destruct (reqs s !! r) as [q|] eqn:Er; [|done]. pose proof (open_up r q s Hs Er) as Hb. unfold hand in Hb. destruct (q_phase q) as [|c| | | |]; try done. destruct res as [e|]; [destruct (cd || _)|]; intros [= <-]; [by apply h3t_finish_ok| |by apply h3t_finish_ok].
    by apply (close_up _ _ (q_held q ++ q_lost q)).
  - destruct (reqs s !! r) as [q|] eqn:Er; [|done]. pose proof (open_up r q s Hs Er) as Hb. unfold hand in Hb. destruct (q_phase q) as [| |c e| | |]; try done. destruct (canRetryRequest e (q_body q)); intros [= <-]; [|by apply h3t_finish_ok, but_for_remove].
    apply (close_up _ _ (q_held q ++ q_lost q)); [by apply but_for_remove|done].
  - destruct (reqs s !! r) as [q|] eqn:Er; [|done]. pose proof (open_up r q s Hs Er) as Hb. unfold hand in Hb. destruct (q_phase q); try done. intros [= <-]. by apply begin_ok.
  - destruct (reqs s !! r) eqn:Er; [done|]. destruct (getClient_ok r [] host false quick s ltac:(by apply open_new)) as [Hg _]. destruct (getClient _ _ _ s) as [[c|e] s1]; intros [= <-]; [by apply (close_up _ _ [c])|by apply h3t_finish_ok].
  - destruct (reqs s !! r) as [q|] eqn:Er; [|done]. pose proof (open_up r q s Hs Er) as Hb. unfold hand in Hb. destruct (q_phase q) as [| | | |c|]; try done. intros [= <-]. apply (close_up _ _ (q_held q ++ q_lost q)); [by apply use_down|done].
  - destruct (clients s !! host) as [c|]; [|done]. destruct (cells s !! c) as [cl|] eqn:Ec; [|done]. destruct (useCount cl =? 0); [|done]. intros [= <-]. apply remove_ok. by apply (set_cell_ok c cl).
  - intros [= <-]. destruct Hs as [S1 S2 S3 S4]. constructor; cbn; [by intros h c ?%lookup_empty_Some| | |].
    + intros c Hc. by rewrite map_lookup_imap, S2.
    + intros r q c Hq Ht. rewrite map_lookup_imap. destruct (S3 r q c Hq Ht) as [cl ->]. by eexists.
    + intros c cl. rewrite map_lookup_imap. destruct (cells s !! c) as [cl0|] eqn:Ec; [|done]. cbn. intros [= <-]. case_bool_decide; exact (S4 c cl0 Ec).
Qed.
Lemma h3t_reachable_ok s : reachable s -> sys_ok s.
Proof. induction 1 as [|s e s' _ IH Hx]; [apply h3t_sys_init_ok|by eapply h3t_exec_ok]. Qed.

(** ** What the cache guarantees *)
Definition same_closed (s s' : system) : Prop := forall c cl, cells s' !! c = Some cl -> cl_closed cl = true -> exists cl0, cells s !! c = Some cl0 /\ cl_closed cl0 = true.
Lemma same_closed_refl s s' : cells s' = cells s -> same_closed s s'. Proof. intros E c cl Hc Hx. rewrite E in Hc. by exists cl. Qed.
Lemma same_closed_trans s1 s2 s3 : same_closed s1 s2 -> same_closed s2 s3 -> same_closed s1 s3.
Proof. intros H1 H2 c cl Hc Hx. destruct (H2 c cl Hc Hx) as (cl1 & Hc1 & Hx1). by apply (H1 c cl1). Qed.
Lemma use_closed n c s : same_closed s (use n c s).
Proof. unfold use. destruct (cells s !! c) as [cl0|] eqn:E; [|by apply same_closed_refl]. intros c' cl. cbn. intros [[<- <-]|[_ Hc]]%lookup_insert_Some Hx; [by exists cl0|by exists cl]. Qed.
Lemma release_closed l s : same_closed s (release l s).
Proof. induction l as [|c l IH]; [by apply same_closed_refl|]. cbn. eapply same_closed_trans; [exact IH|apply use_closed]. Qed.
Lemma finish_closed r q lost o s : same_closed s (finish r q lost o s).
Proof. unfold finish. eapply same_closed_trans; [apply (release_closed (q_held q))|by apply same_closed_refl]. Qed.
Lemma take_client_closed h c s : same_closed s (take_client h c s).2.
Proof. unfold take_client. destruct (cl_dial <$> cells s !! c) as [[[e|]|]|]; cbn [snd]; [by apply same_closed_refl|apply use_closed..]. Qed.
Lemma getClient_closed h only quick s : same_closed s (getClient h only quick s).2.
Proof.
  unfold getClient. destruct (t_closed s); [by apply same_closed_refl|]. destruct (clients s !! h); [apply take_client_closed|]. destruct only; [by apply same_closed_refl|].
  eapply same_closed_trans; [|apply take_client_closed]. intros c cl. cbn. intros [[<- <-]|[_ Hc]]%lookup_insert_Some Hx; [done|by exists cl].
Qed.
Lemma begin_closed r q quick s : same_closed s (begin r q quick s).
Proof.
  unfold begin. pose proof (getClient_closed (q_host q) (q_only q) quick s) as Hg. destruct (getClient _ _ _ s) as [[c|e] s1]; cbn [snd] in Hg; (eapply same_closed_trans; [exact Hg|]); [by apply same_closed_refl|apply finish_closed].
Qed.

(** C27: connections in use are not closed as idle. Whatever requests, dials and closings are at work, a
    connection is closed only when the transport is, or when no request waits for it or
    is in a round trip over it; the count of a connection is always the number of requests
    that took it up and did not take it down. *)
Theorem h3_idle_close_safe s : reachable s ->
  (forall c cl, cells s !! c = Some cl -> useCount cl = total c (reqs s)) /\
  (forall e s' c cl, exec e s = Some s' -> cells s' !! c = Some cl -> cl_closed cl = true ->
    (exists cl0, cells s !! c = Some cl0 /\ cl_closed cl0 = true) \/ (exists late, e = TClose late) \/
    (forall r q, reqs s !! r = Some q -> c ∉ in_hand (q_phase q) ++ q_held q)).
Proof.
  intros Hs%h3t_reachable_ok. split; [apply (so_count s Hs)|]. assert (forall s' c cl, same_closed s s' -> cells s' !! c = Some cl -> cl_closed cl = true -> exists cl0, cells s !! c = Some cl0 /\ cl_closed cl0 = true) as Hsame by (intros s' c cl Hsc; apply Hsc).
  intros e s' c cl He Hc Hx. destruct e as [r host only content getBody quick|c' e|r|r e|r res cd|r|r quick|r host quick|r|host late|late]; step in He; [..|right; left; by exists late].
  - destruct (reqs s !! r); [done|]. injection He as <-. left. eapply Hsame; [apply begin_closed|done|done].
  - destruct (cells s !! c') as [cl0|] eqn:Ec; [|done]. destruct (cl_dial cl0); [done|]. injection He as <-. left. cbn in Hc. apply lookup_insert_Some in Hc as [[<- <-]|[_ Hc]]; [by exists cl0|by exists cl].
  - destruct (reqs s !! r) as [q|]; [|done]. destruct (q_phase q) as [c'| | | | |]; try done. destruct (cl_dial <$> cells s !! c') as [[[e|]|]|]; try done; injection He as <-; left; (eapply Hsame; [|done|done]); [|by apply same_closed_refl].
    eapply same_closed_trans; [by apply (same_closed_refl s (removeClient (q_host q) s))|apply finish_closed].
  - destruct (reqs s !! r) as [q|]; [|done]. destruct (q_phase q) as [c'| | | | |]; try done. injection He as <-. left. eapply Hsame; [apply finish_closed|done|done].
  - destruct (reqs s !! r) as [q|]; [|done]. destruct (q_phase q) as [|c'| | | |]; try done. destruct res as [e|]; [destruct (cd || _)|]; injection He as <-; left; (eapply Hsame; [|done|done]); [apply finish_closed|by apply same_closed_refl|apply finish_closed].
  - destruct (reqs s !! r) as [q|]; [|done]. destruct (q_phase q) as [| |c' e| | |]; try done. destruct (canRetryRequest e (q_body q)); injection He as <-; left; (eapply Hsame; [|done|done]); [by apply same_closed_refl|].
    eapply same_closed_trans; [by apply (same_closed_refl s (removeClient (q_host q) s))|apply finish_closed].
  - destruct (reqs s !! r) as [q|]; [|done]. destruct (q_phase q); try done. injection He as <-. left. eapply Hsame; [apply begin_closed|done|done].
  - destruct (reqs s !! r); [done|]. pose proof (getClient_closed host false quick s) as Hg. destruct (getClient _ _ _ s) as [[c'|e] s1]; cbn [snd] in Hg; injection He as <-; left; (eapply Hsame; [eapply same_closed_trans; [exact Hg|]|done|done]); [by apply same_closed_refl|apply finish_closed].
  - destruct (reqs s !! r) as [q|]; [|done]. destruct (q_phase q) as [| | | |c'|]; try done. injection He as <-. left. eapply Hsame; [|done|done]. eapply same_closed_trans; [apply use_closed|by apply same_closed_refl].
  - destruct (clients s !! host) as [c'|]; [|done]. destruct (cells s !! c') as [cl0|] eqn:Ec; [|done]. destruct (Z.eqb_spec (useCount cl0) 0) as [E0|]; [|done]. injection He as <-. cbn in Hc. apply lookup_insert_Some in Hc as [[<- <-]|[_ Hc]]; [|left; by exists cl]. right. right.
    intros r q Hr Hin. rewrite (so_count s Hs c' cl0 Ec) in E0. pose proof (total_at_least c' r q _ Hr) as Hle. assert (0 < takes c' q); [|lia]. apply count_elem. rewrite app_assoc. apply elem_of_app. by left.
Qed.

(** *** Counts that are lost *)
Definition keeps (s s' : system) : Prop := forall r q, reqs s !! r = Some q -> exists q', reqs s' !! r = Some q' /\ q_lost q ⊆ q_lost q'.
Lemma keeps_same s s' : reqs s' = reqs s -> keeps s s'. Proof. intros E r q Hr. exists q. by rewrite E. Qed.
Lemma keeps_set r q' s s1 : reqs s1 = reqs s -> (forall q, reqs s !! r = Some q -> q_lost q ⊆ q_lost q') -> keeps s (set_req r q' s1).
Proof. intros E Hq r' q Hr. cbn. rewrite E. destruct (decide (r' = r)) as [->|Hne]; [exists q'; rewrite lookup_insert_eq; by auto|exists q; by rewrite lookup_insert_ne]. Qed.
Lemma keeps_finish r q lost o s s1 : reqs s1 = reqs s -> (forall q0, reqs s !! r = Some q0 -> q_lost q0 ⊆ q_lost q) -> keeps s (finish r q lost o s1).
Proof. intros E Hq. unfold finish. apply keeps_set; [by destruct (release_reqs (q_held q) s1) as [-> _]|]. intros q0 Hr. cbn. etransitivity; [by apply Hq|]. set_solver. Qed.
Lemma getClient_reqs h only quick s : reqs (getClient h only quick s).2 = reqs s /\ calls (getClient h only quick s).2 = calls s.
Proof.
  assert (forall c s, reqs (take_client h c s).2 = reqs s /\ calls (take_client h c s).2 = calls s) as Ht. { intros c s0. unfold take_client. destruct (use_reqs 1 c s0) as (? & ? & _). by destruct (cl_dial <$> cells s0 !! c) as [[[e|]|]|]. }
  unfold getClient. destruct (t_closed s); [done|]. destruct (clients s !! h); [apply Ht|]. destruct only; [done|]. by destruct (Ht (fresh s) (new_client h quick s)) as [-> ->].
Qed.
Lemma keeps_begin r q quick s : (forall q0, reqs s !! r = Some q0 -> q_lost q0 ⊆ q_lost q) -> keeps s (begin r q quick s).
Proof. intros Hq. unfold begin. destruct (getClient_reqs (q_host q) (q_only q) quick s) as [Hg _]. destruct (getClient _ _ _ s) as [[c|e] s1]; cbn [snd] in Hg; [by apply keeps_set|by apply keeps_finish]. Qed.
Lemma h3t_exec_keeps e s s' : exec e s = Some s' -> keeps s s'.
Proof.
  destruct e as [r host only content getBody quick|c' e|r|r e|r res cd|r|r quick|r host quick|r|host late|late]; step.
  - destruct (reqs s !! r) eqn:Er; [done|]. intros [= <-]. apply keeps_begin. intros q0 E. congruence.
  - destruct (cells s !! c') as [cl|]; [|done]. destruct (cl_dial cl); [done|]. intros [= <-]. by apply keeps_same.
  - destruct (reqs s !! r) as [q|] eqn:Er; [|done]. destruct (q_phase q) as [c| | | | |]; try done. destruct (cl_dial <$> cells s !! c) as [[[e|]|]|]; try done; intros [= <-]; [apply keeps_finish|apply keeps_set]; try done; intros q0 E; by assert (q0 = q) as -> by congruence.
  - destruct (reqs s !! r) as [q|] eqn:Er; [|done]. destruct (q_phase q); try done. intros [= <-]. apply keeps_finish; [done|]. intros q0 E. by assert (q0 = q) as -> by congruence.
  - destruct (reqs s !! r) as [q|] eqn:Er; [|done]. destruct (q_phase q); try done. destruct res as [e|]; [destruct (cd || _)|]; intros [= <-]; [apply keeps_finish|apply keeps_set|apply keeps_finish]; try done; intros q0 E; by assert (q0 = q) as -> by congruence.
  - destruct (reqs s !! r) as [q|] eqn:Er; [|done]. destruct (q_phase q) as [| |c e| | |]; try done. destruct (canRetryRequest e (q_body q)); intros [= <-]; [apply keeps_set|apply keeps_finish]; try done; intros q0 E; by assert (q0 = q) as -> by congruence.
  - destruct (reqs s !! r) as [q|] eqn:Er; [|done]. destruct (q_phase q); try done. intros [= <-]. apply keeps_begin. intros q0 E. by assert (q0 = q) as -> by congruence.
  - destruct (reqs s !! r) eqn:Er; [done|]. destruct (getClient_reqs host false quick s) as [Hg _]. destruct (getClient _ _ _ s) as [[c|e] s1]; cbn [snd] in Hg; intros [= <-]; [apply keeps_set|apply keeps_finish]; try done; intros q0 E; congruence.
  - destruct (reqs s !! r) as [q|] eqn:Er; [|done]. destruct (q_phase q) as [| | | |c|]; try done. intros [= <-]. apply keeps_set; [by destruct (use_reqs (-1) c s) as [-> _]|]. intros q0 E. by assert (q0 = q) as -> by congruence.
  - destruct (clients s !! host) as [c|]; [|done]. destruct (cells s !! c) as [cl|]; [|done]. destruct (_ =? 0); [|done]. intros [= <-]. by apply keeps_same.
  - intros [= <-]. by apply keeps_same.
Qed.
Lemma h3t_run_keeps es : forall s s', run es s = Some s' -> keeps s s'.
Proof.
  induction es as [|e es IH]; intros s s'; cbn; [intros [= <-]; by apply keeps_same|]. destruct (exec e s) as [s1|] eqn:E; [|done]. intros Hr r q Hq. destruct (h3t_exec_keeps e s s1 E r q Hq) as (q1 & Hq1 & Hs1). destruct (IH s1 s' Hr r q1 Hq1) as (q2 & Hq2 & Hs2). exists q2. split; [done|]. by etransitivity.
Qed.
Lemma h3t_run_reachable es : forall s s', reachable s -> run es s = Some s' -> reachable s'.
Proof. induction es as [|e es IH]; intros s s' Hs; cbn; [by intros [= <-]|]. destruct (exec e s) as [s1|] eqn:E; [|done]. apply IH. by eapply ReachStep. Qed.

(** A request that is cancelled while the connection is being dialed, or that sees the dial fail, never
    gives its count back: whatever happens later, [CloseIdleConnections] does not close that
    connection. *)
Theorem h3_cancelled_dial_pins s r q c e s1 es s2 host late : reachable s -> reqs s !! r = Some q -> q_phase q = QWait c ->
  exec e s = Some s1 -> (exists x, e = TCancel r x) \/ (e = TDialed r /\ exists x, cl_dial <$> cells s !! c = Some (Some (Some x))) ->
  run es s1 = Some s2 -> clients s2 !! host = Some c -> exec (TCloseIdle host late) s2 = None.
Proof.
  intros Hs Hr Hp He Hcase Hrun Hh.
  assert (exists q1, reqs s1 !! r = Some q1 /\ c ∈ q_lost q1) as (q1 & Hr1 & Hc1).
  { destruct Hcase as [[x ->]|(-> & x & Hd)]; step in He; rewrite Hr, Hp in He; [|rewrite Hd in He]; injection He as <-; unfold finish; cbn; rewrite lookup_insert_eq; (eexists; split; [reflexivity|]); cbn; by left. }
  destruct (h3t_run_keeps es s1 s2 Hrun r q1 Hr1) as (q2 & Hr2 & Hsub). assert (reachable s2) as Hs2%h3t_reachable_ok by (eapply h3t_run_reachable; [eapply ReachStep; [exact Hs|exact He]|exact Hrun]).
  step. rewrite Hh. destruct (cells s2 !! c) as [cl|] eqn:Ec; [|done]. destruct (Z.eqb_spec (useCount cl) 0) as [E0|]; [|done]. exfalso. rewrite (so_count s2 Hs2 c cl Ec) in E0. pose proof (total_at_least c r q2 _ Hr2).
  assert (0 < takes c q2); [|lia]. apply count_elem. rewrite !elem_of_app. right. right. by apply Hsub.
Qed.

(** *** Retries *)
Definition unprocessed (e : rt_error) : Prop := match e with connUnusable _ => True | h3Error _ code _ => code = ErrCodeRequestRejected | otherError _ => False end.
Definition mine (r : nat) (l : list (nat * nat * reqBody)) : list (nat * nat * reqBody) := filter (fun x => x.1.1 = r) l.
Arguments mine : simpl never.
Definition stage (q : request) (n : nat) : Prop :=
  let b := q_body q in
  match q_phase q with
  | QWait _ => n = (if q_retried q then 1 else 0)%nat /\ rb_unread b = true
  | QRetry => q_retried q = true /\ n = 1%nat /\ rb_unread b = true
  | QUse _ => n = (if q_retried q then 2 else 1)%nat /\ rb_unread b = true
  | QRemove _ e => q_retried q = false /\ n = 1%nat /\ ((exists x, e = connUnusable x) \/ rb_content b = None -> rb_unread b = true)
  | QAdded _ => n = 0%nat
  | QDone _ => (n <= 2)%nat
  end.
Record retry_ok (s : system) : Prop := {
  rt_none : forall r, reqs s !! r = None -> mine r (calls s) = [];
  rt_stage : forall r q, reqs s !! r = Some q -> stage q (length (mine r (calls s)));
  rt_calls : forall x, x ∈ calls s -> rb_unread x.2 = true }.
Lemma h3t_mine_snoc r l x : mine r (l ++ [x]) = mine r l ++ (if decide (x.1.1 = r) then [x] else []).
Proof. unfold mine. rewrite filter_app, filter_cons, filter_nil. by destruct (decide (x.1.1 = r)). Qed.
Lemma retry_set r q s s1 : retry_ok s -> reqs s1 = reqs s -> calls s1 = calls s -> stage q (length (mine r (calls s))) -> retry_ok (set_req r q s1).
Proof.
  intros [R1 R2 R3] E1 E2 Hq. constructor; cbn; rewrite E2, ?E1; [|intros r' q' [[<- <-]|[_ Hr]]%lookup_insert_Some; [done|by apply R2]|done]. intros r' [Hr _]%lookup_insert_None. by apply R1.
Qed.
Lemma retry_same s s1 : retry_ok s -> reqs s1 = reqs s -> calls s1 = calls s -> retry_ok s1.
Proof. intros [R1 R2 R3] E1 E2. by constructor; rewrite ?E1, ?E2. Qed.
Lemma retry_finish r q lost o s s1 : retry_ok s -> reqs s1 = reqs s -> calls s1 = calls s -> (length (mine r (calls s)) <= 2)%nat -> retry_ok (finish r q lost o s1).
Proof. intros Hs E1 E2 Hn. unfold finish. destruct (release_reqs (q_held q) s1) as [F1 F2]. apply (retry_set _ _ s); [done|congruence|congruence|done]. Qed.
Lemma retry_begin r q quick s : retry_ok s -> length (mine r (calls s)) = (if q_retried q then 1 else 0)%nat -> rb_unread (q_body q) = true -> retry_ok (begin r q quick s).
Proof.
  intros Hs Hn Hb. unfold begin. destruct (getClient_reqs (q_host q) (q_only q) quick s) as [G1 G2]. destruct (getClient _ _ _ s) as [[c|e] s1]; cbn [snd] in *; [by apply (retry_set _ _ s)|]. apply (retry_finish _ _ _ _ s); try done. destruct (q_retried q); lia.
Qed.
Lemma exec_retry e s s' : retry_ok s -> exec e s = Some s' -> retry_ok s'.
Proof.
  intros Hs. destruct e as [r host only content getBody quick|c' e|r|r e|r res cd|r|r quick|r host quick|r|host late|late]; step.
  - destruct (reqs s !! r) eqn:Er; [done|]. intros [= <-]. apply retry_begin; [done|by rewrite (rt_none s Hs)|done].
  - destruct (cells s !! c') as [cl|]; [|done]. destruct (cl_dial cl); [done|]. intros [= <-]. by apply (retry_same s).
  - destruct (reqs s !! r) as [q|] eqn:Er; [|done]. pose proof (rt_stage s Hs r q Er) as Hq. unfold stage in Hq. destruct (q_phase q) as [c| | | | |]; try done. destruct Hq as [Hn Hb]. destruct (cl_dial <$> cells s !! c) as [[[e|]|]|]; try done; intros [= <-].
    + apply (retry_finish _ _ _ _ s); try done. rewrite Hn. destruct (q_retried q); lia.
    + destruct Hs as [R1 R2 R3]. constructor; cbn.
      * intros r' [Hr Hne]%lookup_insert_None. rewrite h3t_mine_snoc. cbn. rewrite decide_False by done. by rewrite app_nil_r, R1.
      * intros r' q' [[<- <-]|[Hne Hr]]%lookup_insert_Some; rewrite h3t_mine_snoc; cbn; [rewrite decide_True, length_app, Hn by done; cbn; split; [destruct (q_retried q); lia|done]|rewrite decide_False, app_nil_r by done; by apply R2].
      * intros x [Hx|Hx]%elem_of_app; [by apply R3|]. by apply list_elem_of_singleton in Hx as ->.
  - destruct (reqs s !! r) as [q|] eqn:Er; [|done]. pose proof (rt_stage s Hs r q Er) as Hq. unfold stage in Hq. destruct (q_phase q); try done. intros [= <-]. apply (retry_finish _ _ _ _ s); try done. destruct Hq as [-> _]. destruct (q_retried q); lia.
  - destruct (reqs s !! r) as [q|] eqn:Er; [|done]. pose proof (rt_stage s Hs r q Er) as Hq. unfold stage in Hq. destruct (q_phase q) as [|c| | | |] eqn:Ep; try done. destruct Hq as [Hn Hb]. destruct res as [e|]; [destruct cd, (q_retried q) eqn:Et; cbn [orb]|]; intros [= <-]; try (apply (retry_finish _ _ _ _ s); try done; rewrite Hn; destruct (q_retried q); lia).
    apply (retry_set _ _ s); try done. unfold stage. cbn. rewrite Hn. split; [done|]. split; [done|]. unfold after_round_trip. destruct e, (rb_content (q_body q)); try done; intros [[x Hx]|Hx]; done.
  - destruct (reqs s !! r) as [q|] eqn:Er; [|done]. pose proof (rt_stage s Hs r q Er) as Hq. unfold stage in Hq. destruct (q_phase q) as [| |c e| | |]; try done. destruct Hq as (Ht & Hn & Hb). destruct (canRetryRequest e (q_body q)) as [b|] eqn:Ec; intros [= <-]; [|apply (retry_finish _ _ _ _ s); try done; lia].
    apply (retry_set _ _ s); try done. unfold stage. cbn. rewrite Hn. split; [done|]. split; [done|]. unfold canRetryRequest in Ec. destruct e as [x|rem code msg|x]; [injection Ec as <-; apply Hb; left; by eexists| |done].
    destruct (negb _); [done|]. destruct (rb_content (q_body q)) eqn:Ecn; [|injection Ec as <-; apply Hb; by right]. destruct (rb_GetBody (q_body q)) as [[g|]|]; try done. by injection Ec as <-.
  - destruct (reqs s !! r) as [q|] eqn:Er; [|done]. pose proof (rt_stage s Hs r q Er) as Hq. unfold stage in Hq. destruct (q_phase q); try done. intros [= <-]. destruct Hq as (Ht & Hn & Hb). apply retry_begin; [done|by rewrite Ht|done].
  - destruct (reqs s !! r) eqn:Er; [done|]. destruct (getClient_reqs host false quick s) as [G1 G2]. destruct (getClient _ _ _ s) as [[c|e] s1]; cbn [snd] in *; intros [= <-]; [apply (retry_set _ _ s)|apply (retry_finish _ _ _ _ s)]; try done; rewrite (rt_none s Hs r Er); [done|cbn; lia].
  - destruct (reqs s !! r) as [q|] eqn:Er; [|done]. pose proof (rt_stage s Hs r q Er) as Hq. unfold stage in Hq. destruct (q_phase q) as [| | | |c|]; try done. intros [= <-]. destruct (use_reqs (-1) c s) as (U1 & U2 & _). apply (retry_set _ _ s); try done. unfold stage. cbn. lia.
  - destruct (clients s !! host) as [c|]; [|done]. destruct (cells s !! c) as [cl|]; [|done]. destruct (_ =? 0); [|done]. intros [= <-]. by apply (retry_same s).
  - intros [= <-]. by apply (retry_same s).
Qed.
Lemma reachable_retry s : reachable s -> retry_ok s.
Proof. induction 1 as [|s e s' _ IH Hx]; [|by eapply exec_retry]. constructor; cbn; [done|intros r q Hr; by rewrite lookup_empty in Hr|by intros x ?%not_elem_of_nil]. Qed.

(** C17: retries are safe. In every reachable state a request has made at most two round trips, each
    with a body nothing was read of; it is tried again only after an error which says that
    the server has not processed it; and after the second round trip it returns. *)
Theorem h3_retry_is_safe s r q : reachable s -> reqs s !! r = Some q ->
  (length (mine r (calls s)) <= 2)%nat /\ (forall x, x ∈ mine r (calls s) -> rb_unread x.2 = true) /\
  (forall c e s', q_phase q = QRemove c e -> exec (TRemove r) s = Some s' -> exists q', reqs s' !! r = Some q' /\ (q_phase q' = QRetry -> unprocessed e)) /\
  (forall c res cd s', q_phase q = QUse c -> length (mine r (calls s)) = 2%nat -> exec (TReply r res cd) s = Some s' -> exists q', reqs s' !! r = Some q' /\ q_phase q' = QDone res).
Proof.
  intros Hs%reachable_retry Hr. pose proof (rt_stage s Hs r q Hr) as Hq. split; [|split; [|split]].
  - unfold stage in Hq. destruct (q_phase q); destruct (q_retried q); lia.
  - intros x [_ Hx]%list_elem_of_filter. by apply (rt_calls s Hs).
  - intros c e s' Hp He. step in He. rewrite Hr, Hp in He. destruct (canRetryRequest e (q_body q)) as [b|] eqn:Ec; injection He as <-; cbn; rewrite lookup_insert_eq; (eexists; split; [reflexivity|]); cbn; [intros _|done].
    unfold canRetryRequest in Ec. destruct e as [x|rem code msg|x]; [done| |done]. destruct (Z.eqb_spec code ErrCodeRequestRejected); [done|done].
  - intros c res cd s' Hp Hn He. unfold stage in Hq. rewrite Hp in Hq. destruct Hq as [Hq _]. rewrite Hn in Hq. destruct (q_retried q) eqn:Et; [|done]. step in He. rewrite Hr, Hp in He.
    destruct res as [e|]; [rewrite Et, orb_true_r in He|]; injection He as <-; cbn; rewrite lookup_insert_eq; by eexists.
Qed.

(** ** Examples *)
Definition ex_host : bytes := bytes_of_string "a:443".
Definition ex_get (r : nat) : event := TStart r ex_host false None None None.
Definition ex_state (es : list event) : system := match run es sys_init with Some s => s | None => sys_init end.
Lemma h3t_ex_reachable es : is_Some (run es sys_init) -> reachable (ex_state es).
Proof. intros [s E]. unfold ex_state. rewrite E. by apply (h3t_run_reachable es sys_init); [constructor|]. Qed.
(** Two requests share a dial; the first is cancelled, and the second is answered. *)
Definition ex_dialing : list event := [ex_get 0; ex_get 1].
Definition ex_rest : list event := [TDial 0 None; TDialed 1; TReply 1 None false].
Lemma h3_cancelled_dial_pins_witness : reachable (ex_state ex_dialing) /\ exists s1 s2, exec (TCancel 0 (otherError io_EOF)) (ex_state ex_dialing) = Some s1 /\ run ex_rest s1 = Some s2 /\
  clients s2 !! ex_host = Some 0%nat /\ exec (TCloseIdle ex_host None) s2 = None.
Proof.
  assert (reachable (ex_state ex_dialing)) as Hs by (apply h3t_ex_reachable; vm_compute; by eexists). split; [exact Hs|].
  destruct (exec (TCancel 0 (otherError io_EOF)) (ex_state ex_dialing)) as [s1|] eqn:E1; [|by vm_compute in E1]. exists s1. destruct (run ex_rest s1) as [s2|] eqn:E2; [|vm_compute in E1; injection E1 as <-; by vm_compute in E2]. exists s2.
  destruct (reqs (ex_state ex_dialing) !! 0%nat) as [q|] eqn:Er; [|by vm_compute in Er]. assert (q_phase q = QWait 0) as Hp by (vm_compute in Er; by injection Er as <-).
  assert (clients s2 !! ex_host = Some 0%nat) as Hc by (vm_compute in E1; injection E1 as <-; vm_compute in E2; by injection E2 as <-). split; [reflexivity|]. split; [reflexivity|]. split; [exact Hc|].
  exact (h3_cancelled_dial_pins (ex_state ex_dialing) 0%nat q 0%nat (TCancel 0 (otherError io_EOF)) s1 ex_rest s2 ex_host None Hs Er Hp E1 (or_introl (ex_intro _ _ eq_refl)) E2 Hc).
Defined.
(** A request in a round trip over a connection that another one has finished with. *)
Definition ex_sharing : list event := [ex_get 0; ex_get 1; TDial 0 None; TDialed 0; TDialed 1; TReply 1 None false].
Lemma h3_idle_close_safe_witness : reachable (ex_state ex_sharing) /\ useCount <$> cells (ex_state ex_sharing) !! 0%nat = Some (total 0 (reqs (ex_state ex_sharing))) /\ total 0 (reqs (ex_state ex_sharing)) = 1.
Proof.
  assert (reachable (ex_state ex_sharing)) as Hs by (apply h3t_ex_reachable; vm_compute; by eexists). split; [exact Hs|]. split; [|vm_compute; reflexivity].
  destruct (cells (ex_state ex_sharing) !! 0%nat) as [cl|] eqn:Ec; [|by vm_compute in Ec]. cbn. f_equal. exact (proj1 (h3_idle_close_safe (ex_state ex_sharing) Hs) 0%nat cl Ec).
Defined.
(** The server rejects a request with a body, which is tried again over a new connection. *)
Definition ex_rejected : rt_error := h3Error true ErrCodeRequestRejected "".
Definition ex_retry : list event :=
  [TStart 0 ex_host false (Some [1; 2]) (Some (Ok [1; 2])) None; TDial 0 None; TDialed 0; TReply 0 (Some ex_rejected) false; TRemove 0; TAgain 0 None; TDial 1 None; TDialed 0].
Lemma h3_retry_is_safe_witness : reachable (ex_state ex_retry) /\ exists q, reqs (ex_state ex_retry) !! 0%nat = Some q /\ length (mine 0 (calls (ex_state ex_retry))) = 2%nat /\
  forall x, x ∈ mine 0 (calls (ex_state ex_retry)) -> rb_unread x.2 = true.
Proof.
  assert (reachable (ex_state ex_retry)) as Hs by (apply h3t_ex_reachable; vm_compute; by eexists). split; [exact Hs|]. destruct (reqs (ex_state ex_retry) !! 0%nat) as [q|] eqn:Er; [|by vm_compute in Er]. exists q. split; [reflexivity|]. split; [vm_compute; reflexivity|].
  exact (proj1 (proj2 (h3_retry_is_safe (ex_state ex_retry) 0%nat q Hs Er))).
Defined.
(** The connection of one request is dropped by another whose own connection has failed, and
    closing the transport does not close it. *)
Example newer_connection_forgotten : (fun s => (bool_decide (clients s = ∅), cl_closed <$> cells s !! 1%nat)) <$>
  run [ex_get 0; ex_get 1; TDial 0 None; TDialed 0; TDialed 1; TReply 0 (Some ex_rejected) false; TReply 1 (Some ex_rejected) false;
       TRemove 0; TAgain 0 None; TDial 1 None; TDialed 0; TRemove 1; TClose (fun _ => None)] sys_init = Some (true, Some false).
Proof. vm_compute. reflexivity. Qed.
