(* ===== verification/H2Request.v ===== *)
(** * HTTP/2 requests ([src/internal/http2/transport.go])

    The field list of a request, its header block, the HEADERS and CONTINUATION frames,
    and the request as the server reads it. The HPACK encoder is golang.org/x/net's, and
    keeps a state for the whole connection. *)

From S2P Require Import Prelude.
From S2P Require Import H2Errors.
From S2P Require Import DataBuffer.
From S2P Require Import Pipe.
From S2P Require Import Frame.
From S2P Require Import FrameWrite.
From S2P Require Import Framer.
From S2P Require Import NetText.
From S2P Require Import Chunked.
From S2P Require Import TextProto.
From S2P Require Import Transfer.
From S2P Require Import TransferWrite.
From S2P Require Import HeaderSort.
From S2P Require Import H1Request.
From S2P Require Import ConnState.
From S2P Require Import H2Transport.
From S2P Require Import H2Conn.
From S2P Require Import H2System.
From S2P Require Import H2Props.
From S2P Require Import H3Headers.
From S2P Require Import H3Request.
Import ConnNotations.

(** ** The HPACK encoder
    [WriteField]: the state after a field and the bytes it adds to the block. *)
Class HpackEncoder (E : Type) := WriteField : E -> string * string -> E * bytes.
Fixpoint write_fields {E} `{HpackEncoder E} (e : E) (fs : list (string * string)) : E * bytes :=
  match fs with
  | [] => (e, [])
  | f :: fs => let '(e, b) := WriteField e f in let '(e, bs) := write_fields e fs in (e, b ++ bs)
  end.
(** A decoder that has read the blocks before reads the next one. *)
Class HpackPair (E D : Type) `{HpackEncoder E} := {
  decode_block : D -> bytes -> option (D * list (string * string));
  in_sync : E -> D -> Prop;
  hpack_field e f : (WriteField e f).2 <> [];
  hpack_roundtrip e d fs : in_sync e d -> exists d', decode_block d (write_fields e fs).2 = Some (d', fs) /\ in_sync (write_fields e fs).1 d' }.
(** [HeaderField.Size] *)
Definition field_Size (f : string * string) : Z := u32 (len (bytes_of_string f.1) + len (bytes_of_string f.2) + 32).
(** The size of a header list: a sum of type [uint64]. *)
Definition hlSize (fs : list (string * string)) : Z := fold_left (fun n f => u64 (n + field_Size f)) fs 0.

(** The fields of a [http.Request] used here; [hr_hasBody]: neither nil nor [http.NoBody]. *)
Record request := mkRequest2 {
  hr_Method : string; hr_URL : option URL; hr_Host : string; hr_Header : Header; hr_Trailer : option Header;
  hr_hasBody : bool; hr_ContentLength : Z }.

(** *** Cookies
    [crumbs]: the loop that splits a value at semicolons; [fuel] is more than the length. *)
Fixpoint skip_spaces (v : bytes) : bytes := match v with 32 :: w => skip_spaces w | _ => v end.
Definition IndexByte (v : bytes) (c : byte) : option nat := fst <$> list_find (fun b => b = c) v.
Fixpoint crumbs (fuel : nat) (v : bytes) : list bytes :=
  match fuel with
  | O => []
  | S fuel =>
      match IndexByte v 59 with
      | None => if 0 <? len v then [v] else []
      | Some p => take p v :: crumbs fuel (skip_spaces (drop (S p) v))
      end
  end.
Definition crumbs_of (v : string) : list string := string_of_bytes <$> crumbs (S (length (bytes_of_string v))) (bytes_of_string v).

Section Encode.
Context {E : Type} `{HpackEncoder E} (strings_ToLower : string -> string) (ValidHeaderFieldName ValidHeaderFieldValue ValidHostHeader : string -> bool)
  (PunycodeHostPort : string -> result error string) (quote : string -> string).

(** *** The fields in order *)
Definition flat (kvs : list KeyValues) : list (string * string) := flat_map (fun kv => (fun v => (kv_Key kv, v)) <$> kv_Values kv) kvs.
Definition ordered_by (h : Header) (key : string) (kvs : list KeyValues) : list (string * string) :=
  flat (match Header_values h key with [] => kvs | order => SortKeyValues ValidHeaderFieldName kvs order end).
Definition pseudo_kvs (r : request) (u : URL) (host path : string) : list KeyValues :=
  [mkKeyValues ":authority" [host]; mkKeyValues ":method" [valueOrDefault (hr_Method r) "GET"]]
  ++ (if negb (String.eqb (hr_Method r) "CONNECT") then [mkKeyValues ":path" [path]; mkKeyValues ":scheme" [u_Scheme u]] else []).
(** One turn of the loop over the header. *)
Definition header_kvs (kv : string * list string) : list KeyValues :=
  if IsExcluded strings_ToLower kv.1 then []
  else if EqualFold kv.1 "user-agent" then match kv.2 with [] => [] | v :: _ => if String.eqb v "" then [] else [mkKeyValues kv.1 [v]] end
  else if EqualFold kv.1 "cookie" then [mkKeyValues "cookie" (flat_map crumbs_of kv.2)]
  else [mkKeyValues kv.1 kv.2].
Definition didUA2 (fields : list (string * list string)) : bool := existsb (fun kv => negb (IsExcluded strings_ToLower kv.1) && EqualFold kv.1 "user-agent") fields.
Definition regular_kvs (fields : list (string * list string)) (r : request) (addGzipHeader : bool) (trailers : string) (contentLength : Z) : list KeyValues :=
  (if negb (String.eqb trailers "") then [mkKeyValues "trailer" [trailers]] else [])
  ++ flat_map header_kvs fields
  ++ (if H2Transport.shouldSendReqContentLength (hr_Method r) contentLength then [mkKeyValues "content-length" [format_dec contentLength]] else [])
  ++ (if addGzipHeader then [mkKeyValues "accept-encoding" ["gzip"%string]] else [])
  ++ (if didUA2 fields then [] else [mkKeyValues "user-agent" [DefaultUserAgent]]).
(** [fields]: the header in the order in which the loop visits it. *)
Definition enumerateHeaders (fields : list (string * list string)) (r : request) (u : URL) (host path : string) (addGzipHeader : bool) (trailers : string) (contentLength : Z) : list (string * string) :=
  ordered_by (hr_Header r) PseudoHeaderOderKey (pseudo_kvs r u host path)
  ++ ordered_by (hr_Header r) HeaderOderKey (regular_kvs fields r addGzipHeader trailers contentLength).

(** *** [encodeHeaders] *)
Definition host_of (r : request) (u : URL) : result error string :=
  match PunycodeHostPort (if String.eqb (hr_Host r) "" then u_Host u else hr_Host r) with
  | Err e => Err e
  | Ok host => if ValidHostHeader host then Ok host else Err (errors_New "http2: invalid Host header")
  end.
Definition path_of (r : request) (u : URL) (host : string) : result error string :=
  if String.eqb (hr_Method r) "CONNECT" then Ok ""%string else
  let orig := u_RequestURI u in
  if validPseudoPath orig then Ok orig else
  let path := TrimPrefix orig (u_Scheme u +:+ "://" +:+ host) in
  if validPseudoPath path then Ok path
  else if negb (String.eqb (u_Opaque u) "") then Err (fmt_Errorf "invalid request :path %q from URL.Opaque = %q" [orig; u_Opaque u])
  else Err (fmt_Errorf "invalid request :path %q" [orig]).
Abbreviation validate := (H2Transport.validateHeaders ValidHeaderFieldName ValidHeaderFieldValue quote).
(** Names are written in lower case; a name that is not ASCII is skipped. *)
Definition lower_fields (fs : list (string * string)) : list (string * string) :=
  flat_map (fun f => let '(name, ascii) := lowerHeader f.1 in if ascii then [(name, f.2)] else []) fs.
(** [pass1], [pass2], [hchecked], [tchecked]: the header and the trailer in the orders in which
    the loops over them visit them. The state of the encoder changes only when all is checked. *)
Definition encodeHeaders (pass1 pass2 hchecked tchecked : list (string * list string)) (e : E) (r : request) (addGzipHeader : bool) (trailers : string) (contentLength peerMaxHeaderListSize : Z) : E * result error bytes :=
  match hr_URL r with
  | None => (e, Err errNilRequestURL)
  | Some u =>
      match host_of r u with
      | Err x => (e, Err x)
      | Ok host =>
          match path_of r u host with
          | Err x => (e, Err x)
          | Ok path =>
              let err := validate hchecked in
              if negb (String.eqb err "") then (e, Err (fmt_Errorf "invalid HTTP header %s" [err])) else
              let err := validate tchecked in
              if negb (String.eqb err "") then (e, Err (fmt_Errorf "invalid HTTP trailer %s" [err])) else
              if peerMaxHeaderListSize <? hlSize (enumerateHeaders pass1 r u host path addGzipHeader trailers contentLength) then (e, Err errRequestHeaderListSize)
              else let '(e, block) := write_fields e (lower_fields (enumerateHeaders pass2 r u host path addGzipHeader trailers contentLength)) in (e, Ok block)
          end
      end
  end.
(** [encodeTrailers]; the trailer in the orders of the two loops. *)
Definition trailer_fields2 (fields : list (string * list string)) : list (string * string) := flat_map (fun kv => (fun v => (kv.1, v)) <$> kv.2) fields.
Definition encodeTrailers (pass1 pass2 : list (string * list string)) (e : E) (peerMaxHeaderListSize : Z) : E * result error bytes :=
  if peerMaxHeaderListSize <? hlSize (trailer_fields2 pass1) then (e, Err errRequestHeaderListSize)
  else let '(e, block) := write_fields e (lower_fields (trailer_fields2 pass2)) in (e, Ok block).
(** [commaSeparatedTrailers]; the keys of the trailer in the order of the loop. *)
Definition commaSeparatedTrailers (keys : list string) : result error string :=
  match trailer_keys keys with
  | Err e => Err e
  | Ok [] => Ok ""%string
  | Ok ks => Ok (join "," (sort_strings ks))
  end.

(** *** [encodeAndWriteHeaders]
    On the stream [id]; [keys]: those of the trailer in the order of the loop; the state of the
    encoder and the error, where [None] says that the loop of [writeHeaders] has not ended. *)
Definition encodeAndWriteHeaders {B} `{PipeBuffer B} (t : Transport) (id : Z) (ctx_err : option error) (canceled : bool)
    (pass1 pass2 hchecked tchecked : list (string * list string)) (keys : list string) (e : E) (r : request) : M B (E * option (option error)) :=
  with_wmu (
    cs <- get_cs id ;;
    if is_set (cs_abort cs) then ret (e, Some (cs_abort cs)) else
    if is_set ctx_err then ret (e, Some ctx_err) else
    if canceled then ret (e, Some (Some ErrRequestCanceled)) else
    match commaSeparatedTrailers keys with
    | Err x => ret (e, Some (Some x))
    | Ok trailers =>
        let hasTrailers := negb (String.eqb trailers "") in
        let contentLen := H2Transport.actualContentLength (hr_hasBody r) (hr_ContentLength r) in
        let hasBody := negb (contentLen =? 0) in
        s <- get ;;
        match encodeHeaders pass1 pass2 hchecked tchecked e r (cs_requestedGzip cs) trailers contentLen (peerMaxHeaderListSize s) with
        | (e, Err x) => ret (e, Some (Some x))
        | (e, Ok hdrs) =>
            let endStream := negb hasBody && negb hasTrailers in
            modify_cs id (set_cs_sentHeaders true) ;;
            err <- writeHeaders t (S (length hdrs)) id endStream (peer_maxFrameSize s) hdrs ;;
            ret (e, err)
        end
    end).
End Encode.

(** *** Cookies split and joined *)
(** A cookie as applications write it: pairs joined with "; ". *)
Definition pair_ok (p : bytes) : Prop := p <> [] /\ (59 ∉ p) /\ head p <> Some 32.
Fixpoint cookie_string (ps : list bytes) : bytes := match ps with [] => [] | [p] => p | p :: ps => p ++ 59 :: 32 :: cookie_string ps end.
Lemma IndexByte_app (p q : bytes) : 59 ∉ p -> IndexByte (p ++ 59 :: q) 59 = Some (length p).
Proof.
  unfold IndexByte. intros Hp. assert (list_find (fun b => b = 59) (p ++ 59 :: q) = Some (length p, 59)) as ->; [|done].
  apply list_find_Some. split; [by apply list_lookup_middle|]. split; [done|]. intros j y Hj Hl ->. apply Hp. rewrite lookup_app_l in Hj by done. by apply list_elem_of_lookup_2 in Hj.
Qed.
Lemma IndexByte_none (p : bytes) : 59 ∉ p -> IndexByte p 59 = None.
Proof. unfold IndexByte. intros Hp. assert (list_find (fun b => b = 59) p = None) as ->; [|done]. apply list_find_None, Forall_forall. by intros b Hb ->. Qed.
Lemma crumbs_cookie ps : forall fuel, Forall pair_ok ps -> (length (cookie_string ps) < fuel)%nat -> crumbs fuel (cookie_string ps) = ps.
Proof.
  induction ps as [|p ps IH]; intros fuel Hps Hf; (destruct fuel as [|fuel]; [lia|]); [done|]. apply Forall_cons in Hps as [(Hne & Hno & _) Hps]. destruct ps as [|p2 ps].
  - cbn [crumbs cookie_string]. rewrite IndexByte_none by done. destruct (Z.ltb_spec 0 (len p)); [done|]. destruct p; [done|]. rewrite len_cons in *. pose proof (len_nonneg p). lia.
  - change (cookie_string (p :: p2 :: ps)) with (p ++ 59 :: 32 :: cookie_string (p2 :: ps)) in *. cbn [crumbs]. rewrite IndexByte_app by done. rewrite take_app_length, (cons_middle 59 p), app_assoc, drop_app_length' by (rewrite length_app; cbn; lia).
    f_equal. rewrite length_app in Hf. cbn [length] in Hf. change (skip_spaces (32 :: ?v)) with (skip_spaces v).
    assert (skip_spaces (cookie_string (p2 :: ps)) = cookie_string (p2 :: ps)) as ->; [|apply IH; [done|lia]].
    pose proof (Forall_inv Hps) as (Hn2 & _ & Hh). destruct p2 as [|b p2]; [done|]. assert (b <> 32) as Hb by (intros ->; by apply Hh).
    assert (exists q, cookie_string ((b :: p2) :: ps) = b :: q) as [q ->] by (destruct ps; by eexists). cbn. destruct b as [|b|]; try done. by repeat (destruct b as [b|b|]; try done).
Qed.
Lemma skip_spaces_sub v c : c ∈ skip_spaces v -> c ∈ v.
Proof. induction v as [|b v IH]; [done|]. cbn. destruct b as [|b|]; try done. repeat (destruct b as [b|b|]; try done). intros Hc. right. by apply IH. Qed.
(** The bytes of a crumb are bytes of the value. *)
Lemma crumbs_sub fuel : forall v p c, p ∈ crumbs fuel v -> c ∈ p -> c ∈ v.
Proof.
  induction fuel as [|fuel IH]; intros v p c; cbn [crumbs]; [by intros ?%not_elem_of_nil|]. destruct (IndexByte v 59) as [i|].
  - intros [->|Hp]%elem_of_cons Hc; [rewrite <- (take_drop i v); apply elem_of_app; by left|]. specialize (IH _ _ _ Hp Hc). apply skip_spaces_sub in IH. rewrite <- (take_drop (S i) v). apply elem_of_app. by right.
  - destruct (0 <? len v); [|by intros ?%not_elem_of_nil]. by intros ->%list_elem_of_singleton.
Qed.

(** ** Reading a request back
    The rules for the field list of a request are those of HTTP/3, so the server's reading
    is [H3Headers.parseHeaders]. *)
Section ReadBack.
Context (strings_ToLower : string -> string) (ValidHeaderFieldName ValidHeaderFieldValue ValidHostHeader : string -> bool) (PunycodeHostPort : string -> result error string) (quote : string -> string)
  (valid_token : forall k, ValidHeaderFieldName k = token_name k) (lower_ascii : forall s, Is s = true -> strings_ToLower s = map_string lower s)
  (value_byte : byte -> bool) (value_bytes : forall v, ValidHeaderFieldValue v = forallb value_byte (bytes_of_string v)) (value_print : forall b, 32 <= b <= 126 -> value_byte b = true).
Abbreviation excluded := (IsExcluded strings_ToLower).
Abbreviation low := (lowered strings_ToLower).
Abbreviation validate := (H2Transport.validateHeaders ValidHeaderFieldName ValidHeaderFieldValue quote).
Abbreviation enumerate := (enumerateHeaders strings_ToLower ValidHeaderFieldName).

(** The request with its cookies split; HTTP/3 would send the same fields for it. *)
Definition crumbled_values (k : string) (vs : list string) : list string := if EqualFold k "cookie" then flat_map crumbs_of vs else vs.
Definition crumbled (h : Header) : Header := map_imap (fun k vs => Some (crumbled_values k vs)) h.
Definition as_h3 (r : request) (u : URL) : H3Request.Request :=
  H3Request.mkRequest (valueOrDefault (hr_Method r) "GET") u "" (crumbled (hr_Header r)) (hr_Host r) None 0.

Lemma crumbled_lookup h k : crumbled h !! k = crumbled_values k <$> h !! k.
Proof. unfold crumbled. rewrite map_lookup_imap. by destruct (h !! k). Qed.
Lemma crumbled_list h : map_to_list (crumbled h) ≡ₚ (fun kv => (kv.1, crumbled_values kv.1 kv.2)) <$> map_to_list h.
Proof.
  apply NoDup_Permutation; [apply NoDup_map_to_list| |].
  - apply (NoDup_fmap_1 fst). rewrite <- list_fmap_compose. apply (NoDup_fst_map_to_list h).
  - intros [k vs]. rewrite elem_of_map_to_list, crumbled_lookup, list_elem_of_fmap, fmap_Some. split.
    + intros (ws & Hk & ->). exists (k, ws). split; [done|]. by apply elem_of_map_to_list.
    + intros ([k' ws] & [= -> ->] & Hk%elem_of_map_to_list). by exists ws.
Qed.
Lemma crumb_valid v c : c ∈ crumbs_of v -> ValidHeaderFieldValue v = true -> ValidHeaderFieldValue c = true.
Proof.
  rewrite !value_bytes. unfold crumbs_of. intros (p & -> & Hp)%list_elem_of_fmap Hv. apply forallb_forall. intros b Hb%list_elem_of_In.
  assert (bytes_ok p) as Hok. { apply Forall_forall. intros x Hx. pose proof (string_bytes_range v) as Hr. rewrite Forall_forall in Hr. apply Hr. by eapply crumbs_sub. }
  rewrite bytes_of_string_of_bytes in Hb by done. rewrite forallb_forall in Hv. apply Hv, list_elem_of_In. by eapply crumbs_sub.
Qed.
Lemma validate_ok l : validate l = ""%string -> Forall (fun kv => token_name kv.1 = true /\ Forall (fun v => ValidHeaderFieldValue v = true) kv.2) l.
Proof.
  induction l as [|[k vs] l IH]; cbn [H2Transport.validateHeaders]; [constructor|]. rewrite valid_token. destruct (token_name k) eqn:Ek; [|done]. cbn [negb]. destruct (existsb _ vs) eqn:Ev; [done|]. intros Hl. constructor; [|by apply IH]. split; [done|].
  apply Forall_forall. intros v Hv. destruct (ValidHeaderFieldValue v) eqn:E; [done|]. exfalso. apply not_true_iff_false in Ev. apply Ev, existsb_exists. exists v. split; [by apply list_elem_of_In|]. by rewrite E.
Qed.

(** *** The fields HTTP/3 would send *)
Lemma lowerHeader_token k : token_name k = true -> lowerHeader k = (map_string lower k, true).
Proof.
  intros [_ Hk]%andb_prop. destruct (header_caches_transparent k) as (_ & -> & _). unfold ToLower. assert (IsPrint k = true) as ->; [|done].
  unfold IsPrint. rewrite forallb_forall in *. intros b [Hb _]%Hk%token_byte. lia.
Qed.
Lemma lower_fields_app fs gs : lower_fields (fs ++ gs) = lower_fields fs ++ lower_fields gs.
Proof. unfold lower_fields. apply flat_map_app. Qed.
#[local] Instance lower_fields_perm : Proper (Permutation ==> Permutation) lower_fields.
Proof. intros l1 l2 Hl. unfold lower_fields. by rewrite Hl. Qed.
Lemma flat_app l k : flat (l ++ k) = flat l ++ flat k.
Proof. unfold flat. apply flat_map_app. Qed.
Lemma ordered_perm h key kvs : ordered_by ValidHeaderFieldName h key kvs ≡ₚ flat kvs.
Proof. unfold ordered_by, flat. destruct (Header_values h key); [done|]. by rewrite SortKeyValues_perm. Qed.
Lemma lower_key k vs : token_name k = true -> lower_fields ((fun v => (k, v)) <$> vs) = low ((fun v => (k, v)) <$> vs).
Proof.
  intros Hk. induction vs as [|v vs IH]; [done|]. unfold lowered, lower_fields in *. cbn [fmap list_fmap flat_map fst snd] in *. rewrite lowerHeader_token, IH by done.
  by destruct (token_lower strings_ToLower lower_ascii k Hk) as (-> & _).
Qed.
Lemma header_kvs_low k vs : token_name k = true ->
  lower_fields (flat (header_kvs strings_ToLower (k, vs))) = low ((fun v => (k, v)) <$> kept_values strings_ToLower (k, crumbled_values k vs)).
Proof.
  intros Hk. unfold header_kvs, kept_values, crumbled_values. cbn [fst snd]. destruct (excluded k); [done|]. destruct (EqualFold k "user-agent") eqn:Eu.
  - assert (EqualFold k "cookie" = false) as ->. { rewrite EqualFold_spec in *. apply bool_decide_eq_true in Eu. apply bool_decide_eq_false. rewrite Eu. discriminate. }
    destruct vs as [|v vs]; [done|]. destruct (String.eqb v ""); [done|]. cbn [flat flat_map kv_Key kv_Values]. rewrite app_nil_r. by apply lower_key.
  - destruct (EqualFold k "cookie") eqn:Ec; cbn [flat flat_map kv_Key kv_Values]; rewrite app_nil_r; [|by apply lower_key]. rewrite (lower_key "cookie") by reflexivity.
    unfold lowered. rewrite <- !list_fmap_compose. apply list_fmap_ext. intros _ v _. cbn. f_equal. rewrite (lower_ascii "cookie") by reflexivity.
    destruct (token_lower strings_ToLower lower_ascii k Hk) as (-> & _). rewrite EqualFold_spec in Ec. apply bool_decide_eq_true in Ec. unfold map_string. by rewrite Ec.
Qed.
Lemma didUA_same fields h : fields ≡ₚ map_to_list h -> didUA2 strings_ToLower fields = didUA strings_ToLower map_to_list (crumbled h).
Proof.
  intros Hf. unfold didUA2, didUA. apply eq_true_iff_eq. rewrite !existsb_exists. split.
  - intros ([k vs] & Hin%list_elem_of_In & Hb). exists (k, crumbled_values k vs). split; [|done]. apply list_elem_of_In. rewrite crumbled_list. apply list_elem_of_fmap. exists (k, vs). split; [done|]. by rewrite <- Hf.
  - intros ([k ws] & Hin%list_elem_of_In & Hb). rewrite crumbled_list in Hin. apply list_elem_of_fmap in Hin as ([k' vs] & [= -> ->] & Hin). exists (k', vs). split; [|done]. apply list_elem_of_In. by rewrite Hf.
Qed.
Lemma regular_same fields r u gzip tr cl : fields ≡ₚ map_to_list (hr_Header r) -> Forall (fun kv : string * list string => token_name kv.1 = true) fields ->
  lower_fields (flat (regular_kvs strings_ToLower fields r gzip tr cl)) ≡ₚ low (regular_fields strings_ToLower map_to_list (as_h3 r u) gzip tr cl).
Proof.
  intros Hf Hk. unfold regular_kvs, regular_fields. rewrite !flat_app, !lower_fields_app. unfold lowered. rewrite !fmap_app. fold low.
  assert (H2Transport.shouldSendReqContentLength (hr_Method r) cl = shouldSendReqContentLength (valueOrDefault (hr_Method r) "GET") cl) as ->.
  { unfold H2Transport.shouldSendReqContentLength, shouldSendReqContentLength, valueOrDefault. destruct (0 <? cl); [done|]. destruct (cl <? 0); [done|]. by destruct (String.eqb_spec (hr_Method r) "") as [->|]. }
  rewrite (didUA_same fields (hr_Header r)) by done. apply Permutation_app; [|apply Permutation_app; [|apply Permutation_app; [|apply Permutation_app]]].
  - destruct (String.eqb tr ""); [done|]. cbn. by rewrite (lower_ascii "trailer").
  - cbn [as_h3 r_Header]. rewrite crumbled_list, <- Hf. clear Hf. induction Hk as [|[k vs] fields Hk _ IH]; [done|]. cbn [flat_map fmap list_fmap fst snd] in *. rewrite flat_app, lower_fields_app, fmap_app, IH. apply Permutation_app_tail. by rewrite header_kvs_low.
  - destruct (shouldSendReqContentLength _ _); [|done]. cbn. by rewrite (lower_ascii "content-length").
  - destruct gzip; [|done]. cbn. by rewrite (lower_ascii "accept-encoding").
  - cbn [as_h3 r_Header]. destruct (didUA _ _ _); [done|]. cbn. by rewrite (lower_ascii "user-agent").
Qed.
Lemma pseudo_same r u host path : lower_fields (flat (pseudo_kvs r u host path)) = low (pseudo_fields (as_h3 r u) host path).
Proof.
  unfold pseudo_kvs, pseudo_fields, isExtendedConnectRequest. cbn [as_h3 r_Method r_Proto r_URL]. rewrite (String.eqb_refl ""). cbn [negb]. rewrite andb_false_r, orb_false_r.
  assert (String.eqb (valueOrDefault (hr_Method r) "GET") "CONNECT" = String.eqb (hr_Method r) "CONNECT") as -> by (unfold valueOrDefault; by destruct (String.eqb_spec (hr_Method r) "") as [->|]).
  unfold lowered. destruct (String.eqb (hr_Method r) "CONNECT"); cbn; by rewrite !lower_ascii by reflexivity.
Qed.

(** *** The block *)
Lemma as_h3_valid fields r u : fields ≡ₚ map_to_list (hr_Header r) -> validate fields = ""%string ->
  header_error ValidHeaderFieldName ValidHeaderFieldValue map_to_list (r_Header (as_h3 r u)) = None.
Proof.
  intros Hf Hv%validate_ok. unfold header_error. assert (list_find (fun kv : string * list string => negb (ValidHeaderFieldName kv.1) || existsb (fun v => negb (ValidHeaderFieldValue v)) kv.2 = true) (map_to_list (r_Header (as_h3 r u))) = None) as ->; [|done].
  apply list_find_None, Forall_forall. intros [k ws] Hin. cbn [as_h3 r_Header] in Hin. rewrite crumbled_list in Hin. apply list_elem_of_fmap in Hin as ([k' vs] & [= -> ->] & Hin). rewrite <- Hf in Hin. rewrite Forall_forall in Hv. destruct (Hv _ Hin) as [Hk Hvs]. cbn [fst snd] in *. rewrite valid_token, Hk. cbn [negb orb].
  intros (w & Hw%list_elem_of_In & Hb)%existsb_exists. assert (ValidHeaderFieldValue w = true) as E; [|by rewrite E in Hb]. rewrite Forall_forall in Hvs. unfold crumbled_values in Hw. destruct (EqualFold k' "cookie"); [|by apply Hvs].
  apply list_elem_of_In, in_flat_map in Hw as (v & Hv'%list_elem_of_In & Hw%list_elem_of_In). eapply crumb_valid; [exact Hw|by apply Hvs].
Qed.
Lemma path_same r u host : path_of r u host = request_path (as_h3 r u) host.
Proof.
  unfold path_of, request_path, isExtendedConnectRequest. cbn [as_h3 r_Method r_Proto r_URL]. rewrite (String.eqb_refl ""). cbn [negb]. rewrite andb_false_r, orb_false_r.
  assert (String.eqb (valueOrDefault (hr_Method r) "GET") "CONNECT" = String.eqb (hr_Method r) "CONNECT") as -> by (unfold valueOrDefault; by destruct (String.eqb_spec (hr_Method r) "") as [->|]).
  by destruct (String.eqb (hr_Method r) "CONNECT").
Qed.
(** The field list that is encoded is one a server accepts, and reads as the request. *)
Lemma field_list_read fields hchecked r u host path gzip tr cl limit : fields ≡ₚ map_to_list (hr_Header r) -> hchecked ≡ₚ map_to_list (hr_Header r) -> validate hchecked = ""%string ->
  path_of r u host = Ok path -> request_ok ValidHeaderFieldValue (as_h3 r u) host path -> ValidHeaderFieldValue tr = true -> cl < 2 ^ 63 ->
  let fs := lower_fields (enumerate fields r u host path gzip tr cl) in list_size fs <= limit ->
  exists h, parseHeaders strings_ToLower ValidHeaderFieldName ValidHeaderFieldValue (fs, None) true limit = Ok h /\ request_read strings_ToLower (as_h3 r u) host path gzip tr cl h.
Proof.
  intros Hf Hc Hv Hp Hr Htr Hcl fs Hs. pose proof (as_h3_valid hchecked r u Hc Hv) as He. assert (Forall (fun kv : string * list string => token_name kv.1 = true) fields) as Hk.
  { rewrite Hf, <- Hc. eapply Forall_impl; [by apply validate_ok|]. by intros kv [? _]. }
  unfold fs, enumerateHeaders in *. rewrite lower_fields_app in *. set (ps := lower_fields (ordered_by _ _ PseudoHeaderOderKey _)) in *. set (rs := lower_fields (ordered_by _ _ HeaderOderKey _)) in *.
  assert (ps ≡ₚ pseudo_fields (as_h3 r u) host path) as Hps by (unfold ps; by rewrite ordered_perm, pseudo_same, (lowered_pseudo strings_ToLower lower_ascii)).
  assert (rs ≡ₚ low (regular_fields strings_ToLower map_to_list (as_h3 r u) gzip tr cl)) as Hrs by (unfold rs; rewrite ordered_perm; by apply regular_same).
  exists (header_of ps rs). pose proof (list_size_nonneg (ps ++ rs)). rewrite path_same in Hp.
  assert (forall v, IsPrint v = true -> ValidHeaderFieldValue v = true) as Hpr.
  { intros v Hb. rewrite value_bytes. unfold IsPrint in Hb. rewrite forallb_forall in *. intros b Hin%Hb. apply value_print. lia. }
  split; [apply accepted_read; [lia|]; apply (fields_accepted strings_ToLower ValidHeaderFieldName ValidHeaderFieldValue ValidHostHeader PunycodeHostPort map_to_list valid_token lower_ascii Hpr (fun h => reflexivity _) tr Htr (as_h3 r u) host path gzip cl); done|].
  by apply (fields_read strings_ToLower ValidHeaderFieldName ValidHeaderFieldValue ValidHostHeader PunycodeHostPort map_to_list valid_token lower_ascii Hpr (fun h => reflexivity _) tr Htr).
Qed.

(** *** Sizes *)
#[local] Existing Instance list_size_perm.
Lemma hlSize_exact fs : list_size fs < 2 ^ 32 -> hlSize fs = list_size fs.
Proof.
  assert (forall n, 0 <= n -> n + list_size fs < 2 ^ 32 -> fold_left (fun n f => u64 (n + field_Size f)) fs n = n + list_size fs) as Hg; [|intros Hs; apply (Hg 0); [done|lia]].
  induction fs as [|f fs IH]; intros n Hn Hs; [cbn; lia|].
  cbn [fold_left]. change (list_size (f :: fs)) with (H3Headers.field_size f + list_size fs) in *. pose proof (list_size_nonneg fs). assert (field_Size f = H3Headers.field_size f /\ 0 <= H3Headers.field_size f) as [-> ?].
  { unfold field_Size, H3Headers.field_size in *. pose proof (len_nonneg (bytes_of_string f.1)). pose proof (len_nonneg (bytes_of_string f.2)). rewrite u32_small; [lia|]. split; lia. }
  rewrite u64_small by (split; lia). rewrite IH; lia.
Qed.
(** The names that are written: tokens and pseudo headers. *)
Definition lowers (f : string * string) : Prop := lowerHeader f.1 = (map_string lower f.1, true).
Lemma lower_fields_size fs : Forall lowers fs -> list_size (lower_fields fs) = list_size fs.
Proof.
  induction 1 as [|[k v] fs Hf _ IH]; [done|]. unfold lowers in Hf. cbn [lower_fields flat_map fst snd] in *. rewrite Hf. cbn [app]. change (list_size ((map_string lower k, v) :: lower_fields fs) = list_size ((k, v) :: fs)).
  change (list_size (?f :: ?l)) with (H3Headers.field_size f + list_size l). rewrite IH. unfold H3Headers.field_size. cbn [fst snd]. rewrite map_string_bytes. unfold len. by rewrite length_fmap.
Qed.
Lemma enumerate_lowers fields r u host path gzip tr cl : Forall (fun kv : string * list string => token_name kv.1 = true) fields -> Forall lowers (enumerate fields r u host path gzip tr cl).
Proof.
  intros Hk. assert (forall k vs, lowers (k, ""%string) -> Forall lowers ((fun v => (k, v)) <$> vs)) as Hone by (intros k vs Hl; apply Forall_fmap, Forall_true; intros v; exact Hl).
  unfold enumerateHeaders. rewrite !ordered_perm. apply Forall_app. split; unfold pseudo_kvs, regular_kvs; rewrite ?flat_app.
  - destruct (String.eqb (hr_Method r) "CONNECT"); repeat (constructor; [vm_compute; reflexivity|]); constructor.
  - rewrite !Forall_app. split; [|split; [|split; [|split]]].
    + destruct (String.eqb tr ""); [constructor|apply (Hone "trailer"%string [_]); vm_compute; reflexivity].
    + induction Hk as [|[k vs] fields Hk _ IH]; [constructor|]. cbn [flat_map fst] in *. rewrite flat_app. apply Forall_app. split; [|done]. assert (lowers (k, ""%string)) as Hl by exact (lowerHeader_token k Hk). unfold header_kvs. cbn [fst snd].
      destruct (excluded k); [constructor|]. destruct (EqualFold k "user-agent"); [destruct vs as [|v vs]; [constructor|]; destruct (String.eqb v ""); [constructor|]|destruct (EqualFold k "cookie")]; cbn [flat flat_map kv_Key kv_Values]; rewrite app_nil_r; by apply Hone.
    + destruct (H2Transport.shouldSendReqContentLength _ _); [apply (Hone "content-length"%string [_]); vm_compute; reflexivity|constructor].
    + destruct gzip; [apply (Hone "accept-encoding"%string [_]); vm_compute; reflexivity|constructor].
    + destruct (didUA2 _ _); [constructor|apply (Hone "user-agent"%string [_]); vm_compute; reflexivity].
Qed.
Lemma enumerate_perm f1 f2 r u host path gzip tr cl : f1 ≡ₚ f2 -> enumerate f1 r u host path gzip tr cl ≡ₚ enumerate f2 r u host path gzip tr cl.
Proof.
  intros Hf. unfold enumerateHeaders. rewrite !ordered_perm. apply Permutation_app_head. unfold regular_kvs. rewrite !flat_app.
  assert (didUA2 strings_ToLower f1 = didUA2 strings_ToLower f2) as ->. { unfold didUA2. apply eq_true_iff_eq. rewrite !existsb_exists. setoid_rewrite <- list_elem_of_In. by setoid_rewrite Hf. }
  apply Permutation_app_head, Permutation_app_tail. unfold flat. by rewrite Hf.
Qed.

(** *** The announcement of a trailer *)
Abbreviation print_string s := (Forall (fun b => 32 <= b <= 126) (bytes_of_string s)).
Lemma canonical_print k : token_name k = true -> print_string (canonicalHeader k).
Proof.
  intros Hk. destruct (header_caches_transparent k) as (-> & _). apply canonical_key_token in Hk. apply forallb_Forall in Hk. eapply Forall_impl; [exact Hk|]. intros b [Hb _]%token_byte. lia.
Qed.
Lemma trailer_keys_print keys ks : Forall (fun k => token_name k = true) keys -> trailer_keys keys = Ok ks -> Forall (fun k => print_string k) ks.
Proof.
  intros Hk. revert ks. induction Hk as [|k keys Hk _ IH]; intros ks; cbn [trailer_keys]; [by intros [= <-]|]. case_bool_decide; [done|]. destruct (trailer_keys keys) as [ks'|]; [|done]. intros [= <-].
  constructor; [by apply canonical_print|by apply IH].
Qed.
Lemma sort_print ks : Forall (fun k => print_string k) ks -> Forall (fun k => print_string k) (sort_strings ks).
Proof. by rewrite sort_strings_perm. Qed.
Lemma join_print ks : Forall (fun k => print_string k) ks -> print_string (join "," ks).
Proof.
  induction 1 as [|k ks Hk Hks IH]; [constructor|]. destruct ks as [|k2 ks]; [done|]. change (join "," (k :: k2 :: ks)) with (k +:+ "," +:+ join "," (k2 :: ks))%string. rewrite !bytes_of_string_app.
  apply Forall_app. split; [done|]. apply Forall_app. split; [|done]. change (bytes_of_string ",") with [44]. apply Forall_singleton. lia.
Qed.
Lemma trailers_valid keys tr : Forall (fun k => token_name k = true) keys -> commaSeparatedTrailers keys = Ok tr -> ValidHeaderFieldValue tr = true.
Proof.
  intros Hk. unfold commaSeparatedTrailers. destruct (trailer_keys keys) as [ks|] eqn:E; [|done]. pose proof (trailer_keys_print keys ks Hk E) as Hp. rewrite value_bytes. assert (print_string tr -> forallb value_byte (bytes_of_string tr) = true) as Hv.
  { intros Ht. apply forallb_Forall. eapply Forall_impl; [exact Ht|]. intros b Hb. by rewrite value_print. }
  destruct ks as [|k ks]; intros [= <-]; apply Hv; [constructor|]. apply join_print. by apply (sort_print (k :: ks)).
Qed.

(** *** What goes over the wire *)
Section Sent.
Context {E D : Type} `{HpackPair E D} {B : Type} `{PipeBuffer B} {R : Type} `{HpackDecoder R} (any_value : string -> bool) (IsTokenRune : Z -> bool) (t : Transport).
Abbreviation write_request := (encodeAndWriteHeaders strings_ToLower ValidHeaderFieldName ValidHeaderFieldValue ValidHostHeader PunycodeHostPort quote t).
Abbreviation host_is r u host := (host_of ValidHostHeader PunycodeHostPort r u = Ok host).
Lemma write_fields_some e fs : fs <> [] -> (write_fields e fs).2 <> [].
Proof.
  destruct fs as [|f fs]; [done|]. intros _. cbn [write_fields]. pose proof (hpack_field e f) as Hf. destruct (WriteField e f) as [e1 b]. destruct (write_fields e1 fs) as [e2 bs]. cbn in *. by destruct b.
Qed.
Lemma enumerate_some fields r u host path gzip tr cl : lower_fields (enumerate fields r u host path gzip tr cl) <> [].
Proof.
  intros E0. assert (lower_fields (flat (pseudo_kvs r u host path)) = []) as Hn.
  { unfold enumerateHeaders in E0. rewrite lower_fields_app in E0. apply app_eq_nil in E0 as [E0 _]. apply Permutation_nil_r. by rewrite <- (ordered_perm (hr_Header r) PseudoHeaderOderKey), E0. }
  rewrite pseudo_same, (lowered_pseudo strings_ToLower lower_ascii) in Hn. done.
Qed.
(** What [encodeAndWriteHeaders] does with a request that passes the checks. *)
Lemma encode_and_write id (cs : clientStream B) s e r u host path pass1 pass2 hchecked tchecked keys gzip tr cl : gzip = cs_requestedGzip cs -> cl = H2Transport.actualContentLength (hr_hasBody r) (hr_ContentLength r) ->
  wmu s = false -> stream_objs s !! id = Some cs -> cs_abort cs = None -> werr s = None -> stream_id id -> prio_legal (HeaderPriority t) -> 0 < peer_maxFrameSize s <= 2 ^ 24 - 7 ->
  commaSeparatedTrailers keys = Ok tr -> validate tchecked = ""%string ->
  hr_URL r = Some u -> host_is r u host -> path_of r u host = Ok path -> validate hchecked = ""%string -> hlSize (enumerate pass1 r u host path gzip tr cl) <= peerMaxHeaderListSize s ->
  let fs := lower_fields (enumerate pass2 r u host path gzip tr cl) in
  exists ops s', write_request id None false pass1 pass2 hchecked tchecked keys e r s = Done ((write_fields e fs).1, Some None) s' /\ wire s' = wire s ++ ops /\ wmu s' = false /\
    carries (peer_maxFrameSize s) (write_fields e fs).2 ops /\ Reader.wire_seq (op_header <$> ops) /\
    exists p rest, ops = OpHeaders p :: rest /\ HP_StreamID p = id /\ HP_EndStream p = ((cl =? 0) && String.eqb tr "") /\ HP_Priority p = HeaderPriority t /\ HP_PadLength p = 0 /\ Forall is_continuation rest.
Proof.
  intros -> -> Hw Hid Hab He Hsid Hpr Hfr Htr Htc Hu Hh Hp Hv Hsz fs. unfold encodeAndWriteHeaders, with_wmu, bind, lock_wmu. rewrite Hw. unfold get_cs. change (stream_objs (set_wmu true s)) with (stream_objs s). rewrite Hid, Hab. cbn [is_set].
  rewrite Htr. unfold get, encodeHeaders. rewrite Hu, Hh, Hp, Hv, Htc. cbn [String.eqb negb]. change (peerMaxHeaderListSize (set_wmu true s)) with (peerMaxHeaderListSize s). rewrite (proj2 (Z.ltb_ge _ _)) by exact Hsz.
  fold fs. pose proof (write_fields_some e fs (enumerate_some _ _ _ _ _ _ _ _)) as Hb. destruct (write_fields e fs) as [e1 block] eqn:Ef. cbn [fst snd] in *. unfold modify_cs, modify. set (s1 := set_stream_objs _ _).
  set (es := negb _ && negb (negb (String.eqb tr ""))).
  destruct (writeHeaders_block t id es (peer_maxFrameSize s) block s1 Hsid Hpr ltac:(lia) ltac:(lia)) as (ops & Hrun & Hc & Hseq & p & rest & Eo & Ep1 & Ep2 & Ep3).
  { destruct block; [done|]. rewrite len_cons. pose proof (len_nonneg block). lia. } { exact He. }
  change (peer_maxFrameSize (set_wmu true s)) with (peer_maxFrameSize s). rewrite Hrun. unfold unlock_wmu, ret. eexists ops, _. split; [reflexivity|]. split; [done|]. split; [done|]. split; [done|]. split; [done|]. exists p, rest. split; [done|]. split; [done|].
  rewrite Ep2. unfold es. by rewrite !negb_involutive.
Qed.
(** The octets by which the first frame exceeds its fragment: those of its priority. *)
Definition priority_octets : Z := if PriorityParam_IsZero (HeaderPriority t) then 0 else 5.

(** C7: a request that is sent over HTTP/2 is the request the server reads. [encodeAndWriteHeaders] writes one
    header block in one HEADERS frame and CONTINUATION frames, with END_STREAM if there is neither body nor trailer. No
    frame is larger than the peer accepts but the first one, which with a [HeaderPriority] is
    up to five octets too large ([H2Props.header_priority_oversized]). A framer
    that reads the bytes gets these frames, and a decoder that is in step
    with the connection's encoder gets the field list from their fragments and stays in step. The list keeps to
    the size the peer allows and is one a server accepts; it gives the method, the host, the path and
    the scheme, and under each key the values of the header, however its names are spelt, without those that are left out,
    cookies split at semicolons, and the announcement of the trailer. As for HTTP/3 the method, scheme, host
    and path are valid values and no field TE says anything but "trailers". *)
Theorem h2_request_read_back id (cs : clientStream B) s e d r u host path pass1 pass2 hchecked tchecked keys gzip tr cl (fr : Reader.Framer R) rest :
  gzip = cs_requestedGzip cs -> cl = H2Transport.actualContentLength (hr_hasBody r) (hr_ContentLength r) -> cl < 2 ^ 63 ->
  wmu s = false -> stream_objs s !! id = Some cs -> cs_abort cs = None -> werr s = None -> stream_id id -> prio_legal (HeaderPriority t) -> 0 < peer_maxFrameSize s <= 2 ^ 24 - 7 -> in_sync e d ->
  hr_URL r = Some u -> host_is r u host -> path_of r u host = Ok path -> request_ok ValidHeaderFieldValue (as_h3 r u) host path ->
  tchecked ≡ₚ map_to_list (default ∅ (hr_Trailer r)) -> keys ≡ₚ (map_to_list (default ∅ (hr_Trailer r))).*1 -> validate tchecked = ""%string -> commaSeparatedTrailers keys = Ok tr ->
  pass1 ≡ₚ map_to_list (hr_Header r) -> pass2 ≡ₚ map_to_list (hr_Header r) -> hchecked ≡ₚ map_to_list (hr_Header r) -> validate hchecked = ""%string ->
  list_size (enumerate pass1 r u host path gzip tr cl) <= peerMaxHeaderListSize s -> list_size (enumerate pass1 r u host path gzip tr cl) < 2 ^ 32 ->
  exists e' s' ops d' fs h, write_request id None false pass1 pass2 hchecked tchecked keys e r s = Done (e', Some None) s' /\ wire s' = wire s ++ ops /\
    (exists p more, ops = OpHeaders p :: more /\ HP_StreamID p = id /\ HP_EndStream p = ((cl =? 0) && String.eqb tr "") /\
      len (op_payload (OpHeaders p)) <= peer_maxFrameSize s + priority_octets /\ Forall (fun o => len (op_payload o) <= peer_maxFrameSize s) more) /\
    (Reader.r fr = concat (op_bytes <$> ops) ++ rest -> Forall (fun o => len (op_payload o) <= Reader.maxReadSize fr) ops -> Reader.ReadMetaHeaders fr = None -> Reader.fr_ok fr -> Reader.AllowIllegalReads fr = false -> Reader.lastHeaderStream fr = 0 ->
      exists fr', Reader.r fr' = rest /\ Reader.read_all any_value IsTokenRune (S (length ops)) fr = let '(frames, err) := Reader.read_all any_value IsTokenRune 1 fr' in ((op_frame <$> ops) ++ frames, err)) /\
    decode_block d (concat (fragment <$> ops)) = Some (d', fs) /\ in_sync e' d' /\
    parseHeaders strings_ToLower ValidHeaderFieldName ValidHeaderFieldValue (fs, None) true (peerMaxHeaderListSize s) = Ok h /\ request_read strings_ToLower (as_h3 r u) host path gzip tr cl h.
Proof.
  intros Hg Hcl Hcl63 Hw Hid Hab He Hsid Hpr Hfr Hsync Hu Hh Hp Hr Q0 Qk Htc Htr Q1 Q2 Hc Hv Hsz Hsz32. pose proof (enumerate_perm pass1 pass2 r u host path gzip tr cl ltac:(by rewrite Q1, Q2)) as Hperm.
  destruct (encode_and_write id cs s e r u host path pass1 pass2 hchecked tchecked keys gzip tr cl Hg Hcl Hw Hid Hab He Hsid Hpr Hfr Htr Htc Hu Hh Hp Hv ltac:(by rewrite hlSize_exact)) as (ops & s' & Hrun & Hwire & _ & [Hcat Hall] & Hseq & Hfirst).
  set (fs := lower_fields (enumerate pass2 r u host path gzip tr cl)) in *. destruct (hpack_roundtrip e d fs Hsync) as (d' & Hd & Hs').
  assert (list_size fs <= peerMaxHeaderListSize s) as Hfs.
  { unfold fs. rewrite lower_fields_size; [by rewrite <- Hperm|]. apply enumerate_lowers. rewrite Q2, <- Hc. eapply Forall_impl; [by apply validate_ok|]. by intros kv [? _]. }
  assert (ValidHeaderFieldValue tr = true) as Hvt by (apply (trailers_valid keys); [|done]; rewrite Qk, <- Q0; apply Forall_fmap; eapply Forall_impl; [by apply validate_ok|]; by intros kv [? _]).
  destruct (field_list_read pass2 hchecked r u host path gzip tr cl (peerMaxHeaderListSize s) Q2 Hc Hv Hp Hr Hvt Hcl63 Hfs) as (h & Hparse & Hread).
  exists (write_fields e fs).1, s', ops, d', fs, h. split; [done|]. split; [done|]. split.
  { destruct Hfirst as (p & more & -> & E1 & E2 & E3 & E4 & Hmore). exists p, more. split; [done|]. split; [done|]. split; [done|]. apply Forall_cons in Hall as [[_ Hp1] Hall].
    split; [rewrite len_prio_payload by done; unfold priority_octets; rewrite <- E3; cbn in Hp1; destruct (PriorityParam_IsZero _); lia|].
    rewrite Forall_forall in *. intros o Ho. rewrite continuation_payload by auto. destruct (Hall o Ho) as [_ ?]. lia. }
  split; [|by rewrite Hcat].
  intros Hrd Hmax Hm Hok Ha Hl0. apply Reader.read_all_ops; try done; [eapply Forall_impl; [exact Hall|]; by intros o [? _]|]. rewrite Hl0, (Reader.wire_seq_pending (op_header <$> ops)); [done| |done].
  apply Forall_fmap. eapply Forall_impl; [exact Hall|]. intros o [Ho _] Ht. destruct o; try done; destruct Ho as [_ Ho]; cbn in *; unfold stream_id, FrameHeaders in *; lia.
Qed.
End Sent.
End ReadBack.

(** ** An encoder that satisfies the laws, and an example
    Each name and value with its length before it; there is no state. *)
#[export] Instance plain_encoder : HpackEncoder unit := fun e f => (e, plain_string f.1 ++ plain_string f.2).
Lemma plain_fields fs : (write_fields tt fs).2 = plain_encode fs.
Proof.
  induction fs as [|f fs IH]; [done|]. cbn [write_fields]. change (WriteField tt f) with (tt, plain_string f.1 ++ plain_string f.2). cbn beta iota. destruct (write_fields tt fs) as [e bs]. cbn [snd] in *. by rewrite IH.
Qed.
#[export] Instance plain_pair : HpackPair unit unit.
Proof.
  refine {| decode_block d p := match plain_decode (length p) p with (fs, None) => Some (tt, fs) | _ => None end; in_sync _ _ := True |}.
  - intros e f. by unfold WriteField, plain_encoder, plain_string.
  - intros [] [] fs _. exists tt. split; [|done]. by rewrite plain_fields, plain_decode_encode.
Defined.
Definition field_byte (b : byte) : bool := (32 <=? b) && negb (b =? 127) || (b =? 9).
Definition field_value (v : string) : bool := forallb field_byte (bytes_of_string v).
Definition ex_get2 : request :=
  mkRequest2 "" (Some (mkURL "https" "" "example.org" "/x" "/x?q=1")) "" {["Cookie"%string := ["a=1; b=2"]%string; "Connection"%string := ["close"]%string; HeaderOderKey := ["user-agent"; "cookie"]%string]} None false 0.
Definition ex_fields2 : list (string * list string) := Eval vm_compute in map_to_list (hr_Header ex_get2).
#[local] Existing Instance Example.db.
Definition ex_conn2 : ClientConn dataBuffer := set_stream_objs {[ 1 := Example.request ]} (set_streams {[ 1 ]} Example.start).
Lemma ex_get2_ok : request_ok field_value (as_h3 ex_get2 (mkURL "https" "" "example.org" "/x" "/x?q=1")) "example.org" "/x?q=1".
Proof.
  constructor.
  - reflexivity.
  - intros k vs v. cbn [as_h3 r_Header]. rewrite crumbled_lookup. intros (ws & Hk & _)%fmap_Some. cbn [ex_get2 hr_Header] in Hk. revert Hk. intros [[<- _]|[_ [[<- _]|[_ [<- _]%lookup_singleton_Some]]%lookup_insert_Some]]%lookup_insert_Some; discriminate.
Qed.
(** A request with a body of five octets, a trailer, and two spellings of one name. *)
Definition ex_put2 : request :=
  mkRequest2 "PUT" (Some (mkURL "https" "" "example.org" "/x" "/x?q=1")) "" {["Cookie"%string := ["a=1; b=2"]%string; "X-A"%string := ["1"]%string; "x-a"%string := ["2"]%string; "Connection"%string := ["close"]%string; HeaderOderKey := ["user-agent"; "cookie"]%string]}
    (Some {["X-Sum"%string := ["9"]%string]}) true 5.
Definition ex_put_fields : list (string * list string) := Eval vm_compute in map_to_list (hr_Header ex_put2).
Lemma ex_put2_ok : request_ok field_value (as_h3 ex_put2 (mkURL "https" "" "example.org" "/x" "/x?q=1")) "example.org" "/x?q=1".
Proof.
  constructor.
  - reflexivity.
  - intros k vs v. cbn [as_h3 r_Header]. rewrite crumbled_lookup. intros (ws & Hk & _)%fmap_Some. cbn [ex_put2 hr_Header] in Hk. revert Hk.
    intros [[<- _]|[_ [[<- _]|[_ [[<- _]|[_ [[<- _]|[_ [<- _]%lookup_singleton_Some]]%lookup_insert_Some]]%lookup_insert_Some]]%lookup_insert_Some]]%lookup_insert_Some; discriminate.
Qed.
Lemma h2_request_read_back_witness :
  exists e' s' ops h, encodeAndWriteHeaders ascii_lower token_name field_value any_host Ok id Example.transport 1 None false ex_put_fields ex_put_fields ex_put_fields [("X-Sum", ["9"])]%string ["X-Sum"%string] tt ex_put2 ex_conn2 = Done (e', Some None) s' /\ wire s' = wire ex_conn2 ++ ops /\
    Method h = "PUT"%string /\ Path h = "/x?q=1"%string /\ Header_values (Headers h) "Cookie" ≡ₚ ["a=1"; "b=2"]%string /\ Header_values (Headers h) "X-A" ≡ₚ ["1"; "2"]%string /\ Header_values (Headers h) "Connection" ≡ₚ [] /\
    Header_values (Headers h) "Trailer" ≡ₚ ["X-Sum"%string].
Proof.
  destruct (h2_request_read_back ascii_lower token_name field_value any_host Ok id ltac:(reflexivity) ltac:(reflexivity) field_byte ltac:(reflexivity) ltac:(intros b Hb; unfold field_byte; lia)
    (E := unit) (D := unit) (R := bool) (fun _ => true) (fun _ => true) Example.transport 1 Example.request ex_conn2 tt tt ex_put2 (mkURL "https" "" "example.org" "/x" "/x?q=1") "example.org" "/x?q=1"
    ex_put_fields ex_put_fields ex_put_fields [("X-Sum", ["9"])]%string ["X-Sum"%string] true "X-Sum" 5 (Reader.sample_framer []) [] eq_refl eq_refl ltac:(lia) eq_refl eq_refl eq_refl eq_refl ltac:(unfold stream_id; lia) ltac:(split; cbn; word) ltac:(split; [reflexivity|discriminate]) I eq_refl eq_refl eq_refl ex_put2_ok
    ltac:(vm_compute; reflexivity) ltac:(vm_compute; reflexivity) eq_refl eq_refl ltac:(vm_compute; reflexivity) ltac:(vm_compute; reflexivity) ltac:(vm_compute; reflexivity) eq_refl ltac:(vm_compute; discriminate) ltac:(vm_compute; reflexivity)) as (e' & s' & ops & d' & fs & h & Hrun & Hw & _ & _ & _ & _ & _ & R1 & _ & R2 & _ & _ & _ & _ & R3).
  exists e', s', ops, h. split; [exact Hrun|]. split; [exact Hw|]. split; [exact R1|]. split; [exact R2|].
  split; [etransitivity; [apply R3|]; vm_compute; reflexivity|]. split; [etransitivity; [apply R3|]; vm_compute; first [reflexivity|apply perm_swap]|]. split; (etransitivity; [apply R3|]); vm_compute; reflexivity.
Defined.
