(* ===== verification/H2Upload.v ===== *)
(** * The body of an HTTP/2 request ([src/internal/http2/transport.go])

    [writeRequestBody] and the part of [writeRequest] around it, while the other goroutines
    of the connection go on between its steps. *)

From S2P Require Import Prelude.
From S2P Require Import H2Errors.
From S2P Require Import Flow.
From S2P Require Import DataBuffer.
From S2P Require Import Pipe.
From S2P Require Import Frame.
From S2P Require Import FrameWrite.
From S2P Require Import Framer.
From S2P Require Import NetText.
From S2P Require Import Bufio.
From S2P Require Import Transfer.
From S2P Require Import TransferWrite.
From S2P Require Import HeaderSort.
From S2P Require Import H1Request.
From S2P Require Import ConnState.
From S2P Require Import H2Transport.
From S2P Require Import H2Conn.
From S2P Require Import H2Safe.
From S2P Require Import H2System.
From S2P Require Import H2Props.
From S2P Require Import H3Headers.
From S2P Require Import H3Request.
From S2P Require Import H2Request.
Import ConnNotations.

(** The body that is sent. Its error comes with the last bytes if [up_eager], otherwise in a read of its own. *)
Record upload := mkUpload { up_src : list bytes; up_end : error; up_eager : bool }.
Definition up_content (b : upload) : bytes := concat (up_src b).
Definition up_Read (b : upload) (k : Z) : bytes * option error * upload :=
  match src_read k (up_src b) with
  | None => ([], Some (up_end b), b)
  | Some (d, src) => (d, (if up_eager b && bool_decide (src = []) then Some (up_end b) else None), mkUpload src (up_end b) (up_eager b))
  end.

Section Upload.
Context {B : Type} `{PipeBuffer B} (t : Transport) {E : Type} `{HpackEncoder E}.
(** What the other goroutines have done before the [n]-th step of this one that looks at the state they share;
    what the request's context and cancel channel say then. *)
Context (others : nat -> ClientConn B -> ClientConn B) (ctx : nat -> option error) (canceled : nat -> bool) (id : Z).

(** The inner loop: [remain] in frames as flow control allows. [None]: out of fuel. *)
Fixpoint write_chunk (fuel : nat) (sawEOF hasTrailers : bool) (remain : bytes) (sentEnd : bool) (n : nat) : M B (option (option error * bool * nat)) :=
  match fuel with
  | O => ret None
  | S fuel =>
      if negb (0 <? len remain) then ret (Some (None, sentEnd, n)) else
      modify (others n) ;;
      let* (allowed, err) := awaitFlowControl id (len remain) (ctx n) (canceled n) in
      match err with
      | Some e => ret (Some (Some e, sentEnd, S n))
      | None =>
          let data := slice_to remain allowed in
          let remain := slice_from remain allowed in
          let sentEnd := sawEOF && (len remain =? 0) && negb hasTrailers in
          err <- with_wmu (err <- write_frame (OpData id sentEnd data None) ;; if is_set err then ret err else flush) ;;
          if is_set err then ret (Some (err, sentEnd, S n)) else write_chunk fuel sawEOF hasTrailers remain sentEnd (S n)
      end
  end.
(** One read of the body, and a second one of a byte when the declared length has come; the
    rest of the declared length. *)
Definition read_body (hasContentLen : bool) (b : upload) (bufLen remainLen : Z) : bytes * option error * upload * Z :=
  let '(d, err, b) := up_Read b bufLen in
  if negb hasContentLen then (d, err, b, remainLen) else
  let remainLen := remainLen - len d in
  if (remainLen =? 0) && negb (is_set err) then let '(d1, err, b) := up_Read b 1 in (d, err, b, remainLen - len d1)
  else (d, err, b, remainLen).
(** What stops the loop when a read fails. *)
Definition body_stop (err : option error) (n : nat) : M B (option error) :=
  match err with
  | None => ret None
  | Some e =>
      modify (others n) ;;
      bodyClosed <- with_mu (cs <- get_cs id ;; ret (cs_reqBodyClosed cs)) ;;
      ret (if bodyClosed then Some errStopReqBodyWrite else if bool_decide (e = io_EOF) then None else Some e)
  end.
Fixpoint body_loop (fuel : nat) (hasContentLen hasTrailers : bool) (bufLen : Z) (b : upload) (remainLen : Z) (sentEnd : bool) (n : nat) : M B (option (option error * bool * nat)) :=
  match fuel with
  | O => ret None
  | S fuel =>
      let '(d, err, b, remainLen) := read_body hasContentLen b bufLen remainLen in
      if hasContentLen && (remainLen <? 0) then ret (Some (Some errReqBodyTooLong, sentEnd, n)) else
      stop <- body_stop err n ;;
      match stop with
      | Some e => ret (Some (Some e, sentEnd, S n))
      | None =>
          let sawEOF := is_set err in
          r <- write_chunk (S (length d)) sawEOF hasTrailers d sentEnd (S n) ;;
          match r with
          | None => ret None
          | Some (Some e, sentEnd, n) => ret (Some (Some e, sentEnd, n))
          | Some (None, sentEnd, n) => if sawEOF then ret (Some (None, sentEnd, n)) else body_loop fuel hasContentLen hasTrailers bufLen b remainLen sentEnd n
          end
      end
  end.
(** [trailer]: nil, or the trailer in the orders of the loops of [encodeTrailers]. *)
Definition trailer_block (trailer : option (list (string * list string) * list (string * list string))) (e : E) (max : Z) : E * result error bytes :=
  match trailer with
  | Some (kv :: pass1, pass2) => encodeTrailers (kv :: pass1) pass2 e max
  | _ => (e, Ok [])
  end.
Definition end_body (trailer : option (list (string * list string) * list (string * list string))) (maxFrameSize : Z) (e : E) (n : nat) : M B (E * option (option error)) :=
  modify (others n) ;;
  err <- with_mu (cs <- get_cs id ;; ret (cs_abort cs)) ;;
  if is_set err then ret (e, Some err) else
  with_wmu (
    s <- get ;;
    match trailer_block trailer e (peerMaxHeaderListSize s) with
    | (e, Err x) => ret (e, Some (Some x))
    | (e, Ok trls) =>
        err <- (if 0 <? len trls then writeHeaders t (S (length trls)) id true maxFrameSize trls
                else err <- write_frame (OpData id true [] None) ;; ret (Some err)) ;;
        ferr <- flush ;;
        ret (e, match err with Some err => Some (if is_set ferr && negb (is_set err) then ferr else err) | None => None end)
    end).
(** The length of the buffer: one from its pool, if there is one of sufficient length, or a new one. *)
Definition buf_len (pools : Z -> option Z) (scratchLen : Z) : Z :=
  match pools (bufPoolIndex scratchLen) with Some l => if scratchLen <=? l then l else scratchLen | None => scratchLen end.
Definition writeRequestBody (pools : Z -> option Z) (b : upload) (reqBodyContentLength : Z) (trailer : option (list (string * list string) * list (string * list string))) (e : E) : M B (E * option (option error)) :=
  modify (others 0) ;;
  maxFrameSize <- with_mu (s <- get ;; ret (peer_maxFrameSize s)) ;;
  let scratchLen := frameScratchBufferLen maxFrameSize reqBodyContentLength in
  r <- body_loop (S (length (up_content b))) (negb (reqBodyContentLength =? -1)) (is_set trailer) (buf_len pools scratchLen) b reqBodyContentLength false 1 ;;
  match r with
  | None => ret (e, None)
  | Some (Some err, _, _) => ret (e, Some (Some err))
  | Some (None, true, _) => ret (e, Some None)
  | Some (None, false, n) => end_body trailer maxFrameSize e n
  end.
(** [writeRequest] after the header and the wait for a 100 response: the error it returns, if it does not go on to wait for the response. *)
Definition writeRequest_body (pools : Z -> option Z) (b : upload) (trailer : option (list (string * list string) * list (string * list string))) (e : E) : M B (E * option (option error)) :=
  cs <- get_cs id ;;
  if cs_reqBodyContentLength cs =? 0 then modify_cs id (set_cs_sentEndStream true) ;; ret (e, Some None) else
  let* (e, err) := writeRequestBody pools b (cs_reqBodyContentLength cs) trailer e in
  match err with
  | None => ret (e, None)
  | Some (Some x) => ret (e, Some (if bool_decide (x = errStopReqBodyWrite) then None else Some x))
  | Some None => modify_cs id (set_cs_sentEndStream true) ;; ret (e, Some None)
  end.
End Upload.

(** ** What is sent *)
Section Sent.
Context {B : Type} `{PipeBuffer B} (t : Transport) {E : Type} `{HpackEncoder E}
  (others : nat -> ClientConn B -> ClientConn B) (ctx : nat -> option error) (canceled : nat -> bool) (id : Z) (stream_ok : stream_id id).
Implicit Types s : ClientConn B.
(** Between the steps: the locks are free and the stream exists; the windows and the frame size are in range. *)
Definition between s : Prop :=
  mu s = false /\ wmu s = false /\ is_i32 (flow s) /\ 0 < peer_maxFrameSize s < 2 ^ 31 /\ exists cs, stream_objs s !! id = Some cs /\ is_i32 (cs_flow cs).
(** The frames of the stream that carry its body and trailer: no other goroutine writes one. *)
Definition of_stream (o : wire_op) : bool := match o with OpData i _ _ _ | OpContinuation i _ _ => i =? id | OpHeaders p => HP_StreamID p =? id | _ => false end.
Definition sent s : list wire_op := filter of_stream (wire s).
Context (others_ok : forall n s, between s -> between (others n s) /\ sent (others n s) = sent s).
(** The octets of DATA frames; those that do not end the stream. *)
Definition bodies (ops : list wire_op) : bytes := concat ((fun o => match o with OpData _ _ d _ => d | _ => [] end) <$> ops).
Definition goes_on (o : wire_op) : Prop := exists d, o = OpData id false d None.
Lemma bodies_app l k : bodies (l ++ k) = bodies l ++ bodies k.
Proof. unfold bodies. by rewrite fmap_app, concat_app. Qed.

Lemma between_flow s k cs : between s -> stream_objs s !! id = Some cs -> 0 <= k <= cs_flow cs -> k <= flow s ->
  forall s', mu s' = false -> flow s' = flow s - k -> stream_objs s' = <[id := set_cs_flow (cs_flow cs - k) cs]> (stream_objs s) -> wmu s' = wmu s -> peer_maxFrameSize s' = peer_maxFrameSize s -> between s'.
Proof.
  intros (Hm & Hw & Hf & Hp & cs0 & Hc & Hi) Hcs Hk Hkf s' E1 E2 E3 E4 E5. assert (cs0 = cs) as -> by congruence. unfold between. rewrite E1, E2, E3, E4, E5. split; [done|]. split; [done|]. unfold is_i32 in *. split; [lia|]. split; [done|].
  eexists. split; [apply lookup_insert_eq|]. cbn. lia.
Qed.
Lemma await_keeps n c x s : match awaitFlowControl id n c x s with Done _ s' | Parked s' => wire s' = wire s /\ wmu s' = wmu s /\ peer_maxFrameSize s' = peer_maxFrameSize s | _ => True end.
Proof.
  unfold awaitFlowControl, bind, lock_mu, get, get_cs, unlock_mu, ret, lift, modify_cs, modify. destruct (mu s); [done|]. destruct (stream_objs _ !! id) as [cs|]; [|done]. destruct (closed _); [done|]. destruct (cs_reqBodyClosed cs); [done|].
  destruct (is_set (cs_abort cs)); [done|]. destruct (is_set c); [done|]. destruct x; [done|]. destruct (0 <? _); [|done]. destruct (Outflow.take _ _ _) as [[m cn]|]; done.
Qed.
(** One wait for flow control. *)
Lemma await_ok n s (k : nat) (Q : Z * option error -> ClientConn B -> Prop) : between s -> 0 < n < 2 ^ 31 ->
  (forall j e, Q (j, Some e) s) -> (forall a s', 1 <= a <= n -> between s' -> sent s' = sent s -> Q (a, None) s') ->
  wp (fun s' => sent s' = sent s) (awaitFlowControl id n (ctx k) (canceled k)) Q s.
Proof.
  intros Hb Hn He Hk. pose proof Hb as (Hm & Hw & Hf & Hp & cs & Hc & Hi). pose proof (awaitFlowControl_bounds id n (ctx k) (canceled k) s cs Hm Hc Hi Hf Hn ltac:(lia)) as Hbd. pose proof (await_keeps n (ctx k) (canceled k) s) as Hkp. unfold wp.
  destruct (awaitFlowControl _ _ _ _ s) as [[a [e|]] s'| | |s']; try done; [subst s'; apply He| |unfold sent; by rewrite (proj1 Hkp)].
  assert (sent s' = sent s) as Hs by (unfold sent; by rewrite (proj1 Hkp)).
  destruct Hbd as (H1 & H2 & H3 & H4 & H5 & H6 & H7), Hkp as (K1 & K2 & K3). apply Hk; [lia| |done]. eapply (between_flow s a cs); try done. lia.
Qed.
Lemma wp_park (R R' : ClientConn B -> Prop) {A} (m : M B A) Q s : (forall s', R s' -> R' s') -> wp R m Q s -> wp R' m Q s.
Proof. intros HR. unfold wp. destruct (m s); auto. Qed.
Lemma wp_frame R o (Q : option error -> ClientConn B -> Prop) s :
  (forall e, Q (Some e) s) -> (werr s = None -> Q None (set_wire (wire s ++ [o]) s)) -> wp R (write_frame o) Q s.
Proof. intros He Hn. unfold wp, write_frame. destruct (werr s); [apply He|]. destruct (snd _); [apply He|by apply Hn]. Qed.
(** A frame written with the lock. *)
Lemma write_ok R o s (Q : option error -> ClientConn B -> Prop) : of_stream o = true -> between s ->
  (forall e s', between s' -> sent s' = sent s -> Q (Some e) s') -> (forall s', between s' -> sent s' = sent s ++ [o] -> Q None s') ->
  wp R (with_wmu (err <- write_frame o ;; if is_set err then ret err else flush)) Q s.
Proof.
  intros Ho Hb He Hk. pose proof Hb as (Hm & Hw & Hf & Hp & Hc). unfold wp, with_wmu, bind, lock_wmu, write_frame. rewrite Hw. change (werr (set_wmu true s)) with (werr s). destruct (werr s) as [e|] eqn:Ew; [by apply He|].
  destruct (snd _) as [e|]; cbn [is_set]; [by apply He|]. unfold flush. change (werr (set_wire _ (set_wmu true s))) with (werr s). rewrite Ew. apply Hk; [done|]. unfold sent. cbn. by rewrite filter_app, filter_cons_True, filter_nil by by rewrite Ho.
Qed.
(** The inner loop. It ends, or waits for a window; what it wrote is a beginning of [remain], all of it if there is no
    error; only the last frame can end the stream, after the last bytes. *)
Definition wrote (w : list wire_op) (p : bytes) s' : Prop := exists ops rest, sent s' = w ++ ops /\ Forall goes_on ops /\ p = bodies ops ++ rest.
Definition chunk_post (w : list wire_op) (last : bool) (remain : bytes) (sentEnd : bool) (r : option (option error * bool * nat)) s' : Prop :=
  between s' /\ exists err sentEnd' n, r = Some (err, sentEnd', n) /\
    if is_set err then wrote w remain s'
    else exists ops, sent s' = w ++ ops /\ remain = bodies ops /\
      if bool_decide (remain = []) then ops = [] /\ sentEnd' = sentEnd else sentEnd' = last /\ exists ops0 d, ops = ops0 ++ [OpData id last d None] /\ Forall goes_on ops0.
Lemma wrote_app w o d p s' : o = OpData id false d None -> wrote (w ++ [o]) p s' -> wrote w (d ++ p) s'.
Proof.
  intros -> (ops & rest & Ew & Hf & ->). exists (OpData id false d None :: ops), rest. split; [by rewrite Ew, <- app_assoc|]. split; [constructor; [by exists d|done]|]. unfold bodies. cbn. by rewrite app_assoc.
Qed.
Lemma chunk_ok fuel : forall sawEOF hasTrailers remain sentEnd n s, between s -> (length remain < fuel)%nat -> len remain < 2 ^ 31 ->
  wp (wrote (sent s) remain) (write_chunk others ctx canceled id fuel sawEOF hasTrailers remain sentEnd n) (chunk_post (sent s) (sawEOF && negb hasTrailers) remain sentEnd) s.
Proof.
  induction fuel as [|fuel IH]; intros sawEOF hasTrailers remain sentEnd n s Hb Hf Hl; [lia|]. cbn [write_chunk]. destruct (Z.ltb_spec 0 (len remain)) as [Hpos|Hz]; cbn [negb].
  - apply wp_bind, wp_modify. destruct (others_ok n s Hb) as [Hb1 Hw1]. apply wp_bind. rewrite <- Hw1. generalize (others n s) Hb1. clear s Hb Hw1 Hb1. intros s Hb.
    apply (wp_park (fun s' => sent s' = sent s)); [intros s' Hs'; exists [], remain; by rewrite Hs', app_nil_r|]. apply await_ok; [done|lia| |].
    + intros j e. apply wp_ret. split; [done|]. do 3 eexists. split; [reflexivity|]. exists [], remain. by rewrite app_nil_r.
    + intros a s1 Ha Hb1 Hw1. rewrite <- Hw1. clear Hw1. clear s Hb. rename s1 into s, Hb1 into Hb. set (data := slice_to remain a). set (rest := slice_from remain a).
      assert (remain = data ++ rest) as Hr by (symmetry; apply slice_to_from). assert (len data = a) as Hd by (unfold data; rewrite len_slice_to by lia; done). clearbody data rest. subst remain. rewrite len_app in *. rewrite length_app in Hf.
      assert (data <> []) as Hne by (intros ->; rewrite len_nil in Hd; lia). assert (length rest < fuel)%nat as Hf' by (destruct data; [done|]; cbn in Hf; lia). apply wp_bind.
      eapply wp_park; [|apply write_ok; [cbn; lia|exact Hb| |]]; [intros s' Hs'; exact Hs'| |].
      * intros e s1 Hb1 Hw1. cbn [is_set]. apply wp_ret. split; [done|]. do 3 eexists. split; [reflexivity|]. exists [], (data ++ rest). by rewrite Hw1, app_nil_r.
      * intros s1 Hb1 Hw1. cbn [is_set]. destruct (Z.eqb_spec (len rest) 0) as [Hz|Hz].
        -- assert (rest = []) as -> by by apply len_zero. rewrite app_nil_r in *. destruct fuel as [|fuel]; [lia|]. cbn [write_chunk]. apply wp_ret. split; [done|]. do 3 eexists. split; [reflexivity|]. cbn [is_set]. eexists. split; [exact Hw1|]. split; [by unfold bodies; cbn; rewrite app_nil_r|].
           rewrite bool_decide_false by done. rewrite andb_true_r. split; [done|]. by exists [], data.
        -- assert (rest <> []) as Hrne by (by intros ->). rewrite andb_false_r. cbn [andb]. specialize (IH sawEOF hasTrailers rest false (S n) s1 Hb1 Hf' ltac:(lia)). rewrite Hw1 in IH.
           eapply wp_park; [|eapply wp_mono; [|exact IH]].
           ++ intros s' Hs'. rewrite andb_false_r in Hs'. by eapply wrote_app.
           ++ intros r s' (Hb2 & err & se & n' & -> & Hc). split; [done|]. exists err, se, n'. split; [done|]. destruct (is_set err); [rewrite andb_false_r in Hc; by eapply wrote_app|].
              destruct Hc as (ops & Eo & Er & Hc). exists (OpData id false data None :: ops). split; [rewrite Eo, andb_false_r; cbn; by rewrite <- app_assoc|]. split; [by rewrite Er|]. rewrite bool_decide_false in Hc by done. rewrite bool_decide_false by (by destruct data). destruct Hc as (-> & ops0 & d & -> & Hg).
              split; [done|]. exists (OpData id false data None :: ops0), d. split; [done|]. constructor; [by exists data|done].
  - apply wp_ret. assert (remain = []) as -> by (apply len_zero; pose proof (len_nonneg remain); lia). split; [done|]. do 3 eexists. split; [reflexivity|]. exists []. rewrite app_nil_r. split; [done|]. split; [done|]. by rewrite bool_decide_true.
Qed.
(** A read of the body. *)
Definition up_ok (b : upload) : Prop := Forall (fun d => d <> []) (up_src b).
Lemma up_Read_spec k b : 0 < k -> up_ok b ->
  let '(d, err, b') := up_Read b k in up_ok b' /\ up_end b' = up_end b /\ len d <= k /\ d ++ up_content b' = up_content b /\
  match err with None => d <> [] | Some e => e = up_end b /\ up_content b' = [] end.
Proof.
  intros Hk Hb. unfold up_Read, up_ok, up_content in *. pose proof (src_read_spec k (up_src b) Hk Hb) as Hs. destruct (src_read k (up_src b)) as [[d src]|]; [|rewrite Hs; split; [by apply Forall_nil|]; split; [done|]; split; [rewrite len_nil; lia|by rewrite ?Hs]].
  destruct Hs as (Hd & Hl & Hc & Hs). cbn. split; [done|]. split; [done|]. split; [done|]. split; [done|]. destruct (up_eager b); cbn; [|done]. destruct (bool_decide_reflect (src = [])) as [->|_]; [done|done].
Qed.
(** What is read at a time: the error, if any, is the body's at its end, unless there is more of the body than declared. *)
Lemma read_body_spec hasCL k b remainLen : 0 < k -> up_ok b ->
  let '(d, err, b', remainLen') := read_body hasCL b k remainLen in up_ok b' /\ up_end b' = up_end b /\ len d <= k /\
  if hasCL && (remainLen' <? 0) then remainLen < len (up_content b)
  else d ++ up_content b' = up_content b /\ (hasCL = true -> remainLen' = remainLen - len d /\ 0 <= remainLen') /\ match err with None => d <> [] | Some e => e = up_end b /\ up_content b' = [] end.
Proof.
  intros Hk Hb. unfold read_body. pose proof (up_Read_spec k b Hk Hb) as Hr. destruct (up_Read b k) as [[d err] b1]. destruct Hr as (Hb1 & He1 & Hl & Hc & Herr). destruct hasCL; cbn [negb andb]; [|done]. rewrite <- Hc, len_app.
  pose proof (len_nonneg (up_content b1)) as Hn. destruct (Z.eqb_spec (remainLen - len d) 0) as [Hz|Hz], err as [e|]; cbn [is_set negb andb].
  1, 3, 4: split; [done|]; split; [done|]; split; [done|]; destruct (Z.ltb_spec (remainLen - len d) 0); [lia|]; done.
  pose proof (up_Read_spec 1 b1 ltac:(lia) Hb1) as Hr. destruct (up_Read b1 1) as [[d1 err] b2]. destruct Hr as (Hb2 & He2 & Hl1 & Hc1 & Herr1). split; [done|]. split; [congruence|]. split; [done|].
  pose proof (len_nonneg (up_content b2)). pose proof (len_nonneg d1) as Hd1. rewrite <- Hc1, len_app in *. destruct (Z.ltb_spec (remainLen - len d - len d1) 0) as [Hneg|Hpos]; [lia|]. assert (d1 = []) as -> by (apply len_zero; lia).
  destruct err as [e|]; [|done]. destruct Herr1 as [-> Ee]. rewrite Ee in *. cbn [app len] in *. split; [done|]. rewrite len_nil. split; [intros _; lia|]. by rewrite He1.
Qed.
(** The loop over the body. It ends or waits for a window, and what it wrote is a beginning of the body, no more
    than declared; when it reports no error that is the whole body, which its last frame ends or not. *)
Definition wrote_upto (hasCL : bool) (limit : Z) (w : list wire_op) (p : bytes) s' : Prop :=
  exists ops rest, sent s' = w ++ ops /\ Forall goes_on ops /\ p = bodies ops ++ rest /\ (hasCL = true -> len (bodies ops) <= limit).
Definition body_post (hasCL hasTrailers : bool) (limit : Z) (w : list wire_op) (b : upload) (r : option (option error * bool * nat)) s' : Prop :=
  between s' /\ exists err sentEnd n, r = Some (err, sentEnd, n) /\
    if is_set err then wrote_upto hasCL limit w (up_content b) s'
    else up_end b = io_EOF /\ (hasCL = true -> len (up_content b) <= limit) /\ exists ops, sent s' = w ++ ops /\ up_content b = bodies ops /\
      if sentEnd then hasTrailers = false /\ exists ops0 d, ops = ops0 ++ [OpData id true d None] /\ Forall goes_on ops0 else Forall goes_on ops.
Lemma wrote_upto_nil hasCL limit p s : (hasCL = true -> 0 <= limit) -> wrote_upto hasCL limit (sent s) p s.
Proof. intros Hl. exists [], p. rewrite app_nil_r. split; [done|]. split; [done|]. by split. Qed.
Lemma wrote_upto_1 hasCL limit w d rest s : (hasCL = true -> len d <= limit) -> wrote w d s -> wrote_upto hasCL limit w (d ++ rest) s.
Proof.
  intros Hl (ops & r & Ew & Hg & ->). exists ops, (r ++ rest). rewrite len_app in Hl. pose proof (len_nonneg r). split; [done|]. split; [done|]. split; [by rewrite app_assoc|]. intros Hc. specialize (Hl Hc). lia.
Qed.
Lemma wrote_upto_app hasCL limit limit' w ops p s : (hasCL = true -> limit' = limit - len (bodies ops)) -> Forall goes_on ops -> wrote_upto hasCL limit' (w ++ ops) p s -> wrote_upto hasCL limit w (bodies ops ++ p) s.
Proof.
  intros Hll Hg (ops' & rest & Ew & Hg' & -> & Hl). exists (ops ++ ops'), rest. split; [by rewrite Ew, app_assoc|]. split; [by apply Forall_app|]. rewrite bodies_app. split; [by rewrite app_assoc|]. intros Ht. specialize (Hl Ht). specialize (Hll Ht). rewrite len_app. lia.
Qed.
Lemma last_goes_on ops0 d : Forall goes_on ops0 -> Forall goes_on (ops0 ++ [OpData id false d None]).
Proof. intros Hg. apply Forall_app. split; [done|]. constructor; [by exists d|done]. Qed.
Lemma body_stop_ok R err n s : between s -> wp R (body_stop others id err n) (fun x s' => between s' /\ sent s' = sent s /\ (x = None -> if err is Some e then e = io_EOF else True)) s.
Proof.
  intros Hs. destruct err as [e|]; [|by apply wp_ret]. cbn [body_stop]. apply wp_bind, wp_modify. destruct (others_ok n s Hs) as [Hb He]. rewrite <- He. generalize (others n s) Hb. clear s Hs Hb He. intros s Hs.
  pose proof Hs as (Hm & Hw & Hf & Hp & cs & Hc & Hi). apply wp_bind, wp_with_mu; [done|]. apply wp_bind, (wp_get_cs _ _ cs); [done|]. apply wp_ret, wp_ret. split; [split; [done|]; by eauto 10|]. split; [done|]. destruct (cs_reqBodyClosed cs); [done|]. by destruct (bool_decide_reflect (e = io_EOF)).
Qed.
Lemma body_loop_ok fuel : forall hasCL hasTrailers k b limit n s, between s -> up_ok b -> (length (up_content b) < fuel)%nat -> 0 < k < 2 ^ 31 -> (hasCL = true -> 0 <= limit) ->
  wp (wrote_upto hasCL limit (sent s) (up_content b)) (body_loop others ctx canceled id fuel hasCL hasTrailers k b limit false n) (body_post hasCL hasTrailers limit (sent s) b) s.
Proof.
  induction fuel as [|fuel IH]; intros hasCL hasTrailers k b limit n s Hs Hb Hf Hk Hl; [lia|]. cbn [body_loop]. pose proof (read_body_spec hasCL k b limit ltac:(lia) Hb) as Hr. destruct (read_body hasCL b k limit) as [[[d err] b'] limit']. destruct Hr as (Hb' & He & Hd & Hr).
  destruct (hasCL && (limit' <? 0)); [apply wp_ret; split; [done|]; do 3 eexists; split; [reflexivity|]; by apply wrote_upto_nil|]. destruct Hr as (Hc & Hlim & Herr).
  apply wp_bind. eapply wp_mono; [|by apply body_stop_ok]. intros x s1 (Hs1 & Hw1 & Hx). rewrite <- Hw1. clear s Hs Hw1. rename s1 into s, Hs1 into Hs.
  destruct x as [e|]; [apply wp_ret; split; [done|]; do 3 eexists; split; [reflexivity|]; by apply wrote_upto_nil|]. specialize (Hx eq_refl). apply wp_bind.
  assert (hasCL = true -> len d <= limit) as Hdl by (intros Ht; specialize (Hlim Ht); lia). rewrite <- Hc.
  eapply wp_park; [intros s' Hs'; eapply wrote_upto_1; [exact Hdl|exact Hs']|]. eapply wp_mono; [|apply chunk_ok; [done|lia|lia]].
  intros r s1 Hp. destruct Hp as (Hs1 & err' & se & n' & -> & Hp). destruct err' as [e'|]; [apply wp_ret; split; [done|]; do 3 eexists; split; [reflexivity|]; rewrite <- Hc; by apply wrote_upto_1|].
  destruct Hp as (ops & Ew & -> & Hp). destruct err as [e|]; cbn [is_set andb] in *.
  - destruct Herr as [-> Eb0]. apply wp_ret. split; [done|]. do 3 eexists. split; [reflexivity|]. cbn [is_set]. split; [congruence|]. rewrite <- Hc, Eb0, app_nil_r. split; [done|]. exists ops. split; [done|]. split; [done|].
    destruct (bool_decide_reflect (bodies ops = [])) as [_|_]; [by destruct Hp as [-> ->]|]. destruct Hp as (-> & ops0 & x & -> & Hg). destruct hasTrailers; cbn [negb]; [by apply last_goes_on|]. split; [done|]. by exists ops0, x.
  - rewrite bool_decide_false in Hp by done. destruct Hp as (-> & ops0 & x & Eo & Hg). assert (Forall goes_on ops) as Hgo by (rewrite Eo; by apply last_goes_on). assert (hasCL = true -> limit' = limit - len (bodies ops)) as Hlim' by (intros Ht; by apply Hlim).
    assert (length (up_content b') < fuel)%nat as Hf' by (rewrite <- Hc, length_app in Hf; destruct (bodies ops); [done|cbn in Hf; lia]). specialize (IH hasCL hasTrailers k b' limit' n' s1 Hs1 Hb' Hf' Hk ltac:(intros Ht; by apply Hlim)). rewrite Ew in IH.
    eapply wp_park; [|eapply wp_mono; [|exact IH]]; [intros s' Hs'; by eapply wrote_upto_app|]. intros r s' (Hs2 & err & se & n2 & -> & Hp). split; [done|]. exists err, se, n2. split; [done|]. rewrite <- Hc. destruct (is_set err); [by eapply wrote_upto_app|].
    destruct Hp as (He2 & Hl2 & ops' & Ew' & Eb & Hp). split; [congruence|]. split; [intros Ht; rewrite len_app; specialize (Hl2 Ht); specialize (Hlim' Ht); lia|]. exists (ops ++ ops'). split; [by rewrite Ew', app_assoc|]. split; [by rewrite bodies_app, Eb|].
    destruct se; [|by apply Forall_app]. destruct Hp as (-> & ops1 & y & -> & Hg1). split; [done|]. exists (ops ++ ops1), y. split; [by rewrite app_assoc|by apply Forall_app].
Qed.
(** The frames after the body. *)
Definition block_frame (o : wire_op) : Prop := match o with OpHeaders p => HP_StreamID p = id | OpContinuation i _ _ => i = id | _ => False end.
Lemma block_frames ops : Forall block_frame ops -> filter of_stream ops = ops /\ bodies ops = [].
Proof.
  induction 1 as [|o ops Ho _ [IH1 IH2]]; [done|]. rewrite filter_cons_True by (by destruct o; try done; cbn in *; rewrite Ho, Z.eqb_refl). rewrite IH1. split; [done|]. change (o :: ops) with ([o] ++ ops). rewrite bodies_app, IH2. by destruct o.
Qed.
Lemma writeHeaders_loop_of R fuel : forall es max hdrs first s, wp R (writeHeaders_loop t fuel id es max hdrs first) (fun _ s' => exists ops, wire s' = wire s ++ ops /\ Forall block_frame ops) s.
Proof.
  induction fuel as [|fuel IH]; intros es max hdrs first s; cbn [writeHeaders_loop]; [apply wp_ret; exists []; by rewrite app_nil_r|]. apply wp_bind, wp_get. destruct (_ || _); [apply wp_ret; exists []; by rewrite app_nil_r|].
  set (chunk := if max <? len hdrs then _ else _). set (rest := slice_from hdrs (len chunk)). apply wp_bind. destruct first; apply wp_write_frame; intros; (eapply wp_mono; [|apply IH]); cbn; intros _ s' (ops & -> & Ho); [by exists ops| |by exists ops|]; (eexists; rewrite <- app_assoc; split; [reflexivity|]); by constructor.
Qed.
Lemma writeHeaders_of R fuel es max hdrs s : wp R (writeHeaders t fuel id es max hdrs) (fun _ s' => exists ops, wire s' = wire s ++ ops /\ Forall block_frame ops) s.
Proof. unfold writeHeaders. apply wp_bind. eapply wp_mono; [|apply writeHeaders_loop_of]. intros a s' Hw. cbn beta. by destruct a. Qed.
(** An encoded trailer that leaves room for a priority in a frame of 2^24 - 1 octets. *)
Definition trailer_fits (trailer : option (list (string * list string) * list (string * list string))) (e : E) : Prop :=
  forall limit e' block, trailer_block trailer e limit = (e', Ok block) -> len block <= 2 ^ 24 - 7.
Definition ended (trailer : option (list (string * list string) * list (string * list string))) (e e' : E) (ops : list wire_op) : Prop :=
  exists max block, trailer_block trailer e max = (e', Ok block) /\
    if bool_decide (block = []) then exists d, ops = [OpData id true d None]
    else exists p rest, ops = OpHeaders p :: rest /\ HP_StreamID p = id /\ HP_EndStream p = true /\ concat (fragment <$> ops) = block.
Definition end_post (trailer : option (list (string * list string) * list (string * list string))) (w : list wire_op) (e : E) (r : E * option (option error)) s' : Prop :=
  exists err, r.2 = Some err /\ if is_set err then sent s' = w else exists ops, sent s' = w ++ ops /\ bodies ops = [] /\ ended trailer e r.1 ops.
Lemma end_body_ok R trailer max e n s : prio_legal (HeaderPriority t) -> between s -> 0 < max -> trailer_fits trailer e -> wp R (end_body t others id trailer max e n) (end_post trailer (sent s) e) s.
Proof.
  intros Hpr Hs Hmax Hfit. unfold end_body. apply wp_bind, wp_modify. destruct (others_ok n s Hs) as [Hb He]. rewrite <- He. generalize (others n s) Hb. clear s Hs Hb He. intros s Hs. pose proof Hs as (Hm & Hw & Hf & Hp & cs & Hc & Hi).
  apply wp_bind, wp_with_mu; [done|]. apply wp_bind, (wp_get_cs _ _ cs); [done|]. apply wp_ret. destruct (cs_abort cs) as [x|]; cbn [is_set]; [apply wp_ret; by exists (Some x)|]. apply wp_with_wmu; [done|]. apply wp_bind, wp_get.
  set (s1 := set_wmu true _). destruct (trailer_block trailer e _) as [e' [trls|x]] eqn:Et; [|apply wp_ret; by exists (Some x)]. apply wp_bind. destruct (Z.ltb_spec 0 (len trls)) as [Hpos|Hz].
  - unfold wp, bind. pose proof (writeHeaders_of (fun _ => False) (S (length trls)) true max trls s1) as Hof. unfold wp in Hof. change (werr s1) with (werr s) in *. destruct (werr s) as [x|] eqn:Ex.
    + unfold writeHeaders, bind. cbn [writeHeaders_loop]. unfold bind, get. change (werr s1) with (werr s). rewrite Ex, orb_true_r. cbn. rewrite Ex. by exists (Some x).
    + destruct (writeHeaders_block t id true max trls s1 stream_ok Hpr Hmax ltac:(specialize (Hfit _ _ _ Et); lia) Hpos Ex) as (ops & Hrun & [Hcat _] & _ & p & rest & Eo & Ei & Ees & _). rewrite Hrun in Hof |- *. destruct Hof as (ops' & Ew & Hops). apply app_inv_head in Ew. subst ops'. cbn. rewrite Ex. destruct (block_frames ops Hops) as [Hfil Hbod]. exists None. split; [done|].
      exists ops. split; [unfold sent; cbn; by rewrite filter_app, Hfil|]. split; [done|]. exists (peerMaxHeaderListSize s1), trls. split; [exact Et|]. rewrite bool_decide_false by (by intros ->). by exists p, rest.
  - assert (trls = []) as -> by (apply len_zero; pose proof (len_nonneg trls); lia). apply wp_bind, wp_frame; [intros x; apply wp_ret, wp_bind, wp_flush, wp_ret; exists (Some x); by rewrite andb_false_r|].
    change (werr s1) with (werr s). intros Ex. apply wp_ret, wp_bind, wp_flush, wp_ret. change (werr _) with (werr s). rewrite Ex. exists None. split; [done|]. exists [OpData id true [] None]. split.
    { unfold sent. cbn. rewrite filter_app, filter_cons_True, filter_nil; [done|]. cbn. by rewrite Z.eqb_refl. }
    split; [done|]. exists (peerMaxHeaderListSize s1), []. split; [done|]. rewrite bool_decide_true by done. by exists [].
Qed.
Definition buffers_ok (pools : Z -> option Z) : Prop := forall i l, pools i = Some l -> l <= 524288.
Lemma buf_len_ok pools max cl : buffers_ok pools -> 0 < max < 2 ^ 31 -> -1 <= cl < 2 ^ 63 -> 0 < buf_len pools (frameScratchBufferLen max cl) < 2 ^ 31.
Proof.
  intros Hp Hm Hc. destruct (scratch_buffer_fits max cl ltac:(unfold is_u32; lia) ltac:(lia) ltac:(unfold is_i64; lia)) as (Hl & _). unfold buf_len. destruct (pools _) as [l|] eqn:El; [|lia]. apply Hp in El. destruct (Z.leb_spec (frameScratchBufferLen max cl) l); lia.
Qed.
(** What [writeRequestBody] leaves. *)
Definition upload_post (b : upload) (cl : Z) (trailer : option (list (string * list string) * list (string * list string))) (w : list wire_op) (e : E) (r : E * option (option error)) s' : Prop :=
  exists err, r.2 = Some err /\
    if is_set err then wrote_upto (negb (cl =? -1)) cl w (up_content b) s'
    else up_end b = io_EOF /\ (cl <> -1 -> len (up_content b) <= cl) /\ exists ops last, sent s' = w ++ ops ++ last /\ up_content b = bodies (ops ++ last) /\ Forall goes_on ops /\ ended trailer e r.1 last.

(** C12: the body of an HTTP/2 request is sent as it is. Whatever the other goroutines do between its steps, [writeRequestBody]
    ends or waits for a flow-control window, and it never panics or blocks on a lock. What it has sent on the stream at
    any of these points is a beginning of the body in DATA frames without END_STREAM, with no octet beyond the
    declared length. If it reports no error, the body ended without one and is no longer
    than declared, the frames carry exactly its octets, and then the stream is ended once: by the last
    DATA frame, or by a header block with the trailer if that has fields to send. The other goroutines
    may do anything that leaves the locks free, the stream's object where it is, the windows within 32 bits
    and the peer's frame size between 1 and 2^31 - 1 ([between]), and that writes no
    frame of the stream; a frame size outside these bounds is accepted from the peer all the same, and 0 makes the loop
    endless ([H2Props.zero_frame_size_accepted]). The encoded trailer has at most 2^24 - 7 octets. *)
Theorem h2_body_sent (pools : Z -> option Z) (b : upload) (cl : Z) (trailer : option (list (string * list string) * list (string * list string))) (e : E) s :
  prio_legal (HeaderPriority t) -> buffers_ok pools -> up_ok b -> -1 <= cl < 2 ^ 63 -> trailer_fits trailer e -> between s ->
  wp (wrote_upto (negb (cl =? -1)) cl (sent s) (up_content b)) (writeRequestBody t others ctx canceled id pools b cl trailer e) (upload_post b cl trailer (sent s) e) s.
Proof.
  intros Hpr Hpool Hb Hcl Hfit Hs. unfold writeRequestBody. apply wp_bind, wp_modify. destruct (others_ok 0%nat s Hs) as [Hs1 He]. rewrite <- He. generalize (others 0%nat s) Hs1. clear s Hs Hs1 He. intros s Hs. pose proof Hs as (Hm & Hw & Hf & Hp & cs & Hc & Hi).
  apply wp_bind, wp_with_mu; [done|]. apply wp_bind, wp_get, wp_ret. change (peer_maxFrameSize _) with (peer_maxFrameSize s).
  assert (between (set_mu false (set_mu true s))) as Hs1 by (split; [done|]; by destruct Hs as [_ Hs]). change (sent s) with (sent (set_mu false (set_mu true s))). generalize (peer_maxFrameSize s) Hp. revert Hs1. generalize (set_mu false (set_mu true s)). clear s Hs Hm Hw Hf Hp cs Hc Hi. intros s Hs max Hmax.
  apply wp_bind. eapply wp_mono; [|apply body_loop_ok; [done|done|lia|by apply buf_len_ok|lia]]. intros r s1 (Hs1 & err & se & n & -> & Hp). destruct err as [x|]; cbn [is_set] in Hp; [by apply wp_ret; exists (Some x)|].
  destruct Hp as (He & Hl & ops & Ew & Ec & Hp). destruct se.
  - destruct Hp as (Ht & ops0 & d & -> & Hg). apply wp_ret. exists None. split; [done|]. split; [done|]. split; [intros; apply Hl; lia|]. exists ops0, [OpData id true d None]. split; [done|]. split; [done|]. split; [done|]. exists 0, []. destruct trailer; [done|]. split; [done|]. rewrite bool_decide_true by done. by exists d.
  - eapply wp_park; [|eapply wp_mono; [|apply end_body_ok; [done|done|lia|done]]]; [intros s' Hs'; exact Hs'|]. intros [e' r] s2 (err & Er & Hend). exists err. split; [done|]. destruct err as [x|]; cbn [is_set] in *.
    + exists ops, []. rewrite Hend, app_nil_r, Ec. split; [done|]. split; [done|]. split; [done|]. rewrite <- Ec. intros; apply Hl; lia.
    + destruct Hend as (ops2 & Ew2 & Eb2 & Hend). split; [done|]. split; [intros; apply Hl; lia|]. exists ops, ops2. split; [by rewrite Ew2, Ew, app_assoc|]. split; [by rewrite bodies_app, Eb2, app_nil_r|done].
Qed.
End Sent.

(** ** Examples *)
#[local] Existing Instance Example.db.
Definition ex_body : upload := mkUpload [bytes_of_string "Hello, "; bytes_of_string "world"] io_EOF true.
Definition ex_conn3 : ClientConn dataBuffer := set_stream_objs {[ 1 := set_cs_flow 65535 Example.request ]} (set_streams {[ 1 ]} Example.start).
(** The peer opens the window of the connection for five octets before each step. *)
Definition ex_others (n : nat) (s : ClientConn dataBuffer) : ClientConn dataBuffer := set_flow 5 s.
Lemma ex_others_ok n s : between 1 s -> between 1 (ex_others n s) /\ sent 1 (ex_others n s) = sent 1 s.
Proof. intros (Hm & Hw & Hf & Hp & Hc). split; [|done]. split; [done|]. split; [done|]. split; [unfold is_i32; cbn; lia|]. by split. Qed.
Lemma ex_between : between 1 ex_conn3.
Proof. split; [reflexivity|]. split; [reflexivity|]. split; [unfold is_i32; split; vm_compute; congruence|]. split; [split; vm_compute; congruence|]. eexists. split; [reflexivity|]. unfold is_i32. split; vm_compute; congruence. Qed.
Abbreviation send_body others cl := (writeRequestBody Example.transport others (fun _ => None) (fun _ => false) 1 (fun _ => None) ex_body cl None tt).
Definition ex_frames (s : ClientConn dataBuffer) : list wire_op := sent 1 s.
(** Seven octets in a window of five and five more at the end of the body. *)
Lemma h2_body_sent_witness :
  exists s', send_body ex_others 12 ex_conn3 = Done (tt, Some None) s' /\ ex_frames s' = [OpData 1 false (bytes_of_string "Hello") None; OpData 1 false (bytes_of_string ", ") None; OpData 1 true (bytes_of_string "world") None] /\
    wp (wrote_upto 1 true 12 [] (up_content ex_body)) (send_body ex_others 12) (upload_post 1 ex_body 12 None [] tt) ex_conn3.
Proof.
  eexists. split; [vm_compute; reflexivity|]. split; [vm_compute; reflexivity|].
  apply (h2_body_sent Example.transport ex_others (fun _ => None) (fun _ => false) 1 ltac:(unfold stream_id; lia) ex_others_ok (fun _ => None) ex_body 12 None tt ex_conn3 ltac:(split; cbn; word) ltac:(intros i l [=]) ltac:(repeat constructor; discriminate) ltac:(lia) ltac:(intros limit e' block [= <- <-]; vm_compute; discriminate) ex_between).
Defined.
(** A body that is shorter than declared is ended like any other, and no error is reported. *)
Example short_body_is_ended :
  exists s', send_body ex_others 20 ex_conn3 = Done (tt, Some None) s' /\ bodies (ex_frames s') = up_content ex_body /\ list.last (ex_frames s') = Some (OpData 1 true (bytes_of_string "world") None).
Proof. eexists. split; [vm_compute; reflexivity|]. split; vm_compute; reflexivity. Qed.
(** A body that is longer fails after what was declared in full reads. *)
Example long_body_fails : exists s', send_body ex_others 9 ex_conn3 = Done (tt, Some (Some errReqBodyTooLong)) s' /\ bodies (ex_frames s') = bytes_of_string "Hello, ".
Proof. eexists. split; vm_compute; reflexivity. Qed.
(** A request with a trailer and without a body: the HEADERS frame does not end the stream, since there is
    a trailer; after it nothing is sent, since there is no body, and the stream is taken to be ended. *)
Definition ex_trailer : list (string * list string) := [("X-Sum", ["1"])]%string.
Definition send_request_with_trailer : M dataBuffer (option (option error) * option (option error)) :=
  let* (e, r1) := encodeAndWriteHeaders ascii_lower token_name field_value any_host Ok id Example.transport 1 None false ex_fields2 ex_fields2 ex_fields2 ex_trailer ["X-Sum"%string] tt ex_get2 in
  let* (_, r2) := writeRequest_body Example.transport ex_others (fun _ => None) (fun _ => false) 1 (fun _ => None) (mkUpload [] io_EOF true) (Some (ex_trailer, ex_trailer)) e in
  ret (r1, r2).
Example trailer_without_body_lost :
  exists s' p, send_request_with_trailer ex_conn3 = Done (Some None, Some None) s' /\ ex_frames s' = [OpHeaders p] /\ HP_EndStream p = false /\ (cs_sentEndStream <$> stream_objs s' !! 1) = Some true.
Proof. eexists _, _. split; [vm_compute; reflexivity|]. split; [vm_compute; reflexivity|]. split; vm_compute; reflexivity. Qed.
