(* ===== verification/H2RoundTrip.v ===== *)
(** * [RoundTripOpt] of the HTTP/2 transport ([src/internal/http2/transport.go])

    The loop over connections and its waits. What a round trip on a connection does is the [RoundTrip]
    of the section; the pool is the [GetClientConn]. *)

From S2P Require Import Prelude.
From S2P Require Import H2Errors.
From S2P Require Import Flow.
From S2P Require Import Pipe.
From S2P Require Import NetText.
From S2P Require Import NetAddr.
From S2P Require Import H2Transport.

Section RoundTripOpt.
Context {Bd Conn Resp W : Type} (error_text : error -> string) (idna_ToASCII : bytes -> option bytes).
(** The pool and a round trip on a connection, in a world of states [W]. *)
Context (GetClientConn : retryRequest Bd -> bytes -> bool -> W -> result error Conn * W) (RoundTrip : Conn -> retryRequest Bd -> W -> result error Resp * W).
(** At each wait, the error of the request's context if it is done before the timer. *)
Context (wait : nat -> option error).
(** The random numbers of [mathrand.Int63]. *)
Context (Int63 : nat -> Z).

(** [backoff] in seconds, and the wait: up to a tenth is added, [mathrand.Float64() * 0.1] of it, and [time.Duration]
    drops the fraction of a second. *)
Definition backoff (retry : nat) : Z := Z.shiftl 1 (Z.of_nat retry - 1).
Definition delay (retry : nat) : Z := backoff retry + backoff retry * Z.land (Int63 retry) (2 ^ 53 - 1) / (10 * 2 ^ 53).
(** A round trip: the connection, the request and the error. *)
Definition attempt : Type := Conn * retryRequest Bd * option error.
(** The loop: the result, the world and the round trips made. [None]: out of fuel. *)
Fixpoint retry_loop (fuel : nat) (retry : nat) (addr : bytes) (req : retryRequest Bd) (w : W) : option (result error Resp * W * list attempt * list Z) :=
  match fuel with
  | O => None
  | S fuel =>
      match GetClientConn req addr true w with
      | (Err e, w) => Some (Err e, w, [], [])
      | (Ok cc, w) =>
          match RoundTrip cc req w with
          | (Ok res, w) => Some (Ok res, w, [(cc, req, None)], [])
          | (Err e, w) =>
              let made := [(cc, req, Some e)] in
              if (retry <=? 6)%nat then
                match shouldRetryRequest error_text req e with
                | Err e => Some (Err e, w, made, [])
                | Ok req =>
                    let again waits := match retry_loop fuel (S retry) addr req w with
                                       | Some (r, w, more, ws) => Some (r, w, made ++ more, waits ++ ws)
                                       | None => None
                                       end in
                    match retry with
                    | O => again []
                    | S _ => match wait retry with
                             | Some e => Some (Err e, w, made, [delay retry])
                             | None => again [delay retry]
                             end
                    end
                end
              else Some (Err e, w, made, [])
          end
      end
  end.
Definition RoundTripOpt (allowHTTP onlyCachedConn : bool) (scheme : string) (host : bytes) (req : retryRequest Bd) (w : W) : option (result error Resp * W * list attempt * list Z) :=
  if negb (String.eqb scheme "https" || (String.eqb scheme "http" && allowHTTP)) then Some (Err (errors_New "http2: unsupported scheme"), w, [], []) else
  let addr := AuthorityAddr idna_ToASCII scheme host in
  if onlyCachedConn then
    match GetClientConn req addr false w with
    | (Err e, w) => Some (Err e, w, [], [])
    | (Ok cc, w) => let '(r, w) := RoundTrip cc req w in Some (r, w, [(cc, req, match r with Ok _ => None | Err e => Some e end)], [])
    end
  else retry_loop 8 0 addr req w.

(** One attempt after another: only an error after which the request may be sent again, and with the request that gives. *)
Inductive attempts_follow : retryRequest Bd -> list attempt -> Prop :=
| follow_none req : attempts_follow req []
| follow_last req cc err : attempts_follow req [(cc, req, err)]
| follow_next req cc e req' l : shouldRetryRequest error_text req e = Ok req' -> attempts_follow req' l -> attempts_follow req ((cc, req, Some e) :: l).

(** The waits that are left at the [retry]-th attempt. *)
Definition waits_from (retry : nat) : list Z := delay <$> seq (Nat.max 1 retry) (7 - Nat.max 1 retry).
Lemma waits_from_S retry : (retry <= 6)%nat -> waits_from retry = (match retry with O => [] | S _ => [delay retry] end) ++ waits_from (S retry).
Proof. intros Hr. destruct retry as [|retry]; [done|]. unfold waits_from. rewrite !Nat.max_r by lia. replace (7 - S retry)%nat with (S (7 - S (S retry))) by lia. done. Qed.
Definition loop_post (retry : nat) (req : retryRequest Bd) (o : option (result error Resp * W * list attempt * list Z)) : Prop :=
  exists r w' made waits, o = Some (r, w', made, waits) /\ attempts_follow req made /\ (length made + retry <= 8)%nat /\
    (forall res, r = Ok res -> exists l cc q, made = l ++ [(cc, q, None)]) /\ waits `prefix_of` waits_from retry.
Lemma loop_post_end retry req r w made waits : (retry <= 7)%nat -> (length made <= 1)%nat -> attempts_follow req made -> (forall res, r = Ok res -> exists l cc q, made = l ++ [(cc, q, None)]) -> waits `prefix_of` waits_from retry ->
  loop_post retry req (Some (r, w, made, waits)).
Proof. intros. exists r, w, made, waits. repeat (split; [done || lia|]). done. Qed.
Lemma retry_loop_ok fuel : forall retry addr req w, (retry <= 7)%nat -> (8 - retry <= fuel)%nat -> loop_post retry req (retry_loop fuel retry addr req w).
Proof.
  induction fuel as [|fuel IH]; intros retry addr req w Hr Hf; [lia|]. cbn [retry_loop]. destruct (GetClientConn req addr true w) as [[cc|e] w1]; [|by apply loop_post_end; [lia|cbn; lia|constructor|done|apply prefix_nil]].
  assert (forall err, attempts_follow req [(cc, req, err)]) as H1 by constructor.
  destruct (RoundTrip cc req w1) as [[res|e] w2]; [apply loop_post_end; [lia|cbn; lia|done|by intros; exists [], cc, req|apply prefix_nil]|].
  destruct (Nat.leb_spec retry 6) as [Hle|Hgt]; [|apply loop_post_end; [lia|cbn; lia|done|done|apply prefix_nil]].
  destruct (shouldRetryRequest error_text req e) as [req'|e'] eqn:Es; [|apply loop_post_end; [lia|cbn; lia|done|done|apply prefix_nil]]. cbn zeta.
  pose proof (IH (S retry) addr req' w2 ltac:(lia) ltac:(lia)) as (r & w' & made & waits & -> & Hfo & Hlen & Hok & Hw).
  set (first := match retry with O => [] | S _ => [delay retry] end).
  assert (loop_post retry req (Some (r, w', [(cc, req, Some e)] ++ made, first ++ waits))) as Hagain.
  { exists r, w', ([(cc, req, Some e)] ++ made), (first ++ waits). split; [done|]. split; [by eapply follow_next|]. split; [cbn; lia|]. split; [intros res Hres; destruct (Hok res Hres) as (l & c & q & ->); by exists ((cc, req, Some e) :: l), c, q|]. rewrite waits_from_S by done. by apply prefix_app. }
  destruct retry as [|retry]; [done|]. destruct (wait (S retry)) as [x|]; [|done]. apply loop_post_end; [lia|cbn; lia|done|done|]. rewrite waits_from_S by done. by apply prefix_app_r.
Qed.

(** The random part is at most a tenth. *)
Lemma delay_bounds retry : (1 <= retry)%nat -> backoff retry <= delay retry <= backoff retry + backoff retry / 10.
Proof.
  intros Hr. unfold delay. change (2 ^ 53 - 1) with (Z.ones 53). rewrite Z.land_ones by lia. pose proof (Z.mod_pos_bound (Int63 retry) (2 ^ 53) ltac:(lia)) as Hk. set (k := Int63 retry mod 2 ^ 53) in *.
  assert (0 <= backoff retry) as Hb by (unfold backoff; rewrite Z.shiftl_nonneg; lia). split; [pose proof (Z.div_pos (backoff retry * k) (10 * 2 ^ 53)); nia|]. apply Zplus_le_compat_l. rewrite <- (Z.div_mul_cancel_r (backoff retry) 10 (2 ^ 53)) by lia. apply Z.div_le_mono; nia.
Qed.
Lemma waits_bounded waits : waits `prefix_of` waits_from 0 -> exists a b, waits `prefix_of` [1; 2; 4; 8; a; b] /\ 16 <= a <= 17 /\ 32 <= b <= 35.
Proof.
  intros Hw. exists (delay 5), (delay 6). pose proof (delay_bounds 1 ltac:(lia)) as H1. pose proof (delay_bounds 2 ltac:(lia)) as H2. pose proof (delay_bounds 3 ltac:(lia)) as H3. pose proof (delay_bounds 4 ltac:(lia)) as H4. pose proof (delay_bounds 5 ltac:(lia)) as H5. pose proof (delay_bounds 6 ltac:(lia)) as H6.
  split; [|split; [exact H5|exact H6]]. assert (waits_from 0 = [delay 1; delay 2; delay 3; delay 4; delay 5; delay 6]) as E by reflexivity. rewrite E in Hw.
  assert (delay 1 = 1 /\ delay 2 = 2 /\ delay 3 = 4 /\ delay 4 = 8) as (E1 & E2 & E3 & E4) by (split; [|split; [|split]]; apply Z.le_antisymm; (apply H1 || apply H2 || apply H3 || apply H4)). by rewrite E1, E2, E3, E4 in Hw.
Qed.
(** C29: a request is given up after eight round trips over HTTP/2. Whatever the pool and the
    connections do, [RoundTripOpt] returns; it makes at most eight round trips, each but the last with
    an error after which the request may be sent again, and each but the first with the request that this gives; a
    response is the one of the last; there is no wait before the second, and the waits before the others are 1, 2, 4 and 8, then
    16 or 17, then 32 to 35 seconds. *)
Theorem h2_round_trips_bounded (allowHTTP onlyCachedConn : bool) (scheme : string) (host : bytes) (req : retryRequest Bd) (w : W) :
  exists r w' made waits, RoundTripOpt allowHTTP onlyCachedConn scheme host req w = Some (r, w', made, waits) /\ (length made <= 8)%nat /\ attempts_follow req made /\
    (forall res, r = Ok res -> exists l cc q, made = l ++ [(cc, q, None)]) /\ (exists a b, waits `prefix_of` [1; 2; 4; 8; a; b] /\ 16 <= a <= 17 /\ 32 <= b <= 35).
Proof.
  assert (forall w : list Z, w = [] -> exists a b, w `prefix_of` [1; 2; 4; 8; a; b] /\ 16 <= a <= 17 /\ 32 <= b <= 35) as Hnil by (intros ? ->; apply waits_bounded, prefix_nil).
  unfold RoundTripOpt. destruct (negb _); [do 4 eexists; split; [reflexivity|]; split; [cbn; lia|]; split; [constructor|]; split; [done|by apply Hnil]|]. destruct onlyCachedConn.
  - destruct (GetClientConn req _ false w) as [[cc|e] w1]; [|do 4 eexists; split; [reflexivity|]; split; [cbn; lia|]; split; [constructor|]; split; [done|by apply Hnil]].
    destruct (RoundTrip cc req w1) as [[res|e] w2]; do 4 eexists; (split; [reflexivity|]); (split; [cbn; lia|]); (split; [constructor|]); (split; [by intros; exists [], cc, req|by apply Hnil]).
  - destruct (retry_loop_ok 8 0 (AuthorityAddr idna_ToASCII scheme host) req w ltac:(lia) ltac:(lia)) as (r & w' & made & waits & -> & Hfo & Hlen & Hok & Hw). exists r, w', made, waits. split; [done|]. split; [lia|]. split; [done|]. split; [done|]. by apply waits_bounded.
Qed.
End RoundTripOpt.

(** Eight connections that refuse the stream: the body is fetched again for each. *)
Definition refusing (req : retryRequest nat) (w : nat) : result error nat * nat := (Err (StreamError 1 ErrCodeRefusedStream None), S w).
Example refused_eight_times :
  match RoundTripOpt (fun _ => ""%string) Some (fun _ _ _ w => (Ok w, w)) (fun _ : nat => refusing) (fun _ => None) (fun _ => 2 ^ 53 - 1) false false "https" (bytes_of_string "example.org") (mkRetryRequest (Some 0%nat) (Some (Ok 1%nat))) 0%nat with
  | Some (Err _, n, made, waits) => n = 8%nat /\ (rq_Body ∘ snd ∘ fst <$> made) = Some 0%nat :: repeat (Some 1%nat) 7 /\ waits = [1; 2; 4; 8; 17; 35]
  | _ => False
  end.
Proof. vm_compute. done. Qed.
