(* ===== verification/ReqResult.v ===== *)
(** * The round trip of a client and its responses ([src/client.go]: [roundTrip]; [src/response.go], [src/middleware.go])

    What [Client.roundTrip] makes of the answer of [http.Client.Do]: the limit on the body,
    reading it to the end, decoding it into the result, saving it to a file or a writer, and
    that it is closed. The marshallers, the transformer and the state check are the user's functions. *)

From S2P Require Import Prelude.
From S2P Require Import H2Errors.
From S2P Require Import NetText.
From S2P Require Import Bufio.
From S2P Require Import TransferWrite.
From S2P Require Import ReqPrepare.
From S2P Require Import ReqResponse.

(** ** Bodies *)
(** [http.NoBody], the transport's, the same behind the limit, [io.NopCloser] of bytes, and one that is closed. *)
Inductive body := NoBody | Raw (r : ioReader) | Max (l : maxResponseBodyReader) | Mem (p : bytes) | Closed (e : error).
Definition errReadOnClosedResBody : error := errors_New "http: read on closed response body".
Definition body_Read (b : body) (k : Z) : bytes * option error * body :=
  match b with
  | NoBody => ([], Some io_EOF, b)
  | Raw r => let '((d, e), r) := io_Read r k in ((d, e), Raw r)
  | Max l => let '((d, e), l) := ml_Read l k in ((d, e), Max l)
  | Mem [] => ([], Some io_EOF, b)
  | Mem p => ((slice_to p k, None), Mem (slice_from p k))
  | Closed e => ([], Some e, b)
  end.
(** [Close], and whether the call reaches the transport's body: every one does until the body is replaced; the first one ends it. *)
Definition body_Close (b : body) : body * bool :=
  match b with
  | Raw _ => (Closed errReadOnClosedResBody, true)
  | Max l => (Closed (default errReadOnClosedResBody (ml_err l)), true)
  | Closed _ => (b, true)
  | NoBody | Mem _ => (b, false)
  end.

(** [io.ReadAll] and [bytes.Buffer.ReadFrom]: reads into the buffers that the growing slice has free, up to the end. *)
Fixpoint read_all (free : nat -> Z) (fuel i : nat) (b : body) : option (bytes * option error * body) :=
  match fuel with
  | O => None
  | S fuel =>
      match body_Read b (free i) with
      | (d, Some e, b) => Some (d, (if bool_decide (e = io_EOF) then None else Some e), b)
      | (d, None, b) => match read_all free fuel (S i) b with Some (ds, e, b) => Some (d ++ ds, e, b) | None => None end
      end
  end.
(** A bound for the number of reads. *)
Definition body_fuel (b : body) : nat :=
  match b with Raw r => S (length (content r)) | Max l => S (length (content (ml_r l))) | Mem p => S (length p) | _ => 1 end.
Definition maxResponseBodyPreallocateSize : Z := Z.shiftl 8 10.
(** [hint]: what is free at each read when the buffer starts with that capacity, or as [io.ReadAll] lets it grow. *)
Definition readResponseBody (hint : option Z -> nat -> Z) (b : body) (contentLength : Z) : option (bytes * option error * body) :=
  if (contentLength <=? 0) || (maxResponseBodyPreallocateSize <? contentLength) then read_all (hint None) (body_fuel b) 0 b
  else read_all (hint (Some (contentLength + 512))) (body_fuel b) 0 b.

(** *** Writers
    A file or the user's writer: what is in it, whether it is an [io.Closer], closed, and how many bytes it takes before it fails. *)
Record sink := mkSink { sk_data : bytes; sk_closer : bool; sk_closed : bool; sk_room : option (Z * error) }.
Definition os_ErrClosed : error := errors_New "file already closed".
Definition sk_Write (w : sink) (p : bytes) : sink * Z * option error :=
  if sk_closed w then (w, 0, Some os_ErrClosed) else
  match sk_room w with
  | Some (room, e) => if room <? len p then (mkSink (sk_data w ++ slice_to p room) (sk_closer w) false (Some (0, e)), Z.max 0 room, Some e)
                      else (mkSink (sk_data w ++ p) (sk_closer w) false (Some (room - len p, e)), len p, None)
  | None => (mkSink (sk_data w ++ p) (sk_closer w) false None, len p, None)
  end.
Definition closeq (w : sink) : sink := if sk_closer w then mkSink (sk_data w) true true (sk_room w) else w.
(** [io.Copy]. *)
Fixpoint io_Copy (fuel : nat) (w : sink) (b : body) : option (sink * option error * body) :=
  match fuel with
  | O => None
  | S fuel =>
      let '((d, er), b) := body_Read b copyBufSize in
      let '((w, nw), ew) := if 0 <? len d then sk_Write w d else (w, 0, None) in
      if is_set ew then Some (w, ew, b)
      else if negb (nw =? len d) then Some (w, Some io_ErrShortWrite, b)
      else match er with
           | Some e => Some (w, (if bool_decide (e = io_EOF) then None else Some e), b)
           | None => io_Copy fuel w b
           end
  end.

(** ** Responses *)
Section Result.
(** [V]: what the unmarshallers produce. *)
Context {V : Type}.
(** The parts of a [http.Response]; [h_closed]: how often [Close] was called on the transport's body. *)
Record httpResponse := mkHttp { h_StatusCode : Z; h_ContentLength : Z; h_Header : Header; h_Body : option body; h_closed : nat }.
Record Response := mkResponse { rs_http : option httpResponse; rs_Err : option error; rs_body : option bytes; rs_received : bool; rs_result : option V; rs_error : option V }.
Definition set_Body (h : httpResponse) (b : option body) : httpResponse := mkHttp (h_StatusCode h) (h_ContentLength h) (h_Header h) b (h_closed h).
Definition set_http (r : Response) (h : httpResponse) : Response := mkResponse (Some h) (rs_Err r) (rs_body r) (rs_received r) (rs_result r) (rs_error r).
Definition set_Err (r : Response) (e : option error) : Response := mkResponse (rs_http r) e (rs_body r) (rs_received r) (rs_result r) (rs_error r).
Definition set_body (r : Response) (p : option bytes) : Response := mkResponse (rs_http r) (rs_Err r) p (rs_received r) (rs_result r) (rs_error r).
Definition set_received (r : Response) : Response := mkResponse (rs_http r) (rs_Err r) (rs_body r) true (rs_result r) (rs_error r).
Definition set_result (r : Response) (v : V) : Response := mkResponse (rs_http r) (rs_Err r) (rs_body r) (rs_received r) (Some v) (rs_error r).
Definition set_error (r : Response) (v : V) : Response := mkResponse (rs_http r) (rs_Err r) (rs_body r) (rs_received r) (rs_result r) (Some v).
Definition close_http (h : httpResponse) : httpResponse :=
  match h_Body h with
  | None => h
  | Some b => let '(b, c) := body_Close b in mkHttp (h_StatusCode h) (h_ContentLength h) (h_Header h) (Some b) (h_closed h + (if c then 1 else 0))
  end.

Inductive ResultState := SuccessState | ErrorState | UnknownState.
Definition defaultResultStateChecker (h : httpResponse) : ResultState :=
  let code := h_StatusCode h in
  if (199 <? code) && (code <? 300) then SuccessState else if 399 <? code then ErrorState else UnknownState.

(** The client's settings and functions. A transformer gets the body and gives another one, which may be nil, or an error;
    [commonErrorType]: whether it is set. *)
Record Client := mkClient {
  disableAutoReadResponse : bool; maxResponseSize : Z; outputDirectory : string; commonErrorType : bool;
  responseBodyTransformer : option (bytes -> option bytes * option error); resultStateCheckFunc : option (httpResponse -> ResultState);
  jsonUnmarshal : bytes -> result error V; xmlUnmarshal : bytes -> result error V }.
(** The request's: its own limit, where its response is saved, and whether it wants a result and an error decoded. *)
Record Request := mkReq {
  r_Method : string; r_maxResponseSize : option Z; r_disableAutoReadResponse : bool; isSaveResponse : bool; outputFile : string; r_Result : bool; r_Error : bool }.
Context (hint : option Z -> nat -> Z) (c : Client) (r : Request).

Definition Response_ResultState (rs : Response) : ResultState :=
  match rs_http rs with None => UnknownState | Some h => match resultStateCheckFunc c with Some f => f h | None => defaultResultStateChecker h end end.
Definition IsSuccessState (rs : Response) : bool := match Response_ResultState rs with SuccessState => true | _ => false end.
Definition IsErrorState (rs : Response) : bool := match Response_ResultState rs with ErrorState => true | _ => false end.
Definition GetContentType (rs : Response) : string := match rs_http rs with None => "" | Some h => Header_Get (h_Header h) "Content-Type" end.

(** [ToBytes]. A nil slice is [None]; out of fuel is [None] of the outer option. *)
Definition ToBytes (rs : Response) : option (option bytes * option error * Response) :=
  match rs_Err rs with
  | Some e => Some (None, Some e, rs)
  | None =>
      match rs_body rs with
      | Some p => Some (Some p, None, rs)
      | None =>
          match rs_http rs with
          | None => Some (Some [], None, rs)
          | Some h =>
              match h_Body h with
              | None => Some (Some [], None, rs)
              | Some b =>
                  let contentLength := if match b with NoBody => true | _ => false end || String.eqb (r_Method r) "HEAD" then -1 else h_ContentLength h in
                  match readResponseBody hint b contentLength with
                  | None => None
                  | Some (p, err, b) =>
                      let '(p, err) := match err, responseBodyTransformer c with
                                       | None, Some f => f p
                                       | _, _ => (Some p, err)
                                       end in
                      (* the deferred function *)
                      let rs := set_http (set_received rs) (close_http (set_Body h (Some b))) in
                      let rs := if is_set err then set_Err rs err else rs in
                      Some (p, err, set_body rs p)
                  end
              end
          end
      end
  end.
Definition unmarshalBody (rs : Response) : option (result error V * Response) :=
  match ToBytes rs with
  | None => None
  | Some (_, Some e, rs) => Some (Err e, rs)
  | Some (p, None, rs) =>
      let p := default [] p in
      let ct := GetContentType rs in
      Some (if contains "json" ct then jsonUnmarshal c p else if contains "xml" ct then xmlUnmarshal c p else jsonUnmarshal c p, rs)
  end.
(** The explicit accessors. *)
Definition UnmarshalJson (rs : Response) : option (result error V * Response) :=
  match rs_Err rs with
  | Some e => Some (Err e, rs)
  | None => match ToBytes rs with None => None | Some (_, Some e, rs) => Some (Err e, rs) | Some (p, None, rs) => Some (jsonUnmarshal c (default [] p), rs) end
  end.
Definition UnmarshalXml (rs : Response) : option (result error V * Response) :=
  match rs_Err rs with
  | Some e => Some (Err e, rs)
  | None => match ToBytes rs with None => None | Some (_, Some e, rs) => Some (Err e, rs) | Some (p, None, rs) => Some (xmlUnmarshal c (default [] p), rs) end
  end.
Definition nil_dereference : string := "invalid memory address or nil pointer dereference".
Definition Unmarshal (Status : string) (rs : Response) : result string (option (result error V * Response)) :=
  match rs_Err rs with
  | Some e => Ok (Some (Err e, rs))
  | None =>
      if IsErrorState rs then Ok (Some (Err (errors_New Status), rs)) else
      match rs_http rs with
      | None => Err nil_dereference
      | Some h =>
          let contentType := Header_Get (h_Header h) "Content-Type" in
          Ok (if contains "json" contentType then UnmarshalJson rs else if contains "xml" contentType then UnmarshalXml rs else UnmarshalJson rs)
      end
  end.

(** *** The middlewares of [C()] *)
Definition http_StatusNoContent : Z := 204.
Definition decode_into (set : Response -> V -> Response) (rs : Response) : option (option error * Response) :=
  match unmarshalBody rs with
  | None => None
  | Some (Err e, rs) => Some (Some e, rs)
  | Some (Ok v, rs) => Some (None, set rs v)
  end.
Definition parseResponseBody (rs : Response) : option (option error * Response) :=
  match rs_http rs with
  | None => Some (None, rs)
  | Some h =>
      let no_content := h_StatusCode h =? http_StatusNoContent in
      match Response_ResultState rs with
      | SuccessState => if r_Result r && negb no_content then decode_into set_result rs else Some (None, rs)
      | ErrorState => if no_content then Some (None, rs) else if r_Error r || commonErrorType c then decode_into set_error rs else Some (None, rs)
      | UnknownState => Some (None, rs)
      end
  end.
(** *** Saving a response
    The files, the user's writer, and what the file system says: [MkdirAll] and [Create] of a path, and how much a file takes. *)
Record world := mkWorld { w_files : gmap string bytes; w_output : sink }.
Context (MkdirAll Create : string -> option error) (file_room : string -> option (Z * error)).
(** [path/filepath] on Unix. *)
Definition IsAbs (path : string) : bool := has_prefix "/" path.
Definition clean_step (rooted : bool) (out : list string) (elem : string) : list string :=
  if String.eqb elem "" || String.eqb elem "." then out
  else if String.eqb elem ".." then
    match out with
    | top :: below => if String.eqb top ".." then elem :: out else below
    | [] => if rooted then [] else [elem]
    end
  else elem :: out.
Definition Clean (path : string) : string :=
  let rooted := IsAbs path in
  let p := (if rooted then "/" else "") +:+ join "/" (rev (fold_left (clean_step rooted) (split 47 path) [])) in
  if String.eqb p "" then "." else p.
Definition Dir (path : string) : string := match rev (split 47 path) with _ :: dirs => match rev dirs with [] => "." | dirs => Clean (join "/" dirs +:+ "/") end | [] => "." end.
Definition output_path (r : Request) : string :=
  let file := outputFile r in
  Clean (if negb (String.eqb (outputDirectory c) "") && negb (IsAbs file) then outputDirectory c +:+ "/" +:+ file else file).

Definition is_too_large (e : option error) : bool := match e with Some (fmt_Errorf f _) => String.eqb f "req: response body too large" | _ => false end.
(** The outer [Err] is a panic, [None] is out of fuel. *)
Definition save (rs : Response) (output : sink) (b : body) : option (option error * Response * sink) :=
  match io_Copy (body_fuel b) output b with
  | None => None
  | Some (output, err, b) =>
      let rs := set_received rs in
      (* the body is closed when it is the response's, not the copy in memory *)
      let rs := match rs_body rs, rs_http rs with None, Some h => set_http rs (close_http (set_Body h (Some b))) | _, _ => rs end in
      Some (err, rs, closeq output)
  end.
Definition handleDownload (rs : Response) (w : world) : result string (option (option error * Response * world)) :=
  match rs_http rs with
  | None => Ok (Some (None, rs, w))
  | Some h =>
      if negb (isSaveResponse r) then Ok (Some (None, rs, w)) else
      if is_too_large (rs_Err rs) && negb (is_set (rs_body rs)) then Ok (Some (None, rs, w)) else
      let from := match rs_body rs with Some p => Some (Mem p) | None => h_Body h end in
      if negb (String.eqb (outputFile r) "") then
        let file := output_path r in
        match MkdirAll (Dir file) with
        | Some e => Ok (Some (Some e, rs, w))
        | None =>
            match Create file with
            | Some e => Ok (Some (Some e, rs, w))
            | None =>
                match from with
                | None => Err nil_dereference
                | Some b => Ok (match save rs (mkSink [] true false (file_room file)) b with
                                | None => None
                                | Some (err, rs, f) => Some (err, rs, mkWorld (<[file := sk_data f]> (w_files w)) (w_output w))
                                end)
                end
            end
        end
      else
        match from with
        | None => Err nil_dereference
        | Some b => Ok (match save rs (w_output w) b with None => None | Some (err, rs, o) => Some (err, rs, mkWorld (w_files w) o) end)
        end
  end.

(** *** The round trip *)
(** [applyMaxResponseSize] on the response: [ReqResponse.applyMaxResponseSize] on its body. *)
Definition limit_response (h : httpResponse) : httpResponse * option error :=
  let src := match h_Body h with Some (Raw b) => Some b | Some NoBody => Some (mkReader [] io_EOF) | _ => None end in
  match applyMaxResponseSize (getMaxResponseSize (r_maxResponseSize r) (maxResponseSize c)) (r_Method r) (h_ContentLength h) src with
  | Refused e => (set_Body (close_http h) (Some NoBody), Some e)
  | Unlimited => (h, None)
  | Limited l => (set_Body h (Some (Max l)), None)
  end.
(** Reading the response when it is to be read at once. *)
Definition auto_read (rs : Response) : result string (option Response) :=
  if is_set (rs_Err rs) || disableAutoReadResponse c || isSaveResponse r || r_disableAutoReadResponse r then Ok (Some rs) else
  match rs_http rs with
  | None => Err nil_dereference
  | Some h =>
      if 199 <? h_StatusCode h then
        Ok (match ToBytes rs with
            | None => None
            | Some (_, _, rs) => Some (match rs_http rs with Some h => set_http rs (set_Body h (Some (Mem (default [] (rs_body rs))))) | None => rs end)
            end)
      else Ok (Some rs)
  end.
(** The middlewares on responses: what [OnAfterResponse] adds runs after the client's own. Each error replaces the one before. *)
Definition middleware : Type := Response -> world -> result string (option (option error * Response * world)).
Definition own_middlewares : list middleware :=
  [fun rs w => Ok (match parseResponseBody rs with None => None | Some (e, rs) => Some (e, rs, w) end); handleDownload].
Fixpoint run_after (fs : list middleware) (rs : Response) (w : world) : result string (option (Response * world)) :=
  match fs with
  | [] => Ok (Some (rs, w))
  | f :: fs =>
      match f rs w with
      | Err p => Err p
      | Ok None => Ok None
      | Ok (Some (e, rs, w)) => run_after fs (if is_set e then set_Err rs e else rs) w
      end
  end.
(** [roundTrip] with what [http.Client.Do] returns, [GetBody] failing or not; the error it returns is the response's. *)
Definition roundTrip (getBody : option error) (Do : option httpResponse * option error) (user : list middleware) (w : world) : result string (option (Response * world)) :=
  let rs := mkResponse None None None false None None in
  match getBody with
  | Some e => Ok (Some (set_Err rs (Some e), w))
  | None =>
      let '(h, err) := Do in
      let rs := mkResponse h err None false None None in
      let rs := match err, h with
                | None, Some h => let '(h, e) := limit_response h in set_Err (set_http rs h) e
                | _, _ => rs
                end in
      match auto_read rs with
      | Err p => Err p
      | Ok None => Ok None
      | Ok (Some rs) => run_after (own_middlewares ++ user) rs w
      end
  end.
End Result.

(** ** Reading and copying a body *)
Definition fin (e : error) : option error := if bool_decide (e = io_EOF) then None else Some e.
(** What is left to read, and how it ends. *)
Definition body_out (b : body) : bytes * error :=
  match b with
  | NoBody => ([], io_EOF)
  | Raw r => (content r, rd_end r)
  | Max l => ReqResponse.outcome l
  | Mem p => (p, io_EOF)
  | Closed e => ([], e)
  end.
Definition body_ok (b : body) : Prop := match b with Raw r => reader_ok r | Max l => ml_ok l | _ => True end.
Definition closes (b : body) : bool := (body_Close b).2.
(** The transport's body is still to be closed. *)
Definition is_open (b : body) : bool := match b with Raw _ | Max _ => true | _ => false end.
Definition state (b : body) : bool * bool := (closes b, is_open b).
Lemma closed_body b : body_ok (body_Close b).1 /\ is_open (body_Close b).1 = false.
Proof. by destruct b. Qed.
Lemma open_closes b : is_open b = true -> closes b = true.
Proof. by destruct b. Qed.
Lemma state_closes b b' : state b' = state b -> closes b' = closes b.
Proof. by intros [= ? ?]. Qed.
Lemma io_Read_spec r k : reader_ok r -> 0 < k -> let '((d, e), r') := io_Read r k in reader_ok r' /\ rd_end r' = rd_end r /\ content r = d ++ content r' /\
  match e with Some e => d = [] /\ content r = [] /\ e = rd_end r | None => d <> [] end.
Proof.
  intros Hr Hk. unfold io_Read. pose proof (src_read_spec k (rd_src r) Hk Hr) as Hs. destruct (src_read k (rd_src r)) as [[d src]|].
  - destruct Hs as (Hd & _ & Hc & Hf). unfold content, reader_ok. cbn. done.
  - unfold content. rewrite Hs. done.
Qed.
Lemma body_Read_spec b k : body_ok b -> 0 < k -> let '((d, e), b') := body_Read b k in state b' = state b /\
  match e with
  | Some e => body_out b = (d, e)
  | None => body_ok b' /\ d <> [] /\ body_out b = (d ++ (body_out b').1, (body_out b').2) /\ (body_fuel b' < body_fuel b)%nat
  end.
Proof.
  intros Hb Hk. destruct b as [|r|l|p|e]; cbn [body_Read]; [done| | | |done].
  - pose proof (io_Read_spec r k Hb Hk) as Hr. destruct (io_Read r k) as [[d e] r']. destruct Hr as (Hr & He & Hc & Hd). split; [done|]. cbn [body_out body_fuel]. destruct e as [e|]; [destruct Hd as (-> & -> & ->); done|].
    split; [done|]. split; [done|]. cbn. rewrite Hc, He, length_app. split; [done|]. destruct d; [done|cbn; lia].
  - pose proof (ml_Read_spec l k Hb Hk) as Hr. destruct (ml_Read l k) as [[d e] l']. split; [done|]. destruct e as [e|]; [by destruct Hr|]. destruct Hr as (Hl & Hd & Ho & Hf). split; [done|]. split; [done|]. cbn. split; [done|lia].
  - destruct p as [|x p]; [done|]. split; [done|]. split; [done|]. assert (slice_to (x :: p) k <> []) as Hne by (unfold slice_to; by destruct (Z.to_nat k) eqn:E; [lia|]). split; [done|]. cbn [body_out fst snd]. split; [by rewrite slice_to_from|].
    cbn [body_fuel]. pose proof (slice_to_from (x :: p) k) as E. apply (f_equal length) in E. rewrite length_app in E. destruct (slice_to _ _); [done|]. cbn [length] in *. lia.
Qed.
Lemma read_all_spec free fuel : (forall i, 0 < free i) -> forall i b, body_ok b -> (body_fuel b <= fuel)%nat ->
  exists b', read_all free fuel i b = Some ((body_out b).1, fin (body_out b).2, b') /\ state b' = state b.
Proof.
  intros Hfree. induction fuel as [|fuel IH]; intros i b Hb Hf; [destruct b; cbn in Hf; lia|]. cbn [read_all]. pose proof (body_Read_spec b (free i) Hb (Hfree i)) as Hr. destruct (body_Read b (free i)) as [[d [e|]] b1].
  - destruct Hr as [Hcl ->]. by exists b1.
  - destruct Hr as (Hcl & Hb1 & Hd & Ho & Hlt). destruct (IH (S i) b1 Hb1 ltac:(lia)) as (b' & -> & Hcl'). exists b'. rewrite Ho. split; [done|congruence].
Qed.
(** What a copy of [p], which ends with [e], leaves in a writer, and its error. *)
Definition copied (w : sink) (p : bytes) (e : error) : bytes * option error :=
  if sk_closed w then (sk_data w, if bool_decide (p = []) then fin e else Some os_ErrClosed) else
  match sk_room w with
  | Some (room, x) => if room <? len p then (sk_data w ++ slice_to p room, Some x) else (sk_data w ++ p, fin e)
  | None => (sk_data w ++ p, fin e)
  end.
Definition sink_ok (w : sink) : Prop := match sk_room w with Some (room, _) => 0 <= room | None => True end.
Lemma slice_to_past {A} (p q : list A) n : len p <= n -> slice_to (p ++ q) n = p ++ slice_to q (n - len p).
Proof. intros Hn. unfold slice_to, len in *. rewrite take_app_ge by lia. do 2 f_equal. lia. Qed.
Lemma copied_nil w e : sink_ok w -> copied w [] e = (sk_data w, fin e).
Proof.
  unfold copied, sink_ok. destruct (sk_closed w); [done|]. destruct (sk_room w) as [[room x]|]; rewrite app_nil_r; [|done]. change (len []) with 0. intros Hr. destruct (Z.ltb_spec room 0); [lia|done].
Qed.
Lemma sk_Write_spec w d : sink_ok w -> d <> [] -> let '((w1, n), err) := sk_Write w d in sk_closer w1 = sk_closer w /\
  match err with
  | Some x => forall q e, copied w (d ++ q) e = (sk_data w1, Some x)
  | None => n = len d /\ sink_ok w1 /\ forall q e, copied w (d ++ q) e = copied w1 q e
  end.
Proof.
  unfold sk_Write, copied, sink_ok. intros Hw Hd. destruct (sk_closed w) eqn:Ec; [split; [done|]; intros q e; by rewrite bool_decide_false by by destruct d|]. destruct (sk_room w) as [[room x]|] eqn:Er.
  - destruct (Z.ltb_spec room (len d)) as [Hlt|Hge]; cbn [sk_closer sk_data sk_room sk_closed].
    + split; [done|]. intros q e. pose proof (len_nonneg q). rewrite len_app, (proj2 (Z.ltb_lt _ _)) by lia. by rewrite slice_to_app_l by lia.
    + split; [done|]. split; [done|]. split; [lia|]. intros q e. rewrite len_app. destruct (Z.ltb_spec room (len d + len q)), (Z.ltb_spec (room - len d) (len q)); try lia; rewrite ?slice_to_past by lia; by rewrite <- !app_assoc.
  - cbn. split; [done|]. split; [done|]. split; [done|]. intros q e. by rewrite app_assoc.
Qed.
Lemma io_Copy_spec fuel : forall w b, body_ok b -> sink_ok w -> (body_fuel b <= fuel)%nat ->
  exists w' b', io_Copy fuel w b = Some (w', (copied w (body_out b).1 (body_out b).2).2, b') /\ sk_data w' = (copied w (body_out b).1 (body_out b).2).1 /\ sk_closer w' = sk_closer w /\ state b' = state b.
Proof.
  induction fuel as [|fuel IH]; intros w b Hb Hw Hf; [destruct b; cbn in Hf; lia|]. cbn [io_Copy]. pose proof (body_Read_spec b copyBufSize Hb ltac:(done)) as Hr. destruct (body_Read b copyBufSize) as [[d er] b1]. destruct Hr as [Hcl Hr].
  destruct (decide (d = [])) as [->|Hd].
  - cbn. destruct er as [e|]; [|by destruct Hr as (_ & ? & _)]. rewrite Hr, copied_nil by done. by exists w, b1.
  - assert (0 < len d) as Hpos by (destruct d; [done|rewrite len_cons; pose proof (len_nonneg d); lia]). rewrite (proj2 (Z.ltb_lt 0 _)) by done. pose proof (sk_Write_spec w d Hw Hd) as Hs. destruct (sk_Write w d) as [[w1 n] [x|]].
    + destruct Hs as [Hc Hs]. cbn [is_set]. exists w1, b1. destruct er as [e|].
      * rewrite Hr. cbn [fst snd]. rewrite <- (app_nil_r d), Hs. done.
      * destruct Hr as (_ & _ & -> & _). cbn [fst snd]. by rewrite Hs.
    + destruct Hs as (Hc & -> & Hw1 & Hs). cbn [is_set]. rewrite Z.eqb_refl. cbn [negb]. destruct er as [e|].
      * exists w1, b1. rewrite Hr. cbn [fst snd]. rewrite <- (app_nil_r d), Hs, copied_nil by done. done.
      * destruct Hr as (Hb1 & _ & -> & Hlt). cbn [fst snd]. rewrite Hs. destruct (IH w1 b1 Hb1 Hw1 ltac:(lia)) as (w' & b' & -> & Hdat & Hc' & Hcl'). exists w', b'. split; [done|]. split; [done|]. split; congruence.
Qed.

(** ** What becomes of a response *)
Section Spec.
Context {V : Type} (hint : option Z -> nat -> Z) (hint_pos : forall q i, 0 < hint q i) (c : @Client V) (r : Request).
Implicit Types (rs : @Response V) (h : httpResponse).
(** What the transformer makes of the bytes read, and the error. *)
Definition transformed (p : bytes) (e : error) : option bytes * option error :=
  let err := fin e in match err, responseBodyTransformer c with None, Some f => f p | _, _ => (Some p, err) end.
Lemma ToBytes_fresh rs h b : rs_Err rs = None -> rs_body rs = None -> rs_http rs = Some h -> h_Body h = Some b -> body_ok b ->
  let '(t, err) := transformed (body_out b).1 (body_out b).2 in
  exists b', (body_ok b' /\ is_open b' = false) /\ ToBytes hint c r rs = Some (t, err, mkResponse (Some (mkHttp (h_StatusCode h) (h_ContentLength h) (h_Header h) (Some b') (h_closed h + (if closes b then 1 else 0)))) err t true (rs_result rs) (rs_error rs)).
Proof.
  intros He Hn Hh Hb Hok. unfold ToBytes. rewrite He, Hn, Hh, Hb. match goal with |- context[readResponseBody hint b ?x] => generalize x; intros cl end.
  assert (exists b', readResponseBody hint b cl = Some ((body_out b).1, fin (body_out b).2, b') /\ closes b' = closes b) as (b1 & -> & Hcl) by (unfold readResponseBody; destruct (_ || _); match goal with |- context[read_all ?f ?n ?i b] => destruct (read_all_spec f n (hint_pos _) i b Hok (le_n _)) as (b' & ? & ?%state_closes); by exists b' end).
  fold (transformed (body_out b).1 (body_out b).2). destruct (transformed (body_out b).1 (body_out b).2) as [t err]. exists (body_Close b1).1. split; [by apply closed_body|]. unfold set_body, set_Err, set_received, set_http, close_http. cbn. rewrite <- Hcl. unfold closes. destruct (body_Close b1) as [b2 cl2]. cbn.
  destruct err; cbn; [|rewrite He]; done.
Qed.
(** Whether the response is decoded: as the result, or as the error. *)
Definition state_of h : ResultState := match resultStateCheckFunc c with Some f => f h | None => defaultResultStateChecker h end.
Definition wanted h : option bool :=
  let no_content := h_StatusCode h =? http_StatusNoContent in
  match state_of h with
  | SuccessState => if r_Result r && negb no_content then Some false else None
  | ErrorState => if negb no_content && (r_Error r || commonErrorType c) then Some true else None
  | UnknownState => None
  end.
Definition decode h (p : bytes) : result error V :=
  let ct := Header_Get (h_Header h) "Content-Type" in
  if contains "json" ct then jsonUnmarshal c p else if contains "xml" ct then xmlUnmarshal c p else jsonUnmarshal c p.
Definition set_decoded rs (as_error : bool) (v : V) : Response := if as_error then set_error rs v else set_result rs v.
Lemma parse_wanted rs h : rs_http rs = Some h -> parseResponseBody hint c r rs = match wanted h with None => Some (None, rs) | Some as_error => decode_into hint c r (fun rs v => set_decoded rs as_error v) rs end.
Proof.
  intros Hh. unfold parseResponseBody, Response_ResultState, wanted. rewrite Hh. fold (state_of h). destruct (state_of h); [by destruct (r_Result r && _)| |done].
  destruct (h_StatusCode h =? http_StatusNoContent); cbn [negb andb]; [done|]. by destruct (_ || _).
Qed.
Lemma parse_failed rs h e : rs_http rs = Some h -> rs_Err rs = Some e -> parseResponseBody hint c r rs = Some ((if is_set (wanted h) then Some e else None), rs).
Proof. intros Hh He. rewrite (parse_wanted rs h Hh). destruct (wanted h); [|done]. cbn. unfold decode_into, unmarshalBody, ToBytes. by rewrite He. Qed.
Lemma parse_cached rs h p : rs_http rs = Some h -> rs_Err rs = None -> rs_body rs = Some p ->
  parseResponseBody hint c r rs = Some match wanted h with None => (None, rs) | Some as_error => match decode h p with Ok v => (None, set_decoded rs as_error v) | Err e => (Some e, rs) end end.
Proof.
  intros Hh He Hp. rewrite (parse_wanted rs h Hh). destruct (wanted h); [|done]. unfold decode_into, unmarshalBody, ToBytes, GetContentType, decode. rewrite He, Hp, Hh. cbn [default]. by destruct (if contains _ _ then _ else _).
Qed.

(** The limit: what can be read of a body. *)
Definition max_size : Z := getMaxResponseSize (r_maxResponseSize r) (maxResponseSize c).
Definition refused h : bool := (0 <? max_size) && negb (String.eqb (r_Method r) "HEAD") && (max_size <? h_ContentLength h).
Definition readable (src : ioReader) : bytes * error :=
  if (0 <? max_size) && (max_size <? len (content src)) then (slice_to (content src) max_size, ResponseBodyTooLargeError max_size (-1)) else (content src, rd_end src).
Lemma limit_spec h src : h_Body h = Some (Raw src) -> reader_ok src ->
  if refused h then limit_response c r h = (set_Body (close_http h) (Some NoBody), Some (ResponseBodyTooLargeError max_size (h_ContentLength h)))
  else exists b, limit_response c r h = (set_Body h (Some b), None) /\ body_ok b /\ body_out b = readable src /\ is_open b = true.
Proof.
  intros Hb Hok. unfold limit_response, applyMaxResponseSize, refused, readable. rewrite Hb. fold max_size. destruct (Z.leb_spec max_size 0) as [Hm|Hm].
  - rewrite (proj2 (Z.ltb_ge 0 max_size)) by lia. cbn [andb]. exists (Raw src). split; [|done]. by destruct h; cbn in *; subst.
  - rewrite (proj2 (Z.ltb_lt 0 max_size)) by lia. cbn [andb]. destruct (_ && _); [done|]. eexists. split; [reflexivity|]. split; [split; [done|]; cbn; split; [lia|done]|]. split; [|done]. cbn [body_out]. unfold outcome. cbn [ml_r ml_n ml_limit].
    destruct (Z.leb_spec (len (content src)) max_size), (Z.ltb_spec max_size (len (content src))); done || lia.
Qed.

Context (MkdirAll Create : string -> option error) (file_room : string -> option (Z * error)).
Abbreviation round_trip := (roundTrip hint c r MkdirAll Create file_room).
Lemma download_off rs w : isSaveResponse r = false -> handleDownload c r MkdirAll Create file_room rs w = Ok (Some (None, rs, w)).
Proof. intros Hs. unfold handleDownload. rewrite Hs. by destruct (rs_http rs). Qed.

Lemma set_Err_same rs e : rs_Err rs = e -> set_Err rs e = rs.
Proof. destruct rs. by intros <-. Qed.
(** The middlewares when there is an error, when the bytes are kept, and when nothing was read. *)
Abbreviation own_run := (run_after (own_middlewares hint c r MkdirAll Create file_room)).
Lemma own_parse rs w e rs' : parseResponseBody hint c r rs = Some (e, rs') -> own_run rs w = run_after [handleDownload c r MkdirAll Create file_room] (if is_set e then set_Err rs' e else rs') w.
Proof. intros Hp. cbn [own_middlewares run_after]. by rewrite Hp. Qed.
Lemma parse_failed_same rs h e w : rs_http rs = Some h -> rs_Err rs = Some e -> own_run rs w = run_after [handleDownload c r MkdirAll Create file_room] rs w.
Proof. intros Hh He. erewrite own_parse by by eapply parse_failed. destruct (wanted h); cbn [is_set]; [by rewrite set_Err_same|done]. Qed.
Lemma after_download_off rs w : isSaveResponse r = false -> run_after [handleDownload c r MkdirAll Create file_room] rs w = Ok (Some (rs, w)).
Proof. intros Hs. cbn [run_after]. by rewrite download_off. Qed.
(** What the response tells when its bytes are [p] and they are whole. *)
Definition decoded rs h (p : bytes) : Response :=
  match wanted h with
  | None => rs
  | Some as_error => match decode h p with Ok v => set_decoded rs as_error v | Err e => set_Err rs (Some e) end
  end.
Lemma parse_whole rs h p w : rs_http rs = Some h -> rs_Err rs = None -> rs_body rs = Some p -> own_run rs w = run_after [handleDownload c r MkdirAll Create file_room] (decoded rs h p) w.
Proof.
  intros Hh He Hp. pose proof (parse_cached rs h p Hh He Hp) as Hc. unfold decoded. destruct (wanted h) as [as_error|]; [destruct (decode h p)|]; by rewrite (own_parse _ _ _ _ Hc).
Qed.

Lemma run_after_app fs gs rs w : run_after (fs ++ gs) rs w = match run_after fs rs w with Ok (Some (rs, w)) => run_after gs rs w | x => x end.
Proof. revert rs w. induction fs as [|f fs IH]; intros rs w; [done|]. cbn. destruct (f rs w) as [[[[e rs'] w']|]|]; [apply IH|done|done]. Qed.
(** C15: a response is read whole, closed once, and decoded as it says, before the user's [OnAfterResponse] functions run. When
    neither the client nor the request turned the reading off, and the transformer gives no nil body, a response with a status above 199 that is not
    saved is refused when its [Content-Length] is above the limit; else what the limit lets through is
    read to its end, the transformer is applied, and the bytes are kept and can be read again from the body. The
    error is the one of the body, of the limit, of the transformer or of the unmarshaller, in that
    order; the result or the error value is decoded only from a body without one, and never both. *)
Theorem response_read_whole h src user w : h_Body h = Some (Raw src) -> reader_ok src -> (forall f p, responseBodyTransformer c = Some f -> (f p).2 = None -> (f p).1 <> None) ->
  disableAutoReadResponse c = false -> r_disableAutoReadResponse r = false -> isSaveResponse r = false -> 199 < h_StatusCode h ->
  exists rs h', round_trip None (Some h, None) user w = run_after user rs w /\ rs_http rs = Some h' /\ h_closed h' = S (h_closed h) /\ h_StatusCode h' = h_StatusCode h /\
    if refused h then rs_Err rs = Some (ResponseBodyTooLargeError max_size (h_ContentLength h)) /\ rs_body rs = None /\ rs_result rs = None /\ rs_error rs = None
    else let '(p, e) := readable src in let '(t, err) := transformed p e in rs_body rs = t /\ h_Body h' = Some (Mem (default [] t)) /\
      match err, wanted h' with
      | Some e, _ => rs_Err rs = Some e /\ rs_result rs = None /\ rs_error rs = None
      | None, None => rs_Err rs = None /\ rs_result rs = None /\ rs_error rs = None
      | None, Some as_error =>
          match decode h' (default [] t) with
          | Ok v => rs_Err rs = None /\ rs_result rs = (if as_error then None else Some v) /\ rs_error rs = (if as_error then Some v else None)
          | Err e => rs_Err rs = Some e /\ rs_result rs = None /\ rs_error rs = None
          end
      end.
Proof.
  intros Hb Hok Htr H1 H2 H3 Hst. pose proof (limit_spec h src Hb Hok) as Hl. unfold roundTrip. destruct (refused h).
  - rewrite Hl. unfold auto_read. cbn [set_Err set_http rs_Err is_set orb]. rewrite run_after_app. erewrite parse_failed_same by reflexivity. rewrite after_download_off by done. do 2 eexists. split; [reflexivity|]. split; [reflexivity|].
    unfold set_Body, close_http. rewrite Hb. cbn. split; [lia|]. done.
  - destruct Hl as (b & -> & Hbok & Hout & Hcl%open_closes). unfold auto_read. cbn [set_Err set_http rs_Err is_set orb rs_http]. rewrite H1, H2, H3. cbn [orb set_Body h_StatusCode]. rewrite (proj2 (Z.ltb_lt 199 _)) by done.
    match goal with |- context[ToBytes hint c r ?x] => set (rs0 := x) end. pose proof (ToBytes_fresh rs0 (set_Body h (Some b)) b eq_refl eq_refl eq_refl eq_refl Hbok) as Ht. rewrite Hout in Ht. destruct (readable src) as [p e]. cbn [fst snd] in Ht. destruct (transformed p e) as [t err] eqn:Etr. destruct Ht as (b' & _ & ->). rewrite Hcl. cbn [rs_http set_http rs_body set_Body].
    destruct err as [x|].
    + rewrite run_after_app. erewrite parse_failed_same by reflexivity. rewrite after_download_off by done. do 2 eexists. split; [reflexivity|]. split; [reflexivity|]. cbn. split; [lia|]. done.
    + destruct t as [t|]; [|exfalso]. 2: { unfold transformed in Etr. destruct (fin e), (responseBodyTransformer c) as [f|] eqn:Ef; try done. by apply (Htr f p); rewrite ?Etr. }
      rewrite run_after_app. erewrite parse_whole by reflexivity. rewrite after_download_off by done. unfold decoded. match goal with |- context[wanted ?x] => set (h' := x) end.
      assert (h_closed h' = S (h_closed h)) as Hn by (cbn; lia).
      destruct (wanted h') as [as_error|] eqn:Ew; [destruct (decode h' t) as [v|x] eqn:Ed|]; eexists _, h'; (split; [reflexivity|]); rewrite Ew; try destruct as_error; cbn; rewrite ?Ed; (split; [done|]); (split; [lia|]); done.
Qed.

(** Saving. *)
Lemma save_spec rs output b : body_ok b -> sink_ok output ->
  exists rs' o b', save rs output b = Some ((copied output (body_out b).1 (body_out b).2).2, rs', o) /\ sk_data o = (copied output (body_out b).1 (body_out b).2).1 /\ sk_closer o = sk_closer output /\ (sk_closer o = true -> sk_closed o = true) /\ state b' = state b /\
    rs' = match rs_body rs, rs_http rs with None, Some h => set_http (set_received rs) (close_http (set_Body h (Some b'))) | _, _ => set_received rs end.
Proof.
  intros Hb Hs. destruct (io_Copy_spec (body_fuel b) output b Hb Hs (le_n _)) as (w' & b' & Hc & Hd & Hcl & Hb'). unfold save. rewrite Hc. eexists _, _, b'. split; [reflexivity|]. unfold closeq. rewrite <- Hcl. destruct (sk_closer w') eqn:Ec; cbn; rewrite ?Ec; (split; [done|]); (split; [congruence|]); split; try done.
Qed.
(** Where the response is saved. *)
Definition saved_to w : sink := if String.eqb (outputFile r) "" then w_output w else mkSink [] true false (file_room (output_path c r)).
Definition path_fails : bool := negb (String.eqb (outputFile r) "") && (is_set (MkdirAll (Dir (output_path c r))) || is_set (Create (output_path c r))).
Definition saved_world w (o : sink) : world := if String.eqb (outputFile r) "" then mkWorld (w_files w) o else mkWorld (<[output_path c r := sk_data o]> (w_files w)) (w_output w).
Lemma download_on rs h b w : isSaveResponse r = true -> path_fails = false -> rs_http rs = Some h -> (is_too_large (rs_Err rs) = true -> rs_body rs <> None) -> match rs_body rs with Some p => Some (Mem p) | None => h_Body h end = Some b ->
  handleDownload c r MkdirAll Create file_room rs w = Ok match save rs (saved_to w) b with None => None | Some (err, rs, o) => Some (err, rs, saved_world w o) end.
Proof.
  intros Hs Hp Hh Ht Hb. unfold handleDownload, saved_to, saved_world. rewrite Hh, Hs, Hb. cbn [negb]. assert (is_too_large (rs_Err rs) && negb (is_set (rs_body rs)) = false) as -> by (destruct (is_too_large _); [by destruct (rs_body rs); [|destruct Ht]|done]).
  unfold path_fails in Hp. destruct (String.eqb (outputFile r) ""); cbn [negb andb] in *; [done|]. destruct (MkdirAll _), (Create _); done.
Qed.

(** C28: a response is saved as it comes. One that is not refused and not to be decoded, and whose output file can be
    made, is copied to the file or the writer as far as
    its body, the limit and the disk let it: the file has exactly these bytes, the writer has them after what it had, the error
    says which of the three ended it, if not the end; nothing is kept in memory, the body is closed once, and the
    writer too if it can be. *)
Theorem response_saved h src w : h_Body h = Some (Raw src) -> reader_ok src -> refused h = false -> wanted (limit_response c r h).1 = None ->
  isSaveResponse r = true -> path_fails = false -> sink_ok (saved_to w) ->
  exists rs h' o, round_trip None (Some h, None) [] w = Ok (Some (rs, saved_world w o)) /\ rs_http rs = Some h' /\ h_closed h' = S (h_closed h) /\ rs_body rs = None /\
    let '(p, e) := readable src in let '(data, err) := copied (saved_to w) p e in sk_data o = data /\ rs_Err rs = err /\ (sk_closer (saved_to w) = true -> sk_closed o = true).
Proof.
  intros Hb Hok Hr Hw Hs Hp Hsink. pose proof (limit_spec h src Hb Hok) as Hl. rewrite Hr in Hl. destruct Hl as (b & Hl & Hbok & Hout & Hcl%open_closes). rewrite Hl in Hw. cbn [fst] in Hw.
  unfold roundTrip. rewrite app_nil_r, Hl. unfold auto_read. cbn [set_Err set_http rs_Err is_set orb]. rewrite Hs, orb_true_r. cbn [orb]. erewrite own_parse by (erewrite parse_wanted by reflexivity; by rewrite Hw). cbn [is_set run_after].
  erewrite download_on; [|done|done|reflexivity|done|reflexivity]. match goal with |- context[save ?x _ _] => destruct (save_spec x (saved_to w) b Hbok Hsink) as (rs' & o & b' & -> & Hd & Hc & Hcc & Hb' & ->) end. cbn [rs_body rs_http set_http set_Err].
  rewrite Hout in *. destruct (readable src) as [p e]. cbn [fst snd] in *. destruct (copied (saved_to w) p e) as [data err]. cbn [fst snd] in *.
  set (h' := close_http _). apply state_closes in Hb'. assert (h_closed h' = S (h_closed h)) as Hn by (rewrite <- Hb' in Hcl; unfold h', close_http, closes in *; cbn [h_Body set_Body]; destruct (body_Close b') as [b2 cl]; cbn in *; subst; lia).
  eexists _, h', o. split; [destruct err; reflexivity|]. destruct err; (split; [done|]); (split; [done|]); (split; [done|]); (split; [done|]); (split; [done|]); intros Hcl'; apply Hcc; by rewrite Hc.
Qed.

(** What a step makes of the transport's body: it stays open and nobody closed it, or it was closed, at least once, by the step or before it.
    The response and its body are there as before. *)
Definition body_kept rs rs' : Prop :=
  match rs_http rs, rs_http rs' with
  | None, None => True
  | Some h, Some h' =>
      match h_Body h, h_Body h' with
      | None, None => True
      | Some b, Some b' => body_ok b -> body_ok b' /\
          if is_open b' then is_open b = true /\ h_closed h' = h_closed h else (h_closed h + (if is_open b then 1 else 0) <= h_closed h')%nat
      | _, _ => False
      end
  | _, _ => False
  end.
Lemma kept_same rs rs' : rs_http rs' = rs_http rs -> body_kept rs rs'.
Proof. unfold body_kept. intros ->. destruct (rs_http rs) as [h|]; [|done]. destruct (h_Body h) as [b|]; [|done]. intros Hb. split; [done|]. destruct (is_open b); [done|lia]. Qed.
Lemma kept_trans rs1 rs2 rs3 : body_kept rs1 rs2 -> body_kept rs2 rs3 -> body_kept rs1 rs3.
Proof.
  unfold body_kept. destruct (rs_http rs1) as [h1|], (rs_http rs2) as [h2|], (rs_http rs3) as [h3|]; try done. destruct (h_Body h1) as [b1|], (h_Body h2) as [b2|], (h_Body h3) as [b3|]; try done.
  intros H12 H23 Hb1. destruct (H12 Hb1) as [Hb2 H2]. destruct (H23 Hb2) as [Hb3 H3]. split; [done|]. destruct (is_open b3), (is_open b2), (is_open b1); intuition (try done; lia).
Qed.
(** The body is still open. *)
Definition still_open rs : bool := match rs_http rs with Some h => match h_Body h with Some b => is_open b | None => false end | None => false end.
Lemma kept_open rs rs' : (forall h b, rs_http rs = Some h -> h_Body h = Some b -> body_ok b) -> body_kept rs rs' -> still_open rs' = true -> still_open rs = true.
Proof.
  unfold body_kept, still_open. intros Hok. destruct (rs_http rs) as [h|], (rs_http rs') as [h'|]; try done. destruct (h_Body h) as [b|] eqn:Hb, (h_Body h') as [b'|]; try done.
  intros H Ho. destruct (H (Hok h b eq_refl Hb)) as [_ H']. rewrite Ho in H'. by destruct H'.
Qed.
(** A response whose body is there and was never closed while it is open, or was closed. *)
Definition accounted rs : Prop := exists h b, rs_http rs = Some h /\ h_Body h = Some b /\ body_ok b /\ if is_open b then h_closed h = 0%nat else (0 < h_closed h)%nat.
Lemma kept_accounted rs rs' : body_kept rs rs' -> accounted rs -> accounted rs'.
Proof.
  intros Hk (h & b & Hh & Hb & Hok & Hn). unfold body_kept in Hk. rewrite Hh, Hb in Hk. destruct (rs_http rs') as [h'|] eqn:Hh'; [|done]. destruct (h_Body h') as [b'|] eqn:Hb'; [|done].
  destruct (Hk Hok) as [Hok' H]. exists h', b'. split; [done|]. split; [done|]. split; [done|]. destruct (is_open b'); [destruct H as [Ho ->]; by rewrite Ho in Hn|]. destruct (is_open b); lia.
Qed.
Lemma accounted_ok rs : accounted rs -> forall h b, rs_http rs = Some h -> h_Body h = Some b -> body_ok b.
Proof. intros (h & b & Hh & Hb & Hok & _) h' b' Hh' Hb'. congruence. Qed.
(** What is kept, or an error, comes with a body that is closed. *)
Definition settled rs : Prop := rs_body rs <> None \/ rs_Err rs <> None -> still_open rs = false.
Lemma ToBytes_kept rs : accounted rs -> settled rs -> exists p err rs', ToBytes hint c r rs = Some (p, err, rs') /\ body_kept rs rs' /\ still_open rs' = false.
Proof.
  intros (h & b & Hh & Hb & Hok & HN) Hs. unfold settled in Hs. destruct (rs_Err rs) as [e|] eqn:He.
  { exists None, (Some e), rs. unfold ToBytes. rewrite He. split; [done|]. split; [by apply kept_same|]. apply Hs. by right. }
  destruct (rs_body rs) as [p|] eqn:Ep.
  { exists (Some p), None, rs. unfold ToBytes. rewrite He, Ep. split; [done|]. split; [by apply kept_same|]. apply Hs. by left. }
  pose proof (ToBytes_fresh rs h b He Ep Hh Hb Hok) as Ht. destruct (transformed _ _) as [t err]. destruct Ht as (b' & [Hok' Hcl'] & ->). eexists _, _, _. split; [reflexivity|]. unfold body_kept, still_open. rewrite Hh, Hb. cbn [rs_http h_Body h_closed]. rewrite Hcl'. split; [|done].
  intros _. split; [done|]. pose proof (open_closes b). destruct (is_open b); [rewrite H by done; lia|lia].
Qed.
Lemma decode_kept rs set : (forall rs v, rs_http (set rs v) = rs_http rs) -> accounted rs -> settled rs ->
  exists e rs', decode_into hint c r set rs = Some (e, rs') /\ body_kept rs rs' /\ still_open rs' = false.
Proof.
  intros Hset Ha Hs. destruct (ToBytes_kept rs Ha Hs) as (p & err & rs1 & Ht & Hk & Ho). unfold decode_into, unmarshalBody. rewrite Ht. destruct err as [e|]; [by eexists _, _|]. destruct (if contains _ _ then _ else _) as [v|e]; [|by eexists _, _].
  eexists _, _. split; [reflexivity|]. split; [eapply kept_trans; [exact Hk|by apply kept_same]|]. unfold still_open in *. by rewrite Hset.
Qed.
Lemma parse_kept rs : accounted rs -> settled rs ->
  exists e rs', parseResponseBody hint c r rs = Some (e, rs') /\ body_kept rs rs' /\ (rs' = rs /\ e = None \/ still_open rs' = false).
Proof.
  intros Ha Hs. destruct Ha as (h & b & Hh & Hrest). assert (accounted rs) as Ha by by exists h, b. rewrite (parse_wanted rs h Hh). destruct (wanted h) as [as_error|]; [|eexists _, _; split; [reflexivity|]; split; [by apply kept_same|by left]].
  destruct (decode_kept rs (fun rs v => set_decoded rs as_error v)) as (e & rs' & Hd & Ha' & Ho); [by destruct as_error|done|done|]. exists e, rs'. rewrite Hd. split; [done|]. split; [done|by right].
Qed.
Lemma download_kept rs w : accounted rs -> settled rs -> sink_ok (saved_to w) ->
  exists e rs' w', handleDownload c r MkdirAll Create file_room rs w = Ok (Some (e, rs', w')) /\ body_kept rs rs' /\ (still_open rs' = true -> isSaveResponse r = true -> path_fails = true).
Proof.
  intros Ha Hs Hk. destruct (isSaveResponse r) eqn:Esv; [|rewrite download_off by done; eexists _, _, _; split; [reflexivity|]; split; [by apply kept_same|done]]. destruct Ha as (h & b & Hh & Hb & Hok & HN).
  destruct (is_too_large (rs_Err rs) && negb (is_set (rs_body rs))) eqn:Etl.
  { exists None, rs, w. unfold handleDownload. rewrite Hh, Esv, Etl. split; [done|]. split; [by apply kept_same|]. rewrite Hs; [done|]. right. intros He. by rewrite He in Etl. }
  destruct path_fails eqn:Ep.
  { assert (exists e, handleDownload c r MkdirAll Create file_room rs w = Ok (Some (Some e, rs, w))) as [e He].
    { unfold handleDownload. rewrite Hh, Esv, Etl. cbn [negb]. unfold path_fails in Ep. destruct (negb (String.eqb (outputFile r) "")); [|done]. destruct (MkdirAll _) as [e|]; [by exists e|]. destruct (Create _) as [e|]; [by exists e|done]. }
    exists (Some e), rs, w. split; [done|]. split; [by apply kept_same|done]. }
  assert (exists b0, match rs_body rs with Some p => Some (Mem p) | None => h_Body h end = Some b0 /\ body_ok b0 /\ (rs_body rs = None -> b0 = b)) as (b0 & Hb0 & Hok0 & Heq) by (destruct (rs_body rs); [by eexists|by exists b]).
  erewrite download_on; [|done|done|exact Hh| |exact Hb0]. 2: { intros Ht Hn. by rewrite Ht, Hn in Etl. }
  destruct (save_spec rs (saved_to w) b0 Hok0 Hk) as (rs' & o & b' & -> & _ & _ & _ & Hcl & ->). destruct (rs_body rs) as [p|] eqn:Ebody.
  - eexists _, _, _. split; [reflexivity|]. split; [by apply kept_same|]. change (still_open (set_received rs)) with (still_open rs). rewrite Hs by (left; by rewrite Ebody). done.
  - rewrite Hh. eexists _, _, _. split; [reflexivity|]. specialize (Heq eq_refl). subst b0. destruct (closed_body b') as [Hok2 Hop2]. apply state_closes in Hcl. unfold close_http. cbn [h_Body set_Body]. unfold closes in Hcl at 1. destruct (body_Close b') as [b2 n] eqn:Eb. cbn [fst snd] in *. split.
    + unfold body_kept. rewrite Hh, Hb. cbn. rewrite Hop2. intros _. split; [done|]. pose proof (open_closes b). subst n. destruct (is_open b); [rewrite H by done; lia|lia].
    + unfold still_open. cbn. by rewrite Hop2.
Qed.
Lemma own_kept rs w : accounted rs -> settled rs -> sink_ok (saved_to w) ->
  exists rs' w', own_run rs w = Ok (Some (rs', w')) /\ body_kept rs rs' /\ (still_open rs' = true -> isSaveResponse r = true -> path_fails = true).
Proof.
  intros Ha Hs Hk. destruct (parse_kept rs Ha Hs) as (e & rs1 & Hp & Hk1 & Hor). rewrite (own_parse _ _ _ _ Hp). set (rs2 := if is_set e then set_Err rs1 e else rs1).
  assert (body_kept rs1 rs2 /\ still_open rs2 = still_open rs1) as [Hk2 Ho2] by (unfold rs2; destruct (is_set e); split; try done; by apply kept_same).
  assert (settled rs2) as Hs2. { destruct Hor as [[-> ->]|Ho]; [done|]. intros _. by rewrite Ho2. }
  assert (body_kept rs rs2) as Hk12 by by eapply kept_trans.
  destruct (download_kept rs2 w (kept_accounted _ _ Hk12 Ha) Hs2 Hk) as (e' & rs3 & w' & Hd & Hk3 & Ho3). cbn [run_after]. rewrite Hd. eexists _, w'. split; [reflexivity|].
  assert (rs_http (if is_set e' then set_Err rs3 e' else rs3) = rs_http rs3) as Hsame by by destruct (is_set e'). split.
  - eapply kept_trans; [exact Hk12|]. eapply kept_trans; [exact Hk3|by apply kept_same].
  - unfold still_open. rewrite Hsame. exact Ho3.
Qed.
Lemma auto_read_kept rs : accounted rs -> settled rs ->
  exists rs', auto_read hint c r rs = Ok (Some rs') /\ body_kept rs rs' /\ settled rs' /\
    (still_open rs' = true -> disableAutoReadResponse c || isSaveResponse r || r_disableAutoReadResponse r || match rs_http rs with Some h => h_StatusCode h <=? 199 | None => false end = true).
Proof.
  intros Ha Hs. assert (still_open rs = true -> rs_Err rs = None) as Hne by (intros Ho; destruct (rs_Err rs) eqn:Ee; [|done]; rewrite Hs in Ho; [done|by rewrite Ee; right]). destruct Ha as (h & b & Hh & Hrest). assert (accounted rs) as Ha by by exists h, b. unfold auto_read. rewrite Hh.
  destruct (is_set (rs_Err rs) || disableAutoReadResponse c || isSaveResponse r || r_disableAutoReadResponse r) eqn:Eoff.
  { exists rs. split; [done|]. split; [by apply kept_same|]. split; [done|]. intros Ho. rewrite (Hne Ho) in Eoff. cbn [is_set orb] in Eoff. by rewrite Eoff. }
  destruct (Z.ltb_spec 199 (h_StatusCode h)) as [Hst|Hst]; [|exists rs; split; [done|]; split; [by apply kept_same|]; split; [done|]; intros Ho; rewrite (proj2 (Z.leb_le _ _)) by done; by rewrite orb_true_r].
  destruct (ToBytes_kept rs Ha Hs) as (p & err & rs1 & -> & Hk1 & Ho1). pose proof (kept_accounted _ _ Hk1 Ha) as (h1 & b1 & Hh1 & Hb1 & Hok1 & HN1). rewrite Hh1. eexists. split; [reflexivity|]. split; [|split].
  - eapply kept_trans; [exact Hk1|]. unfold body_kept. rewrite Hh1, Hb1. cbn. unfold still_open in Ho1. rewrite Hh1, Hb1 in Ho1. rewrite Ho1. intros _. split; [done|lia].
  - done.
  - done.
Qed.
(** The user's [OnAfterResponse] functions: they return, and do not put another body in place of an open one. *)
Definition user_ok (f : @middleware V) : Prop := forall rs w, exists e rs' w', f rs w = Ok (Some (e, rs', w')) /\ body_kept rs rs'.
Lemma user_kept user : Forall user_ok user -> forall rs w, exists rs' w', run_after user rs w = Ok (Some (rs', w')) /\ body_kept rs rs'.
Proof.
  induction 1 as [|f user Hf _ IH]; intros rs w; [by exists rs, w; split; [|apply kept_same]|]. cbn. destruct (Hf rs w) as (e & rs1 & w1 & -> & Hk1). destruct (IH (if is_set e then set_Err rs1 e else rs1) w1) as (rs2 & w2 & -> & Hk2). exists rs2, w2. split; [done|].
  eapply kept_trans; [exact Hk1|]. eapply kept_trans; [|exact Hk2]. apply kept_same. by destruct (is_set e).
Qed.
(** What [http.Client.Do] returns: a response whose body is open, an error, or an error with a response whose body is closed. *)
Definition do_ok (Do : option httpResponse * option error) : Prop :=
  match Do with
  | (Some h, None) => h_closed h = 0%nat /\ exists src, h_Body h = Some (Raw src) /\ reader_ok src
  | (Some h, Some _) => (0 < h_closed h)%nat /\ exists e, h_Body h = Some (Closed e)
  | (None, Some _) => True
  | (None, None) => False
  end.
(** When the body of a response may be left to the caller. *)
Definition left_to_caller h : bool :=
  if isSaveResponse r then path_fails else disableAutoReadResponse c || r_disableAutoReadResponse r || (h_StatusCode h <=? 199).

(** C16: the body of a response is never lost. Whatever the settings, what [http.Client.Do] returns, the bytes that arrive, the
    marshallers and the transformer, and the user's middlewares that do not replace an open body, the round trip ends without a
    panic, and the body of the response, if there is one, was closed at least once (where it is closed again, that finds it closed), or
    is still open and was not touched; the latter only when the response is to be read by the caller, or the path where it is to
    be saved fails. *)
Theorem response_released Do user w : do_ok Do -> Forall user_ok user -> sink_ok (saved_to w) ->
  exists rs w', round_trip None Do user w = Ok (Some (rs, w')) /\
    match Do.1 with
    | None => rs_http rs = None
    | Some h => exists h' b', rs_http rs = Some h' /\ h_Body h' = Some b' /\
        if is_open b' then h_closed h' = 0%nat /\ Do.2 = None /\ left_to_caller h = true else (0 < h_closed h')%nat
    end.
Proof.
  intros Hdo Hu Hk. unfold roundTrip. destruct Do as [oh err]. cbn [fst snd]. destruct oh as [h|].
  2: { destruct err as [e|]; [|done]. cbn [set_http]. unfold auto_read. cbn [rs_Err is_set orb]. rewrite run_after_app. cbn. destruct (user_kept user Hu (mkResponse None (Some e) None false None None) w) as (rs & w' & Hr & Hkept).
       exists rs, w'. split; [exact Hr|]. unfold body_kept in Hkept. cbn in Hkept. by destruct (rs_http rs). }
  set (rs0 := match err with None => _ | Some _ => _ end).
  assert (accounted rs0 /\ settled rs0 /\ (still_open rs0 = true -> err = None) /\ exists h0, rs_http rs0 = Some h0 /\ h_StatusCode h0 = h_StatusCode h) as (Ha0 & Hs0 & He0 & h0 & Hh0 & Hst0).
  { destruct err as [e|].
    - destruct Hdo as (Hn & e' & Hb). unfold rs0, settled, still_open. cbn. rewrite Hb. cbn. split; [by exists h, (Closed e')|]. split; [done|]. split; [done|]. by exists h.
    - destruct Hdo as (Hn & src & Hb & Hok). pose proof (limit_spec h src Hb Hok) as Hl. unfold rs0. cbn [set_http]. destruct (refused h).
      + rewrite Hl. unfold settled, still_open, close_http. rewrite Hb. cbn. split; [eexists _, NoBody; split; [done|]; split; [done|]; split; [done|]; cbn; lia|]. split; [done|]. split; [done|]. by eexists.
      + destruct Hl as (b & -> & Hbok & _ & Hop). unfold settled, still_open. cbn. split; [exists (set_Body h (Some b)), b; rewrite Hop; done|]. split; [by intros [?|?]|]. split; [done|]. by eexists. }
  clearbody rs0. destruct (auto_read_kept rs0 Ha0 Hs0) as (rs1 & -> & Hk1 & Hs1 & Ho1). pose proof (kept_accounted _ _ Hk1 Ha0) as Ha1. rewrite run_after_app.
  destruct (own_kept rs1 w Ha1 Hs1 Hk) as (rs2 & w2 & -> & Hk2 & Ho2). pose proof (kept_accounted _ _ Hk2 Ha1) as Ha2. destruct (user_kept user Hu rs2 w2) as (rs3 & w3 & -> & Hk3). pose proof (kept_accounted _ _ Hk3 Ha2) as (h' & b' & Hh' & Hb' & Hok' & HN').
  exists rs3, w3. split; [done|]. exists h', b'. split; [done|]. split; [done|]. destruct (is_open b') eqn:Eop; [|done]. split; [done|].
  assert (still_open rs3 = true) as Hop3 by (unfold still_open; by rewrite Hh', Hb'). apply (kept_open _ _ (accounted_ok _ Ha2) Hk3) in Hop3 as Hop2. apply (kept_open _ _ (accounted_ok _ Ha1) Hk2) in Hop2 as Hop1. apply (kept_open _ _ (accounted_ok _ Ha0) Hk1) in Hop1 as Hop0.
  split; [by apply He0|]. specialize (Ho1 Hop1). specialize (Ho2 Hop2). rewrite Hh0, Hst0 in Ho1. unfold left_to_caller. destruct (isSaveResponse r); [by apply Ho2|]. by rewrite orb_false_r in Ho1.
Qed.
End Spec.

(** ** Examples *)
Definition ex_hint (q : option Z) (i : nat) : Z := 512.
Lemma ex_hint_pos q i : 0 < ex_hint q i.
Proof. done. Qed.
Definition ex_client : Client := mkClient false 8 "out" false None None (fun p => match p with 123 :: _ => Ok p | _ => Err (errors_New "json") end) (fun p => Ok p).
Definition ex_get : Request := mkReq "GET" None false false "" true false.
Definition ex_save (file : string) : Request := mkReq "GET" None false true file false false.
Definition ex_json (segments : list bytes) (cl : Z) : httpResponse := mkHttp 200 cl {["Content-Type"%string := ["application/json"%string]]} (Some (Raw (mkReader segments io_EOF))) 0.
Definition ex_disk : world := mkWorld ∅ (mkSink [35] false false None).
Definition no_fail (path : string) : option error := None.
Definition no_room (path : string) : option (Z * error) := None.
Abbreviation ex_run c r := (roundTrip ex_hint c r no_fail no_fail no_room None).

Lemma response_read_whole_witness :
  exists rs h', ex_run ex_client ex_get (Some (ex_json [[123; 34]; [34; 125]] (-1)), None) [] ex_disk = Ok (Some (rs, ex_disk)) /\ rs_http rs = Some h' /\ h_closed h' = 1%nat /\
    rs_body rs = Some [123; 34; 34; 125] /\ rs_result rs = Some [123; 34; 34; 125] /\ rs_error rs = None /\ rs_Err rs = None.
Proof.
  destruct (response_read_whole ex_hint ex_hint_pos ex_client ex_get no_fail no_fail no_room (ex_json [[123; 34]; [34; 125]] (-1)) (mkReader [[123; 34]; [34; 125]] io_EOF) [] ex_disk eq_refl
    ltac:(repeat constructor; discriminate) ltac:(intros f p [=]) eq_refl eq_refl eq_refl ltac:(reflexivity)) as (rs & h' & Hrun & Hh & Hc & Hst & Hrest).
  cbn [run_after] in Hrun. exists rs, h'. split; [exact Hrun|]. split; [exact Hh|]. split; [exact Hc|]. assert (refused ex_client ex_get (ex_json [[123; 34]; [34; 125]] (-1)) = false) as E by reflexivity. rewrite E in Hrest. cbn [readable] in Hrest.
  vm_compute in Hrun. injection Hrun as <-. cbn in Hh. injection Hh as <-. vm_compute. done.
Defined.
Lemma response_saved_witness :
  exists rs h' o, ex_run ex_client (ex_save "a/../b.bin") (Some (ex_json [[1; 2; 3; 4]; [5; 6; 7]; [8; 9]] (-1)), None) [] ex_disk = Ok (Some (rs, mkWorld {["out/b.bin"%string := sk_data o]} (w_output ex_disk))) /\
    rs_http rs = Some h' /\ h_closed h' = 1%nat /\ sk_data o = [1; 2; 3; 4; 5; 6; 7; 8] /\ rs_Err rs = Some (ResponseBodyTooLargeError 8 (-1)).
Proof.
  destruct (response_saved ex_hint ex_client (ex_save "a/../b.bin") no_fail no_fail no_room (ex_json [[1; 2; 3; 4]; [5; 6; 7]; [8; 9]] (-1)) (mkReader [[1; 2; 3; 4]; [5; 6; 7]; [8; 9]] io_EOF) ex_disk eq_refl
    ltac:(repeat constructor; discriminate) ltac:(reflexivity) ltac:(reflexivity) eq_refl ltac:(reflexivity) ltac:(exact I)) as (rs & h' & o & Hrun & Hh & Hc & _ & Hd & He & _).
  exists rs, h', o. split; [exact Hrun|]. split; [exact Hh|]. split; [exact Hc|]. split; [exact Hd|exact He].
Defined.
(** A function that notes an error for a status it does not like, and reads no body. *)
Definition ex_after (rs : @Response bytes) (w : world) : result string (option (option error * @Response bytes * world)) :=
  Ok (Some (if match rs_http rs with Some h => h_StatusCode h =? 200 | None => false end then None else Some (errors_New "status"), rs, w)).
Lemma ex_after_ok : user_ok ex_after.
Proof. intros rs w. eexists _, rs, w. split; [reflexivity|by apply kept_same]. Qed.
Lemma response_released_witness :
  exists rs w' h' b', ex_run ex_client (ex_save "b.bin") (Some (ex_json [[1; 2]; [3]] (-1)), None) [ex_after] ex_disk = Ok (Some (rs, w')) /\ rs_http rs = Some h' /\ h_Body h' = Some b' /\ is_open b' = false /\ (0 < h_closed h')%nat.
Proof.
  destruct (response_released ex_hint ex_hint_pos ex_client (ex_save "b.bin") no_fail no_fail no_room (Some (ex_json [[1; 2]; [3]] (-1)), None) [ex_after] ex_disk) as (rs & w' & Hrun & h' & b' & Hh & Hb & Hl).
  - split; [reflexivity|]. eexists. split; [reflexivity|]. repeat constructor; discriminate.
  - repeat constructor. exact ex_after_ok.
  - exact I.
  - exists rs, w', h', b'. split; [exact Hrun|]. split; [exact Hh|]. split; [exact Hb|]. destruct (is_open b'); [destruct Hl as (_ & _ & Hl); vm_compute in Hl; discriminate|]. split; [reflexivity|exact Hl].
Defined.
(** A body that is read for a result, transformed to nil and then saved is closed twice; the copy finds it closed. *)
Example closed_twice :
  match ex_run (mkClient false 0 "out" false (Some (fun p => (None, None))) None (fun p => Ok p) (fun p => Ok p)) (mkReq "GET" None false true "b.bin" true false) (Some (ex_json [[1; 2]; [3]] (-1)), None) [] ex_disk with
  | Ok (Some (rs, _)) => (h_closed <$> rs_http rs) = Some 2%nat /\ rs_Err rs = Some errReadOnClosedResBody
  | _ => False
  end.
Proof. vm_compute. done. Qed.

(** The directory of the file cannot be made: the error is returned, and the body stays open. *)
Example failed_path_leaves_body_open :
  match roundTrip ex_hint ex_client (ex_save "b.bin") (fun _ => Some (errors_New "permission denied")) no_fail no_room None (Some (ex_json [[1; 2]; [3]] (-1)), None) [] ex_disk with
  | Ok (Some (rs, _)) => rs_Err rs = Some (errors_New "permission denied") /\ (h_closed <$> rs_http rs) = Some 0%nat
  | _ => False
  end.
Proof. vm_compute. done. Qed.
(** A redirect that the policy refuses comes with a response whose body is closed. When it is to be saved, the error of the policy is
    replaced by the one of the copy. *)
Example refused_redirect_error_lost :
  match ex_run ex_client (ex_save "b.bin") (Some (mkHttp 302 0 ∅ (Some (Closed errReadOnClosedResBody)) 1), Some (errors_New "stopped after 10 redirects")) [] ex_disk with
  | Ok (Some (rs, w)) => rs_Err rs = Some errReadOnClosedResBody /\ w_files w !! "out/b.bin"%string = Some []
  | _ => False
  end.
Proof. vm_compute. done. Qed.
(** A response that is retried was saved before: the writer of [SetOutput] has both. *)
Example every_attempt_is_saved :
  match ex_run ex_client (ex_save "") (Some (mkHttp 503 1 ∅ (Some (Raw (mkReader [[1]] io_EOF))) 0), None) [] ex_disk with
  | Ok (Some (_, w)) =>
      match ex_run ex_client (ex_save "") (Some (mkHttp 200 2 ∅ (Some (Raw (mkReader [[2; 3]] io_EOF))) 0), None) [] w with
      | Ok (Some (rs, w)) => rs_Err rs = None /\ sk_data (w_output w) = [35; 1; 2; 3]
      | _ => False
      end
  | _ => False
  end.
Proof. vm_compute. done. Qed.
(** A transformer that gives nil is asked again, about no bytes. *)
Example nil_transformed_twice :
  let c := mkClient false 0 "" false (Some (fun p => match p with [] => (Some [123], None) | _ => (None, None) end)) None (fun p => Ok p) (fun p => Ok p) in
  match ex_run c ex_get (Some (ex_json [[5]] 1), None) [] ex_disk with Ok (Some (rs, _)) => rs_result rs = Some [123] | _ => False end.
Proof. vm_compute. done. Qed.
