(* ===== verification/ReqSend.v ===== *)
(** * What a client sends and reports ([src/middleware.go], [src/client.go])

    The path parameters of [parseRequestURL], the [http.Request] that [Client.roundTrip] makes,
    and the readers and writers that report progress. *)

From S2P Require Import Prelude.
From S2P Require Import H2Errors.
From S2P Require Import NetText.
From S2P Require Import Bufio.
From S2P Require Import TransferWrite.
From S2P Require Import ReqPrepare.
From S2P Require Import ReqResponse.
From S2P Require Import ReqResult.
From Stdlib Require Import Sorting.Sorted.

(** ** Path parameters *)
(** [strings.Replace(s, old, new, -1)] for [old] not empty; [skip]: bytes left of a match. *)
Fixpoint replace_from (skip : nat) (s old new : bytes) : bytes :=
  match s with
  | [] => []
  | b :: rest =>
      match skip with
      | S skip => replace_from skip rest old new
      | O => if bool_decide (take (length old) s = old) then new ++ replace_from (length old - 1) rest old new else b :: replace_from 0 rest old new
      end
  end.
Definition replace_all (s old new : bytes) : bytes := replace_from 0 s old new.
(** [url.PathEscape]. *)
Definition path_segment_byte (b : byte) : bool := unreserved b || existsb (Z.eqb b) [36; 38; 43; 58; 61; 64].
Definition PathEscape (v : bytes) : bytes := flat_map (fun b => if path_segment_byte b then [b] else [37; hex_upper (Z.shiftr b 4); hex_upper (Z.land b 15)]) v.
Definition placeholder (p : bytes) : bytes := 123 :: p ++ [125].
(** One of the four loops; [params] in the order in which the map is visited. *)
Definition fill (value : bytes -> bytes) (params : list (bytes * bytes)) (url : bytes) : bytes :=
  fold_left (fun url kv => replace_all url (placeholder kv.1) (value kv.2)) params url.
Definition fill_params (raw own raw_client client : list (bytes * bytes)) (url : bytes) : bytes :=
  fill PathEscape client (fill id raw_client (fill PathEscape own (fill id raw url))).

(** A template: its text and its placeholders. *)
Inductive piece := Lit (p : bytes) | Hole (k : bytes).
Definition render1 (x : piece) : bytes := match x with Lit p => p | Hole k => placeholder k end.
Definition render (t : list piece) : bytes := flat_map render1 t.
Definition no_braces (k : bytes) : Prop := (123 ∉ k) /\ (125 ∉ k).
Definition piece_ok (x : piece) : Prop := match x with Lit p => 123 ∉ p | Hole k => no_braces k end.
Definition put (k v : bytes) (x : piece) : piece := match x with Hole k' => if bool_decide (k' = k) then Lit v else x | Lit p => x end.

Lemma replace_skip p s old new : replace_from (length p) (p ++ s) old new = replace_from 0 s old new.
Proof. induction p as [|b p IH]; [done|exact IH]. Qed.
Lemma replace_match s k new : replace_all (placeholder k ++ s) (placeholder k) new = new ++ replace_all s (placeholder k) new.
Proof.
  unfold replace_all, placeholder. cbn [app replace_from]. rewrite bool_decide_true. 2: { change (123 :: (k ++ [125]) ++ s) with ((123 :: k ++ [125]) ++ s). by rewrite take_app_length. }
  f_equal. cbn [length]. rewrite Nat.sub_succ, Nat.sub_0_r. apply replace_skip.
Qed.
Lemma replace_plain p s k new : 123 ∉ p -> replace_all (p ++ s) (placeholder k) new = p ++ replace_all s (placeholder k) new.
Proof.
  induction p as [|b p IH]; intros Hp; [done|]. apply not_elem_of_cons in Hp as [Hb Hp]. unfold replace_all in *. cbn [app replace_from]. rewrite bool_decide_false; [by rewrite IH|]. intros E. cbn in E. by injection E as ->.
Qed.
(** A placeholder is a prefix of another only if it is the same. *)
Lemma placeholder_prefix k k' s : no_braces k -> no_braces k' -> take (length (placeholder k)) (placeholder k' ++ s) = placeholder k -> k' = k.
Proof.
  intros [_ Hk] [_ Hk'] E. unfold placeholder in E. cbn [length app take] in E. injection E as E. assert ((k' ++ [125]) ++ s = (k ++ [125]) ++ drop (length (k ++ [125])) ((k' ++ [125]) ++ s)) as E2 by (rewrite <- E at 1; by rewrite take_drop). clear E. revert E2. generalize (drop (length (k ++ [125])) ((k' ++ [125]) ++ s)). intros r E. rewrite <- !app_assoc in E. cbn [app] in E.
  revert k' Hk' E. induction k as [|b k IH]; intros [|b' k'] Hk' E; cbn in E.
  - done.
  - injection E as -> _. by apply not_elem_of_cons in Hk' as [? _].
  - injection E as <- _. by apply not_elem_of_cons in Hk as [? _].
  - injection E as -> E. apply not_elem_of_cons in Hk as [_ Hk], Hk' as [_ Hk']. f_equal. by apply IH.
Qed.
Lemma replace_other s k k' new : no_braces k -> no_braces k' -> k' <> k -> replace_all (placeholder k' ++ s) (placeholder k) new = placeholder k' ++ replace_all s (placeholder k) new.
Proof.
  intros Hk Hk' Hne. unfold replace_all. change (placeholder k' ++ s) with (123 :: (k' ++ [125]) ++ s). cbn [replace_from]. rewrite bool_decide_false; [|intros E; by apply Hne, (placeholder_prefix k k' s)]. change (123 :: replace_all ((k' ++ [125]) ++ s) (placeholder k) new = 123 :: (k' ++ [125]) ++ replace_all s (placeholder k) new). f_equal. apply replace_plain.
  apply not_elem_of_app. split; [apply Hk'|]. apply not_elem_of_cons. split; [done|apply not_elem_of_nil].
Qed.
Lemma replace_template t k v : Forall piece_ok t -> no_braces k -> replace_all (render t) (placeholder k) v = render (put k v <$> t).
Proof.
  intros Ht Hk. induction Ht as [|x t Hx _ IH]; [done|]. cbn [render flat_map fmap list_fmap]. fold (render t). fold (render (put k v <$> t)). destruct x as [p|k']; cbn [render1 put]; [by rewrite replace_plain, IH|]. destruct (bool_decide_reflect (k' = k)) as [->|Hne]; cbn [render1]; [by rewrite replace_match, IH|by rewrite replace_other, IH].
Qed.

(** One loop over a map, in any order. *)
Abbreviation params := (gmap bytes bytes).
Definition filled (value : bytes -> bytes) (m : params) (x : piece) : piece := match x with Hole k => match m !! k with Some v => Lit (value v) | None => x end | Lit p => x end.
Lemma put_ok k v x : 123 ∉ v -> piece_ok x -> piece_ok (put k v x).
Proof. intros Hv Hx. destruct x as [p|k']; cbn; [done|]. by destruct (bool_decide _). Qed.
Lemma fill_list (value : bytes -> bytes) l t : Forall (fun kv => no_braces kv.1 /\ (123 ∉ value kv.2)) l -> Forall piece_ok t -> fill value l (render t) = render (filled value (list_to_map l) <$> t) /\ Forall piece_ok (filled value (list_to_map l) <$> t).
Proof.
  revert t. induction l as [|[k v] l IH]; intros t Hl Ht.
  - assert (filled value (list_to_map []) <$> t = t) as ->; [|done]. rewrite <- (list_fmap_id t) at 2. apply list_fmap_ext. intros i x _. destruct x as [p|k]; cbn; [done|]. by rewrite lookup_empty.
  - apply Forall_cons in Hl as [[Hk Hv] Hl]. cbn [fst snd] in *. assert (Forall piece_ok (put k (value v) <$> t)) as Ht' by (apply Forall_fmap; eapply Forall_impl; [exact Ht|]; intros x; by apply put_ok).
    destruct (IH _ Hl Ht') as [Hf Hok]. change (fill value ((k, v) :: l) (render t)) with (fill value l (replace_all (render t) (placeholder k) (value v))). rewrite replace_template by done. rewrite Hf. rewrite <- list_fmap_compose in *.
    assert ((filled value (list_to_map l) ∘ put k (value v)) <$> t = filled value (list_to_map ((k, v) :: l)) <$> t) as <-; [|done]. apply list_fmap_ext. intros i x _. destruct x as [p|k']; cbn; [done|]. destruct (bool_decide_reflect (k' = k)) as [->|Hne]; cbn; [by rewrite lookup_insert_eq|by rewrite lookup_insert_ne].
Qed.
Lemma fill_map (value : bytes -> bytes) (m : params) l t : l ≡ₚ map_to_list m -> map_Forall (fun k v => no_braces k /\ (123 ∉ value v)) m -> Forall piece_ok t -> fill value l (render t) = render (filled value m <$> t) /\ Forall piece_ok (filled value m <$> t).
Proof.
  intros Hl Hm Ht. assert (list_to_map l = m) as <-.
  { rewrite <- (list_to_map_to_list m). apply list_to_map_proper; [|done]. rewrite Hl. apply NoDup_fst_map_to_list. }
  apply fill_list; [|done]. apply Forall_forall. intros [k v] Hin. rewrite Hl in Hin. apply elem_of_map_to_list in Hin. by apply (Hm k v).
Qed.
Lemma PathEscape_ok v : Forall (fun b => 0 <= b < 256) v -> 123 ∉ PathEscape v.
Proof.
  intros Hv. induction Hv as [|b v Hb _ IH]; [apply not_elem_of_nil|]. cbn [PathEscape flat_map]. apply not_elem_of_app. split; [|exact IH].
  destruct (path_segment_byte b) eqn:E; [intros Ee%list_elem_of_singleton; by rewrite <- Ee in E|]. assert (0 <= Z.shiftr b 4 < 16) as H1 by (rewrite Z.shiftr_div_pow2 by lia; split; [apply Z.div_pos; lia|apply Z.div_lt_upper_bound; lia]). assert (0 <= Z.land b 15 < 16) as H2 by (change 15 with (Z.ones 4); rewrite Z.land_ones by lia; apply Z.mod_pos_bound; lia).
  assert (forall d, 0 <= d < 16 -> hex_upper d <> 123) as Hh by (intros d Hd; unfold hex_upper; destruct (d <? 10); lia). rewrite !not_elem_of_cons. split; [done|]. split; [intros Ee; by apply (Hh _ H1)|]. split; [intros Ee; by apply (Hh _ H2)|apply not_elem_of_nil].
Qed.
(** The value of a placeholder: the request's before the client's, and one that is not escaped before one that is. *)
Definition path_value (raw own raw_client client : params) (x : piece) : piece :=
  match x with
  | Lit p => x
  | Hole k =>
      match raw !! k, own !! k, raw_client !! k, client !! k with
      | Some v, _, _, _ => Lit v
      | None, Some v, _, _ => Lit (PathEscape v)
      | None, None, Some v, _ => Lit v
      | None, None, None, Some v => Lit (PathEscape v)
      | None, None, None, None => x
      end
  end.
(** Names without braces, values that are bytes; a value that is not escaped must not open a placeholder. *)
Definition escaped_ok (m : params) : Prop := map_Forall (fun k v => no_braces k /\ Forall (fun b => 0 <= b < 256) v) m.
Definition raw_ok (m : params) : Prop := map_Forall (fun k v => no_braces k /\ (123 ∉ v)) m.

(** C40: every placeholder of a URL gets its value. In whatever orders the four maps are visited, each placeholder of the
    template is replaced by the value that has its name in the first map that has one; the values of
    [PathParams] are escaped, so that none can add a placeholder, a slash or a query; the rest of the
    template, and placeholders without a value, stay as they are. Names have no braces, and the values of
    the raw maps, which are not escaped, no opening one: with it the result does depend on the
    order ([raw_params_ambiguous]). *)
Theorem path_params_filled (raw own raw_client client : params) l1 l2 l3 l4 (t : list piece) :
  l1 ≡ₚ map_to_list raw -> l2 ≡ₚ map_to_list own -> l3 ≡ₚ map_to_list raw_client -> l4 ≡ₚ map_to_list client ->
  raw_ok raw -> escaped_ok own -> raw_ok raw_client -> escaped_ok client -> Forall piece_ok t ->
  fill_params l1 l2 l3 l4 (render t) = render (path_value raw own raw_client client <$> t).
Proof.
  intros P1 P2 P3 P4 R1 R2 R3 R4 Ht. assert (forall m, escaped_ok m -> map_Forall (fun k v => no_braces k /\ (123 ∉ PathEscape v)) m) as He by (intros m Hm k v Hk; destruct (Hm k v Hk); split; [done|by apply PathEscape_ok]).
  unfold fill_params. destruct (fill_map id raw l1 t P1 R1 Ht) as [-> H1]. destruct (fill_map PathEscape own l2 _ P2 (He _ R2) H1) as [-> H2]. destruct (fill_map id raw_client l3 _ P3 R3 H2) as [-> H3]. destruct (fill_map PathEscape client l4 _ P4 (He _ R4) H3) as [-> _].
  rewrite <- !list_fmap_compose. f_equal. apply list_fmap_ext. intros i x _. destruct x as [p|k]; cbn; [done|]. destruct (raw !! k) eqn:E1; cbn; [done|]. destruct (own !! k) eqn:E2; cbn; [done|]. destruct (raw_client !! k) eqn:E3; cbn; [done|]. by destruct (client !! k).
Qed.
Definition ex_template : list piece := [Lit (bytes_of_string "https://h/"); Hole (bytes_of_string "id"); Lit [47]; Hole (bytes_of_string "name"); Hole (bytes_of_string "other")].
Definition ex_own : params := {[bytes_of_string "id" := bytes_of_string "a/{name}"]}.
Definition ex_common : params := {[bytes_of_string "name" := bytes_of_string "x"]}.
Lemma path_params_filled_witness :
  fill_params [] (map_to_list ex_own) (map_to_list ex_common) [] (render ex_template) = bytes_of_string "https://h/a%2F%7Bname%7D/x{other}".
Proof.
  rewrite (path_params_filled ∅ ex_own ex_common ∅ [] (map_to_list ex_own) (map_to_list ex_common) [] ex_template); [vm_compute; reflexivity|by rewrite map_to_list_empty|done|done|by rewrite map_to_list_empty|done| | |done|].
  - intros k v Hk. unfold ex_own, ex_common in Hk. apply lookup_singleton_Some in Hk as [<- <-]. split; [split|]; apply (bool_decide_eq_true_1 _); vm_compute; reflexivity.
  - intros k v Hk. unfold ex_own, ex_common in Hk. apply lookup_singleton_Some in Hk as [<- <-]. split; [split|]; apply (bool_decide_eq_true_1 _); vm_compute; reflexivity.
  - repeat constructor; apply (bool_decide_eq_true_1 _); vm_compute; reflexivity.
Defined.
(** Values that are not escaped can contain placeholders: what comes out depends on the order in which Go visits the map. *)
Example raw_params_ambiguous :
  fill id [(bytes_of_string "a", bytes_of_string "{b}"); (bytes_of_string "b", bytes_of_string "x")] (bytes_of_string "/{a}") = bytes_of_string "/x" /\
  fill id [(bytes_of_string "b", bytes_of_string "x"); (bytes_of_string "a", bytes_of_string "{b}")] (bytes_of_string "/{a}") = bytes_of_string "/{b}".
Proof. split; vm_compute; reflexivity. Qed.

(** ** The request
    What [Client.roundTrip] takes from a [Request]; its cookies as [Cookie.String] gives them, [cr_URLHost]: of its URL. *)
Record clientRequest := mkClientRequest {
  cr_Method : string; cr_Headers : option Header; cr_URLHost : string; cr_Body : bytes; cr_contentLength : option Z; cr_GetBody : option (result error (option ioReader)); cr_unReplayable : bool; cr_close : bool; cr_Cookies : list string }.
Record sentRequest := mkSentRequest {
  sr_Method : string; sr_Header : option Header; sr_Host : string; sr_ContentLength : Z; sr_Body : option ioReader; sr_GetBody : option (result error (option ioReader)); sr_Close : bool }.
(** [http.Request.AddCookie]; writing to a nil map panics. *)
Definition AddCookie (h : option Header) (s : string) : result string (option Header) :=
  match h with
  | None => Err "assignment to entry in nil map"%string
  | Some h => Ok (Some (let c := Header_Get h "Cookie" in Header_Set h "Cookie" (if String.eqb c "" then s else c +:+ "; " +:+ s)))
  end.
Fixpoint add_cookies (h : option Header) (cookies : list string) : result string (option Header) :=
  match cookies with
  | [] => Ok h
  | s :: cookies => match AddCookie h s with Err p => Err p | Ok h => add_cookies h cookies end
  end.
(** The outer [Err] is a panic; the inner one the error of [GetBody]. *)
Definition new_request (r : clientRequest) : result string (result error sentRequest) :=
  let host := match cr_Headers r with Some h => Header_Get h "Host" | None => "" end in
  let host := if negb (String.eqb host "") then host else cr_URLHost r in
  let contentLength := default (len (cr_Body r)) (cr_contentLength r) in
  match match cr_GetBody r with Some (Err e) => Err e | Some (Ok b) => Ok b | None => Ok None end with
  | Err e => Ok (Err e)
  | Ok reqBody =>
      let getBody := if cr_unReplayable r then None else cr_GetBody r in
      match add_cookies (cr_Headers r) (cr_Cookies r) with
      | Err p => Err p
      | Ok h => Ok (Ok (mkSentRequest (cr_Method r) h host contentLength reqBody getBody (cr_close r)))
      end
  end.
Fixpoint cookie_line (have : string) (cookies : list string) : string := match cookies with [] => have | s :: cookies => cookie_line (if String.eqb have "" then s else have +:+ "; " +:+ s) cookies end.
Lemma add_cookies_spec h cookies : add_cookies (Some h) cookies = Ok (Some match cookies with [] => h | _ => <["Cookie"%string := [cookie_line (Header_Get h "Cookie") cookies]]> h end).
Proof.
  revert h. induction cookies as [|s cookies IH]; intros h; [done|]. cbn [add_cookies AddCookie]. rewrite IH. unfold Header_Set, Header_Get, Header_values. change (CanonicalHeaderKey "Cookie") with "Cookie"%string. do 2 f_equal. destruct cookies as [|s' cookies]; [done|]. cbn [cookie_line]. rewrite lookup_insert_eq, insert_insert_eq. done.
Qed.

(** ** Progress
    [callbackReader]; [now] is the time after a read. What the callback is called with is in [cb_reports]. *)
Record callbackReader := mkCallbackReader { cb_r : body; cb_read : Z; cb_lastRead : Z; cb_lastTime : Z; cb_interval : Z; cb_reports : list Z }.
Definition cb_Read (r : callbackReader) (k now : Z) : bytes * option error * callbackReader :=
  let '((d, err), b) := body_Read (cb_r r) k in
  let eof := bool_decide (err = Some io_EOF) in
  if len d <=? 0 then
    (d, err, if eof && (cb_lastRead r <? cb_read r) then mkCallbackReader b (cb_read r) (cb_read r) (cb_lastTime r) (cb_interval r) (cb_reports r ++ [cb_read r])
             else mkCallbackReader b (cb_read r) (cb_lastRead r) (cb_lastTime r) (cb_interval r) (cb_reports r))
  else
    let read := cb_read r + len d in
    (d, err, if eof then mkCallbackReader b read read (cb_lastTime r) (cb_interval r) (cb_reports r ++ [read])
             else if cb_interval r <=? now - cb_lastTime r then mkCallbackReader b read read now (cb_interval r) (cb_reports r ++ [read])
             else mkCallbackReader b read (cb_lastRead r) (cb_lastTime r) (cb_interval r) (cb_reports r)).
(** Reads up to the first error. *)
Fixpoint cb_reads (r : callbackReader) (ks : list (Z * Z)) : bytes * option error * callbackReader :=
  match ks with
  | [] => ([], None, r)
  | (k, now) :: ks =>
      match cb_Read r k now with
      | (d, Some e, r) => (d, Some e, r)
      | (d, None, r) => let '((ds, e), r) := cb_reads r ks in (d ++ ds, e, r)
      end
  end.
(** The reports grow; the last one is [cb_lastRead]. *)
Definition cb_ok (r : callbackReader) : Prop :=
  StronglySorted Z.lt (0 :: cb_reports r) /\ default 0 (list.last (cb_reports r)) = cb_lastRead r /\ cb_lastRead r <= cb_read r /\ Forall (fun n => n <= cb_lastRead r) (cb_reports r).
Lemma sorted_snoc a l x : StronglySorted Z.lt (a :: l) -> default a (list.last l) < x -> StronglySorted Z.lt (a :: l ++ [x]).
Proof.
  revert a. induction l as [|b l IH]; intros a Hs Hx; [cbn in *; by repeat constructor|]. apply StronglySorted_inv in Hs as [Hs Ha]. assert (StronglySorted Z.lt (b :: l ++ [x])) as Hs2 by (apply IH; [done|]; rewrite last_cons in Hx; by destruct (list.last l)).
  constructor; [exact Hs2|]. cbn [app]. apply Forall_cons in Ha as [Hab Hal]. constructor; [done|]. apply Forall_app. split; [done|]. apply Forall_singleton. apply StronglySorted_inv in Hs2 as [_ Hb]. apply Forall_app in Hb as [_ Hb]. apply Forall_cons in Hb as [Hb _]. lia.
Qed.
Lemma cb_report r b x t i : cb_ok r -> cb_lastRead r < x -> cb_ok (mkCallbackReader b x x t i (cb_reports r ++ [x])).
Proof. intros (Hs & Hl & Hle & Hall) Hx. split; [cbn [cb_reports]; apply sorted_snoc; [done|by rewrite Hl]|]. cbn. rewrite last_snoc. split; [done|]. split; [lia|]. apply Forall_app. split; [eapply Forall_impl; [exact Hall|]; cbn; lia|]. by constructor. Qed.
Lemma cb_Read_spec r k now : body_ok (cb_r r) -> 0 < k -> cb_ok r -> let '((d, e), r') := cb_Read r k now in cb_ok r' /\ cb_read r' = cb_read r + len d /\
  match e with
  | Some e => body_out (cb_r r) = (d, e) /\ (e = io_EOF -> cb_lastRead r' = cb_read r')
  | None => body_ok (cb_r r') /\ body_out (cb_r r) = (d ++ (body_out (cb_r r')).1, (body_out (cb_r r')).2) /\ (body_fuel (cb_r r') < body_fuel (cb_r r))%nat
  end.
Proof.
  intros Hb Hk Hok. unfold cb_Read. pose proof (body_Read_spec (cb_r r) k Hb Hk) as Hr. destruct (body_Read (cb_r r) k) as [[d err] b]. destruct Hr as [_ Hr]. pose proof (len_nonneg d) as Hd. pose proof Hok as (Hs & Hl & Hle & Hall).
  destruct (Z.leb_spec (len d) 0) as [Hz|Hpos].
  - assert (d = []) as -> by (apply len_zero; lia). destruct err as [e|]; [|by destruct Hr as (_ & Hne & _)]. change (len []) with 0. rewrite Z.add_0_r. destruct (bool_decide_reflect (Some e = Some io_EOF)) as [[= ->]|Hne]; cbn [andb].
    + destruct (Z.ltb_spec (cb_lastRead r) (cb_read r)); [split; [by apply cb_report|]; done|]. split; [done|]. split; [done|]. split; [done|]. intros _. cbn. lia.
    + split; [done|]. split; [done|]. split; [done|]. intros ->. by destruct Hne.
  - assert (cb_lastRead r < cb_read r + len d) as Hlt by lia. destruct (bool_decide_reflect (err = Some io_EOF)) as [->|Hne]; [split; [by apply cb_report|]; done|].
    destruct (_ <=? _); (split; [by apply cb_report || (split; [done|]; split; [done|]; split; [cbn; lia|done])|]); (split; [done|]); destruct err as [e|]; try (destruct Hr as (? & ? & ? & ?); done); split; try done; intros ->; by destruct Hne.
Qed.
Lemma cb_reads_spec ks : Forall (fun k => 0 < k.1) ks -> forall r, body_ok (cb_r r) -> cb_ok r -> let '((d, e), r') := cb_reads r ks in cb_ok r' /\ cb_read r' = cb_read r + len d /\ d `prefix_of` (body_out (cb_r r)).1 /\
  ((body_fuel (cb_r r) <= length ks)%nat -> e <> None) /\ (e <> None -> body_out (cb_r r) = (d, default io_EOF e)) /\ (e = Some io_EOF -> cb_lastRead r' = cb_read r').
Proof.
  induction 1 as [|[k now] ks Hk _ IH]; intros r Hb Hok; cbn [cb_reads].
  - split; [done|]. change (len []) with 0. split; [lia|]. split; [apply prefix_nil|]. split; [|done]. cbn. intros Hf. destruct (cb_r r); cbn in Hf; lia.
  - pose proof (cb_Read_spec r k now Hb Hk Hok) as Hr. destruct (cb_Read r k now) as [[d [e|]] r1]; destruct Hr as (Hok1 & Hrd & Hr).
    + destruct Hr as [Ho He]. split; [done|]. split; [done|]. rewrite Ho. split; [done|]. split; [done|]. split; [done|]. intros [= ->]. by apply He.
    + destruct Hr as (Hb1 & Ho & Hlt). specialize (IH r1 Hb1 Hok1). destruct (cb_reads r1 ks) as [[ds e] r2]. destruct IH as (Hok2 & Hrd2 & Hp & Hf & He & Hl). split; [done|]. rewrite len_app. split; [lia|]. rewrite Ho. split; [by apply prefix_app|]. split; [cbn; intros; apply Hf; lia|]. split; [|done].
      intros Hne. rewrite (He Hne). done.
Qed.
(** Progress is reported truly. For reads with any buffers at any times, the numbers that [callbackReader] reports grow, none is
    above the number of bytes delivered, and at the end of the body the last one is that number, if
    there were any; what the reader delivers is the body. *)
Theorem progress_reported b interval t0 ks : body_ok b -> Forall (fun k => 0 < k.1) ks ->
  let '((d, e), r) := cb_reads (mkCallbackReader b 0 0 t0 interval []) ks in
  StronglySorted Z.lt (0 :: cb_reports r) /\ Forall (fun n => n <= len d) (cb_reports r) /\ d `prefix_of` (body_out b).1 /\ ((body_fuel b <= length ks)%nat -> e <> None) /\
  (e <> None -> body_out b = (d, default io_EOF e)) /\ (e = Some io_EOF -> default 0 (list.last (cb_reports r)) = len d).
Proof.
  intros Hb Hks. set (r0 := mkCallbackReader b 0 0 t0 interval []). assert (cb_ok r0) as Hok by (split; [by repeat constructor|done]). pose proof (cb_reads_spec ks Hks r0 Hb Hok) as Hr. destruct (cb_reads r0 ks) as [[d e] r]. destruct Hr as ((Hs & Hl & Hle & Hall) & Hrd & Hp & Hf & He & Hlast). change (cb_read r0) with 0 in Hrd.
  split; [done|]. split; [eapply Forall_impl; [exact Hall|]; cbn; lia|]. split; [done|]. split; [done|]. split; [done|]. intros Hee. rewrite Hl, Hlast by done. lia.
Qed.
Example progress_example :
  let '((d, e), r) := cb_reads (mkCallbackReader (Raw (mkReader [[1; 2]; [3; 4]; [5]] io_EOF)) 0 0 0 10 []) [(9, 3); (9, 12); (9, 15); (9, 16)] in
  cb_reports r = [4; 5] /\ e = Some io_EOF /\ d = [1; 2; 3; 4; 5].
Proof. vm_compute. done. Qed.
